(* ===== verification/_CoqProject ===== *)
-Q . S2P
Prelude.v
RustStr.v
Alpn.v
Bits.v
ListSort.v
Frame.v
Filename.v
Crypto.v
IpAddr.v
RelayState.v
Mailbox.v
RelayPoll.v
OrphanGc.v
RelaySystem.v
Outbox.v
RelaySession.v
DriveClient.v
ClientPoll.v
EndToEnd.v
Udpgw.v
Cache.v
Token.v
DriveApi.v
Reorder.v
NodeSession.v
NodePool.v
NodeReplay.v
NodeProto.v
Node.v
NodeOps.v
NodeBatch.v
NodeService.v
TunnelMux.v
TunnelLoop.v
TunnelStream.v
TunnelConn.v
FullTunnel.v
HttpText.v
CertTrust.v
MitmCert.v
HttpRead.v
HttpRewrite.v
RangeRelay.v
Calendar.v
RelayJson.v
RelayReply.v
Deployments.v
Sabr.v
RelayCall.v
RelayShare.v
ExitNode.v
TunnelCall.v
ConnPool.v
Updates.v
HostMatch.v
HostRules.v
RoutingRules.v
OAuthFlow.v
DirectMode.v
Fragments.v
DirectRules.v
BypassRules.v
Dispatch.v
DispatchRules.v
RequestRead.v
MitmRequest.v
MitmRules.v
MitmRoutes.v
ConfigCheck.v
ConfigRules.v
ModeSwitch.v
Desktop.v
Lifecycle.v
Socks5.v
Socks5Udp.v
Socks5UdpRules.v
Profiles.v
Doh.v
Discovery.v
Scan.v
