(* ===== verification/Prelude.v ===== *)
(** * rahgozar: a verification development

    rahgozar is a censorship-circumvention proxy with several transports.  Its Drive mode
    carries TCP streams through a shared Google Drive folder used as a mailbox: the client
    (in [src/src]) uploads files named [c2r_<session>_<seq>], the relay (in
    [src/drive-relay]) lists the folder, decrypts them, dials the destinations and answers
    with [r2c_<session>_<seq>] files; both ends share a wire format (in [src/drive-wire]).
    Its Apps Script mode turns each HTTP request of a browser into a call of one of several
    Google Apps Script deployments (src/src/domain_fronter.rs).  Its full mode carries TCP
    and UDP through the same deployments to a tunnel node (src/tunnel-node/src/main.rs),
    many sessions multiplexed into batches by src/src/tunnel_client.rs.  In front of them
    stands a local HTTP and SOCKS5 proxy (src/src/proxy_server.rs) that decides, per
    connection and per request, which transport serves it; some hosts are reached without
    any, by fragmenting the TLS ClientHello (src/src/direct_mode.rs).  This library models
    the three transports, with the token cache, REST client, response cache and udpgw server
    they stand on, the proxy's decisions, protocols and changes of mode, the direct tunnels,
    the checks of the configuration they start from (src/src/config.rs), and what surrounds
    them: sign-in, certificates, updates, the settings of the desktop application.

    ** How the parts interact

    Drive mode.  A client session ([DriveClient.v]) numbers its frames, packs them into
    batches ([Outbox.v], [Frame.v]), seals them ([Crypto.v]) and uploads them under names
    ([Filename.v]).  The relay's poller ([RelayPoll.v]) lists the folder ([DriveApi.v])
    with a bearer token ([Token.v]), groups the files by session, opens a
    session from its first file, and feeds each session's frames in order through a replay
    window into the session's channel ([Mailbox.v]).  The session's driver
    ([RelaySession.v]) dials the destination ([RelayState.v], [IpAddr.v]), writes what it
    receives and uploads what it reads, through the same outbox.  The client's poller
    ([ClientPoll.v]) is the mirror image.  A reaper ([OrphanGc.v]) removes stale files and
    dead sessions while all this runs ([RelaySystem.v]).  [EndToEnd.v] puts the two ends
    together.

    Full mode.  A browser connection ([TunnelConn.v]) runs a pipelined loop of data and poll
    ops ([TunnelLoop.v]) whose messages a multiplexer packs into batches ([TunnelMux.v]).
    The node checks the key, looks the batch up in its replay registry ([NodeReplay.v]) and
    executes it in two phases ([NodeBatch.v], [NodeOps.v], [Node.v]) on its sessions
    ([NodeSession.v], with the write reordering of [Reorder.v]) and its pool of connections
    ([NodePool.v]); [NodeService.v] is the request handler.  [FullTunnel.v] composes the
    client with the node; [TunnelCall.v] is the exchange of a batch through a deployment.

    Apps Script mode.  [RelayShare.v] is the entry of a request: rewriting ([Sabr.v]), exit
    node, cache ([Cache.v]), coalescing of identical requests.  A fetch chooses deployments
    ([Deployments.v]), calls them over HTTP/2 or HTTP/1.1 with one retry or a fan-out
    ([RelayCall.v]), reads the answer ([HttpText.v]) and turns its envelope into the reply
    ([RelayJson.v]), or goes through an exit node behind a deployment ([ExitNode.v]), over
    pooled connections ([ConnPool.v]).  Large downloads are cut into ranges fetched in
    parallel ([RangeRelay.v]).  Calls are counted by the day of the quota ([Calendar.v]).

    The local proxy.  A checked configuration ([ConfigCheck.v]) is resolved into host and
    path rules ([HostMatch.v]).  A CONNECT, by HTTP or by SOCKS5 ([Socks5.v]), goes through
    [dispatch_tunnel] ([Dispatch.v]): to a pass-through, a direct tunnel ([DirectMode.v]), a
    fronted TLS connection, the full-mode or Drive-mode multiplexer, or to the MITM, whose
    requests are read ([RequestRead.v]) and served ([MitmRequest.v]) by the forwarder or by
    Apps Script mode.  UDP is carried by SOCKS5 UDP ASSOCIATE ([Socks5Udp.v]) over the
    full-mode multiplexer.  The mode is started, switched and stopped as a whole
    ([ModeSwitch.v]); the MITM's certificates come from [MitmCert.v], whose authority
    [CertTrust.v] installs in and removes from the system's stores.

    Around it.  The desktop application edits the configuration file, signs in to Drive and
    starts and stops the proxy ([Desktop.v], [OAuthFlow.v], [Lifecycle.v]); a heartbeat
    replaces the front address by one a rescan finds ([Scan.v], [ConnPool.v]); the relay's command line signs in by the device flow; the
    updater checks, stages and applies releases ([Updates.v]).

    ** Files, and the code they model

    - [Prelude]: results with panics, machine integers, byte strings, automation.
    - [RustStr], [Bits], [ListSort]: strings and UTF-8, base64 as a class with laws, shift
      registers, stable sorting, sums over maps.
    - [Frame]: drive-wire/src/frame.rs.  [Filename]: drive-wire/src/filename.rs.
    - [Crypto]: src/drive_crypto.rs; the primitives (X25519, HKDF, ChaCha20-Poly1305,
      bech32m) are the class [CryptoPrims] with the class of laws the code relies on, and
      a toy instance that satisfies them.
    - [IpAddr], [RelayState]: std::net parsing; drive-relay/src/state.rs and
      [destination_allowed] of session.rs.
    - [Mailbox]: what poll.rs and drive_client.rs share; the class [Endpoint]
      is what differs between the two ends: the direction read, the key that opens it, the
      unsealed prefix of a body and the dispatch of a frame to the session's channel.  Its
      proofs are against what senders have sealed at each position ([Positions]), of which
      one sender's log is a case ([Stream]).
    - [RelayPoll]: drive-relay/src/poll.rs.  [OrphanGc]: orphan_gc.rs.  [RelaySystem]: the
      interleavings of polls, sweeps and drivers as a step relation.
    - [Outbox], [RelaySession]: drive-relay/src/session.rs.  [DriveClient], [ClientPoll]:
      src/drive_client.rs.  [EndToEnd]: the composition.
    - [DriveApi]: src/drive_api.rs.  [Token]: drive-relay/src/token.rs, its copy in
      drive_client.rs, and the tokens and errors of drive_oauth.rs.
    - [Udpgw]: tunnel-node/src/udpgw.rs.  [Cache]: src/cache.rs.
    - [Reorder], [NodeSession], [NodePool], [NodeReplay], [NodeProto], [Node], [NodeOps],
      [NodeBatch], [NodeService]: tunnel-node/src/main.rs (write ordering and drains, DNS
      cache and connection pool, replay registry, messages, single operations, batches,
      requests and cleanup).
    - [TunnelMux], [TunnelLoop], [TunnelStream], [TunnelConn]: src/tunnel_client.rs
      (batching and caches, [tunnel_loop] and its proofs, [tunnel_connection]).
      [FullTunnel]: the composition with the node.
    - [HttpText], [HttpRead], [HttpRewrite]: the response texts and the response reader of
      src/domain_fronter.rs, and their proofs.  [RangeRelay]:
      [relay_parallel_range_to] and its proofs.  [RelayJson], [RelayReply]:
      [parse_relay_json], the envelope classifier, the header filter, and their proofs.
      [Deployments]: the choice of deployments, blacklist, strikes, latency scores, probes.
      [Sabr]: [strip_sabr_quality_tracks].  [RelayCall]: [do_relay_with_retry] and below.
      [RelayShare]: [relay].  [ExitNode]: the payload builders, [relay_via_exit_node] and
      [parse_exit_node_response].  [TunnelCall]: [tunnel_request], [tunnel_batch_request_to]
      and the readers of their answers.  [ConnPool]: [acquire], [release], [warm],
      [run_pool_refill], [ensure_h2], [run_ip_health].  [Calendar]: [record_today] and the
      Pacific calendar.
    - [HostMatch], [HostRules], [RoutingRules]: the host and path tests and the start-up
      resolution of src/proxy_server.rs.  [Dispatch], [DispatchRules]: [dispatch_tunnel].
      [RequestRead]: [read_http_head], [parse_request_head], [read_body].
      [MitmRequest], [MitmRules], [MitmRoutes]: [handle_mitm_request], [handle_http_client]
      and the plain-HTTP paths.  [Socks5]: [handle_socks5_client],
      [socks5_connect_via], the pass-through and the datagram format.  [Socks5Udp],
      [Socks5UdpRules]: [handle_socks5_udp_associate] and
      [udp_session_task], their invariant, two runs over the cap, the table's specification.
      [ModeSwitch]: [build_mode_state] and the life of a [RuntimeState].
    - [DirectMode], [Fragments], [DirectRules], [BypassRules]: src/direct_mode.rs (splits and
      the server-name search, the candidate file, breakers, dials; [try_tunnel];
      [try_local_bypass_tunnel]).
    - [ConfigCheck], [ConfigRules]: [validate] and the resolved views of src/config.rs, and
      the name check of src/camouflage.rs.  [Profiles]: src/profiles.rs.
    - [Doh]: src/doh.rs.  [Discovery]: the address filter and
      [discover_front] of src/cdn_discover.rs, the address blocks of src/scan_ips.rs, the
      merge of src/curated_groups.rs.  [Alpn]: the ALPN functions of src/camouflage.rs.
      [Scan]: the rescan of src/scan_ips.rs and the heartbeat's turn, src/scan_sni.rs,
      src/bot_block.rs, src/lan_utils.rs.
    - [CertTrust]: src/cert_installer.rs, in a state monad over the class [Os] of what it
      asks of the operating system.  [MitmCert]: src/mitm.rs over the class [CertLib] of the
      X.509 library.  [Updates]: src/update_check.rs and src/update_apply.rs.  [OAuthFlow]:
      src/drive_oauth.rs, the device flow of drive-relay/src/main.rs, drive-relay's config.rs.
      [Desktop]: the commands of desktop/src-tauri/src/commands.rs that change the
      configuration, and its loopback listener.  [Lifecycle]: start, stop and status of the
      proxy and the sign-in commands, as steps on the application's shared state.

    State is a record per component ([World], [Mux], [Driver], [Pump], [Server],
    [ResponseCache], [TokenCache], [SessionInner], [Fronter], [Conns], [RuntimeState], ...); an async function is a
    state transformer cut at the points where it can be interleaved; what a [select!]
    resolves to, what Drive, a deployment, the operating system and the token endpoint
    answer, clocks and random bytes are arguments (environment records and event lists)
    over which the theorems quantify.

    ** What the theorems show

    - Drive mode, end to end: whatever the folder, the network and the schedule do, the
      bytes written to the destination are a prefix of the bytes the client read, and only
      the requested destination is dialed ([EndToEnd.client_to_destination_prefix]); the
      bytes the client writes are those of frames that drivers of the session put at their
      positions, and with one driver a prefix of what it read
      ([destination_to_client_prefix]); a replayed first file after an eviction makes a
      second driver under the same keys ([replayed_hello_respawns]); with the
      files visible one poll and a driver whose I/O succeeds deliver the whole stream
      ([client_to_destination_delivery]).  Receivers: a session's channel holds exactly the
      dispatch of the first [k] frames sent ([relay_delivers_prefix],
      [client_delivers_prefix]); visible batches are delivered within one cycle
      ([relay_cold_start], [relay_cycle_delivers], [client_cycle_delivers]); the workers of
      a cycle commute ([relay_workers_commute]).  Senders: the batches of a session form a
      log that the other side accepts and carry exactly the bytes read
      ([relay_session_stream], [client_session_stream]).
    - Wire formats, names, keys and windows: round trips, soundness of the decoders, key
      agreement, uniqueness of nonces, strict ordering of the window.
    - Policies: the destination guard, the reaper, the listing cursor, the token cache under
      every schedule, complete listings, exact queries, the response cache's bound, FIFO
      eviction and TTL rules, udpgw reassembly and its datagram policy.
    - The node: after any requests, every session carries both streams in order within its
      bounds ([node_streams_in_order]); a batch is answered op by op
      ([batch_answers_each_op], [batch_data_is_drained]), not at all without the key
      ([bad_key_no_effect]), and not executed again when retried
      while its entry is registered ([batch_retry_same_answer], [replay_at_most_once]); eviction ends, the pool is
      bounded, cleanup is exact.
    - The full-mode client: uploads are exactly what the browser sent, numbered without gaps
      ([tunnel_upload_stream]); downloads are released in the order of the requests
      ([tunnel_download_in_order]); batches carry every op once ([mux_batches_cover]);
      client and node agree on which batches may be replayed ([replay_agreement]).  End to
      end, the destination gets what the browser sent, and the browser what the node read
      when the node serves a session's polls in order ([full_tunnel_streams]);
      [download_can_reorder] shows that it need not.
    - Apps Script mode: one fetch per key and no crossed replies under every interleaving
      ([relay_sharing]); requests with side effects are not fanned out or replayed after an
      HTTP/2 failure past the send ([unsafe_request_posts]), though they can be executed
      twice on other paths ([post_executed_twice]); the deployments chosen
      ([next_script_choice], [script_rotation], [fanout_choice]) and that none is banned for
      good ([no_permanent_ban]); the reader returns on every stream ([http_reader_total])
      and gives the response back whatever the reads ([http_response_read]); the reply built
      from an envelope ([relay_json_reply]); a rewritten response splits into the same body
      and headers ([rewrite_roundtrip]); ranges cover the entity and are stitched or
      streamed into it, if it is larger than one chunk ([range_plan], [range_download]); a
      smaller one is whatever the probe brought ([short_probe_truncates]); surplus tracks are dropped and
      nothing else ([sabr_strip]).  Payloads and replies of the exit node
      ([exit_payloads], [exit_node_reply]) and its posts ([exit_call_posts],
      [exit_post_executed_twice]); the client relies on the
      capabilities the nodes announced ([capabilities_announced]).  Connections are bounded,
      fresh and of the current address under every interleaving ([connections_current]);
      a refill ends with a warm pool while other tasks use it ([refill_ends]) unless the pool
      is full of ageing connections ([refill_spins]); an address is given up only after consecutive failures
      ([health_swap_justified]).  The quota day is the Pacific day ([quota_day_exact]) and
      the counters are those of its calls ([quota_counts]).
    - The proxy: every CONNECT is decided, and the tunnels it models to the byte get
      what the client sent ([dispatch_decides]); hosts
      meant for the relay reach it ([relay_hosts_reach_relay]); the matchers decide
      membership of normalised names ([host_matchers]); requests are read whole whatever the
      reads and within their limits ([request_read], [request_reader_bounded]), routed with
      side effects relayed once ([mitm_request_routed]) and sent on as they came
      ([plain_http_sent_on], [forwarded_request]).  SOCKS5 client and server understand each
      other ([socks5_client_server]); datagrams are parsed and built without loss
      ([udp_packet_roundtrip]); a UDP association stays within its bounds and serves only its
      client, in order, under every interleaving ([udp_associate_invariant]); its table
      refines a queue ([udp_table_refines_queue]), though the end of an evicted session can
      take a fresh one with it ([stale_task_drops_session]) and an evicted one can stay open
      ([evicted_session_left_open]).  The runtime is in one mode as a whole under every
      interleaving of start, switch and stop ([one_mode_at_a_time]), switching is starting
      afresh, the ports apart ([switch_equals_start]), a checked configuration starts ([validated_runtime]).
    - Direct tunnels: fragments reassemble and cut the server name ([fragments_reassemble],
      [server_name_is_cut]); both tunnels return, hand back or send exactly the client's
      bytes and keep their tables bounded ([direct_tunnel_outcome], [local_bypass_tunnel]).
    - Configuration: what [validate] accepts resolves at start-up and is routed as written
      ([validated_config_starts], [validated_pattern_routes]).  The store of profiles refines a
      map ([profiles_refine_map]); applying a profile leaves a configuration the runtime
      accepts or changes nothing ([profile_applied]).
    - Names and addresses: the resolver answers from what was sent for the same name
      ([doh_answers]) and its requests carry nothing else ([doh_request_exact]); only public
      addresses are probed ([discovery_public]); candidates lie in their blocks
      ([cidr_candidates]); curated groups never displace a user's ([curated_merge]).  The front
      address is replaced only by one that answered ([heartbeat_swap_reachable]), though its
      certificate is not verified ([unverified_front_sticks]); probes are reported in order
      ([sni_probes]), PTR answers read whole ([ptr_body_read], [huge_chunk_panics]), public
      names proposed ([discovered_names]); blocks are recognised ([block_recognised]) and
      told once ([one_hint_per_host]); the address shown is no wildcard ([advertised_host]).
    - Certificates: the leaf presented names the host alone, for servers only, and is valid
      for its year ([leaf_for_the_host]); the authority survives restarts
      ([authority_survives]); removal is verified before files
      are deleted ([removal_verified], [linux_removal_clean]), for one of its two names, with
      one way to leave a stale root ([stale_root_after_removal]); edits of user.js are undone exactly
      ([user_js_edits]); the distribution is the one named ([os_release_family]).  The
      protocols of a ClientHello are read back ([alpn_read_back]) and both TLS legs agree
      ([alpn_coherent]).
    - Updates: with a key in the build only signed binaries are run ([executable_genuine]),
      except for a copy cut short ([truncated_update_applied]) and an archive whose name leads
      to another file ([archive_name_escapes]); numeric versions are ordered
      as sequences ([version_order]) and others are not ([prerelease_misordered]); the asset
      offered ([asset_choice], [wrong_asset_offered]); redirects ([redirects_without_bound]).
    - Sign-in and settings: forms and callbacks carry what was put in ([oauth_texts]); the
      device flow saves what was granted ([device_flow_saves], [gateway_page_ends_flow]); a
      refresh token stays with its client ([token_belongs_to_client]); a save changes only
      the form's keys ([form_saves_its_own]); a code is taken only with the state expected
      ([callback_checks_state], [forged_error_ends_sign_in]); each sign-in is saved once, for
      its own client and after its own callback ([sign_in_saved_once]); under every interleaving of start, stop and
      crash no proxy is left without a handle ([no_orphan_proxy]), though a late end can stop
      a new proxy and a failed start look like a running one ([restart_faults]).
    - Theorems named after a fault ([post_executed_twice], [restart_faults], ...) are runs in
      which the code departs from what its comments promise.

    ** Bounds and fuel

    Loops over lists are structural.  [Udpgw.drain_frames] has as fuel one more than the
    length of the buffer, which is enough because every turn removes at least two bytes
    (the reassembly theorem proves that a result is produced).  [RustStr.dec_digits] has 20
    digits, enough for 64 bits.  [DriveApi.list_pages] counts down the [MAX_PAGES] of the
    source.  The loops of the response reader have as fuel one more than the bytes and
    events left in the stream ([HttpText.stream_size]), which every read lowers;
    [http_reader_total] proves that it suffices.  [Sabr.segments] has the length of the
    body, [NodeReplay.evict] the length of the queue, [Doh.decode_chunks] and
    [Scan.decode_chunked_http_body] one more than the length of the body, which every chunk
    shortens ([decode_chunks_spec], [decode_chunked_spec]); [Scan.chunks] has the length of
    the list ([batches_concat]); the plan of ranges is given the number
    of chunks the source computes, and [range_plan] proves that the iterator is then at its
    end.  [ConnPool.refill_loop] runs over the list of its turns, with what other tasks do in
    each, and [OAuthFlow.flow_loop] over the list of what the environment answers, [Desktop.run_oauth_callback_listener] over the connections accepted
    before its deadline; [Alpn.alpn_names] has the length of the list and
    [Updates.https_raw_get] a number of redirects that [redirects_without_bound] shows no
    number replaces.  The polling deadlines of the node are turns of a list of events.  Integers are
    [Z] with ranges stated where the code relies on them and with their casts, saturations
    and checked additions written out; a counter that would need 2^64 operations to wrap is
    assumed below that where a theorem says so; [debug_assert!] is compiled out.  An [f64]
    is the standard library's [SpecFloat].

    ** Not modelled

    Logging, metrics and statistics; construction of HTTP and TLS clients and of the HTTP/2
    framing; JSON decoding and encoding (third-party code, a parameter); of
    src/domain_fronter.rs the keep-alive pings, the statistics per site and the SNI pool; of
    src/tunnel_client.rs the semaphores per deployment; of src/proxy_server.rs the accept
    loops, the splicing of established connections and the forwarder's own connection; the
    connections and the printed tables of the scanners; of src/update_apply.rs the macOS bundle
    and the hand-over on Windows; of the desktop application the window, the logs and the
    commands that only call the library; the binaries' set-up and the mobile application,
    which are calls of what is modelled.  In a UDP association a task's close of its session
    and its removal from the table are one step with the end of its loop. *)

From stdpp Require Import prelude gmap strings list sorting.
From Stdlib Require Import ZArith Lia.

#[global] Open Scope Z_scope.

(** ** Results, panics

    A fallible Rust function returns [Ok] or [Err]; [Panic] is the third outcome
    a Rust expression can have (an out-of-range slice, an [expect] on an error). *)
Inductive res (A E : Type) : Type :=
| Ok (a : A)
| Err (e : E)
| Panic.
Arguments Ok {A E} a.
Arguments Err {A E} e.
Arguments Panic {A E}.

Definition res_bind {A B E} (m : res A E) (k : A -> res B E) : res B E :=
  match m with Ok a => k a | Err e => Err e | Panic => Panic end.

(** [map_err] of Rust's [Result]. *)
Definition map_err {A E F} (f : E -> F) (m : res A E) : res A F :=
  match m with Ok a => Ok a | Err e => Err (f e) | Panic => Panic end.

Declare Scope rust_scope.
Delimit Scope rust_scope with rust.
Notation "'let?' x ':=' m 'in' k" := (res_bind m (fun x => k))
  (at level 10, x pattern, m at level 200, k at level 200) : rust_scope.
#[global] Open Scope rust_scope.

(** ** Machine integers

    A [w]-bit unsigned value is a [Z] in [0, 2^w); [wrap w] is what an [as uN]
    cast or a wrapping operation leaves. *)
Definition wrap (w z : Z) : Z := z mod 2 ^ w.
Definition u64_max : Z := 2 ^ 64 - 1.
Definition is_u8 (z : Z) : Prop := 0 <= z < 256.
Definition is_u16 (z : Z) : Prop := 0 <= z < 2 ^ 16.
Definition is_u32 (z : Z) : Prop := 0 <= z < 2 ^ 32.
Definition is_u64 (z : Z) : Prop := 0 <= z < 2 ^ 64.
Definition checked_add_u64 (a b : Z) : option Z :=
  if a + b <=? u64_max then Some (a + b) else None.
Definition saturating_add_u64 (a b : Z) : Z := Z.min (a + b) u64_max.
Definition saturating_mul_u64 (a b : Z) : Z := Z.min (a * b) u64_max.
Definition saturating_sub (a b : Z) : Z := Z.max 0 (a - b).

Lemma wrap_small w z : 0 <= z < 2 ^ w -> wrap w z = z.
Proof. apply Z.mod_small. Qed.

Lemma wrap_range w z : 0 <= w -> 0 <= wrap w z < 2 ^ w.
Proof. intros. apply Z.mod_pos_bound. apply Z.pow_pos_nonneg; lia. Qed.

(** ** Byte strings *)
Abbreviation bytes := (list Z).

(** The length of a slice, as the [usize] the code compares. *)
Definition len {A} (l : list A) : Z := Z.of_nat (length l).

Definition bytes_ok (l : bytes) : Prop := Forall is_u8 l.

Lemma len_nonneg {A} (l : list A) : 0 <= len l.
Proof. unfold len. lia. Qed.

Lemma len_app {A} (l k : list A) : len (l ++ k) = len l + len k.
Proof. unfold len. rewrite length_app. lia. Qed.

Lemma len_cons {A} (x : A) l : len (x :: l) = 1 + len l.
Proof. unfold len. cbn [length]. lia. Qed.

Lemma len_nil {A} : len (@nil A) = 0.
Proof. reflexivity. Qed.

Lemma bytes_ok_app l k : bytes_ok (l ++ k) <-> bytes_ok l /\ bytes_ok k.
Proof. apply Forall_app. Qed.

(** A boolean fact about every byte, by evaluation. *)
Lemma u8_exhaustive (p : Z -> bool) :
  forallb p (Z.of_nat <$> seq 0 256) = true -> forall b, is_u8 b -> p b = true.
Proof.
  intros H b Hb. rewrite forallb_forall in H. apply H. unfold is_u8 in Hb.
  apply list_elem_of_In, list_elem_of_fmap. exists (Z.to_nat b).
  split; [lia|]. apply list_elem_of_In, in_seq. lia.
Qed.

(** Big-endian encoding on [n] bytes ([to_be_bytes], [put_u64] and the like). *)
Fixpoint be_bytes (n : nat) (z : Z) : bytes :=
  match n with
  | O => []
  | S m => (z / 256 ^ Z.of_nat m) mod 256 :: be_bytes m z
  end.

Fixpoint be_val (l : bytes) : Z :=
  match l with
  | [] => 0
  | b :: l' => b * 256 ^ Z.of_nat (length l') + be_val l'
  end.

Definition le_bytes (n : nat) (z : Z) : bytes := reverse (be_bytes n z).

Lemma pow256_pos n : 0 < 256 ^ Z.of_nat n.
Proof. apply Z.pow_pos_nonneg; lia. Qed.

Lemma pow256_S n : 256 ^ Z.of_nat (S n) = 256 * 256 ^ Z.of_nat n.
Proof. rewrite Nat2Z.inj_succ, Z.pow_succ_r; lia. Qed.

Lemma pow256_2 : 256 ^ Z.of_nat 2 = 2 ^ 16.
Proof. reflexivity. Qed.
Lemma pow256_4 : 256 ^ Z.of_nat 4 = 2 ^ 32.
Proof. reflexivity. Qed.
Lemma pow256_8 : 256 ^ Z.of_nat 8 = 2 ^ 64.
Proof. reflexivity. Qed.

Lemma length_be_bytes n z : length (be_bytes n z) = n.
Proof. induction n; cbn; auto. Qed.

Lemma be_bytes_ok n z : bytes_ok (be_bytes n z).
Proof.
  induction n; cbn; constructor; auto. apply Z.mod_pos_bound. lia.
Qed.

Lemma be_val_bound l : bytes_ok l -> 0 <= be_val l < 256 ^ Z.of_nat (length l).
Proof.
  induction 1 as [|b l Hb Hl IH]; [cbn; lia|].
  cbn [be_val length]. rewrite pow256_S. unfold is_u8 in Hb.
  pose proof (pow256_pos (length l)). nia.
Qed.

Lemma be_bytes_shift n z k : be_bytes n (k * 256 ^ Z.of_nat n + z) = be_bytes n z.
Proof.
  revert k. induction n as [|n IH]; intros k; [reflexivity|].
  cbn [be_bytes]. rewrite pow256_S. pose proof (pow256_pos n).
  replace (k * (256 * 256 ^ Z.of_nat n) + z)
    with ((k * 256) * 256 ^ Z.of_nat n + z) by ring.
  f_equal; [|apply IH].
  rewrite Z.div_add_l by lia.
  rewrite Z.add_comm, Z.mod_add by lia. reflexivity.
Qed.

Lemma be_bytes_be_val l : bytes_ok l -> be_bytes (length l) (be_val l) = l.
Proof.
  induction 1 as [|b l Hb Hl IH]; [reflexivity|].
  cbn [be_val length be_bytes]. rewrite be_bytes_shift, IH. f_equal.
  pose proof (be_val_bound l Hl). unfold is_u8 in Hb.
  rewrite Z.div_add_l by lia. rewrite (Z.div_small (be_val l)) by lia.
  rewrite Z.add_0_r. apply Z.mod_small. lia.
Qed.

Lemma be_val_be_bytes n z : be_val (be_bytes n z) = z mod 256 ^ Z.of_nat n.
Proof.
  induction n as [|n IH]; [cbn; rewrite Z.mod_1_r; reflexivity|].
  cbn [be_bytes be_val]. rewrite IH, length_be_bytes, pow256_S.
  pose proof (pow256_pos n).
  rewrite (Z.mul_comm 256), Z.rem_mul_r by lia. lia.
Qed.

Lemma be_val_be_bytes_id n z :
  0 <= z < 256 ^ Z.of_nat n -> be_val (be_bytes n z) = z.
Proof. intros. rewrite be_val_be_bytes. apply Z.mod_small. lia. Qed.

Lemma be_bytes_inj n y z :
  0 <= y < 256 ^ Z.of_nat n -> 0 <= z < 256 ^ Z.of_nat n ->
  be_bytes n y = be_bytes n z -> y = z.
Proof.
  intros Hy Hz E. rewrite <- (be_val_be_bytes_id n y), <- (be_val_be_bytes_id n z); auto.
  by rewrite E.
Qed.

Lemma le_bytes_inj n y z :
  0 <= y < 256 ^ Z.of_nat n -> 0 <= z < 256 ^ Z.of_nat n ->
  le_bytes n y = le_bytes n z -> y = z.
Proof.
  unfold le_bytes. intros Hy Hz E. apply (inj reverse) in E. by eapply be_bytes_inj.
Qed.

Lemma length_le_bytes n z : length (le_bytes n z) = n.
Proof. unfold le_bytes. rewrite length_reverse. apply length_be_bytes. Qed.

Create HintDb rust.
Create Rewrite HintDb rust.
#[export] Hint Resolve len_nonneg be_bytes_ok : rust.
#[export] Hint Rewrite @len_app @len_cons @len_nil length_be_bytes length_le_bytes : rust.

(** Case analysis on every boolean comparison in sight, with the Prop it decides. *)
Ltac bool_cases :=
  repeat match goal with
  | |- context [?a <=? ?b] => destruct (Z.leb_spec a b)
  | |- context [?a <? ?b] => destruct (Z.ltb_spec a b)
  | |- context [?a =? ?b] => destruct (Z.eqb_spec a b)
  | H : context [?a <=? ?b] |- _ => destruct (Z.leb_spec a b)
  | H : context [?a <? ?b] |- _ => destruct (Z.ltb_spec a b)
  | H : context [?a =? ?b] |- _ => destruct (Z.eqb_spec a b)
  end.
