(* ===== verification/RustStr.v ===== *)
(** * Strings of the Rust standard library

    A Rust [str] is modelled by the list of its Unicode scalar values; [as_bytes],
    [len] and [from_utf8] go through UTF-8.  The file holds the operations of [str]
    and of integer parsing and printing that the modelled sources call, written after
    their documented behaviour, and the lemmas the components share. *)

From Stdlib Require Import Ascii String.
From stdpp Require Import prelude.
From stdpp Require Export strings.
From S2P Require Import Prelude.
#[local] Open Scope Z_scope.

Abbreviation str := (list Z).

(** An ASCII literal of the source: its code points, which are also its bytes. *)
Definition lit (s : string) : str :=
  (fun a => Z.of_N (N_of_ascii a)) <$> list_ascii_of_string s.
Arguments lit s%_string.

Definition char_ok (c : Z) : Prop := 0 <= c < 0xD800 \/ 0xE000 <= c < 0x110000.
Definition str_ok (s : str) : Prop := Forall char_ok s.

(** ** UTF-8 *)
Definition utf8_char (c : Z) : bytes :=
  if c <? 0x80 then [c]
  else if c <? 0x800 then [0xC0 + c / 64; 0x80 + c mod 64]
  else if c <? 0x10000 then [0xE0 + c / 4096; 0x80 + c / 64 mod 64; 0x80 + c mod 64]
  else [0xF0 + c / 262144; 0x80 + c / 4096 mod 64; 0x80 + c / 64 mod 64; 0x80 + c mod 64].

(** [str::as_bytes]. *)
Definition as_bytes (s : str) : bytes := s ≫= utf8_char.

(** [str::len], which counts bytes. *)
Definition str_len (s : str) : Z := len (as_bytes s).

Definition between (lo b hi : Z) : bool := (lo <=? b) && (b <=? hi).
Definition is_cont (b : Z) : bool := between 0x80 b 0xBF.

(** The second byte of a three- or four-byte sequence, restricted as in the
    well-formedness table of the Unicode standard. *)
Definition second3 (b0 b1 : Z) : bool :=
  ((b0 =? 0xE0) && between 0xA0 b1 0xBF) || (between 0xE1 b0 0xEC && is_cont b1)
  || ((b0 =? 0xED) && between 0x80 b1 0x9F) || (between 0xEE b0 0xEF && is_cont b1).
Definition second4 (b0 b1 : Z) : bool :=
  ((b0 =? 0xF0) && between 0x90 b1 0xBF) || (between 0xF1 b0 0xF3 && is_cont b1)
  || ((b0 =? 0xF4) && between 0x80 b1 0x8F).

(** [std::str::from_utf8]. *)
Fixpoint from_utf8 (l : bytes) : option str :=
  match l with
  | [] => Some []
  | b0 :: t0 =>
    if b0 <? 0x80 then cons b0 <$> from_utf8 t0 else
    match t0 with
    | [] => None
    | b1 :: t1 =>
      if between 0xC2 b0 0xDF && is_cont b1
      then cons ((b0 - 0xC0) * 64 + (b1 - 0x80)) <$> from_utf8 t1 else
      match t1 with
      | [] => None
      | b2 :: t2 =>
        if second3 b0 b1 && is_cont b2
        then cons ((b0 - 0xE0) * 4096 + (b1 - 0x80) * 64 + (b2 - 0x80)) <$> from_utf8 t2 else
        match t2 with
        | [] => None
        | b3 :: t3 =>
          if second4 b0 b1 && is_cont b2 && is_cont b3
          then cons ((b0 - 0xF0) * 262144 + (b1 - 0x80) * 4096 + (b2 - 0x80) * 64 + (b3 - 0x80))
                 <$> from_utf8 t3
          else None
        end
      end
    end
  end.

(** [String::from_utf8_lossy]: each maximal ill-formed piece becomes U+FFFD. *)
Definition REPLACEMENT : Z := 0xFFFD.

Fixpoint from_utf8_lossy (l : bytes) : str :=
  match l with
  | [] => []
  | b0 :: t0 =>
    if b0 <? 0x80 then b0 :: from_utf8_lossy t0 else
    match t0 with
    | [] => [REPLACEMENT]
    | b1 :: t1 =>
      if between 0xC2 b0 0xDF && is_cont b1
      then (b0 - 0xC0) * 64 + (b1 - 0x80) :: from_utf8_lossy t1
      else if second3 b0 b1 then
        match t1 with
        | [] => [REPLACEMENT]
        | b2 :: t2 =>
          if is_cont b2
          then (b0 - 0xE0) * 4096 + (b1 - 0x80) * 64 + (b2 - 0x80) :: from_utf8_lossy t2
          else REPLACEMENT :: from_utf8_lossy t1
        end
      else if second4 b0 b1 then
        match t1 with
        | [] => [REPLACEMENT]
        | b2 :: t2 =>
          if is_cont b2 then
            match t2 with
            | [] => [REPLACEMENT]
            | b3 :: t3 =>
              if is_cont b3
              then (b0 - 0xF0) * 262144 + (b1 - 0x80) * 4096 + (b2 - 0x80) * 64 + (b3 - 0x80)
                     :: from_utf8_lossy t3
              else REPLACEMENT :: from_utf8_lossy t2
            end
          else REPLACEMENT :: from_utf8_lossy t1
        end
      else REPLACEMENT :: from_utf8_lossy t0
    end
  end.

Ltac Zify.zify_post_hook ::= Z.div_mod_to_equations.

(** Settles the guard of the first [if] of the goal by arithmetic. *)
Ltac settle_if :=
  match goal with |- context [if ?g then _ else _] =>
    first [ replace g with true by (unfold second3, second4, is_cont, between; lia)
          | replace g with false by (unfold second3, second4, is_cont, between; lia) ]
  end; cbn iota.

Lemma from_utf8_char c l :
  char_ok c -> from_utf8 (utf8_char c ++ l) = cons c <$> from_utf8 l.
Proof.
  intros Hc. unfold utf8_char. unfold char_ok in Hc.
  destruct (Z.ltb_spec c 0x80); [cbn [app from_utf8]; by settle_if|].
  destruct (Z.ltb_spec c 0x800).
  { cbn [app from_utf8]. do 2 settle_if. f_equal; f_equal; lia. }
  destruct (Z.ltb_spec c 0x10000); cbn [app from_utf8].
  { do 3 settle_if. f_equal; f_equal; lia. }
  do 4 settle_if. f_equal; f_equal; lia.
Qed.

Lemma as_bytes_cons c s : as_bytes (c :: s) = utf8_char c ++ as_bytes s.
Proof. reflexivity. Qed.

Lemma from_utf8_as_bytes s : str_ok s -> from_utf8 (as_bytes s) = Some s.
Proof.
  induction 1 as [|c s Hc Hs IH]; [reflexivity|].
  rewrite as_bytes_cons, from_utf8_char by done. by rewrite IH.
Qed.

Lemma from_utf8_lossy_char c l :
  char_ok c -> from_utf8_lossy (utf8_char c ++ l) = c :: from_utf8_lossy l.
Proof.
  intros Hc. unfold utf8_char. unfold char_ok in Hc.
  destruct (Z.ltb_spec c 0x80); [cbn [app from_utf8_lossy]; by settle_if|].
  destruct (Z.ltb_spec c 0x800).
  { cbn [app from_utf8_lossy]. do 2 settle_if. f_equal; lia. }
  destruct (Z.ltb_spec c 0x10000); cbn [app from_utf8_lossy].
  { do 4 settle_if. f_equal; lia. }
  do 6 settle_if. f_equal; lia.
Qed.

Lemma from_utf8_lossy_as_bytes s : str_ok s -> from_utf8_lossy (as_bytes s) = s.
Proof.
  induction 1 as [|c s Hc Hs IH]; [reflexivity|].
  rewrite as_bytes_cons, from_utf8_lossy_char by done. by rewrite IH.
Qed.

Lemma utf8_char_ok c : char_ok c -> bytes_ok (utf8_char c).
Proof.
  unfold char_ok, utf8_char, bytes_ok, is_u8. intros.
  repeat case_match; repeat constructor; lia.
Qed.

Lemma as_bytes_app s t : as_bytes (s ++ t) = as_bytes s ++ as_bytes t.
Proof. apply bind_app. Qed.

(** On ASCII text the bytes are the code points. *)
Definition is_ascii (c : Z) : Prop := 0 <= c < 0x80.

Lemma as_bytes_ascii s : Forall is_ascii s -> as_bytes s = s.
Proof.
  induction 1 as [|c s Hc Hs IH]; [reflexivity|].
  unfold is_ascii in Hc. rewrite as_bytes_cons, IH. unfold utf8_char. by settle_if.
Qed.

Lemma ascii_str_ok s : Forall is_ascii s -> str_ok s.
Proof. intros H. eapply Forall_impl; [exact H|]. unfold is_ascii, char_ok. lia. Qed.

(** ** Searching and splitting *)
Fixpoint strip_prefix (p s : str) : option str :=
  match p, s with
  | [], _ => Some s
  | a :: p', b :: s' => if a =? b then strip_prefix p' s' else None
  | _ :: _, [] => None
  end.

Definition starts_with (s p : str) : bool :=
  match strip_prefix p s with Some _ => true | None => false end.
Definition ends_with (s p : str) : bool := starts_with (reverse s) (reverse p).

(** [str::split_once(&str)]: at the first occurrence. *)
Fixpoint split_once (pat s : str) : option (str * str) :=
  match strip_prefix pat s with
  | Some rest => Some ([], rest)
  | None =>
    match s with
    | [] => None
    | x :: s' => prod_map (cons x) id <$> split_once pat s'
    end
  end.

(** [str::rsplit_once(char)]: at the last occurrence. *)
Fixpoint rsplit_once (c : Z) (s : str) : option (str * str) :=
  match s with
  | [] => None
  | x :: s' =>
    match rsplit_once c s' with
    | Some (a, b) => Some (x :: a, b)
    | None => if x =? c then Some ([], s') else None
    end
  end.

Fixpoint contains (s pat : str) : bool :=
  starts_with s pat || match s with [] => false | _ :: s' => contains s' pat end.

(** [str::find(&str)], as the text before and from the match on. *)
Fixpoint find_str (s pat : str) : option str :=
  if starts_with s pat then Some s
  else match s with [] => None | _ :: s' => find_str s' pat end.

Lemma strip_prefix_app p s : strip_prefix p (p ++ s) = Some s.
Proof. induction p as [|a p IH]; cbn; [done|]. by rewrite Z.eqb_refl. Qed.

Lemma strip_prefix_Some p s r : strip_prefix p s = Some r <-> s = p ++ r.
Proof.
  split; [|intros ->; apply strip_prefix_app].
  revert s. induction p as [|a p IH]; intros s; cbn; [congruence|].
  destruct s as [|b s]; [done|]. destruct (Z.eqb_spec a b); [|done].
  intros H%IH. by subst.
Qed.

Lemma rsplit_once_None c s : c ∉ s -> rsplit_once c s = None.
Proof.
  induction s as [|x s IH]; [done|]. intros H. rewrite not_elem_of_cons in H.
  cbn. rewrite IH by tauto. destruct (Z.eqb_spec x c); [|done]. naive_solver.
Qed.

Lemma rsplit_once_last c s t : c ∉ t -> rsplit_once c (s ++ c :: t) = Some (s, t).
Proof.
  intros Ht. induction s as [|x s IH]; cbn.
  - rewrite rsplit_once_None by done. by rewrite Z.eqb_refl.
  - by rewrite IH.
Qed.

Lemma rsplit_once_Some c s a b :
  rsplit_once c s = Some (a, b) -> s = a ++ c :: b /\ c ∉ b.
Proof.
  revert a b. induction s as [|x s IH]; intros a b; cbn; [done|].
  destruct (rsplit_once c s) as [[a' b']|] eqn:E.
  - intros [= <- <-]. destruct (IH _ _ eq_refl) as [-> ?]. done.
  - destruct (Z.eqb_spec x c) as [->|]; [|done]. intros [= <- <-]. split; [done|].
    clear IH. revert E. induction s as [|y s IH]; [intros _; set_solver|].
    cbn. destruct (rsplit_once c s) as [[??]|]; [done|].
    destruct (Z.eqb_spec y c); [done|]. intros _. rewrite not_elem_of_cons. split; [done|].
    by apply IH.
Qed.

(** [str::split_once] with a two-character pattern whose first character does not
    occur in the text before it. *)
Lemma split_once_first a p s t :
  a ∉ s -> split_once (a :: p) (s ++ (a :: p) ++ t) = Some (s, t).
Proof.
  intros Hs. induction s as [|x s IH].
  - change ([] ++ (a :: p) ++ t) with ((a :: p) ++ t).
    destruct ((a :: p) ++ t) eqn:E; [done|].
    cbn -[strip_prefix]. rewrite <- E, strip_prefix_app. done.
  - rewrite not_elem_of_cons in Hs. cbn -[app].
    change ((x :: s) ++ (a :: p) ++ t) with (x :: (s ++ (a :: p) ++ t)). cbn -[app].
    destruct (Z.eqb_spec a x); [naive_solver|]. rewrite IH by tauto. done.
Qed.

Lemma split_once_Some pat s a b : split_once pat s = Some (a, b) -> s = a ++ pat ++ b.
Proof.
  revert a. induction s as [|x s IH]; intros a; cbn.
  - destruct (strip_prefix pat []) as [r|] eqn:E; [|done]. intros [= <- <-]. by apply strip_prefix_Some in E.
  - destruct (strip_prefix pat (x :: s)) as [r|] eqn:E.
    + intros [= <- <-]. by apply strip_prefix_Some in E.
    + destruct (split_once pat s) as [[a' b']|]; cbn; [|done]. intros [= <- <-]. by rewrite (IH a' eq_refl).
Qed.

(** ** Trimming and case *)
(** Unicode's White_Space property, which [char::is_whitespace] tests. *)
Definition is_whitespace (c : Z) : bool :=
  between 9 c 13 || (c =? 32) || (c =? 0x85) || (c =? 0xA0) || (c =? 0x1680)
  || between 0x2000 c 0x200A || (c =? 0x2028) || (c =? 0x2029) || (c =? 0x202F)
  || (c =? 0x205F) || (c =? 0x3000).

Fixpoint drop_while {A} (p : A -> bool) (l : list A) : list A :=
  match l with
  | [] => []
  | x :: l' => if p x then drop_while p l' else l
  end.

Definition trim_start_by (p : Z -> bool) (s : str) : str := drop_while p s.
Definition trim_end_by (p : Z -> bool) (s : str) : str := reverse (drop_while p (reverse s)).
Definition trim (s : str) : str := trim_end_by is_whitespace (trim_start_by is_whitespace s).
Definition trim_end_matches (c : Z) (s : str) : str := trim_end_by (Z.eqb c) s.

Definition ascii_lower (c : Z) : Z := if between 65 c 90 then c + 32 else c.
Definition ascii_upper (c : Z) : Z := if between 97 c 122 then c - 32 else c.
Definition to_ascii_lowercase (s : str) : str := ascii_lower <$> s.
Definition to_ascii_uppercase (s : str) : str := ascii_upper <$> s.

Lemma drop_while_head {A} (p : A -> bool) x l : p x = false -> drop_while p (x :: l) = x :: l.
Proof. cbn. by intros ->. Qed.

Lemma trim_id_of_ends s x y m :
  s = x :: m -> last s = Some y -> is_whitespace x = false -> is_whitespace y = false ->
  trim s = s.
Proof.
  intros Hs Hl Hx Hy. unfold trim, trim_start_by, trim_end_by.
  assert (drop_while is_whitespace s = s) as -> by (subst s; by apply drop_while_head).
  apply last_Some in Hl as [s' Hs']. rewrite Hs' at 1. rewrite reverse_snoc.
  rewrite drop_while_head by done. rewrite <- reverse_snoc, <- Hs'. apply reverse_involutive.
Qed.

Lemma Forall_drop_while {A} (P : A -> Prop) p l : Forall P l -> Forall P (drop_while p l).
Proof. induction 1; cbn; [done|]. case_match; auto. Qed.

(** ** Unsigned integers in decimal *)
Definition is_digit (c : Z) : bool := between 48 c 57.

Fixpoint parse_digits (max acc : Z) (s : str) : option Z :=
  match s with
  | [] => Some acc
  | c :: s' =>
    if is_digit c && (acc * 10 + (c - 48) <=? max)
    then parse_digits max (acc * 10 + (c - 48)) s' else None
  end.

(** [str::parse] at an unsigned type with maximum [max]: an optional plus sign, then
    at least one digit, and no overflow. *)
Definition parse_uint (max : Z) (s : str) : option Z :=
  match s with
  | [] => None
  | c :: s' => if c =? 43 then match s' with [] => None | _ => parse_digits max 0 s' end
               else parse_digits max 0 s
  end.
Definition parse_u64 := parse_uint u64_max.
Definition parse_u16 := parse_uint 65535.

Fixpoint dec_digits (fuel : nat) (n : Z) (acc : str) : str :=
  match fuel with
  | O => acc
  | S f => let acc' := (48 + n mod 10) :: acc in
           if n <? 10 then acc' else dec_digits f (n / 10) acc'
  end.

(** [Display] of an unsigned integer; a [u64] has at most 20 digits. *)
Definition dec_string (n : Z) : str := dec_digits 20 n [].

Definition digits_val (a : Z) (s : str) : Z := fold_left (fun a c => a * 10 + (c - 48)) s a.

Lemma digits_val_ge a s : 0 <= a -> Forall (fun c => is_digit c = true) s -> a <= digits_val a s.
Proof.
  intros Ha H. revert a Ha. induction H as [|c s Hc Hs IH]; intros a Ha; cbn; [lia|].
  unfold is_digit, between in Hc. specialize (IH (a * 10 + (c - 48))). unfold digits_val in IH.
  lia.
Qed.

Lemma parse_digits_val max a s :
  0 <= a -> Forall (fun c => is_digit c = true) s -> digits_val a s <= max ->
  parse_digits max a s = Some (digits_val a s).
Proof.
  intros Ha H. revert a Ha. induction H as [|c s Hc Hs IH]; intros a Ha Hm; [done|].
  cbn [parse_digits]. change (digits_val a (c :: s)) with (digits_val (a * 10 + (c - 48)) s) in *.
  rewrite Hc. unfold is_digit, between in Hc.
  assert (0 <= a * 10 + (c - 48)) by lia.
  pose proof (digits_val_ge (a * 10 + (c - 48)) s ltac:(lia) Hs).
  destruct (Z.leb_spec (a * 10 + (c - 48)) max); [|lia]. cbn. by apply IH.
Qed.

Lemma digits_val_cons a c s : digits_val a (c :: s) = digits_val (a * 10 + (c - 48)) s.
Proof. reflexivity. Qed.

Lemma dec_digits_val f n acc :
  0 <= n < 10 ^ Z.of_nat f -> (0 < f)%nat -> digits_val 0 (dec_digits f n acc) = digits_val n acc.
Proof.
  revert n acc. induction f as [|f IH]; intros n acc Hn Hf; [lia|].
  cbn [dec_digits]. destruct (Z.ltb_spec n 10).
  - rewrite digits_val_cons. by replace (0 * 10 + (48 + n mod 10 - 48)) with n by lia.
  - rewrite Nat2Z.inj_succ, Z.pow_succ_r in Hn by lia.
    destruct f as [|f]; [cbn in Hn; lia|].
    rewrite IH by lia. rewrite digits_val_cons.
    by replace (n / 10 * 10 + (48 + n mod 10 - 48)) with n by lia.
Qed.

Lemma dec_digits_digits f n acc :
  0 <= n -> Forall (fun c => is_digit c = true) acc ->
  Forall (fun c => is_digit c = true) (dec_digits f n acc).
Proof.
  revert n acc. induction f as [|f IH]; intros n acc Hn Ha; cbn [dec_digits]; [done|].
  assert (is_digit (48 + n mod 10) = true) by (unfold is_digit, between; lia).
  case_match; [by constructor|]. apply IH; [lia|]. by constructor.
Qed.

Lemma dec_digits_nonempty f n acc : (0 < f)%nat -> dec_digits f n acc <> [].
Proof.
  assert (forall f n acc, acc <> [] -> dec_digits f n acc <> []) as H.
  { clear. induction f; cbn; intros; [done|]. case_match; [done|]. by apply IHf. }
  destruct f; [lia|]. intros _. cbn. case_match; [done|]. by apply H.
Qed.

Lemma dec_string_digits n : 0 <= n -> Forall (fun c => is_digit c = true) (dec_string n).
Proof. intros. apply dec_digits_digits; [lia|constructor]. Qed.

Lemma dec_string_not_elem c n : is_digit c = false -> 0 <= n -> c ∉ dec_string n.
Proof.
  intros Hc Hn Hin. pose proof (dec_string_digits n Hn) as H.
  rewrite Forall_forall in H. apply H in Hin. congruence.
Qed.

Lemma dec_string_ascii n : 0 <= n -> Forall is_ascii (dec_string n).
Proof.
  intros H. eapply Forall_impl; [by apply dec_string_digits|].
  unfold is_digit, between, is_ascii. intros; lia.
Qed.

Lemma parse_dec_string max n : 0 <= n <= max -> n < 10 ^ 20 -> parse_uint max (dec_string n) = Some n.
Proof.
  intros Hn Hb. pose proof (dec_string_digits n ltac:(lia)) as Hd.
  assert (digits_val 0 (dec_string n) = n) as Hv.
  { unfold dec_string. rewrite dec_digits_val; [reflexivity| |lia]. cbn. lia. }
  assert (parse_digits max 0 (dec_string n) = Some n) as Hp.
  { rewrite parse_digits_val; [by rewrite Hv|lia|done|lia]. }
  unfold parse_uint. destruct (dec_string n) as [|c s] eqn:E.
  { exfalso. eapply (dec_digits_nonempty 20 n []); [lia|exact E]. }
  inversion Hd as [|?? Hc]; subst. unfold is_digit, between in Hc.
  destruct (Z.eqb_spec c 43); [lia|]. done.
Qed.

Lemma parse_digits_bound max a s n :
  0 <= a <= max -> parse_digits max a s = Some n -> 0 <= n <= max.
Proof.
  revert a. induction s as [|c s IH]; intros a Ha; cbn; [naive_solver lia|].
  destruct (is_digit c) eqn:Hc; cbn; [|done].
  destruct (Z.leb_spec (a * 10 + (c - 48)) max); [|done].
  apply IH. unfold is_digit, between in Hc. lia.
Qed.

Lemma parse_uint_bound max s n : 0 <= max -> parse_uint max s = Some n -> 0 <= n <= max.
Proof.
  intros Hm. unfold parse_uint. repeat case_match; try done; apply parse_digits_bound; lia.
Qed.

(** ** Trimming *)
Lemma drop_while_suffix {A} (p : A -> bool) l : exists a, l = a ++ drop_while p l.
Proof. induction l as [|x l [a IH]]; [by exists []|]. cbn. destruct (p x); [exists (x :: a); cbn; congruence|by exists []]. Qed.

Lemma trim_infix s : exists a b, s = a ++ trim s ++ b.
Proof.
  unfold trim, trim_end_by, trim_start_by. destruct (drop_while_suffix is_whitespace s) as [a Ha]. set (t := drop_while is_whitespace s) in *.
  destruct (drop_while_suffix is_whitespace (reverse t)) as [b Hb]. exists a, (reverse b). rewrite <- reverse_app, <- Hb, reverse_involutive. exact Ha.
Qed.

Lemma trim_trim s : trim (trim s) = trim s.
Proof.
  unfold trim, trim_end_by, trim_start_by.
  assert (forall l : str, drop_while is_whitespace (drop_while is_whitespace l) = drop_while is_whitespace l) as Hidem.
  { induction l as [|c l IH]; [done|]. cbn. destruct (is_whitespace c) eqn:E; [done|]. cbn. by rewrite E. }
  set (t := drop_while is_whitespace s). destruct (drop_while is_whitespace (reverse t)) as [|c r] eqn:E; [done|].
  assert (drop_while is_whitespace (reverse (c :: r)) = reverse (c :: r)) as Hs.
  { destruct (drop_while_suffix is_whitespace (reverse t)) as [a Ha]. rewrite E in Ha. apply (f_equal reverse) in Ha. rewrite reverse_involutive, reverse_app in Ha.
    destruct (reverse (c :: r)) as [|d u] eqn:Er; [apply (f_equal length) in Er; rewrite length_reverse in Er; done|]. cbn. destruct (is_whitespace d) eqn:Ed; [|done].
    pose proof (Hidem s) as Hi. fold t in Hi. rewrite Ha in Hi. cbn in Hi. rewrite Ed in Hi. apply (f_equal length) in Hi.
    destruct (drop_while_suffix is_whitespace (u ++ reverse a)) as [b Hb]. apply (f_equal length) in Hb. rewrite !length_app in Hb. cbn in Hi. rewrite !length_app in Hi. lia. }
  rewrite Hs, reverse_involutive. rewrite <- E, Hidem, E. done.
Qed.

(** * The Base64 alphabet

    The sources use the [STANDARD] engine of the [base64] crate, which is not part of the
    repository: the codec is a class, with the documented behaviour the code relies on. *)

Class Base64 := {
  b64_encode : bytes -> str;
  b64_decode : str -> option bytes;
  b64_error : str -> str   (* the message of the error for a string that does not decode *)
}.

Class Base64Laws (B : Base64) : Prop := {
  b64_decode_encode b : b64_decode (b64_encode b) = Some b;
  b64_encode_nil : b64_encode [] = []
}.

Lemma b64_encode_nonempty {B : Base64} {L : Base64Laws B} b : b <> [] -> b64_encode b <> [].
Proof.
  intros Hb E. apply Hb. pose proof (b64_decode_encode b) as H1. pose proof (b64_decode_encode []) as H2.
  rewrite E in H1. rewrite b64_encode_nil, H1 in H2. by injection H2.
Qed.

(** A codec that satisfies the laws, for the examples. *)
Definition toy_base64 : Base64 := {| b64_encode := fun b => b; b64_decode := fun s => Some s; b64_error := fun _ => [] |}.
Lemma toy_base64_laws : Base64Laws toy_base64.
Proof. by constructor. Qed.
