(* ===== verification/Alpn.v ===== *)
(** * src/camouflage.rs: the protocols of a browser's ClientHello

    The list of protocols that a browser offers, read from the first bytes of its connection,
    and the list that is offered upstream.  Positions are natural numbers: no input is long
    enough for [checked_add] to fail.  Reading outside the bytes is [None] where the code uses
    [get] and a [Panic] where it indexes. *)

From stdpp Require Import prelude.
From S2P Require Import Prelude RustStr.
#[local] Open Scope Z_scope.

(** [data.get(i..i + n)] *)
Definition slice (data : bytes) (i n : nat) : option bytes :=
  if (i + n <=? length data)%nat then Some (take n (drop i data)) else None.

Definition be16 (l : bytes) : nat := match l with [a; b] => Z.to_nat (a * 256 + b) | _ => 0%nat end.

(** The loop over the names from [i] on; [None] inside when the list is not well formed. *)
Fixpoint alpn_names (fuel : nat) (data : bytes) (i list_end : nat) (out : list bytes) : res (option (list bytes)) Empty_set :=
  match fuel with
  | O => Ok None
  | S fuel =>
    if negb (i <? list_end)%nat then Ok (Some out) else
    match data !! i with
    | None => Ok None
    | Some nl =>
      let i := S i in
      let ne := (i + Z.to_nat nl)%nat in
      if (list_end <? ne)%nat then Ok None else
      match slice data i (Z.to_nat nl) with
      | Some name => alpn_names fuel data ne list_end (out ++ [name])
      | None => Panic
      end
    end
  end.

Definition parse_alpn_list (data : bytes) (start end_ : nat) : res (option (list bytes)) Empty_set :=
  match slice data start 2 with
  | None => Ok None
  | Some lh =>
    let i := (start + 2)%nat in
    let list_end := (i + be16 lh)%nat in
    if (end_ <? list_end)%nat then Ok None else
    let? o := alpn_names (S (length data)) data i list_end [] in
    Ok (match o with Some [] => None | o => o end)
  end.

(** The loop over the extensions from [i] on. *)
Fixpoint find_alpn (fuel : nat) (data : bytes) (i ext_end : nat) : res (option (list bytes)) Empty_set :=
  match fuel with
  | O => Ok None
  | S fuel =>
    if negb (i + 4 <=? ext_end)%nat then Ok None else
    match slice data i 2, slice data (i + 2) 2 with
    | Some typ, Some l =>
      let i := (i + 4)%nat in
      let body_end := (i + be16 l)%nat in
      if (ext_end <? body_end)%nat then Ok None
      else if bool_decide (be16 typ = 16%nat) then parse_alpn_list data i body_end
      else find_alpn fuel data body_end ext_end
    | _, _ => Ok None
    end
  end.

(** After the fixed fields: the positions of session, ciphers, compression and extensions. *)
Definition client_hello_alpn (data : bytes) : res (option (list bytes)) Empty_set :=
  if negb (bool_decide (data !! 0%nat = Some 0x16)) then Ok None
  else if negb (bool_decide (data !! 5%nat = Some 0x01)) then Ok None
  else
    match data !! 43%nat with
    | None => Ok None
    | Some session_len =>
      let i := (44 + Z.to_nat session_len)%nat in
      match slice data i 2 with
      | None => Ok None
      | Some cipher =>
        let i := (i + 2 + be16 cipher)%nat in
        match data !! i with
        | None => Ok None
        | Some comp_len =>
          let i := (i + 1 + Z.to_nat comp_len)%nat in
          match slice data i 2 with
          | None => Ok None
          | Some ext_total =>
            let i := (i + 2)%nat in
            let ext_end := (i + be16 ext_total)%nat in
            if (length data <? ext_end)%nat then Ok None else find_alpn (S (length data)) data i ext_end
          end
        end
      end
    end.

Definition H2 : bytes := lit "h2".
Definition HTTP11 : bytes := lit "http/1.1".

Definition choose_upstream_alpn (browser_alpn : option (list bytes)) : list bytes :=
  let out := foldl (fun out p => if (bool_decide (p = H2) || bool_decide (p = HTTP11)) && negb (bool_decide (p ∈ out)) then out ++ [p] else out)
    [] (default [] browser_alpn) in
  if bool_decide (out = []) then [HTTP11] else out.

(** ** A ClientHello *)

Definition u16 (n : nat) : bytes := [Z.of_nat (n / 256); Z.of_nat (n mod 256)].
Definition names_text (names : list bytes) : bytes := names ≫= fun n => len n :: n.
Definition alpn_body (names : list bytes) : bytes := u16 (length (names_text names)) ++ names_text names.
Definition ext_text (e : nat * bytes) : bytes := u16 e.1 ++ u16 (length e.2) ++ e.2.
Definition exts_text (es : list (nat * bytes)) : bytes := es ≫= ext_text.

(** The record header without its type, the handshake length, version and random are free. *)
Definition client_hello (header length_version_random session ciphers compression : bytes) (es : list (nat * bytes)) : bytes :=
  [0x16] ++ header ++ [0x01] ++ length_version_random ++ [len session] ++ session ++ u16 (length ciphers) ++ ciphers
  ++ [len compression] ++ compression ++ u16 (length (exts_text es)) ++ exts_text es.

Lemma be16_u16 n : Z.of_nat n < 65536 -> be16 (u16 n) = n.
Proof.
  intros Hn. unfold be16, u16. rewrite <- (Nat2Z.id n) at 3. f_equal. rewrite Nat2Z.inj_div, Nat2Z.inj_mod. change (Z.of_nat 256) with 256.
  pose proof (Z.div_mod (Z.of_nat n) 256). lia.
Qed.

Lemma slice_mid (pre x post : bytes) i n : i = length pre -> n = length x -> slice (pre ++ x ++ post) i n = Some x.
Proof.
  intros -> ->. unfold slice. rewrite (proj2 (Nat.leb_le _ _)) by (rewrite !length_app; lia). by rewrite drop_app_length, take_app_length.
Qed.

Lemma byte_mid (pre post : bytes) c i : i = length pre -> (pre ++ c :: post) !! i = Some c.
Proof. intros ->. by rewrite lookup_app_r, Nat.sub_diag by lia. Qed.

Lemma alpn_names_read names : forall fuel pre post out list_end, Forall (fun n => (length n < 256)%nat) names -> list_end = (length pre + length (names_text names))%nat ->
  (length names < fuel)%nat -> alpn_names fuel (pre ++ names_text names ++ post) (length pre) list_end out = Ok (Some (out ++ names)).
Proof.
  induction names as [|n names IH]; intros fuel pre post out list_end Hn -> Hf; (destruct fuel as [|fuel]; [cbn in Hf; lia|]); cbn [alpn_names].
  - cbn [names_text mbind list_bind length]. rewrite (proj2 (Nat.ltb_ge _ _)) by lia. cbn. by rewrite app_nil_r.
  - apply Forall_cons in Hn as [Hl Hn]. unfold names_text. cbn [mbind list_bind]. fold (names_text names). rewrite (proj2 (Nat.ltb_lt _ _)) by (cbn; lia). cbn [negb].
    change ((len n :: n) ++ names_text names) with (len n :: (n ++ names_text names)). cbn [app]. rewrite byte_mid by done.
    assert (Z.to_nat (len n) = length n) as El by (unfold len; apply Nat2Z.id). rewrite El.
    rewrite (proj2 (Nat.ltb_ge _ _)) by (cbn; rewrite length_app; lia).
    replace (pre ++ len n :: (n ++ names_text names) ++ post) with ((pre ++ [len n]) ++ n ++ (names_text names ++ post)) by (rewrite <- !app_assoc; done).
    rewrite (slice_mid (pre ++ [len n]) n) by (rewrite ?length_app; cbn; lia).
    replace ((pre ++ [len n]) ++ n ++ names_text names ++ post) with ((pre ++ [len n] ++ n) ++ names_text names ++ post) by (rewrite <- !app_assoc; done).
    replace (S (length pre) + length n)%nat with (length (pre ++ [len n] ++ n)) by (rewrite !length_app; cbn; lia).
    rewrite IH; [by rewrite <- app_assoc|done|rewrite !length_app; cbn; rewrite length_app; lia|cbn in Hf; lia].
Qed.

Lemma names_text_length names : (length names <= length (names_text names))%nat.
Proof. induction names as [|n names IH]; [done|]. unfold names_text in *. cbn. rewrite length_app. lia. Qed.

Lemma parse_alpn_read names pre post : names <> [] -> Forall (fun n => (length n < 256)%nat) names -> len (names_text names) < 65536 ->
  parse_alpn_list (pre ++ alpn_body names ++ post) (length pre) (length pre + length (alpn_body names)) = Ok (Some names).
Proof.
  intros Hne Hn Hl. unfold parse_alpn_list, alpn_body. rewrite <- app_assoc. rewrite (slice_mid pre (u16 (length (names_text names)))) by done. rewrite be16_u16 by done.
  rewrite (proj2 (Nat.ltb_ge _ _)) by (rewrite !length_app; cbn; lia).
  replace (pre ++ u16 (length (names_text names)) ++ names_text names ++ post) with ((pre ++ u16 (length (names_text names))) ++ names_text names ++ post) by (by rewrite <- app_assoc).
  replace (length pre + 2)%nat with (length (pre ++ u16 (length (names_text names)))) by (rewrite length_app; cbn; lia).
  rewrite alpn_names_read; [|done|done|rewrite !length_app; pose proof (names_text_length names); lia]. cbn. by destruct names.
Qed.

Lemma exts_text_cons e es : exts_text (e :: es) = u16 e.1 ++ u16 (length e.2) ++ e.2 ++ exts_text es.
Proof. unfold exts_text. rewrite bind_cons. unfold ext_text at 1. by rewrite <- !app_assoc. Qed.

Lemma find_alpn_read before names after : forall fuel pre, Forall (fun e => Z.of_nat e.1 < 65536 /\ len e.2 < 65536 /\ e.1 <> 16%nat) before ->
  names <> [] -> Forall (fun n => (length n < 256)%nat) names -> len (alpn_body names) < 65536 -> (length before < fuel)%nat ->
  let es := before ++ (16%nat, alpn_body names) :: after in
  find_alpn fuel (pre ++ exts_text es) (length pre) (length pre + length (exts_text es)) = Ok (Some names).
Proof.
  induction before as [|e before IH]; intros fuel pre Hb Hne Hn Hl Hf es; unfold es; (destruct fuel as [|fuel]; [lia|]); cbn [find_alpn app]; rewrite exts_text_cons; cbn [fst snd].
  - rewrite (proj2 (Nat.leb_le _ _)) by (rewrite !length_app; cbn; lia). cbn [negb]. rewrite (slice_mid pre (u16 16)) by done.
    replace (pre ++ u16 16 ++ u16 (length (alpn_body names)) ++ alpn_body names ++ exts_text after)
      with ((pre ++ u16 16) ++ u16 (length (alpn_body names)) ++ (alpn_body names ++ exts_text after)) by (by rewrite <- app_assoc).
    rewrite (slice_mid (pre ++ u16 16) (u16 (length (alpn_body names)))) by (rewrite ?length_app; cbn; lia). rewrite !be16_u16 by (done || lia).
    rewrite (proj2 (Nat.ltb_ge _ _)) by (rewrite !length_app; cbn; lia). rewrite bool_decide_true by done.
    replace ((pre ++ u16 16) ++ u16 (length (alpn_body names)) ++ alpn_body names ++ exts_text after)
      with ((pre ++ u16 16 ++ u16 (length (alpn_body names))) ++ alpn_body names ++ exts_text after) by (by rewrite <- !app_assoc).
    replace (length pre + 4)%nat with (length (pre ++ u16 16 ++ u16 (length (alpn_body names)))) by (rewrite !length_app; cbn; lia).
    apply parse_alpn_read; [done|done|]. unfold alpn_body, len in *. rewrite length_app in Hl. lia.
  - apply Forall_cons in Hb as [(He1 & He2 & He3) Hb]. set (rest := exts_text _). rewrite (proj2 (Nat.leb_le _ _)) by (rewrite !length_app; cbn; lia). cbn [negb].
    rewrite (slice_mid pre (u16 e.1)) by done.
    replace (pre ++ u16 e.1 ++ u16 (length e.2) ++ e.2 ++ rest) with ((pre ++ u16 e.1) ++ u16 (length e.2) ++ (e.2 ++ rest)) by (by rewrite <- app_assoc).
    rewrite (slice_mid (pre ++ u16 e.1) (u16 (length e.2))) by (rewrite ?length_app; cbn; lia). rewrite !be16_u16 by done.
    rewrite (proj2 (Nat.ltb_ge _ _)) by (rewrite !length_app; cbn; lia). rewrite bool_decide_false by done.
    replace ((pre ++ u16 e.1) ++ u16 (length e.2) ++ e.2 ++ rest) with ((pre ++ u16 e.1 ++ u16 (length e.2) ++ e.2) ++ rest) by (by rewrite <- !app_assoc).
    replace (length pre + 4 + length e.2)%nat with (length (pre ++ u16 e.1 ++ u16 (length e.2) ++ e.2)) by (rewrite !length_app; cbn; lia).
    replace (length pre + length (u16 e.1 ++ u16 (length e.2) ++ e.2 ++ rest))%nat with (length (pre ++ u16 e.1 ++ u16 (length e.2) ++ e.2) + length rest)%nat by (rewrite !length_app; lia).
    apply IH; [done..|cbn in Hf; lia].
Qed.

Lemma exts_text_length before after : (length before <= length (exts_text (before ++ after)))%nat.
Proof. induction before as [|e before IH]; [cbn; lia|]. cbn [app]. rewrite exts_text_cons, !length_app. cbn [length u16]. lia. Qed.

(** The protocols of a browser are read as it offers them.  From every ClientHello in
    one record, whatever its random, session, ciphers and other extensions before and after,
    the list of the ALPN extension is returned, in order. *)
Theorem alpn_read_back (header lvr session ciphers compression : bytes) (before after : list (nat * bytes)) (names : list bytes)
    (Hheader : length header = 4%nat) (Hlvr : length lvr = 37%nat) (Hsession : len session < 256) (Hciphers : len ciphers < 65536) (Hcomp : len compression < 256)
    (Hbefore : Forall (fun e => Z.of_nat e.1 < 65536 /\ len e.2 < 65536 /\ e.1 <> 16%nat) before)
    (Hne : names <> []) (Hnames : Forall (fun n => (length n < 256)%nat) names) (Hbody : len (alpn_body names) < 65536)
    (Hexts : len (exts_text (before ++ (16%nat, alpn_body names) :: after)) < 65536) :
  client_hello_alpn (client_hello header lvr session ciphers compression (before ++ (16%nat, alpn_body names) :: after)) = Ok (Some names).
Proof.
  set (es := before ++ (16%nat, alpn_body names) :: after) in *. set (data := client_hello header lvr session ciphers compression es).
  set (p1 := [0x16] ++ header ++ [0x01] ++ lvr). set (p2 := p1 ++ [len session] ++ session). set (p3 := p2 ++ u16 (length ciphers) ++ ciphers).
  set (p4 := p3 ++ [len compression] ++ compression). set (p5 := p4 ++ u16 (length (exts_text es))).
  assert (length p1 = 43%nat) as L1 by (unfold p1; rewrite !length_app; cbn; lia).
  assert (length p2 = (44 + length session)%nat) as L2 by (unfold p2; rewrite !length_app; cbn [length u16]; lia).
  assert (length p3 = (length p2 + 2 + length ciphers)%nat) as L3 by (unfold p3; rewrite !length_app; cbn [length u16]; lia).
  assert (length p4 = (length p3 + 1 + length compression)%nat) as L4 by (unfold p4; rewrite !length_app; cbn [length u16]; lia).
  assert (length p5 = (length p4 + 2)%nat) as L5 by (unfold p5; rewrite !length_app; cbn [length u16]; lia).
  assert (data = p5 ++ exts_text es) as D5 by (unfold data, client_hello, p5, p4, p3, p2, p1; by rewrite <- !app_assoc).
  assert (data = p1 ++ len session :: session ++ u16 (length ciphers) ++ ciphers ++ [len compression] ++ compression ++ u16 (length (exts_text es)) ++ exts_text es) as D1
    by (unfold data, client_hello, p1; by rewrite <- !app_assoc).
  assert (data = p2 ++ u16 (length ciphers) ++ (ciphers ++ [len compression] ++ compression ++ u16 (length (exts_text es)) ++ exts_text es)) as D2
    by (rewrite D1; unfold p2; by rewrite <- !app_assoc).
  assert (data = p3 ++ len compression :: compression ++ u16 (length (exts_text es)) ++ exts_text es) as D3 by (rewrite D2; unfold p3; by rewrite <- !app_assoc).
  assert (data = p4 ++ u16 (length (exts_text es)) ++ exts_text es) as D4 by (rewrite D3; unfold p4; by rewrite <- !app_assoc).
  assert (data !! 5%nat = Some 0x01) as E5.
  { unfold data, client_hello. change ([0x16] ++ header ++ [0x01] ++ ?x) with (([0x16] ++ header) ++ 0x01 :: x). 
    rewrite app_assoc. apply byte_mid. rewrite length_app. cbn. lia. }
  unfold client_hello_alpn. rewrite bool_decide_true by done. rewrite (bool_decide_true _ E5). cbn [negb].
  rewrite D1 at 1. rewrite byte_mid by done. rewrite D2 at 1. assert (Z.to_nat (len session) = length session) as -> by (unfold len; apply Nat2Z.id).
  rewrite slice_mid by done. rewrite be16_u16 by done. rewrite D3 at 1. rewrite byte_mid by lia. rewrite D4 at 1.
  assert (Z.to_nat (len compression) = length compression) as -> by (unfold len; apply Nat2Z.id). rewrite slice_mid by (done || lia). rewrite be16_u16 by done.
  replace (44 + length session + 2 + length ciphers + 1 + length compression + 2)%nat with (length p5) by lia.
  rewrite D5. rewrite (proj2 (Nat.ltb_ge _ _)) by (rewrite length_app; lia). pose proof (exts_text_length before ((16%nat, alpn_body names) :: after)) as Hb. fold es in Hb.
  apply find_alpn_read; [done..|]. fold es. rewrite length_app. lia.
Qed.

Lemma slice_some data i n : (i + n <= length data)%nat -> exists x, slice data i n = Some x.
Proof. intros H. unfold slice. rewrite (proj2 (Nat.leb_le _ _)) by done. by eexists. Qed.

Lemma alpn_names_safe fuel data i list_end out : (list_end <= length data)%nat -> alpn_names fuel data i list_end out <> Panic.
Proof.
  intros Hl. revert i out. induction fuel as [|fuel IH]; intros i out; [done|]. cbn [alpn_names]. destruct (i <? list_end)%nat; [|done]. cbn [negb].
  destruct (data !! i) as [nl|]; [|done]. destruct (Nat.ltb_spec list_end (S i + Z.to_nat nl)); [done|].
  destruct (slice_some data (S i) (Z.to_nat nl)) as [x ->]; [lia|]. apply IH.
Qed.

Lemma find_alpn_safe fuel data i ext_end : (ext_end <= length data)%nat -> find_alpn fuel data i ext_end <> Panic.
Proof.
  intros Hl. revert i. induction fuel as [|fuel IH]; intros i; [done|]. cbn [find_alpn]. destruct (i + 4 <=? ext_end)%nat; [|done]. cbn [negb].
  destruct (slice data i 2) as [t|]; [|done]. destruct (slice data (i + 2) 2) as [l|]; [|done]. destruct (Nat.ltb_spec ext_end (i + 4 + be16 l)); [done|]. case_bool_decide; [|apply IH].
  unfold parse_alpn_list. destruct (slice data (i + 4) 2) as [lh|]; [|done]. destruct (Nat.ltb_spec (i + 4 + be16 l) (i + 4 + 2 + be16 lh)); [done|].
  pose proof (alpn_names_safe (S (length data)) data (i + 4 + 2) (i + 4 + 2 + be16 lh) [] ltac:(lia)) as Hs. by destruct (alpn_names _ _ _ _ _).
Qed.

Lemma choose_spec l out : NoDup out -> (forall p, p ∈ out -> p = H2 \/ p = HTTP11) ->
  let r := foldl (fun out p => if (bool_decide (p = H2) || bool_decide (p = HTTP11)) && negb (bool_decide (p ∈ out)) then out ++ [p] else out) out l in
  NoDup r /\ forall p, p ∈ r <-> p ∈ out \/ p ∈ l /\ (p = H2 \/ p = HTTP11).
Proof.
  revert out. induction l as [|p l IH]; intros out Hd Hp; cbn [foldl]; [split; [done|]; intros q; rewrite elem_of_nil; naive_solver|].
  assert (forall out', NoDup out' -> (forall q, q ∈ out' <-> q ∈ out \/ q = p /\ (p = H2 \/ p = HTTP11)) ->
    let r := foldl (fun out p => if (bool_decide (p = H2) || bool_decide (p = HTTP11)) && negb (bool_decide (p ∈ out)) then out ++ [p] else out) out' l in
    NoDup r /\ forall q, q ∈ r <-> q ∈ out \/ q ∈ p :: l /\ (q = H2 \/ q = HTTP11)) as Hgo.
  { intros out' Hd' Ho. destruct (IH out' Hd') as [H1 H2']; [intros q Hq; apply Ho in Hq as [Hq|[-> ?]]; [by apply Hp|done]|].
    split; [done|]. intros q. rewrite H2', Ho, elem_of_cons. naive_solver. }
  apply Hgo; clear Hgo IH.
  - destruct ((bool_decide (p = H2) || bool_decide (p = HTTP11)) && negb (bool_decide (p ∈ out))) eqn:E; [|done].
    apply andb_prop in E as [_ E%negb_true_iff%bool_decide_eq_false]. apply NoDup_app. split_and!; [done| |repeat constructor; set_solver].
    intros x Hx ->%list_elem_of_singleton. done.
  - intros q. destruct (bool_decide (p = H2) || bool_decide (p = HTTP11)) eqn:E; cbn [andb].
    + assert (p = H2 \/ p = HTTP11) as Hh by (apply orb_prop in E as [E|E]; apply bool_decide_eq_true in E; auto).
      destruct (bool_decide_reflect (p ∈ out)) as [Hi|Hi]; cbn [negb]; [split; [auto|intros [?|[-> _]]; done]|]. rewrite elem_of_app, list_elem_of_singleton. naive_solver.
    + apply orb_false_iff in E as [E1%bool_decide_eq_false E2%bool_decide_eq_false]. naive_solver.
Qed.

(** The two legs of a camouflaged connection can always agree.  Whatever bytes were
    peeked, reading them does not panic; and what is offered upstream is not empty, names each
    protocol once, and is, of the two protocols that can be spliced, exactly what the browser
    offered, or http/1.1 alone when it offered neither or its list could not be read. *)
Theorem alpn_coherent (data : bytes) :
  exists offered, client_hello_alpn data = Ok offered
  /\ choose_upstream_alpn offered <> [] /\ NoDup (choose_upstream_alpn offered)
  /\ (forall p, p ∈ choose_upstream_alpn offered -> p = H2 \/ p = HTTP11)
  /\ match offered with
     | Some l => (forall p, p = H2 \/ p = HTTP11 -> p ∈ l -> p ∈ choose_upstream_alpn offered)
                 /\ forall p, p ∈ choose_upstream_alpn offered -> p ∈ l \/ (H2 ∉ l /\ HTTP11 ∉ l /\ choose_upstream_alpn offered = [HTTP11])
     | None => choose_upstream_alpn offered = [HTTP11]
     end.
Proof.
  assert (exists offered, client_hello_alpn data = Ok offered) as [offered Ho].
  { assert (client_hello_alpn data <> Panic) as Hn.
    { unfold client_hello_alpn. repeat (case_match; try done). apply find_alpn_safe. rewrite Nat.ltb_ge in *. lia. }
    destruct (client_hello_alpn data) as [o|[]|] eqn:E; [by exists o|done]. }
  exists offered. split; [done|]. unfold choose_upstream_alpn. destruct (choose_spec (default [] offered) [] (NoDup_nil_2) ltac:(by intros p ?%elem_of_nil)) as [Hd Hp].
  set (out := foldl _ [] (default [] offered)) in *. cbv zeta in Hd, Hp. case_bool_decide as Ee.
  - split_and!; [done|repeat constructor; set_solver|intros p ->%list_elem_of_singleton; by right|]. destruct offered as [l|]; [|done]. cbn [default] in Hp. unfold id in Hp.
    assert (forall p, p = H2 \/ p = HTTP11 -> p ∉ l) as Hno by (intros p Hh Hl; apply (not_elem_of_nil p); rewrite <- Ee; apply Hp; auto).
    split; [intros p Hh Hl; by destruct (Hno p Hh)|]. intros p _. right. split_and!; [apply Hno; auto..|done].
  - split_and!; [done|done|intros p Hin; apply Hp in Hin as [Hin%elem_of_nil|[_ ?]]; done|].
    destruct offered as [l|]; [|done]. cbn [default] in Hp. unfold id in Hp. split; [intros p Hh Hl; apply Hp; auto|]. intros p Hin. left. by apply Hp in Hin as [Hin%elem_of_nil|[? _]].
Qed.

Lemma alpn_read_back_witness :
  client_hello_alpn (client_hello [3; 1; 0; 100] (replicate 37 0) [] [19; 1] [0] ([(0%nat, [1; 2])] ++ (16%nat, alpn_body [H2; HTTP11]) :: [])) = Ok (Some [H2; HTTP11]).
Proof.
  apply (alpn_read_back [3; 1; 0; 100] (replicate 37 0) [] [19; 1] [0] [(0%nat, [1; 2])] [] [H2; HTTP11]); try reflexivity;
    try (repeat constructor; vm_compute; congruence); try discriminate; vm_compute; reflexivity.
Defined.
