(* ===== verification/Bits.v ===== *)
(** * Bit strings, most significant bit first

    The reference view for the shift-register loops of the base32 codec: a register
    that shifts values in at the bottom and reads them out at the top is a queue of
    bits. *)

From stdpp Require Import prelude.
From S2P Require Import Prelude.
#[local] Open Scope Z_scope.

Fixpoint bits_of (w : nat) (v : Z) : list bool :=
  match w with O => [] | S m => Z.testbit v (Z.of_nat m) :: bits_of m v end.

Fixpoint bval (l : list bool) : Z :=
  match l with [] => 0 | b :: l' => Z.b2z b * 2 ^ Z.of_nat (length l') + bval l' end.

Lemma bits_of_zero w : bits_of w 0 = replicate w false.
Proof. induction w; cbn [bits_of replicate]; [done|]. by rewrite Z.bits_0, IHw. Qed.

Lemma pow2_pos n : 0 < 2 ^ Z.of_nat n.
Proof. apply Z.pow_pos_nonneg; lia. Qed.

Lemma pow2_S n : 2 ^ Z.of_nat (S n) = 2 * 2 ^ Z.of_nat n.
Proof. rewrite Nat2Z.inj_succ, Z.pow_succ_r; lia. Qed.

Lemma pow2_add m n : 2 ^ Z.of_nat (m + n) = 2 ^ Z.of_nat m * 2 ^ Z.of_nat n.
Proof. rewrite Nat2Z.inj_add, Z.pow_add_r; lia. Qed.

Lemma length_bits_of w v : length (bits_of w v) = w.
Proof. induction w; cbn; auto. Qed.

Lemma bval_bound l : 0 <= bval l < 2 ^ Z.of_nat (length l).
Proof.
  induction l as [|b l IH]; [cbn; lia|]. cbn [bval length]. rewrite pow2_S.
  destruct b; cbn [Z.b2z]; lia.
Qed.

Lemma bval_app p q : bval (p ++ q) = bval p * 2 ^ Z.of_nat (length q) + bval q.
Proof.
  induction p as [|b p IH]; [done|]. cbn [app bval]. rewrite IH, length_app, pow2_add. ring.
Qed.

Lemma bval_bits_of w v : bval (bits_of w v) = v mod 2 ^ Z.of_nat w.
Proof.
  induction w as [|w IH]; [cbn; by rewrite Z.mod_1_r|].
  cbn [bits_of bval]. rewrite IH, length_bits_of, pow2_S, (Z.mul_comm 2).
  pose proof (pow2_pos w). rewrite Z.rem_mul_r by lia.
  rewrite Z.testbit_spec' by lia. lia.
Qed.

Lemma bits_of_bval l : bits_of (length l) (bval l) = l.
Proof.
  assert (forall w k l', length l' = w -> bits_of w (k * 2 ^ Z.of_nat w + bval l') = l') as H.
  { induction w as [|w IH]; intros k l' Hl; destruct l' as [|b l']; try done.
    cbn [bits_of]. injection Hl as Hl. subst w.
    pose proof (bval_bound l') as Hb. pose proof (pow2_pos (length l')).
    replace (k * 2 ^ Z.of_nat (S (length l')) + bval (b :: l'))
      with ((k * 2 + Z.b2z b) * 2 ^ Z.of_nat (length l') + bval l')
      by (cbn [bval]; rewrite pow2_S; ring).
    rewrite IH by done. f_equal. apply Z.b2z_inj. rewrite Z.testbit_spec' by lia.
    rewrite Z.div_add_l, (Z.div_small (bval l')), Z.add_0_r by lia.
    rewrite Z.add_comm, Z.mod_add by lia. destruct b; done. }
  rewrite <- (H (length l) 0 l eq_refl) at 3. by rewrite Z.mul_0_l, Z.add_0_l.
Qed.

Lemma bits_of_bval' n l : length l = n -> bits_of n (bval l) = l.
Proof. intros <-. apply bits_of_bval. Qed.

Lemma bits_of_inj w x y :
  0 <= x < 2 ^ Z.of_nat w -> 0 <= y < 2 ^ Z.of_nat w -> bits_of w x = bits_of w y -> x = y.
Proof.
  intros Hx Hy E. rewrite <- (Z.mod_small x (2 ^ Z.of_nat w)), <- (Z.mod_small y (2 ^ Z.of_nat w)) by done.
  by rewrite <- !bval_bits_of, E.
Qed.

(** ** The shift register *)

(** A [u64] register [buffer] whose low [length l] bits are the queue [l]. *)
Definition holds (buffer : Z) (l : list bool) : Prop :=
  0 <= buffer /\ buffer mod 2 ^ Z.of_nat (length l) = bval l.

Lemma lor_disjoint a v w : 0 <= v < 2 ^ Z.of_nat w ->
  Z.lor (a * 2 ^ Z.of_nat w) v = a * 2 ^ Z.of_nat w + v.
Proof.
  intros Hv. rewrite <- Z.lxor_lor, Z.add_nocarry_lxor; try done;
    apply Z.bits_inj'; intros n Hn; rewrite Z.land_spec, Z.bits_0, <- Z.shiftl_mul_pow2 by lia.
  all: destruct (Z.lt_ge_cases n (Z.of_nat w)).
  all: try (rewrite Z.shiftl_spec_low by lia; done).
  all: rewrite <- (Z.mod_small v (2 ^ Z.of_nat w)) by lia.
  all: rewrite Z.mod_pow2_bits_high by lia; apply andb_false_r.
Qed.

Lemma mod_split a v k w :
  0 <= v < 2 ^ Z.of_nat w ->
  (a * 2 ^ Z.of_nat w + v) mod 2 ^ Z.of_nat (k + w)
  = a mod 2 ^ Z.of_nat k * 2 ^ Z.of_nat w + v.
Proof.
  intros Hv. rewrite pow2_add. pose proof (pow2_pos k). pose proof (pow2_pos w).
  rewrite (Z.mul_comm (2 ^ Z.of_nat k)), Z.rem_mul_r by lia.
  rewrite Z.div_add_l, (Z.div_small v), Z.add_0_r by lia.
  replace ((a * 2 ^ Z.of_nat w + v) mod 2 ^ Z.of_nat w) with v; [lia|].
  rewrite Z.add_comm, Z.mod_add, Z.mod_small by lia. done.
Qed.

(** [buffer = (buffer << w) | v] appends the [w] bits of [v]. *)
Lemma holds_push buffer l w v :
  holds buffer l -> (length l + w <= 64)%nat -> 0 <= v < 2 ^ Z.of_nat w ->
  holds (Z.lor (wrap 64 (Z.shiftl buffer (Z.of_nat w))) v) (l ++ bits_of w v).
Proof.
  intros [Hn Hb] Hlen Hv. unfold wrap. rewrite Z.shiftl_mul_pow2 by lia.
  change (2 ^ 64) with (2 ^ Z.of_nat 64).
  replace 64%nat with ((64 - w) + w)%nat at 1 by lia.
  rewrite pow2_add. rewrite Z.mul_mod_distr_r by (apply Z.pow_nonzero; lia).
  rewrite lor_disjoint by done. pose proof (pow2_pos (64 - w)). pose proof (pow2_pos w).
  pose proof (Z.mod_pos_bound buffer (2 ^ Z.of_nat (64 - w)) ltac:(lia)).
  split; [nia|]. rewrite length_app, length_bits_of, mod_split by done.
  rewrite bval_app, bval_bits_of, length_bits_of, <- Hb, (Z.mod_small v) by done.
  do 2 f_equal. apply Z.mod_mod_divide.
  exists (2 ^ Z.of_nat (64 - w - length l)). rewrite <- pow2_add. do 2 f_equal. lia.
Qed.

(** [(buffer >> n) & mask] reads the bits above the low [n]. *)
Lemma holds_pop buffer p q :
  holds buffer (p ++ q) ->
  Z.land (Z.shiftr buffer (Z.of_nat (length q))) (Z.ones (Z.of_nat (length p))) = bval p /\
  holds buffer q.
Proof.
  intros [Hn Hb]. rewrite length_app, bval_app in Hb.
  pose proof (bval_bound q). pose proof (bval_bound p).
  rewrite Z.land_ones, Z.shiftr_div_pow2 by lia. rewrite pow2_add in Hb.
  pose proof (pow2_pos (length p)). pose proof (pow2_pos (length q)).
  rewrite (Z.mul_comm (2 ^ Z.of_nat (length p))), Z.rem_mul_r in Hb by lia.
  pose proof (Z.mod_pos_bound buffer (2 ^ Z.of_nat (length q)) ltac:(lia)).
  destruct (Z.div_mod_unique (2 ^ Z.of_nat (length q))
              (buffer / 2 ^ Z.of_nat (length q) mod 2 ^ Z.of_nat (length p)) (bval p)
              (buffer mod 2 ^ Z.of_nat (length q)) (bval q)) as [E1 E2]; [lia..|].
  by split; [|split].
Qed.

Lemma bind_length_const {A B} (f : A -> list B) n l :
  (forall x, length (f x) = n) -> length (l ≫= f) = (n * length l)%nat.
Proof.
  intros H. induction l as [|x l IH]; cbn; [lia|]. rewrite length_app, H.
  change (length (list_bind A B f l)) with (length (l ≫= f)). rewrite IH. lia.
Qed.

Lemma bind_inj_const {A B} (P : A -> Prop) (f : A -> list B) n l k :
  (forall x, length (f x) = n) -> (forall x y, P x -> P y -> f x = f y -> x = y) ->
  Forall P l -> Forall P k -> length l = length k -> l ≫= f = k ≫= f -> l = k.
Proof.
  intros Hn Hf Hl. revert k. induction Hl as [|x l Hx Hl IH]; intros k Hk Hlen E.
  { by destruct k. }
  destruct Hk as [|y k Hy Hk]; [done|]. cbn in E. apply app_inj_1 in E as [E1 E2].
  - f_equal; [by apply Hf|]. apply IH; [done|by injection Hlen|done].
  - by rewrite !Hn.
Qed.

#[global] Arguments bits_of w v : simpl never.
