(* ===== verification/ListSort.v ===== *)
(** * Stable sorting by a key, as [slice::sort_by_key] does it

    The pollers sort listings by [(sid, seq)] and prefetched batches by [seq]; both
    sorts are stable, and equal keys do occur (a folder may hold two files of one
    name), so the model is an insertion sort that keeps equal keys in order. *)

From stdpp Require Import prelude sorting gmap.
From S2P Require Import Prelude.
#[local] Open Scope Z_scope.

Section Sort.
Context {A : Type} (le : A -> A -> bool).

Fixpoint insert_by (x : A) (l : list A) : list A :=
  match l with
  | [] => [x]
  | y :: l' => if le x y then x :: l else y :: insert_by x l'
  end.

Fixpoint sort_by (l : list A) : list A :=
  match l with
  | [] => []
  | x :: l' => insert_by x (sort_by l')
  end.

Lemma insert_by_perm x l : Permutation (insert_by x l) (x :: l).
Proof.
  induction l as [|y l IH]; cbn; [done|]. destruct (le x y); [done|].
  rewrite IH. apply Permutation_swap.
Qed.

Lemma sort_by_perm l : Permutation (sort_by l) l.
Proof. induction l as [|x l IH]; cbn; [done|]. by rewrite insert_by_perm, IH. Qed.

Lemma elem_of_sort_by x l : x ∈ sort_by l <-> x ∈ l.
Proof. by rewrite sort_by_perm. Qed.

Lemma Forall_sort_by (Q : A -> Prop) l : Forall Q (sort_by l) <-> Forall Q l.
Proof. by rewrite sort_by_perm. Qed.

Definition le_total : Prop := forall x y, le x y = true \/ le y x = true.
Definition le_trans : Prop := forall x y z, le x y = true -> le y z = true -> le x z = true.
Abbreviation sorted := (StronglySorted (fun x y => le x y = true)).

Lemma insert_by_sorted x l :
  le_total -> le_trans -> sorted l -> sorted (insert_by x l).
Proof.
  intros Ht Htr. induction 1 as [|y l Hl IH Hy]; cbn; [repeat constructor|].
  destruct (le x y) eqn:E.
  - constructor; [by constructor|]. constructor; [done|].
    eapply Forall_impl; [exact Hy|]. intros; eauto.
  - constructor; [done|]. rewrite insert_by_perm. constructor; [|done].
    destruct (Ht x y); congruence.
Qed.

Lemma sort_by_sorted l : le_total -> le_trans -> sorted (sort_by l).
Proof.
  intros. induction l as [|x l IH]; cbn; [constructor|]. by apply insert_by_sorted.
Qed.

(** A list already in order is left alone: the sort is stable. *)
Lemma sort_by_id l : sorted l -> sort_by l = l.
Proof.
  induction 1 as [|x l Hl IH Hx]; cbn; [done|]. rewrite IH.
  destruct Hx as [|y l Hy]; cbn; [done|]. by rewrite Hy.
Qed.
End Sort.

Lemma StronglySorted_weaken {A} (R S : A -> A -> Prop) l :
  (forall x y, R x y -> S x y) -> StronglySorted R l -> StronglySorted S l.
Proof.
  intros HRS. induction 1; constructor; [done|]. eapply Forall_impl; eauto.
Qed.

(** The order on an integer key. *)
Definition by_key {A} (key : A -> Z) (x y : A) : bool := key x <=? key y.

Lemma by_key_total {A} (key : A -> Z) : le_total (by_key key).
Proof. intros x y. unfold by_key. lia. Qed.

Lemma by_key_trans {A} (key : A -> Z) : le_trans (by_key key).
Proof. intros x y z. unfold by_key. lia. Qed.

Definition sort_by_key {A} (key : A -> Z) : list A -> list A := sort_by (by_key key).

Lemma sort_by_key_sorted {A} (key : A -> Z) l :
  StronglySorted (fun x y => key x <= key y) (sort_by_key key l).
Proof.
  eapply StronglySorted_weaken; [|apply sort_by_sorted; [apply by_key_total|apply by_key_trans]].
  unfold by_key. intros. lia.
Qed.

(** The order on [(sid, seq)] pairs: byte-wise on the sid, then the number. *)
Fixpoint lex_le (a b : list Z) : bool :=
  match a, b with
  | [], _ => true
  | _ :: _, [] => false
  | x :: a', y :: b' => (x <? y) || ((x =? y) && lex_le a' b')
  end.

Lemma lex_le_refl a : lex_le a a = true.
Proof. induction a as [|x a IH]; cbn; [done|]. rewrite IH. lia. Qed.

Lemma lex_le_total a b : lex_le a b = true \/ lex_le b a = true.
Proof.
  revert b. induction a as [|x a IH]; intros [|y b]; cbn; auto.
  destruct (IH b) as [-> | ->]; lia.
Qed.

Lemma lex_le_trans a b c : lex_le a b = true -> lex_le b c = true -> lex_le a c = true.
Proof.
  revert b c. induction a as [|x a IH]; intros [|y b] [|z c]; cbn; auto; try done.
  specialize (IH b c). rewrite !orb_true_iff, !andb_true_iff, !Z.ltb_lt, !Z.eqb_eq.
  intros [?|[? ?]] [?|[? ?]]; try (left; lia). right. split; [lia|auto].
Qed.

Lemma lex_le_antisym a b : lex_le a b = true -> lex_le b a = true -> a = b.
Proof.
  revert b. induction a as [|x a IH]; intros [|y b]; cbn; auto; try done.
  rewrite !orb_true_iff, !andb_true_iff, !Z.ltb_lt, !Z.eqb_eq.
  intros [?|[? ?]] [?|[? ?]]; try lia. f_equal; auto.
Qed.

Lemma StronglySorted_filter {A} (R : A -> A -> Prop) (Q : A -> Prop) `{!forall x, Decision (Q x)} l :
  StronglySorted R l -> StronglySorted R (filter Q l).
Proof.
  induction 1 as [|x l Hl IH Hx]; [constructor|]. rewrite filter_cons.
  destruct (decide (Q x)); [|done]. constructor; [done|].
  apply Forall_forall. intros y [_ Hy]%list_elem_of_filter. by eapply Forall_forall in Hx.
Qed.

(** * Sums over finite maps

    Counters that a program keeps beside a hash map (bytes held, connections pooled) are
    compared with the sum of a measure over the map's values. *)

Section MapSum.
Context {K A : Type} `{Countable K} (f : A -> Z).

Definition msum (m : gmap K A) : Z := map_fold (fun _ x n => f x + n) 0 m.

Lemma msum_empty : msum ∅ = 0.
Proof. done. Qed.

Lemma msum_insert m k x : m !! k = None -> msum (<[k := x]> m) = f x + msum m.
Proof. intros. unfold msum. rewrite map_fold_insert_L; [done|intros; lia|done]. Qed.

Lemma msum_delete m k x : m !! k = Some x -> msum m = f x + msum (delete k m).
Proof. intros. unfold msum. rewrite (map_fold_delete_L _ _ k x m); [done|intros; lia|done]. Qed.

Lemma msum_update m k x :
  msum (<[k := x]> m) = f x + msum m - match m !! k with Some o => f o | None => 0 end.
Proof.
  destruct (m !! k) as [o|] eqn:E; [|rewrite msum_insert by done; lia].
  rewrite <- insert_delete_eq, msum_insert by apply lookup_delete_eq.
  rewrite (msum_delete m k o E). lia.
Qed.

Lemma msum_delete_any m k :
  msum (delete k m) = msum m - match m !! k with Some o => f o | None => 0 end.
Proof.
  destruct (m !! k) as [o|] eqn:E; [rewrite (msum_delete m k o E); lia|].
  rewrite delete_id by done. lia.
Qed.

Lemma msum_nonneg m : (forall x, 0 <= f x) -> 0 <= msum m.
Proof.
  intros Hf. unfold msum. apply (map_fold_weak_ind (fun n _ => 0 <= n)); [lia|].
  intros k x m' n _ ?. specialize (Hf x). lia.
Qed.

Lemma msum_lookup_le m k x : (forall x, 0 <= f x) -> m !! k = Some x -> f x <= msum m.
Proof. intros Hf E. rewrite (msum_delete m k x E). pose proof (msum_nonneg (delete k m) Hf). lia. Qed.

(** Mapping the values, then dropping some whose measure is zero. *)
Lemma msum_fmap_filter (g : A -> A) (keep : A -> bool) m :
  (forall x, keep x = false -> f x = 0) ->
  msum (filter (fun kx => keep (snd kx) = true) (g <$> m)) = msum (g <$> m).
Proof.
  intros Hk.
  induction (g <$> m) as [|k x m' Hn IH] using map_ind; [done|].
  rewrite msum_insert, <- IH by done. rewrite map_filter_insert; cbn. destruct (keep x) eqn:E.
  - rewrite decide_True by done. rewrite msum_insert; [done|]. apply map_lookup_filter_None. by left.
  - rewrite decide_False by done. rewrite delete_id by done. rewrite Hk by done. lia.
Qed.
End MapSum.

Lemma msum_fmap_diff {K A} `{Countable K} (f : A -> Z) (g : A -> A) (m : gmap K A) :
  msum (fun x => f x - f (g x)) m = msum f m - msum f (g <$> m).
Proof.
  induction m as [|k x m Hn IH] using map_ind; [done|].
  rewrite fmap_insert, !msum_insert by (rewrite ?lookup_fmap, ?Hn; done). lia.
Qed.
