(* ===== verification/Frame.v ===== *)
(** * drive-wire/src/frame.rs: the binary wire frame and the batch envelope

    [WireFrame::encode]/[decode] and [Batch::encode]/[decode] over byte lists, with
    the cursor reads of the [bytes] crate that panic when the buffer is too short.
    [debug_assert!] is compiled out of the modelled (release) build. *)

From stdpp Require Import prelude.
From S2P Require Import Prelude RustStr.
#[local] Open Scope Z_scope.

(** ** Data *)
Definition WIRE_VERSION : Z := 1.
Definition HEADER_LEN : Z := 30.
Definition MAX_PAYLOAD : Z := 4 * 1024 * 1024.

(** A 16-byte session id. *)
Abbreviation SessionId := (list Z).
Definition sid_ok (sid : SessionId) : Prop := length sid = 16%nat /\ bytes_ok sid.

Inductive FrameKind := Hello | Connect | Data | Eof | Close | Error.

#[export] Instance FrameKind_eq_dec : EqDecision FrameKind.
Proof. solve_decision. Defined.

(** [kind as u8]. *)
Definition kind_as_u8 (k : FrameKind) : Z :=
  match k with
  | Hello => 0x01 | Connect => 0x02 | Data => 0x03 | Eof => 0x04 | Close => 0x05 | Error => 0x06
  end.

Definition from_u8 (b : Z) : option FrameKind :=
  if b =? 0x01 then Some Hello
  else if b =? 0x02 then Some Connect
  else if b =? 0x03 then Some Data
  else if b =? 0x04 then Some Eof
  else if b =? 0x05 then Some Close
  else if b =? 0x06 then Some Error
  else None.

Record WireFrame := mkFrame {
  version : Z;
  kind : FrameKind;
  sid : SessionId;
  seq : Z;
  payload : bytes
}.

#[export] Instance WireFrame_eq_dec : EqDecision WireFrame.
Proof. solve_decision. Defined.

Inductive DecodeError :=
| TooShort (n : Z)
| UnsupportedVersion (v : Z)
| UnknownKind (b : Z)
| PayloadTooLarge (n : Z)
| PayloadTruncated (declared available : Z)
| BatchBadMagic
| BatchBadCount (n : Z)
| BatchFrameTruncated (index declared remaining : Z)
| BatchFrameDecode (index : Z) (inner : DecodeError)
| BatchTrailingBytes (n : Z).

(** ** Cursor reads of [bytes::Buf] on a slice *)
Section Cursor.
Context {E : Type}.

Definition get_u8 (c : bytes) : res (Z * bytes) E :=
  match c with b :: r => Ok (b, r) | [] => Panic end.

(** [get_u32]/[get_u64]: [n] big-endian bytes. *)
Definition get_be (n : nat) (c : bytes) : res (Z * bytes) E :=
  if (n <=? length c)%nat then Ok (be_val (take n c), drop n c) else Panic.

Definition copy_to_slice (n : nat) (c : bytes) : res (bytes * bytes) E :=
  if (n <=? length c)%nat then Ok (take n c, drop n c) else Panic.

(** [&c[..n]] and [&c[n..]]. *)
Definition split_slice (n : Z) (c : bytes) : res (bytes * bytes) E :=
  if n <=? len c then Ok (take (Z.to_nat n) c, drop (Z.to_nat n) c) else Panic.

Definition ok_or {A} (o : option A) (e : E) : res A E :=
  match o with Some a => Ok a | None => Err e end.
End Cursor.

(** ** The operations *)
Definition WireFrame_encode (f : WireFrame) : bytes :=
  [version f] ++ [kind_as_u8 (kind f)] ++ sid f ++ be_bytes 8 (seq f)
  ++ be_bytes 4 (wrap 32 (len (payload f))) ++ payload f.

Definition WireFrame_decode (input : bytes) : res WireFrame DecodeError :=
  if len input <? HEADER_LEN then Err (TooShort (len input)) else
  let? (version, cursor) := get_u8 input in
  if negb (version =? WIRE_VERSION) then Err (UnsupportedVersion version) else
  let? (kind_byte, cursor) := get_u8 cursor in
  let? kind := ok_or (from_u8 kind_byte) (UnknownKind kind_byte) in
  let? (sid, cursor) := copy_to_slice 16 cursor in
  let? (seq, cursor) := get_be 8 cursor in
  let? (n, cursor) := get_be 4 cursor in
  if MAX_PAYLOAD <? n then Err (PayloadTooLarge n) else
  if len cursor <? n then Err (PayloadTruncated n (len cursor)) else
  let? (payload, _) := split_slice n cursor in
  Ok (mkFrame version kind sid seq payload).

(** "RG2B" *)
Definition BATCH_MAGIC : bytes := Eval cbv in lit "RG2B".
Definition MAX_BATCH_FRAMES : Z := 255.
Definition BATCH_HEADER_LEN : Z := 5.
Definition BATCH_PER_FRAME_OVERHEAD : Z := 4.

Record Batch := mkBatch { frames : list WireFrame }.

Definition encode_entry (f : WireFrame) : bytes :=
  be_bytes 4 (wrap 32 (len (WireFrame_encode f))) ++ WireFrame_encode f.

Definition Batch_encode (b : Batch) : bytes :=
  BATCH_MAGIC ++ [wrap 8 (len (frames b))] ++ (frames b ≫= encode_entry).

(** The [for index in 0..count] loop: the frames read and the cursor left. *)
Fixpoint decode_frames (count : nat) (index : Z) (cursor : bytes)
    : res (list WireFrame * bytes) DecodeError :=
  match count with
  | O => Ok ([], cursor)
  | S m =>
    if len cursor <? BATCH_PER_FRAME_OVERHEAD
    then Err (BatchFrameTruncated index 0 (len cursor)) else
    let? (frame_len, cursor) := get_be 4 cursor in
    if len cursor <? frame_len
    then Err (BatchFrameTruncated index frame_len (len cursor)) else
    let? (frame_bytes, cursor) := split_slice frame_len cursor in
    let? frame := map_err (BatchFrameDecode index) (WireFrame_decode frame_bytes) in
    let? (rest, cursor) := decode_frames m (index + 1) cursor in
    Ok (frame :: rest, cursor)
  end.

Definition Batch_decode (input : bytes) : res Batch DecodeError :=
  if len input <? BATCH_HEADER_LEN then Err (TooShort (len input)) else
  let? (magic, cursor) := split_slice 4 input in
  if negb (bool_decide (magic = BATCH_MAGIC)) then Err BatchBadMagic else
  let? (count, cursor) := get_u8 cursor in
  if (count =? 0) || (MAX_BATCH_FRAMES <? count) then Err (BatchBadCount count) else
  let? (fs, cursor) := decode_frames (Z.to_nat count) 0 cursor in
  if negb (bool_decide (cursor = [])) then Err (BatchTrailingBytes (len cursor)) else
  Ok (mkBatch fs).

Definition Batch_single (f : WireFrame) : Batch := mkBatch [f].

(** ** Well-formed frames: what the Rust types and the senders guarantee *)
Record frame_ok (f : WireFrame) : Prop := {
  fo_version : version f = WIRE_VERSION;
  fo_sid : sid_ok (sid f);
  fo_seq : is_u64 (seq f);
  fo_bytes : bytes_ok (payload f);
  fo_len : len (payload f) <= MAX_PAYLOAD
}.

Definition batch_ok (b : Batch) : Prop :=
  1 <= len (frames b) <= MAX_BATCH_FRAMES /\ Forall frame_ok (frames b).

(** ** Cursor lemmas *)
Section CursorLemmas.
Context {E : Type}.

Lemma get_be_app n z r : @get_be E n (be_bytes n z ++ r) = Ok (z mod 256 ^ Z.of_nat n, r).
Proof.
  unfold get_be. rewrite length_app, length_be_bytes.
  destruct (Nat.leb_spec n (n + length r)); [|lia].
  rewrite take_app_length', drop_app_length', be_val_be_bytes by (symmetry; apply length_be_bytes). done.
Qed.

Lemma get_be_inv n c z r :
  bytes_ok c -> @get_be E n c = Ok (z, r) ->
  c = be_bytes n z ++ r /\ 0 <= z < 256 ^ Z.of_nat n /\ bytes_ok r.
Proof.
  unfold get_be. intros Hc H. destruct (Nat.leb_spec n (length c)); [|done].
  simplify_eq. rewrite <- (take_drop n c) in Hc at 1.
  apply bytes_ok_app in Hc as [Ht Hd].
  assert (length (take n c) = n) as Hl by (rewrite length_take; lia).
  pose proof (be_val_bound _ Ht). rewrite Hl in *.
  rewrite <- Hl at 1. rewrite be_bytes_be_val by done. rewrite take_drop. auto.
Qed.

Lemma copy_to_slice_app n s r :
  length s = n -> @copy_to_slice E n (s ++ r) = Ok (s, r).
Proof.
  intros Hs. unfold copy_to_slice. rewrite length_app.
  destruct (Nat.leb_spec n (length s + length r)); [|lia].
  by rewrite take_app_length', drop_app_length' by done.
Qed.

Lemma copy_to_slice_inv n c s r :
  bytes_ok c -> @copy_to_slice E n c = Ok (s, r) ->
  c = s ++ r /\ length s = n /\ bytes_ok s /\ bytes_ok r.
Proof.
  unfold copy_to_slice. intros Hc H. destruct (Nat.leb_spec n (length c)); [|done].
  simplify_eq. rewrite <- (take_drop n c) in Hc at 1. apply bytes_ok_app in Hc as [Ht Hd].
  rewrite take_drop, length_take. split_and!; auto. lia.
Qed.

Lemma split_slice_app n s r :
  len s = n -> @split_slice E n (s ++ r) = Ok (s, r).
Proof.
  intros Hs. unfold split_slice. rewrite len_app. pose proof (len_nonneg r).
  destruct (Z.leb_spec n (len s + len r)); [|lia]. unfold len in Hs.
  by rewrite take_app_length', drop_app_length' by lia.
Qed.

Lemma split_slice_inv n c s r :
  bytes_ok c -> 0 <= n -> @split_slice E n c = Ok (s, r) ->
  c = s ++ r /\ len s = n /\ bytes_ok s /\ bytes_ok r.
Proof.
  unfold split_slice. intros Hc Hn H. destruct (Z.leb_spec n (len c)); [|done].
  simplify_eq. rewrite <- (take_drop (Z.to_nat n) c) in Hc at 1.
  apply bytes_ok_app in Hc as [Ht Hd]. rewrite take_drop. unfold len in *.
  rewrite length_take. split_and!; auto. lia.
Qed.
End CursorLemmas.

Lemma from_u8_as_u8 k : from_u8 (kind_as_u8 k) = Some k.
Proof. by destruct k. Qed.

Lemma from_u8_Some b k : from_u8 b = Some k -> b = kind_as_u8 k.
Proof. unfold from_u8. repeat (case_match; [intros; simplify_eq; by apply Z.eqb_eq|]). done. Qed.

Lemma kind_as_u8_ok k : is_u8 (kind_as_u8 k).
Proof. destruct k; cbv; split; congruence. Qed.

Lemma len_WireFrame_encode f :
  length (sid f) = 16%nat -> len (WireFrame_encode f) = HEADER_LEN + len (payload f).
Proof.
  intros H. unfold WireFrame_encode. repeat rewrite len_app, ?len_cons.
  unfold len, HEADER_LEN in *. rewrite !length_be_bytes, H. cbn. lia.
Qed.

Lemma WireFrame_encode_ok f : frame_ok f -> bytes_ok (WireFrame_encode f).
Proof.
  intros []. unfold WireFrame_encode. rewrite !bytes_ok_app.
  destruct fo_sid0. split_and!; auto with rust.
  - constructor; [|constructor]. rewrite fo_version0. cbv; split; congruence.
  - constructor; [|constructor]. apply kind_as_u8_ok.
Qed.

(** ** WireFrame: round trip and canonicity *)
Lemma WireFrame_decode_encode f t :
  frame_ok f -> WireFrame_decode (WireFrame_encode f ++ t) = Ok f.
Proof.
  intros Hf. pose proof (len_WireFrame_encode f (proj1 (fo_sid f Hf))) as Hl.
  destruct Hf as [Hv [Hs _] Hq Hb Hp]. unfold is_u64 in Hq.
  pose proof (len_nonneg (payload f)). pose proof (len_nonneg t).
  unfold WireFrame_decode. rewrite len_app, Hl.
  destruct (Z.ltb_spec (HEADER_LEN + len (payload f) + len t) HEADER_LEN); [lia|].
  unfold WireFrame_encode. rewrite <- !app_assoc. cbn [app get_u8 res_bind].
  rewrite Hv. cbn [Z.eqb WIRE_VERSION Pos.eqb negb]. cbn [get_u8 res_bind].
  rewrite from_u8_as_u8. cbn [ok_or res_bind].
  rewrite copy_to_slice_app by done. cbn [res_bind].
  rewrite get_be_app. cbn [res_bind]. rewrite get_be_app. cbn [res_bind].
  unfold MAX_PAYLOAD in Hp.
  assert (wrap 32 (len (payload f)) = len (payload f)) as -> by (apply wrap_small; lia).
  rewrite (Z.mod_small (seq f)) by (cbn; lia).
  rewrite (Z.mod_small (len _)) by (cbn; lia).
  destruct (Z.ltb_spec MAX_PAYLOAD (len (payload f))); [unfold MAX_PAYLOAD in *; lia|].
  rewrite len_app. destruct (Z.ltb_spec (len (payload f) + len t) (len (payload f))); [lia|].
  rewrite split_slice_app by done. cbn. destruct f; cbn in *. by subst.
Qed.

Lemma ok_or_inv {A E} (o : option A) (e : E) a : ok_or o e = Ok a -> o = Some a.
Proof. by destruct o; intros; simplify_eq/=. Qed.

Lemma WireFrame_decode_inv b f :
  bytes_ok b -> WireFrame_decode b = Ok f -> frame_ok f /\ exists t, b = WireFrame_encode f ++ t.
Proof.
  intros Hb. unfold WireFrame_decode. case_match; [done|].
  destruct (get_u8 b) as [[v c0]| |] eqn:E0; cbn [res_bind]; [|done..].
  destruct (Z.eqb_spec v WIRE_VERSION) as [Hv|]; cbn [negb]; [|done].
  destruct (get_u8 c0) as [[kb c1]| |] eqn:E1; cbn [res_bind]; [|done..].
  destruct (ok_or (from_u8 kb) _) as [k| |] eqn:E2; cbn [res_bind]; [|done..].
  apply ok_or_inv, from_u8_Some in E2.
  destruct b as [|? ?]; [done|]. destruct c0 as [|? ?]; [cbn in E0; simplify_eq/=; done|].
  cbn in E0, E1. simplify_eq/=. inversion Hb as [|?? _ Hb1]; subst.
  inversion Hb1 as [|?? _ Hb2]; subst. clear Hb Hb1.
  destruct (copy_to_slice 16 c1) as [[s c2]| |] eqn:E3; cbn [res_bind]; [|done..].
  apply copy_to_slice_inv in E3 as (-> & Hs & Hsb & Hb3); [|done].
  destruct (get_be 8 c2) as [[q c3]| |] eqn:E4; cbn [res_bind]; [|done..].
  apply get_be_inv in E4 as (-> & Hq & Hb4); [|done].
  destruct (get_be 4 c3) as [[n c4]| |] eqn:E5; cbn [res_bind]; [|done..].
  apply get_be_inv in E5 as (-> & Hn & Hb5); [|done].
  destruct (Z.ltb_spec MAX_PAYLOAD n); [done|].
  destruct (Z.ltb_spec (len c4) n); [done|].
  destruct (split_slice n c4) as [[p c5]| |] eqn:E6; cbn [res_bind]; [|done..].
  apply split_slice_inv in E6 as (-> & Hp & Hpb & _); [|done|lia].
  intros [= <-]. split.
  - constructor; cbn; [reflexivity|split; done| |done|lia]. unfold is_u64. cbn in Hq. lia.
  - exists c5. unfold WireFrame_encode. cbn [version kind sid seq payload].
    rewrite wrap_small by (cbn in Hn; lia). rewrite Hp.
    by rewrite <- !app_assoc.
Qed.

(** ** Batch: round trip and canonicity up to slack *)

(** An envelope entry whose declared length covers [slack] bytes after the frame. *)
Definition slack_entry (f : WireFrame) (slack : bytes) : bytes :=
  be_bytes 4 (len (WireFrame_encode f ++ slack)) ++ WireFrame_encode f ++ slack.

Lemma encode_entry_slack f : frame_ok f -> encode_entry f = slack_entry f [].
Proof.
  intros Hf. unfold encode_entry, slack_entry. rewrite app_nil_r, wrap_small; [done|].
  pose proof (len_WireFrame_encode f (proj1 (fo_sid f Hf))) as ->.
  destruct Hf. unfold HEADER_LEN, MAX_PAYLOAD in *. pose proof (len_nonneg (payload f)). lia.
Qed.

Lemma decode_frames_step m i f slack c :
  frame_ok f -> len (WireFrame_encode f ++ slack) < 2 ^ 32 ->
  decode_frames (S m) i (slack_entry f slack ++ c) =
    (let? (rest, c) := decode_frames m (i + 1) c in Ok (f :: rest, c)).
Proof.
  intros Hf Hl. cbn [decode_frames]. unfold slack_entry. rewrite <- app_assoc.
  pose proof (len_nonneg ((WireFrame_encode f ++ slack) ++ c)) as Hn.
  rewrite len_app. unfold BATCH_PER_FRAME_OVERHEAD.
  replace (len (be_bytes 4 (len (WireFrame_encode f ++ slack)))) with 4
    by (unfold len; by rewrite length_be_bytes).
  destruct (Z.ltb_spec (4 + len ((WireFrame_encode f ++ slack) ++ c)) 4); [lia|].
  rewrite get_be_app. cbn [res_bind].
  rewrite pow256_4, Z.mod_small
    by (pose proof (len_nonneg (WireFrame_encode f ++ slack)); lia).
  rewrite (len_app (WireFrame_encode f ++ slack) c). pose proof (len_nonneg c).
  destruct (Z.ltb_spec (len (WireFrame_encode f ++ slack) + len c)
              (len (WireFrame_encode f ++ slack))); [lia|].
  rewrite split_slice_app by done. cbn [res_bind].
  rewrite WireFrame_decode_encode by done. done.
Qed.

Lemma frame_ok_entry_len f : frame_ok f -> len (WireFrame_encode f ++ []) < 2 ^ 32.
Proof.
  intros Hf. rewrite app_nil_r, len_WireFrame_encode by apply (fo_sid f Hf).
  destruct Hf. unfold HEADER_LEN, MAX_PAYLOAD in *. lia.
Qed.

Lemma decode_frames_encode fs i t :
  Forall frame_ok fs ->
  decode_frames (length fs) i ((fs ≫= encode_entry) ++ t) = Ok (fs, t).
Proof.
  intros Hfs. revert i. induction Hfs as [|f fs Hf Hfs IH]; intros i; [done|].
  cbn [length]. change ((f :: fs) ≫= encode_entry) with (encode_entry f ++ (fs ≫= encode_entry)).
  rewrite <- app_assoc, encode_entry_slack by done.
  rewrite decode_frames_step by eauto using frame_ok_entry_len.
  rewrite IH. done.
Qed.

Lemma Batch_decode_shape n body :
  1 <= n <= MAX_BATCH_FRAMES ->
  Batch_decode (BATCH_MAGIC ++ [n] ++ body) =
    (let? (fs, cursor) := decode_frames (Z.to_nat n) 0 body in
     if negb (bool_decide (cursor = [])) then Err (BatchTrailingBytes (len cursor)) else
     Ok (mkBatch fs)).
Proof.
  intros Hn. unfold Batch_decode. rewrite !len_app. unfold BATCH_HEADER_LEN.
  change (len BATCH_MAGIC) with 4. change (len [n]) with 1. pose proof (len_nonneg body).
  destruct (Z.ltb_spec (4 + (1 + len body)) 5); [lia|].
  rewrite split_slice_app by done. cbn [res_bind]. rewrite bool_decide_true by done. cbn [negb].
  cbn [app get_u8 res_bind]. unfold MAX_BATCH_FRAMES in *.
  destruct (Z.eqb_spec n 0); [lia|]. destruct (Z.ltb_spec 255 n); [lia|]. done.
Qed.

Lemma Batch_decode_encode b : batch_ok b -> Batch_decode (Batch_encode b) = Ok b.
Proof.
  intros [Hn Hf]. unfold Batch_encode. rewrite wrap_small by (unfold MAX_BATCH_FRAMES in *; lia).
  rewrite Batch_decode_shape by done. unfold len. rewrite Nat2Z.id.
  rewrite <- (app_nil_r (frames b ≫= encode_entry)), decode_frames_encode by done.
  cbn. by destruct b.
Qed.

Lemma map_err_inv {A E F} (f : E -> F) (m : res A E) a : map_err f m = Ok a -> m = Ok a.
Proof. by destruct m; intros; simplify_eq/=. Qed.

Lemma decode_frames_inv m i c fs r :
  bytes_ok c -> decode_frames m i c = Ok (fs, r) ->
  length fs = m /\ Forall frame_ok fs /\
  exists slacks, length slacks = m /\ c = concat (zip_with slack_entry fs slacks) ++ r.
Proof.
  revert i c fs. induction m as [|m IH]; intros i c fs Hc; cbn [decode_frames].
  { intros [= <- <-]. split_and!; [done|constructor|]. by exists []. }
  case_match; [done|].
  destruct (get_be 4 c) as [[n c1]| |] eqn:E1; cbn [res_bind]; [|done..].
  apply get_be_inv in E1 as (-> & Hn & Hc1); [|done].
  destruct (Z.ltb_spec (len c1) n); [done|].
  destruct (split_slice n c1) as [[fb c2]| |] eqn:E2; cbn [res_bind]; [|done..].
  apply split_slice_inv in E2 as (-> & Hfb & Hfbb & Hc2); [|done|lia].
  destruct (map_err _ _) as [f| |] eqn:E3; cbn [res_bind]; [|done..].
  apply map_err_inv, WireFrame_decode_inv in E3 as [Hf [sl ->]]; [|done].
  destruct (decode_frames m (i + 1) c2) as [[fs' r']| |] eqn:E4; cbn [res_bind]; [|done..].
  intros [= <- <-]. apply IH in E4 as (Hl & Hfs & sls & Hsl & ->); [|done].
  split_and!; [cbn; lia|by constructor|]. exists (sl :: sls). split; [cbn; lia|].
  cbn [zip_with concat]. unfold slack_entry. rewrite Hfb. by rewrite <- !app_assoc.
Qed.

(** No cursor read of either decoder can run off its buffer. *)
Lemma get_be_not_panic {E} n c : (n <= length c)%nat -> @get_be E n c <> Panic.
Proof. intros. unfold get_be. by destruct (Nat.leb_spec n (length c)); [|lia]. Qed.

Lemma WireFrame_decode_not_panic b : WireFrame_decode b <> Panic.
Proof.
  unfold WireFrame_decode. destruct (Z.ltb_spec (len b) HEADER_LEN) as [|Hl]; [done|].
  unfold HEADER_LEN, len in Hl. destruct b as [|v [|k c]]; [cbn in Hl; lia..|].
  cbn [get_u8 res_bind length] in *. case_match; [done|].
  destruct (from_u8 k); cbn [ok_or res_bind]; [|done].
  unfold copy_to_slice. destruct (Nat.leb_spec 16 (length c)); [|lia]. cbn [res_bind].
  unfold get_be. rewrite length_drop.
  destruct (Nat.leb_spec 8 (length c - 16)); [|lia]. cbn [res_bind]. rewrite !length_drop.
  destruct (Nat.leb_spec 4 (length c - 16 - 8)); [|lia]. cbn [res_bind].
  case_match; [done|]. unfold split_slice.
  repeat case_match; try done. cbn [res_bind] in *. bool_cases; try done; lia.
Qed.

Lemma decode_frames_not_panic m i c : decode_frames m i c <> Panic.
Proof.
  revert i c. induction m as [|m IH]; intros i c; cbn [decode_frames]; [done|].
  unfold BATCH_PER_FRAME_OVERHEAD. destruct (Z.ltb_spec (len c) 4) as [|H4]; [done|].
  unfold get_be. destruct (Nat.leb_spec 4 (length c)); [|unfold len in H4; lia].
  cbn [res_bind]. unfold split_slice.
  destruct (Z.ltb_spec (len (drop 4 c)) (be_val (take 4 c))); [done|].
  destruct (Z.leb_spec (be_val (take 4 c)) (len (drop 4 c))); [|lia]. cbn [res_bind].
  pose proof (WireFrame_decode_not_panic
                (take (Z.to_nat (be_val (take 4 c))) (drop 4 c))) as Hw.
  destruct (WireFrame_decode _); cbn [map_err res_bind]; [|done|done].
  pose proof (IH (i + 1) (drop (Z.to_nat (be_val (take 4 c))) (drop 4 c))).
  by destruct (decode_frames m _ _) as [[??]| |].
Qed.

Lemma Batch_decode_inv b B :
  bytes_ok b -> Batch_decode b = Ok B ->
  batch_ok B /\ exists slacks, length slacks = length (frames B) /\
    b = BATCH_MAGIC ++ [len (frames B)] ++ concat (zip_with slack_entry (frames B) slacks).
Proof.
  intros Hb. unfold Batch_decode. destruct (Z.ltb_spec (len b) BATCH_HEADER_LEN); [done|].
  destruct (split_slice 4 b) as [[mg c]| |] eqn:E1; cbn [res_bind]; [|done..].
  apply split_slice_inv in E1 as (-> & _ & _ & Hc); [|done|lia].
  case_bool_decide as Hm; [|done]. cbn [negb]. subst mg.
  destruct c as [|n c]; [done|]. cbn [get_u8 res_bind].
  destruct (Z.eqb_spec n 0); [done|]. destruct (Z.ltb_spec MAX_BATCH_FRAMES n); [done|]. cbn [orb].
  inversion Hc as [|?? Hn Hc']; subst.
  destruct (decode_frames (Z.to_nat n) 0 c) as [[fs r]| |] eqn:E2; cbn [res_bind]; [|done..].
  apply decode_frames_inv in E2 as (Hl & Hfs & sls & Hsl & ->); [|done].
  case_bool_decide; [|done]. cbn [negb]. intros [= <-]. subst r.
  unfold is_u8, MAX_BATCH_FRAMES in *. assert (len fs = n) by (unfold len; lia).
  split.
  - split; [cbn [frames]; unfold MAX_BATCH_FRAMES; lia|done].
  - exists sls. cbn [frames]. split; [lia|]. subst n. by rewrite app_nil_r.
Qed.

Lemma Batch_decode_not_panic b : Batch_decode b <> Panic.
Proof.
  unfold Batch_decode. destruct (Z.ltb_spec (len b) BATCH_HEADER_LEN) as [|Hl]; [done|].
  unfold BATCH_HEADER_LEN in Hl. unfold split_slice.
  destruct (Z.leb_spec 4 (len b)); [|lia]. cbn [res_bind]. case_match; [done|].
  destruct (drop (Z.to_nat 4) b) as [|n c] eqn:E; cbn [get_u8 res_bind].
  { apply (f_equal length) in E. rewrite length_drop in E. unfold len in Hl. cbn in E. lia. }
  case_match; [done|]. pose proof (decode_frames_not_panic (Z.to_nat n) 0 c).
  destruct (decode_frames _ _ _) as [[??]| |]; cbn [res_bind]; [|done..]. by case_match.
Qed.

(** ** Properties *)

(** Big-endian field of [n] bytes at offset [off]. *)
Definition field (off n : nat) (b : bytes) : Z := be_val (take n (drop off b)).

(** The layout comment of frame.rs as a function: every field at its absolute
    offset, the checks in the order the source makes them. *)
Definition decode_by_offset (b : bytes) : res WireFrame DecodeError :=
  if len b <? 30 then Err (TooShort (len b))
  else if negb (field 0 1 b =? 1) then Err (UnsupportedVersion (field 0 1 b))
  else match from_u8 (field 1 1 b) with
  | None => Err (UnknownKind (field 1 1 b))
  | Some k =>
    if 4194304 <? field 26 4 b then Err (PayloadTooLarge (field 26 4 b))
    else if len b - 30 <? field 26 4 b
    then Err (PayloadTruncated (field 26 4 b) (len b - 30))
    else Ok (mkFrame 1 k (take 16 (drop 2 b)) (field 18 8 b)
               (take (Z.to_nat (field 26 4 b)) (drop 30 b)))
  end.

Lemma field_head off b x r : drop off b = x :: r -> field off 1 b = x.
Proof. unfold field. intros ->. cbn. destruct r; cbn; lia. Qed.

(** A wire frame decodes to itself from its encoding, whatever bytes follow
    it, and the encoding is the 30-byte header plus the payload. *)
Theorem wire_frame_roundtrip f t :
  frame_ok f ->
  WireFrame_decode (WireFrame_encode f ++ t) = Ok f /\
  len (WireFrame_encode f) = HEADER_LEN + len (payload f).
Proof.
  intros Hf. split; [by apply WireFrame_decode_encode|].
  apply len_WireFrame_encode, (fo_sid f Hf).
Qed.

Definition sample_sid : SessionId := replicate 16 0xab.
Definition sample_frame : WireFrame := mkFrame WIRE_VERSION Data sample_sid 7 [104; 105].

Lemma sample_sid_ok : sid_ok sample_sid.
Proof. split; [done|]. repeat constructor; done. Qed.

Lemma sample_frame_ok : frame_ok sample_frame.
Proof.
  constructor; cbn; [done|apply sample_sid_ok|done| |done]. repeat constructor; done.
Qed.

Lemma wire_frame_roundtrip_witness :
  WireFrame_decode (WireFrame_encode sample_frame ++ [1; 2; 3]) = Ok sample_frame /\
  len (WireFrame_encode sample_frame) = HEADER_LEN + len (payload sample_frame).
Proof. apply (wire_frame_roundtrip sample_frame [1; 2; 3]). apply sample_frame_ok. Defined.

(** On every input, [WireFrame::decode] is the offset-by-offset reading of
    the documented layout: it never panics, each error is returned exactly on its own
    condition and in the source's order, and an accepted frame is the slices at the
    layout's offsets. *)
Theorem wire_frame_decode_by_offset b : WireFrame_decode b = decode_by_offset b.
Proof.
  unfold WireFrame_decode, decode_by_offset, HEADER_LEN.
  destruct (Z.ltb_spec (len b) 30) as [|Hl]; [done|]. unfold len in Hl.
  destruct b as [|v [|k c]]; [cbn in Hl; lia..|]. cbn [length] in Hl.
  rewrite (field_head 0 (v :: k :: c) v (k :: c)), (field_head 1 (v :: k :: c) k c) by done.
  cbn [get_u8 res_bind]. unfold WIRE_VERSION. destruct (Z.eqb_spec v 1) as [->|]; cbn [negb]; [|done].
  destruct (from_u8 k); cbn [ok_or res_bind]; [|done].
  unfold copy_to_slice. destruct (Nat.leb_spec 16 (length c)); [|lia]. cbn [res_bind].
  unfold get_be. rewrite length_drop.
  destruct (Nat.leb_spec 8 (length c - 16)); [|lia]. cbn [res_bind]. rewrite !length_drop.
  destruct (Nat.leb_spec 4 (length c - 16 - 8)); [|lia]. cbn [res_bind].
  rewrite !drop_drop. cbn [Nat.add]. unfold field. cbn [drop].
  change MAX_PAYLOAD with 4194304. case_match; [done|].
  assert (len (1 :: k :: c) - 30 = len (drop 28 c)) as ->
    by (unfold len; rewrite length_drop; cbn [length]; lia).
  unfold split_slice. case_match; [done|].
  destruct (Z.leb_spec (be_val (take 4 (drop 24 c))) (len (drop 28 c))); [done|].
  bool_cases; (done || lia).
Qed.

(** A batch of 1 to 255 well-formed frames decodes to itself from its
    encoding. *)
Theorem batch_roundtrip b : batch_ok b -> Batch_decode (Batch_encode b) = Ok b.
Proof. apply Batch_decode_encode. Qed.

Lemma batch_roundtrip_witness :
  Batch_decode (Batch_encode (mkBatch [sample_frame; sample_frame]))
  = Ok (mkBatch [sample_frame; sample_frame]).
Proof.
  apply (batch_roundtrip (mkBatch [sample_frame; sample_frame])).
  split; [cbv; split; congruence|]. repeat constructor; apply sample_frame_ok.
Defined.

(** [Batch::decode] never panics, and whatever it accepts is exactly the
    magic, a count byte equal to the number of frames (1 to 255), and for each
    well-formed frame a length prefix, the frame's encoding and bytes the prefix
    covers beyond it. *)
Theorem batch_decode_sound b :
  bytes_ok b ->
  match Batch_decode b with
  | Ok B => batch_ok B /\ exists slacks, length slacks = length (frames B) /\
      b = BATCH_MAGIC ++ [len (frames B)] ++ concat (zip_with slack_entry (frames B) slacks)
  | Err _ => True
  | Panic => False
  end.
Proof.
  intros Hb. pose proof (Batch_decode_not_panic b).
  destruct (Batch_decode b) eqn:E; [by apply Batch_decode_inv|done..].
Qed.

Lemma batch_decode_sound_witness :
  exists slacks, Batch_encode (Batch_single sample_frame) =
    BATCH_MAGIC ++ [1] ++ concat (zip_with slack_entry [sample_frame] slacks).
Proof.
  destruct (batch_decode_sound (Batch_encode (Batch_single sample_frame)))
    as [_ [sl [_ H]]]; [|exists sl; exact H].
  apply Forall_forall. intros x Hx. revert x Hx. apply Forall_forall.
  repeat constructor; done.
Defined.

(** The envelope is not strict inside an entry: a length prefix that covers
    bytes after the frame it carries is accepted and those bytes are dropped, so
    distinct bodies decode to the same batch. *)
Theorem batch_slack_accepted f slack :
  frame_ok f -> len (WireFrame_encode f ++ slack) < 2 ^ 32 ->
  Batch_decode (BATCH_MAGIC ++ [1] ++ slack_entry f slack) = Ok (Batch_single f).
Proof.
  intros Hf Hl. rewrite Batch_decode_shape by (unfold MAX_BATCH_FRAMES; lia).
  change (Z.to_nat 1) with 1%nat. rewrite <- (app_nil_r (slack_entry f slack)).
  by rewrite decode_frames_step.
Qed.

Lemma batch_slack_accepted_witness :
  Batch_decode (BATCH_MAGIC ++ [1] ++ slack_entry sample_frame [9; 9; 9])
  = Ok (Batch_single sample_frame).
Proof. apply (batch_slack_accepted sample_frame [9; 9; 9]); [apply sample_frame_ok|done]. Defined.
