(* ===== verification/Filename.v ===== *)
(** * drive-wire/src/filename.rs: the mailbox filename grammar

    [DriveFilename::format], [parse_filename] and the hand-rolled RFC 4648 base32
    codec of the 16-byte session id, with its 64-bit shift register. *)

From stdpp Require Import prelude.
From S2P Require Import Prelude RustStr Bits Frame.
#[local] Open Scope Z_scope.

(** ** Data *)
Definition PREFIX_HELLO : str := Eval cbv in lit "h_".
Definition PREFIX_C2R : str := Eval cbv in lit "c2r_".
Definition PREFIX_R2C : str := Eval cbv in lit "r2c_".
Definition UNDERSCORE : Z := 95.

Inductive Direction := ClientToRelay | RelayToClient.
Inductive FilenameKind := KHello | KFrame (d : Direction).

#[export] Instance Direction_eq_dec : EqDecision Direction.
Proof. solve_decision. Defined.
#[export] Instance FilenameKind_eq_dec : EqDecision FilenameKind.
Proof. solve_decision. Defined.

Record DriveFilename := mkName { fkind : FilenameKind; fsid : SessionId; fseq : Z }.

#[export] Instance DriveFilename_eq_dec : EqDecision DriveFilename.
Proof. solve_decision. Defined.

(** ** Base32 *)
Definition ALPHABET : bytes := Eval cbv in lit "abcdefghijklmnopqrstuvwxyz234567".
Definition alphabet_char (idx : Z) : Z := nth (Z.to_nat idx) ALPHABET 0.

(** [while bits_in_buffer >= 5 { .. }]: the characters pushed and the bits left. *)
Fixpoint drain5 (fuel : nat) (buffer bits : Z) : list Z * Z :=
  match fuel with
  | O => ([], bits)
  | S f =>
    if 5 <=? bits then
      let bits := bits - 5 in
      let idx := Z.land (Z.shiftr buffer bits) 0x1f in
      let '(out, bits) := drain5 f buffer bits in
      (alphabet_char idx :: out, bits)
    else ([], bits)
  end.

(** The body of [for &byte in sid]; the register holds fewer than 5 bits on entry,
    so two rounds empty it below 5 again. *)
Definition encode_step (st : str * Z * Z) (byte : Z) : str * Z * Z :=
  let '(out, buffer, bits) := st in
  let buffer := Z.lor (wrap 64 (Z.shiftl buffer 8)) byte in
  let '(chars, bits) := drain5 2 buffer (bits + 8) in
  (out ++ chars, buffer, bits).

Definition encode_sid_b32 (sid : SessionId) : str :=
  let '(out, buffer, bits) := fold_left encode_step sid ([], 0, 0) in
  if 0 <? bits
  then out ++ [alphabet_char (Z.land (wrap 64 (Z.shiftl buffer (5 - bits))) 0x1f)]
  else out.

Definition decode_b32_char (c : Z) : option Z :=
  if between 97 c 122 then Some (c - 97)
  else if between 65 c 90 then Some (c - 65)
  else if between 50 c 55 then Some (c - 50 + 26)
  else None.

(** The body of [for c in s.bytes()]: [out] is the 16-byte array, [out_idx] the next
    slot to fill. *)
Definition decode_step (st : bytes * Z * Z * nat) (c : Z) : option (bytes * Z * Z * nat) :=
  let '(out, buffer, bits, out_idx) := st in
  v ← decode_b32_char c;
  let buffer := Z.lor (wrap 64 (Z.shiftl buffer 5)) v in
  let bits := bits + 5 in
  if 8 <=? bits then
    let bits := bits - 8 in
    if (16 <=? out_idx)%nat then None else
    Some (<[out_idx := Z.land (Z.shiftr buffer bits) 0xff]> out, buffer, bits, S out_idx)
  else Some (out, buffer, bits, out_idx).

Fixpoint decode_loop (s : bytes) (st : bytes * Z * Z * nat) : option (bytes * Z * Z * nat) :=
  match s with
  | [] => Some st
  | c :: s' => st ← decode_step st c; decode_loop s' st
  end.

Definition decode_sid_b32 (s : str) : option SessionId :=
  if negb (str_len s =? 26) then None else
  '(out, _, _, out_idx) ← decode_loop (as_bytes s) (replicate 16 0, 0, 0, O);
  if negb (out_idx =? 16)%nat then None else Some out.

(** ** The grammar *)
Definition kind_prefix (k : FilenameKind) : str :=
  match k with
  | KHello => PREFIX_HELLO
  | KFrame ClientToRelay => PREFIX_C2R
  | KFrame RelayToClient => PREFIX_R2C
  end.

Definition DriveFilename_format (f : DriveFilename) : str :=
  kind_prefix (fkind f) ++ encode_sid_b32 (fsid f) ++ [UNDERSCORE] ++ dec_string (fseq f).

Definition split_kind (name : str) : option (FilenameKind * str) :=
  match strip_prefix PREFIX_C2R name with
  | Some r => Some (KFrame ClientToRelay, r)
  | None =>
    match strip_prefix PREFIX_R2C name with
    | Some r => Some (KFrame RelayToClient, r)
    | None =>
      match strip_prefix PREFIX_HELLO name with
      | Some r => Some (KHello, r)
      | None => None
      end
    end
  end.

Definition parse_filename (name : str) : option DriveFilename :=
  '(kind, rest) ← split_kind name;
  '(sid_b32, seq_str) ← rsplit_once UNDERSCORE rest;
  sid ← decode_sid_b32 sid_b32;
  seq ← parse_u64 seq_str;
  if bool_decide (kind = KHello) && negb (seq =? 0) then None
  else Some (mkName kind sid seq).

(** What the Rust types and the grammar guarantee of a name. *)
Definition name_ok (f : DriveFilename) : Prop :=
  sid_ok (fsid f) /\ is_u64 (fseq f) /\ (fkind f = KHello -> fseq f = 0).

(** ** The encoder is the bit queue read five bits at a time *)
Abbreviation sid_bits := (mbind (bits_of 8)).
Abbreviation b32_bits := (mbind (bits_of 5)).

Definition b32_vals (vals : list Z) : Prop := Forall (fun v => 0 <= v < 32) vals.

(** [buffer] holds the [bits] bits that are still to be read. *)
Definition register (buffer bits : Z) (pend : list bool) : Prop :=
  holds buffer pend /\ bits = Z.of_nat (length pend).

Lemma drain5_spec fuel buffer bits l :
  register buffer bits l -> (length l < 5 * S fuel)%nat ->
  exists vals pend,
    drain5 fuel buffer bits = (alphabet_char <$> vals, Z.of_nat (length pend)) /\
    b32_vals vals /\ (length pend < 5)%nat /\ register buffer (Z.of_nat (length pend)) pend /\
    l = b32_bits vals ++ pend.
Proof.
  revert bits l. induction fuel as [|f IH]; intros bits l [Hh ->] Hl; cbn [drain5].
  { exists [], l. split_and!; (done || lia || constructor). }
  destruct (Z.leb_spec 5 (Z.of_nat (length l))) as [H5|H5].
  2:{ exists [], l. split_and!; (done || lia || constructor). }
  rewrite <- (take_drop 5 l) in Hh. pose proof (holds_pop _ _ _ Hh) as [Hv Hh'].
  assert (length (take 5 l) = 5%nat) as Ht by (rewrite length_take; lia).
  assert (Z.of_nat (length l) - 5 = Z.of_nat (length (drop 5 l))) as -> by (rewrite length_drop; lia).
  rewrite Ht in Hv. change (Z.ones (Z.of_nat 5)) with 0x1f in Hv. rewrite Hv.
  destruct (IH (Z.of_nat (length (drop 5 l))) (drop 5 l)) as (vals & pend & -> & Hb & Hp & Hr & E).
  { by split. } { rewrite length_drop. lia. }
  pose proof (bval_bound (take 5 l)) as Hb5. rewrite Ht in Hb5.
  exists (bval (take 5 l) :: vals), pend. split_and!; try done.
  - constructor; [exact Hb5|done].
  - change (b32_bits (bval (take 5 l) :: vals)) with (bits_of 5 (bval (take 5 l)) ++ b32_bits vals).
    rewrite bits_of_bval', <- app_assoc, <- E by done. by rewrite take_drop.
Qed.

(** State of the encoder after the bytes whose bits are [seen]. *)
Definition encoded (seen : list bool) (st : str * Z * Z) : Prop :=
  exists vals pend, st.1.1 = alphabet_char <$> vals /\ b32_vals vals /\
    (length pend < 5)%nat /\ register st.1.2 st.2 pend /\ seen = b32_bits vals ++ pend.

Lemma encode_step_spec seen st byte :
  is_u8 byte -> encoded seen st -> encoded (seen ++ bits_of 8 byte) (encode_step st byte).
Proof.
  destruct st as [[out buffer] bits]. intros Hb (vals & pend & Ho & Hv & Hp & [Hh Hbits] & ->).
  cbn in Ho, Hh, Hbits. subst out bits. unfold encode_step.
  pose proof (holds_push buffer pend 8 byte Hh ltac:(lia) Hb) as Hpush.
  destruct (drain5_spec 2 (Z.lor (wrap 64 (Z.shiftl buffer 8)) byte) (Z.of_nat (length pend) + 8)
              (pend ++ bits_of 8 byte)) as (vals' & pend' & -> & Hv' & Hp' & Hr & E).
  { split; [done|]. rewrite length_app, length_bits_of. lia. }
  { rewrite length_app, length_bits_of. lia. }
  exists (vals ++ vals'), pend'. cbn [fst snd]. split_and!; try done.
  - by rewrite fmap_app.
  - by apply Forall_app.
  - rewrite bind_app. by rewrite <- !app_assoc, E.
Qed.

Lemma encode_fold_spec sid seen st :
  bytes_ok sid -> encoded seen st ->
  encoded (seen ++ sid_bits sid) (fold_left encode_step sid st).
Proof.
  intros Hs. revert seen st. induction Hs as [|b sid Hb Hs IH]; intros seen st He; cbn [fold_left].
  { by rewrite app_nil_r. }
  change (sid_bits (b :: sid)) with (bits_of 8 b ++ sid_bits sid). rewrite app_assoc.
  by apply IH, encode_step_spec.
Qed.

Lemma encode_sid_b32_spec sid :
  bytes_ok sid ->
  exists vals pad, encode_sid_b32 sid = alphabet_char <$> vals /\ b32_vals vals /\
    (length pad < 5)%nat /\ b32_bits vals = sid_bits sid ++ pad /\ pad = replicate (length pad) false.
Proof.
  intros Hs. unfold encode_sid_b32.
  destruct (encode_fold_spec sid [] ([], 0, 0) Hs) as (vals & pend & Ho & Hv & Hp & [Hh Hb] & E).
  { exists [], []. split_and!; cbn; (done || lia || constructor). }
  destruct (fold_left _ _ _) as [[out buffer] bits]. cbn in *. subst out bits.
  destruct (Z.ltb_spec 0 (Z.of_nat (length pend))) as [H0|H0].
  2:{ exists vals, []. destruct pend; [|cbn in H0; lia]. rewrite app_nil_r in E.
      split_and!; try done; cbn; try lia. by rewrite app_nil_r. }
  set (z := (5 - length pend)%nat).
  assert (length (bits_of z 0) = z) as Hz1 by apply length_bits_of.
  pose proof (holds_push buffer pend z 0 Hh ltac:(lia) ltac:(pose proof (pow2_pos z); lia)) as Hpush.
  rewrite Z.lor_0_r in Hpush. rewrite <- (app_nil_r (pend ++ _)) in Hpush.
  apply holds_pop in Hpush as [Hval _]. cbn [length] in Hval. rewrite Z.shiftr_0_r in Hval.
  assert (length (pend ++ bits_of z 0) = 5%nat) as H5 by (rewrite length_app; lia).
  rewrite H5 in Hval. change (Z.ones (Z.of_nat 5)) with 0x1f in Hval.
  replace (5 - Z.of_nat (length pend)) with (Z.of_nat z) by lia. rewrite Hval.
  pose proof (bval_bound (pend ++ bits_of z 0)) as Hbb. rewrite H5 in Hbb.
  exists (vals ++ [bval (pend ++ bits_of z 0)]), (bits_of z 0). rewrite Hz1. split_and!.
  - by rewrite fmap_app.
  - apply Forall_app. split; [done|]. constructor; [exact Hbb|constructor].
  - lia.
  - rewrite bind_app.
    change (b32_bits [bval (pend ++ bits_of z 0)]) with (bits_of 5 (bval (pend ++ bits_of z 0)) ++ []).
    rewrite app_nil_r, bits_of_bval', app_assoc by done. by rewrite <- E.
  - apply bits_of_zero.
Qed.

Lemma alphabet_inverse v :
  0 <= v < 32 -> decode_b32_char (alphabet_char v) = Some v /\
    is_ascii (alphabet_char v) /\ alphabet_char v <> UNDERSCORE.
Proof.
  intros Hv. rewrite <- (Z2Nat.id v) by lia.
  assert (Z.to_nat v < 32)%nat as Hn by lia. revert Hn. generalize (Z.to_nat v). clear.
  intros n Hn. do 32 (destruct n as [|n]; [by vm_compute|]). lia.
Qed.

Lemma alphabet_ascii vals : b32_vals vals -> Forall is_ascii (alphabet_char <$> vals).
Proof.
  intros H. apply Forall_fmap. eapply Forall_impl; [exact H|].
  intros v Hv. apply (alphabet_inverse v Hv).
Qed.

Lemma alphabet_no_underscore vals : b32_vals vals -> UNDERSCORE ∉ alphabet_char <$> vals.
Proof.
  intros H (v & E & Hv)%list_elem_of_fmap. unfold b32_vals in H. rewrite Forall_forall in H.
  destruct (alphabet_inverse v (H v Hv)) as (_ & _ & Hne). congruence.
Qed.

Lemma b32_val_range c v : decode_b32_char c = Some v -> 0 <= v < 32.
Proof. unfold decode_b32_char, between. repeat case_match; intros; simplify_eq; lia. Qed.

(** ** The decoder is the bit queue read eight bits at a time *)
Definition decoded (seen : list bool) (st : bytes * Z * Z * nat) : Prop :=
  let '(out, buffer, bits, out_idx) := st in
  exists bs pend, bytes_ok bs /\ out_idx = length bs /\ length out = 16%nat /\
    take out_idx out = bs /\ (length pend < 8)%nat /\ register buffer bits pend /\
    seen = sid_bits bs ++ pend.

Lemma take_S_insert {A} (l : list A) i x :
  (i < length l)%nat -> take (S i) (<[i := x]> l) = take i l ++ [x].
Proof.
  intros H. rewrite (take_S_r _ i x); [|by apply list_lookup_insert_eq].
  by rewrite take_insert_ge by lia.
Qed.

Lemma decode_step_spec seen st c v :
  decoded seen st -> (length seen + 5 <= 130)%nat -> decode_b32_char c = Some v ->
  exists st', decode_step st c = Some st' /\ decoded (seen ++ bits_of 5 v) st'.
Proof.
  destruct st as [[[out buffer] bits] idx].
  intros (bs & pend & Hbs & -> & Hout & Htk & Hp & [Hh Hb] & ->) Hlen Hc. subst bits.
  pose proof (b32_val_range _ _ Hc) as Hv. unfold decode_step. rewrite Hc. cbn [mbind option_bind].
  pose proof (holds_push buffer pend 5 v Hh ltac:(lia) Hv) as Hpush.
  set (q := pend ++ bits_of 5 v) in *.
  assert (length q = length pend + 5)%nat as Hq by (unfold q; rewrite length_app, length_bits_of; lia).
  replace (Z.of_nat (length pend) + 5) with (Z.of_nat (length q)) by lia.
  change (Z.of_nat 5) with 5 in Hpush.
  rewrite length_app, (bind_length_const _ 8) in Hlen by apply length_bits_of.
  destruct (Z.leb_spec 8 (Z.of_nat (length q))) as [H8|H8].
  2:{ eexists. split; [done|]. exists bs, q. split_and!; try done; [lia|]. by rewrite <- app_assoc. }
  destruct (Nat.leb_spec 16 (length bs)); [lia|].
  rewrite <- (take_drop 8 q) in Hpush. pose proof (holds_pop _ _ _ Hpush) as [Hval Hh'].
  assert (length (take 8 q) = 8%nat) as Ht by (rewrite length_take; lia).
  rewrite Ht in Hval. change (Z.ones (Z.of_nat 8)) with 0xff in Hval.
  replace (Z.of_nat (length q) - 8) with (Z.of_nat (length (drop 8 q))) by (rewrite length_drop; lia).
  rewrite Hval. eexists. split; [done|].
  pose proof (bval_bound (take 8 q)) as Hbb. rewrite Ht in Hbb.
  exists (bs ++ [bval (take 8 q)]), (drop 8 q). split_and!.
  - apply bytes_ok_app. split; [done|]. constructor; [exact Hbb|constructor].
  - rewrite length_app. cbn. lia.
  - by rewrite length_insert.
  - rewrite take_S_insert by lia. by rewrite Htk.
  - rewrite length_drop. lia.
  - by split.
  - rewrite bind_app. change (sid_bits [bval (take 8 q)]) with (bits_of 8 (bval (take 8 q)) ++ []).
    rewrite app_nil_r, bits_of_bval' by done.
    by rewrite <- !app_assoc, take_drop.
Qed.

Lemma decode_loop_spec vals seen st :
  b32_vals vals -> decoded seen st -> (length seen + 5 * length vals <= 130)%nat ->
  exists st', decode_loop (alphabet_char <$> vals) st = Some st' /\ decoded (seen ++ b32_bits vals) st'.
Proof.
  intros Hv. revert seen st. induction Hv as [|v vals Hv Hvs IH]; intros seen st Hd Hl.
  { exists st. split; [done|]. by rewrite app_nil_r. }
  cbn [length] in Hl. destruct (decode_step_spec seen st (alphabet_char v) v) as (st1 & E1 & Hd1).
  { done. } { lia. } { apply (alphabet_inverse v Hv). }
  destruct (IH _ _ Hd1) as (st2 & E2 & Hd2).
  { rewrite length_app, length_bits_of. lia. }
  exists st2. split.
  - cbn [fmap list_fmap decode_loop]. rewrite E1. cbn [mbind option_bind]. exact E2.
  - change (b32_bits (v :: vals)) with (bits_of 5 v ++ b32_bits vals). by rewrite app_assoc.
Qed.

Lemma encode_sid_chars sid :
  sid_ok sid -> Forall is_ascii (encode_sid_b32 sid) /\ UNDERSCORE ∉ encode_sid_b32 sid /\
    length (encode_sid_b32 sid) = 26%nat.
Proof.
  intros [Hl Hs]. destruct (encode_sid_b32_spec sid Hs) as (vals & pad & -> & Hv & Hp & E & _).
  split_and!; [by apply alphabet_ascii|by apply alphabet_no_underscore|].
  apply (f_equal length) in E. rewrite length_app in E.
  rewrite !(bind_length_const (bits_of _) _ _ (length_bits_of _)) in E. rewrite length_fmap. lia.
Qed.

Lemma decode_encode_sid sid : sid_ok sid -> decode_sid_b32 (encode_sid_b32 sid) = Some sid.
Proof.
  intros Hok. destruct (encode_sid_chars sid Hok) as (Ha & _ & H26). destruct Hok as [Hl Hs].
  unfold decode_sid_b32, str_len, len. rewrite as_bytes_ascii by done. rewrite H26. cbn [negb Z.eqb].
  destruct (encode_sid_b32_spec sid Hs) as (vals & pad & Ee & Hv & Hp & E & _).
  rewrite Ee in H26 |- *. rewrite length_fmap in H26.
  destruct (decode_loop_spec vals [] (replicate 16 0, 0, 0, O) Hv) as (st & -> & Hd).
  { exists [], []. split_and!; cbn; (done || lia || constructor). } { cbn. lia. }
  destruct st as [[[out buffer] bits] idx].
  destruct Hd as (bs & pend & Hbs & -> & Hout & Htk & Hp' & _ & Es).
  change ([] ++ b32_bits vals) with (b32_bits vals) in Es. rewrite E in Es.
  pose proof (f_equal length Es) as El. rewrite !length_app in El.
  rewrite !(bind_length_const (bits_of _) _ _ (length_bits_of _)) in El.
  assert (length pad < 8)%nat by lia. assert (length bs = 16%nat) as H16 by lia.
  cbn [mbind option_bind]. rewrite H16. cbn [Nat.eqb negb]. f_equal.
  rewrite <- (take_ge out 16) by lia. rewrite <- H16, Htk.
  apply app_inj_1 in Es as [Es _].
  2:{ rewrite !(bind_length_const (bits_of _) _ _ (length_bits_of _)). lia. }
  symmetry. eapply (bind_inj_const is_u8 _ 8); [apply length_bits_of| |done|done|lia|exact Es].
  intros x y Hx Hy. by apply (bits_of_inj 8).
Qed.

Lemma decode_step_inv st c st' :
  length st.1.1.1 = 16%nat -> bytes_ok st.1.1.1 -> decode_step st c = Some st' ->
  length st'.1.1.1 = 16%nat /\ bytes_ok st'.1.1.1.
Proof.
  destruct st as [[[out buffer] bits] idx]. cbn [fst]. intros Hl Ho. unfold decode_step.
  destruct (decode_b32_char c); cbn [mbind option_bind]; [|done].
  repeat case_match; intros; simplify_eq; cbn [fst]; [|done].
  rewrite length_insert. split; [done|]. apply Forall_insert; [done|].
  change 0xff with (Z.ones 8). rewrite Z.land_ones by lia. apply Z.mod_pos_bound. lia.
Qed.

Lemma decode_sid_ok s sid : decode_sid_b32 s = Some sid -> sid_ok sid.
Proof.
  unfold decode_sid_b32. case_match; [done|].
  destruct (decode_loop _ _) as [[[[out buf] bits] idx]|] eqn:E; cbn [mbind option_bind]; [|done].
  case_match; [done|]. intros [= <-].
  assert (forall l st st', length st.1.1.1 = 16%nat -> bytes_ok st.1.1.1 ->
            decode_loop l st = Some st' -> length st'.1.1.1 = 16%nat /\ bytes_ok st'.1.1.1) as Hloop.
  { clear. induction l as [|c l IH]; intros st st' Hl Ho; cbn [decode_loop]; [naive_solver|].
    destruct (decode_step st c) as [st1|] eqn:E1; cbn [mbind option_bind]; [|done].
    destruct (decode_step_inv _ _ _ Hl Ho E1). by apply IH. }
  apply Hloop in E; [done|done|]. cbn. repeat constructor; done.
Qed.

(** ** The grammar *)
Lemma parse_format f : name_ok f -> parse_filename (DriveFilename_format f) = Some f.
Proof.
  destruct f as [k s q]. intros (Hs & Hq & Hk). cbn in *. unfold is_u64 in Hq.
  destruct (encode_sid_chars s Hs) as (Ha & Hu & _).
  unfold parse_filename, DriveFilename_format. cbn [fkind fsid fseq].
  assert (split_kind (kind_prefix k ++ encode_sid_b32 s ++ [UNDERSCORE] ++ dec_string q)
          = Some (k, encode_sid_b32 s ++ UNDERSCORE :: dec_string q)) as ->.
  { by destruct k as [|[]]. }
  cbn [mbind option_bind]. rewrite rsplit_once_last by (apply dec_string_not_elem; [done|lia]).
  cbn [mbind option_bind]. rewrite decode_encode_sid by done. cbn [mbind option_bind].
  unfold parse_u64. rewrite parse_dec_string; [|unfold u64_max; lia|lia]. cbn [mbind option_bind].
  case_bool_decide as H; cbn [andb]; [|done]. rewrite Hk by done. done.
Qed.

Lemma parse_filename_ok n f : parse_filename n = Some f -> name_ok f.
Proof.
  unfold parse_filename.
  destruct (split_kind n) as [[k r]|]; cbn [mbind option_bind]; [|done].
  destruct (rsplit_once UNDERSCORE r) as [[a b]|]; cbn [mbind option_bind]; [|done].
  destruct (decode_sid_b32 a) as [s|] eqn:Es; cbn [mbind option_bind]; [|done].
  destruct (parse_u64 b) as [q|] eqn:Eq; cbn [mbind option_bind]; [|done].
  apply parse_uint_bound in Eq; [|unfold u64_max; lia]. apply decode_sid_ok in Es.
  destruct (bool_decide (k = KHello)) eqn:Ek; destruct (Z.eqb_spec q 0); cbn; intros; simplify_eq;
    (split; [done|]; split; [unfold is_u64, u64_max in *; cbn [fseq]; lia|]; cbn).
  - done.
  - done.
  - intros ->. by rewrite bool_decide_true in Ek.
Qed.

(** ** Properties *)

(** The base32 shift-register loop loses nothing: 16 bytes become 26 ASCII
    characters, none of them the separator, and decode to the same 16 bytes; the bits
    of the characters are the bits of the session id followed by zero padding. *)
Theorem sid_b32_roundtrip sid :
  sid_ok sid ->
  decode_sid_b32 (encode_sid_b32 sid) = Some sid /\
  length (encode_sid_b32 sid) = 26%nat /\ UNDERSCORE ∉ encode_sid_b32 sid /\
  exists vals pad, encode_sid_b32 sid = alphabet_char <$> vals /\
    b32_bits vals = sid_bits sid ++ pad /\ pad = replicate (length pad) false.
Proof.
  intros Hs. destruct (encode_sid_chars sid Hs) as (_ & Hu & Hl).
  destruct (encode_sid_b32_spec sid (proj2 Hs)) as (vals & pad & E & _ & _ & Eb & Ep).
  split; [by apply decode_encode_sid|]. split; [done|]. split; [done|]. by exists vals, pad.
Qed.

Lemma sid_b32_roundtrip_witness :
  decode_sid_b32 (encode_sid_b32 sample_sid) = Some sample_sid.
Proof. apply (sid_b32_roundtrip sample_sid). apply sample_sid_ok. Defined.

(** A formatted mailbox name parses back to its kind, session id and
    sequence number; hence distinct (kind, sid, seq) triples get distinct names. *)
Theorem filename_roundtrip f :
  name_ok f ->
  parse_filename (DriveFilename_format f) = Some f /\
  forall g, name_ok g -> DriveFilename_format g = DriveFilename_format f -> g = f.
Proof.
  intros Hf. split; [by apply parse_format|]. intros g Hg E.
  pose proof (parse_format g Hg) as H. rewrite E, parse_format in H by done. by simplify_eq.
Qed.

Lemma filename_roundtrip_witness :
  parse_filename (DriveFilename_format (mkName (KFrame RelayToClient) sample_sid (2 ^ 60)))
  = Some (mkName (KFrame RelayToClient) sample_sid (2 ^ 60)).
Proof.
  apply (filename_roundtrip (mkName (KFrame RelayToClient) sample_sid (2 ^ 60))).
  split; [apply sample_sid_ok|]. split; [done|]. done.
Defined.

(** Whatever name the parser accepts denotes a 16-byte session id and a
    [u64] sequence number, which is 0 for a Hello, and has a canonical spelling that
    parses to the same triple. *)
Theorem filename_parse_sound n f :
  parse_filename n = Some f ->
  sid_ok (fsid f) /\ is_u64 (fseq f) /\ (fkind f = KHello -> fseq f = 0) /\
  parse_filename (DriveFilename_format f) = Some f.
Proof.
  intros H%parse_filename_ok. destruct H as (Hs & Hq & Hk).
  split_and!; [exact Hs|exact Hq|exact Hk|]. apply parse_format. done.
Qed.

(** Upper-case base32 and a signed, zero-padded number: not the spelling [format] writes. *)
Lemma filename_parse_sound_witness :
  parse_filename (DriveFilename_format (mkName (KFrame ClientToRelay) (replicate 16 0) 3))
  = Some (mkName (KFrame ClientToRelay) (replicate 16 0) 3).
Proof.
  apply (filename_parse_sound (lit "c2r_AAAAAAAAAAAAAAAAAAAAAAAAAA_+03")
           (mkName (KFrame ClientToRelay) (replicate 16 0) 3)). vm_compute. reflexivity.
Defined.
