(* ===== verification/Crypto.v ===== *)
(** * src/drive_crypto.rs: Hello body, key schedule, AEAD framing, replay window

    X25519, HKDF-SHA256, ChaCha20-Poly1305 and bech32m are crates outside the
    repository: the operations the source calls are the fields of [CryptoPrims], and
    the documented facts the code relies on are [CryptoLaws].  Randomness (the
    ephemeral secret, the cookie) is an argument. *)

From stdpp Require Import prelude.
From S2P Require Import Prelude RustStr Frame.
#[local] Open Scope Z_scope.

(** ** The cryptographic crates, as an interface *)
Class CryptoPrims := {
  x25519_public : bytes -> bytes;
  x25519_dh : bytes -> bytes -> bytes;
  was_contributory : bytes -> bool;
  (** HKDF extract-and-expand to 32 bytes: salt, input key material, info. *)
  hkdf_expand32 : bytes -> bytes -> bytes -> bytes;
  (** key, nonce, aad, message *)
  aead_encrypt : bytes -> bytes -> bytes -> bytes -> bytes;
  aead_decrypt : bytes -> bytes -> bytes -> bytes -> option bytes;
  bech32m_encode : str -> bytes -> str;
  (** the checked human-readable part and the data bytes *)
  bech32m_decode : str -> option (str * bytes)
}.

Definition AEAD_TAG_LEN : Z := 16.

Class CryptoLaws (P : CryptoPrims) : Prop := {
  dh_agree a b : x25519_dh a (x25519_public b) = x25519_dh b (x25519_public a);
  public_shape a : length (x25519_public a) = 32%nat /\ bytes_ok (x25519_public a);
  open_seal k n a m : aead_decrypt k n a (aead_encrypt k n a m) = Some m;
  seal_len k n a m : len (aead_encrypt k n a m) = len m + AEAD_TAG_LEN;
  bech32m_inverse h d : bech32m_decode (bech32m_encode h d) = Some (h, d)
}.

(** ** Replay window *)
Record ReplayWindow := mkWindow { last_seen : option Z }.
Record ReplayError := mkReplay { re_seq : Z; last_accepted : Z }.
Inductive StrictSeqError := Replay (e : ReplayError) | Future (seq expected : Z).

Definition ReplayWindow_new : ReplayWindow := mkWindow None.

Definition ReplayWindow_check (w : ReplayWindow) (seq : Z) : res unit ReplayError :=
  match last_seen w with
  | Some prev => if seq <=? prev then Err (mkReplay seq prev) else Ok tt
  | None => Ok tt
  end.

Definition ReplayWindow_check_next (w : ReplayWindow) (seq : Z) : res unit StrictSeqError :=
  let? expected :=
    match last_seen w with
    | None => Ok 0
    | Some prev =>
      match checked_add_u64 prev 1 with
      | Some next => Ok next
      | None => Err (Replay (mkReplay seq prev))
      end
    end in
  if seq =? expected then Ok tt
  else if seq <? expected then Err (Replay (mkReplay seq (expected - 1)))
  else Err (Future seq expected).

Definition ReplayWindow_commit (w : ReplayWindow) (seq : Z) : ReplayWindow :=
  mkWindow (match last_seen w with
            | Some prev => Some (Z.max prev seq)
            | None => Some seq
            end).

Definition ReplayWindow_check_and_advance (w : ReplayWindow) (seq : Z)
    : res unit ReplayError * ReplayWindow :=
  match ReplayWindow_check w seq with
  | Ok _ => (Ok tt, ReplayWindow_commit w seq)
  | Err e => (Err e, w)
  | Panic => (Panic, w)
  end.

(** The next sequence number a poller expects, [None] once the space is used up. *)
Definition next_expected (w : ReplayWindow) : option Z :=
  match last_seen w with None => Some 0 | Some prev => checked_add_u64 prev 1 end.

Definition window_ok (w : ReplayWindow) : Prop :=
  match last_seen w with None => True | Some p => is_u64 p end.

(** A window that has accepted the sequence numbers below [k]. *)
Definition window_at (w : ReplayWindow) (k : nat) : Prop :=
  last_seen w = match k with O => None | S m => Some (Z.of_nat m) end /\ Z.of_nat k <= 2 ^ 64.

Lemma window_at_next w k :
  window_at w k -> Z.of_nat k < 2 ^ 64 -> next_expected w = Some (Z.of_nat k).
Proof.
  intros [H _] Hk. unfold next_expected. rewrite H. destruct k as [|k]; [done|].
  unfold checked_add_u64, u64_max. bool_cases; [|lia]. f_equal. lia.
Qed.

Lemma check_next_expected w seq :
  window_ok w ->
  ReplayWindow_check_next w seq =
    match next_expected w with
    | None => Err (Replay (mkReplay seq u64_max))
    | Some e => if seq =? e then Ok tt
                else if seq <? e then Err (Replay (mkReplay seq (e - 1)))
                else Err (Future seq e)
    end.
Proof.
  unfold window_ok, ReplayWindow_check_next, next_expected. destruct (last_seen w) as [p|]; [|done].
  intros Hp. unfold checked_add_u64. destruct (Z.leb_spec (p + 1) u64_max); [done|].
  cbn [res_bind]. unfold is_u64, u64_max in *. do 3 f_equal. lia.
Qed.

Lemma window_at_ok w k : window_at w k -> window_ok w.
Proof. intros [H ?]. unfold window_ok. rewrite H. destruct k; [done|]. unfold is_u64. lia. Qed.

Lemma window_at_commit w k :
  window_at w k -> Z.of_nat k < 2 ^ 64 -> window_at (ReplayWindow_commit w (Z.of_nat k)) (S k).
Proof.
  intros [H ?] Hk. split; [|lia]. unfold ReplayWindow_commit. cbn. rewrite H.
  destruct k as [|k]; [done|]. f_equal. lia.
Qed.

(** ** Keys *)
Definition RELAY_PUBKEY_HRP : str := Eval cbv in lit "rgdr".
Definition HELLO_BODY_LEN : Z := 64.

Record HelloBody := mkHello {
  client_ephemeral_pubkey : bytes;
  cookie : bytes;
  hello_sid : SessionId
}.

Inductive HelloDecodeError := WrongLength (got expected : Z).

Definition HelloBody_encode (h : HelloBody) : bytes :=
  client_ephemeral_pubkey h ++ cookie h ++ hello_sid h.

Definition HelloBody_decode (b : bytes) : res HelloBody HelloDecodeError :=
  if negb (len b =? HELLO_BODY_LEN) then Err (WrongLength (len b) HELLO_BODY_LEN)
  else Ok (mkHello (take 32 b) (take 16 (drop 32 b)) (take 16 (drop 48 b))).

Record SessionKeys := mkKeys { keys_sid : SessionId; k_c2r : bytes; k_r2c : bytes }.

Inductive KeyAgreementError := NonContributorySharedSecret.
Inductive RelayAcceptError :=
| SidMismatch (filename body : SessionId)
| KeyAgreement (e : KeyAgreementError).

Inductive PubkeyParseError :=
| Empty
| BadEncoding
| WrongHrp (got : str)
| PkWrongLength (got : Z)
| LowOrder.

Inductive AeadError := TagMismatch.

Definition hello_ok (h : HelloBody) : Prop :=
  length (client_ephemeral_pubkey h) = 32%nat /\ length (cookie h) = 16%nat /\ sid_ok (hello_sid h).

Definition build_nonce (seq : Z) : bytes := le_bytes 8 seq ++ replicate 4 0.
Definition build_aad (sid : SessionId) (seq : Z) : bytes := sid ++ be_bytes 8 seq.

Section Crypto.
Context {P : CryptoPrims}.

Definition ensure_contributory (shared : bytes) : res unit KeyAgreementError :=
  if was_contributory shared then Ok tt else Err NonContributorySharedSecret.

Definition derive_directional_keys (shared cookie : bytes) (sid : SessionId) : bytes * bytes :=
  (hkdf_expand32 cookie shared (lit "c2r|" ++ sid), hkdf_expand32 cookie shared (lit "r2c|" ++ sid)).

(** [esk] and [cookie] are what the generator handed out. *)
Definition client_initiate (relay_pubkey : bytes) (sid : SessionId) (esk cookie : bytes)
    : res (SessionKeys * HelloBody) KeyAgreementError :=
  let epk := x25519_public esk in
  let shared := x25519_dh esk relay_pubkey in
  let? _ := ensure_contributory shared in
  let '(c2r, r2c) := derive_directional_keys shared cookie sid in
  Ok (mkKeys sid c2r r2c, mkHello epk cookie sid).

Definition relay_accept (relay_secret : bytes) (sid : SessionId) (hello : HelloBody)
    : res SessionKeys RelayAcceptError :=
  if negb (bool_decide (hello_sid hello = sid)) then Err (SidMismatch sid (hello_sid hello)) else
  let shared := x25519_dh relay_secret (client_ephemeral_pubkey hello) in
  let? _ := map_err KeyAgreement (ensure_contributory shared) in
  let '(c2r, r2c) := derive_directional_keys shared (cookie hello) sid in
  Ok (mkKeys sid c2r r2c).

Definition CONTRIBUTORY_PROBE_SCALAR : bytes := replicate 32 0x42.

Definition x25519_public_key_is_contributory (b : bytes) : bool :=
  was_contributory (x25519_dh CONTRIBUTORY_PROBE_SCALAR b).

Definition to_bech32m (pk : bytes) : str := bech32m_encode RELAY_PUBKEY_HRP pk.

Definition from_bech32m (s : str) : res bytes PubkeyParseError :=
  let s := trim s in
  if bool_decide (s = []) then Err Empty else
  match bech32m_decode s with
  | None => Err BadEncoding
  | Some (hrp, data) =>
    if negb (bool_decide (hrp = RELAY_PUBKEY_HRP)) then Err (WrongHrp hrp) else
    if negb (len data =? 32) then Err (PkWrongLength (len data)) else
    if negb (x25519_public_key_is_contributory data) then Err LowOrder else
    Ok data
  end.

Definition AeadCipher_seal (key : bytes) (sid : SessionId) (seq : Z) (plaintext : bytes) : bytes :=
  aead_encrypt key (build_nonce seq) (build_aad sid seq) plaintext.

Definition AeadCipher_open (key : bytes) (sid : SessionId) (seq : Z) (ciphertext : bytes)
    : res bytes AeadError :=
  ok_or (aead_decrypt key (build_nonce seq) (build_aad sid seq) ciphertext) TagMismatch.

Context {L : CryptoLaws P}.

Lemma AeadCipher_open_seal k s q m : AeadCipher_open k s q (AeadCipher_seal k s q m) = Ok m.
Proof. unfold AeadCipher_open, AeadCipher_seal. by rewrite open_seal. Qed.

Lemma HelloBody_decode_encode h :
  hello_ok h -> HelloBody_decode (HelloBody_encode h) = Ok h.
Proof.
  destruct h as [pk ck s]. intros (Hp & Hc & Hs & _). cbn in *.
  unfold HelloBody_decode, HelloBody_encode, HELLO_BODY_LEN. cbn.
  rewrite !len_app. unfold len. rewrite Hp, Hc, Hs. cbn [Z.of_nat Pos.of_succ_nat Pos.succ negb Z.add Z.eqb Pos.add Pos.add_carry Pos.eqb].
  f_equal. f_equal.
  - by rewrite take_app_length'.
  - by rewrite drop_app_length', take_app_length'.
  - rewrite app_assoc, drop_app_length' by (rewrite length_app; lia). by apply take_ge; lia.
Qed.

Lemma relay_accept_client r sid esk ck keys hello :
  client_initiate (x25519_public r) sid esk ck = Ok (keys, hello) ->
  relay_accept r sid hello = Ok keys.
Proof.
  unfold client_initiate, relay_accept. unfold ensure_contributory.
  destruct (was_contributory _) eqn:E; cbn; [|done]. intros; simplify_eq. cbn.
  rewrite bool_decide_true by done. cbn. rewrite <- dh_agree, E. cbn. by rewrite dh_agree.
Qed.

Lemma client_initiate_hello_ok r sid esk ck keys hello :
  sid_ok sid -> length ck = 16%nat ->
  client_initiate (x25519_public r) sid esk ck = Ok (keys, hello) -> hello_ok hello.
Proof.
  intros Hs Hc. unfold client_initiate, ensure_contributory.
  destruct (was_contributory _); cbn; [|done]. intros; simplify_eq.
  split_and!; cbn; [apply public_shape|done|done].
Qed.
End Crypto.

Lemma build_nonce_inj p q : is_u64 p -> is_u64 q -> build_nonce p = build_nonce q -> p = q.
Proof.
  unfold build_nonce, is_u64. intros Hp Hq E. apply app_inj_1 in E as [E _]; [|by rewrite !length_le_bytes].
  apply (le_bytes_inj 8); rewrite ?pow256_8; auto.
Qed.

Lemma build_aad_inj s t p q :
  sid_ok s -> sid_ok t -> is_u64 p -> is_u64 q -> build_aad s p = build_aad t q -> s = t /\ p = q.
Proof.
  unfold build_aad, is_u64. intros [Hs _] [Ht _] Hp Hq E.
  apply app_inj_1 in E as [-> E]; [|congruence]. split; [done|].
  apply (be_bytes_inj 8); rewrite ?pow256_8; auto.
Qed.

(** ** The window as a run: check, then commit on success *)
Fixpoint accept_run (w : ReplayWindow) (seqs : list Z) : ReplayWindow * list Z :=
  match seqs with
  | [] => (w, [])
  | q :: seqs' =>
    match ReplayWindow_check_next w q with
    | Ok _ => let '(w', acc) := accept_run (ReplayWindow_commit w q) seqs' in (w', q :: acc)
    | _ => accept_run w seqs'
    end
  end.

Lemma check_next_at w k q :
  window_at w k -> ReplayWindow_check_next w q = Ok tt ->
  q = Z.of_nat k /\ Z.of_nat k < 2 ^ 64.
Proof.
  intros Hw. rewrite check_next_expected by eauto using window_at_ok.
  destruct (Z.lt_ge_cases (Z.of_nat k) (2 ^ 64)) as [Hk|Hk].
  - rewrite (window_at_next w k) by done. bool_cases; done.
  - destruct Hw as [H ?]. unfold next_expected. rewrite H. destruct k as [|k]; [lia|].
    unfold checked_add_u64, u64_max. bool_cases; (done || lia).
Qed.

Lemma accept_run_at w k seqs :
  window_at w k ->
  let '(w', acc) := accept_run w seqs in
  acc = Z.of_nat <$> List.seq k (length acc) /\ window_at w' (k + length acc).
Proof.
  revert w k. induction seqs as [|q seqs IH]; intros w k Hw; cbn [accept_run].
  { cbn. by rewrite Nat.add_0_r. }
  destruct (ReplayWindow_check_next w q) as [[]| |] eqn:E; [|by apply IH..].
  destruct (check_next_at w k q Hw E) as [-> Hk].
  specialize (IH _ _ (window_at_commit w k Hw Hk)). destruct (accept_run _ seqs) as [w' acc].
  destruct IH as [Ha Hw']. cbn [length]. split; [cbn; by rewrite <- Ha|].
  by replace (k + S (length acc))%nat with (S k + length acc)%nat by lia.
Qed.

(** ** A concrete instance of the interface, with which hypotheses are evaluated

    Not a cipher: it satisfies the functional laws and nothing else. *)
Definition norm32 (b : bytes) : bytes := (fun z => z mod 256) <$> take 32 (b ++ replicate 32 0).
Definition sum_mod (b : bytes) : Z := fold_left Z.add b 0 mod 256.
Definition toy_tag (k n a m : bytes) : bytes :=
  take 12 (n ++ replicate 12 0) ++ replicate 4 (sum_mod (k ++ a ++ m)).

#[export] Instance toy_crypto : CryptoPrims := {
  x25519_public := norm32;
  x25519_dh a p := zip_with Z.add (norm32 a) p;
  was_contributory s := negb (forallb (Z.eqb 0) s);
  hkdf_expand32 salt ikm info := norm32 (info ++ ikm ++ salt);
  aead_encrypt k n a m := m ++ toy_tag k n a m;
  aead_decrypt k n a c :=
    let m := take (length c - 16) c in
    if bool_decide (c = m ++ toy_tag k n a m) then Some m else None;
  bech32m_encode h d := len h :: h ++ d;
  bech32m_decode s := match s with
                      | [] => None
                      | n :: r => Some (take (Z.to_nat n) r, drop (Z.to_nat n) r)
                      end
}.

Lemma length_toy_tag k n a m : length (toy_tag k n a m) = 16%nat.
Proof.
  unfold toy_tag. rewrite length_app, length_take, length_app, !length_replicate. lia.
Qed.

(** What ends in a toy tag carries the nonce: it opens under no other sequence number. *)
Lemma toy_open_seq k s c q x k' a' m' pt :
  is_u64 q -> is_u64 c ->
  AeadCipher_open (P := toy_crypto) k s c (x ++ toy_tag k' (build_nonce q) a' m') = Ok pt -> c = q.
Proof.
  intros Hq Hc. unfold AeadCipher_open. cbn [aead_decrypt toy_crypto].
  rewrite length_app, length_toy_tag. replace (length x + 16 - 16)%nat with (length x) by lia.
  rewrite take_app_length. case_bool_decide as E; [|done]. intros _.
  apply app_inj_1 in E as [_ E]; [|done]. unfold toy_tag in E.
  assert (forall x, length (build_nonce x) = 12%nat) as Hn.
  { intros y. unfold build_nonce. by rewrite length_app, length_le_bytes, length_replicate. }
  rewrite !take_app_le, !take_ge in E by (rewrite Hn; lia).
  apply app_inj_1 in E as [E _]; [|by rewrite !Hn]. symmetry. by apply build_nonce_inj in E.
Qed.

#[export] Instance toy_crypto_laws : CryptoLaws toy_crypto.
Proof.
  constructor; cbn [x25519_dh x25519_public aead_encrypt aead_decrypt bech32m_encode bech32m_decode toy_crypto].
  - intros a b. generalize (norm32 a) as x, (norm32 b) as y. clear.
    induction x as [|u x IH]; intros [|v y]; cbn; [done..|]. f_equal; [lia|apply IH].
  - intros a. unfold norm32. rewrite length_fmap, length_take, length_app, length_replicate.
    split; [lia|]. apply Forall_fmap, Forall_true. intros x. apply Z.mod_pos_bound. lia.
  - intros k n a m. rewrite length_app, length_toy_tag.
    replace (length m + 16 - 16)%nat with (length m) by lia. rewrite take_app_length.
    by rewrite bool_decide_true.
  - intros. unfold len. rewrite length_app, length_toy_tag. unfold AEAD_TAG_LEN. lia.
  - intros h d. unfold len. rewrite Nat2Z.id. by rewrite take_app_length, drop_app_length.
Qed.

(** ** Properties *)

(** The strict check compares with exactly the successor of the last
    committed number: equal is accepted, smaller is a replay, larger is a future frame
    that names the missing number, and once [u64::MAX] is committed every number is a
    replay. *)
Theorem replay_check_next_spec w seq :
  window_ok w ->
  ReplayWindow_check_next w seq =
    match next_expected w with
    | None => Err (Replay (mkReplay seq u64_max))
    | Some e => if seq =? e then Ok tt
                else if seq <? e then Err (Replay (mkReplay seq (e - 1)))
                else Err (Future seq e)
    end.
Proof. apply check_next_expected. Qed.

Lemma replay_check_next_spec_witness :
  ReplayWindow_check_next (mkWindow (Some u64_max)) 3 = Err (Replay (mkReplay 3 u64_max)).
Proof. apply (replay_check_next_spec (mkWindow (Some u64_max)) 3). done. Defined.

(** Whatever sequence numbers are presented, in whatever order and however
    often, the numbers a fresh window accepts are 0, 1, 2, ... without gap or
    repetition, and the window ends at the last of them. *)
Theorem replay_accepts_in_order seqs :
  let '(w, acc) := accept_run ReplayWindow_new seqs in
  acc = Z.of_nat <$> List.seq 0 (length acc) /\ window_at w (length acc).
Proof. apply (accept_run_at ReplayWindow_new 0). split; [done|lia]. Qed.

(** Client and relay derive the same session keys: the Hello the client
    uploads decodes on the relay and [relay_accept], under the session id of the
    filename, yields the client's keys; under any other session id it is refused. *)
Theorem key_agreement {P : CryptoPrims} {L : CryptoLaws P} r sid esk ck keys hello :
  sid_ok sid -> length ck = 16%nat ->
  client_initiate (x25519_public r) sid esk ck = Ok (keys, hello) ->
  exists h, HelloBody_decode (HelloBody_encode hello) = Ok h /\
    relay_accept r sid h = Ok keys /\
    forall sid', sid' <> sid -> relay_accept r sid' h = Err (SidMismatch sid' sid).
Proof.
  intros Hs Hc Hi. exists hello. split_and!.
  - apply HelloBody_decode_encode. by eapply client_initiate_hello_ok.
  - by eapply relay_accept_client.
  - intros sid' Hne. unfold client_initiate, ensure_contributory in Hi.
    destruct (was_contributory _); cbn in Hi; [|done]. simplify_eq. unfold relay_accept. cbn.
    by rewrite bool_decide_false.
Qed.

Definition sample_secret : bytes := replicate 32 7.
Definition sample_esk : bytes := replicate 32 5.
Definition sample_cookie : bytes := replicate 16 3.
Definition sample_keys : SessionKeys :=
  let '(c, r) := derive_directional_keys (x25519_dh sample_esk (x25519_public sample_secret))
                   sample_cookie sample_sid in mkKeys sample_sid c r.
Definition sample_hello : HelloBody := mkHello (x25519_public sample_esk) sample_cookie sample_sid.

Lemma key_agreement_witness :
  exists h, HelloBody_decode (HelloBody_encode sample_hello) = Ok h /\
    relay_accept sample_secret sample_sid h = Ok sample_keys.
Proof.
  destruct (key_agreement sample_secret sample_sid sample_esk sample_cookie sample_keys sample_hello)
    as (h & H1 & H2 & _); [apply sample_sid_ok|done|vm_compute; reflexivity|].
  exists h. split; [exact H1|exact H2].
Defined.

(** A sealed body opens to its plaintext under the same session and sequence
    number, and within one key no two sequence numbers share a nonce, nor two (session,
    sequence) pairs their associated data. *)
Theorem aead_framing {P : CryptoPrims} {L : CryptoLaws P} k s q m :
  sid_ok s -> is_u64 q ->
  AeadCipher_open k s q (AeadCipher_seal k s q m) = Ok m /\
  length (build_nonce q) = 12%nat /\ length (build_aad s q) = 24%nat /\
  (forall q', is_u64 q' -> build_nonce q' = build_nonce q -> q' = q) /\
  (forall s' q', sid_ok s' -> is_u64 q' -> build_aad s' q' = build_aad s q -> s' = s /\ q' = q).
Proof.
  intros Hs Hq. split_and!.
  - apply AeadCipher_open_seal.
  - unfold build_nonce. rewrite length_app, length_le_bytes, length_replicate. done.
  - unfold build_aad. rewrite length_app, length_be_bytes, (proj1 Hs). done.
  - intros q' Hq'. by apply build_nonce_inj.
  - intros s' q' Hs' Hq'. by apply build_aad_inj.
Qed.

Lemma aead_framing_witness :
  AeadCipher_open (k_c2r sample_keys) sample_sid 9
    (AeadCipher_seal (k_c2r sample_keys) sample_sid 9 [1; 2; 3]) = Ok [1; 2; 3].
Proof. apply (aead_framing (k_c2r sample_keys) sample_sid 9 [1; 2; 3]); [apply sample_sid_ok|done]. Defined.
