(* ===== verification/IpAddr.v ===== *)
(** * Internet addresses of the Rust standard library

    [IpAddr] and its [FromStr]: the recursive-descent parser of [std::net], which
    reads at most three decimal digits per IPv4 octet without a leading zero, and for
    IPv6 at most four hexadecimal digits per group, one [::] standing for at least one
    group, and an embedded IPv4 address in the last two groups. *)

From stdpp Require Import prelude.
From S2P Require Import Prelude RustStr.
#[local] Open Scope Z_scope.

(** Four octets; eight 16-bit segments. *)
Inductive IpAddr := V4 (a b c d : Z) | V6 (segments : list Z).

#[export] Instance IpAddr_eq_dec : EqDecision IpAddr.
Proof. solve_decision. Defined.

Definition DOT : Z := 46.
Definition COLON : Z := 58.

(** ** Parser: each reader returns the value and the rest of the input *)
Definition read_given_char (c : Z) (s : str) : option str :=
  match s with x :: r => if x =? c then Some r else None | [] => None end.

Definition to_digit (radix c : Z) : option Z :=
  let v := if between 48 c 57 then Some (c - 48)
           else if between 97 c 122 then Some (c - 97 + 10)
           else if between 65 c 90 then Some (c - 65 + 10) else None in
  match v with Some d => if d <? radix then Some d else None | None => None end.

(** Greedy digits: value, how many, rest; [None] past [max_digits]. *)
Fixpoint read_digits (radix : Z) (max_digits count : nat) (acc : Z) (s : str)
    : option (Z * nat * str) :=
  match s with
  | c :: r =>
    match to_digit radix c with
    | Some d => if (max_digits <? S count)%nat then None
                else read_digits radix max_digits (S count) (acc * radix + d) r
    | None => Some (acc, count, s)
    end
  | [] => Some (acc, count, s)
  end.

Definition read_number (radix : Z) (max_digits : nat) (allow_zero_prefix : bool) (max : Z) (s : str)
    : option (Z * str) :=
  let has_leading_zero := match s with c :: _ => c =? 48 | [] => false end in
  '(v, count, r) ← read_digits radix max_digits 0 0 s;
  if (count =? 0)%nat then None
  else if negb allow_zero_prefix && has_leading_zero && (1 <? count)%nat then None
  else if v <=? max then Some (v, r) else None.

Definition read_octet : str -> option (Z * str) := read_number 10 3 false 255.
Definition read_group : str -> option (Z * str) := read_number 16 4 true 65535.

Definition read_ipv4_addr (s : str) : option (Z * Z * Z * Z * str) :=
  '(a, s) ← read_octet s;
  s ← read_given_char DOT s; '(b, s) ← read_octet s;
  s ← read_given_char DOT s; '(c, s) ← read_octet s;
  s ← read_given_char DOT s; '(d, s) ← read_octet s;
  Some (a, b, c, d, s).

(** [read_separator(':', i, inner)]. *)
Definition read_separator {A} (i : nat) (inner : str -> option A) (s : str) : option A :=
  match i with O => inner s | S _ => s ← read_given_char COLON s; inner s end.

(** [read_groups] with [left] groups still to fill: the groups read, whether an IPv4
    address ended them, and the rest. *)
Fixpoint read_groups (left i : nat) (s : str) : list Z * bool * str :=
  match left with
  | O => ([], false, s)
  | S left' =>
    match (if (1 <? left)%nat then read_separator i read_ipv4_addr s else None) with
    | Some (a, b, c, d, r) => ([a * 256 + b; c * 256 + d], true, r)
    | None =>
      match read_separator i read_group s with
      | Some (g, r) => let '(gs, v4, r) := read_groups left' (S i) r in (g :: gs, v4, r)
      | None => ([], false, s)
      end
    end
  end.

Definition read_ipv6_addr (s : str) : option (list Z * str) :=
  let '(head, head_ipv4, s) := read_groups 8 0 s in
  if (length head =? 8)%nat then Some (head, s)
  else if head_ipv4 then None
  else
    s ← read_given_char COLON s;
    s ← read_given_char COLON s;
    let '(tail, _, s) := read_groups (8 - (length head + 1)) 0 s in
    Some (head ++ replicate (8 - length head - length tail) 0 ++ tail, s).

(** [str::parse::<IpAddr>()]: the whole input must be read. *)
Definition parse_ip (s : str) : option IpAddr :=
  match read_ipv4_addr s with
  | Some (a, b, c, d, r) => if bool_decide (r = []) then Some (V4 a b c d) else None
  | None =>
    match read_ipv6_addr s with
    | Some (gs, r) => if bool_decide (r = []) then Some (V6 gs) else None
    | None => None
    end
  end.

(** ** Classification methods *)
Definition v4_is_loopback (a : Z) : bool := a =? 127.
Definition v4_is_private (a b : Z) : bool :=
  (a =? 10) || ((a =? 172) && between 16 b 31) || ((a =? 192) && (b =? 168)).
Definition v4_is_link_local (a b : Z) : bool := (a =? 169) && (b =? 254).
Definition v4_is_unspecified (a b c d : Z) : bool := (a =? 0) && (b =? 0) && (c =? 0) && (d =? 0).
Definition v4_is_broadcast (a b c d : Z) : bool :=
  (a =? 255) && (b =? 255) && (c =? 255) && (d =? 255).
Definition v6_is_unspecified (s : list Z) : bool := forallb (Z.eqb 0) s.
Definition v6_is_loopback (s : list Z) : bool := bool_decide (s = [0; 0; 0; 0; 0; 0; 0; 1]).

(** [to_ipv4_mapped]: [::ffff:a.b.c.d]. *)
Definition to_ipv4_mapped (s : list Z) : option (Z * Z * Z * Z) :=
  match s with
  | [s0; s1; s2; s3; s4; s5; g; h] =>
    if (s0 =? 0) && (s1 =? 0) && (s2 =? 0) && (s3 =? 0) && (s4 =? 0) && (s5 =? 0xffff)
    then Some (g / 256, g mod 256, h / 256, h mod 256) else None
  | _ => None
  end.

(** ** Dotted-quad literals parse to their octets *)
Definition octet_string (n : Z) : str := dec_string n.
Definition dotted_quad (a b c d : Z) : str :=
  octet_string a ++ DOT :: octet_string b ++ DOT :: octet_string c ++ DOT :: octet_string d.

(** The text after an octet does not extend it. *)
Definition stops (r : str) : Prop := match r with [] => True | c :: _ => to_digit 10 c = None end.

Lemma to_digit_dec d : 0 <= d < 10 -> to_digit 10 (48 + d) = Some d.
Proof.
  intros Hd. unfold to_digit, between.
  destruct (Z.leb_spec 48 (48 + d)); [|lia]. destruct (Z.leb_spec (48 + d) 57); [|lia].
  cbn. replace (48 + d - 48) with d by lia. destruct (Z.ltb_spec d 10); [done|lia].
Qed.

Lemma read_digits_stop k v r : stops r -> read_digits 10 3 k v r = Some (v, k, r).
Proof. destruct r as [|c r]; [done|]. cbn [read_digits stops]. by intros ->. Qed.

Lemma read_digits_dec k v d r :
  (k < 3)%nat -> 0 <= d < 10 ->
  read_digits 10 3 k v ((48 + d) :: r) = read_digits 10 3 (S k) (v * 10 + d) r.
Proof.
  intros Hk Hd. cbn [read_digits]. rewrite to_digit_dec by done.
  destruct (Nat.ltb_spec 3 (S k)); [lia|]. done.
Qed.

(** An octet in decimal has one, two or three digits, the first not a zero unless alone. *)
Lemma octet_string_cases n : is_u8 n ->
  (n < 10 /\ octet_string n = [48 + n]) \/
  (10 <= n < 100 /\ octet_string n = [48 + n / 10; 48 + n mod 10]) \/
  (100 <= n /\ octet_string n = [48 + n / 10 / 10; 48 + n / 10 mod 10; 48 + n mod 10]).
Proof.
  unfold is_u8, octet_string, dec_string. intros Hn. cbn [dec_digits].
  destruct (Z.ltb_spec n 10). { left. rewrite Z.mod_small by lia. split; [lia|done]. }
  right. destruct (Z.ltb_spec (n / 10) 10).
  { left. rewrite (Z.mod_small (n / 10)) by lia. split; [lia|done]. }
  right. destruct (Z.ltb_spec (n / 10 / 10) 10); [|lia].
  rewrite (Z.mod_small (n / 10 / 10)) by lia. split; [lia|done].
Qed.

Lemma read_octet_dec n r : is_u8 n -> stops r -> read_octet (octet_string n ++ r) = Some (n, r).
Proof.
  intros Hn Hr. pose proof (octet_string_cases n Hn) as Hc. unfold is_u8 in Hn.
  unfold read_octet, read_number.
  destruct Hc as [[Hlt ->]|[[Hlt ->]|[Hlt ->]]]; cbn [app];
    repeat rewrite read_digits_dec by lia; rewrite read_digits_stop by done;
    cbn [mbind option_bind Nat.eqb negb andb Nat.ltb Nat.leb].
  - rewrite andb_false_r. destruct (Z.leb_spec (0 * 10 + n) 255); [|lia]. done.
  - destruct (Z.eqb_spec (48 + n / 10) 48); [lia|]. cbn [andb].
    destruct (Z.leb_spec ((0 * 10 + n / 10) * 10 + n mod 10) 255); [|lia]. do 2 f_equal. lia.
  - destruct (Z.eqb_spec (48 + n / 10 / 10) 48); [lia|]. cbn [andb].
    destruct (Z.leb_spec (((0 * 10 + n / 10 / 10) * 10 + n / 10 mod 10) * 10 + n mod 10) 255); [|lia].
    do 2 f_equal. lia.
Qed.

Lemma parse_ip_dotted_quad a b c d :
  is_u8 a -> is_u8 b -> is_u8 c -> is_u8 d -> parse_ip (dotted_quad a b c d) = Some (V4 a b c d).
Proof.
  intros Ha Hb Hc Hd. unfold parse_ip, dotted_quad, read_ipv4_addr.
  rewrite read_octet_dec by done. cbn [mbind option_bind read_given_char]. rewrite Z.eqb_refl.
  cbn [mbind option_bind]. rewrite read_octet_dec by done.
  cbn [mbind option_bind read_given_char]. rewrite Z.eqb_refl.
  cbn [mbind option_bind]. rewrite read_octet_dec by done.
  cbn [mbind option_bind read_given_char]. rewrite Z.eqb_refl. cbn [mbind option_bind].
  rewrite <- (app_nil_r (octet_string d)), read_octet_dec by done.
  cbn [mbind option_bind]. done.
Qed.

Lemma dotted_quad_chars a b c d :
  is_u8 a -> is_u8 b -> is_u8 c -> is_u8 d ->
  Forall (fun x => is_digit x = true \/ x = DOT) (dotted_quad a b c d).
Proof.
  unfold is_u8. intros. unfold dotted_quad, octet_string.
  assert (forall n, 0 <= n -> Forall (fun x => is_digit x = true \/ x = DOT) (dec_string n)) as H'.
  { intros n Hn. eapply Forall_impl; [by apply dec_string_digits|]. naive_solver. }
  repeat first [apply Forall_app; split | apply Forall_cons; split; [by right|]]; apply H'; lia.
Qed.
