(* ===== verification/RelayState.v ===== *)
(** * drive-relay/src/state.rs: connect targets, the SSRF guard, inbound events

    [parse_connect_addr], [is_internal_ip], [frame_to_inbound], and the destination
    filter of session.rs that composes them with the operator's allow list. *)

From stdpp Require Import prelude.
From S2P Require Import Prelude RustStr Frame IpAddr.
#[local] Open Scope Z_scope.

(** ** Connect addresses *)
Inductive ConnectAddrError := CaEmpty | CaMalformed (s : str) | CaBadPort (s : str).

Definition LBRACKET : str := Eval cbv in lit "[".
Definition RBRACKET_COLON : str := Eval cbv in lit "]:".

Definition parse_connect_addr (s : str) : res (str * Z) ConnectAddrError :=
  let s := trim s in
  if bool_decide (s = []) then Err CaEmpty else
  let? (host, port_str) :=
    match strip_prefix LBRACKET s with
    | Some rest => ok_or (split_once RBRACKET_COLON rest) (CaMalformed s)
    | None => ok_or (rsplit_once COLON s) (CaMalformed s)
    end in
  if bool_decide (host = []) then Err CaEmpty else
  let? port := ok_or (parse_u16 port_str) (CaBadPort port_str) in
  if port =? 0 then Err (CaBadPort port_str) else Ok (host, port).

(** ** The internal-network test *)
Definition is_internal_v4 (a b c d : Z) : bool :=
  v4_is_loopback a || v4_is_private a b || v4_is_link_local a b || v4_is_unspecified a b c d
  || v4_is_broadcast a b c d || ((a =? 100) && (Z.land b 0xc0 =? 64)).

Definition is_internal_ip (ip : IpAddr) : bool :=
  match ip with
  | V4 a b c d => is_internal_v4 a b c d
  | V6 s =>
    v6_is_loopback s || v6_is_unspecified s
    || (Z.land (nth 0 s 0) 0xffc0 =? 0xfe80)
    || (Z.land (nth 0 s 0) 0xfe00 =? 0xfc00)
    || match to_ipv4_mapped s with Some (a, b, c, d) => is_internal_v4 a b c d | None => false end
  end.

(** ** session.rs: [destination_allowed] *)
Definition entry_matches (h entry : str) : bool :=
  let e := to_ascii_lowercase (trim_end_matches DOT (trim entry)) in
  if bool_decide (e = []) then false else
  match strip_prefix [DOT] e with
  | Some suffix => bool_decide (h = suffix) || ends_with h (DOT :: suffix)
  | None => bool_decide (h = e)
  end.

Definition destination_allowed (allow_destinations : list str) (host : str) : bool :=
  let h := trim_end_matches DOT (to_ascii_lowercase host) in
  if negb (bool_decide (allow_destinations = [])) then existsb (entry_matches h) allow_destinations
  else match parse_ip h with
       | Some ip => if is_internal_ip ip then false else true
       | None => true
       end.

(** ** Inbound events *)
Inductive InboundFrame :=
| InConnect (host : str) (port : Z)
| InData (b : bytes)
| InEof
| InClose.

Inductive FrameDispatchError :=
| ConnectPayloadNotUtf8
| ConnectAddr (e : ConnectAddrError)
| HelloOnFrameChannel.

Definition frame_to_inbound (frame : WireFrame) : res InboundFrame FrameDispatchError :=
  match kind frame with
  | Connect =>
    let? addr_str := ok_or (from_utf8 (payload frame)) ConnectPayloadNotUtf8 in
    let? (host, port) := map_err ConnectAddr (parse_connect_addr addr_str) in
    Ok (InConnect host port)
  | Data => Ok (InData (payload frame))
  | Eof => Ok InEof
  | Close => Ok InClose
  | Error => Ok InClose
  | Hello => Err HelloOnFrameChannel
  end.

(** ** The address text a peer writes *)

(** [format!("{host}:{port}")], what the client puts in the Connect payload. *)
Definition host_port (host : str) (port : Z) : str := host ++ [COLON] ++ dec_string port.

Definition is_port (p : Z) : Prop := 0 < p < 2 ^ 16.

(** A host as the proxy hands it over: not empty, no bracket or blank in front. *)
Definition host_ok (h : str) : Prop :=
  str_ok h /\ exists c h', h = c :: h' /\ is_whitespace c = false /\ c <> 91.

Lemma digit_not_white c : is_digit c = true -> is_whitespace c = false.
Proof. unfold is_digit, is_whitespace, between. lia. Qed.

Lemma dec_string_last n : 0 <= n -> exists s c, dec_string n = s ++ [c] /\ is_digit c = true.
Proof.
  intros Hn. pose proof (dec_string_digits n Hn) as Hd.
  destruct (dec_string n) as [|c s] eqn:E using rev_ind.
  - exfalso. eapply (dec_digits_nonempty 20 n []); [lia|exact E].
  - exists s, c. split; [done|]. apply Forall_app in Hd as [_ Hd]. by inversion Hd.
Qed.

Lemma trim_ends_digit s n c h' :
  s = c :: h' -> is_whitespace c = false -> 0 <= n ->
  (exists t, s = t ++ dec_string n) -> trim s = s.
Proof.
  intros Hs Hc Hn [t Ht]. destruct (dec_string_last n Hn) as (d & x & Ed & Hx).
  eapply trim_id_of_ends; [exact Hs| |exact Hc|by apply digit_not_white].
  rewrite Ht, Ed, app_assoc. apply last_snoc.
Qed.

Lemma parse_connect_host_port h p :
  host_ok h -> is_port p -> parse_connect_addr (host_port h p) = Ok (h, p).
Proof.
  intros (_ & c & h' & -> & Hw & Hb) Hp. unfold is_port in Hp. unfold parse_connect_addr.
  assert (trim (host_port (c :: h') p) = host_port (c :: h') p) as ->.
  { eapply (trim_ends_digit _ p); [reflexivity|done|lia|]. exists ((c :: h') ++ [COLON]).
    unfold host_port. by rewrite <- app_assoc. }
  rewrite bool_decide_false by done.
  replace (strip_prefix LBRACKET (host_port (c :: h') p)) with (@None str).
  2:{ unfold host_port, LBRACKET. cbn [strip_prefix app]. destruct (Z.eqb_spec 91 c); [lia|done]. }
  unfold host_port. cbn [app].
  change (c :: h' ++ COLON :: dec_string p) with ((c :: h') ++ COLON :: dec_string p).
  rewrite (rsplit_once_last COLON (c :: h')) by (apply dec_string_not_elem; [done|lia]).
  cbn [ok_or res_bind]. rewrite bool_decide_false by done.
  unfold parse_u16. rewrite parse_dec_string by lia. cbn [ok_or res_bind].
  destruct (Z.eqb_spec p 0); [lia|done].
Qed.

Lemma lower_id s :
  Forall (fun x => is_digit x = true \/ x = DOT) s -> to_ascii_lowercase s = s.
Proof.
  induction 1 as [|x s Hx Hs IH]; [done|]. cbn. unfold to_ascii_lowercase in IH. rewrite IH.
  f_equal. unfold ascii_lower, is_digit, between, DOT in *.
  destruct (Z.leb_spec 65 x); [|done]. destruct Hx; lia.
Qed.

Lemma drop_while_replicate (c : Z) n l :
  drop_while (Z.eqb c) (replicate n c ++ l) = drop_while (Z.eqb c) l.
Proof. induction n as [|n IH]; [done|]. cbn. by rewrite Z.eqb_refl. Qed.

(** Trailing dots and letter case do not matter to the guard. *)
Lemma trim_dotted a b c d dots :
  is_u8 a -> is_u8 b -> is_u8 c -> is_u8 d ->
  trim_end_matches DOT (to_ascii_lowercase (dotted_quad a b c d ++ replicate dots DOT))
  = dotted_quad a b c d.
Proof.
  intros Ha Hb Hc Hd. rewrite lower_id.
  2:{ apply Forall_app. split; [by apply dotted_quad_chars|]. apply Forall_replicate. by right. }
  unfold trim_end_matches, trim_end_by. rewrite reverse_app, reverse_replicate, drop_while_replicate.
  destruct (dec_string_last d) as (t & x & Ed & Hx); [unfold is_u8 in Hd; lia|].
  unfold dotted_quad, octet_string. rewrite Ed.
  match goal with |- context [reverse ?l] =>
    replace l with ((dec_string a ++ DOT :: dec_string b ++ DOT :: dec_string c ++ DOT :: t) ++ [x])
      by (repeat (cbn [app]; rewrite <- app_assoc); done) end.
  rewrite reverse_snoc, drop_while_head; [by rewrite <- reverse_snoc, reverse_involutive|].
  unfold is_digit, between, DOT in *. lia.
Qed.

Lemma land_c0 b : is_u8 b -> Z.land b 0xc0 = 64 <-> 64 <= b <= 127.
Proof.
  intros Hb.
  pose proof (u8_exhaustive
    (fun b => Bool.eqb (Z.land b 0xc0 =? 64) ((64 <=? b) && (b <=? 127))) eq_refl b Hb) as H.
  apply Bool.eqb_prop in H. lia.
Qed.

Lemma is_internal_v4_spec a b c d :
  is_u8 b ->
  is_internal_v4 a b c d = true <->
  a = 127 \/ a = 10 \/ (a = 172 /\ 16 <= b <= 31) \/ (a = 192 /\ b = 168) \/
  (a = 169 /\ b = 254) \/ (a = 0 /\ b = 0 /\ c = 0 /\ d = 0) \/
  (a = 255 /\ b = 255 /\ c = 255 /\ d = 255) \/ (a = 100 /\ 64 <= b <= 127).
Proof.
  intros Hb. rewrite <- (land_c0 b Hb).
  unfold is_internal_v4, v4_is_loopback, v4_is_private, v4_is_link_local,
    v4_is_unspecified, v4_is_broadcast, between.
  rewrite !orb_true_iff, !andb_true_iff, !Z.eqb_eq, !Z.leb_le. tauto.
Qed.

Lemma frame_to_inbound_connect f h p :
  host_ok h -> is_port p -> kind f = Connect -> payload f = as_bytes (host_port h p) ->
  frame_to_inbound f = Ok (InConnect h p).
Proof.
  intros Hh Hp Hk Hpay. unfold frame_to_inbound. rewrite Hk, Hpay, from_utf8_as_bytes.
  2:{ destruct Hh as [Hs _]. unfold host_port. apply Forall_app. split; [done|].
      apply Forall_app. split; [repeat constructor; unfold char_ok, COLON; lia|].
      apply ascii_str_ok, dec_string_ascii. unfold is_port in Hp. lia. }
  cbn [ok_or res_bind]. by rewrite parse_connect_host_port.
Qed.

(** ** Properties *)

(** The relay reads back the target the client wrote: a Connect frame whose
    payload is the UTF-8 of host, colon, decimal port becomes the event for exactly that
    host and port, and a bracketed IPv6 spelling loses only its brackets. *)
Theorem connect_target_roundtrip f h p :
  host_ok h -> is_port p -> kind f = Connect ->
  (payload f = as_bytes (host_port h p) -> frame_to_inbound f = Ok (InConnect h p)) /\
  (93 ∉ h -> parse_connect_addr (91 :: h ++ 93 :: COLON :: dec_string p) = Ok (h, p)).
Proof.
  intros Hh Hp Hk. split; [by apply frame_to_inbound_connect|].
  - intros Hb. unfold parse_connect_addr, is_port in *.
    rewrite (trim_ends_digit _ p 91 (h ++ 93 :: COLON :: dec_string p)); [|done|done|lia|].
    2:{ exists ((91 :: h) ++ [93; COLON]). by rewrite <- app_assoc. }
    rewrite bool_decide_false by done. cbn [strip_prefix LBRACKET Z.eqb Pos.eqb].
    change (h ++ 93 :: COLON :: dec_string p) with (h ++ (93 :: [58]) ++ dec_string p).
    unfold RBRACKET_COLON. rewrite split_once_first by done. cbn [ok_or res_bind].
    destruct Hh as (_ & c & h' & -> & _). rewrite bool_decide_false by done.
    unfold parse_u16. rewrite parse_dec_string by lia. cbn [ok_or res_bind].
    destruct (Z.eqb_spec p 0); [lia|done].
Qed.

Lemma connect_target_roundtrip_witness :
  frame_to_inbound (mkFrame 1 Connect sample_sid 0 (as_bytes (host_port (lit "example.com") 443)))
  = Ok (InConnect (lit "example.com") 443).
Proof.
  apply (connect_target_roundtrip
           (mkFrame 1 Connect sample_sid 0 (as_bytes (host_port (lit "example.com") 443)))
           (lit "example.com") 443); [|done|done|done].
  split; [|by eexists _, _]. repeat constructor; unfold char_ok; cbv; intuition congruence.
Defined.

(** With no allow list, a dotted-quad literal is refused exactly when it is in
    a loopback, RFC 1918, link-local, carrier-NAT, unspecified or broadcast range, in
    whatever letter case and with whatever trailing dots the rest of the name has. *)
Theorem ssrf_guard_ipv4 a b c d dots :
  is_u8 a -> is_u8 b -> is_u8 c -> is_u8 d ->
  destination_allowed [] (dotted_quad a b c d ++ replicate dots DOT) = false <->
  a = 127 \/ a = 10 \/ (a = 172 /\ 16 <= b <= 31) \/ (a = 192 /\ b = 168) \/
  (a = 169 /\ b = 254) \/ (a = 0 /\ b = 0 /\ c = 0 /\ d = 0) \/
  (a = 255 /\ b = 255 /\ c = 255 /\ d = 255) \/ (a = 100 /\ 64 <= b <= 127).
Proof.
  intros Ha Hb Hc Hd. unfold destination_allowed.
  assert (trim_end_matches DOT (to_ascii_lowercase (dotted_quad a b c d ++ replicate dots DOT))
          = dotted_quad a b c d) as ->.
  { by apply trim_dotted. }
  rewrite bool_decide_true by done. cbn [negb].
  rewrite parse_ip_dotted_quad by done.
  cbn [is_internal_ip]. pose proof (is_internal_v4_spec a b c d Hb) as Hspec.
  destruct (is_internal_v4 a b c d); split; intros H; try done.
  - by apply Hspec.
  - by apply Hspec in H.
Qed.

Lemma ssrf_guard_ipv4_witness : destination_allowed [] (dotted_quad 169 254 169 254 ++ [DOT]) = false.
Proof. apply (ssrf_guard_ipv4 169 254 169 254 1); [done..|]. lia. Defined.
