(* ===== verification/Mailbox.v ===== *)
(** * The receiving side of a Drive mailbox

    The relay's poller (drive-relay/src/poll.rs) and the client's
    (src/drive_client.rs) read a folder the same way: list, sort, prefetch the bodies
    of one session's files concurrently, then commit them in order through the replay
    window into the session's channel.  What differs is an [Endpoint].  The Drive
    service (what a download returns, in which order concurrent downloads finish) and
    the clock are arguments; a file for which a delete request was issued is recorded
    in a log, the outcome of the request is ignored as it is in the code. *)

From stdpp Require Import prelude sorting gmap.
From S2P Require Import Prelude RustStr ListSort Frame Filename Crypto.
#[local] Open Scope Z_scope.

(** ** Files of the folder *)
Record DriveFile := mkFile {
  id : str;
  name : str;
  modified_time : option Z;
  size : option Z
}.

Definition MAX_SEALED_FRAME_BODY_BYTES : Z := HEADER_LEN + MAX_PAYLOAD + AEAD_TAG_LEN.

Inductive Download := DlBody (b : bytes) | DlTooLarge | DlFailed.

Abbreviation Entry := (DriveFile * DriveFilename)%type.

(** ** Adaptive polling *)
Definition PIPELINE_INTERVAL_MS : Z := 25.
Definition IDLE_BACKOFF_STEP_MS : Z := 100.
Definition MAX_IDLE_INTERVAL_MS : Z := 500.
Definition MODIFIED_CURSOR_LOOKBACK_SECS : Z := 8.

(** The new streak and the next interval. *)
Definition adapt_interval (baseline_ms : Z) (found_work : bool) (empty_streak : Z)
    (sessions_present : bool) : Z * Z :=
  if found_work then (0, PIPELINE_INTERVAL_MS)
  else if sessions_present then (0, baseline_ms)
  else
    let empty_streak := saturating_add_u64 empty_streak 1 in
    (empty_streak,
     Z.min (saturating_add_u64 baseline_ms (saturating_mul_u64 IDLE_BACKOFF_STEP_MS empty_streak))
           MAX_IDLE_INTERVAL_MS).

(** RFC 3339 text of an instant, from the [time] crate; instants are nanoseconds. *)
Class TimeFormat := {
  parse_rfc3339 : str -> option Z;
  format_rfc3339 : Z -> option str
}.
Class TimeFormatLaws (T : TimeFormat) : Prop := {
  parse_format_rfc3339 t s : format_rfc3339 t = Some s -> parse_rfc3339 s = Some t
}.

Definition NANOS_PER_SEC : Z := 1000000000.

Definition max_opt (l : list Z) : option Z :=
  fold_left (fun acc m => match acc with None => Some m | Some a => Some (Z.max a m) end) l None.

Definition advance_modified_cursor {T : TimeFormat} (files : list DriveFile) (cursor : option str)
    (now : Z) : option str :=
  let file_max := max_opt (omap modified_time files) in
  let basis := match file_max with
               | Some m => if now <? m then m else now
               | None => now
               end in
  let proposed := basis - MODIFIED_CURSOR_LOOKBACK_SECS * NANOS_PER_SEC in
  let current := cursor ≫= parse_rfc3339 in
  if match current with Some c => proposed <=? c | None => false end then cursor
  else match format_rfc3339 proposed with
       | Some formatted => Some formatted
       | None => cursor
       end.

(** ** The bounded channel to a session's driver

    [send] waits for room and fails once the receiver is gone; [closes_at] is the
    number of messages the receiver takes before that, [None] if it outlives the run. *)
Record Chan (M : Type) := mkChan { sent : list M; closes_at : option nat }.
Arguments mkChan {M}.
Arguments sent {M}.
Arguments closes_at {M}.

Definition send {M} (c : Chan M) (m : M) : option (Chan M) :=
  match closes_at c with
  | Some n => if (length (sent c) <? n)%nat then Some (mkChan (sent c ++ [m]) (closes_at c)) else None
  | None => Some (mkChan (sent c ++ [m]) None)
  end.

(** ** What distinguishes the two pollers *)
Class Endpoint := {
  Inbound : Type;
  (** the direction of the files it reads, and the key that opens them *)
  in_dir : Direction;
  in_key : SessionKeys -> bytes;
  (** unsealed bytes before the sealed batch in the body of a given [seq] *)
  prefix_len : Z -> Z;
  to_inbound : WireFrame -> option Inbound
}.

Record Prepared := mkPrepared { p_file : DriveFile; p_parsed : DriveFilename; p_batch : Batch }.

Inductive DeliveryOutcome := Consumed | Duplicate | Blocked.

Section Mailbox.
Context {P : CryptoPrims} {E : Endpoint}.

(** *** Prefetch of one file: the ids it deletes, and the batch *)
Definition max_total (seq : Z) : Z :=
  saturating_add_u64 MAX_SEALED_FRAME_BODY_BYTES (prefix_len seq).

Definition open_batch (keys : SessionKeys) (parsed : DriveFilename) (body : bytes) : option Batch :=
  if len body <? prefix_len (fseq parsed) then None else
  match AeadCipher_open (in_key keys) (fsid parsed) (fseq parsed)
          (drop (Z.to_nat (prefix_len (fseq parsed))) body) with
  | Ok plaintext =>
    match Batch_decode plaintext with
    | Ok batch =>
      match frames batch with
      | [] => None
      | f :: _ => if negb (seq f =? fseq parsed) then None else Some batch
      end
    | _ => None
    end
  | _ => None
  end.

Definition prepare_batch (download : str -> Z -> Download) (keys : SessionKeys) (file : DriveFile)
    (parsed : DriveFilename) (cached_body : option bytes)
    : list str * res (option Prepared) unit :=
  let max := max_total (fseq parsed) in
  if match size file with Some n => max <? n | None => false end
  then ([id file], Ok None)
  else
    match (match cached_body with Some b => DlBody b | None => download (id file) max end) with
    | DlTooLarge => ([id file], Ok None)
    | DlFailed => ([], Err tt)
    | DlBody body =>
      ([], Ok (mkPrepared file parsed <$> open_batch keys parsed body))
    end.

(** *** Which files of a sorted group are fetched *)
Fixpoint select_downloads (next_expected : Z) (saw_expected_seq : bool) (cached : option bytes)
    (group : list Entry) : list (Entry * option bytes) * list str :=
  match group with
  | [] => ([], [])
  | (file, parsed) :: rest =>
    if negb (bool_decide (fkind parsed = KFrame in_dir))
    then select_downloads next_expected saw_expected_seq cached rest
    else if fseq parsed <? next_expected
    then let '(sel, del) := select_downloads next_expected saw_expected_seq cached rest in
         (sel, id file :: del)
    else if (fseq parsed =? next_expected) || saw_expected_seq
    then let '(mine, cached') := if fseq parsed =? 0 then (cached, None) else (None, cached) in
         let '(sel, del) := select_downloads next_expected true cached' rest in
         (((file, parsed), mine) :: sel, del)
    else ([], [])
  end.

(** *** The concurrent prefetch: results arrive in order of [finish], a failed one is
    dropped, and the rest is sorted by [seq]. *)
Definition prefetch (download : str -> Z -> Download) (finish : str -> Z) (keys : SessionKeys)
    (sel : list (Entry * option bytes)) : list Prepared * list str :=
  let results :=
    (fun '((file, parsed), cached) => (id file, prepare_batch download keys file parsed cached)) <$> sel in
  let joined := sort_by_key (fun r => finish (fst r)) results in
  (sort_by_key (fun p => fseq (p_parsed p))
     (omap (fun r => match r with (_, (_, Ok o)) => o | _ => None end) joined),
   mbind (fun r => fst (snd r)) joined).

(** *** Ordered commit of one batch *)
Record Loop := mkLoop {
  l_window : ReplayWindow;
  l_tx : Chan Inbound;
  l_touched : bool;               (** a send was attempted: [last_seen] was set *)
  l_committed : option Z
}.

Fixpoint deliver_frames (file_sid : SessionId) (fs : list WireFrame) (s : Loop)
    : Loop * option DeliveryOutcome :=
  match fs with
  | [] => (s, None)
  | wire :: rest =>
    if negb (bool_decide (sid wire = file_sid)) then (s, None) else
    match ReplayWindow_check_next (l_window s) (seq wire) with
    | Ok _ =>
      match to_inbound wire with
      | None => (s, None)
      | Some inbound =>
        match send (l_tx s) inbound with
        | None => (mkLoop (l_window s) (l_tx s) true (l_committed s), None)
        | Some tx =>
          deliver_frames file_sid rest
            (mkLoop (ReplayWindow_commit (l_window s) (seq wire)) tx true (Some (seq wire)))
        end
      end
    | Err (Replay _) => (s, if l_committed s then None else Some Duplicate)
    | Err (Future _ _) => (s, if l_committed s then None else Some Blocked)
    | Panic => (s, None)
    end
  end.

Record Inbox := mkInbox { window : ReplayWindow; tx : Chan Inbound; touched : bool }.

Definition deliver_prepared (b : Inbox) (p : Prepared) : Inbox * list str * DeliveryOutcome :=
  let '(s, early) :=
    deliver_frames (fsid (p_parsed p)) (frames (p_batch p)) (mkLoop (window b) (tx b) (touched b) None) in
  let b' := mkInbox (l_window s) (l_tx s) (l_touched s) in
  match early with
  | Some Duplicate => (b', [id (p_file p)], Duplicate)
  | Some o => (b', [], o)
  | None =>
    match l_committed s with
    | None => (b', [], Blocked)
    | Some _ => (b', [id (p_file p)], Consumed)
    end
  end.

Fixpoint deliver_all (b : Inbox) (ps : list Prepared) : Inbox * list str :=
  match ps with
  | [] => (b, [])
  | p :: rest =>
    let '(b', del, o) := deliver_prepared b p in
    match o with
    | Blocked => (b', del)
    | _ => let '(b'', del') := deliver_all b' rest in (b'', del ++ del')
    end
  end.

(** *** One group of an existing session *)
Definition process_group (download : str -> Z -> Download) (finish : str -> Z) (keys : SessionKeys)
    (cached : option bytes) (group : list Entry) (b : Inbox) : Inbox * list str :=
  match next_expected (window b) with
  | None => (b, (fun en => id (fst en)) <$> group)
  | Some next =>
    let '(sel, del1) := select_downloads next false cached group in
    let '(prepared, del2) := prefetch download finish keys sel in
    let '(b', del3) := deliver_all b prepared in
    (b', del1 ++ del2 ++ del3)
  end.
End Mailbox.

Lemma Forall2_omap {A B} (g : A -> option B) l ms :
  Forall2 (fun f m => g f = Some m) l ms -> ms = omap g l.
Proof.
  induction 1 as [|f m fs ms Hm Hf IH]; [done|]. cbn [omap list_omap] in *. rewrite Hm. by f_equal.
Qed.

(** ** Batches by position

    [sealed_at j fs]: the peer has sealed the batch [fs] for session [sid0] under the
    session's key at position [j], as the file of that number.  Nothing says that there is
    one batch for a position: a peer that is started again under the same keys seals a
    second stream.  A frame can be at position [k] when it is in such a batch there. *)
Section Positions.
Context {P : CryptoPrims} {E : Endpoint}.
Context (sid0 : SessionId) (sealed_at : nat -> list WireFrame -> Prop).

Definition frame_at (k : nat) (f : WireFrame) : Prop :=
  exists j fs n, sealed_at j fs /\ fs !! n = Some f /\ k = (j + n)%nat.

(** Batches within the limits, frames numbered by their position. *)
Definition sealed_ok : Prop :=
  forall j fs, sealed_at j fs -> batch_ok (mkBatch fs) /\ forall n f, fs !! n = Some f -> seq f = Z.of_nat (j + n).

(** The integrity the AEAD provides: what opens as file [q] was sealed at [q]. *)
Definition authentic_at (key : bytes) (body : bytes) : Prop :=
  forall q pt, is_u64 q ->
    AeadCipher_open key sid0 q (drop (Z.to_nat (prefix_len q)) body) = Ok pt ->
    exists fs, sealed_at (Z.to_nat q) fs /\ pt = Batch_encode (mkBatch fs).

(** The inbox has received the frames [fs], each of which can be at its position. *)
Record received_at (w : ReplayWindow) (c : Chan Inbound) (fs : list WireFrame) : Prop := {
  ra_window : window_at w (length fs);
  ra_sent : Forall2 (fun f m => to_inbound f = Some m) fs (sent c);
  ra_frames : forall i f, fs !! i = Some f -> frame_at i f
}.

Lemma send_sent {M} (c c' : Chan M) m :
  send c m = Some c' -> sent c' = sent c ++ [m] /\ closes_at c' = closes_at c.
Proof.
  unfold send. destruct (closes_at c) as [n|] eqn:E0; [destruct (_ <? _)%nat|];
    intros; simplify_eq; cbn; rewrite ?E0; done.
Qed.

Lemma received_at_step w c fs c' f m :
  received_at w c fs -> frame_at (length fs) f -> Z.of_nat (length fs) < 2 ^ 64 ->
  to_inbound f = Some m -> send c m = Some c' ->
  received_at (ReplayWindow_commit w (Z.of_nat (length fs))) c' (fs ++ [f]).
Proof.
  intros [Hw Hs Hf] Hk Hb Hm Hc. split.
  - rewrite length_app. cbn. replace (length fs + 1)%nat with (S (length fs)) by lia. by apply window_at_commit.
  - destruct (send_sent _ _ _ Hc) as [-> _]. apply Forall2_app; [done|]. by constructor.
  - intros i g [Hg|[Hl Hg]]%lookup_app_Some; [by apply Hf|]. apply list_lookup_singleton_Some in Hg as [Hi <-].
    by replace i with (length fs) by lia.
Qed.

Context (Hok : sealed_ok).

(** Delivering a batch keeps the inbox on such frames. *)
Lemma deliver_frames_at fsid' fs : forall j s got,
  (forall n f, fs !! n = Some f -> frame_at (j + n) f /\ seq f = Z.of_nat (j + n)) ->
  received_at (l_window s) (l_tx s) got ->
  let s' := fst (deliver_frames fsid' fs s) in
  exists more, received_at (l_window s') (l_tx s') (got ++ more).
Proof.
  assert (forall s got, received_at (l_window s) (l_tx s) got -> exists more, received_at (l_window s) (l_tx s) (got ++ more)) as Hsame
    by (intros s got Hr; exists []; by rewrite app_nil_r).
  induction fs as [|f fs IH]; intros j s got Hseg Hr; cbn; [by apply Hsame|].
  destruct (negb _); [cbn; by apply Hsame|].
  destruct (ReplayWindow_check_next _ _) as [[]|[|]|] eqn:Ec; cbn; try (by apply Hsame).
  destruct (to_inbound f) as [m|] eqn:Em; [|cbn; by apply Hsame].
  destruct (send _ m) as [c|] eqn:Es; [|cbn; by apply Hsame].
  destruct (Hseg 0%nat f eq_refl) as [Hf Hq']. rewrite Nat.add_0_r in Hf, Hq'.
  destruct (check_next_at _ _ _ (ra_window _ _ _ Hr) Ec) as [Hq Hk]. assert (j = length got) as -> by lia.
  edestruct (IH (S (length got)) (mkLoop (ReplayWindow_commit (l_window s) (seq f)) c true (Some (seq f))) (got ++ [f]))
    as (more & Hr').
  - intros n g Hg. replace (S (length got) + n)%nat with (length got + S n)%nat by lia. by apply Hseg.
  - cbn. rewrite Hq. by eapply received_at_step; eauto.
  - exists (f :: more). rewrite <- app_assoc in Hr'. exact Hr'.
Qed.

(** A prepared batch that the peer really sealed. *)
Definition honest (p : Prepared) : Prop := sealed_at (Z.to_nat (fseq (p_parsed p))) (frames (p_batch p)).

Lemma deliver_prepared_received b p got :
  honest p -> received_at (window b) (tx b) got ->
  let '(b', _, _) := deliver_prepared b p in exists more, received_at (window b') (tx b') (got ++ more).
Proof.
  intros Hp Hr. unfold deliver_prepared. destruct (Hok _ _ Hp) as [_ Hseq].
  pose proof (deliver_frames_at (fsid (p_parsed p)) (frames (p_batch p)) (Z.to_nat (fseq (p_parsed p)))
    (mkLoop (window b) (tx b) (touched b) None) got) as H.
  specialize (H ltac:(intros n f Hn; split; [by eexists _, _, n|by apply Hseq]) Hr).
  destruct (deliver_frames _ _ _) as [s early]. cbn in H. destruct early as [[]|], (l_committed s); exact H.
Qed.

Lemma deliver_all_received ps : forall b got,
  Forall honest ps -> received_at (window b) (tx b) got ->
  let '(b', _) := deliver_all b ps in exists more, received_at (window b') (tx b') (got ++ more).
Proof.
  induction ps as [|p ps IH]; intros b got Hh Hr; cbn; [exists []; by rewrite app_nil_r|].
  inversion_clear Hh as [|? ? Hp Hps].
  pose proof (deliver_prepared_received b p got Hp Hr) as H.
  destruct (deliver_prepared b p) as [[b' del] o]. destruct H as (m1 & Hr1).
  specialize (IH b' (got ++ m1) Hps Hr1). destruct o; [| |by exists m1];
    (destruct (deliver_all b' ps) as [b'' del']; destruct IH as (m2 & ?); exists (m1 ++ m2); by rewrite app_assoc).
Qed.

(** What survives [open_batch] on an authentic body is a batch the peer sealed. *)
Lemma open_batch_honest key keys parsed body batch file :
  in_key keys = key -> authentic_at key body -> fsid parsed = sid0 -> is_u64 (fseq parsed) ->
  open_batch keys parsed body = Some batch -> honest (mkPrepared file parsed batch).
Proof.
  intros <- Ha Hs Hq. unfold open_batch. destruct (_ <? _); [done|].
  destruct (AeadCipher_open _ _ _ _) as [pt| |] eqn:Eo; [|done..]. rewrite Hs in Eo.
  destruct (Ha _ _ Hq Eo) as (fs & Hi & ->). rewrite (Batch_decode_encode _ (proj1 (Hok _ _ Hi))). cbn.
  destruct fs as [|f fs]; [done|]. destruct (negb _); [done|]. by intros [= <-].
Qed.

Definition group_ok (group : list Entry) : Prop :=
  Forall (fun en => fsid (snd en) = sid0 /\ is_u64 (fseq (snd en))) group.

Lemma select_downloads_sub next saw cached group :
  let '(sel, _) := select_downloads next saw cached group in
  Forall (fun x => fst x ∈ group /\ (snd x = None \/ snd x = cached)) sel.
Proof.
  revert saw cached. induction group as [|[file parsed] group IH]; intros saw cached; cbn; [constructor|].
  destruct (negb _).
  { specialize (IH saw cached). destruct (select_downloads _ _ _ _). eapply Forall_impl; [exact IH|].
    cbn. intros x [? ?]. split; [by right|done]. }
  destruct (_ <? _).
  { specialize (IH saw cached). destruct (select_downloads _ _ _ _). eapply Forall_impl; [exact IH|].
    cbn. intros x [? ?]. split; [by right|done]. }
  destruct (_ || _); [|constructor].
  destruct (fseq parsed =? 0).
  - specialize (IH true None). destruct (select_downloads _ _ _ _). constructor; [cbn; split; [left|auto]|].
    eapply Forall_impl; [exact IH|]. cbn. intros x [? [?|?]]; split; auto; by right.
  - specialize (IH true cached). destruct (select_downloads _ _ _ _). constructor; [cbn; split; [left|auto]|].
    eapply Forall_impl; [exact IH|]. cbn. intros x [? ?]; split; auto; by right.
Qed.

Lemma prefetch_honest download finish keys cached group next saw :
  group_ok group ->
  (forall id max body, download id max = DlBody body -> authentic_at (in_key keys) body) ->
  (forall body, cached = Some body -> authentic_at (in_key keys) body) ->
  Forall honest (fst (prefetch download finish keys (fst (select_downloads next saw cached group)))).
Proof.
  intros Hg Hd Hc. pose proof (select_downloads_sub next saw cached group) as Hsub.
  destruct (select_downloads _ _ _ _) as [sel del]. cbn [fst prefetch].
  unfold sort_by_key at 1. rewrite Forall_sort_by. apply Forall_forall. intros p Hp.
  apply list_elem_of_omap in Hp as ([i [del' r]] & Hr & Hp).
  unfold sort_by_key in Hr. rewrite elem_of_sort_by in Hr.
  apply list_elem_of_fmap in Hr as ([[file parsed] cb] & Heq & Hin). injection Heq as -> Heq.
  eapply Forall_forall in Hsub; [|exact Hin]. destruct Hsub as [Hin' Hcb]. cbn in Hcb.
  eapply Forall_forall in Hg; [|exact Hin']. destruct Hg as [Hs Hq]. cbn in Hs, Hq.
  unfold prepare_batch in Heq. destruct (match size file with Some _ => _ | _ => _ end); [by simplify_eq|].
  destruct (match cb with Some _ => _ | None => _ end) as [body| |] eqn:Eb; simplify_eq.
  destruct (open_batch keys parsed body) as [batch|] eqn:Eo; [|done]. cbn in Hp. simplify_eq.
  eapply open_batch_honest; eauto. destruct cb as [b|]; simplify_eq; [|eauto].
  destruct Hcb; simplify_eq; eauto.
Qed.

(** Whatever the folder holds, a group of files only extends what was received. *)
Lemma process_group_at download finish keys cached group b got :
  group_ok group ->
  (forall id max body, download id max = DlBody body -> authentic_at (in_key keys) body) ->
  (forall body, cached = Some body -> authentic_at (in_key keys) body) ->
  received_at (window b) (tx b) got ->
  let b' := fst (process_group download finish keys cached group b) in exists more, received_at (window b') (tx b') (got ++ more).
Proof.
  intros Hg Hd Hc Hr. unfold process_group. destruct (next_expected (window b)) as [next|]; [|exists []; by rewrite app_nil_r].
  pose proof (prefetch_honest download finish keys cached group next false Hg Hd Hc) as Hh.
  destruct (select_downloads _ _ _ _) as [sel del1]. cbn [fst] in Hh.
  destruct (prefetch _ _ _ _) as [prepared del2]. cbn [fst] in Hh.
  pose proof (deliver_all_received prepared b got Hh Hr) as H. by destruct (deliver_all b prepared).
Qed.
End Positions.

(** ** What was sent, and what has been delivered

    [log] is the list of batches the peer uploaded for session [sid0], in order;
    its concatenation is the stream of frames of that direction. *)
Section Stream.
Context {P : CryptoPrims} {E : Endpoint}.
Context (sid0 : SessionId) (log : list (list WireFrame)).

Definition offset (i : nat) : nat := length (concat (take i log)).

(** The log a sender builds: batches within the limits, frames numbered from 0. *)
Record log_ok : Prop := {
  lo_batches : Forall (fun fs => batch_ok (mkBatch fs)) log;
  lo_frames : forall i f, concat log !! i = Some f -> seq f = Z.of_nat i /\ sid f = sid0
}.

(** A body is authentic under [key] when opening it as file [q] can only yield the
    batch the peer sealed at [q]: the integrity the AEAD provides. *)
Definition authentic (key : bytes) (body : bytes) : Prop :=
  forall q pt, is_u64 q ->
    AeadCipher_open key sid0 q (drop (Z.to_nat (prefix_len q)) body) = Ok pt ->
    exists i fs, log !! i = Some fs /\ q = Z.of_nat (offset i) /\ pt = Batch_encode (mkBatch fs).

(** The inbox has received exactly the first [k] frames of the stream. *)
Record received (k : nat) (w : ReplayWindow) (c : Chan Inbound) : Prop := {
  rc_window : window_at w k;
  rc_sent : Forall2 (fun f m => to_inbound f = Some m) (take k (concat log)) (sent c);
  rc_bound : (k <= length (concat log))%nat
}.

Lemma offset_S i fs : log !! i = Some fs -> offset (S i) = (offset i + length fs)%nat.
Proof.
  intros H. unfold offset. rewrite (take_S_r _ _ _ H), concat_app, length_app. cbn.
  rewrite length_app. cbn. lia.
Qed.

Lemma offset_all : offset (length log) = length (concat log).
Proof. unfold offset. by rewrite firstn_all. Qed.

Lemma offset_mono i j : (i <= j)%nat -> (offset i <= offset j)%nat.
Proof.
  intros Hij. unfold offset. replace (take i log) with (take i (take j log)).
  2:{ rewrite take_take. f_equal. lia. }
  rewrite <- (take_drop i (take j log)) at 2. rewrite concat_app, length_app. lia.
Qed.

Lemma log_segment i fs :
  log !! i = Some fs -> concat log = concat (take i log) ++ fs ++ concat (drop (S i) log).
Proof.
  intros H. rewrite <- (take_drop_middle _ _ _ H) at 1. by rewrite concat_app.
Qed.

Lemma log_lookup i fs n f :
  log !! i = Some fs -> fs !! n = Some f -> concat log !! (offset i + n)%nat = Some f.
Proof.
  intros Hi Hn. rewrite (log_segment _ _ Hi). rewrite lookup_app_r by (unfold offset; lia).
  replace (offset i + n - length (concat (take i log)))%nat with n by (unfold offset; lia).
  rewrite lookup_app_l; [done|]. by eapply lookup_lt_Some.
Qed.

Lemma received_step k w c c' f m :
  received k w c -> concat log !! k = Some f -> Z.of_nat k < 2 ^ 64 ->
  to_inbound f = Some m -> send c m = Some c' ->
  received (S k) (ReplayWindow_commit w (Z.of_nat k)) c'.
Proof.
  intros [Hw Hs Hb] Hf Hk Hm Hc. split.
  - by apply window_at_commit.
  - rewrite (take_S_r _ _ _ Hf). destruct (send_sent _ _ _ Hc) as [-> _].
    apply Forall2_app; [done|]. by constructor.
  - apply lookup_lt_Some in Hf. lia.
Qed.

Context (Hlog : log_ok).

(** The batches of the log by their position. *)
Definition log_at (j : nat) (fs : list WireFrame) : Prop := exists i, log !! i = Some fs /\ j = offset i.

Lemma log_sealed : sealed_ok log_at.
Proof.
  intros j fs (i & Hi & ->). split; [by apply (Forall_lookup_1 _ _ _ _ (lo_batches Hlog) Hi)|].
  intros n f Hn. by apply (lo_frames Hlog), (log_lookup i fs).
Qed.

Lemma log_authentic key body : authentic key body -> authentic_at sid0 log_at key body.
Proof.
  intros Ha q pt Hq Ho. destruct (Ha q pt Hq Ho) as (i & fs & Hi & -> & ->). exists fs. split; [|done]. exists i. split; [done|]. lia.
Qed.

Lemma log_frame_at k f : frame_at log_at k f -> concat log !! k = Some f.
Proof. intros (j & fs & n & (i & Hi & ->) & Hn & ->). by apply (log_lookup i fs). Qed.

Lemma log_position k f : concat log !! k = Some f -> frame_at log_at k f.
Proof.
  enough (forall pre l, log = pre ++ l -> forall k, concat l !! k = Some f -> frame_at log_at (length (concat pre) + k) f) as H by (apply (H [] log eq_refl)).
  intros pre l. revert pre. induction l as [|fs l IH]; intros pre El n Hn; [done|]. cbn in Hn. apply lookup_app_Some in Hn as [Hn|[Hl Hn]].
  - exists (length (concat pre)), fs, n. split_and!; [|done|done]. exists (length pre). unfold offset. rewrite El, take_app_length. split; [|done].
    by rewrite lookup_app_r, Nat.sub_diag by lia.
  - specialize (IH (pre ++ [fs]) ltac:(by rewrite <- app_assoc) _ Hn). rewrite concat_app, length_app in IH. cbn in IH. rewrite app_nil_r in IH.
    by replace (length (concat pre) + n)%nat with (length (concat pre) + length fs + (n - length fs))%nat by lia.
Qed.

(** Frames that can each be at their position are a prefix of the log. *)
Lemma received_log w c fs : received_at log_at w c fs -> received (length fs) w c.
Proof.
  intros [Hw Hs Hf]. assert (fs = take (length fs) (concat log)) as El.
  { apply list_eq. intros i. destruct (fs !! i) as [f|] eqn:Ei.
    - pose proof (log_frame_at _ _ (Hf i f Ei)) as Hi. rewrite lookup_take_lt; [done|]. by eapply lookup_lt_Some.
    - apply lookup_ge_None in Ei. by rewrite lookup_take_ge. }
  split; [done|by rewrite <- El|]. apply (f_equal length) in El. rewrite length_take in El. lia.
Qed.

Lemma log_received k w c : received k w c -> exists fs, length fs = k /\ received_at log_at w c fs.
Proof.
  intros [Hw Hs Hb]. exists (take k (concat log)). rewrite length_take, Nat.min_l by done. split; [done|].
  split; [by rewrite length_take, Nat.min_l|done|]. intros i f [Hi _]%lookup_take_Some. by apply log_position.
Qed.

(** Whatever the folder holds, a group of files only extends the received prefix. *)
Lemma process_group_received download finish keys cached group b k :
  group_ok sid0 group ->
  (forall id max body, download id max = DlBody body -> authentic (in_key keys) body) ->
  (forall body, cached = Some body -> authentic (in_key keys) body) ->
  received k (window b) (tx b) ->
  let b' := fst (process_group download finish keys cached group b) in
  exists k', (k <= k')%nat /\ received k' (window b') (tx b').
Proof.
  intros Hg Hd Hc Hr. destruct (log_received k _ _ Hr) as (got & <- & Hr').
  destruct (process_group_at sid0 log_at log_sealed download finish keys cached group b got Hg) as (more & H);
    [intros; eapply log_authentic; eauto|intros; eapply log_authentic; eauto|done|].
  exists (length (got ++ more)). split; [rewrite length_app; lia|]. by apply received_log.
Qed.

(** *** Progress: with the files visible and the driver alive, everything arrives *)
Definition deliverable : Prop := Forall (fun f => is_Some (to_inbound f)) (concat log).

Lemma log_frame_u64 i f : concat log !! i = Some f -> Z.of_nat i < 2 ^ 64.
Proof.
  intros H. destruct (lo_frames Hlog _ _ H) as [Hq _].
  apply list_elem_of_lookup_2, list_elem_of_In, in_concat in H as (fs & Hfs & Hf).
  pose proof (lo_batches Hlog) as Hb. rewrite Forall_forall in Hb.
  destruct (Hb fs) as [_ Hfr]; [by apply list_elem_of_In|]. cbn in Hfr.
  rewrite Forall_forall in Hfr. destruct (Hfr f); [by apply list_elem_of_In|].
  unfold is_u64 in *. lia.
Qed.

Lemma log_batch_nonempty i fs : log !! i = Some fs -> (0 < length fs)%nat.
Proof.
  intros Hi. destruct (Forall_lookup_1 _ _ _ _ (lo_batches Hlog) Hi) as [Hl _].
  unfold len in Hl. cbn in Hl. lia.
Qed.

Lemma offset_lt i j : (i < j <= length log)%nat -> (offset i < offset j)%nat.
Proof.
  intros Hij. destruct (lookup_lt_is_Some_2 log i) as [fs Hi]; [lia|].
  pose proof (offset_S _ _ Hi). pose proof (log_batch_nonempty _ _ Hi).
  pose proof (offset_mono (S i) j). lia.
Qed.

Lemma check_next_here w k :
  window_at w k -> Z.of_nat k < 2 ^ 64 -> ReplayWindow_check_next w (Z.of_nat k) = Ok tt.
Proof.
  intros Hw Hk. rewrite check_next_expected by eauto using window_at_ok.
  rewrite (window_at_next w k) by done. by rewrite Z.eqb_refl.
Qed.

Lemma check_next_below w k q :
  window_at w k -> 0 <= q < Z.of_nat k -> exists e, ReplayWindow_check_next w q = Err (Replay e).
Proof.
  intros Hw Hq. rewrite check_next_expected by eauto using window_at_ok.
  destruct (Z.lt_ge_cases (Z.of_nat k) (2 ^ 64)) as [Hk|Hk].
  - rewrite (window_at_next w k) by done. bool_cases; try lia. eauto.
  - destruct Hw as [Hl ?]. unfold next_expected. rewrite Hl. destruct k as [|k]; [lia|].
    unfold checked_add_u64, u64_max. bool_cases; try lia. eauto.
Qed.

Lemma deliver_frames_all fs : forall k s,
  deliverable ->
  (forall n f, fs !! n = Some f -> concat log !! (k + n)%nat = Some f) ->
  received k (l_window s) (l_tx s) -> closes_at (l_tx s) = None ->
  exists s', deliver_frames sid0 fs s = (s', None)
    /\ received (k + length fs) (l_window s') (l_tx s') /\ closes_at (l_tx s') = None
    /\ l_committed s' = match fs with [] => l_committed s
                        | _ => Some (Z.of_nat (k + length fs - 1)) end.
Proof.
  induction fs as [|f fs IH]; intros k s Hd Hseg Hr Ho; cbn [deliver_frames length].
  { exists s. by rewrite Nat.add_0_r. }
  pose proof (Hseg 0%nat f eq_refl) as Hf. rewrite Nat.add_0_r in Hf.
  destruct (lo_frames Hlog _ _ Hf) as [Hq Hs]. pose proof (log_frame_u64 _ _ Hf) as Hk.
  rewrite bool_decide_true by done. cbn [negb]. rewrite Hq, check_next_here by (done || apply Hr).
  destruct (Forall_lookup_1 _ _ _ _ Hd Hf) as [m Hm]. rewrite Hm.
  unfold send at 1. rewrite Ho.
  set (s1 := mkLoop _ _ _ _).
  destruct (IH (S k) s1 Hd) as (s' & E' & Hr' & Ho' & Hc'); [| |done|].
  - intros n g Hg. replace (S k + n)%nat with (k + S n)%nat by lia. by apply Hseg.
  - eapply received_step; eauto. unfold send. by rewrite Ho.
  - exists s'. replace (k + S (length fs))%nat with (S k + length fs)%nat by lia.
    rewrite E'. split_and!; auto. rewrite Hc'. destruct fs; cbn; do 2 f_equal; lia.
Qed.

Definition honest_at (p : Prepared) (i : nat) : Prop :=
  log !! i = Some (frames (p_batch p)) /\ fseq (p_parsed p) = Z.of_nat (offset i)
  /\ fsid (p_parsed p) = sid0.

Lemma deliver_prepared_next b p i :
  deliverable -> honest_at p i -> received (offset i) (window b) (tx b) -> closes_at (tx b) = None ->
  exists b', deliver_prepared b p = (b', [id (p_file p)], Consumed)
    /\ received (offset (S i)) (window b') (tx b') /\ closes_at (tx b') = None.
Proof.
  intros Hd (Hi & Hq & Hs) Hr Ho. unfold deliver_prepared. rewrite Hs.
  destruct (deliver_frames_all (frames (p_batch p)) (offset i) (mkLoop (window b) (tx b) (touched b) None))
    as (s' & -> & Hr' & Ho' & Hc); auto.
  { intros n f. by apply log_lookup. }
  pose proof (log_batch_nonempty _ _ Hi). destruct (frames (p_batch p)) as [|f fs] eqn:Ef; [cbn in *; lia|].
  rewrite Hc. rewrite <- Ef in *. rewrite (offset_S _ _ Hi). eauto.
Qed.

Lemma deliver_prepared_dup b p i c :
  honest_at p i -> (i < c <= length log)%nat -> received (offset c) (window b) (tx b) ->
  deliver_prepared b p = (mkInbox (window b) (tx b) (touched b), [id (p_file p)], Duplicate).
Proof.
  intros (Hi & Hq & Hs) Hc Hr. unfold deliver_prepared. rewrite Hs.
  pose proof (log_batch_nonempty _ _ Hi). destruct (frames (p_batch p)) as [|f fs] eqn:Ef; [cbn in *; lia|].
  pose proof (log_lookup _ _ 0 f Hi eq_refl) as Hf. rewrite Nat.add_0_r in Hf.
  destruct (lo_frames Hlog _ _ Hf) as [Hq' Hs'].
  cbn [deliver_frames l_window l_tx l_touched l_committed]. rewrite bool_decide_true by done. cbn [negb].
  destruct (check_next_below (window b) (offset c) (seq f)) as [e ->]; [apply Hr| |done].
  pose proof (offset_lt i c Hc). lia.
Qed.

Lemma offset_inj i j :
  (i <= length log)%nat -> (j <= length log)%nat -> offset i = offset j -> i = j.
Proof.
  intros Hi Hj Eo. destruct (lt_eq_lt_dec i j) as [[H|H]|H]; [|done|].
  - pose proof (offset_lt i j). lia.
  - pose proof (offset_lt j i). lia.
Qed.

Lemma deliver_all_complete ps : forall b c,
  deliverable -> (c <= length log)%nat ->
  received (offset c) (window b) (tx b) -> closes_at (tx b) = None ->
  Forall (fun p => exists i, honest_at p i) ps ->
  StronglySorted (fun p q => fseq (p_parsed p) <= fseq (p_parsed q)) ps ->
  (forall i, (c <= i < length log)%nat -> exists p, p ∈ ps /\ fseq (p_parsed p) = Z.of_nat (offset i)) ->
  exists b', deliver_all b ps = (b', (fun p => id (p_file p)) <$> ps)
    /\ received (length (concat log)) (window b') (tx b') /\ closes_at (tx b') = None.
Proof.
  induction ps as [|p ps IH]; intros b c Hd Hc Hr Ho Hh Hsort Hcov; cbn.
  { exists b. split_and!; [done| |done]. rewrite <- offset_all.
    replace (length log) with c; [done|]. destruct (decide (c < length log)%nat); [|lia].
    destruct (Hcov c) as (p & Hp & _); [lia|]. by apply not_elem_of_nil in Hp. }
  inversion_clear Hh as [|? ? [i Hp] Hps]. inversion_clear Hsort as [|? ? Hs Hle].
  assert (i < length log)%nat as Hil by (eapply lookup_lt_Some; apply Hp).
  destruct (lt_eq_lt_dec i c) as [[Hlt|Heq]|Hgt].
  - rewrite (deliver_prepared_dup b p i c) by (auto || lia).
    destruct (IH (mkInbox (window b) (tx b) (touched b)) c) as (b' & -> & ?); auto; [|eauto].
    intros j Hj. destruct (Hcov j Hj) as (p' & [->|Hp']%elem_of_cons & Hq); [|eauto].
    destruct Hp as (_ & Hpq & _). pose proof (offset_lt i j). lia.
  - subst i. destruct (deliver_prepared_next b p c) as (b1 & -> & Hr1 & Ho1); auto.
    destruct (IH b1 (S c)) as (b' & -> & ?); auto; [|eauto].
    intros j Hj. destruct (Hcov j) as (p' & [->|Hp']%elem_of_cons & Hq); [lia| |eauto].
    destruct Hp as (_ & Hpq & _). pose proof (offset_lt c j). lia.
  - exfalso. destruct (Hcov c) as (p' & Hp' & Hq); [lia|].
    destruct Hp as (_ & Hpq & _). pose proof (offset_lt c i).
    apply elem_of_cons in Hp' as [->|Hp']; [lia|].
    eapply Forall_forall in Hle; [|exact Hp']. lia.
Qed.

(** In a sorted group, everything from the expected number on is fetched, and
    everything below it is deleted. *)
Lemma select_downloads_sorted next saw cached group :
  Forall (fun en => fkind (snd en) = KFrame in_dir) group ->
  StronglySorted (fun a b => fseq (snd a) <= fseq (snd b)) group ->
  (saw = false -> forall en, en ∈ group -> next <= fseq (snd en) ->
     exists en', en' ∈ group /\ fseq (snd en') = next) ->
  fst <$> fst (select_downloads next saw cached group)
    = filter (fun en => next <= fseq (snd en)) group
  /\ snd (select_downloads next saw cached group)
    = (fun en => id (fst en)) <$> filter (fun en => fseq (snd en) < next) group.
Proof.
  revert saw cached. induction group as [|[file parsed] group IH]; intros saw cached Hk Hs Hn; [done|].
  inversion_clear Hk as [|? ? Hk0 Hk']. inversion_clear Hs as [|? ? Hs' Hle]. cbn in Hk0.
  cbn [select_downloads]. rewrite bool_decide_true by done. cbn [negb].
  rewrite !filter_cons. cbn [snd].
  destruct (Z.ltb_spec (fseq parsed) next) as [Hlt|Hge].
  - rewrite decide_False by lia. rewrite decide_True by lia.
    destruct (IH saw cached Hk' Hs') as [IH1 IH2].
    { intros Hsaw en Hen Hq. destruct (Hn Hsaw en) as (en' & [->|?]%elem_of_cons & Hq'); [by right|done| |eauto].
      cbn in Hq'. lia. }
    destruct (select_downloads _ _ _ _) as [sel del]. cbn in *. by rewrite IH2.
  - rewrite decide_True by lia. rewrite decide_False by lia.
    assert ((fseq parsed =? next) || saw = true) as ->.
    { destruct saw; [by rewrite orb_true_r|]. destruct (Hn eq_refl (file, parsed)) as (en' & Hen' & Hq');
        [left|done|]. apply elem_of_cons in Hen' as [->|Hen']; cbn in *; [lia|].
      eapply Forall_forall in Hle; [|exact Hen']. cbn in Hle. lia. }
    destruct (if fseq parsed =? 0 then _ else _) as [mine cached'].
    destruct (IH true cached' Hk' Hs') as [IH1 IH2]; [done|].
    destruct (select_downloads _ _ _ _) as [sel del]. cbn in *. by rewrite IH1.
Qed.

(** A body that opens, as file [offset i], to the [i]-th batch. *)
Definition sealed_body (key : bytes) (i : nat) (fs : list WireFrame) (body : bytes) : Prop :=
  let q := Z.of_nat (offset i) in
  prefix_len q <= len body
  /\ AeadCipher_open key sid0 q (drop (Z.to_nat (prefix_len q)) body) = Ok (Batch_encode (mkBatch fs)).

(** A listed file that holds a batch of the log and can be downloaded. *)
Definition uploaded (download : str -> Z -> Download) (key : bytes) (en : Entry) : Prop :=
  exists i fs body, log !! i = Some fs /\ fseq (snd en) = Z.of_nat (offset i)
    /\ match size (fst en) with Some n => n <= max_total (fseq (snd en)) | None => True end
    /\ download (id (fst en)) (max_total (fseq (snd en))) = DlBody body /\ sealed_body key i fs body.

Lemma open_batch_sealed keys parsed i fs body :
  log !! i = Some fs -> fsid parsed = sid0 -> fseq parsed = Z.of_nat (offset i) ->
  sealed_body (in_key keys) i fs body -> open_batch keys parsed body = Some (mkBatch fs).
Proof.
  intros Hi Hs Hq [Hl Ho]. unfold open_batch. rewrite Hs, Hq.
  destruct (Z.ltb_spec (len body) (prefix_len (Z.of_nat (offset i)))); [lia|]. rewrite Ho.
  rewrite Batch_decode_encode by (eapply (Forall_lookup_1 _ _ _ _ (lo_batches Hlog) Hi)). cbn.
  pose proof (log_batch_nonempty _ _ Hi). destruct fs as [|f fs]; [cbn in *; lia|].
  pose proof (log_lookup _ _ 0 f Hi eq_refl) as Hf. rewrite Nat.add_0_r in Hf.
  destruct (lo_frames Hlog _ _ Hf) as [-> _]. by rewrite Z.eqb_refl.
Qed.

(** Preparing an uploaded file succeeds, whether its body is cached or downloaded. *)
Lemma prepare_uploaded download keys file parsed cb :
  fsid parsed = sid0 -> uploaded download (in_key keys) (file, parsed) ->
  (forall body, cb = Some body -> fseq parsed = 0 /\ exists fs, log !! 0%nat = Some fs /\ sealed_body (in_key keys) 0 fs body) ->
  exists p i, prepare_batch download keys file parsed cb = ([], Ok (Some p))
    /\ p_file p = file /\ p_parsed p = parsed /\ honest_at p i.
Proof.
  intros Hs (i & fs & body & Hi & Hq & Hsz & Hdl & Hb) Hcb. cbn in Hq, Hsz, Hdl. unfold prepare_batch.
  assert (match size file with Some n => max_total (fseq parsed) <? n | None => false end = false) as ->.
  { destruct (size file) as [n|]; [|done]. lia. }
  destruct cb as [b|].
  - destruct (Hcb b eq_refl) as (Hq0 & fs0 & Hi0 & Hb0).
    assert (fseq parsed = Z.of_nat (offset 0)) as Hqo by done.
    rewrite (open_batch_sealed keys parsed 0 fs0 b) by done.
    exists (mkPrepared file parsed (mkBatch fs0)), 0%nat. split_and!; try done.
  - rewrite Hdl. rewrite (open_batch_sealed keys parsed i fs body) by done.
    exists (mkPrepared file parsed (mkBatch fs)), i. split_and!; try done.
Qed.

Lemma prefetch_complete download finish keys sel :
  Forall (fun x => exists p i, prepare_batch download keys (fst (fst x)) (snd (fst x)) (snd x) = ([], Ok (Some p))
      /\ p_file p = fst (fst x) /\ p_parsed p = snd (fst x) /\ honest_at p i) sel ->
  let ps := fst (prefetch download finish keys sel) in
  Forall (fun p => exists i, honest_at p i) ps
  /\ StronglySorted (fun p q => fseq (p_parsed p) <= fseq (p_parsed q)) ps
  /\ forall x, x ∈ sel -> exists p, p ∈ ps /\ p_file p = fst (fst x) /\ p_parsed p = snd (fst x).
Proof.
  intros Hsel. cbn. split_and!; [|apply sort_by_key_sorted|].
  - unfold sort_by_key at 1. rewrite Forall_sort_by. apply Forall_forall. intros p Hp.
    apply list_elem_of_omap in Hp as ([n [del r]] & Hr & Hp).
    unfold sort_by_key in Hr. rewrite elem_of_sort_by in Hr.
    apply list_elem_of_fmap in Hr as ([[file parsed] cb] & Heq & Hin). injection Heq as -> Heq.
    eapply Forall_forall in Hsel; [|exact Hin]. destruct Hsel as (p' & i & Hpr & _ & _ & Hh). cbn in Hpr.
    rewrite Hpr in Heq. simplify_eq. eauto.
  - intros [[file parsed] cb] Hin. assert (Hin' := Hin). eapply Forall_forall in Hin'; [|exact Hsel].
    destruct Hin' as (p & i & Hpr & Hf & Hpp & _). cbn in *. exists p. split; [|done].
    unfold sort_by_key at 1. rewrite elem_of_sort_by. apply list_elem_of_omap.
    exists (id file, ([], Ok (Some p))). split; [|done]. unfold sort_by_key. rewrite elem_of_sort_by.
    apply list_elem_of_fmap. exists (file, parsed, cb). by rewrite Hpr.
Qed.

(** The cached body is only ever handed to a file numbered 0. *)
Lemma select_downloads_cached next saw cached group x :
  x ∈ fst (select_downloads next saw cached group) -> snd x <> None -> fseq (snd (fst x)) = 0.
Proof.
  revert saw cached. induction group as [|[file parsed] group IH]; intros saw cached; cbn [select_downloads];
    [by intros ?%not_elem_of_nil|].
  destruct (negb _); [apply IH|]. destruct (_ <? _).
  { specialize (IH saw cached). by destruct (select_downloads _ _ _ _). }
  destruct (_ || _); [|by intros ?%not_elem_of_nil].
  destruct (Z.eqb_spec (fseq parsed) 0) as [Hz|Hz].
  - specialize (IH true None). destruct (select_downloads _ _ _ _).
    intros [->|Hx]%elem_of_cons Hn; [done|by apply IH].
  - specialize (IH true cached). destruct (select_downloads _ _ _ _).
    intros [->|Hx]%elem_of_cons Hn; [done|by apply IH].
Qed.

(** At a batch boundary the window expects the next batch, or the stream is complete. *)
Lemma received_next c w ch :
  received (offset c) w ch -> (c <= length log)%nat ->
  next_expected w = Some (Z.of_nat (offset c)) \/ next_expected w = None /\ c = length log.
Proof.
  intros Hr Hc. destruct (Z.lt_ge_cases (Z.of_nat (offset c)) (2 ^ 64)) as [Hk|Hk].
  { left. apply window_at_next; [apply Hr|done]. }
  right. destruct (rc_window _ _ _ Hr) as [Hl ?]. split.
  { unfold next_expected. rewrite Hl. destruct (offset c) as [|m]; [lia|].
    unfold checked_add_u64, u64_max. bool_cases; (done || lia). }
  destruct (decide (c < length log)%nat) as [Hlt|]; [exfalso|lia].
  destruct (lookup_lt_is_Some_2 log c Hlt) as [fs Hfs]. pose proof (log_batch_nonempty _ _ Hfs).
  destruct (lookup_lt_is_Some_2 fs 0) as [f Hf]; [lia|]. pose proof (log_lookup _ _ 0 f Hfs Hf) as HF.
  rewrite Nat.add_0_r in HF. apply log_frame_u64 in HF. lia.
Qed.

(** The hypotheses under which a group completes the stream from batch [c] on. *)
Record complete_group (download : str -> Z -> Download) (key : bytes) (c : nat) (group : list Entry) : Prop := {
  cg_ok : group_ok sid0 group;
  cg_kind : Forall (fun en => fkind (snd en) = KFrame in_dir) group;
  cg_sorted : StronglySorted (fun x y => fseq (snd x) <= fseq (snd y)) group;
  cg_uploaded en : en ∈ group -> Z.of_nat (offset c) <= fseq (snd en) -> uploaded download key en;
  cg_cover i : (c <= i < length log)%nat -> exists en, en ∈ group /\ fseq (snd en) = Z.of_nat (offset i)
}.

Lemma complete_group_first download key c group en :
  complete_group download key c group -> (c <= length log)%nat ->
  en ∈ group -> Z.of_nat (offset c) <= fseq (snd en) ->
  exists en', en' ∈ group /\ fseq (snd en') = Z.of_nat (offset c).
Proof.
  intros Hg Hc Hen Hq. destruct (cg_uploaded _ _ _ _ Hg en Hen Hq) as (i & fs & body & Hi & Hqi & _).
  apply lookup_lt_Some in Hi. apply (cg_cover _ _ _ _ Hg).
  destruct (decide (c < length log)%nat); [lia|]. assert (c = length log) as -> by lia.
  pose proof (offset_lt i (length log)). lia.
Qed.

(** The selection of a completing group: everything from [offset c] on is prepared,
    everything below is deleted. *)
Lemma complete_group_prefetch download finish keys cached c group :
  complete_group download (in_key keys) c group -> (c <= length log)%nat ->
  (forall body, cached = Some body -> exists fs, log !! 0%nat = Some fs /\ sealed_body (in_key keys) 0 fs body) ->
  let '(sel, del) := select_downloads (Z.of_nat (offset c)) false cached group in
  let ps := fst (prefetch download finish keys sel) in
  Forall (fun p => exists i, honest_at p i) ps
  /\ StronglySorted (fun p q => fseq (p_parsed p) <= fseq (p_parsed q)) ps
  /\ (forall en, en ∈ group -> Z.of_nat (offset c) <= fseq (snd en) ->
        exists p, p ∈ ps /\ p_file p = fst en /\ p_parsed p = snd en)
  /\ (forall en, en ∈ group -> fseq (snd en) < Z.of_nat (offset c) -> id (fst en) ∈ del).
Proof.
  intros Hg Hc Hca. set (next := Z.of_nat (offset c)).
  destruct (select_downloads_sorted next false cached group) as [Hsel Hdel]; [apply Hg..| |].
  { intros _ en. by apply (complete_group_first download (in_key keys)). }
  pose proof (select_downloads_sub next false cached group) as Hsub.
  pose proof (select_downloads_cached next false cached group) as Hcached.
  destruct (select_downloads _ _ _ _) as [sel del]. cbn [fst snd] in *.
  assert (forall en, en ∈ fst <$> sel <-> en ∈ group /\ next <= fseq (snd en)) as Hin.
  { intros en. rewrite Hsel, list_elem_of_filter. tauto. }
  destruct (prefetch_complete download finish keys sel) as (Hh & Hsorted & Hall).
  { apply Forall_forall. intros [[file parsed] cb] Hx.
    destruct (proj1 (Hin (file, parsed))) as [Hen Hq]; [apply list_elem_of_fmap; by eexists (_, _)|].
    pose proof (proj1 (Forall_forall _ _) Hsub _ Hx) as [_ Hcb].
    pose proof (proj1 (Forall_forall _ _) (cg_ok _ _ _ _ Hg) _ Hen) as [Hsid _]. cbn in *.
    apply prepare_uploaded; [done|by apply Hg|].
    intros body ->. split; [by apply (Hcached (file, parsed, Some body))|]. apply Hca. destruct Hcb; congruence. }
  split_and!; auto.
  - intros en Hen Hq. destruct (proj1 (list_elem_of_fmap _ _ _) (proj2 (Hin en) (conj Hen Hq))) as (x & -> & Hx).
    by apply Hall.
  - intros en Hen Hlt. rewrite Hdel. apply list_elem_of_fmap. exists en. split; [done|].
    by apply list_elem_of_filter.
Qed.

(** With every remaining batch visible and downloadable and the driver listening, one
    group brings the inbox to the end of the stream and asks for every file's deletion. *)
Lemma process_group_complete download finish keys cached group b c :
  deliverable -> (c <= length log)%nat ->
  received (offset c) (window b) (tx b) -> closes_at (tx b) = None ->
  complete_group download (in_key keys) c group ->
  (forall body, cached = Some body -> exists fs, log !! 0%nat = Some fs /\ sealed_body (in_key keys) 0 fs body) ->
  let '(b', del) := process_group download finish keys cached group b in
  received (length (concat log)) (window b') (tx b')
  /\ closes_at (tx b') = None
  /\ forall en, en ∈ group -> id (fst en) ∈ del.
Proof.
  intros Hd Hc Hr Ho Hg Hca. unfold process_group.
  destruct (received_next c _ _ Hr Hc) as [-> | [-> ->]].
  2:{ rewrite <- offset_all. split_and!; auto. intros en Hen. apply list_elem_of_fmap. eauto. }
  pose proof (complete_group_prefetch download finish keys cached c group Hg Hc Hca) as Hp.
  destruct (select_downloads _ _ _ _) as [sel del1]. destruct Hp as (Hh & Hs & Hall & Hdel).
  destruct (prefetch download finish keys sel) as [ps del2]. cbn [fst] in *.
  destruct (deliver_all_complete ps b c) as (b' & -> & Hr' & Ho'); auto.
  { intros i Hi. destruct (cg_cover _ _ _ _ Hg i Hi) as (en & Hen & Hq).
    destruct (Hall en Hen) as (p & Hp & _ & Hpp); [pose proof (offset_mono c i); lia|].
    exists p. by rewrite Hpp. }
  split_and!; auto. intros en Hen. rewrite !elem_of_app.
  destruct (Z.lt_ge_cases (fseq (snd en)) (Z.of_nat (offset c))) as [Hlt|Hge]; [left; auto|].
  right; right. destruct (Hall en Hen Hge) as (p & Hp & Hf & _).
  apply list_elem_of_fmap. exists p. by rewrite Hf.
Qed.
End Stream.

(** ** Properties of the polling schedule *)

(** [n] consecutive empty cycles without a session, from a fresh streak. *)
Definition idle_cycles (baseline_ms : Z) (n : nat) : Z * Z :=
  Nat.iter n (fun '(streak, _) => adapt_interval baseline_ms false streak false) (0, baseline_ms).

Lemma idle_cycles_S b n :
  idle_cycles b (S n) = adapt_interval b false (fst (idle_cycles b n)) false.
Proof. unfold idle_cycles. rewrite Nat.iter_succ. by destruct (Nat.iter n _ _). Qed.

Lemma idle_streak b n : fst (idle_cycles b n) = Z.min (Z.of_nat n) u64_max.
Proof.
  induction n as [|n IH]; [done|]. rewrite idle_cycles_S, IH. unfold adapt_interval. cbn [fst].
  unfold saturating_add_u64, u64_max. lia.
Qed.

(** Adaptive polling.  After work the next sleep is the pipeline interval and
    with a session present it is the baseline, either way the streak restarts; the
    [n]-th idle cycle in a row sleeps [baseline + 100 n] ms capped at 500, for every
    [n] (the saturating arithmetic never shows). *)
Theorem adapt_interval_schedule b s n :
  0 <= b ->
  adapt_interval b true s false = (0, 25) /\ adapt_interval b true s true = (0, 25) /\
  adapt_interval b false s true = (0, b) /\
  snd (idle_cycles b (S n)) = Z.min (b + 100 * Z.of_nat (S n)) 500.
Proof.
  intros Hb. split_and!; [done..|]. rewrite idle_cycles_S, idle_streak. unfold adapt_interval. cbn [snd].
  unfold saturating_add_u64, saturating_mul_u64, u64_max, IDLE_BACKOFF_STEP_MS, MAX_IDLE_INTERVAL_MS. lia.
Qed.

Lemma adapt_interval_schedule_witness : snd (idle_cycles 300 2) = 500.
Proof. exact (proj2 (proj2 (proj2 (adapt_interval_schedule 300 0 1 ltac:(lia))))). Defined.

(** The newest instant a cycle knows of. *)
Definition listing_basis (files : list DriveFile) (now : Z) : Z :=
  fold_right Z.max now (omap modified_time files).

Lemma max_opt_fold l acc now :
  match fold_left (fun acc m => match acc with None => Some m | Some a => Some (Z.max a m) end) l acc with
  | Some m => if now <? m then m else now
  | None => now
  end = fold_right Z.max (match acc with Some a => Z.max a now | None => now end) l.
Proof.
  revert acc. induction l as [|x l IH]; intros acc; cbn.
  - destruct acc as [a|]; [|done]. destruct (Z.ltb_spec now a); lia.
  - rewrite IH. destruct acc as [a|]; clear IH.
    + assert (forall l u v, fold_right Z.max (Z.max u v) l = Z.max u (fold_right Z.max v l)) as Hm.
      { clear. induction l; intros; cbn; [done|]. rewrite IHl. lia. }
      rewrite !Hm. lia.
    + induction l as [|y l IH]; cbn; [lia|]. rewrite IH. lia.
Qed.

(** The [modifiedTime] cursor.  After a cycle it stands exactly 8 s before the
    newest instant known (the clock before the call and every listed modification
    time), unless it already stood later: it never moves back, and a file modified
    within the last 8 s is never behind it on its account. *)
Theorem modified_cursor_lookback {T : TimeFormat} {TL : TimeFormatLaws T} files cursor now :
  let proposed := listing_basis files now - 8 * NANOS_PER_SEC in
  is_Some (format_rfc3339 proposed) ->
  (advance_modified_cursor files cursor now ≫= parse_rfc3339)
    = Some (match cursor ≫= parse_rfc3339 with Some c => Z.max c proposed | None => proposed end).
Proof.
  intros proposed [s Hs]. unfold advance_modified_cursor, max_opt. rewrite max_opt_fold. cbn [fold_right].
  change (listing_basis files now - MODIFIED_CURSOR_LOOKBACK_SECS * NANOS_PER_SEC) with proposed.
  replace (fold_right Z.max now (omap modified_time files)
           - MODIFIED_CURSOR_LOOKBACK_SECS * NANOS_PER_SEC) with proposed by done.
  destruct (cursor ≫= parse_rfc3339) as [c|] eqn:Ec.
  - destruct (Z.leb_spec proposed c).
    + rewrite Ec. f_equal. lia.
    + rewrite Hs. cbn. rewrite (parse_format_rfc3339 _ _ Hs). f_equal. lia.
  - rewrite Hs. cbn. apply (parse_format_rfc3339 _ _ Hs).
Qed.

(** Whether a query from [cursor] on ([modifiedTime >= cursor], or all files while there
    is no cursor) can return a file. *)
Definition visible_since {T : TimeFormat} (cursor : option str) (f : DriveFile) : bool :=
  match cursor ≫= parse_rfc3339, modified_time f with
  | Some c, Some t => c <=? t
  | _, _ => true
  end.

Lemma invisible_stays {T : TimeFormat} {TL : TimeFormatLaws T} cursor f files now :
  visible_since cursor f = false -> visible_since (advance_modified_cursor files cursor now) f = false.
Proof.
  unfold visible_since, advance_modified_cursor. destruct (cursor ≫= parse_rfc3339) as [c|] eqn:Ec; [|done].
  destruct (modified_time f) as [t|]; [|done]. intros Hc.
  set (proposed := _ - _). destruct (Z.leb_spec proposed c) as [Hle|Hgt]; [by rewrite Ec|].
  destruct (format_rfc3339 proposed) as [s|] eqn:Es; [|by rewrite Ec].
  cbn. rewrite (parse_format_rfc3339 _ _ Es). lia.
Qed.

(** An instance of the time format, to evaluate with. *)
#[export] Instance toy_time : TimeFormat := {
  parse_rfc3339 s := match s with [z] => Some z | _ => None end;
  format_rfc3339 t := Some [t]
}.
#[export] Instance toy_time_laws : TimeFormatLaws toy_time.
Proof. split. intros t s. cbn. by intros [= <-]. Qed.

Lemma modified_cursor_lookback_witness :
  advance_modified_cursor [mkFile [] [] (Some 30000000000) None; mkFile [] [] (Some 7) None] None 20000000000
    ≫= parse_rfc3339 = Some 22000000000.
Proof.
  apply (modified_cursor_lookback [mkFile [] [] (Some 30000000000) None; mkFile [] [] (Some 7) None] None 20000000000).
  eexists. reflexivity.
Defined.

(** * The listing of a mailbox

    What both pollers do with the files of a listing before any of them is fetched:
    keep the files of their direction, sort them by [(sid, seq)] and split them into one
    group per session. *)

Definition sid_seq_le (a b : Entry) : bool :=
  let '(sa, sb) := (fsid (snd a), fsid (snd b)) in
  lex_le sa sb && (negb (bool_decide (sa = sb)) || (fseq (snd a) <=? fseq (snd b))).

Definition push_entry (m : gmap SessionId (list Entry)) (en : Entry) : gmap SessionId (list Entry) :=
  <[fsid (snd en) := default [] (m !! fsid (snd en)) ++ [en]]> m.

Definition frames_by_sid (l : list Entry) : gmap SessionId (list Entry) := fold_left push_entry l ∅.

Abbreviation of_sid s := (fun en : Entry => fsid (snd en) = s).


(** ** Grouping and sorting of the listing *)
Lemma frames_by_sid_fold l m s :
  default [] (fold_left push_entry l m !! s) = default [] (m !! s) ++ filter (of_sid s) l.
Proof.
  revert m. induction l as [|en l IH]; intros m; cbn [fold_left]; [by rewrite app_nil_r|].
  rewrite IH, filter_cons. unfold push_entry. destruct (decide (fsid (snd en) = s)) as [->|Hs].
  - rewrite lookup_insert_eq. cbn. by rewrite <- app_assoc.
  - by rewrite lookup_insert_ne.
Qed.

Lemma frames_by_sid_nonempty l m s :
  m !! s <> Some [] -> fold_left push_entry l m !! s <> Some [].
Proof.
  revert m. induction l as [|en l IH]; intros m Hm; cbn [fold_left]; [done|]. apply IH. unfold push_entry.
  destruct (decide (fsid (snd en) = s)) as [->|Hs]; [|by rewrite lookup_insert_ne].
  rewrite lookup_insert_eq. by destruct (default [] _).
Qed.

Lemma frames_by_sid_lookup l s :
  frames_by_sid l !! s = match filter (of_sid s) l with [] => None | g => Some g end.
Proof.
  pose proof (frames_by_sid_fold l ∅ s) as H. pose proof (frames_by_sid_nonempty l ∅ s) as Hn.
  unfold frames_by_sid. rewrite lookup_empty in H, Hn. cbn in H. specialize (Hn ltac:(done)).
  destruct (fold_left push_entry l ∅ !! s) as [g|]; cbn in H; rewrite <- H; [by destruct g|done].
Qed.

Lemma frames_by_sid_head l s g :
  (s, g) ∈ map_to_list (frames_by_sid l) -> exists file parsed rest,
    g = (file, parsed) :: rest /\ fsid parsed = s /\ g = filter (of_sid s) l.
Proof.
  rewrite elem_of_map_to_list, frames_by_sid_lookup.
  destruct (filter (of_sid s) l) as [|[file parsed] rest] eqn:Ef; [done|]. intros [= <-].
  exists file, parsed, rest. split_and!; auto.
  assert ((file, parsed) ∈ filter (of_sid s) l) as [? _]%list_elem_of_filter; [|done]. rewrite Ef. left.
Qed.

Lemma sid_seq_le_total : le_total sid_seq_le.
Proof.
  intros a b. unfold sid_seq_le.
  destruct (decide (fsid (snd a) = fsid (snd b))) as [E|E].
  - rewrite E, lex_le_refl, bool_decide_true by done. cbn. lia.
  - rewrite !bool_decide_false by congruence. cbn. rewrite !andb_true_r. apply lex_le_total.
Qed.

Lemma sid_seq_le_trans : le_trans sid_seq_le.
Proof.
  intros a b c. unfold sid_seq_le. rewrite !andb_true_iff, !orb_true_iff, !negb_true_iff, !bool_decide_eq_false.
  intros [H1 H2] [H3 H4]. split; [by eapply lex_le_trans|].
  destruct (decide (fsid (snd a) = fsid (snd c))) as [E|E]; [right|by left].
  assert (fsid (snd a) = fsid (snd b)) as E' by (apply lex_le_antisym; congruence).
  destruct H2 as [?|?], H4 as [?|?]; try congruence. lia.
Qed.

Lemma sorted_group l s :
  StronglySorted (fun x y => fseq (snd x) <= fseq (snd y)) (filter (of_sid s) (sort_by sid_seq_le l)).
Proof.
  assert (forall k, Forall (of_sid s) k -> StronglySorted (fun x y => sid_seq_le x y = true) k ->
    StronglySorted (fun x y => fseq (snd x) <= fseq (snd y)) k) as Hk.
  { intros k Hk Hs. induction Hs as [|x k Hs IH Hx]; constructor; inversion_clear Hk as [|? ? Hx0 Hk0]; [by apply IH|].
    apply Forall_forall. intros y Hy. rewrite Forall_forall in Hx, Hk0. specialize (Hx y Hy). specialize (Hk0 y Hy).
    unfold sid_seq_le in Hx. rewrite Hx0, Hk0, lex_le_refl, bool_decide_true in Hx by done. cbn in Hx. lia. }
  apply Hk.
  - apply Forall_forall. by intros x [? _]%list_elem_of_filter.
  - apply StronglySorted_filter, sort_by_sorted; [apply sid_seq_le_total|apply sid_seq_le_trans].
Qed.
