(* ===== verification/RelayPoll.v ===== *)
(** * drive-relay/src/poll.rs: the relay's poller

    The session table, the bootstrap of a session from the Hello prefix of its
    [c2r_<sid>_0] file, the processing of one session's files and one poll cycle.
    The services a cycle talks to (OAuth token, Drive listing and downloads, clocks,
    the scheduling of concurrent downloads, the moment a driver stops listening, an
    eviction that races the worker) are one [RelayEnv] per cycle. *)

From stdpp Require Import prelude gmap sorting.
From S2P Require Import Prelude RustStr ListSort Frame Filename Crypto RelayState Mailbox.
#[local] Open Scope Z_scope.

(** ** The relay as a mailbox endpoint *)
#[export] Instance relay_endpoint : Endpoint := {
  Inbound := InboundFrame;
  in_dir := ClientToRelay;
  in_key := k_c2r;
  prefix_len seq := if seq =? 0 then HELLO_BODY_LEN else 0;
  to_inbound f := match frame_to_inbound f with Ok i => Some i | _ => None end
}.

(** [task_done] is [task.is_finished()]. *)
Record SessionHandle := mkHandle {
  h_keys : SessionKeys;
  h_replay : ReplayWindow;
  h_inbound_tx : Chan InboundFrame;
  h_last_seen : Z;
  task_done : bool
}.

(** The mutable part of [RelayState], and the ids for which a delete was issued. *)
Record World := mkWorld {
  sessions : gmap SessionId SessionHandle;
  deleted : gset str
}.

Inductive BootstrapOutcome := Registered (body : bytes) | Discarded.
Inductive WorkerError := WorkerApi.

Record RelayEnv := mkEnv {
  e_token : option str;
  e_now_utc : Z;
  e_list : option str -> option (list DriveFile);
  e_download : str -> Z -> Download;
  e_finish : str -> Z;
  e_instant : Z;
  e_driver_stops : SessionId -> option nat;
  e_reaped : SessionId -> bool
}.

Definition delete_file (w : World) (f : str) : World := mkWorld (sessions w) ({[f]} ∪ deleted w).
Definition delete_files (w : World) (fs : list str) : World :=
  mkWorld (sessions w) (list_to_set fs ∪ deleted w).

Section Relay.
Context {P : CryptoPrims} {T : TimeFormat} (relay_secret : bytes).

(** ** Session bootstrap *)
Definition spawn_session (e : RelayEnv) (w : World) (keys : SessionKeys) : World * bool :=
  let sid := keys_sid keys in
  match sessions w !! sid with
  | Some _ => (w, false)
  | None =>
    let handle := mkHandle keys ReplayWindow_new (mkChan [] (e_driver_stops e sid)) (e_instant e) false in
    (mkWorld (<[sid := handle]> (sessions w)) (deleted w), true)
  end.

Definition try_bootstrap_session_from_c2r_0 (e : RelayEnv) (w : World) (file : DriveFile)
    (parsed : DriveFilename) : World * res BootstrapOutcome WorkerError :=
  let max_total := saturating_add_u64 MAX_SEALED_FRAME_BODY_BYTES HELLO_BODY_LEN in
  let discard := (delete_file w (id file), Ok Discarded) in
  if match size file with
     | Some size => (size <? HELLO_BODY_LEN) || (max_total <? size)
     | None => false
     end then discard else
  match e_download e (id file) max_total with
  | DlTooLarge => discard
  | DlFailed => (w, Err WorkerApi)
  | DlBody body_bytes =>
    if len body_bytes <? HELLO_BODY_LEN then discard else
    match HelloBody_decode (take (Z.to_nat HELLO_BODY_LEN) body_bytes) with
    | Ok hello =>
      match relay_accept relay_secret (fsid parsed) hello with
      | Ok keys => (fst (spawn_session e w keys), Ok (Registered body_bytes))
      | _ => discard
      end
    | _ => discard
    end
  end.

(** ** One session's files *)

(** Before the session is looked up: [inl] continues with the world and the body
    downloaded by the bootstrap, [inr] is an early return. *)
Definition ensure_session (e : RelayEnv) (w : World) (file : DriveFile) (parsed : DriveFilename)
    : (World * option bytes) + (World * res unit WorkerError) :=
  match sessions w !! fsid parsed with
  | Some _ => inl (w, None)
  | None =>
    if negb (fseq parsed =? 0) then inr (w, Ok tt) else
    match try_bootstrap_session_from_c2r_0 e w file parsed with
    | (w', Ok (Registered body)) => inl (w', Some body)
    | (w', Ok Discarded) => inr (w', Ok tt)
    | (w', Err er) => inr (w', Err er)
    | (w', Panic) => inr (w', Panic)
    end
  end.

(** The reaper may run between the bootstrap and the lookup. *)
Definition race_reaper (e : RelayEnv) (w : World) (sid : SessionId) : World :=
  if e_reaped e sid then mkWorld (base.delete sid (sessions w)) (deleted w) else w.

Definition process_session (e : RelayEnv) (w : World) (sid : SessionId) (cached : option bytes)
    (group : list Entry) : World :=
  match sessions w !! sid with
  | None => w
  | Some h =>
    let '(b, del) := process_group (e_download e) (e_finish e) (h_keys h) cached group
                       (mkInbox (h_replay h) (h_inbound_tx h) false) in
    let seen := if touched b then e_instant e else h_last_seen h in
    delete_files
      (mkWorld (<[sid := mkHandle (h_keys h) (window b) (tx b) seen (task_done h)]> (sessions w)) (deleted w))
      del
  end.

Definition process_frame_group (e : RelayEnv) (w : World) (group : list Entry)
    : World * res unit WorkerError :=
  match group with
  | [] => (w, Ok tt)
  | (file, parsed) :: _ =>
    let sid := fsid parsed in
    match ensure_session e w file parsed with
    | inr r => r
    | inl (w1, cached) => (process_session e (race_reaper e w1 sid) sid cached group, Ok tt)
    end
  end.

(** ** One poll cycle *)
Definition c2r_entry (f : DriveFile) : option Entry :=
  match parse_filename (name f) with
  | Some parsed =>
    if bool_decide (fkind parsed = KFrame ClientToRelay) then Some (f, parsed) else None
  | None => None
  end.

Definition run_workers (e : RelayEnv) (w : World) (groups : list (SessionId * list Entry)) : World :=
  fold_left (fun w g => fst (process_frame_group e w (snd g))) groups w.

Definition run_one_cycle (e : RelayEnv) (w : World) (frame_cursor : option str)
    : World * option str * bool :=
  match e_token e with
  | None => (w, frame_cursor, false)
  | Some _ =>
    let files := default [] (e_list e frame_cursor) in
    let cursor := advance_modified_cursor files frame_cursor (e_now_utc e) in
    let frame_files := sort_by sid_seq_le (omap c2r_entry files) in
    match frame_files with
    | [] => (w, cursor, false)
    | _ => (run_workers e w (map_to_list (frames_by_sid frame_files)), cursor, true)
    end
  end.

(** ** The loop: what it carries from one cycle to the next *)
Record Poller := mkPoller {
  po_world : World;
  po_cursor : option str;
  po_interval_ms : Z;
  po_empty_streak : Z
}.

Definition poll_loop_start (baseline_ms : Z) (w : World) : Poller := mkPoller w None baseline_ms 0.

Definition poll_loop_step (baseline_ms : Z) (e : RelayEnv) (p : Poller) : Poller :=
  let '(w, cursor, found_work) := run_one_cycle e (po_world p) (po_cursor p) in
  let sessions_present := negb (bool_decide (sessions w = ∅)) in
  let '(streak, interval) := adapt_interval baseline_ms found_work (po_empty_streak p) sessions_present in
  mkPoller w cursor interval streak.
End Relay.

(** ** A worker only touches its own session *)

(** [f] reads and writes the entry of [s] only; its deletes depend on nothing else. *)
Definition local_at {X} (s : SessionId) (f : World -> World * X) : Prop :=
  forall w w', sessions w !! s = sessions w' !! s ->
    snd (f w) = snd (f w')
    /\ sessions (fst (f w)) !! s = sessions (fst (f w')) !! s
    /\ (exists d, deleted (fst (f w)) = d ∪ deleted w /\ deleted (fst (f w')) = d ∪ deleted w')
    /\ (forall t, t <> s -> sessions (fst (f w)) !! t = sessions w !! t).

Lemma local_commute {X Y} s t (f : World -> World * X) (g : World -> World * Y) w :
  s <> t -> local_at s f -> local_at t g -> fst (g (fst (f w))) = fst (f (fst (g w))).
Proof.
  intros Hst Hf Hg.
  destruct (Hf w w eq_refl) as (_ & _ & _ & Hfo). destruct (Hg w w eq_refl) as (_ & _ & _ & Hgo).
  destruct (Hf w (fst (g w))) as (_ & Hfs & (d & Hfd & Hfd') & _); [by rewrite Hgo|].
  destruct (Hg w (fst (f w))) as (_ & Hgs & (d' & Hgd & Hgd') & _); [by rewrite Hfo|].
  destruct (Hf (fst (g w)) (fst (g w)) eq_refl) as (_ & _ & _ & Hfo').
  destruct (Hg (fst (f w)) (fst (f w)) eq_refl) as (_ & _ & _ & Hgo').
  destruct (fst (g (fst (f w)))) as [s1 d1], (fst (f (fst (g w)))) as [s2 d2]. cbn in *.
  f_equal; [|rewrite Hgd', Hfd', Hfd, Hgd; set_solver].
  apply map_eq. intros u. destruct (decide (u = s)) as [->|Hus].
  - rewrite Hgo' by done. done.
  - destruct (decide (u = t)) as [->|Hut]; [rewrite <- Hgs; by rewrite Hfo'|].
    rewrite Hgo', Hfo', Hfo, Hgo by done. done.
Qed.

(** The commuting workers of a cycle may run in any order. *)
Lemma fold_left_commute {A K} (Q : A -> Prop) (key : A -> K) (f : World -> A -> World) l l' :
  (forall w x y, Q x -> Q y -> key x <> key y -> f (f w x) y = f (f w y) x) ->
  Forall Q l -> NoDup (key <$> l) -> Permutation l l' -> forall w, fold_left f l w = fold_left f l' w.
Proof.
  intros Hc Hq Hnd Hp. induction Hp as [|x l l' Hp IH|x y l|l l' l'' Hp1 IH1 Hp2 IH2]; intros w; cbn; [done| | |].
  - apply IH; [by inversion_clear Hq|]. by apply NoDup_cons in Hnd as [_ ?].
  - f_equal. inversion_clear Hq as [|? ? Hx Hq']. inversion_clear Hq' as [|? ? Hy _]. apply Hc; auto.
    cbn in Hnd. apply NoDup_cons in Hnd as [Hy' _]. intros E. apply Hy'. rewrite E. left.
  - rewrite IH1 by done. apply IH2; by rewrite <- Hp1.
Qed.

Section RelayFacts.
Context {P : CryptoPrims} {T : TimeFormat} (relay_secret : bytes).

Lemma relay_accept_sid sid hello keys : relay_accept relay_secret sid hello = Ok keys -> keys_sid keys = sid.
Proof.
  unfold relay_accept, ensure_contributory. destruct (negb _); [done|].
  destruct (was_contributory _); cbn; [|done]. by intros; simplify_eq.
Qed.

Lemma local_noop {X} s (x : X) : local_at s (fun w => (w, x)).
Proof. intros w w' H. cbn. split_and!; auto. exists ∅. set_solver. Qed.

Lemma local_delete {X} s f (x : X) : local_at s (fun w => (delete_file w f, x)).
Proof. intros w w' H. cbn. split_and!; auto. by exists {[f]}. Qed.

Lemma local_spawn {X} e keys (x : X) :
  local_at (keys_sid keys) (fun w => (fst (spawn_session e w keys), x)).
Proof.
  intros w w' H. unfold spawn_session. rewrite <- H. destruct (sessions w !! keys_sid keys) eqn:Es; cbn.
  - split_and!; auto; [congruence|]. exists ∅. set_solver.
  - rewrite !lookup_insert_eq. split_and!; auto; [exists ∅; set_solver|].
    intros t Ht. by rewrite lookup_insert_ne.
Qed.

Lemma local_bootstrap e file parsed :
  local_at (fsid parsed)
    (fun w => try_bootstrap_session_from_c2r_0 relay_secret e w file parsed).
Proof.
  intros w w' H. unfold try_bootstrap_session_from_c2r_0.
  destruct (match size file with Some _ => _ | None => _ end); [by apply local_delete|].
  destruct (e_download e _ _) as [body| |]; [|by apply local_delete|by apply local_noop].
  destruct (_ <? _); [by apply local_delete|].
  destruct (HelloBody_decode _) as [hello| |]; [|by apply local_delete..].
  destruct (relay_accept _ _ _) as [keys| |] eqn:Ea; [|by apply local_delete..].
  apply relay_accept_sid in Ea. rewrite <- Ea in *. by apply local_spawn.
Qed.

Lemma local_session e sid cached group : local_at sid (fun w => (process_session e w sid cached group, tt)).
Proof.
  intros w w' H. unfold process_session. rewrite <- H.
  destruct (sessions w !! sid) as [h|] eqn:Es; [|apply local_noop; congruence].
  destruct (process_group _ _ _ _ _ _) as [b del]. cbn. rewrite !lookup_insert_eq. split_and!; auto.
  - by exists (list_to_set del).
  - intros t Ht. by rewrite lookup_insert_ne.
Qed.

Lemma local_race e sid : local_at sid (fun w => (race_reaper e w sid, tt)).
Proof.
  intros w w' H. unfold race_reaper. destruct (e_reaped e sid); [|by apply local_noop].
  cbn. rewrite !lookup_delete_eq. split_and!; auto; [exists ∅; set_solver|].
  intros t Ht. by rewrite lookup_delete_ne.
Qed.

(** Running a second local step on the world a first one left. *)
Lemma local_seq {X Y} s (f : World -> World * X) (g : X -> World -> World * Y) :
  local_at s f -> (forall x, local_at s (g x)) ->
  local_at s (fun w => let '(w1, x) := f w in g x w1).
Proof.
  intros Hf Hg w w' H. destruct (Hf w w' H) as (Hx & Hs & (d & Hd & Hd') & Ho).
  destruct (f w) as [w1 x], (f w') as [w1' x']. cbn in *. subst x'.
  destruct (Hg x w1 w1' Hs) as (Hx2 & Hs2 & (d2 & Hd2 & Hd2') & Ho2). split_and!; auto.
  - exists (d2 ∪ d). rewrite Hd2, Hd2', Hd, Hd'. set_solver.
  - intros t Ht. rewrite Ho2 by done. auto.
Qed.

Lemma local_tail {X} e sid cached group (x : X) :
  local_at sid (fun w => (process_session e (race_reaper e w sid) sid cached group, x)).
Proof.
  intros w w' H.
  exact (local_seq sid (fun w => (race_reaper e w sid, tt)) (fun _ w1 => (process_session e w1 sid cached group, x))
    (local_race e sid) (fun _ v v' Hv => match local_session e sid cached group v v' Hv with conj _ K => conj eq_refl K end)
    w w' H).
Qed.

Lemma local_group e group file parsed rest :
  group = (file, parsed) :: rest ->
  local_at (fsid parsed) (fun w => process_frame_group relay_secret e w group).
Proof.
  intros -> w w' H. unfold process_frame_group, ensure_session. rewrite <- H.
  destruct (sessions w !! fsid parsed) eqn:Es; [apply local_tail; congruence|].
  destruct (negb _); [apply local_noop; congruence|].
  set (k := fun (r : res BootstrapOutcome WorkerError) (w1 : World) =>
    match match r with
          | Ok (Registered body) => inl (w1, Some body)
          | Ok Discarded => inr (w1, Ok tt)
          | Err er => inr (w1, Err er)
          | Panic => inr (w1, Panic)
          end with
    | inr r => r
    | inl (w2, cached) =>
      (process_session e (race_reaper e w2 (fsid parsed)) (fsid parsed) cached ((file, parsed) :: rest), Ok tt)
    end).
  pose proof (local_seq (fsid parsed) _ k (local_bootstrap e file parsed)) as L.
  assert (forall r, local_at (fsid parsed) (k r)) as Hk.
  { intros [[body|]|er|]; unfold k; try apply local_noop. apply local_tail. }
  specialize (L Hk w w'). rewrite Es in L. specialize (L H). unfold k in L.
  destruct (try_bootstrap_session_from_c2r_0 _ e w file parsed) as [w1 [[]|? |]],
    (try_bootstrap_session_from_c2r_0 _ e w' file parsed) as [w1' [[]|? |]]; exact L.
Qed.

(** ** What the workers of one cycle do to one session *)
Definition headed (g : SessionId * list Entry) : Prop :=
  exists file parsed rest, snd g = (file, parsed) :: rest /\ fsid parsed = fst g.

Lemma worker_local e g :
  headed g -> local_at (fst g) (fun w => process_frame_group relay_secret e w (snd g)).
Proof. intros (file & parsed & rest & -> & <-). by eapply local_group. Qed.

Lemma run_workers_other e groups w s :
  Forall headed groups -> s ∉ groups.*1 ->
  sessions (run_workers relay_secret e w groups) !! s = sessions w !! s.
Proof.
  revert w. induction groups as [|g groups IH]; intros w Hh Hs; [done|].
  inversion_clear Hh as [|? ? Hg Hh']. cbn in Hs |- *. apply not_elem_of_cons in Hs as [Hne Hs].
  unfold run_workers in IH. rewrite IH by done.
  destruct (worker_local e g Hg w w eq_refl) as (_ & _ & _ & Ho). by apply Ho.
Qed.

Lemma run_workers_deleted e groups w :
  Forall headed groups -> deleted w ⊆ deleted (run_workers relay_secret e w groups).
Proof.
  revert w. induction groups as [|g groups IH]; intros w Hh; [done|].
  inversion_clear Hh as [|? ? Hg Hh']. cbn. etrans; [|by apply IH].
  destruct (worker_local e g Hg w w eq_refl) as (_ & _ & (d & -> & _) & _). set_solver.
Qed.

Lemma run_workers_perm e groups groups' w :
  Forall headed groups -> NoDup groups.*1 -> Permutation groups groups' ->
  run_workers relay_secret e w groups = run_workers relay_secret e w groups'.
Proof.
  intros Hh Hnd Hp. apply (fold_left_commute headed fst); auto. intros v x y Hx Hy Hxy.
  by apply (local_commute (fst x) (fst y) (fun w => process_frame_group relay_secret e w (snd x))
    (fun w => process_frame_group relay_secret e w (snd y))); [|apply worker_local..].
Qed.

Lemma run_workers_at e groups w s g :
  Forall headed groups -> NoDup groups.*1 -> (s, g) ∈ groups ->
  sessions (run_workers relay_secret e w groups) !! s
    = sessions (fst (process_frame_group relay_secret e w g)) !! s
  /\ deleted (fst (process_frame_group relay_secret e w g))
       ⊆ deleted (run_workers relay_secret e w groups).
Proof.
  intros Hh Hnd Hin. apply list_elem_of_split in Hin as (l1 & l2 & ->).
  assert (Permutation (l1 ++ (s, g) :: l2) ((s, g) :: l1 ++ l2)) as Hp by (by rewrite Permutation_middle).
  rewrite (run_workers_perm e _ _ w Hh Hnd Hp). rewrite Hp in Hh, Hnd.
  inversion_clear Hh as [|? ? Hg Hh']. cbn in Hnd. apply NoDup_cons in Hnd as [Hs _].
  cbn [run_workers fold_left snd]. split; [by apply run_workers_other|]. by apply run_workers_deleted.
Qed.

Lemma listing_groups l :
  let groups := map_to_list (frames_by_sid l) in Forall headed groups /\ NoDup groups.*1.
Proof.
  cbn. split; [|apply NoDup_fst_map_to_list]. apply Forall_forall. intros [s g] Hg.
  destruct (frames_by_sid_head l s g Hg) as (file & parsed & rest & -> & Hs & _).
  by exists file, parsed, rest.
Qed.
End RelayFacts.

(** ** One session of the table, followed through a cycle *)
Section OneSession.
Context {P : CryptoPrims} {T : TimeFormat} (relay_secret : bytes).
Context (sid0 : SessionId) (log : list (list WireFrame)) (K : SessionKeys).

(** If the table holds [sid0] under the peer's keys, its driver has been handed
    exactly a prefix of what the peer sent. *)
Definition session_inv (w : World) : Prop :=
  forall h, sessions w !! sid0 = Some h -> h_keys h = K ->
    exists k, received log k (h_replay h) (h_inbound_tx h).

Definition authentic_env (e : RelayEnv) : Prop :=
  forall f max body, e_download e f max = DlBody body -> authentic sid0 log (k_c2r K) body.

Context (Hlog : log_ok sid0 log).

Lemma received_new c : received log 0 ReplayWindow_new (mkChan [] c).
Proof. split; cbn; [done|constructor|lia]. Qed.

Lemma session_inv_deleted w d : session_inv w -> session_inv (mkWorld (sessions w) d).
Proof. done. Qed.

Lemma spawn_inv e w keys : session_inv w -> session_inv (fst (spawn_session e w keys)).
Proof.
  intros Hw. unfold spawn_session. destruct (sessions w !! keys_sid keys) eqn:Es; [done|]. cbn.
  intros h. destruct (decide (keys_sid keys = sid0)) as [->|Hne]; cbn.
  - rewrite lookup_insert_eq. intros [= <-] _. cbn. exists 0%nat. apply received_new.
  - rewrite lookup_insert_ne by done. apply Hw.
Qed.

Lemma bootstrap_inv e w file parsed :
  session_inv w -> session_inv (fst (try_bootstrap_session_from_c2r_0 relay_secret e w file parsed)).
Proof.
  intros Hw. unfold try_bootstrap_session_from_c2r_0.
  repeat case_match; cbn; try done; by apply spawn_inv.
Qed.

Lemma bootstrap_body e w file parsed w' body :
  try_bootstrap_session_from_c2r_0 relay_secret e w file parsed = (w', Ok (Registered body)) ->
  exists f max, e_download e f max = DlBody body.
Proof.
  unfold try_bootstrap_session_from_c2r_0. intros H. repeat case_match; simplify_eq; eauto.
Qed.

Lemma process_session_inv e w cached group :
  authentic_env e -> group_ok sid0 group ->
  (forall body, cached = Some body -> exists f max, e_download e f max = DlBody body) ->
  session_inv w -> session_inv (process_session e w sid0 cached group).
Proof.
  intros He Hg Hc Hw. unfold process_session. destruct (sessions w !! sid0) as [h|] eqn:Es; [|done].
  destruct (process_group _ _ _ _ _ _) as [b del] eqn:Eg. intros h'. cbn. rewrite lookup_insert_eq.
  intros [= <-] HK. cbn in *. destruct (Hw h Es HK) as [k Hk].
  edestruct (process_group_received (E := relay_endpoint) sid0 log Hlog (e_download e) (e_finish e) (h_keys h) cached group
    (mkInbox (E := relay_endpoint) (h_replay h) (h_inbound_tx h) false) k) as (k' & _ & Hk'); [done| | |done|].
  - intros f max body. rewrite HK. apply He.
  - intros body Hb. rewrite HK. destruct (Hc body Hb) as (f & max & ?). by eapply He.
  - rewrite Eg in Hk'. eauto.
Qed.

Lemma group_inv e w group :
  authentic_env e -> group_ok sid0 group -> session_inv w ->
  session_inv (fst (process_frame_group relay_secret e w group)).
Proof.
  intros He Hg Hw. unfold process_frame_group. destruct group as [|[file parsed] group]; [done|].
  assert (fsid parsed = sid0) as Hs by (by inversion_clear Hg as [|? ? [? _]]).
  assert (forall w1, session_inv w1 -> session_inv (race_reaper e w1 sid0)) as Hrace.
  { intros w1 Hw1. unfold race_reaper. destruct (e_reaped e sid0); [|done]. intros h. cbn. by rewrite lookup_delete_eq. }
  unfold ensure_session. destruct (sessions w !! fsid parsed) as [h|] eqn:Es.
  - cbn. rewrite Hs. apply process_session_inv; auto. done.
  - destruct (negb _); [done|].
    pose proof (bootstrap_inv e w file parsed Hw) as Hb. pose proof (bootstrap_body e w file parsed) as Hbody.
    destruct (try_bootstrap_session_from_c2r_0 _ _ _ _ _) as [w1 [[body|]|?|]]; cbn in *; auto.
    rewrite Hs. apply process_session_inv; auto. intros b [= <-]. eauto.
Qed.

Lemma c2r_entry_ok f en :
  c2r_entry f = Some en -> fst en = f /\ parse_filename (name f) = Some (snd en)
    /\ fkind (snd en) = KFrame ClientToRelay /\ is_u64 (fseq (snd en)).
Proof.
  unfold c2r_entry. destruct (parse_filename (name f)) as [p|] eqn:Ep; [|done].
  case_bool_decide; [|done]. intros [= <-]. cbn. split_and!; auto. by apply parse_filename_ok in Ep as (_ & ? & _).
Qed.

(** The files of [sid0] in a listing, in the order its worker sees them. *)
Definition my_group (files : list DriveFile) : list Entry :=
  filter (of_sid sid0) (sort_by sid_seq_le (omap c2r_entry files)).

Lemma elem_of_my_group files en :
  en ∈ my_group files <-> fst en ∈ files /\ c2r_entry (fst en) = Some en /\ fsid (snd en) = sid0.
Proof.
  unfold my_group. rewrite list_elem_of_filter, elem_of_sort_by, list_elem_of_omap. split.
  - intros (Hs & f & Hf & He). destruct (c2r_entry_ok f en He) as (<- & _). auto.
  - intros (Hf & He & Hs). eauto.
Qed.

Lemma my_group_ok files : group_ok sid0 (my_group files).
Proof.
  apply Forall_forall. intros en (_ & He & Hs)%elem_of_my_group.
  by destruct (c2r_entry_ok _ _ He) as (_ & _ & _ & Hq).
Qed.

Lemma cycle_inv e w cursor :
  authentic_env e -> session_inv w -> session_inv (fst (fst (run_one_cycle relay_secret e w cursor))).
Proof.
  intros He Hw. unfold run_one_cycle. destruct (e_token e) as [tok|]; [|done].
  set (files := default [] (e_list e cursor)).
  set (l := sort_by sid_seq_le (omap c2r_entry files)).
  destruct (listing_groups l) as [Hh Hnd].
  assert (session_inv (run_workers relay_secret e w (map_to_list (frames_by_sid l)))) as H; [|by destruct l].
  destruct (frames_by_sid l !! sid0) as [g|] eqn:Eg.
  - assert (Hin := Eg). rewrite <- elem_of_map_to_list in Hin.
    assert (g = my_group files) as ->.
    { destruct (frames_by_sid_head l sid0 g Hin) as (? & ? & ? & _ & _ & ->). done. }
    destruct (run_workers_at relay_secret e _ w sid0 _ Hh Hnd Hin) as [Hs _].
    pose proof (group_inv e w (my_group files) He (my_group_ok files) Hw) as Hi.
    unfold session_inv in *. by rewrite Hs.
  - unfold session_inv. rewrite run_workers_other; auto.
    intros (x & Hx & Hin)%list_elem_of_fmap. destruct x as [s g]. cbn in Hx. subst s.
    apply elem_of_map_to_list in Hin. congruence.
Qed.

(** *** Progress *)
Context {L : CryptoLaws P} (hello : HelloBody) (Hhello : hello_ok hello).

(** The body the client uploads for its [i]-th batch. *)
Definition c2r_body (i : nat) (fs : list WireFrame) : bytes :=
  (if bool_decide (i = 0%nat) then HelloBody_encode hello else [])
  ++ AeadCipher_seal (k_c2r K) sid0 (Z.of_nat (offset log i)) (Batch_encode (mkBatch fs)).

(** The listing shows every batch from [c] on, and the files can be fetched. *)
Record folder_complete (e : RelayEnv) (files : list DriveFile) (c : nat) : Prop := {
  fc_holds f p : f ∈ files -> c2r_entry f = Some (f, p) -> fsid p = sid0 ->
    Z.of_nat (offset log c) <= fseq p ->
    exists i fs, log !! i = Some fs /\ fseq p = Z.of_nat (offset log i)
      /\ match size f with
         | Some n => n = len (c2r_body i fs) /\ n <= max_total (fseq p)
         | None => True
         end
      /\ e_download e (id f) (max_total (fseq p)) = DlBody (c2r_body i fs);
  fc_visible i : (c <= i < length log)%nat ->
    exists f, f ∈ files /\ name f = DriveFilename_format
                              (mkName (KFrame ClientToRelay) sid0 (Z.of_nat (offset log i)))
}.

Lemma length_hello : len (HelloBody_encode hello) = HELLO_BODY_LEN.
Proof.
  destruct Hhello as (Hp & Hc & Hs & _). unfold HelloBody_encode. rewrite !len_app. unfold len.
  by rewrite Hp, Hc, Hs.
Qed.

Lemma c2r_body_prefix i fs :
  log !! i = Some fs ->
  prefix_len (Z.of_nat (offset log i))
    = len (if bool_decide (i = 0%nat) then HelloBody_encode hello else []).
Proof.
  intros Hi. cbn. case_bool_decide as H.
  - subst i. by rewrite length_hello.
  - apply lookup_lt_Some in Hi. pose proof (offset_lt sid0 log Hlog 0 i ltac:(lia)).
    destruct (Z.eqb_spec (Z.of_nat (offset log i)) 0); [lia|done].
Qed.

Lemma c2r_body_sealed i fs : log !! i = Some fs -> sealed_body sid0 log (k_c2r K) i fs (c2r_body i fs).
Proof.
  intros Hi. unfold sealed_body. rewrite (c2r_body_prefix i fs Hi). unfold c2r_body. split.
  - rewrite len_app. pose proof (len_nonneg (AeadCipher_seal (k_c2r K) sid0 (Z.of_nat (offset log i))
      (Batch_encode {| frames := fs |}))). lia.
  - unfold len. rewrite Nat2Z.id, drop_app_length. apply AeadCipher_open_seal.
Qed.

Context (Hsid : sid_ok sid0).

Lemma folder_group e files c :
  folder_complete e files c -> complete_group sid0 log (e_download e) (k_c2r K) c (my_group files).
Proof.
  intros [Hh Hv]. split.
  - apply my_group_ok.
  - apply Forall_forall. intros en (_ & He & _)%elem_of_my_group. by apply c2r_entry_ok in He as (_ & _ & ? & _).
  - apply sorted_group.
  - intros [f p] (Hf & He & Hs)%elem_of_my_group Hq. cbn in *.
    destruct (Hh f p Hf He Hs Hq) as (i & fs & Hi & Hqi & Hsz & Hdl).
    exists i, fs, (c2r_body i fs). split_and!; auto; [|by apply c2r_body_sealed]. cbn.
    by destruct (size f) as [n|]; [destruct Hsz|].
  - intros i Hi. destruct (Hv i Hi) as (f & Hf & Hn).
    destruct (lookup_lt_is_Some_2 log i) as [fs Hfs]; [lia|].
    assert (name_ok (mkName (KFrame ClientToRelay) sid0 (Z.of_nat (offset log i)))) as Hok.
    { split_and!; cbn; [done| |done]. pose proof (log_batch_nonempty sid0 log Hlog _ _ Hfs).
      destruct (lookup_lt_is_Some_2 fs 0) as [g Hg]; [lia|]. pose proof (log_lookup log i fs 0 g Hfs Hg) as HF.
      rewrite Nat.add_0_r in HF. apply (log_frame_u64 sid0 log Hlog) in HF. unfold is_u64. lia. }
    exists (f, mkName (KFrame ClientToRelay) sid0 (Z.of_nat (offset log i))). split; [|done].
    apply elem_of_my_group. cbn. split_and!; auto. unfold c2r_entry. rewrite Hn, parse_format by done. done.
Qed.

(** A session at batch boundary [c] whose driver listens ends up with the whole stream. *)
Lemma process_session_complete e w files c h cached :
  deliverable log -> (c <= length log)%nat -> folder_complete e files c ->
  sessions w !! sid0 = Some h -> h_keys h = K ->
  received log (offset log c) (h_replay h) (h_inbound_tx h) -> closes_at (h_inbound_tx h) = None ->
  (forall body, cached = Some body -> exists fs, log !! 0%nat = Some fs /\ body = c2r_body 0 fs) ->
  let w' := process_session e w sid0 cached (my_group files) in
  (exists h', sessions w' !! sid0 = Some h' /\ h_keys h' = K
     /\ received log (length (concat log)) (h_replay h') (h_inbound_tx h'))
  /\ forall en, en ∈ my_group files -> id (fst en) ∈ deleted w'.
Proof.
  intros Hd Hc Hf Hs HK Hr Ho Hca. unfold process_session. rewrite Hs.
  pose proof (process_group_complete (E := relay_endpoint) sid0 log Hlog (e_download e) (e_finish e) (h_keys h) cached
    (my_group files) (mkInbox (E := relay_endpoint) (h_replay h) (h_inbound_tx h) false) c Hd Hc Hr Ho) as Hp.
  cbn [in_key relay_endpoint] in Hp. rewrite HK in Hp. specialize (Hp (folder_group e files c Hf)).
  rewrite HK. destruct (process_group _ _ _ _ _ _) as [b del]. destruct Hp as (Hr' & _ & Hdel).
  { intros body (fs & Hfs & ->)%Hca. exists fs. split; [done|]. by apply c2r_body_sealed. }
  cbn. split; [|intros en Hen; apply elem_of_union_l, elem_of_list_to_set; auto].
  rewrite lookup_insert_eq. eexists. split_and!; [done|done|exact Hr'].
Qed.

Lemma my_group_head e files c :
  folder_complete e files c -> (c < length log)%nat -> my_group files <> [].
Proof.
  intros Hf Hc. destruct (cg_cover _ _ _ _ _ _ (folder_group e files c Hf) c) as (en & Hen & _); [lia|].
  intros Hn. rewrite Hn in Hen. by apply not_elem_of_nil in Hen.
Qed.

Lemma my_group_first e files file parsed rest :
  folder_complete e files 0 -> (0 < length log)%nat -> my_group files = (file, parsed) :: rest ->
  file ∈ files /\ c2r_entry file = Some (file, parsed) /\ fsid parsed = sid0 /\ fseq parsed = 0.
Proof.
  intros Hf Hl Hg. assert ((file, parsed) ∈ my_group files) as Hin by (rewrite Hg; left).
  pose proof (folder_group e files 0 Hf) as Hcg.
  apply elem_of_my_group in Hin as (Hin & He & Hs). cbn in *. split_and!; auto.
  destruct (c2r_entry_ok _ _ He) as (_ & _ & _ & Hq). cbn in Hq. unfold is_u64 in Hq.
  destruct (cg_cover _ _ _ _ _ _ Hcg 0) as (en & Hen & Hq0); [lia|]. change (offset log 0) with 0%nat in Hq0.
  pose proof (cg_sorted _ _ _ _ _ _ Hcg) as Hsort. rewrite Hg in Hsort, Hen.
  inversion_clear Hsort as [|? ? _ Hle]. apply elem_of_cons in Hen as [->|Hen]; [done|].
  eapply Forall_forall in Hle; [|exact Hen]. cbn in Hle. lia.
Qed.

(** The bootstrap from the client's first file registers the client's own keys. *)
Lemma ensure_session_cold e w files file parsed rest esk ck :
  client_initiate (x25519_public relay_secret) sid0 esk ck = Ok (K, hello) ->
  folder_complete e files 0 -> (0 < length log)%nat -> my_group files = (file, parsed) :: rest ->
  sessions w !! sid0 = None ->
  exists fs, log !! 0%nat = Some fs /\
    ensure_session relay_secret e w file parsed
    = inl (mkWorld (<[sid0 := mkHandle K ReplayWindow_new (mkChan [] (e_driver_stops e sid0)) (e_instant e) false]>
                      (sessions w)) (deleted w), Some (c2r_body 0 fs)).
Proof.
  intros Hci Hf Hl Hg Hs. destruct (my_group_first e files file parsed rest Hf Hl Hg) as (Hin & He & Hsp & Hq).
  destruct (fc_holds _ _ _ Hf file parsed Hin He Hsp) as (i & fs & Hi & Hqi & Hsz & Hdl); [rewrite Hq; done|].
  assert (i = 0%nat) as ->.
  { apply (offset_inj sid0 log Hlog); [apply lookup_lt_Some in Hi; lia|lia|]. change (offset log 0) with 0%nat. lia. }
  exists fs. split; [done|]. unfold ensure_session. rewrite Hsp, Hs, Hq. cbn [negb Z.eqb].
  unfold try_bootstrap_session_from_c2r_0. rewrite Hq in Hsz, Hdl.
  change (saturating_add_u64 MAX_SEALED_FRAME_BODY_BYTES HELLO_BODY_LEN) with (max_total 0).
  assert (HELLO_BODY_LEN <= len (c2r_body 0 fs)) as Hlen.
  { destruct (c2r_body_sealed 0 fs Hi) as [H _]. exact H. }
  assert (match size file with Some size => (size <? HELLO_BODY_LEN) || (max_total 0 <? size) | None => false end
    = false) as ->.
  { destruct (size file) as [n|]; [|done]. destruct Hsz as [-> Hn]. apply orb_false_iff.
    split; apply Z.ltb_ge; assumption. }
  rewrite Hdl. rewrite (proj2 (Z.ltb_ge _ _) Hlen).
  assert (take (Z.to_nat HELLO_BODY_LEN) (c2r_body 0 fs) = HelloBody_encode hello) as ->.
  { rewrite <- length_hello. unfold len. rewrite Nat2Z.id. unfold c2r_body. by rewrite take_app_length. }
  rewrite (HelloBody_decode_encode _ Hhello), Hsp, (relay_accept_client _ _ _ _ _ _ Hci).
  unfold spawn_session. replace (keys_sid K) with sid0.
  - by rewrite Hs.
  - unfold client_initiate, ensure_contributory in Hci. destruct (was_contributory _); cbn in Hci; [|done].
    injection Hci as HK _. by rewrite <- HK.
Qed.

(** The group of [sid0] is one of the workers of the cycle. *)
Lemma cycle_at e w cursor files tok :
  e_token e = Some tok -> e_list e cursor = Some files -> my_group files <> [] ->
  let '(w', _, found) := run_one_cycle relay_secret e w cursor in
  found = true
  /\ sessions w' !! sid0 = sessions (fst (process_frame_group relay_secret e w (my_group files))) !! sid0
  /\ deleted (fst (process_frame_group relay_secret e w (my_group files))) ⊆ deleted w'.
Proof.
  intros Ht Hl Hg. unfold run_one_cycle. rewrite Ht, Hl. change (default [] (Some files)) with files.
  set (l := sort_by sid_seq_le (omap c2r_entry files)).
  destruct (listing_groups l) as [Hh Hnd].
  assert (frames_by_sid l !! sid0 = Some (my_group files)) as Hin.
  { rewrite frames_by_sid_lookup. change (filter (of_sid sid0) l) with (my_group files).
    by destruct (my_group files). }
  rewrite <- elem_of_map_to_list in Hin.
  destruct (run_workers_at relay_secret e _ w sid0 _ Hh Hnd Hin) as [Hs Hd].
  assert (l <> []) as Hne by (intros El; apply Hg; unfold my_group; fold l; by rewrite El).
  clearbody l. destruct l as [|x l0]; [done|]. exact (conj eq_refl (conj Hs Hd)).
Qed.
End OneSession.

(** One cycle of a cold start: bootstrap, ordered delivery, deletion. *)
Lemma cold_start_cycle {P : CryptoPrims} {L : CryptoLaws P} {T : TimeFormat}
    secret sid0 esk ck K hello log e w cursor files tok :
  client_initiate (x25519_public secret) sid0 esk ck = Ok (K, hello) ->
  sid_ok sid0 -> length ck = 16%nat ->
  log_ok sid0 log -> (0 < length log)%nat -> deliverable log ->
  sessions w !! sid0 = None ->
  e_token e = Some tok -> e_list e cursor = Some files ->
  e_reaped e sid0 = false -> e_driver_stops e sid0 = None ->
  folder_complete sid0 log K hello e files 0 ->
  let '(w', _, found) := run_one_cycle secret e w cursor in
  found = true
  /\ (exists h, sessions w' !! sid0 = Some h /\ h_keys h = K
        /\ received log (length (concat log)) (h_replay h) (h_inbound_tx h))
  /\ forall en, en ∈ my_group sid0 files -> id (fst en) ∈ deleted w'.
Proof.
  intros Hci Hsid Hck Hlog Hl Hd Hs Ht Hli Hre Hst Hf.
  pose proof (client_initiate_hello_ok _ _ _ _ _ _ Hsid Hck Hci) as Hh.
  pose proof (my_group_head sid0 log K Hlog hello Hh Hsid e files 0 Hf Hl) as Hne.
  pose proof (cycle_at secret sid0 e w cursor files tok Ht Hli Hne) as Hc.
  destruct (run_one_cycle secret e w cursor) as [[w' cur'] found]. destruct Hc as (-> & Hsess & Hdel).
  destruct (my_group sid0 files) as [|[file parsed] rest] eqn:Eg; [done|].
  destruct (my_group_first sid0 log K Hlog hello Hh Hsid e files file parsed rest Hf Hl Eg) as (_ & _ & Hsp & _).
  destruct (ensure_session_cold secret sid0 log K Hlog hello Hh Hsid e w files file parsed rest esk ck
    Hci Hf Hl Eg Hs) as (fs & Hfs & He).
  cbn [process_frame_group] in *. rewrite He, Hsp in *. unfold race_reaper in *. rewrite Hre in *.
  rewrite <- Eg in *.
  set (h0 := mkHandle K _ _ _ _) in Hsess, Hdel. set (w1 := mkWorld _ _) in Hsess, Hdel.
  destruct (process_session_complete sid0 log K Hlog hello Hh Hsid e w1 files 0 h0
    (Some (c2r_body sid0 log K hello 0 fs))) as [Hx Hy];
    [done|lia|done|apply lookup_insert_eq|done|apply received_new|done| |].
  { intros body [= <-]. eauto. }
  rewrite Hsess.
  split; [done|]. split; [exact Hx|]. intros en Hen. apply Hdel, Hy, Hen.
Qed.

Lemma cold_start_session {P : CryptoPrims} {L : CryptoLaws P} {T : TimeFormat}
    secret sid0 esk ck K hello log e w cursor files tok :
  client_initiate (x25519_public secret) sid0 esk ck = Ok (K, hello) ->
  sid_ok sid0 -> length ck = 16%nat ->
  log_ok sid0 log -> (0 < length log)%nat -> deliverable log ->
  sessions w !! sid0 = None ->
  e_token e = Some tok -> e_list e cursor = Some files ->
  e_reaped e sid0 = false -> e_driver_stops e sid0 = None ->
  folder_complete sid0 log K hello e files 0 ->
  exists h, sessions (fst (fst (run_one_cycle secret e w cursor))) !! sid0 = Some h
    /\ received log (length (concat log)) (h_replay h) (h_inbound_tx h).
Proof.
  intros. pose proof (cold_start_cycle secret sid0 esk ck K hello log e w cursor files tok) as H'.
  destruct (run_one_cycle secret e w cursor) as [[w' cur'] found].
  destruct H' as (_ & (h & ? & _ & ?) & _); auto. eauto.
Qed.

(** ** Properties *)

(** The workers of a cycle run concurrently, in no particular order; since
    each touches only its own session, every order of the groups leaves the same
    session table and issues the same deletes. *)
Theorem relay_workers_commute {P : CryptoPrims} secret e w l groups :
  Permutation (map_to_list (frames_by_sid l)) groups ->
  run_workers secret e w groups = run_workers secret e w (map_to_list (frames_by_sid l)).
Proof.
  intros Hp. destruct (listing_groups l) as [Hh Hnd]. symmetry. by apply run_workers_perm.
Qed.

(** Claim C5: cold start.  The client's keys, its Hello and its sealed batches are in
    the folder, the relay knows no session of that id and its driver listens; then one
    poll cycle registers the session under the client's own keys, hands the driver
    every frame in order and asks for the deletion of every file of the session. *)
Theorem relay_cold_start {P : CryptoPrims} {L : CryptoLaws P} {T : TimeFormat}
    secret sid0 esk ck K hello log e w cursor files tok :
  client_initiate (x25519_public secret) sid0 esk ck = Ok (K, hello) ->
  sid_ok sid0 -> length ck = 16%nat ->
  log_ok sid0 log -> (0 < length log)%nat -> deliverable log ->
  sessions w !! sid0 = None ->
  e_token e = Some tok -> e_list e cursor = Some files ->
  e_reaped e sid0 = false -> e_driver_stops e sid0 = None ->
  folder_complete sid0 log K hello e files 0 ->
  let '(w', _, found) := run_one_cycle secret e w cursor in
  found = true
  /\ (exists h, sessions w' !! sid0 = Some h /\ h_keys h = K
        /\ received log (length (concat log)) (h_replay h) (h_inbound_tx h))
  /\ forall en, en ∈ my_group sid0 files -> id (fst en) ∈ deleted w'.
Proof. exact (cold_start_cycle secret sid0 esk ck K hello log e w cursor files tok). Qed.

(** Claim C6: in-order delivery, one cycle.  A session whose driver has received the
    first [c] batches, and whose remaining batches are all visible (in any listing
    order, among stale copies and other sessions' files), receives the rest of the
    stream in one cycle, and every file of the session is deleted. *)
Theorem relay_cycle_delivers {P : CryptoPrims} {L : CryptoLaws P} {T : TimeFormat}
    secret sid0 K hello log e w cursor files tok c h :
  hello_ok hello -> sid_ok sid0 -> log_ok sid0 log -> (c < length log)%nat -> deliverable log ->
  sessions w !! sid0 = Some h -> h_keys h = K ->
  received log (offset log c) (h_replay h) (h_inbound_tx h) -> closes_at (h_inbound_tx h) = None ->
  e_token e = Some tok -> e_list e cursor = Some files -> e_reaped e sid0 = false ->
  folder_complete sid0 log K hello e files c ->
  let '(w', _, found) := run_one_cycle secret e w cursor in
  found = true
  /\ (exists h', sessions w' !! sid0 = Some h' /\ h_keys h' = K
        /\ received log (length (concat log)) (h_replay h') (h_inbound_tx h'))
  /\ forall en, en ∈ my_group sid0 files -> id (fst en) ∈ deleted w'.
Proof.
  intros Hh Hsid Hlog Hc Hd Hs HK Hr Ho Ht Hli Hre Hf.
  pose proof (my_group_head sid0 log K Hlog hello Hh Hsid e files c Hf Hc) as Hne.
  pose proof (cycle_at secret sid0 e w cursor files tok Ht Hli Hne) as Hcy.
  destruct (run_one_cycle secret e w cursor) as [[w' cur'] found]. destruct Hcy as (-> & Hsess & Hdel).
  destruct (my_group sid0 files) as [|[file parsed] rest] eqn:Eg; [done|].
  assert (fsid parsed = sid0) as Hsp.
  { assert ((file, parsed) ∈ my_group sid0 files) as Hin by (rewrite Eg; left).
    by apply elem_of_my_group in Hin as (_ & _ & ?). }
  cbn [process_frame_group] in *. unfold ensure_session in *. rewrite Hsp, Hs in *.
  unfold race_reaper in *. rewrite Hre in *. rewrite <- Eg in *.
  destruct (process_session_complete sid0 log K Hlog hello Hh Hsid e w files c h None) as [Hx Hy];
    [done|lia|done..|].
  rewrite Hsess. split; [done|]. split; [exact Hx|]. intros en Hen. apply Hdel, Hy, Hen.
Qed.

(** *** A concrete folder: two batches, listed in the wrong order, one of them twice *)
Definition sample_f0 : WireFrame := mkFrame WIRE_VERSION Connect sample_sid 0 (lit "example.org:443").
Definition sample_f1 : WireFrame := mkFrame WIRE_VERSION Data sample_sid 1 [104; 105].
Definition sample_f2 : WireFrame := mkFrame WIRE_VERSION Data sample_sid 2 [33].
Definition sample_log : list (list WireFrame) := [[sample_f0; sample_f1]; [sample_f2]].

Definition sample_body (i : nat) : bytes :=
  c2r_body sample_sid sample_log sample_keys sample_hello i (default [] (sample_log !! i)).
Definition sample_name (q : Z) : str :=
  DriveFilename_format (mkName (KFrame ClientToRelay) sample_sid q).
Definition sample_files : list DriveFile :=
  [mkFile [50] (sample_name 2) (Some 5) None;
   mkFile [51] (sample_name 2) (Some 6) (Some (len (sample_body 1)));
   mkFile [48] (sample_name 0) (Some 4) (Some (len (sample_body 0)))].

Definition sample_env : RelayEnv := {|
  e_token := Some [];
  e_now_utc := 9000000000;
  e_list _ := Some sample_files;
  e_download f _ := if bool_decide (f = [48]) then DlBody (sample_body 0)
                    else if bool_decide (f = [50] \/ f = [51]) then DlBody (sample_body 1) else DlFailed;
  e_finish f := - hd 0 f;
  e_instant := 1;
  e_driver_stops _ := None;
  e_reaped _ := false
|}.

Lemma sample_log_ok : log_ok sample_sid sample_log.
Proof.
  split.
  - repeat constructor; cbn; try lia; try apply sample_sid_ok; try (unfold is_u64; lia);
      try (repeat constructor; unfold is_u8; lia); vm_compute; discriminate.
  - intros [|[|[|i]]] f; cbn; intros; simplify_eq; done.
Qed.

Lemma sample_deliverable : deliverable sample_log.
Proof. repeat constructor; vm_compute; eauto. Qed.

Lemma sample_folder c : folder_complete sample_sid sample_log sample_keys sample_hello sample_env sample_files c.
Proof.
  split.
  - intros f p Hf He _ _. repeat (apply elem_of_cons in Hf as [->|Hf]); [| | |by apply not_elem_of_nil in Hf];
      vm_compute in He; injection He as <-.
    + exists 1%nat, [sample_f2]. split_and!; reflexivity.
    + exists 1%nat, [sample_f2]. split_and!; [reflexivity..| |reflexivity]. split; [reflexivity|vm_compute; discriminate].
    + exists 0%nat, [sample_f0; sample_f1]. split_and!; [reflexivity..| |reflexivity]. split; [reflexivity|vm_compute; discriminate].
  - intros [|[|i]] Hi; [exists (mkFile [48] (sample_name 0) (Some 4) (Some (len (sample_body 0))))
      |exists (mkFile [50] (sample_name 2) (Some 5) None)|cbn in Hi; lia];
      (split; [unfold sample_files; set_solver|vm_compute; reflexivity]).
Qed.

Lemma sample_initiate :
  client_initiate (x25519_public sample_secret) sample_sid sample_esk sample_cookie
    = Ok (sample_keys, sample_hello).
Proof. vm_compute. reflexivity. Qed.

Lemma sample_hello_ok : hello_ok sample_hello.
Proof.
  apply (client_initiate_hello_ok sample_secret sample_sid sample_esk sample_cookie sample_keys);
    [apply sample_sid_ok|done|apply sample_initiate].
Qed.

Lemma relay_cold_start_witness :
  let '(w', _, found) := run_one_cycle sample_secret sample_env (mkWorld ∅ ∅) None in
  found = true /\
  exists h, sessions w' !! sample_sid = Some h /\ h_keys h = sample_keys
    /\ received sample_log 3 (h_replay h) (h_inbound_tx h).
Proof.
  pose proof (relay_cold_start sample_secret sample_sid sample_esk sample_cookie sample_keys sample_hello sample_log
    sample_env (mkWorld ∅ ∅) None sample_files [] sample_initiate sample_sid_ok eq_refl
    sample_log_ok ltac:(cbn; lia) sample_deliverable eq_refl eq_refl eq_refl eq_refl eq_refl (sample_folder 0)) as H.
  destruct (run_one_cycle _ _ _ _) as [[w' cur] found]. destruct H as (Hf & Hh & _). split; [exact Hf|exact Hh].
Defined.

Definition sample_handle : SessionHandle :=
  mkHandle sample_keys (mkWindow (Some 1))
    (mkChan [InConnect (lit "example.org") 443; InData [104; 105]] None) 0 false.

Lemma sample_received : received sample_log 2 (h_replay sample_handle) (h_inbound_tx sample_handle).
Proof. split; [split; [done|cbn; lia]|repeat constructor|cbn; lia]. Qed.

Lemma relay_cycle_delivers_witness :
  let '(w', _, found) :=
    run_one_cycle sample_secret sample_env (mkWorld {[sample_sid := sample_handle]} ∅) None in
  found = true /\
  exists h, sessions w' !! sample_sid = Some h /\ h_keys h = sample_keys
    /\ received sample_log 3 (h_replay h) (h_inbound_tx h).
Proof.
  pose proof (relay_cycle_delivers sample_secret sample_sid sample_keys sample_hello sample_log
    sample_env (mkWorld {[sample_sid := sample_handle]} ∅) None sample_files [] 1 sample_handle
    sample_hello_ok sample_sid_ok
    sample_log_ok ltac:(cbn; lia) sample_deliverable (lookup_singleton_eq _ _) eq_refl sample_received
    eq_refl eq_refl eq_refl eq_refl (sample_folder 1)) as H.
  destruct (run_one_cycle _ _ _ _) as [[w' cur] found]. destruct H as (Hf & Hh & _). split; [exact Hf|exact Hh].
Defined.

Definition other_sid : SessionId := replicate 16 0x0c.
Definition two_sessions : list Entry :=
  (fun s => (mkFile s (sample_name 0) None None, mkName (KFrame ClientToRelay) s 0)) <$> [sample_sid; other_sid].

Lemma relay_workers_commute_witness :
  let groups := map_to_list (frames_by_sid two_sessions) in
  length groups = 2%nat /\
  run_workers sample_secret sample_env (mkWorld ∅ ∅) (reverse groups)
    = run_workers sample_secret sample_env (mkWorld ∅ ∅) groups.
Proof.
  split; [vm_compute; reflexivity|]. apply (relay_workers_commute sample_secret sample_env (mkWorld ∅ ∅) two_sessions).
  symmetry. apply reverse_Permutation.
Defined.

(** A failed listing moves the relay's cursor.  When [files.list] fails, the
    cycle still advances the [modifiedTime] cursor to 8 s before the call, as if an empty
    listing had been seen; a file modified before that which no listing has shown yet is
    outside every later query, so an outage longer than the lookback strands the files
    uploaded at its start. *)
Theorem relay_failed_listing_skips {P : CryptoPrims} {T : TimeFormat} {TL : TimeFormatLaws T}
    secret e w cursor f t tok :
  e_token e = Some tok -> e_list e cursor = None ->
  is_Some (format_rfc3339 (e_now_utc e - 8 * NANOS_PER_SEC)) ->
  modified_time f = Some t -> t < e_now_utc e - 8 * NANOS_PER_SEC ->
  let '(w', cursor', found) := run_one_cycle secret e w cursor in
  w' = w /\ found = false /\ visible_since cursor' f = false
  /\ forall files now, visible_since (advance_modified_cursor files cursor' now) f = false.
Proof.
  intros Ht Hl [s Hs] Hf Hlt. unfold run_one_cycle. rewrite Ht, Hl. cbn [from_option omap list_omap sort_by].
  assert (visible_since (advance_modified_cursor [] cursor (e_now_utc e)) f = false) as Hv.
  { unfold visible_since, advance_modified_cursor. cbn [omap list_omap max_opt fold_left].
    change MODIFIED_CURSOR_LOOKBACK_SECS with 8. rewrite Hf, Hs.
    destruct (cursor ≫= parse_rfc3339) as [c|] eqn:Ec; [destruct (Z.leb_spec (e_now_utc e - 8 * NANOS_PER_SEC) c)|].
    - rewrite Ec. lia.
    - cbn. rewrite (parse_format_rfc3339 _ _ Hs). lia.
    - cbn. rewrite (parse_format_rfc3339 _ _ Hs). lia. }
  split_and!; [done..|exact Hv|]. intros files now. by apply invisible_stays.
Qed.

Definition outage_env : RelayEnv :=
  mkEnv (Some []) 20000000000 (fun _ => None) (fun _ _ => DlFailed) (fun _ => 0) 0 (fun _ => None) (fun _ => false).

Lemma relay_failed_listing_skips_witness :
  visible_since (snd (fst (run_one_cycle sample_secret outage_env (mkWorld ∅ ∅) (Some [1000000000]))))
    (mkFile [1] (sample_name 0) (Some 11000000000) None) = false.
Proof.
  pose proof (relay_failed_listing_skips sample_secret outage_env (mkWorld ∅ ∅) (Some [1000000000])
    (mkFile [1] (sample_name 0) (Some 11000000000) None) 11000000000 [] eq_refl eq_refl
    ltac:(eexists; reflexivity) eq_refl ltac:(vm_compute; reflexivity)) as H.
  destruct (run_one_cycle _ _ _ _) as [[w' c'] found]. exact (proj1 (proj2 (proj2 H))).
Defined.
