(* ===== verification/OrphanGc.v ===== *)
(** * drive-relay/src/orphan_gc.rs: the orphan reaper, and the relay as a whole

    One sweep of the reaper, then the relay's shared state as a transition system in
    which poll cycles, sweeps and the drivers' own activity interleave freely. *)

From stdpp Require Import prelude gmap.
From S2P Require Import Prelude RustStr ListSort Frame Filename Crypto RelayState Mailbox RelayPoll.
#[local] Open Scope Z_scope.

Definition REAPER_INTERVAL_SECS : Z := 120.
Definition STALE_FILE_MULTIPLIER : Z := 5.

Definition is_protocol_file_for_prefix (name prefix : str) : bool :=
  match parse_filename name with
  | None => false
  | Some parsed =>
    match fkind parsed with
    | KHello => bool_decide (prefix = PREFIX_HELLO)
    | KFrame ClientToRelay => bool_decide (prefix = PREFIX_C2R)
    | KFrame RelayToClient => bool_decide (prefix = PREFIX_R2C)
    end
  end.

(** Ages in nanoseconds; a modification time in the future is not an age. *)
Definition is_stale (file : DriveFile) (now stale_threshold : Z) : bool :=
  match modified_time file with
  | None => false
  | Some mtime => (0 <=? now - mtime) && (stale_threshold <? now - mtime)
  end.

Record SweepEnv := mkSweep {
  s_token : option str;
  s_now_utc : Z;
  s_now_i : Z;
  s_list : str -> option (list DriveFile)
}.

(** [idle_timeout_secs] is a [u32]; the product wraps in a release build. *)
Definition stale_threshold (idle_timeout_secs : Z) : Z :=
  wrap 32 (STALE_FILE_MULTIPLIER * idle_timeout_secs) * NANOS_PER_SEC.

Definition sweep_prefix (e : SweepEnv) (threshold : Z) (prefix : str) : list str :=
  match s_list e prefix with
  | None => []
  | Some files =>
    id <$> filter (fun f => is_protocol_file_for_prefix (name f) prefix = true
                            /\ is_stale f (s_now_utc e) threshold = true) files
  end.

(** The test the table sweep applies to a handle. *)
Definition doomed (now_i idle_timeout_secs : Z) (h : SessionHandle) : bool :=
  task_done h || (idle_timeout_secs * NANOS_PER_SEC <? Z.max 0 (now_i - h_last_seen h)).

Definition run_one_sweep (e : SweepEnv) (idle_timeout_secs : Z) (w : World) : World * res unit unit :=
  match s_token e with
  | None => (w, Err tt)
  | Some _ =>
    let threshold := stale_threshold idle_timeout_secs in
    let swept := [PREFIX_HELLO; PREFIX_C2R; PREFIX_R2C] ≫= sweep_prefix e threshold in
    let w1 := delete_files w swept in
    let to_evict := fst <$> filter (fun p => doomed (s_now_i e) idle_timeout_secs (snd p) = true)
                              (map_to_list (sessions w1)) in
    (mkWorld (fold_left (fun m s => base.delete s m) to_evict (sessions w1)) (deleted w1), Ok tt)
  end.

(** ** What a sweep removes *)
Lemma fold_delete_lookup {A} (l : list SessionId) (m : gmap SessionId A) s :
  fold_left (fun m s => base.delete s m) l m !! s = if bool_decide (s ∈ l) then None else m !! s.
Proof.
  revert m. induction l as [|x l IH]; intros m; cbn; [by rewrite bool_decide_false by apply not_elem_of_nil|].
  rewrite IH. destruct (decide (s = x)) as [->|Hne].
  - rewrite lookup_delete_eq. rewrite (bool_decide_true (x ∈ x :: l)) by left. by destruct (bool_decide _).
  - rewrite lookup_delete_ne by done. repeat case_bool_decide; try done; set_solver.
Qed.

Lemma sweep_sessions e idle w w' s :
  run_one_sweep e idle w = (w', Ok tt) ->
  sessions w' !! s = match sessions w !! s with
                     | Some h => if doomed (s_now_i e) idle h then None else Some h
                     | None => None
                     end.
Proof.
  unfold run_one_sweep. destruct (s_token e); [|done]. intros [= <-]. cbn. rewrite fold_delete_lookup.
  case_bool_decide as H.
  - apply list_elem_of_fmap in H as ([s' h] & -> & [Hd Hin]%list_elem_of_filter). cbn in *.
    apply elem_of_map_to_list in Hin. by rewrite Hin, Hd.
  - destruct (sessions w !! s) as [h|] eqn:Es; [|done]. destruct (doomed _ _ h) eqn:Ed; [|done].
    exfalso. apply H. apply list_elem_of_fmap. exists (s, h). split; [done|]. apply list_elem_of_filter.
    split; [done|]. by apply elem_of_map_to_list.
Qed.

Lemma sweep_deleted e idle w w' :
  run_one_sweep e idle w = (w', Ok tt) ->
  deleted w' = list_to_set ([PREFIX_HELLO; PREFIX_C2R; PREFIX_R2C] ≫= sweep_prefix e (stale_threshold idle))
               ∪ deleted w.
Proof. unfold run_one_sweep. destruct (s_token e); [|done]. by intros [= <-]. Qed.

(** The reaper is exact.  A sweep asks for the deletion of a file only if a
    listing shows it under a name of the protocol's grammar for that prefix, modified
    more than five idle timeouts ago (never a foreign file, one without a timestamp or
    with one in the future), and for all of those; it evicts a session exactly when its
    driver has finished or it has been idle for longer than the timeout. *)
Theorem sweep_exact e idle w w' :
  0 <= idle -> 5 * idle < 2 ^ 32 ->
  run_one_sweep e idle w = (w', Ok tt) ->
  (forall i, i ∈ deleted w' <-> i ∈ deleted w \/
     exists prefix files f p t, s_list e prefix = Some files /\ f ∈ files /\ i = id f
       /\ parse_filename (name f) = Some p
       /\ prefix = kind_prefix (fkind p)
       /\ modified_time f = Some t /\ t < s_now_utc e - 5 * idle * 1000000000)
  /\ forall s h, sessions w' !! s = Some h <->
       sessions w !! s = Some h /\ task_done h = false
       /\ s_now_i e - h_last_seen h <= idle * 1000000000.
Proof.
  intros Hi Hi' Hsw. split.
  2:{ intros s h. rewrite (sweep_sessions _ _ _ _ s Hsw). unfold doomed, NANOS_PER_SEC.
      destruct (sessions w !! s) as [h'|]; [|naive_solver].
      destruct (task_done h') eqn:Et; [split; [done|intros (? & ? & _); congruence]|]. cbn.
      destruct (Z.ltb_spec (idle * 1000000000) (Z.max 0 (s_now_i e - h_last_seen h'))).
      - split; [done|]. intros ([= ->] & _ & ?). lia.
      - split; [intros [= ->]; split_and!; (done || lia)|]. by intros ([= ->] & _). }
  intros i. rewrite (sweep_deleted _ _ _ _ Hsw), elem_of_union, elem_of_list_to_set, list_elem_of_bind. rewrite (Logic.or_comm (exists _, _)).
  assert (stale_threshold idle = 5 * idle * 1000000000) as ->.
  { unfold stale_threshold, STALE_FILE_MULTIPLIER, NANOS_PER_SEC. rewrite wrap_small; lia. }
  apply or_iff_compat_l. split.
  - intros (prefix & Hin & Hp). unfold sweep_prefix in Hin. destruct (s_list e prefix) as [files|] eqn:El.
    2:{ by apply not_elem_of_nil in Hin. }
    apply list_elem_of_fmap in Hin as (f & -> & [[Hpr Hst] Hf]%list_elem_of_filter).
    unfold is_protocol_file_for_prefix in Hpr. destruct (parse_filename (name f)) as [p|] eqn:Ep; [|done].
    unfold is_stale in Hst. destruct (modified_time f) as [t|] eqn:Em; [|done].
    exists prefix, files, f, p, t. split_and!; auto; [|lia].
    destruct (fkind p) as [|[]]; by apply bool_decide_eq_true in Hpr.
  - intros (prefix & files & f & p & t & El & Hf & -> & Ep & Hk & Em & Ht).
    exists prefix. split.
    + unfold sweep_prefix. rewrite El. apply list_elem_of_fmap. exists f. split; [done|]. apply list_elem_of_filter.
      split_and!; [| |done]; [unfold is_protocol_file_for_prefix|unfold is_stale]; rewrite ?Ep, ?Em; [|lia].
      destruct (fkind p) as [|[]]; by apply bool_decide_eq_true.
    + rewrite Hk. destruct (fkind p) as [|[]]; cbn; set_solver.
Qed.

Definition sample_sweep : SweepEnv :=
  mkSweep (Some []) 2000000000000 500
    (fun p => if bool_decide (p = PREFIX_C2R)
              then Some [mkFile [1] (sample_name 2) (Some 0) None; mkFile [2] (sample_name 0) None None;
                         mkFile [3] (lit "notes.txt") (Some 0) None]
              else None).

Lemma sweep_exact_witness :
  let w := mkWorld {[sample_sid := sample_handle]} ∅ in
  [1] ∈ deleted (fst (run_one_sweep sample_sweep 300 w))
  /\ sessions (fst (run_one_sweep sample_sweep 300 w)) !! sample_sid = Some sample_handle.
Proof.
  destruct (sweep_exact sample_sweep 300 (mkWorld {[sample_sid := sample_handle]} ∅)
    (fst (run_one_sweep sample_sweep 300 (mkWorld {[sample_sid := sample_handle]} ∅)))) as [Hd Hs];
    [lia|lia|reflexivity|].
  split; [apply Hd; right|apply Hs; split_and!; [apply lookup_singleton_eq|reflexivity|vm_compute; discriminate]].
  eexists PREFIX_C2R, _, (mkFile [1] (sample_name 2) (Some 0) None), (mkName (KFrame ClientToRelay) sample_sid 2), 0.
  split_and!; [reflexivity|left|reflexivity|vm_compute; reflexivity..].
Defined.
