(* ===== verification/RelaySystem.v ===== *)
(** * The relay's shared state under every interleaving

    Poll cycles, reaper sweeps and the drivers' updates of their own handle, in any
    order, as a step relation over the state the poll loop carries.  What a session's
    driver has been handed is an invariant of the reachable states. *)

From stdpp Require Import prelude gmap relations.
From S2P Require Import Prelude RustStr Frame Filename Crypto RelayState Mailbox RelayPoll OrphanGc.
#[local] Open Scope Z_scope.

Definition with_world (p : Poller) (w : World) : Poller :=
  mkPoller w (po_cursor p) (po_interval_ms p) (po_empty_streak p).

(** [bump_last_seen], and the end of the task, as the reaper observes them. *)
Definition driver_update (h : SessionHandle) (now : Z) (done : bool) : SessionHandle :=
  mkHandle (h_keys h) (h_replay h) (h_inbound_tx h) now (task_done h || done).

Section System.
Context {P : CryptoPrims} {T : TimeFormat}.
Context (secret : bytes) (baseline_ms idle_timeout_secs : Z).

Inductive relay_step (env : RelayEnv -> Prop) : Poller -> Poller -> Prop :=
| step_cycle e p : env e -> relay_step env p (poll_loop_step secret baseline_ms e p)
| step_sweep e p :
    relay_step env p (with_world p (fst (run_one_sweep e idle_timeout_secs (po_world p))))
| step_driver s h now done p :
    sessions (po_world p) !! s = Some h ->
    relay_step env p (with_world p (mkWorld (<[s := driver_update h now done]> (sessions (po_world p)))
                                            (deleted (po_world p)))).

Definition reachable (env : RelayEnv -> Prop) : Poller -> Prop :=
  rtc (relay_step env) (poll_loop_start baseline_ms (mkWorld ∅ ∅)).

Context (sid0 : SessionId) (log : list (list WireFrame)) (K : SessionKeys).

Lemma sweep_inv e w :
  session_inv sid0 log K w -> session_inv sid0 log K (fst (run_one_sweep e idle_timeout_secs w)).
Proof.
  intros Hw. destruct (run_one_sweep e idle_timeout_secs w) as [w' r] eqn:Er. cbn.
  unfold run_one_sweep in Er. destruct (s_token e) eqn:Et; [|by injection Er as <- <-].
  assert (run_one_sweep e idle_timeout_secs w = (w', Ok tt)) as Hs.
  { unfold run_one_sweep. rewrite Et. by injection Er as <- <-. }
  intros h. rewrite (sweep_sessions _ _ _ _ sid0 Hs). destruct (sessions w !! sid0) as [h'|] eqn:Es; [|done].
  destruct (doomed _ _ _); [done|]. intros [= <-]. by apply Hw.
Qed.

Lemma driver_inv w s h now done :
  sessions w !! s = Some h -> session_inv sid0 log K w ->
  session_inv sid0 log K (mkWorld (<[s := driver_update h now done]> (sessions w)) (deleted w)).
Proof.
  intros Hs Hw h'. cbn. destruct (decide (s = sid0)) as [->|Hne].
  - rewrite lookup_insert_eq. intros [= <-]. cbn. by apply Hw.
  - rewrite lookup_insert_ne by done. apply Hw.
Qed.

Lemma step_inv env p p' :
  log_ok sid0 log -> (forall e, env e -> authentic_env sid0 log K e) ->
  relay_step env p p' -> session_inv sid0 log K (po_world p) -> session_inv sid0 log K (po_world p').
Proof.
  intros Hlog He [e q Hq|e q|s h now done q Hs] Hw.
  - pose proof (cycle_inv secret sid0 log K Hlog e (po_world q) (po_cursor q) (He e Hq) Hw) as H.
    unfold poll_loop_step. destruct (run_one_cycle _ _ _ _) as [[w' c'] f]. by destruct (adapt_interval _ _ _ _).
  - by apply sweep_inv.
  - by apply driver_inv.
Qed.

Lemma reachable_inv env p :
  log_ok sid0 log -> (forall e, env e -> authentic_env sid0 log K e) ->
  reachable env p -> session_inv sid0 log K (po_world p).
Proof.
  intros Hlog He Hr. apply (rtc_ind_r (fun p => session_inv sid0 log K (po_world p)) _) in Hr; [done| |].
  - by intros h.
  - intros q q' _ Hst Hq. by eapply step_inv.
Qed.
End System.

(** Claim C4: safety of the relay's receive path.  In every reachable state, whatever
    the folder showed (missing, duplicated, reordered, garbage or foreign files),
    whichever downloads failed, and however sweeps and cycles interleaved, the events a
    session's driver has been handed under the peer's keys are the dispatch of exactly
    the first [k] frames the peer sent, and its replay window stands at [k]. *)
Theorem relay_delivers_prefix {P : CryptoPrims} {T : TimeFormat}
    secret baseline idle sid0 log K env p h :
  log_ok sid0 log -> (forall e, env e -> authentic_env sid0 log K e) ->
  reachable secret baseline idle env p ->
  sessions (po_world p) !! sid0 = Some h -> h_keys h = K ->
  exists k, window_at (h_replay h) k
    /\ sent (h_inbound_tx h) = omap (to_inbound (Endpoint := relay_endpoint)) (take k (concat log))
    /\ length (sent (h_inbound_tx h)) = k.
Proof.
  intros Hlog He Hr Hs HK. destruct (reachable_inv secret baseline idle sid0 log K env p Hlog He Hr h Hs HK) as [k [Hw Hf Hb]].
  exists k. pose proof (Forall2_length _ _ _ Hf) as Hl. rewrite length_take in Hl.
  rewrite Nat.min_l in Hl by done. split; [done|]. split; [exact (Forall2_omap _ _ _ Hf)|exact (eq_sym Hl)].
Qed.

(** The sample folder is authentic: its bodies open under no other number. *)
Lemma sample_body_authentic i :
  (i < 2)%nat -> authentic sample_sid sample_log (k_c2r sample_keys) (sample_body i).
Proof.
  intros Hi q pt Hq Ho. cbn [prefix_len relay_endpoint] in Ho.
  destruct (Z.eqb_spec q 0) as [->|Hne].
  - destruct i as [|[|i]]; [|exfalso; vm_compute in Ho; discriminate|lia].
    exists 0%nat, [sample_f0; sample_f1]. vm_compute in Ho. injection Ho as <-. vm_compute. auto.
  - assert (q = Z.of_nat (offset sample_log i)) as ->.
    { unfold sample_body, c2r_body in Ho. cbn [Z.to_nat drop] in Ho. unfold AeadCipher_seal in Ho.
      cbn [aead_encrypt toy_crypto] in Ho. rewrite app_assoc in Ho. eapply toy_open_seq in Ho; auto.
      destruct i as [|[|i]]; [done|done|lia]. }
    destruct i as [|[|i]]; [destruct (Hne eq_refl)| |clear Ho; lia].
    exists 1%nat, [sample_f2]. vm_compute in Ho. injection Ho as <-. vm_compute. auto.
Qed.

Lemma sample_authentic : authentic_env sample_sid sample_log sample_keys sample_env.
Proof.
  intros f max body. unfold sample_env. cbn.
  destruct (bool_decide (f = [48])); [intros [= <-]; apply sample_body_authentic; lia|].
  destruct (bool_decide (f = [50] \/ f = [51])); [|done]. intros [= <-]. apply sample_body_authentic; lia.
Qed.

Definition sample_poller : Poller :=
  poll_loop_step sample_secret 300 sample_env (poll_loop_start 300 (mkWorld ∅ ∅)).

Lemma relay_delivers_prefix_witness :
  exists h, sessions (po_world sample_poller) !! sample_sid = Some h /\
  exists k, window_at (h_replay h) k
    /\ sent (h_inbound_tx h) = omap (to_inbound (Endpoint := relay_endpoint)) (take k (concat sample_log)).
Proof.
  set (o := sessions (po_world sample_poller) !! sample_sid).
  assert (exists h, o = Some h /\ h_keys h = sample_keys) as (h & Eo & Hk).
  { vm_compute. eexists. split; reflexivity. }
  exists h. split; [exact Eo|].
  destruct (relay_delivers_prefix sample_secret 300 300 sample_sid sample_log sample_keys (fun e => e = sample_env)
    sample_poller h sample_log_ok ltac:(intros e ->; apply sample_authentic)
    (rtc_once _ _ (step_cycle _ _ _ _ sample_env _ eq_refl)) Eo Hk) as (k & Hw & Hsent & _).
  exists k. split; [exact Hw|exact Hsent].
Defined.
