(* ===== verification/Outbox.v ===== *)
(** * The sending side of a Drive mailbox

    Both drivers (drive-relay/src/session.rs for r2c, src/drive_client.rs for c2r)
    coalesce the frames of one direction into batches: a frame is appended to
    [pending], and a flush hands [pending] to a detached upload task, either at once
    (control frame, second frame of an eager burst, size or count threshold) or when
    the coalesce timer fires.  [uploads] lists the batches handed over, in order; what
    becomes of each upload is the environment's business. *)

From stdpp Require Import prelude.
From S2P Require Import Prelude RustStr Frame Filename Crypto Mailbox.
#[local] Open Scope Z_scope.

(** Durations and instants in milliseconds. *)
Definition COALESCE_INTERACTIVE_BYTES : Z := 8 * 1024.
Definition COALESCE_INTERACTIVE_DELAY : Z := 5.
Definition COALESCE_MEDIUM_BYTES : Z := 64 * 1024.
Definition COALESCE_MEDIUM_DELAY : Z := 50.
Definition COALESCE_BULK_DELAY : Z := 100.
Definition BATCH_FLUSH_BYTES : Z := 1024 * 1024.
Definition BATCH_MAX_FRAMES : Z := 200.
Definition READ_BUFFER : Z := 16 * 1024.

Definition pick_coalesce_delay (pending_bytes : Z) : Z :=
  if pending_bytes <? COALESCE_INTERACTIVE_BYTES then COALESCE_INTERACTIVE_DELAY
  else if pending_bytes <? COALESCE_MEDIUM_BYTES then COALESCE_MEDIUM_DELAY
  else COALESCE_BULK_DELAY.

Record Outbox := mkOutbox {
  pending : list WireFrame;
  pending_bytes : Z;
  flush_deadline : option Z;
  uploads : list (list WireFrame)
}.

Definition empty_outbox : Outbox := mkOutbox [] 0 None [].

Definition flush_batch (o : Outbox) : Outbox :=
  match pending o with
  | [] => o
  | fs => mkOutbox [] 0 None (uploads o ++ [fs])
  end.

(** [eager]: whether a second pending frame flushes. *)
Definition push_frame (eager : bool) (now : Z) (o : Outbox) (f : WireFrame) (flush_now : bool) : Outbox :=
  let pb := pending_bytes o + len (payload f) in
  let ps := pending o ++ [f] in
  let should_flush := flush_now || ((2 <=? len ps) && eager)
                      || (BATCH_MAX_FRAMES <=? len ps) || (BATCH_FLUSH_BYTES <=? pb) in
  if should_flush then flush_batch (mkOutbox ps pb (flush_deadline o) (uploads o))
  else
    let deadline := now + pick_coalesce_delay pb in
    mkOutbox ps pb
      (match flush_deadline o with
       | Some existing => if existing <=? deadline then Some existing else Some deadline
       | None => Some deadline
       end)
      (uploads o).

(** Whether [push_frame] flushes: the relay clears its eager flag when it does. *)
Definition pushed_flushes (eager : bool) (o : Outbox) (f : WireFrame) (flush_now : bool) : bool :=
  flush_now || ((2 <=? len (pending o ++ [f])) && eager)
  || (BATCH_MAX_FRAMES <=? len (pending o ++ [f]))
  || (BATCH_FLUSH_BYTES <=? pending_bytes o + len (payload f)).

(** ** The stream an outbox has produced *)
Fixpoint payload_sum (fs : list WireFrame) : Z :=
  match fs with [] => 0 | f :: fs' => len (payload f) + payload_sum fs' end.

Definition stream (o : Outbox) : list WireFrame := concat (uploads o) ++ pending o.

(** A frame of session [sid0] at position [i] of the stream, from a read of at most
    one buffer (or a control frame). *)
Record numbered (sid0 : SessionId) (i : nat) (f : WireFrame) : Prop := {
  nb_version : version f = WIRE_VERSION;
  nb_sid : sid f = sid0;
  nb_seq : seq f = wrap 64 (Z.of_nat i);
  nb_bytes : bytes_ok (payload f)
}.

Definition numbered_from (sid0 : SessionId) (fs : list WireFrame) : Prop :=
  forall i f, fs !! i = Some f -> numbered sid0 i f.

(** What fits: the codec's frame count, and a sealed body under the receiver's cap. *)
Definition batch_fits (fs : list WireFrame) : Prop :=
  1 <= len fs <= BATCH_MAX_FRAMES /\ payload_sum fs <= BATCH_FLUSH_BYTES + READ_BUFFER.

Record outbox_ok (sid0 : SessionId) (o : Outbox) : Prop := {
  ob_numbered : numbered_from sid0 (stream o);
  ob_batches : Forall batch_fits (uploads o);
  ob_bytes : pending_bytes o = payload_sum (pending o);
  ob_room : pending_bytes o < BATCH_FLUSH_BYTES /\ len (pending o) < BATCH_MAX_FRAMES;
  ob_armed : pending o <> [] -> is_Some (flush_deadline o)
}.

Lemma payload_sum_app a b : payload_sum (a ++ b) = payload_sum a + payload_sum b.
Proof. induction a as [|f a IH]; cbn; [done|]. rewrite IH. lia. Qed.

Lemma payload_sum_nonneg fs : 0 <= payload_sum fs.
Proof. induction fs as [|f fs IH]; cbn; [lia|]. pose proof (len_nonneg (payload f)). lia. Qed.

Lemma payload_sum_elem fs f : f ∈ fs -> len (payload f) <= payload_sum fs.
Proof.
  induction 1 as [f fs|f g fs Hin IH]; cbn; [pose proof (payload_sum_nonneg fs); lia|].
  pose proof (len_nonneg (payload g)). lia.
Qed.

Lemma stream_flush o : stream (flush_batch o) = stream o.
Proof.
  unfold flush_batch, stream. destruct (pending o) as [|f fs] eqn:Ep; [by rewrite Ep|].
  cbn. rewrite concat_app. cbn. by rewrite !app_nil_r.
Qed.

Lemma stream_push e now o f b : stream (push_frame e now o f b) = stream o ++ [f].
Proof.
  unfold push_frame. destruct (_ || _).
  - rewrite stream_flush. unfold stream. cbn. by rewrite app_assoc.
  - unfold stream. cbn. by rewrite app_assoc.
Qed.

Lemma flush_pending o : pending (flush_batch o) = [].
Proof. unfold flush_batch. by destruct (pending o) eqn:E. Qed.

Lemma numbered_from_snoc sid0 fs f :
  numbered_from sid0 fs -> numbered sid0 (length fs) f -> numbered_from sid0 (fs ++ [f]).
Proof.
  intros Hn Hf i g [Hg|[Hle Hg]]%lookup_app_Some; [by apply Hn|].
  destruct (i - length fs)%nat as [|k] eqn:E; [|done]. injection Hg as ->.
  by replace i with (length fs) by lia.
Qed.

Lemma flush_ok sid0 o : outbox_ok sid0 o -> outbox_ok sid0 (flush_batch o).
Proof.
  intros [Hn Hb Hs Hr Ha]. split; [by rewrite stream_flush|..]; rewrite ?flush_pending; unfold flush_batch;
    destruct (pending o) as [|f fs] eqn:Ep; cbn; auto; try done.
  apply Forall_app. split; [done|]. constructor; [|done]. split.
  - rewrite len_cons. rewrite len_cons in Hr. pose proof (len_nonneg fs). lia.
  - unfold READ_BUFFER. lia.
Qed.

Lemma push_ok sid0 e now o f b :
  outbox_ok sid0 o -> numbered sid0 (length (stream o)) f -> len (payload f) <= READ_BUFFER ->
  outbox_ok sid0 (push_frame e now o f b).
Proof.
  intros [Hn Hb Hs Hr Ha] Hf Hlen.
  assert (payload_sum (pending o ++ [f]) = pending_bytes o + len (payload f)) as Hsum.
  { rewrite payload_sum_app, <- Hs. cbn. lia. }
  split.
  - rewrite stream_push. by apply numbered_from_snoc.
  - unfold push_frame. destruct (_ || _); [|done]. unfold flush_batch. cbn.
    destruct (pending o ++ [f]) as [|g gs] eqn:Ep; [by destruct (pending o)|]. rewrite <- Ep in *. cbn.
    apply Forall_app. split; [done|]. constructor; [|done]. split; [|lia].
    rewrite len_app, len_cons, len_nil. pose proof (len_nonneg (pending o)). lia.
  - unfold push_frame. destruct (_ || _); [rewrite flush_pending|done]. unfold flush_batch. cbn.
    by destruct (pending o ++ [f]) eqn:E; [destruct (pending o)|].
  - unfold push_frame. destruct (_ || _ || _ || _) eqn:E.
    + rewrite flush_pending. unfold flush_batch. cbn.
      destruct (pending o ++ [f]) eqn:E'; [by destruct (pending o)|]. split; reflexivity.
    + cbn. rewrite !orb_false_iff in E. lia.
  - unfold push_frame. destruct (_ || _); [by rewrite flush_pending|]. cbn. intros _.
    destruct (flush_deadline o); [destruct (_ <=? _)|]; eauto.
Qed.

(** A driver that numbers its frames with a [u64] counter keeps the invariant. *)
Lemma push_next sid0 e now o next k b fl :
  outbox_ok sid0 o -> next = wrap 64 (Z.of_nat (length (stream o))) ->
  len b <= READ_BUFFER -> bytes_ok b ->
  let o' := push_frame e now o (mkFrame WIRE_VERSION k sid0 next b) fl in
  outbox_ok sid0 o' /\ wrap 64 (next + 1) = wrap 64 (Z.of_nat (length (stream o')))
  /\ stream o' = stream o ++ [mkFrame WIRE_VERSION k sid0 next b].
Proof.
  intros Ho Hn Hl Hb. cbn zeta. rewrite stream_push. split_and!; [apply push_ok; auto; by split| |done].
  rewrite length_app, Hn. cbn [length]. unfold wrap. rewrite Zplus_mod_idemp_l. f_equal. lia.
Qed.

Lemma push_now_flushed e now o f : pending (push_frame e now o f true) = [].
Proof. unfold push_frame. cbn. apply flush_pending. Qed.

(** ** The application bytes of a stream *)
Definition frame_data (f : WireFrame) : bytes := match kind f with Data => payload f | _ => [] end.
Definition data_bytes (fs : list WireFrame) : bytes := fs ≫= frame_data.

Lemma data_bytes_snoc fs f : data_bytes (fs ++ [f]) = data_bytes fs ++ frame_data f.
Proof. unfold data_bytes. rewrite bind_app. cbn. by rewrite app_nil_r. Qed.

Lemma kinds_snoc fs f : kind <$> (fs ++ [f]) = (kind <$> fs) ++ [kind f].
Proof. by rewrite fmap_app. Qed.

Lemma empty_ok sid0 : outbox_ok sid0 empty_outbox.
Proof. split; cbn; [by intros i f|constructor|done|done|done]. Qed.

(** ** The produced batches are a log in the receiver's sense *)
Lemma len_batch_encode fs :
  Forall (fun f => length (sid f) = 16%nat) fs ->
  len (Batch_encode (mkBatch fs))
    = BATCH_HEADER_LEN + (BATCH_PER_FRAME_OVERHEAD + HEADER_LEN) * len fs + payload_sum fs.
Proof.
  intros Hs. unfold Batch_encode. rewrite !len_app. cbn [frames].
  assert (len (fs ≫= encode_entry) = (BATCH_PER_FRAME_OVERHEAD + HEADER_LEN) * len fs + payload_sum fs) as ->.
  { induction Hs as [|f fs Hf Hs IH]; [done|]. rewrite bind_cons, len_app, IH, len_cons. cbn [payload_sum].
    unfold encode_entry. rewrite len_app, len_WireFrame_encode by done.
    unfold len at 1. rewrite length_be_bytes. unfold BATCH_PER_FRAME_OVERHEAD. lia. }
  unfold BATCH_HEADER_LEN. cbn [len length BATCH_MAGIC]. unfold len at 1 2. cbn [length BATCH_MAGIC]. lia.
Qed.

(** A batch that fits stays under the size the receiver accepts. *)
Lemma batch_fits_sealed {P : CryptoPrims} {L : CryptoLaws P} k s q fs :
  Forall (fun f => length (sid f) = 16%nat) fs -> batch_fits fs ->
  len (AeadCipher_seal k s q (Batch_encode (mkBatch fs))) <= MAX_SEALED_FRAME_BODY_BYTES.
Proof.
  intros Hs [Hl Hp]. unfold AeadCipher_seal. rewrite seal_len, len_batch_encode by done.
  unfold BATCH_MAX_FRAMES, BATCH_FLUSH_BYTES, READ_BUFFER, MAX_SEALED_FRAME_BODY_BYTES, BATCH_HEADER_LEN,
    BATCH_PER_FRAME_OVERHEAD, HEADER_LEN, MAX_PAYLOAD, AEAD_TAG_LEN in *. lia.
Qed.

Lemma numbered_frame_ok sid0 i f :
  sid_ok sid0 -> numbered sid0 i f -> len (payload f) <= MAX_PAYLOAD -> frame_ok f.
Proof.
  intros Hs [Hv Hsid Hq Hb] Hl. split; auto; [by rewrite Hsid|]. rewrite Hq. apply wrap_range. lia.
Qed.

Lemma numbered_log_ok sid0 log :
  sid_ok sid0 -> numbered_from sid0 (concat log) -> Z.of_nat (length (concat log)) <= 2 ^ 64 ->
  Forall (fun fs => 1 <= len fs <= MAX_BATCH_FRAMES /\ payload_sum fs <= MAX_PAYLOAD) log ->
  log_ok sid0 log.
Proof.
  intros Hs Hn Hlen Hb. split.
  - apply Forall_forall. intros fs Hfs. rewrite Forall_forall in Hb. destruct (Hb fs Hfs) as [Hc Hp].
    split; [done|]. apply Forall_forall. intros f Hf. cbn in Hf.
    assert (f ∈ concat log) as Hfl by (apply list_elem_of_In, in_concat; exists fs; by rewrite <- !list_elem_of_In).
    apply list_elem_of_lookup in Hfl as [i Hi]. apply (numbered_frame_ok sid0 i); auto.
    pose proof (payload_sum_elem fs f Hf). lia.
  - intros i f Hi. destruct (Hn i f Hi) as [_ Hsid Hq _]. split; [|done]. rewrite Hq, wrap_small; [done|].
    apply lookup_lt_Some in Hi. lia.
Qed.

Lemma batch_fits_limits fs :
  batch_fits fs -> 1 <= len fs <= MAX_BATCH_FRAMES /\ payload_sum fs <= MAX_PAYLOAD.
Proof.
  unfold batch_fits, BATCH_MAX_FRAMES, MAX_BATCH_FRAMES, BATCH_FLUSH_BYTES, READ_BUFFER, MAX_PAYLOAD. lia.
Qed.

Lemma outbox_uploads_numbered sid0 o : outbox_ok sid0 o -> numbered_from sid0 (concat (uploads o)).
Proof. intros Ho i f Hi. apply (ob_numbered _ _ Ho). unfold stream. by apply lookup_app_l_Some. Qed.

Lemma uploads_log_ok sid0 o :
  sid_ok sid0 -> outbox_ok sid0 o -> Z.of_nat (length (stream o)) <= 2 ^ 64 -> log_ok sid0 (uploads o).
Proof.
  intros Hs Ho Hlen. apply numbered_log_ok; auto.
  - by apply outbox_uploads_numbered.
  - unfold stream in Hlen. rewrite length_app in Hlen. lia.
  - eapply Forall_impl; [apply (ob_batches _ _ Ho)|]. apply batch_fits_limits.
Qed.

Lemma uploads_sealed {P : CryptoPrims} {L : CryptoLaws P} sid0 o k :
  sid_ok sid0 -> outbox_ok sid0 o ->
  Forall (fun fs => forall q, len (AeadCipher_seal k sid0 q (Batch_encode (mkBatch fs)))
                              <= MAX_SEALED_FRAME_BODY_BYTES) (uploads o).
Proof.
  intros Hs Ho. apply Forall_forall. intros fs Hfs q.
  apply batch_fits_sealed; [|by eapply (proj1 (Forall_forall _ _) (ob_batches _ _ Ho))].
  apply Forall_forall. intros f Hf.
  assert (f ∈ concat (uploads o)) as [i Hi]%list_elem_of_lookup.
  { apply list_elem_of_In, in_concat. exists fs. by rewrite <- !list_elem_of_In. }
  destruct (outbox_uploads_numbered sid0 o Ho i f Hi) as [_ -> _ _]. apply Hs.
Qed.
