(* ===== verification/RelaySession.v ===== *)
(** * drive-relay/src/session.rs: the relay's per-session driver

    The driver waits for a Connect, checks and dials the destination, and then pumps
    both directions.  Each resolution of its [select!] (a message or the end of the
    mailbox, the coalesce timer, a read of the destination socket) is an event; the
    outcome of the I/O it starts (semaphore, dial, write) comes with the event.  An
    event whose arm is disabled in the current state has no step. *)

From stdpp Require Import prelude.
From S2P Require Import Prelude RustStr Frame Filename Crypto IpAddr RelayState Mailbox Outbox.
#[local] Open Scope Z_scope.

Inductive ReadResult := RdEof | RdData (b : bytes) | RdErr.
(** [write_all]: success, or an error after some bytes went out. *)
Inductive WriteResult := WrOk | WrErr (n : nat).
Inductive DialResult := DialOk | DialErr (text : str).

Inductive DriverEvent :=
| EvRecv (m : option InboundFrame) (permit : bool) (dial : DialResult) (wr : WriteResult)
| EvTimer
| EvRead (r : ReadResult).

Inductive Phase := AwaitConnect | Pumping | Exited.
#[export] Instance Phase_eq_dec : EqDecision Phase.
Proof. solve_decision. Defined.

Record Driver := mkDriver {
  phase : Phase;
  dialed : option (str * Z);
  written : bytes;                 (** bytes written to the destination socket *)
  write_shut : bool;               (** its write half has been shut down *)
  peer_writable : bool;
  tcp_read_closed : bool;
  eager_response_burst : bool;
  out : Outbox;
  next_r2c_seq : Z
}.

Definition driver_start : Driver :=
  mkDriver AwaitConnect None [] false true false true empty_outbox 0.

Section Session.
Context (sid0 : SessionId) (allow_destinations : list str).

Definition set_phase (d : Driver) (p : Phase) : Driver :=
  mkDriver p (dialed d) (written d) (write_shut d) (peer_writable d) (tcp_read_closed d)
    (eager_response_burst d) (out d) (next_r2c_seq d).

Definition flush_r2c_batch (d : Driver) : Driver :=
  mkDriver (phase d) (dialed d) (written d) (write_shut d) (peer_writable d) (tcp_read_closed d)
    (match pending (out d) with [] => eager_response_burst d | _ => false end)
    (flush_batch (out d)) (next_r2c_seq d).

(** [let seq = next_r2c_seq; next_r2c_seq += 1; push_r2c_frame(.., seq, ..)] *)
Definition push_r2c_frame (now : Z) (d : Driver) (kind : FrameKind) (payload : bytes) (flush_now : bool) : Driver :=
  let f := mkFrame WIRE_VERSION kind sid0 (next_r2c_seq d) payload in
  mkDriver (phase d) (dialed d) (written d) (write_shut d) (peer_writable d) (tcp_read_closed d)
    (if pushed_flushes (eager_response_burst d) (out d) f flush_now then false else eager_response_burst d)
    (push_frame (eager_response_burst d) now (out d) f flush_now)
    (wrap 64 (next_r2c_seq d + 1)).

(** A single-frame batch, uploaded at once. *)
Definition upload_error_frame (d : Driver) (reason : str) : Driver :=
  let f := mkFrame WIRE_VERSION Error sid0 (next_r2c_seq d) (as_bytes reason) in
  mkDriver (phase d) (dialed d) (written d) (write_shut d) (peer_writable d) (tcp_read_closed d)
    (eager_response_burst d)
    (mkOutbox (pending (out d)) (pending_bytes (out d)) (flush_deadline (out d))
       (uploads (out d) ++ [frames (Batch_single f)]))
    (next_r2c_seq d).

(** Phase 1: the first message must be an acceptable Connect. *)
Definition driver_connect (d : Driver) (m : option InboundFrame) (permit : bool) (dial : DialResult) : Driver :=
  match m with
  | Some (InConnect host port) =>
    if negb (destination_allowed allow_destinations host)
    then set_phase (upload_error_frame d (lit "destination not on allow list")) Exited
    else if negb permit
    then set_phase (upload_error_frame d (lit "relay shutting down")) Exited
    else match dial with
         | DialErr e => set_phase (upload_error_frame d (lit "dial failed: " ++ e)) Exited
         | DialOk =>
           mkDriver Pumping (Some (host, port)) (written d) (write_shut d) (peer_writable d)
             (tcp_read_closed d) (eager_response_burst d) (out d) (next_r2c_seq d)
         end
  | _ => set_phase d Exited
  end.

(** Phase 2: a message from the mailbox. *)
Definition write_bytes (d : Driver) (b : bytes) : Driver :=
  mkDriver (phase d) (dialed d) (written d ++ b) (write_shut d) (peer_writable d) (tcp_read_closed d)
    (eager_response_burst d) (out d) (next_r2c_seq d).

Definition set_eager (d : Driver) : Driver :=
  mkDriver (phase d) (dialed d) (written d) (write_shut d) (peer_writable d) (tcp_read_closed d)
    true (out d) (next_r2c_seq d).

Definition shutdown_write (d : Driver) : Driver :=
  mkDriver (phase d) (dialed d) (written d) true false (tcp_read_closed d)
    (eager_response_burst d) (out d) (next_r2c_seq d).

Definition close_read (d : Driver) : Driver :=
  mkDriver (phase d) (dialed d) (written d) (write_shut d) (peer_writable d) true
    (eager_response_burst d) (out d) (next_r2c_seq d).

Definition driver_inbound (now : Z) (d : Driver) (m : option InboundFrame) (wr : WriteResult) : Driver :=
  match m with
  | Some (InConnect _ _) => d
  | Some (InData b) =>
    if negb (peer_writable d) then d
    else match wr with
         | WrErr n => set_phase (flush_r2c_batch (write_bytes d (take n b))) Exited
         | WrOk => set_eager (flush_r2c_batch (write_bytes d b))
         end
  | Some InEof =>
    let d := shutdown_write d in
    if tcp_read_closed d then set_phase (push_r2c_frame now d Close [] true) Exited else d
  | Some InClose | None => set_phase (flush_r2c_batch d) Exited
  end.

(** Phase 2: a read of the destination socket. *)
Definition driver_read (now : Z) (d : Driver) (r : ReadResult) : Driver :=
  match r with
  | RdEof =>
    let d := close_read (push_r2c_frame now d Eof [] true) in
    if negb (peer_writable d) then set_phase (push_r2c_frame now d Close [] true) Exited else d
  | RdData b => push_r2c_frame now d Data b false
  | RdErr => set_phase (flush_r2c_batch d) Exited
  end.

Definition driver_step (now : Z) (d : Driver) (ev : DriverEvent) : option Driver :=
  match phase d, ev with
  | AwaitConnect, EvRecv m permit dial _ => Some (driver_connect d m permit dial)
  | Pumping, EvRecv m _ _ wr => Some (driver_inbound now d m wr)
  | Pumping, EvTimer =>
    match flush_deadline (out d) with
    | Some deadline => if deadline <=? now then Some (flush_r2c_batch d) else None
    | None => None
    end
  | Pumping, EvRead r => if tcp_read_closed d then None else Some (driver_read now d r)
  | _, _ => None
  end.

(** ** Runs *)

(** What the environment guarantees of an event: a read fills at most the buffer. *)
Definition event_ok (ev : DriverEvent) : Prop :=
  match ev with
  | EvRead (RdData b) => 0 < len b <= READ_BUFFER /\ bytes_ok b
  | EvRecv _ _ (DialErr e) _ => bytes_ok (as_bytes (lit "dial failed: " ++ e))
                                /\ len (as_bytes (lit "dial failed: " ++ e)) <= READ_BUFFER
  | _ => True
  end.

Inductive driver_trace : list DriverEvent -> Driver -> Prop :=
| trace_start : driver_trace [] driver_start
| trace_step evs d now ev d' :
    driver_trace evs d -> event_ok ev -> driver_step now d ev = Some d' ->
    driver_trace (evs ++ [ev]) d'.

(** The messages received, the bytes read, and the bytes the messages ask to write. *)
Definition msgs (evs : list DriverEvent) : list (option InboundFrame) :=
  omap (fun ev => match ev with EvRecv m _ _ _ => Some m | _ => None end) evs.
Definition reads (evs : list DriverEvent) : bytes :=
  evs ≫= (fun ev => match ev with EvRead (RdData b) => b | _ => [] end).
End Session.

(** The inbound data up to the peer's end of stream. *)
Fixpoint data_until_eof (ms : list (option InboundFrame)) : bytes :=
  match ms with
  | [] => []
  | Some (InData b) :: ms' => b ++ data_until_eof ms'
  | Some (InConnect _ _) :: ms' => data_until_eof ms'
  | Some InEof :: _ | Some InClose :: _ | None :: _ => []
  end.

(** ** The invariant of a run *)
Section Invariant.
Context (sid0 : SessionId) (allow : list str).

Definition open_msgs (ms : list (option InboundFrame)) : Prop :=
  Forall (fun m => match m with Some (InData _) | Some (InConnect _ _) => True | _ => False end) ms.

Lemma data_until_eof_open ms ms' :
  open_msgs ms -> data_until_eof (ms ++ ms') = data_until_eof ms ++ data_until_eof ms'.
Proof.
  induction 1 as [|m ms Hm Hms IH]; [done|]. destruct m as [[| | |]|]; cbn; try done. by rewrite IH, app_assoc.
Qed.

Lemma data_until_eof_closed ms ms' :
  ~ open_msgs ms -> data_until_eof (ms ++ ms') = data_until_eof ms.
Proof.
  induction ms as [|m ms IH]; intros Hn; [destruct Hn; constructor|].
  destruct m as [[h p|b| |]|]; cbn; try done; [apply IH|f_equal; apply IH];
    intros Ho; apply Hn; by constructor.
Qed.

#[local] Instance open_msgs_dec ms : Decision (open_msgs ms).
Proof. apply Forall_dec. intros [[| | |]|]; apply _. Defined.

Lemma data_until_eof_quiet ms m :
  (forall b, m <> Some (InData b)) \/ ~ open_msgs ms ->
  data_until_eof (ms ++ [m]) = data_until_eof ms.
Proof.
  intros H. destruct (decide (open_msgs ms)) as [Ho|Ho]; [|by apply data_until_eof_closed].
  rewrite data_until_eof_open by done. destruct H as [H|H]; [|done].
  destruct m as [[|b| |]|]; cbn; try apply app_nil_r. by destruct (H b).
Qed.

(** The frame kinds that may follow the data of a stream. *)
Definition tail_ok (d : Driver) (tail : list FrameKind) : Prop :=
  match phase d with
  | Exited => tail ∈ [[]; [Eof]; [Eof; Close]; [Error]]
  | _ => tail = if tcp_read_closed d then [Eof] else []
  end.

Record driver_inv (evs : list DriverEvent) (d : Driver) : Prop := {
  di_out : outbox_ok sid0 (out d);
  di_next : phase d <> Exited -> next_r2c_seq d = wrap 64 (Z.of_nat (length (stream (out d))));
  di_await : phase d = AwaitConnect -> evs = [] /\ d = driver_start;
  di_reads : data_bytes (stream (out d)) = reads evs;
  di_kinds : exists n tail, kind <$> stream (out d) = replicate n Data ++ tail /\ tail_ok d tail;
  di_exit : phase d = Exited -> pending (out d) = [];
  di_written : written d `prefix_of` data_until_eof (msgs evs);
  di_pump : phase d <> Exited ->
    written d = data_until_eof (msgs evs) /\ (peer_writable d = true <-> open_msgs (msgs evs))
}.

Lemma reads_snoc evs ev :
  reads (evs ++ [ev]) = reads evs ++ match ev with EvRead (RdData b) => b | _ => [] end.
Proof. unfold reads. rewrite bind_app. f_equal. destruct ev as [| |[| |]]; cbn; by rewrite ?app_nil_r. Qed.

Lemma msgs_snoc evs ev :
  msgs (evs ++ [ev]) = msgs evs ++ match ev with EvRecv m _ _ _ => [m] | _ => [] end.
Proof. unfold msgs. rewrite omap_app. by destruct ev. Qed.

Lemma start_inv : driver_inv [] driver_start.
Proof.
  split; cbn; try done; try apply empty_ok; [by exists 0%nat, []|].
  intros _. split; [done|]. split; [constructor|done].
Qed.

(** A pushed frame carries the next number. *)
Lemma push_inv_out now d k b fl :
  outbox_ok sid0 (out d) -> next_r2c_seq d = wrap 64 (Z.of_nat (length (stream (out d)))) ->
  len b <= READ_BUFFER -> bytes_ok b ->
  let d' := push_r2c_frame sid0 now d k b fl in
  outbox_ok sid0 (out d') /\ next_r2c_seq d' = wrap 64 (Z.of_nat (length (stream (out d'))))
  /\ stream (out d') = stream (out d) ++ [mkFrame WIRE_VERSION k sid0 (next_r2c_seq d) b].
Proof.
  intros Ho Hn Hl Hb. by apply push_next.
Qed.

Lemma push_flushed now d k b : pending (out (push_r2c_frame sid0 now d k b true)) = [].
Proof. cbn. unfold push_frame. cbn. apply flush_pending. Qed.

Lemma error_inv m permit dial wr reason :
  sid_ok sid0 -> bytes_ok (as_bytes reason) -> len (as_bytes reason) <= READ_BUFFER ->
  driver_inv [EvRecv m permit dial wr] (set_phase (upload_error_frame sid0 driver_start reason) Exited).
Proof.
  intros Hs Hb Hl. split; cbn; try done.
  - split; cbn; try done.
    + intros [|[|i]] f; cbn; [|done..]. intros [= <-]. by split.
    + constructor; [|constructor]. split; [vm_compute; split; discriminate|].
      cbn [payload_sum payload]. unfold BATCH_FLUSH_BYTES. lia.
  - exists 0%nat, [Error]. split; [done|]. cbn. set_solver.
  - apply prefix_nil.
Qed.

Lemma connect_inv m permit dial wr :
  sid_ok sid0 -> event_ok (EvRecv m permit dial wr) ->
  driver_inv [EvRecv m permit dial wr] (driver_connect sid0 allow driver_start m permit dial).
Proof.
  intros Hs Hev.
  assert (driver_inv [EvRecv m permit dial wr] (set_phase driver_start Exited)) as Hq.
  { split; cbn; try done; try apply empty_ok; [|apply prefix_nil]. exists 0%nat, []. split; [done|]. cbn. set_solver. }
  unfold driver_connect. destruct m as [[host port|b| |]|]; try exact Hq.
  destruct (negb (destination_allowed _ _)).
  { apply error_inv; [done| |vm_compute; discriminate]. repeat constructor; vm_compute; intuition discriminate. }
  destruct (negb permit).
  { apply error_inv; [done| |vm_compute; discriminate]. repeat constructor; vm_compute; intuition discriminate. }
  destruct dial as [|e]; [|by destruct Hev; apply error_inv].
  split; cbn; try done; try apply empty_ok; [by exists 0%nat, []|].
  intros _. split; [done|]. split; [|done]. intros _. by repeat constructor.
Qed.

(** Flushing changes neither the stream nor anything the invariant says of it. *)
Lemma flush_inv_out d :
  outbox_ok sid0 (out d) ->
  outbox_ok sid0 (out (flush_r2c_batch d)) /\ stream (out (flush_r2c_batch d)) = stream (out d)
  /\ pending (out (flush_r2c_batch d)) = [].
Proof. intros Ho. cbn. split_and!; [by apply flush_ok|apply stream_flush|apply flush_pending]. Qed.

(** Leaving with what is pending flushed, in a run whose next event reads nothing. *)
Lemma exit_flush_inv evs ev d w :
  driver_inv evs d -> phase d = Pumping -> reads (evs ++ [ev]) = reads evs ->
  w `prefix_of` data_until_eof (msgs (evs ++ [ev])) ->
  driver_inv (evs ++ [ev])
    (set_phase (flush_r2c_batch (mkDriver (phase d) (dialed d) w (write_shut d) (peer_writable d)
       (tcp_read_closed d) (eager_response_burst d) (out d) (next_r2c_seq d))) Exited).
Proof.
  intros [Ho Hnx _ Hrd (n & tail & Hk & Ht) _ _ _] Hp Hre Hw.
  destruct (flush_inv_out d Ho) as (Ho' & Hst & Hpe). cbn in Ho', Hst, Hpe.
  split; cbn; try done.
  - by rewrite Hst, Hrd.
  - exists n, tail. rewrite Hst. split; [done|]. unfold tail_ok in *. rewrite Hp in Ht. cbn. subst tail.
    destruct (tcp_read_closed d); set_solver.
Qed.

(** Ending both directions with a Close. *)
Lemma close_inv evs evs' d now w :
  driver_inv evs d -> phase d = Pumping -> tcp_read_closed d = true -> reads evs' = reads evs ->
  w `prefix_of` data_until_eof (msgs evs') ->
  forall ws pw, driver_inv evs'
    (set_phase (push_r2c_frame sid0 now (mkDriver (phase d) (dialed d) w ws pw
       (tcp_read_closed d) (eager_response_burst d) (out d) (next_r2c_seq d)) Close [] true) Exited).
Proof.
  intros [Ho Hnx _ Hrd (n & tail & Hk & Ht) _ _ _] Hp Hrc Hre Hw ws pw.
  specialize (Hnx ltac:(congruence)).
  set (d1 := mkDriver _ _ _ _ _ _ _ _ _).
  destruct (push_inv_out now d1 Close [] true Ho Hnx) as (Ho' & _ & Hst); [vm_compute; discriminate|constructor|].
  split; try done.
  - change (data_bytes (stream (out (push_r2c_frame sid0 now d1 Close [] true))) = reads evs').
    rewrite Hst, data_bytes_snoc, Hre. cbn. by rewrite app_nil_r.
  - change (exists n tail, kind <$> stream (out (push_r2c_frame sid0 now d1 Close [] true)) = replicate n Data ++ tail
      /\ tail ∈ [[]; [Eof]; [Eof; Close]; [Error]]).
    rewrite Hst. exists n, (tail ++ [Close]). split; [rewrite kinds_snoc, app_assoc; by f_equal|].
    unfold tail_ok in Ht. rewrite Hp, Hrc in Ht. subst tail. cbn. set_solver.
  - intros _. apply (push_flushed now d1).
Qed.

(** A message that is ignored (a second Connect, data after the end). *)
Lemma ignored_inv evs d m permit dial wr :
  driver_inv evs d -> phase d = Pumping ->
  (exists h p, m = Some (InConnect h p)) \/ (peer_writable d = false /\ exists b, m = Some (InData b)) ->
  driver_inv (evs ++ [EvRecv m permit dial wr]) d.
Proof.
  intros [Ho Hnx Haw Hrd Hk Hex Hw Hpw] Hp Hm. specialize (Hpw ltac:(congruence)) as [Hw' Hpw].
  assert (data_until_eof (msgs evs ++ [m]) = data_until_eof (msgs evs)) as Hq.
  { apply data_until_eof_quiet. destruct Hm as [(h & p & ->)|[Epw _]]; [by left|right]. rewrite <- Hpw. congruence. }
  split; rewrite ?reads_snoc, ?msgs_snoc, ?Hq, ?app_nil_r; auto; [congruence|]. intros _. split; [done|].
  unfold open_msgs in *. rewrite Forall_app, Forall_singleton.
  destruct Hm as [(h & p & ->)|[Epw [b ->]]]; rewrite Hpw; tauto.
Qed.

(** Data written to the destination. *)
Lemma written_inv evs d b permit dial :
  driver_inv evs d -> phase d = Pumping -> peer_writable d = true ->
  driver_inv (evs ++ [EvRecv (Some (InData b)) permit dial WrOk]) (set_eager (flush_r2c_batch (write_bytes d b))).
Proof.
  intros [Ho Hnx Haw Hrd Hk Hex Hw Hpw] Hp Epw. specialize (Hpw ltac:(congruence)) as [Hw' Hpw].
  destruct (flush_inv_out (write_bytes d b) Ho) as (Ho' & Hst & _). cbn in Ho', Hst.
  assert (data_until_eof (msgs evs ++ [Some (InData b)]) = written d ++ b) as Hq.
  { rewrite data_until_eof_open by (by apply Hpw). rewrite Hw'. cbn. by rewrite app_nil_r. }
  split; cbn; rewrite ?Hst, ?reads_snoc, ?msgs_snoc, ?Hq, ?app_nil_r; auto; try congruence.
  intros _. split; [done|]. rewrite Epw. unfold open_msgs in *. rewrite Forall_app, Forall_singleton.
  split; [|done]. intros _. split; [by apply Hpw|done].
Qed.

Lemma inbound_inv evs d now m permit dial wr :
  driver_inv evs d -> phase d = Pumping ->
  driver_inv (evs ++ [EvRecv m permit dial wr]) (driver_inbound sid0 now d m wr).
Proof.
  intros Hd Hp. destruct (di_pump _ _ Hd ltac:(congruence)) as [Hw Hpw].
  assert (reads (evs ++ [EvRecv m permit dial wr]) = reads evs) as Hre by (rewrite reads_snoc; apply app_nil_r).
  assert ((forall b, m <> Some (InData b)) -> data_until_eof (msgs (evs ++ [EvRecv m permit dial wr])) = written d) as Hq.
  { intros Hm. rewrite msgs_snoc, Hw. apply data_until_eof_quiet. by left. }
  destruct m as [[host port|b| |]|]; cbn [driver_inbound].
  - apply ignored_inv; eauto.
  - destruct (peer_writable d) eqn:Epw; cbn [negb]; [|apply ignored_inv; eauto].
    destruct wr as [|n]; [by apply written_inv|]. apply exit_flush_inv; auto.
    rewrite msgs_snoc, data_until_eof_open, Hw by (by apply Hpw). cbn. rewrite app_nil_r.
    apply prefix_app, prefix_take.
  - destruct (tcp_read_closed (shutdown_write d)) eqn:Erc; cbn in Erc.
    + apply (close_inv evs); auto. by rewrite Hq.
    + destruct Hd as [Ho Hnx Haw Hrd Hk _ _ _].
      split; cbn; rewrite ?Hq by done; auto; try congruence. intros _. split; [done|].
      split; [done|]. rewrite msgs_snoc. unfold open_msgs. rewrite Forall_app, Forall_singleton. tauto.
  - destruct d. cbn in *. apply exit_flush_inv; auto. by rewrite Hq.
  - destruct d. cbn in *. apply exit_flush_inv; auto. by rewrite Hq.
Qed.

Lemma timer_inv evs d : driver_inv evs d -> phase d = Pumping -> driver_inv (evs ++ [EvTimer]) (flush_r2c_batch d).
Proof.
  intros [Ho Hnx Haw Hrd Hk _ Hw Hpw] Hp. destruct (flush_inv_out d Ho) as (Ho' & Hst & _). cbn in Ho', Hst.
  assert (reads (evs ++ [EvTimer]) = reads evs) as Hre by (rewrite reads_snoc; apply app_nil_r).
  assert (msgs (evs ++ [EvTimer]) = msgs evs) as Hms by (rewrite msgs_snoc; apply app_nil_r).
  split; cbn; rewrite ?Hst, ?Hre, ?Hms; auto; congruence.
Qed.

(** A frame pushed while the destination is still being read. *)
Lemma push_inv evs d now k b fl r :
  driver_inv evs d -> phase d = Pumping -> tcp_read_closed d = false ->
  len b <= READ_BUFFER -> bytes_ok b ->
  reads (evs ++ [EvRead r]) = reads evs ++ frame_data (mkFrame WIRE_VERSION k sid0 (next_r2c_seq d) b) ->
  forall rc, (k, rc) ∈ [(Data, false); (Eof, true)] ->
  let d' := push_r2c_frame sid0 now d k b fl in
  driver_inv (evs ++ [EvRead r])
    (mkDriver (phase d') (dialed d') (written d') (write_shut d') (peer_writable d') rc
       (eager_response_burst d') (out d') (next_r2c_seq d')).
Proof.
  intros [Ho Hnx Haw Hrd (n & tail & Hk & Ht) _ Hw Hpw] Hp Hrc Hl Hb Hre rc Hrk d'.
  assert (msgs (evs ++ [EvRead r]) = msgs evs) as Hms by (rewrite msgs_snoc; apply app_nil_r).
  destruct (push_inv_out now d k b fl Ho (Hnx ltac:(congruence)) Hl Hb) as (Ho' & Hnx' & Hst).
  fold d' in Ho', Hnx', Hst. cbn [out next_r2c_seq].
  split; cbn [phase out next_r2c_seq tcp_read_closed written peer_writable]; rewrite ?Hms; auto;
    try (intros Hx; change (phase d') with (phase d) in Hx; congruence).
  - rewrite Hst, data_bytes_snoc, Hre, Hrd. done.
  - rewrite Hst. unfold tail_ok in *. cbn. rewrite Hp, Hrc in Ht. subst tail.
    change (phase d') with (phase d). rewrite Hp. rewrite app_nil_r in Hk.
    apply elem_of_cons in Hrk as [[= -> ->]|[[= -> ->]|Hrk%not_elem_of_nil]%elem_of_cons]; [| |done].
    + exists (n + 1)%nat, []. split; [|done]. rewrite fmap_app, Hk, app_nil_r, replicate_add. done.
    + exists n, [Eof]. split; [|done]. by rewrite fmap_app, Hk.
Qed.

Lemma read_inv evs d now r :
  driver_inv evs d -> phase d = Pumping -> tcp_read_closed d = false -> event_ok (EvRead r) ->
  driver_inv (evs ++ [EvRead r]) (driver_read sid0 now d r).
Proof.
  intros Hd Hp Hrc Hev. destruct r as [|b|]; cbn [driver_read].
  - assert (driver_inv (evs ++ [EvRead RdEof]) (close_read (push_r2c_frame sid0 now d Eof [] true))) as Hc.
    { apply (push_inv evs d now Eof [] true RdEof); auto; [vm_compute; discriminate|constructor|apply reads_snoc|set_solver]. }
    destruct (negb _) eqn:Epw; [|done].
    assert (written d `prefix_of` data_until_eof (msgs (evs ++ [EvRead RdEof]))) as Hw.
    { rewrite msgs_snoc. cbn. rewrite app_nil_r. apply Hd. }
    exact (close_inv _ _ _ now _ Hc Hp eq_refl eq_refl Hw (write_shut d) (peer_writable d)).
  - destruct Hev as [Hl Hb]. apply (push_inv evs d now Data b false (RdData b)) with (rc := false) in Hd; auto; [|lia|apply reads_snoc|set_solver].
    cbn in Hd. unfold push_r2c_frame. by rewrite Hrc.
  - destruct d. cbn in *. apply exit_flush_inv; auto; [rewrite reads_snoc; apply app_nil_r|].
    cbn. rewrite msgs_snoc. cbn. rewrite app_nil_r. apply Hd.
Qed.

Lemma trace_inv evs d : sid_ok sid0 -> driver_trace sid0 allow evs d -> driver_inv evs d.
Proof.
  intros Hs. induction 1 as [|evs d now ev d' Htr IH Hev Hst]; [apply start_inv|].
  unfold driver_step in Hst. destruct (phase d) eqn:Hp; [| |done].
  - destruct (di_await _ _ IH Hp) as [-> ->]. destruct ev; simplify_eq. by apply connect_inv.
  - destruct ev as [m permit dial wr| |r].
    + injection Hst as <-. by apply inbound_inv.
    + destruct (flush_deadline (out d)); [|done]. destruct (_ <=? _); simplify_eq. by apply timer_inv.
    + destruct (tcp_read_closed d) eqn:Hrc; simplify_eq. by apply read_inv.
Qed.
End Invariant.

(** The destination is dialed at the first message, and never again. *)
Lemma dialed_first sid0 allow evs d :
  sid_ok sid0 -> driver_trace sid0 allow evs d ->
  match dialed d with
  | Some (host, port) => head (msgs evs) = Some (Some (InConnect host port)) /\ destination_allowed allow host = true
  | None => written d = [] /\ reads evs = [] /\ phase d <> Pumping
  end.
Proof.
  intros Hs Htr.
  induction Htr as [|evs d now ev d' Htr IH Hev Hst]; [done|].
  unfold driver_step in Hst. destruct (phase d) eqn:Hp; [| |done].
  - destruct (di_await _ _ _ (trace_inv sid0 allow evs d Hs Htr) Hp) as [-> ->].
    destruct ev as [m permit dial wr| |]; simplify_eq. unfold driver_connect.
    destruct m as [[host port|b| |]|]; cbn; try done. destruct (destination_allowed allow host) eqn:Ea; cbn; [|done].
    destruct permit; cbn; [|done]. by destruct dial.
  - destruct (dialed d) as [[host port]|] eqn:Ed; [|by destruct IH as (_ & _ & ?)].
    assert (dialed d' = dialed d) as ->.
    { destruct ev as [m permit dial wr| |r].
      - injection Hst as <-. unfold driver_inbound. by repeat case_match.
      - destruct (flush_deadline (out d)); [|done]. destruct (_ <=? _); by simplify_eq.
      - destruct (tcp_read_closed d); simplify_eq. unfold driver_read. by repeat case_match. }
    rewrite Ed, msgs_snoc. destruct IH as [IH1 IH2]. split; [|done]. destruct (msgs evs); [done|]. exact IH1.
Qed.

(** ** Properties *)

(** Claim C9: the outbound stream of a relay session.  However messages, timer expiries
    and reads interleave, what the driver has handed to uploads is a log the client
    accepts: batches of 1 to 200 frames, frames numbered 0, 1, 2, ... across batches,
    each sealed body under the size the receiver enforces; the data in uploads and
    pending frames is exactly the bytes read from the destination, in order, followed by
    at most an Eof, Eof and Close, or a lone Error; and once the driver has exited
    nothing is left pending. *)
Theorem relay_session_stream {P : CryptoPrims} {L : CryptoLaws P} sid0 allow evs d k :
  sid_ok sid0 -> driver_trace sid0 allow evs d -> Z.of_nat (length (stream (out d))) <= 2 ^ 64 ->
  log_ok sid0 (uploads (out d))
  /\ Forall (fun fs => forall q, len (AeadCipher_seal k sid0 q (Batch_encode (mkBatch fs)))
                                 <= MAX_SEALED_FRAME_BODY_BYTES) (uploads (out d))
  /\ data_bytes (stream (out d)) = reads evs
  /\ (exists n tail, kind <$> stream (out d) = replicate n Data ++ tail
        /\ tail ∈ [[]; [Eof]; [Eof; Close]; [Error]])
  /\ (phase d = Exited -> concat (uploads (out d)) = stream (out d)).
Proof.
  intros Hs Htr Hlen. destruct (trace_inv sid0 allow evs d Hs Htr) as [Ho _ _ Hrd (n & tail & Hk & Ht) Hex _ _].
  split_and!; auto; [by apply uploads_log_ok|by apply uploads_sealed| |].
  - exists n, tail. split; [done|]. unfold tail_ok in Ht. destruct (phase d); [| |done]; subst tail;
      destruct (tcp_read_closed d); set_solver.
  - intros He. unfold stream. by rewrite (Hex He), app_nil_r.
Qed.

(** The inbound direction.  The bytes a driver has written to the destination
    are a prefix of the data of the messages before the peer's first Eof or Close, and
    all of it as long as the driver runs. *)
Theorem relay_session_writes sid0 allow evs d :
  sid_ok sid0 -> driver_trace sid0 allow evs d ->
  written d `prefix_of` data_until_eof (msgs evs)
  /\ (phase d <> Exited -> written d = data_until_eof (msgs evs)).
Proof.
  intros Hs Htr. pose proof (trace_inv sid0 allow evs d Hs Htr) as Hi.
  split; [apply Hi|]. intros Hp. by apply (di_pump _ _ _ Hi).
Qed.

(** No frame is stranded.  In a running session with frames pending the
    coalesce timer is armed, and its expiry uploads them all as one batch. *)
Theorem relay_pending_flushed sid0 allow evs d :
  sid_ok sid0 -> driver_trace sid0 allow evs d -> phase d = Pumping -> pending (out d) <> [] ->
  exists deadline, flush_deadline (out d) = Some deadline /\
    forall now, deadline <= now -> exists d', driver_step sid0 allow now d EvTimer = Some d'
      /\ pending (out d') = [] /\ uploads (out d') = uploads (out d) ++ [pending (out d)].
Proof.
  intros Hs Htr Hp Hpe. destruct (trace_inv sid0 allow evs d Hs Htr) as [[_ _ _ _ Ha] _ _ _ _ _ _ _].
  destruct (Ha Hpe) as [deadline Hd]. exists deadline. split; [done|]. intros now Hnow.
  exists (flush_r2c_batch d). unfold driver_step. rewrite Hp, Hd. rewrite (proj2 (Z.leb_le _ _) Hnow).
  split; [done|]. cbn. unfold flush_batch. by destruct (pending (out d)).
Qed.

(** No dial without a permitted Connect.  A driver has opened a connection
    only if its first message was a Connect whose host the destination policy allows,
    and that is the host it dialed; before that nothing is written anywhere. *)
Theorem relay_dial_guarded sid0 allow evs d :
  sid_ok sid0 -> driver_trace sid0 allow evs d ->
  match dialed d with
  | Some (host, port) => head (msgs evs) = Some (Some (InConnect host port))
                         /\ destination_allowed allow host = true
  | None => written d = [] /\ reads evs = []
  end.
Proof.
  intros Hs Htr. pose proof (dialed_first sid0 allow evs d Hs Htr). destruct (dialed d) as [[]|]; intuition.
Qed.

(** *** A concrete run: Connect, a read, data, the destination closes, the peer closes *)
Definition sample_events : list DriverEvent :=
  [EvRecv (Some (InConnect (lit "example.org") 443)) true DialOk WrOk;
   EvRead (RdData [1; 2; 3]);
   EvRecv (Some (InData [9; 8])) true DialOk WrOk;
   EvRead (RdData [4]);
   EvRead RdEof;
   EvRecv (Some InEof) true DialOk WrOk].

Fixpoint run_driver (sid0 : SessionId) (allow : list str) (d : Driver) (evs : list DriverEvent) : option Driver :=
  match evs with
  | [] => Some d
  | ev :: evs' => driver_step sid0 allow 0 d ev ≫= fun d' => run_driver sid0 allow d' evs'
  end.

Lemma run_driver_trace sid0 allow d pre evs d' :
  driver_trace sid0 allow pre d -> Forall event_ok evs -> run_driver sid0 allow d evs = Some d' ->
  driver_trace sid0 allow (pre ++ evs) d'.
Proof.
  revert d pre. induction evs as [|ev evs IH]; intros d pre Ht He Hr; cbn in Hr.
  { rewrite app_nil_r. by simplify_eq. }
  inversion_clear He as [|? ? He1 He2]. destruct (driver_step _ _ _ _ _) as [d1|] eqn:Ed; [|done].
  replace (pre ++ ev :: evs) with ((pre ++ [ev]) ++ evs) by (by rewrite <- app_assoc).
  eapply IH; [by eapply trace_step|done|exact Hr].
Qed.

Ltac events_ok :=
  repeat (apply Forall_cons; split); try apply Forall_nil; try exact I;
  (split; [vm_compute; intuition discriminate|]);
  repeat (apply Forall_cons; split); try apply Forall_nil; unfold is_u8; lia.

Definition sample_driver : Driver :=
  Eval vm_compute in default driver_start (run_driver sample_sid [] driver_start sample_events).

Lemma sample_trace : driver_trace sample_sid [] sample_events sample_driver.
Proof.
  apply (run_driver_trace sample_sid [] driver_start [] sample_events); [constructor| |vm_compute; reflexivity].
  events_ok.
Qed.

Lemma relay_session_stream_witness :
  log_ok sample_sid (uploads (out sample_driver)) /\ data_bytes (stream (out sample_driver)) = [1; 2; 3; 4].
Proof.
  destruct (relay_session_stream sample_sid [] sample_events sample_driver [] sample_sid_ok sample_trace
    ltac:(vm_compute; discriminate)) as (H1 & _ & H2 & _).
  split; [exact H1|exact H2].
Defined.

Lemma relay_session_writes_witness : written sample_driver `prefix_of` [9; 8].
Proof. exact (proj1 (relay_session_writes sample_sid [] sample_events sample_driver sample_sid_ok sample_trace)). Defined.

Lemma relay_dial_guarded_witness :
  head (msgs sample_events) = Some (Some (InConnect (lit "example.org") 443))
  /\ destination_allowed [] (lit "example.org") = true.
Proof. exact (relay_dial_guarded sample_sid [] sample_events sample_driver sample_sid_ok sample_trace). Defined.

Definition sample_pending : Driver :=
  Eval vm_compute in default driver_start (run_driver sample_sid [] driver_start (take 2 sample_events)).

Lemma relay_pending_flushed_witness :
  exists d', driver_step sample_sid [] 10 sample_pending EvTimer = Some d' /\ pending (out d') = [].
Proof.
  assert (driver_trace sample_sid [] (take 2 sample_events) sample_pending) as Ht.
  { apply (run_driver_trace sample_sid [] driver_start []); [constructor| |vm_compute; reflexivity].
    events_ok. }
  destruct (relay_pending_flushed sample_sid [] (take 2 sample_events) sample_pending sample_sid_ok Ht eq_refl
    ltac:(discriminate)) as (dl & Hdl & Hf).
  destruct (Hf 10) as (d' & Hd & Hp & _); [injection Hdl as <-; lia|]. exists d'. split; [exact Hd|exact Hp].
Defined.
