(* ===== verification/DriveClient.v ===== *)
(** * src/drive_client.rs: the client side of the Drive transport

    The session opener (key agreement, the combined [c2r_<sid>_0] upload), the pump
    between the local socket and the mailbox, and the r2c poller.  The client is the
    other [Endpoint] of the mailbox; the pump's [select!] resolutions are events, as in
    the relay's driver. *)

From stdpp Require Import prelude gmap.
From S2P Require Import Prelude RustStr ListSort Frame Filename Crypto RelayState Mailbox Outbox.
#[local] Open Scope Z_scope.

(** ** Inbound events *)
Inductive ClientInbound := CData (b : bytes) | CEof | CClose.

Definition wire_to_inbound (frame : WireFrame) : option ClientInbound :=
  match kind frame with
  | Data => Some (CData (payload frame))
  | Eof => Some CEof
  | Close => Some CClose
  | Error => Some CClose
  | Hello | Connect => None
  end.

Definition client_endpoint : Endpoint := {|
  Inbound := ClientInbound;
  in_dir := RelayToClient;
  in_key := k_r2c;
  prefix_len _ := 0;
  to_inbound := wire_to_inbound
|}.
#[local] Existing Instance client_endpoint.

(** ** Outbound encoding *)
Definition build_wire_frame (kind : FrameKind) (sid : SessionId) (seq : Z) (payload : bytes) : WireFrame :=
  mkFrame WIRE_VERSION kind sid seq payload.

Definition LOCAL_SOCKET_READ_BUFFER : Z := READ_BUFFER.

(** [slice::chunks]: pieces of [n] bytes, the last one shorter; [fuel] is the length. *)
Fixpoint chunks (fuel n : nat) (b : bytes) : list bytes :=
  match fuel, b with
  | _, [] => []
  | O, _ => []
  | S fuel', _ => take n b :: chunks fuel' n (drop n b)
  end.

Fixpoint data_frames (sid : SessionId) (next_seq : Z) (cs : list bytes) : list WireFrame * Z :=
  match cs with
  | [] => ([], next_seq)
  | c :: cs' =>
    let '(fs, q) := data_frames sid (wrap 64 (next_seq + 1)) cs' in
    (build_wire_frame Data sid next_seq c :: fs, q)
  end.

Definition data_frames_from_bytes (sid : SessionId) (next_seq : Z) (b : bytes) : list WireFrame * Z :=
  data_frames sid next_seq (chunks (length b) (Z.to_nat LOCAL_SOCKET_READ_BUFFER) b).

(** The first read of the local socket, within the open window: a timeout, the end of
    the stream, some bytes, or an error. *)
Inductive Preface := PrTimeout | PrEof | PrBytes (b : bytes) | PrErr.

Definition read_open_preface_frames (r : Preface) (sid : SessionId) (next_seq : Z)
    : res (list WireFrame * Z) unit :=
  match r with
  | PrTimeout | PrEof => Ok ([], next_seq)
  | PrBytes b => Ok ([build_wire_frame Data sid next_seq b], wrap 64 (next_seq + 1))
  | PrErr => Err tt
  end.

Definition build_session_open_batch (sid : SessionId) (host : str) (port : Z)
    (initial_data_frames : list WireFrame) : Batch :=
  mkBatch (build_wire_frame Connect sid 0 (as_bytes (host_port host port)) :: initial_data_frames).

Section Upload.
Context {P : CryptoPrims}.

(** [batch.frames[0]] on an empty batch would panic. *)
Definition seal_batch (key : bytes) (sid : SessionId) (batch : Batch) : res bytes unit :=
  match frames batch with
  | [] => Panic
  | f :: _ => Ok (AeadCipher_seal key sid (seq f) (Batch_encode batch))
  end.

Definition frame_filename (direction : Direction) (sid : SessionId) (seq : Z) : str :=
  DriveFilename_format (mkName (KFrame direction) sid seq).

(** Name and body of an uploaded file. *)
Definition upload_c2r_frame (sid : SessionId) (seq : Z) (sealed : bytes) : str * bytes :=
  (frame_filename ClientToRelay sid seq, sealed).

Definition upload_session_open_frame (key : bytes) (sid : SessionId) (hello : HelloBody) (host : str)
    (port : Z) (initial_data_frames : list WireFrame) : res (str * bytes) unit :=
  let batch := build_session_open_batch sid host port initial_data_frames in
  let? sealed := seal_batch key sid batch in
  Ok (upload_c2r_frame sid 0 (HelloBody_encode hello ++ sealed)).

(** The file a flushed batch is uploaded as. *)
Definition upload_c2r_batch (key : bytes) (sid : SessionId) (fs : list WireFrame) : res (str * bytes) unit :=
  let? sealed := seal_batch key sid (mkBatch fs) in
  match fs with [] => Panic | f :: _ => Ok (upload_c2r_frame sid (seq f) sealed) end.
End Upload.

(** ** The per-session pump *)
Inductive PumpRead := PRdEof | PRdData (b : bytes) | PRdErr.
Inductive PumpEvent :=
| PRecv (m : option ClientInbound) (write_ok : option nat)  (** [Some n]: the write failed after [n] bytes *)
| PTimer
| PRead (r : PumpRead).

(** [Some true] is [Ok(())], [Some false] an [Err]. *)
Record Pump := mkPump {
  p_result : option bool;
  p_written : bytes;
  p_shut : bool;
  local_writable : bool;
  local_read_closed : bool;
  p_out : Outbox;
  next_c2r_seq : Z
}.

Section PumpOps.
Context (sid0 : SessionId).

Definition flush_c2r_batch (p : Pump) : Pump :=
  mkPump (p_result p) (p_written p) (p_shut p) (local_writable p) (local_read_closed p)
    (flush_batch (p_out p)) (next_c2r_seq p).

(** The caller takes the next number, builds the frame and pushes it. *)
Definition push_c2r_frame (now : Z) (p : Pump) (kind : FrameKind) (payload : bytes) (flush_now : bool) : Pump :=
  mkPump (p_result p) (p_written p) (p_shut p) (local_writable p) (local_read_closed p)
    (push_frame true now (p_out p) (build_wire_frame kind sid0 (next_c2r_seq p) payload) flush_now)
    (wrap 64 (next_c2r_seq p + 1)).

Definition finish (p : Pump) (ok : bool) : Pump :=
  mkPump (Some ok) (p_written p) (p_shut p) (local_writable p) (local_read_closed p) (p_out p) (next_c2r_seq p).
Definition p_write (p : Pump) (b : bytes) : Pump :=
  mkPump (p_result p) (p_written p ++ b) (p_shut p) (local_writable p) (local_read_closed p) (p_out p) (next_c2r_seq p).
Definition p_shutdown (p : Pump) : Pump :=
  mkPump (p_result p) (p_written p) true false (local_read_closed p) (p_out p) (next_c2r_seq p).
Definition p_read_closed (p : Pump) : Pump :=
  mkPump (p_result p) (p_written p) (p_shut p) (local_writable p) true (p_out p) (next_c2r_seq p).

Definition pump_inbound (now : Z) (p : Pump) (m : option ClientInbound) (write_ok : option nat) : Pump :=
  match m with
  | Some (CData b) =>
    if negb (local_writable p) then p
    else match write_ok with
         | None => p_write p b
         | Some n => finish (push_c2r_frame now (p_write p (take n b)) Close [] true) false
         end
  | Some CEof =>
    let p := p_shutdown p in
    if local_read_closed p then finish (push_c2r_frame now p Close [] true) true else p
  | Some CClose | None => finish (flush_c2r_batch p) true
  end.

Definition pump_read (now : Z) (p : Pump) (r : PumpRead) : Pump :=
  match r with
  | PRdEof =>
    let p := p_read_closed (push_c2r_frame now p Eof [] true) in
    if negb (local_writable p) then finish (push_c2r_frame now p Close [] true) true else p
  | PRdData b => push_c2r_frame now p Data b false
  | PRdErr => finish (push_c2r_frame now p Close [] true) false
  end.

Definition pump_step (now : Z) (p : Pump) (ev : PumpEvent) : option Pump :=
  match p_result p with
  | Some _ => None
  | None =>
    match ev with
    | PRecv m wr => Some (pump_inbound now p m wr)
    | PTimer =>
      match flush_deadline (p_out p) with
      | Some deadline => if deadline <=? now then Some (flush_c2r_batch p) else None
      | None => None
      end
    | PRead r => if local_read_closed p then None else Some (pump_read now p r)
    end
  end.
End PumpOps.

(** ** Opening a session: what [tunnel_connection_with_preface] has done when it enters
    the pump, its first upload queued *)
Definition open_session (sid : SessionId) (host : str) (port : Z) (initial_client_bytes : bytes)
    (r : Preface) : res Pump unit :=
  let next_c2r_seq := 1 in
  let? (open_data_frames, next) :=
    if bool_decide (initial_client_bytes = []) then read_open_preface_frames r sid next_c2r_seq
    else Ok (data_frames_from_bytes sid next_c2r_seq initial_client_bytes) in
  Ok (mkPump None [] false true false
        (mkOutbox [] 0 None [frames (build_session_open_batch sid host port open_data_frames)]) next).

(** ** Runs of the pump *)
Section PumpRuns.
Context (sid0 : SessionId).

Definition pump_event_ok (ev : PumpEvent) : Prop :=
  match ev with PRead (PRdData b) => 0 < len b <= LOCAL_SOCKET_READ_BUFFER /\ bytes_ok b | _ => True end.

Inductive pump_trace (p0 : Pump) : list PumpEvent -> Pump -> Prop :=
| ptrace_start : pump_trace p0 [] p0
| ptrace_step evs p now ev p' :
    pump_trace p0 evs p -> pump_event_ok ev -> pump_step sid0 now p ev = Some p' ->
    pump_trace p0 (evs ++ [ev]) p'.

Definition pmsgs (evs : list PumpEvent) : list (option ClientInbound) :=
  omap (fun ev => match ev with PRecv m _ => Some m | _ => None end) evs.
Definition preads (evs : list PumpEvent) : bytes :=
  evs ≫= (fun ev => match ev with PRead (PRdData b) => b | _ => [] end).

Fixpoint cdata_until_eof (ms : list (option ClientInbound)) : bytes :=
  match ms with Some (CData b) :: ms' => b ++ cdata_until_eof ms' | _ => [] end.

Definition all_data (ms : list (option ClientInbound)) : Prop :=
  Forall (fun m => match m with Some (CData _) => True | _ => False end) ms.
#[local] Instance all_data_dec ms : Decision (all_data ms).
Proof. apply Forall_dec. intros [[| |]|]; apply _. Defined.

Lemma cdata_open ms ms' : all_data ms -> cdata_until_eof (ms ++ ms') = cdata_until_eof ms ++ cdata_until_eof ms'.
Proof. induction 1 as [|[[b| |]|] ms Hm _ IH]; cbn; try done. by rewrite IH, app_assoc. Qed.

Lemma cdata_closed ms ms' : ~ all_data ms -> cdata_until_eof (ms ++ ms') = cdata_until_eof ms.
Proof.
  induction ms as [|m ms IH]; intros Hn; [destruct Hn; constructor|].
  destruct m as [[b| |]|]; cbn; try done. f_equal. apply IH. intros Ho. apply Hn. by constructor.
Qed.

Lemma cdata_quiet ms m :
  (forall b, m <> Some (CData b)) \/ ~ all_data ms -> cdata_until_eof (ms ++ [m]) = cdata_until_eof ms.
Proof.
  intros H. destruct (decide (all_data ms)) as [Ho|Ho]; [|by apply cdata_closed].
  rewrite cdata_open by done. destruct H as [H|H]; [|done].
  destruct m as [[b| |]|]; cbn; try apply app_nil_r. by destruct (H b).
Qed.

Lemma preads_snoc evs ev :
  preads (evs ++ [ev]) = preads evs ++ match ev with PRead (PRdData b) => b | _ => [] end.
Proof. unfold preads. rewrite bind_app. f_equal. destruct ev as [| |[| |]]; cbn; by rewrite ?app_nil_r. Qed.

Lemma pmsgs_snoc evs ev : pmsgs (evs ++ [ev]) = pmsgs evs ++ match ev with PRecv m _ => [m] | _ => [] end.
Proof. unfold pmsgs. rewrite omap_app. by destruct ev. Qed.

(** What may follow the data: nothing while the local side is read, then its Eof, and a
    final Close. *)
Definition ptail_ok (p : Pump) (tail : list FrameKind) : Prop :=
  match p_result p with
  | None => tail = if local_read_closed p then [Eof] else []
  | Some _ => tail ∈ [[]; [Eof]; [Close]; [Eof; Close]]
  end.

(** [init] is what the session opener already sent. *)
Record pump_inv (init : bytes) (evs : list PumpEvent) (p : Pump) : Prop := {
  pi_out : outbox_ok sid0 (p_out p);
  pi_next : next_c2r_seq p = wrap 64 (Z.of_nat (length (stream (p_out p))));
  pi_data : data_bytes (stream (p_out p)) = init ++ preads evs;
  pi_kinds : exists n tail, kind <$> stream (p_out p) = Connect :: replicate n Data ++ tail /\ ptail_ok p tail;
  pi_exit : p_result p <> None -> pending (p_out p) = [];
  pi_written : p_written p `prefix_of` cdata_until_eof (pmsgs evs);
  pi_pump : p_result p = None ->
    p_written p = cdata_until_eof (pmsgs evs) /\ (local_writable p = true <-> all_data (pmsgs evs))
}.

Lemma nil_small : len (@nil Z) <= READ_BUFFER.
Proof. vm_compute. discriminate. Qed.
Lemma nil_bytes_ok : bytes_ok [].
Proof. constructor. Qed.
#[local] Hint Resolve nil_small nil_bytes_ok : core.

(** A frame pushed by the running pump; [p'] differs from the pushed state only in the
    fields the frame's kind determines. *)
Lemma ppush_inv init evs evs' p now k b fl rc result w sh lw :
  pump_inv init evs p -> p_result p = None ->
  len b <= READ_BUFFER -> bytes_ok b ->
  preads evs' = preads evs ++ frame_data (build_wire_frame k sid0 (next_c2r_seq p) b) ->
  (k, rc, result) ∈ [(Data, false, None); (Eof, true, None)] /\ local_read_closed p = false
    \/ k = Close /\ is_Some result /\ fl = true ->
  w `prefix_of` cdata_until_eof (pmsgs evs') ->
  (result = None -> w = cdata_until_eof (pmsgs evs') /\ (lw = true <-> all_data (pmsgs evs'))) ->
  pump_inv init evs'
    (mkPump result w sh lw rc (p_out (push_c2r_frame sid0 now p k b fl))
       (next_c2r_seq (push_c2r_frame sid0 now p k b fl))).
Proof.
  intros [Ho Hnx Hrd (n & tail & Hk & Ht) _ _ _] Hp Hl Hb Hre Hcase Hw Hpump.
  destruct (push_next sid0 true now (p_out p) _ k b fl Ho Hnx Hl Hb) as (Ho' & Hnx' & Hst).
  unfold ptail_ok in Ht. rewrite Hp in Ht.
  split; cbn; auto.
  - unfold build_wire_frame. by rewrite Hst, data_bytes_snoc, Hrd, Hre, app_assoc.
  - unfold build_wire_frame. rewrite Hst, kinds_snoc, Hk. cbn [kind]. unfold ptail_ok. cbn.
    destruct Hcase as [[Hin Hrc]|(-> & [r ->] & _)].
    + rewrite Hrc in Ht. subst tail. rewrite app_nil_r.
      apply elem_of_cons in Hin as [[= -> -> ->]|[[= -> -> ->]|Hin%not_elem_of_nil]%elem_of_cons]; [| |done].
      * exists (n + 1)%nat, []. split; [|done]. cbn. by rewrite app_nil_r, replicate_add.
      * exists n, [Eof]. done.
    + exists n, (tail ++ [Close]). split; [cbn; by rewrite app_assoc|]. subst tail.
      destruct (local_read_closed p); set_solver.
  - intros Hr. destruct Hcase as [[Hin _]|(_ & _ & ->)]; [|apply push_now_flushed].
    apply elem_of_cons in Hin as [[= -> -> ->]|[[= -> -> ->]|Hin%not_elem_of_nil]%elem_of_cons]; done.
Qed.

Lemma pflush_inv init evs evs' p result :
  pump_inv init evs p -> p_result p = None -> preads evs' = preads evs ->
  p_written p `prefix_of` cdata_until_eof (pmsgs evs') ->
  (result = None -> p_written p = cdata_until_eof (pmsgs evs') /\ (local_writable p = true <-> all_data (pmsgs evs'))) ->
  pump_inv init evs' (mkPump result (p_written p) (p_shut p) (local_writable p) (local_read_closed p)
    (flush_batch (p_out p)) (next_c2r_seq p)).
Proof.
  intros [Ho Hnx Hrd (n & tail & Hk & Ht) _ _ _] Hp Hre Hw Hpump.
  split; cbn; rewrite ?stream_flush, ?Hre; auto; [by apply flush_ok| |intros _; apply flush_pending].
  exists n, tail. split; [done|]. unfold ptail_ok in *. cbn. rewrite Hp in Ht. subst tail.
  destruct result; [|done]. destruct (local_read_closed p); set_solver.
Qed.

Lemma pump_inbound_inv init evs p now m wr :
  pump_inv init evs p -> p_result p = None ->
  pump_inv init (evs ++ [PRecv m wr]) (pump_inbound sid0 now p m wr).
Proof.
  intros Hi Hp. destruct (pi_pump _ _ _ Hi Hp) as [Hw Hpw].
  assert (preads (evs ++ [PRecv m wr]) = preads evs) as Hre by (rewrite preads_snoc; apply app_nil_r).
  assert ((forall b, m <> Some (CData b)) \/ local_writable p = false ->
    cdata_until_eof (pmsgs (evs ++ [PRecv m wr])) = p_written p) as Hq.
  { intros Hm. rewrite pmsgs_snoc, Hw. apply cdata_quiet. destruct Hm as [?|Hm]; [by left|right].
    intros Ha. apply Hpw in Ha. congruence. }
  destruct m as [[b| |]|]; cbn [pump_inbound].
  - destruct (local_writable p) eqn:Elw; cbn [negb].
    + assert (cdata_until_eof (pmsgs (evs ++ [PRecv (Some (CData b)) wr])) = p_written p ++ b) as Hd.
      { rewrite pmsgs_snoc, cdata_open, Hw by (by apply Hpw). cbn. by rewrite app_nil_r. }
      destruct wr as [n|].
      * apply (ppush_inv init evs _ p); auto; [by rewrite Hre, app_nil_r| |done].
        cbn. rewrite Hd. apply prefix_app, prefix_take.
      * destruct Hi as [Ho Hnx Hrd Hk Hex _ _]. split; cbn; rewrite ?Hre, ?Hd; auto.
        intros _. split; [done|]. rewrite Elw, pmsgs_snoc. unfold all_data in *. rewrite Forall_app, Forall_singleton.
        split; [|done]. intros _. split; [by apply Hpw|done].
    + destruct Hi as [Ho Hnx Hrd Hk Hex _ _].
      assert (~ all_data (pmsgs evs)) as Hn by (intros Ha; apply Hpw in Ha; congruence).
      split; cbn; rewrite ?Hre, ?Hq by (by right); auto. intros _. split; [done|].
      rewrite Elw, pmsgs_snoc. unfold all_data in *. rewrite Forall_app. split; [done|tauto].
  - cbn. destruct (local_read_closed p) eqn:Erc.
    + apply (ppush_inv init evs _ p); auto; [by rewrite Hre, app_nil_r| |done].
      cbn. by rewrite Hq by (by left).
    + destruct Hi as [Ho Hnx Hrd Hk Hex _ _]. split; cbn; rewrite ?Hre, ?Hq by (by left); auto.
      intros _. split; [done|]. split; [done|]. rewrite pmsgs_snoc. unfold all_data.
      rewrite Forall_app, Forall_singleton. tauto.
  - apply (pflush_inv init evs _ p (Some true)); auto; [by rewrite Hq by (by left)|done].
  - apply (pflush_inv init evs _ p (Some true)); auto; [by rewrite Hq by (by left)|done].
Qed.

Lemma pump_read_inv init evs p now r :
  pump_inv init evs p -> p_result p = None -> local_read_closed p = false -> pump_event_ok (PRead r) ->
  pump_inv init (evs ++ [PRead r]) (pump_read sid0 now p r).
Proof.
  intros Hi Hp Hrc Hev. assert (pmsgs (evs ++ [PRead r]) = pmsgs evs) as Hms by (rewrite pmsgs_snoc; apply app_nil_r).
  pose proof (pi_pump _ _ _ Hi Hp) as Hpump. destruct r as [|b|]; cbn [pump_read].
  - assert (pump_inv init (evs ++ [PRead PRdEof]) (p_read_closed (push_c2r_frame sid0 now p Eof [] true))) as Hc.
    { rewrite <- Hms in Hpump. unfold p_read_closed. cbn. rewrite Hp.
      apply (ppush_inv init evs _ p now Eof [] true); auto; [apply preads_snoc|left; set_solver|].
      by rewrite <- (proj1 Hpump). }
    destruct (negb _) eqn:Elw; [|done]. unfold finish.
    apply (ppush_inv init (evs ++ [PRead PRdEof]) _ (p_read_closed (push_c2r_frame sid0 now p Eof [] true)) now Close [] true);
      auto; [by rewrite app_nil_r|rewrite Hms; apply Hi|done].
  - destruct Hev as [Hl Hb]. unfold push_c2r_frame. rewrite Hp, Hrc. rewrite <- Hms in Hpump.
    apply (ppush_inv init evs _ p now Data b false); auto; [unfold LOCAL_SOCKET_READ_BUFFER in Hl; lia|apply preads_snoc|left; set_solver|].
    by rewrite <- (proj1 Hpump).
  - unfold finish. apply (ppush_inv init evs _ p now Close [] true); auto;
      [by rewrite preads_snoc|rewrite Hms; apply Hi|done].
Qed.

Lemma pump_trace_inv init p0 evs p :
  pump_inv init [] p0 -> pump_trace p0 evs p -> pump_inv init evs p.
Proof.
  intros H0. induction 1 as [|evs p now ev p' Htr IH Hev Hst]; [done|].
  unfold pump_step in Hst. destruct (p_result p) eqn:Hp; [done|]. destruct ev as [m wr| |r].
  - injection Hst as <-. by apply pump_inbound_inv.
  - destruct (flush_deadline (p_out p)); [|done]. destruct (_ <=? _); simplify_eq.
    pose proof (pi_pump _ _ _ IH Hp) as Hpump.
    assert (pmsgs (evs ++ [PTimer]) = pmsgs evs) as Hms by (rewrite pmsgs_snoc; apply app_nil_r).
    unfold flush_c2r_batch. rewrite Hp. apply (pflush_inv init evs); rewrite ?Hms; auto; [|apply IH].
    rewrite preads_snoc. apply app_nil_r.
  - destruct (local_read_closed p) eqn:Hrc; simplify_eq. by apply pump_read_inv.
Qed.
End PumpRuns.

(** ** The opener establishes the invariant *)
Lemma chunks_concat fuel n b : (0 < n)%nat -> (length b <= fuel)%nat -> concat (chunks fuel n b) = b.
Proof.
  intros Hn. revert b. induction fuel as [|fuel IH]; intros [|x b] Hl; cbn in *; try done; [lia|].
  destruct n as [|n]; [lia|]. cbn [take drop]. cbn. f_equal. rewrite IH, take_drop; [done|].
  rewrite length_drop. lia.
Qed.

Lemma chunks_count fuel n b :
  (0 < n)%nat -> (length (chunks fuel n b) * n <= length b + n - 1)%nat.
Proof.
  intros Hn. revert b. induction fuel as [|fuel IH]; intros [|x b]; cbn [chunks length]; try lia.
  destruct (decide (n <= S (length b))%nat) as [Hle|Hgt].
  - specialize (IH (drop n (x :: b))). rewrite length_drop in IH. cbn [length] in IH. lia.
  - rewrite (drop_ge (x :: b)) by (cbn; lia). destruct fuel; cbn; lia.
Qed.

Lemma chunks_sizes fuel n b : Forall (fun c => (length c <= n)%nat) (chunks fuel n b).
Proof.
  revert b. induction fuel as [|fuel IH]; intros [|x b]; cbn [chunks]; constructor; [|apply IH].
  rewrite length_take. lia.
Qed.

Lemma data_frames_spec sid0 cs q :
  let '(fs, q') := data_frames sid0 q cs in
  payload <$> fs = cs /\ kind <$> fs = replicate (length cs) Data
  /\ (forall k, q = wrap 64 (Z.of_nat k) -> q' = wrap 64 (Z.of_nat (k + length cs))
       /\ (Forall bytes_ok cs -> forall i f, fs !! i = Some f -> numbered sid0 (k + i) f)).
Proof.
  revert q. induction cs as [|c cs IH]; intros q; cbn.
  { split_and!; auto. intros k ->. by rewrite Nat.add_0_r. }
  specialize (IH (wrap 64 (q + 1))). destruct (data_frames _ _ cs) as [fs q'].
  destruct IH as (Hp & Hk & IH). cbn. rewrite Hp, Hk. split_and!; auto.
  intros k ->. destruct (IH (S k)) as [-> Hn].
  { unfold wrap. rewrite Zplus_mod_idemp_l. f_equal. lia. }
  split; [f_equal; lia|]. intros Hb. inversion_clear Hb as [|? ? Hc Hcs]. intros [|i] f; cbn.
  - intros [= <-]. rewrite Nat.add_0_r. by split.
  - intros Hi. replace (k + S i)%nat with (S k + i)%nat by lia. by apply Hn.
Qed.

Lemma payload_sum_data fs : payload_sum fs = len (concat (payload <$> fs)).
Proof. induction fs as [|f fs IH]; cbn; [done|]. rewrite len_app, <- IH. done. Qed.

Lemma data_bytes_data fs : Forall (fun f => kind f = Data) fs -> data_bytes fs = concat (payload <$> fs).
Proof. induction 1 as [|f fs Hf Hfs IH]; cbn; [done|]. rewrite <- IH. unfold frame_data at 1. by rewrite Hf. Qed.

(** What the opener sends before the pump starts. *)
Definition open_bytes (initial_client_bytes : bytes) (r : Preface) : bytes :=
  if bool_decide (initial_client_bytes = []) then match r with PrBytes b => b | _ => [] end
  else initial_client_bytes.

(** The first upload: an acceptable target, and at most a megabyte of early data. *)
Record open_ok (sid0 : SessionId) (host : str) (port : Z) (initial : bytes) (r : Preface) : Prop := {
  oo_sid : sid_ok sid0;
  oo_target : bytes_ok (as_bytes (host_port host port)) /\ len (as_bytes (host_port host port)) <= READ_BUFFER;
  oo_initial : bytes_ok initial /\ len initial <= BATCH_FLUSH_BYTES;
  oo_read : match r with PrBytes b => 0 < len b <= LOCAL_SOCKET_READ_BUFFER /\ bytes_ok b | _ => True end
}.

(** The opener's data frames, however they were obtained. *)
Lemma open_frames sid0 host port initial r p0 :
  open_ok sid0 host port initial r -> open_session sid0 host port initial r = Ok p0 ->
  exists fs, p0 = mkPump None [] false true false
      (mkOutbox [] 0 None [build_wire_frame Connect sid0 0 (as_bytes (host_port host port)) :: fs])
      (wrap 64 (Z.of_nat (1 + length fs)))
    /\ (forall i f, fs !! i = Some f -> numbered sid0 (1 + i) f)
    /\ kind <$> fs = replicate (length fs) Data
    /\ concat (payload <$> fs) = open_bytes initial r
    /\ (length fs <= 64)%nat /\ len (open_bytes initial r) <= BATCH_FLUSH_BYTES.
Proof.
  intros [Hs _ [Hib Hil] Hr]. unfold open_session, open_bytes. case_bool_decide as Hi.
  - unfold read_open_preface_frames.
    destruct r as [| |b|]; cbn [res_bind]; [..|done]; intros [= <-]; [exists []|exists []|].
    1-2: split_and!; try done; cbn; try lia; vm_compute; discriminate.
    destruct Hr as [Hl Hb]. exists [build_wire_frame Data sid0 1 b]. split_and!; cbn; auto; try lia.
    + intros [|i] f; cbn; [|done]. intros [= <-]. by split.
    + by rewrite app_nil_r.
    + unfold LOCAL_SOCKET_READ_BUFFER, READ_BUFFER, BATCH_FLUSH_BYTES in *. lia.
  - cbn [res_bind]. unfold data_frames_from_bytes.
    set (cs := chunks _ _ initial).
    assert (concat cs = initial) as Hcs by (apply chunks_concat; vm_compute; lia).
    assert (Forall bytes_ok cs) as Hcb.
    { apply Forall_forall. intros c Hc. apply Forall_forall. intros z Hz.
      apply (proj1 (Forall_forall _ _) Hib). rewrite <- Hcs. apply list_elem_of_In, in_concat.
      exists c. by rewrite <- !list_elem_of_In. }
    pose proof (data_frames_spec sid0 cs 1) as Hd. destruct (data_frames sid0 1 cs) as [fs q].
    destruct Hd as (Hp & Hk & Hn). destruct (Hn 1%nat eq_refl) as [-> Hnum]. intros [= <-].
    assert (length fs = length cs) as Hlen by (by rewrite <- Hp, length_fmap).
    exists fs. rewrite Hlen, Hp, Hcs. split_and!; auto.
    pose proof (chunks_count (length initial) (Z.to_nat LOCAL_SOCKET_READ_BUFFER) initial ltac:(vm_compute; lia)) as Hc.
    fold cs in Hc. unfold len, LOCAL_SOCKET_READ_BUFFER, READ_BUFFER, BATCH_FLUSH_BYTES in *. lia.
Qed.

Lemma open_inv sid0 host port initial r p0 :
  open_ok sid0 host port initial r -> open_session sid0 host port initial r = Ok p0 ->
  pump_inv sid0 (open_bytes initial r) [] p0.
Proof.
  intros Hok Ho. destruct (open_frames _ _ _ _ _ _ Hok Ho) as (fs & -> & Hn & Hk & Hd & Hl & Hb).
  destruct Hok as [Hs [Htb Htl] _ _].
  split; cbn [p_out p_result p_written local_writable next_c2r_seq local_read_closed]; auto; try done.
  - split; cbn [stream uploads pending pending_bytes flush_deadline concat].
    + unfold stream. cbn. rewrite !app_nil_r. intros [|i] f; cbn; [|apply Hn]. intros [= <-]. by split.
    + constructor; [|constructor]. split; [rewrite len_cons; unfold len, BATCH_MAX_FRAMES; lia|].
      cbn [payload_sum]. rewrite payload_sum_data, Hd. cbn [payload build_wire_frame]. lia.
    + done.
    + split; reflexivity.
    + done.
  - unfold stream. cbn. rewrite !app_nil_r. cbn. done.
  - unfold stream. cbn. rewrite !app_nil_r. rewrite data_bytes_data; [done|].
    apply Forall_forall. intros f Hf. assert (kind f ∈ replicate (length fs) Data) as Hr.
    { rewrite <- Hk. apply list_elem_of_fmap. eauto. }
    by apply elem_of_replicate in Hr as [-> _].
  - exists (length fs), []. unfold stream. cbn. rewrite !app_nil_r. split; [by rewrite Hk|done].
  - split; [done|]. split; [constructor|done].
Qed.

(** ** Properties *)

(** Claim C10: the outbound stream of a client session.  From the opener on, however
    mailbox messages, timer expiries and local reads interleave, what the client has
    handed to uploads is a log the relay accepts (frames numbered 0, 1, 2, ... across
    batches, sealed bodies under the cap); it starts with the Connect to the requested
    target, its data is exactly the early bytes followed by everything read from the
    local socket, in order, then at most Eof and Close; and once the pump has returned
    nothing is left pending. *)
Theorem client_session_stream {P : CryptoPrims} {L : CryptoLaws P} sid0 host port initial r p0 evs p k :
  open_ok sid0 host port initial r -> open_session sid0 host port initial r = Ok p0 ->
  pump_trace sid0 p0 evs p -> Z.of_nat (length (stream (p_out p))) <= 2 ^ 64 ->
  log_ok sid0 (uploads (p_out p))
  /\ Forall (fun fs => forall q, len (AeadCipher_seal k sid0 q (Batch_encode (mkBatch fs)))
                                 <= MAX_SEALED_FRAME_BODY_BYTES) (uploads (p_out p))
  /\ data_bytes (stream (p_out p)) = open_bytes initial r ++ preads evs
  /\ (exists n tail, kind <$> stream (p_out p) = Connect :: replicate n Data ++ tail
        /\ tail ∈ [[]; [Eof]; [Close]; [Eof; Close]])
  /\ (p_result p <> None -> concat (uploads (p_out p)) = stream (p_out p)).
Proof.
  intros Hok Ho Htr Hlen.
  destruct (pump_trace_inv sid0 _ p0 evs p (open_inv _ _ _ _ _ _ Hok Ho) Htr)
    as [Hob _ Hd (n & tail & Hk & Ht) Hex _ _].
  destruct Hok as [Hs _ _ _]. split_and!; auto; [by apply uploads_log_ok|by apply uploads_sealed| |].
  - exists n, tail. split; [done|]. unfold ptail_ok in Ht. destruct (p_result p); [done|]. subst tail.
    destruct (local_read_closed p); set_solver.
  - intros He. unfold stream. by rewrite (Hex He), app_nil_r.
Qed.

(** The inbound direction of the client.  The bytes written to the local
    socket are a prefix of the data of the events before the relay's first Eof or
    Close, and all of it as long as the pump runs. *)
Theorem client_session_writes sid0 host port initial r p0 evs p :
  open_ok sid0 host port initial r -> open_session sid0 host port initial r = Ok p0 ->
  pump_trace sid0 p0 evs p ->
  p_written p `prefix_of` cdata_until_eof (pmsgs evs)
  /\ (p_result p = None -> p_written p = cdata_until_eof (pmsgs evs)).
Proof.
  intros Hok Ho Htr. pose proof (pump_trace_inv sid0 _ p0 evs p (open_inv _ _ _ _ _ _ Hok Ho) Htr) as Hi.
  split; [apply Hi|]. intros Hp. by apply (pi_pump _ _ _ _ Hi).
Qed.

(** *** A concrete session *)
Fixpoint run_pump (sid0 : SessionId) (p : Pump) (evs : list PumpEvent) : option Pump :=
  match evs with
  | [] => Some p
  | ev :: evs' => pump_step sid0 0 p ev ≫= fun p' => run_pump sid0 p' evs'
  end.

Lemma run_pump_trace sid0 p0 p pre evs p' :
  pump_trace sid0 p0 pre p -> Forall pump_event_ok evs -> run_pump sid0 p evs = Some p' ->
  pump_trace sid0 p0 (pre ++ evs) p'.
Proof.
  revert p pre. induction evs as [|ev evs IH]; intros p pre Ht He Hr; cbn in Hr.
  { rewrite app_nil_r. by simplify_eq. }
  inversion_clear He as [|? ? He1 He2]. destruct (pump_step _ _ _ _) as [p1|] eqn:Ed; [|done].
  replace (pre ++ ev :: evs) with ((pre ++ [ev]) ++ evs) by (by rewrite <- app_assoc).
  eapply IH; [by eapply ptrace_step|done|exact Hr].
Qed.

Definition sample_host : str := Eval cbv in lit "example.org".
Definition sample_pump0 : Pump :=
  Eval vm_compute in match open_session sample_sid sample_host 443 [] (PrBytes [22; 3; 1]) with Ok p => p | _ =>
    mkPump None [] false true false empty_outbox 0 end.
Definition sample_pump_events : list PumpEvent :=
  [PRead (PRdData [7; 7]); PRead (PRdData [8]); PRecv (Some (CData [72; 73])) None;
   PRead PRdEof; PRecv (Some CEof) None].
Definition sample_pump : Pump :=
  Eval vm_compute in default sample_pump0 (run_pump sample_sid sample_pump0 sample_pump_events).

Lemma sample_open_ok : open_ok sample_sid sample_host 443 [] (PrBytes [22; 3; 1]).
Proof.
  split; [apply sample_sid_ok|..]; split; try (vm_compute; intuition discriminate);
    repeat (apply Forall_cons; split); try apply Forall_nil; vm_compute; intuition discriminate.
Qed.

Lemma sample_open : open_session sample_sid sample_host 443 [] (PrBytes [22; 3; 1]) = Ok sample_pump0.
Proof. vm_compute. reflexivity. Qed.

Lemma sample_pump_trace : pump_trace sample_sid sample_pump0 sample_pump_events sample_pump.
Proof.
  apply (run_pump_trace sample_sid sample_pump0 sample_pump0 []); [constructor| |vm_compute; reflexivity].
  repeat (apply Forall_cons; split); try apply Forall_nil; try exact I;
    (split; [vm_compute; intuition discriminate|]);
    repeat (apply Forall_cons; split); try apply Forall_nil; unfold is_u8; lia.
Qed.

Lemma client_session_stream_witness :
  log_ok sample_sid (uploads (p_out sample_pump))
  /\ data_bytes (stream (p_out sample_pump)) = [22; 3; 1; 7; 7; 8].
Proof.
  destruct (client_session_stream sample_sid sample_host 443 [] (PrBytes [22; 3; 1]) sample_pump0 sample_pump_events
    sample_pump [] sample_open_ok sample_open sample_pump_trace ltac:(vm_compute; discriminate)) as (H1 & _ & H2 & _).
  split; [exact H1|exact H2].
Defined.

Lemma client_session_writes_witness : p_written sample_pump `prefix_of` [72; 73].
Proof.
  exact (proj1 (client_session_writes sample_sid sample_host 443 [] (PrBytes [22; 3; 1]) sample_pump0 sample_pump_events
    sample_pump sample_open_ok sample_open sample_pump_trace)).
Defined.
