(* ===== verification/ClientPoll.v ===== *)
(** * src/drive_client.rs: the client's r2c poller

    The session table of the mux, one session's r2c files, one poll cycle, and the
    registration and removal of sessions around it. *)

From stdpp Require Import prelude gmap sorting relations.
From S2P Require Import Prelude RustStr ListSort Frame Filename Crypto Mailbox Outbox DriveClient.
#[local] Open Scope Z_scope.
#[local] Existing Instance client_endpoint.

Record ClientHandle := mkCHandle {
  ch_keys : SessionKeys;
  ch_replay : ReplayWindow;
  ch_inbound_tx : Chan ClientInbound
}.

Record Mux := mkMux {
  mux_sessions : gmap SessionId ClientHandle;
  mux_deleted : gset str
}.

(** One cycle's surroundings; [c_dropped]: the session's guard removed it after the
    listing was filtered. *)
Record ClientEnv := mkCEnv {
  c_token : option str;
  c_now_utc : Z;
  c_list : option str -> option (list DriveFile);
  c_download : str -> Z -> Download;
  c_finish : str -> Z;
  c_dropped : SessionId -> bool
}.

Definition mux_delete_files (m : Mux) (fs : list str) : Mux :=
  mkMux (mux_sessions m) (list_to_set fs ∪ mux_deleted m).

(** Registration before the first upload, and the guard's removal on exit. *)
Definition register_session (m : Mux) (keys : SessionKeys) (closes : option nat) : Mux :=
  mkMux (<[keys_sid keys := mkCHandle keys ReplayWindow_new (mkChan [] closes)]> (mux_sessions m)) (mux_deleted m).
Definition SessionGuard_drop (m : Mux) (sid : SessionId) : Mux :=
  mkMux (base.delete sid (mux_sessions m)) (mux_deleted m).

Section Client.
Context {P : CryptoPrims} {T : TimeFormat}.

(** The literal translation of [prepare_r2c_batch]; [prepare_r2c_batch_mailbox] shows it
    is the mailbox's. *)
Definition prepare_r2c_batch (download : str -> Z -> Download) (keys : SessionKeys) (file : DriveFile)
    (parsed : DriveFilename) : list str * res (option Prepared) unit :=
  if match size file with Some n => MAX_SEALED_FRAME_BODY_BYTES <? n | None => false end
  then ([id file], Ok None)
  else
    match download (id file) MAX_SEALED_FRAME_BODY_BYTES with
    | DlTooLarge => ([id file], Ok None)
    | DlFailed => ([], Err tt)
    | DlBody sealed =>
      match AeadCipher_open (k_r2c keys) (fsid parsed) (fseq parsed) sealed with
      | Ok plaintext =>
        match Batch_decode plaintext with
        | Ok batch =>
          match frames batch with
          | [] => ([], Ok None)
          | f :: _ => if negb (seq f =? fseq parsed) then ([], Ok None)
                      else ([], Ok (Some (mkPrepared file parsed batch)))
          end
        | _ => ([], Ok None)
        end
      | _ => ([], Ok None)
      end
    end.

Lemma prepare_r2c_batch_mailbox download keys file parsed :
  prepare_r2c_batch download keys file parsed = prepare_batch download keys file parsed None.
Proof.
  unfold prepare_r2c_batch, prepare_batch, open_batch. change (max_total (fseq parsed)) with MAX_SEALED_FRAME_BODY_BYTES.
  destruct (match size file with Some _ => _ | None => _ end); [done|].
  destruct (download _ _) as [sealed| |]; [|done..].
  cbn [prefix_len client_endpoint in_key Z.to_nat drop]. pose proof (len_nonneg sealed).
  destruct (Z.ltb_spec (len sealed) 0); [lia|].
  destruct (AeadCipher_open _ _ _ _) as [pt| |]; [|done..]. destruct (Batch_decode pt) as [batch| |]; [|done..].
  destruct (frames batch) as [|f fs]; [done|]. by destruct (negb _).
Qed.

Definition process_r2c_group (e : ClientEnv) (m : Mux) (group : list Entry) : Mux :=
  match group with
  | [] => m
  | (_, parsed0) :: _ =>
    let sid := fsid parsed0 in
    let m := if c_dropped e sid then SessionGuard_drop m sid else m in
    match mux_sessions m !! sid with
    | None => mux_delete_files m ((fun en => id (fst en)) <$> group)
    | Some h =>
      let '(b, del) := process_group (c_download e) (c_finish e) (ch_keys h) None group
                         (mkInbox (ch_replay h) (ch_inbound_tx h) false) in
      mux_delete_files
        (mkMux (<[sid := mkCHandle (ch_keys h) (window b) (tx b)]> (mux_sessions m)) (mux_deleted m)) del
    end
  end.

Definition r2c_entry (known_sids : gset SessionId) (f : DriveFile) : option Entry :=
  match parse_filename (name f) with
  | Some p =>
    if bool_decide (fkind p = KFrame RelayToClient) && bool_decide (fsid p ∈ known_sids)
    then Some (f, p) else None
  | None => None
  end.

Definition run_r2c_workers (e : ClientEnv) (m : Mux) (groups : list (SessionId * list Entry)) : Mux :=
  fold_left (fun m g => process_r2c_group e m (snd g)) groups m.

Definition client_run_one_cycle (e : ClientEnv) (m : Mux) (modified_cursor : option str)
    : Mux * option str * bool :=
  match c_token e with
  | None => (m, modified_cursor, false)
  | Some _ =>
    match c_list e modified_cursor with
    | None => (m, modified_cursor, false)
    | Some files =>
      let cursor := advance_modified_cursor files modified_cursor (c_now_utc e) in
      let known_sids := dom (mux_sessions m) in
      match omap (r2c_entry known_sids) files with
      | [] => (m, cursor, false)
      | entries =>
        (run_r2c_workers e m (map_to_list (frames_by_sid (sort_by sid_seq_le entries))), cursor, true)
      end
    end
  end.

(** The loop's state and one iteration. *)
Record ClientPoller := mkCPoller {
  cp_mux : Mux; cp_cursor : option str; cp_interval_ms : Z; cp_empty_streak : Z
}.

Definition client_poll_step (baseline_ms : Z) (e : ClientEnv) (p : ClientPoller) : ClientPoller :=
  let '(m, cursor, found) := client_run_one_cycle e (cp_mux p) (cp_cursor p) in
  let sessions_present := negb (bool_decide (mux_sessions m = ∅)) in
  let '(streak, interval) := adapt_interval baseline_ms found (cp_empty_streak p) sessions_present in
  mkCPoller m cursor interval streak.
End Client.

(** ** One session of the table *)
Section OneClientSession.
Context {P : CryptoPrims} {T : TimeFormat}.
Context (sid0 : SessionId) (log : list (list WireFrame)) (K : SessionKeys).

(** Against what was sealed under the keys, by however many runs of the relay's driver. *)
Definition client_inv (sealed_at : nat -> list WireFrame -> Prop) (m : Mux) : Prop :=
  forall h, mux_sessions m !! sid0 = Some h -> ch_keys h = K ->
    exists fs, received_at sealed_at (ch_replay h) (ch_inbound_tx h) fs.

Definition sealed_only (sealed_at : nat -> list WireFrame -> Prop) (e : ClientEnv) : Prop :=
  forall f max body, c_download e f max = DlBody body -> authentic_at sid0 sealed_at (k_r2c K) body.

(** Against one stream. *)
Definition client_authentic (e : ClientEnv) : Prop :=
  forall f max body, c_download e f max = DlBody body -> authentic sid0 log (k_r2c K) body.

Definition my_r2c_group (known : gset SessionId) (files : list DriveFile) : list Entry :=
  filter (of_sid sid0) (sort_by sid_seq_le (omap (r2c_entry known) files)).

Lemma r2c_entry_ok known f en :
  r2c_entry known f = Some en -> fst en = f /\ parse_filename (name f) = Some (snd en)
    /\ fkind (snd en) = KFrame RelayToClient /\ is_u64 (fseq (snd en)).
Proof.
  unfold r2c_entry. destruct (parse_filename (name f)) as [p|] eqn:Ep; [|done].
  destruct (bool_decide _ && _) eqn:Eb; [|done]. intros [= <-].
  apply andb_true_iff in Eb as [Eb _]. apply bool_decide_eq_true in Eb.
  cbn. split_and!; auto. by apply parse_filename_ok in Ep as (_ & ? & _).
Qed.

Lemma elem_of_my_r2c_group known files en :
  en ∈ my_r2c_group known files <->
    fst en ∈ files /\ r2c_entry known (fst en) = Some en /\ fsid (snd en) = sid0.
Proof.
  unfold my_r2c_group. rewrite list_elem_of_filter, elem_of_sort_by, list_elem_of_omap. split.
  - intros (Hs & f & Hf & He). destruct (r2c_entry_ok _ f en He) as (<- & _). auto.
  - intros (Hf & He & Hs). eauto.
Qed.

Lemma my_r2c_group_ok known files : group_ok sid0 (my_r2c_group known files).
Proof.
  apply Forall_forall. intros en (_ & He & Hs)%elem_of_my_r2c_group.
  by destruct (r2c_entry_ok _ _ _ He) as (_ & _ & _ & Hq).
Qed.

(** A worker leaves every other session alone. *)
Lemma r2c_group_other e m group s file parsed rest :
  group = (file, parsed) :: rest -> fsid parsed <> s ->
  mux_sessions (process_r2c_group e m group) !! s = mux_sessions m !! s.
Proof.
  intros -> Hs. cbn [process_r2c_group]. set (m1 := if c_dropped e _ then _ else _).
  assert (mux_sessions m1 !! s = mux_sessions m !! s) as H1.
  { unfold m1. destruct (c_dropped e _); [|done]. cbn. by rewrite lookup_delete_ne. }
  destruct (mux_sessions m1 !! fsid parsed) as [h|]; [|exact H1].
  destruct (process_group _ _ _ _ _ _) as [b del]. cbn. by rewrite lookup_insert_ne.
Qed.

Lemma r2c_workers_other e groups m s :
  Forall (fun g => exists file parsed rest, snd g = (file, parsed) :: rest /\ fsid parsed = fst g) groups ->
  s ∉ groups.*1 -> mux_sessions (run_r2c_workers e m groups) !! s = mux_sessions m !! s.
Proof.
  revert m. induction groups as [|g groups IH]; intros m Hh Hs; [done|].
  inversion_clear Hh as [|? ? (file & parsed & rest & Hg & Hf) Hh']. cbn in Hs |- *.
  apply not_elem_of_cons in Hs as [Hne Hs]. unfold run_r2c_workers in IH. rewrite IH by done.
  apply (r2c_group_other e m (snd g) s file parsed rest Hg). congruence.
Qed.

(** The cycle's effect on [sid0] is that of its own group. *)
Lemma r2c_workers_at e l m g :
  (sid0, g) ∈ map_to_list (frames_by_sid l) -> exists m1,
    mux_sessions m1 !! sid0 = mux_sessions m !! sid0 /\
    mux_sessions (run_r2c_workers e m (map_to_list (frames_by_sid l))) !! sid0
      = mux_sessions (process_r2c_group e m1 g) !! sid0.
Proof.
  intros Hin. set (groups := map_to_list (frames_by_sid l)) in *.
  assert (NoDup groups.*1) as Hnd by apply NoDup_fst_map_to_list.
  assert (Forall (fun g => exists file parsed rest, snd g = (file, parsed) :: rest /\ fsid parsed = fst g) groups) as Hh.
  { apply Forall_forall. intros [s g'] Hg. destruct (frames_by_sid_head l s g' Hg) as (f & p & r & -> & Hs & _).
    by exists f, p, r. }
  clearbody groups. apply list_elem_of_split in Hin as (l1 & l2 & ->).
  rewrite fmap_app in Hnd. cbn in Hnd. apply NoDup_app in Hnd as (_ & Hd & Hnd). apply NoDup_cons in Hnd as [H2 _].
  apply Forall_app in Hh as [Hh1 Hh2]. inversion_clear Hh2 as [|? ? _ Hh2'].
  exists (run_r2c_workers e m l1). unfold run_r2c_workers. rewrite fold_left_app. cbn [fold_left snd]. split.
  - apply r2c_workers_other; [done|]. intros Hx. apply (Hd _ Hx). left.
  - by apply r2c_workers_other.
Qed.

Lemma r2c_group_inv sealed_at e m group : sealed_ok sealed_at ->
  sealed_only sealed_at e -> group_ok sid0 group -> client_inv sealed_at m -> client_inv sealed_at (process_r2c_group e m group).
Proof.
  intros Hok He Hg Hm. unfold process_r2c_group. destruct group as [|[file parsed] rest]; [done|].
  assert (fsid parsed = sid0) as -> by (by inversion_clear Hg as [|? ? [? _]]).
  set (m1 := if c_dropped e _ then _ else _).
  assert (client_inv sealed_at m1) as H1.
  { unfold m1. destruct (c_dropped e sid0); [|done]. intros h. cbn. by rewrite lookup_delete_eq. }
  destruct (mux_sessions m1 !! sid0) as [h|] eqn:Es; [|done].
  destruct (process_group _ _ _ _ _ _) as [b del] eqn:Eg. intros h'. cbn. rewrite lookup_insert_eq.
  intros [= <-] HK. cbn in *. destruct (H1 h Es HK) as [got Hk].
  edestruct (process_group_at sid0 sealed_at Hok (c_download e) (c_finish e) (ch_keys h) None _
    (mkInbox (E := client_endpoint) (ch_replay h) (ch_inbound_tx h) false) got Hg) as (more & Hk'); [|done|done|].
  - intros f max body. rewrite HK. apply He.
  - rewrite Eg in Hk'. eauto.
Qed.

Lemma client_cycle_inv sealed_at e m cursor : sealed_ok sealed_at ->
  sealed_only sealed_at e -> client_inv sealed_at m -> client_inv sealed_at (fst (fst (client_run_one_cycle e m cursor))).
Proof.
  intros Hok He Hm. unfold client_run_one_cycle. destruct (c_token e) as [tok|]; [|done].
  destruct (c_list e cursor) as [files|]; [|done].
  set (l := omap (r2c_entry (dom (mux_sessions m))) files).
  assert (client_inv sealed_at (run_r2c_workers e m (map_to_list (frames_by_sid (sort_by sid_seq_le l))))) as H; [|by destruct l].
  destruct (frames_by_sid (sort_by sid_seq_le l) !! sid0) as [g|] eqn:Eg.
  - assert (Hin := Eg). rewrite <- elem_of_map_to_list in Hin.
    destruct (frames_by_sid_head _ sid0 g Hin) as (? & ? & ? & _ & _ & Hgl).
    destruct (r2c_workers_at e _ m g Hin) as (m1 & Hm1 & Hw).
    assert (client_inv sealed_at m1) as Hi1 by (unfold client_inv; by rewrite Hm1).
    pose proof (r2c_group_inv sealed_at e m1 g Hok He ltac:(rewrite Hgl; apply my_r2c_group_ok) Hi1) as Hi.
    unfold client_inv in *. by rewrite Hw.
  - unfold client_inv. rewrite r2c_workers_other; [done| |].
    + apply Forall_forall. intros [s g'] Hg. destruct (frames_by_sid_head _ s g' Hg) as (f & p & r & -> & Hs & _).
      by exists f, p, r.
    + intros (x & Hx & Hin)%list_elem_of_fmap. destruct x as [s g]. cbn in Hx. subst s.
      apply elem_of_map_to_list in Hin. congruence.
Qed.

(** *** Progress *)
Context (Hlog : log_ok sid0 log).
Context {L : CryptoLaws P} (Hsid : sid_ok sid0).

Definition r2c_body (i : nat) (fs : list WireFrame) : bytes :=
  AeadCipher_seal (k_r2c K) sid0 (Z.of_nat (offset log i)) (Batch_encode (mkBatch fs)).

(** The listing shows every batch from [c] on, and the files can be fetched. *)
Record r2c_complete (e : ClientEnv) (known : gset SessionId) (files : list DriveFile) (c : nat) : Prop := {
  rf_holds f p : f ∈ files -> r2c_entry known f = Some (f, p) -> fsid p = sid0 ->
    Z.of_nat (offset log c) <= fseq p ->
    exists i fs, log !! i = Some fs /\ fseq p = Z.of_nat (offset log i)
      /\ match size f with Some n => n <= MAX_SEALED_FRAME_BODY_BYTES | None => True end
      /\ c_download e (id f) MAX_SEALED_FRAME_BODY_BYTES = DlBody (r2c_body i fs);
  rf_visible i : (c <= i < length log)%nat ->
    exists f, f ∈ files /\ name f = DriveFilename_format
                              (mkName (KFrame RelayToClient) sid0 (Z.of_nat (offset log i)))
}.

Lemma r2c_folder_group e known files c :
  sid0 ∈ known -> r2c_complete e known files c ->
  complete_group sid0 log (c_download e) (k_r2c K) c (my_r2c_group known files).
Proof.
  intros Hkn [Hh Hv]. split.
  - apply my_r2c_group_ok.
  - apply Forall_forall. intros en (_ & He & _)%elem_of_my_r2c_group. by apply r2c_entry_ok in He as (_ & _ & ? & _).
  - apply sorted_group.
  - intros [f p] (Hf & He & Hs)%elem_of_my_r2c_group Hq. cbn in *.
    destruct (Hh f p Hf He Hs Hq) as (i & fs & Hi & Hqi & Hsz & Hdl).
    exists i, fs, (r2c_body i fs). split; [done|]. split; [done|]. split; [exact Hsz|]. split; [exact Hdl|].
    split; [apply len_nonneg|].
    cbn [prefix_len client_endpoint Z.to_nat drop]. apply AeadCipher_open_seal.
  - intros i Hi. destruct (Hv i Hi) as (f & Hf & Hn).
    destruct (lookup_lt_is_Some_2 log i) as [fs Hfs]; [lia|].
    assert (name_ok (mkName (KFrame RelayToClient) sid0 (Z.of_nat (offset log i)))) as Hok.
    { split_and!; cbn; [done| |done]. pose proof (log_batch_nonempty sid0 log Hlog _ _ Hfs).
      destruct (lookup_lt_is_Some_2 fs 0) as [g Hg]; [lia|]. pose proof (log_lookup log i fs 0 g Hfs Hg) as HF.
      rewrite Nat.add_0_r in HF. apply (log_frame_u64 sid0 log Hlog) in HF. unfold is_u64. lia. }
    exists (f, mkName (KFrame RelayToClient) sid0 (Z.of_nat (offset log i))). split; [|done].
    apply elem_of_my_r2c_group. cbn. split_and!; auto. unfold r2c_entry. rewrite Hn, parse_format by done. cbn.
    by rewrite !bool_decide_true.
Qed.
End OneClientSession.

(** ** Cycles, registrations and removals in any order *)
Inductive client_step {P : CryptoPrims} {T : TimeFormat} (baseline_ms : Z) (env : ClientEnv -> Prop)
    : ClientPoller -> ClientPoller -> Prop :=
| cstep_cycle e p : env e -> client_step baseline_ms env p (client_poll_step baseline_ms e p)
| cstep_register keys closes p :
    client_step baseline_ms env p
      (mkCPoller (register_session (cp_mux p) keys closes) (cp_cursor p) (cp_interval_ms p) (cp_empty_streak p))
| cstep_drop sid p :
    client_step baseline_ms env p
      (mkCPoller (SessionGuard_drop (cp_mux p) sid) (cp_cursor p) (cp_interval_ms p) (cp_empty_streak p)).

Definition client_start (baseline_ms : Z) : ClientPoller := mkCPoller (mkMux ∅ ∅) None baseline_ms 0.
Definition client_reachable {P : CryptoPrims} {T : TimeFormat} (baseline_ms : Z) (env : ClientEnv -> Prop)
    : ClientPoller -> Prop := rtc (client_step baseline_ms env) (client_start baseline_ms).

Lemma client_reachable_at {P : CryptoPrims} {T : TimeFormat} baseline env p sid0 sealed_at K :
  sealed_ok sealed_at -> (forall e, env e -> sealed_only sid0 K sealed_at e) ->
  client_reachable baseline env p -> client_inv sid0 K sealed_at (cp_mux p).
Proof.
  intros Hok He Hr. apply (rtc_ind_r (fun p => client_inv sid0 K sealed_at (cp_mux p)) _) in Hr; [done|by intros h|].
  intros q q' _ Hst Hq. destruct Hst as [e q He'|keys closes q|sid q].
  - pose proof (client_cycle_inv sid0 K sealed_at e (cp_mux q) (cp_cursor q) Hok (He e He') Hq) as H.
    unfold client_poll_step. destruct (client_run_one_cycle _ _ _) as [[m' c'] f]. by destruct (adapt_interval _ _ _ _).
  - intros h. cbn. destruct (decide (keys_sid keys = sid0)) as [->|Hne].
    + rewrite lookup_insert_eq. intros [= <-] _. exists []. split; cbn; [done|constructor|done].
    + rewrite lookup_insert_ne by done. apply Hq.
  - intros h. cbn. destruct (decide (sid = sid0)) as [->|Hne]; [by rewrite lookup_delete_eq|].
    rewrite lookup_delete_ne by done. apply Hq.
Qed.

Lemma client_reachable_inv {P : CryptoPrims} {T : TimeFormat} baseline env p sid0 log K h :
  log_ok sid0 log -> (forall e, env e -> client_authentic sid0 log K e) ->
  client_reachable baseline env p -> mux_sessions (cp_mux p) !! sid0 = Some h -> ch_keys h = K ->
  exists k, received log k (ch_replay h) (ch_inbound_tx h).
Proof.
  intros Hlog He Hr Hs HK.
  destruct (client_reachable_at baseline env p sid0 (log_at log) K (log_sealed sid0 log Hlog)) with (h := h) as [fs Hfs]; [|done..|].
  - intros e Hee f max body Hb. eapply log_authentic. by eapply He.
  - eexists. by apply received_log.
Qed.

(** ** Properties *)

(** Claim C7: safety of the client's receive path.  In every reachable state of the mux,
    whatever the folder showed (other clients' files included), whichever downloads
    failed and however sessions came and went, the events a session has been handed
    under its keys are the dispatch of exactly the first [k] frames the relay sent. *)
Theorem client_delivers_prefix {P : CryptoPrims} {T : TimeFormat} baseline env p sid0 log K h :
  log_ok sid0 log -> (forall e, env e -> client_authentic sid0 log K e) ->
  client_reachable baseline env p ->
  mux_sessions (cp_mux p) !! sid0 = Some h -> ch_keys h = K ->
  exists k, window_at (ch_replay h) k
    /\ sent (ch_inbound_tx h) = omap wire_to_inbound (take k (concat log))
    /\ length (sent (ch_inbound_tx h)) = k.
Proof.
  intros Hlog He Hr Hs HK.
  destruct (client_reachable_inv baseline env p sid0 log K h Hlog He Hr Hs HK) as [k [Hw Hf Hb]].
  exists k. pose proof (Forall2_length _ _ _ Hf) as Hl. rewrite length_take, Nat.min_l in Hl by done.
  split; [done|]. split; [exact (Forall2_omap _ _ _ Hf)|exact (eq_sym Hl)].
Qed.

(** A failed token refresh or a failed listing leaves the client's poller
    exactly where it was: table, deletes and cursor unchanged, so no file can fall
    behind the cursor while the service is unreachable. *)
Theorem client_failed_listing_keeps_cursor {P : CryptoPrims} {T : TimeFormat} e m cursor :
  c_token e = None \/ c_list e cursor = None ->
  client_run_one_cycle e m cursor = (m, cursor, false).
Proof.
  unfold client_run_one_cycle. destruct (c_token e); [|done]. by intros [?| ->].
Qed.

Lemma client_failed_listing_keeps_cursor_witness :
  client_run_one_cycle (mkCEnv (Some []) 5 (fun _ => None) (fun _ _ => DlFailed) (fun _ => 0) (fun _ => false))
    (mkMux ∅ ∅) (Some [3]) = (mkMux ∅ ∅, Some [3], false).
Proof. apply client_failed_listing_keeps_cursor. right. reflexivity. Defined.

(** Claim C8: in-order delivery on the client, one cycle.  A registered session at batch
    boundary [c], whose remaining r2c batches are all visible and fetchable, receives
    the whole rest of the stream in one cycle, in order. *)
Theorem client_cycle_delivers {P : CryptoPrims} {L : CryptoLaws P} {T : TimeFormat}
    sid0 K log e m cursor files tok c h :
  sid_ok sid0 -> log_ok sid0 log -> (c < length log)%nat -> deliverable (E := client_endpoint) log ->
  mux_sessions m !! sid0 = Some h -> ch_keys h = K ->
  received log (offset log c) (ch_replay h) (ch_inbound_tx h) -> closes_at (ch_inbound_tx h) = None ->
  c_token e = Some tok -> c_list e cursor = Some files -> c_dropped e sid0 = false ->
  r2c_complete sid0 log K e (dom (mux_sessions m)) files c ->
  let '(m', _, found) := client_run_one_cycle e m cursor in
  found = true /\
  exists h', mux_sessions m' !! sid0 = Some h' /\ ch_keys h' = K
    /\ received log (length (concat log)) (ch_replay h') (ch_inbound_tx h').
Proof.
  intros Hsid Hlog Hc Hd Hs HK Hr Ho Ht Hli Hdr Hf.
  assert (sid0 ∈ dom (mux_sessions m)) as Hkn by (by apply elem_of_dom_2 in Hs).
  pose proof (r2c_folder_group sid0 log K Hlog Hsid e _ files c Hkn Hf) as Hg.
  set (known := dom (mux_sessions m)) in *.
  unfold client_run_one_cycle. rewrite Ht, Hli. fold known.
  set (l := omap (r2c_entry known) files).
  assert (frames_by_sid (sort_by sid_seq_le l) !! sid0 = Some (my_r2c_group sid0 known files)) as Hin.
  { rewrite frames_by_sid_lookup. change (filter (of_sid sid0) (sort_by sid_seq_le l)) with (my_r2c_group sid0 known files).
    destruct (my_r2c_group sid0 known files) eqn:Eg; [|done].
    destruct (cg_cover _ _ _ _ _ _ Hg c) as (en & Hen & _); [lia|]. by apply not_elem_of_nil in Hen. }
  rewrite <- elem_of_map_to_list in Hin.
  destruct (r2c_workers_at sid0 e _ m _ Hin) as (m1 & Hm1 & Hw).
  assert (l <> []) as Hne.
  { intros El. rewrite El in Hin. cbn in Hin. by apply not_elem_of_nil in Hin. }
  destruct l as [|x l'] eqn:El; [done|]. rewrite <- El in *. split; [done|]. rewrite Hw.
  destruct (frames_by_sid_head _ sid0 _ Hin) as (file & parsed & rest & Eg & Hsp & _).
  rewrite Eg in *. cbn [process_r2c_group]. rewrite Hsp, Hdr, Hm1, Hs. rewrite <- Eg in *.
  pose proof (process_group_complete (E := client_endpoint) sid0 log Hlog (c_download e) (c_finish e) (ch_keys h) None
    (my_r2c_group sid0 known files) (mkInbox (E := client_endpoint) (ch_replay h) (ch_inbound_tx h) false) c
    Hd ltac:(lia) Hr Ho) as Hp.
  cbn [in_key client_endpoint] in Hp. rewrite HK in *. specialize (Hp Hg ltac:(done)).
  destruct (process_group _ _ _ _ _ _) as [b del]. destruct Hp as (Hr' & _ & _). cbn. rewrite lookup_insert_eq.
  eexists. split; [reflexivity|]. split; [done|exact Hr'].
Qed.

(** *** A concrete folder: two r2c batches of one session *)
Definition reply_f0 : WireFrame := mkFrame WIRE_VERSION Data sample_sid 0 [72; 73].
Definition reply_f1 : WireFrame := mkFrame WIRE_VERSION Eof sample_sid 1 [].
Definition reply_log : list (list WireFrame) := [[reply_f0]; [reply_f1]].

Definition reply_body (i : nat) : bytes :=
  r2c_body (P := toy_crypto) sample_sid reply_log sample_keys i (default [] (reply_log !! i)).
Definition reply_files : list DriveFile :=
  [mkFile [49] (DriveFilename_format (mkName (KFrame RelayToClient) sample_sid 1)) (Some 5) None;
   mkFile [48] (DriveFilename_format (mkName (KFrame RelayToClient) sample_sid 0)) (Some 6) None].

Definition reply_env : ClientEnv :=
  mkCEnv (Some []) 9000000000 (fun _ => Some reply_files)
    (fun f _ => if bool_decide (f = [48]) then DlBody (reply_body 0)
                else if bool_decide (f = [49]) then DlBody (reply_body 1) else DlFailed)
    (fun _ => 0) (fun _ => false).

Lemma reply_log_ok : log_ok sample_sid reply_log.
Proof.
  split.
  - repeat constructor; cbn; try lia; try apply sample_sid_ok; try (unfold is_u64; lia);
      try (repeat constructor; unfold is_u8; lia); vm_compute; discriminate.
  - intros [|[|i]] f; cbn; intros; simplify_eq; done.
Qed.

Lemma reply_body_authentic i :
  (i < 2)%nat -> authentic sample_sid reply_log (k_r2c sample_keys) (reply_body i).
Proof.
  intros Hi q pt Hq Ho. cbn [prefix_len client_endpoint Z.to_nat drop] in Ho.
  assert (q = Z.of_nat (offset reply_log i)) as ->.
  { unfold reply_body, r2c_body, AeadCipher_seal in Ho. cbn [aead_encrypt toy_crypto] in Ho.
    eapply toy_open_seq in Ho; auto. destruct i as [|[|i]]; [done|done|lia]. }
  destruct i as [|[|i]]; [exists 0%nat, [reply_f0]|exists 1%nat, [reply_f1]|clear Ho; lia];
    (vm_compute in Ho; injection Ho as <-; vm_compute; auto).
Qed.

Lemma reply_authentic : client_authentic sample_sid reply_log sample_keys reply_env.
Proof.
  intros f max body. cbn [c_download reply_env].
  destruct (bool_decide (f = [48])); [intros [= <-]; apply reply_body_authentic; lia|].
  destruct (bool_decide (f = [49])); [|done]. intros [= <-]. apply reply_body_authentic; lia.
Qed.

Definition reply_poller : ClientPoller :=
  client_poll_step 300 reply_env
    (mkCPoller (register_session (mkMux ∅ ∅) sample_keys None) None 300 0).

Lemma client_delivers_prefix_witness :
  exists h, mux_sessions (cp_mux reply_poller) !! sample_sid = Some h /\
  exists k, window_at (ch_replay h) k
    /\ sent (ch_inbound_tx h) = omap wire_to_inbound (take k (concat reply_log)).
Proof.
  set (o := mux_sessions (cp_mux reply_poller) !! sample_sid).
  assert (exists h, o = Some h /\ ch_keys h = sample_keys) as (h & Eo & Hk).
  { vm_compute. eexists. split; reflexivity. }
  exists h. split; [exact Eo|].
  destruct (client_delivers_prefix 300 (fun e => e = reply_env) reply_poller sample_sid reply_log sample_keys h
    reply_log_ok ltac:(intros e ->; apply reply_authentic)
    (rtc_l _ _ _ _ (cstep_register 300 _ sample_keys None (client_start 300))
       (rtc_once _ _ (cstep_cycle 300 _ reply_env _ eq_refl))) Eo Hk) as (k & Hw & Hsent & _).
  exists k. split; [exact Hw|exact Hsent].
Defined.

Lemma reply_folder : r2c_complete sample_sid reply_log sample_keys reply_env {[sample_sid]} reply_files 0.
Proof.
  split.
  - intros f p Hf He _ _. repeat (apply elem_of_cons in Hf as [->|Hf]); [| |by apply not_elem_of_nil in Hf];
      vm_compute in He; injection He as <-.
    + exists 1%nat, [reply_f1]. split_and!; reflexivity.
    + exists 0%nat, [reply_f0]. split_and!; reflexivity.
  - intros [|[|i]] Hi; [eexists; split; [right; left|reflexivity]|eexists; split; [left|reflexivity]|cbn in Hi; lia].
Qed.

Lemma client_cycle_delivers_witness :
  let '(m', _, found) :=
    client_run_one_cycle reply_env (register_session (mkMux ∅ ∅) sample_keys None) None in
  found = true /\
  exists h', mux_sessions m' !! sample_sid = Some h' /\ ch_keys h' = sample_keys
    /\ received reply_log 2 (ch_replay h') (ch_inbound_tx h').
Proof.
  assert (received reply_log (offset reply_log 0) ReplayWindow_new (mkChan (M := ClientInbound) [] None)) as Hr.
  { split; cbn; [done|constructor|lia]. }
  apply (client_cycle_delivers sample_sid sample_keys reply_log reply_env
    (register_session (mkMux ∅ ∅) sample_keys None) None reply_files [] 0
    (mkCHandle sample_keys ReplayWindow_new (mkChan [] None)) sample_sid_ok reply_log_ok
    ltac:(cbn; lia) ltac:(repeat constructor; vm_compute; eauto) (lookup_insert_eq _ _ _) eq_refl Hr eq_refl
    eq_refl eq_refl eq_refl reply_folder).
Defined.
