(* ===== verification/EndToEnd.v ===== *)
(** * End to end: local socket to destination and back

    The components composed: a client session (opener and pump), the mailbox folder as
    the environment of the pollers, the relay's poller and reaper, and the relay's
    driver.  The folder may lose, duplicate, delay and invent files; authenticity of
    the bodies it returns is the only assumption on it. *)

From stdpp Require Import prelude gmap relations.
From S2P Require Import Prelude RustStr Frame Filename Crypto RelayState Mailbox RelayPoll OrphanGc RelaySystem.
From S2P Require Import Outbox RelaySession DriveClient ClientPoll.
#[local] Open Scope Z_scope.

(** The messages a driver took from its mailbox: those handed to the channel, from the
    first, possibly followed by the end of the channel. *)
Definition taken_from {M} (ms : list (option M)) (handed : list M) : Prop :=
  exists k, ms = Some <$> take k handed \/ ms = (Some <$> take k handed) ++ [None].

(** ** Data through the mailboxes *)
Lemma data_until_eof_mono ms ms' : data_until_eof ms `prefix_of` data_until_eof (ms ++ ms').
Proof.
  induction ms as [|m ms IH]; [apply prefix_nil|].
  destruct m as [[h p|b| |]|]; cbn; try done. by apply prefix_app.
Qed.

Lemma data_until_eof_dispatch fs :
  data_until_eof (Some <$> omap (to_inbound (Endpoint := relay_endpoint)) fs) `prefix_of` data_bytes fs.
Proof.
  induction fs as [|f fs IH]; [done|]. unfold data_bytes. rewrite bind_cons. fold (data_bytes fs).
  cbn [omap list_omap]. unfold frame_data. cbn [to_inbound relay_endpoint] in *. unfold frame_to_inbound at 1.
  destruct (kind f); cbn [app fmap list_fmap data_until_eof]; try apply prefix_nil; try exact IH; [|by apply prefix_app].
  destruct (ok_or _ _); cbn [res_bind]; try exact IH. destruct (map_err _ _) as [[h p]| |]; cbn; exact IH.
Qed.

Lemma data_bytes_take k fs : data_bytes (take k fs) `prefix_of` data_bytes fs.
Proof.
  rewrite <- (take_drop k fs) at 2. unfold data_bytes. rewrite bind_app. by apply prefix_app_r.
Qed.

Lemma data_bytes_app_l fs gs : data_bytes fs `prefix_of` data_bytes (fs ++ gs).
Proof. unfold data_bytes. rewrite bind_app. by apply prefix_app_r. Qed.

Lemma taken_data ms (handed : list InboundFrame) :
  taken_from ms handed -> data_until_eof ms `prefix_of` data_until_eof (Some <$> handed).
Proof.
  intros [k [-> | ->]].
  - rewrite <- (take_drop k handed) at 2. rewrite fmap_app. apply data_until_eof_mono.
  - rewrite data_until_eof_quiet by (by left).
    rewrite <- (take_drop k handed) at 2. rewrite fmap_app. apply data_until_eof_mono.
Qed.

Lemma taken_head {M} (ms : list (option M)) handed m :
  taken_from ms handed -> head ms = Some (Some m) -> head handed = Some m.
Proof.
  intros [[|k] [-> | ->]]; try done; destruct handed as [|x handed]; cbn; try done; by intros [= ->].
Qed.

(** If the first frame is a Connect, so is the first message. *)
Lemma dispatch_head fs gs c rest k h p m :
  fs ++ gs = c :: rest -> frame_to_inbound c = Ok (InConnect h p) ->
  head (omap (to_inbound (Endpoint := relay_endpoint)) (take k fs)) = Some m -> m = InConnect h p.
Proof.
  intros E Hc. destruct fs as [|f fs]; [by rewrite take_nil|]. injection E as -> _. destruct k as [|k]; [done|].
  cbn [take omap list_omap to_inbound relay_endpoint]. rewrite Hc. cbn. congruence.
Qed.

(** The same for the client. *)
Lemma cdata_mono ms ms' : cdata_until_eof ms `prefix_of` cdata_until_eof (ms ++ ms').
Proof.
  induction ms as [|m ms IH]; [apply prefix_nil|]. destruct m as [[b| |]|]; cbn; try apply prefix_nil.
  by apply prefix_app.
Qed.

Lemma cdata_dispatch fs :
  cdata_until_eof (Some <$> omap wire_to_inbound fs) `prefix_of` data_bytes fs.
Proof.
  induction fs as [|f fs IH]; [done|]. unfold data_bytes. rewrite bind_cons. fold (data_bytes fs).
  cbn [omap list_omap]. unfold frame_data, wire_to_inbound at 1.
  destruct (kind f); cbn [app fmap list_fmap cdata_until_eof]; try apply prefix_nil; try exact IH. by apply prefix_app.
Qed.

Lemma taken_cdata ms (handed : list ClientInbound) :
  taken_from ms handed -> cdata_until_eof ms `prefix_of` cdata_until_eof (Some <$> handed).
Proof.
  intros [k [-> | ->]]; [|rewrite cdata_quiet by (by left)];
    rewrite <- (take_drop k handed) at 2; rewrite fmap_app; apply cdata_mono.
Qed.

(** ** A client session's stream only grows *)
Lemma pump_step_stream sid0 now p ev p' :
  pump_step sid0 now p ev = Some p' -> stream (p_out p) `prefix_of` stream (p_out p').
Proof.
  unfold pump_step. destruct (p_result p); [done|]. destruct ev as [m wr| |r].
  - intros [= <-]. unfold pump_inbound. repeat case_match; cbn -[push_frame flush_batch]; rewrite ?stream_push, ?stream_flush; try done; by apply prefix_app_r.
  - destruct (flush_deadline _); [|done]. destruct (_ <=? _); [|done]. intros [= <-]. cbn -[flush_batch]. by rewrite stream_flush.
  - destruct (local_read_closed p); [done|]. intros [= <-]. unfold pump_read.
    repeat case_match; cbn -[push_frame flush_batch]; rewrite ?stream_push; rewrite <- ?app_assoc; by apply prefix_app_r.
Qed.

Lemma pump_trace_stream sid0 p0 evs p :
  pump_trace sid0 p0 evs p -> stream (p_out p0) `prefix_of` stream (p_out p).
Proof.
  induction 1 as [|evs p now ev p' Htr IH Hev Hst]; [done|]. etrans; [exact IH|]. by eapply pump_step_stream.
Qed.

(** The first frame of the stream is the Connect to the requested target. *)
Lemma stream_connect sid0 host port initial r p0 evs p :
  open_ok sid0 host port initial r -> open_session sid0 host port initial r = Ok p0 ->
  pump_trace sid0 p0 evs p ->
  exists rest, stream (p_out p) = build_wire_frame Connect sid0 0 (as_bytes (host_port host port)) :: rest.
Proof.
  intros Hok Ho Htr. destruct (pump_trace_stream _ _ _ _ Htr) as [k ->].
  destruct (open_frames _ _ _ _ _ _ Hok Ho) as (fs & -> & _). unfold stream. cbn. eauto.
Qed.

(** ** A driver fed with a whole client stream *)
Definition recv_ok (m : InboundFrame) : DriverEvent := EvRecv (Some m) true DialOk WrOk.

Lemma run_driver_app sid0 allow d l l' :
  run_driver sid0 allow d (l ++ l') = run_driver sid0 allow d l ≫= fun d' => run_driver sid0 allow d' l'.
Proof.
  revert d. induction l as [|ev l IH]; intros d; [done|]. cbn. destruct (driver_step _ _ _ _ _); [apply IH|done].
Qed.

Lemma run_driver_data sid0 allow bs d :
  phase d = Pumping -> peer_writable d = true ->
  exists d', run_driver sid0 allow d (recv_ok <$> (InData <$> bs)) = Some d'
    /\ phase d' = Pumping /\ written d' = written d ++ concat bs /\ dialed d' = dialed d
    /\ tcp_read_closed d' = tcp_read_closed d.
Proof.
  revert d. induction bs as [|b bs IH]; intros d Hp Hw; cbn.
  { exists d. by rewrite app_nil_r. }
  unfold driver_step at 1. rewrite Hp. cbn. rewrite Hw. cbn [negb].
  destruct (IH (set_eager (flush_r2c_batch (write_bytes d b)))) as (d' & -> & Hp' & Hw' & Hd' & Hr'); [done..|].
  exists d'. split; [done|]. split; [done|]. rewrite Hw', Hd', Hr'. cbn. by rewrite app_assoc.
Qed.

(** What a client stream ends with changes nothing that was written. *)
Lemma run_driver_tail sid0 allow d tail :
  phase d = Pumping -> tcp_read_closed d = false -> tail ∈ [[]; [InEof]; [InClose]; [InEof; InClose]] ->
  exists d', run_driver sid0 allow d (recv_ok <$> tail) = Some d'
    /\ written d' = written d /\ dialed d' = dialed d.
Proof.
  intros Hp Hr Ht. rewrite !elem_of_cons in Ht.
  destruct Ht as [->|[->|[->|[->|Ht%not_elem_of_nil]]]]; [by eexists|..|done];
    cbn; unfold driver_step; rewrite Hp; cbn; rewrite ?Hr; cbn; rewrite ?Hp; by eexists.
Qed.

(** *** The messages of a stream with the shape every client session has *)
Abbreviation relay_dispatch := (omap (to_inbound (Endpoint := relay_endpoint))).

Definition control_msg (k : FrameKind) : InboundFrame := match k with Eof => InEof | _ => InClose end.

Lemma dispatch_control fs :
  Forall (fun f => kind f = Eof \/ kind f = Close) fs ->
  relay_dispatch fs = control_msg <$> (kind <$> fs) /\ data_bytes fs = []
  /\ Forall (fun f => is_Some (to_inbound (Endpoint := relay_endpoint) f)) fs.
Proof.
  induction 1 as [|f fs Hf Hfs (IHo & IHd & IHa)]; [done|].
  assert (frame_to_inbound f = Ok (control_msg (kind f)) /\ frame_data f = []) as [Hi Hd].
  { unfold frame_to_inbound, frame_data. by destruct Hf as [-> | ->]. }
  unfold data_bytes in *. rewrite bind_cons, IHd, Hd. cbn [omap list_omap]. cbn [to_inbound relay_endpoint] in *.
  rewrite Hi. split_and!; [cbn; by f_equal|done|]. constructor; [rewrite Hi; eauto|done].
Qed.

Lemma dispatch_data fs :
  Forall (fun f => kind f = Data) fs ->
  relay_dispatch fs = InData <$> (payload <$> fs)
  /\ Forall (fun f => is_Some (to_inbound (Endpoint := relay_endpoint) f)) fs.
Proof.
  induction 1 as [|f fs Hf Hfs (IHo & IHa)]; [done|].
  assert (frame_to_inbound f = Ok (InData (payload f))) as Hi by (unfold frame_to_inbound; by rewrite Hf).
  cbn [omap list_omap]. cbn [to_inbound relay_endpoint] in *. rewrite Hi.
  split; [cbn; by f_equal|]. constructor; [rewrite Hi; eauto|done].
Qed.

Lemma kinds_split fs n tail :
  kind <$> fs = replicate n Data ++ tail ->
  exists ds cs, fs = ds ++ cs /\ Forall (fun f => kind f = Data) ds /\ kind <$> cs = tail.
Proof.
  intros Hk. exists (take n fs), (drop n fs). split; [by rewrite take_drop|]. split.
  - apply Forall_forall. intros f Hf. assert (kind f ∈ kind <$> take n fs) as Hin by (apply list_elem_of_fmap; eauto).
    rewrite fmap_take, Hk, take_app_le, take_replicate in Hin by (rewrite length_replicate; lia).
    by apply elem_of_replicate in Hin as [-> _].
  - rewrite fmap_drop, Hk. by rewrite drop_app_length' by (by rewrite length_replicate).
Qed.

Lemma dispatch_stream fs c n tail h p :
  kind <$> c :: fs = Connect :: replicate n Data ++ tail ->
  tail ∈ [[]; [Eof]; [Close]; [Eof; Close]] ->
  frame_to_inbound c = Ok (InConnect h p) ->
  exists bs ms, relay_dispatch (c :: fs) = InConnect h p :: (InData <$> bs) ++ ms
    /\ ms ∈ [[]; [InEof]; [InClose]; [InEof; InClose]] /\ concat bs = data_bytes (c :: fs)
    /\ Forall (fun f => is_Some (to_inbound (Endpoint := relay_endpoint) f)) (c :: fs).
Proof.
  intros Hk Ht Hc. cbn in Hk. injection Hk as Hkc Hk.
  destruct (kinds_split fs n tail Hk) as (ds & cs & -> & Hds & Hcs).
  destruct (dispatch_data ds Hds) as [Ho1 Ha1].
  destruct (dispatch_control cs) as (Ho2 & Hd2 & Ha2).
  { apply Forall_forall. intros f Hf. assert (kind f ∈ tail) as Hin by (rewrite <- Hcs; apply list_elem_of_fmap; eauto).
    rewrite !elem_of_cons in Ht. destruct Ht as [->|[->|[->|[->|Ht%not_elem_of_nil]]]]; set_solver. }
  exists (payload <$> ds), (control_msg <$> tail). rewrite Hcs in Ho2. split_and!.
  - cbn [omap list_omap to_inbound relay_endpoint]. rewrite Hc. f_equal. rewrite omap_app. by f_equal.
  - rewrite !elem_of_cons in Ht. destruct Ht as [->|[->|[->|[->|Ht%not_elem_of_nil]]]]; cbn; set_solver.
  - unfold data_bytes in *. rewrite bind_cons, bind_app, Hd2, app_nil_r. unfold frame_data at 1. rewrite Hkc. cbn.
    symmetry. by apply data_bytes_data.
  - constructor; [cbn; rewrite Hc; eauto|]. by apply Forall_app.
Qed.

(** A driver that is fed such messages and succeeds in dialing and writing. *)
Lemma feed_driver sid0 allow host port bs ms :
  destination_allowed allow host = true -> ms ∈ [[]; [InEof]; [InClose]; [InEof; InClose]] ->
  exists d, run_driver sid0 allow driver_start (recv_ok <$> InConnect host port :: (InData <$> bs) ++ ms) = Some d
    /\ dialed d = Some (host, port) /\ written d = concat bs.
Proof.
  intros Hal Hms. rewrite fmap_cons, fmap_app. cbn [run_driver]. unfold driver_step at 1. cbn [phase driver_start recv_ok].
  unfold driver_connect. rewrite Hal. cbn [negb mbind option_bind].
  set (d0 := mkDriver Pumping _ _ _ _ _ _ _ _).
  destruct (run_driver_data sid0 allow bs d0) as (d1 & Hr1 & Hp1 & Hw1 & Hd1 & Hc1); [done..|].
  destruct (run_driver_tail sid0 allow d1 ms Hp1 Hc1 Hms) as (d2 & Hr2 & Hw2 & Hd2).
  exists d2. rewrite run_driver_app, Hr1. cbn [mbind option_bind]. rewrite Hr2, Hd2, Hw2, Hd1, Hw1. done.
Qed.

Lemma ptail_any p tail : ptail_ok p tail -> tail ∈ [[]; [Eof]; [Close]; [Eof; Close]].
Proof.
  unfold ptail_ok. destruct (p_result p); [done|]. intros ->. destruct (local_read_closed p); set_solver.
Qed.

(** ** Properties *)

(** Claim C1: client to destination, safety.  Whatever the mailbox folder does and
    however the poller, the reaper and the driver are scheduled, the bytes the relay
    has written to the destination are a prefix of the bytes the client took from its
    local socket (the early bytes first), and the relay dialed nothing but the target
    the client was asked for. *)
Theorem client_to_destination_prefix {P : CryptoPrims} {L : CryptoLaws P} {T : TimeFormat}
    sid0 host port initial r p0 cevs p
    secret baseline idle env st h allow devs d K :
  open_ok sid0 host port initial r -> host_ok host -> is_port port ->
  open_session sid0 host port initial r = Ok p0 -> pump_trace sid0 p0 cevs p ->
  Z.of_nat (length (stream (p_out p))) <= 2 ^ 64 ->
  (forall e, env e -> authentic_env sid0 (uploads (p_out p)) K e) ->
  reachable secret baseline idle env st ->
  sessions (po_world st) !! sid0 = Some h -> h_keys h = K ->
  driver_trace sid0 allow devs d -> taken_from (msgs devs) (sent (h_inbound_tx h)) ->
  written d `prefix_of` open_bytes initial r ++ preads cevs
  /\ forall target, dialed d = Some target -> target = (host, port).
Proof.
  intros Hok Hho Hpo Ho Htr Hlen Hauth Hre Hs HK Hdt Hta. pose proof (oo_sid _ _ _ _ _ Hok) as Hsid.
  pose proof (pump_trace_inv sid0 _ p0 cevs p (open_inv _ _ _ _ _ _ Hok Ho) Htr) as Hi.
  assert (log_ok sid0 (uploads (p_out p))) as Hlog.
  { apply uploads_log_ok; [done|apply Hi|done]. }
  destruct (reachable_inv secret baseline idle sid0 _ K env st Hlog Hauth Hre h Hs HK) as [k [_ Hf _]].
  apply Forall2_omap in Hf. change (sent (h_inbound_tx h)) with (@sent InboundFrame (h_inbound_tx h)) in *.
  rewrite Hf in Hta. split.
  - etrans; [apply (trace_inv sid0 allow devs d Hsid Hdt)|]. etrans; [by apply taken_data|].
    etrans; [apply data_until_eof_dispatch|]. etrans; [apply data_bytes_take|].
    rewrite <- (pi_data _ _ _ _ Hi). apply data_bytes_app_l.
  - intros target Hd.
    destruct (stream_connect _ _ _ _ _ _ _ _ Hok Ho Htr) as [rest Hst].
    pose proof (dialed_first sid0 allow devs d Hsid Hdt) as Hfirst. rewrite Hd in Hfirst.
    destruct target as [host' port']. destruct Hfirst as [Hfirst _].
    apply (taken_head _ _ (InConnect host' port')) in Hta; [|exact Hfirst].
    eapply (dispatch_head _ _ _ _ _ host port) in Hta; [|exact Hst|by apply frame_to_inbound_connect].
    by injection Hta as -> ->.
Qed.

(** What the drivers that the relay has run for a session have sealed under its keys: the
    batches of their uploads, each as the file of the number of its first frame. *)
Definition sealed_by (runs : list (list DriverEvent * Driver)) (j : nat) (fs : list WireFrame) : Prop :=
  exists devs d, (devs, d) ∈ runs /\ log_at (uploads (out d)) j fs.

Lemma sealed_by_ok {P : CryptoPrims} sid0 allow runs : sid_ok sid0 ->
  Forall (fun '(devs, d) => driver_trace sid0 allow devs d /\ Z.of_nat (length (stream (out d))) <= 2 ^ 64) runs -> sealed_ok (sealed_by runs).
Proof.
  intros Hsid Hruns j fs (devs & d & Hin & Hat). rewrite Forall_forall in Hruns. destruct (Hruns _ Hin) as [Hdt Hlen].
  assert (log_ok sid0 (uploads (out d))) as Hlog by (apply uploads_log_ok; [done|apply (trace_inv sid0 allow devs d Hsid Hdt)|done]).
  by apply (log_sealed sid0 _ Hlog).
Qed.

(** Claim C3: destination to client, safety.  Let [runs] be the drivers that the relay has run
    for the session under its keys, however many, and let what opens under the relay's key
    be what one of them sealed (the integrity of the AEAD).  Whatever the folder and the
    schedules did, the bytes that the client has written to its local socket are a prefix
    of the data of a sequence of frames, the frame at each position being the one that one
    of the drivers has put at this position of its stream; and when there was one driver
    they are a prefix of the bytes it read from the destination. *)
Theorem destination_to_client_prefix {P : CryptoPrims} {L : CryptoLaws P} {T : TimeFormat}
    sid0 allow runs baseline env st h K host port initial r p0 cevs p :
  Forall (fun '(devs, d) => driver_trace sid0 allow devs d /\ Z.of_nat (length (stream (out d))) <= 2 ^ 64) runs ->
  (forall e, env e -> sealed_only sid0 K (sealed_by runs) e) ->
  client_reachable baseline env st ->
  mux_sessions (cp_mux st) !! sid0 = Some h -> ch_keys h = K ->
  open_ok sid0 host port initial r -> open_session sid0 host port initial r = Ok p0 ->
  pump_trace sid0 p0 cevs p -> taken_from (pmsgs cevs) (sent (ch_inbound_tx h)) ->
  (exists fs, p_written p `prefix_of` data_bytes fs
     /\ forall i f, fs !! i = Some f -> exists devs d, (devs, d) ∈ runs /\ stream (out d) !! i = Some f)
  /\ forall devs d, runs = [(devs, d)] -> p_written p `prefix_of` reads devs.
Proof.
  intros Hruns Hauth Hre Hs HK Hok Ho Htr Hta. pose proof (oo_sid _ _ _ _ _ Hok) as Hsid.
  destruct (client_reachable_at baseline env st sid0 _ K (sealed_by_ok sid0 allow runs Hsid Hruns) Hauth Hre h Hs HK) as [fs [_ Hf Hat]].
  apply Forall2_omap in Hf. change (sent (ch_inbound_tx h)) with (@sent ClientInbound (ch_inbound_tx h)) in *.
  rewrite Hf in Hta.
  assert (p_written p `prefix_of` data_bytes fs) as Hw.
  { etrans; [apply (pump_trace_inv sid0 _ p0 cevs p (open_inv _ _ _ _ _ _ Hok Ho) Htr)|].
    etrans; [by apply taken_cdata|]. apply cdata_dispatch. }
  assert (forall i f, fs !! i = Some f -> exists devs d, (devs, d) ∈ runs /\ stream (out d) !! i = Some f) as Hpos.
  { intros i f Hi. destruct (Hat i f Hi) as (j & gs & n & (devs & d & Hin & Hlat) & Hn & ->). exists devs, d. split; [done|].
    unfold stream. apply lookup_app_l_Some, log_frame_at. by exists j, gs, n. }
  split; [by exists fs|]. intros devs d ->. apply Forall_cons in Hruns as [[Hdt _] _].
  pose proof (trace_inv sid0 allow devs d Hsid Hdt) as Hi. etrans; [exact Hw|]. rewrite <- (di_reads _ _ _ Hi).
  assert (fs = take (length fs) (stream (out d))) as ->.
  { apply list_eq. intros i. destruct (fs !! i) as [f|] eqn:Ei.
    - destruct (Hpos i f Ei) as (devs' & d' & Hin & Hd). apply list_elem_of_singleton in Hin as [= -> ->].
      rewrite lookup_take_lt; [done|]. by eapply lookup_lt_Some.
    - apply lookup_ge_None in Ei. by rewrite lookup_take_ge. }
  apply data_bytes_take.
Qed.

(** Claim C2: client to destination, progress.  When a client session has handed all it
    read to uploads, the relay's next cycle finds those files, and the fresh session's
    driver is allowed the target and its dial and writes succeed, then feeding the
    driver what that one cycle put in its mailbox writes exactly the client's bytes, in
    order, to the requested target. *)
Theorem client_to_destination_delivery {P : CryptoPrims} {L : CryptoLaws P} {T : TimeFormat}
    secret sid0 esk ck K hello host port initial r p0 cevs p allow e w cursor files tok :
  client_initiate (x25519_public secret) sid0 esk ck = Ok (K, hello) -> length ck = 16%nat ->
  open_ok sid0 host port initial r -> host_ok host -> is_port port ->
  destination_allowed allow host = true ->
  open_session sid0 host port initial r = Ok p0 -> pump_trace sid0 p0 cevs p ->
  Z.of_nat (length (stream (p_out p))) <= 2 ^ 64 -> pending (p_out p) = [] ->
  sessions w !! sid0 = None -> e_token e = Some tok -> e_list e cursor = Some files ->
  e_reaped e sid0 = false -> e_driver_stops e sid0 = None ->
  folder_complete sid0 (uploads (p_out p)) K hello e files 0 ->
  exists h d, sessions (fst (fst (run_one_cycle secret e w cursor))) !! sid0 = Some h
    /\ run_driver sid0 allow driver_start (recv_ok <$> sent (h_inbound_tx h)) = Some d
    /\ dialed d = Some (host, port)
    /\ written d = open_bytes initial r ++ preads cevs.
Proof.
  intros Hci Hck Hok Hho Hpo Hal Ho Htr Hlen Hpe Hs Ht Hli Hra Hst Hf. pose proof (oo_sid _ _ _ _ _ Hok) as Hsid.
  pose proof (pump_trace_inv sid0 _ p0 cevs p (open_inv _ _ _ _ _ _ Hok Ho) Htr) as Hi.
  assert (log_ok sid0 (uploads (p_out p))) as Hlog by (apply uploads_log_ok; [done|apply Hi|done]).
  destruct (stream_connect _ _ _ _ _ _ _ _ Hok Ho Htr) as [rest Hstr].
  destruct (pi_kinds _ _ _ _ Hi) as (n & tail & Hk & Htl). rewrite Hstr in Hk.
  destruct (dispatch_stream _ _ n tail host port Hk (ptail_any p tail Htl)) as (bs & ms & Hdis & Hms & Hd & Hall);
    [by apply frame_to_inbound_connect|].
  assert (concat (uploads (p_out p)) = stream (p_out p)) as Hcat by (unfold stream; by rewrite Hpe, app_nil_r).
  rewrite <- Hstr, <- Hcat in Hdis, Hd, Hall.
  assert (uploads (p_out p) <> []) as Hne by (intros E; rewrite E in Hcat; by rewrite <- Hcat in Hstr).
  destruct (cold_start_session secret sid0 esk ck K hello (uploads (p_out p)) e w cursor files tok) as (h & Hh & Hr); auto.
  { destruct (uploads (p_out p)); [done|cbn; lia]. }
  pose proof (Forall2_omap _ _ _ (rc_sent _ _ _ _ Hr)) as Hsent. rewrite firstn_all, Hdis in Hsent.
  destruct (feed_driver sid0 allow host port bs ms Hal Hms) as (d & Hrun & Hdial & Hw).
  exists h, d. split; [done|]. split; [by rewrite <- Hsent in Hrun|]. split; [done|].
  by rewrite Hw, Hd, Hcat, (pi_data _ _ _ _ Hi).
Qed.

(** *** A concrete round: the sample client session through a folder to the relay *)
Definition up_log : list (list WireFrame) := uploads (p_out sample_pump).
Definition up_body (i : nat) : bytes :=
  c2r_body sample_sid up_log sample_keys sample_hello i (default [] (up_log !! i)).
Definition up_file (i : nat) : DriveFile :=
  mkFile [Z.of_nat i] (DriveFilename_format (mkName (KFrame ClientToRelay) sample_sid (Z.of_nat (offset up_log i))))
    None None.
Definition up_files : list DriveFile := up_file <$> [3; 0; 2; 1]%nat.
Definition up_download (f : str) : Download :=
  match f with
  | [z] => if bool_decide (z ∈ [0; 1; 2; 3]) then DlBody (up_body (Z.to_nat z)) else DlFailed
  | _ => DlFailed
  end.
Definition up_env : RelayEnv :=
  mkEnv (Some []) 9000000000 (fun _ => Some up_files) (fun f _ => up_download f) (fun _ => 0) 1
    (fun _ => None) (fun _ => false).

Lemma up_folder : folder_complete sample_sid up_log sample_keys sample_hello up_env up_files 0.
Proof.
  split.
  - intros f p Hf He _ _. repeat (apply elem_of_cons in Hf as [->|Hf]); [..|by apply not_elem_of_nil in Hf];
      vm_compute in He; injection He as <-;
      [set (i := 3%nat)|set (i := 0%nat)|set (i := 2%nat)|set (i := 1%nat)];
      exists i, (default [] (up_log !! i)); split_and!; vm_compute; (exact I || exact eq_refl).
  - intros i Hi. exists (up_file i). split; [|done]. unfold up_files. apply list_elem_of_fmap.
    exists i. split; [done|]. cbn in Hi. rewrite !elem_of_cons. lia.
Qed.

Lemma up_body_authentic i : (i < 4)%nat -> authentic sample_sid up_log (k_c2r sample_keys) (up_body i).
Proof.
  intros Hi q pt Hq Ho. cbn [prefix_len relay_endpoint] in Ho.
  destruct (Z.eqb_spec q 0) as [->|Hne].
  - destruct i as [|[|[|[|i]]]]; [|exfalso; vm_compute in Ho; discriminate..|lia].
    exists 0%nat, (default [] (up_log !! 0%nat)). vm_compute in Ho. injection Ho as <-. vm_compute. auto.
  - assert (q = Z.of_nat (offset up_log i)) as ->.
    { unfold up_body, c2r_body in Ho. cbn [Z.to_nat drop] in Ho. unfold AeadCipher_seal in Ho.
      cbn [aead_encrypt toy_crypto] in Ho. rewrite app_assoc in Ho. eapply toy_open_seq in Ho; auto.
      clear -Hi. destruct i as [|[|[|[|i]]]]; [done..|lia]. }
    destruct i as [|[|[|[|i]]]]; [destruct (Hne eq_refl)|set (i := 1%nat)|set (i := 2%nat)|set (i := 3%nat)|clear Ho; lia];
      (exists i, (default [] (up_log !! i)); vm_compute in Ho; injection Ho as <-; vm_compute; auto).
Qed.

Lemma up_authentic : authentic_env sample_sid up_log sample_keys up_env.
Proof.
  intros f max body. cbn [e_download up_env]. unfold up_download. destruct f as [|z [|]]; [done| |done].
  case_bool_decide as Hz; [|done]. intros [= <-]. apply up_body_authentic. rewrite !elem_of_cons, elem_of_nil in Hz. lia.
Qed.

Definition up_state : Poller :=
  poll_loop_step sample_secret 300 up_env (poll_loop_start 300 (mkWorld ∅ ∅)).

Lemma sample_host_ok : host_ok sample_host.
Proof.
  split; [|by eexists _, _]. repeat (apply Forall_cons; split); try apply Forall_nil; unfold char_ok; lia.
Qed.

Lemma client_to_destination_delivery_witness :
  exists h d, sessions (fst (fst (run_one_cycle sample_secret up_env (mkWorld ∅ ∅) None))) !! sample_sid = Some h
    /\ run_driver sample_sid [] driver_start (recv_ok <$> sent (h_inbound_tx h)) = Some d
    /\ dialed d = Some (sample_host, 443) /\ written d = [22; 3; 1; 7; 7; 8].
Proof.
  exact (client_to_destination_delivery sample_secret sample_sid sample_esk sample_cookie sample_keys sample_hello
    sample_host 443 [] (PrBytes [22; 3; 1]) sample_pump0 sample_pump_events sample_pump [] up_env (mkWorld ∅ ∅) None
    up_files [] sample_initiate eq_refl sample_open_ok sample_host_ok ltac:(split; reflexivity) eq_refl sample_open
    sample_pump_trace ltac:(vm_compute; discriminate) eq_refl eq_refl eq_refl eq_refl eq_refl eq_refl up_folder).
Defined.

Definition up_events : list DriverEvent :=
  [EvRecv (Some (InConnect sample_host 443)) true DialOk WrOk; EvRecv (Some (InData [22; 3; 1])) true DialOk WrOk].
Definition up_driver : Driver :=
  Eval vm_compute in default driver_start (run_driver sample_sid [] driver_start up_events).

Lemma client_to_destination_prefix_witness :
  written up_driver = [22; 3; 1] /\ written up_driver `prefix_of` [22; 3; 1; 7; 7; 8].
Proof.
  split; [reflexivity|].
  assert (exists h, sessions (po_world up_state) !! sample_sid = Some h /\ h_keys h = sample_keys
    /\ take 2 (sent (h_inbound_tx h)) = [InConnect sample_host 443; InData [22; 3; 1]]) as (h & Eo & Hk & Hsent).
  { vm_compute. eexists. split_and!; reflexivity. }
  assert (driver_trace sample_sid [] up_events up_driver) as Ht.
  { apply (run_driver_trace sample_sid [] driver_start []); [constructor| |vm_compute; reflexivity].
    repeat constructor. }
  apply (client_to_destination_prefix sample_sid sample_host 443 [] (PrBytes [22; 3; 1]) sample_pump0
    sample_pump_events sample_pump sample_secret 300 300 (fun e => e = up_env) up_state h [] up_events up_driver
    sample_keys sample_open_ok sample_host_ok ltac:(split; reflexivity) sample_open sample_pump_trace
    ltac:(vm_compute; discriminate) ltac:(intros e ->; apply up_authentic)
    (rtc_once _ _ (step_cycle _ _ _ _ up_env _ eq_refl)) Eo Hk Ht).
  exists 2%nat. left. by rewrite Hsent.
Defined.

(** *** And back: the sample driver's uploads through the folder to the client *)
Definition down_log : list (list WireFrame) := uploads (out sample_driver).
Definition down_body (i : nat) : bytes :=
  r2c_body sample_sid down_log sample_keys i (default [] (down_log !! i)).
Definition down_file (i : nat) : DriveFile :=
  mkFile [Z.of_nat i] (DriveFilename_format (mkName (KFrame RelayToClient) sample_sid (Z.of_nat (offset down_log i))))
    None None.
Definition down_download (f : str) : Download :=
  match f with
  | [z] => if bool_decide (z ∈ [0; 1; 2]) then DlBody (down_body (Z.to_nat z)) else DlFailed
  | _ => DlFailed
  end.
Definition down_env : ClientEnv :=
  mkCEnv (Some []) 9000000000 (fun _ => Some (down_file <$> [2; 0; 1]%nat)) (fun f _ => down_download f)
    (fun _ => 0) (fun _ => false).

Lemma down_body_authentic i :
  (i < 3)%nat -> authentic (E := client_endpoint) sample_sid down_log (k_r2c sample_keys) (down_body i).
Proof.
  intros Hi q pt Hq Ho. cbn [prefix_len client_endpoint Z.to_nat drop] in Ho.
  assert (q = Z.of_nat (offset down_log i)) as ->.
  { unfold down_body, r2c_body, AeadCipher_seal in Ho. cbn [aead_encrypt toy_crypto] in Ho.
    eapply toy_open_seq in Ho; auto. clear -Hi. destruct i as [|[|[|i]]]; [done..|lia]. }
  destruct i as [|[|[|i]]]; [set (i := 0%nat)|set (i := 1%nat)|set (i := 2%nat)|clear Ho; lia];
    (exists i, (default [] (down_log !! i)); vm_compute in Ho; injection Ho as <-; vm_compute; auto).
Qed.

Lemma down_authentic : client_authentic sample_sid down_log sample_keys down_env.
Proof.
  intros f max body. cbn [c_download down_env]. unfold down_download. destruct f as [|z [|]]; [done| |done].
  case_bool_decide as Hz; [|done]. intros [= <-]. apply down_body_authentic. rewrite !elem_of_cons, elem_of_nil in Hz. lia.
Qed.

Lemma down_sealed : sealed_only sample_sid sample_keys (sealed_by [(sample_events, sample_driver)]) down_env.
Proof.
  intros f max body Hb q pt Hq Ho.
  destruct (log_authentic sample_sid down_log _ _ (down_authentic f max body Hb) q pt Hq Ho) as (fs & Hat & ->).
  exists fs. split; [|done]. exists sample_events, sample_driver. split; [by left|exact Hat].
Qed.

Definition down_state : ClientPoller :=
  client_poll_step 300 down_env (mkCPoller (register_session (mkMux ∅ ∅) sample_keys None) None 300 0).
Definition down_events : list PumpEvent := [PRecv (Some (CData [1; 2; 3])) None; PRecv (Some (CData [4])) None].
Definition down_pump : Pump :=
  Eval vm_compute in default sample_pump0 (run_pump sample_sid sample_pump0 down_events).

Lemma destination_to_client_prefix_witness :
  p_written down_pump = [1; 2; 3; 4] /\ p_written down_pump `prefix_of` reads sample_events.
Proof.
  split; [reflexivity|].
  assert (exists h, mux_sessions (cp_mux down_state) !! sample_sid = Some h /\ ch_keys h = sample_keys
    /\ take 2 (sent (ch_inbound_tx h)) = [CData [1; 2; 3]; CData [4]]) as (h & Eo & Hk & Hsent).
  { vm_compute. eexists. split_and!; reflexivity. }
  assert (pump_trace sample_sid sample_pump0 down_events down_pump) as Ht.
  { apply (run_pump_trace sample_sid sample_pump0 sample_pump0 []); [constructor| |vm_compute; reflexivity].
    repeat constructor. }
  apply (destination_to_client_prefix sample_sid [] [(sample_events, sample_driver)] 300 (fun e => e = down_env) down_state h
    sample_keys sample_host 443 [] (PrBytes [22; 3; 1]) sample_pump0 down_events down_pump
    ltac:(apply Forall_cons; split; [split; [exact sample_trace|vm_compute; discriminate]|apply Forall_nil_2])
    ltac:(intros e ->; exact down_sealed)
    (rtc_l _ _ _ _ (cstep_register 300 _ sample_keys None (client_start 300))
       (rtc_once _ _ (cstep_cycle 300 _ down_env _ eq_refl))) Eo Hk sample_open_ok sample_open Ht) with (d := sample_driver);
    [|reflexivity].
  exists 2%nat. left. by rewrite Hsent.
Defined.

(** *** A second driver under the same keys
    The relay keeps no memory of the sessions it has dropped, and the keys of a session are
    those of its Hello.  A folder that shows an old first file again, after the session it
    opened was evicted, starts the session again: the same keys, a new driver whose
    numbers, and with them the nonces, begin at 0 again. *)
Definition late_sweep : SweepEnv :=
  mkSweep (Some []) 9000000000 (1 + 1000 * NANOS_PER_SEC) (fun _ => Some []).
Definition swept_state : Poller := with_world up_state (fst (run_one_sweep late_sweep 300 (po_world up_state))).
Definition respawned_state : Poller := poll_loop_step sample_secret 300 up_env swept_state.

Theorem replayed_hello_respawns :
  reachable sample_secret 300 300 (fun e => e = up_env) respawned_state
  /\ sessions (po_world swept_state) !! sample_sid = None
  /\ (h_keys <$> sessions (po_world up_state) !! sample_sid) = Some sample_keys
  /\ (h_keys <$> sessions (po_world respawned_state) !! sample_sid) = Some sample_keys
  /\ (sent ∘ h_inbound_tx <$> sessions (po_world respawned_state) !! sample_sid)
     = (sent ∘ h_inbound_tx <$> sessions (po_world up_state) !! sample_sid).
Proof.
  split; [|vm_compute; split_and!; reflexivity].
  eapply rtc_l; [exact (step_cycle _ _ _ _ up_env _ eq_refl)|].
  eapply rtc_l; [exact (step_sweep _ _ _ _ late_sweep _)|].
  exact (rtc_once _ _ (step_cycle _ _ _ _ up_env _ eq_refl)).
Qed.
