(* ===== verification/Udpgw.v ===== *)
(** * tunnel-node/src/udpgw.rs: the udpgw frame codec and its server

    [try_parse_frame]/[serialise_frame] over byte lists (indexing and slicing panic out
    of range, as in Rust), [handle_frame] with [get_or_create_socket], and the read loop
    of [udpgw_server_task], whose buffer is fed in chunks of any size.  What the
    operating system answers (name lookup, [bind], [connect], [send], datagrams
    received) is supplied by the environment, one answer per handled frame.  An
    [Ipv6Addr] is its 16 octets.  Logging is left out; the response channel is the
    sequence of frames put into it. *)

From stdpp Require Import prelude gmap.
From S2P Require Import Prelude RustStr.
#[local] Open Scope Z_scope.

(** ** Constants and data *)
Definition UDPGW_MAGIC_HOST : str := Eval cbv in lit "192.0.2.1".
Definition LEGACY_UDPGW_MAGIC_HOST : str := Eval cbv in lit "198.18.0.1".
Definition UDPGW_MAGIC_PORT : Z := 7300.

Definition FLAG_KEEPALIVE : Z := 0x01.
Definition FLAG_DATA : Z := 0x02.
Definition FLAG_ERR : Z := 0x20.
Definition ATYP_IPV4 : Z := 0x01.
Definition ATYP_DOMAIN : Z := 0x03.
Definition ATYP_IPV6 : Z := 0x04.
Definition UDP_MTU : Z := 10240.
Definition BUF_MAX : Z := 65536 * 4.

Inductive DstAddr :=
| V4 (a b c d : Z) (port : Z)
| V6 (octets : bytes) (port : Z)
| Domain (name : str) (port : Z).

Record Frame := mkUFrame {
  flags : Z;
  conn_id : Z;
  addr : option DstAddr;
  payload : bytes
}.

(** [std::net::SocketAddr]. *)
Inductive SocketAddr :=
| SockV4 (a b c d : Z) (port : Z)
| SockV6 (octets : bytes) (port flowinfo scope_id : Z).

#[export] Instance DstAddr_eq_dec : EqDecision DstAddr.
Proof. solve_decision. Defined.
#[export] Instance Frame_eq_dec : EqDecision Frame.
Proof. solve_decision. Defined.
#[export] Instance SocketAddr_eq_dec : EqDecision SocketAddr.
Proof. solve_decision. Defined.

(** The errors of [try_parse_frame], all of kind [InvalidData]. *)
Inductive ParseError :=
| FrameTooShort | MissingAtyp | ShortIPv4 | ShortIPv6 | ShortDomain | UnknownAtyp (b : Z).

(** ** Parse and serialise *)

(** [l[i]] and [&l[a..b]]. *)
Definition index {E} (l : bytes) (i : Z) : res Z E :=
  match l !! Z.to_nat i with Some b => Ok b | None => Panic end.

Definition slice {E} (l : bytes) (a b : Z) : res bytes E :=
  if (a <=? b) && (b <=? len l) then Ok (take (Z.to_nat (b - a)) (drop (Z.to_nat a) l)) else Panic.

(** [u16::from_be_bytes([l[i], l[i + 1]])]. *)
Definition index_u16 {E} (l : bytes) (i : Z) : res Z E :=
  let? x := index l i in let? y := index l (i + 1) in Ok (be_val [x; y]).

(** The SOCKS5-style address at the head of [rest]: the address and where the payload
    starts. *)
Definition parse_addr (rest : bytes) : res (DstAddr * Z) ParseError :=
  if len rest =? 0 then Err MissingAtyp else
  let? atyp := index rest 0 in
  if atyp =? ATYP_IPV4 then
    if len rest <? 1 + 4 + 2 then Err ShortIPv4 else
    let? a := index rest 1 in let? b := index rest 2 in
    let? c := index rest 3 in let? d := index rest 4 in
    let? port := index_u16 rest 5 in
    Ok (V4 a b c d port, 7)
  else if atyp =? ATYP_IPV6 then
    if len rest <? 1 + 16 + 2 then Err ShortIPv6 else
    let? octets := slice rest 1 17 in
    let? port := index_u16 rest 17 in
    Ok (V6 octets port, 19)
  else if atyp =? ATYP_DOMAIN then
    if len rest <? 2 then Err ShortDomain else
    let? dlen := index rest 1 in
    if len rest <? 2 + dlen + 2 then Err ShortDomain else
    let? raw := slice rest 2 (2 + dlen) in
    let? port := index_u16 rest (2 + dlen) in
    Ok (Domain (from_utf8_lossy raw) port, 2 + dlen + 2)
  else Err (UnknownAtyp atyp).

(** The part of [try_parse_frame] after the length prefix. *)
Definition parse_body (body : bytes) : res Frame ParseError :=
  if len body <? 3 then Err FrameTooShort else
  let? flags := index body 0 in
  let? conn_id := index_u16 body 1 in
  let? rest := slice body 3 (len body) in
  let? (addr, payload_start) :=
    (if negb (Z.land flags FLAG_DATA =? 0) then
       let? (a, n) := parse_addr rest in Ok (Some a, n)
     else Ok (None, 0)) in
  let? payload := slice rest payload_start (len rest) in
  Ok (mkUFrame flags conn_id addr payload).

Definition try_parse_frame (buf : bytes) : res (option (Frame * Z)) ParseError :=
  if len buf <? 2 then Ok None else
  let? body_len := index_u16 buf 0 in
  let total := 2 + body_len in
  if len buf <? total then Ok None else
  let? body := slice buf 2 total in
  let? frame := parse_body body in
  Ok (Some (frame, total)).

Definition write_to (a : DstAddr) : bytes :=
  match a with
  | V4 a b c d port => [ATYP_IPV4] ++ [a; b; c; d] ++ be_bytes 2 port
  | V6 octets port => [ATYP_IPV6] ++ octets ++ be_bytes 2 port
  | Domain name port =>
    [ATYP_DOMAIN] ++ [wrap 8 (str_len name)] ++ as_bytes name ++ be_bytes 2 port
  end.

Definition serialised_len (a : DstAddr) : Z :=
  match a with
  | V4 _ _ _ _ _ => 1 + 4 + 2
  | V6 _ _ => 1 + 16 + 2
  | Domain n _ => 1 + 1 + str_len n + 2
  end.

Definition serialise_frame (f : Frame) : bytes :=
  let addr_len := match addr f with None => 0 | Some a => serialised_len a end in
  let body_len := 1 + 2 + addr_len + len (payload f) in
  be_bytes 2 (wrap 16 body_len) ++ [flags f] ++ be_bytes 2 (conn_id f)
  ++ match addr f with Some a => write_to a | None => [] end ++ payload f.

Definition serialise_err (c : Z) : bytes := serialise_frame (mkUFrame FLAG_ERR c None []).

Definition is_udpgw_dest (host : str) (port : Z) : bool :=
  (port =? UDPGW_MAGIC_PORT)
  && (bool_decide (host = UDPGW_MAGIC_HOST) || bool_decide (host = LEGACY_UDPGW_MAGIC_HOST)).

(** ** The server *)
#[export] Instance SocketAddr_countable : Countable SocketAddr.
Proof.
  refine (inj_countable'
    (fun s => match s with
              | SockV4 a b c d p => inl (a, b, c, d, p)
              | SockV6 o p f i => inr (o, p, f, i) end)
    (fun x => match x with
              | inl (a, b, c, d, p) => SockV4 a b c d p
              | inr (o, p, f, i) => SockV6 o p f i end) _).
  by intros [].
Defined.

(** A persistent socket: which one it is (the [sock]-th opened by this server) and its
    reader task, with the values the task captured. *)
Record ConnSocket := mkConnSocket {
  sock : nat;
  reader_conn : Z;
  reader_addr : DstAddr;
  reader_alive : bool
}.

Abbreviation Key := (Z * SocketAddr)%type.

(** [buf] and [sockets] are the locals of [udpgw_server_task]; [tx] is what was put into
    the response channel.  [opened] numbers the sockets, [sent] lists the datagrams given
    to the network and [handled] the frames passed to [handle_frame]: history only. *)
Record Server := mkServer {
  buf : bytes;
  sockets : gmap Key ConnSocket;
  tx : list bytes;
  opened : nat;
  sent : list (nat * Key * bytes);
  handled : list Frame
}.

Definition server_new : Server := mkServer [] ∅ [] 0 [] [].

(** What the operating system answers while one frame is handled. *)
Record FrameIo := mkFrameIo {
  lookup_host : option SocketAddr;
  bind_ok : bool;
  connect_ok : bool;
  send_ok : bool
}.

Definition to_socket_addr (io : FrameIo) (a : DstAddr) : option SocketAddr :=
  match a with
  | V4 a b c d port => Some (SockV4 a b c d port)
  | V6 octets port => Some (SockV6 octets port 0 0)
  | Domain _ _ => lookup_host io
  end.

Definition tx_send (m : bytes) (st : Server) : Server :=
  mkServer (buf st) (sockets st) (tx st ++ [m]) (opened st) (sent st) (handled st).

Definition get_or_create_socket (io : FrameIo) (c : Z) (dst : SocketAddr) (a : DstAddr)
    (st : Server) : option nat * Server :=
  match sockets st !! (c, dst) with
  | Some cs => (Some (sock cs), st)
  | None =>
    if negb (bind_ok io) then (None, st)
    else if negb (connect_ok io) then (None, st)
    else (Some (opened st),
          mkServer (buf st) (<[(c, dst) := mkConnSocket (opened st) c a true]> (sockets st))
            (tx st) (S (opened st)) (sent st) (handled st))
  end.

Definition dst_port (a : DstAddr) : Z :=
  match a with V4 _ _ _ _ p | V6 _ p | Domain _ p => p end.

Definition sock_send (s : nat) (k : Key) (m : bytes) (st : Server) : Server :=
  mkServer (buf st) (sockets st) (tx st) (opened st) (sent st ++ [(s, k, m)]) (handled st).

Definition handle_frame (io : FrameIo) (f : Frame) (st : Server) : Server :=
  if negb (Z.land (flags f) FLAG_KEEPALIVE =? 0)
  then tx_send (serialise_frame (mkUFrame FLAG_KEEPALIVE (conn_id f) None [])) st
  else if Z.land (flags f) FLAG_DATA =? 0 then st
  else match addr f with
  | None => tx_send (serialise_err (conn_id f)) st
  | Some dst =>
    if (dst_port dst =? 443) || (dst_port dst =? 53)
    then tx_send (serialise_err (conn_id f)) st
    else match to_socket_addr io dst with
    | None => tx_send (serialise_err (conn_id f)) st
    | Some dst_addr =>
      match get_or_create_socket io (conn_id f) dst_addr dst st with
      | (None, st) => tx_send (serialise_err (conn_id f)) st
      | (Some s, st) =>
        if send_ok io then sock_send s (conn_id f, dst_addr) (payload f) st
        else tx_send (serialise_err (conn_id f)) st
      end
    end
  end.

Definition set_buf (b : bytes) (st : Server) : Server :=
  mkServer b (sockets st) (tx st) (opened st) (sent st) (handled st).

Definition note_handled (f : Frame) (st : Server) : Server :=
  mkServer (buf st) (sockets st) (tx st) (opened st) (sent st) (handled st ++ [f]).

(** The inner loop of [udpgw_server_task]; [io n] is what the system answers to the
    [n]-th frame.  [None]: out of fuel, or a panic of the parser. *)
Fixpoint drain_frames (io : nat -> FrameIo) (fuel : nat) (st : Server) : option Server :=
  match fuel with
  | O => None
  | S fuel =>
    match try_parse_frame (buf st) with
    | Ok (Some (frame, consumed)) =>
      drain_frames io fuel
        (handle_frame (io (length (handled st))) frame
           (note_handled frame (set_buf (drop (Z.to_nat consumed) (buf st)) st)))
    | Ok None => Some (if BUF_MAX <=? len (buf st) then set_buf [] st else st)
    | Err _ =>
      if 2 <=? len (buf st) then
        match @index_u16 unit (buf st) 0 with
        | Ok n => Some (set_buf (drop (Z.to_nat (Z.min (2 + n) (len (buf st)))) (buf st)) st)
        | _ => None
        end
      else Some (set_buf [] st)
    | Panic => None
    end
  end.

(** What can happen to a running server: a read from the client half, a datagram on one
    of its sockets, an error from one of the readers' [recv].  A read that returns no
    bytes or fails ends the task, and with it the sequence of events. *)
Inductive Event :=
| Chunk (data : bytes)
| Datagram (k : Key) (data : bytes)
| RecvError (k : Key).

(** One turn of a reader task. *)
Definition reader_recv (k : Key) (data : bytes) (st : Server) : Server :=
  match sockets st !! k with
  | Some cs =>
    if reader_alive cs
    then tx_send (serialise_frame
           (mkUFrame FLAG_DATA (reader_conn cs) (Some (reader_addr cs))
              (take (Z.to_nat UDP_MTU) data))) st
    else st
  | None => st
  end.

Definition reader_exit (k : Key) (st : Server) : Server :=
  match sockets st !! k with
  | Some cs =>
    mkServer (buf st)
      (<[k := mkConnSocket (sock cs) (reader_conn cs) (reader_addr cs) false]> (sockets st))
      (tx st) (opened st) (sent st) (handled st)
  | None => st
  end.

Definition server_step (io : nat -> FrameIo) (st : Server) (e : Event) : option Server :=
  match e with
  | Chunk data =>
    let st := set_buf (buf st ++ data) st in
    drain_frames io (S (length (buf st))) st
  | Datagram k data => Some (reader_recv k data st)
  | RecvError k => Some (reader_exit k st)
  end.

Definition server_run (io : nat -> FrameIo) (st : Server) (evs : list Event) : option Server :=
  foldl (fun acc e => acc ≫= fun st => server_step io st e) (Some st) evs.

(** ** Indexing and slicing *)
Lemma slice_app {E} a m b n k :
  n = len a -> k = n + len m -> @slice E (a ++ m ++ b) n k = Ok m.
Proof.
  intros -> ->. unfold slice. rewrite !len_app.
  pose proof (len_nonneg a). pose proof (len_nonneg m). pose proof (len_nonneg b).
  destruct (Z.leb_spec (len a) (len a + len m)); [|lia].
  destruct (Z.leb_spec (len a + len m) (len a + (len m + len b))); [|lia]. cbn [andb].
  unfold len. rewrite drop_app_length' by lia. rewrite take_app_length' by lia. done.
Qed.

Lemma slice_tail {E} a m n : n = len a -> @slice E (a ++ m) n (len (a ++ m)) = Ok m.
Proof.
  intros ->. rewrite <- (app_nil_r m) at 1. apply slice_app; [done|]. by rewrite len_app.
Qed.

Lemma index_app {E} a x b i : i = len a -> @index E (a ++ x :: b) i = Ok x.
Proof.
  intros ->. unfold index, len. rewrite Nat2Z.id, list_lookup_middle; done.
Qed.

Lemma index_at {E} l i x : l !! Z.to_nat i = Some x -> @index E l i = Ok x.
Proof. unfold index. by intros ->. Qed.

Lemma index_u16_app {E} a p b i :
  i = len a -> is_u16 p -> @index_u16 E (a ++ be_bytes 2 p ++ b) i = Ok p.
Proof.
  intros Hi Hp. unfold index_u16. cbn [be_bytes app].
  rewrite index_app by done. cbn [res_bind].
  match goal with |- context [a ++ ?x :: ?y :: b] =>
    replace (a ++ x :: y :: b) with ((a ++ [x]) ++ y :: b) by (by rewrite <- app_assoc) end.
  rewrite index_app by (rewrite len_app, len_cons, len_nil; lia). cbn [res_bind].
  f_equal. apply (be_val_be_bytes_id 2). exact Hp.
Qed.

Lemma index_ok {E} l i : 0 <= i < len l -> bytes_ok l -> exists b, @index E l i = Ok b /\ is_u8 b.
Proof.
  intros Hi Hl. unfold index, len in *.
  destruct (lookup_lt_is_Some_2 l (Z.to_nat i)) as [b Hb]; [lia|].
  rewrite Hb. exists b. split; [done|]. by eapply Forall_lookup_1.
Qed.

Lemma index_u16_ok {E} l i :
  0 <= i -> i + 1 < len l -> bytes_ok l -> exists p, @index_u16 E l i = Ok p /\ is_u16 p.
Proof.
  intros Hi Hl Hb. unfold index_u16.
  destruct (@index_ok E l i) as (x & -> & Hx); [lia|done|].
  destruct (@index_ok E l (i + 1)) as (y & -> & Hy); [lia|done|]. cbn [res_bind].
  eexists; split; [done|].
  destruct (be_val_bound [x; y]) as [? Hlt]; [by apply Forall_cons_2; [|apply Forall_cons_2; [|apply Forall_nil_2]]|]. cbn [length] in Hlt.
  unfold is_u16. rewrite pow256_2 in Hlt. lia.
Qed.

Lemma slice_ok {E} l a b : 0 <= a <= b -> b <= len l -> exists s, @slice E l a b = Ok s.
Proof.
  intros. unfold slice. destruct (Z.leb_spec a b); [|lia]. destruct (Z.leb_spec b (len l)); [|lia].
  cbn. eauto.
Qed.

(** ** The parser never panics on bytes *)
Lemma parse_addr_total rest : bytes_ok rest ->
  parse_addr rest <> Panic /\
  (forall a n, parse_addr rest = Ok (a, n) -> 0 <= n <= len rest).
Proof.
  intros Hb. pose proof (len_nonneg rest). unfold parse_addr.
  destruct (Z.eqb_spec (len rest) 0); [split; done|].
  destruct (@index_ok ParseError rest 0) as (atyp & -> & Ha); [lia|done|]. cbn [res_bind].
  case_match.
  { destruct (Z.ltb_spec (len rest) (1 + 4 + 2)); [split; done|].
    destruct (@index_ok ParseError rest 1) as (? & -> & _); [lia|done|].
    destruct (@index_ok ParseError rest 2) as (? & -> & _); [lia|done|].
    destruct (@index_ok ParseError rest 3) as (? & -> & _); [lia|done|].
    destruct (@index_ok ParseError rest 4) as (? & -> & _); [lia|done|].
    destruct (@index_u16_ok ParseError rest 5) as (? & -> & _); [lia..|done|]. cbn [res_bind].
    split; [done|]. intros ? ? [= <- <-]. lia. }
  case_match.
  { destruct (Z.ltb_spec (len rest) (1 + 16 + 2)); [split; done|].
    destruct (@slice_ok ParseError rest 1 17) as (? & ->); [lia..|].
    destruct (@index_u16_ok ParseError rest 17) as (? & -> & _); [lia..|done|]. cbn [res_bind].
    split; [done|]. intros ? ? [= <- <-]. lia. }
  case_match; [|split; done].
  destruct (Z.ltb_spec (len rest) 2); [split; done|].
  destruct (@index_ok ParseError rest 1) as (dlen & -> & Hd); [lia|done|]. cbn [res_bind].
  unfold is_u8 in Hd.
  destruct (Z.ltb_spec (len rest) (2 + dlen + 2)); [split; done|].
  destruct (@slice_ok ParseError rest 2 (2 + dlen)) as (? & ->); [lia..|].
  destruct (@index_u16_ok ParseError rest (2 + dlen)) as (? & -> & _); [lia..|done|]. cbn [res_bind].
  split; [done|]. intros ? ? [= <- <-]. lia.
Qed.

Lemma bytes_ok_drop n l : bytes_ok l -> bytes_ok (drop n l).
Proof. apply Forall_drop. Qed.
Lemma bytes_ok_take n l : bytes_ok l -> bytes_ok (take n l).
Proof. apply Forall_take. Qed.

Lemma slice_bytes_ok {E} l a b s : bytes_ok l -> @slice E l a b = Ok s -> bytes_ok s.
Proof.
  unfold slice. case_match; intros Hl; [|done]. intros [= <-]. by apply bytes_ok_take, bytes_ok_drop.
Qed.

Lemma parse_body_total body : bytes_ok body -> parse_body body <> Panic.
Proof.
  intros Hb. unfold parse_body. destruct (Z.ltb_spec (len body) 3); [done|].
  destruct (@index_ok ParseError body 0) as (fl & -> & _); [lia|done|].
  destruct (@index_u16_ok ParseError body 1) as (c & -> & _); [lia..|done|].
  destruct (@slice_ok ParseError body 3 (len body)) as (rest & Hr); [lia..|].
  rewrite Hr. apply slice_bytes_ok in Hr; [|done]. cbn [res_bind].
  pose proof (len_nonneg rest). destruct (parse_addr_total rest Hr) as [Hp Hn].
  destruct (negb (Z.land fl FLAG_DATA =? 0)); cbn [res_bind].
  - destruct (parse_addr rest) as [[a n]|e|]; cbn [res_bind]; [|done|done].
    destruct (Hn a n eq_refl). destruct (@slice_ok ParseError rest n (len rest)) as (? & ->); [lia..|]. done.
  - destruct (@slice_ok ParseError rest 0 (len rest)) as (? & ->); [lia..|]. done.
Qed.

(** ** The codec *)
Definition dst_ok (a : DstAddr) : Prop :=
  is_u16 (dst_port a) /\
  match a with
  | V4 a b c d _ => bytes_ok [a; b; c; d]
  | V6 octets _ => length octets = 16%nat
  | Domain name _ => str_ok name /\ str_len name <= 255
  end.

(** A frame the wire format can carry: an address exactly when the DATA flag says so. *)
Record uframe_ok (f : Frame) : Prop := {
  uo_conn : is_u16 (conn_id f);
  uo_addr : match addr f with
            | Some a => Z.land (flags f) FLAG_DATA <> 0 /\ dst_ok a
            | None => Z.land (flags f) FLAG_DATA = 0
            end;
  uo_len : 3 + match addr f with Some a => serialised_len a | None => 0 end + len (payload f)
           < 2 ^ 16
}.

Definition frame_body (f : Frame) : bytes :=
  [flags f] ++ be_bytes 2 (conn_id f)
  ++ match addr f with Some a => write_to a | None => [] end ++ payload f.

(** A body under its length prefix. *)
Definition framed (body : bytes) : bytes := be_bytes 2 (len body) ++ body.

Lemma len_be_bytes n z : len (be_bytes n z) = Z.of_nat n.
Proof. unfold len. by rewrite length_be_bytes. Qed.

Lemma len_write_to a : dst_ok a -> len (write_to a) = serialised_len a.
Proof.
  intros [_ H]. destruct a; cbn [write_to serialised_len];
    repeat rewrite ?len_app, ?len_be_bytes, ?len_cons, ?len_nil; [lia| |].
  - unfold len. rewrite H. lia.
  - unfold str_len. lia.
Qed.

Lemma parse_addr_write_to a p : dst_ok a -> parse_addr (write_to a ++ p) = Ok (a, serialised_len a).
Proof.
  intros Ha. pose proof (len_write_to a Ha) as Hl. pose proof (len_nonneg p).
  destruct Ha as [Hp H']. unfold parse_addr. rewrite len_app, Hl.
  destruct a as [a b c d q|o q|s q]; cbn [serialised_len dst_port] in *.
  - destruct (Z.eqb_spec (1 + 4 + 2 + len p) 0); [lia|].
    cbn [write_to]. rewrite <- !app_assoc.
    rewrite (index_at _ 0 ATYP_IPV4) by done. cbn [res_bind]. rewrite Z.eqb_refl.
    destruct (Z.ltb_spec (1 + 4 + 2 + len p) (1 + 4 + 2)); [lia|].
    rewrite (index_at _ 1 a), (index_at _ 2 b), (index_at _ 3 c), (index_at _ 4 d) by done.
    rewrite app_assoc, index_u16_app by done. done.
  - destruct (Z.eqb_spec (1 + 16 + 2 + len p) 0); [lia|].
    cbn [write_to]. rewrite <- !app_assoc.
    rewrite (index_at _ 0 ATYP_IPV6) by done. cbn [res_bind].
    replace (ATYP_IPV6 =? ATYP_IPV4) with false by done. rewrite Z.eqb_refl.
    destruct (Z.ltb_spec (1 + 16 + 2 + len p) (1 + 16 + 2)); [lia|].
    rewrite slice_app by (unfold len; cbn [length]; lia). cbn [res_bind].
    rewrite app_assoc, index_u16_app by (done || (rewrite len_app; unfold len; cbn [length]; lia)).
    done.
  - pose proof (len_nonneg (as_bytes s)). unfold str_len in *. destruct H' as [Hs H255].
    destruct (Z.eqb_spec (1 + 1 + len (as_bytes s) + 2 + len p) 0); [lia|].
    cbn [write_to]. rewrite <- !app_assoc. unfold str_len.
    rewrite (index_at _ 0 ATYP_DOMAIN) by done. cbn [res_bind].
    replace (ATYP_DOMAIN =? ATYP_IPV4) with false by done.
    replace (ATYP_DOMAIN =? ATYP_IPV6) with false by done. rewrite Z.eqb_refl.
    destruct (Z.ltb_spec (1 + 1 + len (as_bytes s) + 2 + len p) 2); [lia|].
    rewrite (index_at _ 1 (wrap 8 (len (as_bytes s)))) by done. cbn [res_bind].
    rewrite wrap_small by lia.
    destruct (Z.ltb_spec (1 + 1 + len (as_bytes s) + 2 + len p) (2 + len (as_bytes s) + 2)); [lia|].
    rewrite app_assoc, slice_app by done. cbn [res_bind].
    rewrite app_assoc, index_u16_app by (done || (rewrite len_app; done)). cbn [res_bind].
    by rewrite from_utf8_lossy_as_bytes.
Qed.

Lemma parse_frame_body f : uframe_ok f -> parse_body (frame_body f) = Ok f.
Proof.
  intros [Hc Ha _]. unfold parse_body, frame_body.
  pose proof (len_nonneg (match addr f with Some a => write_to a | None => [] end ++ payload f)) as Hn.
  rewrite !len_app, len_be_bytes, len_cons, len_nil in *.
  match goal with |- context [?x <? 3] => destruct (Z.ltb_spec x 3); [lia|] end.
  rewrite (index_at _ 0 (flags f)) by done. cbn [res_bind].
  rewrite index_u16_app by done. cbn [res_bind].
  rewrite app_assoc.
  match goal with |- context [slice (?h ++ ?r) 3 ?n] =>
    replace n with (len (h ++ r))
      by (rewrite !len_app, len_be_bytes, len_cons, len_nil; lia) end.
  rewrite slice_tail by (by rewrite len_app, len_be_bytes, len_cons, len_nil). cbn [res_bind].
  destruct f as [fl c [a|] p]; cbn [flags conn_id addr payload] in *.
  - destruct Ha as [Hf Ha]. destruct (Z.eqb_spec (Z.land fl FLAG_DATA) 0); [done|]. cbn [negb].
    rewrite parse_addr_write_to by done. cbn [res_bind].
    rewrite slice_tail by (by rewrite len_write_to). done.
  - rewrite Ha. cbn [negb Z.eqb res_bind app].
    pose proof (@slice_tail ParseError [] p 0 eq_refl) as Hs. cbn [app] in Hs. by rewrite Hs.
Qed.

Lemma len_frame_body f : uframe_ok f ->
  len (frame_body f)
  = 1 + 2 + match addr f with Some a => serialised_len a | None => 0 end + len (payload f).
Proof.
  intros [_ Ha _]. unfold frame_body.
  repeat rewrite ?len_app, ?len_be_bytes, ?len_cons, ?len_nil.
  destruct (addr f) as [a|]; [destruct Ha as [_ Ha]; rewrite (len_write_to a Ha)|]; unfold len; cbn [length]; lia.
Qed.

Lemma serialise_framed f : uframe_ok f -> serialise_frame f = framed (frame_body f).
Proof.
  intros Hf. unfold serialise_frame, framed. rewrite <- len_frame_body by done.
  rewrite wrap_small; [done|]. pose proof (len_nonneg (frame_body f)).
  pose proof (len_frame_body f Hf). destruct Hf. lia.
Qed.

Lemma try_parse_framed body t : len body < 2 ^ 16 ->
  try_parse_frame (framed body ++ t) =
    (let? f := parse_body body in Ok (Some (f, 2 + len body))).
Proof.
  intros Hl. unfold try_parse_frame, framed. rewrite <- app_assoc.
  pose proof (len_nonneg body). pose proof (len_nonneg t).
  rewrite !len_app, len_be_bytes.
  destruct (Z.ltb_spec (Z.of_nat 2 + (len body + len t)) 2); [lia|].
  pose proof (@index_u16_app ParseError [] (len body) (body ++ t) 0 eq_refl) as Hi.
  cbn [app] in Hi. rewrite Hi by (unfold is_u16; lia). cbn [res_bind].
  destruct (Z.ltb_spec (Z.of_nat 2 + (len body + len t)) (2 + len body)); [lia|].
  rewrite slice_app by (rewrite ?len_be_bytes; lia). done.
Qed.

(** A frame written with [serialise_frame] is read back by [try_parse_frame],
    which consumes exactly its bytes whatever follows in the buffer. *)
Theorem udpgw_frame_roundtrip f t :
  uframe_ok f ->
  try_parse_frame (serialise_frame f ++ t) = Ok (Some (f, len (serialise_frame f))).
Proof.
  intros Hf. rewrite serialise_framed by done.
  pose proof (len_frame_body f Hf). rewrite try_parse_framed by (destruct Hf; lia).
  rewrite parse_frame_body by done. cbn [res_bind]. unfold framed.
  by rewrite len_app, len_be_bytes.
Qed.

Lemma udpgw_frame_roundtrip_witness :
  let f := mkUFrame FLAG_DATA 258 (Some (Domain (lit "t.me") 8443)) [1; 2; 3] in
  try_parse_frame (serialise_frame f ++ [9]) = Ok (Some (f, len (serialise_frame f))).
Proof.
  cbn zeta. apply udpgw_frame_roundtrip. constructor; cbn [addr flags conn_id payload].
  - by compute.
  - split; [done|]. split; [by compute|]. split; [|done].
    apply ascii_str_ok. repeat (apply Forall_cons_2; [split; done|]). apply Forall_nil_2.
  - done.
Defined.

(** ** Reassembly *)

(** No complete frame at the head of the buffer. *)
Definition incomplete (b : bytes) : Prop :=
  forall body t, len body < 2 ^ 16 -> b <> framed body ++ t.

(** The frame a body holds, if it is well formed. *)
Definition good (body : bytes) : option Frame :=
  match parse_body body with Ok f => Some f | _ => None end.

Definition short_body (body : bytes) : Prop := len body < 2 ^ 16.

Lemma bytes_ok_framed_inv body t : bytes_ok (framed body ++ t) -> bytes_ok body /\ bytes_ok t.
Proof. unfold framed. rewrite !bytes_ok_app. tauto. Qed.

Lemma split_complete b body_len :
  bytes_ok b -> @index_u16 ParseError b 0 = Ok body_len -> 2 <= len b -> 2 + body_len <= len b ->
  exists body t, b = framed body ++ t /\ len body = body_len.
Proof.
  intros Hb Hi H2 Hl. destruct b as [|x [|y r]]; [done|done|].
  unfold index_u16 in Hi. cbn in Hi. injection Hi as Hn.
  change (be_val [x; y] = body_len) in Hn.
  inversion Hb as [|?? Hx Hb1]; subst. inversion Hb1 as [|?? Hy Hr]; subst.
  set (n := be_val [x; y]) in *.
  assert (bytes_ok [x; y]) as Hxy by (apply Forall_cons_2; [done|apply Forall_cons_2; [done|apply Forall_nil_2]]).
  pose proof (be_val_bound _ Hxy) as Hbd. fold n in Hbd. rewrite !len_cons in Hl.
  assert (len (take (Z.to_nat n) r) = n) as Ht by (unfold len in *; rewrite length_take; lia).
  exists (take (Z.to_nat n) r), (drop (Z.to_nat n) r). split; [|done].
  unfold framed. rewrite Ht. unfold n at 1. change 2%nat with (length [x; y]).
  rewrite be_bytes_be_val by done. rewrite <- app_assoc, take_drop. done.
Qed.

Lemma try_parse_cases b : bytes_ok b ->
  (incomplete b /\ try_parse_frame b = Ok None /\ len b < 2 + 2 ^ 16)
  \/ exists body t, b = framed body ++ t /\ short_body body.
Proof.
  intros Hb. destruct (try_parse_frame b) as [[r|]|e|] eqn:E;
    unfold try_parse_frame in E; destruct (Z.ltb_spec (len b) 2) as [Hs|Hs].
  all: try done.
  2: { left. split_and!; [|done|lia]. intros body t Hl ->. unfold framed in Hs.
       rewrite !len_app, len_be_bytes in Hs. pose proof (len_nonneg body). pose proof (len_nonneg t). lia. }
  all: destruct (@index_u16_ok ParseError b 0) as (n & Hn & Hn16); [lia..|done|];
    rewrite Hn in E; cbn [res_bind] in E; unfold is_u16 in Hn16;
    destruct (Z.ltb_spec (len b) (2 + n)) as [Hl|Hl]; try done.
  2: { left. split_and!; [|done|lia]. intros body t Hl' ->.
       pose proof (@index_u16_app ParseError [] (len body) (body ++ t) 0 eq_refl) as Hi.
       cbn [app] in Hi. pose proof (len_nonneg body). pose proof (len_nonneg t).
       unfold framed in *. rewrite <- app_assoc in Hn.
       rewrite Hi in Hn by (unfold is_u16; lia). injection Hn as <-.
       rewrite !len_app, len_be_bytes in Hl. lia. }
  all: right; destruct (split_complete b n) as (body & t & -> & Hbl); [done..|]; exists body, t;
    split; [done|unfold short_body; lia].
Qed.

Lemma framed_inj b1 b2 t1 t2 :
  short_body b1 -> short_body b2 -> framed b1 ++ t1 = framed b2 ++ t2 -> b1 = b2 /\ t1 = t2.
Proof.
  unfold framed, short_body. intros H1 H2. rewrite <- !app_assoc. intros E.
  pose proof (len_nonneg b1). pose proof (len_nonneg b2).
  apply app_inj_1 in E as [E1 E2]; [|by rewrite !length_be_bytes].
  apply be_bytes_inj in E1; [|cbn; lia..]. unfold len in E1.
  by apply app_inj_1 in E2; [|lia].
Qed.

Lemma try_parse_Err body t : short_body body -> good body = None -> bytes_ok body ->
  exists e, try_parse_frame (framed body ++ t) = Err e.
Proof.
  intros Hs Hg Hb. rewrite try_parse_framed by done. unfold good in Hg.
  pose proof (parse_body_total body Hb). destruct (parse_body body); [done| |done]. eauto.
Qed.

Lemma try_parse_Ok body t f : short_body body -> good body = Some f ->
  try_parse_frame (framed body ++ t) = Ok (Some (f, len (framed body))).
Proof.
  intros Hs Hg. rewrite try_parse_framed by done. unfold good in Hg.
  destruct (parse_body body); [|done|done]. injection Hg as ->. cbn [res_bind].
  unfold framed. by rewrite len_app, len_be_bytes.
Qed.

Lemma handle_frame_frame io f st :
  buf (handle_frame io f st) = buf st /\ handled (handle_frame io f st) = handled st.
Proof.
  unfold handle_frame, get_or_create_socket. repeat case_match; simplify_eq; split; done.
Qed.

Lemma drop_framed body t : drop (Z.to_nat (len (framed body))) (framed body ++ t) = t.
Proof. unfold len. by rewrite Nat2Z.id, drop_app_length. Qed.

(** [st'] is [st] after taking the bodies [done] off the buffer and handling the
    well-formed ones. *)
Definition took (st st' : Server) (done : list bytes) : Prop :=
  Forall short_body done /\ buf st = (done ≫= framed) ++ buf st'
  /\ handled st' = handled st ++ omap good done.

Lemma drain_frames_took io fuel st :
  bytes_ok (buf st) -> (length (buf st) < fuel)%nat ->
  exists st' done, drain_frames io fuel st = Some st' /\ took st st' done
    /\ (incomplete (buf st') \/ Exists (fun b => good b = None) done).
Proof.
  revert st. induction fuel as [|fuel IH]; intros st Hb Hf; [lia|]. cbn [drain_frames].
  destruct (try_parse_cases (buf st) Hb) as [(Hi & -> & Hl)|(body & t & E & Hs)].
  { destruct (Z.leb_spec BUF_MAX (len (buf st))) as [Hm|Hm]; [unfold BUF_MAX in Hm; lia|].
    exists st, []. split_and!; [done| |by left]. split_and!; [constructor|done|].
    cbn. by rewrite app_nil_r. }
  rewrite E in *. pose proof (bytes_ok_framed_inv _ _ Hb) as [Hbody Ht].
  destruct (good body) as [f|] eqn:Hg.
  - rewrite (try_parse_Ok body t f) by done. rewrite drop_framed.
    set (st1 := handle_frame _ _ _).
    assert (buf st1 = t /\ handled st1 = handled st ++ [f]) as [Hb1 Hh1].
    { unfold st1. destruct (handle_frame_frame (io (length (handled st))) f
        (note_handled f (set_buf t st))) as [-> ->]. done. }
    destruct (IH st1) as (st' & done & -> & (Hd & Eb & Hh) & Hx); [by rewrite Hb1| |].
    { rewrite Hb1. rewrite length_app in Hf. unfold framed in Hf.
      rewrite length_app, length_be_bytes in Hf. lia. }
    exists st', (body :: done). split_and!; [done| |].
    + split_and!; [by constructor|rewrite E; cbn; by rewrite <- app_assoc, <- Eb, Hb1|].
      rewrite Hh, Hh1. cbn [omap list_omap]. rewrite Hg. by rewrite <- app_assoc.
    + destruct Hx; [by left|right; by apply Exists_cons_tl].
  - destruct (try_parse_Err body t Hs Hg Hbody) as [e ->].
    pose proof (len_nonneg body). pose proof (len_nonneg t).
    assert (len (framed body) = 2 + len body) as Hlen by (unfold framed; by rewrite len_app, len_be_bytes).
    destruct (Z.leb_spec 2 (len (framed body ++ t))) as [_|Hx]; [|rewrite len_app, Hlen in Hx; lia].
    pose proof (@index_u16_app unit [] (len body) (body ++ t) 0 eq_refl) as Hi. cbn [app] in Hi.
    unfold framed at 1. rewrite <- app_assoc, Hi by (unfold is_u16; unfold short_body in Hs; lia).
    rewrite Z.min_l by (rewrite len_app; lia). rewrite <- Hlen, drop_framed.
    eexists _, [body]. split_and!; [done| |right; by apply Exists_cons_hd].
    split_and!; [by constructor|cbn; by rewrite app_nil_r|].
    cbn. rewrite Hg. by rewrite app_nil_r.
Qed.

(** The bytes of the client half among the events. *)
Definition received (evs : list Event) : bytes :=
  evs ≫= fun e => match e with Chunk d => d | _ => [] end.

Definition stream_inv (evs : list Event) (st : Server) (done : list bytes) : Prop :=
  Forall short_body done /\ received evs = (done ≫= framed) ++ buf st
  /\ handled st = omap good done
  /\ (incomplete (buf st) \/ Exists (fun b => good b = None) done).

Lemma server_run_snoc io st evs e :
  server_run io st (evs ++ [e]) = server_run io st evs ≫= fun st => server_step io st e.
Proof. unfold server_run. by rewrite foldl_app. Qed.

Lemma reader_frame k d st :
  (buf (reader_recv k d st) = buf st /\ handled (reader_recv k d st) = handled st) /\
  (buf (reader_exit k st) = buf st /\ handled (reader_exit k st) = handled st).
Proof. unfold reader_recv, reader_exit. repeat case_match; done. Qed.

Lemma server_run_inv io evs : bytes_ok (received evs) ->
  exists st done, server_run io server_new evs = Some st /\ stream_inv evs st done.
Proof.
  induction evs as [|e evs IH] using rev_ind; intros Hb.
  { exists server_new, []. split; [done|]. split_and!; [constructor|done|done|].
    left. intros body t Hl E. apply (f_equal len) in E. unfold framed in E.
    rewrite !len_app, len_be_bytes in E. pose proof (len_nonneg body). pose proof (len_nonneg t).
    change (len (buf server_new)) with 0 in E. lia. }
  unfold received in Hb. rewrite bind_app in Hb. apply bytes_ok_app in Hb as [Hb He].
  destruct (IH Hb) as (st & done & Hr & Hd & Hrc & Hh & Hx).
  rewrite server_run_snoc, Hr. cbn [mbind option_bind].
  unfold received in *. cbn [mbind list_bind app] in He.
  destruct e as [d|k d|k]; cbn [server_step].
  - rewrite app_nil_r in He. set (st0 := set_buf (buf st ++ d) st).
    destruct (drain_frames_took io (S (length (buf st0))) st0) as (st' & more & Hd' & (Hs & Hb' & Hh') & Hx');
      [|lia|].
    { apply bytes_ok_app. split; [|done]. rewrite Hrc in Hb. by apply bytes_ok_app in Hb as [_ ?]. }
    exists st', (done ++ more). split; [done|]. unfold stream_inv, received. split_and!.
    + by apply Forall_app.
    + rewrite !bind_app, Hrc, <- !app_assoc. f_equal. cbn [mbind list_bind]. rewrite app_nil_r. exact Hb'.
    + rewrite Hh', omap_app. unfold st0. cbn. by rewrite Hh.
    + destruct Hx'; [by left|right; by apply Exists_app; right].
  - destruct (reader_frame k d st) as [[Eb Eh] _]. eexists _, done. split; [done|].
    unfold stream_inv, received. rewrite Eb, Eh, bind_app. cbn. rewrite app_nil_r. done.
  - destruct (reader_frame k [] st) as [_ [Eb Eh]]. eexists _, done. split; [done|].
    unfold stream_inv, received. rewrite Eb, Eh, bind_app. cbn. rewrite app_nil_r. done.
Qed.

(** Bodies taken from the front of a stream are the front of its decomposition. *)
Lemma framed_prefix done rest bodies partial :
  Forall short_body done -> Forall short_body bodies -> incomplete partial ->
  (done ≫= framed) ++ rest = (bodies ≫= framed) ++ partial ->
  exists todo, bodies = done ++ todo /\ rest = (todo ≫= framed) ++ partial.
Proof.
  intros Hd. revert bodies. induction Hd as [|b done Hb Hd IH]; intros bodies Hs Hi E.
  { exists bodies. done. }
  destruct Hs as [|b' bodies Hb' Hs]; cbn in E.
  - exfalso. rewrite <- app_assoc in E. exact (Hi _ _ Hb (eq_sym E)).
  - rewrite <- !app_assoc in E. apply framed_inj in E as [<- E]; [|done..].
    destruct (IH bodies Hs Hi E) as (todo & -> & ->). by exists todo.
Qed.

(** Whatever the sizes of the reads and whatever arrives on the sockets in
    between, the server neither panics nor loses its place in the client's stream: the
    frames it has handled are the well-formed ones among the first [k] frames, in order,
    and the buffer holds exactly the bytes of the rest.  If no frame is malformed, every
    complete frame has been handled. *)
Theorem udpgw_stream_reassembly io evs bodies partial :
  bytes_ok (received evs) -> Forall short_body bodies -> incomplete partial ->
  received evs = (bodies ≫= framed) ++ partial ->
  exists st k, server_run io server_new evs = Some st
    /\ handled st = omap good (take k bodies)
    /\ buf st = (drop k bodies ≫= framed) ++ partial
    /\ (Forall (fun b => is_Some (good b)) bodies -> buf st = partial /\ handled st = omap good bodies).
Proof.
  intros Hb Hs Hi E. destruct (server_run_inv io evs Hb) as (st & done & Hr & Hd & Hrc & Hh & Hx).
  rewrite E in Hrc. symmetry in Hrc.
  destruct (framed_prefix done (buf st) bodies partial Hd Hs Hi Hrc) as (todo & -> & Hbuf).
  exists st, (length done). rewrite take_app_length, drop_app_length. split_and!; [done..|].
  intros [Hg1 Hg2]%Forall_app. destruct Hx as [Hx|Hx].
  - destruct todo as [|b todo]; [by rewrite app_nil_r|].
    exfalso. apply Forall_app in Hs as [_ Hs]. apply Forall_cons_1 in Hs as [Hsb _].
    cbn in Hbuf. rewrite <- app_assoc in Hbuf. exact (Hx b _ Hsb Hbuf).
  - exfalso. apply Exists_exists in Hx as (b & Hin & Hn). rewrite Forall_forall in Hg1.
    destruct (Hg1 b Hin). congruence.
Qed.

Lemma try_parse_None_incomplete b : try_parse_frame b = Ok None -> incomplete b.
Proof.
  intros E body t Hl ->. rewrite try_parse_framed in E by done. by destruct (parse_body body).
Qed.

Definition quiet_io (_ : nat) : FrameIo := mkFrameIo None true true true.

Lemma udpgw_stream_reassembly_witness :
  exists st k, server_run quiet_io server_new [Chunk [0; 3; 1]; Chunk [0; 7; 0; 3]] = Some st
    /\ handled st = omap good (take k [[1; 0; 7]])
    /\ buf st = (drop k [[1; 0; 7]] ≫= framed) ++ [0; 3]
    /\ (Forall (fun b => is_Some (good b)) [[1; 0; 7]] ->
        buf st = [0; 3] /\ handled st = omap good [[1; 0; 7]]).
Proof.
  apply udpgw_stream_reassembly.
  - repeat (apply Forall_cons_2; [split; done|]). apply Forall_nil_2.
  - apply Forall_cons_2; [done|apply Forall_nil_2].
  - by apply try_parse_None_incomplete.
  - reflexivity.
Defined.

(** ** What the server sends *)

(** Frames whose payload may leave as a datagram. *)
Definition forwardable (f : Frame) : Prop :=
  Z.land (flags f) FLAG_KEEPALIVE = 0 /\ Z.land (flags f) FLAG_DATA <> 0
  /\ exists a, addr f = Some a /\ dst_port a <> 443 /\ dst_port a <> 53.

(** The socket address a destination stands for; a name is resolved by the system. *)
Definition reaches (f : Frame) (s : SocketAddr) : Prop :=
  match addr f with
  | Some (V4 a b c d p) => s = SockV4 a b c d p
  | Some (V6 o p) => s = SockV6 o p 0 0
  | Some (Domain _ _) => True
  | None => False
  end.

Definition response (f : Frame) (m : bytes) : Prop :=
  m = serialise_frame (mkUFrame FLAG_KEEPALIVE (conn_id f) None [])
  \/ m = serialise_err (conn_id f)
  \/ (forwardable f /\ exists data, (len data <= UDP_MTU) /\
        m = serialise_frame (mkUFrame FLAG_DATA (conn_id f) (addr f) data)).

Record safe (st : Server) : Prop := {
  sf_sockets : forall k cs, sockets st !! k = Some cs ->
    (sock cs < opened st)%nat /\ exists f, f ∈ handled st /\ forwardable f
      /\ conn_id f = reader_conn cs /\ addr f = Some (reader_addr cs);
  sf_distinct : forall k1 k2 c1 c2, sockets st !! k1 = Some c1 -> sockets st !! k2 = Some c2 ->
    sock c1 = sock c2 -> k1 = k2;
  sf_sent : forall s k m, (s, k, m) ∈ sent st ->
    (exists cs, sockets st !! k = Some cs /\ sock cs = s)
    /\ exists f, f ∈ handled st /\ forwardable f /\ conn_id f = k.1 /\ payload f = m /\ reaches f k.2;
  sf_tx : forall m, m ∈ tx st -> exists f, f ∈ handled st /\ response f m
}.

Lemma safe_tx_send m f st : f ∈ handled st -> response f m -> safe st -> safe (tx_send m st).
Proof.
  intros Hf Hm []. constructor; cbn; [done..|]. intros x [Hx|Hx]%elem_of_app; [auto|].
  apply list_elem_of_singleton in Hx as ->. eauto.
Qed.

Lemma safe_set_buf b st : safe st -> safe (set_buf b st).
Proof. by intros []. Qed.

Lemma safe_note f st : safe st -> safe (note_handled f st).
Proof.
  intros [H1 H2 H3 H4]. constructor; cbn.
  - intros k cs (Hk & g & Hg & ?)%H1. split; [done|]. exists g. rewrite elem_of_app. eauto.
  - done.
  - intros s k m (Hk & g & Hg & ?)%H3. split; [done|]. exists g. rewrite elem_of_app. eauto.
  - intros m (g & Hg & ?)%H4. exists g. rewrite elem_of_app. eauto.
Qed.

Lemma safe_open io f a dst st s st' :
  safe st -> f ∈ handled st -> forwardable f -> addr f = Some a ->
  get_or_create_socket io (conn_id f) dst a st = (Some s, st') ->
  safe st' /\ handled st' = handled st
  /\ exists cs, sockets st' !! (conn_id f, dst) = Some cs /\ sock cs = s.
Proof.
  intros Hs Hf Hw Ha. unfold get_or_create_socket.
  destruct (sockets st !! (conn_id f, dst)) as [cs|] eqn:Hk.
  { intros [= <- <-]. eauto. }
  destruct (bind_ok io), (connect_ok io); cbn [negb]; try done. intros [= <- <-]. cbn.
  split_and!; [|done|eexists; by rewrite lookup_insert_eq].
  destruct Hs as [H1 H2 H3 H4]. constructor; cbn.
  - intros k cs [[<- <-]|[Hn Hc]]%lookup_insert_Some; cbn; [split; [lia|by eauto]|].
    destruct (H1 k cs Hc) as [? ?]. split; [lia|done].
  - intros k1 k2 c1 c2 [[<- <-]|[Hn1 Hc1]]%lookup_insert_Some [[<- <-]|[Hn2 Hc2]]%lookup_insert_Some;
      cbn; [done| | |by eauto].
    + intros E. destruct (H1 _ _ Hc2). lia.
    + intros E. destruct (H1 _ _ Hc1). lia.
  - intros s k m ((cs & Hc & Es) & Hm)%H3. split; [|done]. exists cs. split; [|done].
    rewrite lookup_insert_ne by congruence. done.
  - done.
Qed.

Lemma safe_handle io f st : f ∈ handled st -> safe st -> safe (handle_frame io f st).
Proof.
  intros Hf Hs. unfold handle_frame.
  assert (forall st', safe st' -> handled st' = handled st -> safe (tx_send (serialise_err (conn_id f)) st'))
    as Herr by (intros st' Hs' E; apply (safe_tx_send _ f); [by rewrite E|right; by left|done]).
  destruct (Z.eqb_spec (Z.land (flags f) FLAG_KEEPALIVE) 0) as [Hk|Hk]; cbn [negb].
  2: { apply (safe_tx_send _ f); [done|by left|done]. }
  destruct (Z.eqb_spec (Z.land (flags f) FLAG_DATA) 0) as [Hd|Hd]; [done|].
  destruct (addr f) as [a|] eqn:Ha; [|auto].
  destruct (Z.eqb_spec (dst_port a) 443) as [|Hp1]; cbn [orb]; [auto|].
  destruct (Z.eqb_spec (dst_port a) 53) as [|Hp2]; [auto|].
  assert (forwardable f) as Hw by (split_and!; eauto).
  destruct (to_socket_addr io a) as [dst|] eqn:Hdst; [|auto].
  destruct (get_or_create_socket io (conn_id f) dst a st) as [[s|] st'] eqn:Eo.
  - destruct (safe_open io f a dst st s st') as (Hs' & Hh & Hc); [done..|].
    destruct (send_ok io); [|auto]. destruct Hs' as [H1 H2 H3 H4].
    constructor; cbn; [done..| |done]. intros s' k m [Hin|Hin]%elem_of_app; [auto|].
    apply list_elem_of_singleton in Hin as [= -> -> ->]. split; [done|].
    exists f. rewrite Hh. split_and!; try done. unfold reaches. rewrite Ha.
    destruct a; cbn in Hdst; by simplify_eq.
  - apply Herr; [|]; revert Eo; unfold get_or_create_socket; repeat case_match;
      intros; by simplify_eq.
Qed.

Lemma safe_drain io fuel st st' : safe st -> drain_frames io fuel st = Some st' -> safe st'.
Proof.
  revert st. induction fuel as [|fuel IH]; intros st Hs; cbn [drain_frames]; [done|].
  destruct (try_parse_frame (buf st)) as [[[f n]|]|e|].
  - intros H. eapply IH; [|exact H]. apply safe_handle; [|by apply safe_note, safe_set_buf].
    cbn. rewrite elem_of_app, list_elem_of_singleton. by right.
  - intros [= <-]. case_match; [by apply safe_set_buf|done].
  - repeat case_match; intros; simplify_eq; by apply safe_set_buf.
  - done.
Qed.

Lemma safe_reader_recv k d st : safe st -> safe (reader_recv k d st).
Proof.
  intros Hs. unfold reader_recv. destruct (sockets st !! k) as [cs|] eqn:Hk; [|done].
  destruct (reader_alive cs); [|done].
  destruct (sf_sockets _ Hs k cs Hk) as (_ & f & Hf & Hw & Hc & Ha).
  apply (safe_tx_send _ f); [done| |done]. right; right. split; [done|].
  exists (take (Z.to_nat UDP_MTU) d). rewrite Hc, Ha. split; [|done].
  unfold len, UDP_MTU. rewrite length_take. lia.
Qed.

Lemma safe_reader_exit k st : safe st -> safe (reader_exit k st).
Proof.
  intros Hs. unfold reader_exit. destruct (sockets st !! k) as [cs|] eqn:Hk; [|done].
  assert (forall k' c', <[k:=mkConnSocket (sock cs) (reader_conn cs) (reader_addr cs) false]> (sockets st)
      !! k' = Some c' -> exists c, sockets st !! k' = Some c /\ sock c = sock c'
        /\ reader_conn c = reader_conn c' /\ reader_addr c = reader_addr c') as Hback.
  { intros k' c' [[<- <-]|[Hn Hc]]%lookup_insert_Some; eauto. }
  destruct Hs as [H1 H2 H3 H4]. constructor; cbn; [| | |done].
  - intros k' c' (c & Hc & <- & <- & <-)%Hback. by apply (H1 k').
  - intros k1 k2 c1 c2 (d1 & Hd1 & <- & _)%Hback (d2 & Hd2 & <- & _)%Hback. eauto.
  - intros s k' m ((c & Hc & Es) & Hm)%H3. split; [|done].
    destruct (decide (k' = k)) as [->|Hn].
    + rewrite Hk in Hc. injection Hc as ->. eexists. rewrite lookup_insert_eq. by split.
    + exists c. by rewrite lookup_insert_ne.
Qed.

Lemma safe_run io evs st : server_run io server_new evs = Some st -> safe st.
Proof.
  revert st. induction evs as [|e evs IH] using rev_ind; intros st'.
  { intros [= <-]. constructor; cbn; intros *; rewrite ?lookup_empty, ?elem_of_nil; done. }
  rewrite server_run_snoc. destruct (server_run io server_new evs) as [st|]; [|done].
  specialize (IH st eq_refl). cbn [mbind option_bind]. destruct e; cbn [server_step].
  - intros H. eapply safe_drain; [|exact H]. by apply safe_set_buf.
  - intros [= <-]. by apply safe_reader_recv.
  - intros [= <-]. by apply safe_reader_exit.
Qed.

(** In every state the server reaches, each datagram it gave to the network is
    the payload of a data frame it was sent, for a port other than 443 and 53, on the one
    socket kept for that connection id and destination (two destinations never share a
    socket, so the source port is stable); and each response it queued answers a frame it
    was sent: a keepalive, an error, or a data frame with the connection id and the
    address the client used, at most [UDP_MTU] bytes long. *)
Theorem udpgw_server_safe io evs st :
  server_run io server_new evs = Some st ->
  (forall s k m, (s, k, m) ∈ sent st ->
     (exists cs, sockets st !! k = Some cs /\ sock cs = s)
     /\ exists f, f ∈ handled st /\ forwardable f /\ conn_id f = k.1 /\ payload f = m
          /\ reaches f k.2)
  /\ (forall k1 k2 c1 c2, sockets st !! k1 = Some c1 -> sockets st !! k2 = Some c2 ->
        sock c1 = sock c2 -> k1 = k2)
  /\ (forall m, m ∈ tx st -> exists f, f ∈ handled st /\ response f m).
Proof. intros [H1 H2 H3 H4]%safe_run. auto. Qed.

(** One data frame to 10.0.0.1:9 with payload [7], then a datagram back. *)
Definition sample_events : list Event :=
  [Chunk (serialise_frame (mkUFrame FLAG_DATA 5 (Some (V4 10 0 0 1 9)) [7]));
   Datagram (5, SockV4 10 0 0 1 9) [8]].

Definition sample_frame : Frame := mkUFrame FLAG_DATA 5 (Some (V4 10 0 0 1 9)) [7].

Definition sample_server : Server :=
  mkServer [] {[(5, SockV4 10 0 0 1 9) := mkConnSocket 0 5 (V4 10 0 0 1 9) true]}
    [serialise_frame (mkUFrame FLAG_DATA 5 (Some (V4 10 0 0 1 9)) [8])] 1
    [(0%nat, (5, SockV4 10 0 0 1 9), [7])] [sample_frame].

Lemma udpgw_server_safe_witness :
  server_run quiet_io server_new sample_events = Some sample_server
  /\ exists f, f ∈ handled sample_server /\ forwardable f /\ conn_id f = 5 /\ payload f = [7]
       /\ reaches f (SockV4 10 0 0 1 9).
Proof.
  assert (server_run quiet_io server_new sample_events = Some sample_server) as H
    by (vm_compute; reflexivity).
  split; [exact H|]. apply (proj1 (udpgw_server_safe _ _ _ H) 0%nat (5, SockV4 10 0 0 1 9)).
  apply list_elem_of_here.
Defined.

(** ** A reader that stopped *)
Lemma dead_socket_kept io fuel k cs st st' :
  sockets st !! k = Some cs -> drain_frames io fuel st = Some st' -> sockets st' !! k = Some cs.
Proof.
  revert st. induction fuel as [|fuel IH]; intros st Hk; cbn [drain_frames]; [done|].
  destruct (try_parse_frame (buf st)) as [[[f n]|]|e|]; [| |repeat case_match; intros; by simplify_eq|done].
  - apply IH. unfold handle_frame, get_or_create_socket.
    repeat case_match; simplify_eq; cbn in *; try done.
    all: rewrite lookup_insert_ne by congruence; done.
  - intros [= <-]. by case_match.
Qed.

Lemma dead_socket_run io evs k cs st st' :
  sockets st !! k = Some cs -> reader_alive cs = false -> server_run io st evs = Some st' ->
  sockets st' !! k = Some cs.
Proof.
  intros Hk Hd. revert st'. induction evs as [|e evs IH] using rev_ind; intros st'.
  { by intros [= <-]. }
  rewrite server_run_snoc. destruct (server_run io st evs) as [st1|]; [|done].
  specialize (IH st1 eq_refl). cbn [mbind option_bind].
  destruct e as [b|k2 b|k2]; cbn [server_step].
  - by apply dead_socket_kept.
  - intros [= <-]. unfold reader_recv. by repeat case_match.
  - intros [= <-]. unfold reader_exit. destruct (sockets st1 !! k2) as [c2|] eqn:H2; [|done]. cbn.
    destruct (decide (k2 = k)) as [->|Hn]; [|by rewrite lookup_insert_ne].
    rewrite lookup_insert_eq. rewrite IH in H2. injection H2 as <-. destruct cs; cbn in *. by rewrite Hd.
Qed.

Lemma server_run_app io st evs1 evs2 :
  server_run io st (evs1 ++ evs2) = server_run io st evs1 ≫= fun st => server_run io st evs2.
Proof.
  induction evs2 as [|e evs2 IH] using rev_ind.
  { rewrite app_nil_r. by destruct (server_run io st evs1). }
  rewrite app_assoc, server_run_snoc, IH. destruct (server_run io st evs1); [|done].
  cbn [mbind option_bind]. by rewrite server_run_snoc.
Qed.

(** A reader task ends at the first error of [recv] (on a connected socket, an
    ICMP error), but its socket stays in the table.  From then on, whatever happens, the
    same socket is found for that connection id and destination, so no new reader is ever
    started, and no datagram arriving on it changes anything: its responses are lost. *)
Theorem dead_reader_silent io evs1 evs2 k cs st st' :
  server_run io server_new evs1 = Some st -> sockets st !! k = Some cs ->
  server_run io server_new (evs1 ++ RecvError k :: evs2) = Some st' ->
  (forall i a, get_or_create_socket i k.1 k.2 a st' = (Some (sock cs), st'))
  /\ (forall d, reader_recv k d st' = st').
Proof.
  intros H1 Hk. rewrite server_run_app, H1. cbn [mbind option_bind].
  change (RecvError k :: evs2) with ([RecvError k] ++ evs2). rewrite server_run_app. intros H2.
  eapply (dead_socket_run _ _ k (mkConnSocket (sock cs) (reader_conn cs) (reader_addr cs) false)) in H2.
  - split; [intros i a; unfold get_or_create_socket; rewrite <- surjective_pairing|
            intros d; unfold reader_recv]; by rewrite H2.
  - unfold reader_exit. rewrite Hk. cbn. by rewrite lookup_insert_eq.
  - done.
Qed.

Lemma dead_reader_silent_witness :
  exists st', server_run quiet_io server_new (sample_events ++ [RecvError (5, SockV4 10 0 0 1 9)]) = Some st'
  /\ forall d, reader_recv (5, SockV4 10 0 0 1 9) d st' = st'.
Proof.
  exists (reader_exit (5, SockV4 10 0 0 1 9) sample_server).
  assert (server_run quiet_io server_new (sample_events ++ [RecvError (5, SockV4 10 0 0 1 9)])
    = Some (reader_exit (5, SockV4 10 0 0 1 9) sample_server)) as H by (vm_compute; reflexivity).
  split; [exact H|].
  refine (proj2 (dead_reader_silent quiet_io sample_events [] (5, SockV4 10 0 0 1 9)
    (mkConnSocket 0 5 (V4 10 0 0 1 9) true) sample_server _ _ _ H)); vm_compute; reflexivity.
Defined.
