(* ===== verification/Cache.v ===== *)
(** * src/cache.rs: the response cache and its TTL rules

    [ResponseCache] as a record of its entries, their insertion order, the size counter
    and the two statistics; every operation runs under one mutex, so an operation is a
    function on that record, given the instant at which it reads the clock.  Instants
    and durations are in seconds and unbounded (a TTL is at most a day).  [usize] sums
    stay below [2 * max_bytes] and are not wrapped; the statistics wrap at 64 bits. *)

From stdpp Require Import prelude gmap.
From S2P Require Import Prelude RustStr.
#[local] Open Scope Z_scope.

Definition DEFAULT_MAX_BYTES : Z := 50 * 1024 * 1024.
Definition MAX_ENTRY_FRACTION : Z := 4.

Record CachedResponse := mkCached { body : bytes; expires : Z }.

(** [Inner], with the atomics of [ResponseCache]. *)
Record ResponseCache := mkCache {
  entries : gmap str CachedResponse;
  order : list str;
  size : Z;
  hits : Z;
  misses : Z
}.

Definition cache_new : ResponseCache := mkCache ∅ [] 0 0 0.

Definition remove_key (k : str) (order : list str) : list str := filter (fun x => x <> k) order.

Definition cache_get (now : Z) (key : str) (c : ResponseCache) : option bytes * ResponseCache :=
  match entries c !! key with
  | Some entry =>
    if now <? expires entry
    then (Some (body entry),
          mkCache (entries c) (order c) (size c) (wrap 64 (hits c + 1)) (misses c))
    else (None,
          mkCache (delete key (entries c)) (remove_key key (order c))
            (saturating_sub (size c) (len (body entry))) (hits c) (wrap 64 (misses c + 1)))
  | None => (None, mkCache (entries c) (order c) (size c) (hits c) (wrap 64 (misses c + 1)))
  end.

(** The [while inner.size + size > self.max_bytes] loop, which pops the front of
    [order] until there is room or nothing is left. *)
Fixpoint evict (max need : Z) (order : list str) (entries : gmap str CachedResponse) (size : Z)
    : list str * gmap str CachedResponse * Z :=
  if size + need <=? max then (order, entries, size) else
  match order with
  | [] => ([], entries, size)
  | oldest :: order =>
    match entries !! oldest with
    | Some removed =>
      evict max need order (delete oldest entries) (saturating_sub size (len (body removed)))
    | None => evict max need order entries size
    end
  end.

Definition cache_put (max now : Z) (key : str) (b : bytes) (ttl : Z) (c : ResponseCache)
    : ResponseCache :=
  let need := len b in
  if (need =? 0) || (max / MAX_ENTRY_FRACTION <? need) then c else
  let '(es, ord, sz) :=
    match entries c !! key with
    | Some old => (delete key (entries c), remove_key key (order c),
                   saturating_sub (size c) (len (body old)))
    | None => (entries c, order c, size c)
    end in
  let '(ord, es, sz) := evict max need ord es sz in
  mkCache (<[key := mkCached b (now + ttl)]> es) (ord ++ [key]) (sz + need) (hits c) (misses c).

(** ** Invariant *)

(** Bytes held under the keys of [ks]. *)
Definition entry_size (es : gmap str CachedResponse) (k : str) : Z :=
  match es !! k with Some e => len (body e) | None => 0 end.

Definition held (es : gmap str CachedResponse) (ks : list str) : Z :=
  foldr (fun k n => entry_size es k + n) 0 ks.

Record cache_ok (max : Z) (c : ResponseCache) : Prop := {
  co_nodup : NoDup (order c);
  co_keys : forall k, k ∈ order c <-> is_Some (entries c !! k);
  co_size : size c = held (entries c) (order c);
  co_max : size c <= max;
  co_entry : forall k e, entries c !! k = Some e -> 0 < len (body e) <= max / MAX_ENTRY_FRACTION
}.

Lemma held_cons es k ks : held es (k :: ks) = entry_size es k + held es ks.
Proof. done. Qed.

Lemma held_nonneg es ks : 0 <= held es ks.
Proof.
  induction ks as [|k ks IH]; [done|]. rewrite held_cons. unfold entry_size.
  case_match; [pose proof (len_nonneg (body c))|]; lia.
Qed.

Lemma held_app es k1 k2 : held es (k1 ++ k2) = held es k1 + held es k2.
Proof.
  induction k1 as [|k k1 IH]; cbn [app]; [done|]. rewrite !held_cons, IH. lia.
Qed.

Lemma held_ext es es' ks : (forall k, k ∈ ks -> es !! k = es' !! k) -> held es ks = held es' ks.
Proof.
  induction ks as [|k ks IH]; intros H; [done|]. rewrite !held_cons. unfold entry_size.
  rewrite (H k) by apply list_elem_of_here. f_equal. apply IH.
  intros x Hx. apply H. by apply list_elem_of_further.
Qed.

Lemma held_delete es k ks : k ∉ ks -> held (delete k es) ks = held es ks.
Proof. intros Hk. apply held_ext. intros x Hx. rewrite lookup_delete_ne; [done|congruence]. Qed.

Lemma remove_key_None k o : k ∉ o -> remove_key k o = o.
Proof.
  unfold remove_key. induction o as [|x o IH]; intros Hk; [done|].
  rewrite filter_cons_True by (intros ->; apply Hk, list_elem_of_here).
  f_equal. apply IH. intros Hx. by apply Hk, list_elem_of_further.
Qed.

Lemma held_remove es k o : NoDup o -> k ∈ o ->
  held es o = entry_size es k + held es (remove_key k o).
Proof.
  induction 1 as [|x o Hx Hn IH]; intros Hk; [by apply elem_of_nil in Hk|].
  unfold remove_key. destruct (decide (x = k)) as [->|Hne].
  - rewrite filter_cons_False by auto. fold (remove_key k o). by rewrite remove_key_None, held_cons by done.
  - rewrite filter_cons_True by done. apply elem_of_cons in Hk as [->|Hk]; [done|].
    fold (remove_key k o). rewrite !held_cons, (IH Hk). lia.
Qed.

Lemma elem_of_remove_key x k o : x ∈ remove_key k o <-> x ∈ o /\ x <> k.
Proof. unfold remove_key. rewrite list_elem_of_filter. tauto. Qed.

Lemma in_drop {A} (x : A) n l : x ∈ drop n l -> x ∈ l.
Proof. intros H. rewrite <- (take_drop n l). apply elem_of_app. by right. Qed.

(** ** Removing one key *)
Lemma remove_entry_ok max c k e :
  cache_ok max c -> entries c !! k = Some e ->
  cache_ok max (mkCache (delete k (entries c)) (remove_key k (order c))
                  (saturating_sub (size c) (len (body e))) (hits c) (misses c))
  /\ saturating_sub (size c) (len (body e)) = size c - len (body e).
Proof.
  intros [Hn Hk Hs Hm He] Hl.
  assert (k ∈ order c) as Hin by (apply Hk; eauto).
  pose proof (held_remove (entries c) k (order c) Hn Hin) as Hh.
  unfold entry_size in Hh. rewrite Hl in Hh. pose proof (held_nonneg (entries c) (remove_key k (order c))) as Hp.
  pose proof (len_nonneg (body e)). unfold saturating_sub. split; [|lia].
  constructor; cbn [entries order size hits misses].
  - by apply NoDup_filter.
  - intros x. rewrite elem_of_remove_key, Hk, lookup_delete_is_Some. naive_solver.
  - rewrite held_delete by (rewrite elem_of_remove_key; naive_solver). lia.
  - lia.
  - intros x e' [_ Hx]%lookup_delete_Some. eauto.
Qed.

(** ** Eviction: the shortest prefix that makes room *)
Lemma evict_spec max need o es sz o' es' sz' :
  0 <= need -> NoDup o -> (forall k, k ∈ o <-> is_Some (es !! k)) -> sz = held es o ->
  evict max need o es sz = (o', es', sz') ->
  exists n, o' = drop n o /\ sz' = held es' o'
    /\ (forall k, es' !! k = if bool_decide (k ∈ o') then es !! k else None)
    /\ (sz' + need <= max \/ o' = [])
    /\ (forall m, (m < n)%nat -> max < held es (drop m o) + need).
Proof.
  intros Hneed. revert es sz. induction o as [|k o IH]; intros es sz Hn Hk Hs He.
  { assert (forall k, es !! k = None) as Hno.
    { intros k. apply eq_None_not_Some. rewrite <- Hk. by intros ?%elem_of_nil. }
    exists 0%nat. cbn in He. destruct (Z.leb_spec (sz + need) max) in He; injection He as <- <- <-;
      (split_and!; [done|done| | |intros; lia]; [|auto]); intros x; rewrite Hno; by case_match. }
  cbn in He. destruct (Z.leb_spec (sz + need) max) as [Hle|Hgt].
  { injection He as <- <- <-. exists 0%nat. split_and!; [done|done| |by left|intros; lia].
    intros x. case_bool_decide as Hx; [done|]. rewrite Hk in Hx. by apply eq_None_not_Some. }
  inversion Hn as [|? ? Hko Hno]; subst.
  destruct (proj1 (Hk k) (list_elem_of_here _ _)) as [e Hl]. rewrite Hl in He.
  assert (entry_size es k = len (body e)) as Hes0 by (unfold entry_size; by rewrite Hl).
  rewrite held_cons, Hes0 in He, Hgt.
  apply IH in He as (n & -> & -> & Hes & Hd & Hmin); [|done| |].
  - exists (S n). cbn [drop]. split_and!; [done|done| |done|].
    + intros x. rewrite Hes. case_bool_decide as Hx; [|done].
      rewrite lookup_delete_ne; [done|]. intros ->. apply Hko. by eapply in_drop.
    + intros [|m] Hm; cbn [drop]; [rewrite held_cons; lia|].
      rewrite <- (held_delete es k); [apply Hmin; lia|]. intros Hx. apply Hko. by eapply in_drop.
  - intros x. rewrite lookup_delete_is_Some, <- Hk, elem_of_cons. naive_solver.
  - rewrite held_delete by done. pose proof (held_nonneg es o). pose proof (len_nonneg (body e)).
    unfold saturating_sub. lia.
Qed.

(** ** The operations *)
Lemma cache_get_ok max now k c : cache_ok max c -> cache_ok max (cache_get now k c).2.
Proof.
  intros Hc. unfold cache_get. destruct (entries c !! k) as [e|] eqn:Hl; [|by destruct Hc].
  case_match; [by destruct Hc|]. destruct (remove_entry_ok max c k e Hc Hl) as [Hr _].
  by destruct Hr.
Qed.

(** The state of [put] between dropping the old value of the key and evicting. *)
Definition without (k : str) (c : ResponseCache) : ResponseCache :=
  match entries c !! k with
  | Some old => mkCache (delete k (entries c)) (remove_key k (order c))
                  (saturating_sub (size c) (len (body old))) (hits c) (misses c)
  | None => c
  end.

Lemma without_ok max k c : cache_ok max c ->
  cache_ok max (without k c) /\ order (without k c) = remove_key k (order c)
  /\ entries (without k c) = delete k (entries c).
Proof.
  intros Hc. unfold without. destruct (entries c !! k) as [e|] eqn:Hl.
  - by destruct (remove_entry_ok max c k e Hc Hl).
  - split_and!; [done| |by rewrite delete_id]. rewrite remove_key_None; [done|].
    rewrite (co_keys _ _ Hc), Hl. by intros [].
Qed.

Lemma cache_put_unfold max now k b ttl c :
  cache_put max now k b ttl c =
  if (len b =? 0) || (max / MAX_ENTRY_FRACTION <? len b) then c else
  let '(ord, es, sz) :=
    evict max (len b) (order (without k c)) (entries (without k c)) (size (without k c)) in
  mkCache (<[k := mkCached b (now + ttl)]> es) (ord ++ [k]) (sz + len b) (hits c) (misses c).
Proof. unfold cache_put, without. by destruct (entries c !! k). Qed.

(** What an accepted [put] leaves: [n] is the number of evicted keys. *)
Record put_result (max now : Z) (k : str) (b : bytes) (ttl : Z) (c c' : ResponseCache) (n : nat)
    : Prop := {
  pr_order : order c' = drop n (remove_key k (order c)) ++ [k];
  pr_entries : forall x, entries c' !! x =
    if bool_decide (x = k) then Some (mkCached b (now + ttl))
    else if bool_decide (x ∈ drop n (remove_key k (order c))) then entries c !! x else None;
  pr_minimal : forall m, (m < n)%nat ->
    max < held (entries c) (drop m (remove_key k (order c))) + len b
}.

Lemma cache_put_spec max now k b ttl c :
  0 <= max -> cache_ok max c -> 0 < len b <= max / MAX_ENTRY_FRACTION ->
  cache_ok max (cache_put max now k b ttl c)
  /\ exists n, put_result max now k b ttl c (cache_put max now k b ttl c) n.
Proof.
  intros Hmax Hc [Hb1 Hb2]. rewrite cache_put_unfold.
  destruct (Z.eqb_spec (len b) 0) as [|_]; [lia|].
  destruct (Z.ltb_spec (max / MAX_ENTRY_FRACTION) (len b)); [lia|]. cbn [orb].
  destruct (without_ok max k c Hc) as ([Hn Hk Hs Hm He] & Ho & Hes).
  destruct (evict _ _ _ _ _) as [[o' es'] sz'] eqn:Ev.
  apply evict_spec in Ev as (n & Eo & Esz & Hl & Hfit & Hmin); [|lia|done..].
  rewrite Ho in *. rewrite Hes in *.
  assert (k ∉ o') as Hko by (rewrite Eo; intros Hx%in_drop%elem_of_remove_key; naive_solver).
  assert (held (<[k:=mkCached b (now + ttl)]> es') o' = sz') as Hheld.
  { rewrite Esz. apply held_ext. intros x Hx. rewrite lookup_insert_ne; [done|]. congruence. }
  split; [constructor; cbn [entries order size hits misses]|exists n; constructor; cbn [entries order]].
  - apply NoDup_app. split_and!; [rewrite Eo; eapply sublist_NoDup; [done|apply sublist_drop]| |apply NoDup_singleton].
    intros x Hx ->%list_elem_of_singleton. done.
  - intros x. rewrite elem_of_app, list_elem_of_singleton, lookup_insert_is_Some, Hl.
    case_bool_decide as Hx; [|naive_solver].
    assert (is_Some (delete k (entries c) !! x)) by (apply Hk; rewrite Eo in Hx; by eapply in_drop).
    naive_solver.
  - rewrite held_app, Hheld, held_cons. unfold entry_size. by rewrite lookup_insert_eq, Z.add_0_r.
  - assert (max / MAX_ENTRY_FRACTION <= max) by (unfold MAX_ENTRY_FRACTION; apply Z.div_le_upper_bound; lia).
    destruct Hfit as [?| ->]; [lia|]. subst sz'. cbn. lia.
  - intros x e [[<- <-]|[Hx Hle]]%lookup_insert_Some; [done|]. rewrite Hl in Hle.
    case_match; [|done]. eauto.
  - by rewrite Eo.
  - intros x. rewrite <- Eo. case_bool_decide as Hx; [subst x; by rewrite lookup_insert_eq|].
    rewrite lookup_insert_ne, Hl by congruence. case_match; [|done]. by rewrite lookup_delete_ne by congruence.
  - intros m Hlt. rewrite <- (held_delete _ k); [by apply Hmin|].
    intros Hx%in_drop%elem_of_remove_key. naive_solver.
Qed.

Inductive CacheOp := OpGet (now : Z) (key : str) | OpPut (now : Z) (key : str) (b : bytes) (ttl : Z).

Definition cache_step (max : Z) (c : ResponseCache) (op : CacheOp) : ResponseCache :=
  match op with
  | OpGet now key => (cache_get now key c).2
  | OpPut now key b ttl => cache_put max now key b ttl c
  end.

(** The cache after a sequence of calls; [with_default] is [max = DEFAULT_MAX_BYTES]. *)
Definition cache_run (max : Z) (ops : list CacheOp) : ResponseCache :=
  foldl (cache_step max) cache_new ops.

Lemma cache_step_ok max c op : 0 <= max -> cache_ok max c -> cache_ok max (cache_step max c op).
Proof.
  intros Hmax Hc. destruct op as [now k|now k b ttl]; cbn [cache_step]; [by apply cache_get_ok|].
  destruct (Z.eqb_spec (len b) 0) as [E|E].
  { rewrite cache_put_unfold, E. done. }
  destruct (Z.ltb_spec (max / MAX_ENTRY_FRACTION) (len b)) as [E'|E'].
  { rewrite cache_put_unfold. apply Z.ltb_lt in E'. by rewrite E', orb_true_r. }
  pose proof (len_nonneg b). apply cache_put_spec; [done..|lia].
Qed.

Lemma cache_run_ok max ops : 0 <= max -> cache_ok max (cache_run max ops).
Proof.
  intros Hmax. unfold cache_run. assert (cache_ok max cache_new) as H0.
  { constructor; cbn; [constructor| |done|done|by intros *; rewrite lookup_empty].
    intros k. rewrite elem_of_nil, lookup_empty. split; [done|by intros []]. }
  revert H0. generalize cache_new. induction ops as [|op ops IH]; intros c Hc; cbn; [done|].
  by apply IH, cache_step_ok.
Qed.

(** After any calls the size counter is exactly the number of bytes stored and
    never exceeds the limit, the order queue lists each stored key once, and no entry is
    empty or larger than a quarter of the limit. *)
Theorem cache_bounded max ops :
  0 <= max ->
  let c := cache_run max ops in
  size c = held (entries c) (order c) /\ size c <= max
  /\ NoDup (order c) /\ (forall k, k ∈ order c <-> is_Some (entries c !! k))
  /\ (forall k e, entries c !! k = Some e -> 0 < len (body e) <= max / MAX_ENTRY_FRACTION).
Proof. intros Hmax. cbn zeta. by destruct (cache_run_ok max ops Hmax). Qed.

Lemma cache_bounded_witness :
  let c := cache_run 8 [OpPut 0 [1] [7; 7] 10; OpGet 20 [1]; OpPut 20 [2] [9] 5] in
  size c = 1 /\ size c = held (entries c) (order c) /\ size c <= 8.
Proof.
  cbn zeta. split; [vm_compute; reflexivity|].
  destruct (cache_bounded 8 [OpPut 0 [1] [7; 7] 10; OpGet 20 [1]; OpPut 20 [2] [9] 5]) as (? & ? & _);
    [done|auto].
Defined.

(** An accepted [put] stores the body until its expiry, evicts the oldest other
    entries and only them, no more of them than it takes to make room, and keeps every
    other entry as it was. *)
Theorem cache_put_fifo max ops now k b ttl :
  0 <= max -> 0 < len b <= max / MAX_ENTRY_FRACTION ->
  let c := cache_run max ops in
  let c' := cache_put max now k b ttl c in
  (forall now', now' < now + ttl -> (cache_get now' k c').1 = Some b)
  /\ exists n, put_result max now k b ttl c c' n.
Proof.
  intros Hmax Hb c c'. destruct (cache_put_spec max now k b ttl c Hmax (cache_run_ok max ops Hmax) Hb)
    as [_ [n Hp]]. split; [|by exists n].
  intros now' Ht. unfold cache_get. fold c' in Hp. rewrite (pr_entries _ _ _ _ _ _ _ _ Hp k).
  rewrite bool_decide_true by done. cbn [expires body]. destruct (Z.ltb_spec now' (now + ttl)); [done|lia].
Qed.

Lemma cache_put_fifo_witness :
  (cache_get 12 [2] (cache_put 4 10 [2] [9] 5 (cache_run 4 [OpPut 0 [1] [7] 99]))).1 = Some [9].
Proof. apply (cache_put_fifo 4 [OpPut 0 [1] [7] 99] 10 [2] [9] 5); [lia|done|lia]. Defined.

(** ** The TTL of a raw HTTP response *)
Definition CRLF2 : bytes := [13; 10; 13; 10].

Fixpoint take_until (p : Z -> bool) (s : str) : str :=
  match s with [] => [] | x :: s' => if p x then [] else x :: take_until p s' end.

(** [str::lines().next()]. *)
Definition first_line (s : str) : option str :=
  match s with
  | [] => None
  | _ => let l := take_until (Z.eqb 10) s in
         Some (if bool_decide (10 ∈ s) && ends_with l [13] then take (length l - 1) l else l)
  end.

Definition STATIC_EXTS : list str := Eval vm_compute in lit <$>
  [".css"; ".js"; ".mjs"; ".woff"; ".woff2"; ".ttf"; ".otf"; ".eot"; ".png"; ".jpg"; ".jpeg";
   ".gif"; ".webp"; ".svg"; ".ico"; ".avif"; ".mp3"; ".mp4"; ".wasm"; ".webm"; ".ogg"]%string.

(** The part of [parse_ttl] after the [max-age] directive: by extension, then by type. *)
Definition ttl_by_type (hdr_lower url : str) : option Z :=
  let path_no_query := to_ascii_lowercase (take_until (Z.eqb 63) url) in
  if existsb (fun ext => ends_with path_no_query ext) STATIC_EXTS then Some 3600 else
  match find_str hdr_lower (lit "content-type:") with
  | Some at_ =>
    let ct := take_until (Z.eqb 13) (drop (length (lit "content-type:")) at_) in
    if contains ct (lit "image/") || contains ct (lit "font/") then Some 3600
    else if contains ct (lit "text/css") || contains ct (lit "javascript")
            || contains ct (lit "application/wasm") then Some 1800
    else None
  | None => None
  end.

Definition parse_ttl (raw_response : bytes) (url : str) : option Z :=
  '(hdr_bytes, _) ← split_once CRLF2 raw_response;
  hdr ← from_utf8 hdr_bytes;
  let hdr_lower := to_ascii_lowercase hdr in
  first ← first_line hdr_lower;
  if negb (starts_with first (lit "http/1.1 200")) && negb (starts_with first (lit "http/1.0 200"))
  then None
  else if contains hdr_lower (lit "no-store") || contains hdr_lower (lit "no-cache")
          || contains hdr_lower (lit "private") then None
  else if contains hdr_lower (lit "set-cookie:") then None
  else match find_str hdr_lower (lit "max-age=") with
  | Some at_ =>
    match parse_u64 (take_until (fun c => negb (is_digit c)) (drop 8 at_)) with
    | Some secs => if secs =? 0 then None else Some (Z.min secs 86400)
    | None => ttl_by_type hdr_lower url
    end
  | None => ttl_by_type hdr_lower url
  end.

Definition is_cacheable_method (m : str) : bool :=
  bool_decide (to_ascii_uppercase m ∈ [lit "GET"; lit "HEAD"]).

Definition cache_key (m url : str) : str := to_ascii_uppercase m ++ lit ":" ++ url.

Lemma contains_app a p b : contains (a ++ p ++ b) p = true.
Proof.
  induction a as [|x a IH]; cbn [app].
  - unfold contains. destruct (p ++ b) eqn:E; fold contains; rewrite <- E; unfold starts_with;
      rewrite strip_prefix_app; done.
  - cbn [contains]. rewrite IH. apply orb_true_r.
Qed.

(** The markers that forbid caching, in any letter case. *)
Definition UNCACHEABLE : list str := Eval vm_compute in lit <$>
  ["no-store"; "no-cache"; "private"; "set-cookie:"]%string.

(** A response whose header contains [no-store], [no-cache], [private] or
    [Set-Cookie:] in any letter case is never given a TTL, whatever else it says; and a
    TTL that is given lies between one second and one day. *)
Theorem parse_ttl_safe raw hdr_bytes rest hdr url :
  split_once CRLF2 raw = Some (hdr_bytes, rest) -> from_utf8 hdr_bytes = Some hdr ->
  (forall a w b, hdr = a ++ w ++ b -> to_ascii_lowercase w ∈ UNCACHEABLE -> parse_ttl raw url = None)
  /\ (forall t, parse_ttl raw url = Some t -> 1 <= t <= 86400).
Proof.
  intros Hs Hu. unfold parse_ttl. rewrite Hs. cbn [mbind option_bind]. rewrite Hu.
  cbn [mbind option_bind]. split.
  - intros a w b -> Hw. destruct (first_line _); [|done]. cbn [mbind option_bind].
    case_match; [done|].
    assert (contains (to_ascii_lowercase (a ++ w ++ b)) (to_ascii_lowercase w) = true) as Hc.
    { unfold to_ascii_lowercase. rewrite !fmap_app. apply contains_app. }
    unfold UNCACHEABLE in Hw. rewrite !elem_of_cons, elem_of_nil in Hw.
    destruct Hw as [E|[E|[E|[E|[]]]]]; rewrite E in Hc;
      match type of Hc with contains _ ?m = _ =>
        first [ change m with (lit "no-store") in Hc | change m with (lit "no-cache") in Hc
              | change m with (lit "private") in Hc | change m with (lit "set-cookie:") in Hc ]
      end; rewrite Hc; rewrite ?orb_true_r; try done; by case_match.
  - intros t. destruct (first_line _); [|done]. cbn [mbind option_bind].
    do 3 (case_match; [done|]).
    assert (ttl_by_type (to_ascii_lowercase hdr) url = Some t -> 1 <= t <= 86400) as Ht.
    { unfold ttl_by_type. repeat case_match; intros; simplify_eq; lia. }
    destruct (find_str _ _) as [at_|]; [|done].
    destruct (parse_u64 _) as [secs|] eqn:Hp; [|done].
    apply parse_uint_bound in Hp; [|done]. destruct (Z.eqb_spec secs 0); [done|].
    intros [= <-]. lia.
Qed.

Definition sample_response : bytes := Eval vm_compute in
  lit "HTTP/1.1 200 OK" ++ [13; 10] ++ lit "SET-Cookie: a=b" ++ CRLF2 ++ lit "x".

Lemma parse_ttl_safe_witness : parse_ttl sample_response (lit "https://a/b.png") = None.
Proof.
  apply (proj1 (parse_ttl_safe sample_response
    (lit "HTTP/1.1 200 OK" ++ [13; 10] ++ lit "SET-Cookie: a=b") (lit "x")
    (lit "HTTP/1.1 200 OK" ++ [13; 10] ++ lit "SET-Cookie: a=b") (lit "https://a/b.png")
    eq_refl eq_refl) (lit "HTTP/1.1 200 OK" ++ [13; 10]) (lit "SET-Cookie:") (lit " a=b")).
  - reflexivity.
  - vm_compute. do 3 apply list_elem_of_further. apply list_elem_of_here.
Defined.
