(* ===== verification/Token.v ===== *)
(** * The OAuth access-token cache (drive-relay/src/token.rs, src/drive_client.rs)

    [TokenCache::get] is run by many tasks at once; it is modelled as a step function on
    the shared cache and the program counter of every caller, so that the order in which
    callers load the latch, take the mutex and hear from the token endpoint is the
    schedule's.  The relay's cache latches a revoked refresh token ([latch = true]); the
    client's copy has no latch ([latch = false]) and is otherwise the same code.  What the
    token endpoint answers, and the clock (seconds), are part of the schedule; a caller's
    future can be dropped at any point where it waits. *)

From stdpp Require Import prelude.
From S2P Require Import Prelude RustStr.
#[local] Open Scope Z_scope.

(** ** Tokens and errors (src/drive_oauth.rs) *)
Record OAuthTokens := mkTokens {
  access_token : str;
  refresh_token : option str;
  expires_at : Z;
  scope : str
}.

(** [expires_at.saturating_duration_since(now) <= 60 s]. *)
Definition is_near_expiry (t : OAuthTokens) (now : Z) : bool :=
  saturating_sub (expires_at t) now <=? 60.

Inductive OAuthError :=
| Transport
| Endpoint (endpoint : str) (status : Z) (body : str)
| BadResponse (why : str)
| MissingField (field : str).

Definition QUOTE : Z := 34.
Definition quoted (s : str) : str := [QUOTE] ++ s ++ [QUOTE].

Definition is_refresh_token_revoked (e : OAuthError) : bool :=
  match e with
  | Endpoint _ status body =>
    if negb (status =? 400) && negb (status =? 401) then false
    else contains body (quoted (lit "invalid_grant"))
         || contains body (quoted (lit "unauthorized_client"))
         || contains body (quoted (lit "invalid_client"))
  | _ => false
  end.

(** The synthetic error of the latched state. *)
Definition revoked_token_error : OAuthError :=
  Endpoint (lit "token refresh (latched revoked)") 400
    ([123] ++ quoted (lit "error") ++ lit ":" ++ quoted (lit "invalid_grant") ++ lit ","
     ++ quoted (lit "error_description") ++ lit ":"
     ++ quoted (lit "refresh token revoked; daemon stopped retrying. Run `rahgozar-drive-relay oauth device-code` to re-auth.")
     ++ [125]).

(** ** The cache and its callers *)
Inductive Phase :=
| Start       (* get() called *)
| Waiting     (* past the latch, waiting for the mutex *)
| Refreshing  (* holds the mutex, request in flight *)
| Returned (r : res str OAuthError)
| Dropped.

Definition is_waiting (p : Phase) : bool := match p with Waiting => true | _ => false end.
Definition is_refreshing (p : Phase) : bool := match p with Refreshing => true | _ => false end.

(** [locked] is the mutex; [requests] counts the posts to the token endpoint. *)
Record TokenCache := mkTokenCache {
  cached : option OAuthTokens;
  revoked : bool;
  locked : bool;
  callers : list Phase;
  requests : nat
}.

Definition TokenCache_new : TokenCache := mkTokenCache None false false [] 0.

Inductive TokenEvent :=
| Call                                              (* a new caller *)
| LoadLatch (i : nat)                               (* up to [lock().await] *)
| Acquire (i : nat) (now : Z)                       (* mutex obtained, clock read *)
| Reply (i : nat) (r : res OAuthTokens OAuthError)  (* the endpoint answered *)
| Drop (i : nat).                                   (* the future is dropped *)

Definition set_phase (i : nat) (p : Phase) (c : TokenCache) : TokenCache :=
  mkTokenCache (cached c) (revoked c) (locked c) (<[i := p]> (callers c)) (requests c).

(** The body of [get] before the mutex. *)
Definition get_enter (latch : bool) (c : TokenCache) : Phase :=
  if latch && revoked c then Returned (Err revoked_token_error) else Waiting.

(** ... with the mutex held, up to the request. *)
Definition get_locked (i : nat) (now : Z) (c : TokenCache) : TokenCache :=
  let refresh :=
    mkTokenCache (cached c) (revoked c) true (<[i := Refreshing]> (callers c)) (S (requests c)) in
  match cached c with
  | Some tokens => if negb (is_near_expiry tokens now)
                   then set_phase i (Returned (Ok (access_token tokens))) c else refresh
  | None => refresh
  end.

(** ... and from the answer on. *)
Definition get_reply (latch : bool) (i : nat) (r : res OAuthTokens OAuthError) (c : TokenCache)
    : TokenCache :=
  match r with
  | Ok fresh =>
    mkTokenCache (Some fresh) (revoked c) false
      (<[i := Returned (Ok (access_token fresh))]> (callers c)) (requests c)
  | Err e =>
    mkTokenCache (cached c) (if latch && is_refresh_token_revoked e then true else revoked c) false
      (<[i := Returned (Err e)]> (callers c)) (requests c)
  | Panic => mkTokenCache (cached c) (revoked c) false (<[i := Dropped]> (callers c)) (requests c)
  end.

(** One scheduling step; [None] when the event is not enabled. *)
Definition token_step (latch : bool) (c : TokenCache) (e : TokenEvent) : option TokenCache :=
  match e with
  | Call => Some (mkTokenCache (cached c) (revoked c) (locked c) (callers c ++ [Start]) (requests c))
  | LoadLatch i =>
    match callers c !! i with
    | Some Start => Some (set_phase i (get_enter latch c) c)
    | _ => None
    end
  | Acquire i now =>
    match callers c !! i, locked c with
    | Some Waiting, false => Some (get_locked i now c)
    | _, _ => None
    end
  | Reply i r =>
    match callers c !! i with
    | Some Refreshing => Some (get_reply latch i r c)
    | _ => None
    end
  | Drop i =>
    match callers c !! i with
    | Some Waiting => Some (set_phase i Dropped c)
    | Some Refreshing =>
      Some (mkTokenCache (cached c) (revoked c) false (<[i := Dropped]> (callers c)) (requests c))
    | _ => None
    end
  end.

Definition token_run (latch : bool) (c : TokenCache) (evs : list TokenEvent) : option TokenCache :=
  foldl (fun acc e => acc ≫= fun c => token_step latch c e) (Some c) evs.

Definition is_revoked (c : TokenCache) : bool := revoked c.

Definition is_warm (now : Z) (c : TokenCache) : bool :=
  match cached c with Some t => negb (is_near_expiry t now) | None => false end.

(** ** Counting callers by phase *)
Definition count (p : Phase -> bool) (l : list Phase) : nat :=
  foldr (fun x n => (if p x then 1 else 0) + n)%nat 0%nat l.

Lemma count_cons p x l : count p (x :: l) = ((if p x then 1 else 0) + count p l)%nat.
Proof. done. Qed.

Lemma count_app p l k : count p (l ++ k) = (count p l + count p k)%nat.
Proof. induction l as [|x l IH]; cbn [app]; [done|]. rewrite !count_cons, IH. lia. Qed.

Lemma count_set p l i x y : l !! i = Some x ->
  (count p (<[i := y]> l) + (if p x then 1 else 0) = count p l + (if p y then 1 else 0))%nat.
Proof.
  revert i. induction l as [|z l IH]; intros [|i] Hl; cbn in Hl; [done..|simplify_eq|].
  - change (<[0%nat:=y]> (x :: l)) with (y :: l). rewrite !count_cons. lia.
  - change (<[S i:=y]> (z :: l)) with (z :: <[i:=y]> l). rewrite !count_cons.
    specialize (IH i Hl). lia.
Qed.

(** ** The mutex *)
Definition lock_ok (c : TokenCache) : Prop :=
  count is_refreshing (callers c) = if locked c then 1%nat else 0%nat.

(** The change a step makes to the phases, as counts. *)
Ltac count_phase H :=
  let W := fresh "W" in let R := fresh "R" in
  match goal with |- context [<[?i := ?y]> ?l] =>
    pose proof (count_set is_waiting l i _ y H) as W;
    pose proof (count_set is_refreshing l i _ y H) as R; cbn in W, R
  end.

Ltac token_cases :=
  unfold token_step, get_locked, get_reply, get_enter, set_phase;
  repeat case_match; intros; simplify_eq; cbn [cached revoked locked callers requests] in *.

Lemma token_step_lock latch c e c' : token_step latch c e = Some c' -> lock_ok c -> lock_ok c'.
Proof.
  intros Hs Hl. unfold lock_ok in *. revert Hs. token_cases;
    try match goal with H : callers c !! _ = Some _ |- _ => count_phase H end;
    rewrite ?count_app; cbn; try lia.
Qed.

Lemma token_run_snoc latch c evs e :
  token_run latch c (evs ++ [e]) = token_run latch c evs ≫= fun c => token_step latch c e.
Proof. unfold token_run. by rewrite foldl_app. Qed.

(** A property kept by every step holds after any run. *)
Lemma token_run_ind latch (P : TokenCache -> Prop) c evs c' :
  P c -> (forall x e y, e ∈ evs -> P x -> token_step latch x e = Some y -> P y) ->
  token_run latch c evs = Some c' -> P c'.
Proof.
  intros H0 Hstep. revert c'. induction evs as [|e evs IH] using rev_ind; intros c'.
  { by intros [= <-]. }
  rewrite token_run_snoc. destruct (token_run latch c evs) as [x|]; [|done]. cbn.
  apply Hstep; [|apply IH; [|done]].
  - apply elem_of_app. right. apply list_elem_of_here.
  - intros x' e' y He. apply Hstep. apply elem_of_app. by left.
Qed.

Lemma token_run_lock latch evs c : token_run latch TokenCache_new evs = Some c -> lock_ok c.
Proof. apply token_run_ind; [done|]. intros x e y _ Hx Hs. by eapply token_step_lock. Qed.

(** ** A fresh token is shared *)

(** The instant an event carries. *)
Definition event_by (t : Z) (e : TokenEvent) : Prop :=
  match e with Acquire _ now => now <= t | _ => True end.

Lemma near_expiry_mono t now now' :
  now <= now' -> is_near_expiry t now' = false -> is_near_expiry t now = false.
Proof. unfold is_near_expiry, saturating_sub. intros. bool_cases; lia. Qed.

(** Every answer given since the callers' phases were [old] is the token's. *)
Definition served (tok : OAuthTokens) (old now : list Phase) : Prop :=
  forall i a, now !! i = Some (Returned (Ok a)) -> old !! i = Some (Returned (Ok a)) \/ a = access_token tok.

Lemma served_set tok old now i p :
  served tok old now -> (forall a, p = Returned (Ok a) -> a = access_token tok) ->
  served tok old (<[i := p]> now).
Proof.
  intros Hs Hp j a Hj. destruct (decide (i = j)) as [<-|Hn].
  - apply list_lookup_insert_Some in Hj as [(_ & E & _)|[? _]]; [|done]. right. by apply Hp.
  - rewrite list_lookup_insert_ne in Hj by done. auto.
Qed.

Lemma served_start tok old now : served tok old now -> served tok old (now ++ [Start]).
Proof.
  intros Hs j a [Hj|[_ Hj]]%lookup_app_Some; [auto|].
  by apply list_lookup_singleton_Some in Hj as [_ ?].
Qed.

(** Once a refresh has stored a token and as long as it is not near expiry, no
    caller, however many run at once and in whatever order, contacts the token endpoint
    again: the request count stays put and every caller that returns a token returns that
    one.  This holds of the relay's and the client's cache alike. *)
Theorem token_single_flight latch pre c tok t evs c' :
  token_run latch TokenCache_new pre = Some c -> locked c = false -> cached c = Some tok -> is_near_expiry tok t = false ->
  Forall (event_by t) evs -> token_run latch c evs = Some c' ->
  requests c' = requests c /\ cached c' = Some tok /\ served tok (callers c) (callers c').
Proof.
  intros Hl%token_run_lock Hf Hc Ht Hev Hr.
  assert (lock_ok c' /\ locked c' = false /\ requests c' = requests c /\ cached c' = Some tok
    /\ served tok (callers c) (callers c')) as H; [|tauto].
  refine (token_run_ind latch (fun x => lock_ok x /\ locked x = false /\ requests x = requests c
    /\ cached x = Some tok /\ served tok (callers c) (callers x)) c evs c' _ _ Hr).
  { split_and!; try done. by left. }
  intros x e y He (Hlx & Hfx & Hrx & Hcx & Hsx) Hs.
  pose proof (token_step_lock _ _ _ _ Hs Hlx) as Hly. split; [done|].
  rewrite Forall_forall in Hev. specialize (Hev e He).
  assert (forall i, callers x !! i = Some Refreshing -> False) as Hno.
  { intros i Hi. unfold lock_ok in Hlx. rewrite Hfx in Hlx.
    pose proof (count_set is_refreshing _ _ _ Start Hi) as Hc'. cbn in Hc'. lia. }
  destruct e as [|i|i now|i r|i]; cbn [token_step] in Hs.
  - simplify_eq. cbn. split_and!; try done. by apply served_start.
  - repeat case_match; simplify_eq; cbn; split_and!; try done; apply served_set; try done;
      unfold get_enter; by case_match.
  - repeat case_match; simplify_eq. cbn in Hev. unfold get_locked. rewrite Hcx.
    rewrite (near_expiry_mono tok now t) by done. cbn. split_and!; try done.
    apply served_set; [done|]. by intros a [= <-].
  - destruct (callers x !! i) as [[]|] eqn:Hi; simplify_eq. by destruct (Hno i).
  - destruct (callers x !! i) as [[]|] eqn:Hi; simplify_eq; [|by destruct (Hno i)].
    cbn. split_and!; try done. by apply served_set.
Qed.

Definition sample_tokens : OAuthTokens := mkTokens (lit "ya29") None 3600 [].

Definition sample_warm : TokenCache :=
  mkTokenCache (Some sample_tokens) false false [Returned (Ok (lit "ya29")); Waiting; Start] 1.
Definition sample_served : TokenCache :=
  mkTokenCache (Some sample_tokens) false false (replicate 3 (Returned (Ok (lit "ya29")))) 1.

Lemma token_single_flight_witness :
  requests sample_served = requests sample_warm /\ cached sample_served = Some sample_tokens
  /\ served sample_tokens (callers sample_warm) (callers sample_served).
Proof.
  apply (token_single_flight true
    [Call; LoadLatch 0; Acquire 0 0; Reply 0 (Ok sample_tokens); Call; LoadLatch 1; Call]
    sample_warm sample_tokens 100 [Acquire 1 10; LoadLatch 2; Acquire 2 20]); [done..| |reflexivity].
  repeat (apply Forall_cons_2; [done|]). apply Forall_nil_2.
Defined.

(** ** The latch *)
Lemma token_latch_step c e c' :
  token_step true c e = Some c' -> revoked c = true ->
  revoked c' = true
  /\ (requests c' + count is_waiting (callers c') <= requests c + count is_waiting (callers c))%nat.
Proof.
  intros Hs Hl. revert Hs. token_cases;
    try match goal with H : callers c !! _ = Some _ |- _ => count_phase H end;
    rewrite ?count_app, ?Hl in *; cbn; try done; split; try done; try lia.
Qed.

(** Once the relay's cache has latched a revoked refresh token it stays latched,
    and the only posts to the token endpoint that can still follow are those of callers
    that were already past the latch, at most one each: a caller that starts afterwards
    returns an error its callers classify as revoked, without a request. *)
Theorem token_latch_bound c evs c' :
  revoked c = true -> token_run true c evs = Some c' ->
  is_revoked c' = true
  /\ (requests c' <= requests c + count is_waiting (callers c))%nat
  /\ get_enter true c' = Returned (Err revoked_token_error)
  /\ is_refresh_token_revoked revoked_token_error = true.
Proof.
  intros Hl Hr.
  assert (revoked c' = true /\ (requests c' + count is_waiting (callers c')
      <= requests c + count is_waiting (callers c))%nat) as [H1 H2].
  { refine (token_run_ind true (fun x => revoked x = true /\ (requests x + count is_waiting (callers x)
      <= requests c + count is_waiting (callers c))%nat) c evs c' _ _ Hr); [split; [done|lia]|].
    intros x e y _ [Hx1 Hx2] Hs. destruct (token_latch_step x e y Hs Hx1). split; [done|lia]. }
  split_and!; [done|lia| |reflexivity]. unfold get_enter. by rewrite H1.
Qed.

Lemma token_latch_bound_witness :
  let c := mkTokenCache None true false [Start; Returned (Err revoked_token_error)] 1 in
  let c' := mkTokenCache None true false
              [Returned (Err revoked_token_error); Returned (Err revoked_token_error)] 1 in
  is_revoked c' = true /\ (requests c' <= requests c + count is_waiting (callers c))%nat.
Proof.
  cbn zeta.
  destruct (token_latch_bound
    (mkTokenCache None true false [Start; Returned (Err revoked_token_error)] 1)
    [LoadLatch 0]
    (mkTokenCache None true false
       [Returned (Err revoked_token_error); Returned (Err revoked_token_error)] 1)
    eq_refl eq_refl) as (H1 & H2 & _).
  split; [exact H1|exact H2].
Defined.

(** The bound is reached: two callers pass the latch, the first is told that the token is
    revoked, and the second posts the same token again. *)
Theorem revoked_token_posted_again :
  exists c, token_run true TokenCache_new
    [Call; Call; LoadLatch 0; LoadLatch 1; Acquire 0 0; Reply 0 (Err revoked_token_error);
     Acquire 1 0] = Some c /\ revoked c = true /\ requests c = 2%nat.
Proof. eexists. split; [reflexivity|]. vm_compute. done. Qed.
