(* ===== verification/DriveApi.v ===== *)
(** * src/drive_api.rs: the Drive REST client

    Query building, the paging loop of [list_files_in_folder_since], the bounded
    download, deletes and the mapping of error responses.  HTTP exchanges are answers
    supplied by the environment (a status and a text, a stream of chunks, or a transport
    failure).  JSON decoding is the work of the [serde_json] crate and of derived
    code; it is a parameter: a function from text to the decoded structure, or to the
    message of its error. *)

From stdpp Require Import prelude.
From S2P Require Import Prelude RustStr Mailbox.
#[local] Open Scope Z_scope.

Definition DEFAULT_DRIVE_API_BASE : str := Eval vm_compute in lit "https://www.googleapis.com".
Definition DEFAULT_LIST_PAGE_SIZE : Z := 100.
Definition MAX_PAGES : nat := 1000.
Definition BACKSLASH : Z := 92.
Definition APOSTROPHE : Z := 39.

Inductive DriveApiError :=
| Transport
| Endpoint (status : Z) (reason : option str) (message : str)
| BadResponse (why : str)
| ResponseTooLarge (file_id : str) (actual limit : Z)
| MissingField (field : str).

(** [DriveApiClient::new]. *)
Definition base_url_new (base_url : str) : str := trim_end_matches 47 base_url.

(** ** Queries *)

(** [str::replace(char, &str)]. *)
Definition replace_char (c : Z) (by_ : str) (s : str) : str :=
  s ≫= fun x => if x =? c then by_ else [x].

Definition escape_query_literal (s : str) : str :=
  replace_char APOSTROPHE [BACKSLASH; APOSTROPHE]
    (replace_char BACKSLASH [BACKSLASH; BACKSLASH] s).

Definition build_list_query_since (folder_id name_prefix : str) (since : option str) : str :=
  let folder := escape_query_literal folder_id in
  let q :=
    if bool_decide (name_prefix = []) || bool_decide (is_Some since)
    then lit "'" ++ folder ++ lit "' in parents and trashed = false"
    else lit "'" ++ folder ++ lit "' in parents and name contains '"
         ++ escape_query_literal name_prefix ++ lit "' and trashed = false" in
  match since with
  | Some s => q ++ lit " and modifiedTime >= '" ++ escape_query_literal s ++ lit "'"
  | None => q
  end.

Definition build_list_query (folder_id name_prefix : str) : str :=
  build_list_query_since folder_id name_prefix None.

(** ** Responses *)
Record FileEntryJson := mkEntryJson {
  ej_id : str;
  ej_name : str;
  ej_modified_time : option str;
  ej_size : option str
}.
Record ListResponseJson := mkListJson { files : list FileEntryJson; next_page_token : option str }.
Record ErrorInnerJson := mkErrorJson { ei_code : Z; ei_message : str; ei_reasons : list str }.

(** What one exchange gives. *)
Inductive Exchange := NoResponse | Response (status : Z) (body : str).

Definition is_success (status : Z) : bool := (200 <=? status) && (status <=? 299).

Section Api.
Context {T : TimeFormat}
  (list_json : str -> ListResponseJson + str)
  (create_json : str -> str + str)
  (error_json : str -> option ErrorInnerJson).

Definition entry_file (entry : FileEntryJson) : option DriveFile :=
  if bool_decide (ej_id entry = []) || bool_decide (ej_name entry = []) then None
  else Some (mkFile (ej_id entry) (ej_name entry)
               (ej_modified_time entry ≫= parse_rfc3339) (ej_size entry ≫= parse_u64)).

Definition list_response_rows (parsed : ListResponseJson) : list DriveFile :=
  omap entry_file (files parsed).

Definition parse_list_response_paged (body : str)
    : res (list DriveFile * option str) DriveApiError :=
  match list_json body with
  | inl parsed => Ok (list_response_rows parsed, next_page_token parsed)
  | inr e => Err (BadResponse (lit "files.list: " ++ e))
  end.

Definition parse_file_create_response (body : str) : res str DriveApiError :=
  match create_json body with
  | inl id => if bool_decide (id = []) then Err (MissingField (lit "id")) else Ok id
  | inr e => Err (BadResponse (lit "files.create: " ++ e))
  end.

Definition parse_error_response (status : Z) (body : str) : DriveApiError :=
  match error_json body with
  | Some parsed =>
    Endpoint status (List.find (fun r => negb (bool_decide (r = []))) (ei_reasons parsed))
      (if bool_decide (ei_message parsed = []) then lit "HTTP " ++ dec_string status
       else ei_message parsed)
  | None => Endpoint status None body
  end.

(** ** files.list *)

(** One turn of the paging loop for the given [pageToken]. *)
Definition fetch_page (x : Exchange) : res (list DriveFile * option str) DriveApiError :=
  match x with
  | NoResponse => Err Transport
  | Response status body =>
    if negb (is_success status) then Err (parse_error_response status body)
    else parse_list_response_paged body
  end.

Definition aborted : DriveApiError :=
  BadResponse (lit "files.list: aborted after " ++ dec_string (Z.of_nat MAX_PAGES)
    ++ lit " pages " ++ [0x2014]
    ++ lit " Drive appears to be returning a non-terminating nextPageToken chain").

(** The [for _ in 0..MAX_PAGES] loop; [get q tok] is the exchange for query [q] and page
    token [tok]. *)
Fixpoint list_pages (get : option str -> Exchange) (pages : nat) (page_token : option str)
    (all : list DriveFile) : res (list DriveFile) DriveApiError :=
  match pages with
  | O => Err aborted
  | S pages =>
    let? (fs, next) := fetch_page (get page_token) in
    match next with
    | Some t => if bool_decide (t = []) then Ok (all ++ fs)
                else list_pages get pages (Some t) (all ++ fs)
    | None => Ok (all ++ fs)
    end
  end.

Definition list_files_in_folder_since (get : str -> option str -> Exchange)
    (folder_id name_prefix : str) (since : option str) : res (list DriveFile) DriveApiError :=
  list_pages (get (build_list_query_since folder_id name_prefix since)) MAX_PAGES None [].

Definition list_files_in_folder (get : str -> option str -> Exchange) (folder_id name_prefix : str)
    : res (list DriveFile) DriveApiError :=
  list_files_in_folder_since get folder_id name_prefix None.

(** ** files.get *)
Definition ensure_body_within_limit (file_id : str) (actual limit : Z) : res unit DriveApiError :=
  if limit <? actual then Err (ResponseTooLarge file_id actual limit) else Ok ().

(** A streamed body: chunks, and whether it breaks off with a transport error. *)
Record Stream := mkStream { chunks : list bytes; broken : bool }.

Fixpoint read_chunks (file_id : str) (max_bytes : Z) (cs : list bytes) (total : Z) (body : bytes)
    : res bytes DriveApiError :=
  match cs with
  | [] => Ok body
  | chunk :: cs =>
    let total := saturating_add_u64 total (len chunk) in
    let? _ := ensure_body_within_limit file_id total max_bytes in
    read_chunks file_id max_bytes cs total (body ++ chunk)
  end.

Definition download_file (file_id : str) (max_bytes : Z)
    (x : Exchange) (content_length : option Z) (stream : Stream) : res bytes DriveApiError :=
  match x with
  | NoResponse => Err Transport
  | Response status text =>
    if negb (is_success status) then Err (parse_error_response status text) else
    let? _ := match content_length with
              | Some n => ensure_body_within_limit file_id n max_bytes
              | None => Ok ()
              end in
    let? body := read_chunks file_id max_bytes (chunks stream) 0 [] in
    if broken stream then Err Transport else Ok body
  end.

(** ** files.delete, files.create *)
Definition delete_file (x : Exchange) : res unit DriveApiError :=
  match x with
  | NoResponse => Err Transport
  | Response status body =>
    if is_success status || (status =? 404) then Ok () else Err (parse_error_response status body)
  end.

(** What [upload_file] and [create_folder] make of the answer. *)
Definition create_result (x : Exchange) : res str DriveApiError :=
  match x with
  | NoResponse => Err Transport
  | Response status body =>
    if negb (is_success status) then Err (parse_error_response status body)
    else parse_file_create_response body
  end.
End Api.

(** [build_multipart_related_body]. *)
Definition CRLF : bytes := [13; 10].
Definition build_multipart_related_body (metadata_json : bytes) (body_mime : str) (body : bytes)
    (boundary : str) : bytes :=
  lit "--" ++ as_bytes boundary
  ++ CRLF ++ lit "Content-Type: application/json; charset=UTF-8" ++ CRLF ++ CRLF
  ++ metadata_json ++ CRLF
  ++ lit "--" ++ as_bytes boundary
  ++ CRLF ++ lit "Content-Type: " ++ as_bytes body_mime ++ CRLF ++ CRLF
  ++ body ++ CRLF
  ++ lit "--" ++ as_bytes boundary ++ lit "--" ++ CRLF.

(** ** Reading a query back

    Drive's query language: string literals in single quotes, in which a backslash
    escapes the next character. *)
Fixpoint read_literal (s : str) : option (str * str) :=
  match s with
  | [] => None
  | c :: s' =>
    if c =? APOSTROPHE then Some ([], s')
    else if c =? BACKSLASH then
      match s' with
      | d :: s'' => prod_map (cons d) Datatypes.id <$> read_literal s''
      | [] => None
      end
    else prod_map (cons c) Datatypes.id <$> read_literal s'
  end.

Record ListQuery := mkQuery {
  in_folder : str;
  name_contains : option str;
  modified_since : option str
}.

Definition read_since (s : str) : option (option str) :=
  match s with
  | [] => Some None
  | _ =>
    s ← strip_prefix (lit " and modifiedTime >= '") s;
    '(t, s) ← read_literal s;
    if bool_decide (s = []) then Some (Some t) else None
  end.

Definition read_query (s : str) : option ListQuery :=
  s ← strip_prefix [APOSTROPHE] s;
  '(folder, s) ← read_literal s;
  s ← strip_prefix (lit " in parents and ") s;
  match strip_prefix (lit "trashed = false") s with
  | Some s => mkQuery folder None <$> read_since s
  | None =>
    s ← strip_prefix (lit "name contains '") s;
    '(name, s) ← read_literal s;
    s ← strip_prefix (lit " and trashed = false") s;
    mkQuery folder (Some name) <$> read_since s
  end.

Lemma escape_cons c s : escape_query_literal (c :: s) =
  (if c =? BACKSLASH then [BACKSLASH; BACKSLASH]
   else if c =? APOSTROPHE then [BACKSLASH; APOSTROPHE] else [c]) ++ escape_query_literal s.
Proof.
  unfold escape_query_literal, replace_char. cbn [mbind list_bind]. rewrite bind_app. f_equal.
  destruct (Z.eqb_spec c BACKSLASH); [done|]. cbn. by rewrite app_nil_r.
Qed.

Lemma read_escaped s r : read_literal (escape_query_literal s ++ APOSTROPHE :: r) = Some (s, r).
Proof.
  induction s as [|c s IH]; [done|]. rewrite escape_cons.
  destruct (Z.eqb_spec c BACKSLASH) as [->|Hb]; [cbn; by rewrite IH|].
  destruct (Z.eqb_spec c APOSTROPHE) as [->|Ha]; [cbn; by rewrite IH|].
  cbn [app read_literal]. apply Z.eqb_neq in Hb as ->. apply Z.eqb_neq in Ha as ->. by rewrite IH.
Qed.

Lemma read_since_written since :
  read_since match since with
             | Some s => lit " and modifiedTime >= '" ++ escape_query_literal s ++ lit "'"
             | None => [] end = Some since.
Proof.
  destruct since as [t|]; [|done]. unfold read_since.
  destruct (lit " and modifiedTime >= '" ++ _) as [|c q] eqn:E; [done|]. rewrite <- E.
  rewrite strip_prefix_app. cbn [mbind option_bind]. change (lit "'") with [APOSTROPHE]. by rewrite read_escaped.
Qed.

(** Whatever characters the folder id, the name prefix and the timestamp are
    made of, the query sent to Drive says exactly: this folder, names containing this
    prefix (when one is given and there is no timestamp), modified since this instant
    (when one is given).  No value can close its literal and add a predicate. *)
Theorem list_query_exact folder_id name_prefix since :
  read_query (build_list_query_since folder_id name_prefix since) =
  Some (mkQuery folder_id
          (if bool_decide (name_prefix = []) || bool_decide (is_Some since) then None
           else Some name_prefix)
          since).
Proof.
  pose proof (read_since_written since) as Hs.
  unfold build_list_query_since, read_query.
  destruct (bool_decide (name_prefix = []) || bool_decide (is_Some since)) eqn:Eb.
  - transitivity (mkQuery folder_id None <$> read_since match since with
             | Some s => lit " and modifiedTime >= '" ++ escape_query_literal s ++ lit "'"
             | None => [] end); [|by rewrite Hs].
    destruct since as [t|]; change (lit "'") with [APOSTROPHE]; rewrite <- ?app_assoc;
      rewrite strip_prefix_app; cbn [mbind option_bind];
      change (lit "' in parents and trashed = false") with
        (APOSTROPHE :: (lit " in parents and " ++ lit "trashed = false" ++ []));
      rewrite <- ?app_comm_cons, read_escaped; cbn [mbind option_bind];
      rewrite <- ?app_assoc, strip_prefix_app; cbn [mbind option_bind];
      by rewrite strip_prefix_app.
  - destruct since as [t|]; [rewrite (bool_decide_true (is_Some (Some t))), orb_true_r in Eb by done; done|].
    change (lit "'") with [APOSTROPHE]. rewrite strip_prefix_app. cbn [mbind option_bind].
    change (lit "' in parents and name contains '") with
      (APOSTROPHE :: (lit " in parents and " ++ lit "name contains '")).
    rewrite <- app_comm_cons, read_escaped. cbn [mbind option_bind].
    rewrite <- app_assoc, strip_prefix_app. cbn [mbind option_bind].
    replace (strip_prefix (lit "trashed = false") _) with (@None str) by done.
    rewrite strip_prefix_app. cbn [mbind option_bind].
    change (lit "' and trashed = false") with (APOSTROPHE :: (lit " and trashed = false" ++ [])).
    rewrite read_escaped. cbn [mbind option_bind]. by rewrite strip_prefix_app.
Qed.

(** ** Paging *)
Section Paging.
Context {T : TimeFormat} (list_json : str -> ListResponseJson + str)
  (error_json : str -> option ErrorInnerJson).

(** The pages Drive serves from a token on: [page_chain get tok pages] when following
    [nextPageToken] from [tok] gives the rows [pages], the last page naming no next one. *)
Inductive page_chain (get : option str -> Exchange) : option str -> list (list DriveFile) -> Prop :=
| chain_last tok rows next :
    fetch_page list_json error_json (get tok) = Ok (rows, next) ->
    next = None \/ next = Some [] -> page_chain get tok [rows]
| chain_more tok rows t rest :
    fetch_page list_json error_json (get tok) = Ok (rows, Some t) -> t <> [] ->
    page_chain get (Some t) rest -> page_chain get tok (rows :: rest).

Lemma list_pages_sound get n tok all r :
  list_pages list_json error_json get n tok all = Ok r ->
  exists pages, page_chain get tok pages /\ (length pages <= n)%nat /\ r = all ++ concat pages.
Proof.
  revert tok all. induction n as [|n IH]; intros tok all; cbn [list_pages]; [done|].
  destruct (fetch_page _ _ _) as [[fs next]|e|] eqn:E; cbn [res_bind]; [|done..].
  destruct next as [t|].
  - case_bool_decide as Ht.
    + intros [= <-]. exists [fs]. split_and!; [by eapply chain_last; [|right; subst]|cbn; lia|].
      cbn. by rewrite app_nil_r.
    + intros (pages & Hc & Hl & ->)%IH. exists (fs :: pages).
      split_and!; [by econstructor|cbn; lia|]. cbn. by rewrite <- app_assoc.
  - intros [= <-]. exists [fs]. split_and!; [by eapply chain_last; [|left]|cbn; lia|].
    cbn. by rewrite app_nil_r.
Qed.

Lemma list_pages_complete get tok pages n all :
  page_chain get tok pages ->
  list_pages list_json error_json get n tok all =
    if (length pages <=? n)%nat then Ok (all ++ concat pages) else Err aborted.
Proof.
  intros Hc. revert n all. induction Hc as [tok rows next E Hn|tok rows t rest E Ht Hc IH];
    intros [|n] all; cbn [list_pages length Nat.leb]; [done| |done|]; rewrite E; cbn [res_bind].
  - cbn. rewrite app_nil_r. destruct Hn as [-> | ->]; done.
  - rewrite bool_decide_false by done. rewrite IH. cbn. by rewrite <- app_assoc.
Qed.

(** A listing succeeds exactly when Drive's chain of pages ends within
    [MAX_PAGES] pages, every one of which was fetched and decoded, and it then returns
    the rows of all of them in order: no page is skipped and no truncated listing is ever
    returned as a success.  A longer chain is an error. *)
Theorem listing_complete get folder_id name_prefix since all :
  let g := get (build_list_query_since folder_id name_prefix since) in
  let listing := list_files_in_folder_since list_json error_json get folder_id name_prefix since in
  (listing = Ok all <->
     exists pages, page_chain g None pages /\ (length pages <= MAX_PAGES)%nat /\ all = concat pages)
  /\ (forall pages, page_chain g None pages -> (MAX_PAGES < length pages)%nat -> listing = Err aborted).
Proof.
  cbn zeta. unfold list_files_in_folder_since. split; [split|].
  - intros (pages & Hc & Hl & ->)%list_pages_sound. eauto.
  - intros (pages & Hc & Hl & ->). rewrite (list_pages_complete _ _ pages) by done.
    by apply Nat.leb_le in Hl as ->.
  - intros pages Hc Hl. rewrite (list_pages_complete _ _ pages) by done.
    by apply Nat.leb_gt in Hl as ->.
Qed.

(** ** Downloads *)
Lemma read_chunks_spec fid max cs total body r :
  0 <= total -> max < u64_max -> len body = total ->
  read_chunks fid max cs total body = Ok r -> total <= max ->
  r = body ++ concat cs /\ len r <= max.
Proof.
  intros H0 Hmax. revert total body H0. induction cs as [|c cs IH]; intros total body H0 Hb; cbn [read_chunks].
  { intros [= <-] Hm. cbn. rewrite app_nil_r. split; [done|lia]. }
  pose proof (len_nonneg c). unfold ensure_body_within_limit.
  destruct (Z.ltb_spec max (saturating_add_u64 total (len c))) as [|Hle]; cbn [res_bind]; [done|].
  unfold saturating_add_u64 in *.
  intros Hr Hm. destruct (IH (Z.min (total + len c) u64_max) (body ++ c)) as [-> Hlen];
    [lia|rewrite len_app; lia|done|lia|]. split; [|done]. cbn. by rewrite <- app_assoc.
Qed.

(** A download that succeeds is the whole stream and within the caller's limit. *)
Theorem download_bounded fid max x cl st body :
  0 <= max < u64_max -> download_file error_json fid max x cl st = Ok body ->
  body = concat (chunks st) /\ len body <= max /\ broken st = false.
Proof.
  intros Hm. unfold download_file. destruct x as [|status text]; [done|].
  case_match; [done|]. destruct (match cl with Some _ => _ | None => _ end) as [|e|]; [|done..].
  cbn [res_bind]. destruct (read_chunks fid max (chunks st) 0 []) as [r|e|] eqn:Hr; cbn [res_bind]; [|done..].
  case_match; [done|]. intros [= <-].
  destruct (read_chunks_spec fid max (chunks st) 0 [] r) as [-> ?]; [lia..|done|done|lia|]. done.
Qed.
End Paging.

(** Two pages: the decoder and the server of a small example. *)
Definition sample_list_json (body : str) : ListResponseJson + str :=
  if bool_decide (body = [1]) then inl (mkListJson [mkEntryJson [97] [110] None None] (Some [116]))
  else if bool_decide (body = [2]) then inl (mkListJson [mkEntryJson [98] [109] None (Some [55])] None)
  else inr [].
Definition sample_error_json (_ : str) : option ErrorInnerJson := None.
Definition sample_get (_ : str) (tok : option str) : Exchange :=
  match tok with None => Response 200 [1] | Some _ => Response 200 [2] end.

Lemma listing_complete_witness :
  list_files_in_folder_since sample_list_json sample_error_json sample_get [102] [] None
  = Ok [mkFile [97] [110] None None; mkFile [98] [109] None (Some 7)].
Proof.
  apply (proj1 (listing_complete sample_list_json sample_error_json sample_get [102] [] None
    [mkFile [97] [110] None None; mkFile [98] [109] None (Some 7)])).
  exists [[mkFile [97] [110] None None]; [mkFile [98] [109] None (Some 7)]].
  split; [|split; [unfold MAX_PAGES; cbn; lia|reflexivity]].
  apply (chain_more _ _ _ None [mkFile [97] [110] None None] [116]); [reflexivity|done|].
  apply (chain_last _ _ _ (Some [116]) [mkFile [98] [109] None (Some 7)] None); [reflexivity|by left].
Defined.
