(* ===== verification/Reorder.v ===== *)
(** * Sequence-ordered buffers

    The tunnel node reorders uploads by [wseq] and the tunnel client reorders replies by
    [seq] in the same way: an item that carries the expected number is delivered at once,
    followed by whatever the buffer holds next in line; any other waits in a
    [BTreeMap<u64, _>].  A [BTreeMap] is the list of its entries in increasing key order. *)

From stdpp Require Import prelude sorting.
From S2P Require Import Prelude.
#[local] Open Scope Z_scope.

Section BTree.
Context {A : Type}.

Definition BTreeMap : Type := list (Z * A).

(** [BTreeMap::insert]: an existing key keeps its place and gets the new value. *)
Fixpoint bt_insert (k : Z) (v : A) (m : BTreeMap) : BTreeMap :=
  match m with
  | [] => [(k, v)]
  | (k', v') :: r =>
    if k <? k' then (k, v) :: m
    else if k =? k' then (k, v) :: r
    else (k', v') :: bt_insert k v r
  end.

(** [while let Some(entry) = m.first_entry()], as long as the key is the expected one:
    the values taken, the number expected next and the map left. *)
Fixpoint bt_flush (expected : Z) (m : BTreeMap) : list A * Z * BTreeMap :=
  match m with
  | [] => ([], expected, [])
  | (k, v) :: r =>
    if negb (k =? expected) then ([], expected, m)
    else let '(out, e, m') := bt_flush (expected + 1) r in (v :: out, e, m')
  end.

Definition keys (m : BTreeMap) : list Z := fst <$> m.

(** Keys in increasing order, all at least [lo]. *)
Fixpoint bt_sorted (lo : Z) (m : BTreeMap) : Prop :=
  match m with [] => True | (k, _) :: r => lo <= k /\ bt_sorted (k + 1) r end.

Lemma bt_sorted_weaken lo lo' m : lo' <= lo -> bt_sorted lo m -> bt_sorted lo' m.
Proof. destruct m as [|[k v] r]; [done|]. cbn. intros ? [? ?]. split; [lia|done]. Qed.

Lemma bt_sorted_keys lo m k : bt_sorted lo m -> k ∈ keys m -> lo <= k.
Proof.
  revert lo. induction m as [|[k' v] r IH]; intros lo Hs Hk; cbn in *; [by apply elem_of_nil in Hk|].
  destruct Hs as [? Hs]. apply elem_of_cons in Hk as [->|Hk]; [done|]. specialize (IH _ Hs Hk). lia.
Qed.

Lemma bt_insert_sorted lo k v m : lo <= k -> bt_sorted lo m -> bt_sorted lo (bt_insert k v m).
Proof.
  revert lo. induction m as [|[k' v'] r IH]; intros lo Hk Hs; cbn in *; [lia|].
  destruct Hs as [Hlo Hs].
  destruct (Z.ltb_spec k k'); [cbn; split_and!; [lia..|done]|].
  destruct (Z.eqb_spec k k') as [->|]; [cbn; split; [lia|done]|].
  cbn. split; [lia|]. apply IH; [lia|done].
Qed.

Lemma elem_of_bt_insert k v m x w :
  (x, w) ∈ bt_insert k v m -> (x = k /\ w = v) \/ (x, w) ∈ m.
Proof.
  induction m as [|[k' v'] r IH]; cbn; [intros ?%list_elem_of_singleton; left; by simplify_eq|].
  destruct (k <? k'); [intros [?|?]%elem_of_cons; [left; by simplify_eq|by right]|].
  destruct (k =? k').
  - intros [?|?]%elem_of_cons; [left; by simplify_eq|right]. apply elem_of_cons. by right.
  - intros [?|Hr]%elem_of_cons; [right; apply elem_of_cons; by left|].
    destruct (IH Hr); [by left|right; apply elem_of_cons; by right].
Qed.

Lemma keys_bt_insert k v m x : x ∈ keys (bt_insert k v m) <-> x = k \/ x ∈ keys m.
Proof.
  induction m as [|[k' v'] r IH]; cbn; [rewrite list_elem_of_singleton, elem_of_nil; tauto|].
  destruct (k <? k'); [cbn; by rewrite !elem_of_cons|].
  destruct (Z.eqb_spec k k') as [->|]; cbn; rewrite !elem_of_cons; [tauto|].
  change (fst <$> bt_insert k v r) with (keys (bt_insert k v r)). rewrite IH.
  change (fst <$> r) with (keys r). tauto.
Qed.

(** ** Delivery in order of a log

    [log] is what the sender numbered 0, 1, 2, ...; [delivered] is what the receiver has
    passed on, [e] the number it expects, [m] what it holds back. *)
Record in_order (log delivered : list A) (e : Z) (m : BTreeMap) : Prop := {
  io_expected : 0 <= e;
  io_delivered : delivered = take (Z.to_nat e) log;
  io_length : e <= Z.of_nat (length log);
  io_sorted : bt_sorted (e + 1) m;
  io_honest : forall k v, (k, v) ∈ m -> log !! Z.to_nat k = Some v
}.

Lemma in_order_start log : in_order log [] 0 [].
Proof. constructor; cbn; try lia; [done|]. by intros k v ?%elem_of_nil. Qed.

(** Delivering the expected item and flushing. *)
Lemma flush_in_order log e m : 0 <= e -> e <= Z.of_nat (length log) -> bt_sorted e m ->
  (forall k v, (k, v) ∈ m -> log !! Z.to_nat k = Some v) ->
  let '(out, e', m') := bt_flush e m in
  in_order log (take (Z.to_nat e) log ++ out) e' m' /\ e <= e'
  /\ (forall k, k ∈ keys m <-> e <= k < e' \/ k ∈ keys m').
Proof.
  revert e. induction m as [|[k v] r IH]; intros e He Hle Hs Hh; cbn.
  { split_and!; [|lia|intros k; rewrite elem_of_nil; lia]. constructor; cbn; try done. by rewrite app_nil_r. }
  destruct (Z.eqb_spec k e) as [->|Hne]; cbn [negb].
  - destruct Hs as [_ Hs].
    assert (log !! Z.to_nat e = Some v) as Hv by (apply Hh, list_elem_of_here).
    specialize (IH (e + 1)). pose proof (lookup_lt_Some _ _ _ Hv).
    destruct (bt_flush (e + 1) r) as [[out e'] m'].
    destruct IH as (Hio & Hee & Hk); [lia|lia|done|intros; apply Hh; apply elem_of_cons; by right|].
    split_and!; [|lia|].
    + replace (take (Z.to_nat e) log ++ v :: out) with (take (Z.to_nat (e + 1)) log ++ out); [done|].
      replace (Z.to_nat (e + 1)) with (S (Z.to_nat e)) by lia.
      rewrite (take_S_r _ _ v) by done. by rewrite <- app_assoc.
    + intros x. cbn. rewrite elem_of_cons. change (fst <$> r) with (keys r). rewrite Hk.
      pose proof (bt_sorted_keys _ _ x (io_sorted _ _ _ _ Hio)). split; [intros [->|[?|?]]; [left; lia|left; lia|auto]|].
      intros [?|?]; [|auto]. destruct (decide (x = e)); [auto|right; left; lia].
  - split_and!; [|lia|intros x; cbn; lia || (split; [auto|intros [?|?]; [lia|done]])].
    constructor; try done; [by rewrite app_nil_r|].
    cbn in Hs |- *. destruct Hs. split; [lia|done].
Qed.

(** What the receiver has seen so far. *)
Definition seen (e : Z) (m : BTreeMap) (k : Z) : Prop := 0 <= k < e \/ k ∈ keys m.

(** Nothing is held back for ever: once the first [n] items have been seen, they have all
    been delivered. *)
Lemma in_order_complete log d e m n :
  in_order log d e m -> (forall k, 0 <= k < n -> seen e m k) -> n <= e.
Proof.
  intros [He _ _ Hs _] Hseen. destruct (Z.le_gt_cases n e); [done|].
  destruct (Hseen e) as [?|Hk]; [lia..|]. pose proof (bt_sorted_keys _ _ _ Hs Hk). lia.
Qed.
End BTree.
Arguments BTreeMap : clear implicits.
