(* ===== verification/NodeSession.v ===== *)
(** * tunnel-node/src/main.rs: one tunnel session

    The state a session shares between its reader task and the request handlers
    ([SessionInner], [UdpSessionInner]) and the operations on it: what the reader appends,
    [drain_now], [wait_and_drain], the ordered write of a [data] op, and the UDP queue.
    Each operation is one critical section of the code.  Notifications only decide when a
    waiter looks again and are left out; clocks are arguments (seconds).

    The peer of a writer may stop accepting at any point: [w_room] is how many more bytes
    it takes ([None]: no limit).  The fields of [SessionHist] are history: what was read
    from upstream, what was handed to responses, what was handed to the writer. *)

From stdpp Require Import prelude.
From S2P Require Import Prelude RustStr Reorder.
#[local] Open Scope Z_scope.

Definition TCP_DRAIN_MAX_BYTES : Z := 16 * 1024 * 1024.
Definition READ_BUF_CAP : Z := 16 * 1024 * 1024.
Definition READER_CHUNK : Z := 256 * 1024.
Definition MAX_PENDING_WRITES_PER_SESSION : Z := 32.
Definition MAX_PENDING_WRITE_BYTES_PER_SESSION : Z := 16 * 1024 * 1024.
Definition UDP_QUEUE_LIMIT : Z := 256.
Definition UDP_RECV_BUF_BYTES : Z := 65536.

(** ** Writers *)
Record SessionWriter := mkWriter { w_out : bytes; w_room : option nat }.

(** [write_all]: the writer after it, and whether it succeeded. *)
Definition write_all (b : bytes) (w : SessionWriter) : SessionWriter * bool :=
  match w_room w with
  | None => (mkWriter (w_out w ++ b) None, true)
  | Some n =>
    if (length b <=? n)%nat then (mkWriter (w_out w ++ b) (Some (n - length b)%nat), true)
    else (mkWriter (w_out w ++ take n b) (Some 0%nat), false)
  end.

(** ** Sessions *)
Record SessionHist := mkHist {
  h_read : bytes;        (** bytes the reader task received *)
  h_shipped : bytes;     (** bytes taken out of the buffer for responses *)
  h_intended : bytes;    (** bytes passed to [write_all] *)
}.

Record SessionInner := mkSession {
  writer : SessionWriter;
  read_buf : bytes;
  eof : bool;
  last_active : Z;
  buf_len : Z;
  next_write_seq : option Z;
  pending_writes : BTreeMap bytes;
  hist : SessionHist
}.

Definition session_new (w : SessionWriter) (now : Z) : SessionInner :=
  mkSession w [] false now 0 None [] (mkHist [] [] []).

Definition set_reading (b : bytes) (e : bool) (n : Z) (h : SessionHist) (s : SessionInner) : SessionInner :=
  mkSession (writer s) b e (last_active s) n (next_write_seq s) (pending_writes s) h.

Definition touch (now : Z) (s : SessionInner) : SessionInner :=
  mkSession (writer s) (read_buf s) (eof s) now (buf_len s) (next_write_seq s) (pending_writes s) (hist s).

(** *** The reader task *)

(** One turn: it waits while the buffer is full ([None]), then appends what it read. *)
Definition reader_append (b : bytes) (s : SessionInner) : option SessionInner :=
  if READ_BUF_CAP <=? len (read_buf s) then None
  else if eof s || bool_decide (b = []) || (READER_CHUNK <? len b) then None
  else
    let rb := read_buf s ++ b in
    Some (set_reading rb (eof s) (len rb)
            (mkHist (h_read (hist s) ++ b) (h_shipped (hist s)) (h_intended (hist s))) s).

(** A read of no bytes or an error. *)
Definition reader_eof (s : SessionInner) : SessionInner :=
  set_reading (read_buf s) true (buf_len s) (hist s) s.

(** *** Drains *)

(** [raw_eof] is the flag as loaded before the buffer is locked: the reader may have set
    it since. *)
Definition drain_now (raw_eof : bool) (max_bytes : Z) (s : SessionInner) : bytes * bool * SessionInner :=
  let cap := Z.min max_bytes TCP_DRAIN_MAX_BYTES in
  let '(data, rest, was_partial) :=
    if len (read_buf s) <=? cap then (read_buf s, [], false)
    else (take (Z.to_nat cap) (read_buf s), drop (Z.to_nat cap) (read_buf s), true) in
  (data, (if was_partial then false else raw_eof),
   set_reading rest (eof s) (len rest)
     (mkHist (h_read (hist s)) (h_shipped (hist s) ++ data) (h_intended (hist s))) s).

(** The take at the end of [wait_and_drain]; the loop before it only waits. *)
Definition wait_and_drain (s : SessionInner) : bytes * bool * SessionInner :=
  (read_buf s, eof s,
   set_reading [] (eof s) 0
     (mkHist (h_read (hist s)) (h_shipped (hist s) ++ read_buf s) (h_intended (hist s))) s).

Definition is_drainable (s : SessionInner) : bool := eof s || negb (bool_decide (read_buf s = [])).

(** *** Uploads *)
Definition session_write (b : bytes) (s : SessionInner) : SessionInner * bool :=
  let '(w, ok) := write_all b (writer s) in
  (mkSession w (read_buf s) (eof s) (last_active s) (buf_len s) (next_write_seq s) (pending_writes s)
     (mkHist (h_read (hist s)) (h_shipped (hist s)) (h_intended (hist s) ++ b)), ok).

(** Several writes whose results are ignored. *)
Definition session_writes (bs : list bytes) (s : SessionInner) : SessionInner :=
  fold_left (fun s b => fst (session_write b s)) bs s.

Definition set_pending (e : Z) (m : BTreeMap bytes) (s : SessionInner) : SessionInner :=
  mkSession (writer s) (read_buf s) (eof s) (last_active s) (buf_len s) (Some e) m (hist s).

Inductive WriteOutcome := Accepted | CapExceeded.

Definition pending_bytes (m : BTreeMap bytes) : Z := foldr (fun p n => len (snd p) + n) 0 m.

(** The write of a [data] op whose payload decoded to the non-empty [b]. *)
Definition data_write (wseq : option Z) (b : bytes) (s : SessionInner) : SessionInner * WriteOutcome :=
  match wseq with
  | None => (fst (session_write b s), Accepted)
  | Some q =>
    let expected := match next_write_seq s with Some e => e | None => 0 end in
    if q <? expected then (set_pending expected (pending_writes s) s, Accepted)
    else if q =? expected then
      let s := fst (session_write b s) in
      let '(out, e, m) := bt_flush (expected + 1) (pending_writes s) in
      (set_pending e m (session_writes out s), Accepted)
    else if (MAX_PENDING_WRITES_PER_SESSION <=? Z.of_nat (length (pending_writes s)))
            || (MAX_PENDING_WRITE_BYTES_PER_SESSION <? pending_bytes (pending_writes s) + len b)
    then (set_pending expected (pending_writes s) s, CapExceeded)
    else (set_pending expected (bt_insert q b (pending_writes s)) s, Accepted)
  end.

(** ** UDP sessions *)
Record UdpSessionInner := mkUdp {
  packets : list bytes;
  u_last_active : Z;
  u_eof : bool;
  pkt_count : Z;
  queue_drops : Z;
  u_received : list bytes;   (** history: datagrams received *)
  u_delivered : list bytes;  (** history: datagrams handed to responses *)
  u_sent : list bytes        (** history: datagrams sent *)
}.

Definition udp_new (now : Z) : UdpSessionInner := mkUdp [] now false 0 0 [] [] [].

(** One turn of [udp_reader_task]. *)
Definition udp_reader_recv (now : Z) (p : bytes) (u : UdpSessionInner) : UdpSessionInner :=
  if u_eof u then u
  else if bool_decide (p = []) then u
  else
    let full := UDP_QUEUE_LIMIT <=? Z.of_nat (length (packets u)) in
    let q := (if full then drop 1 (packets u) else packets u) ++ [take (Z.to_nat UDP_RECV_BUF_BYTES) p] in
    mkUdp q now false (Z.of_nat (length q)) (if full then wrap 64 (queue_drops u + 1) else queue_drops u)
      (u_received u ++ [take (Z.to_nat UDP_RECV_BUF_BYTES) p]) (u_delivered u) (u_sent u).

Definition udp_reader_error (u : UdpSessionInner) : UdpSessionInner :=
  mkUdp (packets u) (u_last_active u) true (pkt_count u) (queue_drops u) (u_received u) (u_delivered u) (u_sent u).

Definition drain_udp_now (u : UdpSessionInner) : list bytes * bool * UdpSessionInner :=
  (packets u, u_eof u,
   mkUdp [] (u_last_active u) (u_eof u) 0 (queue_drops u) (u_received u) (u_delivered u ++ packets u) (u_sent u)).

Definition udp_send (b : bytes) (u : UdpSessionInner) : UdpSessionInner :=
  mkUdp (packets u) (u_last_active u) (u_eof u) (pkt_count u) (queue_drops u) (u_received u)
    (u_delivered u) (u_sent u ++ [b]).

Definition udp_touch (now : Z) (u : UdpSessionInner) : UdpSessionInner :=
  mkUdp (packets u) now (u_eof u) (pkt_count u) (queue_drops u) (u_received u) (u_delivered u) (u_sent u).

(** ** Invariant *)

(** The number the session expects next, and the numbers it has taken in. *)
Definition expected (s : SessionInner) : Z :=
  match next_write_seq s with Some e => e | None => 0 end.
Definition has_seen (s : SessionInner) (k : Z) : Prop := seen (expected s) (pending_writes s) k.

(** The download side loses and reorders nothing, and the buffer is bounded. *)
Record read_ok (s : SessionInner) : Prop := {
  ro_stream : h_read (hist s) = h_shipped (hist s) ++ read_buf s;
  ro_len : buf_len s = len (read_buf s);
  ro_bound : len (read_buf s) < READ_BUF_CAP + READER_CHUNK
}.

(** The upload side, against the chunks [log] the client numbered from 0 after the
    [initial] bytes sent with the connect. *)
Record write_ok (initial : bytes) (log : list bytes) (s : SessionInner) : Prop := {
  wo_out : w_out (writer s) `prefix_of` h_intended (hist s);
  wo_room : w_room (writer s) <> Some 0%nat -> w_out (writer s) = h_intended (hist s);
  wo_order : exists done,
    in_order log done (expected s) (pending_writes s)
    /\ h_intended (hist s) = initial ++ concat done;
  wo_count : Z.of_nat (length (pending_writes s)) <= MAX_PENDING_WRITES_PER_SESSION;
  wo_bytes : pending_bytes (pending_writes s) <= MAX_PENDING_WRITE_BYTES_PER_SESSION
}.

(** ** Downloads *)
Lemma read_ok_new w now : read_ok (session_new w now).
Proof. by constructor. Qed.

Lemma reader_append_ok b s s' : reader_append b s = Some s' -> read_ok s -> read_ok s'.
Proof.
  unfold reader_append. repeat case_match; [done..|]. intros [= <-] [Hs Hl Hb].
  constructor; cbn; [by rewrite Hs, app_assoc|done|]. rewrite len_app. apply Z.leb_gt in H.
  apply orb_false_iff in H0 as [_ Hc]. apply Z.ltb_ge in Hc. lia.
Qed.

Lemma reader_eof_ok s : read_ok s -> read_ok (reader_eof s).
Proof. by intros []. Qed.

(** A drain takes a prefix of the buffer within its budget, ships exactly what it takes,
    and says that the stream ended only when it did and nothing is left. *)
Lemma drain_now_ok raw max s d e s' :
  0 <= max -> (raw = true -> eof s = true) -> drain_now raw max s = (d, e, s') -> read_ok s ->
  read_ok s' /\ h_shipped (hist s') = h_shipped (hist s) ++ d /\ h_read (hist s') = h_read (hist s)
  /\ len d <= Z.min max TCP_DRAIN_MAX_BYTES /\ eof s' = eof s
  /\ (e = true -> eof s = true /\ read_buf s' = []).
Proof.
  intros Hmax Hraw. unfold drain_now. set (cap := Z.min max TCP_DRAIN_MAX_BYTES).
  assert (0 <= cap) by (unfold cap, TCP_DRAIN_MAX_BYTES; lia).
  destruct (Z.leb_spec (len (read_buf s)) cap) as [Hle|Hgt]; intros [= <- <- <-] [Hs Hl Hb]; cbn.
  - split_and!; try done; [constructor; cbn; [by rewrite app_nil_r|done|by compute]|].
    intros ->. auto.
  - split_and!; try done.
    + constructor; cbn; [by rewrite Hs, <- app_assoc, take_drop|done|].
      unfold len in *. rewrite length_drop. lia.
    + unfold len. rewrite length_take. lia.
Qed.

Lemma wait_and_drain_ok s d e s' :
  wait_and_drain s = (d, e, s') -> read_ok s ->
  read_ok s' /\ h_shipped (hist s') = h_shipped (hist s) ++ d /\ h_read (hist s') = h_read (hist s)
  /\ eof s' = eof s /\ (e = true -> eof s = true /\ read_buf s' = []).
Proof.
  intros [= <- <- <-] [Hs Hl Hb]; cbn. split_and!; try done.
  constructor; cbn; [by rewrite app_nil_r|done|by compute].
Qed.

(** ** Uploads *)
Lemma prefix_of_app_l' {A} (l k m : list A) : l `prefix_of` k -> l `prefix_of` k ++ m.
Proof. intros [x ->]. exists (x ++ m). by rewrite app_assoc. Qed.

Lemma concat_prefix {A} (l k : list (list A)) : l `prefix_of` k -> concat l `prefix_of` concat k.
Proof. intros [x ->]. rewrite concat_app. by apply prefix_app_r. Qed.

(** What a writer put on its socket, against the bytes it was given: all of them, unless
    the peer stopped accepting, and then a prefix. *)
Definition wrote (w : SessionWriter) (given : bytes) : Prop :=
  w_out w `prefix_of` given /\ (w_room w <> Some 0%nat -> w_out w = given).

Lemma write_all_wrote b w given : wrote w given -> wrote (fst (write_all b w)) (given ++ b).
Proof.
  intros [Hp Hr]. unfold write_all. destruct (w_room w) as [n|] eqn:En; cbn.
  - destruct (Nat.leb_spec (length b) n) as [Hle|Hgt]; unfold wrote; cbn.
    + destruct (decide (n = 0%nat)) as [->|Hn].
      * assert (b = []) as -> by (destruct b; [done|cbn in Hle; lia]). rewrite !app_nil_r. done.
      * rewrite Hr by congruence. done.
    + split; [|done]. destruct (decide (n = 0%nat)) as [->|Hn].
      * cbn. rewrite app_nil_r. by apply prefix_of_app_l'.
      * rewrite Hr by congruence. apply prefix_app. exists (drop n b). by rewrite take_drop.
  - unfold wrote; cbn. rewrite Hr by done. done.
Qed.

(** The writer's side of [write_ok]. *)
Definition writer_ok (s : SessionInner) : Prop := wrote (writer s) (h_intended (hist s)).

Lemma session_write_ok b s : writer_ok s -> writer_ok (fst (session_write b s)).
Proof.
  intros Hw. apply (write_all_wrote b) in Hw. unfold writer_ok, session_write.
  by destruct (write_all b (writer s)).
Qed.

Lemma session_write_intended b s :
  h_intended (hist (fst (session_write b s))) = h_intended (hist s) ++ b.
Proof. unfold session_write. by destruct (write_all b (writer s)). Qed.

(** Everything but the writer and the history of intended bytes. *)
Definition same_reading (s s' : SessionInner) : Prop :=
  read_buf s' = read_buf s /\ eof s' = eof s /\ buf_len s' = buf_len s
  /\ h_read (hist s') = h_read (hist s) /\ h_shipped (hist s') = h_shipped (hist s).

Lemma session_write_frame b s :
  same_reading s (fst (session_write b s))
  /\ next_write_seq (fst (session_write b s)) = next_write_seq s
  /\ pending_writes (fst (session_write b s)) = pending_writes s.
Proof. unfold session_write, same_reading. by destruct (write_all b (writer s)). Qed.

Lemma same_reading_refl s : same_reading s s.
Proof. done. Qed.

Lemma same_reading_trans s1 s2 s3 : same_reading s1 s2 -> same_reading s2 s3 -> same_reading s1 s3.
Proof. unfold same_reading. intros (?&?&?&?&?) (?&?&?&?&?). split_and!; congruence. Qed.

Lemma session_writes_ok bs s : writer_ok s ->
  writer_ok (session_writes bs s) /\ same_reading s (session_writes bs s)
  /\ h_intended (hist (session_writes bs s)) = h_intended (hist s) ++ concat bs.
Proof.
  revert s. induction bs as [|b bs IH]; intros s Hs; cbn; [rewrite app_nil_r; by split_and!|].
  destruct (IH (fst (session_write b s))) as (H1 & H2 & H3); [by apply session_write_ok|].
  split_and!; [done| |].
  - eapply same_reading_trans; [apply session_write_frame|done].
  - unfold session_writes in H3. rewrite H3, session_write_intended. by rewrite <- app_assoc.
Qed.

Lemma same_reading_read_ok s s' : same_reading s s' -> read_ok s -> read_ok s'.
Proof. intros (E1 & E2 & E3 & E4 & E5) []. constructor; congruence. Qed.

Lemma pending_bytes_insert k b m : pending_bytes (bt_insert k b m) <= pending_bytes m + len b.
Proof.
  induction m as [|[k' b'] r IH]; cbn; [lia|]. pose proof (len_nonneg b').
  destruct (k <? k'); [cbn; lia|]. destruct (k =? k'); cbn; unfold pending_bytes in *; lia.
Qed.

Lemma length_bt_insert {A} k (b : A) m : (length (bt_insert k b m) <= S (length m))%nat.
Proof.
  induction m as [|[k' b'] r IH]; cbn; [lia|].
  destruct (k <? k'); [done|]. destruct (k =? k'); cbn; lia.
Qed.

Lemma bt_flush_bounds e m out e' m' : bt_flush e m = (out, e', m') ->
  (length m' <= length m)%nat /\ pending_bytes m' <= pending_bytes m.
Proof.
  revert e out. induction m as [|[k b] r IH]; intros e out; cbn; [by intros [= <- <- <-]|].
  destruct (negb (k =? e)); [by intros [= <- <- <-]|].
  destruct (bt_flush (e + 1) r) as [[o e1] m1] eqn:E. intros [= <- <- <-].
  destruct (IH _ _ E). pose proof (len_nonneg b). unfold pending_bytes in *. cbn. split; lia.
Qed.

(** An ordered write keeps both sides' invariants, whatever number it carries. *)
Lemma data_write_ok initial log q b s s' r :
  log !! Z.to_nat q = Some b -> 0 <= q -> write_ok initial log s ->
  data_write (Some q) b s = (s', r) ->
  write_ok initial log s' /\ same_reading s s'
  /\ (r = Accepted -> has_seen s' q) /\ (forall k, has_seen s k -> has_seen s' k).
Proof.
  intros Hq Hq0 [Hp Hr (done & Hio & Hi) Hc Hb]. unfold data_write.
  fold (expected s). unfold has_seen. set (e := expected s) in *.
  pose proof (io_expected _ _ _ _ Hio) as He. pose proof (io_sorted _ _ _ _ Hio) as Hsrt.
  destruct (Z.ltb_spec q e) as [Hlt|Hge].
  { intros [= <- <-]. split_and!; [|done|intros _; left; cbn; lia|done].
    constructor; cbn; try done. exists done. split; done. }
  destruct (Z.eqb_spec q e) as [->|Hne].
  - set (s1 := fst (session_write b s)).
    destruct (session_write_frame b s) as (Hsr & _ & Hpw). fold s1 in Hsr, Hpw. rewrite Hpw.
    pose proof (flush_in_order log (e + 1) (pending_writes s)) as Hf.
    pose proof (lookup_lt_Some _ _ _ Hq) as Hlen.
    destruct (bt_flush (e + 1) (pending_writes s)) as [[out e'] m'] eqn:Ef. intros [= <- <-].
    destruct Hf as (Hio' & Hee & Hk); [lia|lia|done|by apply (io_honest _ _ _ _ Hio)|].
    destruct (session_writes_ok out s1) as (Hw1 & Hw2 & Hw3); [by apply session_write_ok|].
    destruct (bt_flush_bounds _ _ _ _ _ Ef) as [Hl1 Hl2].
    destruct Hw1 as [Hw1a Hw1b]. split_and!.
    + constructor; cbn [set_pending writer hist next_write_seq pending_writes]; try done; [|lia|lia]. eexists. split; [exact Hio'|].
      rewrite Hw3. unfold s1. rewrite session_write_intended, Hi, (io_delivered _ _ _ _ Hio).
      replace (Z.to_nat (e + 1)) with (S (Z.to_nat e)) by lia.
      rewrite (take_S_r _ _ b) by done. rewrite !concat_app. cbn. by rewrite app_nil_r, <- !app_assoc.
    + cbn. eapply same_reading_trans; [exact Hsr|exact Hw2].
    + intros _. left. cbn. lia.
    + intros k [?|Hkk]; [left; cbn; lia|]. apply Hk in Hkk as [?|?]; [left; cbn; lia|by right].
  - destruct (_ || _) eqn:Ecap; intros [= <- <-].
    { split_and!; [|done|done|done]. constructor; cbn; try done. exists done. split; done. }
    apply orb_false_iff in Ecap as [E1 E2]. apply Z.leb_gt in E1. apply Z.ltb_ge in E2.
    split_and!; [|done|intros _; right; cbn; apply keys_bt_insert; by left|
      intros k [?|?]; [by left|right; cbn; apply keys_bt_insert; by right]].
    pose proof (length_bt_insert q b (pending_writes s)). pose proof (pending_bytes_insert q b (pending_writes s)).
    constructor; cbn [set_pending writer hist next_write_seq pending_writes]; try done; [|lia|lia].
    assert (bt_sorted (e + 1) (bt_insert q b (pending_writes s))) by (apply bt_insert_sorted; [lia|done]).
    exists done. split; [|done]. destruct Hio. constructor; try done.
    intros k v [[-> ->]|Hkv]%elem_of_bt_insert; [done|auto].
Qed.

(** ** Any interleaving of reader, drains and writes *)
Inductive SessionEvent :=
| SeRead (b : bytes)                     (* the reader task appends *)
| SeEof                                  (* the reader task ends *)
| SeDrain (raw_eof : bool) (max : Z)     (* drain_now of some batch *)
| SeTake                                 (* the end of wait_and_drain *)
| SeWrite (q : Z) (b : bytes)            (* a sequenced data op *)
| SeReject (q : Z) (b : bytes)           (* one that exceeds the buffer caps *)
| SeWriteRaw (b : bytes)                 (* a write that carries no number *)
| SeTouch (now : Z).

(** The session after an event and what a drain took. *)
Definition session_step (s : SessionInner) (ev : SessionEvent)
    : option (SessionInner * option (bytes * bool)) :=
  match ev with
  | SeRead b => (fun s' => (s', None)) <$> reader_append b s
  | SeEof => Some (reader_eof s, None)
  | SeDrain raw max =>
    if (max <? 0) || (raw && negb (eof s)) then None
    else let '(d, e, s') := drain_now raw max s in Some (s', Some (d, e))
  | SeTake => let '(d, e, s') := wait_and_drain s in Some (s', Some (d, e))
  | SeWrite q b =>
    match data_write (Some q) b s with (s', Accepted) => Some (s', None) | _ => None end
  | SeReject q b =>
    match data_write (Some q) b s with (s', CapExceeded) => Some (s', None) | _ => None end
  | SeWriteRaw b => Some (fst (session_write b s), None)
  | SeTouch now => Some (touch now s, None)
  end.

Fixpoint session_run (s : SessionInner) (evs : list SessionEvent)
    : option (SessionInner * list (bytes * bool)) :=
  match evs with
  | [] => Some (s, [])
  | ev :: evs =>
    '(s, o) ← session_step s ev;
    '(s, os) ← session_run s evs;
    Some (s, option_list o ++ os)
  end.

(** The uploads among the events are chunks of [log], by their numbers. *)
Definition from_log (log : list bytes) (ev : SessionEvent) : Prop :=
  match ev with
  | SeWrite q b | SeReject q b => 0 <= q /\ log !! Z.to_nat q = Some b
  | SeWriteRaw _ => False
  | _ => True
  end.

(** Fresh session to which the connect's first bytes were written. *)
Definition session_open (w : SessionWriter) (now : Z) (initial : bytes) : SessionInner :=
  fst (session_write initial (session_new w now)).

Lemma session_open_ok n now initial log :
  let s := session_open (mkWriter [] n) now initial in read_ok s /\ write_ok initial log s.
Proof.
  cbn zeta. assert (writer_ok (session_new (mkWriter [] n) now)) as Hw by (split; [by exists []|done]).
  pose proof (session_write_ok initial _ Hw) as [H1 H2].
  destruct (session_write_frame initial (session_new (mkWriter [] n) now)) as (Hf & Hn & Hp).
  fold (session_open (mkWriter [] n) now initial) in *. split.
  - eapply same_reading_read_ok; [exact Hf|apply read_ok_new].
  - constructor; try done.
    + exists []. unfold expected. rewrite Hn, Hp. split; [apply in_order_start|].
      unfold session_open. rewrite session_write_intended. cbn. by rewrite app_nil_r.
    + rewrite Hp. by compute.
    + rewrite Hp. by compute.
Qed.

Lemma write_ok_frame initial log s s' :
  writer s' = writer s -> next_write_seq s' = next_write_seq s -> pending_writes s' = pending_writes s ->
  h_intended (hist s') = h_intended (hist s) -> write_ok initial log s -> write_ok initial log s'.
Proof. intros E1 E2 E3 E4 []. unfold expected in *. constructor; unfold expected; rewrite ?E1, ?E2, ?E3, ?E4; done. Qed.

(** A [data] op leaves the reading side alone. *)
Lemma data_write_reading wseq b s s' r : data_write wseq b s = (s', r) -> same_reading s s'.
Proof.
  assert (forall e m x, same_reading s x -> same_reading s (set_pending e m x)) as Hset by done.
  assert (forall bs x, same_reading s x -> same_reading s (session_writes bs x)) as Hws.
  { induction bs as [|c bs IH]; intros x Hx; [done|]. apply IH. eapply same_reading_trans; [done|apply session_write_frame]. }
  pose proof (proj1 (session_write_frame b s)) as Hw. unfold data_write.
  destruct wseq as [q|]; [|by intros [= <- <-]].
  repeat case_match; intros [= <- <-]; auto using same_reading_refl.
Qed.

(** The reading side of an event. *)
Lemma session_step_read_ok s ev s' o : session_step s ev = Some (s', o) -> read_ok s ->
  read_ok s'
  /\ h_shipped (hist s') = h_shipped (hist s) ++ match o with Some (d, _) => d | None => [] end
  /\ h_read (hist s') = h_read (hist s) ++ match ev with SeRead b => b | _ => [] end
  /\ (forall d, o = Some (d, true) -> eof s' = true /\ read_buf s' = [])
  /\ (eof s = true -> eof s' = true).
Proof.
  assert (forall s', same_reading s s' -> read_ok s -> read_ok s' /\ h_shipped (hist s') = h_shipped (hist s) ++ []
    /\ h_read (hist s') = h_read (hist s) ++ [] /\ (forall d : bytes, None = Some (d, true) -> eof s' = true /\ read_buf s' = [])
    /\ (eof s = true -> eof s' = true)) as Hsame.
  { intros s1 Hsr Hr. rewrite !app_nil_r. pose proof (same_reading_read_ok _ _ Hsr Hr).
    destruct Hsr as (E1 & E2 & E3 & E4 & E5). split_and!; try done. by rewrite E2. }
  intros Hs Hr.
  destruct ev as [b| |raw max| |q b|q b|b|now]; cbn [session_step fmap option_fmap option_map] in Hs.
  - destruct (reader_append b s) as [s1|] eqn:E; [|done]. injection Hs as <- <-.
    pose proof (reader_append_ok b s s1 E Hr) as Hr'. revert E. unfold reader_append.
    repeat case_match; try done. intros [= <-]. rewrite app_nil_r. by split_and!.
  - injection Hs as <- <-. rewrite !app_nil_r. split_and!; try done. by apply reader_eof_ok.
  - destruct (_ || _) eqn:Eg; [done|]. apply orb_false_iff in Eg as [Eg1 Eg2]. apply Z.ltb_ge in Eg1.
    destruct (drain_now raw max s) as [[d e] s1] eqn:E. injection Hs as <- <-.
    destruct (drain_now_ok raw max s d e s1) as (H1 & H2 & H3 & _ & H5 & H6); try done.
    { intros ->. by destruct (eof s). }
    rewrite app_nil_r. split_and!; try done; [intros ? [= -> ->]; destruct (H6 eq_refl); split; congruence|congruence].
  - injection Hs as <- <-. destruct (wait_and_drain_ok s (read_buf s) (eof s) _ eq_refl Hr) as (H1 & H2 & H3 & H5 & H6).
    cbn. rewrite app_nil_r. split_and!; try done. intros d [= <- He]. done.
  - destruct (data_write (Some q) b s) as [s1 [|]] eqn:E; [|done].
    injection Hs as <- <-. apply Hsame; [|done]. by eapply data_write_reading.
  - destruct (data_write (Some q) b s) as [s1 [|]] eqn:E; [done|].
    injection Hs as <- <-. apply Hsame; [|done]. by eapply data_write_reading.
  - injection Hs as <- <-. apply Hsame; [apply session_write_frame|done].
  - injection Hs as <- <-. apply Hsame; done.
Qed.

(** Its writing side. *)
Lemma session_step_write_ok initial log s ev s' o :
  session_step s ev = Some (s', o) -> from_log log ev -> write_ok initial log s ->
  write_ok initial log s' /\ (forall k, has_seen s k -> has_seen s' k)
  /\ match ev with SeWrite q _ => has_seen s' q | _ => True end.
Proof.
  intros Hs Hl Hw. assert (forall s', writer s' = writer s -> next_write_seq s' = next_write_seq s ->
    pending_writes s' = pending_writes s -> h_intended (hist s') = h_intended (hist s) ->
    write_ok initial log s' /\ (forall k, has_seen s k -> has_seen s' k) /\ True) as Hsame.
  { intros s1 E1 E2 E3 E4. split_and!; [by apply (write_ok_frame _ _ s)| |done].
    unfold has_seen, expected. by rewrite E2, E3. }
  destruct ev as [b| |raw max| |q b|q b|b|now]; cbn [session_step fmap option_fmap option_map] in Hs.
  - destruct (reader_append b s) as [s1|] eqn:E; [|done]. injection Hs as <- <-.
    revert E. unfold reader_append. repeat case_match; try done. intros [= <-]. by apply Hsame.
  - injection Hs as <- <-. by apply Hsame.
  - destruct (_ || _); [done|]. destruct (drain_now raw max s) as [[d e] s1] eqn:E. injection Hs as <- <-.
    revert E. unfold drain_now. repeat case_match; intros; simplify_eq; by apply Hsame.
  - injection Hs as <- <-. by apply Hsame.
  - destruct Hl as [Hq Hb]. destruct (data_write (Some q) b s) as [s1 [|]] eqn:E; [|done].
    injection Hs as <- <-. destruct (data_write_ok initial log q b s s1 Accepted) as (H1 & _ & H3 & H4); auto.
  - destruct Hl as [Hq Hb]. destruct (data_write (Some q) b s) as [s1 [|]] eqn:E; [done|].
    injection Hs as <- <-. destruct (data_write_ok initial log q b s s1 CapExceeded) as (H1 & _ & H3 & H4); auto.
  - done.
  - injection Hs as <- <-. by apply Hsame.
Qed.

(** The bytes of the reads and of the drains of a run. *)
Definition reads (evs : list SessionEvent) : bytes :=
  evs ≫= fun ev => match ev with SeRead b => b | _ => [] end.
Definition drained (os : list (bytes * bool)) : bytes := os ≫= fst.

Lemma session_run_read_ok evs s s' os : session_run s evs = Some (s', os) -> read_ok s ->
  read_ok s' /\ h_shipped (hist s') = h_shipped (hist s) ++ drained os
  /\ h_read (hist s') = h_read (hist s) ++ reads evs.
Proof.
  revert s os. induction evs as [|ev evs IH]; intros s os Hr Hro; cbn in Hr.
  { injection Hr as <- <-. cbn. by rewrite !app_nil_r. }
  destruct (session_step s ev) as [[s1 o]|] eqn:E1; cbn in Hr; [|done].
  destruct (session_run s1 evs) as [[s2 os2]|] eqn:E2; cbn in Hr; [|done]. injection Hr as <- <-.
  destruct (session_step_read_ok s ev s1 o E1 Hro) as (H1 & H3 & H4 & _).
  destruct (IH s1 os2 E2 H1) as (H5 & H7 & H8). split_and!; [done| |].
  - rewrite H7, H3, <- app_assoc. f_equal. unfold drained. rewrite bind_app. f_equal.
    destruct o as [[d e]|]; cbn; by rewrite ?app_nil_r.
  - rewrite H8, H4, <- app_assoc. done.
Qed.

Lemma session_run_write_ok initial log evs s s' os :
  session_run s evs = Some (s', os) -> Forall (from_log log) evs -> write_ok initial log s ->
  write_ok initial log s'
  /\ (forall k, has_seen s k \/ (exists b, SeWrite k b ∈ evs) -> has_seen s' k).
Proof.
  revert s os. induction evs as [|ev evs IH]; intros s os Hr Hl Hwo; cbn in Hr.
  { injection Hr as <- <-. split; [done|]. intros k [?|[b ?%elem_of_nil]]; done. }
  apply Forall_cons in Hl as [Hl1 Hl2].
  destruct (session_step s ev) as [[s1 o]|] eqn:E1; cbn in Hr; [|done].
  destruct (session_run s1 evs) as [[s2 os2]|] eqn:E2; cbn in Hr; [|done]. injection Hr as <- <-.
  destruct (session_step_write_ok initial log s ev s1 o E1 Hl1 Hwo) as (H2 & Hk & Hq).
  destruct (IH s1 os2 E2 Hl2 H2) as (H6 & H9). split; [done|].
  intros k [Hs|[b [Hb|Hb]%elem_of_cons]]; apply H9; [by left; apply Hk| |right; by exists b].
  left. by subst ev.
Qed.

(** Runs of a new session. *)
Lemma open_run_download room now initial evs s os :
  session_run (session_open (mkWriter [] room) now initial) evs = Some (s, os) ->
  read_ok s /\ reads evs = drained os ++ read_buf s.
Proof.
  intros Hrun. destruct (session_open_ok room now initial []) as [Hr0 _].
  destruct (session_run_read_ok evs _ s os Hrun Hr0) as (Hr & H1 & H2). split; [done|].
  pose proof (ro_stream s Hr) as Hs. rewrite H1, H2 in Hs.
  destruct (session_write_frame initial (session_new (mkWriter [] room) now)) as ((_&_&_&E1&E2)&_).
  unfold session_open in Hs. by rewrite E1, E2 in Hs.
Qed.

Lemma open_run_upload room now initial log evs s os :
  session_run (session_open (mkWriter [] room) now initial) evs = Some (s, os) -> Forall (from_log log) evs ->
  write_ok initial log s /\ w_out (writer s) `prefix_of` initial ++ concat log
  /\ (forall k, (exists b, SeWrite k b ∈ evs) -> has_seen s k).
Proof.
  intros Hrun Hlog. destruct (session_open_ok room now initial log) as [_ Hw0].
  destruct (session_run_write_ok initial log evs _ s os Hrun Hlog Hw0) as (Hw & Hk).
  split_and!; [done| |auto]. destruct Hw as [Hp _ (done & Hio & Hi) _ _].
  etrans; [exact Hp|]. rewrite Hi, (io_delivered _ _ _ _ Hio). apply prefix_app, concat_prefix, prefix_take.
Qed.

(** ** UDP sessions *)
Inductive UdpEvent :=
| UeRecv (now : Z) (p : bytes) | UeError | UeDrain | UeSend (b : bytes) | UeTouch (now : Z).

Definition udp_step (u : UdpSessionInner) (ev : UdpEvent) : UdpSessionInner :=
  match ev with
  | UeRecv now p => udp_reader_recv now p u
  | UeError => udp_reader_error u
  | UeDrain => snd (drain_udp_now u)
  | UeSend b => udp_send b u
  | UeTouch now => udp_touch now u
  end.

(** The queue is bounded, counted, and only ever loses its oldest datagrams. *)
Record udp_ok (u : UdpSessionInner) : Prop := {
  ud_bound : Z.of_nat (length (packets u)) <= UDP_QUEUE_LIMIT;
  ud_count : pkt_count u = Z.of_nat (length (packets u));
  ud_fifo : u_delivered u ++ packets u `sublist_of` u_received u;
  ud_lossless : queue_drops u = 0 -> len (u_received u) < 2 ^ 64 -> u_delivered u ++ packets u = u_received u;
  ud_drops : 0 <= queue_drops u /\ (len (u_received u) < 2 ^ 64 ->
    len (u_delivered u) + len (packets u) + queue_drops u = len (u_received u))
}.

Lemma udp_new_ok now : udp_ok (udp_new now).
Proof. by constructor. Qed.

Lemma udp_step_ok u ev : udp_ok u -> udp_ok (udp_step u ev).
Proof.
  intros [Hb Hc Hf Hl [Hd0 Hd]]. destruct ev as [now p| | |b|now]; cbn; try by constructor.
  - unfold udp_reader_recv. destruct (u_eof u); [by constructor|]. case_bool_decide; [by constructor|].
    set (q := take _ p). destruct (Z.leb_spec UDP_QUEUE_LIMIT (Z.of_nat (length (packets u)))) as [Hfull|Hroom].
    + destruct (packets u) as [|x r]; [by compute in Hfull|]. cbn [drop length] in *. rewrite len_cons in Hd. rewrite drop_0.
      pose proof (len_nonneg (u_delivered u)). pose proof (len_nonneg r).
      constructor; cbn [packets pkt_count u_delivered u_received queue_drops].
      * rewrite length_app. cbn. lia.
      * done.
      * rewrite app_assoc. apply sublist_app; [|done]. etrans; [|exact Hf]. apply sublist_app; [done|]. by apply sublist_cons.
      * rewrite len_app. intros Hz Hlt. change (len [q]) with 1 in Hlt. rewrite wrap_small in Hz; lia.
      * rewrite !len_app. change (len [q]) with 1. split; [apply wrap_range; lia|]. intros Hlt. rewrite wrap_small; lia.
    + constructor; cbn [packets pkt_count u_delivered u_received queue_drops].
      * rewrite length_app. cbn. lia.
      * done.
      * rewrite app_assoc. by apply sublist_app.
      * rewrite len_app. intros Hz Hlt. change (len [q]) with 1 in Hlt. rewrite app_assoc, Hl; [done|done|lia].
      * rewrite !len_app. change (len [q]) with 1. split; [done|]. lia.
  - constructor; cbn; try done; rewrite ?app_nil_r; try done.
    split; [done|]. intros Hlt. rewrite len_app. specialize (Hd Hlt). unfold len in *. cbn. lia.
Qed.

(** ** Properties *)

(** Uploads of a tunnel session.  Whatever order the numbered chunks arrive in,
    however often one is repeated and whatever the reader and the drains do in between,
    the bytes on the upstream socket are a prefix of the connect's first bytes followed by
    the chunks in number order; the reorder buffer stays within 32 entries and 16 MiB; and
    if the first [m] chunks were accepted and the peer never stopped reading, the socket
    has all of them. *)
Theorem node_upload_in_order (room : option nat) (now : Z) (initial : bytes) (log : list bytes)
    (evs : list SessionEvent) (s : SessionInner) (os : list (bytes * bool))
    (Hlog : Forall (from_log log) evs)
    (Hrun : session_run (session_open (mkWriter [] room) now initial) evs = Some (s, os)) :
  w_out (writer s) `prefix_of` initial ++ concat log
  /\ Z.of_nat (length (pending_writes s)) <= 32
  /\ pending_bytes (pending_writes s) <= 16 * 1024 * 1024
  /\ (forall m : nat,
        (forall k, 0 <= k < Z.of_nat m -> exists b, SeWrite k b ∈ evs) ->
        w_room (writer s) = None ->
        initial ++ concat (take m log) `prefix_of` w_out (writer s)).
Proof.
  destruct (open_run_upload room now initial log evs s os Hrun Hlog) as (Hw & Hpre & Hk).
  destruct Hw as [Hp Hroom (done & Hio & Hi) Hc Hb].
  pose proof (io_delivered _ _ _ _ Hio) as Hd. split_and!; [done..|].
  - intros m Hm Hn. rewrite Hroom, Hi, Hd by congruence. apply prefix_app, concat_prefix.
    assert (Z.of_nat m <= expected s).
    { eapply in_order_complete; [exact Hio|]. intros k Hkm. apply Hk. by apply Hm. }
    rewrite <- (firstn_skipn m (take (Z.to_nat (expected s)) log)), take_take, Nat.min_l by lia.
    by apply prefix_app_r.
Qed.

(** Three chunks arriving as 2, 0, 0, 1. *)
Lemma node_upload_in_order_witness :
  exists s os, session_run (session_open (mkWriter [] None) 0 [7])
      [SeWrite 2 [30]; SeWrite 0 [10]; SeRead [1]; SeWrite 0 [10]; SeWrite 1 [20]] = Some (s, os)
  /\ w_out (writer s) = [7; 10; 20; 30] /\ w_out (writer s) `prefix_of` [7] ++ concat [[10]; [20]; [30]].
Proof.
  eexists _, _. split; [vm_compute; reflexivity|]. split; [reflexivity|].
  eapply (node_upload_in_order None 0 [7] [[10]; [20]; [30]]
    [SeWrite 2 [30]; SeWrite 0 [10]; SeRead [1]; SeWrite 0 [10]; SeWrite 1 [20]]).
  - repeat constructor; done.
  - vm_compute; reflexivity.
Defined.

(** Downloads of a tunnel session.  Whatever order reader, drains and uploads
    interleave in, the bytes handed to responses are, in the order they were taken, a
    prefix of the bytes read from upstream: what is missing is exactly the buffer, which
    never reaches 16 MiB plus one read.  A response that takes data and reports the end of
    the stream has taken the last byte. *)
Theorem node_download_in_order (room : option nat) (now : Z) (initial : bytes)
    (evs : list SessionEvent) (ev : SessionEvent) (s s' : SessionInner) (os : list (bytes * bool))
    (o : option (bytes * bool))
    (Hrun : session_run (session_open (mkWriter [] room) now initial) evs = Some (s, os))
    (Hstep : session_step s ev = Some (s', o)) :
  reads (evs ++ [ev]) = drained (os ++ option_list o) ++ read_buf s'
  /\ len (read_buf s') < READ_BUF_CAP + READER_CHUNK
  /\ buf_len s' = len (read_buf s')
  /\ (forall d, o = Some (d, true) -> eof s' = true /\ reads (evs ++ [ev]) = drained (os ++ option_list o)).
Proof.
  destruct (open_run_download room now initial evs s os Hrun) as [Hr Hd].
  destruct (session_step_read_ok s ev s' o Hstep Hr) as ([Hs Hl Hb] & H3 & H4 & H5 & _).
  rewrite H3, H4, (ro_stream s Hr), <- !app_assoc in Hs. apply app_inv_head in Hs.
  assert (reads (evs ++ [ev]) = drained (os ++ option_list o) ++ read_buf s') as E.
  { unfold reads, drained in *. rewrite !bind_app, Hd, <- !app_assoc. f_equal. cbn. rewrite app_nil_r, Hs. f_equal.
    destruct o as [[d e]|]; cbn; by rewrite ?app_nil_r. }
  split_and!; [done..|]. intros d Ho. destruct (H5 d Ho) as [He Hn]. split; [done|].
  by rewrite E, Hn, app_nil_r.
Qed.

(** A partial drain withholds the end of the stream; the next one reports it. *)
Lemma node_download_in_order_witness :
  exists s s' os, session_run (session_open (mkWriter [] None) 0 [])
      [SeRead [1; 2; 3]; SeEof; SeDrain true 2] = Some (s, os)
  /\ session_step s (SeDrain true 2) = Some (s', Some ([3], true))
  /\ os = [([1; 2], false)]
  /\ reads [SeRead [1; 2; 3]; SeEof; SeDrain true 2; SeDrain true 2] = drained (os ++ [([3], true)]) ++ read_buf s'.
Proof.
  eexists _, _, _. split; [vm_compute; reflexivity|]. split; [vm_compute; reflexivity|]. split; [reflexivity|].
  eapply (node_download_in_order None 0 [] [SeRead [1; 2; 3]; SeEof; SeDrain true 2] (SeDrain true 2)
    _ _ _ (Some ([3], true))).
  - vm_compute; reflexivity.
  - vm_compute; reflexivity.
Defined.
