(* ===== verification/NodePool.v ===== *)
(** * tunnel-node/src/main.rs: the connect path (DNS cache, idle pool, hot hosts)

    [DnsCache], [TcpPool] and [HotHosts] are each a map under one mutex; an operation is
    the critical section(s) of the method, a function of the instant at which it reads the
    clock (seconds).  A [TcpStream] is a number.  The first key of a [HashMap]'s iteration
    order is the parameter [first_key], of which only the documented behaviour is used: it
    is some key of a map that is not empty.  [lookup_host], [TcpStream::connect] and the
    liveness probe are arguments; an [io::Error] is its message.  [instant_min] is the
    earliest [Instant] the platform represents. *)

From stdpp Require Import prelude gmap.
From S2P Require Import Prelude RustStr ListSort.
#[local] Open Scope Z_scope.

Definition DNS_CACHE_TTL : Z := 60.
Definition DNS_CACHE_MAX_ENTRIES : Z := 1024.
Definition TCP_POOL_TTL : Z := 30.
Definition TCP_POOL_PER_HOST_MAX : Z := 2.
Definition TCP_POOL_TOTAL_MAX : Z := 64.
Definition HOT_HOST_WINDOW : Z := 300.
Definition HOT_HOST_MIN_COUNT : Z := 2.
Definition HOT_HOSTS_MAX_KEYS : Z := 256.

Definition hostport : Type := str * Z.

Definition map_len {A} (m : gmap hostport A) : Z := Z.of_nat (size m).

(** The iteration order of a [HashMap]. *)
Class HashOrder := { first_key : forall {A}, gmap hostport A -> option hostport }.
Class HashOrderLaws (HO : HashOrder) : Prop := {
  first_key_some {A} (m : gmap hostport A) : m <> ∅ -> exists k, first_key m = Some k /\ is_Some (m !! k)
}.

(** An order that satisfies the law, for the examples. *)
Definition list_order : HashOrder :=
  {| first_key A m := fst <$> head (map_to_list m) |}.
Lemma list_order_laws : HashOrderLaws list_order.
Proof.
  constructor. intros A m Hm. cbn. destruct (map_to_list m) as [|[k x] l] eqn:E.
  - by apply map_to_list_empty_iff in E.
  - exists k. split; [done|]. exists x. apply elem_of_map_to_list. rewrite E. left.
Qed.

Section Pool.
Context {HO : HashOrder} (instant_min : Z).

Definition remove_first {A} (m : gmap hostport A) : gmap hostport A :=
  match first_key m with Some victim => delete victim m | None => m end.

(** ** [prewarm_enabled_from_env], given the variable's value *)
Definition prewarm_enabled_from_env (var : option str) : bool :=
  match var with
  | Some v => negb (bool_decide (v ∈ [lit "1"; lit "true"; lit "TRUE"; lit "yes"; lit "YES"]))
  | None => true
  end.

(** ** [DnsCache] *)
Record DnsEntry := mkDns { addrs : list Z; expires_at : Z }.
Notation DnsCache := (gmap hostport DnsEntry).

(** [lookup] is what [lookup_host] answers, should it be asked. *)
Definition dns_resolve (now : Z) (key : hostport) (lookup : res (list Z) str) (c : DnsCache)
    : res (list Z) str * DnsCache :=
  let cached :=
    match c !! key with
    | Some entry => if now <? expires_at entry then Some (addrs entry) else None
    | None => None
    end in
  match cached with
  | Some a => (Ok a, c)
  | None =>
    match lookup with
    | Ok [] => (Err (lit "no addresses resolved"), c)
    | Ok a =>
      let c := if DNS_CACHE_MAX_ENTRIES <=? map_len c then remove_first c else c in
      (Ok a, <[key := mkDns a (now + DNS_CACHE_TTL)]> c)
    | Err e => (Err e, c)
    | Panic => (Panic, c)
    end
  end.

Definition dns_evict (key : hostport) (c : DnsCache) : DnsCache := delete key c.

(** ** [TcpPool] *)
Record PooledConn := mkConn { stream : nat; opened_at : Z }.
Record HostState := mkHost { queue : list PooledConn; pending : Z }.
Definition host_default : HostState := mkHost [] 0.
Definition host_is_empty (h : HostState) : bool := bool_decide (queue h = []) && (pending h =? 0).

Record PoolInner := mkPool {
  hosts : gmap hostport HostState;
  total_actual : Z;
  total_pending : Z
}.
Definition pool_new : PoolInner := mkPool ∅ 0 0.

Definition is_fresh (now : Z) (c : PooledConn) : bool := now - opened_at c <? TCP_POOL_TTL.

Definition host_retain (now : Z) (h : HostState) : HostState :=
  mkHost (filter (fun c => is_fresh now c = true) (queue h)) (pending h).

Definition prune_stale (now : Z) (p : PoolInner) : PoolInner :=
  let dropped := msum (fun h => len (queue h) - len (queue (host_retain now h))) (hosts p) in
  mkPool (filter (fun kh => negb (host_is_empty (snd kh)) = true) (host_retain now <$> hosts p))
    (saturating_sub (total_actual p) dropped) (total_pending p).

(** The [while let Some(conn) = state.queue.pop_front()] loop: what is taken, how many
    stale ones are dropped, and the queue left. *)
Fixpoint take_fresh (now : Z) (q : list PooledConn) : option PooledConn * Z * list PooledConn :=
  match q with
  | [] => (None, 0, [])
  | c :: q =>
    if is_fresh now c then (Some c, 0, q)
    else let '(t, d, q) := take_fresh now q in (t, d + 1, q)
  end.

Definition drop_if_empty (key : hostport) (m : gmap hostport HostState) : gmap hostport HostState :=
  match m !! key with
  | Some h => if host_is_empty h then delete key m else m
  | None => m
  end.

Definition try_take (now : Z) (key : hostport) (p : PoolInner) : option PooledConn * PoolInner :=
  let '(taken, dropped, m) :=
    match hosts p !! key with
    | Some h =>
      let '(t, d, q) := take_fresh now (queue h) in (t, d, <[key := mkHost q (pending h)]> (hosts p))
    | None => (None, 0, hosts p)
    end in
  let consumed := dropped + (if taken then 1 else 0) in
  (taken, mkPool (drop_if_empty key m) (saturating_sub (total_actual p) consumed) (total_pending p)).

Definition pool_full (p : PoolInner) : bool := TCP_POOL_TOTAL_MAX <=? total_actual p + total_pending p.

Definition reserve_in (key : hostport) (p : PoolInner) : bool * PoolInner :=
  let h := default host_default (hosts p !! key) in
  if TCP_POOL_PER_HOST_MAX <=? len (queue h) + pending h
  then (false, mkPool (<[key := h]> (hosts p)) (total_actual p) (total_pending p))
  else (true, mkPool (<[key := mkHost (queue h) (pending h + 1)]> (hosts p)) (total_actual p)
                (total_pending p + 1)).

Definition try_reserve (now : Z) (key : hostport) (p : PoolInner) : bool * PoolInner :=
  if pool_full p then
    let p := prune_stale now p in
    if pool_full p then (false, p) else reserve_in key p
  else reserve_in key p.

Definition commit_reserve (now : Z) (key : hostport) (s : nat) (p : PoolInner) : PoolInner :=
  let h := default host_default (hosts p !! key) in
  mkPool (<[key := mkHost (queue h ++ [mkConn s now]) (saturating_sub (pending h) 1)]> (hosts p))
    (total_actual p + 1) (saturating_sub (total_pending p) 1).

Definition cancel_reserve (key : hostport) (p : PoolInner) : PoolInner :=
  let m := match hosts p !! key with
           | Some h => <[key := mkHost (queue h) (saturating_sub (pending h) 1)]> (hosts p)
           | None => hosts p
           end in
  mkPool (drop_if_empty key m) (total_actual p) (saturating_sub (total_pending p) 1).

(** ** [HotHosts] *)
Notation HotHosts := (gmap hostport (list Z)).

Definition drop_old (cutoff : Z) (q : list Z) : list Z := drop_while (fun t => t <? cutoff) q.

Definition hot_prune (cutoff : Z) (m : HotHosts) : HotHosts :=
  filter (fun kq => negb (bool_decide (snd kq = [])) = true) (drop_old cutoff <$> m).

(** [while q.len() >= HOT_HOST_MIN_COUNT { q.pop_front(); }] *)
Fixpoint trim_front (q : list Z) : list Z :=
  match q with
  | [] => []
  | _ :: r => if HOT_HOST_MIN_COUNT <=? len q then trim_front r else q
  end.

(** [now.checked_sub(HOT_HOST_WINDOW).unwrap_or(now)] *)
Definition hot_cutoff (now : Z) : Z :=
  if instant_min <=? now - HOT_HOST_WINDOW then now - HOT_HOST_WINDOW else now.

(** A new key would exceed the cap. *)
Definition hot_over (key : hostport) (m : HotHosts) : bool :=
  bool_decide (m !! key = None) && (HOT_HOSTS_MAX_KEYS <=? map_len m).

Definition hot_make_room (cutoff : Z) (key : hostport) (m : HotHosts) : HotHosts :=
  if hot_over key m then
    let m := hot_prune cutoff m in
    if hot_over key m then remove_first m else m
  else m.

Definition record_and_check (now : Z) (key : hostport) (m : HotHosts) : bool * HotHosts :=
  let cutoff := hot_cutoff now in
  let m := hot_make_room cutoff key m in
  let q := default [] (m !! key) in
  let q := trim_front (drop_old cutoff q) ++ [now] in
  (HOT_HOST_MIN_COUNT <=? len q, <[key := q]> m).

(** ** Opening a connection *)

(** [for addr in addrs]: the first that connects, or the last error. *)
Fixpoint connect_each (connect : Z -> res nat str) (last_err : option str) (addrs : list Z)
    : res nat str :=
  match addrs with
  | [] => Err (default (lit "no addresses resolved") last_err)
  | a :: addrs =>
    match connect a with
    | Ok s => Ok s
    | Err e => connect_each connect (Some e) addrs
    | Panic => Panic
    end
  end.

(** The point at which the [timeout] fires, if it does. *)
Inductive Cut := NoCut | CutInLookup | CutInConnect.

Definition connect_fresh (now : Z) (key : hostport) (lookup : res (list Z) str)
    (connect : Z -> res nat str) (cut : Cut) (c : DnsCache) : res nat str * DnsCache :=
  let timeout := Err (lit "connect timeout (includes dns)") in
  let '(result, c) :=
    match cut with
    | CutInLookup => (timeout, c)
    | CutInConnect => (timeout, snd (dns_resolve now key lookup c))
    | NoCut =>
      let '(r, c) := dns_resolve now key lookup c in
      (let? a := r in connect_each connect None a, c)
    end in
  match result with
  | Ok s => (Ok s, c)
  | _ => (result, dns_evict key c)
  end.

(** [open_tcp] up to [connect_fresh]: the pool's connections are tried until one is alive
    ([None]: none left).  Each turn removes one from the queue. *)
Fixpoint take_alive (fuel : nat) (now : Z) (alive : nat -> bool) (key : hostport) (p : PoolInner)
    : option nat * PoolInner :=
  match fuel with
  | O => (None, p)
  | S fuel =>
    match try_take now key p with
    | (Some c, p) => if alive (stream c) then (Some (stream c), p) else take_alive fuel now alive key p
    | (None, p) => (None, p)
    end
  end.

Definition queue_of (key : hostport) (p : PoolInner) : list PooledConn :=
  match hosts p !! key with Some h => queue h | None => [] end.

Definition open_tcp (now : Z) (alive : nat -> bool) (key : hostport) (lookup : res (list Z) str)
    (connect : Z -> res nat str) (cut : Cut) (p : PoolInner) (c : DnsCache)
    : res nat str * PoolInner * DnsCache :=
  match take_alive (S (length (queue_of key p))) now alive key p with
  | (Some s, p) => (Ok s, p, c)
  | (None, p) => let '(r, c) := connect_fresh now key lookup connect cut c in (r, p, c)
  end.

(** ** The pool, host by host *)
Definition host_of (key : hostport) (m : gmap hostport HostState) : HostState :=
  default host_default (m !! key).
Definition qlen (h : HostState) : Z := len (queue h).

(** Setting the state of a host, which is dropped when empty. *)
Definition upd (key : hostport) (h : HostState) (m : gmap hostport HostState) : gmap hostport HostState :=
  drop_if_empty key (<[key := h]> m).

Definition hosts_ok (m : gmap hostport HostState) : Prop :=
  forall k h, m !! k = Some h -> host_is_empty h = false.

Lemma host_is_empty_true h : host_is_empty h = true -> h = host_default.
Proof.
  destruct h as [q n]. unfold host_is_empty. cbn. intros [->%bool_decide_eq_true ->%Z.eqb_eq]%andb_true_iff. done.
Qed.

Lemma host_of_upd k key h m : host_of k (upd key h m) = if decide (k = key) then h else host_of k m.
Proof.
  unfold upd, drop_if_empty, host_of. rewrite lookup_insert_eq. destruct (host_is_empty h) eqn:E.
  - apply host_is_empty_true in E as ->. destruct (decide (k = key)) as [->|].
    + by rewrite lookup_delete_eq.
    + by rewrite lookup_delete_ne, lookup_insert_ne.
  - destruct (decide (k = key)) as [->|]; [by rewrite lookup_insert_eq|by rewrite lookup_insert_ne].
Qed.

Lemma hosts_ok_upd key h m : hosts_ok m -> hosts_ok (upd key h m).
Proof.
  intros Hm k h'. unfold upd, drop_if_empty. rewrite lookup_insert_eq. destruct (host_is_empty h) eqn:E.
  - rewrite lookup_delete_Some. intros [Hne H]. rewrite lookup_insert_ne in H by done. by apply (Hm k).
  - rewrite lookup_insert_Some. intros [[-> <-]|[_ ?]]; [done|by apply (Hm k)].
Qed.

Lemma msum_upd key h m : msum qlen (upd key h m) = msum qlen m - qlen (host_of key m) + qlen h.
Proof.
  unfold upd, drop_if_empty, host_of. rewrite lookup_insert_eq. destruct (host_is_empty h) eqn:E.
  - apply host_is_empty_true in E as ->. rewrite msum_delete_any, lookup_insert_eq, msum_update.
    change (qlen host_default) with 0. destruct (m !! key); cbn [default from_option id]; change (qlen host_default) with 0; lia.
  - rewrite msum_update. change (qlen host_default) with 0. destruct (m !! key); cbn [default from_option id]; change (qlen host_default) with 0; lia.
Qed.

Lemma upd_nonempty key h m : host_is_empty h = false -> <[key := h]> m = upd key h m.
Proof. intros E. unfold upd, drop_if_empty. by rewrite lookup_insert_eq, E. Qed.

Lemma upd_absent key m : m !! key = None -> drop_if_empty key m = upd key host_default m.
Proof. intros E. unfold upd, drop_if_empty. rewrite E, lookup_insert_eq. cbn. by rewrite delete_insert_id. Qed.

(** Each operation as an update of one host. *)
Lemma try_take_upd now key p :
  let '(t, d, q) := take_fresh now (queue (host_of key (hosts p))) in
  try_take now key p
  = (t, mkPool (upd key (mkHost q (pending (host_of key (hosts p)))) (hosts p))
          (saturating_sub (total_actual p) (d + (if t then 1 else 0))) (total_pending p)).
Proof.
  unfold try_take, host_of. destruct (hosts p !! key) as [h|] eqn:E; cbn.
  - destruct (take_fresh now (queue h)) as [[t d] q]. done.
  - by rewrite upd_absent.
Qed.

Lemma cancel_reserve_upd key p :
  cancel_reserve key p
  = mkPool (upd key (mkHost (queue (host_of key (hosts p))) (saturating_sub (pending (host_of key (hosts p))) 1)) (hosts p))
      (total_actual p) (saturating_sub (total_pending p) 1).
Proof.
  unfold cancel_reserve, host_of. destruct (hosts p !! key) as [h|] eqn:E; [done|]. by rewrite upd_absent.
Qed.

Lemma prune_host_of now p k : hosts_ok (hosts p) ->
  host_of k (hosts (prune_stale now p)) = host_retain now (host_of k (hosts p)).
Proof.
  intros Hok. unfold host_of. cbn [prune_stale hosts].
  destruct (filter _ (host_retain now <$> hosts p) !! k) as [h|] eqn:E.
  - apply map_lookup_filter_Some in E as [E _]. rewrite lookup_fmap in E.
    destruct (hosts p !! k); [by injection E as <-|done].
  - apply map_lookup_filter_None in E as [E|E].
    + rewrite lookup_fmap in E. by destruct (hosts p !! k).
    + destruct (hosts p !! k) as [h|] eqn:Ek; [|done].
      specialize (E (host_retain now h)). rewrite lookup_fmap, Ek in E. specialize (E eq_refl).
      cbn in E |- *. destruct (host_is_empty (host_retain now h)) eqn:E2; [|done].
      by rewrite (host_is_empty_true _ E2).
Qed.

Lemma msum_prune now p : msum qlen (hosts (prune_stale now p)) = msum qlen (host_retain now <$> hosts p).
Proof.
  cbn [prune_stale hosts]. apply (msum_fmap_filter qlen (host_retain now) (fun h => negb (host_is_empty h))).
  intros h ->%negb_false_iff%host_is_empty_true. done.
Qed.

(** ** Runs of the pool

    Each reservation that was granted is settled at most once, by the task that made it. *)
Inductive PoolEvent :=
| PeTake (now : Z) (key : hostport)
| PeReserve (now : Z) (key : hostport)
| PeCommit (now : Z) (key : hostport) (s : nat)
| PeCancel (key : hostport).

Record PoolRun := mkRun {
  pool : PoolInner;
  outstanding : list hostport;               (** granted reservations not yet settled *)
  committed : list (hostport * PooledConn);  (** connections put into the pool *)
  handed_out : list (hostport * PooledConn)  (** connections taken from it *)
}.
Definition run_start : PoolRun := mkRun pool_new [] [] [].

Fixpoint list_remove (key : hostport) (l : list hostport) : option (list hostport) :=
  match l with
  | [] => None
  | x :: l => if bool_decide (x = key) then Some l else (x ::.) <$> list_remove key l
  end.

Definition pool_step (r : PoolRun) (ev : PoolEvent) : option PoolRun :=
  match ev with
  | PeTake now key =>
    let '(t, p) := try_take now key (pool r) in
    Some (mkRun p (outstanding r) (committed r) (handed_out r ++ ((key,.) <$> option_list t)))
  | PeReserve now key =>
    let '(ok, p) := try_reserve now key (pool r) in
    Some (mkRun p (outstanding r ++ (if ok : bool then [key] else [])) (committed r) (handed_out r))
  | PeCommit now key s =>
    o ← list_remove key (outstanding r);
    Some (mkRun (commit_reserve now key s (pool r)) o (committed r ++ [(key, mkConn s now)]) (handed_out r))
  | PeCancel key =>
    o ← list_remove key (outstanding r);
    Some (mkRun (cancel_reserve key (pool r)) o (committed r) (handed_out r))
  end.

Fixpoint pool_run (r : PoolRun) (evs : list PoolEvent) : option PoolRun :=
  match evs with [] => Some r | ev :: evs => r ← pool_step r ev; pool_run r evs end.

(** The connections of one host in a log. *)
Definition of_host (key : hostport) (l : list (hostport * PooledConn)) : list PooledConn :=
  snd <$> filter (fun x => fst x = key) l.

Definition count_of (key : hostport) (l : list hostport) : Z := len (filter (fun x => x = key) l).

Record pool_ok (r : PoolRun) : Prop := {
  po_hosts : hosts_ok (hosts (pool r));
  po_actual : total_actual (pool r) = msum qlen (hosts (pool r));
  po_pending : total_pending (pool r) = len (outstanding r);
  po_host_pending : forall k, pending (host_of k (hosts (pool r))) = count_of k (outstanding r);
  po_host_cap : forall k, qlen (host_of k (hosts (pool r))) + pending (host_of k (hosts (pool r))) <= TCP_POOL_PER_HOST_MAX;
  po_cap : total_actual (pool r) + total_pending (pool r) <= TCP_POOL_TOTAL_MAX;
  po_fifo : forall k, of_host k (handed_out r) ++ queue (host_of k (hosts (pool r))) `sublist_of` of_host k (committed r)
}.

Lemma of_host_snoc k key c l :
  of_host k (l ++ [(key, c)]) = of_host k l ++ (if decide (key = k) then [c] else []).
Proof.
  unfold of_host. rewrite filter_app, fmap_app. f_equal. cbn. unfold filter. cbn. by destruct (decide _).
Qed.

Lemma count_of_snoc k key l : count_of k (l ++ [key]) = count_of k l + (if decide (key = k) then 1 else 0).
Proof. unfold count_of. rewrite filter_app, len_app. f_equal. unfold filter; cbn. by destruct (decide _). Qed.

Lemma list_remove_Some key l o : list_remove key l = Some o -> l ≡ₚ key :: o.
Proof.
  revert o. induction l as [|x l IH]; intros o; cbn; [done|].
  case_bool_decide; [intros [= <-]; by subst|].
  destruct (list_remove key l) as [o'|]; cbn; [|done]. intros [= <-]. rewrite (IH o') by done. constructor.
Qed.

Lemma count_of_remove k key l o : list_remove key l = Some o ->
  count_of k l = count_of k o + (if decide (key = k) then 1 else 0) /\ len l = len o + 1.
Proof.
  intros HP%list_remove_Some. unfold count_of, len. rewrite HP. cbn. split; [|lia].
  unfold filter at 1. cbn. destruct (decide (key = k)); cbn; unfold filter; cbn; lia.
Qed.

Lemma qlen_nonneg h : 0 <= qlen h.
Proof. apply len_nonneg. Qed.
Lemma count_nonneg k l : 0 <= count_of k l.
Proof. apply len_nonneg. Qed.

Lemma qlen_le_total r key : pool_ok r -> qlen (host_of key (hosts (pool r))) <= total_actual (pool r).
Proof.
  intros Hok. rewrite (po_actual r Hok). unfold host_of.
  destruct (hosts (pool r) !! key) as [h|] eqn:E; cbn [default from_option id].
  - apply (msum_lookup_le qlen _ key); [apply qlen_nonneg|done].
  - apply msum_nonneg, qlen_nonneg.
Qed.

Lemma take_fresh_spec now q t d q' : take_fresh now q = (t, d, q') ->
  0 <= d /\ len q = d + (if t then 1 else 0) + len q'
  /\ option_list t ++ q' `sublist_of` q /\ (forall c, t = Some c -> is_fresh now c = true)
  /\ (t = None -> q' = []) /\ (forall c, c ∈ q -> t = Some c \/ c ∈ q' \/ is_fresh now c = false).
Proof.
  revert t d q'. induction q as [|c q IH]; intros t d q'; cbn.
  { intros [= <- <- <-]. cbn. split_and!; try done. by intros c ?%elem_of_nil. }
  destruct (is_fresh now c) eqn:Ef.
  - intros [= <- <- <-]. rewrite len_cons. cbn. split_and!; [lia|lia|done|by intros ? [= <-]|done|].
    intros x [->|?]%elem_of_cons; auto.
  - destruct (take_fresh now q) as [[t1 d1] q1] eqn:E. intros [= <- <- <-].
    destruct (IH _ _ _ eq_refl) as (H1 & H2 & H3 & H4 & H5 & H6). rewrite len_cons.
    split_and!; [lia|lia| |done|done|]; [by apply sublist_cons|].
    intros x [->|?]%elem_of_cons; auto.
Qed.

(** Replacing one host's state, the lemma behind every operation but the pruning. *)
Lemma pool_ok_upd r key h p' o' cm' ho' :
  pool_ok r -> hosts p' = upd key h (hosts (pool r)) ->
  total_actual p' = total_actual (pool r) - qlen (host_of key (hosts (pool r))) + qlen h ->
  total_pending p' = len o' ->
  (forall k, count_of k o' = if decide (k = key) then pending h else count_of k (outstanding r)) ->
  qlen h + pending h <= TCP_POOL_PER_HOST_MAX ->
  total_actual p' + total_pending p' <= TCP_POOL_TOTAL_MAX ->
  (forall k, of_host k ho' ++ queue (if decide (k = key) then h else host_of k (hosts (pool r))) `sublist_of` of_host k cm') ->
  pool_ok (mkRun p' o' cm' ho').
Proof.
  intros Hok Hh Ha Hp Hc Hcap Htot Hf.
  constructor; cbn [pool outstanding committed handed_out]; try done; rewrite ?Hh.
  - apply hosts_ok_upd, Hok.
  - rewrite msum_upd, <- (po_actual r Hok). lia.
  - intros k. rewrite Hc, host_of_upd. destruct (decide (k = key)); [done|apply Hok].
  - intros k. rewrite host_of_upd. destruct (decide (k = key)); [done|apply Hok].
  - intros k. rewrite host_of_upd. apply Hf.
Qed.

Lemma take_step_ok now key r t p : pool_ok r -> try_take now key (pool r) = (t, p) ->
  pool_ok (mkRun p (outstanding r) (committed r) (handed_out r ++ ((key,.) <$> option_list t)))
  /\ (forall c, t = Some c -> is_fresh now c = true /\ (key, c) ∈ committed r).
Proof.
  intros Hok. pose proof (try_take_upd now key (pool r)) as E.
  destruct (take_fresh now (queue (host_of key (hosts (pool r))))) as [[t0 d] q] eqn:Et.
  rewrite E. intros [= <- <-]. destruct (take_fresh_spec now _ _ _ _ Et) as (Hd & Hl & Hs & Hf & _).
  pose proof (qlen_le_total r key Hok). pose proof (po_host_cap r Hok key). pose proof (po_cap r Hok).
  pose proof (po_fifo r Hok key) as Hfifo. pose proof (len_nonneg q).
  change (len (queue (host_of key (hosts (pool r))))) with (qlen (host_of key (hosts (pool r)))) in Hl.
  assert (saturating_sub (total_actual (pool r)) (d + (if t0 then 1 else 0)) = total_actual (pool r) - qlen (host_of key (hosts (pool r))) + len q) as Hsub.
  { unfold saturating_sub. lia. }
  split.
  - eapply (pool_ok_upd r key); [done|cbn; done|cbn; done|apply Hok| | | |].
    + intros k. destruct (decide (k = key)) as [->|]; [|done]. cbn. symmetry. apply Hok.
    + cbn. unfold qlen at 1; cbn. destruct t0; lia.
    + cbn. rewrite Hsub. destruct t0; lia.
    + intros k. destruct (decide (k = key)) as [->|Hne]; cbn [queue].
      * etrans; [|exact Hfifo]. destruct t0 as [c|]; simpl (_ <$> _).
        -- rewrite of_host_snoc, decide_True, <- app_assoc by done. by apply sublist_app.
        -- rewrite app_nil_r. by apply sublist_app.
      * etrans; [|apply (po_fifo r Hok)]. destruct t0 as [c|]; simpl (_ <$> _); [|by rewrite app_nil_r].
        by rewrite of_host_snoc, decide_False, app_nil_r.
  - intros c ->. split; [by apply Hf|].
    assert (c ∈ of_host key (committed r)) as Hc.
    { eapply elem_of_sublist; [|exact Hfifo]. apply elem_of_app. right.
      eapply elem_of_sublist; [|exact Hs]. left. }
    unfold of_host in Hc. apply list_elem_of_fmap in Hc as ([k c'] & -> & [Hk Hin]%list_elem_of_filter). cbn in *. by subst.
Qed.

Lemma prune_ok now r : pool_ok r -> pool_ok (mkRun (prune_stale now (pool r)) (outstanding r) (committed r) (handed_out r)).
Proof.
  intros Hok. pose proof Hok as [Hh Ha Hp Hhp Hhc Hc Hf].
  assert (forall h, qlen (host_retain now h) <= qlen h) as Hq.
  { intros h. unfold qlen, len, host_retain; cbn. pose proof (length_filter (fun c => is_fresh now c = true) (queue h)). lia. }
  assert (total_actual (prune_stale now (pool r)) = msum qlen (hosts (prune_stale now (pool r)))) as E.
  { rewrite msum_prune. cbn [prune_stale total_actual].
    change (fun h => len (queue h) - len (queue (host_retain now h))) with (fun h => qlen h - qlen (host_retain now h)).
    rewrite (msum_fmap_diff qlen (host_retain now)), Ha. unfold saturating_sub.
    pose proof (msum_nonneg qlen (host_retain now <$> hosts (pool r)) qlen_nonneg). lia. }
  assert (total_actual (prune_stale now (pool r)) <= total_actual (pool r)) as Hle.
  { rewrite E, msum_prune, Ha.
    pose proof (msum_fmap_diff qlen (host_retain now) (hosts (pool r))) as E2.
    pose proof (msum_nonneg (fun x => qlen x - qlen (host_retain now x)) (hosts (pool r))) as E3.
    rewrite E2 in E3. specialize (E3 ltac:(intros x; specialize (Hq x); cbn beta; lia)). lia. }
  constructor; cbn [pool outstanding committed handed_out]; try done.
  - intros k h H. apply map_lookup_filter_Some in H as [_ H]. by apply negb_true_iff in H.
  - intros k. rewrite prune_host_of by done. apply Hhp.
  - intros k. rewrite prune_host_of by done. specialize (Hhc k). specialize (Hq (host_of k (hosts (pool r)))). cbn [host_retain pending]. lia.
  - change (total_pending (prune_stale now (pool r))) with (total_pending (pool r)). lia.
  - intros k. rewrite prune_host_of by done. etrans; [|apply Hf]. apply sublist_app; [done|]. apply sublist_filter.
Qed.

Lemma reserve_in_ok key r ok p : pool_ok r -> pool_full (pool r) = false -> reserve_in key (pool r) = (ok, p) ->
  pool_ok (mkRun p (outstanding r ++ (if ok : bool then [key] else [])) (committed r) (handed_out r)).
Proof.
  intros Hok Hfull%Z.leb_gt. unfold reserve_in. fold (host_of key (hosts (pool r))).
  set (h := host_of key (hosts (pool r))). pose proof (po_host_pending r Hok key) as Hp. fold h in Hp.
  pose proof (qlen_nonneg h). pose proof (count_nonneg key (outstanding r)).
  destruct (Z.leb_spec TCP_POOL_PER_HOST_MAX (len (queue h) + pending h)) as [Hge|Hlt]; intros [= <- <-].
  - rewrite app_nil_r. assert (host_is_empty h = false).
    { destruct (host_is_empty h) eqn:E; [|done]. apply host_is_empty_true in E. rewrite E in Hge. unfold TCP_POOL_PER_HOST_MAX, len, host_default in Hge. cbn [queue pending length] in Hge. lia. }
    rewrite upd_nonempty by done. eapply (pool_ok_upd r key); [done|done|cbn; fold h; lia|apply Hok| | | |].
    + intros k. destruct (decide (k = key)) as [->|]; done.
    + apply (po_host_cap r Hok key).
    + apply (po_cap r Hok).
    + intros k. destruct (decide (k = key)) as [->|]; apply Hok.
  - rewrite upd_nonempty.
    2:{ unfold host_is_empty. cbn. apply andb_false_iff. right. apply Z.eqb_neq. lia. }
    eapply (pool_ok_upd r key); [done|done|cbn; fold h; unfold qlen; cbn; lia| | | | |].
    + cbn. rewrite (po_pending r Hok), len_app. done.
    + intros k. rewrite count_of_snoc. destruct (decide (k = key)) as [->|].
      * rewrite decide_True by done. cbn. lia.
      * rewrite decide_False by done. lia.
    + unfold qlen. cbn. lia.
    + cbn. lia.
    + intros k. destruct (decide (k = key)) as [->|]; apply Hok.
Qed.

Lemma settle_outstanding r key o : pool_ok r -> list_remove key (outstanding r) = Some o ->
  (forall k, count_of k o = if decide (k = key) then pending (host_of key (hosts (pool r))) - 1 else count_of k (outstanding r))
  /\ len o = total_pending (pool r) - 1 /\ 1 <= pending (host_of key (hosts (pool r))) /\ 0 <= len o.
Proof.
  intros Hok E. split_and!.
  - intros k. destruct (count_of_remove k key _ o E) as [Hc _]. destruct (decide (k = key)) as [->|].
    + rewrite decide_True in Hc by done. rewrite (po_host_pending r Hok). lia.
    + rewrite decide_False in Hc by done. lia.
  - rewrite (po_pending r Hok). destruct (count_of_remove key key _ o E). lia.
  - rewrite (po_host_pending r Hok). destruct (count_of_remove key key _ o E) as [Hc _].
    rewrite decide_True in Hc by done. pose proof (count_nonneg key o). lia.
  - apply len_nonneg.
Qed.

Lemma commit_ok now key s r o : pool_ok r -> list_remove key (outstanding r) = Some o ->
  pool_ok (mkRun (commit_reserve now key s (pool r)) o (committed r ++ [(key, mkConn s now)]) (handed_out r)).
Proof.
  intros Hok E. destruct (settle_outstanding r key o Hok E) as (Hc & Hl & Hp & Ho).
  unfold commit_reserve. fold (host_of key (hosts (pool r))). set (h := host_of key (hosts (pool r))) in *.
  pose proof (po_host_cap r Hok key) as Hcap. fold h in Hcap. pose proof (po_cap r Hok). rewrite upd_nonempty.
  2:{ unfold host_is_empty. cbn. rewrite bool_decide_false; [done|]. by destruct (queue h). }
  assert (qlen (mkHost (queue h ++ [mkConn s now]) (saturating_sub (pending h) 1)) = qlen h + 1) as Eq.
  { unfold qlen. cbn. by rewrite len_app. }
  eapply (pool_ok_upd r key); [done|done| | | | | |].
  - cbn [total_actual]. rewrite Eq. fold h. lia.
  - cbn. unfold saturating_sub. lia.
  - intros k. rewrite Hc. destruct (decide (k = key)); [|done]. cbn. unfold saturating_sub. lia.
  - rewrite Eq. cbn [pending]. unfold saturating_sub. lia.
  - cbn. unfold saturating_sub. lia.
  - intros k. rewrite of_host_snoc. destruct (decide (k = key)) as [->|].
    + rewrite decide_True by done. cbn [queue]. rewrite app_assoc. apply sublist_app; [apply Hok|done].
    + rewrite decide_False, app_nil_r by done. apply Hok.
Qed.

Lemma cancel_ok key r o : pool_ok r -> list_remove key (outstanding r) = Some o ->
  pool_ok (mkRun (cancel_reserve key (pool r)) o (committed r) (handed_out r)).
Proof.
  intros Hok E. destruct (settle_outstanding r key o Hok E) as (Hc & Hl & Hp & Ho).
  rewrite cancel_reserve_upd. set (h := host_of key (hosts (pool r))) in *.
  pose proof (po_host_cap r Hok key) as Hcap. fold h in Hcap. pose proof (po_cap r Hok).
  assert (qlen (mkHost (queue h) (saturating_sub (pending h) 1)) = qlen h) as Eq by done.
  eapply (pool_ok_upd r key); [done|done| | | | | |].
  - cbn [total_actual]. rewrite Eq. fold h. lia.
  - cbn. unfold saturating_sub. lia.
  - intros k. rewrite Hc. destruct (decide (k = key)); [|done]. cbn. unfold saturating_sub. lia.
  - rewrite Eq. cbn [pending]. unfold saturating_sub. lia.
  - cbn. unfold saturating_sub. lia.
  - intros k. destruct (decide (k = key)) as [->|]; apply Hok.
Qed.

Lemma pool_step_ok r ev r' : pool_ok r -> pool_step r ev = Some r' -> pool_ok r'.
Proof.
  intros Hok. destruct ev as [now key|now key|now key s|key]; cbn [pool_step].
  - destruct (try_take now key (pool r)) as [t p] eqn:E. intros [= <-]. by apply (take_step_ok now).
  - unfold try_reserve. destruct (pool_full (pool r)) eqn:Ef.
    + pose proof (prune_ok now r Hok) as Hok1. destruct (pool_full (prune_stale now (pool r))) eqn:Ef1.
      * intros [= <-]. by rewrite app_nil_r.
      * destruct (reserve_in key (prune_stale now (pool r))) as [ok p] eqn:Er. intros [= <-].
        by apply (reserve_in_ok key _ ok p Hok1).
    + destruct (reserve_in key (pool r)) as [ok p] eqn:Er. intros [= <-]. by apply reserve_in_ok.
  - destruct (list_remove key (outstanding r)) as [o|] eqn:E; [|done]. intros [= <-]. by apply commit_ok.
  - destruct (list_remove key (outstanding r)) as [o|] eqn:E; [|done]. intros [= <-]. by apply cancel_ok.
Qed.

Lemma pool_ok_start : pool_ok run_start.
Proof. by constructor. Qed.

Lemma pool_run_ok r evs r' : pool_ok r -> pool_run r evs = Some r' -> pool_ok r'.
Proof.
  revert r. induction evs as [|ev evs IH]; intros r Hok; cbn; [by intros [= <-]|].
  destruct (pool_step r ev) as [r1|] eqn:E; [|done]. cbn. apply IH. by apply (pool_step_ok r ev).
Qed.

(** ** Sizes *)
Lemma map_len_insert {A} k (x : A) m : map_len (<[k := x]> m) <= map_len m + 1.
Proof.
  unfold map_len. destruct (m !! k) as [y|] eqn:E; [rewrite map_size_insert_Some by eauto; lia|].
  rewrite map_size_insert_None by done. lia.
Qed.

Lemma map_len_insert_old {A} k (x : A) m : is_Some (m !! k) -> map_len (<[k := x]> m) = map_len m.
Proof. intros [y E]. unfold map_len. by rewrite map_size_insert_Some by eauto. Qed.

Lemma remove_first_len {A} {HL : HashOrderLaws HO} (m : gmap hostport A) :
  0 < map_len m -> map_len (remove_first m) = map_len m - 1.
Proof.
  intros Hm. destruct (first_key_some m) as (k & Hk & x & Hx).
  { intros ->. unfold map_len in Hm. rewrite map_size_empty in Hm. lia. }
  unfold remove_first. rewrite Hk. unfold map_len in *. rewrite map_size_delete_Some by eauto. lia.
Qed.

Lemma remove_first_sub {A} (m : gmap hostport A) k x : remove_first m !! k = Some x -> m !! k = Some x.
Proof. unfold remove_first. destruct (first_key m); [|done]. by intros [_ ?]%lookup_delete_Some. Qed.

Lemma dns_resolve_len {HL : HashOrderLaws HO} now key lookup c :
  map_len c <= DNS_CACHE_MAX_ENTRIES -> map_len (snd (dns_resolve now key lookup c)) <= DNS_CACHE_MAX_ENTRIES.
Proof.
  intros Hc. unfold dns_resolve. destruct (match c !! key with Some _ => _ | None => _ end); [done|].
  destruct lookup as [[|a l]|e|]; cbn; try done.
  destruct (Z.leb_spec DNS_CACHE_MAX_ENTRIES (map_len c)).
  - etrans; [apply map_len_insert|]. rewrite remove_first_len; [lia|]. unfold DNS_CACHE_MAX_ENTRIES in *. lia.
  - etrans; [apply map_len_insert|]. lia.
Qed.

Lemma dns_evict_len key c : map_len (dns_evict key c) <= map_len c.
Proof. apply inj_le, map_subseteq_size, delete_subseteq. Qed.

Lemma connect_fresh_len {HL : HashOrderLaws HO} now key lookup connect cut c :
  map_len c <= DNS_CACHE_MAX_ENTRIES -> map_len (snd (connect_fresh now key lookup connect cut c)) <= DNS_CACHE_MAX_ENTRIES.
Proof.
  intros Hc. pose proof (dns_resolve_len now key lookup c Hc) as Hr. unfold connect_fresh.
  destruct cut.
  - destruct (dns_resolve now key lookup c) as [r c1]. cbn in Hr. pose proof (dns_evict_len key c1).
    destruct (let? a := r in _); cbn; lia.
  - cbn. pose proof (dns_evict_len key c). lia.
  - cbn. pose proof (dns_evict_len key (snd (dns_resolve now key lookup c))). lia.
Qed.

Record hot_ok (m : HotHosts) : Prop := {
  ho_keys : map_len m <= HOT_HOSTS_MAX_KEYS;
  ho_queue : forall k q, m !! k = Some q -> len q <= HOT_HOST_MIN_COUNT
}.

Lemma drop_while_len {A} (f : A -> bool) l : len (drop_while f l) <= len l.
Proof. induction l as [|x l IH]; cbn; [done|]. rewrite len_cons. destruct (f x); [|rewrite len_cons]; lia. Qed.

Lemma trim_front_len q : len (trim_front q) < HOT_HOST_MIN_COUNT.
Proof.
  induction q as [|t q IH]; [by compute|]. cbn [trim_front].
  destruct (Z.leb_spec HOT_HOST_MIN_COUNT (len (t :: q))); [done|]. lia.
Qed.

Lemma hot_prune_ok cutoff m : hot_ok m -> hot_ok (hot_prune cutoff m).
Proof.
  intros [Hk Hq]. constructor.
  - etrans; [|exact Hk]. unfold map_len, hot_prune. apply inj_le.
    etrans; [apply map_subseteq_size, map_filter_subseteq|]. by rewrite map_size_fmap.
  - intros k q [H _]%map_lookup_filter_Some. apply lookup_fmap_Some in H as (q0 & <- & E).
    etrans; [apply drop_while_len|]. by apply (Hq k).
Qed.

Lemma record_and_check_ok {HL : HashOrderLaws HO} now key m : hot_ok m -> hot_ok (snd (record_and_check now key m)).
Proof.
  intros Hok. unfold record_and_check.
  set (m1 := hot_make_room (hot_cutoff now) key m).
  assert ((hot_ok m1) /\ (m1 !! key = None -> map_len m1 < HOT_HOSTS_MAX_KEYS)) as [Hok1 Hlt].
  { assert (forall m, hot_over key m = false -> m !! key = None -> map_len m < HOT_HOSTS_MAX_KEYS) as Hov.
    { intros m0 Ho Hn. unfold hot_over in Ho. rewrite bool_decide_true in Ho by done. cbn in Ho. by apply Z.leb_gt in Ho. }
    unfold m1, hot_make_room. destruct (hot_over key m) eqn:E1; [|auto]. pose proof (hot_prune_ok (hot_cutoff now) m Hok) as Hok2.
    destruct (hot_over key (hot_prune (hot_cutoff now) m)) eqn:E2; [|auto].
    apply andb_true_iff in E2 as [_ E2%Z.leb_le]. unfold HOT_HOSTS_MAX_KEYS in E2.
    destruct Hok2 as [Hk Hq]. split.
    - constructor; [rewrite remove_first_len; lia|]. intros k q ?%remove_first_sub. by apply (Hq k).
    - intros _. rewrite remove_first_len; unfold HOT_HOSTS_MAX_KEYS in *; lia. }
  destruct Hok1 as [Hk Hq]. constructor; cbn [snd].
  - destruct (m1 !! key) as [q|] eqn:E; [rewrite map_len_insert_old by eauto; done|].
    specialize (Hlt eq_refl). etrans; [apply map_len_insert|]. lia.
  - intros k q [[<- <-]|[_ H]]%lookup_insert_Some; [|by apply (Hq k)].
    rewrite len_app. pose proof (trim_front_len (drop_old (hot_cutoff now) (default [] (m1 !! key)))).
    change (len [now]) with 1. lia.
Qed.

(** ** [PrewarmState] *)
Record PrewarmState := mkPrewarm {
  dns : DnsCache;
  tcp_pool : PoolInner;
  hot : HotHosts;
  prewarm_enabled : bool
}.

Definition with_prewarm_enabled (enabled : bool) : PrewarmState := mkPrewarm ∅ pool_new ∅ enabled.

(** The task spawned by [maybe_prewarm], run without interruption; [pool_run] and
    [prewarm_run] below interleave its critical sections. *)
Definition maybe_prewarm (now : Z) (key : hostport) (lookup : res (list Z) str)
    (connect : Z -> res nat str) (cut : Cut) (w : PrewarmState) : PrewarmState :=
  if negb (prewarm_enabled w) then w else
  let '(is_hot, h) := record_and_check now key (hot w) in
  let w := mkPrewarm (dns w) (tcp_pool w) h (prewarm_enabled w) in
  if negb is_hot then w else
  let '(reserved, p) := try_reserve now key (tcp_pool w) in
  let w := mkPrewarm (dns w) p (hot w) (prewarm_enabled w) in
  if negb reserved then w else
  let '(r, d) := connect_fresh now key lookup connect cut (dns w) in
  match r with
  | Ok s => mkPrewarm d (commit_reserve now key s p) (hot w) (prewarm_enabled w)
  | _ => mkPrewarm d (cancel_reserve key p) (hot w) (prewarm_enabled w)
  end.

(** The critical sections of [open_tcp] and [maybe_prewarm], in any order. *)
Inductive PrewarmEvent :=
| WePool (ev : PoolEvent)
| WeRecord (now : Z) (key : hostport)
| WeConnect (now : Z) (key : hostport) (lookup : res (list Z) str) (connect : Z -> res nat str) (cut : Cut).

Record PrewarmRun := mkPwRun { pr_dns : DnsCache; pr_pool : PoolRun; pr_hot : HotHosts }.
Definition pw_start : PrewarmRun := mkPwRun ∅ run_start ∅.

Definition prewarm_step (w : PrewarmRun) (ev : PrewarmEvent) : option PrewarmRun :=
  match ev with
  | WePool ev => p ← pool_step (pr_pool w) ev; Some (mkPwRun (pr_dns w) p (pr_hot w))
  | WeRecord now key => Some (mkPwRun (pr_dns w) (pr_pool w) (snd (record_and_check now key (pr_hot w))))
  | WeConnect now key lookup connect cut =>
    Some (mkPwRun (snd (connect_fresh now key lookup connect cut (pr_dns w))) (pr_pool w) (pr_hot w))
  end.

Fixpoint prewarm_run (w : PrewarmRun) (evs : list PrewarmEvent) : option PrewarmRun :=
  match evs with [] => Some w | ev :: evs => w ← prewarm_step w ev; prewarm_run w evs end.

Record prewarm_ok (w : PrewarmRun) : Prop := {
  pw_dns_ok : map_len (pr_dns w) <= DNS_CACHE_MAX_ENTRIES;
  pw_pool_ok : pool_ok (pr_pool w);
  pw_hot_ok : hot_ok (pr_hot w)
}.

Lemma prewarm_ok_start : prewarm_ok pw_start.
Proof. constructor; [by compute|apply pool_ok_start|]. constructor; [by compute|]. cbn. by intros k q H%lookup_empty_Some. Qed.

Lemma prewarm_step_ok {HL : HashOrderLaws HO} w ev w' :
  prewarm_ok w -> prewarm_step w ev = Some w' -> prewarm_ok w'.
Proof.
  intros [Hd Hp Hh]. destruct ev as [ev|now key|now key lookup connect cut]; cbn [prewarm_step].
  - destruct (pool_step (pr_pool w) ev) as [p|] eqn:E; [|done]. intros [= <-].
    constructor; [done| |done]. by apply (pool_step_ok (pr_pool w) ev).
  - intros [= <-]. constructor; [done|done|]. by apply record_and_check_ok.
  - intros [= <-]. constructor; [|done|done]. by apply connect_fresh_len.
Qed.

Lemma prewarm_run_ok {HL : HashOrderLaws HO} w evs w' :
  prewarm_ok w -> prewarm_run w evs = Some w' -> prewarm_ok w'.
Proof.
  revert w. induction evs as [|ev evs IH]; intros w Hok; cbn; [by intros [= <-]|].
  destruct (prewarm_step w ev) as [w1|] eqn:E; [|done]. cbn. apply IH. by apply (prewarm_step_ok w ev).
Qed.

(** ** [open_tcp] *)
Lemma try_take_queue now key p t p' : try_take now key p = (t, p') ->
  (option_list t ++ queue_of key p' `sublist_of` queue_of key p)
  /\ (forall c, t = Some c -> is_fresh now c = true) /\ (t = None -> queue_of key p' = [])
  /\ (forall c, c ∈ queue_of key p -> t = Some c \/ c ∈ queue_of key p' \/ is_fresh now c = false).
Proof.
  pose proof (try_take_upd now key p) as E. assert (forall m a b, queue_of key (mkPool m a b) = queue (host_of key m)) as Hq.
  { intros m a b. unfold queue_of, host_of. cbn. by destruct (m !! key). }
  assert (queue_of key p = queue (host_of key (hosts p))) as -> by (by destruct p).
  destruct (take_fresh now (queue (host_of key (hosts p)))) as [[t0 d] q] eqn:Et.
  rewrite E. intros [= <- <-]. rewrite Hq, host_of_upd, decide_True by done. cbn [queue].
  destruct (take_fresh_spec now _ _ _ _ Et) as (_ & _ & H1 & H2 & H3 & H4). done.
Qed.

(** The loop stops, with a live connection that was in the pool and still fresh, or with
    the host's queue empty. *)
Lemma take_alive_spec fuel now alive key p : (length (queue_of key p) < fuel)%nat ->
  match take_alive fuel now alive key p with
  | (Some s, p') => alive s = true /\ exists c, c ∈ queue_of key p /\ stream c = s /\ is_fresh now c = true
  | (None, p') => queue_of key p' = []
      /\ forall c, c ∈ queue_of key p -> is_fresh now c = true -> alive (stream c) = false
  end.
Proof.
  revert p. induction fuel as [|fuel IH]; intros p Hf; [lia|]. cbn [take_alive].
  destruct (try_take now key p) as [[c|] p1] eqn:E; destruct (try_take_queue now key p _ _ E) as (H1 & H2 & H3 & H4); cbn in H1.
  - assert (c ∈ queue_of key p) as Hc by (eapply elem_of_sublist; [left|exact H1]).
    destruct (alive (stream c)) eqn:Ea; [split; [done|]; exists c; auto|].
    pose proof (sublist_length _ _ H1) as Hl. cbn in Hl. specialize (IH p1 ltac:(lia)).
    assert (forall x, x ∈ queue_of key p1 -> x ∈ queue_of key p) as Hsub.
    { intros x Hx. eapply elem_of_sublist; [|exact H1]. by right. }
    destruct (take_alive fuel now alive key p1) as [[s|] p2].
    + destruct IH as (? & x & ? & ? & ?). split; [done|]. exists x. auto.
    + destruct IH as [? Hd]. split; [done|]. intros x Hx Hfr.
      destruct (H4 x Hx) as [[= ->]|[?|?]]; [done|by apply Hd|congruence].
  - split; [by apply H3|]. intros x Hx Hfr. destruct (H4 x Hx) as [?|[Hx'|?]]; [done| |congruence].
    rewrite H3 in Hx' by done. by apply elem_of_nil in Hx'.
Qed.

Lemma connect_each_ok connect e l s : connect_each connect e l = Ok s -> exists a, a ∈ l /\ connect a = Ok s.
Proof.
  revert e. induction l as [|a l IH]; intros e; cbn; [done|].
  destruct (connect a) as [s'|e'|] eqn:E; [intros [= ->]; exists a; split; [left|done]| |done].
  intros (x & ? & ?)%IH. exists x. split; [by right|done].
Qed.

(** A failed attempt leaves no cached resolution; a connection is to an address that the
    lookup, or a cached earlier one, gave. *)
Lemma connect_fresh_spec now key lookup connect cut c :
  match connect_fresh now key lookup connect cut c with
  | (Ok s, c') => exists a l, fst (dns_resolve now key lookup c) = Ok l /\ a ∈ l /\ connect a = Ok s
  | (_, c') => c' !! key = None
  end.
Proof.
  unfold connect_fresh, dns_evict. destruct cut; [|apply lookup_delete_eq..].
  destruct (dns_resolve now key lookup c) as [[l|e|] c1]; cbn [res_bind fst]; [|apply lookup_delete_eq..].
  destruct (connect_each connect None l) as [s|e|] eqn:E; [|apply lookup_delete_eq..].
  destruct (connect_each_ok _ _ _ _ E) as (a & ? & ?). by exists a, l.
Qed.

End Pool.

(** ** Properties *)

(** The state of the connect path stays bounded, whatever the interleaving of
    session opens and prewarm tasks, resolver and peers: at most 1024 cached resolutions,
    256 tracked hosts with 2 samples each, 64 connections pooled or being opened, 2 per
    host; the two counters are exact, so no reservation leaks; and per host, the
    connections handed out and then those still pooled are a subsequence of those put in,
    in order: a connection is handed out at most once, for the host it was opened to. *)
Theorem prewarm_bounded {HO : HashOrder} {HL : HashOrderLaws HO} (instant_min : Z)
    (evs : list PrewarmEvent) (w : PrewarmRun)
    (Hrun : prewarm_run instant_min pw_start evs = Some w) :
  let p := pool (pr_pool w) in
  map_len (pr_dns w) <= 1024
  /\ map_len (pr_hot w) <= 256 /\ (forall k q, pr_hot w !! k = Some q -> len q <= 2)
  /\ total_actual p + total_pending p <= 64
  /\ total_actual p = msum qlen (hosts p)
  /\ total_pending p = len (outstanding (pr_pool w))
  /\ (forall k, qlen (host_of k (hosts p)) + pending (host_of k (hosts p)) <= 2)
  /\ (forall k, of_host k (handed_out (pr_pool w)) ++ queue (host_of k (hosts p))
                `sublist_of` of_host k (committed (pr_pool w))).
Proof.
  destruct (prewarm_run_ok instant_min pw_start evs w prewarm_ok_start Hrun) as [Hd [] []].
  split_and!; done.
Qed.

(** Two prewarms of one host, taken first in, first out. *)
Definition example_host : hostport := (lit "a.example", 443).
Definition example_prewarms : list PrewarmEvent :=
  [WeRecord 10 example_host; WeRecord 11 example_host; WePool (PeReserve 11 example_host);
   WeConnect 11 example_host (Ok [5]) (fun _ => Ok 7%nat) NoCut;
   WePool (PeReserve 12 example_host); WePool (PeReserve 12 example_host);
   WePool (PeCommit 12 example_host 7); WePool (PeCommit 13 example_host 8); WePool (PeTake 20 example_host)].

Lemma prewarm_bounded_witness :
  exists w, prewarm_run (HO:=list_order) 0 pw_start example_prewarms = Some w
  /\ handed_out (pr_pool w) = [(example_host, mkConn 7 12)] /\ total_actual (pool (pr_pool w)) = 1
  /\ map_len (pr_dns w) <= 1024.
Proof.
  eexists. split; [vm_compute; reflexivity|]. split; [reflexivity|]. split; [reflexivity|].
  refine (proj1 (@prewarm_bounded list_order list_order_laws 0 example_prewarms _ _)).
  vm_compute. reflexivity.
Defined.

(** What opening a destination's connection gives.  Either a connection pooled
    for that destination within the last 30 seconds that passed the liveness probe; or all
    such connections failed the probe and left the pool, and the result is that of a fresh
    attempt, which connects to an address of the resolution (cached or new), and whose
    failure leaves no cached resolution behind. *)
Theorem open_tcp_outcome {HO : HashOrder} (now : Z) (alive : nat -> bool) (key : hostport)
    (lookup : res (list Z) str) (connect : Z -> res nat str) (cut : Cut) (p : PoolInner)
    (c : gmap hostport DnsEntry) :
  let '(r, p', c') := open_tcp now alive key lookup connect cut p c in
  (exists conn, conn ∈ queue_of key p /\ is_fresh now conn = true /\ alive (stream conn) = true
     /\ r = Ok (stream conn) /\ c' = c)
  \/ ((forall conn, conn ∈ queue_of key p -> is_fresh now conn = true -> alive (stream conn) = false)
      /\ queue_of key p' = []
      /\ match r with
         | Ok s => exists a l, fst (dns_resolve now key lookup c) = Ok l /\ a ∈ l /\ connect a = Ok s
         | _ => c' !! key = None
         end).
Proof.
  unfold open_tcp. pose proof (take_alive_spec (S (length (queue_of key p))) now alive key p ltac:(lia)) as H.
  destruct (take_alive _ now alive key p) as [[s|] p1].
  - destruct H as (Ha & conn & Hin & <- & Hf). left. by exists conn.
  - destruct H as [Hq Hd]. pose proof (connect_fresh_spec now key lookup connect cut c) as Hs.
    destruct (connect_fresh now key lookup connect cut c) as [r c1]. right. split_and!; [done..|].
    by destruct r.
Qed.
