(* ===== verification/NodeReplay.v ===== *)
(** * tunnel-node/src/main.rs: the batch replay registry

    A batch that may be retried is claimed under its fingerprint.  The first claim owns the
    batch; a later one waits for the owner's response or is handed the stored response.
    Every method runs under one mutex, so a method is a function on [ReplayRegistry], given
    the instant at which it reads the clock (seconds).

    A watch channel is a number: [next_chan] numbers the next one, [sent] is what was sent
    on each (history, as are the reads of a receiver: it sees the body sent on its
    channel). *)

From stdpp Require Import prelude gmap.
From S2P Require Import Prelude RustStr ListSort.
#[local] Open Scope Z_scope.

Definition REPLAY_TTL : Z := 60.
Definition REPLAY_MAX_ENTRIES : Z := 4096.
Definition REPLAY_MAX_BYTES : Z := 64 * 1024 * 1024.

Inductive ReplayEntry :=
| Pending (tx : nat) (created : Z)
| Ready (body : bytes) (completed : Z).

Inductive ReplayClaim :=
| Owner (tx : nat)
| Wait (tx : nat)
| Hit (body : bytes).

Record ReplayRegistry := mkReg {
  entries : gmap bytes ReplayEntry;
  order : list bytes;
  ready_bytes : Z;
  hits : Z;
  coalesced : Z;
  evictions : Z;
  next_chan : nat;
  sent : list (nat * bytes)
}.

Definition replay_default : ReplayRegistry := mkReg ∅ [] 0 0 0 0 0 [].

Definition set_store (es : gmap bytes ReplayEntry) (ord : list bytes) (n : Z) (r : ReplayRegistry)
    : ReplayRegistry :=
  mkReg es ord n (hits r) (coalesced r) (evictions r) (next_chan r) (sent r).

Definition stamp (e : ReplayEntry) : Z :=
  match e with Pending _ t | Ready _ t => t end.

Definition is_pending (oe : option ReplayEntry) : bool :=
  match oe with Some (Pending _ _) => true | _ => false end.

Definition ready_len (e : ReplayEntry) : Z :=
  match e with Ready b _ => len b | Pending _ _ => 0 end.

Definition expired (now : Z) (oe : option ReplayEntry) : bool :=
  match oe with Some e => REPLAY_TTL <=? now - stamp e | None => true end.

(** ** [expire] *)
Fixpoint expire_loop (now : Z) (es : gmap bytes ReplayEntry) (ord : list bytes) (n : Z)
    : gmap bytes ReplayEntry * list bytes * Z :=
  match ord with
  | [] => (es, [], n)
  | key :: rest =>
    if negb (expired now (es !! key)) then (es, ord, n)
    else
      let n := match es !! key with Some (Ready b _) => saturating_sub n (len b) | _ => n end in
      expire_loop now (delete key es) rest n
  end.

Definition expire (now : Z) (r : ReplayRegistry) : ReplayRegistry :=
  let '(es, ord, n) := expire_loop now (entries r) (order r) (ready_bytes r) in
  set_store es ord n r.

(** ** [claim] *)
Definition claim (now : Z) (key : bytes) (r : ReplayRegistry) : ReplayClaim * ReplayRegistry :=
  let r := expire now r in
  match entries r !! key with
  | Some (Ready b _) =>
    (Hit b, mkReg (entries r) (order r) (ready_bytes r) (wrap 64 (hits r + 1)) (coalesced r)
              (evictions r) (next_chan r) (sent r))
  | Some (Pending tx _) =>
    (Wait tx, mkReg (entries r) (order r) (ready_bytes r) (hits r) (wrap 64 (coalesced r + 1))
                (evictions r) (next_chan r) (sent r))
  | None =>
    let tx := next_chan r in
    (Owner tx, mkReg (<[key := Pending tx now]> (entries r)) (order r ++ [key]) (ready_bytes r)
                 (hits r) (coalesced r) (evictions r) (S tx) (sent r))
  end.

(** ** [evict] *)
Definition over (r : ReplayRegistry) : bool :=
  (REPLAY_MAX_ENTRIES <? Z.of_nat (size (entries r))) || (REPLAY_MAX_BYTES <? ready_bytes r).

(** The [while] loop; [None]: still running after [fuel] turns. *)
Fixpoint evict_loop (fuel : nat) (r : ReplayRegistry) : option ReplayRegistry :=
  match fuel with
  | O => None
  | S fuel =>
    if negb (over r) then Some r else
    match order r with
    | [] => Some r
    | key :: rest =>
      match entries r !! key with
      | Some (Ready b _) =>
        evict_loop fuel
          (mkReg (delete key (entries r)) rest (saturating_sub (ready_bytes r) (len b)) (hits r)
             (coalesced r) (wrap 64 (evictions r + 1)) (next_chan r) (sent r))
      | Some (Pending _ _) =>
        let ord := rest ++ [key] in
        let r := set_store (entries r) ord (ready_bytes r) r in
        if forallb (fun k => is_pending (entries r !! k)) ord then Some r
        else evict_loop fuel r
      | None => evict_loop fuel (set_store (entries r) rest (ready_bytes r) r)
      end
    end
  end.

(** Enough turns for an [order] of that length ([evict_terminates]). *)
Definition evict_fuel (r : ReplayRegistry) : nat :=
  let n := length (order r) in S (n * S n + n).

Definition evict (r : ReplayRegistry) : ReplayRegistry :=
  default r (evict_loop (evict_fuel r) r).

(** ** [complete] *)

(** All of it but the final [evict]. *)
Definition store_ready (now : Z) (key : bytes) (b : bytes) (r : ReplayRegistry) : ReplayRegistry :=
  let '(sender, n) :=
    match entries r !! key with
    | Some (Pending tx _) => (Some tx, ready_bytes r)
    | Some (Ready old _) => (None, saturating_sub (ready_bytes r) (len old))
    | None => (None, ready_bytes r)
    end in
  mkReg (<[key := Ready b now]> (entries r)) (order r) (n + len b) (hits r) (coalesced r)
    (evictions r) (next_chan r)
    (match sender with Some tx => sent r ++ [(tx, b)] | None => sent r end).

Definition complete (now : Z) (key : bytes) (b : bytes) (r : ReplayRegistry) : ReplayRegistry :=
  evict (store_ready now key b r).

(** ** Invariant *)
Notation ready_total := (msum (K:=bytes) ready_len).

Record registry_ok (r : ReplayRegistry) : Prop := {
  rg_nodup : NoDup (order r);
  rg_order : forall k, k ∈ order r -> is_Some (entries r !! k);
  rg_pending : forall k, is_pending (entries r !! k) = true -> k ∈ order r;
  rg_bytes : ready_bytes r = ready_total (entries r)
}.

Lemma ready_len_nonneg e : 0 <= ready_len e.
Proof. destruct e; cbn; [lia|apply len_nonneg]. Qed.

Lemma ready_total_nonneg es : 0 <= ready_total es.
Proof. apply msum_nonneg, ready_len_nonneg. Qed.

(** Dropping a ready entry's bytes from the counter never saturates. *)
Lemma ready_sub es k b t : es !! k = Some (Ready b t) ->
  saturating_sub (ready_total es) (len b) = ready_total (delete k es).
Proof.
  intros E. rewrite (msum_delete _ es k _ E). cbn [ready_len].
  pose proof (ready_total_nonneg (delete k es)). unfold saturating_sub. lia.
Qed.

Lemma registry_ok_default : registry_ok replay_default.
Proof. constructor; cbn; [constructor|by intros k ?%elem_of_nil|intros k; by rewrite lookup_empty|done]. Qed.

(** Removing the entry at the front of [order]. *)
Lemma pop_front_ok (r r' : ReplayRegistry) key rest e :
  order r = key :: rest -> entries r !! key = Some e -> registry_ok r ->
  entries r' = delete key (entries r) -> order r' = rest ->
  ready_bytes r' = match e with Ready b _ => saturating_sub (ready_bytes r) (len b) | _ => ready_bytes r end ->
  registry_ok r'.
Proof.
  intros Ho He [Hn Hor Hpe Hb] E1 E2 E3. rewrite Ho in *. apply NoDup_cons in Hn as [Hk Hn].
  constructor; rewrite ?E1, ?E2, ?E3.
  - done.
  - intros k Hin. rewrite lookup_delete_ne by (intros ->; done). apply Hor. by right.
  - intros k. destruct (decide (key = k)) as [->|Hne]; [by rewrite lookup_delete_eq|].
    rewrite lookup_delete_ne by done. intros [->|?]%Hpe%elem_of_cons; done.
  - rewrite Hb. destruct e as [tx t|b t]; [|by apply (ready_sub _ _ _ t)].
    rewrite (msum_delete _ _ _ _ He). done.
Qed.

(** ** [expire]: only expired entries go *)
Lemma expire_spec now r : registry_ok r ->
  registry_ok (expire now r)
  /\ (forall k e, entries (expire now r) !! k = Some e -> entries r !! k = Some e)
  /\ (forall k e, entries r !! k = Some e -> now - stamp e < REPLAY_TTL ->
        entries (expire now r) !! k = Some e)
  /\ (forall k, k ∉ order r -> entries (expire now r) !! k = entries r !! k)
  /\ order (expire now r) `suffix_of` order r.
Proof.
  intros Hok. unfold expire. remember (order r) as ord eqn:Ho. revert r Ho Hok.
  induction ord as [|key rest IH]; intros r Ho Hok; cbn [expire_loop].
  { cbn. split_and!; try done. destruct Hok. rewrite <- Ho in *. by constructor. }
  destruct (expired now (entries r !! key)) eqn:Ex; cbn [negb].
  2:{ cbn. split_and!; try done. destruct Hok. rewrite <- Ho in *. by constructor. }
  destruct (rg_order r Hok key) as [e He]; [rewrite <- Ho; left|].
  set (n := match _ with Some (Ready b _) => _ | _ => _ end).
  set (r1 := set_store (delete key (entries r)) rest n r).
  assert (registry_ok r1) as Hok1.
  { apply (pop_front_ok r r1 key rest e); [done|done|done|done|done|].
    unfold r1, n. rewrite He. by destruct e. }
  specialize (IH r1 eq_refl Hok1).
  change (entries r1) with (delete key (entries r)) in IH. change (ready_bytes r1) with n in IH.
  destruct (expire_loop now (delete key (entries r)) rest n) as [[es' ord'] n'].
  cbn in IH |- *. destruct IH as (I1 & I2 & I3 & I4 & I5). split_and!.
  - destruct I1. by constructor.
  - intros k e' H. apply I2 in H. by apply lookup_delete_Some in H as [_ ?].
  - intros k e' Hk Ht. apply I3; [|done]. rewrite lookup_delete_Some. split; [|done].
    intros ->. rewrite He in Ex. simplify_eq. cbn in Ex. apply Z.leb_le in Ex. lia.
  - intros k Hk. apply not_elem_of_cons in Hk as [Hk1 Hk2]. rewrite I4 by done. by rewrite lookup_delete_ne by done.
  - by apply suffix_cons_r.
Qed.

(** ** [claim] *)
Lemma claim_ok now key r : registry_ok r -> registry_ok (snd (claim now key r)).
Proof.
  intros Hok. unfold claim. destruct (expire_spec now r Hok) as ([Hn Hor Hp Hb] & _).
  destruct (entries (expire now r) !! key) as [[tx t|b t]|] eqn:E; [by constructor..|].
  constructor; cbn.
  - apply NoDup_app. split_and!; [done| |apply NoDup_singleton].
    intros k Hk ->%list_elem_of_singleton. destruct (Hor key Hk) as [? ?]. congruence.
  - intros k [Hk| ->%list_elem_of_singleton]%elem_of_app; [|by rewrite lookup_insert_eq; eauto].
    destruct (decide (key = k)) as [->|Hne]; [by rewrite lookup_insert_eq; eauto|].
    rewrite lookup_insert_ne by done. by apply Hor.
  - intros k. rewrite elem_of_app, list_elem_of_singleton.
    destruct (decide (key = k)) as [->|Hne]; [by right|]. rewrite lookup_insert_ne by done.
    intros ?. left. by apply Hp.
  - rewrite msum_insert by done. rewrite Hb. cbn. lia.
Qed.

(** ** [evict] terminates, keeps what is pending and respects the limits *)

(** Length of the leading run of pending keys. *)
Fixpoint pending_run (es : gmap bytes ReplayEntry) (ord : list bytes) : nat :=
  match ord with
  | [] => 0
  | k :: rest => if is_pending (es !! k) then S (pending_run es rest) else 0
  end.

Lemma pending_run_le es ord : (pending_run es ord <= length ord)%nat.
Proof. induction ord as [|k rest IH]; cbn; [lia|]. destruct (is_pending _); cbn; lia. Qed.

(** Rotating a pending key to the back shortens the run, unless everything is pending. *)
Lemma pending_run_rotate es k rest :
  forallb (fun k => is_pending (es !! k)) (rest ++ [k]) = false -> is_pending (es !! k) = true ->
  pending_run es (rest ++ [k]) = pending_run es rest.
Proof.
  induction rest as [|x rest IH]; cbn.
  - intros H1 H2. rewrite H2 in H1. done.
  - intros H1 H2. destruct (is_pending (es !! x)); [|done]. cbn in H1. by rewrite IH.
Qed.

(** What a result of [evict] satisfies. *)
Record evicted (r r' : ReplayRegistry) : Prop := {
  ev_ok : registry_ok r';
  ev_limit : over r' = false \/ forall k, k ∈ order r' -> is_pending (entries r' !! k) = true;
  ev_pending : forall k, is_pending (entries r !! k) = true -> entries r' !! k = entries r !! k;
  ev_sub : forall k e, entries r' !! k = Some e -> entries r !! k = Some e;
  ev_unordered : forall k, k ∉ order r -> k ∉ order r' /\ entries r' !! k = entries r !! k;
  ev_order : forall k, k ∈ order r' -> k ∈ order r;
  ev_chans : next_chan r' = next_chan r /\ sent r' = sent r
}.

Lemma evicted_refl r : registry_ok r ->
  over r = false \/ (forall k, k ∈ order r -> is_pending (entries r !! k) = true) -> evicted r r.
Proof. by constructor. Qed.

(** A turn that drops the ready entry at the front. *)
Lemma evicted_pop r r1 r' key rest b t :
  registry_ok r -> order r = key :: rest -> entries r !! key = Some (Ready b t) ->
  entries r1 = delete key (entries r) -> order r1 = rest -> next_chan r1 = next_chan r -> sent r1 = sent r ->
  evicted r1 r' -> evicted r r'.
Proof.
  intros Hok Ho He E1 E2 E3 E4 [A1 A2 A3 A4 A5 A6 A7]. rewrite E1, E2, E3, E4 in *.
  pose proof (rg_nodup _ Hok) as Hn. rewrite Ho in Hn. apply NoDup_cons in Hn as [Hk _].
  constructor; try done; rewrite ?Ho.
  - intros k Hp. assert (key <> k) by (intros ->; by rewrite He in Hp).
    rewrite A3, lookup_delete_ne; rewrite ?lookup_delete_ne; done.
  - intros k e H. apply A4 in H. by apply lookup_delete_Some in H as [_ ?].
  - intros k [Hk1 Hk2]%not_elem_of_cons. destruct (A5 k Hk2) as [? H]. split; [done|].
    rewrite H. by rewrite lookup_delete_ne by done.
  - intros k Hin. right. by apply A6.
Qed.

(** A turn that moves the pending entry at the front to the back. *)
Lemma evicted_rotate r r1 r' key rest :
  order r = key :: rest -> entries r1 = entries r -> order r1 = rest ++ [key] ->
  next_chan r1 = next_chan r -> sent r1 = sent r -> evicted r1 r' -> evicted r r'.
Proof.
  intros Ho E1 E2 E3 E4 [A1 A2 A3 A4 A5 A6 A7]. rewrite E1, E2, E3, E4 in *.
  constructor; try done; rewrite Ho; intros k.
  - intros [? ?]%not_elem_of_cons. apply A5. rewrite elem_of_app, list_elem_of_singleton. tauto.
  - intros Hk. apply A6 in Hk. rewrite elem_of_app, list_elem_of_singleton in Hk. rewrite elem_of_cons. tauto.
Qed.

Lemma registry_ok_rotate r key rest : order r = key :: rest -> registry_ok r ->
  registry_ok (set_store (entries r) (rest ++ [key]) (ready_bytes r) r).
Proof.
  intros Ho [Hn Hor Hp Hb]. rewrite Ho in *.
  assert (key :: rest ≡ₚ rest ++ [key]) as HP by apply Permutation_cons_append.
  constructor; cbn; [by rewrite <- HP| |intros k; rewrite <- HP; apply Hp|done].
  intros k. rewrite <- HP. apply Hor.
Qed.

Lemma evict_loop_terminates fuel r : registry_ok r ->
  (length (order r) * S (length (order r)) + pending_run (entries r) (order r) < fuel)%nat ->
  exists r', evict_loop fuel r = Some r' /\ evicted r r'.
Proof.
  revert r. induction fuel as [|fuel IH]; intros r Hok Hf; [lia|]. cbn [evict_loop].
  destruct (over r) eqn:Ov; cbn [negb]; [|exists r; split; [done|apply evicted_refl; auto]].
  destruct (order r) as [|key rest] eqn:Ho.
  { exists r. split; [done|]. apply evicted_refl; [done|]. right. rewrite Ho. by intros k ?%elem_of_nil. }
  destruct (rg_order r Hok key) as [e He]; [rewrite Ho; left|]. rewrite He.
  cbn [pending_run length] in Hf. rewrite He in Hf.
  destruct e as [tx t|b t]; cbn [is_pending] in Hf.
  - pose proof (registry_ok_rotate r key rest Ho Hok) as Hok1.
    set (r1 := set_store (entries r) (rest ++ [key]) (ready_bytes r) r) in *.
    destruct (forallb _ (rest ++ [key])) eqn:Hall.
    + exists r1. split; [done|]. apply (evicted_rotate r r1 r1 key rest); try done.
      apply evicted_refl; [done|]. right. intros k Hk. cbn in Hk.
      rewrite forallb_forall in Hall. apply Hall. by apply list_elem_of_In.
    + destruct (IH r1 Hok1) as (r' & Hr' & Hev).
      { cbn. rewrite pending_run_rotate; [|done|by rewrite He]. rewrite length_app. cbn. lia. }
      exists r'. split; [done|]. by apply (evicted_rotate r r1 r' key rest).
  - set (r1 := mkReg _ _ _ _ _ _ _ _).
    assert (registry_ok r1) as Hok1 by (by apply (pop_front_ok r r1 key rest (Ready b t))).
    destruct (IH r1 Hok1) as (r' & Hr' & Hev).
    { cbn. pose proof (pending_run_le (delete key (entries r)) rest). lia. }
    exists r'. split; [done|]. by apply (evicted_pop r r1 r' key rest b t).
Qed.

Lemma evict_evicted r : registry_ok r -> evicted r (evict r).
Proof.
  intros Hok. unfold evict. destruct (evict_loop_terminates (evict_fuel r) r Hok) as (r' & -> & ?); [|done].
  unfold evict_fuel. pose proof (pending_run_le (entries r) (order r)). lia.
Qed.

(** More turns than enough change nothing. *)
Lemma evict_loop_mono f f' r r' : (f <= f')%nat -> evict_loop f r = Some r' -> evict_loop f' r = Some r'.
Proof.
  revert f' r. induction f as [|f IH]; intros f' r Hle; [done|]. destruct f' as [|f']; [lia|].
  cbn [evict_loop]. repeat case_match; try done; apply IH; lia.
Qed.

Lemma evict_idle r : over r = false -> evict r = r.
Proof. intros H. unfold evict, evict_fuel. cbn [evict_loop]. by rewrite H. Qed.

Lemma store_ready_ok now key b r : registry_ok r -> registry_ok (store_ready now key b r).
Proof.
  intros [Hn Hor Hp Hb]. unfold store_ready. set (p := match entries r !! key with Some _ => _ | None => _ end).
  destruct p as [sender n] eqn:En. constructor; cbn.
  - done.
  - intros k Hk. destruct (decide (key = k)) as [->|?]; [by rewrite lookup_insert_eq; eauto|].
    rewrite lookup_insert_ne by done. by apply Hor.
  - intros k. destruct (decide (key = k)) as [->|?]; [by rewrite lookup_insert_eq|].
    rewrite lookup_insert_ne by done. apply Hp.
  - rewrite msum_update. subst p.
    destruct (entries r !! key) as [[tx t|old t]|] eqn:E; injection En as <- <-; cbn; try lia.
    rewrite Hb, (ready_sub _ _ _ t) by done. rewrite (msum_delete _ _ _ _ E). cbn [ready_len]. lia.
Qed.

Lemma complete_ok now key b r : registry_ok r -> registry_ok (complete now key b r).
Proof. intros. apply evict_evicted. by apply store_ready_ok. Qed.

(** ** Runs *)
Inductive ReplayEvent :=
| RClaim (now : Z) (key : bytes)
| RComplete (now : Z) (key : bytes) (b : bytes).

Definition replay_step (r : ReplayRegistry) (ev : ReplayEvent) : ReplayRegistry :=
  match ev with
  | RClaim now key => snd (claim now key r)
  | RComplete now key b => complete now key b r
  end.

Definition replay_run (r : ReplayRegistry) (evs : list ReplayEvent) : ReplayRegistry :=
  fold_left replay_step evs r.

Definition event_time (ev : ReplayEvent) : Z :=
  match ev with RClaim t _ | RComplete t _ _ => t end.

Definition completes (key : bytes) (ev : ReplayEvent) : Prop :=
  match ev with RComplete _ k _ => k = key | RClaim _ _ => False end.

(** No completion of the run finds the registry above its limits. *)
Fixpoint unpressed (r : ReplayRegistry) (evs : list ReplayEvent) : bool :=
  match evs with
  | [] => true
  | ev :: evs =>
    match ev with RComplete now key b => negb (over (store_ready now key b r)) | _ => true end
    && unpressed (replay_step r ev) evs
  end.

Lemma replay_step_ok r ev : registry_ok r -> registry_ok (replay_step r ev).
Proof. destruct ev; [apply claim_ok|apply complete_ok]. Qed.

Lemma replay_run_ok r evs : registry_ok r -> registry_ok (replay_run r evs).
Proof. revert r. induction evs as [|ev evs IH]; intros r Hr; cbn; [done|]. by apply IH, replay_step_ok. Qed.

(** A claim changes no entry it finds alive. *)
Lemma claim_keeps now k' r key e : registry_ok r -> entries r !! key = Some e ->
  now - stamp e < REPLAY_TTL \/ key ∉ order r -> entries (snd (claim now k' r)) !! key = Some e.
Proof.
  intros Hok He Ht. destruct (expire_spec now r Hok) as (_ & _ & H1 & H2 & _). unfold claim.
  assert (entries (expire now r) !! key = Some e) as He'.
  { destruct Ht; [by apply H1|by rewrite H2]. }
  destruct (entries (expire now r) !! k') as [[]|] eqn:E; cbn; [done..|].
  rewrite lookup_insert_ne by congruence. done.
Qed.

Lemma claim_order now k' r key : registry_ok r -> is_Some (entries r !! key) -> key ∉ order r ->
  key ∉ order (snd (claim now k' r)).
Proof.
  intros Hok [e He] Hk. destruct (expire_spec now r Hok) as (_ & _ & _ & H2 & Hs). unfold claim.
  assert (key ∉ order (expire now r)).
  { intros Hin. apply Hk. destruct Hs as [x ->]. apply elem_of_app. by right. }
  destruct (entries (expire now r) !! k') as [[]|] eqn:E; cbn; [done..|].
  rewrite elem_of_app, list_elem_of_singleton. intros [?| ->]; [done|]. rewrite H2 in E by done. congruence.
Qed.

Lemma claim_found now key r e : registry_ok r -> entries r !! key = Some e ->
  now - stamp e < REPLAY_TTL \/ key ∉ order r ->
  fst (claim now key r) = match e with Pending tx _ => Wait tx | Ready b _ => Hit b end.
Proof.
  intros Hok He Ht. destruct (expire_spec now r Hok) as (_ & _ & H1 & H2 & _). unfold claim.
  assert (entries (expire now r) !! key = Some e) as ->.
  { destruct Ht; [by apply H1|by rewrite H2]. }
  by destruct e.
Qed.

Lemma store_ready_other now k' b r key : k' <> key ->
  entries (store_ready now k' b r) !! key = entries r !! key.
Proof. intros. unfold store_ready. destruct (match _ with Some _ => _ | None => _ end). cbn. by rewrite lookup_insert_ne. Qed.

Lemma store_ready_same now key b r : entries (store_ready now key b r) !! key = Some (Ready b now)
  /\ order (store_ready now key b r) = order r.
Proof. unfold store_ready. destruct (match _ with Some _ => _ | None => _ end). cbn. by rewrite lookup_insert_eq. Qed.

(** An entry survives a run that does not complete it, while it is younger than the TTL,
    if it is pending or nothing has to be evicted. *)
Lemma run_keeps evs r key e : registry_ok r -> entries r !! key = Some e ->
  Forall (fun ev => event_time ev - stamp e < REPLAY_TTL) evs ->
  Forall (fun ev => ~ completes key ev) evs ->
  is_pending (Some e) = true \/ unpressed r evs = true ->
  entries (replay_run r evs) !! key = Some e.
Proof.
  revert r. induction evs as [|ev evs IH]; intros r Hok He Ht Hc Hp; cbn; [done|].
  apply Forall_cons in Ht as [Ht1 Ht2]. apply Forall_cons in Hc as [Hc1 Hc2].
  apply IH; [by apply replay_step_ok| |done|done|].
  - destruct ev as [now k'|now k' b]; cbn [replay_step event_time completes unpressed] in *; [apply claim_keeps; auto|].
    unfold complete. destruct Hp as [Hp|Hp].
    + destruct (evict_evicted _ (store_ready_ok now k' b r Hok)) as [_ _ H _ _ _ _].
      rewrite H; rewrite store_ready_other by done; [done|by rewrite He].
    + apply andb_true_iff in Hp as [Hp _]. apply negb_true_iff in Hp.
      rewrite evict_idle by done. by rewrite store_ready_other.
  - destruct Hp as [Hp|Hp]; [by left|right]. cbn in Hp. by apply andb_true_iff in Hp as [_ ?].
Qed.

(** An entry outside [order] is never removed. *)
Lemma run_keeps_unordered evs r key e : registry_ok r -> entries r !! key = Some e -> key ∉ order r ->
  Forall (fun ev => ~ completes key ev) evs ->
  entries (replay_run r evs) !! key = Some e /\ key ∉ order (replay_run r evs).
Proof.
  revert r. induction evs as [|ev evs IH]; intros r Hok He Ho Hc; cbn; [done|].
  apply Forall_cons in Hc as [Hc1 Hc2].
  assert (entries (replay_step r ev) !! key = Some e /\ key ∉ order (replay_step r ev)) as [? ?].
  { destruct ev as [now k'|now k' b]; cbn [replay_step completes] in *.
    - split; [apply claim_keeps; auto|apply claim_order; eauto].
    - destruct (evict_evicted _ (store_ready_ok now k' b r Hok)) as [_ _ _ _ H _ _].
      destruct (H key) as [? H2]; [by rewrite (proj2 (store_ready_same now k' b r))|].
      split; [|done]. unfold complete. by rewrite H2, store_ready_other. }
  apply IH; [by apply replay_step_ok|done..].
Qed.

(** ** Properties *)

(** A retried batch is executed at most once.  After a claim made its caller the
    owner of a batch at [t0], whatever other claims and completions follow within 60
    seconds, a claim of the same batch waits on the owner's channel; when the owner
    completes, the response is sent on that channel; and for the next 60 seconds a claim
    is handed that response, unless the registry had to evict because it was over its
    limits. *)
Theorem replay_at_most_once (r0 : ReplayRegistry) (t0 t tc t' : Z) (key : bytes) (tx : nat)
    (b : bytes) (evs evs' : list ReplayEvent)
    (Hok : registry_ok r0)
    (Hown : fst (claim t0 key r0) = Owner tx)
    (Ht : Forall (fun ev => event_time ev - t0 < REPLAY_TTL) evs /\ t - t0 < REPLAY_TTL)
    (Hc : Forall (fun ev => ~ completes key ev) (evs ++ evs'))
    (Ht' : Forall (fun ev => event_time ev - tc < REPLAY_TTL) evs' /\ t' - tc < REPLAY_TTL) :
  let r1 := replay_run (snd (claim t0 key r0)) evs in
  let r2 := complete tc key b r1 in
  fst (claim t key r1) = Wait tx
  /\ sent r2 = sent r1 ++ [(tx, b)]
  /\ (unpressed r1 (RComplete tc key b :: evs') = true ->
      fst (claim t' key (replay_run r2 evs')) = Hit b).
Proof.
  cbn zeta. apply Forall_app in Hc as [Hc Hc'].
  assert (entries (snd (claim t0 key r0)) !! key = Some (Pending tx t0)) as He.
  { revert Hown. unfold claim. destruct (entries _ !! key) as [[]|]; cbn; try done.
    intros [= <-]. by rewrite lookup_insert_eq. }
  pose proof (claim_ok t0 key r0 Hok) as Hok1. pose proof (replay_run_ok _ evs Hok1) as Hok2.
  assert (entries (replay_run (snd (claim t0 key r0)) evs) !! key = Some (Pending tx t0)) as He1.
  { apply run_keeps; [done|done|apply Ht|done|by left]. }
  set (r1 := replay_run (snd (claim t0 key r0)) evs) in *. split_and!.
  - apply (claim_found t key r1 (Pending tx t0)); [done|done|left; apply Ht].
  - unfold complete. destruct (evict_evicted _ (store_ready_ok tc key b r1 Hok2)) as [_ _ _ _ _ _ [_ ->]].
    unfold store_ready. by rewrite He1.
  - cbn [unpressed replay_step]. intros [Hun%negb_true_iff Hun']%andb_true_iff.
    apply (claim_found _ _ _ (Ready b tc)); [by apply replay_run_ok, complete_ok| |left; apply Ht'].
    apply run_keeps; [by apply complete_ok| |apply Ht'|done|by right].
    unfold complete. rewrite evict_idle by done. apply store_ready_same.
Qed.

(** A duplicate arrives before and after the owner's response. *)
Lemma replay_at_most_once_witness :
  let r1 := replay_run (snd (claim 5 [1] replay_default)) [RClaim 6 [2]; RClaim 7 [1]] in
  fst (claim 8 [1] r1) = Wait 0
  /\ sent (complete 9 [1] [65] r1) = sent r1 ++ [(0%nat, [65])]
  /\ (unpressed r1 (RComplete 9 [1] [65] :: [RComplete 10 [2] [66]]) = true ->
      fst (claim 68 [1] (replay_run (complete 9 [1] [65] r1) [RComplete 10 [2] [66]])) = Hit [65]).
Proof.
  apply (replay_at_most_once replay_default 5 8 9 68 [1] 0 [65] [RClaim 6 [2]; RClaim 7 [1]]
           [RComplete 10 [2] [66]]).
  - apply registry_ok_default.
  - reflexivity.
  - split; [repeat constructor|]; reflexivity.
  - repeat constructor; cbn; auto; discriminate.
  - split; [repeat constructor|]; reflexivity.
Defined.

(** The eviction loop of the replay registry terminates.  In every registry that
    claims and completions can build, the [while] loop that runs after a response is stored
    returns, after at most [n*(n+1)+n+1] turns for [n] ordered keys, although it puts
    pending entries back at the end of the queue it pops; it returns with both limits
    respected or with only pending batches left in the queue, never drops a pending batch,
    and the byte counter equals the bytes held. *)
Theorem replay_evict_terminates (evs : list ReplayEvent) (now : Z) (key b : bytes) :
  let r := store_ready now key b (replay_run replay_default evs) in
  exists r',
    (forall fuel, (evict_fuel r <= fuel)%nat -> evict_loop fuel r = Some r')
    /\ complete now key b (replay_run replay_default evs) = r'
    /\ (over r' = false \/ forall k, k ∈ order r' -> is_pending (entries r' !! k) = true)
    /\ (forall k, is_pending (entries r !! k) = true -> entries r' !! k = entries r !! k)
    /\ ready_bytes r' = ready_total (entries r').
Proof.
  cbn zeta. set (r := store_ready now key b (replay_run replay_default evs)).
  assert (registry_ok r) as Hok by apply store_ready_ok, replay_run_ok, registry_ok_default.
  destruct (evict_loop_terminates (evict_fuel r) r Hok) as (r' & Hr' & [H1 H2 H3 _ _ _ _]).
  { unfold evict_fuel. pose proof (pending_run_le (entries r) (order r)). lia. }
  exists r'. split_and!; [|unfold complete, evict; by fold r; rewrite Hr'|done|done|apply H1].
  intros fuel Hf. by apply (evict_loop_mono (evict_fuel r)).
Qed.

(** A late completion is never forgotten.  If the owner of a batch completes after
    its claim was expired (60 seconds), the stored response is outside the expiry queue: no
    later claim expires it and no eviction removes it, so the same batch is answered from
    the registry at every later time, and its bytes stay counted. *)
Theorem replay_late_completion_sticks (r : ReplayRegistry) (tc t : Z) (key b : bytes)
    (evs : list ReplayEvent)
    (Hok : registry_ok r)
    (Hexp : entries r !! key = None)
    (Hc : Forall (fun ev => ~ completes key ev) evs) :
  let r' := replay_run (complete tc key b r) evs in
  fst (claim t key r') = Hit b /\ len b <= ready_bytes r'.
Proof.
  cbn zeta.
  assert (key ∉ order r) as Ho by (intros Hin; destruct (rg_order r Hok key Hin); congruence).
  destruct (evict_evicted _ (store_ready_ok tc key b r Hok)) as [_ _ _ _ H _ _].
  destruct (store_ready_same tc key b r) as [Hs Hso].
  destruct (H key) as [H1 H2]; [by rewrite Hso|]. rewrite Hs in H2. fold (complete tc key b r) in H1, H2.
  pose proof (complete_ok tc key b r Hok) as Hok1.
  destruct (run_keeps_unordered evs _ key _ Hok1 H2 H1 Hc) as [He1 Ho1].
  pose proof (replay_run_ok _ evs Hok1) as Hok2. split.
  - apply (claim_found _ _ _ (Ready b tc)); [done|done|by right].
  - rewrite (rg_bytes _ Hok2), (msum_delete _ _ _ _ He1). cbn [ready_len].
    pose proof (ready_total_nonneg (delete key (entries (replay_run (complete tc key b r) evs)))). lia.
Qed.

(** A batch that took 61 seconds, asked again a day later. *)
Lemma replay_late_completion_sticks_witness :
  let r := snd (claim 60 [2] (snd (claim 0 [1] replay_default))) in
  entries r !! [1] = None
  /\ fst (claim 86400 [1] (replay_run (complete 61 [1] [65] r) [RClaim 200 [3]])) = Hit [65].
Proof.
  cbn zeta. split; [vm_compute; reflexivity|].
  apply (replay_late_completion_sticks (snd (claim 60 [2] (snd (claim 0 [1] replay_default)))) 61 86400 [1] [65] [RClaim 200 [3]]).
  - apply claim_ok, claim_ok, registry_ok_default.
  - vm_compute; reflexivity.
  - repeat constructor; cbn; auto.
Defined.
