(* ===== verification/NodeProto.v ===== *)
(** * tunnel-node/src/main.rs: requests, responses and the replay fingerprint

    A deserialized request is a record with the fields of the JSON object; [u16] and [u64]
    fields are integers.  serde_json, blake3, flate2 and zstd are parameters. *)

From stdpp Require Import prelude.
From S2P Require Import Prelude RustStr.
#[local] Open Scope Z_scope.

Definition CODE_UNSUPPORTED_OP : str := lit "UNSUPPORTED_OP".
Definition CAP_ZSTD : Z := 1.
Definition CAP_SAFE_BATCH_REPLAY : Z := 2.
Definition SERVER_CAPABILITIES : Z := Z.lor CAP_ZSTD CAP_SAFE_BATCH_REPLAY.

Record TunnelRequest := mkReq {
  rq_k : str; rq_op : str; rq_host : option str; rq_port : option Z;
  rq_sid : option str; rq_data : option str
}.

Record TunnelResponse := mkResp {
  r_sid : option str; r_d : option str; r_pkts : option (list str); r_eof : option bool;
  r_e : option str; r_code : option str; r_seq : option Z
}.

Definition resp_error (msg : str) : TunnelResponse := mkResp None None None None (Some msg) None None.
Definition unsupported_op (op : str) : TunnelResponse :=
  mkResp None None None None (Some (lit "unknown op: " ++ op)) (Some CODE_UNSUPPORTED_OP) None.

Record BatchOp := mkOp {
  o_op : str; o_sid : option str; o_host : option str; o_port : option Z;
  o_d : option str; o_seq : option Z; o_wseq : option Z
}.

Record BatchRequest := mkBatch { b_k : str; b_ops : list BatchOp; b_zops : option str; b_zc : option Z }.

#[export] Instance batch_op_eq_dec : EqDecision BatchOp.
Proof. solve_decision. Defined.
#[export] Instance tunnel_response_eq_dec : EqDecision TunnelResponse.
Proof. solve_decision. Defined.

(** [as_deref().is_none_or(str::is_empty)] *)
Definition none_or_empty (o : option str) : bool :=
  match o with Some s => bool_decide (s = []) | None => true end.

(** ** [replay_fingerprint] *)

(** The [any] of the guard: this op forbids a replay. *)
Definition op_unsafe (op : BatchOp) : bool :=
  negb (bool_decide (o_op op = lit "data"))
  || none_or_empty (o_sid op)
  || bool_decide (o_seq op = None)
  || (negb (none_or_empty (o_d op)) && bool_decide (o_wseq op = None)).

Class Digest := {
  ops_to_vec : list BatchOp -> option bytes;   (* serde_json::to_vec *)
  blake3 : bytes -> bytes
}.

Definition replay_fingerprint `{Digest} (ops : list BatchOp) (compressed_response : bool) : option bytes :=
  if bool_decide (ops = []) || existsb op_unsafe ops then None
  else canonical ← ops_to_vec ops;
       Some (blake3 ((if compressed_response then 1 else 0) :: canonical)).

(** ** Responses *)
Section Responses.
Context {B : Base64}.

Definition data_field (data : bytes) : option str :=
  if bool_decide (data = []) then None else Some (b64_encode data).

Definition tcp_drain_response (sid : str) (data : bytes) (eof : bool) (seq : option Z) : TunnelResponse :=
  mkResp (Some sid) (data_field data) None (Some eof) None None seq.

Definition udp_drain_response (sid : str) (packets : list bytes) (eof : bool) (seq : option Z) : TunnelResponse :=
  let pkts := if bool_decide (packets = []) then None else Some (b64_encode <$> packets) in
  mkResp (Some sid) None pkts (Some eof) None None seq.
End Responses.

Definition eof_response (sid : str) (seq : option Z) : TunnelResponse :=
  mkResp (Some sid) None None (Some true) None None seq.

Definition validate_host_port (host : option str) (port : option Z) : res (str * Z) TunnelResponse :=
  match host with
  | Some h =>
    if bool_decide (h = []) then Err (resp_error (lit "missing host")) else
    match port with
    | Some p => if 0 <? p then Ok (h, p) else Err (resp_error (lit "missing or invalid port"))
    | None => Err (resp_error (lit "missing or invalid port"))
    end
  | None => Err (resp_error (lit "missing host"))
  end.

(** [match sid { Some(s) if !s.is_empty() => s, _ => .. }] *)
Definition required_sid (sid : option str) : option str :=
  match sid with Some s => if bool_decide (s = []) then None else Some s | None => None end.

(** ** HTTP *)
Record HttpResponse := mkHttp { h_status : Z; h_content_type : str; h_body : bytes }.

Definition DECOY_404_BODY : str :=
  lit "<html>" ++ [13; 10] ++ lit "<head><title>404 Not Found</title></head>" ++ [13; 10] ++
  lit "<body>" ++ [13; 10] ++ lit "<center><h1>404 Not Found</h1></center>" ++ [13; 10] ++
  lit "<hr><center>nginx</center>" ++ [13; 10] ++ lit "</body>" ++ [13; 10] ++ lit "</html>" ++ [13; 10].

Definition decoy : HttpResponse := mkHttp 404 (lit "text/html") (as_bytes DECOY_404_BODY).
Definition json_ok (b : bytes) : HttpResponse := mkHttp 200 (lit "application/json") b.
