(* ===== verification/Node.v ===== *)
(** * tunnel-node/src/main.rs: the node's state and its interleavings

    [AppState]: the two session tables, the connect path and the replay registry.  The
    tables map a session id to the handle of a session; a handle stands for an
    [Arc<SessionInner>] and [heap] is what it points to, so a handler that cloned the Arc
    keeps working on the session after the id has left the table, as in the code.

    Handlers run concurrently and can be interleaved at their awaits.  [interfere] is such
    a point: the environment [E] performs there any list of actions of the other tasks
    (readers, other requests, the cleanup task, prewarms).  [tick] numbers the points.

    [trace] is history: the events of all sessions in order, each with its outcome and the
    tag of the operation that caused it (0 for the environment). *)

From stdpp Require Import prelude gmap.
From S2P Require Import Prelude RustStr ListSort Reorder NodeSession NodePool NodeReplay.
#[local] Open Scope Z_scope.

Record ManagedSession := mkManaged { ms_inner : nat; ms_udpgw : bool }.

Record TraceEntry := mkTrace {
  te_tag : nat; te_handle : nat; te_event : SessionEvent; te_out : option (bytes * bool)
}.

Record Node := mkNode {
  heap : gmap nat SessionInner;
  udp_heap : gmap nat UdpSessionInner;
  sessions : gmap str ManagedSession;
  udp_sessions : gmap str nat;
  prewarm : PrewarmState;
  replay : ReplayRegistry;
  next_handle : nat;
  tick : nat;
  aborted : list nat;                 (** history: readers that were aborted *)
  births : gmap nat SessionInner;     (** history: sessions as they were created *)
  trace : list TraceEntry             (** history *)
}.

Definition node_new (prewarm_on : bool) : Node :=
  mkNode ∅ ∅ ∅ ∅ (with_prewarm_enabled prewarm_on) replay_default 0 0 [] ∅ [].

(** ** Updates *)
Definition set_heap (m : gmap nat SessionInner) (t : list TraceEntry) (n : Node) : Node :=
  mkNode m (udp_heap n) (sessions n) (udp_sessions n) (prewarm n) (replay n) (next_handle n) (tick n)
    (aborted n) (births n) t.
Definition set_udp_heap (m : gmap nat UdpSessionInner) (n : Node) : Node :=
  mkNode (heap n) m (sessions n) (udp_sessions n) (prewarm n) (replay n) (next_handle n) (tick n)
    (aborted n) (births n) (trace n).
Definition set_tables (s : gmap str ManagedSession) (u : gmap str nat) (a : list nat) (n : Node) : Node :=
  mkNode (heap n) (udp_heap n) s u (prewarm n) (replay n) (next_handle n) (tick n) a (births n) (trace n).
Definition set_prewarm (w : PrewarmState) (n : Node) : Node :=
  mkNode (heap n) (udp_heap n) (sessions n) (udp_sessions n) w (replay n) (next_handle n) (tick n)
    (aborted n) (births n) (trace n).
Definition set_replay (r : ReplayRegistry) (n : Node) : Node :=
  mkNode (heap n) (udp_heap n) (sessions n) (udp_sessions n) (prewarm n) r (next_handle n) (tick n)
    (aborted n) (births n) (trace n).
Definition set_tick (t : nat) (n : Node) : Node :=
  mkNode (heap n) (udp_heap n) (sessions n) (udp_sessions n) (prewarm n) (replay n) (next_handle n) t
    (aborted n) (births n) (trace n).

(** A session created with [initial] already written, under a new handle. *)
Definition alloc_session (s : SessionInner) (n : Node) : nat * Node :=
  (next_handle n,
   mkNode (<[next_handle n := s]> (heap n)) (udp_heap n) (sessions n) (udp_sessions n) (prewarm n)
     (replay n) (S (next_handle n)) (tick n) (aborted n) (<[next_handle n := s]> (births n)) (trace n)).
Definition alloc_udp (u : UdpSessionInner) (n : Node) : nat * Node :=
  (next_handle n,
   mkNode (heap n) (<[next_handle n := u]> (udp_heap n)) (sessions n) (udp_sessions n) (prewarm n)
     (replay n) (S (next_handle n)) (tick n) (aborted n) (births n) (trace n)).

(** ** Operations on a session, by handle *)

Definition record_step (tag h : nat) (ev : SessionEvent) (o : option (bytes * bool)) (s : SessionInner)
    (n : Node) : Node :=
  set_heap (<[h := s]> (heap n)) (trace n ++ [mkTrace tag h ev o]) n.

Definition node_touch (tag h : nat) (now : Z) (n : Node) : Node :=
  match heap n !! h with
  | Some s => record_step tag h (SeTouch now) None (touch now s) n
  | None => n
  end.

Definition node_eof (h : nat) (n : Node) : bool :=
  match heap n !! h with Some s => eof s | None => false end.

(** [drain_now], given the flag it loaded. *)
Definition node_drain (tag h : nat) (raw_eof : bool) (max : Z) (n : Node) : bytes * bool * Node :=
  match heap n !! h with
  | Some s =>
    let '(d, e, s') := drain_now raw_eof max s in
    (d, e, record_step tag h (SeDrain raw_eof max) (Some (d, e)) s' n)
  | None => ([], false, n)
  end.

(** The take of [wait_and_drain]. *)
Definition node_take (tag h : nat) (n : Node) : bytes * bool * Node :=
  match heap n !! h with
  | Some s =>
    let '(d, e, s') := wait_and_drain s in
    (d, e, record_step tag h SeTake (Some (d, e)) s' n)
  | None => ([], false, n)
  end.

Definition write_event (wseq : option Z) (b : bytes) (w : WriteOutcome) : SessionEvent :=
  match wseq, w with
  | None, _ => SeWriteRaw b
  | Some q, Accepted => SeWrite q b
  | Some q, CapExceeded => SeReject q b
  end.

Definition node_data_write (tag h : nat) (wseq : option Z) (b : bytes) (n : Node) : Node * WriteOutcome :=
  match heap n !! h with
  | Some s =>
    let '(s', w) := data_write wseq b s in
    (record_step tag h (write_event wseq b w) None s' n, w)
  | None => (n, Accepted)
  end.

(** A plain [write_all] whose failure the caller sees. *)
Definition node_write (tag h : nat) (b : bytes) (n : Node) : Node * bool :=
  match heap n !! h with
  | Some s =>
    let '(s', ok) := session_write b s in
    (record_step tag h (SeWriteRaw b) None s' n, ok)
  | None => (n, true)
  end.

(** ** Tables *)

(** [sessions.remove(sid)], then the abort of its reader. *)
Definition remove_session (sid : str) (n : Node) : Node :=
  match sessions n !! sid with
  | Some ms => set_tables (delete sid (sessions n)) (udp_sessions n) (aborted n ++ [ms_inner ms]) n
  | None => n
  end.
Definition remove_udp_session (sid : str) (n : Node) : Node :=
  match udp_sessions n !! sid with
  | Some h => set_tables (sessions n) (delete sid (udp_sessions n)) (aborted n ++ [h]) n
  | None => n
  end.

(** ** The environment *)
Inductive EnvAct :=
| XSession (h : nat) (ev : SessionEvent)      (* any event of a session *)
| XNew (room : option nat) (now : Z) (initial : bytes) (sid : str) (udpgw : bool)
| XNewUdp (now : Z) (sid : str)
| XUdp (h : nat) (ev : UdpEvent)
| XRemove (sid : str)
| XRemoveUdp (sid : str)
| XReplay (ev : ReplayEvent)
| XPrewarm (w : PrewarmState).

Definition env_act (n : Node) (a : EnvAct) : Node :=
  match a with
  | XSession h ev =>
    match heap n !! h with
    | Some s => match session_step s ev with
                | Some (s', o) => record_step 0 h ev o s' n
                | None => n
                end
    | None => n
    end
  | XNew room now initial sid udpgw =>
    let '(h, n) := alloc_session (session_open (mkWriter [] room) now initial) n in
    set_tables (<[sid := mkManaged h udpgw]> (sessions n)) (udp_sessions n) (aborted n) n
  | XNewUdp now sid =>
    let '(h, n) := alloc_udp (udp_new now) n in
    set_tables (sessions n) (<[sid := h]> (udp_sessions n)) (aborted n) n
  | XUdp h ev =>
    match udp_heap n !! h with Some u => set_udp_heap (<[h := udp_step u ev]> (udp_heap n)) n | None => n end
  | XRemove sid => remove_session sid n
  | XRemoveUdp sid => remove_udp_session sid n
  | XReplay ev => set_replay (replay_step (replay n) ev) n
  | XPrewarm w => set_prewarm w n
  end.

Definition Env : Type := nat -> list EnvAct.

Definition interfere (E : Env) (n : Node) : Node :=
  set_tick (S (tick n)) (fold_left env_act (E (tick n)) n).

(** ** Invariant *)

(** The events of a session and what its drains took. *)
Definition events_of (h : nat) (t : list TraceEntry) : list SessionEvent :=
  te_event <$> filter (fun x => te_handle x = h) t.
Definition outs_of (h : nat) (t : list TraceEntry) : list (bytes * bool) :=
  filter (fun x => te_handle x = h) t ≫= fun x => option_list (te_out x).

(** How a session is created. *)
Definition born (s : SessionInner) : Prop :=
  exists room now initial, s = session_open (mkWriter [] room) now initial.

(** Every session is what its events made of it. *)
Record node_ok (n : Node) : Prop := {
  no_run : forall h s, heap n !! h = Some s -> exists s0, births n !! h = Some s0 /\ born s0
    /\ session_run s0 (events_of h (trace n)) = Some (s, outs_of h (trace n));
  no_fresh : forall h s, heap n !! h = Some s -> (h < next_handle n)%nat;
  no_births : forall h, is_Some (births n !! h) -> is_Some (heap n !! h);
  no_trace : forall x, x ∈ trace n -> is_Some (heap n !! te_handle x);
  no_table : forall sid ms, sessions n !! sid = Some ms -> is_Some (heap n !! ms_inner ms);
  no_udp : forall h u, udp_heap n !! h = Some u -> udp_ok u /\ (h < next_handle n)%nat;
  no_replay : registry_ok (replay n)
}.

(** What a step may do to the rest: handles stay, the trace grows, an end of stream stays. *)
Record node_le (n n' : Node) : Prop := {
  nl_heap : forall h s, heap n !! h = Some s -> exists s', heap n' !! h = Some s' /\ (eof s = true -> eof s' = true);
  nl_births : forall h s, births n !! h = Some s -> births n' !! h = Some s;
  nl_trace : exists t, trace n' = trace n ++ t;
  nl_udp : forall h, is_Some (udp_heap n !! h) -> is_Some (udp_heap n' !! h)
}.

#[export] Instance node_le_refl : Reflexive node_le.
Proof. intros n. constructor; eauto. exists []. by rewrite app_nil_r. Qed.

#[export] Instance node_le_trans : Transitive node_le.
Proof.
  intros n1 n2 n3 [A1 A2 [t1 A3] A4] [B1 B2 [t2 B3] B4]. constructor; eauto.
  - intros h s (s' & Hs & He)%A1. apply B1 in Hs as (s'' & ? & ?). exists s''. auto.
  - exists (t1 ++ t2). by rewrite B3, A3, app_assoc.
Qed.

Lemma session_run_snoc s0 evs s os ev s' o :
  session_run s0 evs = Some (s, os) -> session_step s ev = Some (s', o) ->
  session_run s0 (evs ++ [ev]) = Some (s', os ++ option_list o).
Proof.
  revert s0 os. induction evs as [|e evs IH]; intros s0 os Hr Hs; cbn in *.
  - injection Hr as <- <-. rewrite Hs. cbn. by rewrite app_nil_r.
  - destruct (session_step s0 e) as [[s1 o1]|]; [|done]. cbn in *.
    destruct (session_run s1 evs) as [[s2 os2]|] eqn:E; [|done]. cbn in Hr. injection Hr as <- <-.
    rewrite (IH s1 os2) by done. cbn. by rewrite app_assoc.
Qed.

Lemma events_of_snoc h t tag h' ev o :
  events_of h (t ++ [mkTrace tag h' ev o]) = events_of h t ++ (if decide (h' = h) then [ev] else []).
Proof. unfold events_of. rewrite filter_app, fmap_app. f_equal. unfold filter; cbn. by destruct (decide _). Qed.

Lemma outs_of_snoc h t tag h' ev o :
  outs_of h (t ++ [mkTrace tag h' ev o]) = outs_of h t ++ (if decide (h' = h) then option_list o else []).
Proof.
  unfold outs_of. rewrite filter_app, bind_app. f_equal. unfold filter; cbn.
  destruct (decide _); cbn; by rewrite ?app_nil_r.
Qed.

Lemma born_read_ok s : born s -> read_ok s.
Proof. intros (room & now & initial & ->). apply (session_open_ok room now initial []). Qed.

Lemma run_read_ok s0 evs s os : born s0 -> session_run s0 evs = Some (s, os) -> read_ok s.
Proof. intros Hb Hr. by apply (session_run_read_ok evs s0 s os Hr), born_read_ok. Qed.

(** The step every session operation is. *)
Lemma record_step_ok tag h ev o s s' n :
  node_ok n -> heap n !! h = Some s -> session_step s ev = Some (s', o) ->
  node_ok (record_step tag h ev o s' n) /\ node_le n (record_step tag h ev o s' n).
Proof.
  intros [H1 H2 Hb2 H3 H4 H5 H6] Hs Hstep. destruct (H1 h s Hs) as (s0 & Hb & Hbo & Hrun).
  pose proof (session_run_snoc _ _ _ _ _ _ _ Hrun Hstep) as Hrun'.
  assert (forall k, is_Some (heap n !! k) -> is_Some (<[h := s']> (heap n) !! k)) as Hsome.
  { intros k. destruct (decide (h = k)) as [->|]; [by rewrite lookup_insert_eq|by rewrite lookup_insert_ne]. }
  split; constructor; cbn [record_step set_heap heap births trace sessions udp_heap next_handle replay]; try done.
  - intros k x. rewrite events_of_snoc, outs_of_snoc. destruct (decide (h = k)) as [->|Hne].
    + rewrite lookup_insert_eq. intros [= <-]. exists s0. auto.
    + rewrite lookup_insert_ne by done. rewrite !app_nil_r. apply H1.
  - intros k x. destruct (decide (h = k)) as [->|Hne]; [rewrite lookup_insert_eq; eauto|].
    rewrite lookup_insert_ne by done. apply H2.
  - intros k Hk. apply Hsome. by apply Hb2.
  - intros x [Hx| ->%list_elem_of_singleton]%elem_of_app; apply Hsome; [by apply H3|]. cbn. eauto.
  - intros sid ms Hms. apply Hsome. by apply (H4 sid).
  - intros k x Hx. destruct (decide (h = k)) as [->|Hne].
    + rewrite lookup_insert_eq. exists s'. split; [done|]. rewrite Hs in Hx. injection Hx as <-.
      apply (session_step_read_ok s ev s' o Hstep). by apply (run_read_ok s0 _ _ _ Hbo Hrun).
    + rewrite lookup_insert_ne by done. eauto.
  - eauto.
Qed.

(** ** The operations keep the invariant *)
Definition keeps (n n' : Node) : Prop := node_ok n' /\ node_le n n'.

Lemma keeps_refl n : node_ok n -> keeps n n.
Proof. by split. Qed.

Lemma keeps_trans n1 n2 n3 : keeps n1 n2 -> (node_ok n2 -> keeps n2 n3) -> keeps n1 n3.
Proof. intros [Hok Hle] H. destruct (H Hok) as [? ?]. split; [done|]. by etrans. Qed.

Lemma node_touch_ok tag h now n : node_ok n -> keeps n (node_touch tag h now n).
Proof.
  intros Hok. unfold node_touch. destruct (heap n !! h) as [s|] eqn:E; [|by apply keeps_refl].
  by apply (record_step_ok tag h _ None s).
Qed.

Lemma node_drain_ok tag h raw max n : node_ok n -> 0 <= max -> (raw = true -> node_eof h n = true) ->
  keeps n (snd (node_drain tag h raw max n)).
Proof.
  intros Hok Hmax Hraw. unfold node_drain, node_eof in *. destruct (heap n !! h) as [s|] eqn:E; [|by apply keeps_refl].
  destruct (drain_now raw max s) as [[d e] s'] eqn:Ed. cbn. apply (record_step_ok tag h _ _ s); [done|done|].
  cbn [session_step]. rewrite (proj2 (Z.ltb_ge max 0)) by done. cbn.
  destruct raw; [rewrite Hraw by done|]; cbn; by rewrite Ed.
Qed.

Lemma node_take_ok tag h n : node_ok n -> keeps n (snd (node_take tag h n)).
Proof.
  intros Hok. unfold node_take. destruct (heap n !! h) as [s|] eqn:E; [|by apply keeps_refl].
  by apply (record_step_ok tag h _ _ s).
Qed.

Lemma node_data_write_ok tag h wseq b n : node_ok n -> keeps n (fst (node_data_write tag h wseq b n)).
Proof.
  intros Hok. unfold node_data_write. destruct (heap n !! h) as [s|] eqn:E; [|by apply keeps_refl].
  destruct (data_write wseq b s) as [s' w] eqn:Ed. cbn. apply (record_step_ok tag h _ _ s); [done|done|].
  destruct wseq as [q|]; [destruct w; cbn [write_event session_step]; by rewrite Ed|]. cbn in *. by injection Ed as <- <-.
Qed.

Lemma node_write_ok tag h b n : node_ok n -> keeps n (fst (node_write tag h b n)).
Proof.
  intros Hok. unfold node_write. destruct (heap n !! h) as [s|] eqn:E; [|by apply keeps_refl].
  destruct (session_write b s) as [s' ok] eqn:Ed. cbn. apply (record_step_ok tag h _ _ s); [done|done|].
  cbn. by rewrite Ed.
Qed.

(** Changes of the tables that add no dangling handle. *)
Lemma set_tables_ok s u a n : node_ok n ->
  (forall sid ms, s !! sid = Some ms -> is_Some (heap n !! ms_inner ms)) -> keeps n (set_tables s u a n).
Proof. intros [] ?. split; constructor; cbn; eauto. exists []. by rewrite app_nil_r. Qed.

Lemma remove_session_ok sid n : node_ok n -> keeps n (remove_session sid n).
Proof.
  intros Hok. unfold remove_session. destruct (sessions n !! sid); [|by apply keeps_refl].
  apply set_tables_ok; [done|]. intros x ms [_ H]%lookup_delete_Some. by apply (no_table n Hok x).
Qed.

Lemma remove_udp_session_ok sid n : node_ok n -> keeps n (remove_udp_session sid n).
Proof.
  intros Hok. unfold remove_udp_session. destruct (udp_sessions n !! sid); [|by apply keeps_refl].
  apply set_tables_ok; [done|]. intros x ms. apply (no_table n Hok x).
Qed.

Lemma alloc_session_ok s n : node_ok n -> born s ->
  keeps n (snd (alloc_session s n)) /\ heap (snd (alloc_session s n)) !! fst (alloc_session s n) = Some s.
Proof.
  intros [H1 H2 Hb2 H3 H4 H5 H6] Hs. cbn. split; [|by rewrite lookup_insert_eq].
  assert (heap n !! next_handle n = None) as Hn.
  { destruct (heap n !! next_handle n) eqn:E; [|done]. apply H2 in E. lia. }
  assert (forall k x, heap n !! k = Some x -> <[next_handle n := s]> (heap n) !! k = Some x) as Hold.
  { intros k x Hk. rewrite lookup_insert_ne; [done|congruence]. }
  assert (forall x, x ∈ trace n -> te_handle x <> next_handle n) as Ht.
  { intros x Hx E. apply H3 in Hx as [y Hy]. congruence. }
  split; constructor; cbn; try done.
  - intros k x [[<- <-]|[Hne Hk]]%lookup_insert_Some.
    + exists s. split; [by rewrite lookup_insert_eq|]. split; [done|].
      assert (filter (fun x => te_handle x = next_handle n) (trace n) = []) as E.
      { clear -Ht. induction (trace n) as [|x t IH]; [done|].
        rewrite filter_cons_False by (apply Ht; left). apply IH. intros y Hy. apply Ht. by right. }
      unfold events_of, outs_of. by rewrite E.
    + destruct (H1 k x Hk) as (s0 & ? & ? & ?). exists s0. by rewrite lookup_insert_ne.
  - intros k x [[<- <-]|[Hne Hk]]%lookup_insert_Some; [lia|]. apply H2 in Hk. lia.
  - intros k. destruct (decide (next_handle n = k)) as [<-|]; [rewrite !lookup_insert_eq; eauto|].
    rewrite !lookup_insert_ne by done. apply Hb2.
  - intros x Hx. destruct (H3 x Hx) as [y Hy]. exists y. by apply Hold.
  - intros sid ms Hms. destruct (H4 sid ms Hms) as [y Hy]. exists y. by apply Hold.
  - intros k u Hu. destruct (H5 k u Hu). split; [done|lia].
  - intros k x Hk. exists x. split; [by apply Hold|done].
  - intros k x Hk. destruct (decide (next_handle n = k)) as [<-|]; [|by rewrite lookup_insert_ne].
    destruct (Hb2 (next_handle n)) as [y Hy]; [eauto|congruence].
  - exists []. by rewrite app_nil_r.
Qed.

Lemma alloc_udp_ok u n : node_ok n -> udp_ok u ->
  keeps n (snd (alloc_udp u n)) /\ udp_heap (snd (alloc_udp u n)) !! fst (alloc_udp u n) = Some u.
Proof.
  intros [H1 H2 Hb2 H3 H4 H5 H6] Hu. cbn. split; [|by rewrite lookup_insert_eq].
  split; constructor; cbn; eauto.
  - intros k x Hk. apply H2 in Hk. lia.
  - intros k x [[<- <-]|[Hne Hk]]%lookup_insert_Some; [split; [done|lia]|].
    destruct (H5 k x Hk). split; [done|lia].
  - exists []. by rewrite app_nil_r.
  - intros k. destruct (decide (next_handle n = k)) as [<-|]; [by rewrite lookup_insert_eq|by rewrite lookup_insert_ne].
Qed.

Lemma set_udp_ok h u ev n : node_ok n -> udp_heap n !! h = Some u ->
  keeps n (set_udp_heap (<[h := udp_step u ev]> (udp_heap n)) n).
Proof.
  intros [H1 H2 Hb2 H3 H4 H5 H6] Hu. split; constructor; cbn; eauto.
  - intros k x [[<- <-]|[Hne Hk]]%lookup_insert_Some; [|by apply H5].
    destruct (H5 h u Hu). split; [by apply udp_step_ok|done].
  - exists []. by rewrite app_nil_r.
  - intros k. destruct (decide (h = k)) as [<-|]; [by rewrite lookup_insert_eq|by rewrite lookup_insert_ne].
Qed.

Lemma set_replay_ok r n : node_ok n -> registry_ok r -> keeps n (set_replay r n).
Proof. intros [] ?. split; constructor; cbn; eauto. exists []. by rewrite app_nil_r. Qed.

Lemma set_prewarm_ok w n : node_ok n -> keeps n (set_prewarm w n).
Proof. intros []. split; constructor; cbn; eauto. exists []. by rewrite app_nil_r. Qed.

Lemma set_tick_ok t n : node_ok n -> keeps n (set_tick t n).
Proof. intros []. split; constructor; cbn; eauto. exists []. by rewrite app_nil_r. Qed.

Lemma born_open room now initial : born (session_open (mkWriter [] room) now initial).
Proof. by exists room, now, initial. Qed.

(** A new session under a new id. *)
Lemma insert_session_ok s n sid udpgw : node_ok n -> born s ->
  let '(h, n1) := alloc_session s n in
  keeps n (set_tables (<[sid := mkManaged h udpgw]> (sessions n1)) (udp_sessions n1) (aborted n1) n1).
Proof.
  intros Hok Hs. destruct (alloc_session_ok s n Hok Hs) as [Hk Hh].
  destruct (alloc_session s n) as [h n1]. cbn in Hk, Hh. eapply keeps_trans; [exact Hk|]. intros Hok1.
  apply set_tables_ok; [done|]. intros x ms [[<- <-]|[_ H]]%lookup_insert_Some; [cbn; eauto|by apply (no_table n1 Hok1 x)].
Qed.

Lemma insert_udp_ok u n sid : node_ok n -> udp_ok u ->
  let '(h, n1) := alloc_udp u n in
  keeps n (set_tables (sessions n1) (<[sid := h]> (udp_sessions n1)) (aborted n1) n1).
Proof.
  intros Hok Hu. destruct (alloc_udp_ok u n Hok Hu) as [Hk Hh].
  destruct (alloc_udp u n) as [h n1]. cbn in Hk, Hh. eapply keeps_trans; [exact Hk|]. intros Hok1.
  apply set_tables_ok; [done|]. intros x ms. by apply (no_table n1 Hok1 x).
Qed.

Lemma env_act_ok n a : node_ok n -> keeps n (env_act n a).
Proof.
  intros Hok. destruct a as [h ev|room now initial sid udpgw|now sid|h ev|sid|sid|ev|w]; cbn [env_act].
  - destruct (heap n !! h) as [s|] eqn:E; [|by apply keeps_refl].
    destruct (session_step s ev) as [[s' o]|] eqn:Es; [|by apply keeps_refl]. by apply (record_step_ok 0 h ev o s).
  - by apply (insert_session_ok (session_open (mkWriter [] room) now initial) n sid udpgw), born_open.
  - by apply (insert_udp_ok (udp_new now) n sid), udp_new_ok.
  - destruct (udp_heap n !! h) as [u|] eqn:E; [|by apply keeps_refl]. by apply set_udp_ok.
  - by apply remove_session_ok.
  - by apply remove_udp_session_ok.
  - apply set_replay_ok; [done|]. apply replay_step_ok, no_replay, Hok.
  - by apply set_prewarm_ok.
Qed.

Lemma env_acts_ok l n : node_ok n -> keeps n (fold_left env_act l n).
Proof.
  revert n. induction l as [|a l IH]; intros n Hok; cbn; [by apply keeps_refl|].
  eapply keeps_trans; [by apply env_act_ok|]. apply IH.
Qed.

Lemma interfere_ok E n : node_ok n -> keeps n (interfere E n).
Proof. intros Hok. eapply keeps_trans; [by apply env_acts_ok|]. intros. by apply set_tick_ok. Qed.

Lemma node_new_ok on : node_ok (node_new on).
Proof.
  constructor; cbn; try (intros ? ? H; by apply lookup_empty_Some in H).
  - intros h [? H]. by apply lookup_empty_Some in H.
  - by intros x ?%elem_of_nil.
  - apply registry_ok_default.
Qed.
