(* ===== verification/NodeOps.v ===== *)
(** * tunnel-node/src/main.rs: opening and closing sessions, the single-op handlers, cleanup

    What the operating system and the resolver answer to one connect is a [ConnEnv]; the
    clock and the interference of the other tasks come from [E] and [clock].  An
    [io::Result] is never [Panic], so the branches for it are not reached. *)

From stdpp Require Import prelude gmap.
From S2P Require Import Prelude RustStr ListSort Udpgw Reorder NodeSession NodePool NodeReplay NodeProto Node.
#[local] Open Scope Z_scope.

Record ConnEnv := mkConnEnv {
  ce_alive : nat -> bool;                    (* liveness probe of pooled connections *)
  ce_lookup : res (list Z) str;              (* what lookup_host answers *)
  ce_connect : Z -> res nat str;             (* TcpStream::connect *)
  ce_cut : Cut;                              (* where the 10 s budget runs out *)
  ce_prewarm : res (list Z) str * (Z -> res nat str) * Cut;  (* the same, for the prewarm *)
  ce_room : option nat;                      (* bytes the peer will accept *)
  ce_bind : res unit str;                    (* UdpSocket::bind and connect *)
  ce_send : res unit str;                    (* UdpSocket::send of the first datagram *)
  ce_write_error : str;                      (* the message of a failed write *)
  ce_uuid : str                              (* Uuid::new_v4 *)
}.

Section Ops.
Context {HO : HashOrder} (instant_min : Z) {B : Base64} (E : Env) (clock : nat -> Z).

Definition now (n : Node) : Z := clock (tick n).

(** [create_session], up to the split of the stream. *)
Definition create_session (c : ConnEnv) (key : hostport) (n : Node) : res unit str * Node :=
  let w := prewarm n in
  let '(r, p, d) :=
    open_tcp (now n) (ce_alive c) key (ce_lookup c) (ce_connect c) (ce_cut c) (tcp_pool w) (dns w) in
  let n := set_prewarm (mkPrewarm d p (hot w) (prewarm_enabled w)) n in
  match r with
  | Ok _ =>
    let '(lookup, connect, cut) := ce_prewarm c in
    (Ok tt, set_prewarm (maybe_prewarm instant_min (now n) key lookup connect cut (prewarm n)) n)
  | Err e => (Err e, n)
  | Panic => (Panic, n)
  end.

(** The stream of a new session: a TCP connection, or the in-process udpgw server. *)
Definition open_stream (c : ConnEnv) (host : str) (port : Z) (n : Node) : res bool str * Node :=
  if is_udpgw_dest host port then (Ok true, n)
  else let '(r, n) := create_session c (host, port) n in (let? _ := r in Ok false, n).

(** The bytes of an optional base64 field: nothing if absent or empty. *)
Definition decode_field (d : option str) : res bytes str :=
  match d with
  | Some s =>
    if bool_decide (s = []) then Ok [] else
    match b64_decode s with Some b => Ok b | None => Err (lit "bad base64: " ++ b64_error s) end
  | None => Ok []
  end.

Definition insert_session (sid : str) (s : SessionInner) (udpgw : bool) (n : Node) : nat * Node :=
  let '(h, n) := alloc_session s n in
  (h, set_tables (<[sid := mkManaged h udpgw]> (sessions n)) (udp_sessions n) (aborted n) n).

Definition handle_connect (c : ConnEnv) (host : option str) (port : option Z) (n : Node)
    : TunnelResponse * Node :=
  match validate_host_port host port with
  | Ok (host, port) =>
    let '(r, n) := open_stream c host port (interfere E n) in
    match r with
    | Ok udpgw =>
      let n := interfere E n in
      let '(_, n) := insert_session (ce_uuid c) (session_open (mkWriter [] (ce_room c)) (now n) []) udpgw n in
      (mkResp (Some (ce_uuid c)) None None (Some false) None None None, n)
    | Err e => (resp_error (lit "connect failed: " ++ e), n)
    | Panic => (resp_error [], n)
    end
  | Err r => (r, n)
  | Panic => (resp_error [], n)
  end.

(** [handle_connect_data_phase1]: a session that cannot take the first bytes is dropped. *)
Definition connect_data_phase1 (c : ConnEnv) (host : option str) (port : option Z) (d : option str)
    (n : Node) : ((str * nat) + TunnelResponse) * Node :=
  match validate_host_port host port with
  | Ok (host, port) =>
    let '(r, n) := open_stream c host port (interfere E n) in
    match r with
    | Ok udpgw =>
      match decode_field d with
      | Ok b =>
        let n := interfere E n in
        let s := session_open (mkWriter [] (ce_room c)) (now n) b in
        if negb (bool_decide (b = [])) && negb (snd (session_write b (session_new (mkWriter [] (ce_room c)) (now n))))
        then (inr (resp_error (lit "write failed: " ++ ce_write_error c)), n)
        else
          let '(h, n) := insert_session (ce_uuid c) s udpgw n in
          (inl (ce_uuid c, h), n)
      | Err e => (inr (resp_error e), n)
      | Panic => (inr (resp_error []), n)
      end
    | Err e => (inr (resp_error (lit "connect failed: " ++ e)), n)
    | Panic => (inr (resp_error []), n)
    end
  | Err r => (inr r, n)
  | Panic => (inr (resp_error []), n)
  end.

(** [create_udp_session] up to the socket. *)
Definition create_udp_session (c : ConnEnv) (key : hostport) (n : Node) : res unit str * Node :=
  let w := prewarm n in
  let '(r, d) := dns_resolve (now n) key (ce_lookup c) (dns w) in
  let n := set_prewarm (mkPrewarm d (tcp_pool w) (hot w) (prewarm_enabled w)) n in
  (let? addrs := r in
   match addrs with
   | [] => Err (lit "no UDP address resolved")
   | _ => ce_bind c
   end, n).

Definition udp_open_phase1 (c : ConnEnv) (host : option str) (port : option Z) (d : option str)
    (n : Node) : ((str * nat) + TunnelResponse) * Node :=
  match validate_host_port host port with
  | Ok key =>
    let '(r, n) := create_udp_session c key (interfere E n) in
    match r with
    | Ok _ =>
      match decode_field d with
      | Ok b =>
        let n := interfere E n in
        let u := udp_new (now n) in
        let sent := if bool_decide (b = []) then Ok tt else ce_send c in
        match sent with
        | Ok _ =>
          let u := if bool_decide (b = []) then u else udp_send b u in
          let '(h, n) := alloc_udp u n in
          (inl (ce_uuid c, h), set_tables (sessions n) (<[ce_uuid c := h]> (udp_sessions n)) (aborted n) n)
        | Err e => (inr (resp_error (lit "udp write failed: " ++ e)), n)
        | Panic => (inr (resp_error []), n)
        end
      | Err e => (inr (resp_error e), n)
      | Panic => (inr (resp_error []), n)
      end
    | Err e => (inr (resp_error (lit "udp connect failed: " ++ e)), n)
    | Panic => (inr (resp_error []), n)
    end
  | Err r => (inr r, n)
  | Panic => (inr (resp_error []), n)
  end.

Definition handle_close (sid : option str) (n : Node) : TunnelResponse * Node :=
  match required_sid sid with
  | Some sid =>
    let n := remove_session sid (interfere E n) in
    let n := remove_udp_session sid (interfere E n) in
    (mkResp (Some sid) None None (Some true) None None None, n)
  | None => (resp_error (lit "missing sid"), n)
  end.

(** ** The single-op path *)

(** [wait_and_drain] on the session, removal at the end of the stream, and the response. *)
Definition drain_single (sid : str) (h : nat) (n : Node) : TunnelResponse * Node :=
  let '(data, e, n) := node_take 1 h (interfere E n) in
  let n := if e : bool then remove_session sid (interfere E n) else n in
  (tcp_drain_response sid data e None, n).

Definition handle_connect_data_single (c : ConnEnv) (host : option str) (port : option Z) (d : option str)
    (n : Node) : TunnelResponse * Node :=
  match connect_data_phase1 c host port d n with
  | (inl (sid, h), n) => drain_single sid h n
  | (inr r, n) => (r, n)
  end.

Definition handle_data_single (c : ConnEnv) (sid data : option str) (n : Node) : TunnelResponse * Node :=
  match required_sid sid with
  | None => (resp_error (lit "missing sid"), n)
  | Some sid =>
    let n := interfere E n in
    match sessions n !! sid with
    | None => (resp_error (lit "unknown session"), n)
    | Some ms =>
      let h := ms_inner ms in
      let n := interfere E n in
      let n := node_touch 1 h (now n) n in
      match decode_field data with
      | Ok ((_ :: _) as b) =>
        let '(n, ok) := node_write 1 h b (interfere E n) in
        if ok then drain_single sid h n
        else
          let n := interfere E n in
          (resp_error (lit "write failed: " ++ ce_write_error c),
           set_tables (delete sid (sessions n)) (udp_sessions n) (aborted n) n)
      | _ => drain_single sid h n
      end
    end
  end.

(** [handle_tunnel]; [None] is the answer to a bad key. *)
Definition handle_tunnel (auth_key : str) (c : ConnEnv) (req : TunnelRequest) (n : Node)
    : option TunnelResponse * Node :=
  if negb (bool_decide (rq_k req = auth_key)) then (None, n) else
  let '(r, n) :=
    if bool_decide (rq_op req = lit "connect") then handle_connect c (rq_host req) (rq_port req) n
    else if bool_decide (rq_op req = lit "connect_data")
    then handle_connect_data_single c (rq_host req) (rq_port req) (rq_data req) n
    else if bool_decide (rq_op req = lit "data") then handle_data_single c (rq_sid req) (rq_data req) n
    else if bool_decide (rq_op req = lit "close") then handle_close (rq_sid req) n
    else (unsupported_op (rq_op req), n) in
  (Some r, n).

(** ** One turn of [cleanup_task] *)
Definition TCP_IDLE : Z := 300.
Definition UDP_IDLE : Z := 120.

Definition idle_session (t : Z) (n : Node) (ms : ManagedSession) : bool :=
  match heap n !! ms_inner ms with Some s => TCP_IDLE <? t - last_active s | None => false end.
Definition idle_udp (t : Z) (n : Node) (h : nat) : bool :=
  match udp_heap n !! h with Some u => UDP_IDLE <? t - u_last_active u | None => false end.

Definition cleanup_tick (n : Node) : Node :=
  let t := now n in
  let n := interfere E n in
  let stale := filter (fun kv => idle_session t n (snd kv) = true) (sessions n) in
  let n := set_tables (filter (fun kv => negb (idle_session t n (snd kv)) = true) (sessions n)) (udp_sessions n)
             (aborted n ++ (ms_inner ∘ snd <$> map_to_list stale)) n in
  let n := interfere E n in
  let stale := filter (fun kv => idle_udp t n (snd kv) = true) (udp_sessions n) in
  set_tables (sessions n) (filter (fun kv => negb (idle_udp t n (snd kv)) = true) (udp_sessions n))
    (aborted n ++ (snd <$> map_to_list stale)) n.

(** ** They keep the invariant *)
Lemma create_session_ok c key n : node_ok n -> keeps n (snd (create_session c key n)).
Proof.
  intros Hok. unfold create_session. destruct (open_tcp _ _ _ _ _ _ _ _) as [[r p] d].
  destruct r; cbn; [|by apply set_prewarm_ok..]. destruct (ce_prewarm c) as [[l k] cut].
  eapply keeps_trans; [by apply set_prewarm_ok|]. intros. by apply set_prewarm_ok.
Qed.

Lemma open_stream_ok c host port n : node_ok n -> keeps n (snd (open_stream c host port n)).
Proof.
  intros Hok. unfold open_stream. destruct (is_udpgw_dest host port); [by apply keeps_refl|].
  pose proof (create_session_ok c (host, port) n Hok). by destruct (create_session c (host, port) n).
Qed.

Lemma insert_session_keeps sid s g n : node_ok n -> born s ->
  keeps n (snd (insert_session sid s g n))
  /\ heap (snd (insert_session sid s g n)) !! fst (insert_session sid s g n) = Some s.
Proof.
  intros Hok Hs. pose proof (insert_session_ok s n sid g Hok Hs) as H. pose proof (alloc_session_ok s n Hok Hs) as [_ Hh].
  unfold insert_session. destruct (alloc_session s n) as [h n1]. by split.
Qed.

Lemma handle_connect_ok c host port n : node_ok n -> keeps n (snd (handle_connect c host port n)).
Proof.
  intros Hok. unfold handle_connect. destruct (validate_host_port host port) as [[h p]|e|]; [|by apply keeps_refl..].
  eapply keeps_trans; [by apply (interfere_ok E)|]. intros Hok1.
  pose proof (open_stream_ok c h p _ Hok1) as H2. destruct (open_stream c h p (interfere E n)) as [r n1].
  eapply keeps_trans; [exact H2|]. intros Hok2. destruct r as [g|e|]; [|by apply keeps_refl..].
  eapply keeps_trans; [by apply (interfere_ok E)|]. intros Hok3.
  pose proof (insert_session_keeps (ce_uuid c) (session_open (mkWriter [] (ce_room c)) (now (interfere E n1)) []) g _ Hok3 (born_open _ _ _)) as [H _].
  by destruct (insert_session _ _ _ _).
Qed.

Lemma connect_data_phase1_ok c host port d n : node_ok n ->
  keeps n (snd (connect_data_phase1 c host port d n))
  /\ (forall sid h, fst (connect_data_phase1 c host port d n) = inl (sid, h) ->
        is_Some (heap (snd (connect_data_phase1 c host port d n)) !! h)).
Proof.
  intros Hok. unfold connect_data_phase1.
  destruct (validate_host_port host port) as [[x p]|e|]; [|by split; [by apply keeps_refl|]..].
  pose proof (interfere_ok E n Hok) as [Hok1 Hle1].
  pose proof (open_stream_ok c x p _ Hok1) as H2. destruct (open_stream c x p (interfere E n)) as [r n1].
  pose proof (keeps_trans _ _ _ (conj Hok1 Hle1) (fun _ => H2)) as Hk2. destruct H2 as [Hok2 _]. cbn in Hk2, Hok2.
  destruct r as [g|e|]; [|by split..]. destruct (decode_field d) as [b|e|]; [|by split..].
  pose proof (interfere_ok E n1 Hok2) as H3. pose proof (keeps_trans _ _ _ Hk2 (fun _ => H3)) as Hk3.
  destruct H3 as [Hok3 _]. destruct (_ && _); [by split|].
  pose proof (insert_session_keeps (ce_uuid c) (session_open (mkWriter [] (ce_room c)) (now (interfere E n1)) b) g _ Hok3 (born_open _ _ _)) as [H Hh].
  destruct (insert_session _ _ _ _) as [h n2]. cbn in *. split; [by eapply keeps_trans|].
  intros ? ? [= <- <-]. eauto.
Qed.

Lemma create_udp_session_ok c key n : node_ok n -> keeps n (snd (create_udp_session c key n)).
Proof.
  intros Hok. unfold create_udp_session. destruct (dns_resolve _ _ _ _) as [r d]. by apply set_prewarm_ok.
Qed.

Lemma udp_open_phase1_ok c host port d n : node_ok n ->
  keeps n (snd (udp_open_phase1 c host port d n))
  /\ (forall sid h, fst (udp_open_phase1 c host port d n) = inl (sid, h) ->
        is_Some (udp_heap (snd (udp_open_phase1 c host port d n)) !! h)).
Proof.
  intros Hok. unfold udp_open_phase1.
  destruct (validate_host_port host port) as [key|e|]; [|by split; [by apply keeps_refl|]..].
  pose proof (interfere_ok E n Hok) as [Hok1 Hle1].
  pose proof (create_udp_session_ok c key _ Hok1) as H2. destruct (create_udp_session c key (interfere E n)) as [r n1].
  pose proof (keeps_trans _ _ _ (conj Hok1 Hle1) (fun _ => H2)) as Hk2. destruct H2 as [Hok2 _]. cbn in Hk2, Hok2.
  destruct r as [g|e|]; [|by split..]. destruct (decode_field d) as [b|e|]; [|by split..].
  pose proof (interfere_ok E n1 Hok2) as H3. pose proof (keeps_trans _ _ _ Hk2 (fun _ => H3)) as Hk3.
  destruct H3 as [Hok3 _]. destruct (if bool_decide (b = []) then Ok tt else ce_send c) as [x|e|]; [|by split..].
  set (u := if bool_decide (b = []) then _ else _).
  assert (udp_ok u) as Hu.
  { pose proof (udp_new_ok (now (interfere E n1))) as Hn. unfold u. case_bool_decide; [done|]. by apply (udp_step_ok _ (UeSend b)). }
  pose proof (insert_udp_ok u _ (ce_uuid c) Hok3 Hu) as H. pose proof (alloc_udp_ok u _ Hok3 Hu) as [_ Hh].
  destruct (alloc_udp u (interfere E n1)) as [h n2]. cbn in *. split; [by eapply keeps_trans|].
  intros ? ? [= <- <-]. eauto.
Qed.

Lemma handle_close_ok sid n : node_ok n -> keeps n (snd (handle_close sid n)).
Proof.
  intros Hok. unfold handle_close. destruct (required_sid sid) as [x|]; [|by apply keeps_refl]. cbn.
  eapply keeps_trans; [by apply (interfere_ok E)|]. intros.
  eapply keeps_trans; [by apply (remove_session_ok x)|]. intros.
  eapply keeps_trans; [by apply (interfere_ok E)|]. intros. by apply remove_udp_session_ok.
Qed.

Lemma drain_single_ok sid h n : node_ok n -> keeps n (snd (drain_single sid h n)).
Proof.
  intros Hok. unfold drain_single. eapply keeps_trans; [by apply (interfere_ok E)|]. intros Hok1.
  pose proof (node_take_ok 1 h _ Hok1) as H. destruct (node_take 1 h (interfere E n)) as [[data e] n1]. cbn in *.
  eapply keeps_trans; [exact H|]. intros. destruct e; [|by apply keeps_refl].
  eapply keeps_trans; [by apply (interfere_ok E)|]. intros. by apply remove_session_ok.
Qed.

Lemma handle_connect_data_single_ok c host port d n : node_ok n -> keeps n (snd (handle_connect_data_single c host port d n)).
Proof.
  intros Hok. unfold handle_connect_data_single. destruct (connect_data_phase1_ok c host port d n Hok) as [H _].
  destruct (connect_data_phase1 c host port d n) as [[[sid h]|e] n1]; [|done].
  eapply keeps_trans; [exact H|]. intros. by apply drain_single_ok.
Qed.

Lemma handle_data_single_ok c sid data n : node_ok n -> keeps n (snd (handle_data_single c sid data n)).
Proof.
  intros Hok. unfold handle_data_single. destruct (required_sid sid) as [x|]; [|by apply keeps_refl].
  eapply keeps_trans; [by apply (interfere_ok E)|]. intros Hok1.
  destruct (sessions (interfere E n) !! x) as [ms|]; [|by apply keeps_refl].
  eapply keeps_trans; [by apply (interfere_ok E)|]. intros Hok2.
  eapply keeps_trans; [by apply (node_touch_ok 1 (ms_inner ms) (now (interfere E (interfere E n))))|].
  set (n1 := node_touch _ _ _ _). intros Hok3.
  destruct (decode_field data) as [[|y b]|e|]; [by apply drain_single_ok| |by apply drain_single_ok..].
  eapply keeps_trans; [by apply (interfere_ok E)|]. intros Hok4.
  pose proof (node_write_ok 1 (ms_inner ms) (y :: b) _ Hok4) as H.
  destruct (node_write 1 (ms_inner ms) (y :: b) (interfere E n1)) as [n2 ok]. cbn in H.
  eapply keeps_trans; [exact H|]. intros Hok5. destruct ok; [by apply drain_single_ok|].
  eapply keeps_trans; [by apply (interfere_ok E)|]. intros Hok6. cbn. apply set_tables_ok; [done|].
  intros k m [_ Hm]%lookup_delete_Some. by apply (no_table _ Hok6 k).
Qed.

Lemma handle_tunnel_ok key c req n : node_ok n -> keeps n (snd (handle_tunnel key c req n)).
Proof.
  intros Hok. unfold handle_tunnel. case_bool_decide; cbn [negb]; [|by apply keeps_refl].
  pose proof (handle_connect_ok c (rq_host req) (rq_port req) n Hok).
  pose proof (handle_connect_data_single_ok c (rq_host req) (rq_port req) (rq_data req) n Hok).
  pose proof (handle_data_single_ok c (rq_sid req) (rq_data req) n Hok).
  pose proof (handle_close_ok (rq_sid req) n Hok).
  repeat case_bool_decide; repeat destruct (handle_connect _ _ _ _), (handle_connect_data_single _ _ _ _ _),
    (handle_data_single _ _ _ _), (handle_close _ _); done.
Qed.

Lemma cleanup_tick_ok n : node_ok n -> keeps n (cleanup_tick n).
Proof.
  intros Hok. unfold cleanup_tick. eapply keeps_trans; [by apply (interfere_ok E)|]. intros Hok1.
  eapply keeps_trans.
  { apply set_tables_ok; [exact Hok1|]. intros k m [Hm _]%map_lookup_filter_Some. by apply (no_table _ Hok1 k). }
  intros Hok2. eapply keeps_trans; [by apply (interfere_ok E)|]. intros Hok3.
  apply set_tables_ok; [done|]. intros k m. by apply (no_table _ Hok3 k).
Qed.
End Ops.
