(* ===== verification/NodeBatch.v ===== *)
(** * tunnel-node/src/main.rs: [handle_batch]

    Phase 1 goes through the ops in order: data ops write, connects are spawned as jobs,
    which are joined in any order ([join_order]) and may panic.  Phase 2 waits, then drains
    the sessions of the data ops and of the new connections in order, within one response
    budget.  The responses are sorted by the index of their op.  Waiting is interference:
    the environment acts and nothing else happens.

    The drain loop of a session ends at the latest when it finds the batch's deadline
    passed; [turns] says after how many turns that is, for the drain of each op. *)

From stdpp Require Import prelude gmap sorting.
From S2P Require Import Prelude RustStr ListSort Reorder NodeSession NodePool NodeReplay NodeProto Node NodeOps.
#[local] Open Scope Z_scope.

Definition BATCH_RESPONSE_BUDGET : Z := 32 * 1024 * 1024.

(** The formats around a batch: flate2, zstd and serde_json. *)
Class BatchCodec := {
  gunzip : bytes -> res bytes str;
  json_batch : bytes -> res BatchRequest str;
  zstd_decode : bytes -> res bytes str;
  json_ops : bytes -> res (list BatchOp) str;
  json_error_batch : TunnelResponse -> bytes;           (* BatchResponse { r: vec![..] } *)
  json_responses : list TunnelResponse -> bytes;
  zstd_encode : bytes -> option bytes;
  json_r_zc : list TunnelResponse -> Z -> bytes;        (* {"r": .., "zc": ..} *)
  json_zr_zc : str -> Z -> bytes                        (* {"zr": .., "zc": ..} *)
}.

Inductive Job :=
| JConnect (host : option str) (port : option Z)
| JConnectData (host : option str) (port : option Z) (d : option str)
| JUdpOpen (host : option str) (port : option Z) (d : option str).

Inductive NewConn :=
| NConnect (r : TunnelResponse)
| NConnectData (r : (str * nat) + TunnelResponse)
| NUdpOpen (r : (str * nat) + TunnelResponse).

(** An entry of [tcp_drains] or [udp_drains]. *)
Record Drain := mkDrain { d_index : nat; d_sid : str; d_handle : nat; d_seq : option Z }.

(** The locals of phase 1. *)
Record Acc := mkAcc {
  results : list (nat * TunnelResponse);
  tcp_drains : list Drain;
  udp_drains : list Drain;
  had_writes_or_connects : bool;
  jobs : list (nat * Job)
}.
Definition acc_new : Acc := mkAcc [] [] [] false [].

Definition push_result (i : nat) (r : TunnelResponse) (a : Acc) : Acc :=
  mkAcc (results a ++ [(i, r)]) (tcp_drains a) (udp_drains a) (had_writes_or_connects a) (jobs a).
Definition push_tcp (d : Drain) (a : Acc) : Acc :=
  mkAcc (results a) (tcp_drains a ++ [d]) (udp_drains a) (had_writes_or_connects a) (jobs a).
Definition push_udp (d : Drain) (a : Acc) : Acc :=
  mkAcc (results a) (tcp_drains a) (udp_drains a ++ [d]) (had_writes_or_connects a) (jobs a).
Definition push_job (i : nat) (j : Job) (work : bool) (a : Acc) : Acc :=
  mkAcc (results a) (tcp_drains a) (udp_drains a) (had_writes_or_connects a || work) (jobs a ++ [(i, j)]).
Definition set_work (a : Acc) : Acc := mkAcc (results a) (tcp_drains a) (udp_drains a) true (jobs a).

(** The environment of one batch. *)
Record BatchEnv := mkBatchEnv {
  be_conn : nat -> ConnEnv;                             (* for the op of each index *)
  be_join : list (nat * Job) -> list (nat * Job);       (* the order of join_next *)
  be_panics : nat -> bool;                              (* jobs that panic *)
  be_turns : nat -> nat                                 (* drain turns before the deadline *)
}.

Section Batch.
Context {HO : HashOrder} (instant_min : Z) {B : Base64} (E : Env) (clock : nat -> Z) (X : BatchEnv).

(** The tag of an op in the trace. *)
Definition tag_of (i : nat) : nat := S i.

(** ** Phase 1 *)
Definition data_op (i : nat) (op : BatchOp) (n : Node) (a : Acc) : Node * Acc :=
  match required_sid (o_sid op) with
  | None => (n, push_result i (resp_error (lit "missing sid")) a)
  | Some sid =>
    let n := interfere E n in
    match sessions n !! sid with
    | None => (n, push_result i (eof_response sid (o_seq op)) a)
    | Some ms =>
      let h := ms_inner ms in
      let n := interfere E n in
      let n := node_touch (tag_of i) h (now clock n) n in
      let drain := mkDrain i sid h (o_seq op) in
      match decode_field (o_d op) with
      | Err e => (n, push_result i (resp_error e) a)
      | Ok ((_ :: _) as b) =>
        match node_data_write (tag_of i) h (o_wseq op) b (interfere E n) with
        | (n, Accepted) => (n, push_tcp drain (set_work a))
        | (n, CapExceeded) =>
          (remove_session sid (interfere E n),
           push_result i (resp_error (lit "wseq buffer cap exceeded")) (set_work a))
        end
      | _ => (n, push_tcp drain a)
      end
    end
  end.

Definition udp_data_op (i : nat) (op : BatchOp) (n : Node) (a : Acc) : Node * Acc :=
  match required_sid (o_sid op) with
  | None => (n, push_result i (resp_error (lit "missing sid")) a)
  | Some sid =>
    let n := interfere E n in
    match udp_sessions n !! sid with
    | None => (n, push_result i (eof_response sid (o_seq op)) a)
    | Some h =>
      let upd ev n := match udp_heap n !! h with
                      | Some u => set_udp_heap (<[h := udp_step u ev]> (udp_heap n)) n
                      | None => n
                      end in
      let drain := mkDrain i sid h (o_seq op) in
      match decode_field (o_d op) with
      | Err e => (n, push_result i (resp_error e) a)
      | Ok ((_ :: _) as b) =>
        let n := upd (UeSend b) (interfere E n) in
        let n := interfere E n in
        (upd (UeTouch (now clock n)) n, push_udp drain (set_work a))
      | _ => let n := interfere E n in (upd (UeTouch (now clock n)) n, push_udp drain a)
      end
    end
  end.

Definition phase1_op (i : nat) (op : BatchOp) (n : Node) (a : Acc) : Node * Acc :=
  if bool_decide (o_op op = lit "connect") then (n, push_job i (JConnect (o_host op) (o_port op)) true a)
  else if bool_decide (o_op op = lit "connect_data") then
    (n, push_job i (JConnectData (o_host op) (o_port op) (o_d op)) true a)
  else if bool_decide (o_op op = lit "udp_open") then
    (n, push_job i (JUdpOpen (o_host op) (o_port op) (o_d op)) (negb (none_or_empty (o_d op))) a)
  else if bool_decide (o_op op = lit "data") then data_op i op n a
  else if bool_decide (o_op op = lit "udp_data") then udp_data_op i op n a
  else if bool_decide (o_op op = lit "close") then
    let '(r, n) := handle_close E (o_sid op) n in (n, push_result i r a)
  else (n, push_result i (unsupported_op (o_op op)) a).

Fixpoint phase1 (i : nat) (ops : list BatchOp) (n : Node) (a : Acc) : Node * Acc :=
  match ops with
  | [] => (n, a)
  | op :: ops => let '(n, a) := phase1_op i op n a in phase1 (S i) ops n a
  end.

(** ** The spawned jobs *)
Definition run_job (c : ConnEnv) (j : Job) (n : Node) : NewConn * Node :=
  match j with
  | JConnect host port => let '(r, n) := handle_connect instant_min E clock c host port n in (NConnect r, n)
  | JConnectData host port d =>
    let '(r, n) := connect_data_phase1 instant_min E clock c host port d n in (NConnectData r, n)
  | JUdpOpen host port d => let '(r, n) := udp_open_phase1 E clock c host port d n in (NUdpOpen r, n)
  end.

Definition join_one (i : nat) (r : NewConn) (a : Acc) : Acc :=
  match r with
  | NConnect r | NConnectData (inr r) | NUdpOpen (inr r) => push_result i r a
  | NConnectData (inl (sid, h)) => push_tcp (mkDrain i sid h None) a
  | NUdpOpen (inl (sid, h)) => push_udp (mkDrain i sid h None) a
  end.

Fixpoint join_jobs (js : list (nat * Job)) (n : Node) (a : Acc) : Node * Acc :=
  match js with
  | [] => (n, a)
  | (i, j) :: js =>
    if be_panics X i then join_jobs js n a
    else let '(r, n) := run_job (be_conn X i) j n in join_jobs js n (join_one i r a)
  end.

(** ** Phase 2 *)

(** The drain of one session: what it collected and whether the stream ended. *)
Fixpoint drain_loop (turns : nat) (tag h : nat) (budget : Z) (all : bytes) (n : Node)
    : bytes * bool * Node :=
  let n := interfere E n in
  let raw := node_eof h n in
  let '(data, e, n) := node_drain tag h raw (saturating_sub budget (len all)) (interfere E n) in
  if bool_decide (data = []) then (all, e, n) else
  let hit_session_cap := TCP_DRAIN_MAX_BYTES <=? len data in
  let all := all ++ data in
  if e || hit_session_cap || (budget <=? len all) then (all, e, n) else
  match turns with
  | O => (all, e, n)
  | S turns => drain_loop turns tag h budget all n
  end.

Fixpoint tcp_drain_all (ds : list Drain) (budget : Z) (n : Node) : list (Drain * bytes * bool) * Node :=
  match ds with
  | [] => ([], n)
  | d :: ds =>
    if budget =? 0 then
      let '(l, n) := tcp_drain_all ds budget n in ((d, [], false) :: l, n)
    else
      let '(all, e, n) := drain_loop (be_turns X (d_index d)) (tag_of (d_index d)) (d_handle d) budget [] n in
      let '(l, n) := tcp_drain_all ds (saturating_sub budget (len all)) n in
      ((d, all, e) :: l, n)
  end.

Fixpoint udp_drain_all (ds : list Drain) (n : Node) : list (Drain * list bytes * bool) * Node :=
  match ds with
  | [] => ([], n)
  | d :: ds =>
    let n := interfere E n in
    let '(pk, e, n) :=
      match udp_heap n !! d_handle d with
      | Some u => let '(pk, e, _) := drain_udp_now u in
                  (pk, e, set_udp_heap (<[d_handle d := udp_step u UeDrain]> (udp_heap n)) n)
      | None => ([], false, n)
      end in
    let '(l, n) := udp_drain_all ds n in ((d, pk, e) :: l, n)
  end.

(** The sids whose drain reported the end of the stream leave the table. *)
Definition eof_sids {A} (l : list (Drain * A * bool)) : list str :=
  (fun x => d_sid (fst (fst x))) <$> filter (fun x => snd x = true) l.

Definition phase2 (a : Acc) (n : Node) : list (nat * TunnelResponse) * Node :=
  if bool_decide (tcp_drains a = []) && bool_decide (udp_drains a = []) then (results a, n) else
  let n := interfere E n in
  let '(tl, n) := tcp_drain_all (tcp_drains a) BATCH_RESPONSE_BUDGET n in
  let n := fold_left (fun n sid => remove_session sid n) (eof_sids tl) (interfere E n) in
  let '(ul, n) := udp_drain_all (udp_drains a) n in
  let n := fold_left (fun n sid => remove_udp_session sid n) (eof_sids ul) (interfere E n) in
  (results a
   ++ ((fun '(d, data, e) => (d_index d, tcp_drain_response (d_sid d) data e (d_seq d))) <$> tl)
   ++ ((fun '(d, pk, e) => (d_index d, udp_drain_response (d_sid d) pk e (d_seq d))) <$> ul), n).

(** All ops of a batch: their responses in the order of the ops. *)
Definition process_ops (ops : list BatchOp) (n : Node) : list TunnelResponse * Node :=
  let '(n, a) := phase1 0 ops n acc_new in
  let '(n, a) := join_jobs (be_join X (jobs a)) n a in
  let '(rs, n) := phase2 a n in
  (snd <$> sort_by_key (fun x => Z.of_nat (fst x)) rs, n).

(** ** The handler *)
Context {DG : Digest} {BC : BatchCodec}.

Definition error_batch (msg : str) : HttpResponse := json_ok (json_error_batch (resp_error msg)).

(** The JSON text of a request. *)
Definition batch_json (body : bytes) : res bytes str :=
  match body with
  | 0x1f :: 0x8b :: _ => map_err (fun e => lit "gzip decode: " ++ e) (gunzip body)
  | _ => Ok body
  end.

(** Gzip, JSON, the key, [zops]: the ops and whether the client takes zstd, or the answer. *)
Definition decode_batch (auth_key : str) (diagnostic_mode : bool) (body : bytes)
    : (list BatchOp * bool) + HttpResponse :=
  match (let? j := batch_json body in map_err (fun e => lit "bad json: " ++ e) (json_batch j)) with
  | Ok req =>
    if negb (bool_decide (b_k req = auth_key)) then
      inr (if diagnostic_mode then error_batch (lit "unauthorized") else decoy)
    else
      let client_zstd := negb (bool_decide (b_zops req = None))
        || match b_zc req with Some caps => negb (Z.land caps CAP_ZSTD =? 0) | None => false end in
      match b_zops req with
      | Some z =>
        match b64_decode z with
        | Some c =>
          match (let? d := map_err (fun e => lit "zstd decode: " ++ e) (zstd_decode c) in
                 map_err (fun e => lit "zops json: " ++ e) (json_ops d)) with
          | Ok ops => inl (ops, client_zstd)
          | Err e => inr (error_batch e)
          | Panic => inr (error_batch [])
          end
        | None => inr (error_batch (lit "zops b64: " ++ b64_error z))
        end
      | None => inl (b_ops req, client_zstd)
      end
  | Err e => inr (error_batch e)
  | Panic => inr (error_batch [])
  end.

Definition encode_batch (client_zstd : bool) (rs : list TunnelResponse) : bytes :=
  if client_zstd then
    match zstd_encode (json_responses rs) with
    | Some c => json_zr_zc (b64_encode c) SERVER_CAPABILITIES
    | None => json_r_zc rs SERVER_CAPABILITIES
    end
  else json_r_zc rs SERVER_CAPABILITIES.

(** What a claim that is not the owner's is answered: the body sent on its channel, if it
    arrived while waiting. *)
Definition await_owner (tx : nat) (n : Node) : HttpResponse :=
  match list_find (fun x => fst x = tx) (sent (replay n)) with
  | Some (_, (_, b)) => json_ok b
  | None => error_batch (lit "replay owner cancelled")
  end.

Definition handle_batch (auth_key : str) (diagnostic_mode : bool) (body : bytes) (n : Node)
    : HttpResponse * Node :=
  match decode_batch auth_key diagnostic_mode body with
  | inr r => (r, n)
  | inl (ops, client_zstd) =>
    match replay_fingerprint ops client_zstd with
    | None =>
      let '(rs, n) := process_ops ops n in (json_ok (encode_batch client_zstd rs), n)
    | Some key =>
      let n := interfere E n in
      let '(cl, r) := claim (now clock n) key (replay n) in
      let n := set_replay r n in
      match cl with
      | Hit b => (json_ok b, n)
      | Wait tx => let n := interfere E n in (await_owner tx n, n)
      | Owner _ =>
        let '(rs, n) := process_ops ops n in
        let json := encode_batch client_zstd rs in
        let n := interfere E n in
        (json_ok json, set_replay (complete (now clock n) key json (replay n)) n)
      end
    end
  end.

(** ** The node's invariant *)
Lemma data_op_ok i op n a : node_ok n -> keeps n (fst (data_op i op n a)).
Proof.
  intros Hok. unfold data_op. destruct (required_sid (o_sid op)) as [sid|]; [|by apply keeps_refl].
  eapply keeps_trans; [by apply (interfere_ok E)|]. intros Hok1.
  destruct (sessions (interfere E n) !! sid) as [ms|]; [|by apply keeps_refl].
  eapply keeps_trans; [by apply (interfere_ok E)|]. intros Hok2.
  eapply keeps_trans; [by apply (node_touch_ok (tag_of i) (ms_inner ms) (now clock (interfere E (interfere E n))))|].
  set (n1 := node_touch _ _ _ _). intros Hok3.
  destruct (decode_field (o_d op)) as [[|y b]|e|]; try by apply keeps_refl.
  eapply keeps_trans; [by apply (interfere_ok E)|]. intros Hok4.
  pose proof (node_data_write_ok (tag_of i) (ms_inner ms) (o_wseq op) (y :: b) _ Hok4) as H.
  destruct (node_data_write _ _ _ _ _) as [n2 [|]]; cbn in *; [done|].
  eapply keeps_trans; [exact H|]. intros Hok5. eapply keeps_trans; [by apply (interfere_ok E)|].
  intros. by apply remove_session_ok.
Qed.

Lemma udp_data_op_ok i op n a : node_ok n -> keeps n (fst (udp_data_op i op n a)).
Proof.
  intros Hok. unfold udp_data_op. destruct (required_sid (o_sid op)) as [sid|]; [|by apply keeps_refl].
  eapply keeps_trans; [by apply (interfere_ok E)|]. intros Hok1.
  destruct (udp_sessions (interfere E n) !! sid) as [h|]; [|by apply keeps_refl].
  assert (forall ev m, node_ok m -> keeps m (match udp_heap m !! h with
    | Some u => set_udp_heap (<[h := udp_step u ev]> (udp_heap m)) m | None => m end)) as Hu.
  { intros ev m Hm. destruct (udp_heap m !! h) as [u|] eqn:Eu; [by apply set_udp_ok|by apply keeps_refl]. }
  destruct (decode_field (o_d op)) as [[|y b]|e|]; cbn [fst]; try by apply keeps_refl.
  all: eapply keeps_trans; [by apply (interfere_ok E)|]; intros Hok2.
  2:{ eapply keeps_trans; [by apply (Hu (UeSend (y :: b)))|]. intros Hok3.
      eapply keeps_trans; [by apply (interfere_ok E)|]. intros. by apply Hu. }
  all: by apply Hu.
Qed.

Lemma phase1_op_ok i op n a : node_ok n -> keeps n (fst (phase1_op i op n a)).
Proof.
  intros Hok. unfold phase1_op. pose proof (handle_close_ok E (o_sid op) n Hok).
  destruct (handle_close E (o_sid op) n). repeat case_bool_decide; try by apply keeps_refl.
  - by apply data_op_ok.
  - by apply udp_data_op_ok.
  - done.
Qed.

Lemma phase1_ok ops i n a : node_ok n -> keeps n (fst (phase1 i ops n a)).
Proof.
  revert i n a. induction ops as [|op ops IH]; intros i n a Hok; cbn [phase1]; [by apply keeps_refl|].
  pose proof (phase1_op_ok i op n a Hok) as H. destruct (phase1_op i op n a) as [n1 a1]. cbn in H.
  eapply keeps_trans; [exact H|]. intros. by apply IH.
Qed.

Lemma run_job_ok c j n : node_ok n -> keeps n (snd (run_job c j n)).
Proof.
  intros Hok. destruct j as [h p|h p d|h p d]; cbn [run_job].
  - pose proof (handle_connect_ok instant_min E clock c h p n Hok). by destruct (handle_connect _ _ _ _ _ _ _).
  - pose proof (proj1 (connect_data_phase1_ok instant_min E clock c h p d n Hok)). by destruct (connect_data_phase1 _ _ _ _ _ _ _ _).
  - pose proof (proj1 (udp_open_phase1_ok E clock c h p d n Hok)). by destruct (udp_open_phase1 _ _ _ _ _ _ _).
Qed.

Lemma join_jobs_ok js n a : node_ok n -> keeps n (fst (join_jobs js n a)).
Proof.
  revert n a. induction js as [|[i j] js IH]; intros n a Hok; cbn [join_jobs]; [by apply keeps_refl|].
  destruct (be_panics X i); [by apply IH|].
  pose proof (run_job_ok (be_conn X i) j n Hok) as H. destruct (run_job (be_conn X i) j n) as [r n1]. cbn in H.
  eapply keeps_trans; [exact H|]. intros. by apply IH.
Qed.

(** The flag loaded before the lock is still set when the buffer is drained. *)
Lemma eof_stays h n n' : node_le n n' -> node_eof h n = true -> node_eof h n' = true.
Proof.
  intros [Hh _ _ _]. unfold node_eof. destruct (heap n !! h) as [s|] eqn:Es; [|done].
  destruct (Hh h s Es) as (s' & -> & ?). done.
Qed.

Lemma drain_loop_ok turns tag h budget all n : node_ok n ->
  keeps n (snd (drain_loop turns tag h budget all n)).
Proof.
  revert all n. induction turns as [|turns IH]; intros all n Hok; cbn [drain_loop];
    (eapply keeps_trans; [by apply (interfere_ok E)|]); intros Hok1;
    pose proof (interfere_ok E _ Hok1) as Hk2; set (n1 := interfere E n) in *;
    (eapply keeps_trans; [exact Hk2|]); intros Hok2;
    pose proof (node_drain_ok tag h (node_eof h n1) (saturating_sub budget (len all)) (interfere E n1) Hok2
      ltac:(unfold saturating_sub; lia) (eof_stays h _ _ (proj2 Hk2))) as H;
    destruct (node_drain _ _ _ _ _) as [[data e] n2]; cbn in H;
    repeat case_match; try done.
  eapply keeps_trans; [exact H|]. intros. by apply IH.
Qed.

Lemma tcp_drain_all_ok ds budget n : node_ok n -> keeps n (snd (tcp_drain_all ds budget n)).
Proof.
  revert budget n. induction ds as [|d ds IH]; intros budget n Hok; cbn [tcp_drain_all]; [by apply keeps_refl|].
  destruct (budget =? 0).
  - pose proof (IH budget n Hok). by destruct (tcp_drain_all ds budget n).
  - pose proof (drain_loop_ok (be_turns X (d_index d)) (tag_of (d_index d)) (d_handle d) budget [] n Hok) as H.
    destruct (drain_loop _ _ _ _ _ _) as [[all e] n1]. cbn in H.
    assert (keeps n1 (snd (tcp_drain_all ds (saturating_sub budget (len all)) n1))) as H2 by (apply IH, H).
    destruct (tcp_drain_all ds (saturating_sub budget (len all)) n1). cbn in *. eapply keeps_trans; [exact H|done].
Qed.

Lemma udp_drain_all_ok ds n : node_ok n -> keeps n (snd (udp_drain_all ds n)).
Proof.
  revert n. induction ds as [|d ds IH]; intros n Hok; cbn [udp_drain_all]; [by apply keeps_refl|].
  eapply keeps_trans; [by apply (interfere_ok E)|]. intros Hok1. set (n1 := interfere E n) in *.
  destruct (udp_heap n1 !! d_handle d) as [u|] eqn:Eu.
  - cbn [drain_udp_now]. pose proof (set_udp_ok (d_handle d) u UeDrain n1 Hok1 Eu) as H.
    set (n2 := set_udp_heap _ n1) in *. pose proof (IH n2 (proj1 H)) as H2.
    destruct (udp_drain_all ds n2). cbn in *. eapply keeps_trans; [exact H|done].
  - pose proof (IH n1 Hok1). by destruct (udp_drain_all ds n1).
Qed.

Lemma fold_keeps {A} (f : Node -> A -> Node) l n :
  (forall x m, node_ok m -> keeps m (f m x)) -> node_ok n -> keeps n (fold_left f l n).
Proof.
  intros Hf. revert n. induction l as [|x l IH]; intros n Hok; cbn; [by apply keeps_refl|].
  eapply keeps_trans; [by apply Hf|]. apply IH.
Qed.

Lemma phase2_ok a n : node_ok n -> keeps n (snd (phase2 a n)).
Proof.
  intros Hok. unfold phase2. destruct (_ && _); [by apply keeps_refl|].
  eapply keeps_trans; [by apply (interfere_ok E)|]. intros Hok1.
  pose proof (tcp_drain_all_ok (tcp_drains a) BATCH_RESPONSE_BUDGET _ Hok1) as H.
  destruct (tcp_drain_all _ _ _) as [tl n1]. cbn in H. eapply keeps_trans; [exact H|]. intros Hok2.
  eapply keeps_trans; [by apply (interfere_ok E)|]. intros Hok3.
  eapply keeps_trans; [apply (fold_keeps (fun n sid => remove_session sid n) (eof_sids tl)); [intros; by apply remove_session_ok|done]|].
  set (n2 := fold_left _ _ _). intros Hok4.
  pose proof (udp_drain_all_ok (udp_drains a) n2 Hok4) as H2. destruct (udp_drain_all (udp_drains a) n2) as [ul n3]. cbn in *.
  eapply keeps_trans; [exact H2|]. intros Hok5. eapply keeps_trans; [by apply (interfere_ok E)|]. intros Hok6.
  apply fold_keeps; [intros; by apply remove_udp_session_ok|done].
Qed.

Lemma process_ops_ok ops n : node_ok n -> keeps n (snd (process_ops ops n)).
Proof.
  intros Hok. unfold process_ops. pose proof (phase1_ok ops 0 n acc_new Hok) as H1.
  destruct (phase1 0 ops n acc_new) as [n1 a1]. cbn in H1. eapply keeps_trans; [exact H1|]. intros Hok1.
  pose proof (join_jobs_ok (be_join X (jobs a1)) n1 a1 Hok1) as H2.
  destruct (join_jobs _ n1 a1) as [n2 a2]. cbn in H2. eapply keeps_trans; [exact H2|]. intros Hok2.
  pose proof (phase2_ok a2 n2 Hok2) as H3. by destruct (phase2 a2 n2).
Qed.

Lemma handle_batch_ok key diag body n : node_ok n -> keeps n (snd (handle_batch key diag body n)).
Proof.
  intros Hok. unfold handle_batch. destruct (decode_batch key diag body) as [[ops z]|r]; [|by apply keeps_refl].
  destruct (replay_fingerprint ops z) as [k|].
  2:{ pose proof (process_ops_ok ops n Hok). by destruct (process_ops ops n). }
  eapply keeps_trans; [by apply (interfere_ok E)|]. intros Hok1.
  pose proof (claim_ok (now clock (interfere E n)) k (replay (interfere E n)) (no_replay _ Hok1)) as Hr.
  destruct (claim _ k (replay (interfere E n))) as [cl r]. cbn in Hr.
  eapply keeps_trans; [by apply (set_replay_ok r)|]. set (n1 := set_replay r _). intros Hok2.
  destruct cl as [tx|tx|b]; [|by apply (interfere_ok E)|by apply keeps_refl].
  pose proof (process_ops_ok ops n1 Hok2) as H. destruct (process_ops ops n1) as [rs n2]. cbn [snd] in *.
  eapply keeps_trans; [exact H|]. intros Hok3. eapply keeps_trans; [by apply (interfere_ok E)|]. intros Hok4.
  apply set_replay_ok; [done|]. apply complete_ok, no_replay, Hok4.
Qed.
End Batch.
