(* ===== verification/NodeService.v ===== *)
(** * What the tunnel node's batch handler promises

    One response per op, in the order of the ops; a bounded response; data that is exactly
    what the op's own drains took; no effect without the key; no second execution of a
    retried batch. *)

From stdpp Require Import prelude gmap sorting.
From S2P Require Import Prelude RustStr ListSort Reorder NodeSession NodePool NodeReplay NodeProto Node NodeOps NodeBatch.
#[local] Open Scope Z_scope.

Section Service.
Context {HO : HashOrder} (instant_min : Z) {B : Base64} (E : Env) (clock : nat -> Z) (X : BatchEnv).

(** ** One response per op *)
Definition is_data (op : BatchOp) : Prop := o_op op = lit "data" \/ o_op op = lit "udp_data".

(** A response that answers an op: a data op gets its session id and sequence number
    back, or an error. *)
Definition answers (op : BatchOp) (r : TunnelResponse) : Prop :=
  is_data op -> (r_sid r = o_sid op /\ r_seq r = o_seq op /\ is_Some (r_eof r)) \/ is_Some (r_e r).

Definition drain_for (ops : list BatchOp) (d : Drain) : Prop :=
  exists op, ops !! d_index d = Some op /\ (is_data op -> o_sid op = Some (d_sid d) /\ o_seq op = d_seq d).

Record acc_ok (ops : list BatchOp) (a : Acc) : Prop := {
  ao_results : Forall (fun ir => r_d (snd ir) = None /\ exists op, ops !! fst ir = Some op /\ answers op (snd ir)) (results a);
  ao_tcp : Forall (drain_for ops) (tcp_drains a);
  ao_udp : Forall (drain_for ops) (udp_drains a);
  ao_jobs : Forall (fun ij => exists op, ops !! fst ij = Some op /\ ~ is_data op) (jobs a)
}.

Definition drain_indices (a : Acc) : list nat :=
  (fst <$> results a) ++ (d_index <$> tcp_drains a) ++ (d_index <$> udp_drains a).

Lemma push_result_ok ops i op r a : acc_ok ops a -> ops !! i = Some op -> answers op r -> r_d r = None ->
  acc_ok ops (push_result i r a) /\ drain_indices (push_result i r a) ≡ₚ i :: drain_indices a.
Proof.
  intros [H1 H2 H3 H4] Hi Ha Hd. split.
  - constructor; cbn; try done. apply Forall_app. split; [done|]. repeat constructor; [done|]. by exists op.
  - unfold drain_indices. cbn. rewrite fmap_app. cbn. solve_Permutation.
Qed.

Lemma push_tcp_ok ops d a : acc_ok ops a -> drain_for ops d ->
  acc_ok ops (push_tcp d a) /\ drain_indices (push_tcp d a) ≡ₚ d_index d :: drain_indices a.
Proof.
  intros [H1 H2 H3 H4] Hd. split.
  - constructor; cbn; try done. apply Forall_app. split; [done|]. by repeat constructor.
  - unfold drain_indices. cbn. rewrite fmap_app. cbn. solve_Permutation.
Qed.

Lemma push_udp_ok ops d a : acc_ok ops a -> drain_for ops d ->
  acc_ok ops (push_udp d a) /\ drain_indices (push_udp d a) ≡ₚ d_index d :: drain_indices a.
Proof.
  intros [H1 H2 H3 H4] Hd. split.
  - constructor; cbn; try done. apply Forall_app. split; [done|]. by repeat constructor.
  - unfold drain_indices. cbn. rewrite fmap_app. cbn. solve_Permutation.
Qed.

Lemma set_work_ok ops a : acc_ok ops a -> acc_ok ops (set_work a) /\ drain_indices (set_work a) = drain_indices a.
Proof. intros []. by repeat constructor. Qed.

Lemma required_sid_Some o sid : required_sid o = Some sid -> o = Some sid.
Proof. destruct o as [s|]; [|done]. cbn. case_bool_decide; [done|]. by intros [= ->]. Qed.

Lemma answers_error op msg : answers op (resp_error msg).
Proof. intros _. right. by eexists. Qed.

Lemma answers_eof op sid : o_sid op = Some sid -> answers op (eof_response sid (o_seq op)).
Proof. intros H _. left. rewrite H. split_and!; [done|done|by eexists]. Qed.

Lemma data_op_acc ops i op n a : acc_ok ops a -> ops !! i = Some op ->
  let a' := snd (data_op E clock i op n a) in
  acc_ok ops a' /\ drain_indices a' ≡ₚ i :: drain_indices a /\ jobs a' = jobs a.
Proof.
  intros Ha Hi. unfold data_op.
  assert (forall msg b, acc_ok ops b -> jobs b = jobs a -> drain_indices b = drain_indices a ->
    let a' := push_result i (resp_error msg) b in
    acc_ok ops a' /\ drain_indices a' ≡ₚ i :: drain_indices a /\ jobs a' = jobs a) as Herr.
  { intros msg b Hb Hj Hd. destruct (push_result_ok ops i op (resp_error msg) b Hb Hi (answers_error op msg) eq_refl) as [? HP].
    split_and!; [done|by rewrite HP, Hd|done]. }
  destruct (required_sid (o_sid op)) as [sid|] eqn:Es; [|by apply Herr]. apply required_sid_Some in Es.
  destruct (sessions (interfere E n) !! sid) as [ms|].
  2:{ destruct (push_result_ok ops i op (eof_response sid (o_seq op)) a Ha Hi (answers_eof op sid Es) eq_refl).
      by split_and!. }
  assert (drain_for ops (mkDrain i sid (ms_inner ms) (o_seq op))) as Hdf by (exists op; done).
  destruct (set_work_ok ops a Ha) as [Ha' Hd'].
  destruct (decode_field (o_d op)) as [[|y b]|e|]; cbn [snd].
  - destruct (push_tcp_ok ops _ a Ha Hdf). by split_and!.
  - destruct (node_data_write _ _ _ _ _) as [n2 [|]]; cbn [snd]; [|by apply Herr].
    destruct (push_tcp_ok ops _ _ Ha' Hdf) as [? HP]. split_and!; [done|by rewrite HP, Hd'|done].
  - by apply Herr.
  - destruct (push_tcp_ok ops _ a Ha Hdf). by split_and!.
Qed.

Lemma udp_data_op_acc ops i op n a : acc_ok ops a -> ops !! i = Some op ->
  let a' := snd (udp_data_op E clock i op n a) in
  acc_ok ops a' /\ drain_indices a' ≡ₚ i :: drain_indices a /\ jobs a' = jobs a.
Proof.
  intros Ha Hi. unfold udp_data_op.
  assert (forall msg, let a' := push_result i (resp_error msg) a in
    acc_ok ops a' /\ drain_indices a' ≡ₚ i :: drain_indices a /\ jobs a' = jobs a) as Herr.
  { intros msg. destruct (push_result_ok ops i op (resp_error msg) a Ha Hi (answers_error op msg) eq_refl). by split_and!. }
  destruct (required_sid (o_sid op)) as [sid|] eqn:Es; [|by apply Herr]. apply required_sid_Some in Es.
  destruct (udp_sessions (interfere E n) !! sid) as [h|].
  2:{ destruct (push_result_ok ops i op (eof_response sid (o_seq op)) a Ha Hi (answers_eof op sid Es) eq_refl).
      by split_and!. }
  assert (drain_for ops (mkDrain i sid h (o_seq op))) as Hdf by (exists op; done).
  destruct (set_work_ok ops a Ha) as [Ha' Hd'].
  destruct (decode_field (o_d op)) as [[|y b]|e|]; cbn [snd]; [| |by apply Herr|].
  2:{ destruct (push_udp_ok ops _ _ Ha' Hdf) as [? HP]. split_and!; [done|by rewrite HP, Hd'|done]. }
  all: destruct (push_udp_ok ops _ a Ha Hdf); by split_and!.
Qed.

Lemma push_job_ok ops i op j w a : acc_ok ops a -> ops !! i = Some op -> ~ is_data op ->
  acc_ok ops (push_job i j w a) /\ drain_indices (push_job i j w a) = drain_indices a.
Proof.
  intros [H1 H2 H3 H4] Hi Hnd. split; [|done]. constructor; cbn; try done.
  apply Forall_app. split; [done|]. repeat constructor. by exists op.
Qed.

(** Each op adds its index exactly once, to the results, the drains or the jobs. *)
Definition all_indices (a : Acc) : list nat := drain_indices a ++ (fst <$> jobs a).

Lemma phase1_op_acc ops i op n a : acc_ok ops a -> ops !! i = Some op ->
  let a' := snd (phase1_op E clock i op n a) in
  acc_ok ops a' /\ all_indices a' ≡ₚ i :: all_indices a.
Proof.
  intros Ha Hi. unfold phase1_op, all_indices.
  assert (forall a', acc_ok ops a' /\ drain_indices a' ≡ₚ i :: drain_indices a /\ jobs a' = jobs a ->
    acc_ok ops a' /\ drain_indices a' ++ (fst <$> jobs a') ≡ₚ i :: drain_indices a ++ (fst <$> jobs a)) as Hdone.
  { intros a' (? & HP & HJ). split; [done|]. by rewrite HP, HJ. }
  assert (forall j w, ~ is_data op -> let a' := push_job i j w a in
    acc_ok ops a' /\ drain_indices a' ++ (fst <$> jobs a') ≡ₚ i :: drain_indices a ++ (fst <$> jobs a)) as Hjob.
  { intros j w Hnd. destruct (push_job_ok ops i op j w a Ha Hi Hnd) as [? HD]. split; [done|]. rewrite HD.
    cbn. rewrite fmap_app. cbn. solve_Permutation. }
  assert (forall r, answers op r -> r_d r = None -> let a' := push_result i r a in
    acc_ok ops a' /\ drain_indices a' ++ (fst <$> jobs a') ≡ₚ i :: drain_indices a ++ (fst <$> jobs a)) as Hres.
  { intros r Hr Hd. apply Hdone. destruct (push_result_ok ops i op r a Ha Hi Hr Hd). by split_and!. }
  case_bool_decide as C1; [apply Hjob; intros [C|C]; rewrite C1 in C; by vm_compute in C|].
  case_bool_decide as C2; [apply Hjob; intros [C|C]; rewrite C2 in C; by vm_compute in C|].
  case_bool_decide as C3; [apply Hjob; intros [C|C]; rewrite C3 in C; by vm_compute in C|].
  case_bool_decide as C4; [apply Hdone; by apply data_op_acc|].
  case_bool_decide as C5; [apply Hdone; by apply udp_data_op_acc|].
  assert (~ is_data op) as Hnd by (intros [?|?]; done).
  case_bool_decide as C6.
  - unfold handle_close. destruct (required_sid (o_sid op)); (apply Hres; [by intros ?|done]).
  - apply Hres; [by intros ?|done].
Qed.

Lemma phase1_acc ops l i n a : acc_ok ops a -> (forall j op, l !! j = Some op -> ops !! (i + j)%nat = Some op) ->
  let a' := snd (phase1 E clock i l n a) in
  acc_ok ops a' /\ all_indices a' ≡ₚ seq i (length l) ++ all_indices a.
Proof.
  revert i n a. induction l as [|op l IH]; intros i n a Ha Hl; cbn [phase1]; [done|].
  destruct (phase1_op_acc ops i op n a Ha) as [H1 H2].
  { specialize (Hl 0%nat op eq_refl). by rewrite Nat.add_0_r in Hl. }
  destruct (phase1_op E clock i op n a) as [n1 a1]. cbn in H1, H2.
  destruct (IH (S i) n1 a1 H1) as [H3 H4].
  { intros j o Hj. specialize (Hl (S j) o Hj). by rewrite Nat.add_succ_r in Hl. }
  split; [done|]. rewrite H4, H2. cbn. by rewrite Permutation_middle.
Qed.

Lemma join_one_acc ops i op r a : acc_ok ops a -> ops !! i = Some op -> ~ is_data op ->
  match r with NConnect x => r_d x = None | NConnectData (inr x) | NUdpOpen (inr x) => r_d x = None | _ => True end ->
  acc_ok ops (join_one i r a) /\ drain_indices (join_one i r a) ≡ₚ i :: drain_indices a.
Proof.
  intros Ha Hi Hnd Hr. assert (forall x, answers op x) as Hans by (intros x ?; done).
  assert (forall sid h, drain_for ops (mkDrain i sid h None)) as Hdf.
  { intros sid h. exists op. split; [done|]. intros ?. done. }
  destruct r as [x|[[sid h]|x]|[[sid h]|x]]; cbn [join_one].
  - by apply (push_result_ok ops i op).
  - by apply (push_tcp_ok ops (mkDrain i sid h None)).
  - by apply (push_result_ok ops i op).
  - by apply (push_udp_ok ops (mkDrain i sid h None)).
  - by apply (push_result_ok ops i op).
Qed.

(** What a job returns carries no data. *)
Lemma run_job_no_data c j n :
  match fst (run_job instant_min E clock c j n) with
  | NConnect x => r_d x = None | NConnectData (inr x) | NUdpOpen (inr x) => r_d x = None | _ => True
  end.
Proof.
  assert (forall host port e, validate_host_port host port = Err e -> r_d e = None) as Hv.
  { intros host port e. unfold validate_host_port. repeat case_match; intros; simplify_eq; done. }
  destruct j as [host port|host port d|host port d]; cbn [run_job].
  - unfold handle_connect. destruct (validate_host_port host port) as [[h p]|e|] eqn:Ev; [|by apply (Hv host port)|done].
    destruct (open_stream _ _ _ _ _ _) as [[g|e|] n1]; [|done..]. by destruct (insert_session _ _ _ _).
  - unfold connect_data_phase1. destruct (validate_host_port host port) as [[h p]|e|] eqn:Ev; [|by apply (Hv host port)|done].
    destruct (open_stream _ _ _ _ _ _) as [[g|e|] n1]; [|done..]. destruct (decode_field d); [|done..].
    destruct (_ && _); [done|]. by destruct (insert_session _ _ _ _).
  - unfold udp_open_phase1. destruct (validate_host_port host port) as [[h p]|e|] eqn:Ev; [|by apply (Hv host port)|done].
    destruct (create_udp_session _ _ _ _) as [[g|e|] n1]; [|done..]. destruct (decode_field d); [|done..].
    destruct (if bool_decide _ then _ else _); [|done..]. by destruct (alloc_udp _ _).
Qed.

Lemma join_jobs_acc ops js n a : acc_ok ops a ->
  Forall (fun ij => exists op, ops !! fst ij = Some op /\ ~ is_data op) js ->
  Forall (fun ij => be_panics X (fst ij) = false) js ->
  let a' := snd (join_jobs instant_min E clock X js n a) in
  acc_ok ops a' /\ drain_indices a' ≡ₚ (fst <$> js) ++ drain_indices a.
Proof.
  revert n a. induction js as [|[i j] js IH]; intros n a Ha Hj Hp; cbn [join_jobs]; [done|].
  apply Forall_cons in Hj as [(op & Hi & Hnd) Hj]. apply Forall_cons in Hp as [Hp1 Hp]. cbn in Hi, Hp1. rewrite Hp1.
  pose proof (run_job_no_data (be_conn X i) j n) as Hr.
  destruct (run_job instant_min E clock (be_conn X i) j n) as [r n1]. cbn [fst] in Hr.
  destruct (join_one_acc ops i op r a Ha Hi Hnd Hr) as [H1 H2].
  destruct (IH n1 (join_one i r a) H1 Hj Hp) as [H3 H4]. split; [done|]. rewrite H4, H2. cbn. by rewrite Permutation_middle.
Qed.

(** ** Phase 2: every drain gets a response, within the budget *)
Lemma drain_now_len raw max s d e s' : 0 <= max -> drain_now raw max s = (d, e, s') -> len d <= max.
Proof.
  intros Hmax. unfold drain_now. set (cap := Z.min max TCP_DRAIN_MAX_BYTES).
  assert (0 <= cap <= max) by (unfold cap, TCP_DRAIN_MAX_BYTES; lia).
  destruct (Z.leb_spec (len (read_buf s)) cap); intros [= <- <- <-]; [lia|].
  unfold len. rewrite length_take. lia.
Qed.

Lemma node_drain_len tag h raw max n : 0 <= max -> len (fst (fst (node_drain tag h raw max n))) <= max.
Proof.
  intros Hmax. unfold node_drain. destruct (heap n !! h) as [s|]; [|done].
  destruct (drain_now raw max s) as [[d e] s'] eqn:Ed. cbn. by apply (drain_now_len raw max s d e s').
Qed.

Lemma drain_loop_len turns tag h budget all n : len all <= budget ->
  len (fst (fst (drain_loop E turns tag h budget all n))) <= budget.
Proof.
  revert all n. induction turns as [|turns IH]; intros all n Hl; cbn [drain_loop];
    set (n1 := interfere E n);
    pose proof (node_drain_len tag h (node_eof h n1) (saturating_sub budget (len all)) (interfere E n1) ltac:(unfold saturating_sub; lia)) as Hd;
    destruct (node_drain _ _ _ _ _) as [[data e] n2]; cbn [fst] in Hd; unfold saturating_sub in Hd;
    assert (len (all ++ data) <= budget) by (rewrite len_app; lia);
    repeat case_match; try done. by apply IH.
Qed.

Definition drained_len {A} (l : list (Drain * bytes * A)) : Z := foldr (fun x n => len (snd (fst x)) + n) 0 l.

Lemma tcp_drain_all_spec ds budget n : 0 <= budget ->
  let l := fst (tcp_drain_all E X ds budget n) in
  (fst ∘ fst) <$> l = ds /\ drained_len l <= budget.
Proof.
  revert budget n. induction ds as [|d ds IH]; intros budget n Hb; cbn [tcp_drain_all]; [done|].
  destruct (budget =? 0).
  - destruct (IH budget n Hb) as [H1 H2]. destruct (tcp_drain_all E X ds budget n) as [l n1]. cbn in *.
    split; [by f_equal|]. rewrite len_nil. lia.
  - pose proof (drain_loop_len (be_turns X (d_index d)) (tag_of (d_index d)) (d_handle d) budget [] n Hb) as Hl.
    destruct (drain_loop _ _ _ _ _ _ _) as [[all e] n1]. cbn in Hl.
    destruct (IH (saturating_sub budget (len all)) n1 ltac:(unfold saturating_sub; lia)) as [H1 H2].
    destruct (tcp_drain_all E X ds (saturating_sub budget (len all)) n1) as [l n2]. cbn in *.
    split; [by f_equal|]. unfold saturating_sub in H2. pose proof (len_nonneg all). lia.
Qed.

Lemma udp_drain_all_spec ds n : (fst ∘ fst) <$> fst (udp_drain_all E ds n) = ds.
Proof.
  revert n. induction ds as [|d ds IH]; intros n; cbn [udp_drain_all]; [done|].
  destruct (match udp_heap (interfere E n) !! d_handle d with Some _ => _ | None => _ end) as [[pk e] n1].
  specialize (IH n1). destruct (udp_drain_all E ds n1). cbn in *. by f_equal.
Qed.

(** Bytes of data a response carries. *)
Definition resp_bytes (r : TunnelResponse) : Z :=
  match r_d r with Some s => match b64_decode s with Some b => len b | None => 0 end | None => 0 end.
Definition total_bytes (l : list TunnelResponse) : Z := foldr (fun r n => resp_bytes r + n) 0 l.

Lemma total_bytes_cons r l : total_bytes (r :: l) = resp_bytes r + total_bytes l.
Proof. done. Qed.

Lemma total_bytes_app l k : total_bytes (l ++ k) = total_bytes l + total_bytes k.
Proof. induction l as [|r l IH]; [done|]. cbn [app]. rewrite !total_bytes_cons. lia. Qed.

Lemma total_bytes_perm l k : l ≡ₚ k -> total_bytes l = total_bytes k.
Proof. induction 1; rewrite ?total_bytes_cons; lia. Qed.

Lemma total_bytes_none l : Forall (fun r => r_d r = None) l -> total_bytes l = 0.
Proof. induction 1 as [|r l Hr _ IH]; [done|]. rewrite total_bytes_cons. unfold resp_bytes. rewrite Hr. lia. Qed.

Lemma resp_bytes_tcp {L : Base64Laws B} sid data e seq : resp_bytes (tcp_drain_response sid data e seq) = len data.
Proof.
  unfold resp_bytes, tcp_drain_response, data_field. cbn. case_bool_decide; [by subst|]. by rewrite b64_decode_encode.
Qed.

Lemma phase2_spec {L : Base64Laws B} ops a n : acc_ok ops a ->
  let rs := fst (phase2 E X a n) in
  fst <$> rs ≡ₚ drain_indices a
  /\ Forall (fun ir => exists op, ops !! fst ir = Some op /\ answers op (snd ir)) rs
  /\ total_bytes (snd <$> rs) <= BATCH_RESPONSE_BUDGET.
Proof.
  intros [H1 H2 H3 H4]. unfold phase2.
  assert (Forall (fun ir => exists op, ops !! fst ir = Some op /\ answers op (snd ir)) (results a)) as Hres.
  { eapply Forall_impl; [exact H1|]. by intros ir [_ ?]. }
  assert (total_bytes (snd <$> results a) = 0) as Hz.
  { apply total_bytes_none, Forall_fmap. eapply Forall_impl; [exact H1|]. by intros ir [? _]. }
  destruct (bool_decide (tcp_drains a = []) && bool_decide (udp_drains a = [])) eqn:Eb.
  { apply andb_true_iff in Eb as [Et%bool_decide_eq_true Eu%bool_decide_eq_true].
    cbn [fst]. split_and!; [unfold drain_indices; rewrite Et, Eu; cbn; by rewrite app_nil_r|done|rewrite Hz; by compute]. }
  destruct (tcp_drain_all_spec (tcp_drains a) BATCH_RESPONSE_BUDGET (interfere E n) ltac:(by compute)) as [Ht1 Ht2].
  destruct (tcp_drain_all E X _ _ _) as [tl n1]. cbn [fst] in Ht1, Ht2.
  set (n2 := fold_left _ _ _). pose proof (udp_drain_all_spec (udp_drains a) n2) as Hu.
  destruct (udp_drain_all E (udp_drains a) n2) as [ul n3]. cbn [fst] in *.
  split_and!.
  - unfold drain_indices. rewrite !fmap_app, <- Ht1, <- Hu, <- !list_fmap_compose.
    apply Permutation_app; [done|]. apply Permutation_app; (erewrite list_fmap_ext; [reflexivity|]); by intros ? [[d x] e] _.
  - rewrite <- Ht1 in H2. rewrite <- Hu in H3. apply (proj1 (Forall_fmap _ _ _)) in H2. apply (proj1 (Forall_fmap _ _ _)) in H3.
    rewrite !Forall_app, !Forall_fmap. split_and!; [done| |].
    + eapply Forall_impl; [exact H2|]. intros [[d x] e] (op & Hi & Hd). exists op. cbn in *. split; [done|].
      intros Hdat. destruct (Hd Hdat) as [-> ->]. left. split_and!; [done|done|by eexists].
    + eapply Forall_impl; [exact H3|]. intros [[d x] e] (op & Hi & Hd). exists op. cbn in *. split; [done|].
      intros Hdat. destruct (Hd Hdat) as [-> ->]. left. split_and!; [done|done|by eexists].
  - rewrite !fmap_app, !total_bytes_app, Hz, <- !list_fmap_compose.
    rewrite (total_bytes_none (_ <$> ul)).
    2:{ apply Forall_fmap, Forall_forall. by intros [[d x] e] _. }
    assert (total_bytes (snd ∘ (fun '(d, data, e) => (d_index d, tcp_drain_response (d_sid d) data e (d_seq d))) <$> tl) = drained_len tl) as ->.
    { clear -L. induction tl as [|[[d x] e] tl IH]; [done|]. cbn [fmap list_fmap].
      rewrite total_bytes_cons, IH. cbn [compose snd]. by rewrite resp_bytes_tcp. }
    lia.
Qed.

(** ** Sorting by index *)
Lemma seq_sorted i n : StronglySorted (fun x y => Z.of_nat x <= Z.of_nat y) (seq i n).
Proof.
  revert i. induction n as [|n IH]; intros i; cbn; constructor; [apply IH|].
  apply Forall_forall. intros x [? _]%elem_of_seq. lia.
Qed.

Lemma sort_indices {A} (rs : list (nat * A)) n : fst <$> rs ≡ₚ seq 0 n ->
  fst <$> sort_by_key (fun x => Z.of_nat (fst x)) rs = seq 0 n.
Proof.
  intros HP. set (l := sort_by_key _ rs).
  assert (l ≡ₚ rs) as Hl by apply sort_by_perm.
  apply (StronglySorted_unique_strong (fun x y => Z.of_nat x <= Z.of_nat y)).
  - intros x y _ _ ? ?. lia.
  - assert (StronglySorted (fun x y => Z.of_nat (fst x) <= Z.of_nat (fst y)) l) as Hs by apply sort_by_key_sorted.
    clear -Hs. induction Hs as [|x l _ IH Hx]; cbn; constructor; [done|]. by apply Forall_fmap.
  - apply seq_sorted.
  - by rewrite Hl.
Qed.

Lemma sorted_lookup {A} (rs : list (nat * A)) n i r : fst <$> rs ≡ₚ seq 0 n ->
  (snd <$> sort_by_key (fun x => Z.of_nat (fst x)) rs) !! i = Some r -> (i, r) ∈ rs.
Proof.
  intros HP Hr. pose proof (sort_indices rs n HP) as Hseq. set (l := sort_by_key _ rs) in *.
  rewrite list_lookup_fmap in Hr. destruct (l !! i) as [[k r']|] eqn:El; [|done]. injection Hr as <-.
  assert (k = i) as ->.
  { assert ((fst <$> l) !! i = Some k) as Hk by (by rewrite list_lookup_fmap, El).
    rewrite Hseq in Hk. apply lookup_seq in Hk as [-> _]. done. }
  rewrite <- (sort_by_perm (by_key (fun x => Z.of_nat (fst x))) rs). by eapply list_elem_of_lookup_2.
Qed.

(** The jobs are joined in some order, and none panics. *)
Definition calm : Prop := (forall js, be_join X js ≡ₚ js) /\ (forall i, be_panics X i = false).

Lemma acc_new_ok ops : acc_ok ops acc_new.
Proof. by constructor. Qed.

Lemma process_ops_spec {L : Base64Laws B} ops n : calm ->
  let rs := fst (process_ops instant_min E clock X ops n) in
  length rs = length ops
  /\ (forall i op r, ops !! i = Some op -> rs !! i = Some r -> answers op r)
  /\ total_bytes rs <= BATCH_RESPONSE_BUDGET.
Proof.
  intros [Hj Hp]. unfold process_ops.
  destruct (phase1_acc ops ops 0 n acc_new (acc_new_ok ops) ltac:(done)) as [Ha1 Hi1].
  destruct (phase1 E clock 0 ops n acc_new) as [n1 a1]. cbn [snd] in Ha1, Hi1.
  destruct (join_jobs_acc ops (be_join X (jobs a1)) n1 a1 Ha1) as [Ha2 Hi2].
  { rewrite Hj. apply Ha1. }
  { apply Forall_forall. intros; apply Hp. }
  destruct (join_jobs instant_min E clock X (be_join X (jobs a1)) n1 a1) as [n2 a2]. cbn [snd] in Ha2, Hi2.
  destruct (phase2_spec ops a2 n2 Ha2) as (Hi3 & Hans & Hb).
  destruct (phase2 E X a2 n2) as [rs n3]. cbn [fst] in *.
  assert (fst <$> rs ≡ₚ seq 0 (length ops)) as HP.
  { rewrite Hi3, Hi2, Hj, Permutation_app_comm. change (drain_indices a1 ++ (fst <$> jobs a1)) with (all_indices a1).
    rewrite Hi1. cbn. by rewrite app_nil_r. }
  pose proof (sort_indices rs (length ops) HP) as Hseq.
  set (l := sort_by_key _ rs) in *. assert (l ≡ₚ rs) as Hl by apply sort_by_perm.
  split_and!.
  - rewrite length_fmap, <- (length_fmap fst l), Hseq. by rewrite length_seq.
  - intros i op r Hop Hr. apply (sorted_lookup rs (length ops) i r HP) in Hr.
    apply (proj1 (Forall_forall _ _) Hans) in Hr as (op' & Ho' & ?). cbn [fst snd] in *.
    rewrite Hop in Ho'. by injection Ho' as <-.
  - by rewrite (total_bytes_perm _ (snd <$> rs)) by (by rewrite Hl).
Qed.

(** ** The data of a response is what the op's own drains took *)

(** What the drains with a given tag took from a session. *)
Definition own (tag h : nat) (t : list TraceEntry) : bytes :=
  drained (filter (fun x => te_tag x = tag /\ te_handle x = h) t ≫= fun x => option_list (te_out x)).

Lemma own_snoc tag h t tag' h' ev o :
  own tag h (t ++ [mkTrace tag' h' ev o])
  = own tag h t ++ (if decide (tag' = tag /\ h' = h) then match o with Some (d, _) => d | None => [] end else []).
Proof.
  unfold own, drained. rewrite filter_app, !bind_app. f_equal. unfold filter; cbn.
  destruct (decide _); cbn; [|done]. destruct o as [[d e]|]; cbn; by rewrite ?app_nil_r.
Qed.

Definition same_own (tag h : nat) (n n' : Node) : Prop := own tag h (trace n') = own tag h (trace n).

Lemma record_step_own tag h tag' h' ev o s n :
  tag' <> tag \/ h' <> h \/ o = None -> same_own tag h n (record_step tag' h' ev o s n).
Proof.
  intros Ho. unfold same_own. cbn [record_step set_heap trace]. rewrite own_snoc.
  destruct (decide _) as [[-> ->]|]; [|by rewrite app_nil_r]. destruct Ho as [?|[?| ->]]; [done..|]. by rewrite app_nil_r.
Qed.

Lemma remove_session_trace sid n : trace (remove_session sid n) = trace n.
Proof. unfold remove_session. by destruct (sessions n !! sid). Qed.
Lemma remove_udp_session_trace sid n : trace (remove_udp_session sid n) = trace n.
Proof. unfold remove_udp_session. by destruct (udp_sessions n !! sid). Qed.

Lemma env_act_own tag h n a : tag <> 0%nat -> same_own tag h n (env_act n a).
Proof.
  intros Ht. destruct a; cbn [env_act]; try done.
  - destruct (heap n !! h0) as [s|]; [|done]. destruct (session_step s ev) as [[s' o]|]; [|done].
    apply record_step_own. left. congruence.
  - by destruct (udp_heap n !! h0).
  - unfold same_own. by rewrite remove_session_trace.
  - unfold same_own. by rewrite remove_udp_session_trace.
Qed.

Lemma interfere_own tag h n : tag <> 0%nat -> same_own tag h n (interfere E n).
Proof.
  intros Ht. unfold same_own, interfere. cbn [set_tick trace].
  generalize (E (tick n)). intros l. revert n. induction l as [|a l IH]; intros n; cbn; [done|].
  rewrite IH. by apply env_act_own.
Qed.

Lemma node_drain_own tag h tag' h' raw max n :
  own tag h (trace (snd (node_drain tag' h' raw max n)))
  = own tag h (trace n) ++ (if decide (tag' = tag /\ h' = h) then fst (fst (node_drain tag' h' raw max n)) else []).
Proof.
  unfold node_drain. destruct (heap n !! h') as [s|]; [|by destruct (decide _); rewrite app_nil_r].
  destruct (drain_now raw max s) as [[d e] s']. cbn [snd fst record_step set_heap trace]. apply own_snoc.
Qed.

(** What a drain loop appends is what its tag took. *)
Lemma drain_loop_own turns tag h tag' h' budget all n : tag <> 0%nat ->
  let '(all', _, n') := drain_loop E turns tag' h' budget all n in
  exists d, all' = all ++ d
  /\ own tag h (trace n') = own tag h (trace n) ++ (if decide (tag' = tag /\ h' = h) then d else []).
Proof.
  intros Ht. revert all n. induction turns as [|turns IH]; intros all n; cbn [drain_loop];
    pose proof (node_drain_own tag h tag' h' (node_eof h' (interfere E n)) (saturating_sub budget (len all)) (interfere E (interfere E n))) as Hd;
    rewrite (interfere_own tag h (interfere E n) Ht), (interfere_own tag h n Ht) in Hd;
    destruct (node_drain _ _ _ _ _) as [[data e] n2]; cbn [snd fst] in Hd;
    (case_bool_decide as Hnil; [exists []; subst data; rewrite app_nil_r; done|]).
  1: destruct (_ || _); by exists data.
  destruct (_ || _); [by exists data|].
  specialize (IH (all ++ data) n2). destruct (drain_loop E turns tag' h' budget (all ++ data) n2) as [[all' e'] n3].
  destruct IH as (d & -> & Ho). exists (data ++ d). rewrite app_assoc. split; [done|]. rewrite Ho, Hd.
  destruct (decide _); by rewrite <- app_assoc.
Qed.

Lemma tcp_drain_all_own ds budget n : 0 <= budget -> NoDup (d_index <$> ds) ->
  let '(l, n') := tcp_drain_all E X ds budget n in
  (forall d all e, (d, all, e) ∈ l ->
     own (tag_of (d_index d)) (d_handle d) (trace n') = own (tag_of (d_index d)) (d_handle d) (trace n) ++ all)
  /\ (forall i h, i ∉ (d_index <$> ds) -> same_own (tag_of i) h n n').
Proof.
  revert budget n. induction ds as [|d ds IH]; intros budget n Hbud Hnd; cbn [tcp_drain_all].
  { split; [by intros d all e ?%elem_of_nil|done]. }
  cbn in Hnd. apply NoDup_cons in Hnd as [Hnew Hnd]. destruct (budget =? 0).
  - specialize (IH budget n Hbud Hnd). destruct (tcp_drain_all E X ds budget n) as [l n1]. destruct IH as [I1 I2]. split.
    + intros d' all e [[= -> -> ->]|Hin]%elem_of_cons; [rewrite app_nil_r; by apply I2|by apply (I1 _ _ e)].
    + intros i h Hi. cbn in Hi. apply not_elem_of_cons in Hi as [_ ?]. by apply I2.
  - set (k := be_turns X (d_index d)).
    assert (forall tag h, tag <> 0%nat -> let '(all, _, n1) := drain_loop E k (tag_of (d_index d)) (d_handle d) budget [] n in
      own tag h (trace n1) = own tag h (trace n) ++ (if decide (tag_of (d_index d) = tag /\ d_handle d = h) then all else [])) as Hl.
    { intros tag h Ht. pose proof (drain_loop_own k tag h (tag_of (d_index d)) (d_handle d) budget [] n Ht) as H.
      destruct (drain_loop _ _ _ _ _ _ _) as [[all e] n1]. destruct H as (x & -> & ->). done. }
    destruct (drain_loop _ _ _ _ _ _ _) as [[all e] n1].
    assert (0 <= saturating_sub budget (len all)) as Hb2 by (unfold saturating_sub; lia).
    specialize (IH _ n1 Hb2 Hnd). destruct (tcp_drain_all_spec ds _ n1 Hb2) as [Hds _].
    destruct (tcp_drain_all E X ds (saturating_sub budget (len all)) n1) as [l n2]. destruct IH as [I1 I2]. split.
    + intros d' all' e' [[= -> -> ->]|Hin]%elem_of_cons.
      * rewrite I2 by done. rewrite Hl by done. by rewrite decide_True.
      * rewrite (I1 _ _ e') by done. rewrite Hl by done. rewrite decide_False, app_nil_r; [done|].
        intros [[= Heq] _]. apply Hnew. rewrite Heq. apply list_elem_of_fmap. exists d'. split; [done|].
        rewrite <- Hds. apply list_elem_of_fmap. by exists (d', all', e').
    + intros i h Hi. cbn in Hi. apply not_elem_of_cons in Hi as [Hi1 Hi2].
      unfold same_own. rewrite I2 by done. rewrite Hl by done. rewrite decide_False, app_nil_r; [done|].
      intros [[= Heq] _]. done.
Qed.

(** ** Phase 1 and the jobs drain nothing *)
Lemma same_own_trans tag h n1 n2 n3 : same_own tag h n1 n2 -> same_own tag h n2 n3 -> same_own tag h n1 n3.
Proof. unfold same_own. congruence. Qed.

Lemma same_own_trace tag h n n' : trace n' = trace n -> same_own tag h n n'.
Proof. unfold same_own. by intros ->. Qed.

Lemma node_touch_own tag h tag' h' t n : same_own tag h n (node_touch tag' h' t n).
Proof. unfold node_touch. destruct (heap n !! h'); [|done]. apply record_step_own. auto. Qed.

Lemma node_data_write_own tag h tag' h' q b n : same_own tag h n (fst (node_data_write tag' h' q b n)).
Proof.
  unfold node_data_write. destruct (heap n !! h') as [s|]; [|done]. destruct (data_write q b s). apply record_step_own. auto.
Qed.

Section Quiet.
Context (tag h : nat) (Htag : tag <> 0%nat).

Lemma own_interfere_l n n' : same_own tag h (interfere E n) n' -> same_own tag h n n'.
Proof. intros. eapply same_own_trans; [by apply interfere_own|done]. Qed.

Lemma own_interfere_r n n' : same_own tag h n n' -> same_own tag h n (interfere E n').
Proof. intros. eapply same_own_trans; [done|by apply interfere_own]. Qed.

Lemma data_op_own i op n a : same_own tag h n (fst (data_op E clock i op n a)).
Proof.
  unfold data_op. destruct (required_sid (o_sid op)) as [sid|]; [|done]. apply own_interfere_l.
  destruct (sessions (interfere E n) !! sid) as [ms|]; [|done]. apply own_interfere_l.
  set (n0 := interfere E (interfere E n)). pose proof (node_touch_own tag h (tag_of i) (ms_inner ms) (now clock n0) n0) as Ht.
  destruct (decode_field (o_d op)) as [[|y b]|e|]; try done.
  eapply same_own_trans; [exact Ht|]. apply own_interfere_l. set (n1 := interfere E _).
  pose proof (node_data_write_own tag h (tag_of i) (ms_inner ms) (o_wseq op) (y :: b) n1) as Hw.
  destruct (node_data_write _ _ _ _ _) as [n2 [|]]; cbn [fst] in *; [done|].
  eapply same_own_trans; [exact Hw|]. apply own_interfere_l, same_own_trace, remove_session_trace.
Qed.

Lemma udp_data_op_own i op n a : same_own tag h n (fst (udp_data_op E clock i op n a)).
Proof.
  assert (forall k ev m, same_own tag h m (match udp_heap m !! k with
    | Some u => set_udp_heap (<[k := udp_step u ev]> (udp_heap m)) m | None => m end)) as Hu.
  { intros k ev m. by destruct (udp_heap m !! k). }
  unfold udp_data_op. destruct (required_sid (o_sid op)) as [sid|]; [|done]. apply own_interfere_l.
  destruct (udp_sessions (interfere E n) !! sid) as [k|]; [|done].
  destruct (decode_field (o_d op)) as [[|y b]|e|]; cbn [fst]; try done; apply own_interfere_l.
  2:{ eapply same_own_trans; [apply (Hu k (UeSend (y :: b)))|]. apply own_interfere_l, Hu. }
  all: apply Hu.
Qed.

Lemma phase1_own ops i n a : same_own tag h n (fst (phase1 E clock i ops n a)).
Proof.
  revert i n a. induction ops as [|op ops IH]; intros i n a; cbn [phase1]; [done|].
  assert (same_own tag h n (fst (phase1_op E clock i op n a))) as H.
  { unfold phase1_op. repeat case_bool_decide; try done; [apply data_op_own|apply udp_data_op_own|].
    unfold handle_close. destruct (required_sid (o_sid op)); [|done]. cbn [fst].
    apply own_interfere_l. eapply same_own_trans; [apply same_own_trace, remove_session_trace|].
    apply own_interfere_l, same_own_trace, remove_udp_session_trace. }
  destruct (phase1_op E clock i op n a) as [n1 a1]. eapply same_own_trans; [exact H|apply IH].
Qed.

Lemma create_session_trace c key n : trace (snd (create_session instant_min clock c key n)) = trace n.
Proof.
  unfold create_session. destruct (open_tcp _ _ _ _ _ _ _ _) as [[r p] d]. destruct r; [|done..].
  by destruct (ce_prewarm c) as [[? ?] ?].
Qed.

Lemma open_stream_trace c host port n : trace (snd (open_stream instant_min clock c host port n)) = trace n.
Proof.
  unfold open_stream. case_match; [done|].
  pose proof (create_session_trace c (host, port) n). by destruct (create_session instant_min clock c (host, port) n).
Qed.

Lemma insert_session_trace sid s g n : trace (snd (insert_session sid s g n)) = trace n.
Proof. done. Qed.

Lemma run_job_own c j n : same_own tag h n (snd (run_job instant_min E clock c j n)).
Proof.
  destruct j as [host port|host port d|host port d]; cbn [run_job].
  - unfold handle_connect. destruct (validate_host_port host port) as [[x p]|e|]; [|done..].
    pose proof (open_stream_trace c x p (interfere E n)) as Ht.
    destruct (open_stream _ _ _ _ _ _) as [[g|e|] n1]; cbn [snd] in *; apply own_interfere_l; [|by apply same_own_trace..].
    eapply same_own_trans; [by apply same_own_trace|]. apply own_interfere_l, same_own_trace.
    apply (insert_session_trace (ce_uuid c) _ g).
  - unfold connect_data_phase1. destruct (validate_host_port host port) as [[x p]|e|]; [|done..].
    pose proof (open_stream_trace c x p (interfere E n)) as Ht.
    destruct (open_stream _ _ _ _ _ _) as [[g|e|] n1]; cbn [snd] in *; apply own_interfere_l; [|by apply same_own_trace..].
    destruct (decode_field d) as [b|e|]; [|by apply same_own_trace..].
    eapply same_own_trans; [by apply same_own_trace|]. destruct (_ && _); apply own_interfere_l; [done|].
    apply same_own_trace, (insert_session_trace (ce_uuid c) _ g).
  - unfold udp_open_phase1. destruct (validate_host_port host port) as [key|e|]; [|done..].
    assert (trace (snd (create_udp_session clock c key (interfere E n))) = trace (interfere E n)) as Ht.
    { unfold create_udp_session. by destruct (dns_resolve _ _ _ _). }
    destruct (create_udp_session _ _ _ _) as [[g|e|] n1]; cbn [snd] in *; apply own_interfere_l; [|by apply same_own_trace..].
    destruct (decode_field d) as [b|e|]; [|by apply same_own_trace..].
    eapply same_own_trans; [by apply same_own_trace|]. apply own_interfere_l.
    by destruct (if bool_decide (b = []) then Ok tt else ce_send c).
Qed.

Lemma join_jobs_own js n a : same_own tag h n (fst (join_jobs instant_min E clock X js n a)).
Proof.
  revert n a. induction js as [|[i j] js IH]; intros n a; cbn [join_jobs]; [done|].
  destruct (be_panics X i); [apply IH|]. pose proof (run_job_own (be_conn X i) j n) as H.
  destruct (run_job instant_min E clock (be_conn X i) j n) as [r n1]. eapply same_own_trans; [exact H|apply IH].
Qed.

Lemma udp_drain_all_own ds n : same_own tag h n (snd (udp_drain_all E ds n)).
Proof.
  revert n. induction ds as [|d ds IH]; intros n; cbn [udp_drain_all]; [done|]. apply own_interfere_l.
  set (n1 := interfere E n). set (p := match udp_heap n1 !! d_handle d with Some _ => _ | None => _ end).
  assert (trace (snd p) = trace n1) as Hp by (unfold p; by destruct (udp_heap n1 !! d_handle d)).
  destruct p as [[pk e] n2]. cbn [snd] in Hp. specialize (IH n2).
  destruct (udp_drain_all E ds n2). eapply same_own_trans; [by apply same_own_trace|done].
Qed.

Lemma fold_own {A} (f : Node -> A -> Node) l n : (forall m x, trace (f m x) = trace m) -> same_own tag h n (fold_left f l n).
Proof.
  intros Hf. revert n. induction l as [|x l IH]; intros n; cbn; [done|]. eapply same_own_trans; [apply same_own_trace, Hf|apply IH].
Qed.
End Quiet.

(** The responses of phase 2: those of phase 1, or a drain's. *)
Lemma phase2_own a n : NoDup (drain_indices a) ->
  let '(rs, n') := phase2 E X a n in
  forall i r, (i, r) ∈ rs -> r_d r <> None -> (i, r) ∈ results a
    \/ exists h d, r_d r = data_field d /\ own (tag_of i) h (trace n') = own (tag_of i) h (trace n) ++ d.
Proof.
  intros Hnd. unfold phase2. destruct (bool_decide _ && bool_decide _); [by left|].
  unfold drain_indices in Hnd. apply NoDup_app in Hnd as (_ & _ & Hnd). apply NoDup_app in Hnd as (Hnd & _).
  pose proof (tcp_drain_all_own (tcp_drains a) BATCH_RESPONSE_BUDGET (interfere E n) ltac:(by compute) Hnd) as Ht.
  destruct (tcp_drain_all E X (tcp_drains a) BATCH_RESPONSE_BUDGET (interfere E n)) as [tl n1]. destruct Ht as [Ht _].
  set (n2 := fold_left _ _ _).
  assert (forall tag h, tag <> 0%nat -> same_own tag h n1 n2) as H12.
  { intros tag h Htag. eapply same_own_trans; [by apply interfere_own|]. apply fold_own. intros m x. apply remove_session_trace. }
  assert (forall tag h, tag <> 0%nat -> same_own tag h n2 (snd (udp_drain_all E (udp_drains a) n2))) as H23.
  { intros tag h Htag. by apply udp_drain_all_own. }
  destruct (udp_drain_all E (udp_drains a) n2) as [ul n3]. cbn [snd] in H23. set (n4 := fold_left _ _ (interfere E n3)).
  assert (forall tag h, tag <> 0%nat -> same_own tag h n3 n4) as H34.
  { intros tag h Htag. eapply same_own_trans; [by apply interfere_own|]. apply fold_own. intros m x. apply remove_udp_session_trace. }
  intros i r Hin Hd. apply elem_of_app in Hin as [?|Hin]; [by left|]. right.
  apply elem_of_app in Hin as [Hin|Hin]; apply list_elem_of_fmap in Hin as ([[d data] e] & [= -> ->] & Hin); [|done].
  exists (d_handle d), data. split; [done|]. specialize (Ht d data e Hin).
  unfold same_own in *. rewrite H34, H23, H12, Ht by done. f_equal. by apply interfere_own.
Qed.

Lemma process_ops_own {L : Base64Laws B} ops n : calm ->
  let '(rs, n') := process_ops instant_min E clock X ops n in
  forall i r, rs !! i = Some r -> r_d r <> None ->
    exists h d, r_d r = data_field d /\ own (tag_of i) h (trace n') = own (tag_of i) h (trace n) ++ d.
Proof.
  intros [Hj Hp]. unfold process_ops.
  destruct (phase1_acc ops ops 0 n acc_new (acc_new_ok ops) ltac:(done)) as [Ha1 Hi1].
  assert (forall tag h, tag <> 0%nat -> same_own tag h n (fst (phase1 E clock 0 ops n acc_new))) as H01.
  { intros tag h Htag. by apply phase1_own. }
  destruct (phase1 E clock 0 ops n acc_new) as [n1 a1]. cbn [fst snd] in *.
  destruct (join_jobs_acc ops (be_join X (jobs a1)) n1 a1 Ha1) as [Ha2 Hi2].
  { rewrite Hj. apply Ha1. }
  { apply Forall_forall. intros; apply Hp. }
  assert (forall tag h, tag <> 0%nat -> same_own tag h n1 (fst (join_jobs instant_min E clock X (be_join X (jobs a1)) n1 a1))) as H12.
  { intros tag h Htag. by apply join_jobs_own. }
  destruct (join_jobs instant_min E clock X (be_join X (jobs a1)) n1 a1) as [n2 a2]. cbn [fst snd] in *.
  assert (drain_indices a2 ≡ₚ seq 0 (length ops)) as HP.
  { rewrite Hi2, Hj, Permutation_app_comm. change (drain_indices a1 ++ (fst <$> jobs a1)) with (all_indices a1).
    rewrite Hi1. cbn. by rewrite app_nil_r. }
  destruct (phase2_spec ops a2 n2 Ha2) as (Hi3 & _ & _).
  pose proof (phase2_own a2 n2 ltac:(rewrite HP; apply NoDup_seq)) as H2.
  destruct (phase2 E X a2 n2) as [rs n3]. cbn [fst] in Hi3.
  intros i r Hr Hd. apply (sorted_lookup rs (length ops)) in Hr; [|by rewrite Hi3].
  destruct (H2 i r Hr Hd) as [Hin|(h & d & Hrd & Hown)].
  - apply (proj1 (Forall_forall _ _) (ao_results _ _ Ha2)) in Hin as [? _]. done.
  - exists h, d. split; [done|]. rewrite Hown, (H12 (tag_of i) h), (H01 (tag_of i) h); done.
Qed.
End Service.

(** ** A server *)

(** A request, or whatever else the process does. *)
Inductive Request :=
| RqBatch (X : BatchEnv) (body : bytes)
| RqTunnel (c : ConnEnv) (req : TunnelRequest)
| RqCleanup
| RqOther (l : list EnvAct).

Section Server.
Context {HO : HashOrder} (instant_min : Z) {B : Base64} {DG : Digest} {BC : BatchCodec}
        (auth_key : str) (diagnostic_mode : bool).

(** Each request has its own interference, which includes the requests it overlaps. *)
Definition serve (n : Node) (rq : Env * (nat -> Z) * Request) : Node :=
  let '(E, clock, rq) := rq in
  match rq with
  | RqBatch X body => snd (handle_batch instant_min E clock X auth_key diagnostic_mode body n)
  | RqTunnel c req => snd (handle_tunnel instant_min E clock auth_key c req n)
  | RqCleanup => cleanup_tick E clock n
  | RqOther l => fold_left env_act l n
  end.

Definition serve_all (n : Node) (rqs : list (Env * (nat -> Z) * Request)) : Node := fold_left serve rqs n.

Lemma serve_ok n rq : node_ok n -> node_ok (serve n rq).
Proof.
  intros Hok. destruct rq as [[E clock] rq]. destruct rq; cbn [serve].
  - by apply handle_batch_ok.
  - by apply handle_tunnel_ok.
  - by apply cleanup_tick_ok.
  - by apply env_acts_ok.
Qed.

Lemma serve_all_ok rqs n : node_ok n -> node_ok (serve_all n rqs).
Proof. revert n. induction rqs as [|rq rqs IH]; intros n Hok; cbn; [done|]. by apply IH, serve_ok. Qed.
End Server.

(** Nothing else happens. *)
Definition quiet : Env := fun _ => [].

Lemma interfere_quiet n : interfere quiet n = set_tick (S (tick n)) n.
Proof. done. Qed.

(** ** Properties *)

(** Claim C12: every session of the node carries its streams in order, whatever requests the
    node has served: batches, single operations and cleanups with any interleaving of
    readers and of one another.  What responses took from a session, in the order they took
    it, and then the rest of its buffer, are the bytes read from upstream; the buffer is
    bounded; and if the uploads carry the numbers of a client's log, the bytes on the
    upstream socket are a prefix of the log.  The session table never dangles, and the
    replay registry stays consistent. *)
Theorem node_streams_in_order {HO : HashOrder} (instant_min : Z) {B : Base64} {DG : Digest} {BC : BatchCodec}
    (auth_key : str) (diagnostic_mode prewarm_on : bool) (rqs : list (Env * (nat -> Z) * Request)) :
  let n := serve_all instant_min auth_key diagnostic_mode (node_new prewarm_on) rqs in
  (forall h s, heap n !! h = Some s ->
     exists room t0 initial,
       births n !! h = Some (session_open (mkWriter [] room) t0 initial)
       /\ reads (events_of h (trace n)) = drained (outs_of h (trace n)) ++ read_buf s
       /\ len (read_buf s) < READ_BUF_CAP + READER_CHUNK
       /\ (forall log, Forall (from_log log) (events_of h (trace n)) ->
             w_out (writer s) `prefix_of` initial ++ concat log))
  /\ (forall sid ms, sessions n !! sid = Some ms -> is_Some (heap n !! ms_inner ms))
  /\ registry_ok (replay n).
Proof.
  cbn zeta. set (n := serve_all _ _ _ _ rqs).
  assert (node_ok n) as Hok by apply serve_all_ok, node_new_ok. destruct Hok as [H1 _ _ _ H4 _ H6].
  split_and!; [|done|done]. intros h s Hs. destruct (H1 h s Hs) as (s0 & Hb & (room & t0 & initial & ->) & Hrun).
  exists room, t0, initial. destruct (open_run_download _ _ _ _ _ _ Hrun) as [Hr Hd].
  split_and!; [done|done|apply Hr|]. intros log Hlog. by apply (open_run_upload room t0 initial log _ s _ Hrun).
Qed.

(** A batch is answered op by op.  However its connects are scheduled and whatever
    happens between its steps, the response has one entry per op, in the order of the ops;
    the entry of a data op carries that op's session id and sequence number, or an error;
    and the data of all entries is at most 32 MiB. *)
Theorem batch_answers_each_op {HO : HashOrder} (instant_min : Z) {B : Base64} {L : Base64Laws B} (E : Env)
    (clock : nat -> Z) (X : BatchEnv) (ops : list BatchOp) (n : Node)
    (Hcalm : calm X) :
  let rs := fst (process_ops instant_min E clock X ops n) in
  length rs = length ops
  /\ (forall i op r, ops !! i = Some op -> rs !! i = Some r -> is_data op ->
        (r_sid r = o_sid op /\ r_seq r = o_seq op /\ is_Some (r_eof r)) \/ is_Some (r_e r))
  /\ total_bytes rs <= 32 * 1024 * 1024.
Proof.
  destruct (process_ops_spec instant_min E clock X ops n Hcalm) as (H1 & H2 & H3).
  split_and!; [done| |done]. intros i op r Hop Hr. by apply (H2 i op r).
Qed.

(** The data of a response is what its op took.  Each entry of a batch's response
    that carries data carries, encoded, exactly the bytes that the drains of its op took
    from one session during the batch, in order. *)
Theorem batch_data_is_drained {HO : HashOrder} (instant_min : Z) {B : Base64} {L : Base64Laws B} (E : Env)
    (clock : nat -> Z) (X : BatchEnv) (ops : list BatchOp) (n : Node) (i : nat) (r : TunnelResponse) (d : str)
    (Hcalm : calm X)
    (Hr : fst (process_ops instant_min E clock X ops n) !! i = Some r)
    (Hd : r_d r = Some d) :
  exists h b, d = b64_encode b
  /\ own (tag_of i) h (trace (snd (process_ops instant_min E clock X ops n)))
     = own (tag_of i) h (trace n) ++ b.
Proof.
  pose proof (process_ops_own instant_min E clock X ops n Hcalm) as H.
  destruct (process_ops instant_min E clock X ops n) as [rs n']. cbn [fst snd] in *.
  destruct (H i r Hr) as (h & b & Hb & Ho); [by rewrite Hd|]. exists h, b. split; [|done].
  unfold data_field in Hb. rewrite Hd in Hb. case_bool_decide; [done|]. by injection Hb.
Qed.

(** A request without the key changes nothing and learns nothing: whatever the body
    of the batch, the node answers a plain 404 page (or, in diagnostic mode, an
    "unauthorized" error) and its state is the same; likewise for single operations. *)
Theorem bad_key_no_effect {HO : HashOrder} (instant_min : Z) {B : Base64} {DG : Digest} {BC : BatchCodec}
    (E : Env) (clock : nat -> Z) (X : BatchEnv) (c : ConnEnv) (auth_key : str) (diagnostic_mode : bool)
    (body j : bytes) (req : BatchRequest) (treq : TunnelRequest) (n : Node)
    (Hj : batch_json body = Ok j /\ json_batch j = Ok req)
    (Hk : b_k req <> auth_key /\ rq_k treq <> auth_key) :
  handle_batch instant_min E clock X auth_key diagnostic_mode body n
  = (if diagnostic_mode then error_batch (lit "unauthorized") else decoy, n)
  /\ handle_tunnel instant_min E clock auth_key c treq n = (None, n).
Proof.
  destruct Hk as [Hk1 Hk2]. split.
  - unfold handle_batch, decode_batch.
    destruct Hj as [-> Hj]. cbn [res_bind]. rewrite Hj. cbn [map_err]. by rewrite bool_decide_false.
  - unfold handle_tunnel. by rewrite bool_decide_false.
Qed.

(** Formats and a digest for the examples. *)
Definition toy_codec (req : BatchRequest) : BatchCodec := {|
  gunzip b := Ok b; json_batch _ := Ok req; zstd_decode b := Ok b; json_ops _ := Ok [];
  json_error_batch _ := [101]; json_responses _ := []; zstd_encode _ := None;
  json_r_zc rs _ := rs ≫= fun r => default [] (r_d r) ++ [44];
  json_zr_zc _ _ := [] |}.
Definition toy_digest : Digest := {| ops_to_vec ops := Some (ops ≫= fun op => default [] (o_sid op)); blake3 b := b |}.

Definition example_conn : ConnEnv :=
  mkConnEnv (fun _ => true) (Ok [1]) (fun _ => Ok 0%nat) NoCut (Ok [1], fun _ => Ok 0%nat, NoCut) None (Ok tt) (Ok tt)
    [] (lit "s1").
Definition example_batch : BatchEnv := mkBatchEnv (fun _ => example_conn) (fun l => l) (fun _ => false) (fun _ => 3%nat).

(** A session, whose upstream sends [7; 8]; a poll and an unknown op. *)
Definition example_ops : list BatchOp :=
  [mkOp (lit "data") (Some (lit "s1")) None None None (Some 4) None; mkOp (lit "frob") None None None None None None].
Definition example_node : Node :=
  fold_left env_act [XNew None 0 [] (lit "s1") false; XSession 0 (SeRead [7; 8])] (node_new false).

Lemma example_calm : calm example_batch.
Proof. by split. Qed.

Lemma bad_key_no_effect_witness :
  let X := toy_codec (mkBatch (lit "wrong") [] None None) in
  handle_batch (HO:=list_order) (B:=toy_base64) (DG:=toy_digest) (BC:=X) 0 quiet (fun _ => 0) example_batch (lit "key") false [1] example_node
  = (decoy, example_node).
Proof.
  cbn zeta.
  refine (proj1 (@bad_key_no_effect list_order 0 toy_base64 toy_digest (toy_codec (mkBatch (lit "wrong") [] None None))
    quiet (fun _ => 0) example_batch example_conn (lit "key") false [1] [1] (mkBatch (lit "wrong") [] None None)
    (mkReq [] (lit "data") None None None None) example_node _ _)).
  - split; reflexivity.
  - split; discriminate.
Defined.

Lemma batch_answers_each_op_witness :
  let rs := fst (process_ops (HO:=list_order) (B:=toy_base64) 0 quiet (fun _ => 0) example_batch example_ops example_node) in
  r_d <$> rs = [Some [7; 8]; None] /\ length rs = 2%nat.
Proof.
  cbn zeta. split; [vm_compute; reflexivity|].
  exact (proj1 (@batch_answers_each_op list_order 0 toy_base64 toy_base64_laws quiet (fun _ => 0) example_batch example_ops
    example_node example_calm)).
Defined.

Lemma batch_data_is_drained_witness :
  exists h b, [7; 8] = b64_encode (Base64:=toy_base64) b
  /\ own (tag_of 0) h (trace (snd (process_ops (HO:=list_order) (B:=toy_base64) 0 quiet (fun _ => 0) example_batch example_ops example_node)))
     = own (tag_of 0) h (trace example_node) ++ b.
Proof.
  refine (@batch_data_is_drained list_order 0 toy_base64 toy_base64_laws quiet (fun _ => 0) example_batch example_ops
    example_node 0 (tcp_drain_response (B:=toy_base64) (lit "s1") [7; 8] false (Some 4)) [7; 8] example_calm _ _).
  - vm_compute; reflexivity.
  - reflexivity.
Defined.

(** Claim C13: a retried batch is not executed again while its response is registered.  If the
    node ran a replayable batch as its owner and stored the response as the entry [e], then
    in every later state that still holds this entry, whatever other requests, jobs and
    network events came between and come with the retry, the same request body received
    within 60 seconds of the response is answered with the same bytes; the sessions, the
    tables, the queues and the record of drained bytes are those the environment left.
    (An entry leaves the register when its 60 seconds are over or when it is evicted
    from a full register.) *)
Theorem batch_retry_same_answer {HO : HashOrder} (instant_min : Z) {B : Base64} {DG : Digest} {BC : BatchCodec}
    (E E' : Env) (clock clock' : nat -> Z) (X X' : BatchEnv) (auth_key : str) (diagnostic_mode : bool)
    (body key : bytes) (ops : list BatchOp) (z : bool) (n n1 n' : Node) (resp : HttpResponse) (tx : nat) (e : ReplayEntry)
    (Hok : node_ok n)
    (Hdec : decode_batch auth_key diagnostic_mode body = inl (ops, z))
    (Hkey : replay_fingerprint ops z = Some key)
    (Hown : fst (claim (now clock (interfere E n)) key (replay (interfere E n))) = Owner tx)
    (Hrun : handle_batch instant_min E clock X auth_key diagnostic_mode body n = (resp, n1))
    (Hstored : entries (replay n1) !! key = Some e)
    (Hok' : node_ok n')
    (Hkept : entries (replay (interfere E' n')) !! key = Some e)
    (Htime : now clock' (interfere E' n') - stamp e < REPLAY_TTL) :
  exists n2, handle_batch instant_min E' clock' X' auth_key diagnostic_mode body n' = (resp, n2)
  /\ heap n2 = heap (interfere E' n') /\ udp_heap n2 = udp_heap (interfere E' n') /\ sessions n2 = sessions (interfere E' n')
  /\ udp_sessions n2 = udp_sessions (interfere E' n') /\ trace n2 = trace (interfere E' n').
Proof.
  unfold handle_batch in Hrun |- *. rewrite Hdec, Hkey in *.
  destruct (interfere_ok E n Hok) as [Hok0 _]. pose proof (claim_ok (now clock (interfere E n)) key _ (no_replay _ Hok0)) as Hrc.
  destruct (claim (now clock (interfere E n)) key (replay (interfere E n))) as [cl r]. cbn [fst snd] in Hown, Hrc. subst cl.
  assert (node_ok (set_replay r (interfere E n))) as Hok0' by (by apply set_replay_ok).
  pose proof (process_ops_ok instant_min E clock X ops _ Hok0') as [Hok2 _].
  destruct (process_ops instant_min E clock X ops (set_replay r (interfere E n))) as [rs n3]. cbn [snd] in Hok2.
  destruct (interfere_ok E n3 Hok2) as [Hok3 _].
  set (json := encode_batch z rs) in *. set (t := now clock (interfere E n3)) in *. injection Hrun as <- <-.
  cbn [set_replay replay] in Hstored.
  assert (e = Ready json t) as ->.
  { destruct (evict_evicted _ (store_ready_ok t key json _ (no_replay _ Hok3))) as [_ _ _ Hsub _ _ _].
    apply Hsub in Hstored. rewrite (proj1 (store_ready_same t key json (replay (interfere E n3)))) in Hstored. by injection Hstored. }
  destruct (interfere_ok E' n' Hok') as [Hok4 _].
  pose proof (claim_found (now clock' (interfere E' n')) key _ (Ready json t) (no_replay _ Hok4) Hkept ltac:(left; exact Htime)) as Hc.
  destruct (claim (now clock' (interfere E' n')) key (replay (interfere E' n'))) as [cl r']. cbn [fst] in Hc. subst cl.
  eexists. split; [reflexivity|]. done.
Qed.

(** A poll that returned data, asked again. *)
Definition example_poll : BatchRequest :=
  mkBatch (lit "key") [mkOp (lit "data") (Some (lit "s1")) None None None (Some 4) None] None None.

Lemma example_node_ok : node_ok example_node.
Proof. apply env_acts_ok, node_new_ok. Qed.

(** The batch at 10 s; the same body at 69 s, as more bytes of the upstream arrive. *)
Definition example_between : Node :=
  snd (handle_batch (HO:=list_order) (B:=toy_base64) (DG:=toy_digest) (BC:=toy_codec example_poll) 0 quiet (fun _ => 10) example_batch
    (lit "key") false [1] example_node).
Definition example_later : Env := fun _ => [XSession 0 (SeRead [9])].

Lemma batch_retry_same_answer_witness :
  exists n2, handle_batch (HO:=list_order) (B:=toy_base64) (DG:=toy_digest) (BC:=toy_codec example_poll) 0 example_later (fun _ => 69)
       example_batch (lit "key") false [1] example_between = (json_ok [7; 8; 44], n2)
  /\ heap n2 = heap (interfere example_later example_between).
Proof.
  destruct (@batch_retry_same_answer list_order 0 toy_base64 toy_digest (toy_codec example_poll) quiet example_later (fun _ => 10)
    (fun _ => 69) example_batch example_batch (lit "key") false [1] (0 :: lit "s1") (b_ops example_poll) false example_node
    example_between example_between (json_ok [7; 8; 44]) 0 (Ready [7; 8; 44] 10)) as (n2 & H1 & H2 & _).
  - apply example_node_ok.
  - reflexivity.
  - reflexivity.
  - reflexivity.
  - vm_compute; reflexivity.
  - vm_compute; reflexivity.
  - apply handle_batch_ok, example_node_ok.
  - vm_compute; reflexivity.
  - vm_compute; reflexivity.
  - exists n2. split; [exact H1|exact H2].
Defined.

(** The cleanup reaps exactly the idle.  One turn of the cleanup task removes a TCP
    session from the table iff it was last used more than 300 seconds before, a UDP session
    iff more than 120 seconds before, and changes no session. *)
Theorem cleanup_exact (clock : nat -> Z) (n : Node) (sid : str) :
  let t := clock (tick n) in
  let n' := cleanup_tick quiet clock n in
  sessions n' !! sid
  = match sessions n !! sid with
    | Some ms => if idle_session t n ms then None else Some ms
    | None => None
    end
  /\ udp_sessions n' !! sid
  = match udp_sessions n !! sid with Some h => if idle_udp t n h then None else Some h | None => None end
  /\ heap n' = heap n /\ udp_heap n' = udp_heap n.
Proof.
  cbn zeta. unfold cleanup_tick. rewrite !interfere_quiet.
  cbn [set_tables set_tick sessions udp_sessions heap udp_heap tick]. split_and!; [| |done|done].
  - destruct (sessions n !! sid) as [ms|] eqn:Es.
    + destruct (idle_session (clock (tick n)) n ms) eqn:Ei.
      * apply map_lookup_filter_None. right. intros x Hx. cbn [set_tick sessions] in Hx. rewrite Es in Hx. injection Hx as <-.
        cbn [snd]. change (idle_session (now clock n) (set_tick (S (tick n)) n) ms) with (idle_session (clock (tick n)) n ms).
        by rewrite Ei.
      * apply map_lookup_filter_Some. split; [done|]. cbn [snd].
        change (idle_session (now clock n) (set_tick (S (tick n)) n) ms) with (idle_session (clock (tick n)) n ms). by rewrite Ei.
    + apply map_lookup_filter_None. by left.
  - destruct (udp_sessions n !! sid) as [h|] eqn:Es.
    + destruct (idle_udp (clock (tick n)) n h) eqn:Ei.
      * apply map_lookup_filter_None. right. intros x Hx. cbn [set_tick set_tables udp_sessions] in Hx. rewrite Es in Hx. injection Hx as <-.
        cbn [snd]. change (~ negb (idle_udp (clock (tick n)) n h) = true). by rewrite Ei.
      * apply map_lookup_filter_Some. split; [done|]. change (negb (idle_udp (clock (tick n)) n h) = true). by rewrite Ei.
    + apply map_lookup_filter_None. by left.
Qed.
