(* ===== verification/TunnelMux.v ===== *)
(** * src/tunnel_client.rs: the tunnel multiplexer

    [TunnelMux] and [mux_loop]: how the messages of all sessions are collected into
    batches, which batches may be retried, how a batch's response is dealt out, and the two
    caches of the mux (legacy deployments, unreachable targets).

    A reply channel is a number.  Durations and instants are milliseconds.  The calls of
    the domain fronter are arguments (the result of a request, the deployment chosen). *)

From stdpp Require Import prelude gmap.
From S2P Require Import Prelude RustStr NodeProto.
#[local] Open Scope Z_scope.

Definition MAX_BATCH_PAYLOAD_BYTES : Z := 4 * 1024 * 1024.
Definition MAX_BATCH_OPS : Z := 50.
Definition CONNECT_DATA_TRANSPORT_RETRIES : nat := 1.
Definition INFLIGHT_IDLE : Z := 1.
Definition INFLIGHT_OPTIMIST : Z := 3.
Definition INFLIGHT_ACTIVE : Z := 6.
Definition ACTIVE_REFILL_DELAY_MS : Z := 1000.
Definition IDLE_REFILL_DELAY_START_EMPTY : Z := 4.
Definition IDLE_REFILL_DELAY_STEP_MS : Z := 1000.
Definition IDLE_REFILL_DELAY_MAX_MS : Z := 7000.
Definition HANDSHAKE_COALESCE_MAX_MS : Z := 50.
Definition LEGACY_DETECT_THRESHOLD : Z := 1500.
Definition LEGACY_RECOVER_AFTER : Z := 60000.
Definition UNREACHABLE_CACHE_TTL : Z := 30000.
Definition UNREACHABLE_CACHE_MAX : Z := 256.

(** ** Predicates *)
Definition is_server_speaks_first (port : Z) : bool := bool_decide (port ∈ [21; 22; 25; 110; 143; 587]).

Definition is_unreachable_error_str (s : str) : bool :=
  let lc := to_ascii_lowercase s in
  contains lc (lit "network is unreachable") || contains lc (lit "no route to host")
  || contains lc (lit "os error 101") || contains lc (lit "os error 113").

(** [strip_suffix('.').unwrap_or(host)], lowercased. *)
Definition normalize_cache_host (host : str) : str :=
  to_ascii_lowercase
    (match reverse host with 46 :: r => reverse r | _ => host end).

Definition is_tls_record_handshake (data : bytes) : bool :=
  match data with 0x16 :: 0x03 :: _ => true | _ => false end.

Definition is_connect_data_unsupported_error_str (e : str) : bool :=
  let e := to_ascii_lowercase e in
  (contains e (lit "unknown op") || contains e (lit "unknown tunnel op")) && contains e (lit "connect_data").

Definition is_connect_data_unsupported_response (r : TunnelResponse) : bool :=
  bool_decide (r_code r = Some CODE_UNSUPPORTED_OP)
  || match r_e r with Some e => is_connect_data_unsupported_error_str e | None => false end.

Definition is_retryable_connect_data_transport_error (e : str) : bool :=
  let e := to_ascii_lowercase e in
  contains e (lit "peer closed connection without sending tls close_notify")
  || contains e (lit "unexpected eof") || contains e (lit "early eof")
  || contains e (lit "connection reset") || contains e (lit "broken pipe").

Definition can_retry_remote_eof (first_resp_wrote_data : bool) (bytes_to_browser : Z)
    (retry_ready_data : option bytes) : bool :=
  (bytes_to_browser =? 0) && negb first_resp_wrote_data
  && match retry_ready_data with Some d => is_tls_record_handshake d | None => false end.

Definition is_idle_depth (max_inflight : Z) : bool := max_inflight =? INFLIGHT_IDLE.

Definition should_suppress_empty_refill (has_buffered_upload client_closed : bool) (max_inflight : Z)
    (consecutive_empty : Z) (all_servers_legacy : bool) : bool :=
  negb has_buffered_upload && negb client_closed && is_idle_depth max_inflight
  && (IDLE_REFILL_DELAY_START_EMPTY <=? consecutive_empty) && all_servers_legacy.

Definition refill_delay (max_inflight consecutive_empty : Z) : Z :=
  if negb (is_idle_depth max_inflight) then ACTIVE_REFILL_DELAY_MS
  else if consecutive_empty <? IDLE_REFILL_DELAY_START_EMPTY then 0
  else
    let empty_over := consecutive_empty - IDLE_REFILL_DELAY_START_EMPTY in
    let ramp_steps := empty_over / 4 + 1 in
    Z.min (ramp_steps * IDLE_REFILL_DELAY_STEP_MS) IDLE_REFILL_DELAY_MAX_MS.

(** ** Messages and ops *)
Inductive MuxMsg :=
| MConnect (host : str) (port : Z) (reply : nat)
| MConnectData (host : str) (port : Z) (data : bytes) (reply : nat)
| MData (sid : str) (data : bytes) (seq wseq : option Z) (reply : nat)
| MUdpOpen (host : str) (port : Z) (data : bytes) (reply : nat)
| MUdpData (sid : str) (data : bytes) (reply : nat)
| MClose (sid : str).

Record PendingOp := mkPending {
  p_op : str; p_sid : option str; p_host : option str; p_port : option Z;
  p_data : option bytes; p_encode_empty : bool; p_seq : option Z; p_wseq : option Z
}.

Definition encoded_len (n : Z) : Z := ((n + 2) / 3) * 4.

Definition some_nonempty (data : bytes) : option bytes := if bool_decide (data = []) then None else Some data.

(** The op of a message, with its payload size; [None] for [Close]. *)
Definition msg_op (m : MuxMsg) : option (PendingOp * Z * nat) :=
  match m with
  | MConnect host port reply =>
    Some (mkPending (lit "connect") None (Some host) (Some port) None false None None, 0, reply)
  | MConnectData host port data reply =>
    Some (mkPending (lit "connect_data") None (Some host) (Some port) (Some data) true None None,
          encoded_len (len data), reply)
  | MData sid data seq wseq reply =>
    Some (mkPending (lit "data") (Some sid) None None (some_nonempty data) false seq wseq,
          encoded_len (len data), reply)
  | MUdpOpen host port data reply =>
    Some (mkPending (lit "udp_open") None (Some host) (Some port) (some_nonempty data) false None None,
          encoded_len (len data), reply)
  | MUdpData sid data reply =>
    Some (mkPending (lit "udp_data") (Some sid) None None (some_nonempty data) false None None,
          encoded_len (len data), reply)
  | MClose _ => None
  end.

Definition close_op (sid : str) : PendingOp :=
  mkPending (lit "close") (Some sid) None None None false None None.

(** ** [BatchAccum] *)
Record BatchAccum := mkAccum {
  pending_ops : list PendingOp;
  data_replies : list (nat * nat);   (* (index of the op, reply channel) *)
  payload_bytes : Z
}.
Definition accum_new : BatchAccum := mkAccum [] [] 0.

Definition should_fire (pending_len payload op_bytes : Z) : bool :=
  (0 <? pending_len)
  && ((MAX_BATCH_OPS <=? pending_len) || (MAX_BATCH_PAYLOAD_BYTES <? Z.min (payload + op_bytes) u64_max)).

(** A batch handed to [fire_batch]. *)
Definition Fired : Type := list PendingOp * list (nat * nat).

Definition push_or_fire (op : PendingOp) (op_bytes : Z) (reply : nat) (a : BatchAccum)
    : list Fired * BatchAccum :=
  let '(fired, a) :=
    if should_fire (len (pending_ops a)) (payload_bytes a) op_bytes
    then ([(pending_ops a, data_replies a)], accum_new)
    else ([], a) in
  let idx := length (pending_ops a) in
  (fired, mkAccum (pending_ops a ++ [op]) (data_replies a ++ [(idx, reply)]) (payload_bytes a + op_bytes)).

Fixpoint push_all (msgs : list MuxMsg) (a : BatchAccum) : list Fired * BatchAccum :=
  match msgs with
  | [] => ([], a)
  | m :: msgs =>
    match msg_op m with
    | Some (op, n, reply) =>
      let '(f1, a) := push_or_fire op n reply a in
      let '(f2, a) := push_all msgs a in (f1 ++ f2, a)
    | None => push_all msgs a
    end
  end.

Definition close_sids (msgs : list MuxMsg) : list str :=
  msgs ≫= fun m => match m with MClose sid => [sid] | _ => [] end.

(** One turn of [mux_loop] after the messages were collected: the batches fired, in order. *)
Definition assemble (msgs : list MuxMsg) : list Fired :=
  let '(fired, a) := push_all msgs accum_new in
  let ops := pending_ops a ++ (close_op <$> close_sids msgs) in
  if bool_decide (ops = []) then fired else fired ++ [(ops, data_replies a)].

(** ** Collecting messages: the coalescing deadlines *)
Definition is_handshake_priority (m : MuxMsg) : bool :=
  match m with
  | MConnect _ _ _ | MConnectData _ _ _ _ => true
  | MData _ data _ _ _ => is_tls_record_handshake data
  | _ => false
  end.

Definition upgrade_handshake_deadline (priority new_is_priority : bool) (hard_deadline batch_start : Z)
    (coalesce_max_handshake : Z) : bool * Z :=
  if negb priority && new_is_priority
  then (true, Z.min hard_deadline (batch_start + coalesce_max_handshake))
  else (priority, hard_deadline).

Record Coalesce := mkCoalesce {
  c_msgs : list MuxMsg; c_priority : bool; c_hard : Z; c_soft : Z
}.

Definition coalesce_start (batch_start step max : Z) (m : MuxMsg) : Coalesce :=
  let hs := Z.min HANDSHAKE_COALESCE_MAX_MS max in
  let p := is_handshake_priority m in
  mkCoalesce [m] p (batch_start + if p then hs else max) (batch_start + step).

(** A message received at [now]. *)
Definition coalesce_recv (batch_start step max : Z) (now : Z) (m : MuxMsg) (c : Coalesce) : Coalesce :=
  let hs := Z.min HANDSHAKE_COALESCE_MAX_MS max in
  let '(p, hard) := upgrade_handshake_deadline (c_priority c) (is_handshake_priority m) (c_hard c) batch_start hs in
  mkCoalesce (c_msgs c ++ [m]) p hard (now + step).

(** The loop goes on waiting at [now]. *)
Definition coalesce_waits (now : Z) (c : Coalesce) : bool := now <? Z.min (c_soft c) (c_hard c).

(** ** Batches *)
Section Encode.
Context {B : Base64}.

Definition encode_pending (p : PendingOp) : BatchOp :=
  let d := match p_data p with
           | Some b => if negb (bool_decide (b = [])) then Some (b64_encode b)
                       else if p_encode_empty p then Some [] else None
           | None => None
           end in
  mkOp (p_op p) (p_sid p) (p_host p) (p_port p) d (p_seq p) (p_wseq p).
End Encode.

Definition is_idle_poll_batch (ops : list PendingOp) : bool :=
  negb (bool_decide (ops = []))
  && forallb (fun p => (bool_decide (p_op p = lit "data") || bool_decide (p_op p = lit "udp_data"))
                       && bool_decide (p_data p = None)) ops.

Definition batch_is_replay_safe (ops : list BatchOp) : bool :=
  negb (bool_decide (ops = []))
  && forallb (fun op => bool_decide (o_op op = lit "data") && negb (none_or_empty (o_sid op))
                        && negb (bool_decide (o_seq op = None))
                        && (none_or_empty (o_d op) || negb (bool_decide (o_wseq op = None)))) ops.

(** The outcome of one request: answered, failed, or the whole budget elapsed. *)
Inductive FronterError := FeTimeout | FeIo (e : str) | FeBadResponse (e : str) | FeJson (e : str) | FeOther (e : str).
Inductive BatchResult := BrOk (r : list TunnelResponse) | BrErr (e : FronterError) | BrElapsed.

Definition ambiguous_batch_failure (r : BatchResult) : bool :=
  match r with
  | BrElapsed | BrErr FeTimeout | BrErr (FeIo _) | BrErr (FeBadResponse _) | BrErr (FeJson _) => true
  | _ => false
  end.

(** What a session's reply channel gets. *)
Inductive BatchedReply := RpOk (r : TunnelResponse) (script_id : str) | RpErr (e : str).

Definition script_short (script_id : str) : str := take 8 script_id.

(** [fire_batch] from the request on: [request k] is the outcome of the [k]th attempt,
    [supports_replay] whether the deployment does, [show] the text of an error.  The
    number of attempts made and the replies by channel. *)
Definition fire_batch (request : nat -> BatchResult) (supports_replay : bool) (show : FronterError -> str)
    (script_id : str) (data_ops : list BatchOp) (replies : list (nat * nat)) : nat * list (nat * BatchedReply) :=
  let first := request 0%nat in
  let '(attempts, result) :=
    if batch_is_replay_safe data_ops && supports_replay && ambiguous_batch_failure first
    then (2%nat, request 1%nat) else (1%nat, first) in
  (attempts,
   match result with
   | BrOk rs =>
     (fun '(idx, ch) =>
        (ch, match rs !! idx with
             | Some r => RpOk r script_id
             | None => RpErr (lit "missing response in batch from script " ++ script_short script_id)
             end)) <$> replies
   | BrErr e => (fun '(_, ch) => (ch, RpErr (show e))) <$> replies
   | BrElapsed => (fun '(_, ch) => (ch, RpErr (lit "batch timed out"))) <$> replies
   end).

(** ** Legacy deployments *)
Record Legacy := mkLegacy { legacy_deployments : gmap str Z; all_legacy : bool }.
Definition legacy_new : Legacy := mkLegacy ∅ false.

Definition legacy_live (now : Z) (deps : gmap str Z) : gmap str Z :=
  filter (fun kt => now - snd kt <? LEGACY_RECOVER_AFTER = true) deps.

Definition mark_server_no_longpoll (num_scripts : Z) (now : Z) (script_id : str) (l : Legacy) : Legacy :=
  let deps := <[script_id := now]> (legacy_live now (legacy_deployments l)) in
  mkLegacy deps (Z.of_nat (size deps) =? num_scripts).

Definition all_servers_legacy (num_scripts : Z) (now : Z) (l : Legacy) : bool * Legacy :=
  if negb (all_legacy l) then (false, l) else
  let deps := legacy_live now (legacy_deployments l) in
  let still_all := Z.of_nat (size deps) =? num_scripts in
  (still_all, mkLegacy deps (if still_all then all_legacy l else false)).

(** ** The negative cache *)
Definition target : Type := str * Z.

Section Unreachable.
(** [cache.iter().min_by_key(..)]: some key with the least expiry. *)
Context (min_key : gmap target Z -> option target).

Definition is_unreachable (now : Z) (host : str) (port : Z) (c : gmap target Z) : bool * gmap target Z :=
  let key := (normalize_cache_host host, port) in
  match c !! key with
  | Some expiry => if now <? expiry then (true, c) else (false, delete key c)
  | None => (false, c)
  end.

(** [while cache.len() >= UNREACHABLE_CACHE_MAX], at most one turn per entry. *)
Fixpoint evict_soonest (fuel : nat) (c : gmap target Z) : gmap target Z :=
  if Z.of_nat (size c) <? UNREACHABLE_CACHE_MAX then c else
  match fuel with
  | O => c
  | S fuel => match min_key c with Some k => evict_soonest fuel (delete k c) | None => c end
  end.

Definition record_unreachable_if_match (now : Z) (host : str) (port : Z) (err : str) (c : gmap target Z)
    : gmap target Z :=
  if negb (is_unreachable_error_str err) then c else
  let c :=
    if UNREACHABLE_CACHE_MAX <=? Z.of_nat (size c) then
      let c := filter (fun kt => now <? snd kt = true) c in
      evict_soonest (size c) c
    else c in
  <[(normalize_cache_host host, port) := now + UNREACHABLE_CACHE_TTL]> c.
End Unreachable.

(** ** Lemmas: batches *)

(** The ops of the messages that carry one, with their channels. *)
Definition carried (msgs : list MuxMsg) : list (PendingOp * nat) :=
  msgs ≫= fun m => match msg_op m with Some (op, _, ch) => [(op, ch)] | None => [] end.

(** The channels of a batch point at its ops in order. *)
Definition indexed (ops : list PendingOp) (replies : list (nat * nat)) (l : list (PendingOp * nat)) : Prop :=
  ops = fst <$> l /\ replies = zip (seq 0 (length l)) (snd <$> l).

(** The encoded size of an op's payload, as the accumulator counts it. *)
Definition op_payload (p : PendingOp) : Z :=
  match p_data p with Some b => encoded_len (len b) | None => 0 end.
Definition payload_of (l : list (PendingOp * nat)) : Z := foldr (fun x n => op_payload (fst x) + n) 0 l.

Lemma payload_of_app l k : payload_of (l ++ k) = payload_of l + payload_of k.
Proof. induction l as [|x l IH]; cbn; [done|]. unfold payload_of in *. lia. Qed.

Lemma encoded_len_nonneg n : 0 <= n -> 0 <= encoded_len n.
Proof. intros. unfold encoded_len. pose proof (Z.div_pos (n + 2) 3). lia. Qed.

Lemma msg_op_payload m op n ch : msg_op m = Some (op, n, ch) -> n = op_payload op /\ 0 <= n.
Proof.
  assert (forall d : bytes, encoded_len (len d) = match some_nonempty d with Some b => encoded_len (len b) | None => 0 end) as Hd.
  { intros d. unfold some_nonempty. case_bool_decide; [by subst|done]. }
  assert (forall d : bytes, 0 <= encoded_len (len d)) as Hn by (intros; apply encoded_len_nonneg, len_nonneg).
  destruct m; cbn; intros; simplify_eq; unfold op_payload; cbn; split; auto; lia.
Qed.

(** Within the limits, or a single op that alone exceeds them. *)
Definition batch_small (l : list (PendingOp * nat)) : Prop :=
  len l <= MAX_BATCH_OPS /\ (payload_of l <= MAX_BATCH_PAYLOAD_BYTES \/ len l = 1).

Record accum_ok (a : BatchAccum) (l : list (PendingOp * nat)) : Prop := {
  ac_index : indexed (pending_ops a) (data_replies a) l;
  ac_payload : payload_bytes a = payload_of l;
  ac_small : batch_small l
}.

Lemma zip_seq_snoc {A} (l : list A) x : zip (seq 0 (length (l ++ [x]))) (l ++ [x]) = zip (seq 0 (length l)) l ++ [(length l, x)].
Proof.
  rewrite length_app, Nat.add_1_r, seq_S, zip_with_app by (by rewrite length_seq). done.
Qed.

Lemma indexed_snoc ops rs l op ch : indexed ops rs l ->
  indexed (ops ++ [op]) (rs ++ [(length ops, ch)]) (l ++ [(op, ch)]).
Proof.
  intros [-> ->]. split; [by rewrite fmap_app|]. rewrite fmap_app. cbn [fmap list_fmap snd].
  pose proof (zip_seq_snoc (snd <$> l) ch) as H. rewrite length_app, length_fmap in H.
  rewrite length_app. cbn [length] in *. rewrite length_fmap. symmetry. exact H.
Qed.

Lemma payload_nonneg l : Forall (fun x => 0 <= op_payload (fst x)) l -> 0 <= payload_of l.
Proof. induction 1 as [|x l Hx _ IH]; cbn; [done|]. unfold payload_of in *. lia. Qed.

Lemma push_or_fire_ok op n ch a l : accum_ok a l -> n = op_payload op -> 0 <= n ->
  Forall (fun x => 0 <= op_payload (fst x)) l ->
  payload_of l + n <= u64_max ->
  let '(fired, a') := push_or_fire op n ch a in
  exists done l', accum_ok a' l' /\ l ++ [(op, ch)] = concat done ++ l'
  /\ Forall2 (fun f d => indexed (fst f) (snd f) d) fired done /\ Forall batch_small done
  /\ Forall (fun d => d <> []) done.
Proof.
  intros [[Hi1 Hi2] Hp Hs] Hn Hn0 Hnn Hmax. unfold push_or_fire.
  assert (len (pending_ops a) = len l) as Hl by (rewrite Hi1; unfold len; by rewrite length_fmap).
  destruct (should_fire _ _ _) eqn:Ef.
  - exists [l], [(op, ch)]. split_and!.
    + constructor; cbn; [done|lia|]. split; [by compute|right; done].
    + cbn. by rewrite app_nil_r.
    + by constructor.
    + by apply Forall_singleton.
    + apply Forall_singleton. intros ->. unfold should_fire in Ef. rewrite Hl in Ef. done.
  - exists [], (l ++ [(op, ch)]). split_and!; [|done|done|done|done].
    constructor; cbn.
    + by apply indexed_snoc.
    + rewrite payload_of_app. cbn. lia.
    + unfold should_fire in Ef. rewrite Hl, Hp in Ef. pose proof (len_nonneg l).
      unfold batch_small. rewrite len_app, payload_of_app. cbn. change (len [(op, ch)]) with 1.
      rewrite Z.min_l in Ef by lia. destruct Hs as [Hs1 Hs2].
      apply andb_false_iff in Ef as [Ef|Ef]; [apply Z.ltb_ge in Ef; assert (len l = 0) by lia; unfold MAX_BATCH_OPS; lia|].
      apply orb_false_iff in Ef as [E1%Z.leb_gt E2%Z.ltb_ge]. lia.
Qed.

Lemma carried_cons m msgs :
  carried (m :: msgs) = (match msg_op m with Some (op, _, ch) => [(op, ch)] | None => [] end) ++ carried msgs.
Proof. done. Qed.

Lemma carried_payload msgs : Forall (fun x => 0 <= op_payload (fst x)) (carried msgs).
Proof.
  induction msgs as [|m msgs IH]; [constructor|]. rewrite carried_cons. apply Forall_app. split; [|done].
  destruct (msg_op m) as [[[op n] ch]|] eqn:E; [|constructor]. destruct (msg_op_payload m op n ch E) as [-> ?].
  by apply Forall_singleton.
Qed.

Lemma push_all_ok msgs a l : accum_ok a l -> Forall (fun x => 0 <= op_payload (fst x)) l ->
  payload_of l + payload_of (carried msgs) <= u64_max ->
  let '(fired, a') := push_all msgs a in
  exists ds l', accum_ok a' l' /\ l ++ carried msgs = concat ds ++ l'
  /\ Forall2 (fun f d => indexed (fst f) (snd f) d) fired ds /\ Forall batch_small ds.
Proof.
  revert a l. induction msgs as [|m msgs IH]; intros a l Ha Hl Hmax; cbn [push_all].
  { exists [], l. rewrite app_nil_r. split_and!; done. }
  rewrite carried_cons in *. destruct (msg_op m) as [[[op n] ch]|] eqn:Em; [|by apply IH].
  destruct (msg_op_payload m op n ch Em) as [Hn Hn0]. rewrite payload_of_app in Hmax. cbn in Hmax.
  pose proof (payload_nonneg _ (carried_payload msgs)) as Hc.
  pose proof (push_or_fire_ok op n ch a l Ha Hn Hn0 Hl ltac:(lia)) as H.
  destruct (push_or_fire op n ch a) as [f1 a1]. destruct H as (d1 & l1 & Ha1 & E1 & F1 & S1 & _).
  assert (Forall (fun x => 0 <= op_payload (fst x)) (l ++ [(op, ch)])) as Hl'.
  { apply Forall_app. split; [done|]. apply Forall_singleton. cbn. lia. }
  assert (payload_of l + n = payload_of (concat d1) + payload_of l1) as Hsum.
  { rewrite <- payload_of_app, <- E1, payload_of_app. cbn. lia. }
  rewrite E1 in Hl'. apply Forall_app in Hl' as [Hd1 Hl1]. pose proof (payload_nonneg _ Hd1).
  specialize (IH a1 l1 Ha1 Hl1 ltac:(lia)). destruct (push_all msgs a1) as [f2 a2].
  destruct IH as (d2 & l2 & Ha2 & E2 & F2 & S2). exists (d1 ++ d2), l2. split_and!; [done| | |].
  - rewrite concat_app, <- (app_assoc (concat d1)), <- E2, (app_assoc (concat d1)), <- E1. by rewrite <- app_assoc.
  - by apply Forall2_app.
  - by apply Forall_app.
Qed.

Lemma accum_new_ok : accum_ok accum_new [].
Proof. constructor; [done|done|]. split; [by compute|left; by compute]. Qed.

(** A batch [f] that carries the ops and channels of [d], then maybe ops without a channel. *)
Definition carries (f : Fired) (d : list (PendingOp * nat)) : Prop :=
  (fst <$> d) `prefix_of` fst f /\ snd f = zip (seq 0 (length d)) (snd <$> d).

Lemma assemble_ok msgs : payload_of (carried msgs) <= u64_max ->
  exists ds, concat ds = carried msgs /\ Forall2 carries (assemble msgs) ds /\ Forall batch_small ds
  /\ concat (fst <$> assemble msgs) = (fst <$> carried msgs) ++ (close_op <$> close_sids msgs).
Proof.
  intros Hmax. unfold assemble.
  pose proof (push_all_ok msgs accum_new [] accum_new_ok ltac:(constructor) ltac:(cbn; lia)) as H.
  destruct (push_all msgs accum_new) as [fired a]. destruct H as (ds & l & [[Hi1 Hi2] _ Hs] & E & F & S). cbn in E.
  assert (Forall2 carries fired ds) as Fc.
  { eapply Forall2_impl; [exact F|]. intros [ops rs] d [H1 H2]. cbn in H1, H2. subst. by split. }
  assert (concat (fst <$> fired) = fst <$> concat ds) as Hops.
  { clear -F. induction F as [|f d fired ds [Hf _] _ IH]; [done|].
    rewrite fmap_cons. cbn [concat]. by rewrite fmap_app, IH, Hf. }
  case_bool_decide as Hnil.
  - apply app_eq_nil in Hnil as [Hn1 Hn2]. rewrite Hi1 in Hn1. apply fmap_nil_inv in Hn1 as ->.
    exists ds. rewrite app_nil_r in E. split_and!; [done|done|done|]. rewrite Hn2, app_nil_r. by rewrite Hops, E.
  - exists (ds ++ [l]). split_and!.
    + rewrite concat_app. cbn. by rewrite app_nil_r.
    + apply Forall2_app; [done|]. constructor; [|done]. split; [|done]. cbn. rewrite Hi1. by apply prefix_app_r.
    + apply Forall_app. split; [done|]. by apply Forall_singleton.
    + rewrite fmap_app, concat_app. cbn. rewrite app_nil_r, Hops, Hi1, E, fmap_app. by rewrite <- app_assoc.
Qed.

(** ** Lemmas: the coalescing deadlines *)
Record coalesce_ok (batch_start max : Z) (c : Coalesce) : Prop := {
  co_hard : c_hard c <= batch_start + max;
  co_priority : c_priority c = existsb is_handshake_priority (c_msgs c);
  co_handshake : c_priority c = true -> c_hard c <= batch_start + Z.min HANDSHAKE_COALESCE_MAX_MS max
}.

Lemma coalesce_start_ok batch_start step max m : 0 <= max -> coalesce_ok batch_start max (coalesce_start batch_start step max m).
Proof.
  intros Hm. unfold coalesce_start. destruct (is_handshake_priority m) eqn:Ep; constructor; cbn; rewrite ?Ep; try done; lia.
Qed.

Lemma coalesce_recv_ok batch_start step max now m c : coalesce_ok batch_start max c ->
  coalesce_ok batch_start max (coalesce_recv batch_start step max now m c) /\ c_hard (coalesce_recv batch_start step max now m c) <= c_hard c.
Proof.
  intros [H1 H2 H3]. unfold coalesce_recv, upgrade_handshake_deadline.
  destruct (c_priority c) eqn:Ep, (is_handshake_priority m) eqn:Em; cbn [negb andb];
    (split; [constructor; cbn; rewrite ?existsb_app, <- ?H2; cbn; rewrite ?Em; try done; auto; lia|cbn; lia]).
Qed.

(** ** Lemmas: legacy deployments *)
Record legacy_ok (ids : gset str) (l : Legacy) : Prop := {
  lg_ids : dom (legacy_deployments l) ⊆ ids;
  lg_flag : all_legacy l = false -> (size (legacy_deployments l) < size ids)%nat
}.

Lemma legacy_live_size now deps : (size (legacy_live now deps) <= size deps)%nat.
Proof. apply map_subseteq_size, map_filter_subseteq. Qed.

Lemma dom_size_le (m : gmap str Z) (ids : gset str) : dom m ⊆ ids -> (size m <= size ids)%nat.
Proof. intros H. rewrite <- size_dom. by apply subseteq_size. Qed.

Lemma mark_ok ids now id l : legacy_ok ids l -> id ∈ ids ->
  legacy_ok ids (mark_server_no_longpoll (Z.of_nat (size ids)) now id l).
Proof.
  intros [H1 H2] Hid.
  assert (dom (<[id := now]> (legacy_live now (legacy_deployments l))) ⊆ ids) as Hd.
  { rewrite dom_insert. assert (dom (legacy_live now (legacy_deployments l)) ⊆ dom (legacy_deployments l)).
    { apply dom_filter_subseteq. }
    set_solver. }
  constructor; cbn; [done|]. intros Hf%Z.eqb_neq. pose proof (dom_size_le _ _ Hd). lia.
Qed.

Lemma all_servers_legacy_ok ids now l : legacy_ok ids l ->
  legacy_ok ids (snd (all_servers_legacy (Z.of_nat (size ids)) now l)).
Proof.
  intros [H1 H2]. unfold all_servers_legacy. destruct (all_legacy l) eqn:Ea; cbn [negb snd]; [|constructor; [done|auto]].
  assert (dom (legacy_live now (legacy_deployments l)) ⊆ ids) as Hd.
  { etrans; [apply dom_filter_subseteq|done]. }
  constructor; cbn; [done|]. destruct (Z.eqb_spec (Z.of_nat (size (legacy_live now (legacy_deployments l)))) (Z.of_nat (size ids))); [done|].
  intros _. pose proof (dom_size_le _ _ Hd). lia.
Qed.

(** The gate is up exactly when every deployment has a live mark. *)
Lemma all_servers_legacy_spec ids now l : legacy_ok ids l ->
  fst (all_servers_legacy (Z.of_nat (size ids)) now l) = true
  <-> forall id, id ∈ ids -> exists t, legacy_deployments l !! id = Some t /\ now - t < LEGACY_RECOVER_AFTER.
Proof.
  intros [H1 H2].
  assert (dom (legacy_live now (legacy_deployments l)) ⊆ ids) as Hd.
  { etrans; [apply dom_filter_subseteq|done]. }
  assert (size (legacy_live now (legacy_deployments l)) = size ids <->
    forall id, id ∈ ids -> exists t, legacy_deployments l !! id = Some t /\ now - t < LEGACY_RECOVER_AFTER) as Hiff.
  { split.
    - intros Hs id Hid. assert (id ∈ dom (legacy_live now (legacy_deployments l))) as Hin.
      { rewrite <- size_dom in Hs. by rewrite (set_subseteq_size_eq _ _ Hd ltac:(lia)). }
      apply elem_of_dom in Hin as [t [Ht Hlive]%map_lookup_filter_Some]. exists t. split; [done|]. cbn in Hlive. lia.
    - intros Hall. rewrite <- size_dom. f_equal. apply set_eq. intros id. split; [set_solver|]. intros Hid.
      destruct (Hall id Hid) as (t & Ht & Hlt). apply elem_of_dom. exists t. apply map_lookup_filter_Some. split; [done|]. cbn. lia. }
  rewrite <- Hiff. unfold all_servers_legacy. destruct (all_legacy l) eqn:Ea; cbn [negb fst].
  - rewrite Z.eqb_eq. lia.
  - split; [done|]. intros Hs. specialize (H2 eq_refl). pose proof (legacy_live_size now (legacy_deployments l)). lia.
Qed.

(** ** Lemmas: the negative cache *)
Section UnreachableLemmas.
Context (min_key : gmap target Z -> option target).
Context (min_key_some : forall c, c <> ∅ -> exists k, min_key c = Some k /\ is_Some (c !! k)).

Lemma evict_soonest_size fuel c : (size c <= fuel)%nat ->
  Z.of_nat (size (evict_soonest min_key fuel c)) < UNREACHABLE_CACHE_MAX
  /\ evict_soonest min_key fuel c ⊆ c.
Proof.
  revert c. induction fuel as [|fuel IH]; intros c Hf; cbn [evict_soonest];
    (destruct (Z.ltb_spec (Z.of_nat (size c)) UNREACHABLE_CACHE_MAX) as [Hlt|Hge]; [by split|]).
  - unfold UNREACHABLE_CACHE_MAX in Hge. lia.
  - destruct (min_key_some c) as (k & -> & Hk).
    { intros ->. rewrite map_size_empty in Hge. by compute in Hge. }
    destruct (IH (delete k c)) as [I1 I2].
    { rewrite map_size_delete_Some by done. lia. }
    split; [done|]. etrans; [exact I2|]. apply delete_subseteq.
Qed.

Lemma record_unreachable_size now host port err c :
  Z.of_nat (size c) <= UNREACHABLE_CACHE_MAX ->
  Z.of_nat (size (record_unreachable_if_match min_key now host port err c)) <= UNREACHABLE_CACHE_MAX.
Proof.
  intros Hc. unfold record_unreachable_if_match. destruct (is_unreachable_error_str err); [|done]. cbn [negb].
  set (c1 := if _ <=? _ then _ else c). assert (Z.of_nat (size c1) < UNREACHABLE_CACHE_MAX).
  { unfold c1. destruct (Z.leb_spec UNREACHABLE_CACHE_MAX (Z.of_nat (size c))); [|lia]. by apply evict_soonest_size. }
  destruct (c1 !! (normalize_cache_host host, port)) as [y|] eqn:Ek.
  - rewrite map_size_insert_Some by (by exists y). lia.
  - rewrite map_size_insert_None by done. lia.
Qed.
End UnreachableLemmas.

(** A key choice that satisfies the hypothesis, for the examples. *)
Definition any_key (c : gmap target Z) : option target := fst <$> head (map_to_list c).
Lemma any_key_some c : c <> ∅ -> exists k, any_key c = Some k /\ is_Some (c !! k).
Proof.
  intros Hm. unfold any_key. destruct (map_to_list c) as [|[k x] l] eqn:E.
  - by apply map_to_list_empty_iff in E.
  - exists k. split; [done|]. exists x. apply elem_of_map_to_list. rewrite E. left.
Qed.

(** ** Properties *)

(** The multiplexer puts every message into one batch, in order.  The batches fired
    for the collected messages carry the ops of all messages that expect a reply exactly
    once and in their order, then the closes; in each batch the channel recorded for index
    [i] is that of its [i]th op; and no batch holds more than 50 such ops, or more than
    4 MiB of payload unless it is a single op. *)
Theorem mux_batches_cover (msgs : list MuxMsg)
    (Hmem : payload_of (carried msgs) <= u64_max) :
  exists ds, concat ds = carried msgs
  /\ Forall2 carries (assemble msgs) ds
  /\ Forall (fun d => len d <= 50 /\ (payload_of d <= 4 * 1024 * 1024 \/ len d = 1)) ds
  /\ concat (fst <$> assemble msgs) = (fst <$> carried msgs) ++ (close_op <$> close_sids msgs).
Proof. apply (assemble_ok msgs Hmem). Qed.

Definition example_msgs : list MuxMsg :=
  [MConnect (lit "a.example") 443 0; MClose (lit "s9"); MData (lit "s1") [1; 2; 3] (Some 0) (Some 0) 1].

Lemma mux_batches_cover_witness :
  length (assemble example_msgs) = 1%nat
  /\ concat (fst <$> assemble example_msgs) = (fst <$> carried example_msgs) ++ (close_op <$> close_sids example_msgs).
Proof.
  split; [reflexivity|].
  destruct (mux_batches_cover example_msgs) as (ds & _ & _ & _ & H).
  - vm_compute. discriminate.
  - exact H.
Defined.

(** Client and node agree on which batches may be repeated.  The client retries a
    batch only if the node registers it: the client's test holds exactly when the node
    computes a fingerprint (the serialization of the ops succeeding). *)
Theorem replay_agreement {DG : Digest} (ops : list BatchOp) (z : bool) :
  is_Some (replay_fingerprint ops z) <-> batch_is_replay_safe ops = true /\ is_Some (ops_to_vec ops).
Proof.
  assert (batch_is_replay_safe ops = negb (bool_decide (ops = []) || existsb op_unsafe ops)) as E.
  { unfold batch_is_replay_safe. rewrite negb_orb. f_equal.
    induction ops as [|op l IH]; [done|]. cbn [forallb existsb]. rewrite negb_orb, IH. f_equal.
    unfold op_unsafe. rewrite !negb_orb, negb_andb, !negb_involutive. done. }
  rewrite E. unfold replay_fingerprint. destruct (bool_decide (ops = []) || existsb op_unsafe ops); cbn [negb].
  - split; [by intros [? ?]|by intros [? _]].
  - destruct (ops_to_vec ops); cbn; split; [by eauto..|by intros [? ?]|by intros [_ [? ?]]].
Qed.

(** The mux's caches.  The gate for legacy deployments is up exactly when every
    configured deployment was marked less than 60 seconds ago; the negative cache never
    holds more than 256 targets; a target is cached only for a routing error, under a name
    that ignores case and a final dot, and for 30 seconds. *)
Theorem mux_caches (ids : gset str) (l : Legacy) (min_key : gmap target Z -> option target)
    (c : gmap target Z) (now t : Z) (host host' err : str) (port : Z)
    (Hl : legacy_ok ids l)
    (Hmin : forall c, c <> ∅ -> exists k, min_key c = Some k /\ is_Some (c !! k))
    (Hc : Z.of_nat (size c) <= 256)
    (Hh : normalize_cache_host host' = normalize_cache_host host) :
  (fst (all_servers_legacy (Z.of_nat (size ids)) now l) = true
   <-> forall id, id ∈ ids -> exists t, legacy_deployments l !! id = Some t /\ now - t < 60000)
  /\ Z.of_nat (size (record_unreachable_if_match min_key now host port err c)) <= 256
  /\ (is_unreachable_error_str err = false -> record_unreachable_if_match min_key now host port err c = c)
  /\ (is_unreachable_error_str err = true ->
      fst (is_unreachable t host' port (record_unreachable_if_match min_key now host port err c)) = (t <? now + 30000)).
Proof.
  split_and!.
  - apply (all_servers_legacy_spec ids now l Hl).
  - by apply (record_unreachable_size min_key Hmin).
  - intros He. unfold record_unreachable_if_match. by rewrite He.
  - intros He. unfold record_unreachable_if_match, is_unreachable. rewrite He, Hh. cbn [negb].
    rewrite lookup_insert_eq. change UNREACHABLE_CACHE_TTL with 30000. by destruct (t <? now + 30000).
Qed.

Lemma mux_caches_witness :
  fst (is_unreachable 20000 (lit "Host.example.") 443
         (record_unreachable_if_match any_key 0 (lit "host.example") 443 (lit "No route to host (os error 113)") ∅)) = true.
Proof.
  destruct (mux_caches {[lit "d1"]} legacy_new any_key ∅ 0 20000 (lit "host.example") (lit "Host.example.")
    (lit "No route to host (os error 113)") 443) as (_ & _ & _ & H).
  - constructor; cbn; [set_solver|]. intros _. vm_compute. lia.
  - apply any_key_some.
  - vm_compute. discriminate.
  - reflexivity.
  - rewrite H; reflexivity.
Defined.
