(* ===== verification/TunnelLoop.v ===== *)
(** * src/tunnel_client.rs: [tunnel_loop], one session of the full-mode client

    One turn of the loop is [iterate]: the checks at its top, then the arm of the [select!]
    that an event names ([None]: that arm is not enabled).  The locals of the function are
    the record [TLoop], in three groups; what the session shares with the others through
    the mux is [Shared].  [FuturesUnordered] is the list of the metadata of the requests in
    flight, any of which may complete next.

    The browser's end of the socket is a [SessionWriter]: it may stop accepting at any
    point.  [sent] is history: the data ops given to the mux, in order. *)

From stdpp Require Import prelude gmap.
From S2P Require Import Prelude RustStr Reorder NodeProto NodeSession TunnelMux.
#[local] Open Scope Z_scope.

Record InflightMeta := mkMeta { m_seq : Z; m_was_empty_poll : bool; m_send_at : Z }.

#[export] Instance meta_eq_dec : EqDecision InflightMeta.
Proof. solve_decision. Defined.

(** A data op as given to the mux. *)
Record SentOp := mkSent { s_seq : Z; s_wseq : option Z; s_data : bytes }.

Record SendSide := mkSend {
  next_send_seq : Z;
  next_data_write_seq : Z;
  inflight : list InflightMeta;
  inflight_uploads : Z;
  sent : list SentOp
}.

Definition Reply : Type := TunnelResponse * str.

Record RecvSide := mkRecv {
  next_write_seq : Z;
  pending_writes : BTreeMap Reply;
  browser : SessionWriter;
  eof_seen : bool;
  consecutive_empty : Z;
  consecutive_data : Z;
  total_download_bytes : Z
}.

Record Control := mkControl {
  max_inflight : Z;
  is_elevated : bool;
  tunnel_node_supports_seq : bool;
  client_closed : bool;
  buffered_upload : option bytes;
  refill_at : option Z
}.

Record TLoop := mkLoop { snd_side : SendSide; rcv_side : RecvSide; ctl : Control }.

(** [TunnelMux::elevated_sessions] and the legacy marks. *)
Record Shared := mkShared { elevated_sessions : Z; legacy : Legacy }.

Inductive Flow := Go | Brk | Io.

Definition u32_sat_inc (n : Z) : Z := Z.min (n + 1) (2 ^ 32 - 1).

Section Loop.
Context {B : Base64} (num_scripts max_elevated : Z).

(** ** Sending *)
Definition send_empty_poll (now : Z) (s : SendSide) : SendSide :=
  let q := next_send_seq s in
  mkSend (q + 1) (next_data_write_seq s) (inflight s ++ [mkMeta q true now]) (inflight_uploads s)
    (sent s ++ [mkSent q None []]).

(** [send_data_op], counted in [inflight_uploads] and pushed. *)
Definition send_data_op (now : Z) (data : bytes) (s : SendSide) : SendSide :=
  let q := next_send_seq s in
  let w := next_data_write_seq s in
  mkSend (q + 1) (w + 1) (inflight s ++ [mkMeta q false now]) (inflight_uploads s + 1)
    (sent s ++ [mkSent q (Some w) data]).

Definition inflight_len (s : SendSide) : Z := len (inflight s).

(** ** Writing to the browser *)
Inductive RespOutcome := Wrote | NoData | BadBase64.

(** [write_tunnel_response]; [None]: the write failed. *)
Definition write_tunnel_response (resp : TunnelResponse) (w : SessionWriter)
    : SessionWriter * option RespOutcome :=
  match r_d resp with
  | None => (w, Some NoData)
  | Some d =>
    if bool_decide (d = []) then (w, Some NoData) else
    match b64_decode d with
    | Some b =>
      if bool_decide (b = []) then (w, Some NoData)
      else let '(w, ok) := write_all b w in (w, if ok then Some Wrote else None)
    | None => (w, Some BadBase64)
    end
  end.

Definition resp_eof (r : TunnelResponse) : bool := default false (r_eof r).

(** [d.len() as u64 * 3 / 4] *)
Definition approx_bytes (r : TunnelResponse) : Z :=
  match r_d r with Some d => str_len d * 3 / 4 | None => 0 end.

Definition set_browser (w : SessionWriter) (r : RecvSide) : RecvSide :=
  mkRecv (next_write_seq r) (pending_writes r) w (eof_seen r) (consecutive_empty r) (consecutive_data r)
    (total_download_bytes r).
Definition set_pending_writes (m : BTreeMap Reply) (r : RecvSide) : RecvSide :=
  mkRecv (next_write_seq r) m (browser r) (eof_seen r) (consecutive_empty r) (consecutive_data r)
    (total_download_bytes r).
Definition set_consecutive_empty (n : Z) (r : RecvSide) : RecvSide :=
  mkRecv (next_write_seq r) (pending_writes r) (browser r) (eof_seen r) n (consecutive_data r)
    (total_download_bytes r).

(** A reply whose turn it is: written, counted, and its end of stream noted. *)
Definition deliver (resp : TunnelResponse) (r : RecvSide) : RecvSide * Flow :=
  let '(w, o) := write_tunnel_response resp (browser r) in
  let r := set_browser w r in
  match o with
  | None => (r, Io)
  | Some BadBase64 => (r, Brk)
  | Some Wrote =>
    (mkRecv (next_write_seq r + 1) (pending_writes r) w (eof_seen r || resp_eof resp) 0
       (u32_sat_inc (consecutive_data r)) (total_download_bytes r + approx_bytes resp), Go)
  | Some NoData =>
    (mkRecv (next_write_seq r + 1) (pending_writes r) w (eof_seen r || resp_eof resp)
       (u32_sat_inc (consecutive_empty r)) (consecutive_data r) (total_download_bytes r), Go)
  end.

(** [while let Some(entry) = pending_writes.first_entry()] *)
Fixpoint flush_buffered (m : BTreeMap Reply) (r : RecvSide) : RecvSide * Flow :=
  match m with
  | [] => (set_pending_writes [] r, Go)
  | (k, (resp, _)) :: rest =>
    if negb (k =? next_write_seq r) then (set_pending_writes m r, Go)
    else match deliver resp (set_pending_writes rest r) with
         | (r, Go) => flush_buffered rest r
         | rf => rf
         end
  end.

(** In order: deliver and flush; otherwise hold back. *)
Definition take_reply (q : Z) (rp : Reply) (r : RecvSide) : RecvSide * Flow :=
  if q =? next_write_seq r then
    match deliver (fst rp) r with
    | (r, Go) => flush_buffered (pending_writes r) r
    | rf => rf
    end
  else (set_pending_writes (bt_insert q rp (pending_writes r)) r, Go).

(** The same in the grace period after the end of the stream: results are ignored. *)
Definition deliver_ignoring (resp : TunnelResponse) (r : RecvSide) : RecvSide :=
  mkRecv (next_write_seq r + 1) (pending_writes r) (fst (write_tunnel_response resp (browser r))) (eof_seen r)
    (consecutive_empty r) (consecutive_data r) (total_download_bytes r).

Fixpoint flush_ignoring (m : BTreeMap Reply) (r : RecvSide) : RecvSide :=
  match m with
  | [] => set_pending_writes [] r
  | (k, (resp, _)) :: rest =>
    if negb (k =? next_write_seq r) then set_pending_writes m r
    else flush_ignoring rest (deliver_ignoring resp (set_pending_writes rest r))
  end.

Definition take_reply_grace (q : Z) (rp : Reply) (r : RecvSide) : RecvSide :=
  if q =? next_write_seq r then
    let r := deliver_ignoring (fst rp) r in flush_ignoring (pending_writes r) r
  else set_pending_writes (bt_insert q rp (pending_writes r)) r.

(** ** Pipeline depth *)

(** The adaptive block, for a reply that echoed its sequence number. *)
Definition adapt (r : RecvSide) (c : Control) (sh : Shared) : Control * Shared :=
  let set_depth d el := mkControl d el (tunnel_node_supports_seq c) (client_closed c) (buffered_upload c) (refill_at c) in
  if (2 <=? consecutive_empty r) && negb (is_idle_depth (max_inflight c)) then
    (set_depth (Z.min INFLIGHT_IDLE INFLIGHT_ACTIVE) false,
     if is_elevated c then mkShared (wrap 64 (elevated_sessions sh - 1)) (legacy sh) else sh)
  else if (1 <=? consecutive_data r) && (max_inflight c <? INFLIGHT_OPTIMIST) then
    (set_depth (Z.min INFLIGHT_OPTIMIST INFLIGHT_ACTIVE) (is_elevated c), sh)
  else if (2 <=? consecutive_data r) && (INFLIGHT_OPTIMIST <=? max_inflight c)
          && (max_inflight c <? INFLIGHT_ACTIVE) && (32 * 1024 <=? total_download_bytes r) then
    if negb (is_elevated c) then
      if max_elevated <=? elevated_sessions sh then (c, sh)
      else (set_depth (Z.min (max_inflight c + 1) INFLIGHT_ACTIVE) true,
            mkShared (elevated_sessions sh + 1) (legacy sh))
    else (set_depth (Z.min (max_inflight c + 1) INFLIGHT_ACTIVE) (is_elevated c), sh)
  else (c, sh).

Definition set_refill (t : option Z) (c : Control) : Control :=
  mkControl (max_inflight c) (is_elevated c) (tunnel_node_supports_seq c) (client_closed c) (buffered_upload c) t.
Definition set_closed (c : Control) : Control :=
  mkControl (max_inflight c) (is_elevated c) (tunnel_node_supports_seq c) true (buffered_upload c) (refill_at c).
Definition set_buffered (b : option bytes) (c : Control) : Control :=
  mkControl (max_inflight c) (is_elevated c) (tunnel_node_supports_seq c) (client_closed c) b (refill_at c).
Definition note_seq (has_seq : bool) (c : Control) : Control :=
  mkControl (if has_seq then max_inflight c else 1) (is_elevated c) (tunnel_node_supports_seq c || has_seq)
    (client_closed c) (buffered_upload c) (refill_at c).

(** [mux.all_servers_legacy()] *)
Definition legacy_check (now : Z) (sh : Shared) : bool * Shared :=
  let '(b, l) := all_servers_legacy num_scripts now (legacy sh) in (b, mkShared (elevated_sessions sh) l).

(** ** Events *)
Inductive ReplyOutcome :=
| ROk (r : TunnelResponse) (script_id : str)
| RBatchErr (e : str)
| RTimeout
| RDropped.

Inductive LoopEvent :=
| EvRefill                                        (* the refill timer fires *)
| EvReply (meta : InflightMeta) (o : ReplyOutcome) (* a request completes *)
| EvRead (b : bytes)                              (* the browser sent bytes *)
| EvClose                                         (* it closed, or the read failed *)
| EvGraceOver.                                    (* nothing for 500 ms after the end *)

(** A completed request leaves the set, wherever it stands in it. *)
Fixpoint remove_meta (meta : InflightMeta) (l : list InflightMeta) : option (list InflightMeta) :=
  match l with
  | [] => None
  | m :: l => if decide (m = meta) then Some l else (m ::.) <$> remove_meta meta l
  end.

Definition complete_request (meta : InflightMeta) (s : SendSide) : option SendSide :=
  l ← remove_meta meta (inflight s);
  Some (mkSend (next_send_seq s) (next_data_write_seq s) l
          (if m_was_empty_poll meta then inflight_uploads s else saturating_sub (inflight_uploads s) 1) (sent s)).

(** ** The arms *)
Definition on_refill (now : Z) (s : TLoop) (sh : Shared) : TLoop * Shared :=
  let c := set_refill None (ctl s) in
  if negb (eof_seen (rcv_side s)) && (inflight_len (snd_side s) <? max_inflight c) then
    let '(legacy_all, sh) := legacy_check now sh in
    if should_suppress_empty_refill (if buffered_upload c then true else false) (client_closed c) (max_inflight c)
         (consecutive_empty (rcv_side s)) legacy_all
    then (mkLoop (snd_side s) (rcv_side s) c, sh)
    else
      let '(ss, c) :=
        match buffered_upload c with
        | Some data => (send_data_op now data (snd_side s), set_buffered None c)
        | None => if 0 <? inflight_uploads (snd_side s) then (snd_side s, c) else (send_empty_poll now (snd_side s), c)
        end in
      let c := if (inflight_len ss <? max_inflight c) && negb (is_idle_depth (max_inflight c))
               then set_refill (Some (refill_delay (max_inflight c) (consecutive_empty (rcv_side s)))) c else c in
      (mkLoop ss (rcv_side s) c, sh)
  else (mkLoop (snd_side s) (rcv_side s) c, sh).

(** A reply: [ss] is the send side with the request already out of flight. *)
Definition on_reply_ok (now : Z) (meta : InflightMeta) (resp : TunnelResponse) (script_id : str)
    (ss : SendSide) (s : TLoop) (sh : Shared) : TLoop * Shared * Flow :=
  let has_data := match r_d resp with Some d => negb (bool_decide (d = [])) | None => false end in
  let has_seq := match r_seq resp with Some _ => true | None => false end in
  let c := note_seq has_seq (ctl s) in
  let fast_empty_poll := m_was_empty_poll meta && negb has_data && (now - m_send_at meta <? LEGACY_DETECT_THRESHOLD) in
  let sh := if negb has_seq || fast_empty_poll
            then mkShared (elevated_sessions sh) (mark_server_no_longpoll num_scripts now script_id (legacy sh))
            else sh in
  if r_e resp then (mkLoop ss (rcv_side s) c, sh, Brk) else
  match take_reply (m_seq meta) (resp, script_id) (rcv_side s) with
  | (r, Go) =>
    let '(ss, c, r) :=
      match buffered_upload c with
      | Some data =>
        if inflight_len ss <? max_inflight c
        then (send_data_op now data ss, set_refill None (set_buffered None c), set_consecutive_empty 0 r)
        else (ss, c, r)
      | None => (ss, c, r)
      end in
    let '(c, sh) := if has_seq then adapt r c sh else (c, sh) in
    let '(c, sh) :=
      if negb (eof_seen r) && (inflight_len ss <? max_inflight c) && (inflight_uploads ss =? 0)
         && bool_decide (refill_at c = None) then
        let '(legacy_all, sh) := legacy_check now sh in
        if should_suppress_empty_refill (if buffered_upload c then true else false) (client_closed c) (max_inflight c)
             (consecutive_empty r) legacy_all
        then (c, sh) else (set_refill (Some (refill_delay (max_inflight c) (consecutive_empty r))) c, sh)
      else (c, sh) in
    (mkLoop ss r c, sh, Go)
  | (r, f) => (mkLoop ss r c, sh, f)
  end.

(** Bytes from the browser. *)
Definition on_read (now : Z) (b : bytes) (s : TLoop) : TLoop :=
  let c := ctl s in
  if inflight_len (snd_side s) <? max_inflight c + 4 then
    mkLoop (send_data_op now b (snd_side s)) (set_consecutive_empty 0 (rcv_side s)) (set_refill None c)
  else
    mkLoop (snd_side s) (rcv_side s)
      (set_buffered (Some (match buffered_upload c with Some e => e ++ b | None => b end)) c).

(** ** One turn of the loop

    [top] is the time at the top of the loop, [now] the time the [select!] returns. *)
Definition can_read (s : TLoop) : bool :=
  negb (client_closed (ctl s)) && negb (eof_seen (rcv_side s))
  && (inflight_len (snd_side s) <? max_inflight (ctl s) + (if tunnel_node_supports_seq (ctl s) then 4 else 0)).

Definition select_arm (now : Z) (ev : LoopEvent) (s : TLoop) (sh : Shared) : option (TLoop * Shared * Flow) :=
  match ev with
  | EvRefill => if refill_at (ctl s) then let '(s, sh) := on_refill now s sh in Some (s, sh, Go) else None
  | EvReply meta o =>
    ss ← complete_request meta (snd_side s);
    match o with
    | ROk resp script_id => Some (on_reply_ok now meta resp script_id ss s sh)
    | _ => Some (mkLoop ss (rcv_side s) (ctl s), sh, Brk)
    end
  | EvRead b => if can_read s && negb (bool_decide (b = [])) then Some (on_read now b s, sh, Go) else None
  | EvClose => if can_read s then Some (mkLoop (snd_side s) (rcv_side s) (set_closed (ctl s)), sh, Go) else None
  | EvGraceOver => None
  end.

Definition iterate (top now : Z) (ev : LoopEvent) (s : TLoop) (sh : Shared) : option (TLoop * Shared * Flow) :=
  let ss := snd_side s in
  let idle := bool_decide (inflight ss = []) in
  if idle && (eof_seen (rcv_side s) || client_closed (ctl s)) then None     (* the loop has ended *)
  else if eof_seen (rcv_side s) then
    match ev with
    | EvReply meta (ROk resp script_id) =>
      ss ← complete_request meta ss;
      Some (mkLoop ss (take_reply_grace (m_seq meta) (resp, script_id) (rcv_side s)) (ctl s), sh, Go)
    | EvReply meta _ => ss ← complete_request meta ss; Some (mkLoop ss (rcv_side s) (ctl s), sh, Brk)
    | EvGraceOver => Some (s, sh, Brk)
    | _ => None
    end
  else if idle && bool_decide (refill_at (ctl s) = None) then
    let '(legacy_all, sh) := legacy_check top sh in
    if legacy_all && (IDLE_REFILL_DELAY_START_EMPTY <=? consecutive_empty (rcv_side s)) && negb (client_closed (ctl s)) then
      match ev with
      | EvRead b =>
        if bool_decide (b = []) then None
        else Some (mkLoop (send_data_op now b ss) (set_consecutive_empty 0 (rcv_side s)) (ctl s), sh, Go)
      | EvClose => Some (s, sh, Brk)
      | _ => None
      end
    else select_arm now ev (mkLoop (send_empty_poll top ss) (rcv_side s) (ctl s)) sh
  else select_arm now ev s sh.

(** ** Start and end *)
Definition loop_start (now : Z) (w : SessionWriter) (pending_client_data : option bytes) : TLoop :=
  let ss := mkSend 0 0 [] 0 [] in
  let ss := match pending_client_data with
            | Some data => if bool_decide (data = []) then ss else send_data_op now data ss
            | None => ss
            end in
  let depth := Z.min INFLIGHT_OPTIMIST INFLIGHT_ACTIVE in
  let ss := if inflight_len ss <? depth then send_empty_poll now ss else ss in
  let refill := if inflight_len ss <? depth then Some ACTIVE_REFILL_DELAY_MS else None in
  mkLoop ss (mkRecv 0 [] w false 0 0 0) (mkControl depth false false false None refill).

Inductive TunnelEnd := RemoteEof (bytes_to_browser : Z) | NeedsClose | IoError.

(** What the function returns, and the shared state it leaves. *)
Definition loop_end (f : Flow) (s : TLoop) (sh : Shared) : TunnelEnd * Shared :=
  match f with
  | Io => (IoError, sh)
  | _ =>
    (if eof_seen (rcv_side s) then RemoteEof (total_download_bytes (rcv_side s)) else NeedsClose,
     if is_elevated (ctl s) then mkShared (wrap 64 (elevated_sessions sh - 1)) (legacy sh) else sh)
  end.

(** A run.  The other sessions share [TunnelMux] and may have changed it in any way since
    the turn before: each turn says how it finds it.  The run accumulates the permits this
    session has added to the counter and not given back. *)
Record Turn := mkTurn { t_top : Z; t_now : Z; t_shared : Shared; t_event : LoopEvent }.

Definition permits (sh sh' : Shared) : Z := elevated_sessions sh' - elevated_sessions sh.

Fixpoint loop_run (ts : list Turn) (s : TLoop) (held : Z) : option (TLoop * Z * Flow) :=
  match ts with
  | [] => Some (s, held, Go)
  | t :: ts =>
    '(s, sh, f) ← iterate (t_top t) (t_now t) (t_event t) s (t_shared t);
    let held := wrap 64 (held + permits (t_shared t) sh) in
    match f with Go => loop_run ts s held | _ => if bool_decide (ts = []) then Some (s, held, f) else None end
  end.
End Loop.

Definition extract_bytes (buf : bytes) (n : Z) : bytes * bytes :=
  if 65536 / 2 <=? n then (buf, []) else (take (Z.to_nat n) buf, []).

Definition decode_udp_packets {B : Base64} (resp : TunnelResponse) : res (list bytes) str :=
  match r_pkts resp with
  | None => Ok []
  | Some pkts =>
    foldr (fun p acc =>
             match b64_decode p with
             | Some b => let? l := acc in Ok (b :: l)
             | None => Err (lit "bad UDP packet base64: " ++ b64_error p)
             end) (Ok []) pkts
  end.
