(* ===== verification/TunnelStream.v ===== *)
(** * src/tunnel_client.rs: what one run of [tunnel_loop] guarantees

    Uploads: the data ops given to the mux carry exactly the bytes the browser sent, in
    order, numbered 0, 1, 2, ... by [wseq].  Downloads: whatever the order in which the
    requests complete, the browser gets the replies' bytes in the order of [seq].
    Bounds: the depth, the requests in flight and the elevation permits. *)

From stdpp Require Import prelude gmap list sorting numbers.
From S2P Require Import Prelude RustStr Reorder NodeProto NodeSession TunnelMux TunnelLoop.
#[local] Open Scope Z_scope.

(** ** Requests in flight *)
Definition seqs (s : SendSide) : list Z := m_seq <$> inflight s.

Lemma remove_meta_perm meta l l' : remove_meta meta l = Some l' -> l ≡ₚ meta :: l'.
Proof.
  revert l'. induction l as [|m l IH]; intros l' H; cbn in H; [done|].
  destruct (decide (m = meta)) as [->|]; [by simplify_eq|].
  destruct (remove_meta meta l) as [l0|]; [|done]. injection H as <-. rewrite (IH l0) by done. constructor.
Qed.

Definition uploads_in (l : list InflightMeta) : list InflightMeta :=
  filter (fun m => m_was_empty_poll m = false) l.

#[export] Instance uploads_in_perm : Proper ((≡ₚ) ==> (≡ₚ)) uploads_in.
Proof. intros l l' H. unfold uploads_in. by rewrite H. Qed.

(** ** The sending side *)
Record send_ok (input : bytes) (s : SendSide) : Prop := {
  so_len : next_send_seq s = len (sent s);
  so_seq : forall i o, sent s !! i = Some o -> s_seq o = Z.of_nat i;
  so_wseq : omap s_wseq (sent s) = seqZ 0 (next_data_write_seq s);
  so_wnonneg : 0 <= next_data_write_seq s;
  so_poll : Forall (fun o => s_wseq o = None -> s_data o = []) (sent s);
  so_data : concat (s_data <$> sent s) = input;
  so_uploads : inflight_uploads s = len (uploads_in (inflight s))
}.

Lemma send_append input s q w d n l u : send_ok input s ->
  q = next_send_seq s ->
  (w = None /\ d = [] /\ n = next_data_write_seq s
   \/ w = Some (next_data_write_seq s) /\ n = next_data_write_seq s + 1) ->
  u = len (uploads_in l) ->
  send_ok (input ++ d) (mkSend (q + 1) n l u (sent s ++ [mkSent q w d])).
Proof.
  intros [H1 H2 H3 H4 H5 H6 H7] -> Hw Hu. constructor; cbn.
  - unfold len in *. rewrite length_app. cbn. lia.
  - intros i o [?|(Hi & Ho)]%lookup_app_Some; [by apply H2|].
    destruct (i - length (sent s))%nat eqn:E; cbn in Ho; [|done].
    injection Ho as <-. cbn. unfold len in H1. lia.
  - rewrite omap_app, H3. destruct Hw as [(-> & _ & ->)|(-> & ->)]; cbn; [by rewrite app_nil_r|].
    rewrite seqZ_app by lia. done.
  - lia.
  - apply Forall_app. split; [done|]. constructor; [|done]. cbn. destruct Hw as [(-> & -> & _)|(-> & _)]; done.
  - rewrite fmap_app, concat_app, H6. cbn. by rewrite app_nil_r.
  - done.
Qed.

Lemma uploads_in_app l m : uploads_in (l ++ [m]) = uploads_in l ++ if m_was_empty_poll m then [] else [m].
Proof. unfold uploads_in. rewrite filter_app. f_equal. cbn. destruct (m_was_empty_poll m); by case_decide. Qed.

Lemma send_empty_poll_ok input now s : send_ok input s -> send_ok input (send_empty_poll now s).
Proof.
  intros H. unfold send_empty_poll. rewrite <- (app_nil_r input). apply send_append; auto.
  rewrite uploads_in_app, app_nil_r. apply H.
Qed.

Lemma send_data_op_ok input now b s : send_ok input s -> send_ok (input ++ b) (send_data_op now b s).
Proof.
  intros H. unfold send_data_op. apply send_append; auto.
  rewrite uploads_in_app. unfold len. rewrite length_app. cbn. pose proof (so_uploads _ _ H). unfold len in *. lia.
Qed.

Lemma complete_request_ok input meta s ss :
  complete_request meta s = Some ss -> send_ok input s -> send_ok input ss.
Proof.
  unfold complete_request. destruct (remove_meta meta (inflight s)) as [l|] eqn:E; cbn; [|done].
  intros [= <-] [H1 H2 H3 H4 H5 H6 H7]. constructor; try done. cbn.
  apply remove_meta_perm in E.
  assert (inflight_uploads s = len (uploads_in (meta :: l))) as Hu by (rewrite H7; unfold len; by rewrite E).
  rewrite Hu. unfold uploads_in, len. rewrite filter_cons.
  destruct (m_was_empty_poll meta); case_decide; try done. cbn. unfold saturating_sub. lia.
Qed.

Lemma complete_request_perm meta s ss : complete_request meta s = Some ss ->
  inflight s ≡ₚ meta :: inflight ss /\ next_send_seq ss = next_send_seq s /\ sent ss = sent s.
Proof.
  unfold complete_request. destruct (remove_meta meta (inflight s)) as [l|] eqn:E; cbn; [|done].
  intros [= <-]. split_and!; try done. by apply remove_meta_perm.
Qed.

(** ** The receiving side *)
Section Recv.
Context {B : Base64}.

(** The bytes a reply carries for the browser. *)
Definition payload (r : TunnelResponse) : bytes :=
  match r_d r with
  | None => []
  | Some d => if bool_decide (d = []) then [] else default [] (b64_decode d)
  end.

Definition reply_bytes (log : list Reply) : bytes := concat ((fun rp => payload (fst rp)) <$> log).
Definition upto (log : list Reply) (n : Z) : bytes := reply_bytes (take (Z.to_nat n) log).

Lemma reply_bytes_app l1 l2 : reply_bytes (l1 ++ l2) = reply_bytes l1 ++ reply_bytes l2.
Proof. unfold reply_bytes. by rewrite fmap_app, concat_app. Qed.

Lemma upto_prefix log n : upto log n `prefix_of` reply_bytes log.
Proof.
  exists (reply_bytes (drop (Z.to_nat n) log)). unfold upto. by rewrite <- reply_bytes_app, take_drop.
Qed.

Lemma upto_S log n rp : 0 <= n -> log !! Z.to_nat n = Some rp ->
  upto log (n + 1) = upto log n ++ payload (fst rp).
Proof.
  intros Hn Hl. unfold upto. replace (Z.to_nat (n + 1)) with (S (Z.to_nat n)) by lia.
  rewrite (take_S_r _ _ rp) by done. rewrite reply_bytes_app. f_equal. unfold reply_bytes. cbn. apply app_nil_r.
Qed.

Lemma write_tunnel_response_ok resp w given : wrote w given ->
  let '(w', o) := write_tunnel_response resp w in
  wrote w' (given ++ payload resp) /\ (o = Some Wrote -> payload resp <> [])
  /\ (o = Some NoData -> payload resp = []).
Proof.
  intros Hw. unfold write_tunnel_response, payload. destruct (r_d resp) as [d|]; [|rewrite app_nil_r; done].
  destruct (bool_decide (d = [])); [rewrite app_nil_r; done|].
  destruct (b64_decode d) as [b|]; cbn [default]; [|rewrite app_nil_r; done].
  case_bool_decide as Hb; [subst; rewrite app_nil_r; done|].
  pose proof (write_all_wrote b w given Hw) as H. destruct (write_all b w) as [w' []]; cbn in H; by split_and!.
Qed.

(** The replies of a run are those of [log], by their sequence numbers. *)
Record recv_ok (log : list Reply) (r : RecvSide) : Prop := {
  ro_nonneg : 0 <= next_write_seq r;
  ro_len : next_write_seq r <= len log;
  ro_sorted : bt_sorted (next_write_seq r + 1) (pending_writes r);
  ro_honest : forall k v, (k, v) ∈ pending_writes r -> log !! Z.to_nat k = Some v;
  ro_wrote : wrote (browser r) (upto log (next_write_seq r))
}.

(** The same before the buffer has been flushed. *)
Record recv_mid (log : list Reply) (m : BTreeMap Reply) (r : RecvSide) : Prop := {
  rm_nonneg : 0 <= next_write_seq r;
  rm_len : next_write_seq r <= len log;
  rm_sorted : bt_sorted (next_write_seq r) m;
  rm_honest : forall k v, (k, v) ∈ m -> log !! Z.to_nat k = Some v;
  rm_wrote : wrote (browser r) (upto log (next_write_seq r))
}.

Definition out_ok (log : list Reply) (r : RecvSide) : Prop := w_out (browser r) `prefix_of` reply_bytes log.

Lemma wrote_out_ok log n r : wrote (browser r) (upto log n) -> out_ok log r.
Proof. intros [Hp _]. unfold out_ok. etrans; [exact Hp|]. apply upto_prefix. Qed.

Lemma recv_ok_out log r : recv_ok log r -> out_ok log r.
Proof. intros H. eapply wrote_out_ok, (ro_wrote _ _ H). Qed.

(** One delivery. *)
Lemma deliver_ok log rp r : 0 <= next_write_seq r -> log !! Z.to_nat (next_write_seq r) = Some rp ->
  wrote (browser r) (upto log (next_write_seq r)) ->
  let '(r', f) := deliver (fst rp) r in
  pending_writes r' = pending_writes r /\ out_ok log r'
  /\ next_write_seq r' = next_write_seq r + (match f with Go => 1 | _ => 0 end)
  /\ (f = Go -> wrote (browser r') (upto log (next_write_seq r + 1))).
Proof.
  intros Hn Hl Hw. pose proof (write_tunnel_response_ok (fst rp) _ _ Hw) as H. unfold deliver.
  rewrite <- (upto_S log _ rp) in H by done.
  destruct (write_tunnel_response (fst rp) (browser r)) as [w o]. destruct H as (Hw' & _).
  assert (w_out w `prefix_of` reply_bytes log) as Hout.
  { etrans; [exact (proj1 Hw')|]. apply upto_prefix. }
  destruct o as [[]|]; cbn; split_and!; try done; lia.
Qed.

Lemma deliver_ignoring_ok log rp r : 0 <= next_write_seq r -> log !! Z.to_nat (next_write_seq r) = Some rp ->
  wrote (browser r) (upto log (next_write_seq r)) ->
  wrote (browser (deliver_ignoring (fst rp) r)) (upto log (next_write_seq r + 1)).
Proof.
  intros Hn Hl Hw. pose proof (write_tunnel_response_ok (fst rp) _ _ Hw) as H.
  rewrite <- (upto_S log _ rp) in H by done. unfold deliver_ignoring. cbn.
  destruct (write_tunnel_response (fst rp) (browser r)) as [w o]. exact (proj1 H).
Qed.

(** Entries of the buffer that are next in line move to the delivered ones. *)
Definition settled (r : RecvSide) (m : BTreeMap Reply) : list Z := seqZ 0 (next_write_seq r) ++ keys m.

Lemma settled_next (n : Z) (m : BTreeMap Reply) v : 0 <= n ->
  seqZ 0 n ++ keys ((n, v) :: m) = seqZ 0 (n + 1) ++ keys m.
Proof. intros. rewrite seqZ_app by lia. by rewrite <- app_assoc. Qed.

Lemma recv_mid_next log n v m r : recv_mid log ((n, v) :: m) r -> n = next_write_seq r ->
  forall r', next_write_seq r' = n + 1 -> wrote (browser r') (upto log (n + 1)) -> recv_mid log m r'.
Proof.
  intros [H1 H2 H3 H4 H5] -> r' Hn Hw. pose proof (H4 _ _ (list_elem_of_here _ _)) as Hv%lookup_lt_Some.
  destruct H3 as [_ H3]. constructor; rewrite ?Hn; try done; [lia|unfold len; lia|].
  intros k w Hk. apply H4, elem_of_cons. by right.
Qed.

Lemma recv_mid_stop log m r : recv_mid log m r ->
  (match m with [] => True | (k, _) :: _ => k <> next_write_seq r end) -> recv_ok log (set_pending_writes m r).
Proof.
  intros [H1 H2 H3 H4 H5] Hk. constructor; try done. cbn.
  destruct m as [|[k v] m]; [done|]. destruct H3. cbn. split; [lia|done].
Qed.

Lemma flush_buffered_ok log m r : recv_mid log m r ->
  let '(r', f) := flush_buffered m r in
  out_ok log r' /\ (f = Go -> recv_ok log r' /\ settled r' (pending_writes r') = settled r m).
Proof.
  revert r. induction m as [|[k [resp sid]] m IH]; intros r Hm; cbn [flush_buffered].
  { pose proof (recv_mid_stop log [] r Hm I) as H. split; [by apply recv_ok_out|done]. }
  destruct (Z.eqb_spec k (next_write_seq r)) as [->|Hne]; cbn [negb].
  - pose proof (rm_honest _ _ _ Hm _ _ (list_elem_of_here _ _)) as Hv. pose proof (rm_nonneg _ _ _ Hm) as Hn.
    pose proof (deliver_ok log (resp, sid) (set_pending_writes m r) Hn Hv (rm_wrote _ _ _ Hm)) as H.
    cbn [fst] in H. destruct (deliver resp (set_pending_writes m r)) as [r1 f1].
    destruct H as (_ & Ho & En & Hw). cbn in En, Hw. destruct f1; [|split; done..].
    pose proof (recv_mid_next log _ _ m r Hm eq_refl r1 En (Hw eq_refl)) as Hm1.
    specialize (IH r1 Hm1). destruct (flush_buffered m r1) as [r2 f2]. destruct IH as [? IH].
    split; [done|]. intros Hf. destruct (IH Hf) as [? ->]. split; [done|].
    unfold settled. rewrite En. symmetry. by apply settled_next.
  - pose proof (recv_mid_stop log _ r Hm Hne) as H. split; [by apply recv_ok_out|done].
Qed.

Lemma flush_ignoring_ok log m r : recv_mid log m r ->
  recv_ok log (flush_ignoring m r)
  /\ settled (flush_ignoring m r) (pending_writes (flush_ignoring m r)) = settled r m.
Proof.
  revert r. induction m as [|[k [resp sid]] m IH]; intros r Hm; cbn [flush_ignoring].
  { split; [by apply (recv_mid_stop log [])|done]. }
  destruct (Z.eqb_spec k (next_write_seq r)) as [->|Hne]; cbn [negb].
  - pose proof (rm_honest _ _ _ Hm _ _ (list_elem_of_here _ _)) as Hv. pose proof (rm_nonneg _ _ _ Hm) as Hn.
    pose proof (deliver_ignoring_ok log (resp, sid) (set_pending_writes m r) Hn Hv (rm_wrote _ _ _ Hm)) as Hw.
    pose proof (recv_mid_next log _ _ m r Hm eq_refl (deliver_ignoring resp (set_pending_writes m r)) eq_refl Hw) as Hm1.
    destruct (IH _ Hm1) as [? ->]. split; [done|]. unfold settled. cbn [deliver_ignoring next_write_seq set_pending_writes].
    symmetry. by apply settled_next.
  - split; [by apply recv_mid_stop|done].
Qed.

Lemma keys_insert_perm (q : Z) (v : Reply) m : q ∉ keys m -> keys (bt_insert q v m) ≡ₚ q :: keys m.
Proof.
  induction m as [|[k w] m IH]; intros Hq; cbn; [done|].
  destruct (Z.ltb_spec q k); [done|]. destruct (Z.eqb_spec q k) as [->|]; cbn.
  { exfalso. apply Hq, list_elem_of_here. }
  change (fst <$> bt_insert q v m) with (keys (bt_insert q v m)). rewrite IH; [constructor|].
  intros ?. apply Hq. cbn. apply elem_of_cons. by right.
Qed.

(** A reply out of turn is held back. *)
Lemma hold_back_ok log q rp r : recv_ok log r -> log !! Z.to_nat q = Some rp ->
  next_write_seq r < q -> q ∉ keys (pending_writes r) ->
  let r' := set_pending_writes (bt_insert q rp (pending_writes r)) r in
  recv_ok log r' /\ settled r' (pending_writes r') ≡ₚ q :: settled r (pending_writes r).
Proof.
  intros [H1 H2 H3 H4 H5] Hl Hq Hk. split.
  - constructor; try done; cbn; [apply bt_insert_sorted; [lia|done]|].
    intros k v [[-> ->]|?]%elem_of_bt_insert; [done|by apply H4].
  - unfold settled. cbn [next_write_seq set_pending_writes pending_writes]. rewrite keys_insert_perm by done. by rewrite Permutation_middle.
Qed.

Lemma recv_ok_mid log rp r : recv_ok log r -> log !! Z.to_nat (next_write_seq r) = Some rp ->
  forall r', next_write_seq r' = next_write_seq r + 1 -> wrote (browser r') (upto log (next_write_seq r + 1)) ->
  recv_mid log (pending_writes r) r'.
Proof.
  intros [H1 H2 H3 H4 H5] Hl r' Hn Hw. pose proof (lookup_lt_Some _ _ _ Hl).
  constructor; rewrite ?Hn; try done; [lia|unfold len; lia].
Qed.

Lemma take_reply_ok log q rp r : recv_ok log r -> log !! Z.to_nat q = Some rp ->
  next_write_seq r <= q -> q ∉ keys (pending_writes r) ->
  let '(r', f) := take_reply q rp r in
  out_ok log r'
  /\ (f = Go -> recv_ok log r' /\ settled r' (pending_writes r') ≡ₚ q :: settled r (pending_writes r)).
Proof.
  intros Hr Hl Hq Hk. unfold take_reply. destruct (Z.eqb_spec q (next_write_seq r)) as [->|Hne].
  - pose proof (deliver_ok log rp r (ro_nonneg _ _ Hr) Hl (ro_wrote _ _ Hr)) as H.
    destruct (deliver (fst rp) r) as [r1 f1]. destruct H as (Ep & Ho & En & Hw). destruct f1; [|done..].
    rewrite Ep. pose proof (recv_ok_mid log rp r Hr Hl r1 En (Hw eq_refl)) as Hm.
    pose proof (flush_buffered_ok log _ r1 Hm) as H. destruct (flush_buffered (pending_writes r) r1) as [r2 f2].
    destruct H as [? H]. split; [done|]. intros Hf. destruct (H Hf) as [? ->]. split; [done|].
    unfold settled. rewrite En, <- (settled_next _ _ rp) by apply Hr. by rewrite Permutation_middle.
  - destruct (hold_back_ok log q rp r) as [H1 H2]; try done; [lia|]. split; [by apply recv_ok_out|done].
Qed.

Lemma take_reply_grace_ok log q rp r : recv_ok log r -> log !! Z.to_nat q = Some rp ->
  next_write_seq r <= q -> q ∉ keys (pending_writes r) ->
  let r' := take_reply_grace q rp r in
  recv_ok log r' /\ settled r' (pending_writes r') ≡ₚ q :: settled r (pending_writes r).
Proof.
  intros Hr Hl Hq Hk. unfold take_reply_grace. destruct (Z.eqb_spec q (next_write_seq r)) as [->|Hne].
  - pose proof (deliver_ignoring_ok log rp r (ro_nonneg _ _ Hr) Hl (ro_wrote _ _ Hr)) as Hw.
    pose proof (recv_ok_mid log rp r Hr Hl (deliver_ignoring (fst rp) r) eq_refl Hw) as Hm.
    destruct (flush_ignoring_ok log _ _ Hm) as [H1 H2]. cbn [deliver_ignoring pending_writes]. split; [done|].
    rewrite H2. unfold settled. cbn [deliver_ignoring next_write_seq].
    rewrite <- (settled_next _ _ rp) by apply Hr. by rewrite Permutation_middle.
  - destruct (hold_back_ok log q rp r) as [H1 H2]; try done; lia.
Qed.

(** ** The loop *)
Definition depth_ok (c : Control) : Prop :=
  1 <= max_inflight c <= INFLIGHT_ACTIVE /\ buffered_upload c = None.

Record loop_ok (log : list Reply) (input : bytes) (s : TLoop) : Prop := {
  lo_send : send_ok input (snd_side s);
  lo_recv : recv_ok log (rcv_side s);
  lo_track : seqs (snd_side s) ++ settled (rcv_side s) (pending_writes (rcv_side s))
             ≡ₚ seqZ 0 (next_send_seq (snd_side s));
  lo_inflight : inflight_len (snd_side s) <= INFLIGHT_ACTIVE + 4;
  lo_depth : depth_ok (ctl s)
}.

(** What still holds when the loop ends, whatever the reason. *)
Record loop_left (log : list Reply) (input : bytes) (s : TLoop) : Prop := {
  ll_send : send_ok input (snd_side s);
  ll_out : out_ok log (rcv_side s);
  ll_inflight : inflight_len (snd_side s) <= INFLIGHT_ACTIVE + 4;
  ll_depth : depth_ok (ctl s)
}.

Lemma loop_ok_left log input s : loop_ok log input s -> loop_left log input s.
Proof. intros [H1 H2 H3 H4 H5]. constructor; try done. by apply recv_ok_out. Qed.

(** A request in flight has neither been written nor is it held back. *)
Lemma inflight_fresh log input s meta ss : loop_ok log input s -> complete_request meta (snd_side s) = Some ss ->
  next_write_seq (rcv_side s) <= m_seq meta /\ m_seq meta ∉ keys (pending_writes (rcv_side s))
  /\ m_seq meta :: seqs ss ++ settled (rcv_side s) (pending_writes (rcv_side s)) ≡ₚ seqZ 0 (next_send_seq ss)
  /\ inflight_len ss < inflight_len (snd_side s).
Proof.
  intros Hok (Hp & Hn & _)%complete_request_perm. pose proof (lo_track _ _ _ Hok) as Ht.
  unfold seqs in Ht. rewrite Hp in Ht. cbn in Ht. rewrite Hn.
  assert (NoDup (m_seq meta :: (m_seq <$> inflight ss) ++ settled (rcv_side s) (pending_writes (rcv_side s)))) as Hnd.
  { rewrite Ht. apply NoDup_seqZ. }
  apply NoDup_cons in Hnd as [Hnot _]. rewrite elem_of_app in Hnot. unfold settled in Hnot.
  rewrite elem_of_app, elem_of_seqZ in Hnot.
  assert (0 <= m_seq meta) as H0.
  { assert (m_seq meta ∈ seqZ 0 (next_send_seq (snd_side s))) as ?%elem_of_seqZ by (rewrite <- Ht; apply list_elem_of_here). lia. }
  split_and!; [|tauto|done|].
  - destruct (Z.le_gt_cases (next_write_seq (rcv_side s)) (m_seq meta)); [done|]. exfalso. apply Hnot. right. left. lia.
  - unfold inflight_len, len. rewrite Hp. cbn. lia.
Qed.

(** Sending one more request. *)
Lemma loop_ok_send log input input' s ss m : loop_ok log input s -> inflight_len (snd_side s) < INFLIGHT_ACTIVE + 4 ->
  send_ok input' ss -> inflight ss = inflight (snd_side s) ++ [m] ->
  m_seq m = next_send_seq (snd_side s) -> next_send_seq ss = next_send_seq (snd_side s) + 1 ->
  loop_ok log input' (mkLoop ss (rcv_side s) (ctl s)).
Proof.
  intros [H1 H2 H3 H4 H5] Hlt Hs Hi Hm Hn. constructor; try done; cbn [snd_side rcv_side ctl].
  - unfold seqs. rewrite Hi, fmap_app, Hn. change (m_seq <$> [m]) with [m_seq m]. rewrite Hm.
    assert (0 <= next_send_seq (snd_side s)) by (rewrite (so_len _ _ H1); unfold len; lia).
    rewrite seqZ_app by lia. rewrite <- H3, <- app_assoc, (Permutation_app_comm [_]), app_assoc. done.
  - revert Hlt. unfold inflight_len, len. rewrite Hi, length_app. cbn. lia.
Qed.

Lemma loop_ok_poll log input now s : loop_ok log input s -> inflight_len (snd_side s) < INFLIGHT_ACTIVE + 4 ->
  loop_ok log input (mkLoop (send_empty_poll now (snd_side s)) (rcv_side s) (ctl s)).
Proof. intros H Hl. eapply (loop_ok_send _ input); try done. apply send_empty_poll_ok, H. Qed.

Lemma loop_ok_data log input now b s : loop_ok log input s -> inflight_len (snd_side s) < INFLIGHT_ACTIVE + 4 ->
  loop_ok log (input ++ b) (mkLoop (send_data_op now b (snd_side s)) (rcv_side s) (ctl s)).
Proof. intros H Hl. eapply (loop_ok_send _ input); try done. apply send_data_op_ok, H. Qed.

Lemma loop_ok_ctl log input ss r c c' : loop_ok log input (mkLoop ss r c) -> depth_ok c' ->
  loop_ok log input (mkLoop ss r c').
Proof. intros [H1 H2 H3 H4 H5] Hc. by constructor. Qed.

Lemma loop_ok_empty log input ss r c n : loop_ok log input (mkLoop ss r c) ->
  loop_ok log input (mkLoop ss (set_consecutive_empty n r) c).
Proof. intros [H1 [] H3 H4 H5]. by constructor. Qed.

Lemma loop_left_complete log input meta s ss c : loop_ok log input s ->
  complete_request meta (snd_side s) = Some ss -> depth_ok c ->
  loop_left log input (mkLoop ss (rcv_side s) c).
Proof.
  intros Hok Hc Hd. destruct (inflight_fresh _ _ _ _ _ Hok Hc) as (_ & _ & _ & Hlt).
  constructor; cbn; try done; [by eapply complete_request_ok, Hok|by apply recv_ok_out, Hok|].
  pose proof (lo_inflight _ _ _ Hok). lia.
Qed.

(** A reply taken in. *)
Lemma loop_ok_reply log input meta s ss r c : loop_ok log input s ->
  complete_request meta (snd_side s) = Some ss -> depth_ok c -> recv_ok log r ->
  settled r (pending_writes r) ≡ₚ m_seq meta :: settled (rcv_side s) (pending_writes (rcv_side s)) ->
  loop_ok log input (mkLoop ss r c).
Proof.
  intros Hok Hc Hd Hr Hs. destruct (inflight_fresh _ _ _ _ _ Hok Hc) as (_ & _ & Ht & Hlt).
  constructor; cbn; try done; [by eapply complete_request_ok, Hok| |].
  - rewrite Hs, <- Permutation_middle. done.
  - pose proof (lo_inflight _ _ _ Hok). lia.
Qed.

(** ** Depth and permits *)
Context (num_scripts max_elevated : Z).

(** What a turn does to the shared counter and to the session's own mark. *)
Definition permit_step (c c' : Control) (sh sh' : Shared) : Prop :=
  is_elevated c' = is_elevated c /\ elevated_sessions sh' = elevated_sessions sh
  \/ is_elevated c = false /\ is_elevated c' = true /\ elevated_sessions sh < max_elevated
     /\ elevated_sessions sh' = elevated_sessions sh + 1
  \/ is_elevated c = true /\ is_elevated c' = false
     /\ elevated_sessions sh' = wrap 64 (elevated_sessions sh - 1).

Lemma adapt_ok r c sh : depth_ok c ->
  depth_ok (fst (adapt max_elevated r c sh)) /\ permit_step c (fst (adapt max_elevated r c sh)) sh (snd (adapt max_elevated r c sh)).
Proof.
  intros [Hd Hb]. unfold adapt, permit_step, depth_ok, INFLIGHT_IDLE, INFLIGHT_OPTIMIST, INFLIGHT_ACTIVE in *.
  destruct ((2 <=? consecutive_empty r) && _);
    [|destruct ((1 <=? consecutive_data r) && _); [|destruct (_ && (32 * 1024 <=? _)); [|cbn [negb fst snd max_inflight buffered_upload is_elevated elevated_sessions]; split; [split; [lia|done]|by left]]]].
  - cbn [negb fst snd max_inflight buffered_upload is_elevated elevated_sessions]. destruct (is_elevated c); cbn [fst snd max_inflight buffered_upload is_elevated elevated_sessions]; (split; [split; [lia|done]|]); [by do 2 right|by left].
  - cbn [negb fst snd max_inflight buffered_upload is_elevated elevated_sessions]. split; [split; [lia|done]|by left].
  - destruct (is_elevated c) eqn:Ee; cbn [negb fst snd max_inflight buffered_upload is_elevated elevated_sessions]; [split; [split; [lia|done]|by left]|].
    destruct (Z.leb_spec max_elevated (elevated_sessions sh)); cbn [negb fst snd max_inflight buffered_upload is_elevated elevated_sessions]; [split; [split; [lia|done]|left; by rewrite Ee]|].
    split; [split; [lia|done]|]. right. left. split_and!; try done.
Qed.

Lemma legacy_check_elevated now sh : elevated_sessions (snd (legacy_check num_scripts now sh)) = elevated_sessions sh.
Proof. unfold legacy_check. by destruct (all_servers_legacy num_scripts now (legacy sh)). Qed.

Lemma depth_ok_refill t c : depth_ok c -> depth_ok (set_refill t c).
Proof. done. Qed.
Lemma depth_ok_note b c : depth_ok c -> depth_ok (note_seq b c).
Proof. intros [? ?]. split; [|done]. cbn. destruct b; unfold INFLIGHT_ACTIVE in *; lia. Qed.

(** ** One turn *)
Definition read_of (ev : LoopEvent) : bytes := match ev with EvRead b => b | _ => [] end.

Definition answered (log : list Reply) (ev : LoopEvent) : Prop :=
  match ev with EvReply meta (ROk resp script_id) => log !! Z.to_nat (m_seq meta) = Some (resp, script_id) | _ => True end.

Definition turn_ok (log : list Reply) (input : bytes) (s : TLoop) (sh : Shared) (out : TLoop * Shared * Flow) : Prop :=
  let '(s', sh', f) := out in
  loop_left log input s' /\ (f = Go -> loop_ok log input s') /\ permit_step (ctl s) (ctl s') sh sh'.

Lemma turn_go log input s s' sh sh' f : loop_ok log input s' -> is_elevated (ctl s') = is_elevated (ctl s) ->
  elevated_sessions sh' = elevated_sessions sh -> turn_ok log input s sh (s', sh', f).
Proof. intros H1 H2 H3. split_and!; [by apply loop_ok_left|done|by left]. Qed.

Lemma depth_lt log input s : loop_ok log input s -> inflight_len (snd_side s) < max_inflight (ctl s) + 4 ->
  inflight_len (snd_side s) < INFLIGHT_ACTIVE + 4.
Proof. intros H. destruct (lo_depth _ _ _ H). lia. Qed.

Lemma on_refill_ok log input now s sh : loop_ok log input s ->
  let '(s', sh') := on_refill num_scripts now s sh in turn_ok log input s sh (s', sh', Go).
Proof.
  intros H. destruct s as [ss r c]. destruct (lo_depth _ _ _ H) as [Hd Hb]. cbn in Hd, Hb.
  unfold on_refill. cbn [snd_side rcv_side ctl].
  assert (loop_ok log input (mkLoop ss r (set_refill None c))) as H' by (by eapply loop_ok_ctl).
  destruct (negb (eof_seen r) && _) eqn:Eg; [|by apply turn_go]. apply andb_true_iff in Eg as [_ Hlt%Z.ltb_lt].
  pose proof (legacy_check_elevated now sh) as He. destruct (legacy_check num_scripts now sh) as [la sh']. cbn in He.
  destruct (should_suppress_empty_refill _ _ _ _ _); [by apply turn_go|].
  change (buffered_upload (set_refill None c)) with (buffered_upload c). rewrite Hb.
  assert (loop_ok log input (mkLoop (send_empty_poll now ss) r (set_refill None c))) as Hp.
  { apply (loop_ok_poll log input now _ H'). apply (depth_lt _ _ _ H'). cbn in Hlt |- *. lia. }
  destruct (0 <? inflight_uploads ss).
  all: destruct (_ && negb (is_idle_depth _)); apply turn_go; try done; by eapply loop_ok_ctl.
Qed.

Lemma on_read_ok log input now b s sh f : loop_ok log input s -> can_read s = true ->
  turn_ok log (input ++ b) s sh (on_read now b s, sh, f).
Proof.
  intros H Hc. unfold can_read in Hc. apply andb_true_iff in Hc as [_ Hlt%Z.ltb_lt].
  assert (inflight_len (snd_side s) < max_inflight (ctl s) + 4) as Hlt4 by (destruct (tunnel_node_supports_seq (ctl s)); lia).
  unfold on_read. rewrite (proj2 (Z.ltb_lt _ _) Hlt4). apply turn_go; try done.
  eapply loop_ok_ctl, (lo_depth _ _ _ H). apply loop_ok_empty. apply loop_ok_data; [done|]. by apply (depth_lt _ _ _ H).
Qed.

(** The pacing decision after a reply changes the timer at most. *)
Lemma reply_refill_ok now c sh (b bu cc : bool) (d ce : Z) t : depth_ok c ->
  let '(c', sh') := if b then let '(la, sh) := legacy_check num_scripts now sh in
                              if should_suppress_empty_refill bu cc d ce la then (c, sh) else (set_refill t c, sh)
                    else (c, sh) in
  depth_ok c' /\ is_elevated c' = is_elevated c /\ elevated_sessions sh' = elevated_sessions sh.
Proof.
  intros Hd. destruct b; [|done]. pose proof (legacy_check_elevated now sh) as He.
  destruct (legacy_check num_scripts now sh) as [la sh']. by destruct (should_suppress_empty_refill _ _ _ _ _).
Qed.

Lemma permit_step_then c c1 c2 sh sh1 sh2 : permit_step c c1 sh sh1 -> is_elevated c2 = is_elevated c1 ->
  elevated_sessions sh2 = elevated_sessions sh1 -> permit_step c c2 sh sh2.
Proof. unfold permit_step. by intros H -> ->. Qed.

Lemma on_reply_ok_ok log input now meta resp script_id ss s sh : loop_ok log input s ->
  complete_request meta (snd_side s) = Some ss -> log !! Z.to_nat (m_seq meta) = Some (resp, script_id) ->
  turn_ok log input s sh (on_reply_ok num_scripts max_elevated now meta resp script_id ss s sh).
Proof.
  intros H Hc Hl. unfold on_reply_ok.
  set (has_seq := match r_seq resp with Some _ => true | None => false end).
  set (sh1 := if negb has_seq || _ then _ else sh).
  assert (elevated_sessions sh1 = elevated_sessions sh) as He by (unfold sh1; by case_match).
  pose proof (depth_ok_note has_seq _ (lo_depth _ _ _ H)) as Hd. set (c := note_seq has_seq (ctl s)) in *.
  destruct (r_e resp); [split_and!; [by eapply loop_left_complete|done|by left]|].
  destruct (inflight_fresh _ _ _ _ _ H Hc) as (Hq & Hk & _ & Hlt).
  pose proof (take_reply_ok log (m_seq meta) (resp, script_id) _ (lo_recv _ _ _ H) Hl Hq Hk) as Ht.
  destruct (take_reply (m_seq meta) (resp, script_id) (rcv_side s)) as [r f]. destruct Ht as [Ho Ht].
  assert (loop_left log input (mkLoop ss r c)) as Hleft.
  { pose proof (loop_left_complete _ _ _ _ _ _ H Hc Hd) as []. by constructor. }
  destruct f; [|split_and!; [done|done|by left]..]. destruct (Ht eq_refl) as [Hr Hs].
  rewrite (proj2 Hd).
  assert (depth_ok (fst (if has_seq then adapt max_elevated r c sh1 else (c, sh1)))
    /\ permit_step c (fst (if has_seq then adapt max_elevated r c sh1 else (c, sh1)))
         sh (snd (if has_seq then adapt max_elevated r c sh1 else (c, sh1)))) as [Hd2 Hp2].
  { destruct has_seq; [|split; [done|by left]]. destruct (adapt_ok r c sh1 Hd) as [? Hp]. split; [done|].
    revert Hp. unfold permit_step. by rewrite He. }
  destruct (if has_seq then _ else _) as [c2 sh2]. cbn [fst snd] in Hd2, Hp2.
  pose proof (fun b bu cc d ce t => reply_refill_ok now c2 sh2 b bu cc d ce t Hd2) as Hrefill.
  match goal with |- context [if ?b then let '(_, _) := legacy_check _ _ _ in
      if should_suppress_empty_refill ?bu ?cc ?d ?ce _ then _ else (set_refill ?t _, _) else _] =>
    specialize (Hrefill b bu cc d ce t) end.
  destruct (if _ && _ && _ && _ then _ else _) as [c3 sh3]. destruct Hrefill as (Hd3 & E1 & E2).
  assert (loop_ok log input (mkLoop ss r c3)) by (by eapply loop_ok_reply).
  split_and!; [by apply loop_ok_left|done|]. by eapply (permit_step_then _ c2).
Qed.

Lemma select_arm_ok log input now ev s sh out : loop_ok log input s -> answered log ev ->
  select_arm num_scripts max_elevated now ev s sh = Some out -> turn_ok log (input ++ read_of ev) s sh out.
Proof.
  intros H Ha Hs. destruct ev as [|meta o|b| |]; cbn [select_arm read_of] in *; rewrite ?app_nil_r.
  - destruct (refill_at (ctl s)); [|done]. pose proof (on_refill_ok log input now s sh H) as Hr.
    destruct (on_refill num_scripts now s sh). by injection Hs as <-.
  - destruct (complete_request meta (snd_side s)) as [ss|] eqn:E; cbn in Hs; [|done].
    destruct o as [resp sid| | |]; injection Hs as <-; [by apply on_reply_ok_ok|..].
    all: split_and!; [by eapply loop_left_complete, H|done|by left].
  - destruct (can_read s) eqn:E; [|done]. destruct (negb _); cbn in Hs; [|done]. injection Hs as <-. by apply on_read_ok.
  - destruct (can_read s); [|done]. injection Hs as <-. apply turn_go; try done. destruct s. eapply loop_ok_ctl; [done|].
    apply (lo_depth _ _ _ H).
  - done.
Qed.

Lemma iterate_ok log input top now ev s sh out : loop_ok log input s -> answered log ev ->
  iterate num_scripts max_elevated top now ev s sh = Some out -> turn_ok log (input ++ read_of ev) s sh out.
Proof.
  intros H Ha Hi. unfold iterate in Hi. destruct (_ && (eof_seen _ || _)); [done|].
  destruct (eof_seen (rcv_side s)).
  { destruct ev as [|meta o|b| |]; try done; cbn [read_of answered] in *; rewrite app_nil_r.
    - destruct o as [resp sid| | |]; destruct (complete_request meta (snd_side s)) as [ss|] eqn:E; cbn in Hi; try done;
        injection Hi as <-; [|split_and!; [by eapply loop_left_complete, H|done|by left]..].
      destruct (inflight_fresh _ _ _ _ _ H E) as (Hq & Hk & _).
      destruct (take_reply_grace_ok log (m_seq meta) (resp, sid) _ (lo_recv _ _ _ H) Ha Hq Hk).
      apply turn_go; try done. eapply loop_ok_reply; try done. apply (lo_depth _ _ _ H).
    - injection Hi as <-. by apply turn_go. }
  destruct (bool_decide (inflight (snd_side s) = []) && _) eqn:Eg; [|by eapply select_arm_ok].
  apply andb_true_iff in Eg as [Hidle%bool_decide_eq_true _].
  assert (inflight_len (snd_side s) < INFLIGHT_ACTIVE + 4) as Hlt.
  { unfold inflight_len, len. rewrite Hidle. done. }
  pose proof (legacy_check_elevated top sh) as He. destruct (legacy_check num_scripts top sh) as [la sh']. cbn in He.
  destruct (la && _ && _).
  - destruct ev as [|meta o|b| |]; try done; cbn [read_of].
    + case_bool_decide; [done|]. injection Hi as <-. apply turn_go; try done. by apply loop_ok_empty, loop_ok_data.
    + injection Hi as <-. rewrite app_nil_r. by apply turn_go.
  - pose proof (loop_ok_poll log input top s H Hlt) as Hp.
    pose proof (select_arm_ok log input now ev _ sh' out Hp Ha Hi) as Ht. destruct out as [[s' sh2] f].
    destruct Ht as (? & ? & Hst). split_and!; try done. revert Hst. unfold permit_step. cbn. by rewrite He.
Qed.

(** ** Runs *)
Definition b2z (b : bool) : Z := if b then 1 else 0.
Definition reads_of (ts : list Turn) : bytes := concat ((fun t => read_of (t_event t)) <$> ts).

Lemma permit_held c c' sh sh' : permit_step c c' sh sh' ->
  wrap 64 (b2z (is_elevated c) + permits sh sh') = b2z (is_elevated c').
Proof.
  unfold permit_step, permits, wrap. intros [[-> ->]|[(-> & -> & _ & ->)|(-> & -> & ->)]].
  - rewrite Z.sub_diag, Z.add_0_r. by destruct (is_elevated c).
  - replace (_ - _) with 1 by lia. done.
  - cbn [b2z]. replace (1 + _) with ((elevated_sessions sh - 1) mod 2 ^ 64 - (elevated_sessions sh - 1)) by lia.
    rewrite Zminus_mod_idemp_l, Z.sub_diag. done.
Qed.

Lemma loop_run_ok log ts input s s' held f : loop_ok log input s ->
  Forall (fun t => answered log (t_event t)) ts ->
  loop_run num_scripts max_elevated ts s (b2z (is_elevated (ctl s))) = Some (s', held, f) ->
  loop_left log (input ++ reads_of ts) s' /\ (f = Go -> loop_ok log (input ++ reads_of ts) s')
  /\ held = b2z (is_elevated (ctl s')).
Proof.
  revert input s. induction ts as [|t ts IH]; intros input s H Hl Hr; cbn [loop_run] in Hr.
  { injection Hr as <- <- <-. unfold reads_of. cbn. rewrite app_nil_r. split_and!; try done. by apply loop_ok_left. }
  apply Forall_cons in Hl as [Hl1 Hl2].
  destruct (iterate _ _ _ _ _ _ _) as [[[s1 sh1] f1]|] eqn:E; cbn in Hr; [|done].
  pose proof (iterate_ok log input _ _ _ _ _ _ H Hl1 E) as (Hleft & Hgo & Hp). rewrite (permit_held _ _ _ _ Hp) in Hr.
  change (reads_of (t :: ts)) with (read_of (t_event t) ++ reads_of ts). rewrite app_assoc.
  destruct f1.
  - by apply (IH _ s1 (Hgo eq_refl)).
  - case_bool_decide as Hnil; [|done]. subst ts. injection Hr as <- <- <-. unfold reads_of. cbn. by rewrite app_nil_r.
  - case_bool_decide as Hnil; [|done]. subst ts. injection Hr as <- <- <-. unfold reads_of. cbn. by rewrite app_nil_r.
Qed.

Definition initial_bytes (p : option bytes) : bytes := default [] p.

Lemma loop_start_ok log now room p : loop_ok log (initial_bytes p) (loop_start now (mkWriter [] room) p).
Proof.
  set (c := mkControl (Z.min INFLIGHT_OPTIMIST INFLIGHT_ACTIVE) false false false None).
  assert (forall t, loop_ok log [] (mkLoop (mkSend 0 0 [] 0 []) (mkRecv 0 [] (mkWriter [] room) false 0 0 0) (c t))) as H0.
  { intros t. repeat constructor; cbn; try done; unfold len; try lia. by intros k v ?%elem_of_nil. }
  assert (forall ss t t', loop_ok log (initial_bytes p) (mkLoop ss (mkRecv 0 [] (mkWriter [] room) false 0 0 0) (c t)) ->
    inflight_len ss < 2 -> loop_ok log (initial_bytes p)
      (mkLoop (send_empty_poll now ss) (mkRecv 0 [] (mkWriter [] room) false 0 0 0) (c t'))) as Hpoll.
  { intros ss t t' H Hlt. apply (loop_ok_ctl _ _ _ _ (c t)); [|repeat constructor; done].
    apply (loop_ok_poll _ _ _ _ H). cbn. unfold INFLIGHT_ACTIVE. lia. }
  unfold loop_start. destruct p as [b|]; [|by eapply (Hpoll _ None), eq_refl].
  case_bool_decide as Hb; [subst; by eapply (Hpoll _ None), eq_refl|].
  eapply (Hpoll _ None), eq_refl. apply (loop_ok_data _ [] now b _ (H0 None)). done.
Qed.

(** ** The sending side alone, whatever the replies *)
Definition send_inv (input : bytes) (s : TLoop) : Prop :=
  send_ok input (snd_side s) /\ buffered_upload (ctl s) = None.

Lemma adapt_buffered r c sh : buffered_upload (fst (adapt max_elevated r c sh)) = buffered_upload c.
Proof. unfold adapt. repeat case_match; done. Qed.

Lemma on_refill_send input now s sh : send_inv input s -> send_inv input (fst (on_refill num_scripts now s sh)).
Proof.
  intros [H Hb]. destruct s as [ss r c]. unfold on_refill, send_inv. cbn [snd_side rcv_side ctl] in *.
  destruct (_ && _); [|done]. destruct (legacy_check _ _ _) as [la sh']. destruct (should_suppress_empty_refill _ _ _ _ _); [done|].
  change (buffered_upload (set_refill None c)) with (buffered_upload c). rewrite Hb.
  destruct (0 <? inflight_uploads ss), (_ && negb (is_idle_depth _)); split; try done; by apply send_empty_poll_ok.
Qed.

Lemma on_reply_send input now meta resp sid ss s sh : send_ok input ss -> buffered_upload (ctl s) = None ->
  send_inv input (fst (fst (on_reply_ok num_scripts max_elevated now meta resp sid ss s sh))).
Proof.
  intros H Hb. unfold on_reply_ok, send_inv. destruct (r_e resp); [done|].
  destruct (take_reply _ _ _) as [r [| |]]; [|done..].
  set (c := note_seq _ (ctl s)). assert (buffered_upload c = None) as -> by done.
  set (c2 := if match r_seq resp with Some _ => true | None => false end then _ else _).
  assert (buffered_upload (fst c2) = None) as Hc2.
  { unfold c2. destruct (r_seq resp); [|done]. by rewrite adapt_buffered. }
  destruct c2 as [c2' sh2]. cbn [fst] in Hc2. destruct (_ && _ && _ && _); [|done].
  destruct (legacy_check _ _ _) as [la sh3]. by destruct (should_suppress_empty_refill _ _ _ _ _).
Qed.

Lemma select_arm_send input now ev s sh out : send_inv input s ->
  select_arm num_scripts max_elevated now ev s sh = Some out -> send_inv (input ++ read_of ev) (fst (fst out)).
Proof.
  intros H Hs. destruct ev as [|meta o|b| |]; cbn [select_arm read_of] in *; rewrite ?app_nil_r.
  - destruct (refill_at (ctl s)); [|done]. pose proof (on_refill_send input now s sh H) as Hr.
    destruct (on_refill num_scripts now s sh). by injection Hs as <-.
  - destruct (complete_request meta (snd_side s)) as [ss|] eqn:E; cbn in Hs; [|done].
    pose proof (complete_request_ok _ _ _ _ E (proj1 H)) as H1.
    destruct o as [resp sid| | |]; injection Hs as <-; [apply on_reply_send; [done|apply H]|..]; (split; [done|apply H]).
  - destruct (can_read s) eqn:E; [|done]. destruct (negb _); cbn in Hs; [|done]. injection Hs as <-.
    unfold can_read in E. apply andb_true_iff in E as [_ Hlt%Z.ltb_lt].
    assert (inflight_len (snd_side s) < max_inflight (ctl s) + 4) as Hlt4 by (destruct (tunnel_node_supports_seq (ctl s)); lia).
    unfold on_read. rewrite (proj2 (Z.ltb_lt _ _) Hlt4). split; [by apply send_data_op_ok, H|apply H].
  - destruct (can_read s); [|done]. injection Hs as <-. split; apply H.
  - done.
Qed.

Lemma iterate_send input top now ev s sh out : send_inv input s ->
  iterate num_scripts max_elevated top now ev s sh = Some out -> send_inv (input ++ read_of ev) (fst (fst out)).
Proof.
  intros H Hi. unfold iterate in Hi. destruct (_ && (eof_seen _ || _)); [done|].
  destruct (eof_seen (rcv_side s)).
  { destruct ev as [|meta o|b| |]; try done; cbn [read_of] in *; rewrite app_nil_r; [|by injection Hi as <-].
    destruct o as [resp sid| | |]; destruct (complete_request meta (snd_side s)) as [ss|] eqn:E; cbn in Hi; try done;
      injection Hi as <-; (split; [by eapply complete_request_ok, H|apply H]). }
  destruct (bool_decide (inflight (snd_side s) = []) && _); [|by eapply select_arm_send].
  destruct (legacy_check num_scripts top sh) as [la sh'].
  destruct (la && _ && _).
  - destruct ev as [|meta o|b| |]; try done; cbn [read_of].
    + case_bool_decide; [done|]. injection Hi as <-. split; [by apply send_data_op_ok, H|apply H].
    + injection Hi as <-. by rewrite app_nil_r.
  - eapply select_arm_send; [|done]. split; [by apply send_empty_poll_ok, H|apply H].
Qed.

Lemma loop_run_send ts input s held s' held' f : send_inv input s ->
  loop_run num_scripts max_elevated ts s held = Some (s', held', f) -> send_inv (input ++ reads_of ts) s'.
Proof.
  revert input s held. induction ts as [|t ts IH]; intros input s held H Hr; cbn [loop_run] in Hr.
  { injection Hr as <- _ _. unfold reads_of. cbn. by rewrite app_nil_r. }
  destruct (iterate _ _ _ _ _ _ _) as [[[s1 sh1] f1]|] eqn:E; cbn in Hr; [|done].
  pose proof (iterate_send input _ _ _ _ _ _ H E) as H1. cbn [fst] in H1.
  change (reads_of (t :: ts)) with (read_of (t_event t) ++ reads_of ts). rewrite app_assoc.
  destruct f1; [by eapply IH|..]; (case_bool_decide as Hnil; [|done]); subst ts; injection Hr as <- _ _;
    unfold reads_of; cbn; by rewrite app_nil_r.
Qed.

Lemma loop_start_send now w p : send_inv (initial_bytes p) (loop_start now w p).
Proof.
  assert (send_ok [] (mkSend 0 0 [] 0 [])) as H0 by (by constructor).
  unfold loop_start, send_inv. destruct p as [b|]; [|split; [by apply send_empty_poll_ok|done]].
  case_bool_decide as Hb; [subst; split; [by apply send_empty_poll_ok|done]|].
  split; [|done]. cbn [snd_side]. apply send_empty_poll_ok. by apply (send_data_op_ok []).
Qed.

(** ** What the node is sent *)
Definition upload_log (l : list SentOp) : list bytes := s_data <$> filter (fun o => s_wseq o <> None) l.

Lemma upload_log_app l1 l2 : upload_log (l1 ++ l2) = upload_log l1 ++ upload_log l2.
Proof. unfold upload_log. by rewrite filter_app, fmap_app. Qed.

Lemma upload_log_concat l : Forall (fun o => s_wseq o = None -> s_data o = []) l ->
  concat (upload_log l) = concat (s_data <$> l).
Proof.
  induction 1 as [|o l Ho _ IH]; [done|]. unfold upload_log. rewrite filter_cons.
  case_decide as Hw; cbn; [by f_equal|]. by rewrite Ho.
Qed.

(** An op numbered [w] carries the chunk number [w]. *)
Lemma upload_log_lookup l n o w : omap s_wseq l = seqZ 0 n -> o ∈ l -> s_wseq o = Some w ->
  0 <= w < n /\ upload_log l !! Z.to_nat w = Some (s_data o).
Proof.
  intros Hw (i & Hi)%list_elem_of_lookup Ho.
  assert (forall l, length (upload_log l) = length (omap s_wseq l)) as Hlen.
  { clear. intros l. induction l as [|x l IH]; [done|]. unfold upload_log in *. rewrite filter_cons. cbn.
    destruct (s_wseq x) eqn:E; case_decide; cbn; naive_solver. }
  pose proof (take_drop_middle l i o Hi) as Hl. rewrite <- Hl in Hw |- *. rewrite omap_app in Hw. cbn in Hw. rewrite Ho in Hw.
  set (k := length (omap s_wseq (take i l))) in *.
  assert (seqZ 0 n !! k = Some w) as [Hk Hlt]%lookup_seqZ.
  { rewrite <- Hw. by apply list_lookup_middle. }
  assert (Z.to_nat w = k) as -> by lia. split; [lia|]. rewrite upload_log_app. unfold upload_log at 2.
  rewrite filter_cons. case_decide as Hn; [|by rewrite Ho in Hn]. cbn.
  apply list_lookup_middle. by rewrite Hlen.
Qed.

(** ** Nothing is held back for ever *)
Lemma loop_ok_all_written log input s : loop_ok log input s -> inflight (snd_side s) = [] ->
  next_write_seq (rcv_side s) = next_send_seq (snd_side s).
Proof.
  intros H Hi. pose proof (lo_track _ _ _ H) as Ht. unfold seqs in Ht. rewrite Hi in Ht. cbn in Ht. unfold settled in Ht.
  pose proof (ro_nonneg _ _ (lo_recv _ _ _ H)) as H0. pose proof (ro_sorted _ _ (lo_recv _ _ _ H)) as Hs.
  set (n := next_write_seq (rcv_side s)) in *. set (k := next_send_seq (snd_side s)) in *.
  destruct (Z.lt_trichotomy n k) as [Hlt|[?|Hgt]]; [|done|].
  - assert (n ∈ seqZ 0 k) as Hn by (apply elem_of_seqZ; lia). rewrite <- Ht, elem_of_app, elem_of_seqZ in Hn.
    destruct Hn as [?|Hn]; [lia|]. pose proof (bt_sorted_keys _ _ _ Hs Hn). lia.
  - assert (n - 1 ∈ seqZ 0 n ++ keys (pending_writes (rcv_side s))) as Hn.
    { apply elem_of_app. left. apply elem_of_seqZ.
      assert (0 <= k) by (unfold k; rewrite (so_len _ _ (lo_send _ _ _ H)); unfold len; lia). lia. }
    rewrite Ht in Hn. apply elem_of_seqZ in Hn. lia.
Qed.
End Recv.

(** ** Theorems *)
Section Theorems.
Context {B : Base64} (num_scripts max_elevated : Z).

Definition run_from (now : Z) (room : option nat) (p : option bytes) (ts : list Turn) : option (TLoop * Z * Flow) :=
  loop_run num_scripts max_elevated ts (loop_start now (mkWriter [] room) p) 0.

Lemma run_from_ok log now room p ts s held f :
  Forall (fun t => answered log (t_event t)) ts -> run_from now room p ts = Some (s, held, f) ->
  loop_left log (initial_bytes p ++ reads_of ts) s /\ (f = Go -> loop_ok log (initial_bytes p ++ reads_of ts) s)
  /\ held = b2z (is_elevated (ctl s)).
Proof.
  intros Hl Hr. pose proof (loop_start_ok log now room p) as H.
  apply (loop_run_ok num_scripts max_elevated log ts _ _ s held f H Hl). exact Hr.
Qed.

Lemma sent_of_run now w p ts held0 s held f :
  loop_run num_scripts max_elevated ts (loop_start now w p) held0 = Some (s, held, f) ->
  let ops := sent (snd_side s) in
  concat (upload_log ops) = initial_bytes p ++ reads_of ts
  /\ (forall i o, ops !! i = Some o -> s_seq o = Z.of_nat i)
  /\ (forall o w, o ∈ ops -> s_wseq o = Some w -> 0 <= w /\ upload_log ops !! Z.to_nat w = Some (s_data o))
  /\ (forall o, o ∈ ops -> s_wseq o = None -> s_data o = []).
Proof.
  intros Hrun. destruct (loop_run_send _ _ _ _ _ _ _ _ _ (loop_start_send now w p) Hrun) as [[H1 H2 H3 H4 H5 H6 H7] _].
  cbn zeta. split_and!.
  - by rewrite upload_log_concat.
  - done.
  - intros o w' Ho Hw. destruct (upload_log_lookup _ _ o w' H3 Ho Hw) as [? ?]. split; [lia|done].
  - rewrite Forall_forall in H5. done.
Qed.

(** In every run of [tunnel_loop], whatever the interleaving of reads, replies,
    timers and the other sessions' use of the mux, and however the run ends: the data ops
    given to the mux carry exactly the initial bytes followed by the bytes read from the
    browser, in order and without loss; op number [i] has [seq = i], the ones with data are
    numbered [0, 1, 2, ...] by [wseq], and an empty poll carries no data and no [wseq]. *)
Theorem tunnel_upload_stream now w p ts held0 s held f
    (Hrun : loop_run num_scripts max_elevated ts (loop_start now w p) held0 = Some (s, held, f)) :
  let ops := sent (snd_side s) in
  concat (upload_log ops) = initial_bytes p ++ reads_of ts
  /\ (forall i o, ops !! i = Some o -> s_seq o = Z.of_nat i)
  /\ (forall o w, o ∈ ops -> s_wseq o = Some w -> 0 <= w /\ upload_log ops !! Z.to_nat w = Some (s_data o))
  /\ (forall o, o ∈ ops -> s_wseq o = None -> s_data o = []).
Proof. by eapply sent_of_run. Qed.

(** In every run of [tunnel_loop] the requests may complete in any order; what
    the browser has been given is a prefix of the bytes of the replies in the order of the
    requests' sequence numbers ([log] lists the replies by number).  As long as the loop
    is running, a browser that still accepts bytes has been given all the bytes of the
    first [next_write_seq] replies, and once no request is in flight, of every reply:
    none is held back. *)
Theorem tunnel_download_in_order log now room p ts s held f
    (Hl : Forall (fun t => answered log (t_event t)) ts)
    (Hrun : run_from now room p ts = Some (s, held, f)) :
  let r := rcv_side s in
  w_out (browser r) `prefix_of` reply_bytes log
  /\ (f = Go ->
        (w_room (browser r) <> Some 0%nat -> w_out (browser r) = upto log (next_write_seq r))
        /\ (inflight (snd_side s) = [] -> next_write_seq r = len (sent (snd_side s)))).
Proof.
  destruct (run_from_ok log now room p ts s held f Hl Hrun) as (Hleft & Hgo & _). cbn zeta.
  split; [apply Hleft|]. intros Hf. specialize (Hgo Hf). split.
  - apply (ro_wrote _ _ (lo_recv _ _ _ Hgo)).
  - intros Hi. rewrite (loop_ok_all_written _ _ _ Hgo Hi). apply (so_len _ _ (lo_send _ _ _ Hgo)).
Qed.

(** In every run of [tunnel_loop], the pipeline depth stays between 1 and
    [INFLIGHT_ACTIVE], at most [INFLIGHT_ACTIVE + 4] requests are in flight,
    [inflight_uploads] counts those that carry data, and the upload buffer for a full
    pipeline is never used.  The session holds an elevation permit exactly while it is
    marked elevated, and a normal end of the loop gives it back; a failed write to the
    browser, which returns early, does not. *)
Theorem tunnel_loop_bounds log now room p ts s held f sh
    (Hl : Forall (fun t => answered log (t_event t)) ts)
    (Hrun : run_from now room p ts = Some (s, held, f)) :
  1 <= max_inflight (ctl s) <= INFLIGHT_ACTIVE
  /\ len (inflight (snd_side s)) <= INFLIGHT_ACTIVE + 4
  /\ inflight_uploads (snd_side s) = len (uploads_in (inflight (snd_side s)))
  /\ buffered_upload (ctl s) = None
  /\ held = b2z (is_elevated (ctl s))
  /\ wrap 64 (held + permits sh (snd (loop_end f s sh))) = (match f with Io => held | _ => 0 end).
Proof.
  destruct (run_from_ok log now room p ts s held f Hl Hrun) as ([H1 _ H3 [H4 H5]] & _ & ->).
  split_and!; try done; [lia..|apply H1|]. unfold loop_end, permits, wrap.
  destruct f, (is_elevated (ctl s)); cbn [snd elevated_sessions b2z]; rewrite ?Z.sub_diag; try done.
  all: replace (1 + _) with ((elevated_sessions sh - 1) mod 2 ^ 64 - (elevated_sessions sh - 1)) by lia.
  all: by rewrite Zminus_mod_idemp_l, Z.sub_diag.
Qed.

(** Once a session has delivered any data, its depth never settles at
    [INFLIGHT_IDLE]: nothing resets [consecutive_data], so each further empty reply, from
    the second on, moves the depth from [INFLIGHT_IDLE] back up to [INFLIGHT_OPTIMIST] or
    from above down to [INFLIGHT_IDLE], for ever in turn. *)
Theorem idle_depth_bounces now meta resp script_id ss s sh
    (Hseq : r_seq resp <> None) (He : r_e resp = None) (Hd : r_d resp = None)
    (Hturn : m_seq meta = next_write_seq (rcv_side s)) (Hp : pending_writes (rcv_side s) = [])
    (Hb : buffered_upload (ctl s) = None)
    (Hempty : 1 <= consecutive_empty (rcv_side s)) (Hdata : 1 <= consecutive_data (rcv_side s)) :
  let s' := fst (fst (on_reply_ok num_scripts max_elevated now meta resp script_id ss s sh)) in
  max_inflight (ctl s') = (if is_idle_depth (max_inflight (ctl s)) then INFLIGHT_OPTIMIST else INFLIGHT_IDLE)
  /\ 1 <= consecutive_empty (rcv_side s') /\ 1 <= consecutive_data (rcv_side s').
Proof.
  unfold on_reply_ok, take_reply, deliver, write_tunnel_response. cbn zeta.
  rewrite He, Hturn, Z.eqb_refl. cbn [fst]. rewrite Hd. cbn [set_browser pending_writes]. rewrite Hp. cbn [flush_buffered].
  cbn [set_pending_writes consecutive_empty consecutive_data note_seq buffered_upload]. rewrite Hb.
  destruct (r_seq resp); [|done]. cbn [negb orb].
  assert (2 <= u32_sat_inc (consecutive_empty (rcv_side s))) as H2 by (unfold u32_sat_inc; lia).
  match goal with |- context [adapt max_elevated ?r ?c ?sh] =>
    assert (max_inflight (fst (adapt max_elevated r c sh))
      = if is_idle_depth (max_inflight (ctl s)) then INFLIGHT_OPTIMIST else INFLIGHT_IDLE) as Ha end.
  { unfold adapt. cbn [consecutive_empty consecutive_data max_inflight set_pending_writes set_browser note_seq]. rewrite (proj2 (Z.leb_le _ _) H2), (proj2 (Z.leb_le _ _) Hdata).
    destruct (is_idle_depth (max_inflight (ctl s))) eqn:Ei; cbn [andb negb]; [|done].
    apply Z.eqb_eq in Ei. rewrite Ei. done. }
  destruct (adapt _ _ _ _) as [c2 sh2]. cbn [fst] in Ha. rewrite <- Ha.
  destruct (_ && _ && _ && _); [|cbn; by split_and!; try lia].
  destruct (legacy_check _ _ _) as [la sh3]. destruct (should_suppress_empty_refill _ _ _ _ _); cbn; split_and!; try lia; done.
Qed.
End Theorems.

(** ** Examples: two requests that complete in the wrong order; a browser that stops
    reading while the session holds an elevation permit. *)
Definition toy_reply (d : bytes) (q : Z) : TunnelResponse := mkResp None (Some d) None None None None (Some q).
Definition toy_shared : Shared := mkShared 0 legacy_new.
Definition toy_turn (ev : LoopEvent) : Turn := mkTurn 0 2000 toy_shared ev.
Definition toy_answer (q : Z) (poll : bool) (at_ : Z) (d : bytes) : Turn :=
  toy_turn (EvReply (mkMeta q poll at_) (ROk (toy_reply d q) (lit "d1"))).

Definition swapped : list Turn := [toy_answer 1 true 0 (lit "world"); toy_answer 0 false 0 (lit "hello "); toy_turn (EvRead (lit "more"))].
Definition swapped_log : list Reply := [(toy_reply (lit "hello ") 0, lit "d1"); (toy_reply (lit "world") 1, lit "d1")].

Lemma swapped_answered : Forall (fun t => answered swapped_log (t_event t)) swapped.
Proof. repeat constructor. Qed.

Definition swapped_end : option (TLoop * Z * Flow) :=
  @run_from toy_base64 1 1 0 None (Some (lit "GET")) swapped.

Definition big_reply : bytes := repeat 65 (Z.to_nat 22000).
Definition leaking : list Turn :=
  [toy_answer 0 false 0 big_reply; toy_answer 1 true 0 big_reply; toy_turn (EvRead (lit "more"));
   toy_answer 2 false 2000 (lit "x")].
Definition leaking_log : list Reply :=
  [(toy_reply big_reply 0, lit "d1"); (toy_reply big_reply 1, lit "d1"); (toy_reply (lit "x") 2, lit "d1")].
#[local] Notation leaking_end := (@run_from toy_base64 1 1 0 (Some (Z.to_nat 44000)) (Some (lit "GET")) leaking).

Lemma tunnel_upload_stream_witness : exists s held f, swapped_end = Some (s, held, f)
  /\ concat (upload_log (sent (snd_side s))) = lit "GETmore".
Proof.
  destruct swapped_end as [[[s held] f]|] eqn:E; [|by vm_compute in E]. exists s, held, f. split; [reflexivity|].
  exact (proj1 (@tunnel_upload_stream toy_base64 1 1 0 (mkWriter [] None) (Some (lit "GET")) swapped 0 s held f E)).
Defined.

Lemma tunnel_download_in_order_witness : exists s held f, swapped_end = Some (s, held, f)
  /\ w_out (browser (rcv_side s)) `prefix_of` lit "hello world".
Proof.
  destruct swapped_end as [[[s held] f]|] eqn:E; [|by vm_compute in E]. exists s, held, f. split; [reflexivity|].
  exact (proj1 (@tunnel_download_in_order toy_base64 1 1 swapped_log 0 None (Some (lit "GET")) swapped s held f
    swapped_answered E)).
Defined.

Lemma leaking_io : (fun x => (snd (fst x), match snd x with Io => true | _ => false end)) <$> leaking_end = Some (1, true).
Proof. vm_compute. reflexivity. Qed.

Lemma tunnel_loop_bounds_witness : exists s, leaking_end = Some (s, 1, Io)
  /\ wrap 64 (1 + permits toy_shared (snd (loop_end Io s toy_shared))) = 1.
Proof.
  pose proof leaking_io as Hio. destruct leaking_end as [[[s held] f]|] eqn:E; [|done].
  destruct f; cbn in Hio; try discriminate Hio. injection Hio as ->. exists s. split; [reflexivity|].
  assert (Forall (fun t => answered leaking_log (t_event t)) leaking) as Hl by (repeat constructor).
  destruct (@tunnel_loop_bounds toy_base64 1 1 leaking_log 0 (Some (Z.to_nat 44000)) (Some (lit "GET")) leaking s 1 Io
    toy_shared Hl E) as (_ & _ & _ & _ & _ & H). exact H.
Defined.

Definition idle_reply (q : Z) : TunnelResponse := mkResp None None None None None None (Some q).
Definition idle_loop (depth : Z) : TLoop :=
  mkLoop (mkSend 6 1 [] 0 []) (mkRecv 5 [] (mkWriter [] None) false 1 1 3) (mkControl depth false true false None None).

Lemma idle_depth_bounces_witness :
  max_inflight (ctl (fst (fst (@on_reply_ok toy_base64 1 1 9000 (mkMeta 5 true 4000) (idle_reply 5) (lit "d1")
    (mkSend 6 1 [] 0 []) (idle_loop 1) toy_shared)))) = INFLIGHT_OPTIMIST
  /\ max_inflight (ctl (fst (fst (@on_reply_ok toy_base64 1 1 9000 (mkMeta 5 true 4000) (idle_reply 5) (lit "d1")
    (mkSend 6 1 [] 0 []) (idle_loop 3) toy_shared)))) = INFLIGHT_IDLE.
Proof.
  split.
  - refine (proj1 (@idle_depth_bounces toy_base64 1 1 9000 (mkMeta 5 true 4000) (idle_reply 5) (lit "d1")
      (mkSend 6 1 [] 0 []) (idle_loop 1) toy_shared _ eq_refl eq_refl eq_refl eq_refl eq_refl _ _)); cbn; [done|lia..].
  - refine (proj1 (@idle_depth_bounces toy_base64 1 1 9000 (mkMeta 5 true 4000) (idle_reply 5) (lit "d1")
      (mkSend 6 1 [] 0 []) (idle_loop 3) toy_shared _ eq_refl eq_refl eq_refl eq_refl eq_refl _ _)); cbn; [done|lia..].
Defined.
