(* ===== verification/TunnelConn.v ===== *)
(** * src/tunnel_client.rs: [tunnel_connection]

    One browser connection: pre-read, connect (with or without the first bytes), the
    session, at most one transparent retry, and the close ops.  What the outside decides
    is a script: the answers to the connects and the turns of each [tunnel_loop]; a
    script that does not describe a run gives [None].

    [cs_msgs] is what was sent to the mux; [cs_sessions] is history: each session opened,
    the bytes replayed into it and how it ended. *)

From stdpp Require Import prelude gmap list.
From S2P Require Import Prelude RustStr Reorder NodeProto NodeSession TunnelMux TunnelLoop TunnelStream.
#[local] Open Scope Z_scope.

Inductive IoErr := ErrRefused (e : str) | ErrOther (e : str) | ErrSocket.

(** [std::io::Result] *)
Inductive io (A : Type) := Done (a : A) | Failed (e : IoErr).
Arguments Done {A} _.
Arguments Failed {A} _.
Definition io_map {A B} (f : A -> B) (r : io A) : io B :=
  match r with Done a => Done (f a) | Failed e => Failed e end.

Inductive ConnReply := CrOk (resp : TunnelResponse) | CrErr (e : str) | CrDropped.
Inductive Preread := PrEof | PrData (b : bytes) (elapsed_us : Z) | PrErr | PrTimeout.
Inductive ConnectDataOutcome := Opened (sid : str) (response : TunnelResponse) | Unsupported.

(** The pre-read counters. *)
Record PrereadStats := mkPreread {
  preread_win : Z; preread_loss : Z; preread_skip_port : Z; preread_skip_unsupported : Z;
  preread_win_total_us : Z; preread_total_events : Z
}.

(** A session as it ended: the bytes to send first, those read from the browser while it
    lasted, the data ops it sent, and all the browser had been given by its end. *)
Record SessionRec := mkSess {
  ss_sid : str; ss_pending : option bytes; ss_end : io TunnelEnd;
  ss_read : bytes; ss_ops : list SentOp; ss_browser : bytes
}.

Record ConnSt := mkConn {
  cs_unsupported : bool;                        (* TunnelMux::connect_data_unsupported *)
  cs_unreachable : gmap target Z;               (* TunnelMux::unreachable_cache *)
  cs_preread : PrereadStats;
  cs_msgs : list MuxMsg;
  cs_browser : SessionWriter;
  cs_shutdown : bool;
  cs_replies : list (Z * ConnReply);            (* script: time and answer of each connect *)
  cs_loops : list (Z * list Turn);              (* script: the turns of each loop *)
  cs_sessions : list SessionRec
}.

Definition set_stats (p : PrereadStats) (c : ConnSt) : ConnSt :=
  mkConn (cs_unsupported c) (cs_unreachable c) p (cs_msgs c) (cs_browser c) (cs_shutdown c) (cs_replies c) (cs_loops c) (cs_sessions c).
Definition add_msgs (ms : list MuxMsg) (c : ConnSt) : ConnSt :=
  mkConn (cs_unsupported c) (cs_unreachable c) (cs_preread c) (cs_msgs c ++ ms) (cs_browser c) (cs_shutdown c) (cs_replies c) (cs_loops c) (cs_sessions c).
Definition set_sock (w : SessionWriter) (c : ConnSt) : ConnSt :=
  mkConn (cs_unsupported c) (cs_unreachable c) (cs_preread c) (cs_msgs c) w (cs_shutdown c) (cs_replies c) (cs_loops c) (cs_sessions c).
Definition set_unreachable (m : gmap target Z) (c : ConnSt) : ConnSt :=
  mkConn (cs_unsupported c) m (cs_preread c) (cs_msgs c) (cs_browser c) (cs_shutdown c) (cs_replies c) (cs_loops c) (cs_sessions c).
Definition set_script (rs : list (Z * ConnReply)) (ls : list (Z * list Turn)) (c : ConnSt) : ConnSt :=
  mkConn (cs_unsupported c) (cs_unreachable c) (cs_preread c) (cs_msgs c) (cs_browser c) (cs_shutdown c) rs ls (cs_sessions c).
Definition mark_connect_data_unsupported (c : ConnSt) : ConnSt :=
  mkConn true (cs_unreachable c) (cs_preread c) (cs_msgs c) (cs_browser c) (cs_shutdown c) (cs_replies c) (cs_loops c) (cs_sessions c).
Definition shutdown (c : ConnSt) : ConnSt :=
  mkConn (cs_unsupported c) (cs_unreachable c) (cs_preread c) (cs_msgs c) (cs_browser c) true (cs_replies c) (cs_loops c) (cs_sessions c).
Definition note_session (s : SessionRec) (c : ConnSt) : ConnSt :=
  mkConn (cs_unsupported c) (cs_unreachable c) (cs_preread c) (cs_msgs c) (cs_browser c) (cs_shutdown c) (cs_replies c) (cs_loops c) (cs_sessions c ++ [s]).

(** ** Counters (u64) *)
Definition u64_inc (n : Z) : Z := wrap 64 (n + 1).
Definition record_preread_win (us : Z) (p : PrereadStats) : PrereadStats :=
  mkPreread (u64_inc (preread_win p)) (preread_loss p) (preread_skip_port p) (preread_skip_unsupported p)
    (wrap 64 (preread_win_total_us p + us)) (u64_inc (preread_total_events p)).
Definition record_preread_loss (p : PrereadStats) : PrereadStats :=
  mkPreread (preread_win p) (u64_inc (preread_loss p)) (preread_skip_port p) (preread_skip_unsupported p)
    (preread_win_total_us p) (u64_inc (preread_total_events p)).
Definition record_preread_skip_port (p : PrereadStats) : PrereadStats :=
  mkPreread (preread_win p) (preread_loss p) (u64_inc (preread_skip_port p)) (preread_skip_unsupported p)
    (preread_win_total_us p) (u64_inc (preread_total_events p)).
Definition record_preread_skip_unsupported (p : PrereadStats) : PrereadStats :=
  mkPreread (preread_win p) (preread_loss p) (preread_skip_port p) (u64_inc (preread_skip_unsupported p))
    (preread_win_total_us p) (u64_inc (preread_total_events p)).

Section Conn.
Context {B : Base64} (num_scripts max_elevated : Z) (min_key : gmap target Z -> option target).

(** [mux.send(..)] and [reply_rx.await]; the reply channel is numbered by the message. *)
Definition ask (m : nat -> MuxMsg) (c : ConnSt) : option (Z * ConnReply * ConnSt) :=
  match cs_replies c with
  | [] => None
  | (now, r) :: rs => Some (now, r, set_script rs (cs_loops c) (add_msgs [m (length (cs_msgs c))] c))
  end.

Definition note_unreachable (now : Z) (host : str) (port : Z) (e : str) (c : ConnSt) : ConnSt :=
  set_unreachable (record_unreachable_if_match min_key now host port e (cs_unreachable c)) c.

Definition connect_plain (host : str) (port : Z) (c : ConnSt) : option (io str * ConnSt) :=
  '(now, r, c) ← ask (MConnect host port) c;
  Some match r with
       | CrOk resp =>
         match r_e resp with
         | Some e => (Failed (ErrRefused e), note_unreachable now host port e c)
         | None =>
           match r_sid resp with
           | Some sid => (Done sid, c)
           | None => (Failed (ErrOther (lit "tunnel connect: no session id")), c)
           end
         end
       | CrErr e => (Failed (ErrRefused e), c)
       | CrDropped => (Failed (ErrOther (lit "mux channel closed")), c)
       end.

(** [for attempt in 0..attempts]: [more] attempts remain after this one. *)
Fixpoint connect_data_attempts (more : nat) (host : str) (port : Z) (data : bytes) (c : ConnSt)
    : option (io ConnectDataOutcome * ConnSt) :=
  '(now, r, c) ← ask (MConnectData host port data) c;
  match r with
  | CrDropped => Some (Failed (ErrOther (lit "mux channel closed")), c)
  | CrErr e =>
    if is_connect_data_unsupported_error_str e then Some (Done Unsupported, c) else
    match more with
    | S more =>
      if is_retryable_connect_data_transport_error e then connect_data_attempts more host port data c
      else Some (Failed (ErrRefused e), c)
    | O => Some (Failed (ErrRefused e), c)
    end
  | CrOk resp =>
    if is_connect_data_unsupported_response resp then Some (Done Unsupported, c) else
    match r_e resp with
    | Some e => Some (Failed (ErrRefused e), note_unreachable now host port e c)
    | None =>
      match r_sid resp with
      | Some sid => Some (Done (Opened sid resp), c)
      | None => Some (Failed (ErrOther (lit "tunnel connect_data: no session id")), c)
      end
    end
  end.

Definition connect_with_initial_data (host : str) (port : Z) (data : bytes) (c : ConnSt)
    : option (io ConnectDataOutcome * ConnSt) :=
  connect_data_attempts (if is_tls_record_handshake data then CONNECT_DATA_TRANSPORT_RETRIES else 0)
    host port data c.

(** ** [tunnel_loop], run to its end *)
Definition ended (s : TLoop) (f : Flow) : bool :=
  match f with
  | Go => bool_decide (inflight (snd_side s) = []) && (eof_seen (rcv_side s) || client_closed (ctl s))
  | _ => true
  end.

Definition data_msg (sid : str) (o : SentOp) : MuxMsg :=
  MData sid (s_data o) (Some (s_seq o)) (s_wseq o) (Z.to_nat (s_seq o)).

Definition end_result (e : TunnelEnd) : io TunnelEnd :=
  match e with IoError => Failed ErrSocket | e => Done e end.

Definition tunnel_loop (sid : str) (pending : option bytes) (c : ConnSt) : option (io TunnelEnd * ConnSt) :=
  match cs_loops c with
  | [] => None
  | (now, turns) :: ls =>
    '(s, _, f) ← loop_run num_scripts max_elevated turns (loop_start now (cs_browser c) pending) 0;
    if ended s f then
      let r := end_result (fst (loop_end f s (mkShared 0 legacy_new))) in
      let c := set_sock (browser (rcv_side s)) (add_msgs (data_msg sid <$> sent (snd_side s)) (set_script (cs_replies c) ls c)) in
      Some (r, note_session (mkSess sid pending r (reads_of turns) (sent (snd_side s)) (w_out (browser (rcv_side s)))) c)
    else None
  end.

(** The [first_attempt] block. *)
Definition first_attempt (sid : str) (first_resp : option TunnelResponse) (pending : option bytes) (c : ConnSt)
    : option (io (TunnelEnd * bool) * ConnSt) :=
  let go (wrote_data : bool) (c : ConnSt) :=
    '(r, c) ← tunnel_loop sid pending c;
    Some (io_map (fun e => (e, wrote_data)) r, c) in
  match first_resp with
  | None => go false c
  | Some resp =>
    let '(w, o) := write_tunnel_response resp (cs_browser c) in
    let c := set_sock w c in
    let note e := note_session (mkSess sid pending e [] [] (w_out w)) c in
    match o with
    | None => Some (Failed ErrSocket, note (Failed ErrSocket))
    | Some BadBase64 => Some (Done (NeedsClose, false), note (Done NeedsClose))
    | Some o =>
      let wrote_data := match o with Wrote => true | _ => false end in
      if resp_eof resp then Some (Done (RemoteEof 0, wrote_data), note (Done (RemoteEof 0))) else go wrote_data c
    end
  end.

Definition is_remote_eof (r : io TunnelEnd) : bool := match r with Done (RemoteEof _) => true | _ => false end.

(** [mux.send(Close)] unless the node has already reaped the session. *)
Definition close_unless_eof (sid : str) (r : io TunnelEnd) (c : ConnSt) : ConnSt :=
  if is_remote_eof r then c else add_msgs [MClose sid] c.

Definition drop_flag (r : io (TunnelEnd * bool)) : io TunnelEnd :=
  io_map fst r.

(** From the first session to the result. *)
Definition run_session (host : str) (port : Z) (sid : str) (first_resp : option TunnelResponse)
    (pending retry_ready_data : option bytes) (c : ConnSt) : option (io TunnelEnd * ConnSt) :=
  '(r, c) ← first_attempt sid first_resp pending c;
  let retry := match r with
               | Done (RemoteEof n, wrote_data) => can_retry_remote_eof wrote_data n retry_ready_data
               | _ => false
               end in
  if retry then
    let c := add_msgs [MClose sid] c in
    '(p, c) ← connect_plain host port c;
    match p with
    | Failed e => Some (Failed e, c)
    | Done retry_sid =>
      '(r, c) ← tunnel_loop retry_sid retry_ready_data c;
      Some (r, close_unless_eof retry_sid r c)
    end
  else Some (drop_flag r, close_unless_eof sid (drop_flag r) c).

(** Opening the first session: the id, the first response, the bytes still to be sent. *)
Definition open_first (host : str) (port : Z) (initial_data : option bytes) (c : ConnSt)
    : option (io (str * option TunnelResponse * option bytes) * ConnSt) :=
  match initial_data with
  | None =>
    '(p, c) ← connect_plain host port c;
    Some (io_map (fun sid => (sid, None, None)) p, c)
  | Some data =>
    '(o, c) ← connect_with_initial_data host port data c;
    match o with
    | Failed e => Some (Failed e, c)
    | Done (Opened sid response) => Some (Done (sid, Some response, None), c)
    | Done Unsupported =>
      '(p, c) ← connect_plain host port (mark_connect_data_unsupported c);
      Some (io_map (fun sid => (sid, None, Some data)) p, c)
    end
  end.

(** After the pre-read. *)
Definition serve_connection (host : str) (port : Z) (initial_data : option bytes) (c : ConnSt) : option (io unit * ConnSt) :=
  '(o, c) ← open_first host port initial_data c;
  match o with
  | Failed e => Some (Failed e, c)
  | Done (sid, first_resp, pending) =>
    '(r, c) ← run_session host port sid first_resp pending initial_data c;
    Some (io_map (fun _ => tt) r, shutdown c)
  end.

Definition tunnel_connection (host : str) (port : Z) (pr : Preread) (c : ConnSt) : option (io unit * ConnSt) :=
  if cs_unsupported c then serve_connection host port None (set_stats (record_preread_skip_unsupported (cs_preread c)) c)
  else if is_server_speaks_first port then serve_connection host port None (set_stats (record_preread_skip_port (cs_preread c)) c)
  else match pr with
       | PrEof => Some (Done tt, c)
       | PrErr => Some (Failed ErrSocket, c)
       | PrData b us => serve_connection host port (Some b) (set_stats (record_preread_win us (cs_preread c)) c)
       | PrTimeout => serve_connection host port None (set_stats (record_preread_loss (cs_preread c)) c)
       end.
End Conn.

(** ** Lemmas *)
Section Facts.
Context {B : Base64} (num_scripts max_elevated : Z) (min_key : gmap target Z -> option target).

(** The connects with data, and the closes, among messages. *)
Definition connect_datas (ms : list MuxMsg) : list (str * Z * bytes) :=
  ms ≫= fun m => match m with MConnectData h p d _ => [(h, p, d)] | _ => [] end.

Lemma close_sids_app l1 l2 : close_sids (l1 ++ l2) = close_sids l1 ++ close_sids l2.
Proof. apply bind_app. Qed.
Lemma connect_datas_app l1 l2 : connect_datas (l1 ++ l2) = connect_datas l1 ++ connect_datas l2.
Proof. apply bind_app. Qed.

Lemma data_msgs_plain sid l : close_sids (data_msg sid <$> l) = [] /\ connect_datas (data_msg sid <$> l) = [].
Proof. induction l as [|o l [IH1 IH2]]; done. Qed.

(** What a part of the connection adds: messages, of which the closes and the connects
    with data are listed, and sessions. *)
Definition adds (c c' : ConnSt) (closes : list str) (cds : list (str * Z * bytes)) (ss : list SessionRec) : Prop :=
  close_sids (cs_msgs c') = close_sids (cs_msgs c) ++ closes
  /\ connect_datas (cs_msgs c') = connect_datas (cs_msgs c) ++ cds
  /\ cs_sessions c' = cs_sessions c ++ ss.

Lemma adds_refl c : adds c c [] [] [].
Proof. unfold adds. by rewrite !app_nil_r. Qed.

Lemma adds_trans c c1 c2 k1 k2 d1 d2 s1 s2 : adds c c1 k1 d1 s1 -> adds c1 c2 k2 d2 s2 ->
  adds c c2 (k1 ++ k2) (d1 ++ d2) (s1 ++ s2).
Proof. intros (E1 & E2 & E3) (F1 & F2 & F3). unfold adds. by rewrite F1, F2, F3, E1, E2, E3, !app_assoc. Qed.

Lemma add_msgs_adds ms c : adds c (add_msgs ms c) (close_sids ms) (connect_datas ms) [].
Proof. unfold adds. cbn. by rewrite close_sids_app, connect_datas_app, app_nil_r. Qed.

Lemma ask_adds m c x c' : ask m c = Some (x, c') ->
  adds c c' (close_sids [m (length (cs_msgs c))]) (connect_datas [m (length (cs_msgs c))]) [].
Proof. unfold ask. destruct (cs_replies c) as [|[now r] rs]; [done|]. intros [= <- <-]. apply (add_msgs_adds [_] c). Qed.

Lemma connect_plain_adds host port c r c' : connect_plain min_key host port c = Some (r, c') -> adds c c' [] [] [].
Proof.
  unfold connect_plain. destruct (ask _ c) as [[[now x] c1]|] eqn:E; cbn; [|done]. intros [= Hx].
  pose proof (ask_adds _ _ _ _ E) as Ha. destruct x as [resp|e|]; [|by simplify_eq..].
  destruct (r_e resp), (r_sid resp); by simplify_eq.
Qed.

Lemma connect_data_attempts_adds host port data more c r c' :
  connect_data_attempts min_key more host port data c = Some (r, c') ->
  exists k, (1 <= k <= S more)%nat /\ adds c c' [] (replicate k (host, port, data)) [].
Proof.
  revert c. induction more as [|more IH]; intros c; cbn; destruct (ask _ c) as [[[now x] c1]|] eqn:E; cbn; try done;
    pose proof (ask_adds _ _ _ _ E) as Ha; intros H.
  - exists 1%nat. split; [lia|]. repeat case_match; by simplify_eq.
  - destruct x as [resp|e|].
    + exists 1%nat. split; [lia|]. repeat case_match; by simplify_eq.
    + destruct (is_connect_data_unsupported_error_str e); [exists 1%nat; split; [lia|by simplify_eq]|].
      destruct (is_retryable_connect_data_transport_error e); [|exists 1%nat; split; [lia|by simplify_eq]].
      destruct (IH _ H) as (k & ? & Hk). exists (S k). split; [lia|].
      exact (adds_trans _ _ _ _ [] _ _ [] [] Ha Hk).
    + exists 1%nat. split; [lia|by simplify_eq].
Qed.

(** A session sends the bytes it was given first and those it read, in order, and nothing
    else. *)
Definition session_ok (s : SessionRec) : Prop :=
  concat (upload_log (ss_ops s)) = initial_bytes (ss_pending s) ++ ss_read s.

Lemma tunnel_loop_adds sid pending c r c' : tunnel_loop num_scripts max_elevated sid pending c = Some (r, c') ->
  exists s, adds c c' [] [] [s] /\ ss_sid s = sid /\ ss_pending s = pending /\ ss_end s = r /\ session_ok s.
Proof.
  unfold tunnel_loop. destruct (cs_loops c) as [|[now ts] ls]; [done|].
  destruct (loop_run _ _ _ _ _) as [[[s held] f]|] eqn:E; cbn; [|done]. destruct (ended s f); [|done].
  intros [= <- <-].
  exists (mkSess sid pending (end_result (fst (loop_end f s (mkShared 0 legacy_new)))) (reads_of ts) (sent (snd_side s))
    (w_out (browser (rcv_side s)))).
  split_and!; [|reflexivity..|exact (proj1 (sent_of_run _ _ _ _ _ _ _ _ _ _ E))].
  destruct (data_msgs_plain sid (sent (snd_side s))) as [E1 E2].
  unfold adds. cbn. by rewrite close_sids_app, connect_datas_app, E1, E2, !app_nil_r.
Qed.

Lemma first_attempt_adds sid fr pending c r c' : (fr <> None -> pending = None) ->
  first_attempt num_scripts max_elevated sid fr pending c = Some (r, c') ->
  exists s, adds c c' [] [] [s] /\ ss_sid s = sid /\ ss_pending s = pending /\ ss_end s = drop_flag r /\ session_ok s.
Proof.
  intros Hp. unfold first_attempt.
  assert (forall b c0 r0, ('(r, c1) ← tunnel_loop num_scripts max_elevated sid pending c0; Some (io_map (fun e => (e, b)) r, c1)) = Some (r0, c') ->
    exists s, adds c0 c' [] [] [s] /\ ss_sid s = sid /\ ss_pending s = pending /\ ss_end s = drop_flag r0 /\ session_ok s) as Hgo.
  { intros b c0 r0. destruct (tunnel_loop _ _ sid pending c0) as [[r1 c1]|] eqn:E; cbn; [|done]. intros [= <- <-].
    destruct (tunnel_loop_adds _ _ _ _ _ E) as (s & H1 & H2 & H3 & H4 & H5). exists s. split_and!; try done.
    rewrite H4. by destruct r1. }
  destruct fr as [resp|]; [|apply Hgo]. rewrite Hp by done.
  destruct (write_tunnel_response resp (cs_browser c)) as [w o].
  assert (forall e, exists s, adds c (note_session (mkSess sid None e [] [] (w_out w)) (set_sock w c)) [] [] [s]
    /\ ss_sid s = sid /\ ss_pending s = None /\ ss_end s = e /\ session_ok s) as Hnote.
  { intros e. exists (mkSess sid None e [] [] (w_out w)). split_and!; [|reflexivity..]. unfold adds. cbn. by rewrite !app_nil_r. }
  rewrite Hp in Hgo by done.
  destruct o as [[]|]; [destruct (resp_eof resp); [|apply (Hgo _ (set_sock w c))]..| |]; intros [= <- <-]; apply Hnote.
Qed.

(** The sessions of a connection and its closes. *)
Inductive session_shape (ready : option bytes) : list str -> list SessionRec -> Prop :=
| ShOne s : session_shape ready (if is_remote_eof (ss_end s) then [] else [ss_sid s]) [s]
| ShRetryFailed s d : ready = Some d -> is_tls_record_handshake d = true -> ss_end s = Done (RemoteEof 0) ->
    session_shape ready [ss_sid s] [s]
| ShRetry s s2 d : ready = Some d -> is_tls_record_handshake d = true -> ss_end s = Done (RemoteEof 0) ->
    ss_pending s2 = Some d ->
    session_shape ready (ss_sid s :: if is_remote_eof (ss_end s2) then [] else [ss_sid s2]) [s; s2].

Lemma close_unless_eof_adds sid r c : adds c (close_unless_eof sid r c) (if is_remote_eof r then [] else [sid]) [] [].
Proof. unfold close_unless_eof. destruct (is_remote_eof r); [apply adds_refl|apply (add_msgs_adds [MClose sid])]. Qed.

Lemma run_session_adds host port sid fr pending ready c r c' : (fr <> None -> pending = None) ->
  run_session num_scripts max_elevated min_key host port sid fr pending ready c = Some (r, c') ->
  exists k ss, adds c c' k [] ss /\ Forall session_ok ss /\ session_shape ready k ss.
Proof.
  intros Hp. unfold run_session. destruct (first_attempt _ _ sid fr pending c) as [[x c1]|] eqn:E1; cbn; [|done].
  destruct (first_attempt_adds _ _ _ _ _ _ Hp E1) as (s & A1 & Es & _ & Ee & Hs).
  destruct (match x with Done (RemoteEof n, wd) => _ | _ => _ end) eqn:Er.
  - destruct x as [[[n| |] wd]|]; try done. unfold can_retry_remote_eof in Er.
    apply andb_true_iff in Er as [[->%Z.eqb_eq _]%andb_true_iff Ht]. destruct ready as [d|]; [|done].
    pose proof (adds_trans _ _ _ _ _ _ _ _ _ A1 (add_msgs_adds [MClose sid] c1)) as A2.
    destruct (connect_plain _ host port _) as [[p c2]|] eqn:E2; cbn; [|done].
    pose proof (adds_trans _ _ _ _ _ _ _ _ _ A2 (connect_plain_adds _ _ _ _ _ E2)) as A3.
    destruct p as [sid2|e].
    + destruct (tunnel_loop _ _ sid2 (Some d) c2) as [[r2 c3]|] eqn:E3; cbn; [|done]. intros [= <- <-].
      destruct (tunnel_loop_adds _ _ _ _ _ E3) as (s2 & A4 & Es2 & Ep2 & Ee2 & Hs2).
      pose proof (adds_trans _ _ _ _ _ _ _ _ _ (adds_trans _ _ _ _ _ _ _ _ _ A3 A4) (close_unless_eof_adds sid2 r2 c3)) as A5.
      eexists _, _. split; [exact A5|]. split; [by repeat constructor|].
      cbn. rewrite <- Es, <- Es2, <- Ee2. by eapply ShRetry.
    + intros [= <- <-]. eexists _, _. split; [exact A3|]. split; [by repeat constructor|]. cbn. rewrite <- Es. by eapply ShRetryFailed.
  - intros [= <- <-]. pose proof (adds_trans _ _ _ _ _ _ _ _ _ A1 (close_unless_eof_adds sid (drop_flag x) c1)) as A2.
    eexists _, _. split; [exact A2|]. split; [by repeat constructor|]. cbn. rewrite <- Es, <- Ee. apply ShOne.
Qed.

Lemma open_first_adds host port init c o c' : open_first min_key host port init c = Some (o, c') ->
  (exists k, adds c c' [] (match init with Some d => replicate k (host, port, d) | None => [] end) []
     /\ (k <= match init with Some d => if is_tls_record_handshake d then 2 else 1 | None => 0 end)%nat)
  /\ match o with Done (_, fr, pending) => fr <> None -> pending = None | _ => True end.
Proof.
  unfold open_first. destruct init as [d|].
  - unfold connect_with_initial_data.
    destruct (connect_data_attempts _ _ host port d c) as [[x c1]|] eqn:E1; cbn; [|done].
    destruct (connect_data_attempts_adds _ _ _ _ _ _ _ E1) as (k & Hk & A1).
    assert (k <= (if is_tls_record_handshake d then 2 else 1))%nat as Hk2.
    { destruct (is_tls_record_handshake d); unfold CONNECT_DATA_TRANSPORT_RETRIES in Hk; lia. }
    destruct x as [[sid resp|]|e]; [intros [= <- <-]; split; [exists k; split; [exact A1|exact Hk2]|done]| |intros [= <- <-]; split; [exists k; split; [exact A1|exact Hk2]|done]].
    destruct (connect_plain _ host port _) as [[p c2]|] eqn:E2; cbn; [|done]. intros [= <- <-].
    pose proof (adds_trans _ _ _ _ _ _ _ _ _ A1 (connect_plain_adds host port (mark_connect_data_unsupported c1) p c2 E2)) as A2.
    rewrite !app_nil_r in A2. split; [exists k; split; [exact A2|exact Hk2]|]. destruct p; cbn; [congruence|done].
  - destruct (connect_plain _ host port c) as [[p c1]|] eqn:E1; cbn; [|done]. intros [= <- <-].
    split; [exists 0%nat; split; [by eapply connect_plain_adds|lia]|]. by destruct p.
Qed.

(** The whole connection, once the pre-read has been decided. *)
Definition conn_ok (host : str) (port : Z) (init : option bytes) (c c' : ConnSt) : Prop :=
  exists k closes ss,
    adds c c' closes (match init with Some d => replicate k (host, port, d) | None => [] end) ss
    /\ (k <= match init with Some d => if is_tls_record_handshake d then 2 else 1 | None => 0 end)%nat
    /\ Forall session_ok ss /\ (closes = [] /\ ss = [] \/ session_shape init closes ss).

Definition offered (pr : Preread) : option bytes := match pr with PrData d _ => Some d | _ => None end.

Lemma tunnel_connection_ok host port pr c r c' :
  tunnel_connection num_scripts max_elevated min_key host port pr c = Some (r, c') ->
  exists init, (init = None \/ init = offered pr) /\ conn_ok host port init c c'.
Proof.
  unfold tunnel_connection.
  assert (forall init c0, adds c c0 [] [] [] -> serve_connection num_scripts max_elevated min_key host port init c0 = Some (r, c') -> conn_ok host port init c c') as Ha.
  { intros init c0 A0. unfold serve_connection. destruct (open_first _ host port init c0) as [[o c1]|] eqn:E1; cbn; [|done].
    destruct (open_first_adds _ _ _ _ _ _ E1) as [(k & A1 & Hk) Ho].
    pose proof (adds_trans _ _ _ _ _ _ _ _ _ A0 A1) as A2. cbn in A2.
    destruct o as [[[sid fr] pending]|e].
    - destruct (run_session _ _ _ host port sid fr pending init c1) as [[x c2]|] eqn:E2; cbn; [|done]. intros [= <- <-].
      destruct (run_session_adds _ _ _ _ _ _ _ _ _ Ho E2) as (closes & ss & A3 & Hss & Hsh).
      pose proof (adds_trans _ _ _ _ _ _ _ _ _ A2 A3) as A4. rewrite app_nil_r in A4.
      exists k, closes, ss. split_and!; [exact A4|done..|by right].
    - intros [= <- <-]. exists k, [], []. split_and!; [done..|by left]. }
  assert (conn_ok host port None c c) as Hno.
  { exists 0%nat, [], []. split_and!; [apply adds_refl|lia|done|by left]. }
  destruct (cs_unsupported c); [intros H; exists None; split; [by left|]; eapply Ha, H; apply (adds_refl c)|].
  destruct (is_server_speaks_first port); [intros H; exists None; split; [by left|]; eapply Ha, H; apply (adds_refl c)|].
  destruct pr as [|d us| |].
  - intros [= <- <-]. exists None. auto.
  - intros H. exists (Some d). split; [by right|]. eapply Ha, H. apply (adds_refl c).
  - intros [= <- <-]. exists None. auto.
  - intros H. exists None. split; [by left|]. eapply Ha, H. apply (adds_refl c).
Qed.
End Facts.

(** ** Theorems *)
Section Theorems.
Context {B : Base64} (num_scripts max_elevated : Z) (min_key : gmap target Z -> option target).

(** Every run of [tunnel_connection], whatever the mux answers and however the
    sessions go.  The bytes of the pre-read are sent by [connect_data] at most once, and at
    most twice when they are a TLS ClientHello; nothing else is.  At most two sessions are
    used; there is a second one only when the first ended by remote EOF with no byte
    counted, and the pre-read bytes, a ClientHello, are what the second one sends first.
    Every session sends its first bytes and those it reads from the browser, in order, and
    nothing else.  No session is closed twice, and every one that did not end by remote
    EOF is closed. *)
Theorem connection_sessions host port pr c r c'
    (Hrun : tunnel_connection num_scripts max_elevated min_key host port pr c = Some (r, c'))
    (Hm : cs_msgs c = []) (Hs : cs_sessions c = []) :
  (exists k, connect_datas (cs_msgs c') = match offered pr with Some d => replicate k (host, port, d) | None => [] end
     /\ (k <= match offered pr with Some d => if is_tls_record_handshake d then 2 else 1 | None => 0 end)%nat)
  /\ (length (cs_sessions c') <= 2)%nat
  /\ (forall s1 s2, cs_sessions c' = [s1; s2] -> exists d, offered pr = Some d /\ is_tls_record_handshake d = true
        /\ ss_end s1 = Done (RemoteEof 0) /\ ss_pending s2 = Some d)
  /\ Forall session_ok (cs_sessions c')
  /\ close_sids (cs_msgs c') `sublist_of` (ss_sid <$> cs_sessions c')
  /\ (forall s, s ∈ cs_sessions c' -> is_remote_eof (ss_end s) = false -> ss_sid s ∈ close_sids (cs_msgs c')).
Proof.
  destruct (tunnel_connection_ok _ _ _ _ _ _ _ _ _ Hrun) as (init & Hinit & k & closes & ss & (E1 & E2 & E3) & Hk & Hss & Hsh).
  rewrite Hm in E1, E2. rewrite Hs in E3. cbn in E1, E2, E3. rewrite E1, E2, E3. split; [|split_and!].
  - destruct Hinit as [-> | ->]; [|by exists k]. exists 0%nat. split; [by destruct (offered pr)|]. lia.
  - destruct Hsh as [[_ ->]|Hsh]; [cbn; lia|]. destruct Hsh; cbn; lia.
  - intros s1 s2 ->. destruct Hsh as [[_ ?]|Hsh]; [done|]. inversion Hsh as [| |x y d H1 H2 H3 H4]; subst.
    exists d. split_and!; try done. by destruct Hinit as [?|<-].
  - done.
  - destruct Hsh as [[-> ->]|Hsh]; [done|]. destruct Hsh as [x|x d|x y d]; cbn.
    + destruct (is_remote_eof (ss_end x)); [apply sublist_nil_l|done].
    + done.
    + apply sublist_skip. destruct (is_remote_eof (ss_end y)); [apply sublist_nil_l|done].
  - intros s Hin He. destruct Hsh as [[-> ->]|Hsh]; [by apply elem_of_nil in Hin|].
    destruct Hsh as [x|x d|x y d ? ? Heof].
    + apply list_elem_of_singleton in Hin as ->. rewrite He. apply list_elem_of_here.
    + apply list_elem_of_singleton in Hin as ->. apply list_elem_of_here.
    + apply elem_of_cons in Hin as [->|Hin]; [by rewrite Heof in He|].
      apply list_elem_of_singleton in Hin as ->. rewrite He. apply elem_of_cons. right. apply list_elem_of_here.
Qed.
End Theorems.

(** ** Examples *)
Definition toy_conn (loops : list (Z * list Turn)) : ConnSt :=
  mkConn false ∅ (mkPreread 0 0 0 0 0 0) [] (mkWriter [] None) false
    [(0, CrOk (mkResp (Some (lit "s1")) None None None None None None));
     (0, CrOk (mkResp (Some (lit "s2")) None None None None None None))] loops [].
Definition toy_hello : bytes := 0x16 :: 0x03 :: lit "hello".
Definition toy_eof (q : Z) : TunnelResponse := mkResp None None None (Some true) None None (Some q).

(** The second session is abandoned at its first reply. *)
Definition abandon : Z * list Turn := (0, [toy_turn (EvReply (mkMeta 0 false 0) RTimeout)]).

(** The browser sends more while the first session is dying. *)
Definition more_then_eof : Z * list Turn :=
  (0, [toy_turn (EvRead (lit "more"));
       toy_turn (EvReply (mkMeta 0 true 0) (ROk (toy_eof 0) (lit "d1")));
       toy_turn EvGraceOver]).

(** A reply with data completes in the grace period after the end of the stream. *)
Definition eof_then_data : Z * list Turn :=
  (0, [toy_turn EvRefill;
       toy_turn (EvReply (mkMeta 0 true 0) (ROk (toy_eof 0) (lit "d1")));
       toy_answer 1 true 2000 (lit "server bytes")]).

#[local] Notation toy_connection first :=
  (@tunnel_connection toy_base64 1 1 any_key (lit "host") 443 (PrData toy_hello 10) (toy_conn [first; abandon])).

Lemma connection_sessions_witness : exists r c', toy_connection more_then_eof = Some (r, c')
  /\ (length (cs_sessions c') <= 2)%nat.
Proof.
  destruct (toy_connection more_then_eof) as [[r c']|] eqn:E; [|by vm_compute in E]. exists r, c'. split; [reflexivity|].
  exact (proj1 (proj2 (@connection_sessions toy_base64 1 1 any_key (lit "host") 443 (PrData toy_hello 10)
    (toy_conn [more_then_eof; abandon]) r c' E eq_refl eq_refl))).
Defined.

(** The retry after a remote EOF is not always transparent.  There is a run in
    which the first session has read bytes from the browser after the ClientHello: the
    second one sends the ClientHello only, so those bytes are lost in the middle of the
    stream.  And there is one in which the browser had already been given bytes of the
    first session, by a reply in the grace period, which the count does not include. *)
Theorem retry_not_transparent :
  (exists r c' s1 s2, toy_connection more_then_eof = Some (r, c') /\ cs_sessions c' = [s1; s2]
     /\ ss_read s1 = lit "more" /\ concat (upload_log (ss_ops s2)) = toy_hello)
  /\ (exists r c' s1 s2, toy_connection eof_then_data = Some (r, c') /\ cs_sessions c' = [s1; s2]
     /\ ss_browser s1 = lit "server bytes" /\ concat (upload_log (ss_ops s2)) = toy_hello).
Proof. split; eexists _, _, _, _; (split; [vm_compute; reflexivity|]); split_and!; reflexivity. Qed.
