(* ===== verification/FullTunnel.v ===== *)
(** * Full mode: browser, multiplexer, tunnel node, destination

    The composition of [tunnel_loop] (src/tunnel_client.rs) with the node's sessions
    (tunnel-node/src/main.rs) through the batches of the multiplexer. *)

From stdpp Require Import prelude gmap list sorting.
From S2P Require Import Prelude RustStr ListSort Reorder NodeSession NodePool NodeReplay NodeProto Node NodeOps NodeBatch NodeService.
From S2P Require Import TunnelMux TunnelLoop TunnelStream TunnelConn.
#[local] Open Scope Z_scope.

(** ** One op on the wire *)
Section Wire.
Context {B : Base64} {L : Base64Laws B}.

(** The op that [tunnel_loop] gives to the mux, as the node reads it. *)
Definition wire_op (m : MuxMsg) : option BatchOp := (fun x => encode_pending (fst (fst x))) <$> msg_op m.

Lemma data_wire_op sid o : exists op, wire_op (data_msg sid o) = Some op
  /\ o_op op = lit "data" /\ o_sid op = Some sid /\ o_seq op = Some (s_seq o) /\ o_wseq op = s_wseq o
  /\ decode_field (o_d op) = Ok (s_data o).
Proof.
  eexists. split; [reflexivity|]. split_and!; try done. cbn. unfold some_nonempty.
  case_bool_decide as Hd; cbn; [by rewrite Hd|]. rewrite bool_decide_false by done. cbn.
  rewrite bool_decide_false by (by apply b64_encode_nonempty). by rewrite b64_decode_encode.
Qed.

(** A write the node makes for an op of this client. *)
Definition sent_by (sid : str) (ops : list SentOp) (ev : SessionEvent) : Prop :=
  match ev with
  | SeWrite q b | SeReject q b =>
    exists o op, o ∈ ops /\ wire_op (data_msg sid o) = Some op /\ o_wseq op = Some q /\ decode_field (o_d op) = Ok b
  | SeWriteRaw _ => False
  | _ => True
  end.

Lemma sent_by_log sid ops ev :
  (forall o w, o ∈ ops -> s_wseq o = Some w -> 0 <= w /\ upload_log ops !! Z.to_nat w = Some (s_data o)) ->
  sent_by sid ops ev -> from_log (upload_log ops) ev.
Proof.
  intros Hops. assert (forall q b, (exists o op, o ∈ ops /\ wire_op (data_msg sid o) = Some op /\ o_wseq op = Some q
    /\ decode_field (o_d op) = Ok b) -> 0 <= q /\ upload_log ops !! Z.to_nat q = Some b) as H.
  { intros q b (o & op & Ho & Hw & Hq & Hb). destruct (data_wire_op sid o) as (op' & Hw' & _ & _ & _ & Hq' & Hb').
    rewrite Hw in Hw'. injection Hw' as <-. rewrite Hb in Hb'. injection Hb' as ->. apply Hops; [done|]. congruence. }
  destruct ev; cbn; auto.
Qed.
End Wire.

(** ** Replies *)
Lemma elem_of_concat {A} (x : A) ls : x ∈ concat ls <-> exists l, x ∈ l /\ l ∈ ls.
Proof.
  rewrite list_elem_of_In, in_concat. split; intros (l & H1 & H2); exists l; rewrite !list_elem_of_In in *; done.
Qed.

Section Replies.
Context {HO : HashOrder} (instant_min : Z) {B : Base64} {L : Base64Laws B} (E : Env) (clock : nat -> Z) (X : BatchEnv).

(** What the node answers to a batch of the multiplexer. *)
Definition node_answer (f : Fired) (n : Node) : list TunnelResponse :=
  fst (process_ops instant_min E clock X (encode_pending <$> fst f) n).

(** The replies of the session channels when the request gets through. *)
Definition channel_replies (supports_replay : bool) (show : FronterError -> str) (script_id : str) (f : Fired) (n : Node)
    : list (nat * BatchedReply) :=
  snd (fire_batch (fun _ => BrOk (node_answer f n)) supports_replay show script_id (encode_pending <$> fst f) (snd f)).

Lemma carried_msg msgs op ch : (op, ch) ∈ carried msgs -> exists m k, m ∈ msgs /\ msg_op m = Some (op, k, ch).
Proof.
  unfold carried. intros (m & Hm & Hin)%list_elem_of_bind. destruct (msg_op m) as [[[op' k] ch']|] eqn:Em; [|by apply elem_of_nil in Hm].
  apply list_elem_of_singleton in Hm as [= -> ->]. by exists m, k.
Qed.

Lemma channel_replies_spec sup show script f d n : calm X -> carries f d ->
  forall i op ch, d !! i = Some (op, ch) ->
  exists r, channel_replies sup show script f n !! i = Some (ch, RpOk r script) /\ answers (encode_pending op) r.
Proof.
  intros Hc [Hp Hs] i op ch Hi.
  destruct (process_ops_spec instant_min E clock X (encode_pending <$> fst f) n Hc) as (Hlen & Hans & _).
  assert (fst f !! i = Some op) as Hop.
  { eapply prefix_lookup_Some; [|exact Hp]. by rewrite list_lookup_fmap, Hi. }
  assert ((encode_pending <$> fst f) !! i = Some (encode_pending op)) as Hop' by (by rewrite list_lookup_fmap, Hop).
  destruct (lookup_lt_is_Some_2 (node_answer f n) i) as [r Hr].
  { unfold node_answer. rewrite Hlen. by eapply lookup_lt_Some. }
  exists r. split; [|by apply (Hans i _ r)].
  unfold channel_replies, fire_batch. cbn [snd]. destruct (if _ && _ && _ then _ else _) as [att res] eqn:Ea.
  assert (res = BrOk (node_answer f n)) as -> by (by destruct (_ && _ && _) in Ea; injection Ea as _ <-).
  cbn [snd]. rewrite list_lookup_fmap, Hs. rewrite lookup_zip_with, lookup_seq_lt by (by eapply lookup_lt_Some).
  cbn. rewrite list_lookup_fmap, Hi. cbn. by rewrite Hr.
Qed.
End Replies.

(** Each session gets the answer to its own op.  Of the messages the multiplexer
    collects, every one that expects a reply is in one of the batches it fires, and when
    the node has answered that batch, the reply channel of a data op gets the response
    that carries the op's session id and sequence number, or an error of the node; no
    reply is missing and none goes to another session. *)
Theorem reply_answers_own_op {HO : HashOrder} (instant_min : Z) {B : Base64} {L : Base64Laws B} (E : Env)
    (clock : nat -> Z) (X : BatchEnv) (supports_replay : bool) (show : FronterError -> str) (script_id : str)
    (msgs : list MuxMsg) (n : Node)
    (Hcalm : calm X) (Hmem : payload_of (carried msgs) <= u64_max) :
  let replies f := channel_replies instant_min E clock X supports_replay show script_id f n in
  (forall sid data q w ch, MData sid data q w ch ∈ msgs -> exists f r, f ∈ assemble msgs
     /\ (ch, RpOk r script_id) ∈ replies f
     /\ ((r_sid r = Some sid /\ r_seq r = q /\ is_Some (r_eof r)) \/ is_Some (r_e r)))
  /\ (forall f ch rp, f ∈ assemble msgs -> (ch, rp) ∈ replies f -> exists m op k r, m ∈ msgs
     /\ msg_op m = Some (op, k, ch) /\ rp = RpOk r script_id /\ answers (encode_pending op) r).
Proof.
  cbn zeta. destruct (assemble_ok msgs Hmem) as (ds & Hds & Hcar & _).
  assert (forall f d op ch, carries f d -> (op, ch) ∈ d -> exists r, (ch, RpOk r script_id) ∈
    channel_replies instant_min E clock X supports_replay show script_id f n /\ answers (encode_pending op) r) as Hget.
  { intros f d op ch Hf (i & Hi)%list_elem_of_lookup.
    destruct (channel_replies_spec instant_min E clock X supports_replay show script_id f d n Hcalm Hf i op ch Hi) as (r & Hr & Ha).
    exists r. split; [|done]. by eapply list_elem_of_lookup_2. }
  split.
  - intros sid data q w ch Hm.
    assert ((mkPending (lit "data") (Some sid) None None (some_nonempty data) false q w, ch) ∈ carried msgs) as Hin.
    { apply list_elem_of_bind. exists (MData sid data q w ch). split; [apply list_elem_of_here|done]. }
    rewrite <- Hds in Hin. apply elem_of_concat in Hin as (d & Hin & Hd). apply list_elem_of_lookup in Hd as (j & Hd).
    destruct (Forall2_lookup_r _ _ _ _ _ Hcar Hd) as (f & Hf & Hfd).
    destruct (Hget f d _ ch Hfd Hin) as (r & Hr & Ha). exists f, r. split_and!; [by eapply list_elem_of_lookup_2|done|].
    apply Ha. by left.
  - intros f ch rp (j & Hf)%list_elem_of_lookup (i & Hi)%list_elem_of_lookup.
    destruct (Forall2_lookup_l _ _ _ _ _ Hcar Hf) as (d & Hd & Hfd).
    assert (i < length d)%nat as Hlt.
    { apply lookup_lt_Some in Hi. unfold channel_replies, fire_batch in Hi. cbn [snd] in Hi.
      destruct (if _ && _ && _ then _ else _) as [att res] eqn:Ea.
      assert (res = BrOk (node_answer instant_min E clock X f n)) as -> by (by destruct (_ && _ && _) in Ea; injection Ea as _ <-).
      cbn [snd] in Hi. rewrite length_fmap, (proj2 Hfd) in Hi. rewrite length_zip_with, length_seq, length_fmap in Hi. lia. }
    destruct (lookup_lt_is_Some_2 d i Hlt) as [[op ch'] Hop].
    destruct (channel_replies_spec instant_min E clock X supports_replay show script_id f d n Hcalm Hfd i op ch' Hop) as (r & Hr & Ha).
    rewrite Hi in Hr. injection Hr as -> ->. destruct (carried_msg msgs op ch') as (m & k & Hm & Hmo).
    { rewrite <- Hds. apply elem_of_concat. exists d. split; [by eapply list_elem_of_lookup_2|by eapply list_elem_of_lookup_2]. }
    by exists m, op, k, r.
Qed.

Definition one_data_msg : list MuxMsg := [MData (lit "s1") [] (Some 4) None 9].

Lemma reply_answers_own_op_witness :
  exists f r, f ∈ assemble one_data_msg
  /\ (9%nat, RpOk r (lit "d1")) ∈ channel_replies (HO:=list_order) (B:=toy_base64) 0 quiet (fun _ => 0) example_batch true
       (fun _ => []) (lit "d1") f example_node
  /\ ((r_sid r = Some (lit "s1") /\ r_seq r = Some 4 /\ is_Some (r_eof r)) \/ is_Some (r_e r)).
Proof.
  refine (proj1 (@reply_answers_own_op list_order 0 toy_base64 toy_base64_laws quiet (fun _ => 0) example_batch true
    (fun _ => []) (lit "d1") one_data_msg example_node example_calm _) (lit "s1") [] (Some 4) None 9%nat _).
  - vm_compute. discriminate.
  - left.
Defined.

(** ** Streams *)

(** Claim C11: the two streams of a full-mode connection.  Take any run of [tunnel_loop] and
    any history of requests served by the node; let [h] be the session whose uploads are
    writes for this client's ops (as the node decodes them; each may arrive in any order,
    or not at all).  The bytes on the destination's socket are a prefix of the session's
    initial bytes followed by what the browser sent.  If moreover the node took the
    replies' data in the order of their numbers, what the browser has been given is a
    prefix of what the destination sent. *)
Theorem full_tunnel_streams {HO : HashOrder} (instant_min : Z) {B : Base64} {L : Base64Laws B} {DG : Digest} {BC : BatchCodec}
    (auth_key : str) (diagnostic_mode prewarm_on : bool) (rqs : list (Env * (nat -> Z) * Request))
    (num_scripts max_elevated t0 : Z) (room : option nat) (p : option bytes) (ts : list Turn) (log : list Reply)
    (c : TLoop) (held : Z) (f : Flow) (sid : str) (h : nat) (s : SessionInner)
    (Hrun : run_from num_scripts max_elevated t0 room p ts = Some (c, held, f))
    (Hlog : Forall (fun t => answered log (t_event t)) ts)
    (Hs : heap (serve_all instant_min auth_key diagnostic_mode (node_new prewarm_on) rqs) !! h = Some s)
    (Hup : Forall (sent_by sid (sent (snd_side c)))
             (events_of h (trace (serve_all instant_min auth_key diagnostic_mode (node_new prewarm_on) rqs)))) :
  let n := serve_all instant_min auth_key diagnostic_mode (node_new prewarm_on) rqs in
  (exists r t initial, births n !! h = Some (session_open (mkWriter [] r) t initial)
     /\ w_out (writer s) `prefix_of` initial ++ initial_bytes p ++ reads_of ts)
  /\ (reply_bytes log `prefix_of` drained (outs_of h (trace n)) ->
      w_out (browser (rcv_side c)) `prefix_of` reads (events_of h (trace n))).
Proof.
  cbn zeta. set (n := serve_all _ _ _ _ rqs) in *.
  assert (node_ok n) as Hok by apply serve_all_ok, node_new_ok. destruct Hok as [H1 _ _ _ _ _ _].
  destruct (H1 h s Hs) as (s0 & Hb & (r & t & initial & ->) & Hsr).
  destruct (sent_of_run _ _ _ _ _ _ _ _ _ _ Hrun) as (Hcat & _ & Hw & _).
  split.
  - exists r, t, initial. split; [done|]. rewrite <- Hcat.
    apply (open_run_upload r t initial (upload_log (sent (snd_side c))) _ s _ Hsr).
    eapply Forall_impl; [exact Hup|]. intros ev. by apply sent_by_log.
  - intros Halign. destruct (run_from_ok _ _ log t0 room p ts c held f Hlog Hrun) as ([_ Hout _ _] & _).
    destruct (open_run_download _ _ _ _ _ _ Hsr) as [_ Hd]. etrans; [exact Hout|]. etrans; [exact Halign|].
    rewrite Hd. by apply prefix_app_r.
Qed.

(** A connection that sends "GET" and gets "hello world" back: its two requests are served
    in order and complete out of order. *)
Definition one_session : list EnvAct :=
  [XNew None 0 [] (lit "s1") false; XSession 0 (SeWrite 0 (lit "GET")); XSession 0 (SeRead (lit "hello "));
   XSession 0 (SeDrain false 100); XSession 0 (SeRead (lit "world")); XSession 0 (SeDrain false 100)].
Definition one_session_rqs : list (Env * (nat -> Z) * Request) := [(quiet, (fun _ => 0), RqOther one_session)].
#[local] Notation one_session_node :=
  (@serve_all list_order 0 toy_base64 toy_digest (toy_codec (mkBatch [] [] None None)) (lit "key") false
     (node_new false) one_session_rqs).

Lemma one_session_from_client ops : ops = [mkSent 0 (Some 0) (lit "GET"); mkSent 1 None []; mkSent 2 (Some 1) (lit "more")] ->
  Forall (@sent_by toy_base64 (lit "s1") ops) (events_of 0 (trace one_session_node)).
Proof.
  intros ->. vm_compute events_of. repeat constructor. cbn [sent_by].
  exists (mkSent 0 (Some 0) (lit "GET")). eexists. split_and!; [left|reflexivity|reflexivity|vm_compute; reflexivity].
Qed.

Lemma swapped_sent s held f : swapped_end = Some (s, held, f) ->
  sent (snd_side s) = [mkSent 0 (Some 0) (lit "GET"); mkSent 1 None []; mkSent 2 (Some 1) (lit "more")].
Proof.
  intros E. assert ((fun x => sent (snd_side (fst (fst x)))) <$> swapped_end
    = Some [mkSent 0 (Some 0) (lit "GET"); mkSent 1 None []; mkSent 2 (Some 1) (lit "more")]) as H by (vm_compute; reflexivity).
  rewrite E in H. by injection H.
Qed.

Lemma full_tunnel_streams_witness : exists c held f s, swapped_end = Some (c, held, f)
  /\ heap one_session_node !! 0%nat = Some s
  /\ w_out (browser (rcv_side c)) `prefix_of` reads (events_of 0 (trace one_session_node)).
Proof.
  destruct swapped_end as [[[c held] f]|] eqn:E; [|by vm_compute in E].
  destruct (heap one_session_node !! 0%nat) as [s|] eqn:Es; [|by vm_compute in Es].
  exists c, held, f, s. split; [reflexivity|]. split; [reflexivity|].
  refine (proj2 (@full_tunnel_streams list_order 0 toy_base64 toy_base64_laws toy_digest (toy_codec (mkBatch [] [] None None))
    (lit "key") false false one_session_rqs 1 1 0 None (Some (lit "GET")) swapped swapped_log c held f (lit "s1") 0 s
    E swapped_answered Es (one_session_from_client _ (swapped_sent c held f E))) _).
  exists []. vm_compute. reflexivity.
Defined.

(** ** Out of order *)

(** Two polls of one session, [seq] 0 and 1, in two batches; the later one is served first. *)
Definition poll_op (q : Z) : BatchOp := mkOp (lit "data") (Some (lit "s1")) None None None (Some q) None.
Definition upstream (b : bytes) (n : Node) : Node := env_act n (XSession 0 (SeRead b)).
Definition serve_poll (q : Z) (n : Node) : list TunnelResponse * Node :=
  @process_ops list_order 0 toy_base64 quiet (fun _ => 0) example_batch [poll_op q] n.

Definition two_polls (r0 r1 : TunnelResponse) : list Turn :=
  [toy_turn EvRefill;
   toy_turn (EvReply (mkMeta 0 true 0) (ROk r0 (lit "d1")));
   toy_turn (EvReply (mkMeta 1 true 2000) (ROk r1 (lit "d1")))].

(** What a browser gets is not always what the destination sent.  The client writes
    the replies in the order of its requests, but the node gives a session's bytes to
    whichever request it serves first and does not look at [seq]: when the batch of the
    later request is served before that of the earlier one and the destination sends in
    between, the browser gets the bytes in the wrong order. *)
Theorem download_can_reorder :
  let n0 := upstream (lit "first ") (env_act (node_new false) (XNew None 0 [] (lit "s1") false)) in
  exists r0 r1 n1 n2 c held,
  serve_poll 1 n0 = ([r1], n1)
  /\ serve_poll 0 (upstream (lit "second") n1) = ([r0], n2)
  /\ @run_from toy_base64 1 1 0 None None (two_polls r0 r1) = Some (c, held, Go)
  /\ reads (events_of 0 (trace n2)) = lit "first second"
  /\ w_out (browser (rcv_side c)) = lit "secondfirst ".
Proof.
  cbn zeta. eexists _, _, _, _, _, _. split; [vm_compute; reflexivity|]. split; [vm_compute; reflexivity|].
  split; [vm_compute; reflexivity|]. split; vm_compute; reflexivity.
Qed.
