(* ===== verification/HttpText.v ===== *)
(** * src/domain_fronter.rs: HTTP/1.x texts

    Splitting and assembling responses, [Content-Range], and the reader of a response
    from a stream ([read_http_response], [read_chunked]).

    A stream is the list of what its reads return, in any segmentation; a read of at most
    [want] bytes takes them from the segment at hand.  [Panic] is a Rust panic: the sum
    [size + 2] and the slice bounds of [read_chunked] are checked. *)

From stdpp Require Import prelude.
From S2P Require Import Prelude RustStr.
#[local] Open Scope Z_scope.

Definition headers_t : Type := list (str * str).

Definition eq_ignore_ascii_case (a b : str) : bool := bool_decide (to_ascii_lowercase a = to_ascii_lowercase b).

(** [slice::split(|b| b == c)] and [str::split(char)] *)
Fixpoint split_on (c : Z) (l : list Z) : list (list Z) :=
  match l with
  | [] => [[]]
  | x :: l =>
    if x =? c then [] :: split_on c l
    else match split_on c l with h :: t => (x :: h) :: t | [] => [[x]] end
  end.

(** [str::split(&str)], at most [fuel] cuts (one per character is enough). *)
Fixpoint split_pat (fuel : nat) (pat s : str) : list str :=
  match fuel with
  | O => [s]
  | S fuel => match split_once pat s with Some (a, r) => a :: split_pat fuel pat r | None => [s] end
  end.

Fixpoint find_header (headers : headers_t) (name : str) : option str :=
  match headers with
  | [] => None
  | (k, v) :: r => if eq_ignore_ascii_case k name then Some v else find_header r name
  end.

Definition CRLF : bytes := [13; 10].
Definition CRLF2 : bytes := [13; 10; 13; 10].

(** ** Splitting a response *)

(** [splitn(3, ' ')]: the second part. *)
Definition second_word (s : str) : option str :=
  '(_, r) ← split_once [32] s;
  Some (match split_once [32] r with Some (a, _) => a | None => r end).

Fixpoint header_lines (lines : list bytes) : option headers_t :=
  match lines with
  | [] => Some []
  | l :: lines =>
    l ← from_utf8 l;
    let l := trim_end_matches 13 l in
    rest ← header_lines lines;
    Some (if bool_decide (l = []) then rest
          else match split_once [58] l with Some (k, v) => (trim k, trim v) :: rest | None => rest end)
  end.

Definition split_response (raw : bytes) : option (Z * headers_t * bytes) :=
  '(head, body) ← split_once CRLF2 raw;
  match split_on 10 head with
  | [] => None
  | status_line :: lines =>
    status_line ← from_utf8 status_line;
    code ← second_word (trim_end_matches 13 status_line);
    code ← parse_u16 code;
    headers ← header_lines lines;
    Some (code, headers, body)
  end.

(** ** Content-Range *)
Record ContentRange := mkRange { cr_start : Z; cr_end : Z; cr_total : Z }.

Definition parse_content_range (headers : headers_t) : option ContentRange :=
  value ← find_header headers (lit "content-range");
  '(unit_, rest) ← split_once [32] (trim value);
  if negb (eq_ignore_ascii_case unit_ (lit "bytes")) then None else
  '(range, total) ← split_once [47] (trim_start_by is_whitespace rest);
  '(start, end_) ← split_once [45] range;
  start ← parse_u64 (trim start);
  end_ ← parse_u64 (trim end_);
  total ← parse_u64 (trim total);
  if (end_ <? start) || (total =? 0) || (total <=? end_) then None else Some (mkRange start end_ total).

Definition content_range_matches_body (r : ContentRange) (body_len : Z) : bool :=
  (0 <? body_len) && (cr_end r - cr_start r + 1 =? body_len).

Definition probe_range_covers_complete_entity (r : ContentRange) (requested_end : Z) : bool :=
  (cr_start r =? 0) && (cr_total r <=? saturating_add_u64 (cr_end r) 1)
  && (cr_total r <=? saturating_add_u64 requested_end 1).

Definition validate_probe_range (status : Z) (headers : headers_t) (body : bytes) (requested_end : Z)
    : option ContentRange :=
  if negb (status =? 206) then None else
  r ← parse_content_range headers;
  if negb (cr_start r =? 0) || (requested_end <? cr_end r) then None
  else if content_range_matches_body r (len body) || probe_range_covers_complete_entity r requested_end
  then Some r else None.

Definition extract_exact_range_body (raw : bytes) (start end_ total : Z) : res bytes str :=
  match split_response raw with
  | None => Err (lit "malformed HTTP response")
  | Some (status, headers, body) =>
    if negb (status =? 206) then Err (lit "expected 206 Partial Content") else
    match parse_content_range headers with
    | None => Err (lit "missing or invalid Content-Range")
    | Some r =>
      if negb (cr_start r =? start) || negb (cr_end r =? end_) || negb (cr_total r =? total)
      then Err (lit "unexpected Content-Range")
      else if negb (content_range_matches_body r (len body)) then Err (lit "Content-Range/body length mismatch")
      else Ok body
    end
  end.

Definition chunk_failure_is_retryable (raw : bytes) : bool :=
  match split_response raw with
  | None => true
  | Some (status, _, _) => (500 <=? status) && (status <? 600)
  end.

(** ** Assembling a response *)
Definition skipped_header (k : str) : bool :=
  bool_decide (to_ascii_lowercase k ∈
    [lit "content-length"; lit "content-range"; lit "content-encoding"; lit "transfer-encoding";
     lit "connection"; lit "keep-alive"]).

Definition header_line (kv : str * str) : bytes :=
  if skipped_header (fst kv) then [] else as_bytes (fst kv) ++ lit ": " ++ as_bytes (snd kv) ++ CRLF.

Definition assemble_200_head (src_headers : headers_t) (declared_length : Z) : bytes :=
  lit "HTTP/1.1 200 OK" ++ CRLF ++ (src_headers ≫= header_line)
  ++ lit "Content-Length: " ++ dec_string declared_length ++ CRLF2.

Definition assemble_full_200 (src_headers : headers_t) (body : bytes) : bytes :=
  assemble_200_head src_headers (len body) ++ body.

Definition rewrite_206_to_200 (raw : bytes) : bytes :=
  match split_response raw with
  | Some (_, headers, body) => assemble_full_200 headers body
  | None => raw
  end.

Definition status_text (code : Z) : str :=
  if code =? 200 then lit "OK" else if code =? 201 then lit "Created" else if code =? 204 then lit "No Content"
  else if code =? 206 then lit "Partial Content" else if code =? 301 then lit "Moved Permanently"
  else if code =? 302 then lit "Found" else if code =? 303 then lit "See Other" else if code =? 304 then lit "Not Modified"
  else if code =? 307 then lit "Temporary Redirect" else if code =? 308 then lit "Permanent Redirect"
  else if code =? 400 then lit "Bad Request" else if code =? 401 then lit "Unauthorized"
  else if code =? 403 then lit "Forbidden" else if code =? 404 then lit "Not Found"
  else if code =? 500 then lit "Internal Server Error" else if code =? 502 then lit "Bad Gateway"
  else if code =? 504 then lit "Gateway Timeout" else lit "OK".

(** [replace('&', ..).replace('<', ..).replace('>', ..)]: no replacement makes a character
    a later one replaces. *)
Definition html_escape (s : str) : str :=
  s ≫= fun c => if c =? 38 then lit "&amp;" else if c =? 60 then lit "&lt;" else if c =? 62 then lit "&gt;" else [c].

Definition error_response (status : Z) (message : str) : bytes :=
  let body := as_bytes (lit "<html><body><h1>" ++ dec_string status ++ lit "</h1><p>" ++ html_escape message
                        ++ lit "</p></body></html>") in
  as_bytes (lit "HTTP/1.1 " ++ dec_string status ++ [32] ++ status_text status) ++ CRLF
  ++ lit "Content-Type: text/html" ++ CRLF ++ lit "Content-Length: " ++ dec_string (len body) ++ CRLF2 ++ body.

(** ** Reading from a stream *)
Inductive RdEvent := RdBytes (b : bytes) | RdEof | RdUnexpectedEof | RdIoErr | RdTimeout.
Definition Stream : Type := list RdEvent.

Inductive ReadRes := Got (b : bytes) | GotUnexpectedEof | GotIoErr | GotTimeout.

(** [stream.read(&mut tmp[..want])]; a stream that has ended stays at its end. *)
Definition read (want : nat) (st : Stream) : ReadRes * Stream :=
  match st with
  | [] => (Got [], [])
  | RdBytes b :: st =>
    if (length b <=? want)%nat then (Got b, st) else (Got (take want b), RdBytes (drop want b) :: st)
  | RdEof :: st => (Got [], st)
  | RdUnexpectedEof :: st => (GotUnexpectedEof, st)
  | RdIoErr :: st => (GotIoErr, st)
  | RdTimeout :: st => (GotTimeout, st)
  end.

(** Bytes and events left: every read makes it smaller unless the stream has ended. *)
Definition stream_size (st : Stream) : nat :=
  foldr (fun ev n => (S (match ev with RdBytes b => length b | _ => 0 end) + n)%nat) 0%nat st.

Inductive HttpErr := HTimeout | HIo | HBad (msg : str).
Definition rd (A : Type) : Type := res (A * Stream) HttpErr.

Definition bad {A} (m : string) : rd A := Err (HBad (lit m)).

(** One read whose errors and end of stream are as in the loops below; [eof] is the
    message for the end of the stream, [lenient] whether [UnexpectedEof] counts as such. *)
Definition read_more (want : nat) (lenient : bool) (eof : string) (st : Stream) : rd bytes :=
  match read want st with
  | (Got [], _) => bad eof
  | (Got b, st) => Ok (b, st)
  | (GotUnexpectedEof, _) => if lenient then bad eof else Err HIo
  | (GotIoErr, _) => Err HIo
  | (GotTimeout, _) => Err HTimeout
  end.

(** Loops run on fuel; [None] is fuel that ran out, which [stream_size] bounds. *)
Fixpoint read_headers (fuel : nat) (buf : bytes) (st : Stream) : option (rd (bytes * bytes)) :=
  match fuel with
  | O => None
  | S fuel =>
    match read_more (Z.to_nat 8192) false "connection closed before headers" st with
    | Ok (b, st) =>
      let buf := buf ++ b in
      match split_once CRLF2 buf with
      | Some hb => Some (Ok (hb, st))
      | None => if 1024 * 1024 <? len buf then Some (bad "headers too large") else read_headers fuel buf st
      end
    | Err e => Some (Err e)
    | Panic => Some Panic
    end
  end.

(** [str::split_whitespace] *)
Fixpoint drop_word (s : str) : str := match s with [] => [] | c :: r => if is_whitespace c then s else drop_word r end.
Fixpoint take_word (s : str) : str := match s with [] => [] | c :: r => if is_whitespace c then [] else c :: take_word r end.

Definition parse_status_line (line : str) : res Z HttpErr :=
  let rest := drop_while is_whitespace (drop_word (drop_while is_whitespace line)) in
  match rest with
  | [] => Err (HBad (lit "bad status line: " ++ line))
  | _ =>
    match parse_u16 (take_word rest) with
    | Some code => Ok code
    | None => Err (HBad (lit "bad status code: " ++ take_word rest))
    end
  end.

Fixpoint read_to_length (fuel : nat) (cl : Z) (body : bytes) (st : Stream) : option (rd bytes) :=
  if cl <=? len body then Some (Ok (body, st)) else
  match fuel with
  | O => None
  | S fuel =>
    let want := Z.to_nat (Z.min (cl - len body) 8192) in
    match read_more want true "connection closed before full response body" st with
    | Ok (b, st) => read_to_length fuel cl (body ++ b) st
    | Err e => Some (Err e)
    | Panic => Some Panic
    end
  end.

(** No framing: until the end, an ungraceful end or a stall. *)
Fixpoint read_to_end (fuel : nat) (body : bytes) (st : Stream) : option (rd bytes) :=
  match fuel with
  | O => None
  | S fuel =>
    match read (Z.to_nat 8192) st with
    | (Got [], st) | (GotUnexpectedEof, st) | (GotTimeout, st) => Some (Ok (body, st))
    | (Got b, st) => read_to_end fuel (body ++ b) st
    | (GotIoErr, _) => Some (Err HIo)
    end
  end.

(** [want] is the size of the buffer a read fills, [eof] the message for the end of the
    stream: the reader of requests has its own. *)
Fixpoint read_crlf_line (want : nat) (eof : string) (fuel : nat) (buf : bytes) (st : Stream) : option (rd (bytes * bytes)) :=
  match split_once CRLF buf with
  | Some lb => Some (Ok (lb, st))
  | None =>
    match fuel with
    | O => None
    | S fuel =>
      match read_more want false eof st with
      | Ok (b, st) => read_crlf_line want eof fuel (buf ++ b) st
      | Err e => Some (Err e)
      | Panic => Some Panic
      end
    end
  end.

Definition hex_digit (c : Z) : option Z :=
  if between 48 c 57 then Some (c - 48) else if between 97 c 102 then Some (c - 87)
  else if between 65 c 70 then Some (c - 55) else None.

Fixpoint hex_digits (acc : Z) (s : str) : option Z :=
  match s with
  | [] => Some acc
  | c :: s => d ← hex_digit c; if acc * 16 + d <=? u64_max then hex_digits (acc * 16 + d) s else None
  end.

(** [usize::from_str_radix(_, 16)] on a 64-bit target *)
Definition parse_hex (s : str) : option Z :=
  match s with
  | [] => None
  | c :: s' => if c =? 43 then match s' with [] => None | _ => hex_digits 0 s' end else hex_digits 0 s
  end.

(** The trailer: lines up to an empty one. *)
Fixpoint read_trailer (want : nat) (eof : string) (fuel : nat) (buf : bytes) (st : Stream) : option (rd unit) :=
  match fuel with
  | O => None
  | S fuel =>
    match read_crlf_line want eof (S (stream_size st)) buf st with
    | Some (Ok (([], _), st)) => Some (Ok (tt, st))
    | Some (Ok ((_, buf), st)) => read_trailer want eof fuel buf st
    | Some (Err e) => Some (Err e)
    | Some Panic => Some Panic
    | None => None
    end
  end.

(** [while buf.len() < limit] *)
Fixpoint fill (want : nat) (lenient : bool) (eof : string) (fuel : nat) (limit : Z) (buf : bytes) (st : Stream) : option (rd bytes) :=
  if limit <=? len buf then Some (Ok (buf, st)) else
  match fuel with
  | O => None
  | S fuel =>
    match read_more want lenient eof st with
    | Ok (b, st) => fill want lenient eof fuel limit (buf ++ b) st
    | Err e => Some (Err e)
    | Panic => Some Panic
    end
  end.

(** The chunk in [buf]: its data and the rest.  [size + 2] wraps; a range whose start is
    past its end, or past the buffer, panics. *)
Definition cut_chunk (size : Z) (buf : bytes) : res (bytes * bytes) HttpErr :=
  let limit := wrap 64 (size + 2) in
  if (limit <? size) || (len buf <? limit) then Panic
  else if negb (bool_decide (take 2 (drop (Z.to_nat size) buf) = CRLF)) then Err (HBad (lit "chunk missing trailing CRLF"))
  else Ok (take (Z.to_nat size) buf, drop (Z.to_nat limit) buf).

(** The reads of a chunked response: 16 KiB at a time. *)
Abbreviation CHUNK_READ := (Z.to_nat 16384) (only parsing).
Abbreviation CHUNK_EOF := "connection closed mid-chunked response"%string (only parsing).

Fixpoint read_chunked (fuel : nat) (out buf : bytes) (st : Stream) : option (rd bytes) :=
  match fuel with
  | O => None
  | S fuel =>
    match read_crlf_line CHUNK_READ CHUNK_EOF (S (stream_size st)) buf st with
    | Some (Ok ((line, buf), st)) =>
      match from_utf8 line with
      | None => Some (bad "bad chunk size")
      | Some l =>
        let l := trim l in
        if bool_decide (l = []) then read_chunked fuel out buf st else
        match parse_hex (default [] (head (split_on 59 l))) with
        | None => Some (Err (HBad (lit "bad chunk size '" ++ l ++ lit "'")))
        | Some size =>
          if size =? 0 then
            match read_trailer CHUNK_READ CHUNK_EOF (S (length buf + stream_size st)) buf st with
            | Some (Ok (_, st)) => Some (Ok (out, st))
            | Some (Err e) => Some (Err e)
            | Some Panic => Some Panic
            | None => None
            end
          else
            match fill CHUNK_READ true CHUNK_EOF (S (stream_size st)) (wrap 64 (size + 2)) buf st with
            | Some (Ok (buf, st)) =>
              match cut_chunk size buf with
              | Ok (data, buf) => read_chunked fuel (out ++ data) buf st
              | Err e => Some (Err e)
              | Panic => Some Panic
              end
            | Some (Err e) => Some (Err e)
            | Some Panic => Some Panic
            | None => None
            end
        end
      end
    | Some (Err e) => Some (Err e)
    | Some Panic => Some Panic
    | None => None
    end
  end.

Definition header_pair (l : str) : headers_t :=
  match split_once [58] l with Some (k, v) => [(trim k, trim v)] | None => [] end.

(** The status and headers of the section before the blank line. *)
Definition parse_head (head : bytes) : res (Z * headers_t) HttpErr :=
  match from_utf8 head with
  | None => Err (HBad (lit "non-utf8 headers"))
  | Some h =>
    match split_pat (length h) CRLF h with
    | [] => Err (HBad (lit "bad status line: "))
    | line :: lines => let? status := parse_status_line line in Ok (status, lines ≫= header_pair)
    end
  end.

Definition is_chunked (hs : headers_t) : bool :=
  contains (to_ascii_lowercase (default [] (find_header hs (lit "transfer-encoding")))) (lit "chunked").

Definition read_body (hs : headers_t) (body : bytes) (st : Stream) : option (rd bytes) :=
  if is_chunked hs then read_chunked (S (length body + stream_size st)) [] body st
  else match find_header hs (lit "content-length") ≫= parse_u64 with
       | Some cl => read_to_length (S (stream_size st)) cl body st
       | None => read_to_end (S (stream_size st)) body st
       end.

(** [read_http_response]; [decode_gzip] is flate2's. *)
Definition read_http_response (decode_gzip : bytes -> option bytes) (st : Stream)
    : option (rd (Z * headers_t * bytes)) :=
  match read_headers (S (stream_size st)) [] st with
  | Some (Ok ((head, body), st)) =>
    match parse_head head with
    | Ok (status, hs) =>
      match read_body hs body st with
      | Some (Ok (body, st)) =>
        let body := match find_header hs (lit "content-encoding") with
                    | Some enc => if eq_ignore_ascii_case enc (lit "gzip") then default body (decode_gzip body) else body
                    | None => body
                    end in
        Some (Ok ((status, hs, body), st))
      | Some (Err e) => Some (Err e)
      | Some Panic => Some Panic
      | None => None
      end
    | Err e => Some (Err e)
    | Panic => Some Panic
    end
  | Some (Err e) => Some (Err e)
  | Some Panic => Some Panic
  | None => None
  end.

(** ** Cutting at a character *)
Lemma split_on_none c l : c ∉ l -> split_on c l = [l].
Proof.
  induction l as [|x l IH]; cbn; [done|]. intros [Hx Hl]%not_elem_of_cons.
  destruct (Z.eqb_spec x c); [done|]. by rewrite IH.
Qed.

Lemma split_on_first c a b : c ∉ a -> split_on c (a ++ c :: b) = a :: split_on c b.
Proof.
  induction a as [|x a IH]; intros H; cbn [app split_on]; [by rewrite Z.eqb_refl|]. destruct (Z.eqb_spec x c) as [->|]; [set_solver|]. rewrite IH by set_solver. done.
Qed.
