(* ===== verification/CertTrust.v ===== *)
(** * src/cert_installer.rs and src/mitm.rs: the certificate authority

    The certificate authority of the proxy on disk, in the trust store of the system and in
    the stores of the browsers: what is installed, what is removed, and what is left alone.

    The system is an interface, [Os]: the file system, the environment and the commands that
    the code runs, each on a state of its own type, with an outcome.  The operations of the
    code are programs over it, in a state monad.  What the documentation of the commands says
    is in two classes of laws, [OsFrame] (the commands of the trust store do not touch the
    user's own files) and [OsRefresh] (a refresh that succeeds makes the merged bundle out of
    the anchors).  Logging is left out. *)

From stdpp Require Import prelude gmap.
From S2P Require Import Prelude RustStr HttpText Cache.
#[local] Open Scope Z_scope.

(** ** Texts *)

(** [str::split_inclusive('\n')] *)
Fixpoint split_inclusive (s : str) : list str :=
  match s with
  | [] => []
  | c :: s =>
    if c =? 10 then [c] :: split_inclusive s
    else match split_inclusive s with [] => [[c]] | l :: ls => (c :: l) :: ls end
  end.

(** A line without its end: [\n] or [\r\n]. *)
Definition strip_eol (l : str) : str :=
  match reverse l with
  | 10 :: r => match r with 13 :: r => reverse r | _ => reverse r end
  | _ => l
  end.

Definition lines (s : str) : list str := strip_eol <$> split_inclusive s.

(** [lines.join("\n")] *)
Fixpoint join_nl (ls : list str) : str :=
  match ls with [] => [] | [l] => l | l :: ls => l ++ 10 :: join_nl ls end.

Definition FX_MARKER : str := lit "// rahgozar: auto-added, safe to strip with --remove-cert".
(** With [user_pref], the name of the preference in quotes, and [true]. *)
Definition FX_PREF : str := lit "user_pref(" ++ [34] ++ lit "security.enterprise_roots.enabled" ++ [34] ++ lit ", true);".

Inductive EnterpriseRootsEdit := AddedBlock (new : str) | AlreadyOurs | UserOwned.

Definition is_line (want l : str) : bool := bool_decide (trim l = want).

Fixpoint block_after (prev : option str) (ls : list str) : bool :=
  match ls with
  | [] => false
  | l :: ls =>
    if bool_decide (trim <$> prev = Some FX_MARKER) && is_line FX_PREF l then true
    else block_after (Some l) ls
  end.
Definition contains_our_block (existing : str) : bool := block_after None (lines existing).

Definition add_enterprise_roots_block (existing : str) : EnterpriseRootsEdit :=
  if contains_our_block existing then AlreadyOurs
  else if contains existing (lit "security.enterprise_roots.enabled") then UserOwned
  else
    let out := if negb (bool_decide (existing = [])) && negb (ends_with existing [10]) then existing ++ [10] else existing in
    AddedBlock (out ++ FX_MARKER ++ [10] ++ FX_PREF ++ [10]).

(** The loop over the lines. *)
Fixpoint strip_lines (ls : list str) : list str :=
  match ls with
  | [] => []
  | l :: rest =>
    match rest with
    | p :: rest' => if is_line FX_MARKER l && is_line FX_PREF p then strip_lines rest' else l :: strip_lines rest
    | [] => [l]
    end
  end.

Definition strip_enterprise_roots_block (existing : str) : option str :=
  if negb (contains_our_block existing) then None else
  let joined := join_nl (strip_lines (lines existing)) in
  Some (if ends_with existing [10] && negb (bool_decide (joined = [])) then joined ++ [10] else joined).

Definition has_bare_enterprise_roots (existing : str) : bool :=
  if contains_our_block existing then false else existsb (is_line FX_PREF) (lines existing).

(** Whether HOME is to be re-rooted, and to whose. *)
Definition should_reconcile_for (euid : Z) (sudo_user : option str) : option str :=
  if negb (euid =? 0) then None else
  user ← sudo_user;
  if bool_decide (user = []) || bool_decide (user = lit "root") then None else Some user.

Definition sudo_parse_passwd_home (content : str) : option str :=
  line ← head (lines content);
  let fields := split_on 58 line in
  if (length fields <? 7)%nat then None else
  let home := trim (nth 5 fields []) in
  if bool_decide (home = []) then None else Some home.

Definition trim_matches (c : Z) (s : str) : str := trim_end_by (Z.eqb c) (trim_start_by (Z.eqb c) s).

(** [ID] and [ID_LIKE]: the last of each. *)
Fixpoint os_release_ids (ls : list str) (ids : str * str) : str * str :=
  match ls with
  | [] => ids
  | line :: ls =>
    match split_once [61] line with
    | None => os_release_ids ls ids
    | Some (k, v) =>
      let v := to_ascii_lowercase (trim_matches 39 (trim_matches 34 (trim v))) in
      os_release_ids ls
        (if bool_decide (trim k = lit "ID") then (v, snd ids)
         else if bool_decide (trim k = lit "ID_LIKE") then (fst ids, v) else ids)
    end
  end.

(** [str::split] on a set of characters. *)
Fixpoint split_by (p : Z -> bool) (l : str) : list str :=
  match l with
  | [] => [[]]
  | x :: l =>
    if p x then [] :: split_by p l
    else match split_by p l with h :: t => (x :: h) :: t | [] => [[x]] end
  end.

Definition os_tokens (ids : str * str) : list str :=
  let sep c := is_whitespace c || (c =? 44) in
  filter (fun t => t <> []) (split_by sep (fst ids) ++ split_by sep (snd ids)).

Definition families : list (str * list str) :=
  [(lit "openwrt", [lit "openwrt"]);
   (lit "debian", [lit "debian"; lit "ubuntu"; lit "mint"; lit "raspbian"]);
   (lit "rhel", [lit "fedora"; lit "rhel"; lit "centos"; lit "rocky"; lit "almalinux"]);
   (lit "arch", [lit "arch"; lit "manjaro"; lit "endeavouros"])].

(** The four tests, in order. *)
Fixpoint classify (tokens : list str) (fs : list (str * list str)) : str :=
  match fs with
  | [] => lit "unknown"
  | (family, names) :: fs => if existsb (fun n => bool_decide (n ∈ tokens)) names then family else classify tokens fs
  end.
Definition classify_os_release (content : str) : str := classify (os_tokens (os_release_ids (lines content) ([], []))) families.

(** *** Lines *)
Lemma split_inclusive_app a b : split_inclusive (a ++ 10 :: b) = split_inclusive (a ++ [10]) ++ split_inclusive b.
Proof.
  induction a as [|c a IH]; cbn; [done|]. rewrite IH. destruct (c =? 10); [done|].
  assert (split_inclusive (a ++ [10]) <> []) as Hne by (destruct a as [|d a]; cbn; [done|destruct (d =? 10); [done|by case_match]]).
  by destruct (split_inclusive (a ++ [10])).
Qed.

Lemma split_inclusive_line l b : 10 ∉ l -> split_inclusive (l ++ 10 :: b) = (l ++ [10]) :: split_inclusive b.
Proof.
  intros Hl. rewrite split_inclusive_app. enough (split_inclusive (l ++ [10]) = [l ++ [10]]) as -> by done.
  induction l as [|c l IH]; cbn; [done|]. apply not_elem_of_cons in Hl as [Hc Hl]. rewrite (proj2 (Z.eqb_neq c 10)) by done. by rewrite IH.
Qed.

Lemma strip_eol_line l : 13 ∉ l -> strip_eol (l ++ [10]) = l.
Proof.
  intros Hl. unfold strip_eol. rewrite reverse_snoc. destruct (reverse l) as [|c r] eqn:E; [by apply (f_equal reverse) in E; rewrite reverse_involutive in E|].
  destruct (decide (c = 13)) as [->|Hc]; [destruct Hl; apply elem_of_reverse; rewrite E; left|].
  assert (reverse (c :: r) = l) as Hr by (by rewrite <- E, reverse_involutive).
  destruct c as [|p|p]; [exact Hr| |exact Hr]. do 4 (try (destruct p as [p|p|]; try exact Hr)). congruence.
Qed.

Lemma lines_line l b : 10 ∉ l -> 13 ∉ l -> lines (l ++ 10 :: b) = l :: lines b.
Proof. intros H1 H2. unfold lines. rewrite split_inclusive_line by done. cbn. by rewrite strip_eol_line. Qed.

Lemma lines_app a b : lines (a ++ 10 :: b) = lines (a ++ [10]) ++ lines b.
Proof. unfold lines. by rewrite split_inclusive_app, fmap_app. Qed.

(** A text that ends its last line is its lines, each with its end. *)
Lemma text_lines s : 13 ∉ s -> exists ls, lines (s ++ [10]) = ls /\ s ++ [10] = ls ≫= (fun l => l ++ [10]) /\ Forall (fun l => 10 ∉ l) ls /\ ls <> [].
Proof.
  intros Hs. enough (forall l s, 10 ∉ l -> 13 ∉ l -> 13 ∉ s ->
    exists ls, lines (l ++ s ++ [10]) = ls /\ l ++ s ++ [10] = ls ≫= (fun l => l ++ [10]) /\ Forall (fun l => 10 ∉ l) ls /\ ls <> []) as H.
  { destruct (H [] s) as (ls & ?); [apply not_elem_of_nil..|done|by exists ls]. }
  clear Hs s. intros l s. revert l. induction s as [|c s IH]; intros l H1 H2 H3.
  - exists [l]. cbn [app]. rewrite lines_line by done. split_and!; [done|cbn; by rewrite app_nil_r|by repeat constructor|done].
  - apply not_elem_of_cons in H3 as [Hc H3]. destruct (decide (c = 10)) as [->|Hn].
    + destruct (IH []) as (ls & E1 & E2 & E3 & E4); [apply not_elem_of_nil..|done|]. exists (l :: ls). cbn [app] in E1, E2.
      cbn [app]. rewrite lines_line by done. split_and!; [by rewrite E1| |by constructor|done]. rewrite E2. cbn. by rewrite <- app_assoc.
    + destruct (IH (l ++ [c])) as (ls & E1 & E2 & E3 & E4); [rewrite elem_of_app, list_elem_of_singleton; naive_solver..|done|].
      exists ls. rewrite <- app_assoc in E1, E2. by split_and!.
Qed.

Lemma join_nl_snoc ls : ls <> [] -> join_nl ls ++ [10] = ls ≫= (fun l => l ++ [10]).
Proof.
  induction ls as [|l ls IH]; [done|]. intros _. destruct ls as [|l' ls]; [cbn; by rewrite app_nil_r|].
  change (join_nl (l :: l' :: ls)) with (l ++ 10 :: join_nl (l' :: ls)). rewrite bind_cons, <- IH by done. by rewrite <- !app_assoc.
Qed.

(** *** The block in user.js *)
Lemma elem_of_bind_infix (l : str) ls : l ∈ ls -> exists a b, ls ≫= (fun l => l ++ [10]) = a ++ l ++ b.
Proof.
  intros (l1 & l2 & ->)%list_elem_of_split. rewrite bind_app. cbn. exists (l1 ≫= fun l => l ++ [10]), ([10] ++ (l2 ≫= fun l => l ++ [10])).
  by rewrite <- !app_assoc.
Qed.

(** A line that is the preference names it. *)
Lemma pref_named s l : 13 ∉ s -> l ∈ lines (s ++ [10]) -> is_line FX_PREF l = true -> exists x y, s ++ [10] = x ++ lit "security.enterprise_roots.enabled" ++ y.
Proof.
  intros Hs Hl Ht%bool_decide_eq_true. destruct (text_lines s Hs) as (ls & E & -> & _ & _). rewrite E in Hl.
  destruct (elem_of_bind_infix _ _ Hl) as (a & b & ->). destruct (trim_infix l) as (a' & b' & Hl'). rewrite Ht in Hl'. rewrite Hl'. unfold FX_PREF.
  set (u := lit "user_pref("). set (v := [34] ++ lit ", true);"). set (n := lit "security.enterprise_roots.enabled").
  replace (a ++ (a' ++ (u ++ [34] ++ n ++ v) ++ b') ++ b) with ((a ++ a' ++ u ++ [34]) ++ n ++ (v ++ b' ++ b)) by (by rewrite <- !app_assoc).
  by eexists _, _.
Qed.

Lemma strip_lines_block ls : Forall (fun l => is_line FX_PREF l = false) ls -> strip_lines (ls ++ [FX_MARKER; FX_PREF]) = ls.
Proof.
  induction 1 as [|l ls Hl Hls IH]; [vm_compute; reflexivity|]. destruct Hls as [|p ls Hp Hls].
  - cbn [app strip_lines]. assert (is_line FX_PREF FX_MARKER = false) as -> by (vm_compute; reflexivity). rewrite andb_false_r. cbn [app] in IH. by rewrite <- IH at 2.
  - cbn [app] in *. change (strip_lines (l :: p :: ls ++ [FX_MARKER; FX_PREF])) with
      (if is_line FX_MARKER l && is_line FX_PREF p then strip_lines (ls ++ [FX_MARKER; FX_PREF]) else l :: strip_lines (p :: ls ++ [FX_MARKER; FX_PREF])).
    by rewrite Hp, andb_false_r, IH.
Qed.

Lemma block_found prev ls : block_after prev (ls ++ [FX_MARKER; FX_PREF]) = true.
Proof.
  revert prev. induction ls as [|l ls IH]; intros prev; cbn [app block_after]; [|by destruct (_ && _)].
  assert (is_line FX_PREF FX_MARKER = false) as -> by (vm_compute; reflexivity). rewrite andb_false_r.
  assert (is_line FX_PREF FX_PREF = true) as -> by (vm_compute; reflexivity). rewrite bool_decide_true; [done|vm_compute; reflexivity].
Qed.

Lemma ends_with_snoc s c d : ends_with (s ++ [c]) [d] = (c =? d).
Proof.
  unfold ends_with, starts_with. rewrite reverse_snoc. change (reverse [d]) with [d]. cbn. rewrite (Z.eqb_sym c d). by destruct (d =? c).
Qed.

Lemma contains_infix s p : contains s p = true -> exists x y, s = x ++ p ++ y.
Proof.
  assert (forall s, starts_with s p = true -> exists y, s = p ++ y) as Hst.
  { intros t. unfold starts_with. destruct (strip_prefix p t) as [r|] eqn:E; [|done]. intros _. apply strip_prefix_Some in E. by exists r. }
  induction s as [|c s IH]; cbn [contains]; [rewrite orb_false_r; intros (y & E)%Hst; by exists [], y|].
  intros [(y & E)%Hst|(x & y & ->)%IH]%orb_prop; [by exists [], y|by exists (c :: x), y].
Qed.

(** What is left of a user.js after the block was added and stripped. *)
Definition restored (existing : str) : str :=
  if bool_decide (existing = []) || bool_decide (existing = [10]) then []
  else if ends_with existing [10] then existing else existing ++ [10].

(** The block after a text that ends its last line. *)
Lemma block_added s (new := s ++ [10] ++ FX_MARKER ++ [10] ++ FX_PREF ++ [10]) :
  13 ∉ s -> Forall (fun l => is_line FX_PREF l = false) (lines (s ++ [10])) ->
  contains_our_block new = true /\ strip_enterprise_roots_block new = Some (if bool_decide (s = []) then [] else s ++ [10]).
Proof.
  intros Hs Hp. assert (lines new = lines (s ++ [10]) ++ [FX_MARKER; FX_PREF]) as El.
  { unfold new. cbn [app]. by rewrite lines_app. }
  assert (contains_our_block new = true) as Hc by (unfold contains_our_block; rewrite El; apply block_found).
  split; [done|]. unfold strip_enterprise_roots_block. rewrite Hc, El, strip_lines_block by done. cbn [negb].
  assert (ends_with new [10] = true) as -> by (unfold new; rewrite !app_assoc; by rewrite ends_with_snoc).
  destruct (text_lines s Hs) as (ls & -> & E & _ & Hne). rewrite <- join_nl_snoc in E by done. apply app_inj_tail in E as [E _]. rewrite <- E. cbn [andb].
  case_bool_decide; cbn; congruence.
Qed.

Lemma no_pref_line s : 13 ∉ s -> contains s (lit "security.enterprise_roots.enabled") = false -> Forall (fun l => is_line FX_PREF l = false) (lines (s ++ [10])).
Proof.
  intros Hs Hn. apply Forall_forall. intros l Hl. destruct (is_line FX_PREF l) eqn:E; [|done]. destruct (pref_named s l Hs Hl E) as (x & y & Hxy).
  destruct y as [|c y _] using rev_ind.
  - rewrite app_nil_r in Hxy. change (lit "security.enterprise_roots.enabled") with (lit "security.enterprise_roots.enable" ++ [100]) in Hxy.
    rewrite app_assoc in Hxy. by apply app_inj_tail in Hxy as [_ [=]].
  - rewrite !app_assoc in Hxy. apply app_inj_tail in Hxy as [-> _]. rewrite <- app_assoc, contains_app in Hn. done.
Qed.

(** Lines that are neither the marker nor the preference. *)
Definition other_line (l : str) : Prop := is_line FX_MARKER l = false /\ is_line FX_PREF l = false.
#[global] Instance other_line_dec l : Decision (other_line l).
Proof. unfold other_line. apply _. Defined.

Lemma strip_keeps n ls : (length ls <= n)%nat -> filter other_line (strip_lines ls) = filter other_line ls.
Proof.
  revert ls. induction n as [|n IH]; intros [|l ls] Hn; cbn in Hn; [done|lia|done|]. destruct ls as [|p ls]; [done|].
  change (strip_lines (l :: p :: ls)) with (if is_line FX_MARKER l && is_line FX_PREF p then strip_lines ls else l :: strip_lines (p :: ls)). cbn in Hn.
  destruct (is_line FX_MARKER l && is_line FX_PREF p) eqn:E.
  - apply andb_prop in E as [E1 E2]. rewrite IH by lia. rewrite !filter_cons_False; [done|intros [_ ?]; congruence|intros [? _]; congruence].
  - rewrite !(filter_cons _ l), IH by (cbn; lia). done.
Qed.

(** What is written into a user's user.js can be taken back.  When the block is
    added, it is recognised, a second run adds nothing, and stripping gives the user's text
    back, with the last line ended if it was not and nothing for a text that was one empty
    line; when the user has the preference already, nothing is added and nothing is ever
    stripped; and stripping leaves every other line, in order. *)
Theorem user_js_edits (existing : str) (Hlf : 13 ∉ existing) :
  match add_enterprise_roots_block existing with
  | AddedBlock new => contains_our_block new = true /\ add_enterprise_roots_block new = AlreadyOurs
                      /\ strip_enterprise_roots_block new = Some (restored existing)
  | AlreadyOurs => is_Some (strip_enterprise_roots_block existing)
  | UserOwned => strip_enterprise_roots_block existing = None
  end
  /\ (forall out, strip_enterprise_roots_block existing = Some out ->
      exists kept, filter other_line kept = filter other_line (lines existing)
        /\ (out = join_nl kept \/ out = join_nl kept ++ [10] /\ ends_with existing [10] = true)).
Proof.
  split.
  - unfold add_enterprise_roots_block at 1. destruct (contains_our_block existing) eqn:Ec; [by unfold strip_enterprise_roots_block; rewrite Ec; eexists|].
    destruct (contains existing (lit "security.enterprise_roots.enabled")) eqn:En; [by unfold strip_enterprise_roots_block; rewrite Ec|].
    enough (forall new, contains_our_block new = true /\ strip_enterprise_roots_block new = Some (restored existing) ->
      contains_our_block new = true /\ add_enterprise_roots_block new = AlreadyOurs /\ strip_enterprise_roots_block new = Some (restored existing)) as H.
    { apply H. clear H. unfold restored. destruct existing as [|c s _] using rev_ind; [vm_compute; by split|].
      rewrite bool_decide_false by (by destruct s). cbn [negb andb orb]. rewrite ends_with_snoc. destruct (Z.eqb_spec c 10) as [->|Hc]; cbn [negb].
      - assert (13 ∉ s) as Hs by (intros ?; apply Hlf, elem_of_app; by left).
        assert (contains s (lit "security.enterprise_roots.enabled") = false) as Hn.
        { destruct (contains s _) eqn:E; [|done]. apply contains_infix in E as (x & y & ->). rewrite <- !app_assoc, contains_app in En. done. }
        destruct (block_added s Hs (no_pref_line s Hs Hn)) as [H1 H2]. rewrite <- app_assoc. split; [exact H1|]. rewrite H2. f_equal. destruct s; [done|]. by rewrite bool_decide_false, bool_decide_false by (by destruct s).
      - destruct (block_added (s ++ [c]) Hlf (no_pref_line _ Hlf En)) as [H1 H2]. rewrite <- (app_assoc (s ++ [c])). split; [exact H1|]. rewrite H2.
        rewrite !bool_decide_false; [done|intros E; destruct s as [|? [|]]; simplify_eq/=|by destruct s]. }
    intros new [H1 H2]. split_and!; [done| |done]. unfold add_enterprise_roots_block. by rewrite H1.
  - unfold strip_enterprise_roots_block. intros out H. destruct (contains_our_block existing); [|done]. cbn [negb] in H. injection H as <-.
    exists (strip_lines (lines existing)). split; [by eapply strip_keeps|]. destruct (ends_with existing [10]) eqn:E; [|by left]. by destruct (bool_decide _) eqn:E2; [left|right].
Qed.

(** *** os-release *)

(** A line that assigns [ID] or [ID_LIKE], with the value as it is read. *)
Definition assigns_id (line v : str) : Prop :=
  exists k raw, split_once [61] line = Some (k, raw) /\ trim k ∈ [lit "ID"; lit "ID_LIKE"]
  /\ v = to_ascii_lowercase (trim_matches 39 (trim_matches 34 (trim raw))).

Lemma os_release_ids_from ls ids : forall v, v = fst (os_release_ids ls ids) \/ v = snd (os_release_ids ls ids) ->
  v = fst ids \/ v = snd ids \/ exists line, line ∈ ls /\ assigns_id line v.
Proof.
  revert ids. induction ls as [|line ls IH]; intros ids v Hv; cbn [os_release_ids] in Hv; [naive_solver|].
  destruct (split_once [61] line) as [[k raw]|] eqn:E.
  - destruct (IH _ _ Hv) as [H|[H|(l & Hl & Ha)]]; [| |right; right; exists l; split; [by right|done]].
    all: repeat case_bool_decide; cbn [fst snd] in H; try (by auto); right; right; exists line; (split; [left|]); exists k, raw; (split; [done|]); (split; [|done]);
      rewrite !elem_of_cons; auto.
  - destruct (IH _ _ Hv) as [H|[H|(l & Hl & Ha)]]; [by auto..|]. right; right. exists l. split; [by right|done].
Qed.

Lemma classify_named tokens fs family : classify tokens fs = family -> family <> lit "unknown" ->
  exists names n, (family, names) ∈ fs /\ n ∈ names /\ n ∈ tokens.
Proof.
  intros <- Hu. induction fs as [|[f names] fs IH]; cbn [classify] in *; [done|]. destruct (existsb _ names) eqn:E.
  - apply existsb_exists in E as (n & Hn & Ht%bool_decide_eq_true). exists names, n. split; [left|]. split; [by apply list_elem_of_In|done].
  - destruct (IH Hu) as (names' & n & H1 & H2 & H3). exists names', n. split; [by right|done].
Qed.

(** The family of a distribution is read from the right fields.  When os-release
    gives a family, some line assigns [ID] or [ID_LIKE] a value that has one of the family's
    names as a word of its own; no other field, and no part of a word, counts. *)
Theorem os_release_family (content family : str) (Hf : classify_os_release content = family) (Hu : family <> lit "unknown") :
  exists names n line v, (family, names) ∈ families /\ n ∈ names /\ line ∈ lines content /\ assigns_id line v
  /\ n ∈ split_by (fun c => is_whitespace c || (c =? 44)) v.
Proof.
  destruct (classify_named _ _ _ Hf Hu) as (names & n & Hin & Hn & [Hne Ht]%list_elem_of_filter). exists names, n.
  destruct (os_release_ids (lines content) ([], [])) as [id like] eqn:E. cbn [fst snd] in Ht.
  assert (exists v, (v = id \/ v = like) /\ n ∈ split_by (fun c => is_whitespace c || (c =? 44)) v) as (v & Hv & Hs) by (apply elem_of_app in Ht as [Ht|Ht]; eauto).
  pose proof (os_release_ids_from (lines content) ([], []) v) as H. rewrite E in H. destruct (H Hv) as [->|[->|(line & Hl & Ha)]].
  1,2: by apply list_elem_of_singleton in Hs.
  by exists line, v.
Qed.

(** ** The system *)

(** The file system, the environment and the commands.  A command gives whether it
    succeeded, its output and its error output, or nothing when it cannot be run. *)
Class Os (W : Type) := {
  os_name : str;
  euid : Z;
  env_var : W -> str -> option str;
  set_var : str -> str -> W -> W;
  exists_at : W -> str -> bool;
  is_dir : W -> str -> bool;
  read_dir : W -> str -> option (list str);
  read_to_string : W -> str -> option str;
  write_file : str -> str -> W -> bool * W;
  copy_file : str -> str -> W -> bool * W;
  create_dir_all : str -> W -> bool * W;
  remove_file : str -> W -> bool * W;
  remove_dir_all : str -> W -> bool * W;
  command : list str -> W -> option (bool * bytes * bytes) * W;
  to_lowercase : str -> str
}.

(** A program: what it returns, and the state it leaves. *)
Definition M (W A : Type) : Type := W -> A * W.
#[local] Instance M_ret {W} : MRet (M W) := fun A a w => (a, w).
#[local] Instance M_bind {W} : MBind (M W) := fun A B k m w => let '(a, w) := m w in k a w.

Fixpoint for_each {W A} (l : list A) (f : A -> M W unit) : M W unit :=
  match l with [] => mret () | x :: l => f x;; for_each l f end.

(** A program that leaves the state. *)
Definition asks {W A} (f : W -> A) : M W A := fun w => (f w, w).

(** A program that changes it; a fallible operation of the system as a program. *)
Definition modify {W} (f : W -> W) : M W unit := fun w => ((), f w).
Definition act {W A} (f : W -> A * W) : M W A := f.

(** [a || b] on programs. *)
Definition or_else {W} (a b : M W bool) : M W bool := ok ← a; if ok : bool then mret true else b.

(** [Path::join] of a file name. *)
Definition path_join (os base name : str) : str :=
  let sep := if bool_decide (os = lit "windows") then 92 else 47 in
  if bool_decide (base = []) then name
  else if ends_with base [sep] then base ++ name else base ++ sep :: name.

Definition CERT_NAME : str := lit "rahgozar".
Definition LEGACY_CERT_NAMES : list str := [lit "MasterHttpRelayVPN"].
Definition CA_DIR : str := lit "ca".
Definition known_cert_names : list str := CERT_NAME :: LEGACY_CERT_NAMES.

Inductive InstallError := NotFound (path : str) | Failed | Unsupported (os : str) | IoError (path : str) | RemovalIncomplete.

Record NssReport := mkNss { tried : Z; ok_count : Z; tool_missing_with_stores_present : bool }.
Definition is_clean (r : NssReport) : bool := negb (tool_missing_with_stores_present r) && (tried r =? ok_count r).
Inductive RemovalOutcome := Clean | NssIncomplete (r : NssReport).

Definition summary (o : RemovalOutcome) : str :=
  match o with
  | Clean => lit "CA removed."
  | NssIncomplete r =>
    if tool_missing_with_stores_present r then lit "OS CA removed. NSS cleanup skipped " ++ [8212] ++ lit " NSS certutil not found."
    else lit "OS CA removed. NSS cleanup partial: " ++ dec_string (ok_count r) ++ lit "/" ++ dec_string (tried r) ++ lit " browser stores updated."
  end.

Section Programs.
Context {W : Type} `{!Os W}.

(** ** The commands *)

Definition run_cmd (args : list str) : M W bool :=
  if bool_decide (args = []) then mret false else
  o ← act $ command args; mret (match o with Some (ok, _, _) => ok | None => false end).

(** ** sudo *)

Definition resolve_home (sudo_user : str) : M W (option str) :=
  sh ← asks (fun w => env_var w (lit "SUDO_HOME"));
  match sh with
  | Some (c :: h) => mret (Some (c :: h))
  | _ =>
    out ← act $ command [lit "getent"; lit "passwd"; sudo_user];
    match (match out with Some (true, stdout, _) => sudo_parse_passwd_home (from_utf8_lossy stdout) | _ => None end) with
    | Some h => mret (Some h)
    | None =>
      asks (fun w => head (filter (fun c => exists_at w c = true) ((fun root => root ++ lit "/" ++ sudo_user) <$> [lit "/Users"; lit "/home"])))
    end
  end.

Definition reconcile_sudo_home : M W unit :=
  raw ← asks (fun w => env_var w (lit "SUDO_USER"));
  match should_reconcile_for euid raw with
  | None => mret ()
  | Some user =>
    h ← resolve_home user;
    match h with Some home => modify (set_var (lit "HOME") home) | None => mret () end
  end.

(** ** macOS *)

Definition login_keychain : M W str :=
  asks (fun w =>
    let home := default [] (env_var w (lit "HOME")) in
    let db := home ++ lit "/Library/Keychains/login.keychain-db" in
    if exists_at w db then db else home ++ lit "/Library/Keychains/login.keychain").
Definition SYSTEM_KEYCHAIN : str := lit "/Library/Keychains/System.keychain".

Definition install_macos (cert_path : str) : M W bool :=
  kc ← login_keychain;
  or_else (run_cmd [lit "security"; lit "add-trusted-cert"; lit "-d"; lit "-r"; lit "trustRoot"; lit "-k"; kc; cert_path])
    (run_cmd [lit "sudo"; lit "security"; lit "add-trusted-cert"; lit "-d"; lit "-r"; lit "trustRoot"; lit "-k"; SYSTEM_KEYCHAIN; cert_path]).

(** The output of a command that looks for something: it succeeded and printed. *)
Definition finds (args : list str) : M W bool :=
  o ← act $ command args; mret (match o with Some (ok, stdout, _) => ok && negb (bool_decide (stdout = [])) | None => false end).

Definition macos_system_keychain_has (name : str) : M W bool :=
  finds [lit "security"; lit "find-certificate"; lit "-a"; lit "-c"; name; SYSTEM_KEYCHAIN].

Definition remove_macos (name : str) : M W unit :=
  kc ← login_keychain;
  _ ← run_cmd [lit "security"; lit "delete-certificate"; lit "-c"; name; kc];
  has ← macos_system_keychain_has name;
  if has : bool then _ ← run_cmd [lit "sudo"; lit "security"; lit "delete-certificate"; lit "-c"; name; SYSTEM_KEYCHAIN]; mret () else mret ().

Definition is_trusted_macos_one (name : str) : M W bool := finds [lit "security"; lit "find-certificate"; lit "-a"; lit "-c"; name].

(** ** Linux *)

Definition detect_linux_distro : M W str :=
  asks (fun w =>
    if exists_at w (lit "/etc/openwrt_release") then lit "openwrt"
    else if exists_at w (lit "/etc/debian_version") then lit "debian"
    else if exists_at w (lit "/etc/redhat-release") || exists_at w (lit "/etc/fedora-release") then lit "rhel"
    else if exists_at w (lit "/etc/arch-release") then lit "arch"
    else match read_to_string w (lit "/etc/os-release") with Some content => classify_os_release content | None => lit "unknown" end).

(** [Path::parent] of a path with a directory. *)
Definition parent (p : str) : option str := fst <$> rsplit_once 47 p.

Fixpoint run_all (sudo : list str) (cmds : list (list str)) : M W bool :=
  match cmds with
  | [] => mret true
  | c :: cmds => ok ← run_cmd (sudo ++ c); if ok : bool then run_all sudo cmds else mret false
  end.

Definition try_copy_and_run (src dest : str) (cmds : list (list str)) : M W bool :=
  ok ← match parent dest with Some d => act (create_dir_all d) | None => mret true end;
  ok ← (if ok : bool then act (copy_file src dest) else mret false);
  ok ← (if ok : bool then run_all [] cmds else mret false);
  if ok : bool then mret true else
  ok ← run_cmd [lit "sudo"; lit "cp"; src; dest];
  if ok : bool then run_all [lit "sudo"] cmds else mret false.

Definition replace_spaces (s : str) : str := (fun c => if c =? 32 then 95 else c) <$> s.

(** The directories of anchors, each with its refresh command. *)
Definition anchors : list (str * list str) :=
  [(lit "/usr/local/share/ca-certificates", [lit "update-ca-certificates"]);
   (lit "/etc/pki/ca-trust/source/anchors", [lit "update-ca-trust"; lit "extract"]);
   (lit "/etc/ca-certificates/trust-source/anchors", [lit "trust"; lit "extract-compat"])].

Definition anchor_file (dir name : str) : str := dir ++ lit "/" ++ replace_spaces name ++ lit ".crt".

Definition install_linux (cert_path : str) : M W bool :=
  distro ← detect_linux_distro;
  let install (i : nat) := match anchors !! i with Some (dir, refresh) => try_copy_and_run cert_path (anchor_file dir CERT_NAME) [refresh] | None => mret false end in
  if bool_decide (distro = lit "debian") then install 0%nat
  else if bool_decide (distro = lit "rhel") then install 1%nat
  else if bool_decide (distro = lit "arch") then install 2%nat
  else mret (bool_decide (distro = lit "openwrt")).

(** The loop over the directories; [all_ok] so far. *)
Fixpoint remove_anchors (name : str) (as_ : list (str * list str)) (all_ok : bool) : M W bool :=
  match as_ with
  | [] => mret all_ok
  | (dir, refresh) :: as_ =>
    here ← asks (fun w => exists_at w dir);
    if negb here then remove_anchors name as_ all_ok else
    let path := anchor_file dir name in
    present ← asks (fun w => exists_at w path);
    deleted ← (if present : bool then or_else (act (remove_file path)) (run_cmd [lit "sudo"; lit "rm"; lit "-f"; path]) else mret true);
    if negb deleted then remove_anchors name as_ false else
    refreshed ← or_else (run_cmd refresh) (run_cmd (lit "sudo" :: refresh));
    remove_anchors name as_ (all_ok && refreshed)
  end.
Definition remove_linux (name : str) : M W bool := remove_anchors name anchors true.

Definition LINUX_TRUST_DIRS : list str :=
  (fst <$> anchors) ++ [lit "/etc/ssl/certs"; lit "/etc/pki/ca-trust/extracted/pem/directory-hash"; lit "/etc/ca-certificates/extracted/cadir"].

Definition is_trusted_linux_one (name : str) : M W bool :=
  asks (fun w => existsb (fun d => existsb (fun s => contains (to_lowercase s) (to_lowercase name)) (default [] (read_dir w d))) LINUX_TRUST_DIRS).

(** ** Windows *)

Definition windows_store_has (user : bool) (name : str) : M W bool :=
  o ← act $ command (lit "certutil" :: (if user then [lit "-user"] else []) ++ [lit "-store"; lit "Root"; name]);
  mret (match o with
        | Some (ok, stdout, _) => ok && contains (to_ascii_lowercase (from_utf8_lossy stdout)) (to_ascii_lowercase name)
        | None => false
        end).

Definition is_trusted_windows_one (name : str) : M W bool := or_else (windows_store_has true name) (windows_store_has false name).

Definition install_windows (cert_path : str) : M W bool :=
  or_else (run_cmd [lit "certutil"; lit "-addstore"; lit "-user"; lit "Root"; cert_path])
    (run_cmd [lit "certutil"; lit "-addstore"; lit "Root"; cert_path]).

Definition remove_windows (name : str) : M W unit :=
  u ← windows_store_has true name;
  (if u : bool then _ ← run_cmd [lit "certutil"; lit "-delstore"; lit "-user"; lit "Root"; name]; mret () else mret ());;
  m ← windows_store_has false name;
  if m : bool then _ ← run_cmd [lit "certutil"; lit "-delstore"; lit "Root"; name]; mret () else mret ().

Definition is_ca_trusted_by_subject (name : str) : M W bool :=
  if bool_decide (os_name = lit "macos") then is_trusted_macos_one name
  else if bool_decide (os_name = lit "linux") then is_trusted_linux_one name
  else if bool_decide (os_name = lit "windows") then is_trusted_windows_one name
  else mret false.

(** [known_cert_names().any(..)] *)
Fixpoint any_trusted (names : list str) : M W bool :=
  match names with [] => mret false | n :: names => or_else (is_ca_trusted_by_subject n) (any_trusted names) end.
Definition is_ca_trusted_by_name : M W bool := any_trusted known_cert_names.

Definition is_ca_trusted (path : str) : M W bool :=
  here ← asks (fun w => exists_at w path); if negb here then mret false else is_ca_trusted_by_name.

(** ** Browsers *)

Definition mozilla_family_profile_roots (os home : str) (appdata xdg_config_home : option str) : list str :=
  if bool_decide (os = lit "macos") then
    [home ++ lit "/Library/Application Support/Firefox/Profiles"; home ++ lit "/Library/Application Support/LibreWolf/Profiles"]
  else if bool_decide (os = lit "linux") then
    let xdg := match xdg_config_home with Some (c :: v) => c :: v | _ => home ++ lit "/.config" end in
    let flatpak_home := home ++ lit "/.var/app/io.gitlab.librewolf-community" in
    [home ++ lit "/.mozilla/firefox"; home ++ lit "/snap/firefox/common/.mozilla/firefox"; home ++ lit "/.librewolf";
     xdg ++ lit "/librewolf/librewolf"; flatpak_home ++ lit "/.librewolf"; flatpak_home ++ lit "/.config/librewolf/librewolf";
     home ++ lit "/.mozilla/icecat"]
  else if bool_decide (os = lit "windows") then
    match appdata with
    | Some a => [a ++ lit "\Mozilla\Firefox\Profiles"; a ++ lit "\LibreWolf\Profiles"]
    | None => []
    end
  else [].

(** The database of an NSS store in a directory: the new form, the old one, or none. *)
Definition nss_prefix (w : W) (dir : str) : option str :=
  if exists_at w (path_join os_name dir (lit "cert9.db")) then Some (lit "sql:")
  else if exists_at w (path_join os_name dir (lit "cert8.db")) then Some [] else None.

Definition discover_profile_dirs (w : W) (roots : list str) : list str :=
  roots ≫= fun root =>
    filter (fun p => is_dir w p = true /\ is_Some (nss_prefix w p)) (path_join os_name root <$> default [] (read_dir w root)).

Definition mozilla_family_profile_dirs : M W (list str) :=
  asks (fun w => discover_profile_dirs w (mozilla_family_profile_roots os_name (default [] (env_var w (lit "HOME")))
    (env_var w (lit "APPDATA")) (env_var w (lit "XDG_CONFIG_HOME")))).

Definition user_js (profile : str) : str := path_join os_name profile (lit "user.js").

Definition enable_mozilla_enterprise_roots : M W unit :=
  ps ← mozilla_family_profile_dirs;
  for_each ps (fun p =>
    existing ← asks (fun w => default [] (read_to_string w (user_js p)));
    match add_enterprise_roots_block existing with
    | AddedBlock new => _ ← act $ write_file (user_js p) new; mret ()
    | _ => mret ()
    end).

Definition disable_mozilla_enterprise_roots : M W unit :=
  ps ← mozilla_family_profile_dirs;
  for_each ps (fun p =>
    existing ← asks (fun w => read_to_string w (user_js p));
    match existing ≫= strip_enterprise_roots_block with
    | Some new => _ ← act $ write_file (user_js p) new; mret ()
    | None => mret ()
    end).

Definition has_nss_certutil : M W bool :=
  o ← act $ command [lit "certutil"; lit "--help"];
  mret (match o with
        | Some (_, stdout, stderr) => contains (to_ascii_lowercase (from_utf8_lossy stderr ++ from_utf8_lossy stdout)) (lit "nickname")
        | None => false
        end).

(** Linux only. *)
Definition chrome_nssdb_path : M W (option str) :=
  if bool_decide (os_name = lit "linux") then asks (fun w => (.++ lit "/.pki/nssdb") <$> env_var w (lit "HOME")) else mret None.

Definition install_nss_in_dir (dir_arg cert_path : str) : M W bool :=
  _ ← act $ command [lit "certutil"; lit "-D"; lit "-n"; CERT_NAME; lit "-d"; dir_arg];
  run_cmd [lit "certutil"; lit "-A"; lit "-n"; CERT_NAME; lit "-t"; lit "C,,"; lit "-d"; dir_arg; lit "-i"; cert_path].

Definition install_nss_in_profile (profile cert_path : str) : M W bool :=
  pre ← asks (fun w => nss_prefix w profile);
  match pre with Some prefix => install_nss_in_dir (prefix ++ profile) cert_path | None => mret false end.

Definition install_nss_stores (cert_path : str) : M W unit :=
  enable_mozilla_enterprise_roots;;
  tool ← has_nss_certutil;
  if negb tool then mret () else
  ps ← mozilla_family_profile_dirs;
  for_each ps (fun p => _ ← install_nss_in_profile p cert_path; mret ());;
  nssdb ← chrome_nssdb_path;
  match nssdb with
  | None => mret ()
  | Some db =>
    pre ← asks (fun w => nss_prefix w db);
    (if bool_decide (pre = None) then
       _ ← act $ create_dir_all db;
       _ ← act $ command [lit "certutil"; lit "-N"; lit "-d"; lit "sql:" ++ db; lit "--empty-password"]; mret ()
     else mret ());;
    _ ← install_nss_in_dir (lit "sql:" ++ db) cert_path; mret ()
  end.

Definition is_nss_not_found (stderr : str) : bool :=
  let s := to_ascii_lowercase stderr in
  contains s (lit "could not find cert") || contains s (lit "could not find a certificate").

Definition remove_nss_in_dir (dir_arg name : str) : M W bool :=
  o ← act $ command [lit "certutil"; lit "-L"; lit "-n"; name; lit "-d"; dir_arg];
  match o with
  | Some (true, _, _) => run_cmd [lit "certutil"; lit "-D"; lit "-n"; name; lit "-d"; dir_arg]
  | Some (false, _, stderr) => mret (is_nss_not_found (from_utf8_lossy stderr))
  | None => mret false
  end.

Definition remove_nss_in_profile (profile name : str) : M W bool :=
  pre ← asks (fun w => nss_prefix w profile);
  match pre with Some prefix => remove_nss_in_dir (prefix ++ profile) name | None => mret false end.

(** Each attempt adds to the report. *)
Fixpoint count_all (l : list (M W bool)) (r : NssReport) : M W NssReport :=
  match l with
  | [] => mret r
  | m :: l => ok ← m; count_all l (mkNss (tried r + 1) (ok_count r + (if ok : bool then 1 else 0)) (tool_missing_with_stores_present r))
  end.

Definition remove_nss_stores : M W NssReport :=
  disable_mozilla_enterprise_roots;;
  tool ← has_nss_certutil;
  ps ← mozilla_family_profile_dirs;
  nssdb ← chrome_nssdb_path;
  pre ← asks (fun w => db ← nssdb; nss_prefix w db);
  if negb tool then mret (mkNss 0 0 (negb (bool_decide (ps = [])) || negb (bool_decide (pre = None)))) else
  r ← count_all (ps ≫= fun p => remove_nss_in_profile p <$> known_cert_names) (mkNss 0 0 false);
  nssdb ← chrome_nssdb_path;
  pre ← asks (fun w => db ← nssdb; nss_prefix w db);
  match nssdb, pre with
  | Some db, Some _ => count_all (remove_nss_in_dir (lit "sql:" ++ db) <$> known_cert_names) r
  | _, _ => mret r
  end.

(** ** Installing and removing *)

Definition install_ca (path : str) : M W (res unit InstallError) :=
  here ← asks (fun w => exists_at w path);
  if negb here then mret (Err (NotFound path)) else
  let finish (ok : bool) : M W (res unit InstallError) := install_nss_stores path;; mret (if ok then Ok tt else Err Failed) in
  if bool_decide (os_name = lit "macos") then ok ← install_macos path; finish ok
  else if bool_decide (os_name = lit "linux") then ok ← install_linux path; finish ok
  else if bool_decide (os_name = lit "windows") then ok ← install_windows path; finish ok
  else mret (Err (Unsupported os_name)).

(** [any_ok |= remove_linux(name)] *)
Fixpoint remove_linux_all (names : list str) (any_ok : bool) : M W bool :=
  match names with [] => mret any_ok | n :: names => ok ← remove_linux n; remove_linux_all names (any_ok || ok) end.

(** The system's store: whether the platform reports that all went well. *)
Definition remove_from_os : M W (res bool InstallError) :=
  if bool_decide (os_name = lit "macos") then for_each known_cert_names remove_macos;; mret (Ok true)
  else if bool_decide (os_name = lit "linux") then ok ← remove_linux_all known_cert_names false; mret (Ok ok)
  else if bool_decide (os_name = lit "windows") then for_each known_cert_names remove_windows;; mret (Ok true)
  else mret (Err (Unsupported os_name)).

Definition remove_ca (base : str) : M W (res RemovalOutcome InstallError) :=
  platform ← remove_from_os;
  match platform with
  | Err e => mret (Err e)
  | Panic => mret Panic
  | Ok platform_ok =>
    trusted ← (if negb platform_ok then mret true else is_ca_trusted_by_name);
    if trusted : bool then mret (Err RemovalIncomplete) else
    nss ← remove_nss_stores;
    let ca_dir := path_join os_name base CA_DIR in
    here ← asks (fun w => exists_at w ca_dir);
    ok ← (if here : bool then act (remove_dir_all ca_dir) else mret true);
    if negb ok then mret (Err (IoError ca_dir))
    else mret (Ok (if is_clean nss then Clean else NssIncomplete nss))
  end.
End Programs.

(** ** What the programs promise *)

Lemma bind_run {W A B} (m : M W A) (k : A -> M W B) w a w1 : m w = (a, w1) -> (m ≫= k) w = k a w1.
Proof. intros H. unfold mbind, M_bind. by rewrite H. Qed.

(** A property of the state that a program keeps. *)
Definition keeps {W A} (P : W -> Prop) (m : M W A) : Prop := forall w, P w -> P (snd (m w)).

Lemma keeps_ret {W A} P (a : A) : keeps P (mret a : M W A).
Proof. by intros w. Qed.
Lemma keeps_asks {W A} P (f : W -> A) : keeps P (asks f).
Proof. by intros w. Qed.
Lemma keeps_bind {W A B} P (m : M W A) (k : A -> M W B) : keeps P m -> (forall a, keeps P (k a)) -> keeps P (m ≫= k).
Proof. intros H1 H2 w Hw. unfold mbind, M_bind. specialize (H1 w Hw). destruct (m w) as [a w1]. by apply H2. Qed.
Lemma keeps_if {W A} P (b : bool) (m n : M W A) : keeps P m -> keeps P n -> keeps P (if b then m else n).
Proof. by destruct b. Qed.
Lemma keeps_or {W} P (m n : M W bool) : keeps P m -> keeps P n -> keeps P (or_else m n).
Proof. intros H1 H2. apply keeps_bind; [done|]. intros [|]; [apply keeps_ret|done]. Qed.
Lemma keeps_for {W A} P (l : list A) (f : A -> M W unit) : (forall x, keeps P (f x)) -> keeps P (for_each l f).
Proof. intros H. induction l; cbn; [apply keeps_ret|]. by apply keeps_bind. Qed.

Create HintDb keep.
#[export] Hint Resolve keeps_ret keeps_asks keeps_bind keeps_if keeps_or keeps_for : keep.

Ltac keep_steps := repeat first [solve [auto with keep]|progress intros|apply keeps_or|apply keeps_bind|apply keeps_if].

(** The commands that the programs run do not write the files in [own], which are not
    anchors; removing a file removes that file. *)
Class OsFrame {W} `{!Os W} (own : str -> Prop) := {
  of_command args w p : own p -> read_to_string (snd (command args w)) p = read_to_string w p;
  of_remove q w p : own p -> p <> q -> read_to_string (snd (remove_file q w)) p = read_to_string w p;
  of_not_anchor p dir refresh name : own p -> (dir, refresh) ∈ anchors -> p <> anchor_file dir name
}.

Section Frame.
Context {W : Type} `{!Os W} (own : str -> Prop) `{!OsFrame own}.

(** The user's files are those of [w0]. *)
Definition same_files (w0 w : W) : Prop := forall p, own p -> read_to_string w p = read_to_string w0 p.

Lemma command_keeps w0 args : keeps (same_files w0) (act (command args)).
Proof. intros w Hw p Hp. unfold act. rewrite of_command by done. by apply Hw. Qed.
#[local] Hint Resolve command_keeps : keep.

Lemma run_cmd_keeps w0 args : keeps (same_files w0) (run_cmd args).
Proof. unfold run_cmd. auto with keep. Qed.
#[local] Hint Resolve run_cmd_keeps : keep.

Lemma remove_anchors_keeps w0 name as_ all_ok : incl as_ anchors -> keeps (same_files w0) (remove_anchors name as_ all_ok).
Proof.
  revert all_ok. induction as_ as [|[dir refresh] as_ IH]; intros all_ok Hin; [apply keeps_ret|]. cbn [remove_anchors].
  assert (incl as_ anchors) as Hin' by (intros x Hx; apply Hin; by right).
  assert (keeps (same_files w0) (act (remove_file (anchor_file dir name)))) as Hrm.
  { intros w Hw p Hp. unfold act. rewrite of_remove; [by apply Hw|done|]. eapply of_not_anchor; [done|]. apply list_elem_of_In, Hin. by left. }
  keep_steps.
Qed.

Lemma remove_from_os_keeps w0 : keeps (same_files w0) remove_from_os.
Proof.
  unfold remove_from_os. apply keeps_if; [|apply keeps_if; [|apply keeps_if]].
  - apply keeps_bind; [|auto with keep]. apply keeps_for. intros name. unfold remove_macos, macos_system_keychain_has, finds, login_keychain.
    keep_steps.
  - apply keeps_bind; [|auto with keep]. generalize false. induction known_cert_names as [|n ns IH]; intros b; [apply keeps_ret|].
    cbn [remove_linux_all]. apply keeps_bind; [|auto]. unfold remove_linux. apply remove_anchors_keeps. by intros x.
  - apply keeps_bind; [|auto with keep]. apply keeps_for. intros name. unfold remove_windows, windows_store_has.
    keep_steps.
  - apply keeps_ret.
Qed.

Lemma any_trusted_keeps w0 names : keeps (same_files w0) (any_trusted names).
Proof.
  induction names as [|n names IH]; cbn; [apply keeps_ret|]. apply keeps_or; [|done].
  unfold is_ca_trusted_by_subject, is_trusted_macos_one, is_trusted_linux_one, is_trusted_windows_one, finds, windows_store_has. auto 10 with keep.
Qed.

(** No file of the directories of trust bears a name of ours. *)
Definition dirs_clean (w : W) : Prop :=
  forall name d s, name ∈ known_cert_names -> d ∈ LINUX_TRUST_DIRS -> s ∈ default [] (read_dir w d) -> contains (to_lowercase s) (to_lowercase name) = false.

Lemma any_trusted_linux names w : os_name = lit "linux" ->
  any_trusted names w = (existsb (fun n => fst (is_trusted_linux_one n w)) names, w).
Proof.
  intros E. induction names as [|n names IH]; [done|]. cbn [any_trusted]. unfold or_else.
  rewrite (bind_run _ _ w (fst (is_trusted_linux_one n w)) w); [|unfold is_ca_trusted_by_subject; rewrite E; reflexivity].
  cbn [existsb]. destruct (fst (is_trusted_linux_one n w)); [done|exact IH].
Qed.

End Frame.

(** ** The merged bundle *)

Definition anchor_path (p : str) : Prop := exists dir refresh name, (dir, refresh) ∈ anchors /\ (p = dir \/ p = anchor_file dir name).

(** [m] deletes the file [q], or fails; it leaves the other anchors and the bundles. *)
Definition deletes {W} `{!Os W} (bundle : W -> str -> list str) (q : str) (m : M W bool) : Prop := forall w,
  (forall p, anchor_path p -> p <> q -> exists_at (snd (m w)) p = exists_at w p) /\ (fst (m w) = true -> exists_at (snd (m w)) q = false)
  /\ (exists_at w q = false -> exists_at (snd (m w)) q = false) /\ (forall d, bundle (snd (m w)) d = bundle w d).

(** The names that the trust of a directory of anchors was merged from.  A refresh leaves the
    anchors and the bundles of the other directories; it brings no name into the bundle that
    has no anchor, and when it succeeds, the bundle of its directory holds only what has an
    anchor there. *)
Class OsRefresh {W} `{!Os W} (bundle : W -> str -> list str) := {
  or_remove q : deletes bundle q (act (remove_file q));
  or_sudo_rm q : deletes bundle q (run_cmd [lit "sudo"; lit "rm"; lit "-f"; q]);
  or_keeps dir refresh sudo w p : (dir, refresh) ∈ anchors -> sudo = [] \/ sudo = [lit "sudo"] -> anchor_path p ->
    exists_at (snd (run_cmd (sudo ++ refresh) w)) p = exists_at w p;
  or_others dir refresh sudo w d : (dir, refresh) ∈ anchors -> sudo = [] \/ sudo = [lit "sudo"] -> d <> dir ->
    bundle (snd (run_cmd (sudo ++ refresh) w)) d = bundle w d;
  or_adds dir refresh sudo w name : (dir, refresh) ∈ anchors -> sudo = [] \/ sudo = [lit "sudo"] ->
    name ∈ bundle (snd (run_cmd (sudo ++ refresh) w)) dir -> name ∈ bundle w dir \/ exists_at w (anchor_file dir name) = true;
  or_refreshed dir refresh sudo w name : (dir, refresh) ∈ anchors -> sudo = [] \/ sudo = [lit "sudo"] -> fst (run_cmd (sudo ++ refresh) w) = true ->
    name ∈ bundle (snd (run_cmd (sudo ++ refresh) w)) dir -> exists_at w (anchor_file dir name) = true
}.

Section Refresh.
Context {W : Type} `{!Os W} (bundle : W -> str -> list str) `{!OsRefresh bundle}.

Lemma deletes_or q (m n : M W bool) : deletes bundle q m -> deletes bundle q n -> deletes bundle q (or_else m n).
Proof.
  intros Hm Hn w. destruct (Hm w) as (M1 & M2 & M3 & M4). unfold or_else. destruct (m w) as [a w1] eqn:E. rewrite (bind_run _ _ _ _ _ E). cbn [fst snd] in *.
  destruct a; [done|]. destruct (Hn w1) as (N1 & N2 & N3 & N4). split_and!; [intros p H1 H2; by rewrite N1, M1|done|auto|intros d; by rewrite N4].
Qed.

(** The refresh, with sudo when it fails without. *)
Lemma refresh_spec dir refresh w (r := or_else (run_cmd refresh) (run_cmd (lit "sudo" :: refresh)) w) : (dir, refresh) ∈ anchors ->
  (forall p, anchor_path p -> exists_at (snd r) p = exists_at w p) /\ (forall d, d <> dir -> bundle (snd r) d = bundle w d)
  /\ (forall name, fst r = true -> name ∈ bundle (snd r) dir -> exists_at w (anchor_file dir name) = true).
Proof.
  intros Hin. unfold r, or_else. pose proof (or_keeps dir refresh [] w) as K1. pose proof (or_others dir refresh [] w) as O1. pose proof (or_refreshed dir refresh [] w) as R1.
  cbn [app] in *. destruct (run_cmd refresh w) as [a w1] eqn:E. rewrite (bind_run _ _ _ _ _ E). cbn [fst snd] in *.
  destruct a; [split_and!; [intros; by apply K1; [|left|]|intros; by apply O1; [|left|]|intros; by apply R1; [|left|..]]|].
  split_and!.
  - intros p Hp. rewrite <- (K1 p) by (done || by left). by apply (or_keeps dir refresh [lit "sudo"]); [|right|].
  - intros d Hd. rewrite <- (O1 d) by (done || by left). by apply (or_others dir refresh [lit "sudo"]); [|right|].
  - intros name Hok Hn. rewrite <- (K1 (anchor_file dir name)); [|done|by left|by exists dir, refresh, name; auto].
    by apply (or_refreshed dir refresh [lit "sudo"] w1 name); [|right|..].
Qed.

(** Deleting the anchor of [name] in [dir] when there is one. *)
Lemma delete_step dir name w (m := if exists_at w (anchor_file dir name) then or_else (act (remove_file (anchor_file dir name))) (run_cmd [lit "sudo"; lit "rm"; lit "-f"; anchor_file dir name]) else mret true) :
  (forall p, anchor_path p -> p <> anchor_file dir name -> exists_at (snd (m w)) p = exists_at w p)
  /\ (fst (m w) = true -> exists_at (snd (m w)) (anchor_file dir name) = false) /\ (forall d, bundle (snd (m w)) d = bundle w d).
Proof.
  unfold m. destruct (exists_at w (anchor_file dir name)) eqn:E; [|done].
  destruct (deletes_or _ _ _ (or_remove (anchor_file dir name)) (or_sudo_rm (anchor_file dir name)) w) as (H1 & H2 & _ & H4). by split_and!.
Qed.

Lemma anchor_dirs d d' r r' name : (d, r) ∈ anchors -> (d', r') ∈ anchors -> d' <> anchor_file d name.
Proof.
  intros H1 H2 E. assert (last d' <> last (lit ".crt")) as Hl by (revert H2; unfold anchors; rewrite !elem_of_cons, elem_of_nil; intros [[= -> _]|[[= -> _]|[[= -> _]|[]]]]; vm_compute; congruence).
  apply Hl. rewrite E. unfold anchor_file. rewrite !last_app. done.
Qed.

(** What a removal of [name] leaves of it in a directory of anchors: no anchor, and nothing in
    the bundle. *)
Definition gone_in (dir name : str) (w : W) : Prop :=
  exists_at w dir = true -> exists_at w (anchor_file dir name) = false /\ name ∉ bundle w dir.

Lemma is_anchor_path dir refresh name : (dir, refresh) ∈ anchors -> anchor_path dir /\ anchor_path (anchor_file dir name).
Proof. intros H. split; exists dir, refresh, name; auto. Qed.

Lemma deletes_keeps dir refresh name d' r' n' (m : M W bool) : (dir, refresh) ∈ anchors -> (d', r') ∈ anchors -> deletes bundle (anchor_file d' n') m ->
  keeps (gone_in dir name) m /\ keeps (fun w => exists_at w dir = true) m.
Proof.
  intros Ha Ha' Hm. destruct (is_anchor_path dir refresh name Ha) as [P1 P2].
  split; intros w Hw; destruct (Hm w) as (D1 & _ & D3 & D4).
  - intros Hdir. rewrite D1 in Hdir by (done || by eapply anchor_dirs). destruct (Hw Hdir) as [W1 W2]. rewrite D4. split; [|done].
    destruct (decide (anchor_file dir name = anchor_file d' n')) as [E|E]; [rewrite E in *; by apply D3|by rewrite D1].
  - by rewrite D1 by (done || by eapply anchor_dirs).
Qed.

Lemma refresh_keeps dir r0 name d' refresh sudo : (dir, r0) ∈ anchors -> (d', refresh) ∈ anchors -> sudo = [] \/ sudo = [lit "sudo"] ->
  keeps (gone_in dir name) (run_cmd (sudo ++ refresh)) /\ keeps (fun w => exists_at w dir = true) (run_cmd (sudo ++ refresh)).
Proof.
  intros Ha Ha' Hs. destruct (is_anchor_path dir r0 name Ha) as [P1 P2]. split; intros w Hw; [|by rewrite (or_keeps d')].
  intros Hdir. rewrite (or_keeps d') in Hdir by done. destruct (Hw Hdir) as [W1 W2]. rewrite (or_keeps d') by done. split; [done|].
  destruct (decide (dir = d')) as [->|Hne]; [|by rewrite (or_others d')]. intros [H|H]%or_adds; [done|congruence|done|done].
Qed.

Lemma remove_anchors_frame dir r0 name n' as_ all_ok : (dir, r0) ∈ anchors -> incl as_ anchors ->
  keeps (gone_in dir name) (remove_anchors n' as_ all_ok) /\ keeps (fun w => exists_at w dir = true) (remove_anchors n' as_ all_ok).
Proof.
  intros Ha. revert all_ok. induction as_ as [|[d' refresh] as_ IH]; intros all_ok Hin; [split; apply keeps_ret|]. cbn [remove_anchors].
  assert (incl as_ anchors) as Hin' by (intros x Hx; apply Hin; by right).
  assert ((d', refresh) ∈ anchors) as Ha' by (apply list_elem_of_In, Hin; by left).
  destruct (deletes_keeps dir r0 name d' refresh n' _ Ha Ha' (or_remove _)) as [A1 A2].
  destruct (deletes_keeps dir r0 name d' refresh n' _ Ha Ha' (or_sudo_rm _)) as [B1 B2].
  destruct (refresh_keeps dir r0 name d' refresh [] Ha Ha' ltac:(by left)) as [C1 C2]. cbn [app] in C1, C2.
  destruct (refresh_keeps dir r0 name d' refresh [lit "sudo"] Ha Ha' ltac:(by right)) as [D1 D2]. cbn [app] in D1, D2.
  assert (forall b, keeps (gone_in dir name) (remove_anchors n' as_ b)) as I1 by (intros b; by apply IH).
  assert (forall b, keeps (fun w => exists_at w dir = true) (remove_anchors n' as_ b)) as I2 by (intros b; by apply IH).
  split; keep_steps.
Qed.

(** A removal of [name] that reports success has removed it everywhere. *)
Lemma remove_anchors_gone name as_ : incl as_ anchors -> forall all_ok w w', remove_anchors name as_ all_ok w = (true, w') ->
  all_ok = true /\ forall dir refresh, (dir, refresh) ∈ as_ -> gone_in dir name w'.
Proof.
  induction as_ as [|[dir refresh] as_ IH]; intros Hin all_ok w w' H.
  { injection H as -> <-. split; [done|]. by intros ? ? ?%elem_of_nil. }
  assert ((dir, refresh) ∈ anchors) as Ha by (apply list_elem_of_In, Hin; by left).
  assert (incl as_ anchors) as Hin' by (intros x Hx; apply Hin; by right). specialize (IH Hin').
  assert (forall b v, remove_anchors name as_ b v = (true, w') -> gone_in dir name v ->
    b = true /\ forall d r, (d, r) ∈ (dir, refresh) :: as_ -> gone_in d name w') as Hrest.
  { intros b v Hv Hg. destruct (IH _ _ _ Hv) as [-> I2]. split; [done|]. intros d r [[= -> ->]|Hr]%elem_of_cons; [|by eapply I2].
    destruct (remove_anchors_frame dir refresh name name as_ true Ha Hin') as [K _]. specialize (K v Hg). by rewrite Hv in K. }
  cbn [remove_anchors] in H. erewrite bind_run in H by reflexivity. destruct (exists_at w dir) eqn:Edir; cbn [negb] in H.
  2:{ apply (Hrest _ _ H). intros Hex. congruence. }
  erewrite bind_run in H by reflexivity. pose proof (delete_step dir name w) as (D1 & D2 & D3).
  set (m := if exists_at w (anchor_file dir name) then _ else _) in *. destruct (m w) as [del w1] eqn:E1. rewrite (bind_run _ _ _ _ _ E1) in H. cbn [fst snd] in *.
  destruct del; cbn [negb] in H; [|destruct (IH _ _ _ H) as [[=] _]].
  destruct (refresh_spec dir refresh w1 Ha) as (R1 & R2 & R3). destruct (or_else _ _ w1) as [ref w2] eqn:E2. rewrite (bind_run _ _ _ _ _ E2) in H. cbn [fst snd] in *.
  destruct (is_anchor_path dir refresh name Ha) as [P1 P2].
  destruct (IH _ _ _ H) as ([-> ->]%andb_prop & _). apply (Hrest _ _ H). intros _. rewrite R1 by done. rewrite D2 by done. split; [done|].
  intros Hn%R3; [|done]. rewrite D2 in Hn by done. done.
Qed.

(** A removal on Linux that reports success leaves no stale trust: in every
    directory of anchors there is, the merged bundle does not hold the name any more, also
    when its anchor was deleted by an earlier run whose refresh failed. *)
Theorem linux_removal_clean (name : str) (w w' : W) (Hok : remove_linux name w = (true, w')) (dir : str) (refresh : list str)
    (Ha : (dir, refresh) ∈ anchors) (Hdir : exists_at w dir = true) :
  name ∉ bundle w' dir.
Proof.
  destruct (remove_anchors_gone name anchors (fun x Hx => Hx) true w w' Hok) as (_ & H). apply (H dir refresh Ha).
  pose proof (proj2 (remove_anchors_frame dir refresh name name anchors true Ha (fun x Hx => Hx)) w Hdir) as K.
  unfold remove_linux in Hok. by rewrite Hok in K.
Qed.

Lemma remove_linux_all_gone names any_ok w w' : remove_linux_all names any_ok w = (true, w') ->
  any_ok = true \/ exists name, name ∈ names /\ forall dir refresh, (dir, refresh) ∈ anchors -> gone_in dir name w'.
Proof.
  revert any_ok w. induction names as [|n names IH]; intros any_ok w; cbn [remove_linux_all]; [intros [= -> _]; by left|].
  destruct (remove_linux n w) as [ok w1] eqn:E. rewrite (bind_run _ _ _ _ _ E). intros H.
  destruct (IH _ _ H) as [[-> | ->]%orb_prop|(name & Hn & Hg)]; [by left| |right; exists name; split; [by right|done]].
  right. exists n. split; [by left|]. intros dir refresh Ha.
  destruct (remove_anchors_gone n anchors (fun x Hx => Hx) true w w1 E) as (_ & Hg).
  clear IH E. assert (forall names b v, gone_in dir n v -> gone_in dir n (snd (remove_linux_all names b v))) as K.
  { clear -Ha OsRefresh0. intros names. induction names as [|n' names IH]; intros b v Hv; [done|]. cbn [remove_linux_all].
    destruct (remove_linux n' v) as [ok v1] eqn:E. rewrite (bind_run _ _ _ _ _ E). apply IH.
    pose proof (proj1 (remove_anchors_frame dir refresh n n' anchors true Ha (fun x Hx => Hx)) v Hv) as K. unfold remove_linux in E. by rewrite E in K. }
  specialize (K names (any_ok || true) w1 (Hg dir refresh Ha)). by rewrite H in K.
Qed.
End Refresh.

(** ** The removal *)
Section Removal.
Context {W : Type} `{!Os W} (own : str -> Prop) `{!OsFrame own} (bundle : W -> str -> list str) `{!OsRefresh bundle}.

Lemma untrusted_linux w w' : os_name = lit "linux" -> is_ca_trusted_by_name w = (false, w') -> w' = w /\ dirs_clean w.
Proof.
  intros Eos E2. pose proof (any_trusted_linux known_cert_names w Eos) as E. change (any_trusted known_cert_names w) with (is_ca_trusted_by_name w) in E.
  rewrite E2 in E. pose proof (f_equal fst E) as Ef. pose proof (f_equal snd E) as Es. cbn [fst snd] in Ef, Es. split; [exact Es|].
  intros name d s Hn Hd Hs. destruct (contains _ _) eqn:Ec; [|done].
  assert (existsb (fun n => fst (is_trusted_linux_one n w)) known_cert_names = true) as Ht; [|rewrite Ht in Ef; done].
  apply existsb_exists. exists name. split; [by apply list_elem_of_In|]. apply existsb_exists. exists d. split; [by apply list_elem_of_In|].
  apply existsb_exists. exists s. split; [by apply list_elem_of_In|done].
Qed.

(** On Linux the platform's answer stands for a name that is gone from every bundle. *)
Lemma remove_from_os_linux w w1 : os_name = lit "linux" -> remove_from_os w = (Ok true, w1) ->
  exists name, name ∈ known_cert_names /\ forall dir refresh, (dir, refresh) ∈ anchors -> gone_in bundle dir name w1.
Proof.
  intros Eos H. unfold remove_from_os in H. rewrite Eos in H. rewrite bool_decide_false, bool_decide_true in H by done.
  unfold mbind, M_bind in H. destruct (remove_linux_all known_cert_names false w) as [ok v] eqn:E. injection H as -> <-.
  by destruct (remove_linux_all_gone bundle _ _ _ _ E) as [[=]|H].
Qed.

End Removal.

(** ** A system with anchors in one directory

    The anchors of /etc/pki, the files of a user, no sudo and no NSS tool; a refresh succeeds
    or fails as [t_outcomes] says, and then succeeds. *)
Record Toy := mkToy { t_files : gmap str str; t_dirs : list str; t_bundle : list str; t_outcomes : list bool }.

Definition rhel_dir : str := lit "/etc/pki/ca-trust/source/anchors".
Definition rhel_refresh : list str := [lit "update-ca-trust"; lit "extract"].

Definition under (d p : str) : bool := starts_with p (d ++ lit "/").

Definition toy_command (args : list str) (w : Toy) : option (bool * bytes * bytes) * Toy :=
  if bool_decide (args = rhel_refresh) then
    match t_outcomes w with
    | false :: r => (Some (false, [], []), mkToy (t_files w) (t_dirs w) (t_bundle w) r)
    | o => (Some (true, [], []), mkToy (t_files w) (t_dirs w)
        (filter (fun n => is_Some (t_files w !! anchor_file rhel_dir n)) known_cert_names) (tail o))
    end
  else (Some (false, [], []), w).

#[export] Instance toy_os : Os Toy := {|
  os_name := lit "linux"; euid := 1000;
  env_var w v := if bool_decide (v = lit "HOME") then Some (lit "/home/u") else None;
  set_var _ _ w := w;
  exists_at w p := bool_decide (is_Some (t_files w !! p)) || bool_decide (p ∈ t_dirs w);
  is_dir w p := bool_decide (p ∈ t_dirs w);
  read_dir w d := if bool_decide (d ∈ t_dirs w) then Some (omap (strip_prefix (d ++ lit "/")) (map_to_list (t_files w)).*1) else None;
  read_to_string w p := t_files w !! p;
  write_file p s w := (true, mkToy (<[p := s]> (t_files w)) (t_dirs w) (t_bundle w) (t_outcomes w));
  copy_file _ _ w := (false, w);
  create_dir_all _ w := (false, w);
  remove_file p w := if bool_decide (is_Some (t_files w !! p) /\ p ∉ t_dirs w)
    then (true, mkToy (delete p (t_files w)) (t_dirs w) (t_bundle w) (t_outcomes w)) else (false, w);
  remove_dir_all d w := (true, mkToy (filter (fun kv => under d kv.1 = false) (t_files w)) (filter (fun p => p <> d) (t_dirs w)) (t_bundle w) (t_outcomes w));
  command := toy_command;
  to_lowercase := to_ascii_lowercase
|}.

Definition toy_bundle (w : Toy) (d : str) : list str := if bool_decide (d = rhel_dir) then t_bundle w else [].

(** Both authorities installed, the second by an old version. *)
Definition toy_start (outcomes : list bool) : Toy :=
  mkToy (list_to_map [(anchor_file rhel_dir CERT_NAME, lit "new"); (anchor_file rhel_dir (lit "MasterHttpRelayVPN"), lit "old");
      (lit "/home/u/app/ca/ca.crt", lit "cert"); (lit "/home/u/app/ca/ca.key", lit "key")])
    [rhel_dir; lit "/home/u/app/ca"] known_cert_names outcomes.

Lemma toy_command_files args w : t_files (toy_command args w).2 = t_files w /\ t_dirs (toy_command args w).2 = t_dirs w.
Proof. unfold toy_command. case_bool_decide; [|done]. by destruct (t_outcomes w) as [|[] r]. Qed.

Lemma toy_exists_command args w p : exists_at (snd (command args w)) p = exists_at w p.
Proof. cbn. destruct (toy_command_files args w) as [-> ->]. done. Qed.

Lemma run_cmd_command {W} `{!Os W} args w : args <> [] -> run_cmd args w = (match (command args w).1 with Some (ok, _, _) => ok | None => false end, (command args w).2).
Proof. intros Ha. unfold run_cmd. rewrite bool_decide_false by done. unfold mbind, M_bind, act. by destruct (command args w). Qed.

#[local] Instance toy_frame : OsFrame (fun p => under (lit "/home") p = true).
Proof.
  split.
  - intros args w p _. cbn. by destruct (toy_command_files args w) as [-> _].
  - intros q w p _ Hne. cbn. case_bool_decide; cbn; [by rewrite lookup_delete_ne|done].
  - intros p dir refresh name Hp Ha ->. revert Ha. unfold anchors. rewrite !elem_of_cons, elem_of_nil. by intros [[= -> _]|[[= -> _]|[[= -> _]|[]]]].
Qed.

#[local] Instance toy_refresh : OsRefresh toy_bundle.
Proof.
  assert (forall args, rhel_refresh = args -> forall sudo dir refresh, (dir, refresh) ∈ anchors -> sudo ++ refresh = args -> sudo = [] \/ sudo = [lit "sudo"] -> dir = rhel_dir) as Hr.
  { intros args <- sudo dir refresh Ha E Hs. revert Ha. unfold anchors. rewrite !elem_of_cons, elem_of_nil. intros [[= -> ->]|[[= -> ->]|[[= -> ->]|[]]]]; [|done|];
      destruct Hs as [->| ->]; vm_compute in E; congruence. }
  assert (forall sudo refresh, sudo = [] \/ sudo = [lit "sudo"] -> forall dir, (dir, refresh) ∈ anchors -> sudo ++ refresh <> []) as Hne.
  { intros sudo refresh Hs dir Ha. revert Ha. unfold anchors. rewrite !elem_of_cons, elem_of_nil. destruct Hs as [->| ->]; intros [[= -> ->]|[[= -> ->]|[[= -> ->]|[]]]]; done. }
  split.
  - intros q w. unfold act. cbn. case_bool_decide as E; cbn; [|by split_and!]. destruct E as [E1 E2]. split_and!; [|intros _|intros _|done].
    + intros p _ Hp. by rewrite lookup_delete_ne.
    + by rewrite lookup_delete_eq, !bool_decide_false by (done || by intros [? ?]).
    + by rewrite lookup_delete_eq, !bool_decide_false by (done || by intros [? ?]).
  - intros q w. rewrite run_cmd_command by done. cbn [fst snd].
    assert (command [lit "sudo"; lit "rm"; lit "-f"; q] w = (Some (false, [], []), w)) as -> by (cbn; unfold toy_command; by rewrite bool_decide_false). by split_and!.
  - intros dir refresh sudo w p Ha Hs _. rewrite run_cmd_command by (by eapply Hne). cbn [snd]. apply toy_exists_command.
  - intros dir refresh sudo w d Ha Hs Hd. rewrite run_cmd_command by (by eapply Hne). unfold toy_bundle. cbn -[rhel_dir anchors]. unfold toy_command.
    case_bool_decide as E; [|done]. case_bool_decide as Ed; [|done]. subst d. by destruct Hd; rewrite (Hr _ eq_refl sudo dir refresh).
  - intros dir refresh sudo w name Ha Hs. rewrite run_cmd_command by (by eapply Hne). cbn [fst snd command toy_os]. unfold toy_command, toy_bundle.
    destruct (decide (sudo ++ refresh = rhel_refresh)) as [E|E]; [rewrite (bool_decide_true (sudo ++ refresh = _)) by done|
      rewrite (bool_decide_false (sudo ++ refresh = _)) by done; intros H; by left].
    rewrite (Hr _ eq_refl sudo dir refresh) by done. rewrite bool_decide_true by done.
    destruct (t_outcomes w) as [|[] r]; cbn [fst snd t_bundle]; intros H; [| |by left]; apply list_elem_of_filter in H as [Hn _]; right; cbn; by rewrite bool_decide_true.
  - intros dir refresh sudo w name Ha Hs. rewrite run_cmd_command by (by eapply Hne). cbn [fst snd command toy_os]. unfold toy_command, toy_bundle.
    case_bool_decide as E; [|done]. rewrite (Hr _ eq_refl sudo dir refresh) by done. rewrite bool_decide_true by done.
    destruct (t_outcomes w) as [|[] r]; cbn [fst snd]; [intros _| intros _|done]; cbn [t_bundle]; intros [Hn _]%list_elem_of_filter; cbn; by rewrite bool_decide_true.
Qed.

Lemma user_js_edits_witness : exists new, add_enterprise_roots_block (lit "user_pref(1);") = AddedBlock new
  /\ strip_enterprise_roots_block new = Some (lit "user_pref(1);" ++ [10]).
Proof.
  destruct (user_js_edits (lit "user_pref(1);")) as [H _]; [apply (bool_decide_unpack _); vm_compute; exact I|].
  destruct (add_enterprise_roots_block (lit "user_pref(1);")) as [new| |] eqn:E; [|vm_compute in E; discriminate E..].
  exists new. split; [reflexivity|]. destruct H as (_ & _ & ->). reflexivity.
Defined.


Lemma linux_removal_clean_witness : exists w', remove_linux CERT_NAME (toy_start []) = (true, w') /\ CERT_NAME ∉ toy_bundle w' rhel_dir.
Proof.
  exists (snd (remove_linux CERT_NAME (toy_start []))).
  assert (remove_linux CERT_NAME (toy_start []) = (true, snd (remove_linux CERT_NAME (toy_start [])))) as E by (vm_compute; reflexivity).
  split; [exact E|]. apply (linux_removal_clean toy_bundle CERT_NAME (toy_start []) _ E rhel_dir rhel_refresh); [apply (bool_decide_unpack _); vm_compute; exact I|vm_compute; reflexivity].
Defined.

(** One name whose refresh succeeds hides the failure of another.  [remove_linux]
    answers that its caller must not delete the authority when a refresh failed; the caller
    asks for one success among the names.  With both names installed and the refresh for the
    second failing, its anchor is gone, the bundle still trusts it, and the removal reports
    [Clean] with the key and the certificate deleted. *)
Theorem stale_root_after_removal :
  let '(r, w) := remove_ca (lit "/home/u/app") (toy_start [true; false]) in
  r = Ok Clean /\ toy_bundle w rhel_dir = [lit "MasterHttpRelayVPN"]
  /\ read_to_string w (lit "/home/u/app/ca/ca.key") = None /\ fst (remove_linux (lit "MasterHttpRelayVPN") (toy_start [false])) = false.
Proof. vm_compute. repeat split. Qed.

Lemma os_release_family_witness : exists names n line v, (lit "arch", names) ∈ families /\ n ∈ names
  /\ line ∈ lines (lit "OPENWRT_DEVICE_ARCH=x86" ++ [10] ++ lit "ID=" ++ [34] ++ lit "Manjaro" ++ [34] ++ [10]) /\ assigns_id line v
  /\ n ∈ split_by (fun c => is_whitespace c || (c =? 44)) v.
Proof.
  apply (os_release_family (lit "OPENWRT_DEVICE_ARCH=x86" ++ [10] ++ lit "ID=" ++ [34] ++ lit "Manjaro" ++ [34] ++ [10]) (lit "arch")); [vm_compute; reflexivity|vm_compute; congruence].
Defined.
