(* ===== verification/MitmCert.v ===== *)
(** * src/mitm.rs: the certificates that the proxy presents

    [MitmCertManager]: the certificate authority, loaded from disk or generated, and the
    server configurations it issues, cached per domain and protocol list.  Keys, certificates
    and their text forms are rcgen's and rustls's, an interface here; the files are the two of
    the authority, with the outcome of each write. *)

From stdpp Require Import prelude gmap.
From S2P Require Import Prelude RustStr Frame CertTrust.
#[local] Open Scope Z_scope.

Inductive KeyUsage := DigitalSignature | KeyCertSign | CrlSign | KeyEncipherment.
Inductive ExtendedKeyUsage := ServerAuth.

(** [CertificateParams]: the fields the code sets.  Times are in seconds. *)
Record CertificateParams := mkParams {
  common_name : str; organization : option str; path_len : option Z;
  key_usages : list KeyUsage; extended_key_usages : list ExtendedKeyUsage;
  subject_alt_names : list str; not_before : Z; not_after : Z
}.

Class CertLib := {
  KeyPair : Type; Issuer : Type;
  key_from_pem : str -> option KeyPair; serialize_pem : KeyPair -> str;
  pem_certs : str -> option (list bytes); cert_pem : bytes -> str;
  from_ca_cert_pem : str -> KeyPair -> option Issuer; issuer_new : CertificateParams -> KeyPair -> Issuer;
  self_signed : CertificateParams -> KeyPair -> option bytes;
  signed_by : CertificateParams -> KeyPair -> Issuer -> option bytes;
  dns_name : str -> bool;
  single_cert : list bytes -> KeyPair -> bool;
  issuer_key : Issuer -> KeyPair
}.

Inductive MitmError := MIo | MRcgen | MRustls | MPem (e : str) | MInvalid (domain : str).

Section Mitm.
Context {L : CertLib}.

Record ServerConfig := mkServer { chain : list bytes; server_key : KeyPair; alpn_protocols : list bytes }.
Record MitmCertManager := mkManager { ca_cert_der : bytes; ca_issuer : Issuer; cache : gmap str ServerConfig }.

(** The files ca/ca.key and ca/ca.crt. *)
Record CaFiles := mkFiles { ca_key : option str; ca_crt : option str }.

Definition load (key_pem cert : str) : res MitmCertManager MitmError :=
  let? key_pair := ok_or (key_from_pem key_pem) MRcgen in
  let? certs := ok_or (pem_certs cert) MIo in
  match certs with
  | [] => Err (MPem (lit "no certificate in ca.crt"))
  | der :: _ => let? issuer := ok_or (from_ca_cert_pem cert key_pair) MRcgen in Ok (mkManager der issuer ∅)
  end.

Definition ca_params (now : Z) : CertificateParams :=
  mkParams CERT_NAME (Some CERT_NAME) (Some 0) [DigitalSignature; KeyCertSign; CrlSign] [] [] (now - 300) (now + 3650 * 86400).

(** With the key that is generated, and whether each write succeeds. *)
Definition generate (now : Z) (key_pair : KeyPair) (crt_ok key_ok : bool) (fs : CaFiles) : res MitmCertManager MitmError * CaFiles :=
  match self_signed (ca_params now) key_pair with
  | None => (Err MRcgen, fs)
  | Some der =>
    if negb crt_ok then (Err MIo, fs) else
    let fs := mkFiles (ca_key fs) (Some (cert_pem der)) in
    if negb key_ok then (Err MIo, fs) else
    (Ok (mkManager der (issuer_new (ca_params now) key_pair) ∅), mkFiles (Some (serialize_pem key_pair)) (ca_crt fs))
  end.

Definition new_in (now : Z) (key_pair : KeyPair) (dir_ok crt_ok key_ok : bool) (fs : CaFiles) : res MitmCertManager MitmError * CaFiles :=
  match ca_key fs, ca_crt fs with
  | Some k, Some c => (load k c, fs)
  | _, _ => if dir_ok then generate now key_pair crt_ok key_ok fs else (Err MIo, fs)
  end.

Definition leaf_params (now : Z) (domain : str) : CertificateParams :=
  mkParams domain None None [DigitalSignature; KeyEncipherment] [ServerAuth] [domain] (now - 300) (now + 365 * 86400).

(** The certificate, for the key that is generated. *)
Definition issue_leaf (now : Z) (leaf_key : KeyPair) (m : MitmCertManager) (domain : str) : res (bytes * KeyPair) MitmError :=
  if negb (dns_name domain) then Err (MInvalid domain) else
  let? der := ok_or (signed_by (leaf_params now domain) leaf_key (ca_issuer m)) MRcgen in
  Ok (der, leaf_key).

Definition cache_key (domain : str) (alpn : list bytes) : str := domain ++ (alpn ≫= fun p => 0 :: from_utf8_lossy p).

Definition get_server_config_alpn (now : Z) (leaf_key : KeyPair) (domain : str) (alpn : list bytes) (m : MitmCertManager) :
    res ServerConfig MitmError * MitmCertManager :=
  match cache m !! cache_key domain alpn with
  | Some cfg => (Ok cfg, m)
  | None =>
    match issue_leaf now leaf_key m domain with
    | Ok (der, key) =>
      let ch := [der; ca_cert_der m] in
      if negb (single_cert ch key) then (Err MRustls, m) else
      let cfg := mkServer ch key alpn in
      (Ok cfg, mkManager (ca_cert_der m) (ca_issuer m) (<[cache_key domain alpn := cfg]> (cache m)))
    | Err e => (Err e, m)
    | Panic => (Panic, m)
    end
  end.

Definition get_server_config (now : Z) (leaf_key : KeyPair) (domain : str) (m : MitmCertManager) : res ServerConfig MitmError * MitmCertManager :=
  get_server_config_alpn now leaf_key domain [lit "http/1.1"] m.

(** ** The cache *)

(** A protocol name: text without a NUL. *)
Definition token (p : bytes) : Prop := exists t, str_ok t /\ p = as_bytes t /\ 0 ∉ t.

Lemma token_lossy p : token p -> as_bytes (from_utf8_lossy p) = p /\ 0 ∉ from_utf8_lossy p.
Proof. intros (t & Ht & -> & H0). by rewrite from_utf8_lossy_as_bytes. Qed.

Lemma app_nul_inj (a b x y : str) : 0 ∉ a -> 0 ∉ b -> head x = Some 0 \/ x = [] -> head y = Some 0 \/ y = [] -> a ++ x = b ++ y -> a = b /\ x = y.
Proof.
  revert b. induction a as [|c a IH]; intros [|d b] Ha Hb Hx Hy E; cbn in E; [done| | |].
  - subst x. destruct Hx as [[= ->]|[=]]. by destruct Hb; left.
  - subst y. destruct Hy as [[= ->]|[=]]. by destruct Ha; left.
  - injection E as -> E. apply not_elem_of_cons in Ha as [_ Ha]. apply not_elem_of_cons in Hb as [_ Hb]. by destruct (IH b Ha Hb Hx Hy E) as [-> ->].
Qed.

Lemma nul_parts_head (l : list bytes) : head (l ≫= fun p => 0 :: from_utf8_lossy p) = Some 0 \/ (l ≫= fun p => 0 :: from_utf8_lossy p) = [].
Proof. destruct l; [by right|by left]. Qed.

(** Different domains or protocol lists have different keys. *)
Lemma cache_key_inj d d' l l' : 0 ∉ d -> 0 ∉ d' -> Forall token l -> Forall token l' -> cache_key d l = cache_key d' l' -> d = d' /\ l = l'.
Proof.
  intros Hd Hd' Hl Hl' E. apply app_nul_inj in E as [-> E]; [|done|done|apply nul_parts_head..]. split; [done|].
  clear Hd Hd' d'. revert l' Hl' E. induction Hl as [|p l Hp Hl IH]; intros l' Hl' E; destruct Hl' as [|p' l' Hp' Hl']; try done.
  destruct (token_lossy p Hp) as [Ep Np]. destruct (token_lossy p' Hp') as [Ep' Np']. cbn in E. injection E as E.
  apply app_nul_inj in E as [E1 E2]; [|done|done|apply nul_parts_head..]. f_equal; [congruence|by apply IH].
Qed.

Definition request_ok (d : str) (l : list bytes) : Prop := 0 ∉ d /\ Forall token l.

(** What a browser asks of a leaf for [d] that was issued at [t]: the name, as subject and as
    the one alternative name; server authentication, signing and key encipherment, and no
    right to sign certificates; valid from five minutes before until 365 days later. *)
Definition leaf_for (t : Z) (d : str) (p : CertificateParams) : Prop :=
  common_name p = d /\ subject_alt_names p = [d]
  /\ ServerAuth ∈ extended_key_usages p /\ DigitalSignature ∈ key_usages p /\ KeyEncipherment ∈ key_usages p
  /\ KeyCertSign ∉ key_usages p /\ path_len p = None
  /\ not_before p = t - 5 * 60 /\ not_after p = t + 365 * 24 * 3600.

(** A request: the instant, the key that is generated if one is, the domain and the
    protocols. *)
Definition Request : Type := Z * KeyPair * str * list bytes.

(** A configuration for a domain and a protocol list, issued by this authority at the
    instant and with the key of a request. *)
Definition config_for (m : MitmCertManager) (r : Request) (c : ServerConfig) : Prop :=
  let '(t, key, d, l) := r in
  alpn_protocols c = l /\ server_key c = key
  /\ exists p der, leaf_for t d p /\ signed_by p key (ca_issuer m) = Some der /\ chain c = [der; ca_cert_der m].

Lemma leaf_params_for t d : leaf_for t d (leaf_params t d).
Proof. split_and!; try done; [by left|by left|by right; left|]. intros [[=]|[[=]|[]%elem_of_nil]%elem_of_cons]%elem_of_cons. Qed.

(** Every cached configuration was issued for a request in [log]. *)
Definition cache_ok (log : list Request) (m : MitmCertManager) : Prop :=
  forall k c, cache m !! k = Some c -> exists t key d l, (t, key, d, l) ∈ log /\ request_ok d l /\ k = cache_key d l /\ config_for m (t, key, d, l) c.

(** A sequence of requests, with the outcome of each. *)
Fixpoint serve (rs : list Request) (m : MitmCertManager) : list (res ServerConfig MitmError) * MitmCertManager :=
  match rs with
  | [] => ([], m)
  | (now, key, d, l) :: rs =>
    let '(o, m) := get_server_config_alpn now key d l m in
    let '(os, m) := serve rs m in (o :: os, m)
  end.

Lemma get_ok log now key d l m : cache_ok log m -> request_ok d l ->
  let '(o, m') := get_server_config_alpn now key d l m in
  cache_ok (log ++ [(now, key, d, l)]) m' /\ ca_cert_der m' = ca_cert_der m /\ ca_issuer m' = ca_issuer m /\ cache m ⊆ cache m'
  /\ forall c, o = Ok c -> cache m' !! cache_key d l = Some c.
Proof.
  intros Hm [Hd Hl]. assert (cache_ok (log ++ [(now, key, d, l)]) m) as Hm'.
  { intros k c Hk. destruct (Hm k c Hk) as (t & k0 & d0 & l0 & Hin & ?). exists t, k0, d0, l0. split; [|done]. apply elem_of_app. by left. }
  unfold get_server_config_alpn. destruct (cache m !! cache_key d l) as [c|] eqn:E; [split_and!; [done..|]; by intros c' [= <-]|].
  unfold issue_leaf. destruct (dns_name d) eqn:Ed; [|by split_and!]. cbn [negb].
  destruct (signed_by (leaf_params now d) key (ca_issuer m)) as [der|] eqn:Es; cbn; [|by split_and!].
  destruct (single_cert _ _); cbn; [|by split_and!].
  split_and!; [|done|done|by apply insert_subseteq|intros c [= <-]; apply lookup_insert_eq].
  intros k c Hk. cbn in Hk. apply lookup_insert_Some in Hk as [[<- <-]|[Hk H]]; [|by apply Hm'].
  exists now, key, d, l. split_and!; [apply elem_of_app; right; by left|done|done|]. split_and!; [done|done|].
  exists (leaf_params now d), der. split_and!; [apply leaf_params_for|done|done].
Qed.

Lemma serve_leaves log rs m : cache_ok log m -> Forall (fun '(_, _, d, l) => request_ok d l) rs ->
  ca_cert_der (snd (serve rs m)) = ca_cert_der m /\ ca_issuer (snd (serve rs m)) = ca_issuer m /\ cache m ⊆ cache (snd (serve rs m))
  /\ forall i now key d l c, rs !! i = Some (now, key, d, l) -> fst (serve rs m) !! i = Some (Ok c) ->
       (exists t k, (t, k, d, l) ∈ log ++ take (S i) rs /\ config_for m (t, k, d, l) c) /\ cache (snd (serve rs m)) !! cache_key d l = Some c.
Proof.
  intros Hm Hrs. revert log m Hm. induction Hrs as [|[[[now key] d] l] rs Hr Hrs IH]; intros log m Hm; [by split_and!|].
  cbn [serve]. pose proof (get_ok log now key d l m Hm Hr) as H. destruct (get_server_config_alpn now key d l m) as [o m1].
  destruct H as (H1 & H2 & H3 & H4 & H5). specialize (IH _ m1 H1). destruct (serve rs m1) as [os m2]. cbn [fst snd] in *.
  destruct IH as (I2 & I3 & I4 & I5).
  assert (forall r c, config_for m1 r c -> config_for m r c) as Hcf by (intros [[[? ?] ?] ?] c0; unfold config_for; by rewrite H2, H3).
  split_and!; [congruence|congruence|by etrans|]. intros [|i] now' key' d' l' c Hi Hc; cbn in Hi, Hc.
  - injection Hi as <- <- <- <-. injection Hc as ->. pose proof (H5 c eq_refl) as Hk. split; [|by eapply lookup_weaken].
    destruct (H1 _ _ Hk) as (t & k0 & d0 & l0 & Hin & [Hd0 Hl0] & Ek & Hcfg). destruct Hr as [Hd Hl].
    apply cache_key_inj in Ek as [-> ->]; [|done..]. exists t, k0. split; [done|by apply Hcf].
  - destruct (I5 i _ _ _ _ c Hi Hc) as [(t & k0 & Hin & Hcfg) Hk]. split; [|done]. exists t, k0. split; [|by apply Hcf].
    rewrite <- app_assoc in Hin. exact Hin.
Qed.

(** Claim C36: the proxy never presents a certificate for another host or protocol.  Whatever
    domains without a NUL and protocol lists of text without a NUL are asked of a new
    manager, and in whatever order: a configuration that is returned was issued at the
    instant of this or an earlier request for the same domain and protocols, with the key
    generated then; it has exactly these protocols and the chain of the leaf and the
    authority; the leaf is signed by the authority, is named for this domain alone, allows
    server authentication, signing and key encipherment and no certificate signing, and is
    valid from five minutes before that instant until 365 days after it.  Asking again for
    both gives the configuration that was given before, with no new certificate. *)
Theorem leaf_for_the_host (m : MitmCertManager) (rs : list Request) (Hm : cache m = ∅)
    (Hrs : Forall (fun '(_, _, d, l) => request_ok d l) rs) (i : nat) (now : Z) (key : KeyPair) (d : str) (l : list bytes) (c : ServerConfig)
    (Hi : rs !! i = Some (now, key, d, l)) (Hc : fst (serve rs m) !! i = Some (Ok c)) :
  (exists j t key0 p der, (j <= i)%nat /\ rs !! j = Some (t, key0, d, l)
     /\ alpn_protocols c = l /\ server_key c = key0 /\ chain c = [der; ca_cert_der m]
     /\ signed_by p key0 (ca_issuer m) = Some der /\ leaf_for t d p)
  /\ forall now' key', get_server_config_alpn now' key' d l (snd (serve rs m)) = (Ok c, snd (serve rs m)).
Proof.
  assert (cache_ok [] m) as Hm' by (intros k c'; by rewrite Hm, lookup_empty). destruct (serve_leaves [] rs m Hm' Hrs) as (_ & _ & _ & H).
  destruct (H i _ _ _ _ c Hi Hc) as [(t & k & Hin & Ha & Hk & p & der & Hl & Hs & Hch) Hcache]. split.
  - apply list_elem_of_lookup in Hin as [j Hj]. cbn [app] in Hj. apply lookup_take_Some in Hj as [Hj Hlt].
    exists j, t, k, p, der. split_and!; [lia|done..].
  - intros now' key'. unfold get_server_config_alpn. by rewrite Hcache.
Qed.
End Mitm.

(** ** The authority on disk *)

(** What is written can be read back: the key, the certificate, and an issuer with that key. *)
Class CertLaws `{!CertLib} := {
  cl_key k : key_from_pem (serialize_pem k) = Some k;
  cl_cert der : pem_certs (cert_pem der) = Some [der];
  cl_issuer now k der : self_signed (ca_params now) k = Some der -> exists i, from_ca_cert_pem (cert_pem der) k = Some i /\ issuer_key i = k;
  cl_new p k : issuer_key (issuer_new p k) = k
}.

(** The authority survives a restart.  Once it was generated, every later start, in
    whatever state the clock and the random numbers are, loads the certificate and the key
    that were generated and changes no file; and when one of the two files is missing, an
    authority with a new key replaces both, or nothing is returned. *)
Theorem authority_survives `{!CertLib, !CertLaws} (now : Z) (key : KeyPair) (dir_ok crt_ok key_ok : bool) (fs fs' : CaFiles) (m : MitmCertManager)
    (Hmissing : ca_key fs = None \/ ca_crt fs = None) (Hnew : new_in now key dir_ok crt_ok key_ok fs = (Ok m, fs')) :
  issuer_key (ca_issuer m) = key /\ fs' = mkFiles (Some (serialize_pem key)) (Some (cert_pem (ca_cert_der m)))
  /\ forall now2 key2 b1 b2 b3, exists m2, new_in now2 key2 b1 b2 b3 fs' = (Ok m2, fs')
       /\ ca_cert_der m2 = ca_cert_der m /\ issuer_key (ca_issuer m2) = key /\ cache m2 = ∅.
Proof.
  assert (generate now key crt_ok key_ok fs = (Ok m, fs')) as Hg.
  { revert Hnew. unfold new_in. destruct Hmissing as [-> | ->]; [|destruct (ca_key fs)]; by destruct dir_ok. }
  unfold generate in Hg. destruct (self_signed (ca_params now) key) as [der|] eqn:Es; [|done]. destruct crt_ok; [|done]. destruct key_ok; [|done].
  cbn in Hg. injection Hg as <- <-. cbn. split_and!; [apply cl_new|done|]. intros now2 key2 b1 b2 b3. destruct (cl_issuer _ _ _ Es) as (i & Hi & Hk).
  exists (mkManager der i ∅). unfold new_in, load. cbn. rewrite cl_key. cbn. rewrite cl_cert. cbn. rewrite Hi. by cbn.
Qed.

(** ** Examples *)

(** Keys are numbers; a certificate is its subject with the keys. *)
#[local] Instance toy_lib : CertLib := {|
  KeyPair := Z; Issuer := Z;
  key_from_pem s := head s; serialize_pem k := [k];
  pem_certs s := Some [s]; cert_pem der := der;
  from_ca_cert_pem s k := Some k; issuer_new _ k := k;
  self_signed p k := Some (k :: common_name p); signed_by p k i := Some (k :: i :: common_name p);
  dns_name d := negb (bool_decide (d = []));
  single_cert _ _ := true; issuer_key i := i
|}.

#[local] Instance toy_laws : CertLaws.
Proof. split; try done. intros now k der _. by exists k. Qed.

Definition toy_manager : @MitmCertManager toy_lib := mkManager (L := toy_lib) [1] 5 ∅.
Definition some_requests : list (@Request toy_lib) := [(0, 7, lit "a.com", [lit "h2"]); (0, 8, lit "a.com", [lit "http/1.1"]); (9, 9, lit "a.com", [lit "h2"])].

(** The third request is answered with the leaf of the first. *)
Lemma leaf_for_the_host_witness : exists c, fst (serve some_requests toy_manager) !! 2%nat = Some (Ok c)
  /\ exists j t key0 p der, (j <= 2)%nat /\ some_requests !! j = Some (t, key0, lit "a.com", [lit "h2"])
     /\ alpn_protocols c = [lit "h2"] /\ server_key c = key0 /\ chain c = [der; [1]]
     /\ signed_by p key0 5 = Some der /\ leaf_for t (lit "a.com") p.
Proof.
  exists (mkServer (L := toy_lib) [7 :: 5 :: lit "a.com"; [1]] 7 [lit "h2"]). split; [vm_compute; reflexivity|].
  refine (proj1 (leaf_for_the_host toy_manager some_requests eq_refl _ 2%nat 9 9 (lit "a.com") [lit "h2"] _ eq_refl _)); [|vm_compute; reflexivity].
  assert (forall s, Forall is_ascii s -> 0 ∉ s -> token s) as Ht by (intros s H1 H2; exists s; split; [by apply ascii_str_ok|]; split; [by rewrite as_bytes_ascii|done]).
  repeat constructor; try (apply Ht); apply (bool_decide_unpack _); vm_compute; exact I.
Defined.

Lemma authority_survives_witness : exists fs' m2, new_in (L := toy_lib) 0 7 true true true (mkFiles None (Some (lit "old"))) = (Ok (mkManager (L := toy_lib) (7 :: CERT_NAME) 7 ∅), fs')
  /\ new_in (L := toy_lib) 99 8 true true true fs' = (Ok m2, fs') /\ ca_cert_der m2 = 7 :: CERT_NAME.
Proof.
  assert (new_in (L := toy_lib) 0 7 true true true (mkFiles None (Some (lit "old"))) = (Ok (mkManager (L := toy_lib) (7 :: CERT_NAME) 7 ∅), mkFiles (Some [7]) (Some (7 :: CERT_NAME)))) as E by (vm_compute; reflexivity).
  destruct (@authority_survives toy_lib toy_laws 0 7 true true true (mkFiles None (Some (lit "old"))) _ _ (or_introl eq_refl) E) as (_ & _ & H).
  destruct (H 99 8 true true true) as (m2 & H1 & H2 & _). exists (mkFiles (Some [7]) (Some (7 :: CERT_NAME))), m2. split; [exact E|]. split; [exact H1|exact H2].
Defined.
