(* ===== verification/HttpRead.v ===== *)
(** * src/domain_fronter.rs: the response reader, proved

    It always returns; what it returns does not depend on how the bytes arrive; and a
    chunked body decodes to what was encoded. *)

From stdpp Require Import prelude.
From S2P Require Import Prelude RustStr HttpText.
#[local] Open Scope Z_scope.

(** ** Termination *)
Lemma stream_size_cons ev st :
  stream_size (ev :: st) = (S (match ev with RdBytes b => length b | _ => 0 end) + stream_size st)%nat.
Proof. done. Qed.

Lemma read_more_size want lenient eof st b st' : read_more want lenient eof st = Ok (b, st') ->
  b <> [] /\ (length b + stream_size st' <= stream_size st)%nat.
Proof.
  unfold read_more, read. destruct st as [|ev st]; [done|]. destruct ev as [x| | | |]; try done; [|by destruct lenient].
  destruct (Nat.leb_spec (length x) want) as [Hle|Hgt].
  - destruct x as [|y x]; [done|]. intros [= <- <-]. rewrite stream_size_cons. split; [done|lia].
  - destruct (take want x) as [|y t] eqn:Et; [done|]. intros [= <- <-]. split; [done|]. rewrite <- Et.
    rewrite !stream_size_cons, length_take, length_drop. lia.
Qed.

Lemma read_more_not_panic want lenient eof st : read_more want lenient eof st <> Panic.
Proof. unfold read_more. destruct (read want st) as [[[|]| | |] ?]; try done. by destruct lenient. Qed.

(** Each proof below is an induction on fuel: a read leaves a smaller stream. *)
Ltac next_read H :=
  let b := fresh "b" in let st := fresh "st'" in let E := fresh "E" in
  match goal with |- context [read_more ?w ?l ?e ?s] =>
    destruct (read_more w l e s) as [[b st]|?|] eqn:E; [apply read_more_size in E as H; destruct H| |by apply read_more_not_panic in E]
  end.

Lemma length_nonempty {A} (l : list A) : l <> [] -> (0 < length l)%nat.
Proof. destruct l; cbn; [done|lia]. Qed.

Lemma read_headers_total fuel buf st : (stream_size st < fuel)%nat -> is_Some (read_headers fuel buf st).
Proof.
  revert buf st. induction fuel as [|fuel IH]; intros buf st Hf; [lia|]. cbn [read_headers]. next_read Hb; [|by eexists].
  apply length_nonempty in H. destruct (split_once CRLF2 (buf ++ b)); [by eexists|].
  destruct (_ <? _); [by eexists|]. apply IH. lia.
Qed.

Lemma read_to_length_total fuel cl body st : (stream_size st < fuel)%nat -> is_Some (read_to_length fuel cl body st).
Proof.
  revert body st. induction fuel as [|fuel IH]; intros body st Hf; [lia|]. cbn [read_to_length].
  destruct (cl <=? len body); [by eexists|]. next_read Hb; [|by eexists]. apply length_nonempty in H. apply IH. lia.
Qed.

Lemma read_size want st b st' : read want st = (Got b, st') -> b <> [] ->
  (length b + stream_size st' <= stream_size st)%nat.
Proof.
  intros Hr Hb. apply (read_more_size want false ""). unfold read_more. rewrite Hr. by destruct b.
Qed.

Lemma read_to_end_total fuel body st : (stream_size st < fuel)%nat -> is_Some (read_to_end fuel body st).
Proof.
  revert body st. induction fuel as [|fuel IH]; intros body st Hf; [lia|]. cbn [read_to_end].
  destruct (read (Z.to_nat 8192) st) as [[[|y b]| | |] st'] eqn:E; try (by eexists).
  apply read_size in E; [|done]. cbn in E. apply IH. lia.
Qed.

Lemma split_once_length pat s a b : split_once pat s = Some (a, b) -> (length a + length pat + length b = length s)%nat.
Proof.
  revert a. induction s as [|x s IH]; intros a; cbn.
  - destruct (strip_prefix pat []) eqn:E; [|done]. apply strip_prefix_Some in E. intros [= <- <-].
    symmetry in E. apply app_eq_nil in E as [-> ->]. done.
  - destruct (strip_prefix pat (x :: s)) eqn:E.
    + apply strip_prefix_Some in E. intros [= <- <-]. change (S (length s)) with (length (x :: s)). rewrite E, length_app. done.
    + destruct (split_once pat s) as [[a' b']|]; cbn; [|done]. intros [= <- <-]. specialize (IH a' eq_refl). cbn. lia.
Qed.

Lemma read_crlf_line_total want eof fuel buf st : (stream_size st < fuel)%nat -> is_Some (read_crlf_line want eof fuel buf st).
Proof.
  revert buf st. induction fuel as [|fuel IH]; intros buf st Hf; [lia|]. cbn [read_crlf_line].
  destruct (split_once CRLF buf); [by eexists|]. next_read Hb; [|by eexists]. apply length_nonempty in H. apply IH. lia.
Qed.

Lemma read_crlf_line_size want eof fuel buf st l buf' st' : read_crlf_line want eof fuel buf st = Some (Ok ((l, buf'), st')) ->
  (length l + 2 + length buf' + stream_size st' <= length buf + stream_size st)%nat.
Proof.
  revert buf st. induction fuel as [|fuel IH]; intros buf st; cbn [read_crlf_line];
    destruct (split_once CRLF buf) as [[a r]|] eqn:Es; try done.
  1,2: intros [= <- <- <-]; apply split_once_length in Es; cbn in Es; lia.
  next_read Hb; [|done]. intros Hr. apply IH in Hr. rewrite length_app in Hr. lia.
Qed.

Lemma fill_total want lenient eof fuel limit buf st : (stream_size st < fuel)%nat -> is_Some (fill want lenient eof fuel limit buf st).
Proof.
  revert buf st. induction fuel as [|fuel IH]; intros buf st Hf; [lia|]. cbn [fill].
  destruct (limit <=? len buf); [by eexists|]. next_read Hb; [|by eexists]. apply length_nonempty in H. apply IH. lia.
Qed.

Lemma fill_size want lenient eof fuel limit buf st buf' st' : fill want lenient eof fuel limit buf st = Some (Ok (buf', st')) ->
  (length buf' + stream_size st' <= length buf + stream_size st)%nat /\ limit <= len buf'.
Proof.
  revert buf st. induction fuel as [|fuel IH]; intros buf st; cbn [fill]; destruct (Z.leb_spec limit (len buf)); try done.
  1,2: by intros [= <- <-].
  next_read Hb; [|done]. intros Hr. apply IH in Hr as [Hr ?]. rewrite length_app in Hr. split; [lia|done].
Qed.

Lemma read_trailer_total want eof fuel buf st : (length buf + stream_size st < fuel)%nat -> is_Some (read_trailer want eof fuel buf st).
Proof.
  revert buf st. induction fuel as [|fuel IH]; intros buf st Hf; [lia|]. cbn [read_trailer].
  destruct (read_crlf_line_total want eof (S (stream_size st)) buf st) as [r Hr]; [lia|]. rewrite Hr.
  destruct r as [[[[|x l] buf'] st']|e|]; [by eexists| |by eexists..].
  apply read_crlf_line_size in Hr. apply IH. cbn in Hr. lia.
Qed.

Lemma read_chunked_total fuel out buf st : (length buf + stream_size st < fuel)%nat ->
  is_Some (read_chunked fuel out buf st).
Proof.
  revert out buf st. induction fuel as [|fuel IH]; intros out buf st Hf; [lia|]. cbn [read_chunked].
  destruct (read_crlf_line_total CHUNK_READ CHUNK_EOF (S (stream_size st)) buf st) as [r Hr]; [lia|]. rewrite Hr.
  destruct r as [[[l buf1] st1]|e|]; [|by eexists..]. apply read_crlf_line_size in Hr.
  destruct (from_utf8 l) as [l'|]; [|by eexists]. case_bool_decide; [apply IH; lia|].
  destruct (parse_hex _) as [size|]; [|by eexists]. destruct (size =? 0).
  - destruct (read_trailer_total CHUNK_READ CHUNK_EOF (S (length buf1 + stream_size st1)) buf1 st1) as [t ->]; [lia|].
    destruct t as [[? ?]|?|]; by eexists.
  - destruct (fill_total CHUNK_READ true CHUNK_EOF (S (stream_size st1)) (wrap 64 (size + 2)) buf1 st1) as [t Ht]; [lia|]. rewrite Ht.
    destruct t as [[buf2 st2]|?|]; [|by eexists..]. apply fill_size in Ht as [Ht _].
    unfold cut_chunk. destruct (_ || _); [by eexists|]. destruct (negb _); [by eexists|]. apply IH.
    rewrite length_drop. lia.
Qed.

Lemma read_body_total hs body st : is_Some (read_body hs body st).
Proof.
  unfold read_body. destruct (is_chunked hs); [apply read_chunked_total; lia|].
  destruct (_ ≫= parse_u64); [apply read_to_length_total|apply read_to_end_total]; lia.
Qed.

(** The response reader terminates on every stream: whatever bytes, ends, errors
    and stalls the reads return, it returns a response or an error (or panics) after at
    most one turn of its loops per byte or event. *)
Theorem http_reader_total (decode_gzip : bytes -> option bytes) (st : Stream) :
  is_Some (read_http_response decode_gzip st).
Proof.
  unfold read_http_response.
  destruct (read_headers_total (S (stream_size st)) [] st) as [r ->]; [lia|].
  destruct r as [[[head body] st1]|e|]; [|by eexists..]. destruct (parse_head head) as [[status hs]|e|]; [|by eexists..].
  destruct (read_body_total hs body st1) as [r ->]. destruct r as [[b st2]|e|]; by eexists.
Qed.

(** ** Any segmentation *)
Definition only_bytes (st : Stream) : Prop := Forall (fun ev => exists b, ev = RdBytes b /\ b <> []) st.
Definition flat (st : Stream) : bytes := concat ((fun ev => match ev with RdBytes b => b | _ => [] end) <$> st).

Lemma read_more_bytes want lenient eof st : only_bytes st -> flat st <> [] -> (0 < want)%nat ->
  exists b st', read_more want lenient eof st = Ok (b, st') /\ b <> [] /\ (length b <= want)%nat
  /\ flat st = b ++ flat st' /\ only_bytes st'.
Proof.
  intros Ho Hf Hw. destruct st as [|ev st]; [done|]. apply Forall_cons in Ho as [(b & -> & Hb) Ho].
  unfold read_more, read. destruct (Nat.leb_spec (length b) want) as [Hle|Hgt].
  - exists b, st. destruct b; [done|]. by split_and!.
  - exists (take want b), (RdBytes (drop want b) :: st).
    assert (take want b <> []) as Hne by (destruct want; [lia|by destruct b]).
    split_and!; [by destruct (take want b)|done|rewrite length_take; lia| |].
    + cbn. by rewrite app_assoc, take_drop.
    + apply Forall_cons. split; [|done]. eexists. split; [done|]. intros Hd. apply (f_equal length) in Hd.
      rewrite length_drop in Hd. cbn in Hd. lia.
Qed.

(** [split_once] finds the pattern as soon as the bytes seen contain it. *)
Lemma strip_prefix_app_l pat a b r : strip_prefix pat a = Some r -> strip_prefix pat (a ++ b) = Some (r ++ b).
Proof. intros ->%strip_prefix_Some. apply strip_prefix_Some. by rewrite app_assoc. Qed.

Lemma split_once_prefix pat a b h r : split_once pat (a ++ b) = Some (h, r) ->
  (length h + length pat <= length a)%nat -> exists r0, split_once pat a = Some (h, r0) /\ r = r0 ++ b.
Proof.
  revert h. induction a as [|x a IH]; intros h Hs Hl.
  - destruct h, pat; cbn in Hl; try lia. destruct b; cbn in Hs |- *; injection Hs as <-; by exists [].
  - cbn in Hs |- *. destruct (strip_prefix pat (x :: a ++ b)) as [r1|] eqn:E.
    + injection Hs as <- <-. apply strip_prefix_Some in E. change (x :: a ++ b) with ((x :: a) ++ b) in E.
      apply app_eq_inv in E as [(k & Ek & Eb)|(k & Ek & Eb)].
      * rewrite Ek, strip_prefix_app. by exists k.
      * assert (k = []) as ->. { apply (f_equal length) in Ek. rewrite length_app in Ek. cbn in Hl. destruct k; [done|cbn in *; lia]. }
        rewrite app_nil_r in Ek. assert (strip_prefix pat (x :: a) = Some []) as ->.
        { apply strip_prefix_Some. by rewrite app_nil_r. }
        exists []. by cbn in Eb.
    + destruct (strip_prefix pat (x :: a)) as [r1|] eqn:E1.
      { apply (strip_prefix_app_l _ _ b) in E1. cbn in E1. by rewrite E1 in E. }
      destruct (split_once pat (a ++ b)) as [[h' r']|] eqn:Es; cbn in Hs; [|done]. injection Hs as <- <-.
      destruct (IH h' eq_refl) as (r0 & -> & ->); [cbn in Hl; lia|]. by exists r0.
Qed.

Lemma split_once_app pat a b h r : split_once pat a = Some (h, r) -> split_once pat (a ++ b) = Some (h, r ++ b).
Proof.
  revert h. induction a as [|x a IH]; intros h.
  - cbn. destruct (strip_prefix pat []) as [q|] eqn:E; [|done]. intros [= <- <-].
    pose proof (strip_prefix_app_l _ _ b _ E) as H. cbn in H. destruct b; cbn in H |- *; by rewrite H.
  - cbn. destruct (strip_prefix pat (x :: a)) as [q|] eqn:E.
    + intros [= <- <-]. apply (strip_prefix_app_l _ _ b) in E. cbn in E. by rewrite E.
    + destruct (split_once pat a) as [[h' r']|] eqn:Es; cbn; [|done]. intros [= <- <-].
      destruct (strip_prefix pat (x :: a ++ b)) as [q|] eqn:E2.
      * exfalso. apply strip_prefix_Some in E2. change (x :: a ++ b) with ((x :: a) ++ b) in E2.
        apply app_eq_inv in E2 as [(k & Ek & _)|(k & Ek & _)].
        -- rewrite Ek, strip_prefix_app in E. done.
        -- apply split_once_length in Es. apply (f_equal length) in Ek. rewrite length_app in Ek. cbn in Ek. lia.
      * by rewrite (IH h' eq_refl).
Qed.

Lemma flat_rest buf st r : split_once CRLF2 buf = None -> split_once CRLF2 (buf ++ flat st) = Some r -> flat st <> [].
Proof. intros Hn Hs Hf. rewrite Hf, app_nil_r in Hs. congruence. Qed.

Lemma read_headers_spec fuel buf st head rest : (stream_size st < fuel)%nat -> only_bytes st ->
  split_once CRLF2 buf = None -> split_once CRLF2 (buf ++ flat st) = Some (head, rest) ->
  len head + 4 <= 1024 * 1024 ->
  exists rest0 st', read_headers fuel buf st = Some (Ok ((head, rest0), st')) /\ rest = rest0 ++ flat st' /\ only_bytes st'.
Proof.
  revert buf st. induction fuel as [|fuel IH]; intros buf st Hf Ho Hn Hs Hlen; [lia|]. cbn [read_headers].
  destruct (read_more_bytes (Z.to_nat 8192) false "connection closed before headers" st) as (b & st' & E & Hb & _ & Hfl & Ho');
    [done|by eapply flat_rest|lia|]. rewrite E. apply read_more_size in E as [_ Hsz]. apply length_nonempty in Hb.
  rewrite Hfl, app_assoc in Hs.
  destruct (split_once CRLF2 (buf ++ b)) as [[h r]|] eqn:Es.
  - pose proof (split_once_app _ _ (flat st') _ _ Es) as H. rewrite Hs in H. injection H as -> ->. by exists r, st'.
  - assert (len (buf ++ b) < len head + 4) as Hsmall.
    { destruct (Z.le_gt_cases (len head + 4) (len (buf ++ b))) as [Hge|]; [|lia].
      destruct (split_once_prefix CRLF2 (buf ++ b) (flat st') head rest Hs) as (r0 & H & _); [|congruence].
      unfold len in Hge. unfold CRLF2. cbn [length]. lia. }
    destruct (Z.ltb_spec (1024 * 1024) (len (buf ++ b))); [lia|]. apply IH; [lia|done..].
Qed.

Lemma read_to_length_spec fuel cl body st : (stream_size st < fuel)%nat -> only_bytes st ->
  len body <= cl <= len (body ++ flat st) ->
  exists st', read_to_length fuel cl body st = Some (Ok (take (Z.to_nat cl) (body ++ flat st), st'))
  /\ flat st' = drop (Z.to_nat cl) (body ++ flat st) /\ only_bytes st'.
Proof.
  revert body st. induction fuel as [|fuel IH]; intros body st Hf Ho Hl; [lia|]. cbn [read_to_length].
  rewrite len_app in Hl. unfold len in Hl. destruct (Z.leb_spec cl (len body)) as [Hle|Hgt].
  - unfold len in Hle. exists st. rewrite take_app_length', drop_app_length' by lia. done.
  - unfold len in Hgt. destruct (read_more_bytes (Z.to_nat (Z.min (cl - len body) 8192)) true
      "connection closed before full response body" st) as (b & st' & E & Hb & Hw & Hfl & Ho').
    { done. } { intros H. rewrite H in Hl. cbn in Hl. lia. } { unfold len. lia. }
    rewrite E. apply read_more_size in E as [_ Hsz]. apply length_nonempty in Hb. unfold len in Hw.
    destruct (IH (body ++ b) st') as (st2 & H1 & H2 & H3); [lia|done| |].
    { rewrite !len_app. unfold len. rewrite Hfl, length_app in Hl. lia. }
    exists st2. rewrite Hfl, app_assoc. done.
Qed.

Lemma read_crlf_line_spec want eof fuel buf st l r : (0 < want)%nat -> (stream_size st < fuel)%nat -> only_bytes st ->
  split_once CRLF (buf ++ flat st) = Some (l, r) ->
  exists buf' st', read_crlf_line want eof fuel buf st = Some (Ok ((l, buf'), st')) /\ buf' ++ flat st' = r /\ only_bytes st'.
Proof.
  intros Hwant. revert buf st. induction fuel as [|fuel IH]; intros buf st Hf Ho Hs; [lia|]. cbn [read_crlf_line].
  destruct (split_once CRLF buf) as [[l0 r0]|] eqn:E0.
  - pose proof (split_once_app _ _ (flat st) _ _ E0) as H. rewrite Hs in H. injection H as -> ->. by exists r0, st.
  - destruct (read_more_bytes want false eof st)
      as (b & st' & E & Hb & _ & Hfl & Ho'); [done| |lia|].
    { intros H. rewrite H, app_nil_r in Hs. congruence. }
    rewrite E. apply read_more_size in E as [_ Hsz]. apply length_nonempty in Hb.
    rewrite Hfl, app_assoc in Hs. apply IH; [lia|done..].
Qed.

Lemma fill_spec want lenient eof fuel limit buf st : (0 < want)%nat -> (stream_size st < fuel)%nat -> only_bytes st -> limit <= len (buf ++ flat st) ->
  exists buf' st', fill want lenient eof fuel limit buf st = Some (Ok (buf', st')) /\ buf' ++ flat st' = buf ++ flat st
  /\ limit <= len buf' /\ only_bytes st'.
Proof.
  intros Hwant. revert buf st. induction fuel as [|fuel IH]; intros buf st Hf Ho Hl; [lia|]. cbn [fill].
  destruct (Z.leb_spec limit (len buf)) as [|Hgt]; [by exists buf, st|].
  destruct (read_more_bytes want lenient eof st)
    as (b & st' & E & Hb & _ & Hfl & Ho'); [done| |lia|].
  { intros H. rewrite H, app_nil_r in Hl. lia. }
  rewrite E. apply read_more_size in E as [_ Hsz]. apply length_nonempty in Hb.
  rewrite Hfl, app_assoc in Hl |- *. apply IH; [lia|done..].
Qed.

(** ** Chunked bodies *)

(** A size line for [n], in any spelling the reader accepts. *)
Record size_line (line : bytes) (n : Z) : Prop := {
  sl_cr : 13 ∉ line;
  sl_text : exists l, from_utf8 line = Some l /\ trim l <> []
              /\ parse_hex (default [] (head (split_on 59 (trim l)))) = Some n
}.

(** [text] is a chunked encoding of [body]. *)
Inductive chunked : bytes -> bytes -> Prop :=
| chunked_end line : size_line line 0 -> chunked [] (line ++ CRLF ++ CRLF)
| chunked_cons line c body text : size_line line (len c) -> c <> [] -> len c + 2 < 2 ^ 64 -> chunked body text ->
    chunked (c ++ body) (line ++ CRLF ++ c ++ CRLF ++ text).

Lemma split_once_crlf line r : 13 ∉ line -> split_once CRLF (line ++ CRLF ++ r) = Some (line, r).
Proof. apply (split_once_first 13 [10]). Qed.

Lemma cut_chunk_spec c rest buf st : len c + 2 < 2 ^ 64 -> buf ++ flat st = c ++ CRLF ++ rest -> len c + 2 <= len buf ->
  exists buf', cut_chunk (len c) buf = Ok (c, buf') /\ buf' ++ flat st = rest.
Proof.
  intros Hsmall Hb Hl. unfold cut_chunk. pose proof (len_nonneg c). rewrite wrap_small by lia.
  destruct (Z.ltb_spec (len c + 2) (len c)); [lia|]. destruct (Z.ltb_spec (len buf) (len c + 2)); [lia|]. cbn [orb].
  assert (take (length c + 2) buf = c ++ CRLF) as Ht.
  { transitivity (take (length c + 2) (buf ++ flat st)); [rewrite take_app_le; [done|unfold len in Hl; lia]|].
    rewrite Hb, app_assoc, take_app_le, take_ge; [done|rewrite length_app; cbn; lia..]. }
  assert (buf = c ++ CRLF ++ drop (length c + 2) buf) as Eb.
  { rewrite <- (take_drop (length c + 2) buf) at 1. by rewrite Ht, <- app_assoc. }
  generalize dependent (drop (length c + 2) buf). intros k ->. exists k. unfold len. rewrite !Nat2Z.id. split.
  - rewrite drop_app_length. change (take 2 (CRLF ++ k)) with CRLF. rewrite bool_decide_true by done. cbn [negb].
    rewrite take_app_length, app_assoc, drop_app_length' by (rewrite length_app; cbn; lia). done.
  - rewrite <- !app_assoc in Hb. by apply app_inv_head, app_inv_head in Hb.
Qed.

Lemma read_trailer_spec want eof fuel buf st rest : (0 < want)%nat -> (0 < fuel)%nat -> only_bytes st -> buf ++ flat st = CRLF ++ rest ->
  exists st', read_trailer want eof fuel buf st = Some (Ok (tt, st')).
Proof.
  intros Hwant Hf Ho Hb. destruct fuel as [|fuel]; [lia|]. cbn [read_trailer].
  destruct (read_crlf_line_spec want eof (S (stream_size st)) buf st [] rest) as (b' & st' & -> & _); [done|lia|done| |by exists st'].
  rewrite Hb. apply (split_once_crlf []). set_solver.
Qed.

Lemma read_chunked_spec body text : chunked body text -> forall fuel out buf st rest,
  (length buf + stream_size st < fuel)%nat -> only_bytes st -> buf ++ flat st = text ++ rest ->
  exists st', read_chunked fuel out buf st = Some (Ok (out ++ body, st')).
Proof.
  induction 1 as [line [Hcr (l & Hu & Ht & Hp)]|line c body text [Hcr (l & Hu & Ht & Hp)] Hc Hsmall _ IH];
    intros fuel out buf st rest Hf Ho Hb; (destruct fuel as [|fuel]; [lia|]); cbn [read_chunked]; rewrite <- !app_assoc in Hb.
  - destruct (read_crlf_line_spec CHUNK_READ CHUNK_EOF (S (stream_size st)) buf st line (CRLF ++ rest)) as (b1 & st1 & E & Hb1 & Ho1);
      [lia|lia|done|rewrite Hb; by apply split_once_crlf|]. rewrite E, Hu, bool_decide_false, Hp by done. cbn [Z.eqb].
    destruct (read_trailer_spec CHUNK_READ CHUNK_EOF (S (length b1 + stream_size st1)) b1 st1 rest) as (st2 & ->); [lia|lia|done|done|].
    exists st2. by rewrite app_nil_r.
  - destruct (read_crlf_line_spec CHUNK_READ CHUNK_EOF (S (stream_size st)) buf st line (c ++ CRLF ++ text ++ rest)) as (b1 & st1 & E & Hb1 & Ho1);
      [lia|lia|done|rewrite Hb; by apply split_once_crlf|].
    apply read_crlf_line_size in E as Hsz. rewrite E, Hu, bool_decide_false, Hp by done.
    pose proof (length_nonempty _ Hc) as Hpos. destruct (Z.eqb_spec (len c) 0) as [H0|_]; [unfold len in H0; lia|].
    pose proof (len_nonneg c). rewrite wrap_small by lia.
    destruct (fill_spec CHUNK_READ true CHUNK_EOF (S (stream_size st1)) (len c + 2) b1 st1) as (b2 & st2 & E2 & Hb2 & Hl2 & Ho2); [lia|lia|done| |].
    { rewrite Hb1. unfold len. rewrite !length_app. cbn [length CRLF]. lia. }
    apply fill_size in E2 as Hsz2. rewrite E2. rewrite Hb1 in Hb2.
    destruct (cut_chunk_spec c (text ++ rest) b2 st2 Hsmall Hb2 Hl2) as (b3 & E3 & Hb3). rewrite E3.
    rewrite app_assoc. eapply IH; [|done|exact Hb3].
    assert (length b3 + 2 <= length b2)%nat; [|lia].
    apply (f_equal length) in Hb2, Hb3. cbn in Hb2. rewrite !length_app in Hb2. rewrite !length_app in Hb3. cbn in Hb2. rewrite ?length_app in Hb2. lia.
Qed.

(** How the body is framed. *)
Definition framed (hs : headers_t) (body text : bytes) : Prop :=
  is_chunked hs = true /\ chunked body text
  \/ is_chunked hs = false /\ find_header hs (lit "content-length") ≫= parse_u64 = Some (len text) /\ body = text.

Lemma read_body_spec hs body text b0 st : framed hs body text -> only_bytes st -> b0 ++ flat st = text ->
  exists st', read_body hs b0 st = Some (Ok (body, st')).
Proof.
  intros [[Hc Ht]|(Hc & Hl & ->)] Ho Hb; unfold read_body; rewrite Hc.
  - eapply (read_chunked_spec body text Ht _ [] b0 st []); [lia|done|by rewrite app_nil_r].
  - rewrite Hl. subst text.
    destruct (read_to_length_spec (S (stream_size st)) (len (b0 ++ flat st)) b0 st) as (st' & -> & _); [lia|done| |].
    { rewrite len_app. pose proof (len_nonneg (flat st)). lia. }
    exists st'. unfold len. rewrite Nat2Z.id, take_ge by lia. done.
Qed.

(** The response reader returns the response whatever the sizes of the reads.  If
    the bytes of the stream are a head of less than a megabyte, a blank line and a body
    framed by the head's Content-Length or as chunks, in any spelling of the sizes, then
    however they are cut into reads, the reader returns the head's status and headers and
    exactly the body. *)
Theorem http_response_read (decode_gzip : bytes -> option bytes) (st : Stream) (head text body : bytes) (status : Z) (hs : headers_t)
    (Hbytes : only_bytes st)
    (Hsplit : split_once CRLF2 (flat st) = Some (head, text))
    (Hsize : len head + 4 <= 1024 * 1024)
    (Hhead : parse_head head = Ok (status, hs))
    (Henc : find_header hs (lit "content-encoding") = None)
    (Hframed : framed hs body text) :
  exists st', read_http_response decode_gzip st = Some (Ok ((status, hs, body), st')).
Proof.
  destruct (read_headers_spec (S (stream_size st)) [] st head text) as (b0 & st1 & E & Ht & Ho); [lia|done|done|done|done|].
  destruct (read_body_spec hs body text b0 st1 Hframed Ho (eq_sym Ht)) as (st2 & E2).
  exists st2. unfold read_http_response. by rewrite E, Hhead, E2, Henc.
Qed.

(** ** Examples *)
Definition sample_head : bytes := lit "HTTP/1.1 200 OK" ++ CRLF ++ lit "Transfer-Encoding: chunked".
Definition sample_stream : Stream :=
  [RdBytes (sample_head ++ CRLF2 ++ lit "5"); RdBytes (CRLF ++ lit "he"); RdBytes (lit "llo" ++ CRLF ++ lit "0");
   RdBytes CRLF; RdBytes CRLF].

Lemma sample_chunked : chunked (lit "hello" ++ []) (lit "5" ++ CRLF ++ lit "hello" ++ CRLF ++ lit "0" ++ CRLF ++ CRLF).
Proof.
  apply chunked_cons; [|done|by vm_compute|apply chunked_end].
  - constructor; [vm_compute; set_solver|]. exists (lit "5"). split_and!; [by vm_compute..].
  - constructor; [vm_compute; set_solver|]. exists (lit "0"). split_and!; [by vm_compute..].
Qed.

Lemma http_response_read_witness :
  exists st', read_http_response (fun _ => None) sample_stream
  = Some (Ok ((200, [(lit "Transfer-Encoding", lit "chunked")], lit "hello"), st')).
Proof.
  refine (@http_response_read (fun _ => None) sample_stream sample_head
    (lit "5" ++ CRLF ++ lit "hello" ++ CRLF ++ lit "0" ++ CRLF ++ CRLF) (lit "hello") 200
    [(lit "Transfer-Encoding", lit "chunked")] _ _ _ _ _ (or_introl (conj _ sample_chunked))).
  - repeat (apply Forall_cons; split; [by eexists|]). apply Forall_nil. done.
  - vm_compute; reflexivity.
  - vm_compute; discriminate.
  - vm_compute; reflexivity.
  - vm_compute; reflexivity.
  - vm_compute; reflexivity.
Defined.

(** Two ways in which the reader departs from its contract.  A chunk size at the
    top of the range makes it panic (the sum [size + 2] overflows), which ends the
    process; and bytes beyond Content-Length that arrive with the head are kept in the
    body instead of being left for the next response. *)
Theorem http_reader_faults :
  read_http_response (fun _ => None) [RdBytes (sample_head ++ CRLF2 ++ lit "ffffffffffffffff" ++ CRLF ++ lit "x")] = Some Panic
  /\ exists hs st', read_http_response (fun _ => None)
       [RdBytes (lit "HTTP/1.1 200 OK" ++ CRLF ++ lit "Content-Length: 2" ++ CRLF2 ++ lit "abcd")]
     = Some (Ok ((200, hs, lit "abcd"), st')).
Proof. split; [vm_compute; reflexivity|]. eexists _, _. vm_compute. reflexivity. Qed.
