(* ===== verification/HttpRewrite.v ===== *)
(** * src/domain_fronter.rs: rewriting a response, proved

    The headers a response is split into are clean enough to be printed again: splitting
    the rewritten response gives them back, and the same body. *)

From stdpp Require Import prelude.
From S2P Require Import Prelude RustStr HttpText HttpRead.
#[local] Open Scope Z_scope.

(** ** UTF-8, backwards *)
Lemma utf8_char_2 b0 b1 : 0xC2 <= b0 <= 0xDF -> 0x80 <= b1 <= 0xBF ->
  char_ok ((b0 - 0xC0) * 64 + (b1 - 0x80)) /\ utf8_char ((b0 - 0xC0) * 64 + (b1 - 0x80)) = [b0; b1].
Proof. intros. unfold char_ok, utf8_char. split; [lia|]. do 2 settle_if. f_equal; [lia|f_equal; lia]. Qed.

Lemma utf8_char_3 b0 b1 b2 : second3 b0 b1 = true -> is_cont b2 = true ->
  let c := (b0 - 0xE0) * 4096 + (b1 - 0x80) * 64 + (b2 - 0x80) in char_ok c /\ utf8_char c = [b0; b1; b2].
Proof.
  unfold second3, is_cont, between, char_ok, utf8_char. intros. split; [lia|].
  do 3 settle_if. f_equal; [lia|f_equal; [lia|f_equal; lia]].
Qed.

Lemma utf8_char_4 b0 b1 b2 b3 : second4 b0 b1 = true -> is_cont b2 = true -> is_cont b3 = true ->
  let c := (b0 - 0xF0) * 262144 + (b1 - 0x80) * 4096 + (b2 - 0x80) * 64 + (b3 - 0x80) in
  char_ok c /\ utf8_char c = [b0; b1; b2; b3].
Proof.
  unfold second4, is_cont, between, char_ok, utf8_char. intros. split; [lia|].
  do 3 settle_if. f_equal; [lia|f_equal; [lia|f_equal; [lia|f_equal; lia]]].
Qed.

Lemma from_utf8_inv l : bytes_ok l -> forall s, from_utf8 l = Some s -> str_ok s /\ as_bytes s = l.
Proof.
  assert (forall n l, (length l < n)%nat -> bytes_ok l -> forall s, from_utf8 l = Some s -> str_ok s /\ as_bytes s = l) as H;
    [|by apply (H (S (length l))); lia].
  clear l. induction n as [|n IH]; intros l Hn Hl s Hs; [lia|]. destruct l as [|b0 t0]; cbn [from_utf8] in Hs.
  { injection Hs as <-. split; [constructor|done]. }
  apply Forall_cons in Hl as [H0 Hl]. cbn [length] in Hn.
  assert (forall c k t r, (length t < n)%nat -> bytes_ok t -> char_ok c /\ utf8_char c = k -> cons c <$> from_utf8 t = Some r ->
    str_ok r /\ as_bytes r = k ++ t) as step.
  { intros c k t r Ht Hb [Hc Hk] Hr. apply fmap_Some in Hr as (s' & E & ->). destruct (IH t Ht Hb s' E) as [Hok Ha].
    split; [by constructor|]. by rewrite as_bytes_cons, Hk, Ha. }
  destruct (Z.ltb_spec b0 0x80).
  { apply (step b0 [b0] t0); [lia|done| |done]. unfold is_u8 in H0. unfold char_ok, utf8_char. split; [lia|by settle_if]. }
  destruct t0 as [|b1 t1]; [done|]. apply Forall_cons in Hl as [H1 Hl]. cbn [length] in Hn.
  destruct (between 0xC2 b0 0xDF && is_cont b1) eqn:E2.
  { apply (step _ [b0; b1] t1) in Hs; [done|lia|done|]. unfold between, is_cont, between in E2. apply utf8_char_2; lia. }
  destruct t1 as [|b2 t2]; [done|]. apply Forall_cons in Hl as [H2 Hl]. cbn [length] in Hn.
  destruct (second3 b0 b1 && is_cont b2) eqn:E3.
  { apply andb_true_iff in E3 as [? ?]. apply (step _ [b0; b1; b2] t2) in Hs; [done|lia|done|]. by apply utf8_char_3. }
  destruct t2 as [|b3 t3]; [done|]. apply Forall_cons in Hl as [H3 Hl]. cbn [length] in Hn.
  destruct (second4 b0 b1 && is_cont b2 && is_cont b3) eqn:E4; [|done].
  apply andb_true_iff in E4 as [[? ?]%andb_true_iff ?].
  apply (step _ [b0; b1; b2; b3] t3) in Hs; [done|lia|done|]. by apply utf8_char_4.
Qed.

Lemma utf8_char_elem c a : char_ok a -> is_ascii c -> c ∈ utf8_char a <-> c = a.
Proof.
  unfold char_ok, is_ascii, utf8_char. intros Ha Hc. repeat case_match; rewrite ?elem_of_cons, elem_of_nil; lia.
Qed.

Lemma as_bytes_elem c s : str_ok s -> is_ascii c -> c ∈ as_bytes s <-> c ∈ s.
Proof.
  intros Hs Hc. induction Hs as [|a s Ha Hs IH]; [done|].
  by rewrite as_bytes_cons, elem_of_app, elem_of_cons, IH, utf8_char_elem.
Qed.

(** ** Trimming *)
Lemma drop_while_sub {A} p (l : list A) : drop_while p l `suffix_of` l.
Proof. induction l as [|x l IH]; cbn; [done|]. case_match; [|done]. by apply suffix_cons_r. Qed.

Lemma elem_of_suffix {A} (x : A) l k : l `suffix_of` k -> x ∈ l -> x ∈ k.
Proof. intros [t ->] H. apply elem_of_app. by right. Qed.

Lemma trim_end_by_sub p s c : c ∈ trim_end_by p s -> c ∈ s.
Proof.
  unfold trim_end_by. rewrite elem_of_reverse. intros H. apply (elem_of_suffix _ _ _ (drop_while_sub _ _)) in H.
  by rewrite elem_of_reverse in H.
Qed.

Lemma trim_sub s c : c ∈ trim s -> c ∈ s.
Proof. intros H%trim_end_by_sub. by apply (elem_of_suffix _ _ _ (drop_while_sub is_whitespace s)). Qed.

Lemma drop_while_first {A} (p : A -> bool) l x : head (drop_while p l) = Some x -> p x = false.
Proof. induction l as [|y l IH]; cbn; [done|]. destruct (p y) eqn:E; [done|]. cbn. congruence. Qed.

Lemma trim_end_by_prefix p s : trim_end_by p s `prefix_of` s.
Proof.
  unfold trim_end_by. destruct (drop_while_sub p (reverse s)) as [t Ht]. exists (reverse t).
  apply (f_equal reverse) in Ht. by rewrite reverse_involutive, reverse_app in Ht.
Qed.

Lemma trim_ends s x y : head (trim s) = Some x -> last (trim s) = Some y -> is_whitespace x = false /\ is_whitespace y = false.
Proof.
  unfold trim. intros Hx Hy. split.
  - destruct (trim_end_by_prefix is_whitespace (trim_start_by is_whitespace s)) as [k Hk].
    apply (drop_while_first is_whitespace s). unfold trim_start_by in *. rewrite Hk.
    by destruct (trim_end_by _ _).
  - unfold trim_end_by in Hy. rewrite last_reverse in Hy. by apply drop_while_first in Hy.
Qed.

(** ** Clean headers *)
Record clean_str (s : str) : Prop := { cs_ok : str_ok s; cs_lf : 10 ∉ s; cs_trim : trim s = s }.
Definition clean_header (kv : str * str) : Prop := clean_str (fst kv) /\ 58 ∉ fst kv /\ clean_str (snd kv).

Lemma clean_trim s : str_ok s -> 10 ∉ s -> clean_str (trim s).
Proof.
  intros Hs Hl. constructor; [|by intros ?%trim_sub|apply trim_trim]. apply Forall_forall. intros c Hc%trim_sub.
  unfold str_ok in Hs. rewrite Forall_forall in Hs. by apply Hs.
Qed.

Lemma split_once_char c s a b : split_once [c] s = Some (a, b) -> c ∉ a.
Proof.
  revert a. induction s as [|x s IH]; intros a; cbn; [done|]. destruct (Z.eqb_spec c x) as [->|Hne].
  - intros [= <- <-]. set_solver.
  - destruct (split_once [c] s) as [[a' b']|]; cbn; [|done]. intros [= <- <-]. specialize (IH a' eq_refl). set_solver.
Qed.

Lemma header_lines_clean lines : Forall (fun l => bytes_ok l /\ 10 ∉ l) lines ->
  forall hs, header_lines lines = Some hs -> Forall clean_header hs.
Proof.
  induction 1 as [|l lines [Hb Hl] _ IH]; intros hs; cbn; [by intros [= <-]; constructor|].
  intros (s & Es & (r & Er & Hr)%bind_Some)%bind_Some. injection Hr as <-. specialize (IH r Er).
  destruct (from_utf8_inv l Hb s Es) as [Hok Ha]. case_bool_decide as Hemp; [done|].
  destruct (split_once [58] (trim_end_matches 13 s)) as [[k v]|] eqn:Ek; [|done]. constructor; [|done].
  assert (forall c, c ∈ k ++ [58] ++ v -> c ∈ s) as Hsub.
  { intros c Hc. rewrite <- (split_once_Some _ _ _ _ Ek) in Hc. by apply trim_end_by_sub in Hc. }
  assert (10 ∉ s) as Hs. { intros H. apply Hl. rewrite <- Ha. apply as_bytes_elem; [done|unfold is_ascii; lia|done]. }
  unfold str_ok in Hok. rewrite Forall_forall in Hok. unfold clean_header. cbn [fst snd]. split_and!.
  - apply clean_trim; [apply Forall_forall; intros c Hc; apply Hok, Hsub; set_solver|]. intros H. apply Hs, Hsub. set_solver.
  - intros H%trim_sub. by apply split_once_char in Ek.
  - apply clean_trim; [apply Forall_forall; intros c Hc; apply Hok, Hsub; set_solver|]. intros H. apply Hs, Hsub. set_solver.
Qed.

Lemma split_on_parts c l : Forall (fun p => c ∉ p /\ forall x, x ∈ p -> x ∈ l) (split_on c l).
Proof.
  induction l as [|x l IH]; cbn; [constructor; [set_solver|constructor]|].
  destruct (Z.eqb_spec x c) as [->|Hne].
  - constructor; [set_solver|]. eapply Forall_impl; [exact IH|]. set_solver.
  - destruct (split_on c l) as [|h t]; [apply Forall_singleton; set_solver|]. apply Forall_cons in IH as [[Hh Hs] IH].
    constructor; [set_solver|]. eapply Forall_impl; [exact IH|]. set_solver.
Qed.

Lemma split_response_clean raw code hs body : bytes_ok raw -> split_response raw = Some (code, hs, body) -> Forall clean_header hs.
Proof.
  unfold split_response. intros Hb ([head b] & Eh & H)%bind_Some. apply split_once_Some in Eh. subst raw.
  apply Forall_app in Hb as [Hb _]. pose proof (split_on_parts 10 head) as Hp.
  destruct (split_on 10 head) as [|l0 lines]; [done|]. apply Forall_cons in Hp as [_ Hp].
  apply bind_Some in H as (s & _ & (w & _ & (n & _ & (h & Eh & [= _ <- _])%bind_Some)%bind_Some)%bind_Some).
  eapply header_lines_clean; [|exact Eh]. eapply Forall_impl; [exact Hp|]. cbn. intros p [Hn Hs]. split; [|done].
  apply Forall_forall. intros x Hx%Hs. unfold bytes_ok in Hb. rewrite Forall_forall in Hb. by apply Hb.
Qed.

(** ** The lines of an assembled head *)
Definition hline (kv : str * str) : bytes := as_bytes (fst kv) ++ lit ": " ++ as_bytes (snd kv).
Definition kept (hs : headers_t) : headers_t := List.filter (fun kv => negb (skipped_header (fst kv))) hs.
Definition reply_headers (hs : headers_t) (n : Z) : headers_t := kept hs ++ [(lit "Content-Length", dec_string n)].

Fixpoint join_lines (ls : list bytes) : bytes :=
  match ls with
  | [] => []
  | [l] => l
  | l :: r => l ++ CRLF ++ join_lines r
  end.

Definition ok_line (l : bytes) : Prop := 10 ∉ l /\ l <> [].

Lemma join_lines_cons l r : r <> [] -> join_lines (l :: r) = l ++ CRLF ++ join_lines r.
Proof. by destruct r. Qed.

Lemma strip_crlf2_char x l t : 10 ∉ l -> strip_prefix CRLF2 (x :: l ++ CRLF ++ t) = None.
Proof.
  intros Hl. unfold CRLF2. cbn [strip_prefix]. destruct (13 =? x); [|done].
  destruct l as [|y l]; [done|]. cbn [app]. destruct (Z.eqb_spec 10 y) as [<-|]; [|done]. destruct Hl. set_solver.
Qed.

(** One line, and what follows it. *)
Lemma split_crlf2_line l t : 10 ∉ l ->
  split_once CRLF2 (l ++ CRLF ++ t)
  = (match strip_prefix CRLF t with
     | Some b => Some (l, b)
     | None => (fun ab => (l ++ CRLF ++ fst ab, snd ab)) <$> split_once CRLF2 t
     end).
Proof.
  intros Hl. induction l as [|x l IH].
  - cbn [app]. change (CRLF ++ t) with (13 :: 10 :: t). cbn [split_once].
    change (strip_prefix CRLF2 (13 :: 10 :: t)) with (strip_prefix CRLF t).
    destruct (strip_prefix CRLF t) as [b|]; [done|].
    change (strip_prefix CRLF2 (10 :: t)) with (@None str). by destruct (split_once CRLF2 t) as [[a b]|].
  - rewrite not_elem_of_cons in Hl. destruct Hl as [_ Hl].
    change ((x :: l) ++ CRLF ++ t) with (x :: (l ++ CRLF ++ t)). cbn [split_once]. rewrite strip_crlf2_char, (IH Hl) by done.
    destruct (strip_prefix CRLF t); [done|]. by destruct (split_once CRLF2 t) as [[a b]|].
Qed.

Lemma strip_crlf_line l t : ok_line l -> strip_prefix CRLF (l ++ CRLF ++ t) = None.
Proof.
  intros [Hl Hn]. destruct l as [|x l]; [done|]. cbn [app CRLF strip_prefix]. destruct (13 =? x); [|done].
  destruct l as [|y l]; [done|]. cbn [app]. destruct (Z.eqb_spec 10 y) as [<-|]; [|done]. destruct Hl. set_solver.
Qed.

Lemma split_join_lines ls body : Forall ok_line ls -> ls <> [] ->
  split_once CRLF2 (join_lines ls ++ CRLF2 ++ body) = Some (join_lines ls, body).
Proof.
  induction 1 as [|l ls Hl Hls IH]; intros Hn; [done|]. change (CRLF2 ++ body) with (CRLF ++ CRLF ++ body) in IH |- *.
  destruct ls as [|l2 ls].
  - cbn [join_lines]. rewrite split_crlf2_line by apply Hl. by rewrite strip_prefix_app.
  - rewrite join_lines_cons by done. rewrite <- !app_assoc, split_crlf2_line by apply Hl.
    rewrite IH by done. apply Forall_cons in Hls as [Hl2 _].
    assert (strip_prefix CRLF (join_lines (l2 :: ls) ++ CRLF ++ CRLF ++ body) = None) as ->; [|done].
    destruct ls; [by apply strip_crlf_line|]. rewrite join_lines_cons, <- !app_assoc by done. by apply strip_crlf_line.
Qed.

Lemma split_on_line c l t : c ∉ l -> split_on c (l ++ c :: t) = l :: split_on c t.
Proof.
  induction l as [|x l IH]; cbn; [by rewrite Z.eqb_refl|]. intros [Hx Hl]%not_elem_of_cons.
  destruct (Z.eqb_spec x c); [done|]. by rewrite IH.
Qed.

Lemma split_on_join l r : ok_line l -> r <> [] -> split_on 10 (join_lines (l :: r)) = (l ++ [13]) :: split_on 10 (join_lines r).
Proof.
  intros [Hl _] Hr. rewrite join_lines_cons by done. change (CRLF ++ join_lines r) with ([13] ++ 10 :: join_lines r).
  rewrite app_assoc. apply split_on_line. set_solver.
Qed.

(** A header line, read back. *)
Lemma clean_last v y : clean_str v -> last v = Some y -> y <> 13.
Proof.
  intros [_ _ Ht] Hy ->. destruct v as [|x v]; [done|]. destruct (trim_ends (x :: v) x 13) as [_ H]; [by rewrite Ht..|].
  vm_compute in H. done.
Qed.

Lemma trim_end_matches_clean s : last s <> Some 13 -> trim_end_matches 13 s = s /\ trim_end_matches 13 (s ++ [13]) = s.
Proof.
  intros H. unfold trim_end_matches, trim_end_by. rewrite reverse_app. change (reverse [13]) with [13]. cbn [app drop_while].
  rewrite Z.eqb_refl. assert (drop_while (Z.eqb 13) (reverse s) = reverse s) as ->; [|by rewrite reverse_involutive].
  destruct s as [|y s _] using rev_ind; [done|]. rewrite last_snoc in H. rewrite reverse_snoc. cbn [drop_while].
  destruct (Z.eqb_spec 13 y); [congruence|done].
Qed.

Lemma all_ascii s : forallb (fun c => between 0 c 127) s = true -> str_ok s.
Proof.
  intros H. apply ascii_str_ok, Forall_forall. rewrite forallb_forall in H. intros c Hc%list_elem_of_In%H.
  unfold between in Hc. unfold is_ascii. lia.
Qed.

Lemma read_hline kv tail ls : clean_header kv -> tail = [] \/ tail = [13] ->
  header_lines ((hline kv ++ tail) :: ls) = cons kv <$> header_lines ls.
Proof.
  destruct kv as [k v]. intros (Hk & Hc & Hv) Ht. cbn [fst snd] in *. cbn [header_lines].
  assert (hline (k, v) ++ tail = as_bytes (k ++ lit ": " ++ v ++ tail)) as ->.
  { rewrite !as_bytes_app. unfold hline. cbn [fst snd]. rewrite <- !app_assoc. do 3 f_equal. by destruct Ht as [-> | ->]. }
  rewrite from_utf8_as_bytes; cbn [mbind option_bind].
  2: { apply Forall_app. split; [apply Hk|]. apply Forall_app. split; [by apply all_ascii|].
       apply Forall_app. split; [apply Hv|]. destruct Ht as [-> | ->]; [constructor|]. by apply all_ascii. }
  assert (trim_end_matches 13 (k ++ lit ": " ++ v ++ tail) = k ++ lit ": " ++ v) as ->.
  { destruct (trim_end_matches_clean (k ++ lit ": " ++ v)) as [H1 H2].
    - rewrite !last_app. destruct (last v) as [y|] eqn:Ey; [|done]. apply clean_last in Ey; [congruence|done].
    - destruct Ht as [-> | ->]; [by rewrite app_nil_r|]. by rewrite <- !app_assoc in H2. }
  rewrite bool_decide_false by (by destruct k). change (lit ": " ++ v) with ([58] ++ [32] ++ v).
  rewrite (split_once_first 58 [] k ([32] ++ v)) by done.
  assert (trim ([32] ++ v) = v) as -> by (by rewrite <- (cs_trim v Hv) at 2). rewrite (cs_trim k) by done.
  by destruct (header_lines ls).
Qed.

Lemma lit_no c s : bool_decide (c ∉ lit s) = true -> c ∉ lit s.
Proof. apply bool_decide_eq_true. Qed.

Lemma hline_ok kv : clean_header kv -> ok_line (hline kv).
Proof.
  destruct kv as [k v]. intros (Hk & _ & Hv). unfold ok_line, hline. cbn [fst snd] in *. split.
  - rewrite !elem_of_app, !as_bytes_elem by (try apply Hk; try apply Hv; unfold is_ascii; lia).
    intros [H|[H|H]]; [by apply Hk in H|by apply (lit_no 10 ": ") in H|by apply Hv in H].
  - intros H. apply app_eq_nil in H as [_ H]. done.
Qed.

Lemma header_lines_hline kvs : Forall clean_header kvs -> kvs <> [] ->
  header_lines (split_on 10 (join_lines (hline <$> kvs))) = Some kvs.
Proof.
  induction 1 as [|kv kvs Hkv Hkvs IH]; intros Hn; [done|]. pose proof (hline_ok kv Hkv) as Hok. rewrite fmap_cons.
  destruct kvs as [|kv2 kvs].
  - cbn [fmap list_fmap join_lines]. rewrite split_on_none by apply Hok. rewrite <- (app_nil_r (hline kv)).
    rewrite read_hline by auto. done.
  - rewrite split_on_join, read_hline by auto. by rewrite IH.
Qed.

Lemma kept_clean hs : Forall clean_header hs -> Forall clean_header (kept hs).
Proof. rewrite !Forall_forall. unfold kept. intros H kv Hin%list_elem_of_In%filter_In. by apply H, list_elem_of_In, Hin. Qed.

Lemma digits_clean s : Forall (fun c => is_digit c = true) s -> clean_str s.
Proof.
  intros H. assert (forall c, c ∈ s -> 48 <= c <= 57) as Hd.
  { rewrite Forall_forall in H. intros c Hc%H. unfold is_digit, between in Hc. lia. }
  assert (forall c, c ∈ s -> is_whitespace c = false) as Hw by (intros c Hc%Hd; unfold is_whitespace, between; lia).
  constructor; [apply Forall_forall; intros c Hc%Hd; unfold char_ok; lia|intros Hc%Hd; lia|].
  destruct s as [|x m] eqn:E; [done|]. destruct (last (x :: m)) as [y|] eqn:El; [|by apply last_None in El].
  eapply trim_id_of_ends; [done|exact El|apply Hw; set_solver|]. apply Hw. apply last_Some in El as [l ->]. set_solver.
Qed.

Lemma reply_headers_clean hs n : Forall clean_header hs -> 0 <= n -> Forall clean_header (reply_headers hs n).
Proof.
  intros Hh Hn. apply Forall_app. split; [by apply kept_clean|]. apply Forall_singleton. unfold clean_header. cbn [fst snd].
  split_and!; [|by apply lit_no|by apply digits_clean, dec_string_digits].
  constructor; [|by apply lit_no|by vm_compute]. by apply all_ascii.
Qed.

Lemma assemble_head_lines hs n : 0 <= n ->
  assemble_200_head hs n = join_lines (lit "HTTP/1.1 200 OK" :: (hline <$> reply_headers hs n)) ++ CRLF2.
Proof.
  intros Hn. unfold assemble_200_head, reply_headers. rewrite join_lines_cons by (by destruct (kept hs)).
  rewrite <- !app_assoc. do 2 f_equal. induction hs as [|[k v] hs IH].
  - cbn [kept List.filter app fmap list_fmap join_lines]. unfold hline. cbn [fst snd]. rewrite (as_bytes_ascii (dec_string n)) by (by apply dec_string_ascii).
    change (as_bytes (lit "Content-Length")) with (lit "Content-Length"). by rewrite <- !app_assoc.
  - rewrite bind_cons. unfold header_line, kept. cbn [List.filter fst snd]. destruct (skipped_header k); cbn [negb]; [exact IH|].
    cbn [app]. rewrite fmap_cons, join_lines_cons by (by destruct (List.filter _ hs)).
    rewrite <- !app_assoc. unfold hline at 1. cbn [fst snd]. rewrite <- !app_assoc. do 4 f_equal. exact IH.
Qed.

Lemma assembled_split hs n body : Forall clean_header hs -> 0 <= n ->
  split_once CRLF2 (assemble_200_head hs n ++ body)
  = Some (join_lines (lit "HTTP/1.1 200 OK" :: (hline <$> reply_headers hs n)), body).
Proof.
  intros Hh Hn. rewrite assemble_head_lines, <- app_assoc by done. apply split_join_lines; [|done]. constructor.
  - split; [by apply lit_no|done].
  - apply Forall_fmap. eapply Forall_impl; [by apply reply_headers_clean|]. apply hline_ok.
Qed.

(** Checks [clean_header] by evaluation. *)
Lemma clean_header_bool k v :
  forallb (fun c => between 0 c 127) (k ++ v) && bool_decide (10 ∉ k ++ v) && bool_decide (trim k = k) && bool_decide (trim v = v)
    && bool_decide (58 ∉ k) = true -> clean_header (k, v).
Proof.
  rewrite !andb_true_iff, forallb_app, andb_true_iff, !bool_decide_eq_true, not_elem_of_app.
  intros (((([H1 H2] & [H3 H4]) & H5) & H6) & H7).
  split; [|split; [done|]]; (constructor; [by apply all_ascii|done|done]).
Qed.

Lemma split_reply line code kvs body :
  ok_line line -> (s ← from_utf8 (line ++ [13]); w ← second_word (trim_end_matches 13 s); parse_u16 w) = Some code ->
  Forall clean_header kvs -> kvs <> [] ->
  split_response (join_lines (line :: (hline <$> kvs)) ++ CRLF2 ++ body) = Some (code, kvs, body).
Proof.
  intros Hl Hc Hk Hn. unfold split_response. rewrite split_join_lines; [|constructor; [done|]|done].
  2: { apply Forall_fmap. eapply Forall_impl; [exact Hk|]. apply hline_ok. }
  cbn [mbind option_bind]. rewrite split_on_join by (try done; by destruct kvs). rewrite header_lines_hline by done.
  apply bind_Some in Hc as (s & -> & (w & Hw & Hc)%bind_Some). cbn [mbind option_bind]. rewrite Hw. cbn [mbind option_bind].
  by rewrite Hc.
Qed.

Lemma split_assembled hs body : Forall clean_header hs ->
  split_response (assemble_full_200 hs body) = Some (200, reply_headers hs (len body), body).
Proof.
  intros Hh. pose proof (len_nonneg body). unfold assemble_full_200. rewrite assemble_head_lines, <- app_assoc by done.
  apply split_reply; [split; [by apply lit_no|done]|by vm_compute|by apply reply_headers_clean|].
  unfold reply_headers. by destruct (kept hs).
Qed.

Lemma find_header_app hs k n : Forall (fun kv => eq_ignore_ascii_case (fst kv) n = false) hs ->
  find_header (hs ++ k) n = find_header k n.
Proof. induction 1 as [|[a b] hs Hk _ IH]; cbn; [done|]. cbn in Hk. by rewrite Hk. Qed.

Lemma find_header_absent hs name : Forall (fun kv => eq_ignore_ascii_case (fst kv) name = false) hs -> find_header hs name = None.
Proof. intros H. rewrite <- (app_nil_r hs). by rewrite find_header_app. Qed.

Lemma kept_no_length hs : Forall (fun kv => eq_ignore_ascii_case (fst kv) (lit "content-length") = false) (kept hs).
Proof.
  apply Forall_forall. intros [k v] [_ H]%list_elem_of_In%filter_In. cbn [fst] in *. unfold eq_ignore_ascii_case.
  apply bool_decide_eq_false. intros E. unfold skipped_header in H. rewrite E in H. by vm_compute in H.
Qed.

Lemma reply_length hs n : 0 <= n <= u64_max ->
  find_header (reply_headers hs n) (lit "content-length") ≫= parse_u64 = Some n.
Proof.
  intros Hn. unfold reply_headers. rewrite find_header_app by apply kept_no_length. cbn [find_header].
  replace (eq_ignore_ascii_case (lit "Content-Length") (lit "content-length")) with true by (by vm_compute).
  apply parse_dec_string; [done|]. unfold u64_max in Hn. lia.
Qed.

(** Rewriting a partial response to a 200 loses nothing the client needs.  Whatever
    response the relay splits, the rewritten one splits into status 200, the same body, the
    same headers in the same order less those that describe the old framing, and one
    Content-Length, which is the length of the body. *)
Theorem rewrite_roundtrip (raw : bytes) (code : Z) (hs : headers_t) (body : bytes)
    (Hraw : bytes_ok raw) (Hsplit : split_response raw = Some (code, hs, body)) (Hlen : len body <= u64_max) :
  split_response (rewrite_206_to_200 raw) = Some (200, kept hs ++ [(lit "Content-Length", dec_string (len body))], body)
  /\ find_header (kept hs ++ [(lit "Content-Length", dec_string (len body))]) (lit "content-length") ≫= parse_u64
     = Some (len body).
Proof.
  unfold rewrite_206_to_200. rewrite Hsplit. split; [by eapply split_assembled, split_response_clean|].
  apply reply_length. pose proof (len_nonneg body). lia.
Qed.

Definition sample_206 : bytes :=
  lit "HTTP/1.1 206 Partial Content" ++ CRLF ++ lit "Content-Type: text/plain" ++ CRLF ++ lit "Content-Range: bytes 0-1/10"
  ++ CRLF ++ lit "Content-Length: 2" ++ CRLF2 ++ lit "ab".

Lemma rewrite_roundtrip_witness :
  split_response (rewrite_206_to_200 sample_206)
  = Some (200, [(lit "Content-Type", lit "text/plain"); (lit "Content-Length", lit "2")], lit "ab").
Proof.
  refine (proj1 (rewrite_roundtrip sample_206 206
    [(lit "Content-Type", lit "text/plain"); (lit "Content-Range", lit "bytes 0-1/10"); (lit "Content-Length", lit "2")]
    (lit "ab") _ _ _)).
  - apply (Forall_forall is_u8). intros x Hx. unfold is_u8. assert (between 0 x 255 = true); [|unfold between in *; lia].
    revert x Hx. apply Forall_forall, (bool_decide_eq_true_1 _). vm_compute. reflexivity.
  - vm_compute. reflexivity.
  - vm_compute. discriminate.
Defined.
