(* ===== verification/RangeRelay.v ===== *)
(** * src/domain_fronter.rs: range-parallel downloads

    A GET is probed with [Range: bytes=0-262143]; a 206 answer is completed by fetching
    the remaining ranges, which are stitched in memory or streamed to the client.

    [relay call method url headers body] is what [self.relay] returned to the call named
    by [call]: the first request, a later plain GET, or an attempt at a chunk.  Every call
    has a name of its own, so its answer may depend on anything; no assumption is made on
    it here.  [buffered] yields the chunks in the order of the plan.  Progress lines are
    left out. *)

From stdpp Require Import prelude.
From S2P Require Import Prelude RustStr NodeSession HttpText HttpRead HttpRewrite.
#[local] Open Scope Z_scope.

Definition RANGE_PARALLEL_CHUNK_BYTES : Z := 256 * 1024.
Definition APPS_SCRIPT_BODY_MAX_BYTES : Z := 40 * 1024 * 1024.
Definition MAX_STREAMED_RANGE_BYTES : Z := 16 * 1024 * 1024 * 1024.
Definition BUFFERED_STITCH_MAX_BYTES : Z := 64 * 1024 * 1024.
Definition MAX_CHUNK_ATTEMPTS : nat := 3.

Inductive RangeDispatch := Buffered | DStream | FallbackSingleGet | RejectTooLarge.

Definition dispatch_range_response (total : Z) (streaming_allowed : bool) : RangeDispatch :=
  if streaming_allowed && (MAX_STREAMED_RANGE_BYTES <? total) then RejectTooLarge
  else if streaming_allowed && (APPS_SCRIPT_BODY_MAX_BYTES <? total) then DStream
  else if negb streaming_allowed && (BUFFERED_STITCH_MAX_BYTES <? total) then FallbackSingleGet
  else Buffered.

(** ** The plan *)

(** The closure of [from_fn]: the next range and the new [start]. *)
Definition next_range (total chunk_size start : Z) : option (Z * Z * Z) :=
  if total <=? start then None
  else
    let e := Z.min (saturating_sub (saturating_add_u64 start chunk_size) 1) (total - 1) in
    Some (start, e, saturating_add_u64 e 1).

Fixpoint ranges_from (fuel : nat) (total chunk_size start : Z) : list (Z * Z) :=
  match fuel with
  | O => []
  | S fuel =>
    match next_range total chunk_size start with
    | None => []
    | Some (s, e, start) => (s, e) :: ranges_from fuel total chunk_size start
    end
  end.

(** [a.div_ceil(b)] *)
Definition div_ceil (a b : Z) : Z := (a + b - 1) / b.

Definition expected_chunks (probe_end total chunk : Z) : Z := div_ceil (total - probe_end - 1) chunk.

(** What the iterator yields: [expected_chunks] ranges (it is then at its end, see
    [range_plan]). *)
Definition plan_remaining_ranges (probe_end total chunk_size : Z) : list (Z * Z) :=
  ranges_from (Z.to_nat (expected_chunks probe_end total chunk_size)) total chunk_size (saturating_add_u64 probe_end 1).

(** ** Writing *)
Definition io_result : Type := res unit str.

Definition wr (w_ok : SessionWriter * bool) (k : SessionWriter -> SessionWriter * io_result) : SessionWriter * io_result :=
  match w_ok with (w, true) => k w | (w, false) => (w, Err (lit "write")) end.

Definition write_response_with_head_transform (w : SessionWriter) (response : bytes) (transform_head : bytes -> bytes)
    : SessionWriter * io_result :=
  match split_once CRLF2 response with
  | None => wr (write_all response w) (fun w => (w, Ok tt))
  | Some (head, body) =>
    wr (write_all (transform_head (head ++ CRLF2)) w) (fun w => wr (write_all body w) (fun w => (w, Ok tt)))
  end.

Fixpoint stream_chunks (w : SessionWriter) (fetches : list (Z * Z * res bytes str)) : SessionWriter * io_result :=
  match fetches with
  | [] => (w, Ok tt)
  | (_, _, Ok c) :: fetches => wr (write_all c w) (fun w => stream_chunks w fetches)
  | (_, _, Err reason) :: _ => (w, Err (lit "range-parallel-stream chunk failure: " ++ reason))
  | (_, _, Panic) :: _ => (w, Panic)
  end.

(** [flush_ok] is the outcome of the flush after the probe's body. *)
Definition stream_chunks_to_writer (flush_ok : bool) (w : SessionWriter) (head probe_body : bytes)
    (fetches : list (Z * Z * res bytes str)) : SessionWriter * io_result :=
  wr (write_all head w) (fun w => wr (write_all probe_body w) (fun w => wr (w, flush_ok) (fun w => stream_chunks w fetches))).

Definition stream_range_response_to (flush_ok : bool) (w : SessionWriter) (probe_resp_headers : headers_t) (probe_body : bytes)
    (total : Z) (chunks_stream : list (Z * Z * res bytes str)) (transform_head : bytes -> bytes) : SessionWriter * io_result :=
  stream_chunks_to_writer flush_ok w (transform_head (assemble_200_head probe_resp_headers total)) probe_body chunks_stream.

(** ** Fetching *)
Inductive Call := First | Single | Chunk (start : Z) (attempt : nat).

Definition is_range_header (kv : str * str) : bool := eq_ignore_ascii_case (fst kv) (lit "range").

Definition range_header (s e : Z) : str * str := (lit "Range", lit "bytes=" ++ dec_string s ++ lit "-" ++ dec_string e).

Section Relay.
Context (relay : Call -> str -> str -> headers_t -> bytes -> bytes).

(** The attempts at one chunk: [more] of them, the next being [attempt]. *)
Fixpoint fetch_attempts (url : str) (h : headers_t) (s e total : Z) (more attempt : nat) (last_err : str) : res bytes str :=
  match more with
  | O => Err last_err
  | S more =>
    let raw := relay (Chunk s attempt) (lit "GET") url h [] in
    match extract_exact_range_body raw s e total with
    | Ok body => Ok body
    | Err reason =>
      if negb (chunk_failure_is_retryable raw) then Err reason
      else fetch_attempts url h s e total more (S attempt) reason
    | Panic => Panic
    end
  end.

Definition fetch_chunk (url : str) (base_headers : headers_t) (total : Z) (r : Z * Z) : Z * Z * res bytes str :=
  let h := List.filter (fun kv => negb (is_range_header kv)) base_headers ++ [range_header (fst r) (snd r)] in
  (r, fetch_attempts url h (fst r) (snd r) total MAX_CHUNK_ATTEMPTS 0 (lit "no attempts")).

Definition fetch_chunks_stream (url : str) (base_headers : headers_t) (ranges : list (Z * Z)) (total : Z)
    : list (Z * Z * res bytes str) :=
  fetch_chunk url base_headers total <$> ranges.

(** Stitch: the bodies in order, or the first failure. *)
Fixpoint stitch (full : bytes) (fetches : list (Z * Z * res bytes str)) : option bytes :=
  match fetches with
  | [] => Some full
  | (_, _, Ok c) :: fetches => stitch (full ++ c) fetches
  | _ :: _ => None
  end.

Definition too_large_message : str := lit "Advertised Content-Range total exceeds relay's streaming ceiling. The origin reported a size larger than the relay is willing to fetch through Apps Script; refusing to spend daily quota on a likely-hostile or buggy origin.".

Definition do_relay_parallel_range_to (flush_ok : bool) (w : SessionWriter) (method url : str) (headers : headers_t) (body : bytes)
    (transform_head : bytes -> bytes) (streaming_allowed : bool) : SessionWriter * io_result :=
  let chunk := RANGE_PARALLEL_CHUNK_BYTES in
  let reply raw := write_response_with_head_transform w raw transform_head in
  if negb (bool_decide (method = lit "GET")) || negb (bool_decide (body = [])) then reply (relay First method url headers body)
  else if existsb is_range_header headers then reply (relay First method url headers body)
  else
    let probe_headers := headers ++ [range_header 0 (chunk - 1)] in
    let first := relay First method url probe_headers body in
    let single := relay Single method url headers body in
    match split_response first with
    | None => reply first
    | Some (status, resp_headers, resp_body) =>
      if negb (status =? 206) then reply first else
      match validate_probe_range status resp_headers resp_body (chunk - 1) with
      | None => reply single
      | Some probe_range =>
        let total := cr_total probe_range in
        if (total <=? chunk) || (total <=? cr_end probe_range + 1) then reply (rewrite_206_to_200 first) else
        let fetches := fetch_chunks_stream url headers (plan_remaining_ranges (cr_end probe_range) total chunk) total in
        match dispatch_range_response total streaming_allowed with
        | DStream => stream_range_response_to flush_ok w resp_headers resp_body total fetches transform_head
        | FallbackSingleGet => reply single
        | RejectTooLarge => reply (error_response 502 too_large_message)
        | Buffered =>
          match stitch resp_body fetches with
          | None => reply single
          | Some full => if negb (len full =? total) then reply single else reply (assemble_full_200 resp_headers full)
          end
        end
      end
    end.

(** The [Vec<u8>] wrapper, whose writer accepts everything. *)
Definition relay_parallel_range (method url : str) (headers : headers_t) (body : bytes) : bytes :=
  w_out (fst (do_relay_parallel_range_to true (mkWriter [] None) method url headers body (fun head => head) false)).
End Relay.

(** * The stitched download, proved

    The plan covers the entity once, in order; from an origin that serves slices of one
    entity, the client receives that entity, or an answer that does not pass for it. *)

(** ** The plan *)

(** [l] cuts [start, total) into consecutive ranges of at most [chunk] bytes. *)
Fixpoint covers (chunk start total : Z) (l : list (Z * Z)) : Prop :=
  match l with
  | [] => start = total
  | (s, e) :: l => s = start /\ s <= e < total /\ e - s + 1 <= chunk /\ covers chunk (e + 1) total l
  end.

Lemma next_range_spec total chunk start : 0 <= start < total -> total <= u64_max -> 0 < chunk ->
  let e := Z.min (start + chunk) total - 1 in next_range total chunk start = Some (start, e, e + 1).
Proof.
  intros Hs Ht Hc. unfold next_range, saturating_add_u64, saturating_sub. destruct (Z.leb_spec total start); [lia|].
  assert (Z.min (Z.max 0 (Z.min (start + chunk) u64_max - 1)) (total - 1) = Z.min (start + chunk) total - 1) as -> by lia.
  cbv zeta. do 2 f_equal. lia.
Qed.

Lemma div_ceil_step a c : 0 < c -> 0 < a -> div_ceil a c = 1 + div_ceil (Z.max 0 (a - c)) c.
Proof.
  intros Hc Ha. unfold div_ceil. destruct (Z.le_gt_cases a c).
  - rewrite Z.max_l by lia. rewrite (Z.div_small (0 + c - 1) c) by lia.
    symmetry. apply (Z.div_unique_pos _ _ _ (a - 1)); lia.
  - rewrite Z.max_r by lia. replace (a + c - 1) with (a - c + c - 1 + 1 * c) by lia. rewrite Z.div_add by lia. lia.
Qed.

Lemma ranges_from_spec fuel total chunk start : 0 < chunk -> 0 <= start <= total -> total <= u64_max ->
  div_ceil (total - start) chunk = Z.of_nat fuel ->
  covers chunk start total (ranges_from fuel total chunk start) /\ len (ranges_from fuel total chunk start) = Z.of_nat fuel.
Proof.
  intros Hc. revert start. induction fuel as [|fuel IH]; intros start Hs Ht Hf; cbn [ranges_from covers].
  - split; [|done]. destruct (decide (start = total)); [done|]. rewrite div_ceil_step in Hf by lia.
    assert (0 <= div_ceil (Z.max 0 (total - start - chunk)) chunk); [|lia]. unfold div_ceil. apply Z.div_pos; lia.
  - destruct (decide (start = total)) as [->|].
    { replace (total - total) with 0 in Hf by lia. unfold div_ceil in Hf. rewrite Z.div_small in Hf; lia. }
    rewrite next_range_spec by lia. cbv zeta. cbn [covers]. rewrite div_ceil_step in Hf by lia.
    destruct (IH (Z.min (start + chunk) total - 1 + 1)) as [H1 H2]; [lia|done| |].
    { replace (total - (Z.min (start + chunk) total - 1 + 1)) with (Z.max 0 (total - start - chunk)) by lia. lia. }
    rewrite len_cons, H2. split_and!; try done; lia.
Qed.

Lemma plan_spec probe_end total chunk : 0 <= probe_end < total -> total <= u64_max -> 0 < chunk ->
  covers chunk (probe_end + 1) total (plan_remaining_ranges probe_end total chunk)
  /\ len (plan_remaining_ranges probe_end total chunk) = expected_chunks probe_end total chunk.
Proof.
  intros Hp Ht Hc. unfold plan_remaining_ranges, expected_chunks, saturating_add_u64. rewrite Z.min_l by lia.
  replace (total - probe_end - 1) with (total - (probe_end + 1)) by lia.
  assert (0 <= div_ceil (total - (probe_end + 1)) chunk) by (unfold div_ceil; apply Z.div_pos; lia).
  rewrite <- (Z2Nat.id (div_ceil _ _)) at 3 by done. apply ranges_from_spec; lia.
Qed.

(** The ranges fetched after the probe cut the rest of the entity into consecutive
    pieces of at most one chunk, none empty, none past the end; their number is the one
    announced; the iterator ends; and a stream that is not refused fetches at most 65536
    of them, whatever total the origin advertises. *)
Theorem range_plan (probe_end total chunk : Z) (Hprobe : 0 <= probe_end < total) (Htotal : total <= u64_max) (Hchunk : 0 < chunk) :
  let plan := plan_remaining_ranges probe_end total chunk in
  covers chunk (probe_end + 1) total plan
  /\ len plan = expected_chunks probe_end total chunk
  /\ next_range total chunk (default (probe_end + 1) ((fun r => snd r + 1) <$> last plan)) = None
  /\ (chunk = RANGE_PARALLEL_CHUNK_BYTES -> dispatch_range_response total true <> RejectTooLarge -> len plan <= 65536).
Proof.
  destruct (plan_spec probe_end total chunk) as [Hc Hl]; [done..|]. cbv zeta. split_and!; [done|done| |].
  - generalize (probe_end + 1), (plan_remaining_ranges probe_end total chunk), Hc. clear Hc Hl. intros start l Hc.
    assert (default start ((fun r => snd r + 1) <$> last l) = total) as ->.
    { revert start Hc. induction l as [|[s e] l IH]; intros start Hc; [done|]. cbn [covers] in Hc. destruct Hc as (_ & _ & _ & Hc).
      specialize (IH (e + 1) Hc). destruct l as [|r l]; [done|]. rewrite last_cons_cons. rewrite last_cons in IH |- *.
      by destruct (last l). }
    unfold next_range. by rewrite Z.leb_refl.
  - intros -> Hd. rewrite Hl. unfold dispatch_range_response in Hd. cbn [andb negb] in Hd.
    destruct (Z.ltb_spec MAX_STREAMED_RANGE_BYTES total) as [|Hm]; [done|].
    unfold expected_chunks, div_ceil, RANGE_PARALLEL_CHUNK_BYTES in *. unfold MAX_STREAMED_RANGE_BYTES in Hm. 
    apply Z.lt_succ_r, Z.div_lt_upper_bound; lia.
Qed.

Lemma range_plan_witness : len (plan_remaining_ranges 262143 1000000 RANGE_PARALLEL_CHUNK_BYTES) = 3.
Proof.
  refine (eq_trans (proj1 (proj2 (range_plan 262143 1000000 RANGE_PARALLEL_CHUNK_BYTES _ _ _))) _);
    [lia|by vm_compute|by vm_compute|by vm_compute].
Defined.

(** ** Slices of one entity *)
Definition slice (D : bytes) (s e : Z) : bytes := take (Z.to_nat (e - s + 1)) (drop (Z.to_nat s) D).

(** A response that claims to be a range and carries as many bytes is that range of [D]. *)
Definition serves (D raw : bytes) : Prop :=
  forall hs body r, split_response raw = Some (206, hs, body) -> parse_content_range hs = Some r ->
    content_range_matches_body r (len body) = true -> cr_total r = len D /\ body = slice D (cr_start r) (cr_end r).

Lemma slice_extend D s e : 0 <= s -> s - 1 <= e -> take (Z.to_nat s) D ++ slice D s e = take (Z.to_nat (e + 1)) D.
Proof. intros. unfold slice. rewrite take_take_drop. f_equal. lia. Qed.

Lemma exact_serves D raw s e total b : serves D raw -> extract_exact_range_body raw s e total = Ok b -> b = slice D s e.
Proof.
  unfold extract_exact_range_body. intros Hs. destruct (split_response raw) as [[[st hs] body]|] eqn:E; [|done].
  destruct (Z.eqb_spec st 206) as [->|]; [|done]. cbn [negb]. destruct (parse_content_range hs) as [r|] eqn:Er; [|done].
  destruct (Z.eqb_spec (cr_start r) s) as [<-|]; [|done]. destruct (Z.eqb_spec (cr_end r) e) as [<-|]; [|done].
  destruct (cr_total r =? total); [|done]. cbn [negb orb].
  destruct (content_range_matches_body r (len body)) eqn:Em; [|done]. intros [= <-]. by eapply Hs.
Qed.

Lemma extract_not_panic raw s e total : extract_exact_range_body raw s e total <> Panic.
Proof. unfold extract_exact_range_body. repeat case_match; done. Qed.

Lemma parse_content_range_ok hs r : parse_content_range hs = Some r -> 0 <= cr_start r <= cr_end r /\ cr_end r < cr_total r <= u64_max.
Proof.
  unfold parse_content_range. intros (v & _ & ([u rest] & _ & H)%bind_Some)%bind_Some. destruct (negb _); [done|].
  apply bind_Some in H as ([range tot] & _ & ([a b] & _ & (s & Hs & (e & He & (t & Ht & H)%bind_Some)%bind_Some)%bind_Some)%bind_Some).
  assert (0 <= u64_max) as Hm by (unfold u64_max; lia).
  apply (parse_uint_bound _ _ _ Hm) in Hs, He, Ht.
  destruct (Z.ltb_spec e s); [done|]. destruct (Z.eqb_spec t 0); [done|]. destruct (Z.leb_spec t e); [done|].
  cbn [orb] in H. injection H as <-. cbn [cr_start cr_end cr_total]. lia.
Qed.

Section Download.
Context (relay : Call -> str -> str -> headers_t -> bytes -> bytes) (D : bytes).
Hypothesis Hserves : forall c m u h b, serves D (relay c m u h b).

Lemma fetch_attempts_serves url h s e total more attempt last :
  (exists reason, fetch_attempts relay url h s e total more attempt last = Err reason)
  \/ fetch_attempts relay url h s e total more attempt last = Ok (slice D s e).
Proof.
  revert attempt last. induction more as [|more IH]; intros attempt last; cbn [fetch_attempts]; [left; by eexists|].
  destruct (extract_exact_range_body _ s e total) as [b|reason|] eqn:E; [|destruct (negb _); [left; by eexists|apply IH]|].
  - right. f_equal. by eapply exact_serves.
  - by apply extract_not_panic in E.
Qed.

Lemma fetch_chunk_serves url base total s e :
  (exists reason, fetch_chunk relay url base total (s, e) = (s, e, Err reason))
  \/ fetch_chunk relay url base total (s, e) = (s, e, Ok (slice D s e)).
Proof.
  unfold fetch_chunk. cbn [fst snd]. destruct (fetch_attempts_serves url
    (List.filter (fun kv => negb (is_range_header kv)) base ++ [range_header s e]) s e total MAX_CHUNK_ATTEMPTS 0 (lit "no attempts"))
    as [[reason ->] | ->]; [left; by eexists|by right].
Qed.

Definition fetched (f : Z * Z * res bytes str) : Prop := exists b, snd f = Ok b.

Lemma stitch_covers url base chunk start ranges : 0 <= start -> covers chunk start (len D) ranges ->
  let fetches := fetch_chunks_stream relay url base ranges (len D) in
  (stitch (take (Z.to_nat start) D) fetches = None /\ ~ Forall fetched fetches)
  \/ stitch (take (Z.to_nat start) D) fetches = Some D.
Proof.
  revert start. induction ranges as [|[s e] ranges IH]; intros start Hs Hc; cbn [covers] in Hc; cbv zeta; cbn [fetch_chunks_stream fmap list_fmap stitch].
  - subst start. right. unfold len. by rewrite Nat2Z.id, take_ge by done.
  - destruct Hc as (-> & Hse & _ & Hc).
    destruct (fetch_chunk_serves url base (len D) start e) as [[reason E]|E]; rewrite E; cbn [stitch].
    + left. split; [done|]. by intros [[b Hb] _]%Forall_cons.
    + rewrite slice_extend by lia. destruct (IH (e + 1)) as [[H1 H2]|H]; [lia|done| |by right].
      left. split; [exact H1|]. by intros [_ ?]%Forall_cons.
Qed.

Lemma stream_covers url base chunk start ranges pre : 0 <= start -> covers chunk start (len D) ranges ->
  let fetches := fetch_chunks_stream relay url base ranges (len D) in
  stream_chunks (mkWriter (pre ++ take (Z.to_nat start) D) None) fetches = (mkWriter (pre ++ D) None, Ok tt)
  \/ ~ Forall fetched fetches /\ exists n reason, n < len D /\
     stream_chunks (mkWriter (pre ++ take (Z.to_nat start) D) None) fetches = (mkWriter (pre ++ take (Z.to_nat n) D) None, Err reason).
Proof.
  revert start. induction ranges as [|[s e] ranges IH]; intros start Hs Hc; cbn [covers] in Hc; cbv zeta; cbn [fetch_chunks_stream fmap list_fmap stream_chunks].
  - subst start. left. unfold len. by rewrite Nat2Z.id, take_ge by done.
  - destruct Hc as (-> & Hse & _ & Hc).
    destruct (fetch_chunk_serves url base (len D) start e) as [[reason E]|E]; rewrite E; cbn [stream_chunks].
    + right. split; [|exists start; eexists; split; [lia|done]].
      by intros [[b Hb] _]%Forall_cons.
    + unfold wr, write_all. cbn [w_room w_out]. rewrite <- app_assoc, slice_extend by lia.
      destruct (IH (e + 1)) as [H|[Hn H]]; [lia|done|by left|]. right. split; [|exact H]. by intros [_ ?]%Forall_cons.
Qed.
End Download.

(** ** The download *)
Lemma reply_assembled hs body tr pre : Forall clean_header hs ->
  write_response_with_head_transform (mkWriter pre None) (assemble_full_200 hs body) tr
  = (mkWriter (pre ++ tr (assemble_200_head hs (len body)) ++ body) None, Ok tt).
Proof.
  intros Hh. pose proof (len_nonneg body). unfold write_response_with_head_transform, assemble_full_200.
  rewrite assembled_split by done. unfold wr, write_all. cbn [w_room w_out].
  by rewrite <- assemble_head_lines, <- app_assoc by done.
Qed.

(** The buffered branch: the entity, or the alternative when a chunk failed. *)
Lemma buffered_outcome relay D (Hserves : forall c m u h b, serves D (relay c m u h b)) url headers hs tr chunk start alt ranges :
  0 <= start -> covers chunk start (len D) ranges -> Forall clean_header hs ->
  let fetches := fetch_chunks_stream relay url headers ranges (len D) in
  let outcome := match stitch (take (Z.to_nat start) D) fetches with
                 | None => alt
                 | Some full => if negb (len full =? len D) then alt
                                else write_response_with_head_transform (mkWriter [] None) (assemble_full_200 hs full) tr
                 end in
  outcome = (mkWriter (tr (assemble_200_head hs (len D)) ++ D) None, Ok tt) \/ ~ Forall fetched fetches /\ outcome = alt.
Proof.
  intros Hs Hc Hh. cbv zeta. destruct (stitch_covers relay D Hserves url headers _ _ _ Hs Hc) as [[-> Hn]| ->]; [by right|].
  left. rewrite Z.eqb_refl. cbn [negb]. by apply reply_assembled.
Qed.

Lemma validate_probe_spec status hs b e r : validate_probe_range status hs b e = Some r ->
  parse_content_range hs = Some r /\ cr_start r = 0 /\ cr_end r <= e
  /\ (e + 1 < cr_total r -> content_range_matches_body r (len b) = true).
Proof.
  unfold validate_probe_range, probe_range_covers_complete_entity, saturating_add_u64.
  destruct (negb (status =? 206)); [done|]. intros (q & Eq & H)%bind_Some. destruct (Z.eqb_spec (cr_start q) 0) as [E0|]; [|done].
  destruct (Z.ltb_spec e (cr_end q)); [done|]. cbn [negb orb] in H.
  destruct (content_range_matches_body q (len b)) eqn:Em; cbn [orb] in H.
  { injection H as <-. done. }
  destruct (Z.leb_spec (cr_total q) (Z.min (e + 1) u64_max)) as [Hle|]; [|by rewrite andb_false_r in H].
  destruct (true && _) in H; [|done]. injection H as <-. split_and!; [done..|]. lia.
Qed.

(** Claim C14: what a range-parallel download delivers.  Let the origin serve slices of one
    entity (a response that calls itself a range of some length is that range), and let the
    probe be answered by a valid 206.  When the total it announces is at most one chunk
    (256 KiB), the client receives a 200 with the probe's bytes and their length, whatever
    is missing: the entity only if the probe brought all of it.  Otherwise the client
    receives a 200 whose Content-Length is the entity's length and whose body is the
    entity; or, only if a chunk failed, only when streaming and only above 40 MiB, such a
    head, a proper prefix and an error; or, if a chunk failed or the wrapper's limit is
    exceeded, the answer to a single GET; or, above 16 GiB, a refusal; and when every chunk
    is fetched and the entity is within the limits, all of it. *)
Theorem range_download (relay : Call -> str -> str -> headers_t -> bytes -> bytes) (tr : bytes -> bytes) (streaming : bool)
    (url : str) (headers hs : headers_t) (D b : bytes) (r : ContentRange)
    (Hserves : forall c m u h b, serves D (relay c m u h b))
    (Hbytes : forall c m u h b, bytes_ok (relay c m u h b))
    (Hnorange : existsb is_range_header headers = false)
    (Hprobe : split_response (relay First (lit "GET") url (headers ++ [range_header 0 (RANGE_PARALLEL_CHUNK_BYTES - 1)]) [])
              = Some (206, hs, b))
    (Hvalid : validate_probe_range 206 hs b (RANGE_PARALLEL_CHUNK_BYTES - 1) = Some r) :
  let run := do_relay_parallel_range_to relay true (mkWriter [] None) (lit "GET") url headers [] tr streaming in
  let reply raw := write_response_with_head_transform (mkWriter [] None) raw tr in
  let head := tr (assemble_200_head hs (len D)) in
  let all_fetched := Forall fetched (fetch_chunks_stream relay url headers
        (plan_remaining_ranges (cr_end r) (len D) RANGE_PARALLEL_CHUNK_BYTES) (len D)) in
  (cr_total r <= RANGE_PARALLEL_CHUNK_BYTES ->
     run = (mkWriter (tr (assemble_200_head hs (len b)) ++ b) None, Ok tt)
     /\ (content_range_matches_body r (len b) = true ->
         cr_total r = len D /\ b = take (Z.to_nat (cr_end r + 1)) D /\ (cr_end r + 1 = cr_total r -> b = D)))
  /\ (RANGE_PARALLEL_CHUNK_BYTES < cr_total r ->
  (run = (mkWriter (head ++ D) None, Ok tt)
   \/ (streaming = true /\ APPS_SCRIPT_BODY_MAX_BYTES < len D <= MAX_STREAMED_RANGE_BYTES /\ ~ all_fetched
       /\ exists n reason, n < len D /\ run = (mkWriter (head ++ take (Z.to_nat n) D) None, Err reason))
   \/ ((streaming = false /\ BUFFERED_STITCH_MAX_BYTES < len D \/ ~ all_fetched)
       /\ run = reply (relay Single (lit "GET") url headers []))
   \/ (streaming = true /\ MAX_STREAMED_RANGE_BYTES < len D /\ run = reply (error_response 502 too_large_message)))
  /\ (all_fetched -> len D <= (if streaming then MAX_STREAMED_RANGE_BYTES else BUFFERED_STITCH_MAX_BYTES) ->
      run = (mkWriter (head ++ D) None, Ok tt))).
Proof.
  intros run reply head all_fetched.
  destruct (validate_probe_spec _ _ _ _ _ Hvalid) as (Hparse & H0 & He & Hbig). destruct (parse_content_range_ok _ _ Hparse) as [H1 H2].
  assert (Forall clean_header hs) as Hclean by (by eapply split_response_clean).
  assert (content_range_matches_body r (len b) = true -> cr_total r = len D /\ b = take (Z.to_nat (cr_end r + 1)) D) as Hslice.
  { intros Hmatch. destruct (Hserves _ _ _ _ _ _ _ _ Hprobe Hparse Hmatch) as [HD ->]. split; [done|].
    rewrite H0. unfold slice. cbn [drop Z.to_nat]. f_equal. lia. }
  unfold run. clear run. unfold do_relay_parallel_range_to. rewrite !bool_decide_true by done. cbn [negb orb].
  rewrite Hnorange, Hprobe, Z.eqb_refl, Hvalid. cbn [negb]. fold reply. split.
  { intros Hsmall. destruct (Z.leb_spec (cr_total r) RANGE_PARALLEL_CHUNK_BYTES); [|lia]. cbn [orb].
    unfold rewrite_206_to_200. rewrite Hprobe. unfold reply. rewrite reply_assembled by done. split; [done|].
    intros Hm. destruct (Hslice Hm) as [HD Hb]. split_and!; [done..|]. intros Hend.
    rewrite Hb, Hend, HD. unfold len. by rewrite Nat2Z.id, take_ge by done. }
  intros Hlarge. destruct (Hslice (Hbig ltac:(lia))) as [HD Hb'].
  destruct (Z.leb_spec (cr_total r) RANGE_PARALLEL_CHUNK_BYTES); [lia|].
  cbn [orb]. destruct (Z.leb_spec (cr_total r) (cr_end r + 1)); [lia|]. rewrite HD in *.
  destruct (plan_spec (cr_end r) (len D) RANGE_PARALLEL_CHUNK_BYTES) as [Hc _]; [lia|lia|by vm_compute|].
  assert (0 <= cr_end r + 1) as Hpos by lia. unfold dispatch_range_response.
  destruct streaming; cbn [andb negb].
  - destruct (Z.ltb_spec MAX_STREAMED_RANGE_BYTES (len D)) as [Hm|Hm]; [split; [by right; right; right|lia]|].
    destruct (Z.ltb_spec APPS_SCRIPT_BODY_MAX_BYTES (len D)) as [Ha|Ha].
    + unfold stream_range_response_to, stream_chunks_to_writer, wr, write_all. cbn [w_room w_out app]. rewrite Hb'. fold head.
      destruct (stream_covers relay D Hserves url headers _ _ _ head Hpos Hc) as [Hst|[Hn (n & reason & Hlt & Hst)]].
      * rewrite Hst. split; [by left|done].
      * split; [|by intros ?]. right. left. split_and!; [done|done|done|done|]. by exists n, reason.
    + rewrite Hb'. destruct (buffered_outcome relay D Hserves url headers hs tr _ _ (reply (relay Single (lit "GET") url headers []))
        _ Hpos Hc Hclean) as [Hst|[Hn Hst]]; unfold reply in Hst |- *; rewrite Hst; [split; [by left|done]|].
      split; [|by intros ?]. right. right. left. split; [by right|done].
  - destruct (Z.ltb_spec BUFFERED_STITCH_MAX_BYTES (len D)) as [Hm|Hm]; [split; [right; right; left; split; [by left|done]|lia]|].
    rewrite Hb'. destruct (buffered_outcome relay D Hserves url headers hs tr _ _ (reply (relay Single (lit "GET") url headers []))
      _ Hpos Hc Hclean) as [Hst|[Hn Hst]]; unfold reply in Hst |- *; rewrite Hst; [split; [by left|done]|].
    split; [|by intros ?]. right. right. left. split; [by right|done].
Qed.

(** ** Examples *)
Definition range_reply (range : string) (body : bytes) : bytes :=
  lit "HTTP/1.1 206 Partial Content" ++ CRLF ++ lit "Content-Type: text/plain" ++ CRLF ++ lit "Content-Range: bytes " ++ lit range
  ++ CRLF2 ++ body.

Lemma range_reply_split range body : clean_header (lit "Content-Range", lit "bytes " ++ lit range) ->
  as_bytes (lit "bytes " ++ lit range) = lit "bytes " ++ lit range ->
  split_response (range_reply range body)
  = Some (206, [(lit "Content-Type", lit "text/plain"); (lit "Content-Range", lit "bytes " ++ lit range)], body).
Proof.
  intros Hc Ha. rewrite <- (split_reply (lit "HTTP/1.1 206 Partial Content") 206); [| |by vm_compute| |done].
  - unfold range_reply. cbn [fmap list_fmap join_lines]. unfold hline. cbn [fst snd].
    rewrite Ha, <- !app_assoc. reflexivity.
  - split; [by apply lit_no|done].
  - apply Forall_cons. split; [by apply clean_header_bool|by apply Forall_singleton].
Qed.

(** An entity of 300000 bytes, in two ranges. *)
Definition ranged_entity : bytes := replicate (Z.to_nat 300000) 120.
Definition ranged_origin (c : Call) (_ _ : str) (_ : headers_t) (_ : bytes) : bytes :=
  match c with
  | First => range_reply "0-262143/300000" (slice ranged_entity 0 262143)
  | Chunk _ _ => range_reply "262144-299999/300000" (slice ranged_entity 262144 299999)
  | Single => []
  end.
Definition ranged_headers : headers_t := [(lit "Content-Type", lit "text/plain"); (lit "Content-Range", lit "bytes 0-262143/300000")].

Lemma len_slice_entity s e : 0 <= s <= e -> e < 300000 -> len (slice ranged_entity s e) = e - s + 1.
Proof. intros. unfold len, slice, ranged_entity. rewrite length_take, length_drop, length_replicate. lia. Qed.

Lemma ranged_first u h b m : split_response (ranged_origin First m u h b) = Some (206, ranged_headers, slice ranged_entity 0 262143).
Proof. unfold ranged_origin. rewrite range_reply_split; [reflexivity|by apply clean_header_bool|reflexivity]. Qed.

Lemma ranged_chunk s n u h b m : split_response (ranged_origin (Chunk s n) m u h b)
  = Some (206, [(lit "Content-Type", lit "text/plain"); (lit "Content-Range", lit "bytes 262144-299999/300000")], slice ranged_entity 262144 299999).
Proof. unfold ranged_origin. rewrite range_reply_split; [reflexivity|by apply clean_header_bool|reflexivity]. Qed.

Lemma ranged_serves c m u h b : serves ranged_entity (ranged_origin c m u h b).
Proof.
  intros hs body r Hs Hr _. assert (len ranged_entity = 300000) as -> by (unfold len, ranged_entity; rewrite length_replicate; lia).
  destruct c as [| |s n]; [rewrite ranged_first in Hs|done|rewrite ranged_chunk in Hs].
  - remember (slice ranged_entity 0 262143) as sl eqn:Esl. injection Hs as <- <-.
    change (parse_content_range ranged_headers) with (Some (mkRange 0 262143 300000)) in Hr. injection Hr as <-. by split.
  - remember (slice ranged_entity 262144 299999) as sl eqn:Esl. injection Hs as <- <-.
    change (parse_content_range _) with (Some (mkRange 262144 299999 300000)) in Hr. injection Hr as <-. by split.
Qed.

Lemma ranged_bytes c m u h b : bytes_ok (ranged_origin c m u h b).
Proof.
  assert (forall l, forallb (fun x => between 0 x 255) l = true -> bytes_ok l) as Hl.
  { intros l H. apply Forall_forall. intros x Hx. rewrite forallb_forall in H. apply list_elem_of_In in Hx. specialize (H x Hx).
    unfold between in H. unfold is_u8. lia. }
  assert (forall s e, bytes_ok (slice ranged_entity s e)) as Hs.
  { intros s e. unfold slice, ranged_entity. apply Forall_take, Forall_drop, Forall_replicate. unfold is_u8. lia. }
  unfold ranged_origin, range_reply. destruct c; [|constructor|]; repeat (apply Forall_app; split); try apply Hs; by apply Hl.
Qed.

Lemma ranged_fetched : Forall fetched (fetch_chunks_stream ranged_origin (lit "http://h/") []
  (plan_remaining_ranges 262143 300000 RANGE_PARALLEL_CHUNK_BYTES) 300000).
Proof.
  change (plan_remaining_ranges _ _ _) with [(262144, 299999)]. unfold fetch_chunks_stream. cbn [fmap list_fmap]. apply Forall_singleton.
  exists (slice ranged_entity 262144 299999). unfold fetch_chunk, MAX_CHUNK_ATTEMPTS. cbn [fst snd fetch_attempts].
  unfold extract_exact_range_body at 1. rewrite ranged_chunk. cbv beta iota.
  change (parse_content_range _) with (Some (mkRange 262144 299999 300000)).
  cbn [cr_start cr_end cr_total]. rewrite !Z.eqb_refl. cbn [negb orb].
  unfold content_range_matches_body. rewrite len_slice_entity by lia. reflexivity.
Qed.

(** All of the entity, from two ranges. *)
Lemma range_download_witness :
  do_relay_parallel_range_to ranged_origin true (mkWriter [] None) (lit "GET") (lit "http://h/") [] [] (fun h => h) true
  = (mkWriter (assemble_200_head ranged_headers 300000 ++ ranged_entity) None, Ok tt).
Proof.
  assert (len ranged_entity = 300000) as Hlen by (unfold len, ranged_entity; rewrite length_replicate; lia).
  destruct (range_download ranged_origin (fun h => h) true (lit "http://h/") [] ranged_headers ranged_entity
    (slice ranged_entity 0 262143) (mkRange 0 262143 300000)) as [_ H].
  - apply ranged_serves.
  - apply ranged_bytes.
  - reflexivity.
  - apply ranged_first.
  - unfold validate_probe_range. change (parse_content_range ranged_headers) with (Some (mkRange 0 262143 300000)).
    cbn [negb mbind option_bind Z.eqb Pos.eqb cr_start cr_end]. unfold content_range_matches_body. rewrite len_slice_entity by lia. reflexivity.
  - destruct (H eq_refl) as [_ H']. rewrite Hlen in H'. apply H'; [apply ranged_fetched|vm_compute; discriminate].
Defined.

(** A short probe passes for a complete download.  An origin may answer the probe
    with fewer bytes than asked; when it does so for an entity of at most 256 KiB, the
    answer is rewritten to a 200 whose Content-Length is that of the part, instead of
    being completed: the client gets two of ten bytes and no sign that any are missing. *)
Theorem short_probe_truncates :
  let origin (_ : Call) (_ _ : str) (_ : headers_t) (_ : bytes) := range_reply "0-1/10" (lit "ab") in
  relay_parallel_range origin (lit "GET") (lit "http://h/") [] []
  = lit "HTTP/1.1 200 OK" ++ CRLF ++ lit "Content-Type: text/plain" ++ CRLF ++ lit "Content-Length: 2" ++ CRLF2 ++ lit "ab".
Proof. vm_compute. reflexivity. Qed.

(** Two chunks after the probe, one of them answered at the third attempt. *)
Example stitched_download :
  let D := repeat 120 (Z.to_nat 600000) in
  let origin (c : Call) (_ _ : str) (_ : headers_t) (_ : bytes) :=
    match c with
    | First => range_reply "0-262143/600000" (slice D 0 262143)
    | Chunk s attempt =>
      if s =? 262144 then
        if (attempt <? 2)%nat then error_response 504 (lit "busy") else range_reply "262144-524287/600000" (slice D 262144 524287)
      else range_reply "524288-599999/600000" (slice D 524288 599999)
    | Single => []
    end in
  let out := relay_parallel_range origin (lit "GET") (lit "http://h/") [] [] in
  bool_decide (out = assemble_full_200 [(lit "Content-Type", lit "text/plain")] D) = true.
Proof. vm_compute. reflexivity. Qed.
