(* ===== verification/Calendar.v ===== *)
(** * src/domain_fronter.rs: the quota day in Pacific Time

    Google resets the quota of a deployment at midnight Pacific Time.  The counters of the
    day are kept under the key of the Pacific date, computed without a calendar library:
    Hinnant's dates from day numbers, Sakamoto's day of the week, and the rule of daylight
    saving time rounded to whole days.  Instants are Unix seconds, a [u64]; dates are
    triples of a year, a month and a day.

    The reference is a calendar that counts: dates from 1970-01-01 on, one [next_date] at a
    time, days of the week from that Thursday, and clocks that change at 02:00 local time
    on the second Sunday of March and the first Sunday of November. *)

From stdpp Require Import prelude sorting.
From S2P Require Import Prelude RustStr.
#[local] Open Scope Z_scope.

Definition date : Type := Z * Z * Z.

Definition DAY : Z := 86400.
Definition HOUR : Z := 3600.

(** ** The code *)
Definition unix_to_ymd_utc (secs : Z) : date :=
  let days := secs / 86400 in
  let z := days + 719468 in
  let era := (if 0 <=? z then z else z - 146096) ÷ 146097 in
  let doe := z - era * 146097 in
  let yoe := (doe - doe / 1460 + doe / 36524 - doe / 146096) / 365 in
  let y := yoe + era * 400 in
  let doy := doe - (365 * yoe + yoe / 4 - yoe / 100) in
  let mp := (5 * doy + 2) / 153 in
  let d := doy - (153 * mp + 2) / 5 + 1 in
  let m := if mp <? 10 then mp + 3 else mp - 9 in
  let y := if m <=? 2 then y + 1 else y in
  (y, m, d).

(** Sakamoto's table; the month is 3 or 11 wherever it is read. *)
Definition T : list Z := [0; 3; 2; 5; 0; 3; 5; 1; 4; 6; 2; 4].

Definition nth_sunday_of_month (year month nth : Z) : Z :=
  let y := if month <? 3 then year - 1 else year in
  let dow_of_1st := (y + y ÷ 4 - y ÷ 100 + y ÷ 400 + T !!! Z.to_nat (month - 1) + 1) mod 7 in
  let first_sunday := if dow_of_1st =? 0 then 1 else 8 - dow_of_1st in
  first_sunday + (nth - 1) * 7.

Definition pacific_is_dst (year month day : Z) : bool :=
  if negb ((3 <=? month) && (month <=? 11)) then false
  else if (3 <? month) && (month <? 11) then true
  else if month =? 3 then nth_sunday_of_month year 3 2 <=? day
  else day <? nth_sunday_of_month year 11 1.

Definition unix_to_pt_seconds (utc_secs : Z) : Z :=
  let pst_guess := saturating_sub utc_secs (8 * 3600) in
  let '(y, m, d) := unix_to_ymd_utc pst_guess in
  let offset_secs := if pacific_is_dst y m d then 7 * 3600 else 8 * 3600 in
  saturating_sub utc_secs offset_secs.

(** [format!("{:0w$}", n)] *)
Definition zero_pad (w : nat) (n : Z) : str := let s := dec_string n in repeat 48 (w - length s) ++ s.

Definition format_date (x : date) : str :=
  let '(y, m, d) := x in zero_pad 4 y ++ lit "-" ++ zero_pad 2 m ++ lit "-" ++ zero_pad 2 d.

(** [secs] is the clock, 0 when it is before the epoch. *)
Definition current_pt_day_key (secs : Z) : str := format_date (unix_to_ymd_utc (unix_to_pt_seconds secs)).

Definition seconds_until_pacific_midnight (secs : Z) : Z :=
  let rem := unix_to_pt_seconds secs mod 86400 in
  if rem =? 0 then 86400 else 86400 - rem.

(** The counters of the day; [Record Today] holds what [record_today] and
    [snapshot_stats] touch of them. *)
Record Today := mkToday { today_key : str; today_calls : Z; today_bytes : Z }.

Definition roll_over (now : Z) (s : Today) : Today :=
  let today := current_pt_day_key now in
  if decide (today_key s = today) then s else mkToday today 0 0.

Definition record_today (now bytes : Z) (s : Today) : Today :=
  let s := roll_over now s in
  mkToday (today_key s) (wrap 64 (today_calls s + 1)) (wrap 64 (today_bytes s + bytes)).

(** The daily part of a snapshot: key, calls, bytes and the countdown. *)
Definition snapshot_today (now : Z) (s : Today) : (str * Z * Z * Z) * Today :=
  let s := roll_over now s in
  ((today_key s, today_calls s, today_bytes s, seconds_until_pacific_midnight now), s).

(** The counters of [DomainFronter::new]. *)
Definition today_new (now : Z) : Today := mkToday (current_pt_day_key now) 0 0.

(** ** The reference *)
Definition leap (y : Z) : bool := (y mod 4 =? 0) && (negb (y mod 100 =? 0) || (y mod 400 =? 0)).

Definition month_days (y m : Z) : Z :=
  if m =? 2 then (if leap y then 29 else 28)
  else if (m =? 4) || (m =? 6) || (m =? 9) || (m =? 11) then 30 else 31.

Definition next_date (x : date) : date :=
  let '(y, m, d) := x in
  if d <? month_days y m then (y, m, d + 1) else if m <? 12 then (y, m + 1, 1) else (y + 1, 1, 1).

(** The date of day [n], day 0 being 1970-01-01. *)
Definition date_of (n : Z) : date := Nat.iter (Z.to_nat n) next_date (1970, 1, 1).

(** Day 0 was a Thursday. *)
Definition is_sunday (n : Z) : Prop := (n + 4) mod 7 = 0.

(** The year [y]: its first day [a], the days [s] and [e] on which the clocks change, and
    the first day [b] of the next year. *)
Record pacific_year (y a s e b : Z) : Prop := {
  py_first : date_of a = (y, 1, 1);
  py_start : is_sunday s /\ exists d, 8 <= d <= 14 /\ date_of s = (y, 3, d);
  py_end : is_sunday e /\ exists d, 1 <= d <= 7 /\ date_of e = (y, 11, d);
  py_next : date_of b = (y + 1, 1, 1);
  py_order : 0 <= a < s /\ s < e /\ e < b
}.

(** Local time is this much behind UTC: one hour less from 02:00 PST to 02:00 PDT. *)
Definition pacific_offset (s e t : Z) : Z :=
  if (s * DAY + 10 * HOUR <=? t) && (t <? e * DAY + 9 * HOUR) then 7 * HOUR else 8 * HOUR.

(** The instant at which day [n] begins in Pacific Time. *)
Definition pacific_midnight (s e n : Z) : Z := n * DAY + (if (s <? n) && (n <=? e) then 7 * HOUR else 8 * HOUR).

(** ** Day numbers *)

(** Years, and days of a year, from March on. *)
Definition year_days (y : Z) : Z := 365 * y + y / 4 - y / 100 + y / 400.
Definition month_offset (m : Z) : Z := (153 * (if m <=? 2 then m + 9 else m - 3) + 2) / 5.
Definition day_number (x : date) : Z :=
  let '(y, m, d) := x in year_days (if m <=? 2 then y - 1 else y) + month_offset m + d - 1 - 719468.

Definition valid_date (x : date) : Prop := let '(y, m, d) := x in 1 <= m <= 12 /\ 1 <= d <= month_days y m.

Lemma leap_days y : year_days y = year_days (y - 1) + 365 + Z.b2z (leap y).
Proof.
  unfold year_days, leap. 
  destruct (Z.eqb_spec (y mod 4) 0), (Z.eqb_spec (y mod 100) 0), (Z.eqb_spec (y mod 400) 0); cbn [negb andb orb Z.b2z];
    Z.div_mod_to_equations; lia.
Qed.

(** The era-based formulas of the source, year by year. *)
Lemma year_of_era doe : 0 <= doe < 146097 ->
  let yoe := (doe - doe / 1460 + doe / 36524 - doe / 146096) / 365 in
  0 <= yoe < 400 /\ 365 * yoe + yoe / 4 - yoe / 100 <= doe
  /\ doe < 365 * (yoe + 1) + (yoe + 1) / 4 - (yoe + 1) / 100 + (yoe + 1) / 400.
Proof. cbv zeta. intros H. Z.div_mod_to_equations. lia. Qed.

(** Days of a March-based year [y], by month and day. *)
Lemma month_of_doy doy : 0 <= doy < 366 ->
  let mp := (5 * doy + 2) / 153 in
  0 <= mp < 12 /\ (153 * mp + 2) / 5 <= doy
  /\ (mp < 11 -> doy < (153 * (mp + 1) + 2) / 5) /\ (mp = 11 -> 337 <= doy).
Proof. cbv zeta. intros H. Z.div_mod_to_equations. lia. Qed.

(** Case analysis on a month. *)
Ltac month_cases m :=
  let H := fresh in
  assert (m = 1 \/ m = 2 \/ m = 3 \/ m = 4 \/ m = 5 \/ m = 6 \/ m = 7 \/ m = 8 \/ m = 9 \/ m = 10 \/ m = 11 \/ m = 12) as H by lia;
  repeat destruct H as [->|H]; [..|subst m].

Lemma month_days_offset y m : 1 <= m <= 12 -> m <> 2 -> 
  month_offset m + month_days y m = if m =? 12 then month_offset 1 else month_offset (m + 1).
Proof. intros H Hm. month_cases m; try done; vm_compute; reflexivity. Qed.

(** The date of a day number is valid and has that number. *)
Lemma unix_date_number n : 0 <= n ->
  valid_date (unix_to_ymd_utc (n * 86400)) /\ day_number (unix_to_ymd_utc (n * 86400)) = n.
Proof.
  intros Hn. unfold unix_to_ymd_utc. rewrite Z.div_mul by lia. cbv zeta.
  destruct (Z.leb_spec 0 (n + 719468)); [|lia]. rewrite Z.quot_div_nonneg by lia.
  set (z := n + 719468). set (era := z / 146097). set (doe := z - era * 146097).
  assert (0 <= doe < 146097) as Hdoe by (unfold doe, era; Z.div_mod_to_equations; lia).
  pose proof (year_of_era doe Hdoe) as Hy. cbv zeta in Hy.
  set (yoe := (doe - doe / 1460 + doe / 36524 - doe / 146096) / 365) in *.
  set (doy := doe - (365 * yoe + yoe / 4 - yoe / 100)).
  pose proof (leap_days (yoe + 1 + era * 400)) as Hleap. replace (yoe + 1 + era * 400 - 1) with (yoe + era * 400) in Hleap by lia.
  assert (year_days (yoe + era * 400) + doy = z) as Hz.
  { unfold year_days, doy, doe. Z.div_mod_to_equations. lia. }
  assert (0 <= doy < 365 + Z.b2z (leap (yoe + 1 + era * 400))) as Hdoy.
  { unfold year_days in *. unfold doy in *. clear Hz. clearbody yoe era. Z.div_mod_to_equations. lia. }
  assert (0 <= doy < 366) as Hdoy' by (destruct (leap (yoe + 1 + era * 400)); cbn [Z.b2z] in *; lia).
  pose proof (month_of_doy doy Hdoy') as Hm. cbv zeta in Hm. set (mp := (5 * doy + 2) / 153) in *.
  assert ((if mp <? 10 then mp + 3 else mp - 9) <= 2 <-> 10 <= mp) as Hmp by (destruct (Z.ltb_spec mp 10); lia).
  destruct (Z.leb_spec (if mp <? 10 then mp + 3 else mp - 9) 2) as [Hle|Hgt].
  - unfold valid_date, day_number, month_offset. destruct (Z.ltb_spec mp 10); [lia|].
    destruct (Z.leb_spec (mp - 9) 2); [|lia]. replace (mp - 9 + 9) with mp by lia.
    replace (yoe + era * 400 + 1 - 1) with (yoe + era * 400) by lia. replace (yoe + era * 400 + 1) with (yoe + 1 + era * 400) by lia.
    split; [|lia]. split; [lia|]. assert (mp = 10 \/ mp = 11) as [E|E] by lia; rewrite E in *.
    + change ((153 * 10 + 2) / 5) with 306 in *. destruct Hm as (_ & ? & Hm & _). specialize (Hm ltac:(lia)).
      change ((153 * (10 + 1) + 2) / 5) with 337 in Hm. change (month_days _ (10 - 9)) with 31. lia.
    + change ((153 * 11 + 2) / 5) with 337 in *. unfold month_days. cbn [Z.eqb Z.sub Z.add Z.opp Z.pos_sub]. 
      change (11 - 9 =? 2) with true. cbv iota. destruct (leap (yoe + 1 + era * 400)); cbn [Z.b2z] in *; lia.
  - unfold valid_date, day_number, month_offset. destruct (Z.ltb_spec mp 10); [|lia].
    destruct (Z.leb_spec (mp + 3) 2); [lia|]. replace (mp + 3 - 3) with mp by lia. split; [|lia]. split; [lia|].
    pose proof (month_days_offset (yoe + era * 400) (mp + 3) ltac:(lia) ltac:(lia)) as Ho. unfold month_offset in Ho.
    destruct (Z.leb_spec (mp + 3) 2); [lia|]. replace (mp + 3 - 3) with mp in Ho by lia. destruct Hm as (_ & ? & Hm & _). specialize (Hm ltac:(lia)).
    destruct (Z.eqb_spec (mp + 3) 12); [assert (mp = 9) as -> by lia; change ((153 * (if 1 <=? 2 then 1 + 9 else 1 - 3) + 2) / 5) with 306 in Ho;
      change ((153 * (9 + 1) + 2) / 5) with 306 in Hm; lia|].
    destruct (Z.leb_spec (mp + 3 + 1) 2); [lia|]. replace (mp + 3 + 1 - 3) with (mp + 1) in Ho by lia. lia.
Qed.

(** ** Dates of the reference *)
Lemma month_days_bounds y m : 28 <= month_days y m <= 31.
Proof. unfold month_days. repeat case_match; lia. Qed.

(** The March-based year of a date, and the day of that year. *)
Definition march_year (y m : Z) : Z := if m <=? 2 then y - 1 else y.
Definition march_day (m d : Z) : Z := month_offset m + d - 1.

Lemma march_day_range y m d : valid_date (y, m, d) ->
  0 <= march_day m d < 365 + Z.b2z (leap (march_year y m + 1)) /\ (if m <=? 2 then 306 <= march_day m d else march_day m d < 306).
Proof.
  intros [Hm Hd]. unfold march_day, march_year. destruct (Z.eq_dec m 2) as [->|Hm2].
  - change (2 <=? 2) with true. cbv iota. replace (y - 1 + 1) with y by lia. unfold month_days in Hd. change (2 =? 2) with true in Hd.
    change (month_offset 2) with 337. destruct (leap y); cbn [Z.b2z]; lia.
  - assert (month_days y m = month_days 1 m) as E by (unfold month_days; destruct (Z.eqb_spec m 2); done). rewrite E in Hd.
    assert (0 <= Z.b2z (leap ((if m <=? 2 then y - 1 else y) + 1))) by (destruct (leap _); cbn; lia).
    assert (0 <= month_offset m /\ month_offset m + month_days 1 m <= (if m <=? 2 then 337 else 306) /\ (m <= 2 -> 306 <= month_offset m)) as Hb.
    { clear -Hm Hm2. month_cases m; vm_compute; split_and!; intros; congruence. }
    destruct (Z.leb_spec m 2); lia.
Qed.

Lemma march_day_mono y m d m' d' : valid_date (y, m, d) -> 1 <= m' <= 12 -> 1 <= d' -> m < m' -> (m <=? 2) = (m' <=? 2) ->
  march_day m d < march_day m' d'.
Proof.
  intros [Hm Hd] Hm' Hd' Hlt Es. unfold march_day.
  assert (m <> 2) as Hm2 by (intros ->; change (2 <=? 2) with true in Es; lia).
  pose proof (month_days_offset y m Hm Hm2) as Ho. destruct (Z.eqb_spec m 12); [lia|].
  assert (month_offset (m + 1) <= month_offset m'); [|lia].
  unfold month_offset. destruct (Z.leb_spec (m + 1) 2), (Z.leb_spec m' 2); try lia; Z.div_mod_to_equations; lia.
Qed.

Lemma year_days_mono a b : a < b -> year_days a + 365 + Z.b2z (leap (a + 1)) <= year_days b.
Proof.
  intros Hab. pose proof (leap_days (a + 1)) as Hl. replace (a + 1 - 1) with a in Hl by lia.
  assert (year_days (a + 1) <= year_days b) by (unfold year_days; Z.div_mod_to_equations; lia). lia.
Qed.

Lemma day_number_mono y m d y' m' d' : valid_date (y, m, d) -> valid_date (y', m', d') ->
  y < y' \/ (y = y' /\ (m < m' \/ (m = m' /\ d < d'))) -> day_number (y, m, d) < day_number (y', m', d').
Proof.
  intros Hv Hv' Hlt. pose proof (march_day_range y m d Hv) as [Hr Hs]. pose proof (march_day_range y' m' d' Hv') as [Hr' Hs'].
  pose proof (year_days_mono (march_year y m) (march_year y' m')) as Hy.
  assert (march_year y m < march_year y' m' \/ (march_year y m = march_year y' m' /\ march_day m d < march_day m' d')) as Hc.
  { unfold march_year in *. destruct Hlt as [Hlt|[<- [Hlt|[<- Hlt]]]].
    - destruct (Z.leb_spec m 2), (Z.leb_spec m' 2); lia.
    - destruct (Z.leb_spec m 2), (Z.leb_spec m' 2); try lia; right; (split; [done|]).
      all: apply (march_day_mono y); [done|apply Hv'|apply Hv'|done|].
      all: destruct (Z.leb_spec m 2), (Z.leb_spec m' 2); done || lia.
    - right. split; [done|]. unfold march_day. lia. }
  unfold day_number. fold (march_year y m) (march_year y' m'). clear Hs Hs' Hlt Hv Hv'. unfold march_day in *.
  destruct Hc as [Hc|[E Hc]]; [specialize (Hy Hc)|rewrite E]; lia.
Qed.

Lemma day_number_inj x x' : valid_date x -> valid_date x' -> day_number x = day_number x' -> x = x'.
Proof.
  destruct x as [[y m] d], x' as [[y' m'] d']. intros Hv Hv' E.
  pose proof (day_number_mono y m d y' m' d' Hv Hv'). pose proof (day_number_mono y' m' d' y m d Hv' Hv).
  assert (y = y' /\ m = m' /\ d = d') as (-> & -> & ->); [|done].
  destruct (Z.lt_trichotomy y y') as [|[->|]]; [lia| |lia].
  destruct (Z.lt_trichotomy m m') as [|[->|]]; [lia| |lia]. 
  destruct (Z.lt_trichotomy d d') as [|[->|]]; [lia|done|lia].
Qed.

Lemma next_date_number x : valid_date x -> valid_date (next_date x) /\ day_number (next_date x) = day_number x + 1.
Proof.
  destruct x as [[y m] d]. intros [Hm Hd]. unfold next_date.
  destruct (Z.ltb_spec d (month_days y m)); [unfold valid_date, day_number; lia|].
  assert (d = month_days y m) as -> by lia. pose proof (month_days_bounds y (m + 1)). pose proof (month_days_bounds (y + 1) 1).
  destruct (Z.ltb_spec m 12); (split; [unfold valid_date; lia|]).
  - pose proof (leap_days y) as Hl. unfold day_number. destruct (Z.eq_dec m 2) as [->|Hm2].
    + change (month_offset (2 + 1)) with 0. change (month_offset 2) with 337. change (2 + 1 <=? 2) with false. change (2 <=? 2) with true.
      unfold month_days. change (2 =? 2) with true. destruct (leap y); cbn [Z.b2z] in *; cbv iota; lia.
    + pose proof (month_days_offset y m Hm Hm2) as Ho. destruct (Z.eqb_spec m 12); [lia|].
      destruct (Z.leb_spec m 2), (Z.leb_spec (m + 1) 2); lia.
  - assert (m = 12) as -> by lia. unfold day_number. change (month_days y 12) with 31. change (month_offset 12) with 275. change (month_offset 1) with 306.
    change (12 <=? 2) with false. change (1 <=? 2) with true. cbv iota. replace (y + 1 - 1) with y by lia. lia.
Qed.

Lemma date_of_number n : 0 <= n -> valid_date (date_of n) /\ day_number (date_of n) = n.
Proof.
  intros Hn. rewrite <- (Z2Nat.id n Hn) at 3. unfold date_of. generalize (Z.to_nat n). intros k.
  induction k as [|k [Hv IH]]; [split; [vm_compute; intuition congruence|done]|].
  rewrite Nat.iter_succ. apply next_date_number in Hv as [Hv E]. split; [done|]. lia.
Qed.

(** The date of an instant, by Hinnant's formulas, is the one that counting the days from
    the epoch gives. *)
Lemma unix_to_ymd_date_of secs : 0 <= secs -> unix_to_ymd_utc secs = date_of (secs / DAY).
Proof.
  intros Hs. assert (0 <= secs / DAY) as Hn by (apply Z.div_pos; unfold DAY; lia).
  transitivity (unix_to_ymd_utc (secs / DAY * 86400)).
  { unfold unix_to_ymd_utc. rewrite Z.div_mul by lia. done. }
  destruct (unix_date_number (secs / DAY) Hn), (date_of_number (secs / DAY) Hn). apply day_number_inj; [done|done|congruence].
Qed.

Lemma date_of_day_number x : valid_date x -> 0 <= day_number x -> date_of (day_number x) = x.
Proof. intros Hv Hn. destruct (date_of_number _ Hn) as [Hv' E]. by apply day_number_inj. Qed.

(** ** Sundays *)
Lemma nth_sunday_week y m nth : 0 <= y -> m = 3 \/ m = 11 ->
  7 * (nth - 1) < nth_sunday_of_month y m nth <= 7 * nth /\ is_sunday (day_number (y, m, nth_sunday_of_month y m nth)).
Proof.
  intros Hy Hm. unfold nth_sunday_of_month, is_sunday, day_number. destruct (Z.ltb_spec m 3); [lia|]. destruct (Z.leb_spec m 2); [lia|].
  rewrite !Z.quot_div_nonneg by lia.
  set (w := (y + y / 4 - y / 100 + y / 400 + T !!! Z.to_nat (m - 1) + 1) mod 7).
  assert ((year_days y + month_offset m - 719468 + 4 - w) mod 7 = 0) as Hw.
  { unfold w, year_days. destruct Hm as [-> | ->].
    - change (T !!! Z.to_nat (3 - 1)) with 2. change (month_offset 3) with 0. Z.div_mod_to_equations. lia.
    - change (T !!! Z.to_nat (11 - 1)) with 2. change (month_offset 11) with 245. Z.div_mod_to_equations. lia. }
  assert (0 <= w < 7) as Hr by (unfold w; apply Z.mod_pos_bound; lia). clearbody w.
  destruct (Z.eqb_spec w 0); split; try lia; Z.div_mod_to_equations; lia.
Qed.

Lemma nth_sunday_unique y m nth d : 0 <= y -> m = 3 \/ m = 11 -> 7 * (nth - 1) < d <= 7 * nth -> is_sunday (day_number (y, m, d)) ->
  d = nth_sunday_of_month y m nth.
Proof.
  intros Hy Hm Hd Hs. pose proof (nth_sunday_week y m nth Hy Hm) as [Hr Hs']. unfold is_sunday, day_number in *.
  destruct (Z.leb_spec m 2); [lia|]. Z.div_mod_to_equations. lia.
Qed.

(** Every day from the epoch on lies in a year whose clock changes are as the rule says. *)
Lemma pacific_year_of n : 0 <= n -> exists y a s e b, pacific_year y a s e b /\ a <= n < b.
Proof.
  intros Hn. destruct (date_of_number n Hn) as [Hv E]. destruct (date_of n) as [[y m] d] eqn:Ed.
  assert (1970 <= y) as Hy.
  { destruct (Z.le_gt_cases 1970 y); [done|]. pose proof (day_number_mono y m d 1970 1 1 Hv) as H1.
    change (day_number (1970, 1, 1)) with 0 in H1. rewrite E in H1. enough (n < 0) by lia. apply H1; [vm_compute; intuition congruence|lia]. }
  assert (forall y d, 1970 <= y -> forall m, 1 <= m <= 12 -> 1 <= d <= 28 -> valid_date (y, m, d) /\ 0 <= day_number (y, m, d)) as Hok.
  { intros y0 d0 Hy0 m0 Hm0 Hd0. pose proof (month_days_bounds y0 m0). assert (valid_date (y0, m0, d0)) as Hv0 by (cbn; lia). split; [done|].
    destruct (decide ((y0, m0, d0) = (1970, 1, 1))) as [->|Hne]; [done|].
    apply Z.lt_le_incl. apply (day_number_mono 1970 1 1); [vm_compute; intuition congruence|done|].
    destruct (decide (1970 = y0)) as [<-|]; [|lia]. destruct (decide (1 = m0)) as [<-|]; [|lia]. destruct (decide (1 = d0)) as [<-|]; [done|lia]. }
  pose proof (nth_sunday_week y 3 2 ltac:(lia) ltac:(lia)) as [Hr3 Hs3]. pose proof (nth_sunday_week y 11 1 ltac:(lia) ltac:(lia)) as [Hr11 Hs11].
  destruct (Hok y 1 Hy 1) as [Va Na]; [lia..|]. destruct (Hok y (nth_sunday_of_month y 3 2) Hy 3) as [Vs Ns]; [lia..|].
  destruct (Hok y (nth_sunday_of_month y 11 1) Hy 11) as [Ve Ne]; [lia..|]. destruct (Hok (y + 1) 1 ltac:(lia) 1) as [Vb Nb]; [lia..|].
  eexists y, (day_number (y, 1, 1)), (day_number (y, 3, _)), (day_number (y, 11, _)), (day_number (y + 1, 1, 1)). split.
  - split; [by apply date_of_day_number|split; [exact Hs3|eexists; split; [|by apply date_of_day_number]; lia]
      |split; [exact Hs11|eexists; split; [|by apply date_of_day_number]; lia]|by apply date_of_day_number|].
    split; [split; [done|]|split]; apply day_number_mono; done || lia.
  - rewrite <- E. split; [|apply day_number_mono; [done|done|lia]].
    destruct (decide ((y, m, d) = (y, 1, 1))) as [->|Hne]; [done|]. apply Z.lt_le_incl, day_number_mono; [done|done|].
    right. split; [done|]. unfold valid_date in Hv. destruct (decide (1 = m)) as [<-|]; [|lia]. destruct (decide (1 = d)) as [<-|]; [done|lia].
Qed.

(** The dates on which the source takes daylight saving time to be in force. *)
Lemma dst_window y a s e b n : pacific_year y a s e b -> a <= n < b ->
  (let '(y', m, d) := date_of n in pacific_is_dst y' m d) = (s <=? n) && (n <? e).
Proof.
  intros [Ha [Hs (ds & Hds & Es)] [He (de & Hde & Ee)] Hb Ho] Hn.
  destruct (date_of_number a ltac:(lia)) as [Va Na]. destruct (date_of_number s ltac:(lia)) as [Vs Ns].
  destruct (date_of_number e ltac:(lia)) as [Ve Ne]. destruct (date_of_number b ltac:(lia)) as [Vb Nb].
  destruct (date_of_number n ltac:(lia)) as [Vn Nn]. destruct (date_of n) as [[y' m] d]. rewrite Ha, Es, Ee, Hb in *.
  pose proof (day_number_mono y' m d y 1 1 Vn Va). pose proof (day_number_mono (y + 1) 1 1 y' m d Vb Vn).
  assert (valid_date (y', m, d)) as [Hm Hd] by done.
  assert (y' = y) as ->.
  { destruct (Z.lt_trichotomy y' y) as [|[|Hlt]]; [lia|done|]. 
    destruct (Z.eq_dec y' (y + 1)) as [->|]; [|lia]. destruct (Z.eq_dec m 1) as [->|]; [|lia]. destruct (Z.eq_dec d 1) as [->|]; [|lia]. lia. }
  assert (0 <= y) as Hy.
  { destruct (Z.le_gt_cases 0 y); [done|]. pose proof (day_number_mono y 1 1 1970 1 1 Va ltac:(vm_compute; intuition congruence) ltac:(lia)) as Hq.
    change (day_number (1970, 1, 1)) with 0 in Hq. lia. }
  assert (ds = nth_sunday_of_month y 3 2) as Eds by (apply nth_sunday_unique; [done|lia|lia|congruence]).
  assert (de = nth_sunday_of_month y 11 1) as Ede by (apply nth_sunday_unique; [done|lia|lia|congruence]).
  unfold pacific_is_dst. rewrite <- Eds, <- Ede.
  pose proof (day_number_mono y m d y 3 ds Vn Vs) as M1. pose proof (day_number_mono y 3 ds y m d Vs Vn) as M2.
  pose proof (day_number_mono y m d y 11 de Vn Ve) as M3. pose proof (day_number_mono y 11 de y m d Ve Vn) as M4.
  assert ((m = 3 -> d = ds -> n = s) /\ (m = 11 -> d = de -> n = e)) as [M5 M6] by (split; intros -> ->; congruence).
  destruct (Z.leb_spec 3 m), (Z.leb_spec m 11), (Z.ltb_spec 3 m), (Z.ltb_spec m 11), (Z.eqb_spec m 3), (Z.leb_spec ds d), (Z.ltb_spec d de), (Z.leb_spec s n), (Z.ltb_spec n e);
    cbn [negb andb]; try reflexivity; exfalso; lia.
Qed.

(** Claim C34: the quota day is the Pacific day.  At every instant from the first Pacific
    midnight on, in the year [y] whose clock changes fall on the days [s] and [e]: the key
    under which calls are counted is the date of the local day [n], the one that the time
    zone's rule gives and that has begun and not ended; and the countdown ends at the next
    local midnight, except that in the first hour of the day on which the clocks go back it
    ends one hour early. *)
Theorem quota_day_exact (t : Z) (Ht : 8 * HOUR <= t) :
  exists y a s e b n, pacific_year y a s e b /\ a <= n < b /\ n = (t - pacific_offset s e t) / DAY
  /\ pacific_midnight s e n <= t < pacific_midnight s e (n + 1)
  /\ current_pt_day_key t = format_date (date_of n)
  /\ seconds_until_pacific_midnight t
     = pacific_midnight s e (n + 1) - t - (if (n =? e) && (t <? e * DAY + 8 * HOUR) then HOUR else 0).
Proof.
  assert (exists g, g = (t - 8 * HOUR) / DAY) as [g Hg] by eauto.
  assert (0 <= g) as Hg0 by (subst g; apply Z.div_pos; unfold DAY; lia).
  destruct (pacific_year_of g Hg0) as (y & a & s & e & b & Hy & Hr).
  assert (unix_to_pt_seconds t = t - (if (s <=? g) && (g <? e) then 7 * HOUR else 8 * HOUR)) as Hpt.
  { unfold unix_to_pt_seconds, saturating_sub. change (8 * 3600) with (8 * HOUR). rewrite Z.max_r by lia.
    rewrite unix_to_ymd_date_of by lia. rewrite <- Hg. pose proof (dst_window y a s e b g Hy Hr) as Hw.
    destruct (date_of g) as [[y' m] d]. rewrite Hw. unfold HOUR in *. destruct ((s <=? g) && (g <? e)); lia. }
  pose proof (py_order _ _ _ _ _ Hy) as Ho.
  exists y, a, s, e, b, ((t - pacific_offset s e t) / DAY). split; [done|].
  assert (unix_to_pt_seconds t / DAY = (t - pacific_offset s e t) / DAY) as Hday.
  { rewrite Hpt. unfold pacific_offset, DAY, HOUR in *.
    destruct (Z.leb_spec s g), (Z.ltb_spec g e), (Z.leb_spec (s * 86400 + 10 * 3600) t), (Z.ltb_spec t (e * 86400 + 9 * 3600)); cbn [andb];
      Z.div_mod_to_equations; lia. }
  assert (0 <= unix_to_pt_seconds t) as Hpos by (rewrite Hpt; unfold HOUR in *; destruct (_ && _); lia).
  unfold current_pt_day_key. rewrite unix_to_ymd_date_of, Hday by done.
  rewrite <- Hday. unfold seconds_until_pacific_midnight. change 86400 with DAY. rewrite Hpt in *. clear Hpt Hday Hpos Hy.
  split_and!; try done.
  all: unfold pacific_offset, pacific_midnight, DAY, HOUR in *.
  all: destruct (Z.leb_spec s g), (Z.ltb_spec g e); cbn [andb] in *.
  all: bool_cases; cbn [andb]; Z.div_mod_to_equations; lia.
Qed.

(** In the first hour of 7 November 2027, when the clocks go back, the countdown says 23 h
    30 min where 24 h 30 min are left. *)
Lemma quota_day_exact_witness :
  8 * HOUR <= 1825572600 /\ current_pt_day_key 1825572600 = lit "2027-11-07" /\ seconds_until_pacific_midnight 1825572600 = 23 * HOUR + 1800
  /\ exists y a s e b n, pacific_year y a s e b /\ a <= n < b /\ n = (1825572600 - pacific_offset s e 1825572600) / DAY.
Proof.
  split; [unfold HOUR; lia|]. split; [vm_compute; reflexivity|]. split; [vm_compute; reflexivity|].
  destruct (quota_day_exact 1825572600) as (y & a & s & e & b & n & H1 & H2 & H3 & _); [unfold HOUR; lia|].
  exists y, a, s, e, b, n. done.
Defined.

(** ** The counters of a day *)
Definition pt_day (t : Z) : Z := unix_to_pt_seconds t / DAY.

Lemma pt_seconds_offset t : 8 * HOUR <= t -> exists off, (off = 7 * HOUR \/ off = 8 * HOUR) /\ unix_to_pt_seconds t = t - off
  /\ forall u, 8 * HOUR <= u -> (u - 8 * HOUR) / DAY = (t - 8 * HOUR) / DAY -> unix_to_pt_seconds u = u - off.
Proof.
  intros Ht. unfold HOUR in *.
  set (off := let '(y, m, d) := date_of ((t - 8 * 3600) / DAY) in if pacific_is_dst y m d then 7 * 3600 else 8 * 3600).
  assert (off = 7 * 3600 \/ off = 8 * 3600) as Ho by (unfold off; destruct (date_of _) as [[y m] d]; destruct (pacific_is_dst y m d); auto).
  assert (forall u, 8 * 3600 <= u -> (u - 8 * 3600) / DAY = (t - 8 * 3600) / DAY -> unix_to_pt_seconds u = u - off) as H.
  { intros u Hu E. unfold unix_to_pt_seconds, saturating_sub. rewrite Z.max_r by lia. rewrite unix_to_ymd_date_of, E by lia.
    unfold off in *. destruct (date_of _) as [[y m] d]. destruct (pacific_is_dst y m d); lia. }
  exists off. split_and!; [done|by apply H|done].
Qed.

(** The Pacific date never goes back, although on one day a year local time does. *)
Lemma pt_day_mono t u : 8 * HOUR <= t -> t <= u -> pt_day t <= pt_day u.
Proof.
  intros Ht Hu. destruct (pt_seconds_offset t Ht) as (off & Ho & Et & Hsame). unfold pt_day.
  destruct (Z.eq_dec ((u - 8 * HOUR) / DAY) ((t - 8 * HOUR) / DAY)) as [E|E].
  - rewrite Et, (Hsame u) by (done || lia). apply Z.div_le_mono; [unfold DAY; lia|lia].
  - destruct (pt_seconds_offset u ltac:(lia)) as (off' & Ho' & -> & _). rewrite Et. unfold DAY, HOUR in *. Z.div_mod_to_equations. lia.
Qed.

Lemma zero_pad_val w n : 0 <= n < 10 ^ 20 -> digits_val 0 (zero_pad w n) = n.
Proof.
  intros Hn. unfold zero_pad. set (k := (w - _)%nat). clearbody k. induction k as [|k IH]; [|done].
  cbn [repeat app]. unfold dec_string. rewrite dec_digits_val; [done|cbn; lia|lia].
Qed.

Lemma zero_pad_digits w n : 0 <= n -> 45 ∉ zero_pad w n.
Proof.
  intros Hn. unfold zero_pad. rewrite elem_of_app. intros [H|H]; [|by apply dec_string_not_elem in H].
  apply list_elem_of_In, repeat_spec in H. done.
Qed.

Lemma format_date_inj y m d y' m' d' : 0 <= y < 10 ^ 20 -> 0 <= y' < 10 ^ 20 -> valid_date (y, m, d) -> valid_date (y', m', d') ->
  format_date (y, m, d) = format_date (y', m', d') -> (y, m, d) = (y', m', d').
Proof.
  intros Hy Hy' [Hm Hd] [Hm' Hd'] E. unfold format_date in E. pose proof (month_days_bounds y m). pose proof (month_days_bounds y' m').
  assert (forall a b c d, 45 ∉ a -> 45 ∉ c -> a ++ lit "-" ++ b = c ++ lit "-" ++ d -> a = c /\ b = d) as Hsplit.
  { intros a b c e Ha Hc H1. pose proof (split_once_first 45 [] a b Ha) as S1. pose proof (split_once_first 45 [] c e Hc) as S2.
    change (lit "-") with [45] in H1. rewrite H1, S2 in S1. by simplify_eq. }
  apply Hsplit in E as [E1 E]; [|apply zero_pad_digits; lia..]. apply Hsplit in E as [E2 E3]; [|apply zero_pad_digits; lia..].
  rewrite <- (zero_pad_val 4 y), <- (zero_pad_val 2 m), <- (zero_pad_val 2 d), E1, E2, E3, !zero_pad_val by lia. done.
Qed.

Lemma day_key_inj t u : 8 * HOUR <= t < 2 ^ 64 -> 8 * HOUR <= u < 2 ^ 64 -> current_pt_day_key t = current_pt_day_key u <-> pt_day t = pt_day u.
Proof.
  intros Ht Hu. unfold current_pt_day_key, pt_day.
  destruct (pt_seconds_offset t) as (o & Ho & Et & _); [lia|]. destruct (pt_seconds_offset u) as (o' & Ho' & Eu & _); [lia|].
  unfold HOUR in *. rewrite !unix_to_ymd_date_of by lia. split; [|by intros ->].
  assert (forall n, 0 <= n < 2 ^ 64 -> exists y m d, date_of n = (y, m, d) /\ 0 <= y < 10 ^ 20 /\ valid_date (y, m, d) /\ day_number (y, m, d) = n) as Hd.
  { intros n Hn. destruct (date_of_number n) as [Hv E]; [lia|]. destruct (date_of n) as [[y m] d]. exists y, m, d. split_and!; try done.
    - destruct (Z.le_gt_cases 0 y); [done|]. pose proof (day_number_mono y m d 1970 1 1 Hv ltac:(vm_compute; intuition congruence) ltac:(lia)) as Hq.
      change (day_number (1970, 1, 1)) with 0 in Hq. lia.
    - pose proof (march_day_range y m d Hv) as [Hr _]. unfold day_number, march_day, march_year, year_days in *. destruct (m <=? 2); Z.div_mod_to_equations; lia. }
  destruct (Hd (unix_to_pt_seconds t / DAY)) as (y & m & d & E1 & R1 & V1 & N1); [rewrite Et; unfold DAY; Z.div_mod_to_equations; lia|].
  destruct (Hd (unix_to_pt_seconds u / DAY)) as (y' & m' & d' & E2 & R2 & V2 & N2); [rewrite Eu; unfold DAY; Z.div_mod_to_equations; lia|].
  rewrite E1, E2. intros E%format_date_inj; [congruence|done..].
Qed.

Definition on_day (n : Z) (calls : list (Z * Z)) : list (Z * Z) := filter (fun c => pt_day (fst c) = n) calls.
Definition total_bytes (calls : list (Z * Z)) : Z := foldr Z.add 0 (snd <$> calls).

(** The state after [calls], looked at [l], at or after the last of them. *)
Record counts (l : Z) (calls : list (Z * Z)) (s : Today) : Prop := {
  c_key : today_key s = current_pt_day_key l;
  c_calls : today_calls s = len (on_day (pt_day l) calls);
  c_bytes : today_bytes s = total_bytes (on_day (pt_day l) calls)
}.

Definition calls_ok (l : Z) (calls : list (Z * Z)) : Prop :=
  Forall (fun c => 8 * HOUR <= fst c <= l /\ 0 <= snd c) calls /\ len calls < 2 ^ 64 /\ total_bytes calls < 2 ^ 64.

Lemma on_day_none n calls : Forall (fun c => pt_day (fst c) < n) calls -> on_day n calls = [].
Proof. induction 1 as [|c calls Hc _ IH]; [done|]. unfold on_day. rewrite filter_cons_False by lia. exact IH. Qed.

Lemma roll_over_counts l u calls s : 8 * HOUR <= l <= u -> u < 2 ^ 64 -> calls_ok l calls -> counts l calls s -> counts u calls (roll_over u s).
Proof.
  intros Hlu Hu [Hc _] [Hk Hn Hb]. pose proof (day_key_inj l u ltac:(lia) ltac:(lia)) as Hinj. unfold roll_over. rewrite Hk. case_decide as E.
  - apply Hinj in E as E'. split; [rewrite Hk; exact E|rewrite <- E'; exact Hn|rewrite <- E'; exact Hb].
  - assert (pt_day l < pt_day u) as Hlt by (pose proof (pt_day_mono l u); destruct (Z.eq_dec (pt_day l) (pt_day u)); [tauto|lia]).
    assert (on_day (pt_day u) calls = []) as Hnil; [|split; cbn [today_key today_calls today_bytes]; rewrite ?Hnil; reflexivity].
    apply on_day_none. eapply Forall_impl; [exact Hc|]. intros c [Hc' _]. cbn in Hc'. pose proof (pt_day_mono (fst c) l). lia.
Qed.

Lemma on_day_bounds n l calls : calls_ok l calls -> 0 <= len (on_day n calls) <= len calls /\ 0 <= total_bytes (on_day n calls) <= total_bytes calls.
Proof.
  intros [H _]. induction H as [|c calls [_ Hc] _ IH]; [done|]. unfold on_day, total_bytes in *. rewrite filter_cons.
  case_decide; rewrite ?len_cons, ?fmap_cons; cbn [foldr]; lia.
Qed.

Lemma record_today_counts l u b calls s : 8 * HOUR <= l <= u -> u < 2 ^ 64 -> calls_ok l calls -> calls_ok u (calls ++ [(u, b)]) ->
  counts l calls s -> counts u (calls ++ [(u, b)]) (record_today u b s).
Proof.
  intros Hlu Hu Hc Hc' Hs. destruct (roll_over_counts l u calls s Hlu Hu Hc Hs) as [Hk Hn Hb]. pose proof (on_day_bounds (pt_day u) u _ Hc') as Hr.
  destruct Hc' as (_ & Hl & Ht).
  assert (on_day (pt_day u) (calls ++ [(u, b)]) = on_day (pt_day u) calls ++ [(u, b)]) as E by (unfold on_day; by rewrite filter_app, filter_cons_True).
  assert (total_bytes (on_day (pt_day u) calls ++ [(u, b)]) = total_bytes (on_day (pt_day u) calls) + b) as Et.
  { unfold total_bytes. rewrite fmap_app, foldr_app. cbn. generalize (snd <$> on_day (pt_day u) calls). intros k. induction k as [|x k IH]; cbn; lia. }
  rewrite E, Et, len_app in Hr. change (len [(u, b)]) with 1 in Hr.
  unfold record_today. split; cbn [today_key today_calls today_bytes]; [done|rewrite E, len_app, Hn|rewrite E, Et, Hb].
  - apply wrap_small. change (len [(u, b)]) with 1. lia.
  - apply wrap_small. pose proof (on_day_bounds (pt_day u) l _ Hc). lia.
Qed.

Lemma today_bytes_app k k' : total_bytes (k ++ k') = total_bytes k + total_bytes k'.
Proof. unfold total_bytes. induction k as [|c k IH]; cbn in *; lia. Qed.

Lemma calls_ok_prefix l u t prev c rest : l <= u -> 8 * HOUR <= fst c <= u -> calls_ok l prev -> calls_ok t (prev ++ c :: rest) -> calls_ok u (prev ++ [c]).
Proof.
  intros Hlu Hc (Hp & _ & _) (Hf & Hl & Ht). rewrite cons_middle, app_assoc in Hf, Hl, Ht. apply Forall_app in Hf as [Hf Hr].
  apply Forall_app in Hf as [_ [_ Hb]%Forall_singleton]. rewrite len_app in Hl. rewrite today_bytes_app in Ht.
  assert (0 <= total_bytes rest) as Hq by (clear -Hr; induction Hr as [|x k [_ Hx] _ IH]; unfold total_bytes in *; cbn; lia).
  pose proof (len_nonneg rest). split; [|lia]. apply Forall_app. split; [|by apply Forall_singleton].
  eapply Forall_impl; [exact Hp|]. intros x Hx. cbn in *. lia.
Qed.

Lemma record_calls_counts t calls l prev s : 8 * HOUR <= l -> t < 2 ^ 64 -> Sorted Z.le (l :: (fst <$> calls) ++ [t]) ->
  calls_ok l prev -> calls_ok t (prev ++ calls) -> counts l prev s ->
  counts t (prev ++ calls) (roll_over t (foldl (fun s c => record_today (fst c) (snd c) s) s calls)).
Proof.
  revert l prev s. induction calls as [|[u b] calls IH]; intros l prev s Hl Ht Hso Hp Hok Hs.
  - rewrite app_nil_r. apply Sorted_inv in Hso as [_ Hh]. inversion Hh. apply (roll_over_counts l); assumption || lia.
  - cbn [fmap list_fmap app fst] in Hso. apply Sorted_inv in Hso as [Hso Hh]. inversion Hh as [|?? Hlu]; subst.
    assert (u <= t) as Hut.
    { apply Sorted_StronglySorted in Hso; [|intros x y z; lia]. apply StronglySorted_inv in Hso as [_ Hf]. rewrite Forall_forall in Hf.
      apply Hf. set_solver. }
    pose proof (calls_ok_prefix l u t prev (u, b) calls Hlu ltac:(cbn; lia) Hp Hok) as Hp'.
    rewrite cons_middle, app_assoc in Hok |- *. cbn [foldl fst snd].
    apply (IH u); [lia|assumption..|]. apply (record_today_counts l); assumption || lia.
Qed.

(** The daily counters count the calls of the day.  After any calls at times that
    do not go back, a snapshot shows the key of the current Pacific day, the number of the
    calls made on that day and the bytes they moved, and no others. *)
Theorem quota_counts (start t : Z) (calls : list (Z * Z))
    (Hstart : 8 * HOUR <= start) (Hsorted : Sorted Z.le (start :: (fst <$> calls) ++ [t])) (Ht : t < 2 ^ 64)
    (Hbytes : Forall (fun c => 0 <= snd c) calls) (Hlen : len calls < 2 ^ 64) (Htotal : total_bytes calls < 2 ^ 64) :
  let s := foldl (fun s c => record_today (fst c) (snd c) s) (today_new start) calls in
  fst (snapshot_today t s)
  = (current_pt_day_key t, len (on_day (pt_day t) calls), total_bytes (on_day (pt_day t) calls), seconds_until_pacific_midnight t).
Proof.
  cbv zeta. unfold snapshot_today. cbn [fst].
  destruct (record_calls_counts t calls start [] (today_new start)) as [Hk Hn Hb]; [assumption..| | | |by rewrite Hk, Hn, Hb].
  - split; [constructor|]. split; reflexivity.
  - split; [|split; assumption]. cbn [app]. apply Sorted_StronglySorted in Hsorted; [|intros x y z; lia].
    apply StronglySorted_inv in Hsorted as [Hso Hf]. clear -Hstart Hso Hf Hbytes. apply Forall_forall. intros c Hc.
    rewrite Forall_forall in Hf. rewrite Forall_forall in Hbytes. split; [|by apply Hbytes]. assert (fst c ∈ fst <$> calls) as Hin by (by apply list_elem_of_fmap_2).
    assert (start <= fst c) by (apply Hf; set_solver). split; [lia|].
    apply list_elem_of_split in Hin as (k1 & k2 & E). rewrite E, <- app_assoc in Hso. cbn [app] in Hso.
    clear -Hso. induction k1 as [|x k1 IH]; cbn in Hso; apply StronglySorted_inv in Hso as [Hso Hf]; [|by apply IH].
    rewrite Forall_forall in Hf. apply Hf. set_solver.
  - split; reflexivity.
Qed.

(** Two calls before midnight and one after it. *)
Lemma quota_counts_witness :
  exists s, s = foldl (fun s c => record_today (fst c) (snd c) s) (today_new 1700000000) [(1700000000, 5); (1700000001, 6); (1700040000, 7)]
  /\ fst (snapshot_today 1700040000 s)
  = (current_pt_day_key 1700040000, len (on_day (pt_day 1700040000) [(1700000000, 5); (1700000001, 6); (1700040000, 7)]),
     total_bytes (on_day (pt_day 1700040000) [(1700000000, 5); (1700000001, 6); (1700040000, 7)]), seconds_until_pacific_midnight 1700040000).
Proof.
  eexists. split; [reflexivity|].
  refine (quota_counts 1700000000 1700040000 [(1700000000, 5); (1700000001, 6); (1700040000, 7)] _ _ _ _ _ _).
  - unfold HOUR; lia.
  - cbn. repeat (apply Sorted_cons; [|constructor; lia]). apply Sorted_nil.
  - lia.
  - repeat (constructor; [cbn; lia|]). constructor.
  - vm_compute; reflexivity.
  - vm_compute; reflexivity.
Defined.
