(* ===== verification/RelayJson.v ===== *)
(** * src/domain_fronter.rs: the answer of an Apps Script deployment

    From the body of a deployment's answer to the HTTP response written to the browser
    ([parse_relay_json]), with the unwrapping of HtmlService pages and the classification
    of error envelopes; the headers forwarded to a deployment.

    serde_json, base64, brotli and zstd are parameters.  Slicing a string at a byte index
    that is not a character boundary is a [Panic]. *)

From stdpp Require Import prelude.
From S2P Require Import Prelude RustStr HttpText.
#[local] Open Scope Z_scope.

Inductive FronterError :=
| FIo | FTls | FDns | FBadResponse (msg : str) | FRelay (msg : str) | FTimeout | FJson | FNonRetryable (inner : FronterError).

Definition is_retryable (e : FronterError) : bool := match e with FNonRetryable _ => false | _ => true end.
Definition into_inner (e : FronterError) : FronterError := match e with FNonRetryable inner => inner | other => other end.

(** ** Strings *)

(** [&s[..n]], for [n] at most the length in bytes. *)
Fixpoint slice_to (n : Z) (s : str) : option str :=
  if n =? 0 then Some [] else
  match s with
  | [] => None
  | c :: s => if n <? len (utf8_char c) then None else cons c <$> slice_to (n - len (utf8_char c)) s
  end.

(** [format!(.., &text[..text.len().min(200)])] in an error. *)
Definition bad_excerpt {A} (msg : string) (text : str) : res A FronterError :=
  match slice_to (Z.min (str_len text) 200) text with
  | Some excerpt => Err (FBadResponse (lit msg ++ excerpt))
  | None => Panic
  end.

(** [char::from_u32] *)
Definition from_u32 (v : Z) : option Z := if between 0xD800 v 0xDFFF || (0x10FFFF <? v) then None else Some v.

(** [str::from_utf8] of the digits, then [from_str_radix(_, 16)]. *)
Definition hex_of (digits : bytes) : option Z := from_utf8 digits ≫= parse_hex.

Definition simple_escape (c : Z) : option Z :=
  if c =? 92 then Some 92 else if c =? 34 then Some 34 else if c =? 39 then Some 39 else if c =? 47 then Some 47
  else if c =? 110 then Some 10 else if c =? 114 then Some 13 else if c =? 116 then Some 9
  else if c =? 98 then Some 8 else if c =? 102 then Some 12 else None.

(** The loop of [decode_js_string_escapes] over the bytes from [i] on. *)
Fixpoint unescape (b : bytes) : option str :=
  match b with
  | [] => Some []
  | c :: b =>
    if negb (c =? 92) then cons c <$> unescape b else
    match b with
    | [] => None
    | esc :: b =>
      if esc =? 120 then
        match b with
        | h1 :: h2 :: b => v ← hex_of [h1; h2]; cons v <$> unescape b
        | _ => None
        end
      else if esc =? 117 then
        match b with
        | h1 :: h2 :: h3 :: h4 :: b => v ← hex_of [h1; h2; h3; h4]; ch ← from_u32 v; cons ch <$> unescape b
        | _ => None
        end
      else ch ← simple_escape esc; cons ch <$> unescape b
    end
  end.

Definition decode_js_string_escapes (s : str) : option str := unescape (as_bytes s).

(** ** JSON *)
#[local] Unset Elimination Schemes.
Inductive Value := VNull | VBool (b : bool) | VNumber (text : str) | VString (s : str) | VArray (l : list Value) | VObject (m : list (str * Value)).
#[local] Set Elimination Schemes.

Record RelayResponse := mkRelay { rr_s : option Z; rr_h : option (list (str * Value)); rr_b : option str; rr_e : option str }.

Definition value_to_header_str (v : Value) : option str :=
  match v with
  | VString s => Some s
  | VNumber n => Some n
  | VBool b => Some (if b then lit "true" else lit "false")
  | _ => None
  end.

Definition as_str (v : Value) : option str := match v with VString s => Some s | _ => None end.

(** [parts.join(", ")] *)
Fixpoint join_comma (l : list str) : str :=
  match l with
  | [] => []
  | [x] => x
  | x :: r => x ++ lit ", " ++ join_comma r
  end.

Definition header_string_value (v : Value) : option str :=
  match v with
  | VString s => Some s
  | VArray arr => match omap as_str arr with [] => None | parts => Some (join_comma parts) end
  | _ => None
  end.

Fixpoint get_key {A} (k : str) (m : list (str * A)) : option A :=
  match m with
  | [] => None
  | (k', v) :: m => if decide (k' = k) then Some v else get_key k m
  end.

(** ** Error envelopes *)
Inductive EnvelopeCategory := Quota | Auth | Deploy | Admin.

Definition QUOTA_PATTERNS : list str :=
  [lit "service invoked too many times"; lit "invoked too many times"; lit "too many times"; lit "service invoked";
   lit "for one day"; lit "per day"; lit "daily limit"; lit "quota exceeded"; lit "quota"; lit "rate limit";
   lit "limit exceeded"; lit "bandwidth quota"; lit "bandwidth exceeded"; lit "too much upload bandwidth";
   lit "too much traffic"; lit "transfer rate"; lit "bandbreitenkontingent";
   lit "daten" ++ [252] ++ lit "bertragungsrate"; lit "urlfetch"].
Definition AUTH_PATTERNS : list str :=
  [lit "authorization is required"; lit "unauthorized"; lit "not authorized"; lit "permission denied"; lit "access denied"].
Definition DEPLOY_PATTERNS : list str :=
  [lit "error code not_found"; lit "not_found"; lit "deployment version"; lit "deployment id"; lit "deployment not found";
   lit "missing library version"; lit "script id"; lit "scriptid"; lit "no script"].
Definition ADMIN_PATTERNS : list str :=
  [lit "not permitted by your admin"; lit "contact your administrator"; lit "disabled. please contact";
   lit "domain policy has disabled"; lit "administrator to enable"].

Definition classify_envelope_error (msg : str) : option EnvelopeCategory :=
  let lower := to_ascii_lowercase msg in
  if existsb (contains lower) QUOTA_PATTERNS then Some Quota
  else if existsb (contains lower) AUTH_PATTERNS then Some Auth
  else if existsb (contains lower) DEPLOY_PATTERNS then Some Deploy
  else if existsb (contains lower) ADMIN_PATTERNS then Some Admin
  else None.

Definition should_blacklist (status : Z) (body : str) : bool :=
  if (status =? 429) || (status =? 403) then true
  else match classify_envelope_error body with Some _ => true | None => false end.

Definition looks_like_quota_error (msg : str) : bool :=
  match classify_envelope_error msg with Some Quota => true | _ => false end.

(** [r : Result<Vec<u8>, FronterError>] *)
Definition probe_indicates_recovery (r : res bytes FronterError) : bool :=
  match r with
  | Ok _ => true
  | Err (FRelay msg) => match classify_envelope_error msg with None => true | Some _ => false end
  | _ => false
  end.

(** ** The reply *)
Definition BASE_SKIP : list str := [lit "transfer-encoding"; lit "connection"; lit "keep-alive"; lit "content-length"].

(** The [(k, v)] lines one entry of the header map is printed as. *)
Definition entry_lines (strip : bool) (kv : str * Value) : headers_t :=
  let '(k, v) := kv in
  let lk := to_ascii_lowercase k in
  if bool_decide (lk ∈ BASE_SKIP) then []
  else if bool_decide (lk = lit "content-encoding") && strip then []
  else match v with
       | VArray arr => (fun s => (k, s)) <$> omap value_to_header_str arr
       | other => match value_to_header_str other with Some s => [(k, s)] | None => [] end
       end.

Definition print_header (kv : str * str) : bytes := as_bytes (fst kv) ++ lit ": " ++ as_bytes (snd kv) ++ CRLF.

(** The codings other than identity. *)
Definition encoding_tokens (raw_enc : str) : list str :=
  List.filter (fun t => negb (bool_decide (t = [])) && negb (bool_decide (t = lit "identity")))
    ((fun t => to_ascii_lowercase (trim t)) <$> split_on 44 raw_enc).

Section Json.
Context {B64 : Base64}.
Context (from_str : str -> option RelayResponse) (from_str_value : str -> option Value).
Context (decode_brotli decode_zstd : bytes -> option bytes).

Definition extract_apps_script_user_html (text : str) : option str :=
  '(_, rest) ← split_once (lit "goog.script.init(" ++ [34]) text;
  '(encoded, _) ← split_once ([34] ++ lit ", " ++ [34; 34] ++ lit ", undefined") rest;
  decoded ← decode_js_string_escapes encoded;
  outer ← from_str_value decoded;
  match outer with
  | VObject m => user_html ← get_key (lit "userHtml") m; as_str user_html
  | _ => None
  end.

(** The envelope in [text]: all of it, the page's [userHtml], or from the first brace to
    the last. *)
Definition find_envelope (text : str) : res RelayResponse FronterError :=
  match from_str text with
  | Some v => Ok v
  | None =>
    match extract_apps_script_user_html text with
    | Some unwrapped =>
      match from_str unwrapped with
      | Some v => Ok v
      | None => bad_excerpt "no json in apps_script user_html: " unwrapped
      end
    | None =>
      match split_once [123] text with
      | None => bad_excerpt "no json in: " text
      | Some (before, _) =>
        match rsplit_once 125 text with
        | None => bad_excerpt "no json end in: " text
        | Some (upto, _) =>
          if (length upto <? length before)%nat
          then Err (FBadResponse (lit "no valid json object in: " ++ take 200 text))
          else
            match from_str (take (S (length upto) - length before) (drop (length before) text)) with
            | Some v => Ok v
            | None => Err FJson
            end
        end
      end
    end
  end.

(** The body to deliver and whether [Content-Encoding] is dropped. *)
Definition decode_body (allow_brotli_zstd : bool) (h : option (list (str * Value))) (resp_body : bytes) : bytes * bool :=
  if bool_decide (resp_body = []) then (resp_body, true) else
  match h with
  | None => (resp_body, true)
  | Some hmap =>
    match List.find (fun kv => eq_ignore_ascii_case (fst kv) (lit "content-encoding")) hmap ≫= (fun kv => header_string_value (snd kv)) with
    | None => (resp_body, true)
    | Some raw_enc =>
      match encoding_tokens raw_enc with
      | [] => (resp_body, true)
      | [t] =>
        if bool_decide (t = lit "gzip") then (resp_body, true)
        else if bool_decide (t = lit "br") && allow_brotli_zstd
        then match decode_brotli resp_body with Some d => (d, true) | None => (resp_body, false) end
        else if bool_decide (t = lit "zstd") && allow_brotli_zstd
        then match decode_zstd resp_body with Some d => (d, true) | None => (resp_body, false) end
        else (resp_body, false)
      | _ => (resp_body, false)
      end
    end
  end.

Definition reply_of (allow_brotli_zstd : bool) (data : RelayResponse) : res bytes FronterError :=
  match rr_e data with
  | Some e => Err (FRelay e)
  | None =>
    let status := default 200 (rr_s data) in
    match match rr_b data with Some b => b64_decode b | None => Some [] end with
    | None => Err (FBadResponse (lit "bad relay body base64: " ++ b64_error (default [] (rr_b data))))
    | Some resp_body =>
      let '(resp_body, strip) := decode_body allow_brotli_zstd (rr_h data) resp_body in
      Ok (lit "HTTP/1.1 " ++ dec_string status ++ [32] ++ as_bytes (status_text status) ++ CRLF
          ++ ((default [] (rr_h data) ≫= entry_lines strip) ≫= print_header)
          ++ lit "Content-Length: " ++ dec_string (len resp_body) ++ CRLF2 ++ resp_body)
    end
  end.

Definition parse_relay_json (allow_brotli_zstd : bool) (body : bytes) : res bytes FronterError :=
  match from_utf8 body with
  | None => Err (FBadResponse (lit "non-utf8 json"))
  | Some text =>
    let text := trim text in
    if bool_decide (text = []) then Err (FBadResponse (lit "empty relay body"))
    else let? data := find_envelope text in reply_of allow_brotli_zstd data
  end.
End Json.

(** ** What is forwarded *)
Definition FORWARD_SKIP : list str :=
  [lit "host"; lit "connection"; lit "content-length"; lit "transfer-encoding"; lit "proxy-connection";
   lit "proxy-authorization"; lit "x-forwarded-for"; lit "x-forwarded-host"; lit "x-forwarded-proto";
   lit "x-forwarded-port"; lit "x-forwarded-server"; lit "x-forwarded-ssl"; lit "forwarded"; lit "via"; lit "x-real-ip";
   lit "x-client-ip"; lit "x-originating-ip"; lit "true-client-ip"; lit "cf-connecting-ip"; lit "fastly-client-ip";
   lit "x-cluster-client-ip"; lit "client-ip"].

Definition coding_kept (p : str) : bool :=
  let tok := to_ascii_lowercase (trim (default [] (head (split_on 59 p)))) in
  negb (bool_decide (tok = lit "br")) && negb (bool_decide (tok = lit "zstd")).

Definition strip_brotli_from_accept_encoding (value : str) : str :=
  join_comma (List.filter coding_kept (trim <$> split_on 44 value)).

Definition forward_header (allow_brotli_zstd : bool) (kv : str * str) : option (str * str) :=
  let '(k, v) := kv in
  let lk := to_ascii_lowercase k in
  if bool_decide (lk ∈ FORWARD_SKIP) then None
  else if bool_decide (lk = lit "accept-encoding") then
    if allow_brotli_zstd then Some (k, v)
    else let cleaned := strip_brotli_from_accept_encoding v in
         if bool_decide (cleaned = []) then None else Some (k, cleaned)
  else Some (k, v).

Definition filter_forwarded_headers_with_brotli_zstd (headers : headers_t) (allow_brotli_zstd : bool) : headers_t :=
  omap (forward_header allow_brotli_zstd) headers.
