(* ===== verification/RelayReply.v ===== *)
(** * src/domain_fronter.rs: the answer of a deployment, proved *)

From stdpp Require Import prelude.
From S2P Require Import Prelude RustStr HttpText HttpRead HttpRewrite RelayJson.
#[local] Open Scope Z_scope.

(** ** The status line *)
Definition plain_text (s : str) : bool := forallb (fun c => between 32 c 126) s && negb (bool_decide (s = [])).

Lemma status_text_plain code : plain_text (status_text code) = true.
Proof. unfold status_text. repeat case_match; vm_compute; reflexivity. Qed.

Lemma plain_text_spec s : plain_text s = true -> Forall is_ascii s /\ 10 ∉ s /\ last s <> Some 13 /\ s <> [].
Proof.
  unfold plain_text. intros [H Hn]%andb_true_iff. apply negb_true_iff, bool_decide_eq_false in Hn. rewrite forallb_forall in H.
  assert (forall c, c ∈ s -> 32 <= c <= 126) as Hr by (intros c Hc%list_elem_of_In%H; unfold between in Hc; lia).
  split_and!; [apply Forall_forall; intros c Hc%Hr; unfold is_ascii; lia|intros Hc%Hr; lia| |done].
  intros [l El]%last_Some. assert (13 ∈ s) as Hc by (rewrite El; set_solver). apply Hr in Hc. lia.
Qed.

Definition status_line (status : Z) (reason : str) : bytes := lit "HTTP/1.1 " ++ dec_string status ++ [32] ++ reason.

Lemma status_line_ascii status reason : 0 <= status -> plain_text reason = true -> Forall is_ascii (status_line status reason).
Proof.
  intros Hs (Ha & _)%plain_text_spec. unfold status_line.
  apply Forall_app. split; [|apply Forall_app; split; [by apply dec_string_ascii|constructor; [done|done]]].
  apply Forall_forall. intros c Hc. assert (between 0 c 127 = true) as H; [|unfold between in H; unfold is_ascii; lia].
  revert c Hc. apply Forall_forall, (bool_decide_eq_true_1 _). vm_compute. reflexivity.
Qed.

Lemma status_line_ok status reason : 0 <= status -> plain_text reason = true -> ok_line (status_line status reason).
Proof.
  intros Hs (_ & Hl & _ & _)%plain_text_spec. unfold ok_line, status_line. split; [|done].
  rewrite !elem_of_app, list_elem_of_singleton. intros [H|[H|[H|H]]]; [by apply (lit_no 10 "HTTP/1.1 ") in H| |done|done].
  by apply dec_string_not_elem in H.
Qed.

Lemma status_line_code status reason : 0 <= status <= 65535 -> plain_text reason = true ->
  (s ← from_utf8 (status_line status reason ++ [13]); w ← second_word (trim_end_matches 13 s); parse_u16 w) = Some status.
Proof.
  intros Hs Hp. destruct (plain_text_spec _ Hp) as (_ & _ & Hl & Hn).
  assert (Forall is_ascii (status_line status reason ++ [13])) as Ha.
  { apply Forall_app. split; [apply status_line_ascii; done || lia|]. by apply Forall_singleton. }
  rewrite <- (as_bytes_ascii _ Ha), from_utf8_as_bytes by (by apply ascii_str_ok). cbn [mbind option_bind].
  destruct (trim_end_matches_clean (status_line status reason)) as [_ ->].
  { unfold status_line. rewrite !last_app. destruct (last reason) eqn:E; [done|]. by apply last_None in E. }
  unfold second_word, status_line. change (lit "HTTP/1.1 ") with (lit "HTTP/1.1" ++ [32]). rewrite <- app_assoc.
  rewrite (split_once_first 32 [] (lit "HTTP/1.1")) by (by apply lit_no). cbn [mbind option_bind].
  rewrite (split_once_first 32 [] (dec_string status)) by (by apply dec_string_not_elem; [|lia]). cbn [mbind option_bind].
  apply parse_dec_string; lia.
Qed.

(** ** The reply to the browser *)
Lemma print_lines line kvs : kvs <> [] ->
  line ++ CRLF ++ (kvs ≫= print_header) ++ CRLF = join_lines (line :: (hline <$> kvs)) ++ CRLF2.
Proof.
  revert line. induction kvs as [|kv kvs IH]; intros line Hn; [done|]. rewrite fmap_cons, join_lines_cons by done.
  rewrite <- !app_assoc. do 2 f_equal. rewrite bind_cons. unfold print_header at 1. rewrite <- !app_assoc.
  destruct kvs as [|kv2 kvs].
  - cbn [mbind list_bind fmap list_fmap join_lines app]. unfold hline. by rewrite <- !app_assoc.
  - specialize (IH (hline kv)). unfold hline in IH at 1. rewrite <- !app_assoc in IH. apply IH. done.
Qed.

(** A printed reply splits into what was printed. *)
Lemma printed_reply status reason kvs body : 0 <= status <= 65535 -> plain_text reason = true -> Forall clean_header kvs ->
  split_response (lit "HTTP/1.1 " ++ dec_string status ++ [32] ++ as_bytes reason ++ CRLF ++ (kvs ≫= print_header)
    ++ lit "Content-Length: " ++ dec_string (len body) ++ CRLF2 ++ body)
  = Some (status, kvs ++ [(lit "Content-Length", dec_string (len body))], body).
Proof.
  intros Hst Hp Hc. set (all := kvs ++ [(lit "Content-Length", dec_string (len body))]). pose proof (len_nonneg body) as Hpos.
  assert (Forall clean_header all) as Hk.
  { apply Forall_app. split; [done|]. apply Forall_singleton.
    exact (proj1 (Forall_singleton _ _) (reply_headers_clean [] (len body) (Forall_nil_2 _) Hpos)). }
  assert (all <> []) as Hn by (unfold all; by destruct kvs).
  rewrite <- (split_reply (status_line status reason) status all body); [|apply status_line_ok; done || lia|by apply status_line_code|done|done].
  f_equal. rewrite (app_assoc (join_lines _)), <- print_lines by done. unfold status_line, all. rewrite bind_app, bind_cons.
  destruct (plain_text_spec _ Hp) as (Ha & _). rewrite (as_bytes_ascii reason) by done.
  assert (print_header (lit "Content-Length", dec_string (len body)) = lit "Content-Length: " ++ dec_string (len body) ++ CRLF) as ->.
  { unfold print_header. cbn [fst snd]. by rewrite (as_bytes_ascii (dec_string (len body))) by (by apply dec_string_ascii). }
  cbn [mbind list_bind]. rewrite <- !app_assoc. reflexivity.
Qed.

Lemma entry_lines_strip kv : Forall clean_header (entry_lines false kv) -> Forall clean_header (entry_lines true kv).
Proof.
  destruct kv as [k v]. unfold entry_lines. destruct (bool_decide (to_ascii_lowercase k ∈ BASE_SKIP)); [done|].
  destruct (bool_decide (to_ascii_lowercase k = lit "content-encoding")); [constructor|done].
Qed.

Definition lines_of (strip : bool) (h : option (list (str * Value))) : headers_t := default [] h ≫= entry_lines strip.

Lemma lines_of_clean h strip : Forall clean_header (lines_of false h) -> Forall clean_header (lines_of strip h).
Proof.
  destruct strip; [|done]. unfold lines_of. generalize (default [] h). intros l. induction l as [|kv l IH]; [done|].
  rewrite !bind_cons, !Forall_app. intros [H1 H2]. split; [by apply entry_lines_strip|auto].
Qed.

Lemma entry_lines_key strip kv k s : (k, s) ∈ entry_lines strip kv ->
  to_ascii_lowercase k ∉ BASE_SKIP /\ (strip = true -> to_ascii_lowercase k <> lit "content-encoding").
Proof.
  destruct kv as [k0 v]. unfold entry_lines. case_bool_decide as Hs; [by intros ?%elem_of_nil|].
  case_bool_decide as He; destruct strip; cbn [andb]; try (by intros ?%elem_of_nil).
  all: intros H; assert (k = k0) as ->; [|done].
  all: destruct v as [| | | |l|]; cbn [value_to_header_str] in H; try apply elem_of_nil in H; try done.
  all: try (apply list_elem_of_singleton in H; congruence).
  all: apply list_elem_of_fmap in H as (x & Hx & _); congruence.
Qed.

Lemma lines_of_absent strip h name : to_ascii_lowercase name ∈ BASE_SKIP \/ strip = true /\ to_ascii_lowercase name = lit "content-encoding" ->
  Forall (fun kv => eq_ignore_ascii_case (fst kv) name = false) (lines_of strip h).
Proof.
  intros Hn. apply Forall_forall. intros [k s] Hin. unfold lines_of in Hin. apply list_elem_of_bind in Hin as (kv & H & _).
  apply entry_lines_key in H as [H1 H2]. unfold eq_ignore_ascii_case. apply bool_decide_eq_false. cbn [fst]. intros E.
  destruct Hn as [Hn|[Hs Hn]]; [congruence|]. by apply H2; [|congruence].
Qed.

Section Reply.
Context {B64 : Base64}.
Context (from_str : str -> option RelayResponse) (from_str_value : str -> option Value).
Context (decode_brotli decode_zstd : bytes -> option bytes).

Lemma reply_of_split allow data status raw : rr_e data = None -> default 200 (rr_s data) = status -> 0 <= status <= 65535 ->
  match rr_b data with Some b => b64_decode b | None => Some [] end = Some raw ->
  Forall clean_header (lines_of false (rr_h data)) ->
  let '(body, strip) := decode_body decode_brotli decode_zstd allow (rr_h data) raw in
  exists out, reply_of decode_brotli decode_zstd allow data = Ok out
  /\ split_response out = Some (status, lines_of strip (rr_h data) ++ [(lit "Content-Length", dec_string (len body))], body).
Proof.
  intros He Hs Hst Hb Hc. destruct (decode_body decode_brotli decode_zstd allow (rr_h data) raw) as [body strip] eqn:Ed.
  unfold reply_of. rewrite He, Hb, Hs, Ed. eexists. split; [reflexivity|].
  apply (printed_reply status (status_text status) (lines_of strip (rr_h data))); [done|apply status_text_plain|by apply lines_of_clean].
Qed.

(** What the reply must be, from the envelope's headers and bytes alone.

    The codings the first Content-Encoding header names, [identity] apart. *)
Definition named_codings (h : option (list (str * Value))) : list str :=
  match List.find (fun kv => bool_decide (to_ascii_lowercase (fst kv) = lit "content-encoding")) (default [] h) with
  | Some (_, v) =>
    match header_string_value v with
    | Some text => List.filter (fun t => negb (bool_decide (t = []) || bool_decide (t = lit "identity")))
                     ((fun t => to_ascii_lowercase (trim t)) <$> split_on 44 text)
    | None => []
    end
  | None => []
  end.

(** [delivered allow codings raw body plain]: a body [raw] in these codings reaches the
    browser as [body]; [plain] says that it is in no coding any more. *)
Inductive delivered (allow : bool) : list str -> bytes -> bytes -> bool -> Prop :=
| dl_empty codings : delivered allow codings [] [] true
| dl_plain raw : delivered allow [] raw raw true
| dl_gzip raw : delivered allow [lit "gzip"] raw raw true
| dl_brotli raw body : allow = true -> raw <> [] -> decode_brotli raw = Some body -> delivered allow [lit "br"] raw body true
| dl_zstd raw body : allow = true -> raw <> [] -> decode_zstd raw = Some body -> delivered allow [lit "zstd"] raw body true
| dl_not_undone codings raw : raw <> [] -> codings <> [] -> codings <> [lit "gzip"] ->
    ~ (allow = true /\ (codings = [lit "br"] /\ is_Some (decode_brotli raw) \/ codings = [lit "zstd"] /\ is_Some (decode_zstd raw))) ->
    delivered allow codings raw raw false.

(** The header lines: each value of each header in order, framing headers left out, and
    Content-Encoding when the body is plain. *)
Definition framing_name (k : str) : Prop :=
  to_ascii_lowercase k ∈ [lit "transfer-encoding"; lit "connection"; lit "keep-alive"; lit "content-length"].
Definition reply_lines (plain : bool) (h : option (list (str * Value))) : headers_t :=
  kv ← filter (fun kv => ~ framing_name (fst kv) /\ ~ (plain = true /\ to_ascii_lowercase (fst kv) = lit "content-encoding")) (default [] h);
  (fst kv,.) <$> match snd kv with VArray l => omap value_to_header_str l | v => option_list (value_to_header_str v) end.

Lemma decode_body_delivered allow h raw :
  let '(body, strip) := decode_body decode_brotli decode_zstd allow h raw in delivered allow (named_codings h) raw body strip.
Proof.
  destruct (decode_body decode_brotli decode_zstd allow h raw) as [body strip] eqn:Ed. unfold decode_body in Ed.
  case_bool_decide as Hr; [subst; simplify_eq; constructor|].
  destruct h as [hmap|]; [|simplify_eq; constructor]. unfold named_codings.
  unfold eq_ignore_ascii_case in Ed. change (to_ascii_lowercase (lit "content-encoding")) with (lit "content-encoding") in Ed.
  change (default [] (Some hmap)) with hmap.
  destruct (List.find _ hmap) as [[k v]|]; cbn [mbind option_bind] in Ed; [|simplify_eq; constructor]. cbn [snd] in Ed.
  destruct (header_string_value v) as [text|]; [|simplify_eq; constructor].
  assert (List.filter (fun t => negb (bool_decide (t = []) || bool_decide (t = lit "identity")))
    ((fun t => to_ascii_lowercase (trim t)) <$> split_on 44 text) = encoding_tokens text) as ->.
  { unfold encoding_tokens. apply List.filter_ext. intros t. by rewrite negb_orb. }
  destruct (encoding_tokens text) as [|t [|t' ts]]; [simplify_eq; constructor| |simplify_eq; constructor; try done; naive_solver].
  case_bool_decide as Hg; [subst; simplify_eq; constructor|].
  destruct (bool_decide (t = lit "br")) eqn:Hb; [apply bool_decide_eq_true in Hb; subst t|apply bool_decide_eq_false in Hb].
  - destruct allow; cbn [andb] in Ed.
    + destruct (decode_brotli raw) as [d|] eqn:E; simplify_eq; [by constructor|].
      constructor; [done..|]. rewrite E. intros (_ & [[_ []]|[? _]]); done.
    + replace (bool_decide _ && false) with false in Ed by (by rewrite andb_false_r). simplify_eq. constructor; [done..|]. by intros [? _].
  - cbn [andb] in Ed. destruct (bool_decide (t = lit "zstd")) eqn:Hz; [apply bool_decide_eq_true in Hz; subst t|apply bool_decide_eq_false in Hz].
    + destruct allow; cbn [andb] in Ed.
      * destruct (decode_zstd raw) as [d|] eqn:E; simplify_eq; [by constructor|].
        constructor; [done..|]. rewrite E. intros (_ & [[? _]|[_ []]]); done.
      * simplify_eq. constructor; [done..|]. by intros [? _].
    + cbn [andb] in Ed. simplify_eq. constructor; try done; [congruence|]. intros (_ & [[? _]|[? _]]); congruence.
Qed.

Lemma lines_of_reply strip h : lines_of strip h = reply_lines strip h.
Proof.
  unfold lines_of, reply_lines. generalize (default [] h). intros l. induction l as [|[k v] l IH]; [done|].
  rewrite bind_cons, IH, filter_cons. unfold entry_lines, framing_name, BASE_SKIP. cbn [fst snd].
  destruct (bool_decide (to_ascii_lowercase k ∈ _)) eqn:Hs; [apply bool_decide_eq_true in Hs|apply bool_decide_eq_false in Hs].
  { by rewrite decide_False by (intros [? _]; done). }
  destruct (bool_decide (to_ascii_lowercase k = lit "content-encoding")) eqn:He;
    [apply bool_decide_eq_true in He|apply bool_decide_eq_false in He].
  - destruct strip; cbn [andb].
    + by rewrite decide_False by (intros [_ H]; apply H; done).
    + rewrite decide_True by (split; [done|by intros [? _]]). rewrite bind_cons. cbn [fst snd]. f_equal.
      destruct v; try done; cbn; by case_match.
  - cbn [andb]. rewrite decide_True by (split; [done|by intros [_ ?]]). rewrite bind_cons. cbn [fst snd]. f_equal.
    destruct v; try done; cbn; by case_match.
Qed.

(** Claim C17: the reply a browser gets from an envelope.  When a deployment answers with an
    envelope that has no error and whose headers have no line breaks, the reply has the
    envelope's status, its header values in order less the framing headers, one
    Content-Length, the length of the body, and this body: an empty body, one in no coding
    or one named gzip as it came; one in brotli or zstd alone, where that is allowed and
    the decoder accepts it, decoded; all others as they came.  Content-Encoding is kept in
    this last case and dropped in the others. *)
Theorem relay_json_reply (allow : bool) (input : bytes) (text : str) (data : RelayResponse) (status : Z) (raw : bytes)
    (Htext : from_utf8 input = Some text) (Hnonempty : trim text <> []) (Hjson : from_str (trim text) = Some data)
    (Herr : rr_e data = None) (Hcode : default 200 (rr_s data) = status) (Hstatus : 0 <= status <= 65535)
    (Hbody : match rr_b data with Some b => b64_decode b | None => Some [] end = Some raw)
    (Hclean : Forall clean_header (lines_of false (rr_h data))) :
  exists out body plain, parse_relay_json from_str from_str_value decode_brotli decode_zstd allow input = Ok out
    /\ delivered allow (named_codings (rr_h data)) raw body plain
    /\ split_response out = Some (status, reply_lines plain (rr_h data) ++ [(lit "Content-Length", dec_string (len body))], body)
    /\ find_header (reply_lines plain (rr_h data)) (lit "content-length") = None
    /\ find_header (reply_lines plain (rr_h data)) (lit "transfer-encoding") = None
    /\ (plain = true -> find_header (reply_lines plain (rr_h data)) (lit "content-encoding") = None).
Proof.
  pose proof (reply_of_split allow data status raw Herr Hcode Hstatus Hbody Hclean) as H.
  pose proof (decode_body_delivered allow (rr_h data) raw) as Hd.
  destruct (decode_body decode_brotli decode_zstd allow (rr_h data) raw) as [body strip] eqn:Ed.
  destruct H as (out & Ho & Hs). exists out, body, strip. rewrite <- lines_of_reply. split_and!; try done.
  - unfold parse_relay_json. rewrite Htext, bool_decide_false by done. unfold find_envelope. by rewrite Hjson.
  - apply find_header_absent, lines_of_absent. left. by vm_compute; set_solver.
  - apply find_header_absent, lines_of_absent. left. by vm_compute; set_solver.
  - intros ->. apply find_header_absent, lines_of_absent. by right.
Qed.
End Reply.

Definition sample_envelope (coding : str) : RelayResponse :=
  mkRelay (Some 404) (Some [(lit "Content-Type", VString (lit "text/plain")); (lit "Transfer-Encoding", VString (lit "chunked"));
                            (lit "Content-Encoding", VArray [VString coding]); (lit "Set-Cookie", VArray [VString (lit "a=1"); VString (lit "b=2")])])
    (Some (lit "gone")) None.

(** An envelope in brotli, with a decoder that turns [gone] into [plain text]. *)
Lemma relay_json_reply_witness :
  exists out, parse_relay_json (B64 := toy_base64) (fun _ => Some (sample_envelope (lit "br"))) (fun _ => None)
      (fun _ => Some (lit "plain text")) (fun _ => None) true (lit "{}") = Ok out
  /\ split_response out = Some (404, [(lit "Content-Type", lit "text/plain"); (lit "Set-Cookie", lit "a=1"); (lit "Set-Cookie", lit "b=2");
                                     (lit "Content-Length", lit "10")], lit "plain text").
Proof.
  destruct (relay_json_reply (B64 := toy_base64) (fun _ => Some (sample_envelope (lit "br"))) (fun _ => None)
    (fun _ => Some (lit "plain text")) (fun _ => None) true (lit "{}") (lit "{}") (sample_envelope (lit "br")) 404 (lit "gone"))
    as (out & body & plain & Hout & Hd & Hs & _).
  1-5,7: vm_compute; (reflexivity || discriminate).
  - split; vm_compute; discriminate.
  - unfold lines_of. cbn. repeat (apply Forall_cons; split; [by apply clean_header_bool|]). by apply Forall_nil.
  - exists out. split; [exact Hout|]. rewrite Hs. change (named_codings (rr_h (sample_envelope (lit "br")))) with [lit "br"] in Hd.
    inversion Hd as [| | |raw b _ _ E| |codings raw _ _ _ Hn]; subst; try done.
    + injection E as <-. reflexivity.
    + exfalso. apply Hn. split; [done|]. left. split; [done|]. by eexists.
Defined.

(** ** JavaScript escapes *)

(** [t] is an ASCII JavaScript literal of [s]: each character plain, as [\xNN], as
    [\uNNNN] or as one of the short escapes. *)
Definition hex_value (digits : bytes) (v : Z) : Prop :=
  exists ds, mapM hex_digit digits = Some ds /\ v = foldl (fun a d => a * 16 + d) 0 ds.

Inductive escaped : str -> str -> Prop :=
| esc_nil : escaped [] []
| esc_plain c s t : is_ascii c -> c <> 92 -> escaped s t -> escaped (c :: s) (c :: t)
| esc_x c s t digits : length digits = 2%nat -> hex_value digits c -> escaped s t -> escaped (c :: s) (92 :: 120 :: digits ++ t)
| esc_u c s t digits : length digits = 4%nat -> hex_value digits c -> char_ok c -> escaped s t ->
    escaped (c :: s) (92 :: 117 :: digits ++ t)
| esc_short e c s t : simple_escape e = Some c -> escaped s t -> escaped (c :: s) (92 :: e :: t).

Lemma hex_digit_range c d : hex_digit c = Some d -> 48 <= c <= 102 /\ 0 <= d < 16.
Proof. unfold hex_digit, between. repeat case_match; intros; simplify_eq; lia. Qed.

Lemma hex_digits_value digits ds a : mapM hex_digit digits = Some ds -> 0 <= a -> (a + 1) * 16 ^ len digits <= u64_max ->
  hex_digits a digits = Some (foldl (fun a d => a * 16 + d) a ds).
Proof.
  revert ds a. induction digits as [|c digits IH]; intros ds a; cbn [mapM hex_digits].
  - intros [= <-] _ _. done.
  - intros (d & Hd & (ds' & Hds & [= <-])%bind_Some)%bind_Some Ha Hm. rewrite Hd. cbn [mbind option_bind foldl].
    apply hex_digit_range in Hd as [_ Hd]. rewrite len_cons, Z.pow_add_r in Hm by (try apply len_nonneg; lia).
    assert (0 < 16 ^ len digits) by (apply Z.pow_pos_nonneg; [lia|apply len_nonneg]).
    destruct (Z.leb_spec (a * 16 + d) u64_max) as [_|]; [|nia]. apply IH; [done|lia|nia].
Qed.

Lemma hex_of_value digits v : (0 < length digits <= 4)%nat -> hex_value digits v -> hex_of digits = Some v.
Proof.
  intros Hl (ds & Hds & ->). assert (Forall (fun c => 48 <= c <= 102) digits) as Hr.
  { apply mapM_Some_1 in Hds. apply Forall_lookup. intros i c Hc. destruct (Forall2_lookup_l _ _ _ _ _ Hds Hc) as (d & _ & Hd).
    apply hex_digit_range in Hd. lia. }
  assert (Forall is_ascii digits) as Ha by (eapply Forall_impl; [exact Hr|]; unfold is_ascii; lia).
  unfold hex_of. rewrite <- (as_bytes_ascii _ Ha) at 1. rewrite from_utf8_as_bytes by (by apply ascii_str_ok). cbn [mbind option_bind].
  assert (hex_digits 0 digits = Some (foldl (fun a d => a * 16 + d) 0 ds)) as Hh.
  { apply hex_digits_value; [done|lia|]. unfold len. apply (Z.le_trans _ (16 ^ 4)); [|unfold u64_max; lia].
    rewrite Z.mul_1_l. apply Z.pow_le_mono_r; lia. }
  unfold parse_hex. destruct digits as [|c digits]; [cbn in Hl; lia|]. apply Forall_cons in Hr as [Hc _].
  destruct (Z.eqb_spec c 43); [lia|done].
Qed.

Lemma escaped_ascii s t : escaped s t -> Forall is_ascii t.
Proof.
  assert (forall digits v, hex_value digits v -> Forall is_ascii digits) as Hd.
  { intros digits v (ds & Hds & _). apply mapM_Some_1 in Hds. apply Forall_lookup. intros i c Hc.
    destruct (Forall2_lookup_l _ _ _ _ _ Hds Hc) as (d & _ & Hd). apply hex_digit_range in Hd. unfold is_ascii. lia. }
  induction 1 as [|c s t Hc _ _ IH|c s t digits _ Hv _ IH|c s t digits _ Hv _ _ IH|e c s t He _ IH]; [constructor|by constructor|..].
  - do 2 (constructor; [unfold is_ascii; lia|]). apply Forall_app. eauto.
  - do 2 (constructor; [unfold is_ascii; lia|]). apply Forall_app. eauto.
  - constructor; [unfold is_ascii; lia|]. constructor; [|done]. unfold simple_escape in He. unfold is_ascii.
    repeat (match goal with H : (if ?x =? ?y then _ else _) = _ |- _ => destruct (Z.eqb_spec x y) end); try done; lia.
Qed.

Lemma unescape_x h1 h2 b : unescape (92 :: 120 :: h1 :: h2 :: b) = (v ← hex_of [h1; h2]; cons v <$> unescape b).
Proof. done. Qed.

Lemma unescape_u h1 h2 h3 h4 b :
  unescape (92 :: 117 :: h1 :: h2 :: h3 :: h4 :: b) = (v ← hex_of [h1; h2; h3; h4]; ch ← from_u32 v; cons ch <$> unescape b).
Proof. done. Qed.

Lemma unescape_short e c b : simple_escape e = Some c -> unescape (92 :: e :: b) = cons c <$> unescape b.
Proof.
  intros He. change (unescape (92 :: e :: b)) with
    (if e =? 120 then match b with h1 :: h2 :: b => v ← hex_of [h1; h2]; cons v <$> unescape b | _ => None end
     else if e =? 117 then match b with h1 :: h2 :: h3 :: h4 :: b =>
       v ← hex_of [h1; h2; h3; h4]; ch ← from_u32 v; cons ch <$> unescape b | _ => None end
     else ch ← simple_escape e; cons ch <$> unescape b).
  destruct (Z.eqb_spec e 120) as [->|_]; [done|]. destruct (Z.eqb_spec e 117) as [->|_]; [done|]. by rewrite He.
Qed.

Lemma unescape_escaped s t : escaped s t -> unescape t = Some s.
Proof.
  induction 1 as [|c s t Hc Hn _ IH|c s t digits Hl Hv _ IH|c s t digits Hl Hv Hok _ IH|e c s t He _ IH]; [done|..].
  - cbn [unescape]. destruct (Z.eqb_spec c 92); [done|]. cbn [negb]. by rewrite IH.
  - destruct digits as [|h1 [|h2 [|]]]; try done. cbn [app]. rewrite unescape_x, (hex_of_value _ c) by (try done; cbn; lia).
    cbn [mbind option_bind]. by rewrite IH.
  - destruct digits as [|h1 [|h2 [|h3 [|h4 [|]]]]]; try done. cbn [app]. rewrite unescape_u, (hex_of_value _ c) by (try done; cbn; lia).
    cbn [mbind option_bind]. unfold from_u32. unfold char_ok in Hok.
    replace (between 0xD800 c 0xDFFF || (0x10FFFF <? c)) with false by (unfold between; lia). cbn [mbind option_bind]. by rewrite IH.
  - rewrite (unescape_short _ _ _ He). by rewrite IH.
Qed.

(** Unwrapping a page of HtmlService gives back what the deployment wrote: any
    ASCII JavaScript literal of a string, whichever escapes its characters were given, is
    decoded to that string. *)
Theorem js_escapes_roundtrip (s t : str) (Hesc : escaped s t) : decode_js_string_escapes t = Some s.
Proof. unfold decode_js_string_escapes. rewrite as_bytes_ascii by (by eapply escaped_ascii). by apply unescape_escaped. Qed.

Lemma js_escapes_roundtrip_witness : decode_js_string_escapes (lit "\x7ba\u20ac\n") = Some [123; 97; 8364; 10].
Proof.
  refine (js_escapes_roundtrip _ _ _).
  refine (esc_x 123 [97; 8364; 10] _ (lit "7b") _ _ (esc_plain 97 _ _ _ _ (esc_u 8364 [10] _ (lit "20ac") _ _ _ (esc_short 110 10 [] [] _ esc_nil)))).
  all: first [ vm_compute; reflexivity | discriminate | eexists; split; vm_compute; reflexivity
             | split; vm_compute; congruence | left; split; vm_compute; congruence ].
Defined.

(** A reply that is not JSON can stop the proxy.  The excerpt of 200 bytes put in
    the error is cut at a byte index: when a character lies across it, as in any longer text
    in a script other than Latin, the slice panics.  And text outside ASCII is not copied by
    the unwrapping of pages: each of its bytes becomes a character of its own. *)
Theorem relay_json_faults :
  parse_relay_json (B64 := toy_base64) (fun _ => None) (fun _ => None) (fun _ => None) (fun _ => None) false
    (lit "x" ++ mjoin (repeat (as_bytes [0x062E]) 100)) = Panic
  /\ decode_js_string_escapes [0xE9] = Some [0xC3; 0xA9].
Proof. split; vm_compute; reflexivity. Qed.
