(* ===== verification/Deployments.v ===== *)
(** * src/domain_fronter.rs: choosing among the deployments

    The round robin over the configured deployments, the blacklist with its cooldowns, the
    strikes for timeouts, the latency scores and the probes that shorten a cooldown.

    The selectors run under the blacklist's mutex and the other operations under the mutex
    of their map, so an operation is a function on the state, given the clock.  Instants and
    durations are nanoseconds.  An [f64] is the standard library's model of binary64
    ([SpecFloat] at 53 and 1024).  A [HashMap] is iterated in the order of [map_to_list];
    no theorem depends on it.  [None] is the panic of an index out of bounds. *)

From Stdlib Require Import Floats.SpecFloat.
From stdpp Require Import prelude gmap.
From S2P Require Import Prelude RustStr ListSort RelayJson.
#[local] Open Scope Z_scope.

(** ** Floating point *)
Definition f64 : Type := spec_float.
Definition f64_of (z : Z) : f64 := binary_normalize 53 1024 z 0 false.
Definition f64_add : f64 -> f64 -> f64 := SFadd 53 1024.
Definition f64_sub : f64 -> f64 -> f64 := SFsub 53 1024.
Definition f64_mul : f64 -> f64 -> f64 := SFmul 53 1024.
Definition f64_div : f64 -> f64 -> f64 := SFdiv 53 1024.

(** [partial_cmp(..).unwrap_or(Equal)] is not [Greater]. *)
Definition f64_le (x y : f64) : bool := match SFcompare x y with Some Gt => false | _ => true end.

Definition SEC : Z := 1000000000.

(** [Duration::as_secs_f64] *)
Definition as_secs_f64 (ns : Z) : f64 := f64_add (f64_of (ns / SEC)) (f64_div (f64_of (ns mod SEC)) (f64_of SEC)).

Definition LATENCY_EWMA_ALPHA : f64 := f64_div (f64_of 3) (f64_of 10).
Definition LATENCY_SLOW_THRESHOLD : f64 := f64_of 2.
Definition LATENCY_MIN_DEPLOYMENTS : nat := 3.
Definition LATENCY_SKIP_MIN_MEDIAN_MS : f64 := f64_of 500.
Definition LATENCY_HARD_SLOW_BATCH_MS : f64 := f64_of 6000.
Definition LATENCY_FRESH_FOR_SECS : Z := 30.
Definition LATENCY_HARD_SLOW_COOLDOWN_SECS : Z := LATENCY_FRESH_FOR_SECS.
Definition BLACKLIST_COOLDOWN_SECS : Z := 600.

(** ** State *)
Record BlacklistEntry := mkBl { bl_until : Z; probe_recoverable : bool }.

(** The fields of [DomainFronter] the selection uses; the last three come from the
    configuration. *)
Record Fronter := mkFronter {
  script_ids : list str;
  script_idx : Z;
  blacklist : gmap str BlacklistEntry;
  script_timeouts : gmap str (Z * Z);
  script_latency_ewma : gmap str (f64 * Z);
  auto_blacklist_strikes : Z;
  auto_blacklist_window : Z;
  auto_blacklist_cooldown : Z
}.

Definition clamp (lo hi v : Z) : Z := Z.max lo (Z.min hi v).

(** The part of [DomainFronter::new] that builds these fields. *)
Definition fronter_new (ids : list str) (strikes window_secs cooldown_secs : Z) : Fronter :=
  mkFronter ids 0 ∅ ∅ ∅ (Z.max strikes 1) (clamp 1 3600 window_secs * SEC) (clamp 1 86400 cooldown_secs * SEC).

Definition set_select (idx : Z) (bl : gmap str BlacklistEntry) (s : Fronter) : Fronter :=
  mkFronter (script_ids s) idx bl (script_timeouts s) (script_latency_ewma s)
    (auto_blacklist_strikes s) (auto_blacklist_window s) (auto_blacklist_cooldown s).
Definition set_timeouts (t : gmap str (Z * Z)) (s : Fronter) : Fronter :=
  mkFronter (script_ids s) (script_idx s) (blacklist s) t (script_latency_ewma s)
    (auto_blacklist_strikes s) (auto_blacklist_window s) (auto_blacklist_cooldown s).
Definition set_latency (l : gmap str (f64 * Z)) (s : Fronter) : Fronter :=
  mkFronter (script_ids s) (script_idx s) (blacklist s) (script_timeouts s) l
    (auto_blacklist_strikes s) (auto_blacklist_window s) (auto_blacklist_cooldown s).

(** ** Slow deployments *)
Definition fresh_latency_snapshot (m : gmap str (f64 * Z)) (now fresh : Z) : gmap str f64 :=
  fst <$> filter (fun kv => now - snd (snd kv) < fresh) m.

Definition script_latency_snapshot (now : Z) (s : Fronter) : gmap str f64 :=
  fresh_latency_snapshot (script_latency_ewma s) now (LATENCY_FRESH_FOR_SECS * SEC).

Definition compute_slow_set (snapshot : gmap str f64) : gset str :=
  if (size snapshot <? LATENCY_MIN_DEPLOYMENTS)%nat then ∅ else
  let values := sort_by f64_le (snd <$> map_to_list snapshot) in
  match values !! (length values / 2)%nat with
  | None => ∅
  | Some median =>
    if SFltb median LATENCY_SKIP_MIN_MEDIAN_MS then ∅ else
    let threshold := f64_mul median LATENCY_SLOW_THRESHOLD in
    dom (filter (fun kv => SFltb threshold (snd kv) = true) snapshot)
  end.

(** ** Selection *)
Definition prune (now : Z) (bl : gmap str BlacklistEntry) : gmap str BlacklistEntry := filter (fun kv => now < bl_until (snd kv)) bl.

(** One pass of at most [turns] turns: the first deployment [ok] accepts, and the counter. *)
Fixpoint pick (ok : str -> bool) (ids : list str) (turns : nat) (idx : Z) : option str * Z :=
  match turns with
  | O => (None, idx)
  | S turns =>
    match ids !! Z.to_nat (idx mod len ids) with
    | None => (None, idx)
    | Some sid =>
      let idx := wrap 64 (idx + 1) in
      if ok sid then (Some sid, idx) else pick ok ids turns idx
    end
  end.

(** [iter().min_by_key(|(_, e)| e.until)]: the first of the smallest. *)
Fixpoint min_until (l : list (str * BlacklistEntry)) : option (str * BlacklistEntry) :=
  match l with
  | [] => None
  | x :: l =>
    match min_until l with
    | None => Some x
    | Some y => if bl_until (snd y) <? bl_until (snd x) then Some y else Some x
    end
  end.

Definition listed (bl : gmap str BlacklistEntry) (sid : str) : bool := bool_decide (is_Some (bl !! sid)).

Definition next_script_id (now : Z) (s : Fronter) : option str * Fronter :=
  let ids := script_ids s in
  let slow := compute_slow_set (script_latency_snapshot now s) in
  let bl := prune now (blacklist s) in
  match pick (fun sid => negb (listed bl sid) && negb (bool_decide (sid ∈ slow))) ids (length ids) (script_idx s) with
  | (Some sid, idx) => (Some sid, set_select idx bl s)
  | (None, idx) =>
    match pick (fun sid => negb (listed bl sid)) ids (length ids) idx with
    | (Some sid, idx) => (Some sid, set_select idx bl s)
    | (None, idx) =>
      match min_until (map_to_list bl) with
      | Some (sid, _) => (Some sid, set_select idx (delete sid bl) s)
      | None => (head ids, set_select idx bl s)
      end
    end
  end.

Fixpoint pick_many (ok : str -> bool) (ids : list str) (want : nat) (turns : nat) (picked : list str) (idx : Z) : list str * Z :=
  match turns with
  | O => (picked, idx)
  | S turns =>
    if (want <=? length picked)%nat then (picked, idx) else
    match ids !! Z.to_nat (idx mod len ids) with
    | None => (picked, idx)
    | Some sid =>
      pick_many ok ids want turns (if ok sid && negb (bool_decide (sid ∈ picked)) then picked ++ [sid] else picked) (wrap 64 (idx + 1))
    end
  end.

Definition next_script_ids (now : Z) (want : nat) (s : Fronter) : list str * Fronter :=
  let ids := script_ids s in
  if bool_decide (ids = []) then ([], s) else
  let slow := compute_slow_set (script_latency_snapshot now s) in
  let bl := prune now (blacklist s) in
  let '(picked, idx) :=
    pick_many (fun sid => negb (listed bl sid) && negb (bool_decide (sid ∈ slow))) ids want (length ids) [] (script_idx s) in
  let '(picked, idx) :=
    if (length picked <? want)%nat then pick_many (fun sid => negb (listed bl sid)) ids want (length ids) picked idx
    else (picked, idx) in
  (match picked with [] => take 1 ids | _ => picked end, set_select idx bl s).

(** ** Penalties *)
Definition blacklist_script_inner (now : Z) (script_id : str) (cooldown : Z) (recoverable : bool) (s : Fronter) : Fronter :=
  set_select (script_idx s) (<[script_id := mkBl (now + cooldown) recoverable]> (blacklist s)) s.

Definition blacklist_script (now : Z) (script_id : str) (s : Fronter) : Fronter :=
  blacklist_script_inner now script_id (BLACKLIST_COOLDOWN_SECS * SEC) true s.

Definition blacklist_script_for (now : Z) (script_id : str) (cooldown : Z) (s : Fronter) : Fronter :=
  blacklist_script_inner now script_id cooldown false s.

Definition record_timeout_strike (now : Z) (script_id : str) (s : Fronter) : Fronter :=
  let entry := default (now, 0) (script_timeouts s !! script_id) in
  let entry := if auto_blacklist_window s <? now - fst entry then (now, 1) else (fst entry, snd entry + 1) in
  if auto_blacklist_strikes s <=? snd entry
  then blacklist_script_for now script_id (auto_blacklist_cooldown s) (set_timeouts (delete script_id (script_timeouts s)) s)
  else set_timeouts (<[script_id := entry]> (script_timeouts s)) s.

Definition record_batch_success (script_id : str) (s : Fronter) : Fronter :=
  set_timeouts (delete script_id (script_timeouts s)) s.

Definition record_batch_latency (now : Z) (script_id : str) (latency : Z) (s : Fronter) : Fronter :=
  let ms := f64_mul (as_secs_f64 latency) (f64_of 1000) in
  let score := match script_latency_ewma s !! script_id with
               | Some (score, _) => f64_add (f64_mul LATENCY_EWMA_ALPHA ms) (f64_mul (f64_sub (f64_of 1) LATENCY_EWMA_ALPHA) score)
               | None => ms
               end in
  let s := set_latency (<[script_id := (score, now)]> (script_latency_ewma s)) s in
  if (LATENCY_MIN_DEPLOYMENTS <=? length (script_ids s))%nat && SFleb LATENCY_HARD_SLOW_BATCH_MS ms
  then blacklist_script_for now script_id (LATENCY_HARD_SLOW_COOLDOWN_SECS * SEC) s
  else s.

(** ** Probes *)
Inductive ProbeApplyResult := Cleared | RewrittenInFlight | AlreadyExpired.

(** The entries a tick probes, with the deadline each had. *)
Definition probe_candidates (now : Z) (s : Fronter) : list (str * Z) * Fronter :=
  let bl := prune now (blacklist s) in
  ((fun kv => (fst kv, bl_until (snd kv))) <$> List.filter (fun kv => probe_recoverable (snd kv)) (map_to_list bl),
   set_select (script_idx s) bl s).

Definition apply_probe_recovery (sid : str) (captured_until : Z) (s : Fronter) : ProbeApplyResult * Fronter :=
  match blacklist s !! sid with
  | None => (AlreadyExpired, s)
  | Some entry =>
    if bl_until entry =? captured_until then (Cleared, set_select (script_idx s) (delete sid (blacklist s)) s)
    else (RewrittenInFlight, s)
  end.

(** [probe_one_sid], given what [do_relay_once_with] returned. *)
Definition probe_one_sid (sid : str) (captured_until : Z) (result : res bytes FronterError) (s : Fronter) : Fronter :=
  if probe_indicates_recovery result then snd (apply_probe_recovery sid captured_until s) else s.

(** * The choice of a deployment, proved *)

(** ** Going round *)

(** The deployment at counter value [i]. *)
Definition cyc (ids : list str) (i : Z) : option str := ids !! Z.to_nat (i mod len ids).

Lemma len_pos {A} (l : list A) : l <> [] -> 0 < len l.
Proof. destruct l as [|x l]; [done|]. rewrite len_cons. pose proof (len_nonneg l). lia. Qed.

Lemma cyc_Some ids i : ids <> [] -> exists sid, cyc ids i = Some sid /\ sid ∈ ids.
Proof.
  intros Hn. pose proof (len_pos _ Hn) as Hpos.
  pose proof (Z.mod_pos_bound i (len ids) Hpos) as Hm. unfold cyc.
  destruct (lookup_lt_is_Some_2 ids (Z.to_nat (i mod len ids))) as [sid E]; [unfold len in *; lia|].
  exists sid. split; [done|]. by eapply list_elem_of_lookup_2.
Qed.

(** A full turn meets every deployment. *)
Lemma cyc_all ids i sid : sid ∈ ids -> exists j, 0 <= j < len ids /\ cyc ids (i + j) = Some sid.
Proof.
  intros (k & Hk)%list_elem_of_lookup_1. pose proof (lookup_lt_Some _ _ _ Hk) as Hlt. unfold cyc, len in *.
  set (n := Z.of_nat (length ids)) in *. assert (0 < n) as Hn by (unfold n; lia).
  exists ((Z.of_nat k - i) mod n). split; [by apply Z.mod_pos_bound|].
  rewrite Zplus_mod_idemp_r. replace (i + (Z.of_nat k - i)) with (Z.of_nat k) by lia.
  rewrite Z.mod_small by (unfold n; lia). by rewrite Nat2Z.id.
Qed.

Lemma pick_spec ok ids turns idx : ids <> [] -> 0 <= idx -> idx + Z.of_nat turns < 2 ^ 64 ->
  (exists k sid, pick ok ids turns idx = (Some sid, idx + k + 1) /\ 0 <= k < Z.of_nat turns /\ cyc ids (idx + k) = Some sid
     /\ ok sid = true /\ forall j x, 0 <= j < k -> cyc ids (idx + j) = Some x -> ok x = false)
  \/ (pick ok ids turns idx = (None, idx + Z.of_nat turns)
      /\ forall j x, 0 <= j < Z.of_nat turns -> cyc ids (idx + j) = Some x -> ok x = false).
Proof.
  intros Hn. revert idx. induction turns as [|turns IH]; intros idx H0 Hw; cbn [pick].
  - right. split; [f_equal; lia|]. lia.
  - destruct (cyc_Some ids idx Hn) as (sid & Hc & _). unfold cyc in Hc. rewrite Hc. rewrite wrap_small by lia.
    destruct (ok sid) eqn:Eok.
    + left. exists 0, sid. rewrite Z.add_0_r. split_and!; [done|lia|lia|done|done|lia].
    + destruct (IH (idx + 1)) as [(k & x & E & Hk & Hx & Hok & Hbefore)|[E Hall]]; [lia|lia|left|right].
      * exists (k + 1), x. rewrite E. split_and!; [f_equal; lia|lia|lia|by replace (idx + (k + 1)) with (idx + 1 + k) by lia|done|].
        intros j y Hj Hy. destruct (decide (j = 0)) as [->|]; [rewrite Z.add_0_r in Hy; unfold cyc in Hy; congruence|].
        apply (Hbefore (j - 1)); [lia|]. by replace (idx + 1 + (j - 1)) with (idx + j) by lia.
      * rewrite E. split; [f_equal; lia|]. intros j y Hj Hy.
        destruct (decide (j = 0)) as [->|]; [rewrite Z.add_0_r in Hy; unfold cyc in Hy; congruence|].
        apply (Hall (j - 1)); [lia|]. by replace (idx + 1 + (j - 1)) with (idx + j) by lia.
Qed.

Lemma pick_none ok ids idx idx' : ids <> [] -> 0 <= idx -> idx + len ids < 2 ^ 64 ->
  pick ok ids (length ids) idx = (None, idx') -> idx' = idx + len ids /\ forall x, x ∈ ids -> ok x = false.
Proof.
  intros Hn H0 Hw E. destruct (pick_spec ok ids (length ids) idx Hn H0 Hw) as [(k & sid & E' & _)|[E' Hall]]; [congruence|].
  rewrite E' in E. injection E as <-. split; [done|]. intros x (j & Hj & Hx)%(cyc_all ids idx). by eapply Hall.
Qed.

Lemma min_until_spec l : match min_until l with
  | None => l = []
  | Some x => x ∈ l /\ forall y, y ∈ l -> bl_until (snd x) <= bl_until (snd y)
  end.
Proof.
  induction l as [|x l IH]; cbn [min_until]; [done|]. destruct (min_until l) as [y|].
  - destruct IH as [Hy Hmin]. destruct (Z.ltb_spec (bl_until (snd y)) (bl_until (snd x))).
    + split; [by right|]. intros z [->|Hz]%elem_of_cons; [lia|auto].
    + split; [by left|]. intros z [->|Hz]%elem_of_cons; [lia|]. specialize (Hmin z Hz). lia.
  - subst l. split; [by left|]. intros z [->|Hz]%elem_of_cons; [lia|by apply elem_of_nil in Hz].
Qed.

(** ** One choice *)
Definition free (now : Z) (s : Fronter) (sid : str) : Prop := sid ∈ script_ids s /\ prune now (blacklist s) !! sid = None.
Definition fast (now : Z) (s : Fronter) (sid : str) : Prop :=
  free now s sid /\ sid ∉ compute_slow_set (script_latency_snapshot now s).

Lemma listed_false bl sid : listed bl sid = false <-> bl !! sid = None.
Proof. unfold listed. by rewrite bool_decide_eq_false, eq_None_not_Some. Qed.

Definition fast_ok (now : Z) (s : Fronter) (sid : str) : bool :=
  negb (listed (prune now (blacklist s)) sid) && negb (bool_decide (sid ∈ compute_slow_set (script_latency_snapshot now s))).
Definition free_ok (now : Z) (s : Fronter) (sid : str) : bool := negb (listed (prune now (blacklist s)) sid).

Lemma free_ok_spec now s sid : sid ∈ script_ids s -> free_ok now s sid = true <-> free now s sid.
Proof. intros Hin. unfold free_ok, free. rewrite negb_true_iff, listed_false. tauto. Qed.

Lemma fast_ok_spec now s sid : sid ∈ script_ids s -> fast_ok now s sid = true <-> fast now s sid.
Proof.
  intros Hin. unfold fast_ok, fast, free. rewrite andb_true_iff, !negb_true_iff, listed_false, bool_decide_eq_false. tauto.
Qed.

(** How a deployment is chosen.  Among the configured deployments that are neither
    blacklisted nor slow, the next one in the round robin is taken, and the counter moves
    just past it; if there is none, one that is not blacklisted; if there is none of those,
    the blacklisted one whose cooldown ends first, which is then no longer blacklisted. *)
Theorem next_script_choice (now : Z) (s : Fronter) (Hids : script_ids s <> [])
    (Hidx : 0 <= script_idx s) (Hroom : script_idx s + 2 * len (script_ids s) < 2 ^ 64) :
  exists sid s', next_script_id now s = (Some sid, s')
  /\ ((exists k, fast now s sid /\ 0 <= k < len (script_ids s) /\ cyc (script_ids s) (script_idx s + k) = Some sid
      /\ (forall j x, 0 <= j < k -> cyc (script_ids s) (script_idx s + j) = Some x -> ~ fast now s x)
      /\ s' = set_select (script_idx s + k + 1) (prune now (blacklist s)) s)
   \/ ((forall x, ~ fast now s x) /\ free now s sid /\ blacklist s' = prune now (blacklist s))
   \/ ((forall x, ~ free now s x) /\ blacklist s' = delete sid (prune now (blacklist s))
       /\ exists e, prune now (blacklist s) !! sid = Some e
          /\ forall x e', prune now (blacklist s) !! x = Some e' -> bl_until e <= bl_until e')).
Proof.
  unfold next_script_id. fold (fast_ok now s) (free_ok now s). pose proof (len_nonneg (script_ids s)) as Hlen.
  destruct (pick_spec (fast_ok now s) (script_ids s) (length (script_ids s)) (script_idx s)) as
    [(k & sid & -> & Hk & Hc & Hok & Hbefore)|[E _]]; [done|done|unfold len in *; lia| |].
  { exists sid. eexists. split; [done|]. left. exists k.
    assert (forall i x, cyc (script_ids s) i = Some x -> x ∈ script_ids s) as Hin by (intros i x; apply list_elem_of_lookup_2).
    split_and!; [by apply fast_ok_spec; [eapply Hin|]|lia|unfold len; lia|done| |done].
    intros j x Hj Hx Hf. apply fast_ok_spec in Hf; [|by eapply Hin]. rewrite (Hbefore j x Hj Hx) in Hf. done. }
  apply pick_none in E as Ef; [|done|done|unfold len in *; lia]. rewrite E. destruct Ef as [_ Hnofast].
  assert (forall x, ~ fast now s x) as Hnf.
  { intros x Hx. pose proof (proj1 (proj1 Hx)) as Hin. apply fast_ok_spec in Hx; [|done]. rewrite Hnofast in Hx; done. }
  destruct (pick (free_ok now s) (script_ids s) (length (script_ids s)) _) as [[sid|] idx2] eqn:E2.
  { exists sid. eexists. split; [done|]. right. left. split_and!; [done| |done].
    destruct (pick_spec (free_ok now s) (script_ids s) (length (script_ids s)) (script_idx s + Z.of_nat (length (script_ids s)))) as
      [(k & x & E3 & _ & Hc & Hok & _)|[E3 _]]; [done|unfold len in *; lia|unfold len in *; lia| |congruence].
    rewrite E2 in E3. injection E3 as <- _. apply free_ok_spec; [by eapply list_elem_of_lookup_2|done]. }
  apply pick_none in E2 as [_ Hnofree]; [|done|unfold len in *; lia|unfold len in *; lia].
  assert (forall x, ~ free now s x) as Hnf2.
  { intros x Hx. pose proof (proj1 Hx) as Hin. apply free_ok_spec in Hx; [|done]. rewrite Hnofree in Hx; done. }
  pose proof (min_until_spec (map_to_list (prune now (blacklist s)))) as Hm.
  destruct (min_until _) as [[sid e]|].
  - exists sid. eexists. split; [done|]. right. right. destruct Hm as [He Hmin]. apply elem_of_map_to_list in He.
    split_and!; [done|done|]. exists e. split; [done|]. intros x e' Hx. apply (Hmin (x, e')). by apply elem_of_map_to_list.
  - exfalso. apply map_to_list_empty_iff in Hm. destruct (script_ids s) as [|x ids] eqn:Ei; [done|].
    apply (Hnf2 x). split; [rewrite Ei; by left|]. by rewrite Hm.
Qed.

Definition three_scripts : Fronter := fronter_new [lit "A"; lit "B"; lit "C"] 3 30 120.

Lemma next_script_choice_witness :
  exists sid s', next_script_id 0 (blacklist_script 0 (lit "A") three_scripts) = (Some sid, s') /\ sid = lit "B".
Proof.
  destruct (next_script_choice 0 (blacklist_script 0 (lit "A") three_scripts)) as (sid & s' & E & _); [done|vm_compute; congruence|by vm_compute|].
  exists sid, s'. split; [exact E|]. vm_compute in E. by injection E as <- _.
Defined.

(** ** Rotation *)
Fixpoint select_run (times : list Z) (s : Fronter) : list (option str) :=
  match times with
  | [] => []
  | now :: times => let '(sid, s) := next_script_id now s in sid :: select_run times s
  end.

Lemma slow_set_empty now s : script_latency_ewma s = ∅ -> compute_slow_set (script_latency_snapshot now s) = ∅.
Proof.
  intros H. unfold script_latency_snapshot, fresh_latency_snapshot. rewrite H, map_filter_empty, fmap_empty. done.
Qed.

Lemma healthy_choice now s : script_ids s <> [] -> 0 <= script_idx s < 2 ^ 64 - 1 -> blacklist s = ∅ -> script_latency_ewma s = ∅ ->
  next_script_id now s = (cyc (script_ids s) (script_idx s), set_select (script_idx s + 1) ∅ s).
Proof.
  intros Hn Hi Hb Hl. unfold next_script_id. rewrite Hb, slow_set_empty by done. unfold prune. rewrite map_filter_empty.
  destruct (cyc_Some (script_ids s) (script_idx s) Hn) as (sid & Hc & _). rewrite Hc.
  destruct (script_ids s) as [|x ids] eqn:E; [done|]. cbn [length pick]. unfold cyc in Hc. rewrite Hc.
  assert (listed ∅ sid = false) as -> by (by apply listed_false).
  rewrite bool_decide_false by set_solver. cbn [negb andb]. by rewrite wrap_small by lia.
Qed.

Lemma select_run_healthy times s : script_ids s <> [] -> 0 <= script_idx s -> script_idx s + len times < 2 ^ 64 ->
  blacklist s = ∅ -> script_latency_ewma s = ∅ ->
  select_run times s = (fun i => cyc (script_ids s) (script_idx s + Z.of_nat i)) <$> seq 0 (length times).
Proof.
  intros Hn H0 Hw Hb Hl. revert s Hn H0 Hw Hb Hl. induction times as [|now times IH]; intros s Hn H0 Hw Hb Hl; [done|].
  rewrite len_cons in Hw. pose proof (len_nonneg times). cbn [select_run]. rewrite healthy_choice by (try done; lia).
  rewrite IH by (try done; cbn [script_idx set_select]; lia). cbn [length seq fmap list_fmap]. rewrite Z.add_0_r. f_equal.
  rewrite <- fmap_S_seq, <- list_fmap_compose. apply list_fmap_ext. intros i x _. cbn [compose script_ids script_idx set_select].
  f_equal. lia.
Qed.

Lemma cyc_seq ids r : (r < length ids)%nat ->
  (fun i => cyc ids (Z.of_nat r + Z.of_nat i)) <$> seq 0 (length ids) = Some <$> (drop r ids ++ take r ids).
Proof.
  intros Hr. apply list_eq. intros i. rewrite !list_lookup_fmap. destruct (decide (i < length ids)%nat) as [Hi|Hi].
  - rewrite lookup_seq_lt by done. cbn [fmap option_fmap option_map]. unfold cyc, len.
    destruct (decide (r + i < length ids)%nat) as [Hl|Hl].
    + rewrite Z.mod_small by lia. rewrite lookup_app_l by (rewrite length_drop; lia). rewrite lookup_drop.
      replace (Z.to_nat (Z.of_nat r + Z.of_nat (0 + i))) with (r + i)%nat by lia. by destruct (ids !! (r + i)%nat) eqn:E; [|apply lookup_ge_None in E; lia].
    + replace ((Z.of_nat r + Z.of_nat (0 + i)) mod Z.of_nat (length ids)) with (Z.of_nat (r + i - length ids)).
      2: { apply (Z.mod_unique_pos _ _ 1); lia. }
      rewrite Nat2Z.id, lookup_app_r by (rewrite length_drop; lia). rewrite length_drop, lookup_take_lt by lia.
      replace (i - (length ids - r))%nat with (r + i - length ids)%nat by lia.
      destruct (ids !! (r + i - length ids)%nat) eqn:E; [done|]. apply lookup_ge_None in E. lia.
  - rewrite lookup_ge_None_2 by (rewrite length_seq; lia). rewrite (lookup_ge_None_2 (drop r ids ++ take r ids)); [done|].
    rewrite length_app, length_drop, length_take. lia.
Qed.

(** The load is spread evenly.  While nothing is blacklisted and no latency is
    known, any [n] calls in a row, [n] being the number of deployments, return every
    deployment once, in the order of the configuration from where the counter stands. *)
Theorem script_rotation (s : Fronter) (times : list Z) (Hids : script_ids s <> []) (Hidx : 0 <= script_idx s)
    (Hroom : script_idx s + len (script_ids s) < 2 ^ 64) (Hbl : blacklist s = ∅) (Hlat : script_latency_ewma s = ∅)
    (Htimes : length times = length (script_ids s)) :
  let r := Z.to_nat (script_idx s mod len (script_ids s)) in
  select_run times s = Some <$> (drop r (script_ids s) ++ take r (script_ids s)).
Proof.
  pose proof (len_pos _ Hids) as Hpos.
  pose proof (Z.mod_pos_bound (script_idx s) _ Hpos) as Hm. cbv zeta.
  assert (script_idx s + len times < 2 ^ 64) as Hw by (unfold len in *; lia).
  rewrite select_run_healthy, Htimes by done.
  rewrite <- cyc_seq by (unfold len in *; lia). apply list_fmap_ext. intros i x _. unfold cyc. f_equal. f_equal.
  rewrite Z2Nat.id by lia. by rewrite Zplus_mod_idemp_l.
Qed.

Lemma script_rotation_witness : select_run [0; 5; 9] three_scripts = Some <$> [lit "A"; lit "B"; lit "C"].
Proof. apply (script_rotation three_scripts [0; 5; 9]); vm_compute; congruence || reflexivity. Defined.

(** ** Several at once *)
Lemma pick_many_spec ok ids want turns picked idx : ids <> [] -> 0 <= idx -> idx + Z.of_nat turns < 2 ^ 64 ->
  NoDup picked -> (length picked <= want)%nat -> Forall (fun x => x ∈ ids) picked ->
  exists more idx', pick_many ok ids want turns picked idx = (picked ++ more, idx')
  /\ idx <= idx' <= idx + Z.of_nat turns /\ NoDup (picked ++ more) /\ (length (picked ++ more) <= want)%nat
  /\ Forall (fun x => x ∈ ids /\ ok x = true) more
  /\ (length (picked ++ more) = want \/ forall j x, 0 <= j < Z.of_nat turns -> cyc ids (idx + j) = Some x -> ok x = true -> x ∈ picked ++ more).
Proof.
  intros Hn. revert picked idx. induction turns as [|turns IH]; intros picked idx H0 Hw Hnd Hl Hin; cbn [pick_many].
  { exists [], idx. rewrite app_nil_r. split_and!; try done; try lia. right. lia. }
  destruct (Nat.leb_spec want (length picked)) as [Hle|Hgt].
  { exists [], idx. rewrite app_nil_r. split_and!; try done; lia. }
  destruct (cyc_Some ids idx Hn) as (sid & Hc & Hs). pose proof Hc as Hc'. unfold cyc in Hc. rewrite Hc, wrap_small by lia.
  set (picked' := if ok sid && negb (bool_decide (sid ∈ picked)) then picked ++ [sid] else picked).
  assert (exists m1, picked' = picked ++ m1 /\ NoDup picked' /\ (length picked' <= want)%nat /\ Forall (fun x => x ∈ ids /\ ok x = true) m1
          /\ (ok sid = true -> sid ∈ picked')) as (m1 & E1 & Hnd1 & Hl1 & Hm1 & Hs1).
  { unfold picked'. destruct (ok sid) eqn:Eok; cbn [andb]; [|exists []; rewrite app_nil_r; split_and!; try done; lia].
    case_bool_decide as Hmem; cbn [negb]; [exists []; rewrite app_nil_r; split_and!; try done; lia|].
    exists [sid]. split_and!; [done| |rewrite length_app; cbn; lia|by constructor; [|constructor]|set_solver].
    apply NoDup_app. split_and!; [done|set_solver|apply NoDup_singleton]. }
  destruct (IH picked' (idx + 1)) as (m2 & idx' & E & Hi & Hnd2 & Hl2 & Hm2 & Hc2); [lia|lia|done|done| |].
  { rewrite E1. apply Forall_app. split; [done|]. eapply Forall_impl; [exact Hm1|]. by intros x [? _]. }
  exists (m1 ++ m2), idx'. rewrite E, app_assoc, <- E1. split_and!; try done; try lia; [by apply Forall_app|].
  destruct Hc2 as [Hfull|Hall]; [by left|right]. intros j x Hj Hx Hok. destruct (decide (j = 0)) as [->|].
  - rewrite Z.add_0_r in Hx. apply elem_of_app. left. assert (x = sid) as -> by congruence. by apply Hs1.
  - apply (Hall (j - 1)); [lia| |done]. by replace (idx + 1 + (j - 1)) with (idx + j) by lia.
Qed.

Lemma cyc_cover (ids l : list str) (want : nat) (ok : str -> bool) i :
  length l = want \/ (forall j x, 0 <= j < len ids -> cyc ids (i + j) = Some x -> ok x = true -> x ∈ l) ->
  length l = want \/ forall x, x ∈ ids -> ok x = true -> x ∈ l.
Proof.
  intros [H|H]; [by left|right]. intros x Hx Hok. destruct (cyc_all ids i x Hx) as (j & Hj & Hc). by eapply H.
Qed.

(** The two passes: [m1] from the first, [m2] from the second. *)
Lemma two_passes now want s : script_ids s <> [] -> 0 <= script_idx s -> script_idx s + 2 * len (script_ids s) < 2 ^ 64 ->
  exists m1 m2 i,
  (let '(picked, idx) := pick_many (fast_ok now s) (script_ids s) want (length (script_ids s)) [] (script_idx s) in
   if (length picked <? want)%nat then pick_many (free_ok now s) (script_ids s) want (length (script_ids s)) picked idx else (picked, idx))
  = (m1 ++ m2, i)
  /\ NoDup (m1 ++ m2) /\ (length (m1 ++ m2) <= want)%nat /\ Forall (fast now s) m1 /\ Forall (free now s) m2
  /\ (length (m1 ++ m2) = want \/ forall x, free now s x -> x ∈ m1 ++ m2) /\ (m2 = [] \/ forall x, fast now s x -> x ∈ m1).
Proof.
  intros Hids Hidx Hroom.
  destruct (pick_many_spec (fast_ok now s) (script_ids s) want (length (script_ids s)) [] (script_idx s)) as
    (m1 & i1 & -> & Hi1 & Hnd1 & Hl1 & Hm1 & Hc1); [done|done|unfold len in *; lia|constructor|cbn; lia|constructor|].
  cbn [app] in *. exists m1.
  assert (Forall (fast now s) m1) as Hf1 by (eapply Forall_impl; [exact Hm1|]; intros x [? ?]; by apply fast_ok_spec).
  destruct (Nat.ltb_spec (length m1) want) as [Hlt|Hge].
  - destruct (pick_many_spec (free_ok now s) (script_ids s) want (length (script_ids s)) m1 i1) as
      (m2 & i2 & -> & Hi2 & Hnd2 & Hl2 & Hm2 & Hc2); [done|lia|unfold len in *; lia|done|done| |].
    { eapply Forall_impl; [exact Hm1|]. by intros x [? _]. }
    exists m2, i2. split_and!; [done|done|done|done| | |].
    + eapply Forall_impl; [exact Hm2|]. intros x [? ?]. by apply free_ok_spec.
    + apply cyc_cover in Hc2 as [?|H]; [by left|right]. intros x Hx. apply H; [apply Hx|]. by apply free_ok_spec; [apply Hx|].
    + right. apply cyc_cover in Hc1 as [?|H]; [lia|]. intros x Hx. apply H; [apply Hx|]. apply fast_ok_spec; [apply Hx|done].
  - exists [], i1. rewrite app_nil_r. split_and!; [done|done|done|done|constructor|left; lia|by left].
Qed.

(** The deployments of a fan-out are distinct, configured and not blacklisted as
    long as one is not; there are as many as asked for, or all that qualify, and those that
    are not slow come first. *)
Theorem fanout_choice (now : Z) (want : nat) (s : Fronter) (Hids : script_ids s <> []) (Hwant : (0 < want)%nat)
    (Hidx : 0 <= script_idx s) (Hroom : script_idx s + 2 * len (script_ids s) < 2 ^ 64) :
  let l := fst (next_script_ids now want s) in
  NoDup l /\ (0 < length l <= want)%nat /\ Forall (fun x => x ∈ script_ids s) l
  /\ ((exists x, free now s x) -> Forall (free now s) l)
  /\ (length l = want \/ forall x, free now s x -> x ∈ l)
  /\ exists l1 l2, l = l1 ++ l2 /\ Forall (fast now s) l1 /\ (l2 = [] \/ forall x, fast now s x -> x ∈ l1).
Proof.
  unfold next_script_ids. rewrite bool_decide_false by done. fold (fast_ok now s) (free_ok now s).
  destruct (two_passes now want s Hids Hidx Hroom) as (m1 & m2 & i & E & Hnd & Hl & Hfast & Hfree & Hc & Hrest).
  destruct (pick_many (fast_ok now s) _ _ _ _ _) as [p1 i1]. rewrite E. cbv zeta. cbn [fst].
  assert (Forall (free now s) (m1 ++ m2)) as Hall.
  { apply Forall_app. split; [|done]. eapply Forall_impl; [exact Hfast|]. by intros x [? _]. }
  destruct (m1 ++ m2) as [|a l] eqn:Em.
  - apply app_eq_nil in Em as [-> ->]. destruct Hc as [Hc|Hc]; [cbn in Hc; lia|].
    assert (forall x, ~ free now s x) as Hno by (intros x Hx; by apply Hc, elem_of_nil in Hx).
    destruct (script_ids s) as [|x ids] eqn:Ei; [done|]. change (take 1 (x :: ids)) with [x].
    split_and!; [apply NoDup_singleton|cbn; lia|cbn; lia|by constructor; [left|constructor]|intros [y Hy]; by apply Hno in Hy| |].
    + right. intros y Hy. by apply Hno in Hy.
    + exists [], [x]. split_and!; [done|constructor|]. right. intros y [Hy _]. by apply Hno in Hy.
  - split_and!; [done|cbn; lia|done| |done|done|by exists m1, m2]. eapply Forall_impl; [exact Hall|]. by intros x [? _].
Qed.

Lemma fanout_choice_witness : fst (next_script_ids 0 2 (blacklist_script 0 (lit "A") three_scripts)) = [lit "B"; lit "C"].
Proof.
  destruct (fanout_choice 0 2 (blacklist_script 0 (lit "A") three_scripts)) as (_ & _ & _ & _ & _ & _);
    [done|lia|vm_compute; congruence|by vm_compute|by vm_compute].
Defined.

(** ** Every history *)
Inductive Op :=
| ONext | ONextIds (want : nat) | OBlacklist (sid : str) | OStrike (sid : str) | OSuccess (sid : str)
| OLatency (sid : str) (ns : Z) | OProbeTick | OProbeDone (sid : str) (captured : Z) (r : res bytes FronterError).

Definition apply_op (now : Z) (o : Op) (s : Fronter) : Fronter :=
  match o with
  | ONext => snd (next_script_id now s)
  | ONextIds want => snd (next_script_ids now want s)
  | OBlacklist sid => blacklist_script now sid s
  | OStrike sid => record_timeout_strike now sid s
  | OSuccess sid => record_batch_success sid s
  | OLatency sid ns => record_batch_latency now sid ns s
  | OProbeTick => snd (probe_candidates now s)
  | OProbeDone sid captured r => probe_one_sid sid captured r s
  end.

Section History.
Context (ids : list str) (strikes window_secs cooldown_secs : Z).

(** The states a fronter can be in at an instant: operations one after the other, on a
    clock that does not go back. *)
Inductive reachable : Z -> Fronter -> Prop :=
| reach_new t : reachable t (fronter_new ids strikes window_secs cooldown_secs)
| reach_op t t' o s : reachable t s -> t <= t' -> reachable t' (apply_op t' o s).

Definition max_cooldown : Z := Z.max (BLACKLIST_COOLDOWN_SECS * SEC) (clamp 1 86400 cooldown_secs * SEC).

Record state_ok (t : Z) (s : Fronter) : Prop := {
  so_ids : script_ids s = ids;
  so_cooldown : auto_blacklist_cooldown s = clamp 1 86400 cooldown_secs * SEC;
  so_strikes : auto_blacklist_strikes s = Z.max strikes 1;
  so_bl : map_Forall (fun _ e => bl_until e <= t + max_cooldown) (blacklist s);
  so_timeouts : map_Forall (fun _ e => fst e <= t /\ 1 <= snd e < auto_blacklist_strikes s) (script_timeouts s);
  so_latency : map_Forall (fun _ e => snd e <= t) (script_latency_ewma s)
}.

Lemma state_ok_later t t' s : t <= t' -> state_ok t s -> state_ok t' s.
Proof.
  intros Ht [H1 H2 H3 H4 H5 H6]. constructor; try done; intros k e He.
  - specialize (H4 k e He). cbn in *. lia.
  - specialize (H5 k e He). cbn in *. lia.
  - specialize (H6 k e He). cbn in *. lia.
Qed.

(** Anything that keeps a sub-blacklist keeps the invariant. *)
Lemma state_ok_select t s idx bl : bl ⊆ blacklist s -> state_ok t s -> state_ok t (set_select idx bl s).
Proof. intros Hb [H1 H2 H3 H4 H5 H6]. constructor; try done. intros k e He. apply (H4 k e). by eapply lookup_weaken. Qed.

Lemma prune_sub now bl : prune now bl ⊆ bl.
Proof. apply map_filter_subseteq. Qed.

Lemma next_script_id_ok t now s : state_ok t s -> state_ok t (snd (next_script_id now s)).
Proof.
  intros Hs. unfold next_script_id. pose proof (prune_sub now (blacklist s)) as Hp. repeat case_match; cbn [snd]; apply state_ok_select; try done.
  etransitivity; [apply delete_subseteq|done].
Qed.

Lemma next_script_ids_ok t now want s : state_ok t s -> state_ok t (snd (next_script_ids now want s)).
Proof.
  intros Hs. unfold next_script_ids. case_bool_decide; [done|]. destruct (pick_many _ _ _ _ _ _) as [p i].
  destruct (if (length p <? want)%nat then _ else _) as [p2 i2]. cbn [snd]. apply state_ok_select; [apply prune_sub|done].
Qed.

Lemma blacklist_inner_ok t sid cooldown r s : cooldown <= max_cooldown -> state_ok t s ->
  state_ok t (blacklist_script_inner t sid cooldown r s).
Proof.
  intros Hc [H1 H2 H3 H4 H5 H6]. constructor; try done. cbn [blacklist set_select blacklist_script_inner].
  apply map_Forall_insert_2; [cbn; lia|done].
Qed.

Lemma strike_ok t sid s : state_ok t s -> state_ok t (record_timeout_strike t sid s).
Proof.
  intros Hs. unfold record_timeout_strike. set (entry := if (_ <? _) then _ else _).
  assert (fst entry <= t /\ 1 <= snd entry) as [Hf Hc].
  { unfold entry. destruct (script_timeouts s !! sid) as [[f c]|] eqn:E; cbn [default from_option id fst snd].
    - destruct (so_timeouts t s Hs sid _ E) as [? ?]. cbn [fst snd] in *. destruct (_ <? _); cbn [fst snd]; lia.
    - destruct (_ <? _); cbn [fst snd]; lia. }
  destruct (Z.leb_spec (auto_blacklist_strikes s) (snd entry)) as [Hge|Hlt].
  - apply blacklist_inner_ok; [unfold max_cooldown; rewrite (so_cooldown t s Hs); lia|]. destruct Hs as [H1 H2 H3 H4 H5 H6].
    constructor; try done. by apply map_Forall_delete.
  - destruct Hs as [H1 H2 H3 H4 H5 H6]. constructor; try done. apply map_Forall_insert_2; [cbn [auto_blacklist_strikes set_timeouts]; lia|done].
Qed.

Lemma latency_ok t sid ns s : state_ok t s -> state_ok t (record_batch_latency t sid ns s).
Proof.
  intros Hs. unfold record_batch_latency.
  assert (forall score, state_ok t (set_latency (<[sid := (score, t)]> (script_latency_ewma s)) s)) as Hl.
  { intros score. destruct Hs as [H1 H2 H3 H4 H5 H6]. constructor; try done. apply map_Forall_insert_2; [cbn; lia|done]. }
  match goal with |- context [if ?b then _ else _] => destruct b end; [|apply Hl].
  apply blacklist_inner_ok; [|apply Hl]. unfold max_cooldown. vm_compute (LATENCY_HARD_SLOW_COOLDOWN_SECS * SEC).
  vm_compute (BLACKLIST_COOLDOWN_SECS * SEC). lia.
Qed.

Lemma apply_op_ok t o s : state_ok t s -> state_ok t (apply_op t o s).
Proof.
  intros Hs. destruct o as [|want|sid|sid|sid|sid ns| |sid c r]; cbn [apply_op].
  - by apply next_script_id_ok.
  - by apply next_script_ids_ok.
  - apply blacklist_inner_ok; [unfold max_cooldown; lia|done].
  - by apply strike_ok.
  - destruct Hs as [H1 H2 H3 H4 H5 H6]. constructor; try done. by apply map_Forall_delete.
  - by apply latency_ok.
  - apply state_ok_select; [apply prune_sub|done].
  - unfold probe_one_sid. destruct (probe_indicates_recovery r); [|done]. unfold apply_probe_recovery.
    repeat case_match; cbn [snd]; try done. apply state_ok_select; [apply delete_subseteq|done].
Qed.

Lemma reachable_ok t s : reachable t s -> state_ok t s.
Proof.
  induction 1 as [t|t t' o s _ IH Ht]; [|by eapply apply_op_ok, state_ok_later].
  constructor; cbn; try done; apply map_Forall_empty.
Qed.

(** Claim C18: no deployment is banned for good.  In every history of choices, penalties,
    strikes, latency samples and probes, the counter of strikes stays below its limit, no
    cooldown reaches further than ten minutes or the configured one, and after that much
    quiet every configured deployment is again neither blacklisted nor slow. *)
Theorem no_permanent_ban (t t' : Z) (s : Fronter) (sid : str)
    (Hreach : reachable t s) (Hquiet : t + max_cooldown <= t') (Hsid : sid ∈ ids) :
  map_Forall (fun _ e => bl_until e <= t + max_cooldown) (blacklist s)
  /\ map_Forall (fun _ e => 1 <= snd e < Z.max strikes 1) (script_timeouts s)
  /\ fast t' s sid.
Proof.
  apply reachable_ok in Hreach as [H1 H2 H3 H4 H5 H6]. split_and!; [done| |].
  - intros k e He. rewrite <- H3. by apply (H5 k e He).
  - split; [split; [by rewrite H1|]|].
    + apply map_lookup_filter_None_2. right. intros e He Hlt. specialize (H4 _ _ He). cbn in *. lia.
    + unfold script_latency_snapshot, fresh_latency_snapshot. rewrite map_empty_filter_2; [rewrite fmap_empty; set_solver|].
      intros k e He. specialize (H6 k e He). cbn in *. unfold max_cooldown in Hquiet.
      assert (LATENCY_FRESH_FOR_SECS * SEC <= BLACKLIST_COOLDOWN_SECS * SEC) by (by vm_compute). lia.
Qed.
End History.

Lemma no_permanent_ban_witness :
  fast (700 * SEC) (apply_op (2 * SEC) (OStrike (lit "A")) (apply_op SEC (OBlacklist (lit "A")) three_scripts)) (lit "A").
Proof.
  refine (proj2 (proj2 (no_permanent_ban [lit "A"; lit "B"; lit "C"] 3 30 120 (2 * SEC) (700 * SEC) _ (lit "A") _ _ _))).
  - apply (reach_op _ _ _ _ SEC); [|by vm_compute]. apply (reach_op _ _ _ _ 0); [|by vm_compute]. apply reach_new.
  - vm_compute. congruence.
  - left.
Defined.

(** Two penalties that fall short.  Strikes are counted in windows that start at
    the first of them, not in any window: three timeouts within three seconds go unpunished
    when an older one opened the window.  And a penalty replaces the one in force even when
    it ends sooner: a slow but successful batch cuts the ten minutes given for an exhausted
    quota to thirty seconds. *)
Theorem penalty_faults :
  let strikes := foldl (fun s t => record_timeout_strike (t * SEC) (lit "A") s) three_scripts in
  blacklist (strikes [0; 29; 31; 32]) = ∅ /\ blacklist (strikes [29; 31; 32]) <> ∅
  /\ let s := record_batch_latency SEC (lit "A") (7 * SEC) (blacklist_script 0 (lit "A") three_scripts) in
     blacklist s !! lit "A" = Some (mkBl (31 * SEC) false).
Proof. split_and!; vm_compute; congruence || reflexivity. Qed.
