(* ===== verification/Sabr.v ===== *)
(** * src/domain_fronter.rs: dropping surplus quality tracks

    [strip_sabr_quality_tracks] walks the top-level fields of a protobuf message and drops
    every field 3 after the first, when there is a field 2; with the gates of
    [maybe_strip_sabr_body] and the URL helpers they use.

    A position [i] in the body is the list of bytes from it on. *)

From stdpp Require Import prelude.
From S2P Require Import Prelude RustStr HttpText.
#[local] Open Scope Z_scope.

(** ** URLs *)
Definition extract_host (url : str) : option str :=
  let after_scheme := match split_once (lit "://") url with Some (_, rest) => rest | None => url end in
  let authority := default [] (head (split_on 47 after_scheme)) in
  let authority := match rsplit_once 64 authority with Some (_, a) => a | None => authority end in
  let host := match strip_prefix [91] authority with
              | Some stripped => match split_once [93] stripped with Some (h, _) => h | None => stripped end
              | None => default authority (head (split_on 58 authority))
              end in
  if bool_decide (host = []) then None else Some (to_ascii_lowercase host).

Definition host_in (h suffix : str) : bool := bool_decide (h = suffix) || ends_with h ([46] ++ suffix).

Definition url_host_is_youtube_video_endpoint (url : str) : bool :=
  match extract_host url with
  | None => false
  | Some host =>
    let h := trim_end_matches 46 host in
    if bool_decide (h = []) then false else existsb (host_in h) [lit "googlevideo.com"; lit "youtube.com"]
  end.

(** ** Fields *)

(** A varint of at most ten bytes, of which 64 bits count. *)
Fixpoint varint (shift acc : Z) (b : bytes) : option (Z * bytes) :=
  match b with
  | [] => None
  | x :: b =>
    let acc := Z.lor acc (wrap 64 (Z.shiftl (Z.land x 127) shift)) in
    if Z.land x 128 =? 0 then Some (acc, b)
    else if 64 <=? shift + 7 then None
    else varint (shift + 7) acc b
  end.

(** A varint payload: up to the first byte without the high bit. *)
Fixpoint skip_varint (b : bytes) : option bytes :=
  match b with
  | [] => None
  | x :: b => if Z.land x 128 =? 0 then Some b else skip_varint b
  end.

Definition skip_bytes (n : Z) (b : bytes) : option bytes := if len b <? n then None else Some (drop (Z.to_nat n) b).

Definition skip_payload (wire_type : Z) (b : bytes) : option bytes :=
  if wire_type =? 0 then skip_varint b
  else if wire_type =? 1 then skip_bytes 8 b
  else if wire_type =? 2 then '(val_len, b) ← varint 0 0 b; skip_bytes val_len b
  else if wire_type =? 5 then skip_bytes 4 b
  else None.

(** The next field: its number and what follows it. *)
Definition next_field (b : bytes) : option (Z * bytes) :=
  '(tag, rest) ← varint 0 0 b;
  rest ← skip_payload (Z.land tag 7) rest;
  Some (wrap 32 (Z.shiftr tag 3), rest).

(** The segments of whole fields, and the tail that is not one. *)
Fixpoint segments (fuel : nat) (b : bytes) : list (Z * bytes) * bytes :=
  match fuel with
  | O => ([], b)
  | S fuel =>
    match next_field b with
    | None => ([], b)
    | Some (field_number, rest) =>
      let '(l, tail) := segments fuel rest in ((field_number, take (length b - length rest) b) :: l, tail)
    end
  end.

Fixpoint keep_first3 (field3_kept : bool) (l : list (Z * bytes)) : list (Z * bytes) :=
  match l with
  | [] => []
  | (field_number, seg) :: l =>
    if field_number =? 3
    then if field3_kept then keep_first3 field3_kept l else (field_number, seg) :: keep_first3 true l
    else (field_number, seg) :: keep_first3 field3_kept l
  end.

Definition has_field (k : Z) (l : list (Z * bytes)) : bool := existsb (fun f => fst f =? k) l.
Definition count_field (k : Z) (l : list (Z * bytes)) : nat := length (List.filter (fun f => fst f =? k) l).

Definition strip_sabr_quality_tracks (body : bytes) : bytes :=
  let '(l, tail) := segments (length body) body in
  if negb (has_field 2 l) || (count_field 3 l <? 2)%nat then body
  else mjoin (snd <$> keep_first3 false l) ++ tail.

Definition maybe_strip_sabr_body (sabr_strip : bool) (method url : str) (body : bytes) : option bytes :=
  if negb sabr_strip || negb (bool_decide (method = lit "POST")) || bool_decide (body = [])
     || negb (contains url (lit "/videoplayback")) || negb (url_host_is_youtube_video_endpoint url) then None
  else
    let stripped := strip_sabr_quality_tracks body in
    if len stripped =? len body then None else Some stripped.

(** ** Fields are read locally *)

(** [f] reads a proper prefix, which alone decides its result. *)
Definition local {A} (f : bytes -> option (A * bytes)) : Prop :=
  forall b v rest, f b = Some (v, rest) ->
  exists pre, b = pre ++ rest /\ forall rest', f (pre ++ rest') = Some (v, rest').

Lemma varint_local shift acc : local (varint shift acc) /\ forall b v rest, varint shift acc b = Some (v, rest) -> (length rest < length b)%nat.
Proof.
  assert (forall b shift acc v rest, varint shift acc b = Some (v, rest) ->
    (exists pre, b = pre ++ rest /\ pre <> [] /\ forall rest', varint shift acc (pre ++ rest') = Some (v, rest'))) as H.
  { clear. induction b as [|x b IH]; intros shift acc v rest; cbn [varint]; [done|].
    destruct (Z.land x 128 =? 0) eqn:E1.
    - intros [= <- <-]. exists [x]. split_and!; [done|done|]. intros r. cbn [app varint]. by rewrite E1.
    - destruct (64 <=? shift + 7) eqn:E2; [done|]. intros (pre & -> & _ & Hp)%IH. exists (x :: pre). split_and!; [done|done|].
      intros r. cbn [app varint]. by rewrite E1, E2, Hp. }
  split.
  - intros b v rest (pre & -> & _ & Hp)%H. by exists pre.
  - intros b v rest (pre & -> & Hn & _)%H. rewrite length_app. destruct pre; [done|cbn; lia].
Qed.

Definition local1 (f : bytes -> option bytes) : Prop :=
  forall b rest, f b = Some rest -> exists pre, b = pre ++ rest /\ forall rest', f (pre ++ rest') = Some rest'.

Lemma skip_varint_local : local1 skip_varint.
Proof.
  intros b. induction b as [|x b IH]; intros rest; cbn [skip_varint]; [done|]. destruct (Z.land x 128 =? 0) eqn:E.
  - intros [= <-]. exists [x]. split; [done|]. intros r. cbn [app skip_varint]. by rewrite E.
  - intros (pre & -> & Hp)%IH. exists (x :: pre). split; [done|]. intros r. cbn [app skip_varint]. by rewrite E.
Qed.

Lemma skip_bytes_local n : 0 <= n -> local1 (skip_bytes n).
Proof.
  intros Hn b rest. unfold skip_bytes. destruct (Z.ltb_spec (len b) n) as [|Hl]; [done|]. intros [= <-].
  exists (take (Z.to_nat n) b). split; [by rewrite take_drop|]. intros r. unfold len in *.
  assert (length (take (Z.to_nat n) b) = Z.to_nat n) as Ht by (rewrite length_take; lia).
  destruct (Z.ltb_spec (Z.of_nat (length (take (Z.to_nat n) b ++ r))) n) as [H|_]; [rewrite length_app in H; lia|].
  by rewrite drop_app_length' by done.
Qed.

Lemma varint_nonneg b shift acc v rest : 0 <= acc -> varint shift acc b = Some (v, rest) -> 0 <= v.
Proof.
  revert shift acc. induction b as [|x b IH]; intros shift acc Ha; cbn [varint]; [done|].
  assert (0 <= Z.lor acc (wrap 64 (Z.shiftl (Z.land x 127) shift))).
  { apply Z.lor_nonneg. split; [done|]. apply wrap_range. lia. }
  destruct (_ =? 0); [by intros [= <- _]|]. destruct (_ <=? _); [done|]. by apply IH.
Qed.

Lemma skip_payload_local w : local1 (skip_payload w).
Proof.
  intros b rest. unfold skip_payload. destruct (w =? 0); [apply skip_varint_local|]. destruct (w =? 1); [by apply skip_bytes_local|].
  destruct (w =? 2); [|destruct (w =? 5); [by apply skip_bytes_local|done]].
  intros ([v b1] & E1 & E2)%bind_Some. pose proof (varint_nonneg _ _ _ _ _ (Z.le_refl 0) E1) as Hv.
  apply varint_local in E1 as (p1 & -> & H1). apply skip_bytes_local in E2 as (p2 & -> & H2); [|done].
  exists (p1 ++ p2). split; [by rewrite app_assoc|]. intros r. rewrite <- app_assoc, H1. cbn [mbind option_bind]. apply H2.
Qed.

Lemma next_field_local : local next_field.
Proof.
  intros b f rest. unfold next_field. intros ([tag r1] & E1 & (r2 & E2 & [= <- <-])%bind_Some)%bind_Some.
  apply varint_local in E1 as (p1 & -> & H1). apply skip_payload_local in E2 as (p2 & -> & H2).
  exists (p1 ++ p2). split; [by rewrite app_assoc|]. intros r. rewrite <- app_assoc, H1. cbn [mbind option_bind]. by rewrite H2.
Qed.

Lemma next_field_shorter b f rest : next_field b = Some (f, rest) -> (length rest < length b)%nat.
Proof.
  unfold next_field. intros ([tag r1] & E1 & (r2 & E2 & [= _ <-])%bind_Some)%bind_Some.
  apply varint_local in E1. apply skip_payload_local in E2 as (p & -> & _). rewrite length_app in E1. lia.
Qed.

(** ** The message of a body *)
Definition whole (f : Z * bytes) : Prop := snd f <> [] /\ forall r, next_field (snd f ++ r) = Some (fst f, r).
Definition encode (l : list (Z * bytes)) (tail : bytes) : bytes := mjoin (snd <$> l) ++ tail.

Lemma encode_cons f l tail : encode (f :: l) tail = snd f ++ encode l tail.
Proof. unfold encode. cbn [fmap list_fmap mjoin list_join]. by rewrite app_assoc. Qed.

Lemma segments_spec fuel b : (length b <= fuel)%nat ->
  let '(l, tail) := segments fuel b in encode l tail = b /\ Forall whole l /\ next_field tail = None.
Proof.
  revert b. induction fuel as [|fuel IH]; intros b Hf; cbn [segments].
  - destruct b; [|cbn in Hf; lia]. done.
  - destruct (next_field b) as [[f rest]|] eqn:E; [|done]. pose proof (next_field_shorter _ _ _ E) as Hs.
    specialize (IH rest ltac:(lia)). destruct (segments fuel rest) as [l tail]. destruct IH as (<- & Hw & Ht).
    apply next_field_local in E as (pre & -> & Hp). rewrite length_app in Hs |- *.
    replace (length pre + length (encode l tail) - length (encode l tail))%nat with (length pre) by lia.
    rewrite take_app_length, encode_cons. cbn [snd]. split_and!; [done| |done]. constructor; [|done]. split; [|done].
    cbn [snd]. intros ->. cbn in Hs. lia.
Qed.

Lemma segments_encode l tail fuel : Forall whole l -> next_field tail = None -> (length (encode l tail) <= fuel)%nat ->
  segments fuel (encode l tail) = (l, tail).
Proof.
  intros Hw Ht. revert fuel. induction Hw as [|f l [Hn Hf] _ IH]; intros fuel Hl.
  - destruct fuel; cbn [segments encode]; [done|]. change (encode [] tail) with tail. by rewrite Ht.
  - rewrite encode_cons in Hl |- *. rewrite length_app in Hl. destruct fuel as [|fuel]; [destruct (snd f); [done|cbn in Hl; lia]|].
    cbn [segments]. rewrite Hf, IH by (destruct (snd f); [done|cbn in Hl; lia]). rewrite length_app.
    replace (length (snd f) + length (encode l tail) - length (encode l tail))%nat with (length (snd f)) by lia.
    rewrite take_app_length. by destruct f.
Qed.

Lemma keep_first3_in kept l : Forall whole l -> Forall whole (keep_first3 kept l).
Proof.
  intros H. revert kept. induction H as [|[f s] l Hf _ IH]; intros kept; cbn [keep_first3]; [constructor|].
  destruct (f =? 3); [destruct kept; auto|auto].
Qed.

Lemma keep_first3_others kept l :
  List.filter (fun f => negb (fst f =? 3)) (keep_first3 kept l) = List.filter (fun f => negb (fst f =? 3)) l.
Proof.
  revert kept. induction l as [|[f s] l IH]; intros kept; cbn [keep_first3 List.filter fst]; [done|].
  destruct (f =? 3) eqn:E; cbn [negb]; [destruct kept; cbn [List.filter fst]; rewrite ?E; cbn [negb]; auto|].
  cbn [List.filter fst]. rewrite E. cbn [negb]. by rewrite IH.
Qed.

Lemma keep_first3_threes kept l :
  List.filter (fun f => fst f =? 3) (keep_first3 kept l)
  = if kept then [] else take 1 (List.filter (fun f => fst f =? 3) l).
Proof.
  revert kept. induction l as [|[f s] l IH]; intros kept; cbn [keep_first3 List.filter fst]; [by destruct kept|].
  destruct (f =? 3) eqn:E.
  - destruct kept; [apply IH|]. cbn [List.filter fst]. rewrite E, IH. done.
  - cbn [List.filter fst]. rewrite E. apply IH.
Qed.

(** What is dropped from a segment request.  A body is the whole top-level fields
    in front of a tail that is not one.  Unless it has a field 2 and two fields 3 it is
    unchanged; otherwise the result is a message whose fields are those of the body, byte
    for byte and in order, less every field 3 but the first, with the same tail.  Dropping
    again changes nothing. *)
Theorem sabr_strip (body : bytes) :
  let '(l, tail) := segments (length body) body in
  let stripped := strip_sabr_quality_tracks body in
  encode l tail = body
  /\ (has_field 2 l = false \/ (count_field 3 l < 2)%nat -> stripped = body)
  /\ (has_field 2 l = true -> (2 <= count_field 3 l)%nat ->
      let '(l', tail') := segments (length stripped) stripped in
      tail' = tail
      /\ List.filter (fun f => negb (fst f =? 3)) l' = List.filter (fun f => negb (fst f =? 3)) l
      /\ List.filter (fun f => fst f =? 3) l' = take 1 (List.filter (fun f => fst f =? 3) l))
  /\ strip_sabr_quality_tracks stripped = stripped.
Proof.
  pose proof (segments_spec (length body) body (le_n _)) as H. destruct (segments (length body) body) as [l tail] eqn:Eseg.
  destruct H as (Hb & Hw & Ht). cbv zeta.
  assert (strip_sabr_quality_tracks body = if negb (has_field 2 l) || (count_field 3 l <? 2)%nat then body else encode (keep_first3 false l) tail)
    as -> by (unfold strip_sabr_quality_tracks; by rewrite Eseg).
  pose proof (segments_encode (keep_first3 false l) tail _ (keep_first3_in false l Hw) Ht (le_n _)) as Hs.
  destruct (negb (has_field 2 l) || (count_field 3 l <? 2)%nat) eqn:Ec.
  - split_and!; [done|done| |].
    + intros H2 H3. exfalso. rewrite H2 in Ec. cbn [negb orb] in Ec. apply Nat.ltb_lt in Ec. lia.
    + unfold strip_sabr_quality_tracks. by rewrite Eseg, Ec.
  - split_and!; [done| | |].
    + apply orb_false_iff in Ec as [E2 E3]. apply negb_false_iff in E2. apply Nat.ltb_ge in E3. intros [?|?]; [congruence|lia].
    + intros _ _. rewrite Hs. split_and!; [done|apply keep_first3_others|apply keep_first3_threes].
    + unfold strip_sabr_quality_tracks. rewrite Hs. replace (count_field 3 (keep_first3 false l) <? 2)%nat with true; [by rewrite orb_true_r|].
      symmetry. apply Nat.ltb_lt. unfold count_field. rewrite keep_first3_threes, length_take. lia.
Qed.

(** A field 2, two fields 3 and a broken tail. *)
Example sabr_example : strip_sabr_quality_tracks [18; 1; 7; 26; 1; 8; 26; 1; 9; 255] = [18; 1; 7; 26; 1; 8; 255].
Proof. vm_compute. reflexivity. Qed.
