(* ===== verification/RelayCall.v ===== *)
(** * src/domain_fronter.rs: one request through the deployments

    [do_relay_once_with] over HTTP/2 with its fallback to HTTP/1.1, the single retry and
    the fan-out of [do_relay_with_retry], and [relay_uncoalesced].

    The network is an argument: for an attempt, whether an HTTP/2 connection is at hand,
    what each round trip on it gives, whether a pooled HTTP/1.1 connection is acquired and
    what each exchange on it gives.  [RequestSent] says of a failed exchange whether the
    request may have left.  [posts] records the deployments that may have executed the
    request, once per POST that may have reached one: a fact of the world that the code
    does not see.  A cancelled attempt of a fan-out leaves no trace in the model.  Counters
    of the statistics are left out. *)

From stdpp Require Import prelude gmap.
From S2P Require Import Prelude RustStr Cache HttpText RelayJson Deployments.
#[local] Open Scope Z_scope.

Definition is_method_safe_for_fanout (m : str) : bool :=
  bool_decide (to_ascii_uppercase m ∈ [lit "GET"; lit "HEAD"; lit "OPTIONS"]).

Definition is_h2_fronting_refusal_status (status : Z) : bool := status =? 421.

Definition is_redirect (status : Z) : bool := bool_decide (status ∈ [301; 302; 303; 307; 308]).

Definition parse_redirect (location : str) : str * option str :=
  match match strip_prefix (lit "https://") location with Some r => Some r | None => strip_prefix (lit "http://") location end with
  | Some rest =>
    match split_once [47] rest with
    | Some (host, path) => ([47] ++ path, Some host)
    | None => ([47], Some rest)
    end
  | None => (location, None)
  end.

(** ** Exchanges *)
Inductive RequestSent := SentNo | SentMaybe.

Inductive RoundTrip := RtOk (status : Z) (hdrs : headers_t) (body : bytes) | RtErr (e : FronterError) (sent : RequestSent).

(** One attempt's network.  [a_h2 0] and [a_h1 0] answer the POST, the others the GETs of
    the redirects. *)
Record Attempt := mkAttempt {
  a_now : Z;
  a_ready : bool;                    (** [ensure_h2] gives a connection *)
  a_h2 : nat -> RoundTrip;
  a_acquire : option FronterError;   (** the error of [acquire], if any *)
  a_h1 : nat -> RoundTrip
}.

Record RelayState := mkRelaySt { fr : Fronter; h2_disabled : bool; posts : list str }.

Definition set_fr (f : Fronter) (st : RelayState) : RelayState := mkRelaySt f (h2_disabled st) (posts st).
Definition disable_h2 (st : RelayState) : RelayState := mkRelaySt (fr st) true (posts st).
Definition add_post (sid : str) (st : RelayState) : RelayState := mkRelaySt (fr st) (h2_disabled st) (posts st ++ [sid]).

(** Up to [hops] redirects, with a [Location]; the last answer, or the failed exchange. *)
Fixpoint follow (hops : nat) (rt : nat -> RoundTrip) (i : nat) (status : Z) (hdrs : headers_t) (body : bytes) : RoundTrip :=
  match hops with
  | O => RtOk status hdrs body
  | S hops =>
    if negb (is_redirect status) then RtOk status hdrs body else
    match find_header hdrs (lit "location") with
    | None => RtOk status hdrs body
    | Some _ =>
      match rt i with
      | RtOk status hdrs body => follow hops rt (S i) status hdrs body
      | RtErr e sent => RtErr e sent
      end
    end
  end.

(** Whether the POST may have been executed by a deployment. *)
Definition executed (first : RoundTrip) : bool :=
  match first with
  | RtOk status _ _ => negb (is_h2_fronting_refusal_status status)
  | RtErr _ SentMaybe => true
  | RtErr _ SentNo => false
  end.

Definition note_post (sid : str) (first : RoundTrip) (st : RelayState) : RelayState :=
  if executed first then add_post sid st else st.

(** [h2_relay_request] and [run_h2_relay_with_send]: after the POST, a failure counts as
    [SentMaybe]. *)
Definition h2_relay_request (sid : str) (a : Attempt) (st : RelayState) : RoundTrip * RelayState :=
  if h2_disabled st || negb (a_ready a) then (RtErr (FRelay (lit "h2 unavailable")) SentNo, st) else
  let st := note_post sid (a_h2 a 0%nat) st in
  match a_h2 a 0%nat with
  | RtErr e sent => (RtErr e sent, st)
  | RtOk status hdrs body =>
    match follow 5 (a_h2 a) 1 status hdrs body with
    | RtOk status hdrs body => (RtOk status hdrs body, st)
    | RtErr e _ => (RtErr e SentMaybe, st)
    end
  end.

(** The first 200 characters of a body that is not a 200's. *)
Definition body_txt (body : bytes) : str := take 200 (from_utf8_lossy body).

Definition http_error (status : Z) (body : bytes) : FronterError :=
  FRelay (lit "Apps Script HTTP " ++ dec_string status ++ lit ": " ++ body_txt body).

Definition punish (b : bool) (now : Z) (sid : str) (st : RelayState) : RelayState :=
  if b then set_fr (blacklist_script now sid (fr st)) st else st.

Section Call.
Context (parse : bytes -> res bytes FronterError).

(** What becomes of an answer that is final. *)
Definition finish (now : Z) (sid : str) (status : Z) (body : bytes) (st : RelayState) : res bytes FronterError * RelayState :=
  if negb (status =? 200) then (Err (http_error status body), punish (should_blacklist status (body_txt body)) now sid st)
  else
    match parse body with
    | Ok b => (Ok b, st)
    | Err e =>
      (Err e, punish (match e with FRelay msg => bool_decide (is_Some (classify_envelope_error msg)) | _ => false end) now sid st)
    | Panic => (Panic, st)
    end.

Definition via_h1 (sid : str) (a : Attempt) (st : RelayState) : res bytes FronterError * RelayState :=
  match a_acquire a with
  | Some e => (Err e, st)
  | None =>
    let st := note_post sid (a_h1 a 0%nat) st in
    match a_h1 a 0%nat with
    | RtErr e _ => (Err e, st)
    | RtOk status hdrs body =>
      match follow 5 (a_h1 a) 1 status hdrs body with
      | RtErr e _ => (Err e, st)
      | RtOk status _ body => finish (a_now a) sid status body st
      end
    end
  end.

Definition do_relay_once_with (sid : str) (method : str) (a : Attempt) (st : RelayState) : res bytes FronterError * RelayState :=
  let '(r, st) := h2_relay_request sid a st in
  match r with
  | RtOk status _ body =>
    if is_h2_fronting_refusal_status status then via_h1 sid a (disable_h2 st)
    else finish (a_now a) sid status body st
  | RtErr _ SentNo => via_h1 sid a st
  | RtErr e SentMaybe => if is_method_safe_for_fanout method then via_h1 sid a st else (Err (FNonRetryable e), st)
  end.

Definition do_relay_once (method : str) (a : Attempt) (st : RelayState) : res bytes FronterError * RelayState :=
  match next_script_id (a_now a) (fr st) with
  | (Some sid, f) => do_relay_once_with sid method a (set_fr f st)
  | (None, f) => (Panic, set_fr f st)
  end.

(** [select_ok] over the attempts in the order in which they end. *)
Fixpoint select_ok (method : str) (futs : list (str * Attempt)) (last : FronterError) (st : RelayState)
    : res bytes FronterError * RelayState :=
  match futs with
  | [] => (Err last, st)
  | (sid, a) :: futs =>
    match do_relay_once_with sid method a st with
    | (Err e, st) => select_ok method futs e st
    | (r, st) => (r, st)
    end
  end.

(** [order] is the order in which the attempts end, [att] each one's network. *)
Definition do_relay_parallel (method : str) (fan : nat) (now : Z) (order : list str -> list str) (att : str -> Attempt)
    (st : RelayState) : res bytes FronterError * RelayState :=
  let '(ids, f) := next_script_ids now fan (fr st) in
  match ids with
  | [] => (Err (FRelay (lit "no script_ids available")), set_fr f st)
  | _ => select_ok method ((fun sid => (sid, att sid)) <$> order ids) (FRelay []) (set_fr f st)
  end.

(** The network of a request: the two sequential attempts, and a fan-out's. *)
Record Network := mkNet {
  n_first : Attempt; n_second : Attempt;
  n_now : Z; n_order : list str -> list str; n_att : str -> Attempt;
  n_timeout : bool   (** the 25 s of [relay_uncoalesced] ran out *)
}.

Definition do_relay_with_retry (parallel_relay : nat) (method : str) (net : Network) (st : RelayState)
    : res bytes FronterError * RelayState :=
  let fan := Nat.max (Nat.min parallel_relay (length (script_ids (fr st)))) 1 in
  if (2 <=? fan)%nat && is_method_safe_for_fanout method
  then do_relay_parallel method fan (n_now net) (n_order net) (n_att net) st
  else
    match do_relay_once method (n_first net) st with
    | (Err e, st) => if negb (is_retryable e) then (Err (into_inner e), st) else do_relay_once method (n_second net) st
    | r => r
    end.

(** [show] is the [Display] of an error. *)
Context (show : FronterError -> str).

Definition timeout_message : str := lit "Relay timeout " ++ [0x2014] ++ lit " Apps Script did not respond. Most likely cause: daily UrlFetchApp quota exhausted (resets 00:00 UTC). Other possibilities: script.google.com unreachable from your network, or the Apps Script edge is having issues. Check the script's Executions tab at script.google.com for the real error.".

(** The reply, and what is stored in the cache at [now] under [key]. *)
Definition relay_uncoalesced (parallel_relay : nat) (method url : str) (key : option str) (now : Z) (net : Network)
    (st : RelayState) (cache : ResponseCache) : res bytes unit * RelayState * ResponseCache :=
  let '(r, st) := do_relay_with_retry parallel_relay method net st in
  if n_timeout net then (Ok (error_response 504 timeout_message), st, cache) else
  match r with
  | Ok b =>
    let cache :=
      match key with
      | Some k => match parse_ttl b url with Some ttl => cache_put DEFAULT_MAX_BYTES now k b ttl cache | None => cache end
      | None => cache
      end in
    (Ok b, st, cache)
  | Err e => (Ok (error_response 502 (lit "Relay error: " ++ show e)), st, cache)
  | Panic => (Panic, st, cache)
  end.
End Call.

(** * One relayed request, proved

    A request with side effects should be executed at most once.  What the code ensures,
    and the three ways in which it is executed twice. *)

Section Once.
Context (parse : bytes -> res bytes FronterError).

(** ** Posts of an attempt *)

(** A redirect on HTTP/2 does not end in a 421 unless the POST itself did. *)
Definition no_late_refusal (a : Attempt) : Prop :=
  forall status hdrs body status' hdrs' body', a_h2 a 0%nat = RtOk status hdrs body -> status <> 421 ->
    follow 5 (a_h2 a) 1 status hdrs body = RtOk status' hdrs' body' -> status' <> 421.

Lemma punish_posts b now sid st : posts (punish b now sid st) = posts st.
Proof. by destruct b. Qed.

Lemma finish_posts now sid status body st : posts (snd (finish parse now sid status body st)) = posts st.
Proof.
  unfold finish. destruct (negb (status =? 200)); [apply punish_posts|]. destruct (parse body); [done| |done]. apply punish_posts.
Qed.

(** At most one more POST. *)
Definition one_post (sid : str) (st st' : RelayState) : Prop := posts st' = posts st \/ posts st' = posts st ++ [sid].

Lemma note_post_one sid rt st : one_post sid st (note_post sid rt st).
Proof. unfold note_post, one_post. destruct (executed rt); [by right|by left]. Qed.

Lemma via_h1_one sid a st : one_post sid st (snd (via_h1 parse sid a st)).
Proof.
  unfold via_h1. destruct (a_acquire a); [by left|]. pose proof (note_post_one sid (a_h1 a 0%nat) st) as H.
  destruct (a_h1 a 0%nat) as [status hdrs body|e sent]; [|done]. destruct (follow 5 (a_h1 a) 1 status hdrs body); [|done].
  unfold one_post. by rewrite finish_posts.
Qed.

Lemma follow_final hops rt i status hdrs body : is_redirect status = false -> follow hops rt i status hdrs body = RtOk status hdrs body.
Proof. intros H. destruct hops; [done|]. cbn [follow]. by rewrite H. Qed.

(** With side effects, an attempt posts at most once unless a redirect is refused late. *)
Lemma attempt_one sid method a st : is_method_safe_for_fanout method = false -> no_late_refusal a ->
  one_post sid st (snd (do_relay_once_with parse sid method a st)).
Proof.
  intros Hm Hl. unfold do_relay_once_with, h2_relay_request.
  destruct (h2_disabled st || negb (a_ready a)); [apply via_h1_one|].
  destruct (a_h2 a 0%nat) as [status hdrs body|e sent] eqn:E0.
  - unfold note_post, executed, is_h2_fronting_refusal_status. destruct (Z.eqb_spec status 421) as [->|Hne]; cbn [negb].
    + rewrite follow_final by done. exact (via_h1_one sid a (disable_h2 st)).
    + destruct (follow 5 (a_h2 a) 1 status hdrs body) as [s' h' b'|e' sent'] eqn:Ef.
      * destruct (Z.eqb_spec s' 421) as [->|_]; [by destruct (Hl _ _ _ _ _ _ E0 Hne Ef)|].
        right. rewrite finish_posts. done.
      * rewrite Hm. by right.
  - destruct sent; unfold note_post, executed; [apply via_h1_one|]. rewrite Hm. by right.
Qed.

Lemma set_fr_posts f st : posts (set_fr f st) = posts st.
Proof. done. Qed.

Lemma once_one method a st : is_method_safe_for_fanout method = false -> no_late_refusal a ->
  exists sid, one_post sid st (snd (do_relay_once parse method a st)).
Proof.
  intros Hm Hl. unfold do_relay_once. destruct (next_script_id (a_now a) (fr st)) as [[sid|] f]; [|exists []; by left].
  exists sid. exact (attempt_one sid method a (set_fr f st) Hm Hl).
Qed.

(** Claim C16: how often a request with side effects is executed.  As long as no redirect is
    refused with a 421, a request whose method is not safe is never fanned out and each of
    its two attempts reaches at most one deployment, once; a second attempt is made only
    after an error that is not marked; and when the POST fails over HTTP/2 after it may
    have been sent, the request is executed at most once and its error is returned. *)
Theorem unsafe_request_posts (parallel_relay : nat) (method : str) (net : Network) (st : RelayState)
    (Hmethod : is_method_safe_for_fanout method = false)
    (Hfirst : no_late_refusal (n_first net)) (Hsecond : no_late_refusal (n_second net)) :
  let '(r, st') := do_relay_with_retry parse parallel_relay method net st in
  let '(r1, st1) := do_relay_once parse method (n_first net) st in
  (exists sid1 sid2, one_post sid1 st st1 /\ one_post sid2 st1 st')
  /\ (match r1 with Err e => is_retryable e | _ => false end = false -> st' = st1)
  /\ (forall e sid f, next_script_id (a_now (n_first net)) (fr st) = (Some sid, f) ->
        h2_disabled st = false -> a_ready (n_first net) = true -> a_h2 (n_first net) 0%nat = RtErr e SentMaybe ->
        r = Err e /\ posts st' = posts st ++ [sid]).
Proof.
  unfold do_relay_with_retry. rewrite Hmethod, andb_false_r.
  destruct (do_relay_once parse method (n_first net) st) as [r1 st1] eqn:E1.
  destruct (once_one method (n_first net) st Hmethod Hfirst) as (sid1 & H1). rewrite E1 in H1. cbn [snd] in H1.
  assert (forall e sid f, next_script_id (a_now (n_first net)) (fr st) = (Some sid, f) ->
    h2_disabled st = false -> a_ready (n_first net) = true -> a_h2 (n_first net) 0%nat = RtErr e SentMaybe ->
    r1 = Err (FNonRetryable e) /\ posts st1 = posts st ++ [sid]) as Hmaybe.
  { intros e sid f Hn Hd Hr Hh. unfold do_relay_once, do_relay_once_with, h2_relay_request in E1.
    rewrite Hn in E1. cbn [h2_disabled set_fr] in E1. rewrite Hd, Hr, Hh, Hmethod in E1. cbn [orb negb] in E1.
    injection E1 as <- <-. done. }
  destruct r1 as [b|e|].
  - split_and!; [exists sid1, []; split; [done|by left]|done|]. intros e sid f Hn Hd Hr Hh. by destruct (Hmaybe e sid f Hn Hd Hr Hh).
  - destruct (is_retryable e) eqn:Er; cbn [negb].
    + destruct (once_one method (n_second net) st1 Hmethod Hsecond) as (sid2 & H2).
      destruct (do_relay_once parse method (n_second net) st1) as [r2 st2]. cbn [snd] in H2.
      split_and!; [by exists sid1, sid2|done|]. intros e' sid f Hn Hd Hr Hh.
      destruct (Hmaybe e' sid f Hn Hd Hr Hh) as [[= ->] _]. done.
    + split_and!; [exists sid1, []; split; [done|by left]|done|]. intros e' sid f Hn Hd Hr Hh.
      destruct (Hmaybe e' sid f Hn Hd Hr Hh) as [[= ->] Hp]. done.
  - split_and!; [exists sid1, []; split; [done|by left]|done|]. intros e sid f Hn Hd Hr Hh. by destruct (Hmaybe e sid f Hn Hd Hr Hh).
Qed.
End Once.

(** ** Examples *)
Definition quiet : Attempt := mkAttempt 0 false (fun _ => RtErr FTimeout SentNo) None (fun _ => RtOk 200 [] (lit "{}")).
Definition with_h2 (rt : nat -> RoundTrip) : Attempt := mkAttempt 0 true rt None (fun _ => RtOk 200 [] (lit "{}")).
Definition with_h1 (rt : nat -> RoundTrip) : Attempt := mkAttempt 0 false (fun _ => RtErr FTimeout SentNo) None rt.
Definition net_of (a : Attempt) : Network := mkNet a quiet 0 id (fun _ => quiet) false.
Definition st0 : RelayState := mkRelaySt (fronter_new [lit "A"; lit "B"] 3 30 120) false [].
Definition run_post (a : Attempt) : res bytes FronterError * RelayState :=
  do_relay_with_retry (fun b => Ok b) 2 (lit "POST") (net_of a) st0.

Lemma unsafe_request_posts_witness :
  let a := with_h2 (fun _ => RtErr FTimeout SentMaybe) in fst (run_post a) = Err FTimeout /\ posts (snd (run_post a)) = [lit "A"].
Proof.
  pose proof (unsafe_request_posts (fun b => Ok b) 2 (lit "POST") (net_of (with_h2 (fun _ => RtErr FTimeout SentMaybe))) st0) as H.
  unfold run_post. destruct (do_relay_with_retry _ _ _ _ _) as [r st'].
  destruct (do_relay_once (fun b => Ok b) (lit "POST") (n_first (net_of (with_h2 (fun _ => RtErr FTimeout SentMaybe)))) st0) as [r1 st1].
  destruct H as (_ & _ & H); [by vm_compute|intros ? ? ? ? ? ? [=]|intros ? ? ? ? ? ? [=]|].
  eapply (H FTimeout (lit "A")); [vm_compute; reflexivity|done|done|done].
Defined.

(** A request with side effects can be executed twice.  (1) Over HTTP/1.1, a
    failure after the request was sent is retried like any other.  (2) An answer of the
    deployment other than 200 is retried, on either protocol, although the deployment ran.
    (3) A 421 that answers the GET of a redirect is taken for a refusal of the POST, which
    is sent again over HTTP/1.1.  In each run a POST is executed by a deployment twice. *)
Theorem post_executed_twice :
  posts (snd (run_post (with_h1 (fun _ => RtErr FTimeout SentMaybe)))) = [lit "A"; lit "B"]
  /\ posts (snd (run_post (with_h2 (fun _ => RtOk 502 [] [])))) = [lit "A"; lit "B"]
  /\ posts (snd (run_post (with_h2 (fun i => match i with
       | O => RtOk 302 [(lit "Location", lit "https://script.googleusercontent.com/x")] []
       | _ => RtOk 421 [] []
       end)))) = [lit "A"; lit "A"].
Proof. split_and!; vm_compute; reflexivity. Qed.
