(* ===== verification/RelayShare.v ===== *)
(** * src/domain_fronter.rs: [relay], shared among concurrent requests

    The rewriting of the request, the exit node, the cache and the coalescing of identical
    requests, as the steps of concurrent tasks: each step is what runs under one lock, and
    what the network returns is an argument of the step.  A broadcast channel is a number;
    [sent] holds the message of each channel that has one.  A task is not cancelled: the
    proxy drops a request's future only when it shuts down.  Per-site statistics and the
    detection of bot blocks are left out.

    [log] records the outcome of every fetch with the task that made it and its key. *)

From stdpp Require Import prelude gmap.
From S2P Require Import Prelude RustStr Cache HttpText RelayJson Deployments Sabr RelayCall.
#[local] Open Scope Z_scope.

(** ** The request *)
Record Config := mkConfig {
  normalize_x_graphql : bool;
  sabr_strip_on : bool;
  exit_node_enabled : bool;
  exit_node_full : bool;
  exit_node_hosts : list str;
  parallel_relay : nat
}.

Record Request := mkReq { rq_method : str; rq_url : str; rq_headers : headers_t; rq_body : bytes }.

Definition normalize_x_graphql_url (url : str) : str :=
  match match strip_prefix (lit "https://") url with Some r => Some r | None => strip_prefix (lit "http://") url end with
  | None => url
  | Some rest =>
    match split_once [47] rest with
    | None => url
    | Some (host, after) =>
      let path_and_query := [47] ++ after in
      if negb (bool_decide (default host (head (split_on 58 host)) = lit "x.com")) then url else
      match split_once [63] path_and_query with
      | None => url
      | Some (path, query) =>
        if negb (starts_with path (lit "/i/api/graphql/")) || negb (starts_with query (lit "variables=")) then url
        else
          let new_query := match split_once [38] query with Some (q, _) => q | None => query end in
          (if starts_with url (lit "https://") then lit "https://" else lit "http://") ++ host ++ path ++ [63] ++ new_query
      end
    end
  end.

Definition EXIT_NODE_BYPASS_SUFFIXES : list str := [lit "googlevideo.com"].

Definition exit_node_matches (cfg : Config) (url : str) : bool :=
  if negb (exit_node_enabled cfg) then false else
  match extract_host url with
  | None => exit_node_full cfg
  | Some host =>
    let host_lc := to_ascii_lowercase host in
    if existsb (host_in host_lc) EXIT_NODE_BYPASS_SUFFIXES then false
    else if exit_node_full cfg then true
    else existsb (host_in host_lc) (exit_node_hosts cfg)
  end.

Definition prepare (cfg : Config) (r : Request) : Request :=
  let url := if normalize_x_graphql cfg then normalize_x_graphql_url (rq_url r) else rq_url r in
  mkReq (rq_method r) url (rq_headers r)
    (default (rq_body r) (maybe_strip_sabr_body (sabr_strip_on cfg) (rq_method r) url (rq_body r))).

Definition has_range (headers : headers_t) : bool := existsb (fun kv => eq_ignore_ascii_case (fst kv) (lit "range")) headers.

(** The key under which a request is cached and coalesced. *)
Definition key_of (r : Request) : option str :=
  if is_cacheable_method (rq_method r) && bool_decide (rq_body r = []) && negb (has_range (rq_headers r))
  then Some (cache_key (rq_method r) (rq_url r)) else None.

(** ** The state *)
Inductive Origin := FromExit | FromCache | FromFetch | FromWait.

Inductive Phase :=
| PExit                         (** at the exit node *)
| PStart                        (** before the cache *)
| PChecked                      (** not in the cache *)
| POwner                        (** fetching *)
| PFetched (b : bytes)          (** fetched, not yet published *)
| PWaiter (chan : nat)          (** subscribed to another task's fetch *)
| PDone (o : Origin) (b : bytes).

Record World := mkWorld {
  w_relay : RelayState;
  w_cache : ResponseCache;
  inflight : gmap str nat;
  next_chan : nat;
  sent : gmap nat bytes;
  tasks : gmap nat (Request * Phase);
  log : list (nat * option str * bytes)
}.

Definition set_task (i : nat) (r : Request) (p : Phase) (w : World) : World :=
  mkWorld (w_relay w) (w_cache w) (inflight w) (next_chan w) (sent w) (<[i := (r, p)]> (tasks w)) (log w).

Section Relay.
Context (parse : bytes -> res bytes FronterError) (show : FronterError -> str) (cfg : Config).

(** ** The steps *)
Definition arrive (i : nat) (r : Request) (w : World) : option World :=
  match tasks w !! i with
  | Some _ => None
  | None => let r := prepare cfg r in Some (set_task i r (if exit_node_matches cfg (rq_url r) then PExit else PStart) w)
  end.

(** [outcome] is what [relay_via_exit_node] returned. *)
Definition exit_done (i : nat) (outcome : res bytes FronterError) (w : World) : option World :=
  match tasks w !! i, outcome with
  | Some (r, PExit), Ok b => Some (set_task i r (PDone FromExit b) w)
  | Some (r, PExit), Err e =>
    Some (set_task i r (if negb (is_retryable e) then PDone FromExit (error_response 502 (lit "Relay error: " ++ show (into_inner e)))
                        else PStart) w)
  | _, _ => None
  end.

Definition check (i : nat) (now : Z) (w : World) : option World :=
  match tasks w !! i with
  | Some (r, PStart) =>
    match key_of r with
    | None => Some (set_task i r POwner w)
    | Some k =>
      let '(hit, c) := cache_get now k (w_cache w) in
      let w := mkWorld (w_relay w) c (inflight w) (next_chan w) (sent w) (tasks w) (log w) in
      Some (set_task i r (match hit with Some b => PDone FromCache b | None => PChecked end) w)
    end
  | _ => None
  end.

Definition join (i : nat) (w : World) : option World :=
  match tasks w !! i with
  | Some (r, PChecked) =>
    match key_of r with
    | None => None
    | Some k =>
      match inflight w !! k with
      | Some chan => Some (set_task i r (PWaiter chan) w)
      | None =>
        Some (set_task i r POwner
               (mkWorld (w_relay w) (w_cache w) (<[k := next_chan w]> (inflight w)) (S (next_chan w)) (sent w) (tasks w) (log w)))
      end
    end
  | _ => None
  end.

Definition fetch (i : nat) (now : Z) (net : Network) (w : World) : option World :=
  match tasks w !! i with
  | Some (r, POwner) =>
    match relay_uncoalesced parse show (parallel_relay cfg) (rq_method r) (rq_url r) (key_of r) now net (w_relay w) (w_cache w) with
    | (Ok b, st, c) =>
      Some (set_task i r (PFetched b) (mkWorld st c (inflight w) (next_chan w) (sent w) (tasks w) ((i, key_of r, b) :: log w)))
    | _ => None
    end
  | _ => None
  end.

Definition publish (i : nat) (w : World) : option World :=
  match tasks w !! i with
  | Some (r, PFetched b) =>
    let w :=
      match key_of r with
      | Some k =>
        match inflight w !! k with
        | Some chan => mkWorld (w_relay w) (w_cache w) (delete k (inflight w)) (next_chan w) (<[chan := b]> (sent w)) (tasks w) (log w)
        | None => w
        end
      | None => w
      end in
    Some (set_task i r (PDone FromFetch b) w)
  | _ => None
  end.

Definition receive (i : nat) (w : World) : option World :=
  match tasks w !! i with
  | Some (r, PWaiter chan) => b ← sent w !! chan; Some (set_task i r (PDone FromWait b) w)
  | _ => None
  end.

Inductive wstep (w w' : World) : Prop :=
| w_arrive i r : arrive i r w = Some w' -> wstep w w'
| w_exit i o : exit_done i o w = Some w' -> wstep w w'
| w_check i now : check i now w = Some w' -> wstep w w'
| w_join i : join i w = Some w' -> wstep w w'
| w_fetch i now net : fetch i now net w = Some w' -> wstep w w'
| w_publish i : publish i w = Some w' -> wstep w w'
| w_receive i : receive i w = Some w' -> wstep w w'.

Definition world_new (st : RelayState) : World := mkWorld st cache_new ∅ 0 ∅ ∅ [].

(** ** The invariant *)
Definition owning (p : Phase) : bool := match p with POwner | PFetched _ => true | _ => false end.

(** Task [i] is fetching for key [k]. *)
Definition owner (w : World) (i : nat) (k : str) : Prop :=
  exists r p, tasks w !! i = Some (r, p) /\ key_of r = Some k /\ owning p = true.

Definition fetched_for (w : World) (k : option str) (b : bytes) : Prop := exists j, (j, k, b) ∈ log w.

Definition phase_ok (w : World) (i : nat) (r : Request) (p : Phase) : Prop :=
  match p with
  | PExit | PStart => True
  | PChecked => is_Some (key_of r)
  | POwner => True
  | PFetched b => (i, key_of r, b) ∈ log w
  | PWaiter chan => exists k, key_of r = Some k /\ (inflight w !! k = Some chan \/ exists b, sent w !! chan = Some b /\ fetched_for w (Some k) b)
  | PDone FromExit _ => True
  | PDone FromFetch b => (i, key_of r, b) ∈ log w
  | PDone FromCache b | PDone FromWait b => exists k, key_of r = Some k /\ fetched_for w (Some k) b
  end.

Record world_ok (w : World) : Prop := {
  wo_owner_inflight : forall i k, owner w i k -> is_Some (inflight w !! k);
  wo_inflight_owner : forall k, is_Some (inflight w !! k) -> exists i, owner w i k;
  wo_unique : forall i j k, owner w i k -> owner w j k -> i = j;
  wo_chan : forall k c, inflight w !! k = Some c -> (c < next_chan w)%nat /\ sent w !! c = None;
  wo_inj : forall k k' c, inflight w !! k = Some c -> inflight w !! k' = Some c -> k = k';
  wo_sent : forall c b, sent w !! c = Some b -> (c < next_chan w)%nat;
  wo_cache : forall k e, entries (w_cache w) !! k = Some e -> fetched_for w (Some k) (body e);
  wo_phase : forall i r p, tasks w !! i = Some (r, p) -> phase_ok w i r p
}.
End Relay.

(** * The sharing of requests, proved *)

(** ** The cache holds what was put *)
Lemma evict_sub max need o es sz o' es' sz' : evict max need o es sz = (o', es', sz') -> es' ⊆ es.
Proof.
  revert es sz. induction o as [|k o IH]; intros es sz; cbn [evict]; destruct (sz + need <=? max); try (by intros [= <- <- <-]).
  destruct (es !! k); [|apply IH]. intros H%IH. etransitivity; [exact H|apply delete_subseteq].
Qed.

Lemma cache_put_entry max now k b ttl c k' e : entries (cache_put max now k b ttl c) !! k' = Some e ->
  entries c !! k' = Some e \/ k' = k /\ Cache.body e = b.
Proof.
  unfold cache_put. destruct (_ || _); [by left|].
  destruct (match entries c !! k with Some old => _ | None => _ end) as [[es0 ord0] sz0] eqn:E0.
  assert (es0 ⊆ entries c) as Hs0 by (destruct (entries c !! k); injection E0 as <- _ _; [apply delete_subseteq|done]).
  destruct (evict max (len b) ord0 es0 sz0) as [[ord es] sz] eqn:E. apply evict_sub in E. cbn [entries].
  destruct (decide (k' = k)) as [->|Hne]; [rewrite lookup_insert_eq; intros [= <-]; by right|].
  rewrite lookup_insert_ne by done. intros H. left. eapply lookup_weaken; [|exact Hs0]. by eapply lookup_weaken.
Qed.

Lemma cache_get_entry now k c k' e : entries (cache_get now k c).2 !! k' = Some e -> entries c !! k' = Some e.
Proof.
  unfold cache_get. destruct (entries c !! k); [|done]. destruct (now <? expires c0); [done|]. cbn [snd entries].
  intros H. by eapply lookup_weaken; [|apply delete_subseteq].
Qed.

Lemma cache_get_hit now k c b : (cache_get now k c).1 = Some b -> exists e, entries c !! k = Some e /\ Cache.body e = b.
Proof.
  unfold cache_get. destruct (entries c !! k) as [e|]; [|done]. destruct (now <? expires e); [|done]. intros [= <-]. by exists e.
Qed.

Lemma uncoalesced_cache parse show par m u k now net st c r st' c' :
  relay_uncoalesced parse show par m u k now net st c = (r, st', c') ->
  forall k' e, entries c' !! k' = Some e -> entries c !! k' = Some e \/ k = Some k' /\ r = Ok (Cache.body e).
Proof.
  unfold relay_uncoalesced. destruct (do_relay_with_retry parse par m net st) as [q s]. destruct (n_timeout net); [intros [= <- <- <-]; auto|].
  destruct q as [b|e|]; [|intros [= <- <- <-]; auto|intros [= <- <- <-]; auto].
  intros [= <- <- <-] k' e. destruct k as [k|]; [|auto]. destruct (parse_ttl b u); [|auto].
  intros [H|[-> ->]]%cache_put_entry; auto.
Qed.

(** ** Steps keep the invariant *)
Lemma owner_set i r p w w' j k : tasks w' = <[i := (r, p)]> (tasks w) ->
  owner w' j k <-> (j = i /\ key_of r = Some k /\ owning p = true) \/ (j <> i /\ owner w j k).
Proof.
  intros Ht. unfold owner. rewrite Ht. destruct (decide (j = i)) as [->|Hne].
  - rewrite lookup_insert_eq. naive_solver.
  - rewrite lookup_insert_ne by done. naive_solver.
Qed.

(** A change of phase that neither starts nor ends a shared fetch. *)
Lemma owner_same i r r0 p0 p w w' j k : tasks w !! i = Some (r0, p0) -> tasks w' = <[i := (r, p)]> (tasks w) ->
  (key_of r = Some k -> owning p = true -> key_of r0 = Some k /\ owning p0 = true) ->
  (key_of r0 = Some k -> owning p0 = true -> key_of r = Some k /\ owning p = true) ->
  owner w' j k <-> owner w j k.
Proof.
  intros H0 Ht H1 H2. rewrite (owner_set i r p w w' j k Ht). destruct (decide (j = i)) as [->|Hne]; [|tauto].
  unfold owner. rewrite H0. split.
  - intros [(_ & Hk & Ho)|[? _]]; [|done]. exists r0, p0. split; [done|]. by apply H1.
  - intros (r' & p' & [= <- <-] & Hk & Ho). left. split; [done|]. by apply H2.
Qed.

Lemma fetched_mono w w' k b : (forall x, x ∈ log w -> x ∈ log w') -> fetched_for w k b -> fetched_for w' k b.
Proof. intros Hl [j Hj]. exists j. auto. Qed.

Lemma phase_mono w w' i r p : inflight w' = inflight w -> sent w' = sent w -> (forall x, x ∈ log w -> x ∈ log w') ->
  phase_ok w i r p -> phase_ok w' i r p.
Proof.
  intros Hi Hs Hl. destruct p as [| | | |b|chan|[] b]; cbn [phase_ok]; auto.
  - intros (k & Hk & [H|(b & Hb & Hf)]); exists k; rewrite Hi, Hs; split; auto. right. exists b. split; [done|]. by eapply fetched_mono.
  - intros (k & Hk & Hf). exists k. split; [done|]. by eapply fetched_mono.
  - intros (k & Hk & Hf). exists k. split; [done|]. by eapply fetched_mono.
Qed.

Lemma world_ok_update w w' i r p : world_ok w -> inflight w' = inflight w -> next_chan w' = next_chan w -> sent w' = sent w ->
  (forall x, x ∈ log w -> x ∈ log w') -> (forall k e, entries (w_cache w') !! k = Some e -> fetched_for w' (Some k) (Cache.body e)) ->
  tasks w' = <[i := (r, p)]> (tasks w) -> (forall j k, owner w' j k <-> owner w j k) -> phase_ok w' i r p -> world_ok w'.
Proof.
  intros Hw Hi Hn Hs Hl Hc Ht Ho Hp. constructor; rewrite ?Hi, ?Hn, ?Hs.
  - intros j k. rewrite Ho. apply Hw.
  - intros k Hk. destruct (wo_inflight_owner _ Hw k Hk) as [j Hj]. exists j. by apply Ho.
  - intros j j' k. rewrite !Ho. apply Hw.
  - apply Hw.
  - apply Hw.
  - apply Hw.
  - done.
  - intros j r' p'. rewrite Ht. destruct (decide (j = i)) as [->|Hne].
    + rewrite lookup_insert_eq. by intros [= <- <-].
    + rewrite lookup_insert_ne by done. intros H%(wo_phase _ Hw). by eapply phase_mono.
Qed.

Section Steps.
Context (parse : bytes -> res bytes FronterError) (show : FronterError -> str) (cfg : Config).

Lemma join_own_ok w i r k : world_ok w -> tasks w !! i = Some (r, PChecked) -> key_of r = Some k -> inflight w !! k = None ->
  world_ok (set_task i r POwner
    (mkWorld (w_relay w) (w_cache w) (<[k := next_chan w]> (inflight w)) (S (next_chan w)) (sent w) (tasks w) (log w))).
Proof.
  intros Hw Ht Hk Hi. set (w' := set_task _ _ _ _).
  assert (forall j k', owner w' j k' <-> (j = i /\ k' = k) \/ (j <> i /\ owner w j k')) as Ho.
  { intros j k'. rewrite (owner_set i r POwner w w' j k' eq_refl). rewrite Hk. naive_solver. }
  assert (forall j, ~ owner w j k) as Hno by (intros j H%(wo_owner_inflight _ Hw); rewrite Hi in H; by apply is_Some_None in H).
  constructor; cbn [inflight next_chan sent w_cache log w' set_task].
  - intros j k' H. apply Ho in H as [[_ ->]|[_ H]]; [rewrite lookup_insert_eq; by eexists|].
    apply (wo_owner_inflight _ Hw) in H. destruct (decide (k' = k)) as [->|]; [rewrite lookup_insert_eq; by eexists|by rewrite lookup_insert_ne].
  - intros k' H. destruct (decide (k' = k)) as [->|Hne]; [exists i; apply Ho; by left|]. rewrite lookup_insert_ne in H by done.
    destruct (wo_inflight_owner _ Hw k' H) as [j Hj]. exists j. apply Ho. right. split; [|done]. intros ->.
    destruct Hj as (r' & p' & E & _ & Hp). rewrite Ht in E. injection E as <- <-. done.
  - intros j j' k' H1 H2. apply Ho in H1 as [[-> ->]|[Hj H1]], H2 as [[-> E]|[Hj' H2]]; [done|by destruct (Hno j')|subst k'; by destruct (Hno j)|].
    by eapply (wo_unique _ Hw).
  - intros k' c. rewrite lookup_insert_Some. intros [[_ <-]|[_ H]].
    + split; [lia|]. destruct (sent w !! next_chan w) eqn:E; [|done]. apply (wo_sent _ Hw) in E. lia.
    + apply (wo_chan _ Hw) in H as [? ?]. split; [lia|done].
  - intros k1 k2 c. rewrite !lookup_insert_Some. intros [[<- <-]|[Hn1 H1]] [[<- E]|[Hn2 H2]]; [done| | |by eapply (wo_inj _ Hw)].
    + apply (wo_chan _ Hw) in H2. lia.
    + subst c. apply (wo_chan _ Hw) in H1. lia.
  - intros c b H%(wo_sent _ Hw). lia.
  - exact (wo_cache _ Hw).
  - intros j r' p'. change (tasks w') with (<[i := (r, POwner)]> (tasks w)). destruct (decide (j = i)) as [->|Hne]; [rewrite lookup_insert_eq; by intros [= <- <-]|].
    rewrite lookup_insert_ne by done. intros H%(wo_phase _ Hw). destruct p' as [| | | |b|chan|[] b]; cbn [phase_ok] in *; try done.
    destruct H as (k' & Hk' & H). exists k'. split; [done|]. change (inflight w') with (<[k := next_chan w]> (inflight w)). destruct H as [H|H]; [left|by right].
    rewrite lookup_insert_ne; [done|congruence].
Qed.

Lemma publish_ok w i r b k chan : world_ok w -> tasks w !! i = Some (r, PFetched b) -> key_of r = Some k -> inflight w !! k = Some chan ->
  world_ok (set_task i r (PDone FromFetch b)
    (mkWorld (w_relay w) (w_cache w) (delete k (inflight w)) (next_chan w) (<[chan := b]> (sent w)) (tasks w) (log w))).
Proof.
  intros Hw Ht Hk Hi. set (w' := set_task _ _ _ _).
  assert (owner w i k) as Hown by (by exists r, (PFetched b)).
  assert (forall j k', owner w' j k' <-> j <> i /\ owner w j k') as Ho.
  { intros j k'. rewrite (owner_set i r (PDone FromFetch b) w w' j k' eq_refl). cbn [owning]. naive_solver. }
  assert ((i, Some k, b) ∈ log w) as Hlog. { pose proof (wo_phase _ Hw i r _ Ht) as H. cbn [phase_ok] in H. by rewrite Hk in H. }
  constructor; cbn [inflight next_chan sent w_cache log w' set_task].
  - intros j k' [Hne H]%Ho. rewrite lookup_delete_ne; [by apply (wo_owner_inflight _ Hw j)|]. intros <-. by destruct Hne; apply (wo_unique _ Hw j i k).
  - intros k' H. apply lookup_delete_is_Some in H as [Hne H]. destruct (wo_inflight_owner _ Hw k' H) as [j Hj]. exists j. apply Ho. split; [|done].
    intros ->. destruct Hj as (r' & p' & E & Hk' & _). rewrite Ht in E. injection E as <- <-. congruence.
  - intros j j' k' [_ H1]%Ho [_ H2]%Ho. by eapply (wo_unique _ Hw).
  - intros k' c [Hne H]%lookup_delete_Some. destruct (wo_chan _ Hw _ _ H) as [Hc Hs]. split; [done|].
    rewrite lookup_insert_ne; [done|]. intros <-. apply Hne. by eapply (wo_inj _ Hw).
  - intros k1 k2 c [_ H1]%lookup_delete_Some [_ H2]%lookup_delete_Some. by eapply (wo_inj _ Hw).
  - intros c b'. rewrite lookup_insert_Some. intros [[<- _]|[_ H]]; [by destruct (wo_chan _ Hw _ _ Hi)|by apply (wo_sent _ Hw) in H].
  - exact (wo_cache _ Hw).
  - intros j r' p'. change (tasks w') with (<[i := (r, PDone FromFetch b)]> (tasks w)). destruct (decide (j = i)) as [->|Hne].
    { rewrite lookup_insert_eq. intros [= <- <-]. cbn [phase_ok]. by rewrite Hk. }
    rewrite lookup_insert_ne by done. intros H%(wo_phase _ Hw). destruct p' as [| | | |b'|ch|[] b']; cbn [phase_ok] in *; try done.
    destruct H as (k' & Hk' & H). exists k'. split; [done|]. change (inflight w') with (delete k (inflight w)). change (sent w') with (<[chan := b]> (sent w)). destruct H as [H|(x & Hx & Hf)].
    + destruct (decide (k' = k)) as [->|Hnk].
      * right. exists b. assert (ch = chan) as -> by congruence. rewrite lookup_insert_eq. split; [done|]. by exists i.
      * left. by rewrite lookup_delete_ne.
    + right. exists x. split; [|done]. rewrite lookup_insert_ne; [done|]. intros <-. apply (wo_chan _ Hw) in Hi as [_ Hi]. congruence.
Qed.

Lemma simple_ok w i r0 p0 r p : world_ok w -> tasks w !! i = Some (r0, p0) -> owning p = false -> owning p0 = false ->
  phase_ok w i r p -> world_ok (set_task i r p w).
Proof.
  intros Hw Ht Hp Hp0 Hok. eapply (world_ok_update w _ i r p); try done; [exact (wo_cache _ Hw)|].
  intros j k. eapply owner_same; [done|done|congruence..].
Qed.

Lemma check_ok w i now w' : world_ok w -> check i now w = Some w' -> world_ok w'.
Proof.
  intros Hw. unfold check. destruct (tasks w !! i) as [[r []]|] eqn:Ht; try done. destruct (key_of r) as [k|] eqn:Hk.
  - destruct (cache_get now k (w_cache w)) as [hit c] eqn:Eg. intros [= <-].
    assert (c = (cache_get now k (w_cache w)).2 /\ hit = (cache_get now k (w_cache w)).1) as [-> ->] by (by rewrite Eg).
    eapply (world_ok_update w _ i r); try done.
    + intros k' e He. apply (wo_cache _ Hw k' e). exact (cache_get_entry _ _ _ _ _ He).
    + intros j k'. eapply owner_same; [done|done| |done]. by destruct (cache_get now k (w_cache w)).1.
    + destruct (cache_get now k (w_cache w)).1 as [b|] eqn:Eh; cbn [phase_ok]; [|by rewrite Hk].
      apply cache_get_hit in Eh as (e & He & <-). exists k. split; [done|]. exact (wo_cache _ Hw k e He).
  - intros [= <-]. eapply (world_ok_update w _ i r); try done; [exact (wo_cache _ Hw)|].
    intros j k. eapply owner_same; [done|done|congruence|done].
Qed.

Lemma fetch_ok w i now net w' : world_ok w -> fetch parse show cfg i now net w = Some w' -> world_ok w'.
Proof.
  intros Hw. unfold fetch. destruct (tasks w !! i) as [[r []]|] eqn:Ht; try done.
  destruct (relay_uncoalesced _ _ _ _ _ _ _ _ _ _) as [[[b| |] st] c] eqn:E; try done. intros [= <-].
  eapply (world_ok_update w _ i r (PFetched b)); try done.
  - intros x Hx. by right.
  - intros k e He. destruct (uncoalesced_cache _ _ _ _ _ _ _ _ _ _ _ _ _ E k e He) as [H|[Hk [= ->]]].
    + eapply fetched_mono; [|exact (wo_cache _ Hw k e H)]. intros x Hx. by right.
    + exists i. rewrite <- Hk. by left.
  - intros j k. by eapply owner_same.
  - cbn [phase_ok]. by left.
Qed.

Lemma wstep_ok w w' : world_ok w -> wstep parse show cfg w w' -> world_ok w'.
Proof.
  intros Hw Hstep. destruct Hstep as [i r H|i o H|i now H|i H|i now net H|i H|i H].
  - unfold arrive in H. destruct (tasks w !! i) as [|] eqn:Ht; [done|]. injection H as <-.
    eapply (world_ok_update w _ i (prepare cfg r)); try done; [exact (wo_cache _ Hw)| |by destruct (exit_node_matches _ _)].
    intros j k. rewrite (owner_set i) by done. destruct (exit_node_matches _ _); cbn [owning].
    all: split; [intros [(_ & _ & [=])|[_ ?]]; done|]; intros Ho; right; split; [|done]; intros ->; destruct Ho as (? & ? & ? & _); congruence.
  - unfold exit_done in H. destruct (tasks w !! i) as [[r []]|] eqn:Ht; try done. destruct o as [b|e|]; [| |done]; injection H as <-.
    + by eapply simple_ok.
    + destruct (negb (is_retryable e)); by eapply simple_ok.
  - by eapply check_ok.
  - unfold join in H. destruct (tasks w !! i) as [[r []]|] eqn:Ht; try done. destruct (key_of r) as [k|] eqn:Hk; [|done].
    destruct (inflight w !! k) as [chan|] eqn:Hi; injection H as <-.
    + eapply simple_ok; try done. cbn [phase_ok]. exists k. auto.
    + by apply (join_own_ok w i r k).
  - by eapply fetch_ok.
  - unfold publish in H. destruct (tasks w !! i) as [[r []]|] eqn:Ht; try done. injection H as <-.
    destruct (key_of r) as [k|] eqn:Hk.
    + assert (owner w i k) as Ho by (by eexists _, _). destruct (wo_owner_inflight _ Hw i k Ho) as [chan Hi]. rewrite Hi.
      by apply (publish_ok w i r b k chan).
    + eapply (world_ok_update w _ i r (PDone FromFetch b)); try done; [exact (wo_cache _ Hw)| |exact (wo_phase _ Hw i r _ Ht)].
      intros j k. eapply owner_same; [done|done|congruence|congruence].
  - unfold receive in H. destruct (tasks w !! i) as [[r []]|] eqn:Ht; try done. apply bind_Some in H as (b & Hs & [= <-]).
    eapply simple_ok; try done. destruct (wo_phase _ Hw i r _ Ht) as (k & Hk & [Hi|(b' & Hb & Hf)]).
    + apply (wo_chan _ Hw) in Hi as [_ Hi]. congruence.
    + exists k. split; [done|]. congruence.
Qed.

Lemma world_new_ok st : world_ok (world_new st).
Proof.
  assert (forall i k, ~ owner (world_new st) i k) as Hno by (intros i k (r & p & H & _); cbn in H; by rewrite lookup_empty in H).
  constructor.
  - by intros i k H%Hno.
  - intros k [c H]. cbn in H. by rewrite lookup_empty in H.
  - by intros i j k H%Hno.
  - intros k c H. cbn in H. by rewrite lookup_empty in H.
  - intros k k' c H. cbn in H. by rewrite lookup_empty in H.
  - intros c b H. cbn in H. by rewrite lookup_empty in H.
  - intros k e H. cbn in H. by rewrite lookup_empty in H.
  - intros i r p H. cbn in H. by rewrite lookup_empty in H.
Qed.

Lemma reachable_world st w : rtc (wstep parse show cfg) (world_new st) w -> world_ok w.
Proof.
  generalize (world_new_ok st). intros H0 H. induction H as [|x y z Hs _ IH]; [done|]. apply IH. by eapply wstep_ok.
Qed.

(** Claim C15: shared requests.  However the tasks interleave: two tasks are never fetching for
    the same key; a task that waits has its answer, or some task is fetching for its key
    and its publication is that answer; and what a task returns was fetched by itself, or,
    for a request that may be shared, fetched for the same method and URL. *)
Theorem relay_sharing (st : RelayState) (w : World) (Hreach : rtc (wstep parse show cfg) (world_new st) w) :
  (forall i j k, owner w i k -> owner w j k -> i = j)
  /\ (forall i r chan, tasks w !! i = Some (r, PWaiter chan) ->
        is_Some (receive i w)
        \/ exists j rj, key_of rj = key_of r /\ (tasks w !! j = Some (rj, POwner)
             \/ exists b w', tasks w !! j = Some (rj, PFetched b) /\ publish j w = Some w' /\ receive i w' = Some (set_task i r (PDone FromWait b) w')))
  /\ (forall i r o b, tasks w !! i = Some (r, PDone o b) ->
        match o with
        | FromExit => True
        | FromFetch => (i, key_of r, b) ∈ log w
        | FromCache | FromWait => exists k j, key_of r = Some k /\ (j, Some k, b) ∈ log w
        end).
Proof.
  apply reachable_world in Hreach as Hw. split_and!; [exact (wo_unique _ Hw)| |].
  - intros i r chan Ht. destruct (wo_phase _ Hw i r _ Ht) as (k & Hk & [Hi|(b & Hb & _)]).
    + right. destruct (wo_inflight_owner _ Hw k) as (j & rj & pj & Hj & Hkj & Hp); [by rewrite Hi|]. exists j, rj. split; [congruence|].
      destruct pj as [| | | |b| |]; try done; [by left|right]. exists b. unfold publish. rewrite Hj, Hkj, Hi. eexists. split_and!; [done|done|].
      unfold receive. cbn [tasks sent set_task]. rewrite lookup_insert_ne, Ht, lookup_insert_eq; [done|]. intros ->. congruence.
    + left. unfold receive. rewrite Ht, Hb. by eexists.
  - intros i r o b Ht. pose proof (wo_phase _ Hw i r _ Ht) as H. destruct o; cbn [phase_ok] in H; try done.
    all: destruct H as (k & Hk & j & Hj); by exists k, j.
Qed.
End Steps.

(** ** Examples *)
Definition plain_cfg : Config := mkConfig false false false false [] 1.
Definition head_req (user : string) : Request := mkReq (lit "HEAD") (lit "https://h/me") [(lit "Cookie", lit user)] [].
Definition echo_net (b : bytes) : Network :=
  mkNet (with_h2 (fun _ => RtOk 200 [] b)) quiet 0 id (fun _ => quiet) false.

(** Task 1 fetches while task 2 waits. *)
Definition shared_run : option World :=
  w ← arrive plain_cfg 1 (head_req "user=alice") (world_new st0); w ← check 1 0 w; w ← join 1 w;
  w ← arrive plain_cfg 2 (head_req "user=bob") w; w ← check 2 0 w; w ← join 2 w;
  w ← fetch (fun b => Ok b) (fun _ => []) plain_cfg 1 0 (echo_net (lit "for alice")) w; w ← publish 1 w; receive 2 w.

Lemma relay_sharing_witness :
  exists w, rtc (wstep (fun b => Ok b) (fun _ => []) plain_cfg) (world_new st0) w
  /\ tasks w !! 1%nat = Some (head_req "user=alice", PStart) /\ forall i j k, owner w i k -> owner w j k -> i = j.
Proof.
  eexists. assert (rtc (wstep (fun b => Ok b) (fun _ => []) plain_cfg) (world_new st0)
    (set_task 1 (prepare plain_cfg (head_req "user=alice")) PStart (world_new st0))) as H.
  { apply rtc_once. apply (w_arrive _ _ _ _ _ 1 (head_req "user=alice")). vm_compute. reflexivity. }
  split; [exact H|]. split; [vm_compute; reflexivity|]. exact (proj1 (relay_sharing _ _ _ _ _ H)).
Defined.

(** The key of a shared request has no credentials.  Two requests for one URL with
    different cookies, in flight at the same time, are one fetch: the second caller is
    handed the answer made for the first. *)
Theorem shared_across_credentials :
  exists w, shared_run = Some w
  /\ tasks w !! 2%nat = Some (head_req "user=bob", PDone FromWait (lit "for alice"))
  /\ log w = [(1%nat, key_of (head_req "user=alice"), lit "for alice")].
Proof. eexists. split; [vm_compute; reflexivity|]. split; vm_compute; reflexivity. Qed.
