(* ===== verification/ExitNode.v ===== *)
(** * src/domain_fronter.rs: requests to a deployment and the exit node

    The JSON payload of a relayed request ([build_payload_json]), and the chained request of
    the exit node: an inner payload with the exit node's key inside an outer one for a
    deployment ([relay_via_exit_node]), sent like any other
    ([send_prebuilt_payload_through_relay]), with the exit node's envelope turned back into
    an HTTP response ([parse_exit_node_response]).

    An object of serde_json is a list of fields ordered by key, as in its [BTreeMap]; JSON,
    base64 and the decompressors are parameters.  Random padding is an argument.  The
    network of the outer call is an [Attempt] of [RelayCall]. *)

From stdpp Require Import prelude.
From S2P Require Import Prelude RustStr HttpText HttpRead HttpRewrite RelayJson RelayReply Deployments RelayCall.
#[local] Open Scope Z_scope.

(** ** Objects *)
Fixpoint str_compare (a b : str) : comparison :=
  match a, b with
  | [], [] => Eq
  | [], _ => Lt
  | _, [] => Gt
  | x :: a, y :: b => match x ?= y with Eq => str_compare a b | c => c end
  end.

(** [Map::insert] *)
Fixpoint map_insert (k : str) (v : Value) (m : list (str * Value)) : list (str * Value) :=
  match m with
  | [] => [(k, v)]
  | (k', v') :: r =>
    match str_compare k k' with
    | Eq => (k, v) :: r
    | Lt => (k, v) :: m
    | Gt => (k', v') :: map_insert k v r
    end
  end.

(** A struct serialised to a [Value]. *)
Definition map_of (fields : list (str * Value)) : list (str * Value) := foldl (fun m kv => map_insert (fst kv) (snd kv) m) [] fields.

(** [Value::get], [as_u64], [as_object] *)
Definition get (k : str) (v : Value) : option Value := match v with VObject m => get_key k m | _ => None end.
Definition as_u64 (v : Value) : option Z := match v with VNumber text => parse_u64 text | _ => None end.
Definition as_object (v : Value) : option (list (str * Value)) := match v with VObject m => Some m | _ => None end.

(** ** Requests *)
Record RelayRequest := mkRelayReq {
  req_k : str; req_m : str; req_u : str;
  req_h : option (list (str * Value)); req_b : option str; req_ct : option str;
  req_r : bool; req_raw : option bool
}.

Definition opt_field {A} (name : string) (mk : A -> Value) (x : option A) : list (str * Value) :=
  match x with Some a => [(lit name, mk a)] | None => [] end.

(** The fields in the order of the struct; absent ones are skipped. *)
Definition request_fields (q : RelayRequest) : list (str * Value) :=
  [(lit "k", VString (req_k q)); (lit "m", VString (req_m q)); (lit "u", VString (req_u q))]
  ++ opt_field "h" VObject (req_h q) ++ opt_field "b" VString (req_b q) ++ opt_field "ct" VString (req_ct q)
  ++ [(lit "r", VBool (req_r q))] ++ opt_field "raw" VBool (req_raw q).

Record ExitConfig := mkExitCfg {
  auth_key : str; exit_node_url : str; exit_node_psk : str; disable_padding : bool; allow_brotli_zstd : bool
}.

(** ** The answer *)
Definition EXIT_SKIP : list str := [lit "content-length"; lit "transfer-encoding"; lit "connection"; lit "keep-alive"].

Definition status_reason (status : Z) : str :=
  if status =? 200 then lit "OK" else if status =? 201 then lit "Created" else if status =? 204 then lit "No Content"
  else if status =? 301 then lit "Moved Permanently" else if status =? 302 then lit "Found" else if status =? 303 then lit "See Other"
  else if status =? 304 then lit "Not Modified" else if status =? 307 then lit "Temporary Redirect"
  else if status =? 308 then lit "Permanent Redirect" else if status =? 400 then lit "Bad Request"
  else if status =? 401 then lit "Unauthorized" else if status =? 403 then lit "Forbidden" else if status =? 404 then lit "Not Found"
  else if status =? 405 then lit "Method Not Allowed" else if status =? 408 then lit "Request Timeout"
  else if status =? 429 then lit "Too Many Requests" else if status =? 500 then lit "Internal Server Error"
  else if status =? 502 then lit "Bad Gateway" else if status =? 503 then lit "Service Unavailable"
  else if status =? 504 then lit "Gateway Timeout" else lit "Status".

(** The line an entry of the header object is printed as, if any. *)
Definition exit_entry (strip : bool) (kv : str * Value) : headers_t :=
  let '(k, v) := kv in
  let lc := to_ascii_lowercase k in
  if bool_decide (lc ∈ EXIT_SKIP) then []
  else if bool_decide (lc = lit "content-encoding") && strip then []
  else match as_str v with Some s => [(k, s)] | None => [] end.

Definition outer_error (status : Z) (body : bytes) : FronterError :=
  FRelay (lit "Apps Script HTTP " ++ dec_string status ++ lit " (exit-node outer call): " ++ body_txt body).

Definition outer_answer (status : Z) (body : bytes) : res bytes FronterError :=
  if negb (status =? 200) then Err (outer_error status body) else Ok body.

Definition outer_h1 (sid : str) (a : Attempt) (st : RelayState) : res bytes FronterError * RelayState :=
  match a_acquire a with
  | Some e => (Err e, st)
  | None =>
    let st := note_post sid (a_h1 a 0%nat) st in
    match a_h1 a 0%nat with
    | RtErr e _ => (Err e, st)
    | RtOk status hdrs body =>
      match follow 5 (a_h1 a) 1 status hdrs body with
      | RtErr e _ => (Err e, st)
      | RtOk status _ body => (outer_answer status body, st)
      end
    end
  end.

(** [a] is the network's behaviour for the payload that is sent. *)
Definition send_prebuilt_payload_through_relay (a : Attempt) (st : RelayState) : res bytes FronterError * RelayState :=
  match next_script_id (a_now a) (fr st) with
  | (None, f) => (Panic, set_fr f st)
  | (Some sid, f) =>
    let '(r, st) := h2_relay_request sid a (set_fr f st) in
    match r with
    | RtOk status _ body => if is_h2_fronting_refusal_status status then outer_h1 sid a (disable_h2 st) else (outer_answer status body, st)
    | RtErr _ SentNo => outer_h1 sid a st
    | RtErr e SentMaybe => (Err (FNonRetryable e), st)
    end
  end.

Section ExitNode.
Context {B64 : Base64}.
Context (from_slice : bytes -> option Value) (json_error : bytes -> str) (to_vec : Value -> bytes).
Context (decode_gzip decode_brotli decode_zstd : bytes -> option bytes).

(** The map of forwarded headers, [None] when none is left; a later header of the same name
    replaces an earlier one. *)
Definition header_map (allow : bool) (headers : headers_t) : option (list (str * Value)) :=
  match filter_forwarded_headers_with_brotli_zstd headers allow with
  | [] => None
  | filtered => Some (map_of ((fun kv => (fst kv, VString (snd kv))) <$> filtered))
  end.

Definition relay_request (allow : bool) (k method url : str) (headers : headers_t) (body : bytes) (r : bool) : RelayRequest :=
  mkRelayReq k method url (header_map allow headers)
    (if bool_decide (body = []) then None else Some (b64_encode body))
    (if bool_decide (body = []) then None else find_header headers (lit "content-type"))
    r None.

(** [pad] is the random buffer; it is empty when the length drawn is 0. *)
Definition add_random_pad (pad : bytes) (m : list (str * Value)) : list (str * Value) :=
  if bool_decide (pad = []) then m else map_insert (lit "_pad") (VString (b64_encode pad)) m.

Definition payload_value (cfg : ExitConfig) (pad : bytes) (method url : str) (headers : headers_t) (body : bytes) : list (str * Value) :=
  let m := map_of (request_fields (relay_request (allow_brotli_zstd cfg) (auth_key cfg) method url headers body true)) in
  if disable_padding cfg then m else add_random_pad pad m.

Definition build_payload_json (cfg : ExitConfig) (pad : bytes) (method url : str) (headers : headers_t) (body : bytes) : bytes :=
  to_vec (VObject (payload_value cfg pad method url headers body)).

Definition build_exit_node_inner_payload (cfg : ExitConfig) (method url : str) (headers : headers_t) (body : bytes) : bytes :=
  to_vec (VObject (request_fields (relay_request (allow_brotli_zstd cfg) (exit_node_psk cfg) method url headers body false))).

Definition looks_like_exit_node_envelope (b : bytes) : bool :=
  match from_slice b with
  | None => false
  | Some v =>
    bool_decide (is_Some (get (lit "s") v ≫= as_u64)) && bool_decide (is_Some (get (lit "h") v ≫= as_object))
    && bool_decide (is_Some (get (lit "b") v ≫= as_str))
  end.

(** The body to deliver and whether [Content-Encoding] is dropped. *)
Definition try_decode (decode : bytes -> option bytes) (b : bytes) : bytes * bool :=
  match decode b with Some d => (d, true) | None => (b, false) end.

Definition exit_decode_body (allow : bool) (h : option (list (str * Value))) (b : bytes) : bytes * bool :=
  if bool_decide (b = []) then (b, true) else
  match (m ← h; kv ← List.find (fun kv => eq_ignore_ascii_case (fst kv) (lit "content-encoding")) m; header_string_value (snd kv)) with
  | None => (b, true)
  | Some raw_enc =>
    match encoding_tokens raw_enc with
    | [] => (b, true)
    | [t] =>
      if bool_decide (t = lit "gzip") then try_decode decode_gzip b
      else if bool_decide (t = lit "br") && allow then try_decode decode_brotli b
      else if bool_decide (t = lit "zstd") && allow then try_decode decode_zstd b
      else (b, negb allow)
    | _ => (b, negb allow)
    end
  end.

Definition double_wrapped : str :=
  let arrow := [32; 0x2192; 32] in
  lit "exit-node response was double-wrapped " ++ [0x2014]
  ++ lit " at least one relay layer is still running pre-v2.0.2 code that ignores the `raw: true` flag. Redeploy BOTH of these:"
  ++ [10] ++ lit "  1. Apps Script: paste assets/apps_script/Code.gs (or Code.cfw.gs in CFW mode), then Deploy" ++ arrow
  ++ lit "Manage deployments" ++ arrow ++ lit "pencil icon" ++ arrow ++ lit "Version: New version" ++ arrow
  ++ lit "Deploy. Saving without cutting a new version keeps the old code live at /exec."
  ++ [10] ++ lit "  2. Cloudflare Worker (only in CFW mode): paste assets/cloudflare/worker.js, then click " ++ [34] ++ lit "Save and deploy" ++ [34]
  ++ lit " in the dashboard editor " ++ [0x2014; 32; 34] ++ lit "Save" ++ [34] ++ lit " alone only saves the draft."
  ++ [10] ++ lit "Pasting code is not enough on either platform; both require an explicit deploy click.".

(** The bytes parsed as JSON: what follows the first blank line, if there is one. *)
Definition json_part (body : bytes) : bytes := match split_once CRLF2 body with Some (_, rest) => rest | None => body end.

Definition print_exit (status : Z) (lines : headers_t) (body : bytes) : bytes :=
  lit "HTTP/1.1 " ++ dec_string status ++ [32] ++ as_bytes (status_reason status) ++ CRLF ++ (lines ≫= print_header)
  ++ lit "Content-Length: " ++ dec_string (len body) ++ CRLF2 ++ body.

Definition parse_exit_node_response (allow : bool) (body : bytes) : res bytes FronterError :=
  let json_bytes := json_part body in
  match from_slice json_bytes with
  | None => Err (FRelay (lit "exit-node response not valid JSON (" ++ json_error json_bytes ++ lit "): " ++ from_utf8_lossy (take 200 json_bytes)))
  | Some v =>
    match get (lit "e") v ≫= as_str with
    | Some err_msg => Err (FRelay (lit "exit node refused or errored: " ++ err_msg))
    | None =>
      let status := default 502 (wrap 16 <$> (get (lit "s") v ≫= as_u64)) in
      let body_b64 := default [] (get (lit "b") v ≫= as_str) in
      match (if bool_decide (body_b64 = []) then Some [] else b64_decode body_b64) with
      | None => Err (FRelay (lit "exit-node body base64 decode failed: " ++ b64_error body_b64))
      | Some body_bytes =>
        if looks_like_exit_node_envelope body_bytes then Err (FRelay double_wrapped) else
        let h := get (lit "h") v ≫= as_object in
        let '(body_bytes, strip) := exit_decode_body allow h body_bytes in
        Ok (print_exit status (default [] h ≫= exit_entry strip) body_bytes)
      end
    end
  end.

Definition outer_headers : headers_t := [(lit "Content-Type", lit "application/json")].

(** The payload of the outer call, [None] when the payload just built does not parse. *)
Definition outer_payload (cfg : ExitConfig) (pad : bytes) (inner_json : bytes) : option bytes :=
  v ← from_slice (build_payload_json cfg pad (lit "POST") (exit_node_url cfg) outer_headers inner_json);
  Some (to_vec (match v with VObject m => VObject (map_insert (lit "raw") (VBool true) m) | v => v end)).

(** [net] is the network's behaviour by payload. *)
Definition relay_via_exit_node (cfg : ExitConfig) (pad : bytes) (net : bytes -> Attempt) (method url : str) (headers : headers_t)
    (body : bytes) (st : RelayState) : res bytes FronterError * RelayState :=
  let inner_json := build_exit_node_inner_payload cfg method url headers body in
  match outer_payload cfg pad inner_json with
  | None => (Err FJson, st)
  | Some payload =>
    match send_prebuilt_payload_through_relay (net payload) st with
    | (Ok app_body, st) => (parse_exit_node_response (allow_brotli_zstd cfg) app_body, st)
    | (Err e, st) => (Err e, st)
    | (Panic, st) => (Panic, st)
    end
  end.
End ExitNode.

(** ** Objects *)
Lemma str_compare_eq a b : str_compare a b = Eq <-> a = b.
Proof.
  revert b. induction a as [|x a IH]; intros [|y b]; cbn; [done|done|done|].
  destruct (Z.compare_spec x y) as [->|H|H]; [rewrite IH; split; congruence|..]; split; [done|intros [= -> _]; lia|done|intros [= -> _]; lia].
Qed.

Lemma get_key_insert k v m k' : get_key k' (map_insert k v m) = if decide (k = k') then Some v else get_key k' m.
Proof.
  induction m as [|[k0 v0] m IH]; cbn [map_insert get_key]; [done|].
  destruct (str_compare k k0) eqn:E; cbn [get_key]; [|done|].
  - apply str_compare_eq in E as ->. by destruct (decide (k0 = k')).
  - rewrite IH. destruct (decide (k0 = k')) as [->|]; [|done]. destruct (decide (k = k')) as [->|]; [|done].
    assert (str_compare k' k' = Eq) by (by apply str_compare_eq). congruence.
Qed.

(** A field of an object built by insertions is the last one given for its key. *)
Lemma get_key_app {A} k (l l' : list (str * A)) : get_key k (l ++ l') = match get_key k l with Some v => Some v | None => get_key k l' end.
Proof. induction l as [|[k0 v] l IH]; cbn [get_key app]; [done|]. by destruct (decide (k0 = k)). Qed.

Lemma get_key_map_of k fields : get_key k (map_of fields) = get_key k (reverse fields).
Proof.
  unfold map_of. assert (forall m, get_key k (foldl (fun m kv => map_insert (fst kv) (snd kv) m) m fields)
    = match get_key k (reverse fields) with Some v => Some v | None => get_key k m end) as H.
  { induction fields as [|[k0 v] fields IH]; intros m; cbn [foldl fst snd]; [done|]. rewrite IH, get_key_insert, reverse_cons, get_key_app.
    destruct (get_key k (reverse fields)); [done|]. cbn [get_key]. by destruct (decide (k0 = k)). }
  rewrite H. by destruct (get_key k (reverse fields)).
Qed.

(** The fields of a request, found by their keys. *)
Definition request_field (q : RelayRequest) (k : str) : option Value :=
  if decide (k = lit "k") then Some (VString (req_k q)) else if decide (k = lit "m") then Some (VString (req_m q))
  else if decide (k = lit "u") then Some (VString (req_u q)) else if decide (k = lit "h") then VObject <$> req_h q
  else if decide (k = lit "b") then VString <$> req_b q else if decide (k = lit "ct") then VString <$> req_ct q
  else if decide (k = lit "r") then Some (VBool (req_r q)) else if decide (k = lit "raw") then VBool <$> req_raw q else None.

Lemma get_key_opt_field {A} k name (mk : A -> Value) x : get_key k (opt_field name mk x) = if decide (k = lit name) then mk <$> x else None.
Proof. destruct x; cbn; repeat case_decide; congruence. Qed.

Lemma request_fields_get q k : get_key k (request_fields q) = request_field q k /\ get_key k (reverse (request_fields q)) = request_field q k.
Proof.
  assert (forall {A} name (mk : A -> Value) x, reverse (opt_field name mk x) = opt_field name mk x) as Hr by (by intros A name mk []).
  unfold request_fields, request_field. rewrite !reverse_app, !Hr. rewrite !get_key_app, !get_key_opt_field.
  change (reverse [(lit "k", VString (req_k q)); (lit "m", VString (req_m q)); (lit "u", VString (req_u q))])
    with [(lit "u", VString (req_u q)); (lit "m", VString (req_m q)); (lit "k", VString (req_k q))].
  change (reverse [(lit "r", VBool (req_r q))]) with [(lit "r", VBool (req_r q))]. cbn [get_key].
  destruct (decide (lit "k" = k)) as [<-|Hk]; [split; vm_compute; reflexivity|].
  destruct (decide (lit "m" = k)) as [<-|Hm]; [split; vm_compute; reflexivity|].
  destruct (decide (lit "u" = k)) as [<-|Hu]; [split; vm_compute; reflexivity|].
  destruct (decide (lit "r" = k)) as [<-|Hq]; [split; vm_compute; by repeat case_match|].
  rewrite !(decide_False (P := k = lit "k")), !(decide_False (P := k = lit "m")), !(decide_False (P := k = lit "u")), !(decide_False (P := k = lit "r")) by congruence.
  do 4 (case_decide; [subst k; split; vm_compute; repeat case_match; congruence|]). split; by repeat case_decide.
Qed.

Section Payloads.
Context {B64 : Base64} (from_slice : bytes -> option Value) (to_vec : Value -> bytes).

Lemma header_map_get allow headers name :
  (VObject <$> header_map allow headers) ≫= get name
  = VString <$> get_key name (reverse (filter_forwarded_headers_with_brotli_zstd headers allow)).
Proof.
  unfold header_map. destruct (filter_forwarded_headers_with_brotli_zstd headers allow) as [|kv l]; [done|].
  generalize (kv :: l). clear. intros l. cbn [fmap option_fmap option_map mbind option_bind get]. rewrite get_key_map_of, <- fmap_reverse.
  generalize (reverse l). clear. intros l. induction l as [|[k v] l IH]; [done|]. cbn. by destruct (decide (k = name)).
Qed.

Lemma payload_value_get cfg pad method url headers body k : k <> lit "_pad" ->
  get_key k (payload_value cfg pad method url headers body)
  = request_field (relay_request (allow_brotli_zstd cfg) (auth_key cfg) method url headers body true) k.
Proof.
  intros Hk. unfold payload_value, add_random_pad. rewrite <- (proj2 (request_fields_get _ k)), <- get_key_map_of.
  destruct (disable_padding cfg); [done|]. case_bool_decide; [done|]. by rewrite get_key_insert, decide_False by done.
Qed.

(** What is sent for the exit node.  The outer payload is a POST of the deployment
    to the exit node's URL that carries the key of the deployment, asks for the answer as it
    is ([raw]) and has the inner payload as its body, in base64; it has no other fields but
    random padding.  The inner payload carries the exit node's key, the method and the URL,
    the body in base64 with its content type when there is one, and for each header name
    the last header of that name that may be forwarded; it is not padded. *)
Theorem exit_payloads (cfg : ExitConfig) (pad : bytes) (method url : str) (headers : headers_t) (body inner : bytes) (m0 : list (str * Value))
    (Hinner : inner = build_exit_node_inner_payload to_vec cfg method url headers body) (Hnonempty : inner <> [])
    (Hm0 : m0 = payload_value cfg pad (lit "POST") (exit_node_url cfg) outer_headers inner)
    (Hjson : from_slice (to_vec (VObject m0)) = Some (VObject m0)) :
  (exists m, outer_payload from_slice to_vec cfg pad inner = Some (to_vec (VObject m))
   /\ get_key (lit "k") m = Some (VString (auth_key cfg)) /\ get_key (lit "m") m = Some (VString (lit "POST"))
   /\ get_key (lit "u") m = Some (VString (exit_node_url cfg)) /\ get_key (lit "b") m = Some (VString (b64_encode inner))
   /\ get_key (lit "r") m = Some (VBool true) /\ get_key (lit "raw") m = Some (VBool true)
   /\ forall k v, get_key k m = Some v -> k ∈ [lit "k"; lit "m"; lit "u"; lit "h"; lit "b"; lit "ct"; lit "r"; lit "raw"; lit "_pad"])
  /\ exists f, inner = to_vec (VObject f)
   /\ get_key (lit "k") f = Some (VString (exit_node_psk cfg)) /\ get_key (lit "m") f = Some (VString method)
   /\ get_key (lit "u") f = Some (VString url) /\ get_key (lit "r") f = Some (VBool false)
   /\ get_key (lit "b") f = (if bool_decide (body = []) then None else Some (VString (b64_encode body)))
   /\ get_key (lit "ct") f = (if bool_decide (body = []) then None else VString <$> find_header headers (lit "content-type"))
   /\ get_key (lit "raw") f = None /\ get_key (lit "_pad") f = None
   /\ forall name, get_key (lit "h") f ≫= get name
      = VString <$> get_key name (reverse (filter_forwarded_headers_with_brotli_zstd headers (allow_brotli_zstd cfg))).
Proof.
  split.
  - eexists. unfold outer_payload, build_payload_json. rewrite <- Hm0, Hjson. cbn [mbind option_bind]. split; [reflexivity|].
    assert (forall k, k <> lit "_pad" -> k <> lit "raw" -> get_key k (map_insert (lit "raw") (VBool true) m0)
      = request_field (relay_request (allow_brotli_zstd cfg) (auth_key cfg) (lit "POST") (exit_node_url cfg) outer_headers inner true) k) as H.
    { intros k Hp Hr. rewrite get_key_insert, decide_False by done. subst m0. by apply payload_value_get. }
    split_and!; [by rewrite H|by rewrite H|by rewrite H| |by rewrite H|by rewrite get_key_insert, decide_True by done|].
    + rewrite H by done. unfold relay_request. by rewrite !bool_decide_false by done.
    + intros k v Hk. destruct (decide (k = lit "_pad")) as [->|Hp]; [set_solver|]. destruct (decide (k = lit "raw")) as [->|Hr]; [set_solver|].
      rewrite H in Hk by done. unfold request_field in Hk. repeat case_decide; subst; set_solver.
  - exists (request_fields (relay_request (allow_brotli_zstd cfg) (exit_node_psk cfg) method url headers body false)). split; [exact Hinner|].
    rewrite !(fun k => proj1 (request_fields_get (relay_request (allow_brotli_zstd cfg) (exit_node_psk cfg) method url headers body false) k)).
    split_and!; try done; [unfold relay_request; by case_bool_decide|unfold relay_request; by case_bool_decide|]. intros name. exact (header_map_get (allow_brotli_zstd cfg) headers name).
Qed.

End Payloads.

(** ** The reply *)
Section Reply.
Context {B64 : Base64}.
Context (from_slice : bytes -> option Value) (json_error : bytes -> str) (decode_gzip decode_brotli decode_zstd : bytes -> option bytes).

Lemma status_reason_plain status : plain_text (status_reason status) = true.
Proof. unfold status_reason. repeat case_match; vm_compute; reflexivity. Qed.

Definition exit_lines (strip : bool) (h : option (list (str * Value))) : headers_t := default [] h ≫= exit_entry strip.

Lemma exit_entry_in strip kv k s : (k, s) ∈ exit_entry strip kv <->
  kv = (k, VString s) /\ to_ascii_lowercase k ∉ EXIT_SKIP /\ (strip = true -> to_ascii_lowercase k <> lit "content-encoding").
Proof.
  destruct kv as [k0 v]. unfold exit_entry. case_bool_decide as Hs.
  { split; [by intros ?%elem_of_nil|]. by intros ([= -> ->] & H & _). }
  case_bool_decide as He; destruct strip; cbn [andb].
  1: { split; [by intros ?%elem_of_nil|]. intros ([= -> ->] & _ & H). by destruct H. }
  all: destruct v as [| | |s0| |]; cbn [as_str]; rewrite ?list_elem_of_singleton, ?elem_of_nil.
  all: split; [intros H; try done; simplify_eq; done|intros (? & _); by simplify_eq].
Qed.

Lemma exit_lines_absent strip h name : to_ascii_lowercase name ∈ EXIT_SKIP \/ strip = true /\ to_ascii_lowercase name = lit "content-encoding" ->
  Forall (fun kv => eq_ignore_ascii_case (fst kv) name = false) (exit_lines strip h).
Proof.
  intros Hn. apply Forall_forall. intros [k s] (kv & H & _)%list_elem_of_bind. apply exit_entry_in in H as (_ & H1 & H2).
  unfold eq_ignore_ascii_case. apply bool_decide_eq_false. cbn [fst]. intros E. destruct Hn as [Hn|[Hs Hn]]; [congruence|]. by apply H2; [|congruence].
Qed.

Lemma exit_lines_clean h strip : Forall clean_header (exit_lines false h) -> Forall clean_header (exit_lines strip h).
Proof.
  rewrite !Forall_forall. intros H [k s] (kv & Hk & Hin)%list_elem_of_bind. apply H, list_elem_of_bind. exists kv. split; [|done].
  apply exit_entry_in in Hk as (-> & H1 & _). by apply exit_entry_in.
Qed.

(** The reply a browser gets from the exit node.  When the deployment returns the
    exit node's envelope, with or without an HTTP head in front of it, and the envelope has no
    error, its header strings have no line breaks and its body is not itself an envelope, then
    the reply has the envelope's status, taken modulo 2^16, its string headers in order less
    the hop-by-hop and framing ones, one Content-Length and the envelope's body; gzip, and
    brotli or zstd when they are allowed, are undone where that is possible, and
    Content-Encoding is kept only where the body is passed on as it came. *)
Theorem exit_node_reply (allow : bool) (input b64 : bytes) (v : Value) (status : Z) (raw : bytes)
    (Hjson : from_slice (json_part input) = Some v) (Herr : get (lit "e") v ≫= as_str = None)
    (Hs : get (lit "s") v ≫= as_u64 = Some status) (Hb : get (lit "b") v ≫= as_str = Some b64)
    (Hraw : (if bool_decide (b64 = []) then Some [] else b64_decode b64) = Some raw)
    (Hwrap : looks_like_exit_node_envelope from_slice raw = false)
    (Hclean : Forall clean_header (exit_lines false (get (lit "h") v ≫= as_object))) :
  let h := get (lit "h") v ≫= as_object in
  let '(body, strip) := exit_decode_body decode_gzip decode_brotli decode_zstd allow h raw in
  (exists out, parse_exit_node_response from_slice json_error decode_gzip decode_brotli decode_zstd allow input = Ok out
   /\ split_response out = Some (wrap 16 status, exit_lines strip h ++ [(lit "Content-Length", dec_string (len body))], body))
  /\ find_header (exit_lines strip h) (lit "content-length") = None /\ find_header (exit_lines strip h) (lit "transfer-encoding") = None
  /\ (strip = true -> find_header (exit_lines strip h) (lit "content-encoding") = None)
  /\ (strip = false -> body = raw).
Proof.
  cbv zeta. destruct (exit_decode_body _ _ _ _ _ _) as [body strip] eqn:Ed. split_and!.
  - eexists. unfold parse_exit_node_response. rewrite Hjson, Herr, Hs, Hb. cbn [default fmap option_fmap option_map]. unfold id. rewrite Hraw, Hwrap, Ed.
    split; [reflexivity|]. pose proof (wrap_range 16 status ltac:(lia)).
    apply (printed_reply (wrap 16 status) (status_reason (wrap 16 status)) (exit_lines strip _)); [lia|apply status_reason_plain|by apply exit_lines_clean].
  - apply find_header_absent, exit_lines_absent. left. by vm_compute; set_solver.
  - apply find_header_absent, exit_lines_absent. left. by vm_compute; set_solver.
  - intros ->. apply find_header_absent, exit_lines_absent. by right.
  - intros ->. unfold exit_decode_body, try_decode in Ed. repeat case_match; congruence.
Qed.

End Reply.

(** ** How often the outer call is executed *)
Lemma outer_h1_one sid a st : one_post sid st (snd (outer_h1 sid a st)).
Proof.
  unfold outer_h1. destruct (a_acquire a); [by left|]. pose proof (note_post_one sid (a_h1 a 0%nat) st) as H.
  destruct (a_h1 a 0%nat) as [status hdrs body|e sent]; [|done]. by destruct (follow 5 (a_h1 a) 1 status hdrs body).
Qed.

(** The outer call of the exit node.  As long as no redirect is refused with a 421,
    the call is executed by at most one deployment, once; when it fails over HTTP/2 after it
    may have been sent, the error says so, and no fallback follows it; and an error that
    allows the fallback leaves the request unexecuted unless it was sent over HTTP/1.1 or
    was answered. *)
Theorem exit_call_posts (a : Attempt) (st : RelayState) (Hlate : no_late_refusal a) :
  let '(r, st') := send_prebuilt_payload_through_relay a st in
  (exists sid, one_post sid st st')
  /\ (forall e, h2_disabled st = false -> a_ready a = true -> a_h2 a 0%nat = RtErr e SentMaybe ->
        match r with Err e => is_retryable e = false | Ok _ => False | Panic => True end)
  /\ (forall e, r = Err e -> is_retryable e = true -> posts st' = posts st \/ (exists s h b, a_h2 a 0%nat = RtOk s h b) \/ executed (a_h1 a 0%nat) = true).
Proof.
  unfold send_prebuilt_payload_through_relay. destruct (next_script_id (a_now a) (fr st)) as [[sid|] f]; [|split_and!; [exists []; by left|done|done]].
  unfold h2_relay_request. cbn [h2_disabled set_fr].
  assert (forall st0, posts st0 = posts st -> (exists sid', one_post sid' st (snd (outer_h1 sid a st0)))
    /\ (posts (snd (outer_h1 sid a st0)) = posts st \/ executed (a_h1 a 0%nat) = true)) as Hh1.
  { intros st0 E0. pose proof (outer_h1_one sid a st0) as H. unfold one_post in *. rewrite E0 in H. split; [by exists sid|].
    destruct (executed (a_h1 a 0%nat)) eqn:Ex; [by right|left]. unfold outer_h1, note_post. rewrite Ex. repeat case_match; done. }
  destruct (h2_disabled st || negb (a_ready a)) eqn:Eh.
  { destruct (outer_h1 sid a (set_fr f st)) as [r st'] eqn:E. destruct (Hh1 (set_fr f st) eq_refl) as [H1 H2]. rewrite E in H1, H2.
    split_and!; [done| |intros _ _ _; tauto]. intros e Hd Hr. by rewrite Hd, Hr in Eh. }
  destruct (a_h2 a 0%nat) as [status hdrs body|e sent] eqn:E0.
  - unfold note_post, executed, is_h2_fronting_refusal_status. destruct (Z.eqb_spec status 421) as [->|Hne]; cbn [negb].
    + rewrite follow_final by done. change (421 =? 421) with true. cbv iota. destruct (outer_h1 sid a (disable_h2 (set_fr f st))) as [r st'] eqn:E.
      destruct (Hh1 (disable_h2 (set_fr f st)) eq_refl) as [H1 _]. rewrite E in H1.
      split_and!; [done|done|]. intros _ _ _. right. left. eauto.
    + destruct (follow 5 (a_h2 a) 1 status hdrs body) as [s' h' b'|e' sent'] eqn:Ef.
      * destruct (Z.eqb_spec s' 421) as [->|_]; [by destruct (Hlate _ _ _ _ _ _ E0 Hne Ef)|].
        split_and!; [exists sid; by right|done|]. intros _ _ _. right. left. eauto.
      * split_and!; [exists sid; by right|done|]. by intros _ [= <-].
  - destruct sent; unfold note_post, executed.
    + destruct (outer_h1 sid a (set_fr f st)) as [r st'] eqn:E. destruct (Hh1 (set_fr f st) eq_refl) as [H1 H2]. rewrite E in H1, H2.
      split_and!; [done|done|intros _ _ _; tauto].
    + split_and!; [exists sid; by right|done|]. by intros _ [= <-].
Qed.

(** ** Examples *)
Definition exit_cfg : ExitConfig := mkExitCfg (lit "key") (lit "https://exit.example/") (lit "psk") false false.

(** A codec for the examples, which tells objects apart by their fields [s]. *)
Definition exit_envelope : Value :=
  VObject [(lit "b", VString (lit "page")); (lit "h", VObject [(lit "content-length", VString (lit "9")); (lit "x-a", VString (lit "1"))]); (lit "s", VNumber (lit "404"))].

Lemma exit_payloads_witness :
  let to_vec := fun v => match v with VObject _ => [1] | _ => [] end in
  let inner := build_exit_node_inner_payload (B64 := toy_base64) to_vec exit_cfg (lit "POST") (lit "https://x.com/") [(lit "A", lit "1"); (lit "A", lit "2"); (lit "Host", lit "x.com")] [7] in
  let m0 := payload_value (B64 := toy_base64) exit_cfg [9] (lit "POST") (lit "https://exit.example/") outer_headers inner in
  let from_slice := fun _ => Some (VObject m0) in
  exists m, outer_payload (B64 := toy_base64) from_slice to_vec exit_cfg [9] inner = Some (to_vec (VObject m)) /\ get_key (lit "raw") m = Some (VBool true).
Proof.
  intros to_vec inner m0 from_slice.
  destruct (exit_payloads (B64 := toy_base64) from_slice to_vec exit_cfg [9] (lit "POST") (lit "https://x.com/")
    [(lit "A", lit "1"); (lit "A", lit "2"); (lit "Host", lit "x.com")] [7] inner m0) as [(m & H1 & _ & _ & _ & _ & _ & H2 & _) _].
  - reflexivity.
  - discriminate.
  - reflexivity.
  - reflexivity.
  - exists m. exact (conj H1 H2).
Defined.

Lemma exit_node_reply_witness :
  let from_slice := fun b => if bool_decide (b = lit "{}") then Some exit_envelope else None in
  exists out, parse_exit_node_response (B64 := toy_base64) from_slice (fun _ => []) (fun _ => None) (fun _ => None) (fun _ => None) false
      (lit "HTTP/1.1 200 OK" ++ CRLF2 ++ lit "{}") = Ok out
    /\ split_response out = Some (404, [(lit "x-a", lit "1"); (lit "Content-Length", lit "4")], lit "page").
Proof.
  intros from_slice.
  refine (proj1 (exit_node_reply (B64 := toy_base64) from_slice (fun _ => []) (fun _ => None) (fun _ => None) (fun _ => None) false
    (lit "HTTP/1.1 200 OK" ++ CRLF2 ++ lit "{}") (lit "page") exit_envelope 404 (lit "page") _ _ _ _ _ _ _)).
  1-6: vm_compute; reflexivity.
  assert (forall s, forallb (fun c => between 0 c 127) s && bool_decide (10 ∉ s) && bool_decide (trim s = s) = true -> clean_str s) as H.
  { intros s [[H1 H2]%andb_true_iff H3]%andb_true_iff. constructor; [by apply all_ascii|by apply bool_decide_eq_true in H2|].
    by apply bool_decide_eq_true in H3. }
  apply Forall_singleton. split; [apply H; vm_compute; reflexivity|]. split; [|apply H; vm_compute; reflexivity].
  apply (bool_decide_eq_true_1 _). vm_compute. reflexivity.
Defined.

Lemma exit_call_posts_witness :
  let a := with_h2 (fun _ => RtErr FTimeout SentMaybe) in
  let '(r, st') := send_prebuilt_payload_through_relay a st0 in exists sid, one_post sid st0 st'.
Proof.
  pose proof (exit_call_posts (with_h2 (fun _ => RtErr FTimeout SentMaybe)) st0) as H. cbv zeta.
  destruct (send_prebuilt_payload_through_relay _ _) as [r st']. destruct H as [H _]; [intros ? ? ? ? ? ? [=]|exact H].
Defined.

(** A request sent through the exit node can be executed twice.  The fallback to the
    direct relay is kept from repeating a request only after a failure over HTTP/2.  (1) When
    the outer call fails over HTTP/1.1 after it was sent, and (2) when it is answered with an
    envelope that is refused, as one that was wrapped twice, the error allows the fallback:
    the POST, executed through the exit node by deployment A, is executed again by B. *)
Theorem exit_post_executed_twice :
  let run := fun a answer =>
    let '(r, st) := relay_via_exit_node (B64 := toy_base64) (fun b => if bool_decide (b = answer) then Some exit_envelope else Some (VObject []))
      (fun _ => []) (fun _ => [1]) (fun _ => None) (fun _ => None) (fun _ => None) exit_cfg [] (fun _ => a) (lit "POST") (lit "https://x.com/") [] [7] st0 in
    match r with
    | Err e => if is_retryable e then posts (snd (do_relay_with_retry (fun b => Ok b) 1 (lit "POST") (net_of quiet) st)) else posts st
    | _ => posts st
    end in
  run (with_h1 (fun _ => RtErr FTimeout SentMaybe)) [] = [lit "A"; lit "B"]
  /\ run (with_h1 (fun _ => RtOk 200 [] (lit "page"))) (lit "page") = [lit "A"; lit "B"].
Proof. split; vm_compute; reflexivity. Qed.
