(* ===== verification/TunnelCall.v ===== *)
(** * src/domain_fronter.rs: tunnel requests through a deployment

    [tunnel_request] and [tunnel_batch_request_to]: the payload of a tunnel operation or of
    a batch, its way through a pooled HTTP/1.1 connection, and what is made of the answer
    ([finalize_tunnel_response], [finalize_batch_response]), with the capabilities that the
    tunnel nodes announce in it and that later batches rely on.

    A payload is the record its JSON object holds.  serde_json, zstd and base64 are
    parameters; the network is an [Attempt] of [RelayCall], of which the HTTP/1.1 half is
    used. *)

From stdpp Require Import prelude gmap.
From S2P Require Import Prelude RustStr NodeProto NodeBatch HttpText HttpRead RelayJson Deployments RelayCall.
#[local] Open Scope Z_scope.

(** ** Payloads *)

(** The object of [build_tunnel_payload]; the padding is left out. *)
Definition build_tunnel_payload (auth_key op : str) (host : option str) (port : option Z) (sid data : option str) : TunnelRequest :=
  mkReq auth_key op host port sid data.

(** serde_json and zstd at the client. *)
Class TunnelCodec := {
  c_ops_json : list BatchOp -> bytes;
  c_zstd_encode : bytes -> option bytes;
  c_zstd_decode : bytes -> option bytes;
  c_tunnel_response : str -> option TunnelResponse;
  c_results : bytes -> option (list TunnelResponse)
}.

Record BatchTunnelResponse := mkBatchResp { bt_r : list TunnelResponse; bt_e : option str; bt_zr : option str; bt_zc : option Z }.

(** The fronter with the capabilities announced so far. *)
Record TunnelState := mkTunnelSt {
  t_relay : RelayState;
  zstd_enabled : bool;
  script_tunnel_capabilities : gmap str Z
}.

Definition set_relay (r : RelayState) (st : TunnelState) : TunnelState := mkTunnelSt r (zstd_enabled st) (script_tunnel_capabilities st).

Definition deployment_supports_batch_replay (script_id : str) (st : TunnelState) : bool :=
  match script_tunnel_capabilities st !! script_id with
  | Some caps => negb (Z.land caps (Z.shiftl 1 1) =? 0)
  | None => false
  end.

(** The text up to its first opening and last closing brace, when it does not start with
    one; [what] names the response in the errors. *)
Definition json_object (what : string) (text : str) : res str FronterError :=
  match text with
  | 123 :: _ => Ok text
  | _ =>
    match split_once [123] text with
    | None => bad_excerpt ("no json in " ++ what ++ " response: ")%string text
    | Some (before, _) =>
      match rsplit_once 125 text with
      | None => Err (FBadResponse (lit ("no json end in " ++ what ++ " response")))
      | Some (upto, _) =>
        if (length upto <? length before)%nat then Err (FBadResponse (lit "no valid json object in: " ++ take 200 text))
        else Ok (take (S (length upto) - length before) (drop (length before) text))
      end
    end
  end.

(** The error of a status other than 200, and the deployment it may blacklist. *)
Definition tunnel_http_error (what : string) (status : Z) (body : bytes) : FronterError :=
  FRelay (lit (what ++ " HTTP ")%string ++ dec_string status ++ lit ": " ++ body_txt body).

Section TunnelCall.
Context {B64 : Base64} {TC : TunnelCodec} (c_batch_response : str -> option BatchTunnelResponse).

Definition batch_request (auth_key : str) (ops : list BatchOp) (st : TunnelState) : BatchRequest :=
  if zstd_enabled st then
    match c_zstd_encode (c_ops_json ops) with
    | Some compressed => mkBatch auth_key [] (Some (b64_encode compressed)) (Some 3)
    | None => mkBatch auth_key ops None (Some 3)
    end
  else mkBatch auth_key ops None (Some 3).

Definition finalize_tunnel_response (now : Z) (script_id : str) (status : Z) (body : bytes) (st : TunnelState)
    : res TunnelResponse FronterError * TunnelState :=
  if negb (status =? 200)
  then (Err (tunnel_http_error "tunnel" status body),
        set_relay (punish (should_blacklist status (body_txt body)) now script_id (t_relay st)) st)
  else
    (match from_utf8 body with
     | None => Err (FBadResponse (lit "non-utf8 tunnel response"))
     | Some text =>
       let? json_str := json_object "tunnel" (trim text) in
       match c_tunnel_response json_str with Some r => Ok r | None => Err FJson end
     end, st).

(** The compressed results, where there are any and they decode. *)
Definition expand_results (resp : BatchTunnelResponse) : BatchTunnelResponse :=
  match bt_zr resp with
  | None => resp
  | Some zr =>
    mkBatchResp (default (bt_r resp) (compressed ← b64_decode zr; decompressed ← c_zstd_decode compressed; c_results decompressed))
      (bt_e resp) None (bt_zc resp)
  end.

(** What the client learns from an answer. *)
Definition note_capabilities (script_id : str) (zc : option Z) (st : TunnelState) : TunnelState :=
  match zc with
  | None => st
  | Some caps =>
    mkTunnelSt (t_relay st) (if negb (Z.land caps 1 =? 0) then true else zstd_enabled st)
      (<[script_id := caps]> (script_tunnel_capabilities st))
  end.

Definition finalize_batch_response (now : Z) (script_id : str) (status : Z) (body : bytes) (st : TunnelState)
    : res BatchTunnelResponse FronterError * TunnelState :=
  if negb (status =? 200)
  then (Err (tunnel_http_error "batch tunnel" status body),
        set_relay (punish (should_blacklist status (body_txt body)) now script_id (t_relay st)) st)
  else
    match from_utf8 body with
    | None => (Err (FBadResponse (lit "non-utf8 batch response")), st)
    | Some text =>
      match json_object "batch" (trim text) with
      | Err e => (Err e, st)
      | Panic => (Panic, st)
      | Ok json_str =>
        match c_batch_response json_str with
        | None => (Err FJson, st)
        | Some resp => (Ok (expand_results resp), note_capabilities script_id (bt_zc resp) st)
        end
      end
    end.

(** The exchange on a pooled connection, redirects included. *)
Definition h1_exchange (script_id : str) (a : Attempt) (st : TunnelState) : res (Z * bytes) FronterError * TunnelState :=
  match a_acquire a with
  | Some e => (Err e, st)
  | None =>
    let st := set_relay (note_post script_id (a_h1 a 0%nat) (t_relay st)) st in
    match a_h1 a 0%nat with
    | RtErr e _ => (Err e, st)
    | RtOk status hdrs body =>
      match follow 5 (a_h1 a) 1 status hdrs body with
      | RtErr e _ => (Err e, st)
      | RtOk status _ body => (Ok (status, body), st)
      end
    end
  end.

(** [net] is the network's behaviour by payload. *)
Definition tunnel_request (auth_key op : str) (host : option str) (port : option Z) (sid data : option str) (net : TunnelRequest -> Attempt)
    (st : TunnelState) : res TunnelResponse FronterError * TunnelState :=
  let payload := build_tunnel_payload auth_key op host port sid data in
  let a := net payload in
  match next_script_id (a_now a) (fr (t_relay st)) with
  | (None, f) => (Panic, set_relay (set_fr f (t_relay st)) st)
  | (Some script_id, f) =>
    match h1_exchange script_id a (set_relay (set_fr f (t_relay st)) st) with
    | (Ok (status, body), st) => finalize_tunnel_response (a_now a) script_id status body st
    | (Err e, st) => (Err e, st)
    | (Panic, st) => (Panic, st)
    end
  end.

(** [latency] is the time from the start to the parsed answer, recorded on success. *)
Definition tunnel_batch_request_to (auth_key script_id : str) (ops : list BatchOp) (latency : Z) (net : BatchRequest -> Attempt)
    (st : TunnelState) : res BatchTunnelResponse FronterError * TunnelState :=
  let a := net (batch_request auth_key ops st) in
  match h1_exchange script_id a st with
  | (Err e, st) => (Err e, st)
  | (Panic, st) => (Panic, st)
  | (Ok (status, body), st) =>
    match finalize_batch_response (a_now a) script_id status body st with
    | (Ok resp, st) =>
      (Ok resp, set_relay (set_fr (record_batch_latency (a_now a) script_id latency (fr (t_relay st))) (t_relay st)) st)
    | r => r
    end
  end.

Definition tunnel_batch_request (auth_key : str) (now : Z) (ops : list BatchOp) (latency : Z) (net : BatchRequest -> Attempt)
    (st : TunnelState) : res BatchTunnelResponse FronterError * TunnelState :=
  match next_script_id now (fr (t_relay st)) with
  | (None, f) => (Panic, set_relay (set_fr f (t_relay st)) st)
  | (Some script_id, f) => tunnel_batch_request_to auth_key script_id ops latency net (set_relay (set_fr f (t_relay st)) st)
  end.
End TunnelCall.

(** ** Capabilities *)
Section Exchange.
Context {B64 : Base64} {TC : TunnelCodec} (c_batch_response : str -> option BatchTunnelResponse).

Record Call := mkCall { c_script : str; c_ops : list BatchOp; c_latency : Z; c_net : BatchRequest -> Attempt }.

(** A sequence of batches, with the capabilities announced, the latest first. *)
Fixpoint run_calls (auth_key : str) (calls : list Call) (st : TunnelState) (log : list (str * Z)) : TunnelState * list (str * Z) :=
  match calls with
  | [] => (st, log)
  | c :: calls =>
    let '(r, st) := tunnel_batch_request_to c_batch_response auth_key (c_script c) (c_ops c) (c_latency c) (c_net c) st in
    let log := match r with Ok resp => match bt_zc resp with Some zc => (c_script c, zc) :: log | None => log end | _ => log end in
    run_calls auth_key calls st log
  end.

Definition caps_match (st : TunnelState) (log : list (str * Z)) : Prop :=
  zstd_enabled st = existsb (fun x => negb (Z.land (snd x) 1 =? 0)) log
  /\ forall sid, script_tunnel_capabilities st !! sid = get_key sid log.

Lemma note_capabilities_match sid zc st log : caps_match st log ->
  caps_match (note_capabilities sid zc st) (match zc with Some c => (sid, c) :: log | None => log end).
Proof.
  intros [Hz Hc]. destruct zc as [c|]; [|done]. split; cbn [note_capabilities zstd_enabled existsb snd script_tunnel_capabilities].
  - rewrite <- Hz. by destruct (negb (Z.land c 1 =? 0)).
  - intros sid'. cbn [get_key]. rewrite lookup_insert. case_decide; [done|apply Hc].
Qed.

Lemma batch_call_match auth c st log r st' : caps_match st log ->
  tunnel_batch_request_to c_batch_response auth (c_script c) (c_ops c) (c_latency c) (c_net c) st = (r, st') ->
  caps_match st' (match r with Ok resp => match bt_zc resp with Some zc => (c_script c, zc) :: log | None => log end | _ => log end).
Proof.
  intros Hm. unfold tunnel_batch_request_to, h1_exchange. set (a := c_net c _). destruct (a_acquire a); [by intros [= <- <-]|].
  destruct (a_h1 a 0%nat) as [status hdrs body|e s]; [|by intros [= <- <-]].
  destruct (follow 5 (a_h1 a) 1 status hdrs body) as [s' h' b'|e' sent']; [|by intros [= <- <-]].
  unfold finalize_batch_response. destruct (negb (s' =? 200)); [by intros [= <- <-]|]. destruct (from_utf8 b') as [text|]; [|by intros [= <- <-]].
  destruct (json_object "batch" (trim text)) as [js|e|]; [|by intros [= <- <-]..].
  destruct (c_batch_response js) as [resp|]; [|by intros [= <- <-]]. intros [= <- <-].
  assert (bt_zc (expand_results resp) = bt_zc resp) as -> by (unfold expand_results; by destruct (bt_zr resp)).
  exact (note_capabilities_match (c_script c) (bt_zc resp) (set_relay _ st) log Hm).
Qed.

(** The client relies on what the nodes announced.  After any batches to any
    deployments, over any network, compressed batches are sent exactly when some answer
    announced zstd, and a deployment is taken to answer retries exactly when the last
    announcement that came from that deployment says so. *)
Theorem capabilities_announced (auth_key : str) (calls : list Call) (r : RelayState) :
  let '(st, log) := run_calls auth_key calls (mkTunnelSt r false ∅) [] in
  zstd_enabled st = existsb (fun x => negb (Z.land (snd x) 1 =? 0)) log
  /\ forall sid, deployment_supports_batch_replay sid st = match get_key sid log with Some caps => negb (Z.land caps 2 =? 0) | None => false end.
Proof.
  assert (forall st log, caps_match st log -> let '(st', log') := run_calls auth_key calls st log in caps_match st' log') as H.
  { induction calls as [|c calls IH]; intros st log Hm; [done|]. cbn [run_calls].
    destruct (tunnel_batch_request_to c_batch_response auth_key (c_script c) (c_ops c) (c_latency c) (c_net c) st) as [r0 st0] eqn:E.
    apply IH. by eapply batch_call_match. }
  specialize (H (mkTunnelSt r false ∅) [] ltac:(split; done)). destruct (run_calls _ _ _ _) as [st log].
  destruct H as [Hz Hc]. split; [done|]. intros sid. unfold deployment_supports_batch_replay. by rewrite Hc.
Qed.
End Exchange.

(** ** Examples *)
Definition toy_results : list TunnelResponse := [mkResp (Some (lit "s")) None None (Some false) None None (Some 0)].

#[local] Instance toy_tunnel_codec : TunnelCodec := {|
  c_ops_json _ := [1]; c_zstd_encode b := Some (2 :: b); c_zstd_decode _ := Some [3]; c_tunnel_response _ := None;
  c_results _ := Some toy_results |}.
Definition toy_batch_response (text : str) : option BatchTunnelResponse :=
  if bool_decide (text = lit "{r}") then Some (mkBatchResp toy_results None None (Some 3)) else Some (mkBatchResp [] None (Some [4; 3]) (Some 3)).

(** Answers the client does not survive.  A page of more than 200 bytes in a script
    other than Latin, without a brace, stops the task of the batch: the excerpt put in the
    error is cut in the middle of a character.  And compressed results that do not decode
    are taken for a successful answer without results, so that every operation of the batch
    is reported as missing and no retry is tried. *)
Theorem batch_answer_faults :
  fst (finalize_batch_response (B64 := toy_base64) toy_batch_response 0 (lit "A") 200 (lit "x" ++ mjoin (repeat (as_bytes [0x062E]) 100))
    (mkTunnelSt st0 true ∅)) = Panic
  /\ fst (finalize_batch_response (B64 := {| b64_encode b := b; b64_decode _ := None; b64_error _ := [] |}) toy_batch_response 0 (lit "A") 200 (lit "{zr}")
    (mkTunnelSt st0 true ∅)) = Ok (mkBatchResp [] None None (Some 3)).
Proof. split; vm_compute; reflexivity. Qed.
