(* ===== verification/ConnPool.v ===== *)
(** * src/domain_fronter.rs: the pooled connections and their host

    The pool of HTTP/1.1 connections ([acquire], [release], [warm], [run_pool_refill]), the
    one HTTP/2 connection ([ensure_h2], [poison_h2_if_gen],
    [sticky_disable_h2_for_fronting_refusal]) and the heartbeat that replaces the address
    they are opened against ([run_ip_health]), as steps on shared state.

    A step is what one task does under one lock; opening a connection takes time, so the
    address it used is the one of an earlier moment.  An address is the identity of the
    [Arc] in [connect_host], a number given out once; a connection is a number too.
    Instants are nanoseconds.  Sockets, TLS and HTTP/2 are outside: the outcome of an open
    is an argument. *)

From stdpp Require Import prelude gmap.
From S2P Require Import Prelude RustStr HttpText RelayJson Deployments.
#[local] Open Scope Z_scope.

Definition POOL_TTL : Z := 60 * SEC.
Definition POOL_MIN : nat := 8.
Definition POOL_MAX : nat := 80.
Definition MIN_REMAINING : Z := 20 * SEC.
Definition H2_CONN_TTL : Z := 540 * SEC.
Definition H2_OPEN_FAILURE_BACKOFF : Z := 15 * SEC.

Record PoolEntry := mkPool { pe_conn : nat; pe_created : Z; pe_host : nat }.

Record H2Cell := mkCell { h2_conn : nat; h2_created : Z; h2_gen : Z; h2_dead : bool; h2_host : nat }.

(** How far a change of address has come: stored, then the pool cleared, then the cell. *)
Inductive Swap := SwapIdle | SwapStored | SwapPooled.

Record Conns := mkConns {
  connect_host : nat;
  pool : list PoolEntry;
  h2_cell : option H2Cell;
  h2_off : bool;                       (** [h2_disabled] *)
  h2_open_failed_at : option Z;
  h2_open_lock : option nat;           (** held by a task that opens against this address *)
  h2_generation : Z;
  swap : Swap;
  next_host : nat;
  next_conn : nat
}.

Definition conns_new (force_http1 : bool) : Conns := mkConns 0 [] None force_http1 None None 0 SwapIdle 1 0.

Definition set_pool (p : list PoolEntry) (c : Conns) : Conns :=
  mkConns (connect_host c) p (h2_cell c) (h2_off c) (h2_open_failed_at c) (h2_open_lock c) (h2_generation c) (swap c) (next_host c) (next_conn c).
Definition set_cell (x : option H2Cell) (c : Conns) : Conns :=
  mkConns (connect_host c) (pool c) x (h2_off c) (h2_open_failed_at c) (h2_open_lock c) (h2_generation c) (swap c) (next_host c) (next_conn c).
Definition set_off (c : Conns) : Conns :=
  mkConns (connect_host c) (pool c) (h2_cell c) true (h2_open_failed_at c) (h2_open_lock c) (h2_generation c) (swap c) (next_host c) (next_conn c).
Definition set_failed (t : option Z) (c : Conns) : Conns :=
  mkConns (connect_host c) (pool c) (h2_cell c) (h2_off c) t (h2_open_lock c) (h2_generation c) (swap c) (next_host c) (next_conn c).
Definition set_lock (l : option nat) (c : Conns) : Conns :=
  mkConns (connect_host c) (pool c) (h2_cell c) (h2_off c) (h2_open_failed_at c) l (h2_generation c) (swap c) (next_host c) (next_conn c).
Definition set_gen (g : Z) (c : Conns) : Conns :=
  mkConns (connect_host c) (pool c) (h2_cell c) (h2_off c) (h2_open_failed_at c) (h2_open_lock c) g (swap c) (next_host c) (next_conn c).
Definition fresh_conn (c : Conns) : nat * Conns :=
  (next_conn c,
   mkConns (connect_host c) (pool c) (h2_cell c) (h2_off c) (h2_open_failed_at c) (h2_open_lock c) (h2_generation c) (swap c) (next_host c) (S (next_conn c))).

(** ** The pool *)
Definition live (now : Z) (c : Conns) (e : PoolEntry) : bool := (now - pe_created e <? POOL_TTL) && (pe_host e =? connect_host c)%nat.

(** The position of the entry with the least age, the first of them. *)
Fixpoint freshest (now : Z) (p : list PoolEntry) : option (nat * Z) :=
  match p with
  | [] => None
  | e :: p =>
    let age := now - pe_created e in
    match freshest now p with
    | Some (i, a) => if a <? age then Some (S i, a) else Some (0%nat, age)
    | None => Some (0%nat, age)
    end
  end.

(** [Vec::swap_remove]: the last element takes the place of the removed one. *)
Definition swap_remove {A} (i : nat) (l : list A) : list A :=
  match last l with
  | Some x => removelast (<[i := x]> l)
  | None => l
  end.

(** The part of [acquire] under the lock of the pool. *)
Definition acquire_pooled (now : Z) (c : Conns) : option PoolEntry * Conns :=
  let p := List.filter (live now c) (pool c) in
  match freshest now p with
  | Some (i, _) => (p !! i, set_pool (swap_remove i p) c)
  | None => (None, set_pool p c)
  end.

(** The rest of [acquire], with the addresses the two opens used, if they succeed: the
    address of the connection handed out. *)
Definition acquire_opened (open1 open2 : option nat) (current : nat) : option nat :=
  match open1 with
  | None => None
  | Some h => if (h =? current)%nat then Some h else open2
  end.

(** The push shared by [release], [warm] and [run_pool_refill]. *)
Definition push_entry (e : PoolEntry) (c : Conns) : Conns :=
  if negb (pe_host e =? connect_host c)%nat then c
  else if (length (pool c) <? POOL_MAX)%nat then set_pool (pool c ++ [e]) c else c.

Definition release (now : Z) (e : PoolEntry) (c : Conns) : Conns := if POOL_TTL <=? now - pe_created e then c else push_entry e c.

(** The entry of [warm]'s [i]-th connection is aged by [8 * i] seconds. *)
Definition warm_one (now : Z) (i : nat) (host : nat) (c : Conns) : Conns :=
  let '(conn, c) := fresh_conn c in push_entry (mkPool conn (now - 8 * Z.of_nat i * SEC) host) c.

Definition evict_expired (now : Z) (c : Conns) : Conns := set_pool (List.filter (fun e => now - pe_created e <? POOL_TTL) (pool c)) c.

Definition healthy (now : Z) (p : list PoolEntry) : nat := length (List.filter (fun e => now - pe_created e + MIN_REMAINING <? POOL_TTL) p).

Definition refill_push (now : Z) (host : nat) (c : Conns) : Conns := let '(conn, c) := fresh_conn c in push_entry (mkPool conn now host) c.

(** ** HTTP/2 *)
Definition cell_live (now : Z) (c : Conns) (x : H2Cell) : bool :=
  (now - h2_created x <? H2_CONN_TTL) && negb (h2_dead x) && (h2_host x =? connect_host c)%nat.

Inductive Ensured := EnsNone | EnsConn (conn : nat) (gen : Z) | EnsOpening.

(** The look at the cell that [ensure_h2] starts with. *)
Definition cached_h2 (now : Z) (c : Conns) : Ensured :=
  match h2_cell c with
  | Some x => if cell_live now c x then EnsConn (h2_conn x) (h2_gen x) else EnsNone
  | None => EnsNone
  end.

Definition ensure_h2_fast (now : Z) (c : Conns) : Ensured := if h2_off c then EnsNone else cached_h2 now c.

(** After a look that found nothing: the pause after a failed open, the lock, which only
    one task gets, and the second look; [EnsOpening] when the handshake follows, against
    the address of that moment. *)
Definition ensure_h2_lock (now : Z) (c : Conns) : Ensured * Conns :=
  if match h2_open_failed_at c with Some t => now - t <? H2_OPEN_FAILURE_BACKOFF | None => false end then (EnsNone, c) else
  match h2_open_lock c with
  | Some _ => (EnsNone, c)
  | None =>
    match cached_h2 now c with
    | EnsConn conn gen => (EnsConn conn gen, c)
    | _ => (EnsOpening, set_lock (Some (connect_host c)) c)
    end
  end.

Inductive OpenH2 := OpenOk | OpenAlpnRefused | OpenFailed.

(** [ensure_h2] from the outcome of the handshake on; the guard of the lock is dropped. *)
Definition ensure_h2_finish (now : Z) (outcome : OpenH2) (c : Conns) : Ensured * Conns :=
  match h2_open_lock c with
  | None => (EnsNone, c)
  | Some host_used =>
    let c := set_lock None c in
    match outcome with
    | OpenAlpnRefused => (EnsNone, set_cell None (set_off c))
    | OpenFailed => (EnsNone, set_cell None (set_failed (Some now) c))
    | OpenOk =>
      let generation := h2_generation c + 1 in
      let '(conn, c) := fresh_conn (set_failed None (set_gen generation c)) in
      if negb (host_used =? connect_host c)%nat then (EnsConn conn generation, set_cell None c)
      else (EnsConn conn generation, set_cell (Some (mkCell conn now generation false host_used)) c)
    end
  end.

Definition poison_h2_if_gen (generation : Z) (c : Conns) : Conns :=
  match h2_cell c with
  | Some x => if h2_gen x =? generation then set_cell None c else c
  | None => c
  end.

Definition sticky_disable_h2 (c : Conns) : Conns := set_cell None (set_off c).

(** The connection driver's flag. *)
Definition mark_dead (conn : nat) (c : Conns) : Conns :=
  match h2_cell c with
  | Some x => if (h2_conn x =? conn)%nat then set_cell (Some (mkCell (h2_conn x) (h2_created x) (h2_gen x) true (h2_host x))) c else c
  | None => c
  end.

(** ** The heartbeat *)
Inductive Picked := PickNone | PickSame | PickNext.

(** One turn of [run_ip_health]: the failures counted after it and whether the address is
    changed. *)
Definition ip_health_turn (threshold failures : Z) (ok : bool) (picked : Picked) : Z * bool :=
  let threshold := if threshold =? 0 then 1 else threshold in
  if ok then (0, false) else
  let failures := failures + 1 in
  if failures <? threshold then (failures, false) else
  match picked with PickNext => (0, true) | _ => (0, false) end.

(** [connect_host.store], then the pool, then the cell. *)
Definition swap_store (c : Conns) : Conns :=
  mkConns (next_host c) (pool c) (h2_cell c) (h2_off c) (h2_open_failed_at c) (h2_open_lock c) (h2_generation c) SwapStored (S (next_host c)) (next_conn c).
Definition swap_pool (c : Conns) : Conns :=
  mkConns (connect_host c) [] (h2_cell c) (h2_off c) (h2_open_failed_at c) (h2_open_lock c) (h2_generation c) SwapPooled (next_host c) (next_conn c).
Definition swap_cell (c : Conns) : Conns :=
  mkConns (connect_host c) (pool c) None (h2_off c) (h2_open_failed_at c) (h2_open_lock c) (h2_generation c) SwapIdle (next_host c) (next_conn c).

(** ** The refill *)
(** What other tasks do to the pool while the loop of [run_pool_refill] waits: for the lock
    of the pool, or for [open] to return. *)
Inductive PoolOp :=
| OpAcquire (now : Z)
| OpRelease (now : Z) (e : PoolEntry)
| OpWarm (now : Z) (i host : nat)
| OpSwapStore
| OpSwapPool.

Definition pool_op (c : Conns) (op : PoolOp) : Conns :=
  match op with
  | OpAcquire now => snd (acquire_pooled now c)
  | OpRelease now e => release now e c
  | OpWarm now i host => warm_one now i host c
  | OpSwapStore => swap_store c
  | OpSwapPool => swap_pool c
  end.

(** A turn of the inner loop of [run_pool_refill]: what others did before the count, the
    instant of the count, what they did until [open] returned and the lock was taken, the
    outcome of [open] (the address it used) and the instant of the push. *)
Record RefillTurn := mkTurn { rt_before : list PoolOp; rt_count : Z; rt_during : list PoolOp; rt_open : option nat; rt_push : Z }.

(** How the loop ended: at a count that found enough, at a failed open; or not yet. *)
Inductive RefillEnd := RfWarm (now : Z) | RfOpenFailed | RfRunning.

Fixpoint refill_loop (turns : list RefillTurn) (c : Conns) : RefillEnd * Conns :=
  match turns with
  | [] => (RfRunning, c)
  | t :: turns =>
    let c := fold_left pool_op (rt_before t) c in
    if (POOL_MIN <=? healthy (rt_count t) (pool c))%nat then (RfWarm (rt_count t), c) else
    let c := fold_left pool_op (rt_during t) c in
    match rt_open t with
    | None => (RfOpenFailed, c)
    | Some host => refill_loop turns (refill_push (rt_push t) host c)
    end
  end.

(** ** Steps of the tasks *)

(** The state with the HTTP/2 connections handed out so far and their generations. *)
Definition handed : Type := list (nat * Z).

Definition hand (r : Ensured) (h : handed) : handed := match r with EnsConn conn gen => (conn, gen) :: h | _ => h end.

Inductive cstep : Conns * handed -> Conns * handed -> Prop :=
| c_acquire c h now : cstep (c, h) (snd (acquire_pooled now c), h)
| c_release c h now e : cstep (c, h) (release now e c, h)
| c_warm c h now i host : cstep (c, h) (warm_one now i host c, h)
| c_evict c h now : cstep (c, h) (evict_expired now c, h)
| c_refill c h now host : cstep (c, h) (refill_push now host c, h)
| c_fast c h now : cstep (c, h) (c, hand (ensure_h2_fast now c) h)
| c_lock c h now r c' : ensure_h2_lock now c = (r, c') -> cstep (c, h) (c', hand r h)
| c_finish c h now o r c' : ensure_h2_finish now o c = (r, c') -> cstep (c, h) (c', hand r h)
| c_poison c h gen : cstep (c, h) (poison_h2_if_gen gen c, h)
| c_disable c h : cstep (c, h) (sticky_disable_h2 c, h)
| c_dead c h conn : cstep (c, h) (mark_dead conn c, h)
| c_swap_store c h : swap c = SwapIdle -> cstep (c, h) (swap_store c, h)
| c_swap_pool c h : swap c = SwapStored -> cstep (c, h) (swap_pool c, h)
| c_swap_cell c h : swap c = SwapPooled -> cstep (c, h) (swap_cell c, h).

Inductive creach (force_http1 : bool) : Conns * handed -> Prop :=
| creach_new : creach force_http1 (conns_new force_http1, [])
| creach_step s s' : creach force_http1 s -> cstep s s' -> creach force_http1 s'.

(** ** The invariant *)
Record conns_ok (c : Conns) (h : handed) : Prop := {
  co_len : (length (pool c) <= POOL_MAX)%nat;
  co_pool : swap c <> SwapStored -> Forall (fun e => pe_host e = connect_host c) (pool c);
  co_cell : forall x, h2_cell c = Some x -> (swap c = SwapIdle -> h2_host x = connect_host c)
              /\ (h2_conn x, h2_gen x) ∈ h;
  co_gen : Forall (fun x => snd x <= h2_generation c /\ (fst x < next_conn c)%nat) h;
  co_inj : forall a b, a ∈ h -> b ∈ h -> snd a = snd b -> fst a = fst b
}.

Lemma forall_list_filter {A} (P : A -> Prop) f (l : list A) : Forall P l -> Forall P (List.filter f l).
Proof. induction 1; cbn; [constructor|]. case_match; [by constructor|done]. Qed.

Lemma length_list_filter {A} f (l : list A) : (length (List.filter f l) <= length l)%nat.
Proof. induction l; cbn; [lia|]. case_match; cbn; lia. Qed.

Lemma freshest_lookup now p i a : freshest now p = Some (i, a) ->
  exists e, p !! i = Some e /\ a = now - pe_created e /\ Forall (fun e' => pe_created e' <= pe_created e) p.
Proof.
  revert i a. induction p as [|e p IH]; intros i a; cbn [freshest]; [done|]. destruct (freshest now p) as [[j b]|] eqn:E.
  - destruct (IH j b eq_refl) as (e' & He & -> & Hf). destruct (Z.ltb_spec (now - pe_created e') (now - pe_created e)); intros [= <- <-].
    + exists e'. split_and!; [done|done|]. constructor; [lia|done].
    + exists e. split_and!; [done|done|]. constructor; [lia|]. eapply Forall_impl; [exact Hf|]. cbn. lia.
  - intros [= <- <-]. exists e. split_and!; [done|done|]. destruct p as [|e' p]; [constructor; [lia|constructor]|]. cbn in E.
    destruct (freshest now p) as [[? ?]|]; [|done]. by case_match.
Qed.

Lemma freshest_none now p : freshest now p = None -> p = [].
Proof. destruct p as [|e p]; [done|]. cbn. destruct (freshest now p) as [[? ?]|]; [|done]. by case_match. Qed.

Lemma swap_remove_perm {A} i (l : list A) x : l !! i = Some x -> x :: swap_remove i l ≡ₚ l.
Proof.
  intros Hi. unfold swap_remove. destruct (last l) as [y|] eqn:El; [|apply last_None in El; subst; done].
  apply last_Some in El as [k ->]. destruct (decide (i = length k)) as [->|Hn].
  - rewrite insert_app_r_alt by lia. rewrite Nat.sub_diag. cbn. rewrite removelast_last.
    rewrite lookup_app_r, Nat.sub_diag in Hi by lia. injection Hi as ->. apply Permutation_cons_append.
  - assert (i < length k)%nat as Hlt by (apply lookup_lt_Some in Hi; rewrite length_app in Hi; cbn in Hi; lia).
    rewrite insert_app_l, removelast_last by done. rewrite lookup_app_l in Hi by done.
    apply list_elem_of_split_length in Hi as (k1 & k2 & -> & ->). rewrite insert_app_r_alt by lia.
    rewrite Nat.sub_diag. cbn. rewrite <- app_assoc. cbn. solve_Permutation.
Qed.

Lemma acquire_pooled_spec now c : let '(r, c') := acquire_pooled now c in
  c' = set_pool (pool c') c
  /\ match r with
     | Some e => e :: pool c' ≡ₚ List.filter (live now c) (pool c) /\ Forall (fun e' => pe_created e' <= pe_created e) (pool c')
     | None => pool c' = [] /\ List.filter (live now c) (pool c) = []
     end.
Proof.
  unfold acquire_pooled. set (p := List.filter _ _). destruct (freshest now p) as [[i a]|] eqn:E.
  - apply freshest_lookup in E as (e & He & _ & Hf). rewrite He. split; [done|]. cbn [pool set_pool]. pose proof (swap_remove_perm i p e He) as Hp.
    split; [exact Hp|]. rewrite <- Hp in Hf. by apply Forall_cons in Hf as [_ Hf].
  - apply freshest_none in E. rewrite E. by split; [|split].
Qed.

Lemma pool_change c h p : (length p <= POOL_MAX)%nat -> (swap c <> SwapStored -> Forall (fun e => pe_host e = connect_host c) p) ->
  conns_ok c h -> conns_ok (set_pool p c) h.
Proof. intros Hl Hp [H1 H2 H3 H4 H5]. by split. Qed.

Lemma push_entry_ok e c h : conns_ok c h -> conns_ok (push_entry e c) h.
Proof.
  intros H. unfold push_entry. destruct (Nat.eqb_spec (pe_host e) (connect_host c)) as [E|]; cbn [negb]; [|done].
  destruct (Nat.ltb_spec (length (pool c)) POOL_MAX); [|done]. apply pool_change; [|intros Hs|done].
  - rewrite length_app. cbn. lia.
  - apply Forall_app. split; [by apply H|by constructor].
Qed.

Lemma fresh_conn_ok c h : conns_ok c h -> conns_ok (snd (fresh_conn c)) h.
Proof. intros [H1 H2 H3 H4 H5]. split; try done. eapply Forall_impl; [exact H4|]. intros x Hx. cbn in *. lia. Qed.

Lemma set_cell_none_ok c h : conns_ok c h -> conns_ok (set_cell None c) h.
Proof. intros [H1 H2 H3 H4 H5]. by split. Qed.

(** A look at the cell hands out the connection it holds. *)
Lemma hand_cached_ok now c h : conns_ok c h -> conns_ok c (hand (cached_h2 now c) h).
Proof.
  intros H. unfold cached_h2. destruct (h2_cell c) as [x|] eqn:E; [|done]. destruct (cell_live now c x); [|done]. cbn [hand].
  destruct H as [H1 H2 H3 H4 H5]. destruct (H3 x E) as [_ Hin]. split; try done.
  - intros y Hy. destruct (H3 y Hy). split; [done|set_solver].
  - constructor; [|done]. rewrite Forall_forall in H4. exact (H4 _ Hin).
  - intros a b Ha Hb. apply H5; [apply elem_of_cons in Ha as [->|]; done|apply elem_of_cons in Hb as [->|]; done].
Qed.

(** A handshake that succeeds hands out a connection of a new generation. *)
Lemma hand_fresh_ok c h conn gen x :
  conns_ok c h -> conn = next_conn c -> gen = h2_generation c + 1 ->
  (forall y, x = Some y -> h2_conn y = conn /\ h2_gen y = gen /\ h2_host y = connect_host c) ->
  conns_ok (set_cell x (snd (fresh_conn (set_gen gen c)))) ((conn, gen) :: h).
Proof.
  intros [H1 H2 H3 H4 H5] -> -> Hx. rewrite Forall_forall in H4. split; [done|done| | |].
  - intros y Hy. destruct (Hx y Hy) as (-> & -> & E). split; [done|set_solver].
  - constructor; [cbn; lia|]. apply Forall_forall. intros z Hz. specialize (H4 z Hz). cbn in *. lia.
  - intros a b [->|Ha]%elem_of_cons [->|Hb]%elem_of_cons E; [done| | |by apply H5].
    + specialize (H4 b Hb). cbn in *. lia.
    + specialize (H4 a Ha). cbn in *. lia.
Qed.

Lemma finish_ok now o c h r c' : conns_ok c h -> ensure_h2_finish now o c = (r, c') -> conns_ok c' (hand r h).
Proof.
  intros H. unfold ensure_h2_finish. destruct (h2_open_lock c) as [host|]; [|by intros [= <- <-]]. destruct o.
  - cbn [fresh_conn connect_host set_lock set_failed set_gen].
    assert (conns_ok (set_failed None (set_lock None c)) h) as H0 by (destruct H; by split).
    destruct (Nat.eqb_spec host (connect_host c)) as [E|E]; cbn [negb]; intros [= <- <-]; cbn [hand].
    + apply (hand_fresh_ok (set_failed None (set_lock None c)) h); [done|done|done|]. intros y [= <-]. by rewrite E.
    + by apply (hand_fresh_ok (set_failed None (set_lock None c)) h).
  - intros [= <- <-]. apply set_cell_none_ok. destruct H. by split.
  - intros [= <- <-]. apply set_cell_none_ok. destruct H. by split.
Qed.

Lemma cstep_ok s s' : conns_ok (fst s) (snd s) -> cstep s s' -> conns_ok (fst s') (snd s').
Proof.
  intros H Hs. destruct Hs; cbn [fst snd] in *.
  - pose proof (acquire_pooled_spec now c) as Ha. destruct (acquire_pooled now c) as [r c']. destruct Ha as [E Ha]. cbn [snd]. rewrite E. clear E.
    assert (forall e, e ∈ pool c' -> e ∈ pool c) as Hsub.
    { intros e He. destruct r as [e0|]; [|destruct Ha as [Ha _]; rewrite Ha in He; by apply elem_of_nil in He].
      destruct Ha as [Ha _]. assert (e ∈ e0 :: pool c') as Hin by set_solver. rewrite Ha in Hin.
      apply list_elem_of_In, filter_In in Hin as [Hin _]. by apply list_elem_of_In. }
    apply pool_change; [|intros Hs; apply Forall_forall; intros e He; exact (proj1 (Forall_forall _ _) (co_pool _ _ H Hs) e (Hsub e He))|done].
    pose proof (co_len _ _ H) as Hl. pose proof (length_list_filter (live now c) (pool c)) as Hf.
    destruct r as [e0|]; [|destruct Ha as [-> _]; cbn; lia]. destruct Ha as [Ha%Permutation_length _]. cbn in Ha. lia.
  - unfold release. case_match; [done|]. by apply push_entry_ok.
  - by apply push_entry_ok, fresh_conn_ok.
  - apply pool_change; [|intros Hs; by apply forall_list_filter, H|done].
    pose proof (length_list_filter (fun e => now - pe_created e <? POOL_TTL) (pool c)) as Hf. pose proof (co_len _ _ H). lia.
  - by apply push_entry_ok, fresh_conn_ok.
  - unfold ensure_h2_fast. case_match; [done|]. by apply hand_cached_ok.
  - rename H0 into E. unfold ensure_h2_lock in E. destruct (match h2_open_failed_at c with Some t => _ | None => _ end); [by simplify_eq|].
    destruct (h2_open_lock c); [by simplify_eq|]. pose proof (hand_cached_ok now c h H) as Hc.
    destruct (cached_h2 now c); simplify_eq; [destruct H; by split|done|destruct H; by split].
  - by eapply finish_ok.
  - unfold poison_h2_if_gen. repeat case_match; try done. by apply set_cell_none_ok.
  - apply set_cell_none_ok. destruct H. by split.
  - unfold mark_dead. destruct (h2_cell c) as [x|] eqn:E; [|done]. destruct (Nat.eqb_spec (h2_conn x) conn); [|done].
    destruct H as [H1 H2 H3 H4 H5]. split; try done. intros y [= <-]. exact (H3 x E).
  - destruct H as [H1 H2 H3 H4 H5]. split; try done. intros x Hx. split; [done|by apply H3].
  - destruct H as [H1 H2 H3 H4 H5]. split; [cbn; lia|intros _; constructor|intros x Hx; split; [done|by apply H3]|done|done].
  - destruct H as [H1 H2 H3 H4 H5]. split; try done. intros _. apply H2. congruence.
Qed.

Lemma creach_ok b s : creach b s -> conns_ok (fst s) (snd s).
Proof.
  induction 1 as [|s s' _ IH Hs]; [|by eapply cstep_ok]. split; cbn; [lia|constructor|done|constructor|set_solver].
Qed.

(** ** What the connections are good for *)

(** Claim C29: connections are bounded, fresh and opened against the current address.  In
    every reachable state, under every interleaving of the tasks with changes of the address:
    the pool holds at most [POOL_MAX] connections; when no change is under way, they and the
    HTTP/2 connection were opened against the current address; what [acquire] takes from the
    pool is younger than the limit, opened against the current address and the youngest of
    those, and the others stay; a connection that [ensure_h2] finds is alive, young enough
    and current; and a task that reports a failure of its HTTP/2 connection never removes
    another one. *)
Theorem connections_current (force_http1 : bool) (c : Conns) (h : handed) (Hreach : creach force_http1 (c, h)) :
  (length (pool c) <= POOL_MAX)%nat
  /\ (swap c = SwapIdle -> Forall (fun e => pe_host e = connect_host c) (pool c) /\ forall x, h2_cell c = Some x -> h2_host x = connect_host c)
  /\ (forall now e c', acquire_pooled now c = (Some e, c') ->
        now - pe_created e < POOL_TTL /\ pe_host e = connect_host c /\ e :: pool c' ≡ₚ List.filter (live now c) (pool c)
        /\ Forall (fun e' => pe_created e' <= pe_created e) (pool c'))
  /\ (forall now conn gen, ensure_h2_fast now c = EnsConn conn gen ->
        exists x, h2_cell c = Some x /\ h2_conn x = conn /\ h2_gen x = gen /\ h2_dead x = false /\ h2_host x = connect_host c /\ now - h2_created x < H2_CONN_TTL)
  /\ (forall conn gen, (conn, gen) ∈ h -> h2_cell (poison_h2_if_gen gen c) = match h2_cell c with
        | Some x => if (h2_conn x =? conn)%nat && (h2_gen x =? gen) then None else Some x
        | None => None
        end).
Proof.
  destruct (creach_ok _ _ Hreach) as [Hl Hp Hc Hg Hi]. cbn [fst snd] in *. split_and!; [done| | | |].
  - intros Hs. split; [apply Hp; congruence|]. intros x Hx. by apply Hc.
  - intros now e c' Ha. pose proof (acquire_pooled_spec now c) as H. rewrite Ha in H. destruct H as (_ & Hperm & Hf).
    assert (e ∈ e :: pool c') as Hin by set_solver. rewrite Hperm in Hin. apply list_elem_of_In, filter_In in Hin as [_ Hlive].
    unfold live in Hlive. apply andb_true_iff in Hlive as [H1 H2]. apply Nat.eqb_eq in H2. split_and!; [lia|done|done|done].
  - intros now conn gen He. unfold ensure_h2_fast, cached_h2, cell_live in He. destruct (h2_off c); [done|]. destruct (h2_cell c) as [x|]; [|done].
    destruct (_ && _) eqn:E; [|done]. injection He as <- <-. apply andb_true_iff in E as [[H1 H2]%andb_true_iff H3].
    exists x. apply Nat.eqb_eq in H3. apply negb_true_iff in H2. split_and!; try done. lia.
  - intros conn gen Hin. unfold poison_h2_if_gen. destruct (h2_cell c) as [x|] eqn:E; [|by rewrite E]. destruct (Hc x eq_refl) as [_ Hx].
    destruct (Z.eqb_spec (h2_gen x) gen) as [<-|Hn].
    + cbn [h2_cell set_cell]. pose proof (Hi _ _ Hx Hin eq_refl) as Heq. cbn in Heq. by rewrite Heq, Nat.eqb_refl.
    + by rewrite E, andb_false_r.
Qed.

Lemma connections_current_witness :
  exists c h, creach false (c, h) /\ length (pool c) = 2%nat /\ (length (pool c) <= POOL_MAX)%nat.
Proof.
  set (c := snd (ensure_h2_finish 5 OpenOk (snd (ensure_h2_lock 4 (warm_one 3 1 0 (warm_one 2 0 0 (conns_new false))))))).
  assert (creach false (c, [(2%nat, 1)])) as H.
  { eapply creach_step; [eapply creach_step; [eapply creach_step; [eapply creach_step; [apply creach_new|]|]|]|].
    - apply (c_warm _ _ 2 0 0).
    - apply (c_warm _ _ 3 1 0).
    - apply (c_lock _ _ 4 EnsOpening). vm_compute. reflexivity.
    - apply (c_finish _ _ 5 OpenOk (EnsConn 2 1)). vm_compute. reflexivity. }
  exists c, [(2%nat, 1)]. split; [exact H|]. split; [vm_compute; reflexivity|]. exact (proj1 (connections_current false c [(2%nat, 1)] H)).
Defined.

(** ** Refilling the pool *)
Lemma healthy_app now p q : healthy now (p ++ q) = (healthy now p + healthy now q)%nat.
Proof. unfold healthy. by rewrite List.filter_app, length_app. Qed.

(** The operations that take an entry from the pool and those that may add one. *)
Definition is_acquire (op : PoolOp) : bool := match op with OpAcquire _ => true | _ => false end.
Definition turn_ops (t : RefillTurn) : list PoolOp := rt_before t ++ rt_during t.
Definition acquires (turns : list RefillTurn) : nat := length (List.filter is_acquire (turns ≫= turn_ops)).
Definition releases (turns : list RefillTurn) : nat := length (List.filter (fun op => negb (is_acquire op)) (turns ≫= turn_ops)).

(** While the address stays and the clock is in the window of a fresh connection. *)
Definition calm_op (t0 : Z) (op : PoolOp) : Prop :=
  match op with
  | OpAcquire now => now < t0 + (POOL_TTL - MIN_REMAINING)
  | OpSwapStore | OpSwapPool => False
  | _ => True
  end.

(** The entries of the current address that were opened since [t0]. *)
Definition since (t0 : Z) (c : Conns) : nat :=
  length (List.filter (fun e => (t0 <=? pe_created e) && (pe_host e =? connect_host c)%nat) (pool c)).

Lemma filter_perm_length {A} (f : A -> bool) l k : l ≡ₚ k -> length (List.filter f l) = length (List.filter f k).
Proof. induction 1; cbn; repeat case_match; cbn; lia. Qed.

Lemma filter_filter_length {A} (f g : A -> bool) l : (forall x, f x = true -> g x = true) ->
  length (List.filter f (List.filter g l)) = length (List.filter f l).
Proof.
  intros H. induction l as [|x l IH]; [done|]. cbn. destruct (g x) eqn:Eg; cbn; destruct (f x) eqn:Ef; cbn; rewrite ?IH; try done.
  by rewrite (H x Ef) in Eg.
Qed.

Lemma acquire_since t0 now c : now < t0 + (POOL_TTL - MIN_REMAINING) ->
  (since t0 c <= S (since t0 (snd (acquire_pooled now c))))%nat
  /\ (length (pool (snd (acquire_pooled now c))) <= length (pool c))%nat.
Proof.
  intros Hnow. unfold acquire_pooled, since. set (f := fun e => _). rewrite <- (filter_filter_length f (live now c)); cycle 1.
  { intros e [H1 H2]%andb_true_iff. unfold live. apply andb_true_iff. split; [|done]. unfold MIN_REMAINING, SEC in Hnow. apply Z.leb_le in H1. apply Z.ltb_lt. lia. }
  pose proof (List.filter_length_le (live now c) (pool c)). set (p := List.filter (live now c) (pool c)) in *.
  destruct (freshest now p) as [[i a]|] eqn:E; cbn [snd pool set_pool connect_host]; [|unfold f; split; [lia|done]].
  apply freshest_lookup in E as (e & He & _). pose proof (swap_remove_perm i p e He) as Hp.
  pose proof (Permutation_length Hp) as Hl. pose proof (filter_perm_length f _ _ Hp) as Hf. cbn in Hl, Hf.
  destruct (f e); cbn in Hf; unfold f in *; split; lia.
Qed.

Lemma push_since t0 e c : (since t0 c <= since t0 (push_entry e c))%nat
  /\ (length (pool (push_entry e c)) <= S (length (pool c)))%nat /\ connect_host (push_entry e c) = connect_host c.
Proof.
  unfold push_entry, since. destruct (negb _); [split_and!; [done|lia|done]|]. destruct (_ <? _)%nat; [|split_and!; [done|lia|done]].
  cbn [pool set_pool connect_host]. rewrite List.filter_app, !length_app. cbn [length]. split_and!; [lia|lia|done].
Qed.

Lemma pool_op_since t0 c op : calm_op t0 op -> connect_host (pool_op c op) = connect_host c
  /\ (since t0 c <= since t0 (pool_op c op) + (if is_acquire op then 1 else 0))%nat
  /\ (length (pool (pool_op c op)) <= length (pool c) + (if is_acquire op then 0 else 1))%nat.
Proof.
  intros Hc. destruct op as [now|now e|now i host| |]; cbn [calm_op pool_op is_acquire] in *; [| | |done..].
  - destruct (acquire_since t0 now c Hc) as [H1 H2]. split_and!; [|lia|lia]. unfold acquire_pooled. by destruct (freshest _ _) as [[? ?]|].
  - unfold release. destruct (_ <=? _); [split_and!; [done|lia|lia]|]. destruct (push_since t0 e c) as (H1 & H2 & H3). split_and!; [done|lia|lia].
  - unfold warm_one. cbn [fresh_conn]. match goal with |- context [push_entry ?e ?c] => destruct (push_since t0 e c) as (H1 & H2 & H3) end.
    unfold since in *. cbn [pool connect_host] in *. split_and!; [done|lia|lia].
Qed.

Lemma pool_ops_since t0 ops c : Forall (calm_op t0) ops -> connect_host (fold_left pool_op ops c) = connect_host c
  /\ (since t0 c <= since t0 (fold_left pool_op ops c) + length (List.filter is_acquire ops))%nat
  /\ (length (pool (fold_left pool_op ops c)) <= length (pool c) + length (List.filter (fun op => negb (is_acquire op)) ops))%nat.
Proof.
  intros H. revert c. induction H as [|op ops Hop _ IH]; intros c; [cbn; split_and!; [done|lia|lia]|]. cbn [fold_left].
  destruct (IH (pool_op c op)) as (H1 & H2 & H3). destruct (pool_op_since t0 c op Hop) as (H4 & H5 & H6).
  cbn [List.filter]. destruct (is_acquire op); cbn [negb length] in *; split_and!; first [congruence|lia].
Qed.

(** A refill that goes on has added one entry of its own. *)
Lemma refill_push_since t0 now c : t0 <= now -> (length (pool c) < POOL_MAX)%nat ->
  since t0 (refill_push now (connect_host c) c) = S (since t0 c)
  /\ length (pool (refill_push now (connect_host c) c)) = S (length (pool c))
  /\ connect_host (refill_push now (connect_host c) c) = connect_host c.
Proof.
  intros Ht Hl. unfold refill_push, push_entry, since. cbn [fresh_conn connect_host pool pe_host]. rewrite Nat.eqb_refl. cbn [negb].
  destruct (Nat.ltb_spec (length (pool c)) POOL_MAX); [|lia]. cbn [pool set_pool connect_host]. rewrite List.filter_app, !length_app.
  cbn [List.filter pe_created pe_host]. rewrite Nat.eqb_refl. destruct (Z.leb_spec t0 now); [|lia]. cbn. split_and!; [lia|lia|done].
Qed.

Lemma since_healthy t0 now c : now < t0 + (POOL_TTL - MIN_REMAINING) -> (since t0 c <= healthy now (pool c))%nat.
Proof.
  intros Hn. unfold since, healthy. induction (pool c) as [|e p IH]; [done|]. cbn [List.filter].
  destruct (Z.leb_spec t0 (pe_created e)); destruct (pe_host e =? connect_host c)%nat; cbn [andb];
    destruct (Z.ltb_spec (now - pe_created e + MIN_REMAINING) POOL_TTL); cbn [length]; lia.
Qed.

Definition good_turn (t0 : Z) (host : nat) (t : RefillTurn) : Prop :=
  rt_count t < t0 + (POOL_TTL - MIN_REMAINING) /\ t0 <= rt_push t /\ rt_open t = Some host /\ Forall (calm_op t0) (turn_ops t).

Lemma refill_room t0 turns c n : Forall (good_turn t0 (connect_host c)) turns -> (n <= since t0 c)%nat ->
  (length (pool c) + (POOL_MIN + acquires turns - n) + releases turns <= POOL_MAX)%nat ->
  (POOL_MIN + acquires turns < n + length turns)%nat -> turns <> [] ->
  exists now c', refill_loop turns c = (RfWarm now, c') /\ now ∈ rt_count <$> turns /\ (POOL_MIN <= healthy now (pool c'))%nat
    /\ (length (pool c') <= length (pool c) + (POOL_MIN + acquires turns - n) + releases turns)%nat.
Proof.
  revert c n. induction turns as [|t turns IH]; intros c n Hg Hn Hroom Hlen Hne; [done|]. clear Hne.
  apply Forall_cons in Hg as [(Hcount & Hpush & Hopen & Hops) Hg]. cbn [refill_loop].
  unfold turn_ops in Hops. apply Forall_app in Hops as [Hb Hd].
  assert (acquires (t :: turns) = length (List.filter is_acquire (rt_before t)) + length (List.filter is_acquire (rt_during t)) + acquires turns
    /\ releases (t :: turns) = length (List.filter (fun op => negb (is_acquire op)) (rt_before t))
       + length (List.filter (fun op => negb (is_acquire op)) (rt_during t)) + releases turns)%nat as [Ea Er].
  { unfold acquires, releases, turn_ops. rewrite !bind_cons, !List.filter_app, !length_app. done. }
  destruct (pool_ops_since t0 _ c Hb) as (Hh1 & Hs1 & Hl1). set (c1 := fold_left pool_op (rt_before t) c) in *.
  destruct (pool_ops_since t0 _ c1 Hd) as (Hh2 & Hs2 & Hl2). set (c2 := fold_left pool_op (rt_during t) c1) in *.
  destruct (Nat.leb_spec POOL_MIN (healthy (rt_count t) (pool c1))) as [Hdone|Hmore].
  { exists (rt_count t), c1. split_and!; [done|left|done|lia]. }
  pose proof (since_healthy t0 (rt_count t) c1 Hcount) as Hsh. rewrite Hopen. rewrite <- Hh1, <- Hh2 in *.
  destruct (refill_push_since t0 (rt_push t) c2 Hpush) as (P1 & P2 & P3); [lia|].
  set (c3 := refill_push (rt_push t) (connect_host c2) c2) in *.
  set (a1 := length (List.filter is_acquire (rt_before t))) in *. set (a2 := length (List.filter is_acquire (rt_during t))) in *.
  destruct (IH c3 (S (n - (a1 + a2)))%nat) as (now & c' & E & Hin & Hw & Hl); [by rewrite P3|lia|lia|cbn [length] in Hlen; lia| |].
  { intros ->. change (acquires []) with 0%nat in *. cbn [length] in Hlen. lia. }
  exists now, c'. split_and!; [done|by right|done|lia].
Qed.

(** Claim C30: a refill ends with a warm pool, whatever the other tasks take and put back
    meanwhile.  When the address does not change, every open succeeds, the counts, pushes
    and takings fall into the 40 s for which a connection counts and the pool has room,
    the loop of [run_pool_refill] ends after at most [POOL_MIN] opens and one more for each
    connection taken, at a count at which at least 8 connections in the pool were younger
    than 40 s (20 s short of the 60 s they live). *)
Theorem refill_ends (c : Conns) (t0 : Z) (turns : list RefillTurn)
    (Hroom : (length (pool c) + POOL_MIN + acquires turns + releases turns <= POOL_MAX)%nat)
    (Hlen : length turns = S (POOL_MIN + acquires turns))
    (Hturns : Forall (good_turn t0 (connect_host c)) turns) :
  exists now c', refill_loop turns c = (RfWarm now, c') /\ now ∈ rt_count <$> turns
    /\ (8 <= length (List.filter (fun e => now - pe_created e <? 40 * SEC)%Z (pool c')))%nat
    /\ (length (pool c') <= length (pool c) + 8 + acquires turns + releases turns)%nat.
Proof.
  destruct (refill_room t0 turns c 0) as (now & c' & E & Hin & Hw & Hl); [done|lia|lia|lia|by destruct turns|].
  exists now, c'. split_and!; [done|done| |unfold POOL_MIN in *; lia]. unfold healthy in Hw.
  erewrite List.filter_ext; [exact Hw|]. intros e. unfold MIN_REMAINING, POOL_TTL, SEC. cbn beta. lia.
Qed.

(** Ten turns; at the third, while the connection is opened, another task takes one. *)
Definition example_turns : list RefillTurn :=
  repeat (mkTurn [] 7 [] (Some 0%nat) 8) 2 ++ [mkTurn [] 9 [OpAcquire 10] (Some 0%nat) 11] ++ repeat (mkTurn [] 12 [] (Some 0%nat) 13) 7.

Lemma refill_ends_witness :
  exists now c', refill_loop example_turns (conns_new false) = (RfWarm now, c') /\ now ∈ rt_count <$> example_turns
    /\ (8 <= length (List.filter (fun e => now - pe_created e <? 40 * SEC)%Z (pool c')))%nat
    /\ (length (pool c') <= 9)%nat.
Proof.
  apply (refill_ends (conns_new false) 0 example_turns).
  - vm_compute. lia.
  - reflexivity.
  - cbn. repeat (constructor; [split_and!; [reflexivity|vm_compute; congruence|reflexivity|repeat constructor]|]). constructor.
Defined.

(** A refill that does not end.  Expired connections are dropped before the loop and
    not within it.  With [POOL_MAX] connections of 40 s or more, none counts as healthy and
    none can be added: as long as no request takes a connection, however many connections
    the loop opens, one handshake after another and however late, it drops each of them and
    is where it was. *)
Theorem refill_spins (t0 : Z) (times : list Z) (c : Conns) (Hfull : length (pool c) = POOL_MAX)
    (Haged : Forall (fun e => pe_created e + (POOL_TTL - MIN_REMAINING) <= t0) (pool c)) (Hlater : Forall (Z.le t0) times) :
  exists c', refill_loop ((fun now => mkTurn [] now [] (Some (connect_host c)) now) <$> times) c = (RfRunning, c')
    /\ pool c' = pool c /\ next_conn c' = (next_conn c + length times)%nat.
Proof.
  revert c Hfull Haged. induction Hlater as [|now times Hnow _ IH]; intros c Hfull Haged; [exists c; split_and!; [done|done|cbn; lia]|].
  rewrite fmap_cons. cbn [refill_loop rt_before rt_count rt_during rt_open rt_push fold_left].
  assert (healthy now (pool c) = 0%nat) as ->.
  { unfold healthy. clear -Haged Hnow. induction Haged as [|e p He _ IH]; [done|]. cbn. by destruct (Z.ltb_spec (now - pe_created e + MIN_REMAINING) POOL_TTL); [lia|]. }
  change (POOL_MIN <=? 0)%nat with false. cbv iota. unfold refill_push, push_entry. cbn [fresh_conn connect_host pool pe_host]. rewrite Nat.eqb_refl, Hfull.
  cbn [negb]. rewrite Nat.ltb_irrefl. destruct (IH (snd (fresh_conn c)) Hfull Haged) as (c' & E & Hp & Hn).
  exists c'. cbn [fresh_conn snd] in *. split_and!; [exact E|done|]. cbn in Hn |- *. lia.
Qed.

Lemma refill_spins_witness :
  let c := set_pool (repeat (mkPool 0 0 0) 80) (conns_new false) in
  exists c', refill_loop ((fun now => mkTurn [] now [] (Some 0%nat) now) <$> [45 * SEC; 46 * SEC; 3600 * SEC]) c = (RfRunning, c')
    /\ pool c' = pool c /\ next_conn c' = 3%nat.
Proof.
  intros c. apply (refill_spins (45 * SEC) [45 * SEC; 46 * SEC; 3600 * SEC] c); [reflexivity| |].
  - apply Forall_forall. intros e He. apply list_elem_of_In, repeat_spec in He as ->. vm_compute. congruence.
  - repeat (constructor; [vm_compute; congruence|]). constructor.
Defined.

(** ** The heartbeat *)

(** The failures after a run of turns and the turns at which the address was changed. *)
Fixpoint health_run (threshold : Z) (turns : list (bool * Picked)) (failures : Z) : list bool :=
  match turns with
  | [] => []
  | (ok, picked) :: turns => let '(f, s) := ip_health_turn threshold failures ok picked in s :: health_run threshold turns f
  end.

Lemma health_run_failures threshold turns f k : 0 < threshold -> 0 <= f -> health_run threshold turns f !! k = Some true ->
  exists m, (m <= S k)%nat /\ threshold <= Z.of_nat m + (if (m =? S k)%nat then f else 0)
    /\ forall i, (S k - m <= i <= k)%nat -> exists p, turns !! i = Some (false, p).
Proof.
  intros Ht. revert f k. induction turns as [|[ok picked] turns IH]; intros f k Hf; [done|]. cbn [health_run].
  unfold ip_health_turn. destruct (Z.eqb_spec threshold 0) as [|_]; [lia|]. 
  assert (forall f' k, 0 <= f' -> (f' = 0 \/ (f' = f + 1 /\ ok = false)) -> health_run threshold turns f' !! k = Some true ->
    exists m, (m <= S (S k))%nat /\ threshold <= Z.of_nat m + (if (m =? S (S k))%nat then f else 0)
    /\ forall i, (S (S k) - m <= i <= S k)%nat -> exists p, ((ok, picked) :: turns) !! i = Some (false, p)) as Hstep.
  { intros f' k' Hf' Hor Hk. destruct (IH f' k' Hf' Hk) as (m & Hm & Hth & Hall). 
    assert (forall i, (S (S k') - m <= i <= S k')%nat -> exists p, ((ok, picked) :: turns) !! i = Some (false, p)) as Hall'.
    { intros [|i] Hi; [lia|]. apply Hall. lia. }
    destruct (Nat.eqb_spec m (S k')) as [->|Hne].
    - destruct Hor as [->|[-> ->]]; [exists (S k'); destruct (Nat.eqb_spec (S k') (S (S k'))); [lia|]; split_and!; [lia|lia|done]|].
      exists (S (S k')). rewrite Nat.eqb_refl. split_and!; [lia|lia|]. intros [|i] Hi; [by exists picked|]. apply Hall. lia.
    - exists m. destruct (Nat.eqb_spec m (S (S k'))); [lia|]. split_and!; [lia|lia|done]. }
  destruct ok; [destruct k as [|k]; [done|]; intros Hk; eapply (Hstep 0); [lia|by left|exact Hk]|].
  destruct (Z.ltb_spec (f + 1) threshold) as [Hlt|Hge].
  - destruct k as [|k]; [done|]. intros Hk. eapply (Hstep (f + 1)); [lia|by right|exact Hk].
  - destruct k as [|k].
    + intros _. exists 1%nat. cbn. split_and!; [lia|lia|]. intros i Hi. assert (i = 0)%nat as -> by lia. by exists picked.
    + intros Hk. eapply (Hstep 0); [lia|by left|]. by destruct picked.
Qed.

(** The address is changed only after [threshold] probes in a row have failed, the
    last of them just before, and never within a shorter run of failures; a threshold of 0
    is taken for 1. *)
Theorem health_swap_justified (threshold : Z) (turns : list (bool * Picked)) (k : nat)
    (Hthreshold : 0 <= threshold) (Hswap : health_run threshold turns 0 !! k = Some true) :
  Z.max 1 threshold <= Z.of_nat (S k)
  /\ forall i, (Z.of_nat (S k) - Z.max 1 threshold <= Z.of_nat i <= Z.of_nat k) -> exists p, turns !! i = Some (false, p).
Proof.
  assert (health_run threshold turns 0 = health_run (Z.max 1 threshold) turns 0) as E.
  { destruct (Z.eq_dec threshold 0) as [->|]; [|by rewrite Z.max_r by lia]. generalize 0 at 2 4. clear. induction turns as [|[ok p] turns IH]; intros f; [done|].
    cbn [health_run]. unfold ip_health_turn. cbn [Z.eqb]. change (Z.max 1 0) with 1. change (1 =? 0) with false. cbv iota.
    repeat case_match; simplify_eq; by rewrite IH. }
  rewrite E in Hswap. apply health_run_failures in Hswap as (m & Hm & Hth & Hall); [|lia|lia].
  replace (if (m =? S k)%nat then 0 else 0) with 0 in Hth by (by destruct (m =? S k)%nat). split; [lia|]. intros i Hi. apply Hall. lia.
Qed.

Lemma health_swap_justified_witness :
  Z.max 1 2 <= 3 /\ forall i, (3 - Z.max 1 2 <= Z.of_nat i <= 2) -> exists p, [(true, PickNone); (false, PickNone); (false, PickNext)] !! i = Some (false, p).
Proof. apply (health_swap_justified 2 [(true, PickNone); (false, PickNone); (false, PickNext)] 2); [lia|reflexivity]. Defined.
