(* ===== verification/Updates.v ===== *)
(** * src/update_check.rs and src/update_apply.rs: updates

    What is offered: the version order, the asset that fits the running build, and the answer
    of the release API.  How it is fetched: redirects, with the exchange with one host as a
    parameter.  How it is applied on Linux: download, signature, the binary in the archive,
    the file next to the executable, and the swap, now or at the next start.

    minisign, the archive formats, serde_json and the network are parameters.  The file system
    is a map from resolved paths, without symbolic links; a write or a copy that fails part
    way leaves what it has written.  The archive and its signature are written to a temporary
    directory before anything is checked; the directory that the archive is unpacked into is
    not a part of the map. *)

From stdpp Require Import prelude gmap.
From S2P Require Import Prelude RustStr Frame HttpText RelayJson ExitNode CertTrust.
#[local] Open Scope Z_scope.

(** ** Versions *)

Definition version_parts (v : str) : list str := split_by (fun c => (c =? 46) || (c =? 45)) v.

(** The loop from part [i] on, [n] parts. *)
Fixpoint newer_from (n i : nat) (pa pb : list str) : bool :=
  match n with
  | O => false
  | S n =>
    let a := nth i pa (lit "0") in
    let b := nth i pb (lit "0") in
    match parse_u64 a, parse_u64 b with
    | Some na, Some nb => if negb (na =? nb) then nb <? na else newer_from n (S i) pa pb
    | _, _ => match str_compare a b with Eq => newer_from n (S i) pa pb | Gt => true | Lt => false end
    end
  end.
Definition is_newer (a b : str) : bool :=
  let pa := version_parts a in
  let pb := version_parts b in
  newer_from (length pa `max` length pb) 0 pa pb.

(** ** The asset for a build *)

Record ReleaseAsset := mkAsset { ra_name : str; ra_download_url : str; ra_size_bytes : Z }.

Definition asset_preferences (os arch env endian : str) : list (list str) :=
  let eqs (a : str) (b : string) := bool_decide (a = lit b) in
  let one a b := [[lit a; lit b]] in
  if eqs os "macos" then
    if eqs arch "aarch64" then [[lit "macos-arm64-app"; lit ".zip"]; [lit "macos-arm64"; lit ".tar.gz"]]
    else if eqs arch "x86_64" then [[lit "macos-amd64-app"; lit ".zip"]; [lit "macos-amd64"; lit ".tar.gz"]] else []
  else if eqs os "windows" then
    if eqs arch "aarch64" then one "windows-arm64" ".zip" else one "windows-amd64" ".zip"
  else if eqs os "linux" then
    if eqs arch "aarch64" then if eqs env "musl" then one "linux-musl-arm64" ".tar.gz" else one "linux-arm64" ".tar.gz"
    else if eqs arch "x86_64" then if eqs env "musl" then one "linux-musl-amd64" ".tar.gz" else one "linux-amd64" ".tar.gz"
    else if eqs arch "arm" then if eqs env "musl" then one "openwrt-armv7-musleabihf" ".tar.gz" else one "raspbian-armhf" ".tar.gz"
    else if eqs arch "mips" then if eqs endian "big" then one "openwrt-mips-softfloat" ".tar.gz" else one "openwrt-mipsel-softfloat" ".tar.gz"
    else []
  else if eqs os "android" then
    let universal := [lit "android-universal"; lit ".apk"] in
    if eqs arch "aarch64" then [[lit "android-arm64-v8a"; lit ".apk"]; universal]
    else if eqs arch "arm" then [[lit "android-armeabi-v7a"; lit ".apk"]; universal]
    else if eqs arch "x86_64" then [[lit "android-x86_64"; lit ".apk"]; universal]
    else if eqs arch "x86" then [[lit "android-x86-"; lit ".apk"]; universal]
    else []
  else [].

(** An asset of the answer that has every needle in its name, and a URL. *)
Definition asset_matches (needles : list str) (a : Value) : option ReleaseAsset :=
  let name := default [] (get (lit "name") a ≫= as_str) in
  if forallb (fun n => contains (to_ascii_lowercase name) (to_ascii_lowercase n)) needles then
    let url := default [] (get (lit "browser_download_url") a ≫= as_str) in
    if bool_decide (url = []) then None else Some (mkAsset name url (default 0 (get (lit "size") a ≫= as_u64)))
  else None.

(** Preferences first, then the order of the answer. *)
Definition pick_asset_for_target (assets : list Value) (os arch env endian : str) : option ReleaseAsset :=
  head (asset_preferences os arch env endian ≫= fun needles => omap (asset_matches needles) assets).

(** ** The check *)

Inductive UpdateCheck :=
| Offline (msg : str) | UcError (msg : str) | UpToDate (current latest : str)
| UpdateAvailable (current latest release_url : str) (asset : option ReleaseAsset).

Definition summary (u : UpdateCheck) : str :=
  match u with
  | Offline msg => lit "Can't reach github.com: " ++ msg
  | UcError msg => lit "Update check failed: " ++ msg
  | UpToDate current _ => lit "Up to date (running v" ++ current ++ lit ")."
  | UpdateAvailable current latest url _ => lit "Update available: v" ++ current ++ lit " " ++ [8594] ++ lit " v" ++ latest ++ lit "  (" ++ url ++ lit ")"
  end.

Definition REPO : str := lit "dazzling-no-more/rahgozar".

(** The build: its version, its system, and what its JSON parser makes of a text. *)
Record Build := mkBuild { b_version : str; b_os : str; b_arch : str; b_env : str; b_endian : str; b_json : str -> res Value str }.

(** [probe]: the outcome of reaching github.com, only asked when the route is direct. *)
Definition check (b : Build) (direct : bool) (probe : option str) (fetched : res str str) : UpdateCheck :=
  match (if direct then probe else None) with
  | Some e => Offline e
  | None =>
    match fetched with
    | Err e => UcError e
    | Panic => UcError []
    | Ok body =>
      match b_json b body with
      | Ok v =>
        match get (lit "tag_name") v ≫= as_str with
        | None => UcError (lit "API response missing tag_name")
        | Some tag =>
          let latest := trim_start_by (Z.eqb 118) tag in
          if negb (is_newer latest (b_version b)) then UpToDate (b_version b) latest else
          UpdateAvailable (b_version b) latest (lit "https://github.com/" ++ REPO ++ lit "/releases/tag/" ++ tag)
            (match get (lit "assets") v with
             | Some (VArray arr) => pick_asset_for_target arr (b_os b) (b_arch b) (b_env b) (b_endian b)
             | _ => None
             end)
        end
      | Err e => UcError (lit "bad API JSON: " ++ e)
      | Panic => UcError []
      end
    end
  end.

(** ** Fetching *)

Definition find_slash (rest : str) : option (str * str) := (fun '(h, p) => (h, 47 :: p)) <$> split_once [47] rest.

Definition parse_url (url default_host : str) : str * str :=
  match strip_prefix (lit "https://") url with
  | Some rest => default (rest, lit "/") (find_slash rest)
  | None => if starts_with url (lit "/") then (default_host, url) else (default_host, lit "/" ++ url)
  end.

Definition split_url (url : str) : option (str * str) := strip_prefix (lit "https://") url ≫= find_slash.

(** What a response says: a body, another place, or an error. *)
Inductive Reply := RBody (body : bytes) | RMoved (location : str) | RFailed (e : str).

Definition split_whitespace (s : str) : list str := filter (fun t => t <> []) (split_by is_whitespace s).

Definition location_of (l : str) : option str :=
  if starts_with (to_ascii_lowercase l) (lit "location:") then (fun '(_, v) => trim v) <$> split_once [58] l else None.

Definition parse_response (buf : bytes) : Reply :=
  match split_once CRLF2 buf with
  | None => RFailed (lit "no HTTP header terminator")
  | Some (head_bytes, body) =>
    match from_utf8 head_bytes with
    | None => RFailed (lit "non-utf8 header")
    | Some hdr =>
      let first := default [] (head (lines hdr)) in
      match split_whitespace first !! 1%nat ≫= parse_u16 with
      | None => RFailed (lit "bad status line: " ++ first)
      | Some status =>
        if status =? 200 then RBody body
        else if bool_decide (status ∈ [301; 302; 307; 308]) then
          match head (omap location_of (lines hdr)) with
          | Some loc => RMoved loc
          | None => RFailed (lit "redirect without Location")
          end
        else RFailed (lit "HTTP " ++ dec_string status ++ lit ": " ++ take 240 (from_utf8_lossy body))
      end
    end
  end.

(** The exchange with a host is a parameter; [None] when the fuel is used up. *)
Fixpoint https_raw_get (fuel : nat) (exchange : str -> str -> res bytes str) (host path : str) : option (res bytes str) :=
  match fuel with
  | O => None
  | S fuel =>
    match exchange host path with
    | Ok buf =>
      match parse_response buf with
      | RBody body => Some (Ok body)
      | RFailed e => Some (Err e)
      | RMoved loc => let '(h, p) := parse_url loc host in https_raw_get fuel exchange h p
      end
    | e => Some e
    end
  end.

(** ** Applying *)

Inductive ApplyError :=
| ADownload (e : str) | AExtract (e : str) | ASignatureMissing | ASignatureInvalid (e : str) | ABinaryNotFound | AAmbiguousBinary (name : str) | AStaging (e : str).

Definition normalize_embedded_pubkey (raw : option str) : option str :=
  s ← raw; let trimmed := trim s in if bool_decide (trimmed = []) then None else Some trimmed.

Definition signature_url_for_asset (asset_url : str) : str :=
  match split_once [63] asset_url with
  | Some (base, query) => base ++ lit ".minisig?" ++ query
  | None => asset_url ++ lit ".minisig"
  end.

(** A regular file of an archive: the directories, the name, the content. *)
Record Entry := mkEntry { e_dirs : list str; e_name : str; e_content : bytes }.

Class UpdateLib := {
  download_get : str -> str -> res bytes str;
  (** [None] when the signature is the key's for that content. *)
  minisign : str -> bytes -> str -> option str;
  extract_zip : bytes -> res (list Entry) str;
  extract_tar_gz : bytes -> res (list Entry) str;
  lowercase : str -> str
}.

(** [Path::file_stem] *)
Definition file_stem (name : str) : str :=
  match rsplit_once 46 name with Some ([], _) => name | Some (a, _) => a | None => name end.

Definition binary_named (target_name : str) (e : Entry) : Prop :=
  eq_ignore_ascii_case (e_name e) target_name = true \/ eq_ignore_ascii_case (e_name e) (file_stem target_name) = true
  \/ eq_ignore_ascii_case (e_name e) (file_stem target_name ++ lit ".exe") = true.
#[export] Instance binary_named_dec t e : Decision (binary_named t e).
Proof. unfold binary_named. apply _. Defined.

Definition find_binary (es : list Entry) (target_name : str) : res Entry ApplyError :=
  match filter (binary_named target_name) es with
  | [] => Err ABinaryNotFound
  | [e] => Ok e
  | _ => Err (AAmbiguousBinary target_name)
  end.

Notation Files := (gmap str bytes).
Record StagedUpdate := mkStaged { staged_path : str; relaunch_path : str }.

Definition swap_target (s : StagedUpdate) : str :=
  if ends_with (staged_path s) (lit ".new") then take (length (staged_path s) - 4) (staged_path s) else staged_path s.

(** [std::fs::copy] or [tokio::fs::write]: done, or failed with so many bytes written, or
    without touching the destination. *)
Inductive Copy := CopyDone | CopyFailed (written : option nat).

Definition fs_write (path : str) (body : bytes) (o : Copy) (fs : Files) : bool * Files :=
  match o with
  | CopyDone => (true, <[path := body]> fs)
  | CopyFailed (Some n) => (false, <[path := take n body]> fs)
  | CopyFailed None => (false, fs)
  end.

(** *** Paths *)

(** [Path::join]: an absolute path replaces the base. *)
Definition join (base name : str) : str := match name with 47 :: _ => name | _ => base ++ 47 :: name end.

(** The file that a path leads to: empty components and dots are skipped, two dots go up. *)
Fixpoint resolve_parts (up : list str) (parts : list str) : list str :=
  match parts with
  | [] => reverse up
  | c :: parts =>
    if bool_decide (c = []) || bool_decide (c = lit ".") then resolve_parts up parts
    else if bool_decide (c = lit "..") then resolve_parts (tail up) parts
    else resolve_parts (c :: up) parts
  end.
Definition resolve (p : str) : str := resolve_parts [] (split_on 47 p) ≫= cons 47.

(** [Path::file_name], or nothing. *)
Definition file_name (p : str) : str :=
  match last (filter (fun c => c <> [] /\ c <> lit ".") (split_on 47 p)) with
  | Some c => if bool_decide (c = lit "..") then [] else c
  | None => []
  end.

(** [TempDir]'s drop: everything in the directory goes. *)
Definition inside (d p : str) : bool := starts_with p (d ++ [47]).
Definition remove_scratch (d : str) (fs : Files) : Files := filter (fun kv => inside d kv.1 = false) fs.

Section Apply.
Context {L : UpdateLib}.

Definition download_asset (asset_url out_path : str) (o : Copy) (fs : Files) : res Z str * Files :=
  match split_url asset_url with
  | None => (Err (lit "bad asset URL: " ++ asset_url), fs)
  | Some (host, path) =>
    match download_get host path with
    | Ok body =>
      let '(ok, fs) := fs_write (resolve out_path) body o fs in
      (if ok : bool then Ok (len body) else Err (lit "write " ++ out_path), fs)
    | Err e => (Err e, fs)
    | Panic => (Panic, fs)
    end
  end.

Definition extract_archive (archive_path : str) (archive : bytes) : res (list Entry) ApplyError :=
  let lower := lowercase (file_name archive_path) in
  if ends_with lower (lit ".zip") then map_err AExtract (extract_zip archive)
  else if ends_with lower (lit ".tar.gz") || ends_with lower (lit ".tgz") then map_err AExtract (extract_tar_gz archive)
  else Err (AExtract (lit "unsupported archive type: " ++ lower)).

Definition new_path (exe : str) : str := exe ++ lit ".new".

(** [dir] is the directory of the executable with its separator.  (The second temporary
    directory, into which the entries are extracted, and the mode set on the staged file are
    left out.) *)
Definition stage_from_archive (dir exe_name archive_path : str) (cp : Copy) (fs : Files) : res StagedUpdate ApplyError * Files :=
  match (let? archive := ok_or (fs !! resolve archive_path) (AExtract (lit "open")) in
         let? es := extract_archive archive_path archive in find_binary es exe_name) with
  | Ok e =>
    let staged := new_path (dir ++ exe_name) in
    let '(ok, fs) := fs_write staged (e_content e) cp (delete staged fs) in
    (if ok : bool then Ok (mkStaged staged (dir ++ exe_name)) else Err (AStaging (lit "copy staged")), fs)
  | Err e => (Err e, fs)
  | Panic => (Panic, fs)
  end.

(** [verify_minisign_signature]: [None] when it holds. *)
Definition verify_minisign_signature (pubkey archive_path sig_text : str) (fs : Files) : option str :=
  match fs !! resolve archive_path with
  | Some archive => minisign (trim pubkey) archive sig_text
  | None => Some (lit "open archive")
  end.

(** What the system does with one run: the temporary directory, when one can be made; the
    writes of the archive, of the signature and of the binary; and whether the directory
    could be removed. *)
Record StageEnv := mkStage { se_scratch : option str; se_archive : Copy; se_sig : Copy; se_copy : Copy; se_removed : bool }.

(** With the temporary directory [scratch], before it is dropped. *)
Definition stage_in (scratch : str) (pubkey : option str) (dir exe_name archive_url archive_name : str) (env : StageEnv) (fs : Files) :
    res StagedUpdate ApplyError * Files :=
  let archive_path := join scratch archive_name in
  match download_asset archive_url archive_path (se_archive env) fs with
  | (Err e, fs) => (Err (ADownload e), fs)
  | (Panic, fs) => (Panic, fs)
  | (Ok _, fs) =>
    let sig_path := join scratch (archive_name ++ lit ".minisig") in
    let '(sig_result, fs) := download_asset (signature_url_for_asset archive_url) sig_path (se_sig env) fs in
    match normalize_embedded_pubkey pubkey, sig_result with
    | Some pk, Ok _ =>
      match (fs !! resolve sig_path) ≫= from_utf8 with
      | None => (Err (ASignatureInvalid (lit "read sig")), fs)
      | Some sig_text =>
        match verify_minisign_signature pk archive_path sig_text fs with
        | Some e => (Err (ASignatureInvalid e), fs)
        | None => stage_from_archive dir exe_name archive_path (se_copy env) fs
        end
      end
    | Some _, _ => (Err ASignatureMissing, fs)
    | None, _ => stage_from_archive dir exe_name archive_path (se_copy env) fs
    end
  end.

Definition download_and_stage (pubkey : option str) (dir exe_name archive_url archive_name : str) (env : StageEnv) (fs : Files) :
    res StagedUpdate ApplyError * Files :=
  match se_scratch env with
  | None => (Err (AStaging (lit "tempdir")), fs)
  | Some scratch =>
    let '(r, fs) := stage_in scratch pubkey dir exe_name archive_url archive_name env fs in
    (r, if se_removed env then remove_scratch scratch fs else fs)
  end.

(** The rename on Linux; what follows is the new process. *)
Definition restart_to_apply (s : StagedUpdate) (fs : Files) : Files :=
  match fs !! staged_path s with
  | Some new => <[swap_target s := new]> (delete (staged_path s) fs)
  | None => fs
  end.

(** [cleanup_stale_old], then the late rename; [ok] says whether it succeeds. *)
Definition finalize_pending_at_startup (exe : str) (ok : bool) (fs : Files) : Files :=
  let fs := delete (exe ++ lit ".old") fs in
  match fs !! new_path exe with
  | Some new => if ok then <[exe := new]> (delete (new_path exe) fs) else fs
  | None => fs
  end.

(** ** Runs *)

(** An update that is fetched and, when it was staged, applied; or a start of the program. *)
Inductive Event := EvStage (url archive_name : str) (env : StageEnv) (applied : bool) | EvStart (ok : bool).

Definition run_event (pubkey : option str) (dir exe_name : str) (ev : Event) (fs : Files) : Files :=
  match ev with
  | EvStage url name env applied =>
    match download_and_stage pubkey dir exe_name url name env fs with
    | (Ok s, fs) => if applied then restart_to_apply s fs else fs
    | (_, fs) => fs
    end
  | EvStart ok => finalize_pending_at_startup (dir ++ exe_name) ok fs
  end.

Definition run_events (pubkey : option str) (dir exe_name : str) (evs : list Event) (fs : Files) : Files :=
  fold_left (fun fs ev => run_event pubkey dir exe_name ev fs) evs fs.

(** The content of the one file with a name of the executable in an archive that the key has
    signed. *)
Definition genuine (pk exe_name : str) (content : bytes) : Prop :=
  exists archive sig path es1 e es2, minisign pk archive sig = None /\ extract_archive path archive = Ok (es1 ++ e :: es2)
  /\ binary_named exe_name e /\ Forall (fun x => ~ binary_named exe_name x) (es1 ++ es2) /\ e_content e = content.

Lemma find_binary_only es exe_name e : find_binary es exe_name = Ok e ->
  exists es1 es2, es = es1 ++ e :: es2 /\ binary_named exe_name e /\ Forall (fun x => ~ binary_named exe_name x) (es1 ++ es2).
Proof.
  unfold find_binary. destruct (filter (binary_named exe_name) es) as [|e0 [|]] eqn:E; [done| |done]. intros [= ->].
  induction es as [|x es IH]; [done|]. rewrite filter_cons in E. case_decide as Hx.
  - injection E as -> E. exists [], es. split_and!; [done|done|]. apply Forall_forall. intros y Hy Hb.
    assert (y ∈ filter (binary_named exe_name) es) as H by (by apply list_elem_of_filter). rewrite E in H. by apply elem_of_nil in H.
  - destruct (IH E) as (es1 & es2 & -> & He & Hf). exists (x :: es1), es2. split_and!; [done|done|]. by constructor.
Qed.

Lemma new_path_suffix exe : swap_target (mkStaged (new_path exe) exe) = exe.
Proof.
  unfold swap_target, new_path. cbn [staged_path]. assert (ends_with (exe ++ lit ".new") (lit ".new") = true) as ->.
  { unfold ends_with, starts_with. by rewrite reverse_app, strip_prefix_app. }
  rewrite length_app. cbn [length lit]. rewrite take_app_le by (cbn; lia). apply take_ge. cbn. lia.
Qed.

Lemma new_path_ne (exe suffix : str) : suffix <> [] -> exe ++ suffix <> exe.
Proof. intros Hs E. apply (f_equal length) in E. rewrite length_app in E. destruct suffix; [done|cbn in E; lia]. Qed.

Lemma pubkey_trimmed raw pk : normalize_embedded_pubkey raw = Some pk -> trim pk = pk.
Proof. unfold normalize_embedded_pubkey. destruct raw as [k|]; [|done]. cbn. case_bool_decide; [done|]. intros [= <-]. apply trim_trim. Qed.

(** *** Paths that stay in the temporary directory *)

(** A file name: not empty, not a dot or two, without a separator. *)
Definition plain_name (c : str) : Prop := c <> [] /\ c <> lit "." /\ c <> lit ".." /\ 47 ∉ c.

(** A resolved path. *)
Definition plain_path (p : str) : Prop := exists cs, Forall plain_name cs /\ p = cs ≫= cons 47.

Lemma split_on_name c r : 47 ∉ c -> split_on 47 (c ++ 47 :: r) = c :: split_on 47 r /\ split_on 47 c = [c].
Proof.
  induction c as [|x c IH]; intros Hc; [done|]. apply not_elem_of_cons in Hc as [Hx Hc]. destruct (IH Hc) as [E1 E2].
  split; cbn [app split_on]; (destruct (Z.eqb_spec x 47); [congruence|]); by rewrite ?E1, ?E2.
Qed.

Lemma split_plain c cs : 47 ∉ c -> Forall plain_name cs -> split_on 47 (c ++ (cs ≫= cons 47)) = c :: cs.
Proof.
  intros Hc Hcs. revert c Hc. induction Hcs as [|d cs Hd _ IH]; intros c Hc; cbn [mbind list_bind].
  - rewrite app_nil_r. by apply split_on_name.
  - change ((47 :: d) ++ (cs ≫= cons 47)) with (47 :: (d ++ (cs ≫= cons 47))). rewrite (proj1 (split_on_name c _ Hc)). f_equal. apply IH, Hd.
Qed.

Lemma resolve_plain p : plain_path p -> resolve p = p.
Proof.
  intros (cs & Hcs & ->). unfold resolve. change (cs ≫= cons 47) with ([] ++ (cs ≫= cons 47)) at 1.
  rewrite split_plain by (done || apply not_elem_of_nil). cbn [resolve_parts]. rewrite bool_decide_true by done. cbn [orb]. f_equal.
  enough (forall up, resolve_parts up cs = reverse up ++ cs) as -> by done.
  induction Hcs as [|c cs (H1 & H2 & H3 & _) _ IH]; intros up; cbn [resolve_parts]; [by rewrite app_nil_r|].
  rewrite !bool_decide_false by done. cbn [orb]. rewrite IH, reverse_cons, <- app_assoc. done.
Qed.

Lemma join_plain scratch name : plain_path scratch -> plain_name name ->
  resolve (join scratch name) = scratch ++ 47 :: name /\ join scratch name = scratch ++ 47 :: name.
Proof.
  intros (cs & Hcs & ->) Hn. pose proof Hn as (H1 & _ & _ & H4). assert (join (cs ≫= cons 47) name = (cs ≫= cons 47) ++ 47 :: name) as E.
  { unfold join. destruct name as [|x name]; [done|]. apply not_elem_of_cons in H4 as [Hx _]. destruct x as [|q|q]; try done.
    do 6 (destruct q as [q|q|]; try done). }
  split; [|done]. rewrite E. apply resolve_plain. exists (cs ++ [name]). split; [by apply Forall_app; split; [|constructor]|].
  rewrite bind_app. cbn. by rewrite app_nil_r.
Qed.

(** A path with more at the end of its last name. *)
Lemma plain_suffix p suffix : plain_path p -> p <> [] -> (2 < length suffix)%nat -> 47 ∉ suffix ->
  plain_path (p ++ suffix) /\ exists r, p ++ suffix = 47 :: r.
Proof.
  intros (cs & Hcs & ->) Hp Hl Hs. destruct cs as [|c cs _] using rev_ind; [done|]. apply Forall_app in Hcs as [Hcs Hc%Forall_cons]. destruct Hc as [Hc _].
  assert (((cs ++ [c]) ≫= cons 47) ++ suffix = (cs ++ [c ++ suffix]) ≫= cons 47) as E by (rewrite !bind_app; cbn; by rewrite !app_nil_r, <- app_assoc).
  rewrite E. split.
  - exists (cs ++ [c ++ suffix]). split; [|done]. apply Forall_app. split; [done|]. apply Forall_singleton. destruct Hc as (H1 & _ & _ & H4).
    split_and!; [by destruct c|..]; [intros E'; apply (f_equal length) in E'; rewrite length_app in E'; cbn in E'; lia..|]. rewrite elem_of_app. naive_solver.
  - destruct cs; cbn; by eexists.
Qed.

Lemma join_absolute scratch p : (exists r, p = 47 :: r) -> join scratch p = p.
Proof. by intros [r ->]. Qed.

Lemma inside_file scratch name : inside scratch (scratch ++ 47 :: name) = true.
Proof. unfold inside, starts_with. replace (scratch ++ 47 :: name) with ((scratch ++ [47]) ++ name) by (by rewrite <- app_assoc). by rewrite strip_prefix_app. Qed.

(** A file next to the executable is not in a directory that the executable's is not in. *)
Lemma outside scratch dir file : inside scratch dir = false -> 47 ∉ file -> inside scratch (dir ++ file) = false.
Proof.
  intros Hd Hf. unfold inside, starts_with in *. destruct (strip_prefix (scratch ++ [47]) (dir ++ file)) as [r|] eqn:E; [|done].
  apply strip_prefix_Some in E. set (base := scratch ++ [47]) in *. destruct (decide (length base <= length dir)%nat) as [Hl|Hl].
  - assert (dir = base ++ drop (length base) dir) as Ed.
    { rewrite <- (take_drop (length base) dir) at 1. f_equal. apply (f_equal (take (length base))) in E.
      rewrite take_app_length, take_app_le in E by done. done. }
    rewrite Ed, strip_prefix_app in Hd. done.
  - assert (47 ∈ file); [|done]. apply (f_equal (drop (length dir))) in E. rewrite drop_app_length in E. rewrite E.
    unfold base in *. rewrite length_app in Hl. cbn in Hl. rewrite <- app_assoc, drop_app_le by lia. apply elem_of_app. right. by left.
Qed.

Lemma write_to_other path body o fs p : p <> path -> snd (fs_write path body o fs) !! p = fs !! p.
Proof. intros H. unfold fs_write. destruct o as [|[n|]]; cbn; [by rewrite lookup_insert_ne..|done]. Qed.

Lemma download_other url path o fs p : p <> resolve path -> snd (download_asset url path o fs) !! p = fs !! p.
Proof.
  intros H. unfold download_asset. destruct (split_url url) as [[h q]|]; [|done]. destruct (download_get h q) as [body| |]; [|done..].
  pose proof (write_to_other (resolve path) body o fs p H). by destruct (fs_write _ _ _ _).
Qed.

Lemma remove_scratch_other scratch fs p : inside scratch p = false -> remove_scratch scratch fs !! p = fs !! p.
Proof.
  intros H. unfold remove_scratch. destruct (fs !! p) as [v|] eqn:E.
  - by apply map_lookup_filter_Some.
  - apply map_lookup_filter_None. by left.
Qed.

(** The two files that matter after a run of staging: nothing happened to them, or a genuine
    binary was copied next to the executable, whole, in part or not at all. *)
Inductive staged_to (pk exe_name exe : str) (cp : Copy) (fs : Files) : res StagedUpdate ApplyError -> Files -> Prop :=
| st_same r fs' : (forall s, r <> Ok s) -> r <> Err (AStaging (lit "copy staged")) -> fs' !! exe = fs !! exe -> fs' !! new_path exe = fs !! new_path exe ->
    staged_to pk exe_name exe cp fs r fs'
| st_done content fs' : genuine pk exe_name content -> cp = CopyDone -> fs' !! exe = fs !! exe -> fs' !! new_path exe = Some content ->
    staged_to pk exe_name exe cp fs (Ok (mkStaged (new_path exe) exe)) fs'
| st_failed content n fs' : genuine pk exe_name content -> cp = CopyFailed n -> fs' !! exe = fs !! exe ->
    fs' !! new_path exe = (fun n => take n content) <$> n ->
    staged_to pk exe_name exe cp fs (Err (AStaging (lit "copy staged"))) fs'.

(** Staging an archive that the key has signed. *)
Lemma stage_from_archive_to pk dir exe_name path cp fs archive sig : fs !! resolve path = Some archive -> minisign pk archive sig = None ->
  let '(r, fs') := stage_from_archive dir exe_name path cp fs in staged_to pk exe_name (dir ++ exe_name) cp fs r fs'.
Proof.
  intros Hf Hm. unfold stage_from_archive. rewrite Hf. cbn [ok_or res_bind].
  destruct (extract_archive path archive) as [es|e|] eqn:Ex; cbn [res_bind].
  - destruct (find_binary es exe_name) as [e|e|] eqn:Ef.
    + destruct (find_binary_only _ _ _ Ef) as (es1 & es2 & -> & Hb & Hother).
      assert (genuine pk exe_name (e_content e)) as Hg by (by exists archive, sig, path, es1, e, es2).
      assert (dir ++ exe_name <> new_path (dir ++ exe_name)) as Hne by (intros E; symmetry in E; revert E; by apply new_path_ne).
      destruct cp as [|[n|]]; cbn [fs_write].
      * eapply st_done; [exact Hg|done| |by rewrite lookup_insert_eq]. by rewrite lookup_insert_ne, lookup_delete_ne.
      * eapply st_failed; [exact Hg|done| |by rewrite lookup_insert_eq]. by rewrite lookup_insert_ne, lookup_delete_ne.
      * eapply st_failed; [exact Hg|done| |by rewrite lookup_delete_eq]. by rewrite lookup_delete_ne.
    + apply st_same; [done| |done|done]. intros [= ->]. unfold find_binary in Ef. by destruct (filter _ es) as [|? [|]].
    + by apply st_same.
  - apply st_same; [done| |done|done]. intros [= ->]. unfold extract_archive in Ex.
    destruct (ends_with _ _); [by destruct (extract_zip archive)|]. destruct (_ || _); [by destruct (extract_tar_gz archive)|done].
  - by apply st_same.
Qed.

(** A staging environment in which the archive has a plain name, and the temporary directory
    does not hold the executable's. *)
Definition safe_run (dir name : str) (env : StageEnv) : Prop :=
  plain_name name /\ forall scratch, se_scratch env = Some scratch -> plain_path scratch /\ inside scratch dir = false.

Lemma plain_sig name : plain_name name -> plain_name (name ++ lit ".minisig").
Proof.
  intros (H1 & _ & _ & H4). split_and!; [by destruct name|..].
  1,2: intros E; apply (f_equal length) in E; rewrite length_app in E; cbn in E; lia.
  rewrite elem_of_app. intros [H|H]; [done|]. by apply (bool_decide_unpack (47 ∉ lit ".minisig")) in H; [|vm_compute; exact I].
Qed.

Lemma staged_to_frame pk exe_name exe cp fs fs1 r fs2 fs3 :
  fs1 !! exe = fs !! exe -> fs1 !! new_path exe = fs !! new_path exe -> fs3 !! exe = fs2 !! exe -> fs3 !! new_path exe = fs2 !! new_path exe ->
  staged_to pk exe_name exe cp fs1 r fs2 -> staged_to pk exe_name exe cp fs r fs3.
Proof.
  intros A1 A2 B1 B2 H. inversion H; subst.
  - apply st_same; [done|done|congruence|congruence].
  - eapply st_done; [done|done|congruence|congruence].
  - eapply st_failed; [done|done|congruence|congruence].
Qed.

Lemma stage_in_to scratch raw pk dir exe_name url name env fs : normalize_embedded_pubkey raw = Some pk ->
  plain_name name -> plain_path scratch -> inside scratch dir = false -> 47 ∉ exe_name ->
  let '(r, fs') := stage_in scratch raw dir exe_name url name env fs in staged_to pk exe_name (dir ++ exe_name) (se_copy env) fs r fs'.
Proof.
  intros Hpk Hn Hs Hd He. unfold stage_in. rewrite Hpk.
  assert (trim pk = pk) as Htrim by (by eapply pubkey_trimmed).
  destruct (join_plain scratch name Hs Hn) as [J1 _]. destruct (join_plain scratch _ Hs (plain_sig _ Hn)) as [J2 _].
  assert (forall f n, 47 ∉ f -> dir ++ f <> scratch ++ 47 :: n) as Hout.
  { intros f n Hf E. pose proof (outside scratch dir f Hd Hf) as H. by rewrite E, inside_file in H. }
  assert (47 ∉ exe_name ++ lit ".new") as He'.
  { rewrite elem_of_app. intros [H|H]; [done|]. by apply (bool_decide_unpack (47 ∉ lit ".new")) in H; [|vm_compute; exact I]. }
  assert (forall url n o fs, resolve (join scratch n) = scratch ++ 47 :: n ->
    snd (download_asset url (join scratch n) o fs) !! (dir ++ exe_name) = fs !! (dir ++ exe_name)
    /\ snd (download_asset url (join scratch n) o fs) !! new_path (dir ++ exe_name) = fs !! new_path (dir ++ exe_name)) as Hdl.
  { intros u n o f E. split; apply download_other; rewrite E; [by apply Hout|]. unfold new_path. rewrite <- app_assoc. by apply Hout. }
  destruct (Hdl url name (se_archive env) fs J1) as [A1 A2].
  destruct (download_asset url (join scratch name) (se_archive env) fs) as [[z|e|] fs1]; cbn [snd] in A1, A2; [|by apply st_same..].
  destruct (Hdl (signature_url_for_asset url) (name ++ lit ".minisig") (se_sig env) fs1 J2) as [B1 B2].
  destruct (download_asset (signature_url_for_asset url) _ (se_sig env) fs1) as [[z'|e|] fs2]; cbn [snd] in B1, B2;
    [|by apply st_same; [..|congruence|congruence]..].
  destruct ((fs2 !! _) ≫= from_utf8) as [sig_text|]; [|by apply st_same; [..|congruence|congruence]].
  unfold verify_minisign_signature. destruct (fs2 !! resolve (join scratch name)) as [archive|] eqn:Ea; [|by apply st_same; [..|congruence|congruence]].
  rewrite Htrim. destruct (minisign pk archive sig_text) as [e|] eqn:Em; [by apply st_same; [..|congruence|congruence]|].
  pose proof (stage_from_archive_to pk dir exe_name _ (se_copy env) fs2 archive sig_text Ea Em) as H.
  destruct (stage_from_archive _ _ _ _ fs2) as [r fs3]. eapply staged_to_frame; [..|exact H]; congruence.
Qed.

Lemma stage_cases raw pk dir exe_name url name env fs : normalize_embedded_pubkey raw = Some pk -> safe_run dir name env -> 47 ∉ exe_name ->
  let '(r, fs') := download_and_stage raw dir exe_name url name env fs in staged_to pk exe_name (dir ++ exe_name) (se_copy env) fs r fs'.
Proof.
  intros Hpk [Hn Hs] He. unfold download_and_stage. destruct (se_scratch env) as [scratch|]; [|by apply st_same].
  destruct (Hs scratch eq_refl) as [Hp Hd]. pose proof (stage_in_to scratch raw pk dir exe_name url name env fs Hpk Hn Hp Hd He) as H.
  destruct (stage_in _ _ _ _ _ _ _ _) as [r fs1]. destruct (se_removed env); [|done].
  assert (47 ∉ exe_name ++ lit ".new") as He'.
  { rewrite elem_of_app. intros [H'|H']; [done|]. by apply (bool_decide_unpack (47 ∉ lit ".new")) in H'; [|vm_compute; exact I]. }
  eapply staged_to_frame; [..|exact H]; try done; apply remove_scratch_other; [by apply outside|]. unfold new_path. rewrite <- app_assoc. by apply outside.
Qed.

(** The executable is there, as [old] or genuine; what is staged is genuine. *)
Definition install_ok (pk exe exe_name : str) (old : bytes) (fs : Files) : Prop :=
  (exists content, fs !! exe = Some content /\ (content = old \/ genuine pk exe_name content))
  /\ forall n, fs !! new_path exe = Some n -> genuine pk exe_name n.

Lemma paths_differ exe : new_path exe <> exe /\ exe ++ lit ".old" <> exe /\ exe ++ lit ".old" <> new_path exe.
Proof.
  split_and!; [by apply new_path_ne..|]. intros E. apply (inj (exe ++.)) in E. vm_compute in E. congruence.
Qed.

Lemma finalize_ok pk exe exe_name old ok fs : install_ok pk exe exe_name old fs -> install_ok pk exe exe_name old (finalize_pending_at_startup exe ok fs).
Proof.
  destruct (paths_differ exe) as (N1 & N2 & N3). intros [(c & Hc & Hg) Hn]. unfold finalize_pending_at_startup. cbv zeta. rewrite lookup_delete_ne by done.
  destruct (fs !! new_path exe) as [new|] eqn:En; [destruct ok|]; unfold install_ok; rewrite ?lookup_insert_eq, ?(lookup_insert_ne _ exe), ?lookup_delete_eq, ?lookup_delete_ne by done.
  - split; [exists new; auto|done].
  - rewrite En. eauto.
  - rewrite En. eauto.
Qed.

Lemma staged_ok raw pk dir exe_name old url name env applied fs (exe := dir ++ exe_name) : normalize_embedded_pubkey raw = Some pk ->
  safe_run dir name env -> 47 ∉ exe_name -> (forall n, se_copy env <> CopyFailed (Some n)) -> install_ok pk exe exe_name old fs ->
  install_ok pk exe exe_name old (run_event raw dir exe_name (EvStage url name env applied) fs).
Proof.
  intros Hpk Hsafe He Hcp [(c & Hc & Hg) Hn]. destruct (paths_differ exe) as (N1 & _). cbn [run_event].
  pose proof (stage_cases raw pk dir exe_name url name env fs Hpk Hsafe He) as H. fold exe in H.
  destruct (download_and_stage raw dir exe_name url name env fs) as [r fs'].
  destruct H as [r fs' Hr _ H1 H2|content fs' Hgen _ H1 H2|content n fs' Hgen Hcp' H1 H2].
  - destruct r as [s| |]; [by destruct (Hr s)|split; rewrite ?H1, ?H2; eauto..].
  - destruct applied; [|split; rewrite ?H1, ?H2; [eauto|by intros n [= <-]]].
    unfold restart_to_apply. cbn [staged_path]. rewrite H2, new_path_suffix. unfold install_ok.
    rewrite lookup_insert_eq, lookup_insert_ne, lookup_delete_eq by done. split; [eauto|done].
  - destruct n as [n|]; [by destruct (Hcp n)|]. split; rewrite ?H1, ?H2; [eauto|done].
Qed.


(** An update whose copy was cut short is applied at the next start.  When the copy
    next to the executable fails part way, as on a full disk, staging reports an error and
    leaves the part; the next start renames it over the executable. *)
Theorem truncated_update_applied (raw : option str) (pk dir exe_name url name : str) (env : StageEnv) (n : nat) (fs fs' : Files)
    (Hpk : normalize_embedded_pubkey raw = Some pk) (Hsafe : safe_run dir name env) (Hexe : 47 ∉ exe_name) (Hcopy : se_copy env = CopyFailed (Some n))
    (Hfail : download_and_stage raw dir exe_name url name env fs = (Err (AStaging (lit "copy staged")), fs')) :
  exists content, genuine pk exe_name content /\ finalize_pending_at_startup (dir ++ exe_name) true fs' !! (dir ++ exe_name) = Some (take n content).
Proof.
  pose proof (stage_cases raw pk dir exe_name url name env fs Hpk Hsafe Hexe) as H. rewrite Hfail in H.
  inversion H as [r f Hr Hr' H1 H2|content f Hg Hc H1 H2|content k f Hg Hc H1 H2]; subst; [done|]. rewrite Hcopy in Hc. injection Hc as <-. cbn in H2.
  exists content. split; [done|]. unfold finalize_pending_at_startup. cbv zeta.
  destruct (paths_differ (dir ++ exe_name)) as (_ & _ & Hne). rewrite lookup_delete_ne, H2 by done. by rewrite lookup_insert_eq.
Qed.

(** The name of the archive decides where unchecked bytes are written.  The download goes to
    [scratch.join(archive_name)] before its signature is looked at, with the name that the
    answer of the release API gives.  With the path of the executable and [.new] for a name,
    whatever the download brought is there when staging fails for want of a signature, and
    stays there: the next start renames it over the executable. *)
Theorem archive_name_escapes (raw : option str) (pk dir exe_name url : str) (env : StageEnv) (fs : Files) (scratch host path : str) (body : bytes)
    (Hpk : normalize_embedded_pubkey raw = Some pk)
    (Hexe : plain_path (dir ++ exe_name) /\ 47 ∉ exe_name /\ exe_name <> []) (Hscratch : se_scratch env = Some scratch) (Hout : inside scratch dir = false)
    (Hurl : split_url url = Some (host, path)) (Hget : download_get host path = Ok body) (Hwrite : se_archive env = CopyDone)
    (Hforged : forall sig, minisign pk body sig <> None) :
  exists e fs', download_and_stage raw dir exe_name url (new_path (dir ++ exe_name)) env fs = (Err e, fs')
  /\ finalize_pending_at_startup (dir ++ exe_name) true fs' !! (dir ++ exe_name) = Some body.
Proof.
  destruct Hexe as (Hplain & He & Hne). set (exe := dir ++ exe_name) in *.
  assert (exe <> []) as Hnil by (subst exe; by destruct dir, exe_name).
  assert (forall suffix, (2 < length suffix)%nat -> 47 ∉ suffix -> resolve (join scratch (exe ++ suffix)) = exe ++ suffix /\ join scratch (exe ++ suffix) = exe ++ suffix) as Hj.
  { intros suffix H1 H2. destruct (plain_suffix exe suffix Hplain Hnil H1 H2) as [Hp Ha]. rewrite join_absolute by done. split; [by apply resolve_plain|done]. }
  destruct (Hj (lit ".new")) as [J1 J1']; [cbn; lia|apply (bool_decide_unpack _); vm_compute; exact I|].
  destruct (Hj (lit ".new" ++ lit ".minisig")) as [J2 J2']; [cbn; lia|apply (bool_decide_unpack _); vm_compute; exact I|]. rewrite app_assoc in J2, J2'.
  fold (new_path exe) in *. assert (trim pk = pk) as Htrim by (by eapply pubkey_trimmed).
  assert (forall e fs', fs' !! new_path exe = Some body -> exists e' fs'', (@Err StagedUpdate ApplyError e, if se_removed env then remove_scratch scratch fs' else fs') = (Err e', fs'')
    /\ finalize_pending_at_startup exe true fs'' !! exe = Some body) as Hend.
  { intros e fs' Hf. eexists e, _. split; [reflexivity|]. assert ((if se_removed env then remove_scratch scratch fs' else fs') !! new_path exe = Some body) as Hf'.
    { destruct (se_removed env); [|done]. rewrite remove_scratch_other; [done|]. unfold new_path, exe. rewrite <- app_assoc. apply outside; [done|].
      rewrite elem_of_app. intros [H'|H']; [done|]. by apply (bool_decide_unpack (47 ∉ lit ".new")) in H'; [|vm_compute; exact I]. }
    unfold finalize_pending_at_startup. cbv zeta. destruct (paths_differ exe) as (_ & _ & Hd). rewrite lookup_delete_ne, Hf' by done. by rewrite lookup_insert_eq. }
  unfold download_and_stage. rewrite Hscratch. unfold stage_in. unfold download_asset at 1. rewrite Hurl, Hget, Hwrite, J1. cbn [fs_write].
  set (fs1 := <[new_path exe := body]> fs).
  assert (snd (download_asset (signature_url_for_asset url) (join scratch (new_path exe ++ lit ".minisig")) (se_sig env) fs1) !! new_path exe = Some body) as Hsig.
  { rewrite download_other; [by apply lookup_insert_eq|]. rewrite J2. intros E. symmetry in E. revert E. by apply new_path_ne. }
  destruct (download_asset (signature_url_for_asset url) _ (se_sig env) fs1) as [[z|e|] fs2]; cbn [snd] in Hsig; rewrite Hpk; [|by apply Hend..].
  destruct ((fs2 !! _) ≫= from_utf8) as [sig|]; [|by apply Hend]. unfold verify_minisign_signature. rewrite J1, Hsig, Htrim.
  destruct (minisign pk body sig) as [e|] eqn:Em; [by apply Hend|by destruct (Hforged sig)].
Qed.
End Apply.

(** ** What is offered *)

(** Part [i] of a version as a number; a part that is not there is 0. *)
Definition num (i : nat) (v : str) : Z := default 0 (parse_u64 (nth i (version_parts v) (lit "0"))).

(** Every part is a number. *)
Definition numeric (v : str) : Prop := Forall (fun p => is_Some (parse_u64 p)) (version_parts v).

Lemma numeric_num i v : numeric v -> parse_u64 (nth i (version_parts v) (lit "0")) = Some (num i v).
Proof.
  unfold numeric. intros H. unfold num. destruct (decide (i < length (version_parts v))%nat) as [Hi|Hi].
  - rewrite Forall_forall in H. destruct (H (nth i (version_parts v) (lit "0"))) as [x ->]; [apply list_elem_of_In, nth_In; lia|done].
  - rewrite nth_overflow by lia. vm_compute. reflexivity.
Qed.

Lemma newer_from_spec a b n i : numeric a -> numeric b ->
  newer_from n i (version_parts a) (version_parts b) = true
  <-> exists k, (i <= k < i + n)%nat /\ (forall j, (i <= j < k)%nat -> num j a = num j b) /\ num k b < num k a.
Proof.
  intros Ha Hb. revert i. induction n as [|n IH]; intros i; cbn [newer_from]; [split; [done|intros (k & ? & _); lia]|].
  rewrite (numeric_num i a Ha), (numeric_num i b Hb). destruct (Z.eqb_spec (num i a) (num i b)) as [E|E]; cbn [negb].
  - rewrite IH. split; intros (k & Hk & Hj & Hlt).
    + exists k. split_and!; [lia|lia| |done]. intros j Hij. destruct (decide (j = i)) as [->|]; [done|apply Hj; lia].
    + assert (k <> i) by (intros ->; lia). exists k. split_and!; [lia|lia| |done]. intros j Hij. apply Hj. lia.
  - rewrite Z.ltb_lt. split; [intros Hlt; exists i; split_and!; [lia|lia|intros; lia|done]|].
    intros (k & Hk & Hj & Hlt). destruct (decide (k = i)) as [->|]; [done|]. by rewrite (Hj i) in E by lia.
Qed.

(** Numeric versions are compared part by part as numbers, missing parts as 0: a
    version is newer exactly when, at the first part where the two differ, its part is
    greater.  So no version is newer than itself, and of two that differ in some part exactly
    one is newer. *)
Theorem version_order (a b : str) (Ha : numeric a) (Hb : numeric b) :
  (is_newer a b = true <-> exists k, (forall j, (j < k)%nat -> num j a = num j b) /\ num k b < num k a)
  /\ is_newer a a = false /\ (is_newer a b = true -> is_newer b a = false)
  /\ ((exists k, num k a <> num k b) -> is_newer a b = true \/ is_newer b a = true).
Proof.
  assert (forall a b, numeric a -> numeric b -> is_newer a b = true <-> exists k, (forall j, (j < k)%nat -> num j a = num j b) /\ num k b < num k a) as H.
  { clear. intros a b Ha Hb. unfold is_newer. rewrite newer_from_spec by done. split; intros (k & H).
    - exists k. destruct H as (Hk & Hj & Hlt). split; [intros j ?; apply Hj; lia|done].
    - destruct H as [Hj Hlt]. exists k. split_and!; [lia| |intros j ?; apply Hj; lia|done].
      destruct (decide (k < length (version_parts a) `max` length (version_parts b))%nat); [lia|].
      unfold num in Hlt. rewrite !nth_overflow in Hlt by lia. lia. }
  split_and!; [by apply H| | |].
  - destruct (is_newer a a) eqn:E; [|done]. apply H in E as (k & _ & ?); [lia|done..].
  - intros (k & Hj & Hlt)%H; [|done..]. destruct (is_newer b a) eqn:E; [|done]. apply H in E as (k' & Hj' & Hlt'); [|done..].
    destruct (Nat.lt_trichotomy k k') as [?|[->|?]]; [rewrite Hj' in Hlt by done; lia|lia|rewrite Hj in Hlt' by done; lia].
  - intros (k & Hk). induction (lt_wf k) as [k _ IH]. destruct (decide (Exists (fun j => num j a <> num j b) (List.seq 0%nat k))) as [(j & Hj%elem_of_seq & Hn)%Exists_exists|Hn].
    + apply (IH j); [lia|done].
    + assert (forall j, (j < k)%nat -> num j a = num j b) as He.
      { intros j Hj. destruct (decide (num j a = num j b)); [done|]. destruct Hn. apply Exists_exists. exists j. split; [apply elem_of_seq; lia|done]. }
      destruct (decide (num k b < num k a)); [left|right]; apply H; try done; exists k; [done|]. split; [intros j Hj; by rewrite He|lia].
Qed.

(** A pre-release counts as newer than its release, and a user of the pre-release is
    never offered the release; with parts that are not numbers, being newer is not even an
    order. *)
Theorem prerelease_misordered :
  is_newer (lit "2.5.0-beta") (lit "2.5.0") = true /\ is_newer (lit "2.5.0") (lit "2.5.0-beta") = false
  /\ is_newer (lit "2.10") (lit "2.9") = true /\ is_newer (lit "2.9") (lit "2.1a") = true /\ is_newer (lit "2.1a") (lit "2.10") = true.
Proof. vm_compute. repeat split. Qed.

(** The asset that is offered comes first, by preference and then by its place in
    the answer: it has every needle of the preference in its name and a URL, and nothing
    before it has. *)
Theorem asset_choice (assets : list Value) (os arch env endian : str) (r : ReleaseAsset)
    (Hr : pick_asset_for_target assets os arch env endian = Some r) :
  exists k needles i a, asset_preferences os arch env endian !! k = Some needles /\ assets !! i = Some a /\ asset_matches needles a = Some r
  /\ (forall k' needles' a', (k' < k)%nat -> asset_preferences os arch env endian !! k' = Some needles' -> a' ∈ assets -> asset_matches needles' a' = None)
  /\ (forall i' a', (i' < i)%nat -> assets !! i' = Some a' -> asset_matches needles a' = None).
Proof.
  unfold pick_asset_for_target in Hr. induction (asset_preferences os arch env endian) as [|needles prefs IH]; [done|]. rewrite bind_cons in Hr.
  destruct (omap (asset_matches needles) assets) as [|r' rs] eqn:E.
  - destruct (IH Hr) as (k & needles' & i & a & H1 & H2 & H3 & H4 & H5). exists (S k), needles', i, a. split_and!; [done..| |done].
    intros [|k'] n' a' Hk Hn Ha; [|by apply (H4 k' n' a'); [lia|..]]. injection Hn as <-. destruct (asset_matches needles a') eqn:Em; [|done].
    assert (r0 ∈ omap (asset_matches needles) assets) as Hin by (apply list_elem_of_omap; eauto). rewrite E in Hin. by apply elem_of_nil in Hin.
  - injection Hr as ->. assert (exists i a, assets !! i = Some a /\ asset_matches needles a = Some r /\ forall i' a', (i' < i)%nat -> assets !! i' = Some a' -> asset_matches needles a' = None)
      as (i & a & H1 & H2 & H3).
    { clear IH prefs. induction assets as [|a assets IH]; [done|]. cbn in E. destruct (asset_matches needles a) eqn:Em.
      - injection E as -> _. exists 0%nat, a. split_and!; [done|done|lia].
      - destruct (IH E) as (i & a0 & H1 & H2 & H3). exists (S i), a0. split_and!; [done|done|]. intros [|i'] a' Hi Ha; [by injection Ha as <-|by apply (H3 i'); [lia|]]. }
    exists 0%nat, needles, i, a. split_and!; [done..|lia|done].
Qed.

(** An asset of the answer. *)
Definition asset (name : string) : Value :=
  VObject [(lit "name", VString (lit name)); (lit "browser_download_url", VString (lit "https://x/" ++ lit name)); (lit "size", VNumber (lit "1"))].

(** Names that merely contain those of the build are offered too: the signature of
    an APK when it is listed before the APK, and the archive of another program of the same
    release, which sorts first. *)
Theorem wrong_asset_offered :
  ra_name <$> pick_asset_for_target [asset "rahgozar-android-x86-v2.apk.minisig"; asset "rahgozar-android-x86-v2.apk"]
    (lit "android") (lit "x86") (lit "gnu") (lit "little") = Some (lit "rahgozar-android-x86-v2.apk.minisig")
  /\ ra_name <$> pick_asset_for_target [asset "rahgozar-drive-relay-linux-musl-amd64.tar.gz"; asset "rahgozar-linux-musl-amd64.tar.gz"]
    (lit "linux") (lit "x86_64") (lit "musl") (lit "little") = Some (lit "rahgozar-drive-relay-linux-musl-amd64.tar.gz").
Proof. vm_compute. repeat split. Qed.

(** ** Redirects *)

(** From a place, [n] redirects lead to a body. *)
Inductive leads (exchange : str -> str -> res bytes str) : str -> str -> nat -> bytes -> Prop :=
| leads_body h p buf body : exchange h p = Ok buf -> parse_response buf = RBody body -> leads exchange h p 0 body
| leads_moved h p buf loc n body : exchange h p = Ok buf -> parse_response buf = RMoved loc ->
    leads exchange (fst (parse_url loc h)) (snd (parse_url loc h)) n body -> leads exchange h p (S n) body.

(** Redirects are followed, all of them.  However many there are on the way to a
    body, the body is fetched; and a place that redirects to itself is asked without end. *)
Theorem redirects_without_bound (exchange : str -> str -> res bytes str) (host path : str) :
  (forall n body fuel, leads exchange host path n body -> (n < fuel)%nat -> https_raw_get fuel exchange host path = Some (Ok body))
  /\ (forall buf loc, exchange host path = Ok buf -> parse_response buf = RMoved loc -> parse_url loc host = (host, path) ->
      forall fuel, https_raw_get fuel exchange host path = None).
Proof.
  split.
  - intros n body fuel H. revert fuel. induction H as [h p buf body E1 E2|h p buf loc n body E1 E2 _ IH]; intros [|fuel] Hf; try lia; cbn [https_raw_get]; rewrite E1, E2; [done|].
    destruct (parse_url loc h) as [h' p']. apply IH. lia.
  - intros buf loc E1 E2 E3 fuel. induction fuel as [|fuel IH]; [done|]. cbn [https_raw_get]. by rewrite E1, E2, E3.
Qed.

(** ** Examples *)

Lemma version_order_witness : is_newer (lit "0.9.0") (lit "0.8.99") = true /\ is_newer (lit "0.8.99") (lit "0.9.0") = false.
Proof.
  destruct (version_order (lit "0.9.0") (lit "0.8.99")) as (H1 & _ & H3 & _); [apply (bool_decide_unpack _); vm_compute; exact I..|].
  assert (is_newer (lit "0.9.0") (lit "0.8.99") = true) as E.
  { apply H1. exists 1%nat. split; [|vm_compute; reflexivity]. intros [|j] Hj; [reflexivity|lia]. }
  split; [exact E|exact (H3 E)].
Defined.

Lemma asset_choice_witness : exists k needles i a, asset_preferences (lit "linux") (lit "x86_64") (lit "gnu") (lit "little") !! k = Some needles
  /\ [asset "rahgozar-linux-musl-amd64.tar.gz"; asset "rahgozar-linux-amd64.tar.gz"] !! i = Some a
  /\ asset_matches needles a = Some (mkAsset (lit "rahgozar-linux-amd64.tar.gz") (lit "https://x/rahgozar-linux-amd64.tar.gz") 1).
Proof.
  destruct (asset_choice [asset "rahgozar-linux-musl-amd64.tar.gz"; asset "rahgozar-linux-amd64.tar.gz"] (lit "linux") (lit "x86_64") (lit "gnu") (lit "little")
    (mkAsset (lit "rahgozar-linux-amd64.tar.gz") (lit "https://x/rahgozar-linux-amd64.tar.gz") 1)) as (k & needles & i & a & H1 & H2 & H3 & _); [vm_compute; reflexivity|].
  exists k, needles, i, a. split; [exact H1|]. split; [exact H2|exact H3].
Defined.

Definition moved_to (loc : string) : bytes := lit "HTTP/1.1 302 Found" ++ CRLF ++ lit "Location: " ++ lit loc ++ CRLF2.
Lemma redirects_without_bound_witness :
  https_raw_get 9 (fun h p => if bool_decide (p = lit "/a") then Ok (moved_to "https://y/b") else Ok (lit "HTTP/1.1 200 OK" ++ CRLF2 ++ lit "body")) (lit "x") (lit "/a") = Some (Ok (lit "body"))
  /\ forall fuel, https_raw_get fuel (fun _ _ => Ok (moved_to "/a")) (lit "x") (lit "/a") = None.
Proof.
  split.
  - apply (proj1 (redirects_without_bound _ _ _) 1%nat); [|lia].
    eapply leads_moved; [reflexivity|vm_compute; reflexivity|]. eapply leads_body; vm_compute; reflexivity.
  - apply (proj2 (redirects_without_bound (fun _ _ => Ok (moved_to "/a")) (lit "x") (lit "/a")) (moved_to "/a") (lit "/a")); [reflexivity|vm_compute; reflexivity|reflexivity].
Defined.

(** An archive is the binary, with a text next to it; every archive but [evil] is signed with
    [sig]. *)
#[local] Instance toy_update : UpdateLib := {|
  download_get _ path := Ok (if ends_with path (lit ".minisig") then lit "sig" else if ends_with path (lit "evil.zip") then lit "evil" else lit "binary");
  minisign _ b sig := if bool_decide (sig = lit "sig" /\ b <> lit "evil") then None else Some (lit "bad");
  extract_zip b := Ok [mkEntry [] (lit "README") []; mkEntry [] (lit "rahgozar") b];
  extract_tar_gz b := Ok [mkEntry [] (lit "rahgozar") b];
  lowercase := to_ascii_lowercase
|}.

Definition installed : gmap str bytes := {[lit "/bin/rahgozar" := lit "old"]}.
Definition toy_env (cp : Copy) : StageEnv := mkStage (Some (lit "/tmp/x")) CopyDone CopyDone cp true.

Lemma toy_safe cp : safe_run (lit "/bin/") (lit "a.zip") (toy_env cp).
Proof.
  split; [split_and!; try done; apply (bool_decide_unpack _); vm_compute; exact I|]. intros scratch [= <-]. split; [|reflexivity].
  exists [lit "tmp"; lit "x"]. split; [|reflexivity]. repeat constructor; try done; apply (bool_decide_unpack _); vm_compute; exact I.
Qed.


Lemma truncated_update_applied_witness : exists content fs',
  download_and_stage (Some (lit "key")) (lit "/bin/") (lit "rahgozar") (lit "https://x/a.zip") (lit "a.zip") (toy_env (CopyFailed (Some 3%nat))) installed
    = (Err (AStaging (lit "copy staged")), fs')
  /\ genuine (lit "key") (lit "rahgozar") content /\ finalize_pending_at_startup (lit "/bin/rahgozar") true fs' !! lit "/bin/rahgozar" = Some (take 3 content).
Proof.
  destruct (truncated_update_applied (Some (lit "key")) (lit "key") (lit "/bin/") (lit "rahgozar") (lit "https://x/a.zip") (lit "a.zip")
    (toy_env (CopyFailed (Some 3%nat))) 3 installed
    (snd (download_and_stage (Some (lit "key")) (lit "/bin/") (lit "rahgozar") (lit "https://x/a.zip") (lit "a.zip") (toy_env (CopyFailed (Some 3%nat))) installed))
    eq_refl (toy_safe _) ltac:(apply (bool_decide_unpack _); vm_compute; exact I) eq_refl) as (content & H1 & H2); [vm_compute; reflexivity|].
  eexists content, _. split; [vm_compute; reflexivity|]. split; [exact H1|exact H2].
Defined.

Lemma archive_name_escapes_witness : exists e fs',
  download_and_stage (Some (lit "key")) (lit "/bin/") (lit "rahgozar") (lit "https://x/evil.zip") (lit "/bin/rahgozar.new") (toy_env CopyDone) installed = (Err e, fs')
  /\ finalize_pending_at_startup (lit "/bin/rahgozar") true fs' !! lit "/bin/rahgozar" = Some (lit "evil").
Proof.
  refine (archive_name_escapes (Some (lit "key")) (lit "key") (lit "/bin/") (lit "rahgozar") (lit "https://x/evil.zip") (toy_env CopyDone) installed
    (lit "/tmp/x") (lit "x") (lit "/evil.zip") (lit "evil") eq_refl _ eq_refl eq_refl _ eq_refl eq_refl _).
  - split_and!; [|apply (bool_decide_unpack _); vm_compute; exact I|discriminate]. exists [lit "bin"; lit "rahgozar"]. split; [|reflexivity].
    repeat constructor; try done; apply (bool_decide_unpack _); vm_compute; exact I.
  - vm_compute. reflexivity.
  - intros sig. cbn. rewrite bool_decide_false; [done|]. by intros [_ H].
Defined.
