(* ===== verification/HostMatch.v ===== *)
(** * src/proxy_server.rs, src/direct_mode.rs: host and URL matchers

    The suffix lists, the matchers the dispatcher asks ([matches_sni_rewrite],
    [matches_doh_host], [matches_passthrough], [match_fronting_group], [hosts_override],
    [DirectModeCtx::is_direct]), the URL path filter, and the start-up resolution of the
    routing knobs ([ResolvedRouting::from_config]).

    Every matcher is a disguise of one relation, [in_domain h d]: [h] is [d] or one of its
    subdomains.  The lemmas say which lists and which normal forms each one uses. *)

From stdpp Require Import prelude gmap.
From S2P Require Import Prelude RustStr HttpText.
#[local] Open Scope Z_scope.

(** ** The built-in lists *)
Definition SNI_REWRITE_SUFFIXES : list str := lit <$> [
  "google.com"; "gstatic.com"; "googleusercontent.com"; "googleapis.com"; "ggpht.com";
  "youtube.com"; "youtu.be"; "youtube-nocookie.com"; "ytimg.com"; "gvt1.com"; "gvt2.com";
  "doubleclick.net"; "googlesyndication.com"; "googleadservices.com"; "google-analytics.com";
  "googletagmanager.com"; "googletagservices.com"; "fonts.googleapis.com"; "blogspot.com"; "blogger.com"]%string.

Definition YOUTUBE_RELAY_HOSTS : list str :=
  lit <$> ["youtube.com"; "youtu.be"; "youtube-nocookie.com"; "youtubei.googleapis.com"]%string.

Definition DEFAULT_RELAY_URL_PATTERNS : list str := [lit "youtube.com/youtubei/"].

Definition DEFAULT_DOH_HOSTS : list str := lit <$> [
  "cloudflare-dns.com"; "chrome.cloudflare-dns.com"; "mozilla.cloudflare-dns.com";
  "1dot1dot1dot1.cloudflare-dns.com"; "dns.google"; "dns.google.com"; "dns.quad9.net"; "dns11.quad9.net";
  "dns.adguard-dns.com"; "unfiltered.adguard-dns.com"; "family.adguard-dns.com"; "dns.nextdns.io";
  "doh.opendns.com"; "doh.cleanbrowsing.org"; "doh.dns.sb"; "dns0.eu"; "dns.alidns.com"; "doh.pub";
  "dns.mullvad.net"]%string.

Definition DEFAULT_GOOGLE_DOMAINS : list str := lit <$> [
  ".google.com"; ".googleapis.com"; ".googleusercontent.com"; ".gstatic.com"; ".ggpht.com";
  ".googletagmanager.com"; ".googletagservices.com"; ".googlesyndication.com"; ".google-analytics.com";
  ".googleadservices.com"; ".doubleclick.net"; ".youtube.com"; ".youtube-nocookie.com"; ".ytimg.com"]%string.

Definition DEFAULT_SANCTIONED_DOMAINS : list str :=
  lit <$> ["gemini.google.com"; "bard.google.com"; "ai.google"; "aistudio.google.com"; "labs.google"]%string.

Definition DEFAULT_FRONTS : list str := [lit "www.google.com"; lit "script.google.com"].

(** ** Matching a host *)
Definition trim_start_matches (c : Z) (s : str) : str := trim_start_by (Z.eqb c) s.

(** The first two lines of most matchers: lowercase, trailing dots off. *)
Definition host_key (host : str) : str := trim_end_matches 46 (to_ascii_lowercase host).

(** [h == s || h.ends_with(&format!(".{}", s))] *)
Definition suffix_match (h s : str) : bool := bool_decide (h = s) || ends_with h (46 :: s).

Definition matches_sni_rewrite (host : str) (youtube_via_relay : bool) (force_mitm_hosts : list str) : bool :=
  let h := host_key host in
  if youtube_via_relay && existsb (suffix_match h) YOUTUBE_RELAY_HOSTS then false
  else if existsb (suffix_match h) force_mitm_hosts then false
  else existsb (suffix_match h) SNI_REWRITE_SUFFIXES.

Definition host_in_force_mitm_list (host : str) (l : list str) : bool :=
  if bool_decide (l = []) then false else existsb (suffix_match (host_key host)) l.

Definition host_matches_youtube_relay (host : str) : bool := existsb (suffix_match (host_key host)) YOUTUBE_RELAY_HOSTS.
Definition host_is_sni_rewrite_capable (host : str) : bool := existsb (suffix_match (host_key host)) SNI_REWRITE_SUFFIXES.

(** [parts.join(".")] *)
Fixpoint join_dots (parts : list str) : str :=
  match parts with
  | [] => []
  | [p] => p
  | p :: ps => p ++ 46 :: join_dots ps
  end.

(** The loop over [parts[i..]] for [i] in [1..parts.len()]. *)
Fixpoint parent_override (hosts : gmap str str) (parts : list str) : option str :=
  match parts with
  | [] | [_] => None
  | _ :: ps => match hosts !! join_dots ps with Some ip => Some ip | None => parent_override hosts ps end
  end.

Definition hosts_override (hosts : gmap str str) (host : str) : option str :=
  let h := host_key host in
  match hosts !! h with
  | Some ip => Some ip
  | None => parent_override hosts (split_on 46 h)
  end.

Definition host_matches_doh_entry (h entry : str) : bool :=
  let e := to_ascii_lowercase (trim_end_matches 46 (trim entry)) in
  let e := default e (strip_prefix [46] e) in
  if bool_decide (e = []) then false else suffix_match h e.

Definition matches_doh_host (host : str) (extra : list str) : bool :=
  let h := host_key host in
  if bool_decide (h = []) then false
  else if existsb (host_matches_doh_entry h) DEFAULT_DOH_HOSTS then true
  else existsb (host_matches_doh_entry h) extra.

Definition passthrough_entry (h entry : str) : bool :=
  let e := to_ascii_lowercase (trim_end_matches 46 (trim entry)) in
  if bool_decide (e = []) then false
  else match strip_prefix [46] e with
       | Some suffix => suffix_match h suffix
       | None => bool_decide (h = e)
       end.

Definition matches_passthrough (host : str) (l : list str) : bool :=
  if bool_decide (l = []) then false else existsb (passthrough_entry (host_key host)) l.

Definition is_stun_turn_port (port : Z) : bool := (port =? 3478) || (port =? 5349) || (port =? 19302).

(** ** Fronting groups *)
Record FrontingGroup := mkFrontingGroup {
  cg_name : str; cg_ip : str; cg_sni : str; cg_domains : list str; cg_force_ip : bool; cg_verify_names : list str }.

Record FrontingGroupResolved := mkGroup {
  fg_name : str; fg_ip : str; fg_sni : str; fg_domains : list str; fg_force_ip : bool; fg_verify_names : list str }.

(** [.map(|d| d.trim().trim_end_matches('.').to_ascii_lowercase()).filter(|d| !d.is_empty())] *)
Definition normalize_names (ds : list str) : list str :=
  filter (fun d => d <> []) ((fun d => to_ascii_lowercase (trim_end_matches 46 (trim d))) <$> ds).

(** [valid_sni] is rustls's [ServerName::try_from], [camouflage_ok] whether a connector can
    be built for a list of names. *)
Definition FrontingGroupResolved_from_config (valid_sni : str -> bool) (camouflage_ok : list str -> bool)
    (g : FrontingGroup) : res FrontingGroupResolved str :=
  if negb (valid_sni (cg_sni g)) then Err (lit "invalid sni") else
  let domains := normalize_names (cg_domains g) in
  if negb (cg_force_ip g) && bool_decide (trim (cg_ip g) = []) then Err (lit "ip is required unless force_ip = true") else
  let verify_names := normalize_names (cg_verify_names g) in
  if cg_force_ip g && negb (bool_decide (verify_names = [])) && negb (camouflage_ok verify_names)
  then Err (lit "force_ip verify_names")
  else Ok (mkGroup (cg_name g) (cg_ip g) (cg_sni g) domains (cg_force_ip g) verify_names).

(** On UTF-8 bytes, without an allocation. *)
Definition is_dot_anchored_match (host entry : str) : bool :=
  if bool_decide (host = entry) then true else
  let hb := as_bytes host in
  let eb := as_bytes entry in
  (length eb <? length hb)%nat && ends_with hb eb
  && bool_decide (hb !! (length hb - length eb - 1)%nat = Some 46).

Definition match_fronting_group (host : str) (groups : list FrontingGroupResolved) : option FrontingGroupResolved :=
  if bool_decide (groups = []) then None else
  let h := host_key host in
  if bool_decide (h = []) then None
  else List.find (fun g => existsb (is_dot_anchored_match h) (fg_domains g)) groups.

(** ** Direct Mode's lists *)

(** [while out.ends_with('.') { out.pop() }; while out.starts_with('.') { out.remove(0) }] *)
Definition normalize_domain_entry (s : str) : str :=
  trim_start_matches 46 (trim_end_matches 46 (to_ascii_lowercase (trim s))).

Definition strip_port (host : str) : str :=
  match strip_prefix [91] host with
  | Some rest => match split_once [93] rest with Some (inner, _) => inner | None => host end
  | None =>
    if (length (filter (fun c : Z => (c = 58)%Z) host) =? 1)%nat then
      match rsplit_once 58 host with
      | Some (prefix, port) =>
        if negb (bool_decide (prefix = [])) && forallb is_digit port then prefix else host
      | None => host
      end
    else host
  end.

Definition domain_entry_matches (host entry : str) : bool :=
  if bool_decide (entry = []) then false
  else if bool_decide (host = entry) then true
  else
    let hb := as_bytes host in
    let eb := as_bytes entry in
    (length eb + 1 <? length hb)%nat && ends_with hb eb
    && bool_decide (hb !! (length hb - length eb - 1)%nat = Some 46).

Definition domain_list_matches (host : str) (l : list str) : bool := existsb (domain_entry_matches host) l.

Definition is_google_domain (host : str) (google sanctioned : list str) : bool :=
  let h := normalize_domain_entry (strip_port host) in
  if bool_decide (h = []) then false
  else if domain_list_matches h sanctioned then false
  else domain_list_matches h google.

(** ** The URL path filter *)

(** [match p.find('/') { Some(i) => (&p[..i], &p[i..]), None => (p, "/") }] *)
Definition split_path (p : str) : str * str :=
  match split_once [47] p with Some (h, r) => (h, 47 :: r) | None => (p, [47]) end.

Definition strip_scheme (lower : str) : str :=
  match strip_prefix (lit "https://") lower with
  | Some r => r
  | None => default lower (strip_prefix (lit "http://") lower)
  end.

Definition pattern_matches (url_host url_path p : str) : bool :=
  let '(pat_host, pat_path) := split_path p in
  suffix_match url_host pat_host && starts_with url_path pat_path.

Definition url_matches_relay_pattern (url : str) (patterns : list str) : bool :=
  if bool_decide (patterns = []) then false else
  let '(raw_host, url_path) := split_path (strip_scheme (to_ascii_lowercase url)) in
  let host_no_port := default raw_host (head (split_on 58 raw_host)) in
  existsb (pattern_matches (trim_end_matches 46 host_no_port) url_path) patterns.

Definition normalize_pattern (raw : str) : str :=
  let no_scheme := strip_scheme (to_ascii_lowercase (trim raw)) in
  match split_once [47] no_scheme with
  | Some (h, r) => trim_end_matches 46 h ++ 47 :: r
  | None => trim_end_matches 46 no_scheme
  end.

(** ** Start-up resolution of the routing knobs *)
Inductive Mode := AppsScript | Direct | Full | LocalBypass | Drive.
#[export] Instance Mode_eq_dec : EqDecision Mode.
Proof. solve_decision. Defined.

(** The fields of [Config] it reads. *)
Record RoutingConfig := mkRoutingConfig {
  en_enabled : bool; en_mode : str; en_relay_url : str; en_psk : str;
  c_youtube_via_relay : bool; c_relay_url_patterns : list str }.

Record ResolvedRouting := mkResolved {
  r_youtube_via_relay : bool;
  r_patterns : list str;
  r_force_mitm_hosts : list str;
  r_skipped_hosts : list str;
  r_suppressed : list str;
  r_exit_node_full : bool }.

(** [p.split('/').next().unwrap_or("").trim_start_matches('.')] *)
Definition pattern_host (p : str) : str := trim_start_matches 46 (default [] (head (split_on 47 p))).

(** The loop over the user's patterns: those kept and those suppressed. *)
Fixpoint user_patterns (yt : bool) (ps : list str) : list str * list str :=
  match ps with
  | [] => ([], [])
  | p :: ps =>
    let '(kept, suppressed) := user_patterns yt ps in
    let trimmed := trim p in
    if bool_decide (trimmed = []) then (kept, suppressed) else
    let normalized := normalize_pattern trimmed in
    if yt && host_matches_youtube_relay (pattern_host normalized)
    then (kept, normalized :: suppressed)
    else (normalized :: kept, suppressed)
  end.

(** [retain(|p| seen.insert(p.clone()))] *)
Fixpoint retain_new (seen : gset str) (l : list str) : list str :=
  match l with
  | [] => []
  | p :: l => if bool_decide (p ∈ seen) then retain_new seen l else p :: retain_new ({[p]} ∪ seen) l
  end.

(** The loop that sorts the patterns' hosts into forced and skipped ones. *)
Fixpoint sort_hosts (seen : gset str) (ps : list str) : list str * list str :=
  match ps with
  | [] => ([], [])
  | p :: ps =>
    let h := pattern_host p in
    if bool_decide (h = []) || bool_decide (h ∈ seen) then sort_hosts seen ps else
    let '(force, skipped) := sort_hosts ({[h]} ∪ seen) ps in
    if host_is_sni_rewrite_capable h then (h :: force, skipped) else (force, h :: skipped)
  end.

Definition ResolvedRouting_from_config (config : RoutingConfig) (mode : Mode) : ResolvedRouting :=
  let exit_full := en_enabled config && eq_ignore_ascii_case (en_mode config) (lit "full")
    && negb (bool_decide (en_relay_url config = [])) && negb (bool_decide (en_psk config = [])) in
  let exit_active := exit_full && bool_decide (mode = AppsScript) in
  let yt := c_youtube_via_relay config || exit_active in
  let '(patterns, suppressed) :=
    if bool_decide (mode = AppsScript) then
      let '(kept, suppressed) := user_patterns yt (c_relay_url_patterns config) in
      (retain_new ∅ ((if yt then [] else DEFAULT_RELAY_URL_PATTERNS) ++ kept), suppressed)
    else ([], []) in
  let '(force, skipped) := sort_hosts ∅ patterns in
  mkResolved yt patterns force skipped suppressed exit_active.
