(* ===== verification/HostRules.v ===== *)
(** * The host matchers, proved

    Each matcher of [HostMatch] decides membership of a normal form of the host in the
    subdomains of a list; a [hosts] override is the most specific entry; and what
    [ResolvedRouting::from_config] resolves keeps the lists the dispatcher and the path
    filter read in step. *)

From stdpp Require Import prelude gmap.
From S2P Require Import Prelude RustStr HttpText HostMatch.
#[local] Open Scope Z_scope.

(** ** Domains *)
Definition in_domain (h d : str) : Prop := h = d \/ exists p, h = p ++ 46 :: d.
Definition covered (h : str) (l : list str) : Prop := exists d, d ∈ l /\ in_domain h d.

Lemma in_domain_trans a b c : in_domain a b -> in_domain b c -> in_domain a c.
Proof.
  intros [-> | [p ->]] [-> | [q ->]]; [by left|by right; eexists|by right; eexists|].
  right. exists (p ++ 46 :: q). by rewrite <- app_assoc.
Qed.

Lemma covered_nil h : ~ covered h [].
Proof. intros (d & Hd & _). by apply elem_of_nil in Hd. Qed.

Lemma covered_app h l k : covered h (l ++ k) <-> covered h l \/ covered h k.
Proof. unfold covered. set_solver. Qed.

Lemma starts_with_spec s p : starts_with s p = true <-> exists r, s = p ++ r.
Proof.
  unfold starts_with. destruct (strip_prefix p s) as [r|] eqn:E.
  - apply strip_prefix_Some in E. naive_solver.
  - split; [done|]. intros [r Hr]. apply strip_prefix_Some in Hr. congruence.
Qed.

Lemma ends_with_spec s p : ends_with s p = true <-> exists q, s = q ++ p.
Proof.
  unfold ends_with. rewrite starts_with_spec. split; intros [r Hr].
  - exists (reverse r). rewrite <- (reverse_involutive s), Hr, reverse_app. by rewrite reverse_involutive.
  - exists (reverse r). by rewrite Hr, reverse_app.
Qed.

Lemma suffix_match_spec h s : suffix_match h s = true <-> in_domain h s.
Proof. unfold suffix_match. by rewrite orb_true_iff, bool_decide_eq_true, ends_with_spec. Qed.

Lemma existsb_elem {A} (f : A -> bool) l : existsb f l = true <-> exists x, x ∈ l /\ f x = true.
Proof. rewrite existsb_exists. by setoid_rewrite list_elem_of_In. Qed.

Lemma existsb_suffix h l : existsb (suffix_match h) l = true <-> covered h l.
Proof. rewrite existsb_elem. unfold covered. by setoid_rewrite suffix_match_spec. Qed.

Lemma existsb_suffix_false h l : existsb (suffix_match h) l = false <-> ~ covered h l.
Proof. rewrite <- existsb_suffix. by rewrite not_true_iff_false. Qed.

(** ** Byte comparisons are character comparisons *)
Lemma utf8_char_dot c p q : char_ok c -> utf8_char c = p ++ 46 :: q -> c = 46 /\ p = [] /\ q = [].
Proof.
  intros Hc. unfold utf8_char, char_ok in *.
  repeat match goal with |- context [if ?x <? ?y then _ else _] => destruct (Z.ltb_spec x y) end;
    intros E; [destruct p as [|? [|]]; inversion E; subst; done| | |];
    assert (46 ∈ p ++ 46 :: q) as Hin by set_solver; rewrite <- E in Hin;
    repeat (apply elem_of_cons in Hin as [Hin|Hin]); try (by apply elem_of_nil in Hin); exfalso;
    Z.to_euclidean_division_equations; lia.
Qed.

Lemma as_bytes_dot h p q : str_ok h -> as_bytes h = p ++ 46 :: q ->
  exists h1 h2, h = h1 ++ 46 :: h2 /\ as_bytes h1 = p /\ as_bytes h2 = q.
Proof.
  intros Hok. revert p. induction Hok as [|c h Hc Hh IH]; intros p E; [by destruct p|].
  rewrite as_bytes_cons in E.
  assert ((exists k, p = utf8_char c ++ k /\ as_bytes h = k ++ 46 :: q)
          \/ exists k, utf8_char c = p ++ 46 :: k /\ q = k ++ as_bytes h) as [(k & -> & Hk)|(k & Hc' & ->)].
  { apply app_eq_inv in E as [(k & Hk1 & Hk2)|(k & Hk1 & Hk2)]; [|left; by exists k].
    destruct k as [|x k]; [left; exists []; split; [by rewrite app_nil_r in * |done]|].
    injection Hk2 as <- ->. right. by exists k. }
  - apply IH in Hk as (h1 & h2 & -> & <- & <-). by exists (c :: h1), h2.
  - apply utf8_char_dot in Hc' as (-> & -> & ->); [|done]. by exists [], h.
Qed.

Lemma as_bytes_inj a b : str_ok a -> str_ok b -> as_bytes a = as_bytes b -> a = b.
Proof. intros Ha%from_utf8_as_bytes Hb%from_utf8_as_bytes E. rewrite E in Ha. congruence. Qed.

(** The comparison both byte matchers make: a suffix and the byte before it. *)
Lemma bytes_subdomain h e : str_ok h -> str_ok e ->
  ((length (as_bytes e) <? length (as_bytes h))%nat && ends_with (as_bytes h) (as_bytes e)
   && bool_decide (as_bytes h !! (length (as_bytes h) - length (as_bytes e) - 1)%nat = Some 46)) = true
  <-> exists p, h = p ++ 46 :: e.
Proof.
  intros Hh He. rewrite !andb_true_iff, Nat.ltb_lt, ends_with_spec, bool_decide_eq_true. split.
  - intros [[Hlt [q Hq]] Hdot]. rewrite Hq, length_app in Hlt, Hdot.
    destruct q as [|x q _] using rev_ind; [cbn in Hlt; lia|].
    rewrite length_app in Hdot. cbn [length] in Hdot.
    replace (_ - _ - 1)%nat with (length q) in Hdot by lia.
    rewrite <- app_assoc in Hdot, Hq. cbn [app] in Hdot, Hq. rewrite list_lookup_middle in Hdot by done. injection Hdot as ->.
    apply as_bytes_dot in Hq as (h1 & h2 & -> & _ & E); [|done].
    exists h1. f_equal. f_equal. apply as_bytes_inj; [|done|done].
    apply Forall_app in Hh as [_ Hh]. by inversion Hh.
  - intros [p ->]. rewrite as_bytes_app, as_bytes_cons, length_app.
    change (utf8_char 46) with [46]. cbn [app length]. split; [split; [lia|]|].
    + exists (as_bytes p ++ [46]). by rewrite <- app_assoc.
    + rewrite list_lookup_middle; [done|lia].
Qed.

Lemma dot_anchored_spec h e : str_ok h -> str_ok e -> is_dot_anchored_match h e = true <-> in_domain h e.
Proof.
  intros Hh He. unfold is_dot_anchored_match, in_domain. case_bool_decide as Heq; [naive_solver|].
  rewrite bytes_subdomain by done. naive_solver.
Qed.

Lemma domain_entry_spec h e : str_ok h -> str_ok e -> head h <> Some 46 -> e <> [] ->
  domain_entry_matches h e = true <-> in_domain h e.
Proof.
  intros Hh He Hhd Hne. unfold domain_entry_matches, in_domain. rewrite bool_decide_eq_false_2 by done.
  case_bool_decide as Heq; [naive_solver|]. rewrite <- (bytes_subdomain h e Hh He), !andb_true_iff, !Nat.ltb_lt.
  split; [intuition lia|]. intros [?|[[Hlt Hend] Hdot]]; [done|]. split; [|done]. split; [|done].
  assert (exists p, h = p ++ 46 :: e) as [p ->].
  { apply bytes_subdomain; [done|done|]. by rewrite !andb_true_iff, Nat.ltb_lt. }
  destruct p as [|x p]; [done|]. rewrite as_bytes_app, length_app, !as_bytes_cons, !length_app.
  change (utf8_char 46) with [46]. cbn [length].
  assert (0 < length (utf8_char x))%nat; [|lia]. unfold utf8_char. repeat case_match; cbn; lia.
Qed.

(** ** Normal forms *)
Lemma lower_ok s : str_ok s -> str_ok (to_ascii_lowercase s).
Proof.
  intros H. apply Forall_fmap. eapply Forall_impl; [exact H|]. intros c Hc.
  unfold compose, ascii_lower, between, char_ok in *. destruct (_ && _) eqn:E; lia.
Qed.

Lemma reverse_ok s : str_ok s -> str_ok (reverse s).
Proof. unfold str_ok. by rewrite Forall_reverse. Qed.

Lemma trim_end_by_ok p s : str_ok s -> str_ok (trim_end_by p s).
Proof. intros H. apply reverse_ok, Forall_drop_while, reverse_ok, H. Qed.

Lemma trim_start_by_ok p s : str_ok s -> str_ok (trim_start_by p s).
Proof. apply Forall_drop_while. Qed.

Lemma host_key_ok s : str_ok s -> str_ok (host_key s).
Proof. intros. by apply trim_end_by_ok, lower_ok. Qed.

Lemma head_drop_while (p : Z -> bool) l x : head (drop_while p l) = Some x -> p x = false.
Proof. induction l as [|y l IH]; cbn; [done|]. destruct (p y) eqn:E; [done|]. cbn. congruence. Qed.

Lemma trim_start_head c s : head (trim_start_matches c s) <> Some c.
Proof. intros H%head_drop_while. by rewrite Z.eqb_refl in H. Qed.

Lemma normalize_entry_ok s : str_ok s -> str_ok (normalize_domain_entry s).
Proof. intros. apply trim_start_by_ok, trim_end_by_ok, lower_ok, trim_end_by_ok, trim_start_by_ok, H. Qed.

Lemma normalize_names_ok ds : Forall str_ok ds -> Forall str_ok (normalize_names ds).
Proof.
  intros H. apply Forall_forall. intros d Hd. unfold normalize_names in Hd.
  apply list_elem_of_filter in Hd as [_ Hd]. apply list_elem_of_fmap in Hd as (e & -> & He).
  rewrite Forall_forall in H. apply lower_ok, trim_end_by_ok, trim_end_by_ok, trim_start_by_ok, H, He.
Qed.

(** ** [hosts] overrides *)
Lemma join_split c s : c = 46 -> join_dots (split_on c s) = s.
Proof.
  intros ->. induction s as [|x s IH]; [done|]. cbn [split_on].
  destruct (split_on 46 s) as [|h t] eqn:E; [destruct s as [|y s]; [done|cbn in E; by repeat case_match]|].
  destruct (Z.eqb_spec x 46) as [->|Hx].
  - cbn [join_dots app]. cbn [join_dots] in IH. by rewrite <- IH.
  - rewrite <- IH. by destruct t.
Qed.

Lemma split_on_labels c s : Forall (fun l : str => c ∉ l) (split_on c s).
Proof.
  induction s as [|x s IH]; cbn [split_on]; [repeat constructor; set_solver|].
  destruct (Z.eqb_spec x c); [constructor; [set_solver|done]|].
  destruct (split_on c s) as [|h t]; [repeat constructor; set_solver|].
  inversion IH; subst. constructor; [set_solver|done].
Qed.

Lemma split_first (c : Z) (x r p d : str) : c ∉ x -> x ++ c :: r = p ++ c :: d ->
  (p = x /\ d = r) \/ exists p', p = x ++ c :: p' /\ r = p' ++ c :: d.
Proof.
  revert p. induction x as [|y x IH]; intros p Hx E.
  - destruct p as [|z p]; injection E as; subst; [by left|]. right. by exists p.
  - destruct p as [|z p]; injection E as; subst; [set_solver|].
    destruct (IH p) as [[-> ->]|(p' & -> & ->)]; [set_solver|done|by left|]. right. by exists p'.
Qed.

(** The entry found is the one of the most specific proper parent that has one. *)
Lemma parent_override_spec hosts parts ip : Forall (fun l : str => 46 ∉ l) parts ->
  parent_override hosts parts = Some ip <->
  exists p d, join_dots parts = p ++ 46 :: d /\ hosts !! d = Some ip /\
    forall p' d', join_dots parts = p' ++ 46 :: d' -> (length d < length d')%nat -> hosts !! d' = None.
Proof.
  induction 1 as [|x ps Hx Hps IH]; [split; [done|]; by intros ([|]& ? & ? & _)|].
  destruct ps as [|y ps].
  { split; [done|]. intros (p & d & E & _). cbn [join_dots] in E. rewrite E in Hx. set_solver. }
  change (parent_override hosts (x :: y :: ps)) with
    (match hosts !! join_dots (y :: ps) with Some ip => Some ip | None => parent_override hosts (y :: ps) end).
  change (join_dots (x :: y :: ps)) with (x ++ 46 :: join_dots (y :: ps)). set (r := join_dots (y :: ps)) in *.
  assert (forall p d, r = p ++ 46 :: d -> (length d < length r)%nat) as Hlen.
  { intros p d ->. rewrite length_app. cbn. lia. }
  destruct (hosts !! r) as [ip'|] eqn:Er.
  - split.
    + intros [= ->]. exists x, r. repeat split; [done|]. intros p' d' E Hl.
      destruct (split_first _ _ _ _ _ Hx E) as [[_ ->]|(p'' & _ & Hp)]; [lia|]. apply Hlen in Hp. lia.
    + intros (p & d & E & Hd & Hmax).
      destruct (split_first _ _ _ _ _ Hx E) as [[-> ->]|(p'' & _ & Hp)]; [congruence|].
      apply Hlen in Hp. rewrite (Hmax x r eq_refl Hp) in Er. done.
  - rewrite IH. split.
    + intros (p & d & E & Hd & Hmax). exists (x ++ 46 :: p), d. split; [by rewrite E, <- app_assoc|].
      split; [done|]. intros p' d' E' Hl. destruct (split_first _ _ _ _ _ Hx E') as [[_ ->]|(p'' & _ & Hp)]; [done|].
      by eapply Hmax.
    + intros (p & d & E & Hd & Hmax).
      destruct (split_first _ _ _ _ _ Hx E) as [[-> ->]|(p'' & -> & Hp)]; [congruence|].
      exists p'', d. repeat split; [done|done|]. intros p' d' E' Hl. apply (Hmax (x ++ 46 :: p') d'); [|done].
      by rewrite E', <- app_assoc.
Qed.

Lemma hosts_override_spec hosts host ip : hosts_override hosts host = Some ip <->
  exists d, in_domain (host_key host) d /\ hosts !! d = Some ip /\
    forall d', in_domain (host_key host) d' -> (length d < length d')%nat -> hosts !! d' = None.
Proof.
  unfold hosts_override. set (h := host_key host). destruct (hosts !! h) as [ip'|] eqn:Eh.
  - split.
    + intros [= ->]. exists h. split; [by left|]. split; [done|]. intros d' [<- | [p Hp]] Hl; [lia|].
      rewrite Hp, length_app in Hl. cbn in Hl. lia.
    + intros (d & [<- | [p Hp]] & Hd & Hmax); [congruence|]. rewrite (Hmax h) in Eh; [done|by left|].
      rewrite Hp, length_app. cbn. lia.
  - rewrite parent_override_spec by apply split_on_labels. rewrite join_split by done. split.
    + intros (p & d & E & Hd & Hmax). exists d. split; [right; by exists p|]. split; [done|].
      intros d' [<- | [p' Hp']] Hl; [done|]. by eapply Hmax.
    + intros (d & [<- | [p Hp]] & Hd & Hmax); [congruence|]. exists p, d. repeat split; [done|done|].
      intros p' d' Hp' Hl. apply Hmax; [|done]. right. by exists p'.
Qed.

(** ** What each matcher decides *)
Lemma matches_sni_rewrite_spec host yt force : matches_sni_rewrite host yt force = true <->
  covered (host_key host) SNI_REWRITE_SUFFIXES /\ ~ covered (host_key host) force /\
  (yt = true -> ~ covered (host_key host) YOUTUBE_RELAY_HOSTS).
Proof.
  unfold matches_sni_rewrite. destruct (yt && _) eqn:E1.
  { apply andb_true_iff in E1 as [-> ?%existsb_suffix]. naive_solver. }
  destruct (existsb _ force) eqn:E2; [apply existsb_suffix in E2; naive_solver|].
  apply existsb_suffix_false in E2. rewrite existsb_suffix.
  apply andb_false_iff in E1. rewrite existsb_suffix_false in E1. naive_solver.
Qed.

Lemma host_in_force_spec host l : host_in_force_mitm_list host l = true <-> covered (host_key host) l.
Proof.
  unfold host_in_force_mitm_list. case_bool_decide as E; [|apply existsb_suffix].
  subst. split; [done|]. by intros ?%covered_nil.
Qed.

Lemma host_in_force_false host l : host_in_force_mitm_list host l = false <-> ~ covered (host_key host) l.
Proof. by rewrite <- host_in_force_spec, not_true_iff_false. Qed.

Lemma youtube_relay_spec host : host_matches_youtube_relay host = true <-> covered (host_key host) YOUTUBE_RELAY_HOSTS.
Proof. apply existsb_suffix. Qed.

Lemma find_first {A} (f : A -> bool) l x : List.find f l = Some x <->
  exists l1 l2, l = l1 ++ x :: l2 /\ f x = true /\ forall y, y ∈ l1 -> f y = false.
Proof.
  induction l as [|y l IH]; cbn [List.find]; [split; [done|]; by intros ([|] & ? & ? & _)|].
  destruct (f y) eqn:E.
  - split; [intros [= ->]; exists [], l; set_solver|].
    intros ([|z l1] & l2 & [= -> ->] & Hx & Hf); [done|]. rewrite Hf in E by set_solver. done.
  - rewrite IH. split.
    + intros (l1 & l2 & -> & Hx & Hf). exists (y :: l1), l2. set_solver.
    + intros ([|z l1] & l2 & [= -> ->] & Hx & Hf); [congruence|]. exists l1, l2. set_solver.
Qed.

Lemma existsb_byte_match (m : str -> str -> bool) h l :
  (forall e, e ∈ l -> m h e = true <-> in_domain h e) -> existsb (m h) l = true <-> covered h l.
Proof. intros H. rewrite existsb_elem. unfold covered. naive_solver. Qed.

Lemma match_group_spec host groups g : str_ok host -> Forall (fun g => Forall str_ok (fg_domains g)) groups ->
  match_fronting_group host groups = Some g <->
  host_key host <> [] /\ exists l1 l2, groups = l1 ++ g :: l2 /\ covered (host_key host) (fg_domains g) /\
    forall g', g' ∈ l1 -> ~ covered (host_key host) (fg_domains g').
Proof.
  intros Hh Hok. unfold match_fronting_group. case_bool_decide as E1.
  { subst. split; [done|]. by intros (_ & [|] & ? & ? & _). }
  case_bool_decide as E2; [naive_solver|]. rewrite find_first.
  assert (forall g', g' ∈ groups -> existsb (is_dot_anchored_match (host_key host)) (fg_domains g') = true
                          <-> covered (host_key host) (fg_domains g')) as Hm.
  { intros g' Hg'. apply existsb_byte_match. intros e He. rewrite Forall_forall in Hok. apply Hok in Hg'.
    rewrite Forall_forall in Hg'. apply dot_anchored_spec; [by apply host_key_ok|by apply Hg']. }
  split.
  - intros (l1 & l2 & -> & Hg & Hf). split; [done|]. exists l1, l2. split; [done|]. split; [apply Hm; [set_solver|done]|].
    intros g' Hg' Hc. apply Hm in Hc; [|set_solver]. rewrite Hf in Hc by done. done.
  - intros (_ & l1 & l2 & -> & Hg & Hf). exists l1, l2. split; [done|]. split; [apply Hm; [set_solver|done]|].
    intros g' Hg'. apply not_true_iff_false. rewrite Hm by set_solver. by apply Hf.
Qed.

Lemma strip_port_ok s : str_ok s -> str_ok (strip_port s).
Proof.
  intros Hs. unfold strip_port. destruct (strip_prefix [91] s) as [r|] eqn:E1.
  - apply strip_prefix_Some in E1 as ->. apply Forall_app in Hs as [Hb Hr].
    destruct (split_once [93] r) as [[a b]|] eqn:E2; [|by apply Forall_app].
    apply split_once_Some in E2 as ->. by apply Forall_app in Hr as [? _].
  - destruct (_ =? _)%nat; [|done]. destruct (rsplit_once 58 s) as [[a b]|] eqn:E2; [|done].
    destruct (_ && _); [|done]. apply rsplit_once_Some in E2 as [-> _]. by apply Forall_app in Hs as [? _].
Qed.

Lemma domain_list_spec h l : str_ok h -> head h <> Some 46 -> Forall (fun e => str_ok e /\ e <> []) l ->
  domain_list_matches h l = true <-> covered h l.
Proof.
  intros Hh Hd Hl. apply existsb_byte_match. intros e He. rewrite Forall_forall in Hl.
  destruct (Hl e He). by apply domain_entry_spec.
Qed.

Lemma is_google_domain_spec host google sanctioned : str_ok host ->
  Forall (fun e => str_ok e /\ e <> []) google -> Forall (fun e => str_ok e /\ e <> []) sanctioned ->
  let h := normalize_domain_entry (strip_port host) in
  is_google_domain host google sanctioned = true <-> h <> [] /\ covered h google /\ ~ covered h sanctioned.
Proof.
  intros Hh Hg Hs h. unfold is_google_domain. fold h. case_bool_decide as E; [naive_solver|].
  assert (str_ok h) by by apply normalize_entry_ok, strip_port_ok.
  assert (head h <> Some 46) by apply trim_start_head.
  destruct (domain_list_matches h sanctioned) eqn:E2.
  - apply domain_list_spec in E2; [|done..]. naive_solver.
  - apply not_true_iff_false in E2. rewrite domain_list_spec in E2 by done. rewrite domain_list_spec by done. naive_solver.
Qed.

(** The DoH entries as compared: trailing dots and one leading dot off, empty ones out. *)
Definition doh_names (l : list str) : list str :=
  filter (fun e => e <> []) ((fun entry =>
    let e := to_ascii_lowercase (trim_end_matches 46 (trim entry)) in default e (strip_prefix [46] e)) <$> l).

Lemma existsb_doh h l : existsb (host_matches_doh_entry h) l = true <-> covered h (doh_names l).
Proof.
  rewrite existsb_elem. unfold covered, doh_names, host_matches_doh_entry. split.
  - intros (x & Hx & H). case_bool_decide as E; [done|]. apply suffix_match_spec in H.
    eexists. split; [|exact H]. apply list_elem_of_filter. split; [exact E|]. apply list_elem_of_fmap. by exists x.
  - intros (d & Hd & H). apply list_elem_of_filter in Hd as [Hne Hd]. apply list_elem_of_fmap in Hd as (x & -> & Hx).
    exists x. split; [done|]. case_bool_decide; [done|]. by apply suffix_match_spec.
Qed.

Lemma matches_doh_spec host extra : matches_doh_host host extra = true <->
  host_key host <> [] /\ covered (host_key host) (doh_names (DEFAULT_DOH_HOSTS ++ extra)).
Proof.
  unfold matches_doh_host. case_bool_decide as E; [naive_solver|].
  unfold doh_names. rewrite fmap_app, filter_app, covered_app.
  destruct (existsb _ DEFAULT_DOH_HOSTS) eqn:E1.
  - apply existsb_doh in E1. naive_solver.
  - apply not_true_iff_false in E1. rewrite existsb_doh in E1. rewrite existsb_doh. unfold doh_names in E1. naive_solver.
Qed.

(** The host in lowercase without the dots at its end. *)
Definition normal_form (host h : str) : Prop :=
  exists dots, Forall (fun c => c = 46) dots /\ to_ascii_lowercase host = h ++ dots /\ last h <> Some 46.

Lemma drop_while_dots dots s : Forall (fun c => c = 46) dots -> head s <> Some 46 -> drop_while (Z.eqb 46) (dots ++ s) = s.
Proof.
  induction 1 as [|c dots -> _ IH]; intros Hs; [|by apply IH]. destruct s as [|c s]; [done|]. cbn [app drop_while].
  destruct (Z.eqb_spec 46 c) as [<-|]; [done|done].
Qed.

Lemma dots_dropped s : exists dots, Forall (fun c => c = 46) dots /\ s = dots ++ drop_while (Z.eqb 46) s /\ head (drop_while (Z.eqb 46) s) <> Some 46.
Proof.
  induction s as [|c s (dots & Hd & Hs & Hh)]; [by exists []|]. cbn [drop_while]. destruct (Z.eqb_spec 46 c) as [<-|Hne].
  - exists (46 :: dots). split; [by constructor|]. split; [cbn; by f_equal|done].
  - exists []. split; [done|]. split; [done|]. cbn. congruence.
Qed.

Lemma normal_form_key host h : normal_form host h -> host_key host = h.
Proof.
  intros (dots & Hd & Hh & Hl). unfold host_key, trim_end_matches, trim_end_by. rewrite Hh, reverse_app, drop_while_dots.
  - apply reverse_involutive.
  - by rewrite Forall_reverse.
  - by rewrite head_reverse.
Qed.

(** The name that Direct Mode compares, of a host without a port, brackets and blanks. *)
Lemma plain_entry host : 58 ∉ host -> 91 ∉ host -> trim host = host ->
  let n := normalize_domain_entry (strip_port host) in
  exists dots, Forall (fun c => c = 46) dots /\ host_key host = dots ++ n /\ head n <> Some 46.
Proof.
  intros Hc Hb Ht.
  assert (strip_port host = host) as ->.
  { unfold strip_port. destruct (strip_prefix [91] host) as [rest|] eqn:E.
    - apply strip_prefix_Some in E as ->. exfalso. apply Hb. left.
    - replace (filter (fun c : Z => c = 58) host) with (@nil Z); [done|]. symmetry. apply elem_of_nil_inv.
      intros c [-> Hin]%list_elem_of_filter. by apply Hc. }
  unfold normalize_domain_entry, host_key. rewrite Ht. apply dots_dropped.
Qed.

(** Claim C40: the host matchers decide subdomain membership of the host's normal form
    (lowercase, no trailing dots): the SNI-rewrite test is the suffix list less the forced
    hosts and, with [youtube_via_relay], less YouTube; the DoH test is the built-in and
    configured list; a fronting group is the first one that covers the host, its byte
    comparison included; a [hosts] override is the entry of the most specific domain of the
    host that has one; and Direct Mode's list, for a host without a port, brackets and
    blanks, is the Google list less the sanctioned one, leading dots apart. *)
Theorem host_matchers (host h : str) : str_ok host -> normal_form host h ->
  (forall yt force, matches_sni_rewrite host yt force = true <->
     covered h SNI_REWRITE_SUFFIXES /\ ~ covered h force /\ (yt = true -> ~ covered h YOUTUBE_RELAY_HOSTS)) /\
  (forall extra, matches_doh_host host extra = true <-> h <> [] /\ covered h (doh_names (DEFAULT_DOH_HOSTS ++ extra))) /\
  (forall groups g, Forall (fun g => Forall str_ok (fg_domains g)) groups ->
     match_fronting_group host groups = Some g <->
     h <> [] /\ exists l1 l2, groups = l1 ++ g :: l2 /\ covered h (fg_domains g) /\
       forall g', g' ∈ l1 -> ~ covered h (fg_domains g')) /\
  (forall hosts ip, hosts_override hosts host = Some ip <->
     exists d, in_domain h d /\ hosts !! d = Some ip /\
       forall d', in_domain h d' -> (length d < length d')%nat -> hosts !! d' = None) /\
  (58 ∉ host -> 91 ∉ host -> trim host = host ->
   exists dots n, Forall (fun c => c = 46) dots /\ h = dots ++ n /\ head n <> Some 46 /\
   forall google sanctioned, Forall (fun e => str_ok e /\ e <> []) google -> Forall (fun e => str_ok e /\ e <> []) sanctioned ->
     is_google_domain host google sanctioned = true <-> n <> [] /\ covered n google /\ ~ covered n sanctioned).
Proof.
  intros Hh <-%normal_form_key. repeat split_and.
  - intros. apply matches_sni_rewrite_spec.
  - intros. apply matches_doh_spec.
  - intros. by apply match_group_spec.
  - intros. apply hosts_override_spec.
  - intros Hc Hb Ht. destruct (plain_entry host Hc Hb Ht) as (dots & Hd & Hk & Hn). eexists dots, _. split_and!; [done..|].
    intros. by apply is_google_domain_spec.
Qed.

Lemma host_matchers_witness :
  matches_sni_rewrite (lit "WWW.Google.com.") false [] = true /\
  hosts_override (<[lit "b.c" := lit "2"]> (<[lit "c" := lit "1"]> ∅)) (lit "a.b.c") = Some (lit "2").
Proof.
  assert (str_ok (lit "a.b.c")) as Ha by (repeat constructor; unfold char_ok; lia).
  assert (str_ok (lit "WWW.Google.com.")) as Hw by (repeat constructor; unfold char_ok; lia).
  destruct (host_matchers _ (lit "a.b.c") Ha) as (_ & _ & _ & Ho & _); [by exists []|].
  destruct (host_matchers _ (lit "www.google.com") Hw) as (Hs & _); [exists [46]; split; [by repeat constructor|done]|]. split.
  - apply Hs. repeat split.
    + exists (lit "google.com"). split; [left|]. right. by exists (lit "www").
    + apply covered_nil.
    + done.
  - apply Ho. exists (lit "b.c"). split; [right; by exists (lit "a")|]. split; [done|].
    intros d' [<- | [p Hp]] Hl; [done|]. exfalso. apply (f_equal length) in Hp as Hn. rewrite length_app in Hn.
    change (length (lit "a.b.c")) with 5%nat in Hn. change (length (lit "b.c")) with 3%nat in Hl.
    destruct p as [|x p]; cbn [length] in Hn; [by inversion Hp|lia].
Defined.
