(* ===== verification/RoutingRules.v ===== *)
(** * [ResolvedRouting::from_config] and the URL path filter, proved

    What the dispatcher reads ([force_mitm_hosts]) and what the path filter reads
    ([relay_url_patterns]) are computed once from the configuration; the theorems say how
    the two lists fit together and what a URL that matches a pattern is. *)

From stdpp Require Import prelude gmap.
From S2P Require Import Prelude RustStr HttpText HttpRewrite HostMatch HostRules.
#[local] Open Scope Z_scope.

(** ** The lists *)
Lemma retain_new_spec seen l : NoDup (retain_new seen l) /\ forall p, p ∈ retain_new seen l <-> p ∈ l /\ p ∉ seen.
Proof.
  revert seen. induction l as [|x l IH]; intros seen; cbn [retain_new].
  - split; [constructor|]. set_solver.
  - case_bool_decide as E.
    + destruct (IH seen) as [Hn Hp]. split; [done|]. intros p. rewrite Hp. set_solver.
    + destruct (IH ({[x]} ∪ seen)) as [Hn Hp]. split.
      * constructor; [|done]. rewrite Hp. set_solver.
      * intros p. rewrite elem_of_cons, Hp. destruct (decide (p = x)); set_solver.
Qed.

Lemma sort_hosts_spec seen ps : let '(force, skipped) := sort_hosts seen ps in
  NoDup (force ++ skipped) /\
  (forall h, h ∈ force ++ skipped <-> h <> [] /\ h ∉ seen /\ exists p, p ∈ ps /\ h = pattern_host p) /\
  Forall (fun h => host_is_sni_rewrite_capable h = true) force /\
  Forall (fun h => host_is_sni_rewrite_capable h = false) skipped.
Proof.
  revert seen. induction ps as [|p ps IH]; intros seen; cbn [sort_hosts].
  { repeat split; try constructor; [set_solver..|]. intros (_ & _ & p & Hp & _). set_solver. }
  destruct (bool_decide _ || bool_decide _) eqn:E.
  - specialize (IH seen). destruct (sort_hosts seen ps) as [f s]. destruct IH as (Hn & He & Hf & Hs).
    repeat split_and; [done| |done|done]. intros h. rewrite He.
    apply orb_true_iff in E. rewrite !bool_decide_eq_true in E. set_solver.
  - apply orb_false_iff in E. rewrite !bool_decide_eq_false in E. destruct E as [Hne Hns].
    specialize (IH ({[pattern_host p]} ∪ seen)). destruct (sort_hosts _ ps) as [f s]. destruct IH as (Hn & He & Hf & Hs).
    assert (pattern_host p ∉ f ++ s) as Hni by (rewrite He; set_solver).
    assert (forall h, h ∈ pattern_host p :: f ++ s <->
              h <> [] /\ h ∉ seen /\ exists q, q ∈ p :: ps /\ h = pattern_host q) as He'.
    { intros h. rewrite elem_of_cons, He. destruct (decide (h = pattern_host p)); set_solver. }
    destruct (host_is_sni_rewrite_capable (pattern_host p)) eqn:Ec.
    + repeat split_and; [by constructor|done|by constructor|done].
    + repeat split_and; [|intros h; rewrite <- He'; set_solver|done|by constructor].
      apply (NoDup_Permutation_proper _ _ (Permutation_middle f s (pattern_host p))). by constructor.
Qed.

Lemma user_patterns_spec yt ps : let '(kept, suppressed) := user_patterns yt ps in
  (forall p, p ∈ kept -> exists raw, p = normalize_pattern raw) /\
  (yt = true -> Forall (fun p => host_matches_youtube_relay (pattern_host p) = false) kept).
Proof.
  induction ps as [|p ps IH]; cbn [user_patterns]; [split; [set_solver|constructor]|].
  destruct (user_patterns yt ps) as [k s]. destruct IH as [Hk Hyt].
  case_bool_decide; [done|]. destruct (yt && _) eqn:E; [done|]. split.
  - intros q [-> | Hq]%elem_of_cons; eauto.
  - intros ->. constructor; [exact E|auto].
Qed.

(** ** Patterns in normal form *)
Lemma head_split_on c a r : c ∉ a -> head (split_on c (a ++ c :: r)) = Some a.
Proof.
  induction a as [|x a IH]; intros H; cbn [app split_on]; [by rewrite Z.eqb_refl|].
  destruct (Z.eqb_spec x c); [set_solver|]. specialize (IH ltac:(set_solver)).
  destruct (split_on c (a ++ c :: r)); cbn in *; congruence.
Qed.

Lemma head_split_on_none c a : c ∉ a -> head (split_on c a) = Some a.
Proof.
  induction a as [|x a IH]; intros H; cbn [split_on]; [done|].
  destruct (Z.eqb_spec x c); [set_solver|]. specialize (IH ltac:(set_solver)).
  destruct (split_on c a); cbn in *; congruence.
Qed.

Lemma split_once_char_none c s : split_once [c] s = None -> c ∉ s.
Proof.
  induction s as [|x s IH]; cbn; [set_solver|]. destruct (Z.eqb_spec c x) as [<-|Hn]; [done|].
  destruct (split_once [c] s) as [[a' b']|]; [done|]. intros _. specialize (IH eq_refl). set_solver.
Qed.

Definition host_part (p : str) : str := fst (split_path p).

Lemma pattern_host_part p : pattern_host p = trim_start_matches 46 (host_part p).
Proof.
  unfold pattern_host, host_part, split_path. f_equal. destruct (split_once [47] p) as [[a b]|] eqn:E; cbn.
  - apply split_once_char in E as Hc. apply split_once_Some in E as ->. cbn [app]. by rewrite head_split_on.
  - apply split_once_char_none in E. by rewrite head_split_on_none.
Qed.

Lemma trim_end_app c s : exists k, s = trim_end_matches c s ++ replicate k c.
Proof.
  unfold trim_end_matches, trim_end_by. set (r := reverse s). replace s with (reverse r) by apply reverse_involutive. clearbody r. clear s.
  induction r as [|x r IH]; [by exists 0%nat|]. cbn [drop_while]. destruct (Z.eqb_spec c x) as [<-|].
  - destruct IH as [k Hk]. exists (S k). rewrite reverse_cons, Hk, <- app_assoc. f_equal.
    by rewrite <- replicate_S_end.
  - exists 0%nat. by rewrite app_nil_r.
Qed.

Lemma trim_end_last c s : last (trim_end_matches c s) <> Some c.
Proof.
  unfold trim_end_matches, trim_end_by. rewrite last_reverse. intros H%head_drop_while. by rewrite Z.eqb_refl in H.
Qed.

Lemma trim_end_id c s : last s <> Some c -> trim_end_matches c s = s.
Proof.
  intros H. destruct (trim_end_app c s) as [[|k] Hk]; [by rewrite app_nil_r in Hk|].
  rewrite replicate_S_end, app_assoc in Hk. rewrite Hk, last_snoc in H. done.
Qed.

Lemma lower_idem s : to_ascii_lowercase (to_ascii_lowercase s) = to_ascii_lowercase s.
Proof.
  unfold to_ascii_lowercase. rewrite <- list_fmap_compose. apply list_fmap_ext. intros _ c _.
  unfold compose, ascii_lower, between. repeat case_match; lia.
Qed.

Definition lowered (s : str) : Prop := Forall (fun c => ascii_lower c = c) s.

Lemma lowered_lower s : lowered (to_ascii_lowercase s).
Proof.
  apply Forall_fmap, Forall_forall. intros c _. unfold compose, ascii_lower, between. repeat case_match; lia.
Qed.

Lemma lowered_id s : lowered s -> to_ascii_lowercase s = s.
Proof. induction 1 as [|c s Hc _ IH]; [done|]. cbn. f_equal; [done|exact IH]. Qed.

Lemma lowered_app a b : lowered (a ++ b) <-> lowered a /\ lowered b.
Proof. apply Forall_app. Qed.

Lemma lowered_trim_end c s : lowered s -> lowered (trim_end_matches c s).
Proof. intros H. destruct (trim_end_app c s) as [k Hk]. rewrite Hk in H. by apply lowered_app in H as [? _]. Qed.

Lemma lowered_trim_start c s : lowered s -> lowered (trim_start_matches c s).
Proof. intros H. destruct (drop_while_suffix (Z.eqb c) s) as [k Hk]. rewrite Hk in H. by apply lowered_app in H as [_ ?]. Qed.

Lemma lowered_strip_scheme s : lowered s -> lowered (strip_scheme s).
Proof.
  intros H. unfold strip_scheme. destruct (strip_prefix (lit "https://") s) as [r|] eqn:E.
  { apply strip_prefix_Some in E. subst. by apply lowered_app in H as [_ ?]. }
  destruct (strip_prefix (lit "http://") s) as [r|] eqn:E2; [|done].
  apply strip_prefix_Some in E2. subst. by apply lowered_app in H as [_ ?].
Qed.

Lemma trim_start_last c d s : last s <> Some d -> last (trim_start_matches c s) <> Some d.
Proof.
  intros H. destruct (drop_while_suffix (Z.eqb c) s) as [k Hk]. unfold trim_start_matches, trim_start_by.
  destruct (drop_while (Z.eqb c) s) as [|x t]; [done|]. rewrite Hk, last_app in H. cbn [last] in *. by destruct (last (x :: t)) eqn:E; destruct t.
Qed.

(** The host before the path of a text without its scheme. *)
Definition scheme_host (s : str) : str := match split_once [47] s with Some (h, _) => h | None => s end.

Lemma host_part_normalize raw :
  host_part (normalize_pattern raw) = trim_end_matches 46 (scheme_host (strip_scheme (to_ascii_lowercase (trim raw)))).
Proof.
  unfold normalize_pattern, scheme_host. set (s := strip_scheme _). destruct (split_once [47] s) as [[a b]|] eqn:E.
  - apply split_once_char in E as Hc. unfold host_part, split_path. change (47 :: b) with ([47] ++ b).
    rewrite (split_once_first 47 []); [done|]. destruct (trim_end_app 46 a) as [k Hk]. rewrite Hk in Hc. set_solver.
  - apply split_once_char_none in E. unfold host_part, split_path.
    destruct (split_once [47] (trim_end_matches 46 s)) as [[x y]|] eqn:E2; [|done]. exfalso. apply E.
    apply split_once_Some in E2. destruct (trim_end_app 46 s) as [k ->]. rewrite E2. set_solver.
Qed.

(** A resolved pattern's host is in the form [host_key] leaves. *)
Lemma normalized_host_key raw : let h := pattern_host (normalize_pattern raw) in host_key h = h.
Proof.
  cbn zeta. rewrite pattern_host_part, host_part_normalize.
  pose proof (lowered_strip_scheme _ (lowered_lower (trim raw))) as Hl.
  assert (lowered (scheme_host (strip_scheme (to_ascii_lowercase (trim raw))))) as Ha.
  { unfold scheme_host. set (s := strip_scheme _) in *. destruct (split_once [47] s) as [[a b]|] eqn:E; [|done].
    apply split_once_Some in E. rewrite E in Hl. by apply lowered_app in Hl as [? _]. }
  unfold host_key. rewrite lowered_id by by apply lowered_trim_start, lowered_trim_end.
  apply trim_end_id, trim_start_last, trim_end_last.
Qed.

Lemma default_pattern_normal : DEFAULT_RELAY_URL_PATTERNS = [normalize_pattern (lit "youtube.com/youtubei/")].
Proof. vm_compute. reflexivity. Qed.

(** ** Start-up resolution *)
Section resolved.
Context (config : RoutingConfig).

Lemma from_config_patterns mode : let r := ResolvedRouting_from_config config mode in
  (mode <> AppsScript -> r_patterns r = []) /\ NoDup (r_patterns r) /\
  (forall p, p ∈ r_patterns r -> exists raw, p = normalize_pattern raw) /\
  (r_youtube_via_relay r = true -> Forall (fun p => host_matches_youtube_relay (pattern_host p) = false) (r_patterns r)) /\
  sort_hosts ∅ (r_patterns r) = (r_force_mitm_hosts r, r_skipped_hosts r).
Proof.
  unfold ResolvedRouting_from_config. set (yt := c_youtube_via_relay config || _). clearbody yt.
  case_bool_decide as Em.
  - pose proof (user_patterns_spec yt (c_relay_url_patterns config)) as Hu.
    destruct (user_patterns yt _) as [kept supp]. destruct Hu as [Hk Hyt].
    destruct (retain_new_spec ∅ ((if yt then [] else DEFAULT_RELAY_URL_PATTERNS) ++ kept)) as [Hn He].
    set (ps := retain_new _ _) in *. clearbody ps. destruct (sort_hosts ∅ ps) as [f s] eqn:Es. cbn [r_patterns r_youtube_via_relay r_force_mitm_hosts r_skipped_hosts]. split_and!; [congruence|done| | |done].
    + intros p Hp. apply He in Hp as [Hp _]. apply elem_of_app in Hp as [Hp|Hp]; [|by apply Hk].
      destruct yt; [by apply elem_of_nil in Hp|]. rewrite default_pattern_normal in Hp.
      apply list_elem_of_singleton in Hp. eauto.
    + intros ->. apply Forall_forall. intros p Hp. apply He in Hp as [Hp _]. cbn in Hp.
      specialize (Hyt eq_refl). rewrite Forall_forall in Hyt. by apply Hyt.
  - cbn. repeat split_and; [done|constructor|set_solver|constructor|done].
Qed.

Lemma from_config_hosts mode : let r := ResolvedRouting_from_config config mode in
  forall h, h ∈ r_force_mitm_hosts r ++ r_skipped_hosts r <-> h <> [] /\ exists p, p ∈ r_patterns r /\ h = pattern_host p.
Proof.
  destruct (from_config_patterns mode) as (_ & _ & _ & _ & Hs). cbn zeta. intros h.
  pose proof (sort_hosts_spec ∅ (r_patterns (ResolvedRouting_from_config config mode))) as Hh. rewrite Hs in Hh.
  destruct Hh as (_ & He & _). rewrite He. set_solver.
Qed.

(** What [ResolvedRouting::from_config] resolves.  Outside apps_script mode no
    pattern and no forced host exists.  Otherwise the patterns are distinct, each host of
    a pattern is exactly once in one of the two host lists and in normal form, the forced
    ones are SNI-rewrite-capable and the skipped ones are not; when YouTube is relayed as
    a whole no pattern of a YouTube host is left; and an active full exit node implies
    that YouTube is relayed. *)
Theorem resolved_routing (mode : Mode) : let r := ResolvedRouting_from_config config mode in
  (mode <> AppsScript -> r_patterns r = [] /\ r_force_mitm_hosts r = [] /\ r_exit_node_full r = false) /\
  NoDup (r_patterns r) /\ NoDup (r_force_mitm_hosts r ++ r_skipped_hosts r) /\
  (forall h, h ∈ r_force_mitm_hosts r ++ r_skipped_hosts r <->
     h <> [] /\ exists p, p ∈ r_patterns r /\ h = pattern_host p) /\
  (forall h, h ∈ r_force_mitm_hosts r -> host_is_sni_rewrite_capable h = true /\ host_key h = h) /\
  (forall h, h ∈ r_skipped_hosts r -> host_is_sni_rewrite_capable h = false) /\
  (r_youtube_via_relay r = true ->
     forall h, h ∈ r_force_mitm_hosts r -> host_matches_youtube_relay h = false) /\
  (r_exit_node_full r = true -> r_youtube_via_relay r = true).
Proof.
  pose proof (from_config_patterns mode) as (Hm & Hn & Hnorm & Hyt & Hs).
  set (r := ResolvedRouting_from_config config mode) in *. cbn zeta.
  pose proof (sort_hosts_spec ∅ (r_patterns r)) as Hh. rewrite Hs in Hh. destruct Hh as (Hnd & He & Hf & Hk).
  assert (forall h, h ∈ r_force_mitm_hosts r -> exists p, p ∈ r_patterns r /\ h = pattern_host p) as Hforce.
  { intros h Hin. apply (from_config_hosts mode). set_solver. }
  repeat split_and.
  - intros Hne. split; [by apply Hm|]. rewrite Hm in Hs by done. cbn in Hs. split; [by injection Hs as <- _|].
    subst r. unfold ResolvedRouting_from_config. rewrite bool_decide_eq_false_2 by done. cbn. by rewrite andb_false_r.
  - done.
  - done.
  - apply from_config_hosts.
  - intros h Hin. rewrite Forall_forall in Hf. split; [by apply Hf|].
    destruct (Hforce h Hin) as (p & Hp & ->). apply Hnorm in Hp as [raw ->]. apply normalized_host_key.
  - intros h Hin. rewrite Forall_forall in Hk. by apply Hk.
  - intros Hy h Hin. destruct (Hforce h Hin) as (p & Hp & ->). specialize (Hyt Hy). rewrite Forall_forall in Hyt. by apply Hyt.
  - subst r. unfold ResolvedRouting_from_config. destruct (if bool_decide (mode = AppsScript) then _ else _) as [ps su].
    destruct (sort_hosts ∅ ps) as [f s]. cbn. intros ->. by rewrite orb_true_r.
Qed.
End resolved.

(** ** The path filter *)
Lemma lower_app a b : to_ascii_lowercase (a ++ b) = to_ascii_lowercase a ++ to_ascii_lowercase b.
Proof. apply fmap_app. Qed.

Lemma not_elem_lower c s : ascii_lower c = c -> between 97 c 122 = false -> c ∉ s -> c ∉ to_ascii_lowercase s.
Proof.
  intros Hc Hb Hs (x & E & Hx)%list_elem_of_fmap. apply Hs. unfold ascii_lower, between in *.
  destruct (andb (65 <=? x) (x <=? 90)) eqn:Ex; [lia|]. by subst.
Qed.

Lemma split_on_authority host port : 58 ∉ host -> (port = [] \/ exists d, port = 58 :: d) ->
  default (host ++ port) (head (split_on 58 (host ++ port))) = host.
Proof.
  intros Hh [-> | [d ->]]; [rewrite app_nil_r, head_split_on_none by done; done|]. by rewrite head_split_on.
Qed.

Lemma url_split scheme host port path : scheme ∈ [lit "https"; lit "http"] ->
  47 ∉ host -> 47 ∉ port -> head path = Some 47 ->
  split_path (strip_scheme (to_ascii_lowercase (scheme ++ lit "://" ++ host ++ port ++ path)))
  = (to_ascii_lowercase (host ++ port), to_ascii_lowercase path).
Proof.
  intros Hs Hh Hp Hd. destruct path as [|c path]; [done|]. injection Hd as ->. rewrite (app_assoc host).
  set (a := host ++ port). assert (47 ∉ a) as Ha by set_solver. clearbody a.
  replace (scheme ++ _) with ((scheme ++ lit "://") ++ a ++ 47 :: path) by by rewrite <- !app_assoc.
  rewrite (lower_app (scheme ++ lit "://")). set (t := to_ascii_lowercase (a ++ 47 :: path)).
  assert (strip_scheme (to_ascii_lowercase (scheme ++ lit "://") ++ t) = t) as ->.
  { unfold strip_scheme. apply elem_of_cons in Hs as [-> | Hs%list_elem_of_singleton].
    - change (to_ascii_lowercase (lit "https" ++ lit "://")) with (lit "https://"). by rewrite strip_prefix_app.
    - subst scheme. change (to_ascii_lowercase (lit "http" ++ lit "://")) with (lit "http://").
      change (strip_prefix (lit "https://") (lit "http://" ++ t)) with (@None str). by rewrite strip_prefix_app. }
  subst t. rewrite lower_app. change (to_ascii_lowercase (47 :: path)) with ([47] ++ to_ascii_lowercase path).
  unfold split_path. rewrite (split_once_first 47 []); [done|]. by apply not_elem_lower.
Qed.

Lemma in_domain_trim_dots h d : in_domain h d -> in_domain h (trim_start_matches 46 d) \/ trim_start_matches 46 d = [].
Proof.
  induction d as [|c d IH]; [by right|]. unfold trim_start_matches, trim_start_by in *. cbn [drop_while].
  destruct (Z.eqb_spec 46 c) as [<-|]; [|by left]. intros H. apply IH.
  destruct H as [-> | [p ->]]; right; [by exists []|]. exists (p ++ [46]). by rewrite <- app_assoc.
Qed.

Lemma last_dots d : trim_start_matches 46 d = [] -> d <> [] -> last d = Some 46.
Proof.
  induction d as [|c d IH]; [done|]. unfold trim_start_matches, trim_start_by in *. cbn [drop_while].
  destruct (Z.eqb_spec 46 c) as [<-|]; [|done]. intros H _. destruct d as [|x d]; [done|].
  change (last (46 :: x :: d)) with (last (x :: d)). by apply IH.
Qed.

(** A host with a label is in no domain whose name is only dots. *)
Lemma in_domain_dots h d : h <> [] -> last h <> Some 46 -> in_domain h d -> trim_start_matches 46 d <> [].
Proof.
  intros Hne Hl Hd Ht. destruct (decide (d = [])) as [->|Hd0].
  - destruct Hd as [-> | [p ->]]; [done|]. by rewrite last_snoc in Hl.
  - apply last_dots in Ht; [|done]. destruct Hd as [-> | [p ->]]; [done|]. rewrite last_app in Hl.
    destruct d as [|z d]; [done|]. change (last (46 :: z :: d)) with (last (z :: d)) in Hl. by rewrite Ht in Hl.
Qed.

Lemma pattern_matches_spec host path p : pattern_matches host path p = true <->
  in_domain host (host_part p) /\ exists rest, path = snd (split_path p) ++ rest.
Proof.
  unfold pattern_matches, host_part. destruct (split_path p) as [a b]. cbn.
  by rewrite andb_true_iff, suffix_match_spec, starts_with_spec.
Qed.

Lemma url_matches_spec scheme host port path patterns :
  scheme ∈ [lit "https"; lit "http"] -> 47 ∉ host -> 58 ∉ host ->
  (port = [] \/ exists d, port = 58 :: d) -> 47 ∉ port -> head path = Some 47 ->
  url_matches_relay_pattern (scheme ++ lit "://" ++ host ++ port ++ path) patterns = true <->
  exists p, p ∈ patterns /\ in_domain (host_key host) (host_part p) /\
    exists rest, to_ascii_lowercase path = snd (split_path p) ++ rest.
Proof.
  intros Hs Hh Hc Hp Hps Hd. unfold url_matches_relay_pattern. case_bool_decide as E; [subst; set_solver|].
  rewrite url_split, lower_app, split_on_authority; [|by apply not_elem_lower| |done..].
  - rewrite existsb_elem. by setoid_rewrite pattern_matches_spec.
  - destruct Hp as [-> | [d ->]]; [by left|right; by eexists].
Qed.

(** A URL [scheme://host[:port]path] matches the relay patterns exactly when the
    host's normal form is in the domain of some pattern's host and the lowercased path
    starts with that pattern's path; and with the patterns a configuration resolves to, a
    URL that matches is on a host of the forced or of the skipped list, so a host that was
    never pulled out of SNI-rewrite is never path-routed by accident. *)
Theorem path_filter (scheme host port path : str) (patterns : list str) :
  scheme ∈ [lit "https"; lit "http"] -> 47 ∉ host -> 58 ∉ host ->
  (port = [] \/ exists d, port = 58 :: d) -> 47 ∉ port -> head path = Some 47 ->
  let url := scheme ++ lit "://" ++ host ++ port ++ path in
  (url_matches_relay_pattern url patterns = true <->
     exists p, p ∈ patterns /\ in_domain (host_key host) (host_part p) /\
       exists rest, to_ascii_lowercase path = snd (split_path p) ++ rest) /\
  (forall config, patterns = r_patterns (ResolvedRouting_from_config config AppsScript) ->
     url_matches_relay_pattern url patterns = true -> host_key host <> [] ->
     covered (host_key host) (r_force_mitm_hosts (ResolvedRouting_from_config config AppsScript)
                              ++ r_skipped_hosts (ResolvedRouting_from_config config AppsScript))).
Proof.
  intros Hs Hh Hc Hp Hps Hd url.
  pose proof (url_matches_spec scheme host port path patterns Hs Hh Hc Hp Hps Hd) as Hm. fold url in Hm.
  split; [exact Hm|]. intros config Hpat Hu Hne. apply Hm in Hu as (p & Hin & Hdom & _).
  pose proof (trim_end_last 46 (to_ascii_lowercase host)) as Hl. fold (host_key host) in Hl.
  pose proof (in_domain_dots _ _ Hne Hl Hdom) as Hnd.
  pose proof (from_config_hosts config AppsScript) as He.
  exists (pattern_host p). rewrite pattern_host_part at 2. split.
  - apply He. split; [by rewrite pattern_host_part|]. exists p. by rewrite <- Hpat.
  - by destruct (in_domain_trim_dots _ _ Hdom).
Qed.

Lemma path_filter_witness :
  let config := mkRoutingConfig false [] [] [] false [] in
  url_matches_relay_pattern (lit "https" ++ lit "://" ++ lit "WWW.YouTube.com" ++ [] ++ lit "/youtubei/v1/x")
    (r_patterns (ResolvedRouting_from_config config AppsScript)) = true /\
  covered (host_key (lit "WWW.YouTube.com"))
    (r_force_mitm_hosts (ResolvedRouting_from_config config AppsScript)
     ++ r_skipped_hosts (ResolvedRouting_from_config config AppsScript)).
Proof.
  intros config.
  destruct (path_filter (lit "https") (lit "WWW.YouTube.com") [] (lit "/youtubei/v1/x")
              (r_patterns (ResolvedRouting_from_config config AppsScript))) as [_ H].
  - left.
  - by apply (bool_decide_unpack _).
  - by apply (bool_decide_unpack _).
  - by left.
  - set_solver.
  - reflexivity.
  - split; [vm_compute; reflexivity|]. apply H; [reflexivity|vm_compute; reflexivity|done].
Defined.
