(* ===== verification/OAuthFlow.v ===== *)
(** * src/drive_oauth.rs and the relay's command line: signing in

    The texts of the OAuth flows: form bodies, the authorization URL, the callback; the
    answers of the endpoints; the device-code flow of rahgozar-drive-relay, with the
    configuration it writes (drive-relay/src/main.rs, lib.rs, config.rs).

    form_urlencoded, serde_json's parser, SHA-256 and the HTTP client are parameters; the
    fields of an answer are read here as serde's derived code reads them. *)

From stdpp Require Import prelude.
From S2P Require Import Prelude RustStr Frame HttpText RelayJson Token RoutingRules.
#[local] Open Scope Z_scope.

(** ** Forms *)

(** The encoding of a name or value in a form. *)
Class FormEncode := { form_encode : str -> str }.

(** [Serializer::append_pair], then [finish] *)
Fixpoint form `{!FormEncode} (pairs : list (str * str)) : str :=
  match pairs with
  | [] => []
  | [(k, v)] => form_encode k ++ [61] ++ form_encode v
  | (k, v) :: pairs => form_encode k ++ [61] ++ form_encode v ++ [38] ++ form pairs
  end.

Definition DRIVE_FILE_SCOPE : str := lit "https://www.googleapis.com/auth/drive.file".
Definition DEVICE_CODE_GRANT_TYPE : str := lit "urn:ietf:params:oauth:grant-type:device_code".
Definition AUTH_ENDPOINT : str := lit "https://accounts.google.com/o/oauth2/v2/auth".

Record PkceCodes := mkPkce { code_verifier : str; code_challenge : str }.

(** With 32 random bytes. *)
Definition generate_pkce_codes (base64url : bytes -> str) (sha256 : bytes -> bytes) (entropy : bytes) : PkceCodes :=
  let v := base64url entropy in mkPkce v (base64url (sha256 (as_bytes v))).

Section Forms.
Context `{!FormEncode}.

Definition auth_pairs (client_id redirect_uri : str) (pkce : PkceCodes) (state : str) : list (str * str) :=
  [(lit "response_type", lit "code"); (lit "client_id", client_id); (lit "redirect_uri", redirect_uri); (lit "scope", DRIVE_FILE_SCOPE);
   (lit "code_challenge", code_challenge pkce); (lit "code_challenge_method", lit "S256"); (lit "state", state);
   (lit "access_type", lit "offline"); (lit "prompt", lit "consent")].
Definition build_auth_url (client_id redirect_uri : str) (pkce : PkceCodes) (state : str) : str :=
  AUTH_ENDPOINT ++ lit "?" ++ form (auth_pairs client_id redirect_uri pkce state).

Definition build_token_exchange_body (code redirect_uri verifier client_id client_secret : str) : str :=
  form [(lit "grant_type", lit "authorization_code"); (lit "code", code); (lit "redirect_uri", redirect_uri);
        (lit "code_verifier", verifier); (lit "client_id", client_id); (lit "client_secret", client_secret)].
Definition build_refresh_body (refresh client_id client_secret : str) : str :=
  form [(lit "grant_type", lit "refresh_token"); (lit "refresh_token", refresh); (lit "client_id", client_id); (lit "client_secret", client_secret)].
Definition build_device_code_start_body (client_id : str) : str := form [(lit "client_id", client_id); (lit "scope", DRIVE_FILE_SCOPE)].
Definition build_device_code_poll_body (device_code client_id client_secret : str) : str :=
  form [(lit "grant_type", DEVICE_CODE_GRANT_TYPE); (lit "device_code", device_code); (lit "client_id", client_id); (lit "client_secret", client_secret)].
End Forms.

(** ** The callback *)

(** The loop of [url_decode_ascii] from [i] on. *)
Fixpoint url_decode_bytes (b : bytes) : bytes :=
  match b with
  | [] => []
  | c :: r =>
    if c =? 43 then 32 :: url_decode_bytes r
    else if c =? 37 then
      match r with
      | h :: l :: r' =>
        match hex_digit h, hex_digit l with
        | Some hi, Some lo => Z.lor (Z.shiftl hi 4) lo :: url_decode_bytes r'
        | _, _ => 37 :: url_decode_bytes r
        end
      | _ => 37 :: url_decode_bytes r
      end
    else c :: url_decode_bytes r
  end.
Definition url_decode_ascii (s : str) : str := from_utf8_lossy (url_decode_bytes (as_bytes s)).

Record CallbackParts := mkCallback { cb_code : str; cb_state : str }.
Record Params := mkParams { p_code : option str; p_state : option str; p_error : option str }.

Definition take_param (p : Params) (pair : str) : Params :=
  match split_once [61] pair with
  | None => p
  | Some (k, v) =>
    let d := Some (url_decode_ascii v) in
    if bool_decide (k = lit "code") then mkParams d (p_state p) (p_error p)
    else if bool_decide (k = lit "state") then mkParams (p_code p) d (p_error p)
    else if bool_decide (k = lit "error") then mkParams (p_code p) (p_state p) d
    else p
  end.

Definition parse_callback_url (url : str) : res CallbackParts OAuthError :=
  match split_once [63] url with
  | None => Err (BadResponse (lit "OAuth callback URL is missing the `?<query>` section: " ++ url))
  | Some (_, query) =>
    let p := fold_left take_param (split_on 38 query) (mkParams None None None) in
    match p_error p with
    | Some e => Err (Endpoint (lit "oauth callback") 0 e)
    | None =>
      let? code := ok_or (p_code p) (MissingField (lit "code")) in
      let? state := ok_or (p_state p) (MissingField (lit "state")) in
      Ok (mkCallback code state)
    end
  end.

(** ** Answers *)

(** The value of a field that serde's derived code reads: [Err] when it is given twice. *)
Definition field (names : list str) (v : Value) : res (option Value) str :=
  match v with
  | VObject m => match filter (fun kv => kv.1 ∈ names) m with [] => Ok None | [(_, x)] => Ok (Some x) | _ => Err (lit "duplicate field") end
  | _ => Err (lit "invalid type")
  end.
Definition string_of (v : Value) : res str str := match v with VString s => Ok s | _ => Err (lit "invalid type") end.
Definition u64_of (v : Value) : res Z str := match v with VNumber n => ok_or (parse_u64 n) (lit "invalid number") | _ => Err (lit "invalid type") end.
Definition required {A} (dec : Value -> res A str) (names : list str) (v : Value) : res A str :=
  let? x := field names v in match x with Some x => dec x | None => Err (lit "missing field") end.
Definition defaulted {A} (dec : Value -> res A str) (d : A) (names : list str) (v : Value) : res A str :=
  let? x := field names v in match x with Some x => dec x | None => Ok d end.
Definition option_of {A} (dec : Value -> res A str) (v : Value) : res (option A) str :=
  match v with VNull => Ok None | _ => let? x := dec v in Ok (Some x) end.

Record DeviceFlowStart := mkFlow { df_device_code : str; df_user_code : str; df_verification_url : str; df_interval : Z; df_expires_in : Z }.
Inductive DevicePollOutcome := Pending | SlowDown | AccessDenied | ExpiredToken | Tokens (t : OAuthTokens).

(** The last second an [Instant] can hold; adding a [Duration] past it panics. *)
Definition INSTANT_MAX : Z := 2 ^ 63 - 1.

Section Answers.
Context (json : str -> res Value str).

(** [serde_json::from_str] of a struct with these fields. *)
Definition from_str {A} (decode : Value -> res A str) (body : str) : res A str := let? v := json body in decode v.

Definition parse_token_response_body (body : str) (now : Z) : res OAuthTokens OAuthError :=
  let? (access, refresh, expires_in, sc) := map_err (fun e => BadResponse (lit "token endpoint: " ++ e)) (from_str (fun v =>
    let? a := required string_of [lit "access_token"] v in
    let? r := defaulted (option_of string_of) None [lit "refresh_token"] v in
    let? e := required u64_of [lit "expires_in"] v in
    let? s := defaulted string_of [] [lit "scope"] v in Ok (a, r, e, s)) body) in
  if bool_decide (access = []) then Err (MissingField (lit "access_token")) else
  if INSTANT_MAX <? now + expires_in then Panic else
  Ok (mkTokens access (r ← refresh; if bool_decide (r = []) then None else Some r) (now + expires_in) sc).

Definition parse_device_code_start_response_body (body : str) : res DeviceFlowStart OAuthError :=
  let? (device_code, user_code, url, expires_in, interval) := map_err (fun e => BadResponse (lit "device/code: " ++ e)) (from_str (fun v =>
    let? d := required string_of [lit "device_code"] v in
    let? u := required string_of [lit "user_code"] v in
    let? l := required string_of [lit "verification_url"; lit "verification_uri"] v in
    let? e := required u64_of [lit "expires_in"] v in
    let? i := defaulted u64_of 5 [lit "interval"] v in Ok (d, u, l, e, i)) body) in
  if bool_decide (device_code = []) then Err (MissingField (lit "device_code"))
  else if bool_decide (user_code = []) then Err (MissingField (lit "user_code"))
  else if bool_decide (url = []) then Err (MissingField (lit "verification_url"))
  else Ok (mkFlow device_code user_code url interval expires_in).

Definition parse_device_poll_response_body (body : str) (now : Z) : res DevicePollOutcome OAuthError :=
  match parse_token_response_body body now with
  | Ok t => Ok (Tokens t)
  | Panic => Panic
  | Err _ =>
    let? (err, description) := map_err (fun e => BadResponse (lit "device poll: " ++ e)) (from_str (fun v =>
      let? e := required string_of [lit "error"] v in
      let? d := defaulted string_of [] [lit "error_description"] v in Ok (e, d)) body) in
    if bool_decide (err = lit "authorization_pending") then Ok Pending
    else if bool_decide (err = lit "slow_down") then Ok SlowDown
    else if bool_decide (err = lit "access_denied") then Ok AccessDenied
    else if bool_decide (err = lit "expired_token") then Ok ExpiredToken
    else Err (Endpoint (lit "device poll") 0 (lit "unexpected error code '" ++ err ++ lit "': " ++ description))
  end.

(** The answer of an endpoint: no transport, or a status and a text. *)
Definition Answer : Type := option (Z * str).
Definition is_success (status : Z) : bool := between 200 status 299.

Definition post_form_and_parse {A} (answer : Answer) (label : str) (parse : str -> res A OAuthError) : res A OAuthError :=
  match answer with
  | None => Err Transport
  | Some (status, body) => if negb (is_success status) then Err (Endpoint label status body) else parse body
  end.

Definition exchange_authorization_code (answer : Answer) (now : Z) : res OAuthTokens OAuthError :=
  post_form_and_parse answer (lit "token exchange") (fun b => parse_token_response_body b now).
Definition refresh_access_token (answer : Answer) (now : Z) : res OAuthTokens OAuthError :=
  post_form_and_parse answer (lit "refresh") (fun b => parse_token_response_body b now).
Definition device_code_start (answer : Answer) : res DeviceFlowStart OAuthError :=
  post_form_and_parse answer (lit "device/code start") parse_device_code_start_response_body.

Definition device_code_poll (answer : Answer) (now : Z) : res DevicePollOutcome OAuthError :=
  match answer with
  | None => Err Transport
  | Some (status, body) =>
    match parse_device_poll_response_body body now with
    | Err (BadResponse w) => if negb (is_success status) then Err (Endpoint (lit "device poll") status body) else Err (BadResponse w)
    | r => r
    end
  end.

(** ** The device-code flow of the relay *)

(** How it ends: with the refresh token to save, or with a failure. *)
Inductive FlowEnd := FlowSaved (refresh : str) | FlowFailed.

(** One turn of the loop after the sleep: the end, or the interval to sleep next. *)
Definition flow_turn (interval : Z) (r : res DevicePollOutcome OAuthError) : FlowEnd + Z :=
  match r with
  | Ok Pending => inr interval
  | Ok SlowDown => inr (interval + 5)
  | Ok AccessDenied | Ok ExpiredToken => inl FlowFailed
  | Ok (Tokens t) => match refresh_token t with Some r => inl (FlowSaved r) | None => inl FlowFailed end
  | Err Transport | Err (BadResponse _) => inr interval
  | Err _ => inl FlowFailed
  | Panic => inl FlowFailed
  end.

(** The loop over the answers of the polls: the end with the number of polls, or the interval
    when the answers are used up. *)
Fixpoint flow_loop (interval : Z) (now : Z) (answers : list Answer) : (FlowEnd * nat) + Z :=
  match answers with
  | [] => inr interval
  | a :: answers =>
    match flow_turn interval (device_code_poll a (now + interval)) with
    | inl e => inl (e, 1%nat)
    | inr i => match flow_loop i (now + interval) answers with inl (e, n) => inl (e, S n) | inr i => inr i end
    end
  end.
End Answers.

(** ** The configuration of the relay *)

Record RelayConfig := mkRelayConfig {
  oauth_client_id : str; oauth_client_secret : str; oauth_refresh_token : str; folder_id : str; x25519_secret_key_path : str;
  poll_interval_ms : Z; max_concurrent_dials : Z; idle_timeout_secs : Z; allow_destinations : list str; metrics_bind : option str
}.

Definition DEFAULT_KEY_PATH : str := lit "/etc/rahgozar-drive-relay/relay.key".
Definition placeholder : RelayConfig := mkRelayConfig [] [] [] [] DEFAULT_KEY_PATH 300 8 120 [] None.

Inductive RelayConfigError := RcRead | RcParse | RcInvalid (what : str).

Definition blank (s : str) : bool := bool_decide (trim s = []).

Definition validate (key_exists : str -> bool) (c : RelayConfig) : res unit RelayConfigError :=
  let refuse (b : bool) (what : string) (k : res unit RelayConfigError) := if b then Err (RcInvalid (lit what)) else k in
  refuse (blank (oauth_client_id c)) "oauth_client_id"
  (refuse (blank (oauth_client_secret c)) "oauth_client_secret"
  (refuse (blank (oauth_refresh_token c)) "oauth_refresh_token"
  (refuse (blank (folder_id c)) "folder_id"
  (refuse (negb (key_exists (x25519_secret_key_path c))) "x25519_secret_key_path"
  (refuse (poll_interval_ms c =? 0) "poll_interval_ms"
  (refuse (max_concurrent_dials c =? 0) "max_concurrent_dials"
  (refuse (idle_timeout_secs c =? 0) "idle_timeout_secs" (Ok tt)))))))).

(** The configuration file: absent, not readable, not a configuration, or one. *)
Inductive ConfigFile := CfAbsent | CfUnreadable | CfMalformed | CfConfig (c : RelayConfig).

Definition load (f : ConfigFile) : res RelayConfig RelayConfigError :=
  match f with CfAbsent | CfUnreadable => Err RcRead | CfMalformed => Err RcParse | CfConfig c => Ok c end.

(** [write_ok]: whether the file beside it is written and renamed. *)
Definition save_oauth_credentials (client_id client_secret refresh : str) (write_ok : bool) (f : ConfigFile) : res unit RelayConfigError * ConfigFile :=
  let set c := mkRelayConfig client_id client_secret refresh (folder_id c) (x25519_secret_key_path c) (poll_interval_ms c)
    (max_concurrent_dials c) (idle_timeout_secs c) (allow_destinations c) (metrics_bind c) in
  let store c := if write_ok then (Ok tt, CfConfig (set c)) else (Err RcRead, f) in
  match f with
  | CfAbsent => store placeholder
  | CfConfig c => store c
  | CfUnreadable => (Err RcRead, f)
  | CfMalformed => (Err RcParse, f)
  end.

(** [cmd_oauth_device_code]: the start, the polls, the file. *)
Definition cmd_oauth_device_code (json : str -> res Value str) (client_id client_secret : str) (start : Answer) (answers : list Answer)
    (write_ok : bool) (f : ConfigFile) : option bool * ConfigFile :=
  match device_code_start json start with
  | Ok flow =>
    match flow_loop json (df_interval flow) 0 answers with
    | inl (FlowSaved refresh, _) =>
      let '(r, f) := save_oauth_credentials client_id client_secret refresh write_ok f in
      (Some (match r with Ok _ => true | _ => false end), f)
    | inl (FlowFailed, _) => (Some false, f)
    | inr _ => (None, f)
    end
  | _ => (Some false, f)
  end.

(** ** What the texts carry *)

(** What is documented of the encoding: it can be undone, it has no separator of a form, and
    it leaves plain names. *)
Class FormLaws `{!FormEncode} := {
  fl_decode s : str_ok s -> url_decode_ascii (form_encode s) = s;
  fl_chars s c : c = 38 \/ c = 61 -> c ∉ form_encode s;
  fl_plain s : Forall (fun c => between 97 c 122 = true) s -> form_encode s = s
}.

(** The last value of a name. *)
Definition last_of (k : str) (pairs : list (str * str)) : option str := snd <$> last (filter (fun kv => kv.1 = k) pairs).

(** What a reader of a form makes of it. *)
Definition read_form (s : str) : list (str * str) :=
  (fun pair => match split_once [61] pair with Some (k, v) => (url_decode_ascii k, url_decode_ascii v) | None => (url_decode_ascii pair, []) end) <$> split_on 38 s.

Section Carry.
Context {FE : FormEncode} {FL : FormLaws}.

Definition pair_text (kv : str * str) : str := form_encode kv.1 ++ 61 :: form_encode kv.2.

Lemma pair_text_amp kv : 38 ∉ pair_text kv.
Proof. unfold pair_text. rewrite elem_of_app, elem_of_cons. intros [H|[H|H]]; [by apply (fl_chars _ 38) in H; auto|done|by apply (fl_chars _ 38) in H; auto]. Qed.

Lemma split_form pairs : pairs <> [] -> split_on 38 (form pairs) = pair_text <$> pairs.
Proof.
  induction pairs as [|[k v] pairs IH]; [done|]. intros _. destruct pairs as [|kv pairs].
  - cbn. apply split_on_none. apply (pair_text_amp (k, v)).
  - change (form ((k, v) :: kv :: pairs)) with (form_encode k ++ [61] ++ form_encode v ++ [38] ++ form (kv :: pairs)).
    replace (form_encode k ++ [61] ++ form_encode v ++ [38] ++ form (kv :: pairs)) with (pair_text (k, v) ++ 38 :: form (kv :: pairs)) by (unfold pair_text; cbn; by rewrite <- !app_assoc).
    rewrite split_on_first by apply pair_text_amp. by rewrite IH.
Qed.

Lemma split_pair kv : split_once [61] (pair_text kv) = Some (form_encode kv.1, form_encode kv.2).
Proof. unfold pair_text. apply (split_once_first 61 [] (form_encode kv.1) (form_encode kv.2)). apply fl_chars. auto. Qed.

Lemma encoded_name k name : str_ok k -> Forall (fun c => between 97 c 122 = true) name -> str_ok name -> form_encode k = name <-> k = name.
Proof.
  intros Hk Hn Ho. split; [|intros ->; by apply fl_plain]. intros E. rewrite <- (fl_decode k Hk), E, <- (fl_plain name Hn) at 1. by apply fl_decode.
Qed.

(** What the callback's loop keeps of the pairs. *)
Definition params_of (pairs : list (str * str)) : Params := mkParams (last_of (lit "code") pairs) (last_of (lit "state") pairs) (last_of (lit "error") pairs).

Lemma last_of_snoc name pairs k v : last_of name (pairs ++ [(k, v)]) = if bool_decide (k = name) then Some v else last_of name pairs.
Proof.
  unfold last_of. rewrite filter_app, filter_cons. cbn. destruct (decide (k = name)) as [->|Hn].
  - rewrite bool_decide_true by done. by rewrite last_snoc.
  - rewrite bool_decide_false by done. by rewrite app_nil_r.
Qed.

Lemma take_params pairs : Forall (fun kv => str_ok kv.1 /\ str_ok kv.2) pairs -> fold_left take_param (pair_text <$> pairs) (mkParams None None None) = params_of pairs.
Proof.
  induction pairs as [|[k v] pairs IH] using rev_ind; [done|]. intros [Hp [[Hk Hv] _]%Forall_cons]%Forall_app. cbn [fst snd] in *.
  rewrite fmap_app, fold_left_app, IH by done. cbn [fmap list_fmap fold_left]. unfold take_param. rewrite split_pair. cbn [fst snd]. rewrite fl_decode by done.
  assert (forall name : string, Forall (fun c => between 97 c 122 = true) (lit name) -> bool_decide (form_encode k = lit name) = bool_decide (k = lit name)) as Hb.
  { intros name Hn. apply bool_decide_ext, encoded_name; [done|done|]. eapply Forall_impl; [exact Hn|]. intros c Hc. left. unfold between in Hc. lia. }
  rewrite !Hb by (apply (bool_decide_unpack _); vm_compute; exact I). unfold params_of. rewrite !last_of_snoc.
  destruct (bool_decide_reflect (k = lit "code")) as [->|N1]; [done|]. destruct (bool_decide_reflect (k = lit "state")) as [->|N2]; [done|].
  by destruct (bool_decide_reflect (k = lit "error")) as [->|N3].
Qed.

(** Forms and callbacks carry what was put in.  A reader of a form that was built
    from pairs gets the pairs back, in order, whatever characters they have; and the callback
    that an authorization server builds by appending its parameters to the redirect URI gives
    the code and the state it was given, the last of each, unless it has an error, which
    counts before both. *)
Theorem oauth_texts (base : str) (pairs : list (str * str)) (Hne : pairs <> []) (Hok : Forall (fun kv => str_ok kv.1 /\ str_ok kv.2) pairs) (Hbase : 63 ∉ base) :
  read_form (form pairs) = pairs
  /\ parse_callback_url (base ++ 63 :: form pairs) =
     match last_of (lit "error") pairs, last_of (lit "code") pairs, last_of (lit "state") pairs with
     | Some e, _, _ => Err (Endpoint (lit "oauth callback") 0 e)
     | None, Some c, Some s => Ok (mkCallback c s)
     | None, None, _ => Err (MissingField (lit "code"))
     | None, Some _, None => Err (MissingField (lit "state"))
     end.
Proof.
  split.
  - unfold read_form. rewrite split_form by done. rewrite <- list_fmap_compose. clear Hne. induction Hok as [|[k v] pairs [Hk Hv] _ IH]; [done|].
    cbn [fmap list_fmap]. f_equal; [|exact IH]. unfold compose. rewrite split_pair. cbn [fst snd] in *. by rewrite !fl_decode.
  - unfold parse_callback_url. change (base ++ 63 :: form pairs) with (base ++ [63] ++ form pairs). rewrite (split_once_first 63 [] base (form pairs)) by done. rewrite split_form, take_params by done. unfold params_of. cbn [p_error p_code p_state].
    destruct (last_of (lit "error") pairs), (last_of (lit "code") pairs), (last_of (lit "state") pairs); done.
Qed.
End Carry.

(** ** The flow *)

(** An answer after which the relay polls again. *)
Definition polls_again (json : str -> res Value str) (now : Z) (a : Answer) : Prop :=
  match device_code_poll json a now with Ok Pending | Ok SlowDown | Err Transport | Err (BadResponse _) => True | _ => False end.

Lemma flow_loop_saved json answers : forall interval now refresh n, flow_loop json interval now answers = inl (FlowSaved refresh, n) ->
  exists before a after t at_, answers = before ++ a :: after /\ n = S (length before)
  /\ device_code_poll json a at_ = Ok (Tokens t) /\ refresh_token t = Some refresh /\ Forall (fun b => exists i, polls_again json i b) before.
Proof.
  induction answers as [|a answers IH]; intros interval now refresh n H; [done|]. cbn [flow_loop] in H.
  destruct (flow_turn interval (device_code_poll json a (now + interval))) as [e|i] eqn:E.
  - injection H as -> <-. exists [], a, answers. unfold flow_turn in E. destruct (device_code_poll json a (now + interval)) as [[| | | |t]|[]|] eqn:Ep; try done.
    destruct (refresh_token t) eqn:Er; [|done]. injection E as ->. exists t, (now + interval). by split_and!.
  - destruct (flow_loop json i (now + interval) answers) as [[e k]|] eqn:El; [|done]. injection H as -> <-.
    destruct (IH _ _ _ _ El) as (before & b & after & t & at_ & -> & -> & H1 & H2 & H3). exists (a :: before), b, after, t, at_. split_and!; [done..|].
    constructor; [|done]. exists (now + interval). unfold polls_again. unfold flow_turn in E.
    destruct (device_code_poll json a (now + interval)) as [[| | | |t']|[]|]; try done. by destruct (refresh_token t').
Qed.

(** The relay saves a refresh token only when it was granted one, and changes nothing
    else.  When the command succeeds, some poll was answered with tokens that have that
    refresh token, all polls before it were answered with "pending", "slow down" or a passing
    error, and the file is the one there was, or the placeholder, with the three credentials
    replaced; in every other case the file is as it was, a malformed one included. *)
Theorem device_flow_saves (json : str -> res Value str) (client_id client_secret : str) (start : Answer) (answers : list Answer) (write_ok : bool) (f f' : ConfigFile)
    (r : option bool) (Hrun : cmd_oauth_device_code json client_id client_secret start answers write_ok f = (r, f')) :
  match r with
  | Some true => exists before a after t at_ refresh c, answers = before ++ a :: after /\ device_code_poll json a at_ = Ok (Tokens t) /\ refresh_token t = Some refresh
      /\ Forall (fun b => exists i, polls_again json i b) before /\ (f = CfConfig c \/ f = CfAbsent /\ c = placeholder)
      /\ f' = CfConfig (mkRelayConfig client_id client_secret refresh (folder_id c) (x25519_secret_key_path c) (poll_interval_ms c)
           (max_concurrent_dials c) (idle_timeout_secs c) (allow_destinations c) (metrics_bind c))
  | _ => f' = f
  end.
Proof.
  unfold cmd_oauth_device_code in Hrun. destruct (device_code_start json start) as [flow| |]; [|by injection Hrun as <- <-..].
  destruct (flow_loop json (df_interval flow) 0 answers) as [[[refresh|] n]|i] eqn:El; [|by injection Hrun as <- <-..].
  destruct (flow_loop_saved _ _ _ _ _ _ El) as (before & a & after & t & at_ & H1 & _ & H2 & H3 & H4). unfold save_oauth_credentials in Hrun.
  destruct f as [| | |c]; destruct write_ok; cbn in Hrun; injection Hrun as <- <-; try done; exists before, a, after, t, at_, refresh; [exists placeholder|exists c];
    split_and!; auto.
Qed.

(** A gateway's error page ends the sign-in.  A page that is no JSON is a passing
    error with a status of success, and the relay polls again; with any other status, which
    is how gateways send it, the relay gives up and the code is lost. *)
Theorem gateway_page_ends_flow (json : str -> res Value str) (body e : str) (Hbody : json body = Err e) (interval now status : Z) :
  flow_turn interval (device_code_poll json (Some (status, body)) now) = if is_success status then inr interval else inl FlowFailed.
Proof.
  unfold device_code_poll, parse_device_poll_response_body, parse_token_response_body, from_str. rewrite Hbody. cbn. by destruct (is_success status).
Qed.

(** ** Examples *)

(** Letters as they are, every other byte as [%XX]. *)
Definition hex_char (d : Z) : Z := if d <? 10 then 48 + d else 55 + d.
Definition encode_byte (b : Z) : str := if between 97 b 122 then [b] else [37; hex_char (b / 16); hex_char (b mod 16)].
#[local] Instance char_ok_dec c : Decision (char_ok c).
Proof. unfold char_ok. apply _. Defined.
#[local] Instance str_ok_dec s : Decision (str_ok s).
Proof. unfold str_ok. apply _. Defined.
#[local] Instance percent : FormEncode := {| form_encode s := if bool_decide (str_ok s) then as_bytes s ≫= encode_byte else [] |}.

Definition byte_decodes (b : Z) : bool :=
  match hex_digit (hex_char (b / 16)), hex_digit (hex_char (b mod 16)) with
  | Some hi, Some lo => (Z.lor (Z.shiftl hi 4) lo =? b) && forallb (fun c => (0 <=? c) && (c <? 128) && negb (c =? 38) && negb (c =? 61)) (encode_byte b)
  | _, _ => false
  end.

Lemma bytes_decode b : 0 <= b < 256 -> byte_decodes b = true.
Proof.
  intros Hb. assert (forallb byte_decodes (seqZ 0 256) = true) as H by (vm_compute; reflexivity). rewrite forallb_forall in H.
  apply H, list_elem_of_In, elem_of_seqZ. lia.
Qed.

Lemma decode_encoded b r : 0 <= b < 256 -> url_decode_bytes (encode_byte b ++ r) = b :: url_decode_bytes r.
Proof.
  intros Hb. pose proof (bytes_decode b Hb) as H. unfold byte_decodes in H. unfold encode_byte in *. destruct (between 97 b 122) eqn:E.
  - cbn [app url_decode_bytes]. unfold between in E. rewrite !(proj2 (Z.eqb_neq b _)) by lia. done.
  - cbn [app url_decode_bytes]. cbn [Z.eqb]. destruct (hex_digit (hex_char (b / 16))) as [hi|]; [|done]. destruct (hex_digit (hex_char (b mod 16))) as [lo|]; [|done].
    apply andb_prop in H as [H%Z.eqb_eq _]. change (37 =? 43) with false. change (37 =? 37) with true. cbn iota. by rewrite H.
Qed.

Lemma encoded_chars b c : 0 <= b < 256 -> c ∈ encode_byte b -> is_ascii c /\ c <> 38 /\ c <> 61.
Proof.
  intros Hb Hc. pose proof (bytes_decode b Hb) as H. unfold byte_decodes in H. repeat case_match; try done. apply andb_prop in H as [_ H].
  rewrite forallb_forall in H. specialize (H c (proj1 (list_elem_of_In _ _) Hc)). unfold is_ascii. lia.
Qed.

Lemma as_bytes_ok s : str_ok s -> Forall (fun b => 0 <= b < 256) (as_bytes s).
Proof. intros Hs. induction Hs; [constructor|]. rewrite as_bytes_cons. apply Forall_app. split; [by apply utf8_char_ok|done]. Qed.

Lemma percent_chars s c : str_ok s -> c ∈ as_bytes s ≫= encode_byte -> is_ascii c /\ c <> 38 /\ c <> 61.
Proof.
  intros Hs%as_bytes_ok (b & H1 & H2)%list_elem_of_bind. rewrite Forall_forall in Hs. apply (encoded_chars b c); auto.
Qed.

#[local] Instance percent_laws : FormLaws.
Proof.
  split; cbn.
  - intros s Hs. rewrite bool_decide_true by done. unfold url_decode_ascii.
    rewrite as_bytes_ascii by (apply Forall_forall; intros c H; by destruct (percent_chars s c Hs H)).
    transitivity (from_utf8_lossy (as_bytes s)); [|by apply from_utf8_lossy_as_bytes]. f_equal. pose proof (as_bytes_ok s Hs) as Hb.
    induction Hb as [|b l Hb _ IH]; [done|]. cbn [mbind list_bind]. by rewrite decode_encoded, IH.
  - intros s c Hc. case_bool_decide as Hs; [|apply not_elem_of_nil]. intros H. destruct (percent_chars s c Hs H) as (_ & ? & ?). naive_solver.
  - intros s Hs. assert (Forall is_ascii s) as Ha by (eapply Forall_impl; [exact Hs|]; intros c Hc; unfold between in Hc; unfold is_ascii; lia).
    rewrite bool_decide_true by (by apply ascii_str_ok). rewrite as_bytes_ascii by done. clear Ha. induction Hs as [|c s Hc _ IH]; [done|].
    cbn [mbind list_bind]. rewrite IH. unfold encode_byte. by rewrite Hc.
Qed.

Lemma oauth_texts_witness :
  parse_callback_url (lit "http://127.0.0.1/cb" ++ 63 :: form [(lit "state", lit "s&1"); (lit "code", lit "4/0A=+b")]) = Ok (mkCallback (lit "4/0A=+b") (lit "s&1")).
Proof.
  rewrite (proj2 (oauth_texts (lit "http://127.0.0.1/cb") [(lit "state", lit "s&1"); (lit "code", lit "4/0A=+b")]
    ltac:(discriminate) ltac:(apply (bool_decide_unpack _); vm_compute; exact I) ltac:(apply (bool_decide_unpack _); vm_compute; exact I))).
  vm_compute. reflexivity.
Defined.

(** A parser that knows three texts. *)
Definition toy_json (s : str) : res Value str :=
  if bool_decide (s = lit "start") then
    Ok (VObject [(lit "device_code", VString (lit "d")); (lit "user_code", VString (lit "u")); (lit "verification_uri", VString (lit "v")); (lit "expires_in", VNumber (lit "1800"))])
  else if bool_decide (s = lit "pending") then Ok (VObject [(lit "error", VString (lit "authorization_pending"))])
  else if bool_decide (s = lit "tokens") then
    Ok (VObject [(lit "access_token", VString (lit "a")); (lit "refresh_token", VString (lit "r")); (lit "expires_in", VNumber (lit "3599"))])
  else Err (lit "expected value").

Lemma device_flow_saves_witness : exists before a after t at_ refresh c,
  [Some (428, lit "pending"); None; Some (200, lit "tokens")] = before ++ a :: after /\ device_code_poll toy_json a at_ = Ok (Tokens t) /\ refresh_token t = Some refresh
  /\ snd (cmd_oauth_device_code toy_json (lit "id") (lit "secret") (Some (200, lit "start")) [Some (428, lit "pending"); None; Some (200, lit "tokens")] true CfAbsent)
     = CfConfig (mkRelayConfig (lit "id") (lit "secret") refresh (folder_id c) (x25519_secret_key_path c) (poll_interval_ms c)
         (max_concurrent_dials c) (idle_timeout_secs c) (allow_destinations c) (metrics_bind c)).
Proof.
  destruct (device_flow_saves toy_json (lit "id") (lit "secret") (Some (200, lit "start")) [Some (428, lit "pending"); None; Some (200, lit "tokens")] true CfAbsent
    (snd (cmd_oauth_device_code toy_json (lit "id") (lit "secret") (Some (200, lit "start")) [Some (428, lit "pending"); None; Some (200, lit "tokens")] true CfAbsent))
    (Some true)) as (before & a & after & t & at_ & refresh & c & H1 & H2 & H3 & _ & _ & H4); [vm_compute; reflexivity|].
  exists before, a, after, t, at_, refresh, c. split; [exact H1|]. split; [exact H2|]. split; [exact H3|exact H4].
Defined.

Lemma gateway_page_ends_flow_witness : flow_turn 5 (device_code_poll toy_json (Some (502, lit "<html>")) 0) = inl FlowFailed
  /\ flow_turn 5 (device_code_poll toy_json (Some (200, lit "<html>")) 0) = inr 5.
Proof.
  split; [exact (gateway_page_ends_flow toy_json (lit "<html>") (lit "expected value") eq_refl 5 0 502)|exact (gateway_page_ends_flow toy_json (lit "<html>") (lit "expected value") eq_refl 5 0 200)].
Defined.
