(* ===== verification/DirectMode.v ===== *)
(** * src/direct_mode.rs: fragmented TLS to Google and to any host

    The profiles and where they cut a ClientHello, the search for the server name in it,
    the writer of the fragments, the remembered candidate and its file, the two circuit
    breakers, and the two tunnels that use them ([try_tunnel], [try_local_bypass_tunnel]).

    Time is a number of microseconds passed in.  A dial is a function of the address and of
    the segments written to it ([reply]); the race of dials is the order in which they end.
    Byte positions are [nat]; the positions of a ClientHello are far below [usize::MAX]. *)

From stdpp Require Import prelude gmap sorting.
From S2P Require Import Prelude RustStr HttpText HostMatch.
#[local] Open Scope Z_scope.

(** ** Profiles *)
Inductive SplitStrategy := Passthrough | Equal | Sni | SniPrefixed.
#[export] Instance SplitStrategy_eq_dec : EqDecision SplitStrategy.
Proof. solve_decision. Defined.

Record Profile := mkProfile { p_id : str; p_num_chunks : nat; p_delay_ms : Z; p_strategy : SplitStrategy }.
#[export] Instance Profile_eq_dec : EqDecision Profile.
Proof. solve_decision. Defined.

Definition PROFILES : list Profile := [
  mkProfile (lit "p00") 1 0 Passthrough;
  mkProfile (lit "p01") 8 5 SniPrefixed;
  mkProfile (lit "p02") 16 1 Equal;
  mkProfile (lit "p03") 32 3 Equal;
  mkProfile (lit "p04") 64 5 Equal;
  mkProfile (lit "p05") 87 5 Equal;
  mkProfile (lit "p06") 120 10 Equal;
  mkProfile (lit "p07") 8 25 Sni].

Definition DEFAULT_PROFILE_ID : str := lit "p05".

Definition profile_by_id (id : str) : option Profile := List.find (fun p => bool_decide (p_id p = id)) PROFILES.

Definition default_profile : Profile :=
  default (mkProfile (lit "p00") 1 0 Passthrough) (profile_by_id DEFAULT_PROFILE_ID).

(** ** Split points *)
Fixpoint equal_from (n num_chunks i : nat) (count prev : nat) : list nat :=
  match count with
  | O => []
  | S count =>
    let p := ((n * i) / num_chunks)%nat in
    if (p =? 0)%nat || (p =? n)%nat || (p =? prev)%nat then equal_from n num_chunks (S i) count prev
    else p :: equal_from n num_chunks (S i) count p
  end.

Definition equal_splits (n num_chunks : nat) : list nat :=
  if (num_chunks <=? 1)%nat || (n =? 0)%nat then [] else equal_from n num_chunks 1 (num_chunks - 1) 0.

(** [idx.swap(i, j)] *)
Definition swap (i j : nat) (l : list nat) : list nat :=
  match l !! i, l !! j with Some a, Some b => <[i := b]> (<[j := a]> l) | _, _ => l end.

(** The first [take] steps of Fisher-Yates; [rng i] is the generator's word for step [i]. *)
Fixpoint shuffle (rng : nat -> nat) (i take : nat) (idx : list nat) : list nat :=
  match take with
  | O => idx
  | S take => shuffle rng (S i) take (swap i (i + rng i mod (length idx - i)) idx)
  end.

Definition random_splits (rng : nat -> nat) (n count : nat) : list nat :=
  if (n <=? 1)%nat || (count =? 0)%nat then [] else
  let take_ := Nat.min count (n - 1) in
  merge_sort (≤)%nat (take take_ (shuffle rng 0 take_ (seq 1 (n - 1)))).

(** [Vec::dedup] *)
Fixpoint dedup (l : list nat) : list nat :=
  match l with
  | x :: ((y :: _) as l') => if (x =? y)%nat then dedup l' else x :: dedup l'
  | _ => l
  end.

(** ** The server name in a ClientHello *)

(** [data.get(i..i + n)?] *)
Definition get_range (data : bytes) (i n : nat) : res bytes unit :=
  if (i + n <=? length data)%nat then Ok (take n (drop i data)) else Err tt.

(** [*data.get(i)? as usize] *)
Definition get_byte (data : bytes) (i : nat) : res nat unit :=
  match data !! i with Some b => Ok (Z.to_nat b) | None => Err tt end.

(** [u16::from_be_bytes] of the two bytes at [i], both by [get]. *)
Definition get_u16 (data : bytes) (i : nat) : res nat unit :=
  let? b := get_range data i 2 in Ok (Z.to_nat (be_val b)).

Fixpoint name_loop (fuel : nat) (data : bytes) (i list_end : nat) : res (nat * nat) unit :=
  match fuel with
  | O => Err tt
  | S fuel =>
    if (i + 3 <=? list_end)%nat then
      match data !! i with
      | None => Panic
      | Some name_type =>
        let i := (i + 1)%nat in
        let? nl := get_u16 data i in
        let i := (i + 2)%nat in
        let name_end := (i + nl)%nat in
        if (list_end <? name_end)%nat then Err tt
        else if name_type =? 0 then Ok (i, name_end)
        else name_loop fuel data name_end list_end
      end
    else Err tt
  end.

Definition sni_host_range_in_extension (data : bytes) (start end_ : nat) : res (nat * nat) unit :=
  let? list_len := get_u16 data start in
  let i := (start + 2)%nat in
  let list_end := (i + list_len)%nat in
  if (end_ <? list_end)%nat then Err tt else name_loop (S (length data)) data i list_end.

Fixpoint ext_loop (fuel : nat) (data : bytes) (i ext_end : nat) : res (nat * nat) unit :=
  match fuel with
  | O => Err tt
  | S fuel =>
    if (i + 4 <=? ext_end)%nat then
      let? typ := get_u16 data i in
      let? l := get_u16 data (i + 2) in
      let i := (i + 4)%nat in
      let ext_body_end := (i + l)%nat in
      if (ext_end <? ext_body_end)%nat then Err tt
      else if (typ =? 0)%nat then sni_host_range_in_extension data i ext_body_end
      else ext_loop fuel data ext_body_end ext_end
    else Err tt
  end.

(** [Err tt] is Rust's [None]. *)
Definition tls_sni_host_range (data : bytes) : res (nat * nat) unit :=
  let? b0 := get_byte data 0 in
  if negb (b0 =? 22)%nat then Err tt else
  let? typ := get_byte data 5 in
  if negb (typ =? 1)%nat then Err tt else
  let i := (5 + 4 + 34)%nat in
  let? session_len := get_byte data i in
  let i := (i + (1 + session_len))%nat in
  let? cipher_len := get_u16 data i in
  let i := (i + (2 + cipher_len))%nat in
  let? comp_len := get_byte data i in
  let i := (i + (1 + comp_len))%nat in
  let? ext_len := get_u16 data i in
  let i := (i + 2)%nat in
  let ext_end := (i + ext_len)%nat in
  if (length data <? ext_end)%nat then Err tt else ext_loop (S (length data)) data i ext_end.

Definition sni_splits (data : bytes) : res (list nat) unit :=
  let? r := tls_sni_host_range data in
  let '(host_start, host_end) := r in
  let n := length data in
  let out := filter (fun p => 0 < p < n)%nat
    [1; 5; host_start - 8; host_start - 1; host_start + 1; host_start + 7; host_end]%nat in
  let out := dedup (merge_sort (≤)%nat out) in
  match out with [] => Err tt | _ => Ok out end.

(** [sni_splits(data).unwrap_or_default()]; a panic stays one. *)
Definition sni_splits_or_default (data : bytes) : res (list nat) unit :=
  match sni_splits data with Err _ => Ok [] | r => r end.

Definition compute_splits (rng : nat -> nat) (p : Profile) (data : bytes) : res (list nat) unit :=
  let n := length data in
  if (n <? 2)%nat || bool_decide (p_strategy p = Passthrough) then Ok [] else
  let? raw := match p_strategy p with
    | Passthrough => Panic
    | Equal => Ok (equal_splits n (p_num_chunks p))
    | Sni => sni_splits_or_default data
    | SniPrefixed => let? s := sni_splits_or_default data in Ok (1 :: 5 :: s)%nat
    end in
  let sorted := dedup (merge_sort (≤)%nat (filter (fun s => 0 < s < n)%nat raw)) in
  if bool_decide (sorted = []) && negb (bool_decide (p_strategy p = Equal))
  then Ok (random_splits rng n (p_num_chunks p - 1))
  else Ok sorted.

(** ** The writer: the segments in the order they are written and flushed. *)
Fixpoint write_cuts (data : bytes) (prev : nat) (splits : list nat) : res (list bytes) unit :=
  match splits with
  | [] => if (prev <=? length data)%nat then Ok [drop prev data] else Panic
  | s :: splits =>
    if (prev <=? s)%nat && (s <=? length data)%nat then
      let? rest := write_cuts data s splits in Ok (take (s - prev) (drop prev data) :: rest)
    else Panic
  end.

Definition fragmented_write (rng : nat -> nat) (p : Profile) (data : bytes) : res (list bytes) unit :=
  let? splits := compute_splits rng p data in
  match splits with [] => Ok [data] | _ => write_cuts data 0 splits end.

(** ** The remembered candidate *)
Record Candidate := mkCandidate { cand_front : str; cand_profile : str }.
#[export] Instance Candidate_eq_dec : EqDecision Candidate.
Proof. solve_decision. Defined.

(** [c_file] is the content of the candidate file, when there is a data directory. *)
Record CandidateCache := mkCache { c_persist : bool; c_file : option str; c_current : option Candidate }.

Definition reload_from_disk (c : CandidateCache) : CandidateCache :=
  if negb (c_persist c) then c else
  match c_file c with
  | None => c
  | Some s =>
    let '(a, b) := match split_once [10] (trim s) with Some ab => ab | None => (trim s, []) end in
    let front := trim a in
    if bool_decide (front = []) then c else
    match profile_by_id (trim b) with
    | None => c
    | Some p => mkCache (c_persist c) (c_file c) (Some (mkCandidate front (p_id p)))
    end
  end.

Definition CandidateCache_new (persist : bool) (file : option str) : CandidateCache :=
  reload_from_disk (mkCache persist file None).

(** The write is best effort: [write_ok] is whether it happened. *)
Definition remember (write_ok : bool) (front profile_id : str) (c : CandidateCache) : CandidateCache :=
  if bool_decide (c_current c = Some (mkCandidate front profile_id)) then c
  else mkCache (c_persist c)
         (if c_persist c && write_ok then Some (front ++ [10] ++ profile_id) else c_file c)
         (Some (mkCandidate front profile_id)).

(** ** The runtime context and its circuit breaker *)
Definition CIRCUIT_BREAKER_THRESHOLD : Z := 2.
Definition CIRCUIT_BREAKER_COOLDOWN : Z := 60 * 1000000.

Record DirectModeCtx := mkDirect {
  d_enabled : bool; d_fronts : list str; d_google : list str; d_sanctioned : list str;
  d_cache : CandidateCache; d_failures : Z; d_breaker_until : Z }.

Definition set_breaker (failures until : Z) (d : DirectModeCtx) : DirectModeCtx :=
  mkDirect (d_enabled d) (d_fronts d) (d_google d) (d_sanctioned d) (d_cache d) failures until.

Definition normalize_front (f : str) : str := trim_end_matches 46 (trim_start_matches 46 (trim f)).

Definition from_parts (enabled : bool) (fronts google sanctioned : list str) (cache : CandidateCache) : DirectModeCtx :=
  mkDirect enabled
    (filter (fun f => f <> []) (normalize_front <$> fronts))
    (filter (fun d => d <> []) (normalize_domain_entry <$> google))
    (filter (fun d => d <> []) (normalize_domain_entry <$> sanctioned))
    cache 0 0.

(** [now] is the time since [breaker_base]. *)
Definition breaker_tripped (now : Z) (d : DirectModeCtx) : bool :=
  if d_breaker_until d <=? 0 then false else now <? d_breaker_until d.

Definition note_success (d : DirectModeCtx) : DirectModeCtx := set_breaker 0 0 d.

(** [fetch_add(1) + 1] on a [u32]. *)
Definition note_failure (now : Z) (d : DirectModeCtx) : DirectModeCtx :=
  let n := wrap 32 (d_failures d + 1) in
  if CIRCUIT_BREAKER_THRESHOLD <=? n then set_breaker n (now + CIRCUIT_BREAKER_COOLDOWN) d
  else set_breaker n (d_breaker_until d) d.

Definition is_direct (now : Z) (d : DirectModeCtx) (host : str) : bool :=
  if negb (d_enabled d) then false
  else if breaker_tripped now d then false
  else is_google_domain host (d_google d) (d_sanctioned d).

Definition is_sanctioned (d : DirectModeCtx) (host : str) : bool :=
  let h := normalize_domain_entry (strip_port host) in
  if bool_decide (h = []) then false else domain_list_matches h (d_sanctioned d).

Record DirectModeConfig := mkDirectConfig {
  dc_enabled : bool; dc_fronts : list str; dc_google : list str; dc_sanctioned : list str }.

Definition or_default (l dflt : list str) : list str := if bool_decide (l = []) then dflt else l.

(** [build_direct_mode_ctx] of src/proxy_server.rs *)
Definition build_direct_mode_ctx (cfg : DirectModeConfig) (cache : CandidateCache) : option DirectModeCtx :=
  if negb (dc_enabled cfg) then None else
  let fronts := or_default (dc_fronts cfg) DEFAULT_FRONTS in
  if bool_decide (fronts = []) then None
  else Some (from_parts true fronts (or_default (dc_google cfg) DEFAULT_GOOGLE_DOMAINS)
               (or_default (dc_sanctioned cfg) DEFAULT_SANCTIONED_DOMAINS) cache).

(** ** Dialling *)
Record DialWinner := mkWinner { w_front : str; w_profile : Profile; w_server_bytes : bytes }.

(** [trim_start_matches('[').trim_end_matches(']')] *)
Definition strip_brackets (s : str) : str := trim_end_matches 93 (trim_start_matches 91 s).

Section dialling.
(** [reply target segments]: the bytes of the first read after the segments have been
    written to a connection to [target], [None] when the connection, a write or the read
    failed or took too long. *)
Context (reply : str -> list bytes -> option bytes) (rng : nat -> nat).

Definition dial_one (front : str) (profile : Profile) (hello : bytes) : res (option DialWinner) unit :=
  let? segments := fragmented_write rng profile hello in
  match reply (strip_brackets front) segments with
  | Some ((b :: _) as server_bytes) =>
    Ok (if b =? 22 then Some (mkWinner front profile server_bytes) else None)
  | _ => Ok None
  end.

(** [join_next] until a task has won: [order] lists the tasks in the order they end
    within the race's time. *)
Fixpoint race (tasks : list (str * Profile)) (hello : bytes) (order : list nat) : res (option DialWinner) unit :=
  match order with
  | [] => Ok None
  | k :: order =>
    match tasks !! k with
    | None => race tasks hello order
    | Some (f, p) =>
      let? w := dial_one f p hello in
      match w with Some w => Ok (Some w) | None => race tasks hello order end
    end
  end.

(** The pair the fast path tries. *)
Definition fast_pair (d : DirectModeCtx) : option (str * Profile) :=
  match c_current (d_cache d) with
  | Some c =>
    if existsb (fun f => bool_decide (f = cand_front c)) (d_fronts d)
    then Some (cand_front c, default default_profile (profile_by_id (cand_profile c)))
    else (., default_profile) <$> head (d_fronts d)
  | None => (., default_profile) <$> head (d_fronts d)
  end.

Definition race_tasks (d : DirectModeCtx) (ff : str) (fp : Profile) : list (str * Profile) :=
  filter (fun t => ~ (t.1 = ff /\ p_id t.2 = p_id fp)) (d_fronts d ≫= fun f => (f,.) <$> PROFILES).

(** [fast_in_time]: whether the fast path's own deadline left it its reply. *)
Definition dial_with_validation (d : DirectModeCtx) (fast_in_time : bool) (order : list nat) (hello : bytes)
    : res (option DialWinner) unit :=
  match fast_pair d with
  | None => Ok None
  | Some (ff, fp) =>
    let? w := dial_one ff fp hello in
    match (if fast_in_time then w else None) with
    | Some w => Ok (Some w)
    | None => race (race_tasks d ff fp) hello order
    end
  end.
End dialling.

(** [read_first_tls_record], under its own deadline ([RdTimeout] of the stream). *)
Fixpoint read_first_tls_record (fuel : nat) (buf : bytes) (st : Stream) : option (res (bytes * Stream) unit) :=
  match fuel with
  | O => None
  | S fuel =>
    match read (Z.to_nat 4096) st with
    | (Got [], _) => Some (Err tt)
    | (Got b, st) =>
      let buf := buf ++ b in
      match buf with
      | b0 :: _ :: _ :: l1 :: l2 :: _ =>
        if negb (b0 =? 22) then Some (Err tt)
        else if 5 + (l1 * 256 + l2) <=? len buf then Some (Ok (buf, st))
        else if 32 * 1024 <? len buf then Some (Err tt)
        else read_first_tls_record fuel buf st
      | _ => read_first_tls_record fuel buf st
      end
    | _ => Some (Err tt)
    end
  end.

(** [peek] of one byte within 300 ms: the first byte the client has sent, if any. *)
Definition peek_byte (st : Stream) : option Z :=
  match st with RdBytes (b :: _) :: _ => Some b | _ => None end.

(** What a tunnel leaves: [Done] with the winner, if any, whose bytes are written back to
    the client before the two sides are copied; [Skip] with the socket as it was;
    [SkipPrefaced] with the bytes read and what the socket still holds. *)
Inductive TunnelOutcome :=
| Done (winner : option DialWinner)
| Skip (st : Stream)
| SkipPrefaced (preface : bytes) (st : Stream).

Definition try_tunnel (reply : str -> list bytes -> option bytes) (rng : nat -> nat)
    (now later : Z) (fast_in_time : bool) (order : list nat) (write_ok : bool) (st : Stream) (d : DirectModeCtx)
    : option (res (TunnelOutcome * DirectModeCtx) unit) :=
  if breaker_tripped now d then Some (Ok (Skip st, d)) else
  if negb (bool_decide (peek_byte st = Some 22)) then Some (Ok (Skip st, d)) else
  match read_first_tls_record (S (stream_size st)) [] st with
  | None => None
  | Some (Ok (hello, st)) =>
    Some (let? w := dial_with_validation reply rng d fast_in_time order hello in
          match w with
          | None => Ok (SkipPrefaced hello st, note_failure later d)
          | Some w =>
            let d := note_success d in
            Ok (Done (Some w),
                mkDirect (d_enabled d) (d_fronts d) (d_google d) (d_sanctioned d)
                  (remember write_ok (w_front w) (p_id (w_profile w)) (d_cache d)) (d_failures d) (d_breaker_until d))
          end)
  | Some _ => Some (Ok (Done None, d))
  end.

(** Reading a [PrefacedTcpStream]: the preface first. *)
Definition prefaced_read (want : nat) (preface : bytes) (st : Stream) : ReadRes * (bytes * Stream) :=
  match preface with
  | [] => let '(r, st) := read want st in (r, ([], st))
  | _ => (Got (take want preface), (drop want preface, st))
  end.

(** ** LocalBypass: the per-host breaker and the strikes of each profile *)
Definition LOCAL_BYPASS_BREAKER_THRESHOLD : Z := 3.
Definition LOCAL_BYPASS_BREAKER_COOLDOWN : Z := 30 * 1000000.
Definition LOCAL_BYPASS_BREAKER_MAX_ENTRIES : nat := 256.
Definition LOCAL_BYPASS_PROFILE_STRIKE_THRESHOLD : Z := 3.
Definition LOCAL_BYPASS_PROFILE_FLOOR : nat := 2.

Record BypassEntry := mkBypass { b_failures : Z; b_until : option Z; b_fails : gmap str Z }.
Definition BypassEntry_new : BypassEntry := mkBypass 0 None ∅.
#[export] Instance BypassEntry_eq_dec : EqDecision BypassEntry.
Proof. solve_decision. Defined.

Definition saturating_inc_u32 (n : Z) : Z := Z.min (n + 1) (2 ^ 32 - 1).

Definition breaker_key (host : str) : str := to_ascii_lowercase (strip_port host).

(** The breaker map and the index of the last winner, the process-wide state. *)
Record Bypass := mkBypassState { by_map : gmap str BypassEntry; by_last_winner : option nat }.

Definition local_bypass_breaker_tripped (now : Z) (map_ : gmap str BypassEntry) (host : str) : bool :=
  match map_ !! breaker_key host with
  | Some e => match b_until e with Some until => now <? until | None => false end
  | None => false
  end.

(** [Ord] on [Option<Instant>]: [None] first. *)
Definition until_le (a b : option Z) : bool :=
  match a, b with None, _ => true | Some _, None => false | Some x, Some y => x <=? y end.

(** [iter().min_by_key(|(_, e)| e.until)], in some order of the map. *)
Definition soonest (map_ : gmap str BypassEntry) : option str :=
  fst <$> foldr (fun kv acc =>
    match acc with
    | Some kv' => if until_le (b_until (snd kv)) (b_until (snd kv')) then Some kv else acc
    | None => Some kv
    end) None (map_to_list map_).

(** [e.until.is_some_and(|t| now < t)] *)
Definition cooling (now : Z) (e : BypassEntry) : bool := match b_until e with Some t => now <? t | None => false end.

Definition evict_if_at_cap (now : Z) (map_ : gmap str BypassEntry) (incoming : str) : gmap str BypassEntry :=
  if (size map_ <? LOCAL_BYPASS_BREAKER_MAX_ENTRIES)%nat || bool_decide (is_Some (map_ !! incoming)) then map_ else
  let map_ := filter (fun kv => cooling now (snd kv) = true) map_ in
  if (LOCAL_BYPASS_BREAKER_MAX_ENTRIES <=? size map_)%nat then
    match soonest map_ with Some k => delete k map_ | None => map_ end
  else map_.

(** A strike for each failed profile but the winner. *)
Definition strike (winner : option str) (fails : gmap str Z) (pid : str) : gmap str Z :=
  if bool_decide (winner = Some pid) then fails
  else <[pid := saturating_inc_u32 (default 0 (fails !! pid))]> fails.

Definition note_entry (now : Z) (failed : list str) (winner : option str) (e : BypassEntry) : BypassEntry :=
  let fails := fold_left (strike winner) failed (b_fails e) in
  match winner with
  | Some pid => mkBypass 0 None (delete pid fails)
  | None =>
    if bool_decide (failed = []) then mkBypass (b_failures e) (b_until e) fails else
    let n := saturating_inc_u32 (b_failures e) in
    mkBypass n (if LOCAL_BYPASS_BREAKER_THRESHOLD <=? n then Some (now + LOCAL_BYPASS_BREAKER_COOLDOWN) else b_until e) fails
  end.

(** [evict_now], [now]: the clock is read once by the eviction and once when the breaker
    trips. *)
Definition local_bypass_note_dial_outcome (evict_now now : Z) (map_ : gmap str BypassEntry) (host : str)
    (failed : list str) (winner : option str) : gmap str BypassEntry :=
  if bool_decide (failed = []) && bool_decide (winner = None) then map_ else
  let key := breaker_key host in
  let map_ := evict_if_at_cap evict_now map_ key in
  let e := note_entry now failed winner (default BypassEntry_new (map_ !! key)) in
  if (b_failures e =? 0) && bool_decide (b_until e = None) && bool_decide (b_fails e = ∅)
  then delete key map_ else <[key := e]> map_.

Definition is_fragmenting_profile (p : Profile) : bool := negb (bool_decide (p_strategy p = Passthrough)).

Definition available_profile_ids (fails : gmap str Z) (threshold : Z) (floor : nat) : list str :=
  let pool := p_id <$> filter (fun p => is_fragmenting_profile p = true) PROFILES in
  let filtered := filter (fun id => default 0 (fails !! id) < threshold) pool in
  if (length filtered <? floor)%nat then pool else filtered.

Definition local_bypass_available_profile_ids (map_ : gmap str BypassEntry) (host : str) : list str :=
  available_profile_ids (default ∅ (b_fails <$> map_ !! breaker_key host))
    LOCAL_BYPASS_PROFILE_STRIKE_THRESHOLD LOCAL_BYPASS_PROFILE_FLOOR.

Definition local_bypass_preferred_profile (last : option nat) : Profile :=
  match last ≫= fun i => PROFILES !! i with
  | Some p => if is_fragmenting_profile p then p else default_profile
  | None => default_profile
  end.

Fixpoint position (id : str) (ps : list Profile) (i : nat) : option nat :=
  match ps with
  | [] => None
  | p :: ps => if bool_decide (p_id p = id) then Some i else position id ps (S i)
  end.

Definition local_bypass_remember (p : Profile) (last : option nat) : option nat :=
  if negb (is_fragmenting_profile p) then last
  else match position (p_id p) PROFILES 0 with Some i => Some i | None => last end.

(** The profile of the fast path: the preferred one, the default one or the first one,
    among those still in rotation for the host. *)
Definition fast_profile (last : option nat) (allowed : list str) : Profile :=
  let global := local_bypass_preferred_profile last in
  if bool_decide (p_id global ∈ allowed) then global
  else if bool_decide (p_id default_profile ∈ allowed) then default_profile
  else default default_profile (List.find (fun p => bool_decide (p_id p ∈ allowed)) PROFILES).

Definition race_profiles (preferred : Profile) (allowed : list str) : list Profile :=
  filter (fun p => p_id p <> p_id preferred /\ is_fragmenting_profile p = true /\ p_id p ∈ allowed) PROFILES.

(** What the client's socket ends up connected to: a winner of the fragmented dials, or the
    raw replay of the bytes read to an address. *)
Inductive BypassOutcome :=
| BSkip (st : Stream)
| BClosed
| BSpliced (w : DialWinner) (st : Stream)
| BRaw (target : str) (hello : bytes) (st : Stream).

Definition raw_fallback_target (host : str) (dial_target : option str) : str :=
  strip_brackets (default host dial_target).

Section bypass.
Context (reply : str -> list bytes -> option bytes) (rng : nat -> nat).

Definition try_local_bypass_tunnel (now later : Z) (fast_in_time : bool) (order : list nat)
    (st : Stream) (host : str) (dial_target : option str) (s : Bypass)
    : option (res (BypassOutcome * Bypass) unit) :=
  if negb (bool_decide (peek_byte st = Some 22)) then Some (Ok (BSkip st, s)) else
  match read_first_tls_record (S (stream_size st)) [] st with
  | None => None
  | Some (Ok (hello, st)) =>
    if local_bypass_breaker_tripped now (by_map s) host
    then Some (Ok (BRaw (raw_fallback_target host dial_target) hello st, s)) else
    let target := default host dial_target in
    let allowed := local_bypass_available_profile_ids (by_map s) host in
    let preferred := fast_profile (by_last_winner s) allowed in
    Some (
      let? w := dial_one reply rng target preferred hello in
      match (if fast_in_time then w else None) with
      | Some w =>
        Ok (BSpliced w st,
            mkBypassState (local_bypass_note_dial_outcome later later (by_map s) host [] (Some (p_id (w_profile w))))
              (local_bypass_remember (w_profile w) (by_last_winner s)))
      | None =>
        let racers := race_profiles preferred allowed in
        let? r := race reply rng ((target,.) <$> racers) hello order in
        match r with
        | None =>
          Ok (BRaw (raw_fallback_target host dial_target) hello st,
              mkBypassState (local_bypass_note_dial_outcome later later (by_map s) host
                               (p_id preferred :: (p_id <$> racers)) None) (by_last_winner s))
        | Some w =>
          let id := p_id (w_profile w) in
          let failed := if bool_decide (p_id preferred = id) then [] else [p_id preferred] in
          Ok (BSpliced w st,
              mkBypassState (local_bypass_note_dial_outcome later later (by_map s) host failed (Some id))
                (local_bypass_remember (w_profile w) (by_last_winner s)))
        end
      end)
  | Some _ => Some (Ok (BClosed, s))
  end.
End bypass.
