(* ===== verification/Fragments.v ===== *)
(** * src/direct_mode.rs: the fragments of a ClientHello, proved

    Whatever the profile, the generator and the bytes, the writer never slices out of
    range and its segments, none empty, are the ClientHello; a profile that fragments
    writes at least two; the search for the server name never panics and finds it in a
    well-formed ClientHello; and the SNI profiles cut inside it. *)

From stdpp Require Import prelude gmap sorting.
From S2P Require Import Prelude RustStr HttpText HostMatch DirectMode.
#[local] Open Scope nat_scope.

(** ** Sorted cut points *)
Lemma dedup_elem l x : x ∈ dedup l <-> x ∈ l.
Proof.
  induction l as [|a l IH]; [done|]. destruct l as [|b l]; [done|].
  change (dedup (a :: b :: l)) with (if a =? b then dedup (b :: l) else a :: dedup (b :: l)).
  destruct (Nat.eqb_spec a b) as [->|]; [rewrite IH; set_solver|]. rewrite !elem_of_cons, IH. set_solver.
Qed.

Lemma dedup_sorted l : StronglySorted le l -> StronglySorted lt (dedup l).
Proof.
  induction 1 as [|a l Hl IH Ha]; [constructor|]. destruct l as [|b l]; [repeat constructor|].
  change (dedup (a :: b :: l)) with (if a =? b then dedup (b :: l) else a :: dedup (b :: l)).
  destruct (Nat.eqb_spec a b); [done|]. constructor; [done|]. apply Forall_forall. intros x Hx.
  rewrite dedup_elem in Hx. rewrite Forall_forall in Ha. apply Ha in Hx as Hax.
  apply StronglySorted_inv in Hl as [_ Hb]. apply elem_of_cons in Hx as [->|Hx]; [lia|].
  rewrite Forall_forall in Hb. specialize (Hb x Hx). specialize (Ha b ltac:(left)). lia.
Qed.

Lemma merge_sorted l : StronglySorted le (merge_sort le l).
Proof. apply (StronglySorted_merge_sort _). Qed.

Lemma merge_sort_elem l (x : nat) : x ∈ merge_sort le l <-> x ∈ l.
Proof. by rewrite (merge_sort_Permutation le l). Qed.

Lemma sorted_nodup_lt l : NoDup l -> StronglySorted le l -> StronglySorted lt l.
Proof.
  intros Hn Hs. induction Hs as [|a l Hl IH Ha]; [constructor|]. apply NoDup_cons in Hn as [Hna Hn].
  constructor; [by apply IH|]. apply Forall_forall. intros x Hx. rewrite Forall_forall in Ha. specialize (Ha x Hx).
  destruct (decide (a = x)) as [->|]; [done|lia].
Qed.

(** Strictly increasing positions inside [0, n). *)
Definition cuts (n : nat) (l : list nat) : Prop := StronglySorted lt l /\ Forall (fun s => 0 < s < n) l.

Lemma cuts_normal n l : cuts n (dedup (merge_sort le (filter (fun s => 0 < s < n) l))).
Proof.
  split; [apply dedup_sorted, merge_sorted|]. apply Forall_forall. intros x Hx.
  rewrite dedup_elem, merge_sort_elem, list_elem_of_filter in Hx. tauto.
Qed.

Lemma normal_elem n l x : x ∈ dedup (merge_sort le (filter (fun s => 0 < s < n) l)) <-> 0 < x < n /\ x ∈ l.
Proof. by rewrite dedup_elem, merge_sort_elem, list_elem_of_filter. Qed.

(** ** Random cut points *)
Lemma swap_perm i j l : swap i j l ≡ₚ l.
Proof.
  unfold swap. destruct (l !! i) as [a|] eqn:Ei; [|done]. destruct (l !! j) as [b|] eqn:Ej; [|done].
  destruct (decide (i = j)) as [->|Hij].
  { rewrite list_insert_insert_eq. rewrite list_insert_id; [done|congruence]. }
  apply Permutation_inj. split; [by rewrite !length_insert|].
  exists (fun k => if decide (k = i) then j else if decide (k = j) then i else k). split.
  - intros x y. repeat case_decide; congruence.
  - intros k. destruct (decide (k = i)) as [->|Hi].
    + rewrite list_lookup_insert_eq; [done|]. rewrite length_insert. by eapply lookup_lt_Some.
    + rewrite list_lookup_insert_ne by done. destruct (decide (k = j)) as [->|Hj].
      * rewrite list_lookup_insert_eq; [done|]. by eapply lookup_lt_Some.
      * by rewrite list_lookup_insert_ne.
Qed.

Lemma shuffle_perm rng i k l : shuffle rng i k l ≡ₚ l.
Proof. revert i l. induction k as [|k IH]; intros i l; [done|]. cbn. by rewrite IH, swap_perm. Qed.

Lemma random_cuts rng n count : cuts n (random_splits rng n count) /\
  (2 <= n -> 0 < count -> random_splits rng n count <> []).
Proof.
  unfold random_splits. destruct (Nat.leb_spec n 1); cbn [orb]; [split; [repeat constructor|lia]|].
  destruct (Nat.eqb_spec count 0) as [->|Hc]; [split; [repeat constructor|lia]|].
  set (k := Nat.min count (n - 1)). pose proof (shuffle_perm rng 0 k (seq 1 (n - 1))) as Hp.
  set (l := shuffle _ _ _ _) in *. clearbody l.
  assert (NoDup l) as Hnd by (rewrite Hp; apply NoDup_ListNoDup, seq_NoDup).
  assert (NoDup (take k l)) as Hnt by (rewrite <- (take_drop k l) in Hnd; by apply NoDup_app in Hnd as (? & _)).
  split; [split|].
  - apply sorted_nodup_lt; [by rewrite merge_sort_Permutation|apply merge_sorted].
  - apply Forall_forall. intros x Hx. rewrite merge_sort_elem in Hx. apply elem_of_take in Hx as (i & Hi & _).
    apply list_elem_of_lookup_2 in Hi. rewrite Hp in Hi. apply elem_of_seq in Hi. lia.
  - intros _ _ E. apply (f_equal length) in E. rewrite merge_sort_Permutation, length_take, Hp, length_seq in E. cbn in E. lia.
Qed.

(** ** Even cut points *)
Lemma equal_from_range n k i count prev x : x ∈ equal_from n k i count prev -> 0 < x /\ x <> n /\ exists j, j < i + count /\ x = n * j / k.
Proof.
  revert i prev. induction count as [|count IH]; intros i prev; cbn [equal_from]; [set_solver|].
  destruct (_ || _) eqn:E; [intros (? & ? & j & ? & ?)%IH; repeat split; [done|done|exists j; lia]|].
  intros [->|(? & ? & j & ? & ?)%IH]%elem_of_cons.
  - apply orb_false_iff in E as [[?%Nat.eqb_neq ?%Nat.eqb_neq]%orb_false_iff _]. repeat split; [lia|done|exists i; lia].
  - repeat split; [done|done|exists j; lia].
Qed.

Lemma equal_splits_range n k x : x ∈ equal_splits n k -> 0 < x < n.
Proof.
  unfold equal_splits. destruct (Nat.leb_spec k 1); cbn [orb]; [set_solver|]. destruct (Nat.eqb_spec n 0); [set_solver|].
  intros (? & ? & j & Hj & ->)%equal_from_range. split; [done|]. apply Nat.Div0.div_lt_upper_bound. nia.
Qed.

Lemma equal_from_has n k i count prev j : i <= j < i + count -> 0 < n * j / k -> n * j / k <> n ->
  n * j / k <> prev -> n * j / k ∈ equal_from n k i count prev.
Proof.
  revert i prev. induction count as [|count IH]; intros i prev Hj H0 Hn Hp; [lia|]. cbn [equal_from].
  destruct (decide (i = j)) as [->|Hij].
  - destruct (Nat.eqb_spec (n * j / k) 0); [lia|]. destruct (Nat.eqb_spec (n * j / k) n); [done|].
    destruct (Nat.eqb_spec (n * j / k) prev); [done|]. left.
  - destruct (_ || _); [apply IH; [lia|done..]|]. destruct (decide (n * j / k = n * i / k)) as [->|]; [left|].
    right. apply IH; [lia|done..].
Qed.

Lemma equal_splits_nonempty n k : 2 <= n -> 2 <= k -> equal_splits n k <> [].
Proof.
  intros Hn Hk E. assert (0 < n * (k - 1) / k) as H0 by (apply Nat.div_str_pos; nia).
  assert (n * (k - 1) / k < n) as H1 by (apply Nat.Div0.div_lt_upper_bound; nia).
  assert (n * (k - 1) / k ∈ equal_splits n k) as Hin; [|rewrite E in Hin; set_solver].
  unfold equal_splits. destruct (Nat.leb_spec k 1); [lia|]. destruct (Nat.eqb_spec n 0); [lia|]. cbn [orb].
  apply equal_from_has; lia.
Qed.

(** ** The search for the server name *)
Lemma get_range_Ok data i n b : get_range data i n = Ok b -> i + n <= length data.
Proof. unfold get_range. destruct (Nat.leb_spec (i + n) (length data)); [done|discriminate]. Qed.

Lemma get_u16_no_panic data i : get_u16 data i <> Panic.
Proof. unfold get_u16, get_range. by destruct (_ <=? _). Qed.

Lemma get_byte_no_panic data i : get_byte data i <> Panic.
Proof. unfold get_byte. by destruct (data !! i). Qed.

(** Take the next value of a chain of [let?]; the error cases close. *)
Ltac next_value E :=
  match goal with
  | |- context [res_bind (get_u16 ?d ?i) _] =>
    destruct (get_u16 d i) as [?x|[]|] eqn:E; cbn [res_bind]; [|try done|by apply get_u16_no_panic in E]
  | |- context [res_bind (get_byte ?d ?i) _] =>
    destruct (get_byte d i) as [?x|[]|] eqn:E; cbn [res_bind]; [|try done|by apply get_byte_no_panic in E]
  end.

Definition in_range (data : bytes) (r : res (nat * nat) unit) : Prop :=
  match r with Ok (a, b) => 0 < a <= b /\ b <= length data | Err _ => True | Panic => False end.

Lemma name_loop_range fuel data i list_end : list_end <= length data -> in_range data (name_loop fuel data i list_end).
Proof.
  intros Hl. revert i. induction fuel as [|fuel IH]; intros i; cbn [name_loop]; [done|].
  destruct (Nat.leb_spec (i + 3) list_end); [|done].
  destruct (data !! i) as [t|] eqn:Et; [|apply lookup_ge_None in Et; lia].
  next_value E. destruct (Nat.ltb_spec list_end (i + 1 + 2 + x)); [done|].
  destruct (Z.eqb_spec t 0); [cbn; lia|apply IH].
Qed.

Lemma sni_range data start end_ : end_ <= length data -> in_range data (sni_host_range_in_extension data start end_).
Proof.
  intros He. unfold sni_host_range_in_extension. next_value E. destruct (Nat.ltb_spec end_ (start + 2 + x)); [done|].
  apply name_loop_range. lia.
Qed.

Lemma ext_loop_range fuel data i ext_end : ext_end <= length data -> in_range data (ext_loop fuel data i ext_end).
Proof.
  intros Hl. revert i. induction fuel as [|fuel IH]; intros i; cbn [ext_loop]; [done|].
  destruct (Nat.leb_spec (i + 4) ext_end); [|done]. next_value E1. next_value E2.
  destruct (Nat.ltb_spec ext_end (i + 4 + x0)); [done|]. destruct (x =? 0); [apply sni_range; lia|apply IH].
Qed.

Lemma sni_host_range_in_range data : in_range data (tls_sni_host_range data).
Proof.
  unfold tls_sni_host_range. next_value E0. destruct (negb _); [done|]. next_value E1. destruct (negb _); [done|].
  next_value E2. next_value E3. next_value E4. next_value E5.
  match goal with |- context [length data <? ?e] => destruct (Nat.ltb_spec (length data) e); [done|] end.
  by apply ext_loop_range.
Qed.

(** The loops' fuel: a position moves by at least three bytes a turn. *)
Lemma name_loop_fuel f g data i list_end : list_end < i + f -> list_end < i + g ->
  name_loop f data i list_end = name_loop g data i list_end.
Proof.
  revert g i. induction f as [|f IH]; intros [|g] i Hf Hg; cbn [name_loop]; [done| | |];
    (destruct (Nat.leb_spec (i + 3) list_end); [|done]); [lia|lia|].
  destruct (data !! i) as [t|]; [|done]. destruct (get_u16 data (i + 1)) as [x| |]; cbn [res_bind]; [|done..].
  destruct (Nat.ltb_spec list_end (i + 1 + 2 + x)); [done|]. destruct (t =? 0)%Z; [done|]. apply IH; lia.
Qed.

Lemma ext_loop_fuel f g data i ext_end : ext_end < i + f -> ext_end < i + g ->
  ext_loop f data i ext_end = ext_loop g data i ext_end.
Proof.
  revert g i. induction f as [|f IH]; intros [|g] i Hf Hg; cbn [ext_loop]; [done| | |];
    (destruct (Nat.leb_spec (i + 4) ext_end); [|done]); [lia|lia|].
  destruct (get_u16 data i) as [t| |]; cbn [res_bind]; [|done..].
  destruct (get_u16 data (i + 2)) as [x| |]; cbn [res_bind]; [|done..].
  destruct (Nat.ltb_spec ext_end (i + 4 + x)); [done|]. destruct (t =? 0); [done|]. apply IH; lia.
Qed.

(** ** A ClientHello *)
Definition u16 (n : nat) : bytes := be_bytes 2 (Z.of_nat n).

Definition extension (e : nat * bytes) : bytes := u16 (fst e) ++ u16 (length (snd e)) ++ snd e.

Definition server_name (host : bytes) : bytes := u16 (length host + 3) ++ [0%Z] ++ u16 (length host) ++ host.

(** [head]: the record and handshake headers, version and random, of which only two bytes
    are looked at. *)
Record Hello := mkHello {
  h_record : bytes; h_lengths : bytes; h_version_random : bytes; h_session : bytes; h_ciphers : bytes; h_comp : bytes;
  h_before : list (nat * bytes); h_host : bytes; h_after : list (nat * bytes) }.

Definition extensions (h : Hello) : bytes :=
  (h_before h ≫= extension) ++ extension (0, server_name (h_host h)) ++ (h_after h ≫= extension).

Definition hello_prefix (h : Hello) : bytes :=
  [22%Z] ++ h_record h ++ [1%Z] ++ h_lengths h ++ h_version_random h
  ++ [Z.of_nat (length (h_session h))] ++ h_session h
  ++ u16 (length (h_ciphers h)) ++ h_ciphers h
  ++ [Z.of_nat (length (h_comp h))] ++ h_comp h ++ u16 (length (extensions h)).

Definition client_hello (h : Hello) : bytes := hello_prefix h ++ extensions h.

Definition hello_ok (h : Hello) : Prop :=
  length (h_record h) = 4 /\ length (h_lengths h) = 3 /\ length (h_version_random h) = 34 /\
  (Z.of_nat (length (h_ciphers h)) < 2 ^ 16)%Z /\ (Z.of_nat (length (extensions h)) < 2 ^ 16)%Z /\
  Forall (fun e => 0 < fst e /\ (Z.of_nat (fst e) < 2 ^ 16)%Z) (h_before h).

Lemma length_u16 n : length (u16 n) = 2.
Proof. apply length_be_bytes. Qed.

Lemma get_u16_at data pre n post i : data = pre ++ u16 n ++ post -> i = length pre -> (Z.of_nat n < 2 ^ 16)%Z ->
  get_u16 data i = Ok n.
Proof.
  intros -> -> Hn. unfold get_u16, get_range. destruct (Nat.leb_spec (length pre + 2) (length (pre ++ u16 n ++ post))) as [_|H].
  - rewrite drop_app_length, take_app_length' by (by rewrite length_u16). cbn [res_bind]. unfold u16. rewrite be_val_be_bytes.
    rewrite Z.mod_small; [by rewrite Nat2Z.id|]. rewrite pow256_2. lia.
  - rewrite !length_app, length_u16 in H. lia.
Qed.

Lemma get_byte_at data pre n post i : data = pre ++ Z.of_nat n :: post -> i = length pre -> get_byte data i = Ok n.
Proof. intros -> ->. unfold get_byte. rewrite list_lookup_middle by done. by rewrite Nat2Z.id. Qed.

Lemma length_extension e : length (extension e) = 4 + length (snd e).
Proof. unfold extension. rewrite !length_app, !length_u16. lia. Qed.

Lemma length_server_name host : length (server_name host) = 5 + length host.
Proof. unfold server_name. rewrite !length_app, !length_u16. cbn [length]. lia. Qed.

Ltac lengths := rewrite ?length_app, ?length_extension, ?length_server_name, ?length_u16; cbn [fst snd length]; lia.

Lemma server_name_found data pre host post : data = pre ++ server_name host ++ post ->
  (Z.of_nat (length (server_name host)) < 2 ^ 16)%Z ->
  sni_host_range_in_extension data (length pre) (length pre + length (server_name host))
  = Ok (length pre + 5, length pre + 5 + length host).
Proof.
  intros Hd Hl. rewrite length_server_name in *. unfold sni_host_range_in_extension.
  rewrite (get_u16_at data pre (length host + 3) ([0%Z] ++ u16 (length host) ++ host ++ post));
    [|rewrite Hd; unfold server_name; by rewrite <- !app_assoc|done|lia].
  cbn [res_bind]. destruct (Nat.ltb_spec (length pre + (5 + length host)) (length pre + 2 + (length host + 3))); [lia|].
  cbn [name_loop]. destruct (Nat.leb_spec (length pre + 2 + 3) (length pre + 2 + (length host + 3))); [|lia].
  assert (data = (pre ++ u16 (length host + 3)) ++ 0%Z :: u16 (length host) ++ host ++ post) as Hd2.
  { rewrite Hd. unfold server_name. by rewrite <- !app_assoc. }
  assert (data !! (length pre + 2) = Some 0%Z) as ->.
  { rewrite Hd2. apply list_lookup_middle. lengths. }
  rewrite (get_u16_at data ((pre ++ u16 (length host + 3)) ++ [0%Z]) (length host) (host ++ post));
    [|rewrite Hd2; by rewrite <- !app_assoc|lengths|lia].
  cbn [res_bind]. match goal with |- context [?a <? ?b] => destruct (Nat.ltb_spec a b); [lia|] end.
  cbn [Z.eqb]. f_equal. f_equal; lia.
Qed.

(** The loop over the extensions, from the front of the ones left. *)
Lemma ext_loop_finds data pre before host after fuel :
  data = pre ++ (before ≫= extension) ++ extension (0, server_name host) ++ after ->
  Forall (fun e => 0 < fst e /\ (Z.of_nat (fst e) < 2 ^ 16)%Z) before ->
  (Z.of_nat (length data) < Z.of_nat (length pre) + 2 ^ 16)%Z -> length data < length pre + fuel ->
  ext_loop fuel data (length pre) (length data)
  = Ok (length pre + length (before ≫= extension) + 9, length pre + length (before ≫= extension) + 9 + length host).
Proof.
  revert pre fuel. induction before as [|[t b] before IH]; intros pre fuel Hd Hb Hr Hf.
  - cbn [mbind list_bind app length] in *.
    pose proof (f_equal length Hd) as Hlen. rewrite !length_app, length_extension in Hlen. cbn [snd] in Hlen.
    destruct fuel as [|fuel]; [lia|]. cbn [ext_loop].
    unfold extension in Hd. cbn [fst snd] in Hd. rewrite <- !app_assoc in Hd.
    destruct (Nat.leb_spec (length pre + 4) (length data)); [|lia].
    rewrite (get_u16_at data pre 0 _ _ Hd) by (done || lia). cbn [res_bind].
    rewrite (get_u16_at data (pre ++ u16 0) (length (server_name host)) (server_name host ++ after));
      [|rewrite Hd; by rewrite <- !app_assoc|lengths|lia].
    cbn [res_bind Nat.eqb]. destruct (Nat.ltb_spec (length data) (length pre + 4 + length (server_name host))); [lia|].
    pose proof (server_name_found data (pre ++ u16 0 ++ u16 (length (server_name host))) host after) as Hs.
    replace (length (pre ++ _ ++ _)) with (length pre + 4) in Hs by lengths.
    rewrite Hs; [f_equal; f_equal; lia|rewrite Hd; by rewrite <- !app_assoc|lia].
  - inversion Hb as [|?? [Ht Ht'] Hb']; subst. clear Hb. cbn [fst] in Ht, Ht'.
    change (((t, b) :: before) ≫= extension) with (extension (t, b) ++ (before ≫= extension)) in *.
    remember (pre ++ (extension (t, b) ++ (before ≫= extension)) ++ extension (0, server_name host) ++ after) as data eqn:Hd.
    pose proof (f_equal length Hd) as Hlen. rewrite !length_app, !length_extension in Hlen. cbn [snd] in Hlen.
    assert (data = (pre ++ extension (t, b)) ++ (before ≫= extension) ++ extension (0, server_name host) ++ after) as Hd2
      by (rewrite Hd; by rewrite <- !app_assoc).
    destruct fuel as [|fuel]; [lia|]. cbn [ext_loop].
    unfold extension at 1 in Hd. cbn [fst snd] in Hd. rewrite <- !app_assoc in Hd.
    destruct (Nat.leb_spec (length pre + 4) (length data)); [|lia].
    rewrite (get_u16_at data pre t _ _ Hd) by (done || lia). cbn [res_bind].
    rewrite (get_u16_at data (pre ++ u16 t) (length b) _ _ ltac:(rewrite Hd, <- app_assoc; reflexivity)) by (lengths || lia).
    cbn [res_bind]. destruct (Nat.ltb_spec (length data) (length pre + 4 + length b)); [lia|].
    destruct (Nat.eqb_spec t 0); [lia|].
    specialize (IH (pre ++ extension (t, b)) fuel Hd2 Hb'). rewrite length_app, length_extension in IH. cbn [snd] in IH.
    replace (length pre + 4 + length b) with (length pre + (4 + length b)) by lia.
    rewrite IH by lia. rewrite length_app, length_extension. cbn [snd]. f_equal. f_equal; lia.
Qed.

Lemma hello_found h : hello_ok h ->
  let start := length (hello_prefix h) + length (h_before h ≫= extension) + 9 in
  tls_sni_host_range (client_hello h) = Ok (start, start + length (h_host h)).
Proof.
  intros (Hr & Hl & Hv & Hc & He & Hb) start. set (data := client_hello h).
  set (tail := u16 (length (extensions h)) ++ extensions h).
  assert (data = [22%Z] ++ h_record h ++ [1%Z] ++ h_lengths h ++ h_version_random h
    ++ Z.of_nat (length (h_session h)) :: h_session h ++ u16 (length (h_ciphers h)) ++ h_ciphers h
    ++ Z.of_nat (length (h_comp h)) :: h_comp h ++ tail) as Hd.
  { subst data tail. unfold client_hello, hello_prefix. rewrite <- !app_assoc. done. }
  assert (length (hello_prefix h) = 49 + length (h_session h) + length (h_ciphers h) + length (h_comp h)) as Hp.
  { unfold hello_prefix. rewrite !length_app, !length_u16, Hr, Hl, Hv. cbn [length]. lia. }
  unfold tls_sni_host_range.
  rewrite (get_byte_at data [] 22 _ _ Hd) by done. cbn [res_bind Nat.eqb negb].
  rewrite (get_byte_at data ([22%Z] ++ h_record h) 1 _ _ ltac:(rewrite Hd, <- app_assoc; reflexivity)) by lengths.
  cbn [res_bind Nat.eqb negb].
  set (p1 := [22%Z] ++ h_record h ++ [1%Z] ++ h_lengths h ++ h_version_random h).
  assert (length p1 = 43) as Hp1 by (subst p1; rewrite !length_app, Hr, Hl, Hv; done).
  rewrite (get_byte_at data p1 (length (h_session h)) _ _ ltac:(rewrite Hd; subst p1; rewrite <- !app_assoc; reflexivity)) by lia.
  cbn [res_bind].
  set (p2 := p1 ++ Z.of_nat (length (h_session h)) :: h_session h).
  assert (length p2 = 44 + length (h_session h)) as Hp2 by (subst p2; rewrite length_app, Hp1; cbn; lia).
  rewrite (get_u16_at data p2 (length (h_ciphers h)) _ _ ltac:(rewrite Hd; subst p1 p2; rewrite <- !app_assoc; reflexivity)) by lia.
  cbn [res_bind].
  set (p3 := p2 ++ u16 (length (h_ciphers h)) ++ h_ciphers h).
  assert (length p3 = 46 + length (h_session h) + length (h_ciphers h)) as Hp3
    by (subst p3; rewrite !length_app, Hp2, length_u16; lia).
  rewrite (get_byte_at data p3 (length (h_comp h)) _ _ ltac:(rewrite Hd; subst p1 p2 p3; rewrite <- !app_assoc; reflexivity)) by lia.
  cbn [res_bind].
  rewrite (get_u16_at data (p3 ++ Z.of_nat (length (h_comp h)) :: h_comp h) (length (extensions h)) (extensions h));
    [|rewrite Hd; subst p1 p2 p3 tail; rewrite <- !app_assoc; cbn [app]; rewrite <- ?app_assoc; done
     |rewrite length_app, Hp3; cbn [length]; lia|done].
  cbn [res_bind].
  assert (length data = length (hello_prefix h) + length (extensions h)) as Hlen by apply length_app.
  match goal with |- context [ext_loop _ _ ?i _] => replace i with (length (hello_prefix h)) by lia end. rewrite <- Hlen.
  destruct (Nat.ltb_spec (length data) (length data)); [lia|].
  apply (ext_loop_finds data (hello_prefix h) (h_before h) (h_host h) (h_after h ≫= extension)); [done|done|lia|lia].
Qed.

(** ** Segments *)
Lemma write_cuts_ok data prev l : prev <= length data -> StronglySorted lt l -> Forall (fun s => prev < s < length data) l ->
  exists segs, write_cuts data prev l = Ok segs /\ concat segs = drop prev data /\
    (prev < length data -> Forall (fun s => s <> []) segs) /\ length segs = S (length l) /\
    forall c, c ∈ l -> exists s1 s2, segs = s1 ++ s2 /\ prev + length (concat s1) = c.
Proof.
  intros Hp Hs. revert prev Hp. induction Hs as [|s l Hl IH Hls]; intros prev Hp Hf; cbn [write_cuts].
  - destruct (Nat.leb_spec prev (length data)); [|lia]. exists [drop prev data]. cbn. rewrite app_nil_r.
    split_and!; [done|done| |done|set_solver]. intros Hlt. repeat constructor. intros E. apply (f_equal length) in E.
    rewrite length_drop in E. cbn in E. lia.
  - apply Forall_cons in Hf as [Hs Hf]. destruct (Nat.leb_spec prev s); [|lia].
    destruct (Nat.leb_spec s (length data)); [|lia]. cbn [andb].
    destruct (IH s) as (segs & Hw & Hc & Hne & Hlen & Hcut); [lia| |].
    { apply Forall_forall. intros x Hx. rewrite Forall_forall in Hf, Hls. specialize (Hf x Hx). specialize (Hls x Hx). lia. }
    rewrite Hw. cbn [res_bind]. eexists. split; [done|]. cbn [concat length].
    assert (take (s - prev) (drop prev data) ++ drop s data = drop prev data) as Hjoin.
    { rewrite <- (take_drop (s - prev) (drop prev data)) at 2. rewrite drop_drop. do 2 f_equal. lia. }
    assert (length (take (s - prev) (drop prev data)) = s - prev) as Hlt by (rewrite length_take, length_drop; lia).
    split_and!; [by rewrite Hc| |by rewrite Hlen|].
    + intros _. constructor; [|apply Hne; lia]. intros E. rewrite E in Hlt. cbn in Hlt. lia.
    + intros c [->|Hin]%elem_of_cons.
      * exists [take (s - prev) (drop prev data)], segs. cbn [concat]. rewrite app_nil_r. split; [done|lia].
      * destruct (Hcut c Hin) as (s1 & s2 & -> & Hs1). eexists (_ :: s1), s2. split; [done|].
        cbn [concat]. rewrite length_app. lia.
Qed.

Lemma sni_splits_no_panic data : sni_splits data <> Panic.
Proof.
  unfold sni_splits. pose proof (sni_host_range_in_range data) as Hr.
  destruct (tls_sni_host_range data) as [[a b]| |]; cbn [res_bind]; [|done..]. by case_match.
Qed.

Lemma sni_default_no_panic data : exists l, sni_splits_or_default data = Ok l.
Proof.
  unfold sni_splits_or_default. pose proof (sni_splits_no_panic data). destruct (sni_splits data); eauto; done.
Qed.

Lemma compute_splits_ok rng p data : exists l, compute_splits rng p data = Ok l /\ cuts (length data) l /\
  (p ∈ PROFILES -> is_fragmenting_profile p = true -> 2 <= length data -> l <> []).
Proof.
  unfold compute_splits, is_fragmenting_profile. destruct (Nat.ltb_spec (length data) 2); cbn [orb].
  { exists []. split_and!; [done|repeat constructor|lia]. }
  destruct (decide (p_strategy p = Passthrough)) as [Hp|Hp].
  { rewrite bool_decide_eq_true_2 by done. exists []. split_and!; [done|repeat constructor|done]. }
  rewrite bool_decide_eq_false_2 by done.
  set (raw := match p_strategy p with Passthrough => _ | _ => _ end).
  assert (exists l, raw = Ok l /\ (p_strategy p = Equal -> l = equal_splits (length data) (p_num_chunks p))) as (l & -> & Hl).
  { subst raw. destruct (sni_default_no_panic data) as [l Hl]. destruct (p_strategy p); [done|eauto| |].
    - exists l. split; [done|]. discriminate.
    - rewrite Hl. eexists. split; [done|]. discriminate. }
  cbn [res_bind]. set (sorted := dedup _). pose proof (cuts_normal (length data) l : cuts _ sorted) as Hc.
  destruct (decide (sorted = [])) as [Hs|Hs]; cycle 1.
  { rewrite bool_decide_eq_false_2 by done. exists sorted. split_and!; [done|done|done]. }
  rewrite bool_decide_eq_true_2 by done. destruct (decide (p_strategy p = Equal)) as [He|He]; cbn [negb andb].
  - rewrite bool_decide_eq_true_2 by done. exists sorted. split_and!; [done|done|]. intros Hin _ Hn. exfalso.
    assert (2 <= p_num_chunks p) as Hk.
    { revert Hin He. clear. intros Hin He. repeat (apply elem_of_cons in Hin as [->|Hin]; [cbn in *; (lia || done)|]).
      by apply elem_of_nil in Hin. }
    specialize (Hl He). destruct (equal_splits (length data) (p_num_chunks p)) as [|x r] eqn:E;
      [by apply (equal_splits_nonempty (length data) (p_num_chunks p))|].
    assert (x ∈ sorted) as Hx; [|rewrite Hs in Hx; set_solver]. subst sorted. apply normal_elem.
    rewrite Hl. split; [|left]. apply (equal_splits_range _ (p_num_chunks p)). rewrite E. left.
  - rewrite bool_decide_eq_false_2 by done. eexists. split; [done|].
    destruct (random_cuts rng (length data) (p_num_chunks p - 1)) as [Hr1 Hr2]. split; [done|].
    intros Hin Hf Hn. apply Hr2; [done|]. revert Hin He Hp. clear. intros Hin He Hp.
    repeat (apply elem_of_cons in Hin as [->|Hin]; [cbn in *; (lia || done)|]). by apply elem_of_nil in Hin.
Qed.

Lemma fragmented_write_ok rng p data : exists l segs, compute_splits rng p data = Ok l /\
  fragmented_write rng p data = Ok segs /\ concat segs = data /\ (data <> [] -> Forall (fun s => s <> []) segs) /\
  length segs = S (length l) /\ forall c, c ∈ l -> exists s1 s2, segs = s1 ++ s2 /\ length (concat s1) = c.
Proof.
  destruct (compute_splits_ok rng p data) as (l & Hl & [Hs Hf] & _). exists l. unfold fragmented_write. rewrite Hl. cbn [res_bind].
  destruct l as [|c l].
  - exists [data]. cbn. rewrite app_nil_r. split_and!; [done|done|done|by repeat constructor|done|set_solver].
  - destruct (write_cuts_ok data 0 (c :: l)) as (segs & Hw & Hc & Hne & Hlen & Hcut); [lia|done|done|].
    exists segs. split_and!; [done|done|done| |done|done]. intros Hd. apply Hne. destruct data; [done|cbn; lia].
Qed.

Lemma fragments_two rng p data segs : p ∈ PROFILES -> is_fragmenting_profile p = true -> 2 <= length data ->
  fragmented_write rng p data = Ok segs -> 2 <= length segs.
Proof.
  intros Hp Hf Hn Hw. destruct (fragmented_write_ok rng p data) as (l & segs' & Hl & Hw' & _ & _ & Hlen & _).
  rewrite Hw in Hw'. injection Hw' as <-.
  destruct (compute_splits_ok rng p data) as (l' & Hl' & _ & Hl2). rewrite Hl in Hl'. injection Hl' as <-.
  specialize (Hl2 Hp Hf Hn). destruct l; [done|]. cbn in Hlen. lia.
Qed.

(** The fragmenting writer is total and loses nothing: for every profile, every
    outcome of the random generator and every ClientHello, it slices within bounds, writes
    non-empty segments whose concatenation is the ClientHello, and with a profile that
    fragments it writes at least two of them. *)
Theorem fragments_reassemble (rng : nat -> nat) (p : Profile) (data : bytes) : exists segs,
  fragmented_write rng p data = Ok segs /\ concat segs = data /\
  (data <> [] -> Forall (fun s => s <> []) segs) /\
  (p ∈ PROFILES -> is_fragmenting_profile p = true -> 2 <= length data -> 2 <= length segs).
Proof.
  destruct (fragmented_write_ok rng p data) as (l & segs & Hl & Hw & Hc & Hne & Hlen & _).
  exists segs. split_and!; [done|done|done|]. intros. by eapply fragments_two.
Qed.

(** The bytes of a ClientHello before its host name. *)
Definition before_host (h : Hello) : bytes :=
  hello_prefix h ++ (h_before h ≫= extension) ++ u16 0 ++ u16 (length (server_name (h_host h)))
  ++ u16 (length (h_host h) + 3) ++ [0%Z] ++ u16 (length (h_host h)).

Lemma client_hello_host h : client_hello h = before_host h ++ h_host h ++ (h_after h ≫= extension).
Proof. unfold before_host, client_hello, extensions, extension at 2, server_name at 2. cbn [fst snd]. by rewrite <- !app_assoc. Qed.

Lemma host_found h : hello_ok h ->
  tls_sni_host_range (client_hello h) = Ok (length (before_host h), length (before_host h) + length (h_host h)).
Proof.
  intros Hok. rewrite (hello_found h Hok). unfold before_host. rewrite !length_app, !length_u16. cbn [length]. f_equal. f_equal; lia.
Qed.

(** The server name of a ClientHello.  On any bytes the search returns without a
    panic and, when it finds a range, one that lies inside them; on a well-formed
    ClientHello, whatever extensions surround it, the range is exactly the host name. *)
Theorem server_name_range (data : bytes) :
  in_range data (tls_sni_host_range data) /\
  forall h, hello_ok h -> data = client_hello h ->
    exists a b, tls_sni_host_range data = Ok (a, b) /\ take (b - a) (drop a data) = h_host h.
Proof.
  split; [apply sni_host_range_in_range|]. intros h Hok ->. eexists _, _. split; [by apply host_found|].
  rewrite client_hello_host. replace (_ + _ - _) with (length (h_host h)) by lia. by rewrite drop_app_length, take_app_length.
Qed.

Definition example_hello : Hello :=
  mkHello [3; 1; 0; 80]%Z [0; 0; 76]%Z (repeat 7%Z 34) [9]%Z [19; 1]%Z [0]%Z [(10, [0; 29]%Z)] (lit "ab.cd") [(43, [2]%Z)].

Lemma example_hello_ok : hello_ok example_hello.
Proof. unfold hello_ok. split_and!; [done|done|done|reflexivity|reflexivity|]. repeat constructor. Qed.

Lemma server_name_range_witness :
  exists a b, tls_sni_host_range (client_hello example_hello) = Ok (a, b) /\
    take (b - a) (drop a (client_hello example_hello)) = lit "ab.cd".
Proof. exact (proj2 (server_name_range (client_hello example_hello)) example_hello example_hello_ok eq_refl). Defined.

(** One byte inside the range that the search finds, the writer cuts. *)
Lemma range_is_cut (rng : nat -> nat) (p : Profile) (data : bytes) (a b : nat) :
  tls_sni_host_range data = Ok (a, b) -> a + 2 <= b -> p_strategy p ∈ [Sni; SniPrefixed] ->
  exists segs s1 s2, fragmented_write rng p data = Ok segs /\ concat segs = data /\ segs = s1 ++ s2 /\ length (concat s1) = a + 1.
Proof.
  intros Hr Hab Hp. destruct (fragmented_write_ok rng p data) as (l & segs & Hl & Hw & Hj & _ & _ & Hcut).
  pose proof (sni_host_range_in_range data) as Hb. rewrite Hr in Hb. cbn in Hb.
  assert (a + 1 ∈ l) as Hin; [|destruct (Hcut _ Hin) as (s1 & s2 & -> & Hc); by exists (s1 ++ s2), s1, s2].
  assert (exists ls, sni_splits data = Ok ls /\ a + 1 ∈ ls) as (ls & Hls & Hin).
  { unfold sni_splits. rewrite Hr. cbn [res_bind]. set (out := dedup _).
    assert (a + 1 ∈ out) as Hin by (subst out; apply normal_elem; split; [lia|set_solver]).
    destruct out as [|x out']; [set_solver|]. eauto. }
  revert Hl. unfold compute_splits, sni_splits_or_default. rewrite Hls. destruct (Nat.ltb_spec (length data) 2); [lia|]. cbn [orb].
  assert (forall raw, a + 1 ∈ raw ->
    let sorted := dedup (merge_sort le (filter (fun s => 0 < s < length data) raw)) in
    a + 1 ∈ sorted /\ bool_decide (sorted = []) = false) as Hsort.
  { intros raw Hraw sorted. assert (a + 1 ∈ sorted) by (apply normal_elem; split; [lia|done]).
    split; [done|]. apply bool_decide_eq_false. intros E. rewrite E in *. set_solver. }
  apply elem_of_cons in Hp as [Hp|Hp%list_elem_of_singleton]; rewrite Hp; cbn [bool_decide res_bind].
  - rewrite bool_decide_eq_false_2 by done. destruct (Hsort ls Hin) as [Hs Hb'].
    cbn zeta in Hs, Hb'. rewrite Hb'. cbn [andb]. by intros [= <-].
  - rewrite bool_decide_eq_false_2 by done. destruct (Hsort (1 :: 5 :: ls)) as [Hs Hb']; [set_solver|].
    cbn zeta in Hs, Hb'. rewrite Hb'. cbn [andb]. by intros [= <-].
Qed.

(** Claim C22: the profiles that look for the server name (p01, p07) keep it out of any
    single segment.  For a ClientHello with a server name of at least two bytes, whatever
    extensions stand around it and whatever the random generator gives, the segments
    written join to the ClientHello and one of them ends inside the host name: the
    segments up to it carry the bytes before the host and a non-empty first part of the
    host, those after it start with the non-empty rest of the host. *)
Theorem server_name_is_cut (rng : nat -> nat) (p : Profile) (h : Hello) (Hok : hello_ok h) (Hname : 2 <= length (h_host h))
    (Hp : p_strategy p ∈ [Sni; SniPrefixed]) :
  exists s1 s2 w1 w2, fragmented_write rng p (client_hello h) = Ok (s1 ++ s2)
    /\ h_host h = w1 ++ w2 /\ w1 <> [] /\ w2 <> []
    /\ concat s1 = before_host h ++ w1 /\ concat s2 = w2 ++ (h_after h ≫= extension).
Proof.
  destruct (range_is_cut rng p (client_hello h) _ _ (host_found h Hok)) as (segs & s1 & s2 & Hw & Hj & -> & Hl); [lia|done|].
  destruct (h_host h) as [|c [|c' host]] eqn:Eh; [cbn in Hname; lia..|].
  exists s1, s2, [c], (c' :: host). split_and!; [done..| |].
  all: rewrite client_hello_host, Eh, concat_app in Hj; change (c :: c' :: host) with ([c] ++ c' :: host) in Hj;
    rewrite <- (app_assoc [c]), app_assoc in Hj; apply app_inj_1 in Hj as [H1 H2]; try done; rewrite length_app; done.
Qed.

Lemma server_name_is_cut_witness : exists s1 s2 w1 w2,
  fragmented_write (fun _ => 0) (mkProfile (lit "p07") 8 25 Sni) (client_hello example_hello) = Ok (s1 ++ s2)
  /\ lit "ab.cd" = w1 ++ w2 /\ w1 <> [] /\ w2 <> []
  /\ concat s1 = before_host example_hello ++ w1 /\ concat s2 = w2 ++ [0; 43; 0; 1; 2]%Z.
Proof. exact (server_name_is_cut _ (mkProfile (lit "p07") 8 25 Sni) example_hello example_hello_ok ltac:(cbn; lia) ltac:(left)). Defined.
