(* ===== verification/DirectRules.v ===== *)
(** * src/direct_mode.rs: breakers, candidates and tunnels, proved

    The circuit breaker as a function of the history of dials, the candidate file, and the
    outcomes of the two tunnels: which addresses and profiles they dial, what they leave of
    the client's stream, and the invariant of the LocalBypass state. *)

From stdpp Require Import prelude gmap sorting.
From S2P Require Import Prelude RustStr HttpText HttpRead.
From S2P Require Import HostMatch HostRules RoutingRules DirectMode Fragments.
#[local] Open Scope Z_scope.

(** ** The circuit breaker of Direct Mode *)
Inductive DialEvent := DialSuccess | DialFailure (now : Z).

Definition note (d : DirectModeCtx) (ev : DialEvent) : DirectModeCtx :=
  match ev with DialSuccess => note_success d | DialFailure now => note_failure now d end.

Fixpoint leading_failures (evs : list DialEvent) : Z :=
  match evs with DialFailure _ :: evs => 1 + leading_failures evs | _ => 0 end.

(** Failures since the last success. *)
Definition streak (evs : list DialEvent) : Z := leading_failures (reverse evs).

Lemma leading_bound evs : 0 <= leading_failures evs <= len evs.
Proof.
  induction evs as [|ev evs IH]; [done|]. cbn [leading_failures]. rewrite len_cons. destruct ev; lia.
Qed.

Lemma streak_snoc evs ev : streak (evs ++ [ev]) = match ev with DialSuccess => 0 | DialFailure _ => 1 + streak evs end.
Proof. unfold streak. rewrite reverse_snoc. by destruct ev. Qed.

Lemma breaker_state d evs : d_failures d = 0 -> d_breaker_until d = 0 -> len evs < 2 ^ 32 ->
  let d' := fold_left note evs d in
  d_failures d' = streak evs /\
  match reverse evs with
  | DialFailure t :: DialFailure _ :: _ => d_breaker_until d' = t + CIRCUIT_BREAKER_COOLDOWN
  | _ => d_breaker_until d' = 0
  end.
Proof.
  intros Hf Hu. induction evs as [|ev evs IH] using rev_ind; [done|]. rewrite len_app, len_cons, len_nil. intros Hl.
  destruct IH as [IHf IHu]; [lia|]. rewrite fold_left_app. cbn [fold_left]. set (d' := fold_left note evs d) in *.
  rewrite streak_snoc, reverse_snoc. destruct ev as [|t]; [done|]. cbn [note].
  assert (0 <= streak evs <= len evs) as Hs.
  { pose proof (leading_bound (reverse evs)) as H. unfold streak, len in *. by rewrite length_reverse in H. }
  unfold note_failure. rewrite IHf, wrap_small by lia.
  destruct (reverse evs) as [|[|t'] r] eqn:Er; unfold streak in *; rewrite Er in *; cbn [leading_failures] in *.
  - split; [done|exact IHu].
  - split; [done|exact IHu].
  - pose proof (leading_bound r). destruct (Z.leb_spec CIRCUIT_BREAKER_THRESHOLD (1 + leading_failures r + 1)) as [|Hc];
      [|unfold CIRCUIT_BREAKER_THRESHOLD in Hc; lia]. unfold set_breaker; cbn [d_failures d_breaker_until]. split; [lia|done].
Qed.

(** Direct Mode is disabled exactly while the last two dials failed and less than
    sixty seconds have passed since the last of them; one success enables it again, and a
    single failure after the cooldown disables it again. *)
Theorem direct_breaker (d : DirectModeCtx) (evs : list DialEvent) (now : Z) :
  d_failures d = 0 -> d_breaker_until d = 0 -> len evs < 2 ^ 32 ->
  Forall (fun ev => match ev with DialFailure t => 0 <= t | DialSuccess => True end) evs ->
  breaker_tripped now (fold_left note evs d) = true <->
  exists pre t1 t2, evs = pre ++ [DialFailure t1; DialFailure t2] /\ now < t2 + CIRCUIT_BREAKER_COOLDOWN.
Proof.
  intros Hf Hu Hl Ht. destruct (breaker_state d evs Hf Hu Hl) as [_ H]. unfold breaker_tripped. split.
  - destruct (reverse evs) as [|[|t2] [|[|t1] r]] eqn:Er; rewrite H; cbn [Z.leb]; try done.
    destruct (_ <=? 0); [done|]. intros Hn%Z.ltb_lt. exists (reverse r), t1, t2. split; [|done].
    rewrite <- (reverse_involutive evs), Er, !reverse_cons. by rewrite <- app_assoc.
  - intros (pre & t1 & t2 & -> & Hn). rewrite reverse_app in H. cbn in H. rewrite H.
    apply Forall_app in Ht as [_ Ht]. rewrite !Forall_cons in Ht. unfold CIRCUIT_BREAKER_COOLDOWN in *.
    destruct (Z.leb_spec (t2 + 60 * 1000000) 0); [lia|]. by apply Z.ltb_lt.
Qed.

Definition example_direct : DirectModeCtx :=
  from_parts true DEFAULT_FRONTS DEFAULT_GOOGLE_DOMAINS DEFAULT_SANCTIONED_DOMAINS (mkCache false None None).

Lemma direct_breaker_witness :
  breaker_tripped 5 (fold_left note [DialSuccess; DialFailure 1; DialFailure 2] example_direct) = true.
Proof.
  apply (direct_breaker example_direct [DialSuccess; DialFailure 1; DialFailure 2] 5).
  - reflexivity.
  - reflexivity.
  - reflexivity.
  - repeat constructor; lia.
  - exists [DialSuccess], 1, 2. split; [done|reflexivity].
Defined.

(** ** The candidate file *)
Lemma trim_id s : s <> [] -> (forall c, head s = Some c -> is_whitespace c = false) ->
  (forall c, last s = Some c -> is_whitespace c = false) -> trim s = s.
Proof.
  intros Hne Hh Hl. destruct s as [|x m]; [done|]. destruct (last (x :: m)) as [y|] eqn:E; [|by apply last_None in E].
  apply (trim_id_of_ends _ x y m); [done|done|by apply Hh|by apply Hl].
Qed.

Lemma profile_ids_ok p : p ∈ PROFILES -> profile_by_id (p_id p) = Some p /\ trim (p_id p) = p_id p /\
  p_id p <> [] /\ forall c, last (p_id p) = Some c -> is_whitespace c = false.
Proof.
  intros Hin. repeat (apply elem_of_cons in Hin as [->|Hin];
    [split_and!; [reflexivity|reflexivity|done|intros c [= <-]; reflexivity]|]). by apply elem_of_nil in Hin.
Qed.

(** A candidate that has been remembered and written is the one a restart reads
    back, for every front name without a line break and without white space at its ends;
    remembering the current candidate again writes nothing. *)
Theorem candidate_roundtrip (c : CandidateCache) (front : str) (p : Profile) :
  c_persist c = true -> p ∈ PROFILES -> front <> [] -> 10 ∉ front ->
  (forall x, head front = Some x -> is_whitespace x = false) ->
  (forall x, last front = Some x -> is_whitespace x = false) ->
  c_current c <> Some (mkCandidate front (p_id p)) ->
  let c' := remember true front (p_id p) c in
  c_current (CandidateCache_new true (c_file c')) = Some (mkCandidate front (p_id p)) /\
  c_current c' = Some (mkCandidate front (p_id p)) /\ forall w, remember w front (p_id p) c' = c'.
Proof.
  intros Hp Hin Hne Hnl Hh Hl Hcur c'. destruct (profile_ids_ok p Hin) as (Hid & Htr & Hpn & Hpl).
  assert (c' = mkCache true (Some (front ++ [10] ++ p_id p)) (Some (mkCandidate front (p_id p)))) as ->.
  { unfold c', remember. rewrite bool_decide_eq_false_2 by done. by rewrite Hp. }
  split_and!; [|done|intros w; unfold remember; by rewrite bool_decide_eq_true_2].
  unfold CandidateCache_new, reload_from_disk. cbn [c_persist c_file negb].
  assert (trim (front ++ [10] ++ p_id p) = front ++ [10] ++ p_id p) as ->.
  { apply trim_id; [by destruct front|destruct front; [done|exact Hh]|]. intros x. rewrite app_assoc, last_app.
    destruct (last (p_id p)) eqn:E; [intros [= <-]; by apply Hpl|by apply last_None in E]. }
  rewrite split_once_first by done. rewrite (trim_id front) by done.
  rewrite bool_decide_eq_false_2 by done. by rewrite Htr, Hid.
Qed.

Lemma candidate_roundtrip_witness :
  c_current (CandidateCache_new true (c_file (remember true (lit "www.google.com") (lit "p02") (mkCache true None None))))
  = Some (mkCandidate (lit "www.google.com") (lit "p02")).
Proof.
  apply (candidate_roundtrip (mkCache true None None) (lit "www.google.com") (mkProfile (lit "p02") 16 1 Equal)).
  - reflexivity.
  - by apply (bool_decide_unpack _).
  - done.
  - by apply (bool_decide_unpack _).
  - by intros x [= <-].
  - by intros x [= <-].
  - done.
Defined.

(** ** The client's stream *)

(** The bytes a stream delivers before it ends, fails or stalls. *)
Fixpoint sent (st : Stream) : bytes :=
  match st with RdBytes b :: st => b ++ sent st | _ => [] end.

Lemma read_sent want st b st' : read want st = (Got b, st') -> b <> [] -> sent st = b ++ sent st'.
Proof.
  unfold read. destruct st as [|[x| | | |] st]; try (by intros [= <- <-]); [|done..].
  destruct (_ <=? _)%nat; intros [= <- <-] _; [done|]. cbn [sent]. by rewrite app_assoc, take_drop.
Qed.

Lemma first_record_total fuel buf st : (stream_size st < fuel)%nat -> is_Some (read_first_tls_record fuel buf st).
Proof.
  revert buf st. induction fuel as [|fuel IH]; intros buf st Hf; [lia|]. cbn [read_first_tls_record].
  destruct (read (Z.to_nat 4096) st) as [[[|x b]| | |] st'] eqn:E; try (by eexists).
  apply read_size in E; [|done]. cbn [length] in E.
  assert (is_Some (read_first_tls_record fuel (buf ++ x :: b) st')) as Hr by (apply IH; lia).
  repeat case_match; done.
Qed.

Lemma first_record_sent fuel buf st hello st' : read_first_tls_record fuel buf st = Some (Ok (hello, st')) ->
  buf ++ sent st = hello ++ sent st' /\ head hello = Some 22 /\ (5 <= length hello)%nat.
Proof.
  revert buf st. induction fuel as [|fuel IH]; intros buf st; cbn [read_first_tls_record]; [done|].
  destruct (read (Z.to_nat 4096) st) as [[[|x b]| | |] st1] eqn:E; try done.
  apply read_sent in E; [|done]. rewrite E, app_assoc. set (buf' := buf ++ x :: b).
  assert (read_first_tls_record fuel buf' st1 = Some (Ok (hello, st')) ->
          buf' ++ sent st1 = hello ++ sent st' /\ head hello = Some 22 /\ (5 <= length hello)%nat) as Hrec by apply IH.
  clearbody buf'. destruct buf' as [|b0 [|b1 [|b2 [|l1 [|l2 r]]]]]; try exact Hrec.
  destruct (Z.eqb_spec b0 22) as [->|]; cbn [negb]; [|done].
  destruct (_ <=? _); [intros [= <- <-]; split_and!; [done|done|cbn; lia]|]. destruct (_ <? _); [done|exact Hrec].
Qed.

Lemma prefaced_read_sent want preface st b preface' st' :
  prefaced_read want preface st = (Got b, (preface', st')) -> b <> [] -> preface ++ sent st = b ++ preface' ++ sent st'.
Proof.
  unfold prefaced_read. destruct preface as [|x preface].
  - destruct (read want st) as [r s] eqn:E. intros [= -> <- ->] Hb. by apply read_sent in E.
  - intros [= <- <- <-] _. by rewrite app_assoc, take_drop.
Qed.

(** ** Dials *)
Section dials.
Context (reply : str -> list bytes -> option bytes) (rng : nat -> nat).

(** A winner is the dial of its own address and profile, and answered with a TLS
    handshake record. *)
Definition winner_of (f : str) (p : Profile) (hello : bytes) (w : DialWinner) : Prop :=
  w_front w = f /\ w_profile w = p /\ head (w_server_bytes w) = Some 22 /\
  exists segs, fragmented_write rng p hello = Ok segs /\ concat segs = hello /\
    reply (strip_brackets f) segs = Some (w_server_bytes w).

Lemma dial_one_spec f p hello : exists w, dial_one reply rng f p hello = Ok w /\
  forall w', w = Some w' -> winner_of f p hello w'.
Proof.
  unfold dial_one. destruct (fragmented_write_ok rng p hello) as (l & segs & _ & Hw & Hc & _).
  rewrite Hw. cbn [res_bind]. destruct (reply (strip_brackets f) segs) as [[|b r]|] eqn:Er;
    [by eexists; split| |by eexists; split].
  destruct (Z.eqb_spec b 22) as [->|]; [|by eexists; split]. eexists. split; [done|].
  intros w' [= <-]. split_and!; [done|done|done|]. by exists segs.
Qed.

Lemma race_spec tasks hello order : exists w, race reply rng tasks hello order = Ok w /\
  forall w', w = Some w' -> exists f p, (f, p) ∈ tasks /\ winner_of f p hello w'.
Proof.
  induction order as [|k order IH]; cbn [race]; [by eexists; split|].
  destruct (tasks !! k) as [[f p]|] eqn:Ek; [|exact IH].
  destruct (dial_one_spec f p hello) as ([w|] & -> & Hw); cbn [res_bind]; [|exact IH].
  eexists. split; [done|]. intros w' [= <-]. exists f, p. split; [by eapply list_elem_of_lookup_2|by apply Hw].
Qed.

Lemma default_profile_in : default_profile ∈ PROFILES.
Proof. by apply (bool_decide_unpack _). Qed.

Lemma profile_by_id_in id p : profile_by_id id = Some p -> p ∈ PROFILES /\ p_id p = id.
Proof. intros [Hin Hid]%find_some. apply list_elem_of_In in Hin. by apply bool_decide_eq_true in Hid. Qed.

Lemma fast_pair_in d f p : fast_pair d = Some (f, p) -> f ∈ d_fronts d /\ p ∈ PROFILES.
Proof.
  assert (forall f p, (., default_profile) <$> head (d_fronts d) = Some (f, p) -> f ∈ d_fronts d /\ p ∈ PROFILES) as Hhead.
  { intros f' p'. destruct (d_fronts d); cbn; [done|]. intros [= <- <-]. split; [left|apply default_profile_in]. }
  unfold fast_pair. destruct (c_current (d_cache d)) as [c|]; [|apply Hhead].
  destruct (existsb _ _) eqn:E; [|apply Hhead]. apply existsb_elem in E as (g & Hg & ->%bool_decide_eq_true).
  intros [= <- <-]. split; [done|]. destruct (profile_by_id (cand_profile c)) as [q|] eqn:Eq; [|apply default_profile_in].
  by apply profile_by_id_in in Eq as [? _].
Qed.

Lemma dial_with_validation_spec d fast order hello :
  exists w, dial_with_validation reply rng d fast order hello = Ok w /\
  forall w', w = Some w' -> w_front w' ∈ d_fronts d /\ w_profile w' ∈ PROFILES /\ head (w_server_bytes w') = Some 22.
Proof.
  unfold dial_with_validation. destruct (fast_pair d) as [[ff fp]|] eqn:Ef; [|by eexists; split].
  apply fast_pair_in in Ef as [Hff Hfp]. destruct (dial_one_spec ff fp hello) as (w & -> & Hw). cbn [res_bind].
  destruct (if fast then w else None) as [w1|] eqn:E1.
  - eexists. split; [done|]. intros w' [= <-]. destruct fast; [|done].
    destruct (Hw w1 E1) as (-> & -> & Hh & _). done.
  - destruct (race_spec (race_tasks d ff fp) hello order) as (r & Hr & Hrw). rewrite Hr. eexists. split; [done|].
    intros w' ->. destruct (Hrw w' eq_refl) as (f & p & Hin & -> & -> & Hh & _).
    unfold race_tasks in Hin. apply list_elem_of_filter in Hin as [_ Hin].
    apply list_elem_of_bind in Hin as (g & (q & [= <- <-] & Hq)%list_elem_of_fmap & Hg). done.
Qed.
End dials.

(** What each outcome says of the client's stream, the winner and the context. *)
Definition tunnel_post (now later : Z) (st : Stream) (d : DirectModeCtx) (o : TunnelOutcome) (d' : DirectModeCtx) : Prop :=
  match o with
  | Skip st' => st' = st /\ d' = d /\ (breaker_tripped now d = true \/ peek_byte st <> Some 22)
  | SkipPrefaced preface st' =>
    sent st = preface ++ sent st' /\ head preface = Some 22 /\ d' = note_failure later d /\
    forall want b preface2 st2, prefaced_read want preface st' = (Got b, (preface2, st2)) -> b <> [] ->
      sent st = b ++ preface2 ++ sent st2
  | Done None => d' = d
  | Done (Some w) =>
    w_front w ∈ d_fronts d /\ w_profile w ∈ PROFILES /\ head (w_server_bytes w) = Some 22 /\
    d_failures d' = 0 /\ d_breaker_until d' = 0 /\
    c_current (d_cache d') = Some (mkCandidate (w_front w) (p_id (w_profile w)))
  end.

Lemma try_tunnel_spec reply rng now later fast order write_ok (st : Stream) (d : DirectModeCtx) :
  exists o d', try_tunnel reply rng now later fast order write_ok st d = Some (Ok (o, d')) /\ tunnel_post now later st d o d'.
Proof.
  unfold try_tunnel. destruct (breaker_tripped now d) eqn:Eb.
  { eexists _, _. split; [reflexivity|]. split_and!; [done|done|by left]. }
  case_bool_decide as Ep; cbn [negb]; [|eexists _, _; split; [reflexivity|]; split_and!; [done|done|by right]].
  destruct (first_record_total (S (stream_size st)) [] st) as [r Hr]; [lia|]. rewrite Hr.
  destruct r as [[hello st1]| |]; [|by eexists _, _|by eexists _, _].
  apply first_record_sent in Hr as (Hs & Hh & _). cbn [app] in Hs.
  destruct (dial_with_validation_spec reply rng d fast order hello) as (w & -> & Hw). cbn [res_bind].
  destruct w as [w|]; eexists _, _; (split; [done|]).
  - destruct (Hw w eq_refl) as (Hf & Hp & Hb). split_and!; [done..|]. cbn [d_cache]. unfold remember.
    by case_bool_decide.
  - split_and!; [done..|]. intros want b p2 st2 Hread Hne. rewrite Hs. by eapply prefaced_read_sent.
Qed.

(** What a fragmented direct tunnel leaves behind.  It always returns.  [Skip]
    hands back the client's stream and the context untouched, and only when the breaker is
    tripped or the client did not open with a TLS record; [SkipPrefaced] hands back every
    byte the client sent, in order, whatever the sizes of the later reads, and counts a
    failure; a winner is a configured front and a known profile that answered with a TLS
    handshake record, it clears the breaker and becomes the remembered candidate. *)
Theorem direct_tunnel_outcome reply rng now later fast order write_ok (st : Stream) (d : DirectModeCtx) :
  exists o d', try_tunnel reply rng now later fast order write_ok st d = Some (Ok (o, d')) /\ tunnel_post now later st d o d'.
Proof. apply try_tunnel_spec. Qed.
