(* ===== verification/BypassRules.v ===== *)
(** * src/direct_mode.rs: LocalBypass, proved

    The process-wide breaker table stays within its bound and well formed, the profiles in
    rotation always fragment, and a LocalBypass connection is either untouched, spliced to
    a server that answered fragments, or replayed raw. *)

From stdpp Require Import prelude gmap sorting.
From S2P Require Import Prelude RustStr HttpText HttpRead.
From S2P Require Import HostMatch HostRules RoutingRules DirectMode Fragments DirectRules.
#[local] Open Scope Z_scope.

(** ** Profiles in rotation *)
Definition pool : list str := p_id <$> filter (fun p => is_fragmenting_profile p = true) PROFILES.

Ltac each_profile Hin := repeat (apply elem_of_cons in Hin as [->|Hin]; [try done|]); try (by apply elem_of_nil in Hin).

Lemma pool_fragments p : p ∈ PROFILES -> p_id p ∈ pool -> is_fragmenting_profile p = true.
Proof. intros Hin Hp. each_profile Hin. exfalso. revert Hp. by apply (bool_decide_unpack _). Qed.

Lemma available_spec fails threshold floor : (floor <= 7)%nat ->
  let l := available_profile_ids fails threshold floor in
  (forall id, id ∈ l -> id ∈ pool) /\ (floor <= length l)%nat /\
  (forall id, id ∈ pool -> id ∉ l -> threshold <= default 0 (fails !! id)).
Proof.
  intros Hf. unfold available_profile_ids. fold pool. set (l := filter _ pool).
  destruct (Nat.ltb_spec (length l) floor) as [Hl|Hl]; cbn zeta.
  - split_and!; [done|change (length pool) with 7%nat; lia|done].
  - split_and!; [intros id [_ ?]%list_elem_of_filter; done|done|]. intros id Hp Hn. apply Z.nlt_ge. intros Hlt. apply Hn.
    by apply list_elem_of_filter.
Qed.

Definition last_ok (last : option nat) : Prop :=
  forall i, last = Some i -> exists p, PROFILES !! i = Some p /\ is_fragmenting_profile p = true.

Lemma default_fragments : is_fragmenting_profile default_profile = true.
Proof. reflexivity. Qed.

Lemma preferred_in last : local_bypass_preferred_profile last ∈ PROFILES /\
  is_fragmenting_profile (local_bypass_preferred_profile last) = true.
Proof.
  unfold local_bypass_preferred_profile. destruct (last ≫= _) as [p|] eqn:E; [|split; [apply default_profile_in|done]].
  destruct (is_fragmenting_profile p) eqn:Ef; [|split; [apply default_profile_in|done]].
  apply bind_Some in E as (i & _ & Hi). split; [by eapply list_elem_of_lookup_2|done].
Qed.

Lemma fast_profile_in last allowed : (forall id, id ∈ allowed -> id ∈ pool) -> allowed <> [] ->
  let p := fast_profile last allowed in p ∈ PROFILES /\ is_fragmenting_profile p = true /\ p_id p ∈ allowed.
Proof.
  intros Hsub Hne. unfold fast_profile. destruct (preferred_in last) as [Hin Hf]. case_bool_decide; [done|].
  case_bool_decide; [split; [apply default_profile_in|done]|].
  destruct (List.find _ PROFILES) as [p|] eqn:E.
  - apply find_some in E as [Hp%list_elem_of_In Hid%bool_decide_eq_true]. split_and!; [done| |done].
    by apply pool_fragments; [|apply Hsub].
  - exfalso. destruct allowed as [|id allowed]; [done|]. specialize (Hsub id ltac:(left)).
    unfold pool in Hsub. apply list_elem_of_fmap in Hsub as (q & -> & [_ Hq]%list_elem_of_filter).
    apply list_elem_of_In in Hq. apply (find_none _ _ E) in Hq. apply bool_decide_eq_false in Hq. apply Hq. left.
Qed.

Lemma position_spec id ps i k : position id ps i = Some k -> exists p, ps !! (k - i)%nat = Some p /\ p_id p = id /\ (i <= k)%nat.
Proof.
  revert i. induction ps as [|p ps IH]; intros i; cbn [position]; [done|]. case_bool_decide as E.
  - intros [= <-]. exists p. by rewrite Nat.sub_diag.
  - intros (q & Hq & Hid & Hle)%IH. exists q. split_and!; [|done|lia]. by replace (k - i)%nat with (S (k - S i)) by lia.
Qed.

Lemma remember_ok p last : p ∈ PROFILES -> last_ok last -> last_ok (local_bypass_remember p last).
Proof.
  intros Hp Hl. unfold local_bypass_remember. destruct (is_fragmenting_profile p) eqn:Ef; [|done]. cbn [negb].
  destruct (position _ _ _) as [k|] eqn:E; [|done]. intros i [= <-].
  apply position_spec in E as (q & Hq & Hid & _). rewrite Nat.sub_0_r in Hq. exists q. split; [done|].
  apply pool_fragments; [by eapply list_elem_of_lookup_2|]. rewrite Hid. unfold pool. apply list_elem_of_fmap.
  exists p. split; [done|]. by apply list_elem_of_filter.
Qed.

(** ** The table *)
Definition entry_ok (e : BypassEntry) : Prop :=
  0 <= b_failures e < 2 ^ 32 /\ (b_until e = None -> b_failures e < LOCAL_BYPASS_BREAKER_THRESHOLD) /\
  map_Forall (fun id n => 1 <= n < 2 ^ 32 /\ id ∈ pool) (b_fails e).

Definition worth_keeping (e : BypassEntry) : Prop := ~ (b_failures e = 0 /\ b_until e = None /\ b_fails e = ∅).

Definition table_ok (m : gmap str BypassEntry) : Prop :=
  (size m <= LOCAL_BYPASS_BREAKER_MAX_ENTRIES)%nat /\ map_Forall (fun _ e => entry_ok e /\ worth_keeping e) m.

Lemma soonest_in m k : soonest m = Some k -> is_Some (m !! k).
Proof.
  unfold soonest. intros ([k' e] & H & ->)%fmap_Some. cbn [fst].
  assert ((k', e) ∈ map_to_list m) as Hin; [|apply elem_of_map_to_list in Hin; by eexists].
  revert H. generalize (map_to_list m). induction l as [|x l IH]; cbn [foldr]; [done|].
  destruct (foldr _ None l) as [y|]; [|intros [= ->]; left].
  destruct (until_le _ _); [intros [= ->]; left|]. intros H. right. by apply IH.
Qed.

Lemma soonest_some m : m <> ∅ -> is_Some (soonest m).
Proof.
  intros Hm. unfold soonest. destruct (map_to_list m) as [|x l] eqn:E; [by apply map_to_list_empty_iff in E|].
  cbn [foldr]. destruct (foldr _ None l); [destruct (until_le _ _)|]; by eexists.
Qed.

Lemma map_Forall_subseteq (P : str -> BypassEntry -> Prop) (m m' : gmap str BypassEntry) : m' ⊆ m -> map_Forall P m -> map_Forall P m'.
Proof. intros Hs Hm k e He. apply Hm. by eapply lookup_weaken. Qed.

(** Room for the incoming key, and nothing new in the table. *)
Lemma evict_ok now m key : table_ok m -> let m' := evict_if_at_cap now m key in
  table_ok m' /\ m' ⊆ m /\ (is_Some (m' !! key) \/ (size m' < LOCAL_BYPASS_BREAKER_MAX_ENTRIES)%nat).
Proof.
  intros [Hs Hf]. unfold evict_if_at_cap. destruct (Nat.ltb_spec (size m) LOCAL_BYPASS_BREAKER_MAX_ENTRIES) as [Hlt|Hge]; cbn [orb].
  { split_and!; [done|done|by right]. }
  case_bool_decide as Ek; [split_and!; [done|done|by left]|].
  set (m1 := filter _ m). assert (m1 ⊆ m) as Hsub by apply map_filter_subseteq.
  assert (size m1 <= size m)%nat as Hsz by by apply map_subseteq_size.
  assert (table_ok m1) as Hm1 by (split; [lia|by eapply map_Forall_subseteq]).
  destruct (Nat.leb_spec LOCAL_BYPASS_BREAKER_MAX_ENTRIES (size m1)) as [Hle|Hlt]; cbn zeta; [|split_and!; [done|done|by right]].
  destruct (soonest_some m1) as [k Hk]; [intros E; rewrite E, map_size_empty in Hle; unfold LOCAL_BYPASS_BREAKER_MAX_ENTRIES in Hle; lia|].
  rewrite Hk. apply soonest_in in Hk as [e He].
  assert (size (delete k m1) = Nat.pred (size m1)) as Hd by by apply map_size_delete_Some.
  assert (delete k m1 ⊆ m1) as Hdel by apply delete_subseteq.
  unfold LOCAL_BYPASS_BREAKER_MAX_ENTRIES in *. split_and!.
  - split; [unfold LOCAL_BYPASS_BREAKER_MAX_ENTRIES; lia|]. eapply map_Forall_subseteq; [exact Hdel|apply Hm1].
  - by etransitivity.
  - right. lia.
Qed.

Lemma saturating_inc_bound n : 0 <= n < 2 ^ 32 -> 1 <= saturating_inc_u32 n < 2 ^ 32.
Proof. unfold saturating_inc_u32. lia. Qed.

Lemma strikes_ok winner failed fails : Forall (fun id => id ∈ pool) failed ->
  map_Forall (fun id n => 1 <= n < 2 ^ 32 /\ id ∈ pool) fails ->
  map_Forall (fun id n => 1 <= n < 2 ^ 32 /\ id ∈ pool) (fold_left (strike winner) failed fails).
Proof.
  intros Hf. revert fails. induction Hf as [|id failed Hid Hf IH]; intros fails Hm; [done|]. cbn [fold_left].
  apply IH. unfold strike. case_bool_decide; [done|]. apply map_Forall_insert_2; [|done]. split; [|done].
  apply saturating_inc_bound. destruct (fails !! id) as [n|] eqn:E; cbn; [|lia].
  apply Hm in E. lia.
Qed.

Lemma note_entry_ok now failed winner e : Forall (fun id => id ∈ pool) failed -> entry_ok e ->
  entry_ok (note_entry now failed winner e).
Proof.
  intros Hf (Hb & Hu & Hm). pose proof (strikes_ok winner failed (b_fails e) Hf Hm) as Hs. unfold note_entry.
  destruct winner as [pid|].
  { split_and!; cbn; [lia|lia|unfold LOCAL_BYPASS_BREAKER_THRESHOLD; lia|]. by apply map_Forall_delete. }
  case_bool_decide as E; [split_and!; cbn; auto; lia|]. pose proof (saturating_inc_bound _ Hb).
  split_and!; cbn [b_failures b_until b_fails]; [lia|lia| |done].
  destruct (Z.leb_spec LOCAL_BYPASS_BREAKER_THRESHOLD (saturating_inc_u32 (b_failures e))); [done|done].
Qed.

Lemma entry_new_ok : entry_ok BypassEntry_new.
Proof. split_and!; cbn; [lia|lia|unfold LOCAL_BYPASS_BREAKER_THRESHOLD; lia|apply map_Forall_empty]. Qed.

Lemma note_outcome_ok t1 t2 m host failed winner : Forall (fun id => id ∈ pool) failed -> table_ok m ->
  let m' := local_bypass_note_dial_outcome t1 t2 m host failed winner in
  table_ok m' /\
  (forall k, k <> breaker_key host -> m' !! k = None \/ m' !! k = m !! k) /\
  ((size m < LOCAL_BYPASS_BREAKER_MAX_ENTRIES)%nat -> forall k, k <> breaker_key host -> m' !! k = m !! k).
Proof.
  intros Hf Hm. unfold local_bypass_note_dial_outcome.
  destruct (bool_decide (failed = []) && _); [cbn zeta; split_and!; [done|by right|done]|].
  destruct (evict_ok t1 m (breaker_key host) Hm) as (Hm1 & Hsub & Hroom).
  assert ((size m < LOCAL_BYPASS_BREAKER_MAX_ENTRIES)%nat -> evict_if_at_cap t1 m (breaker_key host) = m) as Hid.
  { intros Hlt. unfold evict_if_at_cap. by destruct (Nat.ltb_spec (size m) LOCAL_BYPASS_BREAKER_MAX_ENTRIES); [|lia]. }
  set (m1 := evict_if_at_cap t1 m (breaker_key host)) in *. clearbody m1. set (key := breaker_key host) in *.
  assert (entry_ok (default BypassEntry_new (m1 !! key))) as He.
  { destruct (m1 !! key) as [e|] eqn:E; [|apply entry_new_ok]. destruct Hm1 as [_ Hm1]. by apply Hm1 in E as [? _]. }
  apply (note_entry_ok t2 failed winner _ Hf) in He. set (e := note_entry _ _ _ _) in *. clearbody e.
  assert (forall m2 : gmap str BypassEntry, (forall k, k <> key -> m2 !! k = m1 !! k) ->
    (forall k, k <> key -> m2 !! k = None \/ m2 !! k = m !! k) /\
    ((size m < LOCAL_BYPASS_BREAKER_MAX_ENTRIES)%nat -> forall k, k <> key -> m2 !! k = m !! k)) as Hothers.
  { intros m2 H2. split.
    - intros k Hk. rewrite H2 by done. destruct (m1 !! k) eqn:E; [right|by left]. symmetry. by eapply lookup_weaken.
    - intros Hlt k Hk. by rewrite H2, Hid. }
  destruct Hm1 as [Hsz Hall]. destruct ((b_failures e =? 0) && _ && _) eqn:Ec; cbn zeta.
  - split; [|apply Hothers; intros k Hk; by rewrite lookup_delete_ne]. split; [|by apply map_Forall_delete].
    pose proof (map_subseteq_size _ _ (delete_subseteq m1 key)). lia.
  - split; [|apply Hothers; intros k Hk; by rewrite lookup_insert_ne]. split.
    + destruct Hroom as [[x Hx]|Hlt].
      * rewrite map_size_insert_Some by by eexists. done.
      * rewrite map_size_insert. destruct (m1 !! key); unfold id; lia.
    + apply map_Forall_insert_2; [|done]. split; [done|]. intros (H0 & H1 & H2). rewrite H0, H1, H2 in Ec.
      by rewrite !bool_decide_eq_true_2 in Ec.
Qed.

(** ** The tunnel *)
Definition bypass_ok (s : Bypass) : Prop := table_ok (by_map s) /\ last_ok (by_last_winner s).

(** What one connection may change: only its own host's entry, unless the table is full. *)
Definition others_kept (host : str) (s s' : Bypass) : Prop :=
  (size (by_map s) < LOCAL_BYPASS_BREAKER_MAX_ENTRIES)%nat ->
  forall k, k <> breaker_key host -> by_map s' !! k = by_map s !! k.

(** What each outcome says of the client's stream and of the dial. *)
Definition bypass_post (reply : str -> list bytes -> option bytes) (rng : nat -> nat) (st : Stream) (host : str)
    (dial_target : option str) (s : Bypass) (o : BypassOutcome) (s' : Bypass) : Prop :=
  match o with
  | BSkip st' => st' = st /\ s' = s /\ peek_byte st <> Some 22
  | BClosed => s' = s
  | BSpliced w st' => exists hello segs, sent st = hello ++ sent st' /\
      w_front w = default host dial_target /\ w_profile w ∈ PROFILES /\ is_fragmenting_profile (w_profile w) = true /\
      fragmented_write rng (w_profile w) hello = Ok segs /\ concat segs = hello /\ (2 <= length segs)%nat /\
      reply (strip_brackets (w_front w)) segs = Some (w_server_bytes w) /\ head (w_server_bytes w) = Some 22
  | BRaw target hello st' => sent st = hello ++ sent st' /\ target = strip_brackets (default host dial_target)
  end.

Lemma bypass_tunnel_spec reply rng now later fast order (st : Stream) (host : str) (dial_target : option str) (s : Bypass) :
  bypass_ok s ->
  exists o s', try_local_bypass_tunnel reply rng now later fast order st host dial_target s = Some (Ok (o, s')) /\
    bypass_ok s' /\ others_kept host s s' /\ bypass_post reply rng st host dial_target s o s'.
Proof.
  intros Hok. unfold try_local_bypass_tunnel. case_bool_decide as Ep; cbn [negb].
  2: { eexists _, _. split; [reflexivity|]. by split_and!. }
  destruct (first_record_total (S (stream_size st)) [] st) as [r Hr]; [lia|]. rewrite Hr.
  destruct r as [[hello st1]| |]; [|by eexists _, _; split_and!|by eexists _, _; split_and!].
  apply first_record_sent in Hr as (Hs & _ & Hlen). cbn [app] in Hs.
  destruct (local_bypass_breaker_tripped now (by_map s) host); [by eexists _, _; split_and!|].
  set (target := default host dial_target). unfold local_bypass_available_profile_ids.
  destruct (available_spec (default ∅ (b_fails <$> by_map s !! breaker_key host))
              LOCAL_BYPASS_PROFILE_STRIKE_THRESHOLD LOCAL_BYPASS_PROFILE_FLOOR) as (Hsub & Hfl & _);
    [unfold LOCAL_BYPASS_PROFILE_FLOOR; lia|].
  set (allowed := available_profile_ids _ _ _) in *. clearbody allowed.
  destruct (fast_profile_in (by_last_winner s) allowed Hsub) as (Hp & Hpf & Hpa).
  { intros ->. cbn in Hfl. unfold LOCAL_BYPASS_PROFILE_FLOOR in Hfl. lia. }
  set (preferred := fast_profile _ _) in *. clearbody preferred. destruct Hok as [Htab Hlast].
  assert (forall w failed p, winner_of reply rng target p hello w -> p ∈ PROFILES -> is_fragmenting_profile p = true ->
    Forall (fun id => id ∈ pool) failed ->
    let s' := mkBypassState (local_bypass_note_dial_outcome later later (by_map s) host failed (Some (p_id (w_profile w))))
                (local_bypass_remember (w_profile w) (by_last_winner s)) in
    bypass_ok s' /\ others_kept host s s' /\
    exists hello' segs, sent st = hello' ++ sent st1 /\
      w_front w = target /\ w_profile w ∈ PROFILES /\ is_fragmenting_profile (w_profile w) = true /\
      fragmented_write rng (w_profile w) hello' = Ok segs /\ concat segs = hello' /\ (2 <= length segs)%nat /\
      reply (strip_brackets (w_front w)) segs = Some (w_server_bytes w) /\ head (w_server_bytes w) = Some 22) as Hwin.
  { intros w failed p (Hw1 & Hw2 & Hw3 & segs & Hseg & Hcat & Hrep) Hin Hfr Hfail s'.
    destruct (note_outcome_ok later later (by_map s) host failed (Some (p_id (w_profile w))) Hfail Htab) as (Ht & _ & Hoth).
    split; [split; [exact Ht|apply remember_ok; [by rewrite Hw2|done]]|]. split; [exact Hoth|]. exists hello, segs. rewrite Hw1, Hw2.
    pose proof (fragments_two rng p hello segs Hin Hfr ltac:(lia) Hseg). by split_and!. }
  destruct (dial_one_spec reply rng target preferred hello) as (w & -> & Hw). cbn [res_bind].
  destruct (if fast then w else None) as [w1|] eqn:E1.
  { destruct fast; [|done]. eexists _, _. split; [reflexivity|].
    eapply (Hwin w1 []); [by apply Hw|done|done|constructor]. }
  set (racers := race_profiles preferred allowed).
  assert (forall p, p ∈ racers -> p ∈ PROFILES /\ is_fragmenting_profile p = true /\ p_id p ∈ pool) as Hrac.
  { intros p Hin. unfold racers, race_profiles in Hin. apply list_elem_of_filter in Hin as [(_ & Hf & Ha) Hin]. auto. }
  destruct (race_spec reply rng ((target,.) <$> racers) hello order) as (r & -> & Hrw). cbn [res_bind].
  destruct r as [w2|]; eexists _, _; (split; [reflexivity|]).
  - destruct (Hrw w2 eq_refl) as (f & p & (q & [= -> ->] & Hq)%list_elem_of_fmap & Hof). destruct (Hrac q Hq) as (? & ? & _).
    eapply Hwin; [exact Hof|done|done|]. case_bool_decide; [constructor|].
    constructor; [by apply Hsub|constructor].
  - destruct (note_outcome_ok later later (by_map s) host (p_id preferred :: (p_id <$> racers)) None) as (Ht & _ & Hoth);
      [|exact Htab|].
    { constructor; [by apply Hsub|]. apply Forall_fmap, Forall_forall. intros p Hin. by apply Hrac. }
    split; [by split|]. by split_and!.
Qed.

(** A LocalBypass connection always returns and keeps the process-wide state well
    formed: at most 256 hosts, every entry with state worth keeping and with its breaker
    armed from the third failure on, the remembered winner a profile that fragments.  A
    client that does not open with a TLS record gets its stream back; a spliced connection
    was dialled at the override or the host itself, with a profile that fragments, in at
    least two segments whose concatenation is what the client had sent; a raw replay sends
    exactly those bytes; and while the table has room no other host's entry changes. *)
Theorem local_bypass_tunnel reply rng now later fast order (st : Stream) (host : str) (dial_target : option str) (s : Bypass) :
  bypass_ok s ->
  exists o s', try_local_bypass_tunnel reply rng now later fast order st host dial_target s = Some (Ok (o, s')) /\
    bypass_ok s' /\ others_kept host s s' /\ bypass_post reply rng st host dial_target s o s'.
Proof. apply bypass_tunnel_spec. Qed.

Lemma local_bypass_tunnel_witness :
  let s := mkBypassState ∅ None in
  bypass_ok s /\
  exists o s', try_local_bypass_tunnel (fun _ _ => Some [22]) (fun _ => 0%nat) 0 1 true [] [RdBytes (client_hello example_hello)]
    (lit "a.test") None s = Some (Ok (o, s')) /\ bypass_ok s'.
Proof.
  intros s. assert (bypass_ok s) as Hs.
  { split; [split; [apply Nat.leb_le; vm_compute; reflexivity|apply map_Forall_empty]|done]. }
  split; [exact Hs|].
  destruct (local_bypass_tunnel (fun _ _ => Some [22]) (fun _ => 0%nat) 0 1 true []
    [RdBytes (client_hello example_hello)] (lit "a.test") None s Hs) as (o & s' & H & Hok & _).
  exists o, s'. split; [exact H|exact Hok].
Defined.

(** A table that is full when a new host fails forgets every host whose breaker
    has not tripped, its failures and its profiles' strikes with it, and not only the
    entries whose cooldown has passed. *)
Theorem eviction_forgets_strikes (now : Z) (m : gmap str BypassEntry) (key k : str) (e : BypassEntry) :
  (LOCAL_BYPASS_BREAKER_MAX_ENTRIES <= size m)%nat -> m !! key = None ->
  m !! k = Some e -> b_until e = None -> evict_if_at_cap now m key !! k = None.
Proof.
  intros Hs Hk He Hu. unfold evict_if_at_cap. destruct (Nat.ltb_spec (size m) LOCAL_BYPASS_BREAKER_MAX_ENTRIES); [lia|].
  rewrite bool_decide_eq_false_2 by (rewrite Hk; by intros [? [=]]). cbn [orb]. set (m1 := filter _ m).
  assert (m1 !! k = None) as H1.
  { apply map_lookup_filter_None. right. intros x Hx. rewrite He in Hx. injection Hx as <-. cbn [snd].
    unfold cooling. by rewrite Hu. }
  cbn zeta. destruct (_ <=? _)%nat; [|done]. destruct (soonest m1); [|done]. by apply lookup_delete_None; right.
Qed.

Definition full_table : gmap str BypassEntry :=
  list_to_map ((fun i => ([Z.of_nat i], mkBypass 2 None {[lit "p02" := 2]})) <$> seq 0 256).

Lemma eviction_forgets_strikes_witness :
  full_table !! [7] = Some (mkBypass 2 None {[lit "p02" := 2]}) /\ evict_if_at_cap 0 full_table (lit "new") !! [7] = None.
Proof.
  assert (full_table !! [7] = Some (mkBypass 2 None {[lit "p02" := 2]})) as H7 by (vm_compute; reflexivity).
  split; [exact H7|]. eapply (eviction_forgets_strikes 0 full_table (lit "new") [7]).
  - apply Nat.leb_le. vm_compute. reflexivity.
  - vm_compute. reflexivity.
  - exact H7.
  - reflexivity.
Defined.
