(* ===== verification/Dispatch.v ===== *)
(** * src/proxy_server.rs: where a CONNECT goes

    [classify_early_route], the predicates of the later steps and [dispatch_tunnel]: the
    whole decision tree from a host, a port and the client's socket to the tunnel that gets
    the socket, with the Direct Mode and LocalBypass tunnels of [DirectMode] and the breaker
    of the [force_ip] groups.

    A [World] holds what the network and the libraries answer during one dispatch: the dials,
    the DoH resolver, the outcome of the camouflaged handshakes.  A [Route] is the tunnel
    that takes over, with the stream it is handed. *)

From stdpp Require Import prelude gmap.
From S2P Require Import Prelude RustStr HttpText HostMatch DirectMode.
#[local] Open Scope Z_scope.

(** ** Modes (src/config.rs) *)
Definition uses_apps_script_relay (m : Mode) : bool := match m with AppsScript | Full => true | _ => false end.
Definition uses_mitm_ca (m : Mode) : bool := match m with AppsScript | Direct => true | _ => false end.
Definition uses_drive_relay (m : Mode) : bool := match m with Drive => true | _ => false end.

Definition mode_of_str (s : str) : option Mode :=
  if bool_decide (s = lit "apps_script") then Some AppsScript
  else if bool_decide (s = lit "direct") then Some Direct
  else if bool_decide (s = lit "google_only") then Some Direct
  else if bool_decide (s = lit "full") then Some Full
  else if bool_decide (s = lit "local_bypass") then Some LocalBypass
  else if bool_decide (s = lit "drive") then Some Drive
  else None.

(** ** The early route *)
Inductive EarlyRoute := PassthroughHostsMatch | ELocalBypass | BlockDoh | BypassDoh | EFull | EDrive | EContinue.
#[export] Instance EarlyRoute_eq_dec : EqDecision EarlyRoute.
Proof. solve_decision. Defined.

Definition classify_early_route (host : str) (port : Z) (mode : Mode) (passthrough_hosts bypass_doh_hosts : list str)
    (block_doh bypass_doh : bool) : EarlyRoute :=
  if matches_passthrough host passthrough_hosts then PassthroughHostsMatch
  else if block_doh && (port =? 443) && matches_doh_host host bypass_doh_hosts then BlockDoh
  else if bool_decide (mode = LocalBypass) then ELocalBypass
  else if bypass_doh && (port =? 443) && matches_doh_host host bypass_doh_hosts then BypassDoh
  else if bool_decide (mode = Drive) then EDrive
  else if bool_decide (mode = Full) then EFull
  else EContinue.

(** ** The resolved context *)
Record RewriteCtx := mkRewrite {
  google_ip : str;
  front_domain : str;
  rc_hosts : gmap str str;
  upstream_socks5 : option str;
  rc_mode : Mode;
  youtube_via_relay : bool;
  relay_url_patterns : list str;
  force_mitm_hosts : list str;
  exit_node_full_mode_active : bool;
  passthrough_hosts : list str;
  rc_bypass_doh : bool;
  rc_block_doh : bool;
  bypass_doh_hosts : list str;
  fronting_groups : list FrontingGroupResolved;
  direct_mode : option DirectModeCtx;
  doh_resolver : bool;
  tls_verify : bool;             (** [tls_connector]: it verifies certificates, or accepts any *)
  rc_block_quic : bool;
  rc_block_stun : bool }.

Definition set_direct (d : DirectModeCtx) (c : RewriteCtx) : RewriteCtx :=
  mkRewrite (google_ip c) (front_domain c) (rc_hosts c) (upstream_socks5 c) (rc_mode c) (youtube_via_relay c)
    (relay_url_patterns c) (force_mitm_hosts c) (exit_node_full_mode_active c) (passthrough_hosts c)
    (rc_bypass_doh c) (rc_block_doh c) (bypass_doh_hosts c) (fronting_groups c) (Some d) (doh_resolver c)
    (tls_verify c) (rc_block_quic c) (rc_block_stun c).

Definition should_take_direct_mode_branch (now port : Z) (direct : option DirectModeCtx) (host : str)
    (force : list str) (yt : bool) (hosts : gmap str str) : bool :=
  if negb (port =? 443) then false else
  match direct with
  | None => false
  | Some d =>
    if host_in_force_mitm_list host force then false
    else if yt && host_matches_youtube_relay host then false
    else if bool_decide (is_Some (hosts_override hosts host)) then false
    else if negb (is_direct now d host) then false
    else if negb (matches_sni_rewrite host yt force) then false
    else true
  end.

Definition should_use_sni_rewrite (hosts : gmap str str) (host : str) (port : Z) (yt : bool) (force : list str) : bool :=
  if negb (port =? 443) then false
  else if host_in_force_mitm_list host force then false
  else matches_sni_rewrite host yt force || bool_decide (is_Some (hosts_override hosts host)).

Definition looks_like_http (b : bytes) : bool :=
  existsb (fun m => starts_with b (lit m))
    ["GET "; "POST "; "PUT "; "HEAD "; "DELETE "; "PATCH "; "OPTIONS "; "CONNECT "; "TRACE "]%string.

(** [timeout(300 ms, sock.peek(&mut [0; 8]))] *)
Inductive Peek := Peeked (b : bytes) | PeekFailed | PeekSilent.
Definition peek8 (st : Stream) : Peek :=
  match st with
  | [] | RdEof :: _ => Peeked []
  | RdBytes b :: _ => Peeked (take 8 b)
  | RdTimeout :: _ => PeekSilent
  | (RdUnexpectedEof | RdIoErr) :: _ => PeekFailed
  end.

(** ** The breaker of the [force_ip] groups, by group name *)
Definition CAMOUFLAGE_BREAKER_COOLDOWN : Z := 30 * 1000000.
Definition CAMOUFLAGE_BREAKER_MAX_ENTRIES : nat := 512.
Definition FORCE_IP_MAX_TARGETS : nat := 3.

Definition camouflage_breaker_tripped (now : Z) (m : gmap str Z) (key : str) : bool :=
  match m !! key with Some until => now <? until | None => false end.

Definition min_entry (m : gmap str Z) : option str :=
  fst <$> foldr (fun kv acc =>
    match acc with Some kv' => if snd kv <=? snd kv' then Some kv else acc | None => Some kv end) None (map_to_list m).

Definition camouflage_note_unreachable (now : Z) (m : gmap str Z) (key : str) : gmap str Z :=
  let m :=
    if (CAMOUFLAGE_BREAKER_MAX_ENTRIES <=? size m)%nat && negb (bool_decide (is_Some (m !! key))) then
      let m := filter (fun kv => now < snd kv) m in
      if (CAMOUFLAGE_BREAKER_MAX_ENTRIES <=? size m)%nat
      then match min_entry m with Some k => delete k m | None => m end else m
    else m in
  <[key := now + CAMOUFLAGE_BREAKER_COOLDOWN]> m.

Definition camouflage_note_reachable (m : gmap str Z) (key : str) : gmap str Z := delete key m.

(** ** The dispatcher *)
Record World := mkWorld {
  w_reply : str -> list bytes -> option bytes;   (* a fragmented dial *)
  w_rng : nat -> nat;
  w_now : Z; w_later : Z;
  w_fast_in_time : bool; w_order : list nat; w_write_ok : bool;
  w_resolve : str -> option (list str);          (* the DoH resolver *)
  w_connector_ok : bool;                         (* the camouflage connector could be built *)
  w_dial_ip : str -> bool;                       (* a camouflaged handshake with an address *)
  w_cert_ok : bool                               (* a leaf certificate could be minted *) }.

Inductive Route :=
| RRaw (via : option str) (st : Stream)
| RBypass (o : BypassOutcome)
| RDropped
| RNoMux
| RFull (st : Stream)
| RDrive (st : Stream)
| RCamouflage (group : FrontingGroupResolved) (ips : list str) (st : Stream)
| RSniRewrite (ip sni : str) (preface : bytes) (st : Stream)
| RDirect (winner : option DialWinner)
| RMitmRelay (st : Stream)
| RHttpRelay (scheme : str) (st : Stream).

(** The process-wide tables. *)
Record Tables := mkTables { t_bypass : Bypass; t_camouflage : gmap str Z }.

(** The first lines of [do_sni_rewrite_tunnel_from_tcp]: address and outer server name, the
    front domain being taken to be a valid server name. *)
Definition sni_rewrite_target (c : RewriteCtx) (host : str) (group : option FrontingGroupResolved) : str * str :=
  match group with
  | Some g => (fg_ip g, fg_sni g)
  | None => (default (google_ip c) (hosts_override (rc_hosts c) host), front_domain c)
  end.

Definition sni_rewrite (c : RewriteCtx) (host : str) (group : option FrontingGroupResolved) (preface : bytes) (st : Stream) : Route :=
  let '(ip, sni) := sni_rewrite_target c host group in RSniRewrite ip sni preface st.

(** [do_camouflage_tunnel] up to the acceptance of the browser's TLS: [true] when it took
    the socket, and the breaker's table. *)
Definition do_camouflage_tunnel (w : World) (m : gmap str Z) (group : FrontingGroupResolved) (ips : list str)
    : bool * gmap str Z :=
  if camouflage_breaker_tripped (w_now w) m (fg_name group) then (false, m)
  else if negb (w_connector_ok w) then (false, m)
  else
    if existsb (w_dial_ip w) (take FORCE_IP_MAX_TARGETS ips) then
      let m := camouflage_note_reachable m (fg_name group) in (w_cert_ok w, m)
    else (false, camouflage_note_unreachable (w_later w) m (fg_name group)).

(** Step 2a: a fronting group's tunnel, or what it leaves of the breaker's table. *)
Definition fronting_step (w : World) (c : RewriteCtx) (t : Tables) (host : str) (port : Z) (st : Stream)
    : option Route * Tables :=
  if negb (port =? 443) then (None, t) else
  match match_fronting_group host (fronting_groups c) with
  | None => (None, t)
  | Some g =>
    if fg_force_ip g then
      let resolved :=
        if camouflage_breaker_tripped (w_now w) (t_camouflage t) (fg_name g) then None
        else if doh_resolver c then
          match w_resolve w host with Some (ip :: ips) => Some (ip :: ips) | _ => None end
        else None in
      match resolved with
      | Some ips =>
        let '(took, m) := do_camouflage_tunnel w (t_camouflage t) g ips in
        ((if took then Some (RCamouflage g ips st) else None), mkTables (t_bypass t) m)
      | None => (None, t)
      end
    else (Some (sni_rewrite c host (Some g) [] st), t)
  end.

(** Steps 2c to 4, once no earlier step has taken the socket. *)
Definition late_route (c : RewriteCtx) (has_fronter : bool) (host : str) (port : Z) (st : Stream) : Route :=
  let via := upstream_socks5 c in
  let sanctioned := bool_decide (rc_mode c = AppsScript)
    && match direct_mode c with Some d => is_sanctioned d host | None => false end in
  if negb sanctioned && should_use_sni_rewrite (rc_hosts c) host port (youtube_via_relay c) (force_mitm_hosts c)
  then sni_rewrite c host None [] st
  else if bool_decide (rc_mode c = Direct) then RRaw via st
  else if negb has_fronter then RRaw via st
  else
    match peek8 st with
    | PeekFailed => RDropped
    | PeekSilent => RRaw via st
    | Peeked b =>
      if bool_decide (head b = Some 22) then RMitmRelay st
      else if negb (bool_decide (b = [])) && looks_like_http b
      then RHttpRelay (if port =? 443 then lit "https" else lit "http") st
      else RRaw via st
    end.

Definition continue_route (w : World) (c : RewriteCtx) (t : Tables) (has_fronter : bool) (host : str) (port : Z) (st : Stream)
    : option (res (Route * (RewriteCtx * Tables)) unit) :=
  match fronting_step w c t host port st with
  | (Some r, t) => Some (Ok (r, (c, t)))
  | (None, t) =>
    if should_take_direct_mode_branch (w_now w) port (direct_mode c) host (force_mitm_hosts c) (youtube_via_relay c) (rc_hosts c)
    then
      match direct_mode c with
      | None => Some Panic                                 (* [expect("predicate guard")] *)
      | Some d =>
        match try_tunnel (w_reply w) (w_rng w) (w_now w) (w_later w) (w_fast_in_time w) (w_order w) (w_write_ok w) st d with
        | Some (Ok (Done win, d)) => Some (Ok (RDirect win, (set_direct d c, t)))
        | Some (Ok (Skip st, d)) => Some (Ok (late_route (set_direct d c) has_fronter host port st, (set_direct d c, t)))
        | Some (Ok (SkipPrefaced preface st, d)) =>
          Some (Ok (sni_rewrite c host None preface st, (set_direct d c, t)))
        | Some (Err _) => Some (Ok (RDropped, (c, t)))
        | Some Panic => Some Panic
        | None => None
        end
      end
    else Some (Ok (late_route c has_fronter host port st, (c, t)))
  end.

(** [has_fronter], [has_mux], [has_drive]: which of the mode's handles exist. *)
Definition dispatch_tunnel (w : World) (c : RewriteCtx) (t : Tables) (has_fronter has_mux has_drive : bool)
    (host : str) (port : Z) (st : Stream) : option (res (Route * (RewriteCtx * Tables)) unit) :=
  let via := upstream_socks5 c in
  match classify_early_route host port (rc_mode c) (passthrough_hosts c) (bypass_doh_hosts c) (rc_block_doh c) (rc_bypass_doh c) with
  | PassthroughHostsMatch | BypassDoh => Some (Ok (RRaw via st, (c, t)))
  | ELocalBypass =>
    match try_local_bypass_tunnel (w_reply w) (w_rng w) (w_now w) (w_later w) (w_fast_in_time w) (w_order w) st host
            (hosts_override (rc_hosts c) host) (t_bypass t) with
    | Some (Ok (BSkip st, b)) => Some (Ok (RRaw via st, (c, mkTables b (t_camouflage t))))
    | Some (Ok (o, b)) => Some (Ok (RBypass o, (c, mkTables b (t_camouflage t))))
    | Some (Err _) => Some (Ok (RDropped, (c, t)))
    | Some Panic => Some Panic
    | None => None
    end
  | BlockDoh => Some (Ok (RDropped, (c, t)))
  | EFull => Some (Ok ((if has_mux then RFull st else RNoMux), (c, t)))
  | EDrive => Some (Ok ((if has_drive then RDrive st else RNoMux), (c, t)))
  | EContinue => continue_route w c t has_fronter host port st
  end.
