(* ===== verification/DispatchRules.v ===== *)
(** * The dispatcher, proved

    A CONNECT is always decided, the tunnel that gets the socket sees every byte the client
    sent, each mode uses only its own tunnels, and the hosts the configuration sends to the
    relay reach it. *)

From stdpp Require Import prelude gmap.
From S2P Require Import Prelude RustStr HttpText HostMatch HostRules RoutingRules.
From S2P Require Import DirectMode Fragments DirectRules BypassRules Dispatch.
#[local] Open Scope Z_scope.

(** The bytes the tunnel that takes over will read from the client. *)
Definition route_bytes (r : Route) : option bytes :=
  match r with
  | RRaw _ st | RFull st | RDrive st | RCamouflage _ _ st | RMitmRelay st | RHttpRelay _ st => Some (sent st)
  | RSniRewrite _ _ preface st => Some (preface ++ sent st)
  | RBypass (BRaw _ hello st) => Some (hello ++ sent st)
  | RBypass _ | RDropped | RNoMux | RDirect _ => None
  end.

(** The route terminates the client's TLS with a certificate of the local CA. *)
Definition takes_mitm (r : Route) : bool :=
  match r with RCamouflage _ _ _ | RSniRewrite _ _ _ _ | RMitmRelay _ => true | _ => false end.

(** The route sends requests to the Apps Script relay. *)
Definition relays (r : Route) : bool := match r with RMitmRelay _ | RHttpRelay _ _ => true | _ => false end.

(** ** Steps *)
Lemma sni_rewrite_eq c host g preface st : exists ip sni, sni_rewrite c host g preface st = RSniRewrite ip sni preface st.
Proof. unfold sni_rewrite. destruct (sni_rewrite_target c host g) as [ip sni]. eauto. Qed.

Lemma fronting_step_spec w c t host port st r t' : fronting_step w c t host port st = (r, t') ->
  t_bypass t' = t_bypass t /\
  forall r', r = Some r' -> route_bytes r' = Some (sent st) /\ takes_mitm r' = true /\ relays r' = false /\
    is_Some (match_fronting_group host (fronting_groups c)) /\ port = 443.
Proof.
  unfold fronting_step. destruct (Z.eqb_spec port 443) as [->|]; cbn [negb]; [|by intros [= <- <-]].
  destruct (match_fronting_group _ _) as [g|]; [|by intros [= <- <-]]. destruct (fg_force_ip g).
  - destruct (if camouflage_breaker_tripped _ _ _ then _ else _) as [ips|]; [|by intros [= <- <-]].
    destruct (do_camouflage_tunnel w _ g ips) as [took m]. intros [= <- <-]. split; [done|].
    destruct took; [|done]. intros r' [= <-]. split_and!; [done|done|done|by eexists|done].
  - intros [= <- <-]. split; [done|]. intros r' [= <-]. destruct (sni_rewrite_eq c host (Some g) [] st) as (ip & sni & ->).
    split_and!; [done|done|done|by eexists|done].
Qed.

Lemma late_route_spec c has_fronter host port st : let r := late_route c has_fronter host port st in
  (forall b, route_bytes r = Some b -> b = sent st) /\
  (relays r = true -> rc_mode c <> Direct /\ has_fronter = true) /\
  match r with RRaw _ _ | RDropped | RSniRewrite _ _ _ _ | RMitmRelay _ | RHttpRelay _ _ => True | _ => False end.
Proof.
  unfold late_route. destruct (negb _ && _).
  { destruct (sni_rewrite_eq c host None [] st) as (ip & sni & ->). cbn. split_and!; [by intros b [= <-]|done|done]. }
  case_bool_decide; [cbn; split_and!; [by intros b [= <-]|done|done]|].
  destruct has_fronter; cbn [negb]; [|cbn; split_and!; [by intros b [= <-]|done|done]].
  destruct (peek8 st) as [b| |]; [|by cbn; split_and!|cbn; split_and!; [by intros b [= <-]|done|done]].
  case_bool_decide; [cbn; split_and!; [by intros ? [= <-]|done|done]|].
  destruct (_ && _); cbn; split_and!; try done; by intros ? [= <-].
Qed.

(** The step after the fronting groups, with the proofs the tunnels carry. *)
Lemma continue_route_spec w c t has_fronter host port st :
  rc_mode c = AppsScript \/ rc_mode c = Direct -> bypass_ok (t_bypass t) ->
  exists r c' t', continue_route w c t has_fronter host port st = Some (Ok (r, (c', t'))) /\
    (forall b, route_bytes r = Some b -> b = sent st) /\ bypass_ok (t_bypass t') /\ rc_mode c' = rc_mode c /\
    (relays r = true -> rc_mode c = AppsScript /\ has_fronter = true) /\
    match r with RFull _ | RDrive _ | RBypass _ | RNoMux => False | _ => True end.
Proof.
  intros Hm Ht. unfold continue_route.
  assert (forall d, let r := late_route (set_direct d c) has_fronter host port st in
    relays r = true -> rc_mode c = AppsScript /\ has_fronter = true) as Hrel1.
  { intros d r Hr. destruct (late_route_spec (set_direct d c) has_fronter host port st) as (_ & H & _).
    destruct (H Hr) as [Hd ->]. change (rc_mode (set_direct d c)) with (rc_mode c) in Hd. naive_solver. }
  destruct (fronting_step w c t host port st) as [[r|] t1] eqn:Ef; apply fronting_step_spec in Ef as [Hb Hf].
  { destruct (Hf r eq_refl) as (Hr & Hmm & Hrel & _). exists r, c, t1. rewrite Hb. split_and!; [done| |done|done| |].
    - intros b. rewrite Hr. by intros [= <-].
    - by rewrite Hrel.
    - by destruct r. }
  rewrite <- Hb in Ht. clear Hf Hb.
  destruct (should_take_direct_mode_branch _ _ _ _ _ _ _) eqn:Ed.
  2: { destruct (late_route_spec c has_fronter host port st) as (H1 & H2 & H3).
       eexists _, _, _. split; [done|]. split_and!; [done|done|done| |].
       - intros [Hd ->]%H2. naive_solver.
       - by destruct (late_route c has_fronter host port st). }
  destruct (direct_mode c) as [d|]; [|by unfold should_take_direct_mode_branch in Ed; destruct (negb _) in Ed].
  destruct (try_tunnel_spec (w_reply w) (w_rng w) (w_now w) (w_later w) (w_fast_in_time w) (w_order w) (w_write_ok w) st d)
    as (o & d' & -> & Ho). destruct o as [win|st'|preface st'].
  - eexists _, _, _. split; [done|]. by split_and!.
  - destruct Ho as [-> _]. destruct (late_route_spec (set_direct d' c) has_fronter host port st) as (H1 & H2 & H3).
    eexists _, _, _. split; [done|]. split_and!; [done|done|done|apply Hrel1|]. by destruct (late_route _ _ _ _ _).
  - destruct Ho as [Hs _]. destruct (sni_rewrite_eq c host None preface st') as (ip & sni & ->).
    eexists _, _, _. split; [done|]. split_and!; [cbn; intros b [= <-]; done|done|done|done|done].
Qed.

Lemma classify_cases host port mode ph dh block bypass :
  match classify_early_route host port mode ph dh block bypass with
  | PassthroughHostsMatch => matches_passthrough host ph = true
  | BlockDoh => block = true /\ port = 443 /\ matches_doh_host host dh = true
  | BypassDoh => bypass = true /\ port = 443 /\ matches_doh_host host dh = true /\ mode <> LocalBypass
  | ELocalBypass => mode = LocalBypass
  | EFull => mode = Full
  | EDrive => mode = Drive
  | EContinue => mode = AppsScript \/ mode = Direct
  end.
Proof.
  unfold classify_early_route. destruct (matches_passthrough host ph); [done|].
  destruct (block && _ && _) eqn:Eb; [rewrite !andb_true_iff, Z.eqb_eq in Eb; tauto|].
  case_bool_decide; [done|]. destruct (bypass && _ && _) eqn:Ey; [rewrite !andb_true_iff, Z.eqb_eq in Ey; tauto|].
  case_bool_decide; [done|]. case_bool_decide; [done|]. destruct mode; auto; done.
Qed.

Lemma dispatch_spec w c t has_fronter has_mux has_drive host port st : bypass_ok (t_bypass t) ->
  exists r c' t', dispatch_tunnel w c t has_fronter has_mux has_drive host port st = Some (Ok (r, (c', t'))) /\
    (forall b, route_bytes r = Some b -> b = sent st) /\ bypass_ok (t_bypass t') /\ rc_mode c' = rc_mode c /\
    (takes_mitm r = true -> uses_mitm_ca (rc_mode c) = true) /\
    (relays r = true -> rc_mode c = AppsScript /\ has_fronter = true) /\
    match r with
    | RFull _ => rc_mode c = Full | RDrive _ => rc_mode c = Drive | RBypass _ => rc_mode c = LocalBypass
    | RNoMux => (rc_mode c = Full /\ has_mux = false) \/ (rc_mode c = Drive /\ has_drive = false)
    | RDirect _ => rc_mode c = AppsScript \/ rc_mode c = Direct | _ => True
    end.
Proof.
  intros Ht. unfold dispatch_tunnel.
  pose proof (classify_cases host port (rc_mode c) (passthrough_hosts c) (bypass_doh_hosts c) (rc_block_doh c) (rc_bypass_doh c)) as Hc.
  destruct (classify_early_route _ _ _ _ _ _ _).
  - eexists _, _, _. split; [done|]. cbn. split_and!; try done. by intros b [= <-].
  - destruct (bypass_tunnel_spec (w_reply w) (w_rng w) (w_now w) (w_later w) (w_fast_in_time w) (w_order w) st host
      (hosts_override (rc_hosts c) host) (t_bypass t) Ht) as (o & b & -> & Hb & _ & Hp).
    destruct o as [st'| |win st'|target hello st']; eexists _, _, _; (split; [done|]); cbn in Hp |- *; split_and!; try done.
    + destruct Hp as (-> & _). by intros x [= <-].
    + destruct Hp as (Hs & _). rewrite Hs. by intros x [= <-].
  - eexists _, _, _. split; [done|]. by split_and!.
  - eexists _, _, _. split; [done|]. cbn. split_and!; try done. by intros b [= <-].
  - eexists _, _, _. split; [done|]. destruct has_mux; cbn; split_and!; try done; [by intros b [= <-]|by left].
  - eexists _, _, _. split; [done|]. destruct has_drive; cbn; split_and!; try done; [by intros b [= <-]|by right].
  - destruct (continue_route_spec w c t has_fronter host port st Hc Ht) as (r & c' & t' & -> & Hb & Hbo & Hm & Hr & Hx).
    exists r, c', t'. split; [done|]. split_and!; [done|done|done| |done|by destruct r].
    intros _. destruct Hc as [-> | ->]; done.
Qed.

(** Claim C19: a CONNECT is always decided, without a panic (the [expect] on Direct Mode
    included) and with the tables kept well formed; whichever tunnel gets the socket reads
    exactly the bytes the client sent; and each mode uses only its own tunnels: the MITM CA
    only where [uses_mitm_ca] says so, the Apps Script relay only in apps_script mode, the
    multiplexer only in full mode, the Drive mailbox only in drive mode, LocalBypass only
    in its own. *)
Theorem dispatch_decides (w : World) (c : RewriteCtx) (t : Tables) (has_fronter has_mux has_drive : bool)
    (host : str) (port : Z) (st : Stream) : bypass_ok (t_bypass t) ->
  exists r c' t', dispatch_tunnel w c t has_fronter has_mux has_drive host port st = Some (Ok (r, (c', t'))) /\
    (forall b, route_bytes r = Some b -> b = sent st) /\ bypass_ok (t_bypass t') /\ rc_mode c' = rc_mode c /\
    (takes_mitm r = true -> uses_mitm_ca (rc_mode c) = true) /\
    (relays r = true -> rc_mode c = AppsScript /\ has_fronter = true) /\
    match r with
    | RFull _ => rc_mode c = Full | RDrive _ => rc_mode c = Drive | RBypass _ => rc_mode c = LocalBypass
    | RNoMux => (rc_mode c = Full /\ has_mux = false) \/ (rc_mode c = Drive /\ has_drive = false)
    | RDirect _ => rc_mode c = AppsScript \/ rc_mode c = Direct | _ => True
    end.
Proof. apply dispatch_spec. Qed.

Definition example_ctx (mode : Mode) : RewriteCtx :=
  mkRewrite (lit "1.2.3.4") (lit "www.google.com") ∅ None mode false
    [lit "youtube.com/youtubei/"] [lit "youtube.com"] false [] true false [] [] None false true true false.

Definition example_world : World :=
  mkWorld (fun _ _ => None) (fun _ => 0%nat) 0 1 true [] true (fun _ => None) true (fun _ => false) true.

Lemma empty_tables_ok : bypass_ok (mkBypassState ∅ None).
Proof. split; [split; [apply Nat.leb_le; vm_compute; reflexivity|apply map_Forall_empty]|done]. Qed.

Lemma dispatch_decides_witness :
  exists r c' t', dispatch_tunnel example_world (example_ctx Direct) (mkTables (mkBypassState ∅ None) ∅) false false false
    (lit "www.google.com") 443 [RdBytes [22; 3]] = Some (Ok (r, (c', t'))) /\ r = RSniRewrite (lit "1.2.3.4") (lit "www.google.com") [] [RdBytes [22; 3]].
Proof.
  destruct (dispatch_decides example_world (example_ctx Direct) (mkTables (mkBypassState ∅ None) ∅) false false false
    (lit "www.google.com") 443 [RdBytes [22; 3]] empty_tables_ok) as (r & c' & t' & H & _).
  exists r, c', t'. split; [exact H|]. vm_compute in H. injection H as <- _ _. reflexivity.
Defined.

(** ** Precedence *)

(** The global policies come first.  A host of [passthrough_hosts] is always
    connected raw, whatever the mode, and nothing else happens; with [block_doh] any other
    connection to a DoH endpoint on port 443 is dropped in every mode, LocalBypass
    included; and a DoH endpoint is bypassed only when the mode is not LocalBypass. *)
Theorem dispatch_policies (w : World) (c : RewriteCtx) (t : Tables) (has_fronter has_mux has_drive : bool)
    (host : str) (port : Z) (st : Stream) :
  let d := dispatch_tunnel w c t has_fronter has_mux has_drive host port st in
  (matches_passthrough host (passthrough_hosts c) = true -> d = Some (Ok (RRaw (upstream_socks5 c) st, (c, t)))) /\
  (matches_passthrough host (passthrough_hosts c) = false -> rc_block_doh c = true -> port = 443 ->
     matches_doh_host host (bypass_doh_hosts c) = true -> d = Some (Ok (RDropped, (c, t)))) /\
  (matches_passthrough host (passthrough_hosts c) = false -> rc_block_doh c = false -> rc_bypass_doh c = true ->
     port = 443 -> matches_doh_host host (bypass_doh_hosts c) = true -> rc_mode c <> LocalBypass ->
     d = Some (Ok (RRaw (upstream_socks5 c) st, (c, t)))).
Proof.
  cbn zeta. unfold dispatch_tunnel, classify_early_route. split_and!.
  - by intros ->.
  - intros -> -> -> ->. done.
  - intros -> -> -> -> -> Hm. cbn [andb]. by rewrite bool_decide_eq_false_2.
Qed.

Lemma dispatch_policies_witness :
  dispatch_tunnel example_world
    (mkRewrite [] [] ∅ None LocalBypass false [] [] false [] true true [] [] None false true true false)
    (mkTables (mkBypassState ∅ None) ∅) false false false (lit "dns.google") 443 [] =
  Some (Ok (RDropped, (mkRewrite [] [] ∅ None LocalBypass false [] [] false [] true true [] [] None false true true false,
                       mkTables (mkBypassState ∅ None) ∅))).
Proof.
  apply (dispatch_policies example_world (mkRewrite [] [] ∅ None LocalBypass false [] [] false [] true true [] [] None false true true false)
           (mkTables (mkBypassState ∅ None) ∅) false false false (lit "dns.google") 443 []).
  - reflexivity.
  - reflexivity.
  - reflexivity.
  - vm_compute. reflexivity.
Defined.

(** ** Hosts meant for the relay *)

(** The three ways the configuration sends a Google host to the relay: its patterns pull it
    out of SNI-rewrite, YouTube is relayed as a whole, or Google refuses the user's country. *)
Inductive relay_host (c : RewriteCtx) (host : str) : Prop :=
| relay_forced : host_in_force_mitm_list host (force_mitm_hosts c) = true -> relay_host c host
| relay_youtube : youtube_via_relay c = true -> host_matches_youtube_relay host = true ->
    hosts_override (rc_hosts c) host = None -> relay_host c host
| relay_sanctioned d : direct_mode c = Some d -> is_sanctioned d host = true -> relay_host c host.

Lemma relay_host_not_direct now port c host : relay_host c host ->
  should_take_direct_mode_branch now port (direct_mode c) host (force_mitm_hosts c) (youtube_via_relay c) (rc_hosts c) = false.
Proof.
  unfold should_take_direct_mode_branch. destruct (negb _); [done|]. destruct (direct_mode c) as [d|] eqn:Ed; [|done].
  intros [Hf|Hy Hm Ho|d' Hd Hs].
  - by rewrite Hf.
  - rewrite Hy, Hm. by destruct (host_in_force_mitm_list _ _).
  - rewrite Ed in Hd. injection Hd as <-. destruct (host_in_force_mitm_list _ _); [done|]. destruct (_ && _); [done|].
    case_bool_decide; [done|]. replace (is_direct now d host) with false; [done|]. symmetry.
    unfold is_direct. destruct (negb _); [done|]. destruct (breaker_tripped _ _); [done|].
    unfold is_google_domain, is_sanctioned in *. case_bool_decide; [done|]. by rewrite Hs.
Qed.

Lemma relay_host_not_sni c host port : rc_mode c = AppsScript -> relay_host c host ->
  negb (bool_decide (rc_mode c = AppsScript) && match direct_mode c with Some d => is_sanctioned d host | None => false end)
  && should_use_sni_rewrite (rc_hosts c) host port (youtube_via_relay c) (force_mitm_hosts c) = false.
Proof.
  intros Hm. rewrite bool_decide_eq_true_2 by done. intros [Hf|Hy Hyt Ho|d Hd Hs]; cbn [andb].
  - apply andb_false_intro2. unfold should_use_sni_rewrite. rewrite Hf. by destruct (negb _).
  - apply andb_false_intro2. unfold should_use_sni_rewrite. destruct (negb _); [done|].
    destruct (host_in_force_mitm_list _ _); [done|]. rewrite Ho, bool_decide_eq_false_2, orb_false_r by (by intros [? [=]]).
    apply not_true_iff_false. rewrite matches_sni_rewrite_spec. apply youtube_relay_spec in Hyt. naive_solver.
  - rewrite Hd, Hs. done.
Qed.

(** In apps_script mode a host meant for the relay (pulled out by a URL pattern,
    relayed as part of YouTube and not overridden in [hosts], or geo-blocked) and not
    claimed by a global policy or a fronting group is never tunnelled around the relay: a
    client that opens with TLS is handed, its stream untouched, to the MITM relay, and one
    that speaks plain HTTP to the HTTP relay. *)
Theorem relay_hosts_reach_relay (w : World) (c : RewriteCtx) (t : Tables) (has_mux has_drive : bool)
    (host : str) (port : Z) (st : Stream) (b : bytes) :
  rc_mode c = AppsScript -> relay_host c host ->
  classify_early_route host port (rc_mode c) (passthrough_hosts c) (bypass_doh_hosts c) (rc_block_doh c) (rc_bypass_doh c) = EContinue ->
  match_fronting_group host (fronting_groups c) = None -> peek8 st = Peeked b ->
  let d := dispatch_tunnel w c t true has_mux has_drive host port st in
  (head b = Some 22 -> d = Some (Ok (RMitmRelay st, (c, t)))) /\
  (looks_like_http b = true -> exists scheme, d = Some (Ok (RHttpRelay scheme st, (c, t)))).
Proof.
  intros Hm Hr Hc Hg Hp d.
  assert (d = Some (Ok (late_route c true host port st, (c, t)))) as ->.
  { unfold d, dispatch_tunnel. rewrite Hc. unfold continue_route, fronting_step. rewrite Hg.
    assert ((if negb (port =? 443) then (@None Route, t) else (None, t)) = (None, t)) as -> by by destruct (negb _).
    by rewrite relay_host_not_direct. }
  assert (late_route c true host port st =
    if bool_decide (head b = Some 22) then RMitmRelay st
    else if negb (bool_decide (b = [])) && looks_like_http b
    then RHttpRelay (if port =? 443 then lit "https" else lit "http") st
    else RRaw (upstream_socks5 c) st) as ->.
  { unfold late_route. rewrite (relay_host_not_sni c host port Hm Hr).
    rewrite (bool_decide_eq_false_2 (rc_mode c = Direct)) by congruence. cbn [negb]. by rewrite Hp. }
  split.
  - intros Hh. by rewrite bool_decide_eq_true_2.
  - intros Hl. destruct b as [|x b]; [done|]. rewrite bool_decide_eq_false_2, Hl.
    + rewrite bool_decide_eq_false_2 by done. by eexists.
    + cbn. intros [= ->]. done.
Qed.

Lemma relay_hosts_reach_relay_witness :
  dispatch_tunnel example_world (example_ctx AppsScript) (mkTables (mkBypassState ∅ None) ∅) true false false
    (lit "www.youtube.com") 443 [RdBytes [22; 3]]
  = Some (Ok (RMitmRelay [RdBytes [22; 3]], (example_ctx AppsScript, mkTables (mkBypassState ∅ None) ∅))).
Proof.
  apply (relay_hosts_reach_relay example_world (example_ctx AppsScript) (mkTables (mkBypassState ∅ None) ∅) false false
           (lit "www.youtube.com") 443 [RdBytes [22; 3]] [22; 3]).
  - reflexivity.
  - apply relay_forced. vm_compute. reflexivity.
  - vm_compute. reflexivity.
  - reflexivity.
  - reflexivity.
  - reflexivity.
Defined.
