(* ===== verification/RequestRead.v ===== *)
(** * src/proxy_server.rs: reading a client's request

    The head up to its blank line and within 64 KiB, the request line and headers, and the
    body: none, [Content-Length] bytes or chunks, within 32 MiB.  The stream is the one of
    [HttpText]; these reads have no deadline, so a stall is not one of its events. *)

From stdpp Require Import prelude.
From S2P Require Import Prelude RustStr HttpText HttpRead.
#[local] Open Scope Z_scope.

Definition MAX_HEADER_BYTES : Z := 64 * 1024.
Definition MAX_REQUEST_BODY_BYTES : Z := 32 * 1024 * 1024.

Inductive HeadReadResult := HeadGot (head leftover : bytes) | HeadClosed | HeadOversized.

(** [FileTooLarge] is the one kind of error the callers tell apart. *)
Inductive ReqErr := ReqHttp (e : HttpErr) | ReqTooLarge.

Definition invalid_body {A} (m : str) : res A ReqErr := Err (ReqHttp (HBad m)).

(** The position after the first blank line, as the text before it and after it. *)
Definition find_headers_end (buf : bytes) : option (bytes * bytes) :=
  prod_map (fun h => h ++ CRLF2) id <$> split_once CRLF2 buf.

(** [read_http_head] and [read_http_head_io], which differ only in the stream's type. *)
Fixpoint read_http_head (fuel : nat) (buf : bytes) (st : Stream) : option (res (HeadReadResult * Stream) ReqErr) :=
  match fuel with
  | O => None
  | S fuel =>
    match read (Z.to_nat 4096) st with
    | (Got [], st) =>
      Some (if bool_decide (buf = []) then Ok (HeadClosed, st) else Err (ReqHttp (HBad (lit "EOF mid-header"))))
    | (Got b, st) =>
      let buf := buf ++ b in
      match find_headers_end buf with
      | Some (head, leftover) => Some (Ok (HeadGot head leftover, st))
      | None => if MAX_HEADER_BYTES <? len buf then Some (Ok (HeadOversized, st)) else read_http_head fuel buf st
      end
    | _ => Some (Err (ReqHttp HIo))
    end
  end.

Definition is_valid_http_method (m : str) : bool :=
  existsb (fun v => bool_decide (m = lit v))
    ["GET"; "POST"; "PUT"; "DELETE"; "HEAD"; "OPTIONS"; "PATCH"; "TRACE"; "CONNECT"]%string.

(** The loop over the lines after the first, up to an empty one. *)
Fixpoint request_headers (lines : list str) : headers_t :=
  match lines with
  | [] => []
  | l :: lines => if bool_decide (l = []) then [] else header_pair l ++ request_headers lines
  end.

Definition ParsedRequestHead : Type := str * str * str * headers_t.

(** [splitn(3, ' ')] *)
Definition request_line (first : str) : option (str * str * str) :=
  '(method, rest) ← split_once [32] first;
  Some (match split_once [32] rest with
        | Some (target, version) => (method, target, version)
        | None => (method, rest, lit "HTTP/1.1")
        end).

Definition parse_request_head (head : bytes) : option ParsedRequestHead :=
  s ← from_utf8 head;
  match split_pat (length s) CRLF s with
  | [] => None
  | first :: lines =>
    '(method, target, version) ← request_line first;
    if negb (is_valid_http_method method) then None
    else Some (method, target, version, request_headers lines)
  end.

(** [v.split(',').any(|part| part.trim().eq_ignore_ascii_case(tok))] *)
Definition has_token (v tok : str) : bool := existsb (fun part => eq_ignore_ascii_case (trim part) tok) (split_on 44 v).

Definition expects_100_continue (headers : headers_t) : bool :=
  match find_header headers (lit "expect") with Some v => has_token v (lit "100-continue") | None => false end.

Abbreviation BODY_READ := (Z.to_nat 8192) (only parsing).
Abbreviation BODY_EOF := "EOF in chunked body"%string (only parsing).

(** [while body.len() < content_length]: what a read brings past the length is dropped. *)
Fixpoint read_length_body (fuel : nat) (cl : Z) (body : bytes) (st : Stream) : option (res (bytes * Stream) ReqErr) :=
  if cl <=? len body then Some (Ok (body, st)) else
  match fuel with
  | O => None
  | S fuel =>
    match read_more BODY_READ false "EOF mid-body" st with
    | Ok (b, st) => read_length_body fuel cl (body ++ take (Z.to_nat (Z.min (len b) (cl - len body))) b) st
    | Err e => Some (Err (ReqHttp e))
    | Panic => Some Panic
    end
  end.

(** The chunk in [buf]; a range past the buffer panics. *)
Definition cut_request_chunk (size : Z) (buf : bytes) : res (bytes * bytes) ReqErr :=
  if len buf <? size + 2 then Panic
  else if negb (bool_decide (take 2 (drop (Z.to_nat size) buf) = CRLF)) then invalid_body (lit "chunk missing trailing CRLF")
  else Ok (take (Z.to_nat size) buf, drop (Z.to_nat (size + 2)) buf).

Fixpoint read_chunked_request_body (fuel : nat) (out buf : bytes) (st : Stream) : option (res (bytes * Stream) ReqErr) :=
  match fuel with
  | O => None
  | S fuel =>
    match read_crlf_line BODY_READ BODY_EOF (S (stream_size st)) buf st with
    | Some (Ok ((line, buf), st)) =>
      if bool_decide (line = []) then read_chunked_request_body fuel out buf st else
      match from_utf8 line with
      | None => Some (invalid_body (lit "non-utf8 chunk size line"))
      | Some l =>
        let l := trim l in
        match parse_hex (default [] (head (split_on 59 l))) with
        | None => Some (invalid_body (lit "bad chunk size '" ++ l ++ lit "'"))
        | Some size =>
          if size =? 0 then
            match read_trailer BODY_READ BODY_EOF (S (length buf + stream_size st)) buf st with
            | Some (Ok (_, st)) => Some (Ok (out, st))
            | Some (Err e) => Some (Err (ReqHttp e))
            | Some Panic => Some Panic
            | None => None
            end
          else
            match checked_add_u64 (len out) size with
            | None => Some (Err ReqTooLarge)
            | Some total =>
              if MAX_REQUEST_BODY_BYTES <? total then Some (Err ReqTooLarge) else
              match checked_add_u64 size 2 with
              | None => Some (invalid_body (lit "chunk too large '" ++ l ++ lit "'"))
              | Some want =>
                match fill BODY_READ false BODY_EOF (S (stream_size st)) want buf st with
                | Some (Ok (buf, st)) =>
                  match cut_request_chunk size buf with
                  | Ok (data, buf) => read_chunked_request_body fuel (out ++ data) buf st
                  | Err e => Some (Err e)
                  | Panic => Some Panic
                  end
                | Some (Err e) => Some (Err (ReqHttp e))
                | Some Panic => Some Panic
                | None => None
                end
              end
            end
        end
      end
    | Some (Err e) => Some (Err (ReqHttp e))
    | Some Panic => Some Panic
    | None => None
    end
  end.

(** How a body is framed, or why it is refused. *)
Inductive Framing := NoBody | LengthBody (n : Z) | ChunkedBody.

Definition framing (headers : headers_t) : res Framing ReqErr :=
  let te := find_header headers (lit "transfer-encoding") in
  let chunked := match te with Some v => has_token v (lit "chunked") | None => false end in
  let? cl := match find_header headers (lit "content-length") with
    | Some v => match parse_u64 v with Some n => Ok (Some n) | None => invalid_body (lit "invalid Content-Length: " ++ v) end
    | None => Ok None
    end in
  match te with
  | Some v => if negb chunked then invalid_body (lit "unsupported Transfer-Encoding: " ++ v) else
    match cl with
    | Some _ => invalid_body (lit "both Transfer-Encoding: chunked and Content-Length are present")
    | None => Ok ChunkedBody
    end
  | None => match cl with Some n => Ok (LengthBody n) | None => Ok NoBody end
  end.

Definition continue_line : bytes := lit "HTTP/1.1 100 Continue" ++ CRLF2.

(** The bytes written to the client before the body is read, and the body. *)
Definition read_request_body (leftover : bytes) (headers : headers_t) (st : Stream)
    : bytes * option (res (bytes * Stream) ReqErr) :=
  match framing headers with
  | Err e => ([], Some (Err e))
  | Panic => ([], Some Panic)
  | Ok f =>
    let wrote := if expects_100_continue headers then match f with NoBody => [] | _ => continue_line end else [] in
    (wrote,
     match f with
     | ChunkedBody => read_chunked_request_body (S (length leftover + stream_size st)) [] leftover st
     | NoBody => Some (Ok ([], st))
     | LengthBody n =>
       if MAX_REQUEST_BODY_BYTES <? n then Some (Err ReqTooLarge)
       else read_length_body (S (stream_size st)) n (take (Z.to_nat (Z.min (len leftover) n)) leftover) st
     end)
  end.

(** * The reading of requests, proved

    The readers always return and never panic, buffer no more than their limits, and give
    back the head and the body whatever the sizes of the reads; what follows the body in
    the same read is lost. *)

(** ** Totality and bounds *)
Lemma read_http_head_total fuel buf st : (stream_size st < fuel)%nat ->
  exists r, read_http_head fuel buf st = Some r /\ r <> Panic.
Proof.
  revert buf st. induction fuel as [|fuel IH]; intros buf st Hf; [lia|]. cbn [read_http_head].
  destruct (read (Z.to_nat 4096) st) as [[[|x b]| | |] st'] eqn:E; try (by eexists).
  - eexists. split; [done|]. by case_bool_decide.
  - apply read_size in E; [|done]. cbn [length] in E. destruct (find_headers_end _) as [[h l]|]; [by eexists|].
    destruct (_ <? _); [by eexists|]. apply IH. lia.
Qed.

Lemma read_http_head_bound fuel buf st head leftover st' : len buf <= MAX_HEADER_BYTES ->
  read_http_head fuel buf st = Some (Ok (HeadGot head leftover, st')) -> len head + len leftover <= MAX_HEADER_BYTES + 4096.
Proof.
  revert buf st. induction fuel as [|fuel IH]; intros buf st Hb; cbn [read_http_head]; [done|].
  destruct (read (Z.to_nat 4096) st) as [[[|x b]| | |] st1] eqn:E; try done; [by case_bool_decide|].
  assert (len (x :: b) <= 4096) as Hlen.
  { unfold read in E. destruct st as [|[y| | | |] st]; try done. destruct (Nat.leb_spec (length y) (Z.to_nat 4096)); injection E as E <-.
    - subst y. unfold len. lia.
    - rewrite <- E. unfold len. rewrite length_take. lia. }
  unfold find_headers_end. destruct (split_once CRLF2 _) as [[h l]|] eqn:Es; cbn [fmap option_fmap option_map prod_map].
  - intros [= <- <- <-]. apply split_once_Some in Es. rewrite <- len_app. cbn [id]. rewrite <- app_assoc, <- Es, len_app. lia.
  - destruct (Z.ltb_spec MAX_HEADER_BYTES (len (buf ++ x :: b))); [done|]. intros H0. eapply IH; [|exact H0]. lia.
Qed.

Lemma read_length_body_total fuel cl body st : (stream_size st < fuel)%nat ->
  exists r, read_length_body fuel cl body st = Some r /\ r <> Panic.
Proof.
  revert body st. induction fuel as [|fuel IH]; intros body st Hf; [lia|]. cbn [read_length_body].
  destruct (cl <=? len body); [by eexists|]. next_read Hb; [|by eexists]. apply length_nonempty in H. apply IH. lia.
Qed.

Lemma read_length_body_len fuel cl body st b st' : len body <= cl ->
  read_length_body fuel cl body st = Some (Ok (b, st')) -> len b = cl.
Proof.
  revert body st. induction fuel as [|fuel IH]; intros body st Hl; cbn [read_length_body];
    destruct (Z.leb_spec cl (len body)); try done; [by intros [= <- <-]; lia|by intros [= <- <-]; lia|].
  next_read Hb; [|done]. apply IH. rewrite len_app. pose proof (len_nonneg b0). unfold len in *. rewrite length_take. lia.
Qed.

Lemma read_crlf_line_not_panic want eof fuel buf st : read_crlf_line want eof fuel buf st <> Some Panic.
Proof.
  revert buf st. induction fuel as [|fuel IH]; intros buf st; cbn [read_crlf_line]; destruct (split_once CRLF buf); try done.
  next_read Hb; [apply IH|done].
Qed.

Lemma fill_not_panic want lenient eof fuel limit buf st : fill want lenient eof fuel limit buf st <> Some Panic.
Proof.
  revert buf st. induction fuel as [|fuel IH]; intros buf st; cbn [fill]; destruct (limit <=? len buf); try done.
  next_read Hb; [apply IH|done].
Qed.

Lemma read_trailer_not_panic want eof fuel buf st : read_trailer want eof fuel buf st <> Some Panic.
Proof.
  revert buf st. induction fuel as [|fuel IH]; intros buf st; cbn [read_trailer]; [done|].
  pose proof (read_crlf_line_not_panic want eof (S (stream_size st)) buf st).
  destruct (read_crlf_line _ _ _ _ _) as [[[[[|] ?] ?]| |]|]; try done; apply IH.
Qed.

Lemma checked_add_Some a b c : checked_add_u64 a b = Some c -> c = a + b.
Proof. unfold checked_add_u64. destruct (_ <=? _); [by intros [= <-]|done]. Qed.

Lemma hex_digits_nonneg acc s n : 0 <= acc -> hex_digits acc s = Some n -> 0 <= n.
Proof.
  revert acc. induction s as [|c s IH]; intros acc Ha; cbn; [by intros [= <-]|].
  destruct (hex_digit c) as [d|] eqn:Ed; cbn; [|done]. destruct (_ <=? _); [|done]. apply IH.
  unfold hex_digit, between in Ed. repeat case_match; simplify_eq; lia.
Qed.

Lemma parse_hex_nonneg s n : parse_hex s = Some n -> 0 <= n.
Proof.
  unfold parse_hex. destruct s as [|c s]; [done|]. destruct (c =? 43); [destruct s; [done|]|]; by apply hex_digits_nonneg.
Qed.

Lemma chunked_request_ok fuel out buf st : (length buf + stream_size st < fuel)%nat -> len out <= MAX_REQUEST_BODY_BYTES ->
  exists r, read_chunked_request_body fuel out buf st = Some r /\ r <> Panic /\
    forall b st', r = Ok (b, st') -> len b <= MAX_REQUEST_BODY_BYTES.
Proof.
  revert out buf st. induction fuel as [|fuel IH]; intros out buf st Hf Ho; [lia|]. cbn [read_chunked_request_body].
  destruct (read_crlf_line_total BODY_READ BODY_EOF (S (stream_size st)) buf st) as [r Hr]; [lia|]. rewrite Hr.
  destruct r as [[[line buf1] st1]|e|]; [|by eexists|by apply read_crlf_line_not_panic in Hr].
  apply read_crlf_line_size in Hr. case_bool_decide; [apply IH; [lia|done]|].
  destruct (from_utf8 line) as [l|]; [|by eexists]. destruct (parse_hex _) as [size|] eqn:Ep; [|by eexists].
  apply parse_hex_nonneg in Ep. destruct (size =? 0).
  - destruct (read_trailer_total BODY_READ BODY_EOF (S (length buf1 + stream_size st1)) buf1 st1) as [t Ht]; [lia|]. rewrite Ht.
    destruct t as [[? ?]|?|]; [|by eexists|by apply read_trailer_not_panic in Ht].
    eexists. split_and!; [done|done|]. by intros b st' [= <- <-].
  - destruct (checked_add_u64 (len out) size) as [total|] eqn:Et; [|by eexists]. apply checked_add_Some in Et.
    destruct (Z.ltb_spec MAX_REQUEST_BODY_BYTES total); [by eexists|].
    destruct (checked_add_u64 size 2) as [want|] eqn:Ew; [|by eexists]. apply checked_add_Some in Ew.
    destruct (fill_total BODY_READ false BODY_EOF (S (stream_size st1)) want buf1 st1) as [t Ht]; [lia|]. rewrite Ht.
    destruct t as [[buf2 st2]|?|]; [|by eexists|by apply fill_not_panic in Ht]. apply fill_size in Ht as [Hsz Hl].
    unfold cut_request_chunk. destruct (Z.ltb_spec (len buf2) (size + 2)); [lia|].
    destruct (negb _); [by eexists|]. apply IH.
    + rewrite length_drop. unfold len in *. lia.
    + rewrite len_app. unfold len in *. rewrite length_take. lia.
Qed.

Lemma framing_not_panic headers : framing headers <> Panic.
Proof.
  unfold framing. set (cl := match find_header headers (lit "content-length") with Some _ => _ | None => _ end).
  assert (cl <> Panic) by (subst cl; repeat case_match; done).
  destruct cl; cbn [res_bind]; repeat case_match; done.
Qed.

Lemma framing_length headers n : framing headers = Ok (LengthBody n) -> 0 <= n.
Proof.
  unfold framing. destruct (find_header headers (lit "content-length")) as [v|]; cbn [res_bind].
  - destruct (parse_u64 v) as [m|] eqn:E; cbn [res_bind]; [|done]. apply parse_uint_bound in E; [|done].
    repeat case_match; intros [=]; subst; lia.
  - repeat case_match; done.
Qed.

Lemma request_body_ok leftover headers st :
  exists r, snd (read_request_body leftover headers st) = Some r /\ r <> Panic /\
    forall body st', r = Ok (body, st') -> len body <= MAX_REQUEST_BODY_BYTES.
Proof.
  unfold read_request_body. pose proof (framing_not_panic headers). destruct (framing headers) as [[|n|]|e|] eqn:Ef; [..|done]; cbn [snd].
  - eexists. split_and!; [done|done|]. by intros body st' [= <- <-].
  - destruct (Z.ltb_spec MAX_REQUEST_BODY_BYTES n); [by eexists|].
    destruct (read_length_body_total (S (stream_size st)) n (take (Z.to_nat (Z.min (len leftover) n)) leftover) st)
      as (r & Hr & Hp); [lia|]. exists r. split_and!; [done|done|]. intros body st' ->.
    apply framing_length in Ef. apply read_length_body_len in Hr; [lia|]. unfold len. rewrite length_take. lia.
  - apply chunked_request_ok; [lia|done].
  - by eexists.
Qed.

(** Reading a request always returns, never slices out of range, and never holds
    more than its limits: a head with what was read beyond it stays within 64 KiB and one
    read, a body within 32 MiB, whatever the client sends and however it is cut. *)
Theorem request_reader_bounded (st : Stream) (leftover : bytes) (headers : headers_t) :
  (exists r, read_http_head (S (stream_size st)) [] st = Some r /\ r <> Panic /\
     forall head rest st', r = Ok (HeadGot head rest, st') -> len head + len rest <= MAX_HEADER_BYTES + 4096) /\
  (exists r, snd (read_request_body leftover headers st) = Some r /\ r <> Panic /\
     forall body st', r = Ok (body, st') -> len body <= MAX_REQUEST_BODY_BYTES).
Proof.
  split.
  - destruct (read_http_head_total (S (stream_size st)) [] st) as (r & Hr & Hn); [lia|]. exists r. split_and!; [done|done|].
    intros head rest st' ->. eapply read_http_head_bound; [|exact Hr]. done.
  - apply request_body_ok.
Qed.

(** ** Any segmentation *)
Lemma read_http_head_spec fuel buf st head rest : (stream_size st < fuel)%nat -> only_bytes st ->
  split_once CRLF2 buf = None -> split_once CRLF2 (buf ++ flat st) = Some (head, rest) -> len head + 4 <= MAX_HEADER_BYTES ->
  exists leftover st', read_http_head fuel buf st = Some (Ok (HeadGot (head ++ CRLF2) leftover, st')) /\
    rest = leftover ++ flat st' /\ only_bytes st'.
Proof.
  revert buf st. induction fuel as [|fuel IH]; intros buf st Hf Ho Hn Hs Hlen; [lia|]. cbn [read_http_head].
  destruct (read_more_bytes (Z.to_nat 4096) false "" st) as (b & st' & E & Hb & _ & Hfl & Ho');
    [done|by eapply flat_rest|lia|]. unfold read_more in E.
  destruct (read (Z.to_nat 4096) st) as [[[|x b']| | |] st1] eqn:Er; try done. injection E as <- ->.
  apply read_size in Er; [|done]. cbn [length] in Er. rewrite Hfl, app_assoc in Hs. unfold find_headers_end.
  destruct (split_once CRLF2 (buf ++ x :: b')) as [[h r]|] eqn:Es; cbn [fmap option_fmap option_map prod_map].
  - pose proof (split_once_app _ _ (flat st') _ _ Es) as H. rewrite Hs in H. injection H as -> ->. by exists r, st'.
  - assert (len (buf ++ x :: b') < len head + 4) as Hsmall.
    { destruct (Z.le_gt_cases (len head + 4) (len (buf ++ x :: b'))) as [Hge|]; [|lia].
      destruct (split_once_prefix CRLF2 (buf ++ x :: b') (flat st') head rest Hs) as (r0 & H & _); [|congruence].
      unfold len in Hge. unfold CRLF2. cbn [length]. lia. }
    destruct (Z.ltb_spec MAX_HEADER_BYTES (len (buf ++ x :: b'))); [lia|]. apply IH; [lia|done..].
Qed.

Lemma read_length_body_spec fuel cl body st : (stream_size st < fuel)%nat -> only_bytes st ->
  len body <= cl <= len (body ++ flat st) ->
  exists st', read_length_body fuel cl body st = Some (Ok (take (Z.to_nat cl) (body ++ flat st), st')).
Proof.
  revert body st. induction fuel as [|fuel IH]; intros body st Hf Ho Hl; [lia|]. cbn [read_length_body].
  rewrite len_app in Hl. unfold len in Hl. destruct (Z.leb_spec cl (len body)) as [Hle|Hgt].
  - unfold len in Hle. exists st. rewrite take_app_length' by lia. done.
  - unfold len in Hgt. destruct (read_more_bytes BODY_READ false "EOF mid-body" st) as (b & st' & E & Hb & Hw & Hfl & Ho').
    { done. } { intros H. rewrite H in Hl. cbn in Hl. lia. } { lia. }
    rewrite E. apply read_more_size in E as [_ Hsz]. apply length_nonempty in Hb.
    rewrite Hfl, length_app in Hl. destruct (Z.le_gt_cases (len b) (cl - len body)) as [Hfit|Hover].
    + rewrite Z.min_l by done. unfold len at 1. rewrite Nat2Z.id, take_ge by done.
      destruct (IH (body ++ b) st') as (st2 & H1); [lia|done| |].
      { rewrite !len_app. unfold len in *. lia. }
      exists st2. by rewrite Hfl, app_assoc.
    + rewrite Z.min_r by lia. exists st'. set (k := Z.to_nat (cl - len body)).
      assert (read_length_body fuel cl (body ++ take k b) st' = Some (Ok (body ++ take k b, st'))) as ->.
      { assert (cl <=? len (body ++ take k b) = true) as Hle.
        { apply Z.leb_le. rewrite len_app. unfold k, len in *. rewrite length_take. lia. }
        destruct fuel; cbn [read_length_body]; by rewrite Hle. }
      do 3 f_equal. rewrite Hfl, take_app_ge by (unfold len in *; lia).
      rewrite take_app_le by (unfold len in *; lia). do 2 f_equal. unfold k, len. lia.
Qed.

Lemma request_chunk_spec c rest buf st : buf ++ flat st = c ++ CRLF ++ rest -> len c + 2 <= len buf -> len c + 2 < 2 ^ 64 ->
  exists buf', cut_request_chunk (len c) buf = Ok (c, buf') /\ buf' ++ flat st = rest.
Proof.
  intros Hb Hl Hs. destruct (cut_chunk_spec c rest buf st Hs Hb Hl) as (buf' & Hc & Hr). exists buf'. split; [|done].
  unfold cut_chunk in Hc. pose proof (len_nonneg c). rewrite wrap_small in Hc by lia. unfold cut_request_chunk.
  destruct (Z.ltb_spec (len c + 2) (len c)); [lia|]. destruct (len buf <? len c + 2); [done|]. cbn [orb] in Hc.
  destruct (negb _); [done|]. by injection Hc as -> ->.
Qed.

Lemma trim_nil : trim [] = [].
Proof. reflexivity. Qed.

Lemma read_chunked_request_spec body text : chunked body text -> forall fuel out buf st rest,
  (length buf + stream_size st < fuel)%nat -> only_bytes st -> buf ++ flat st = text ++ rest ->
  len out + len body <= MAX_REQUEST_BODY_BYTES ->
  exists st', read_chunked_request_body fuel out buf st = Some (Ok (out ++ body, st')).
Proof.
  induction 1 as [line [Hcr (l & Hu & Ht & Hp)]|line c body text [Hcr (l & Hu & Ht & Hp)] Hc Hsmall _ IH];
    intros fuel out buf st rest Hf Ho Hb Hmax; (destruct fuel as [|fuel]; [lia|]); cbn [read_chunked_request_body];
    rewrite <- !app_assoc in Hb;
    (assert (line <> []) as Hne by (intros ->; cbn in Hu; injection Hu as <-; by rewrite trim_nil in Ht)).
  - destruct (read_crlf_line_spec BODY_READ BODY_EOF (S (stream_size st)) buf st line (CRLF ++ rest)) as (b1 & st1 & E & Hb1 & Ho1);
      [lia|lia|done|rewrite Hb; by apply split_once_crlf|]. rewrite E, bool_decide_false, Hu, Hp by done. cbn [Z.eqb].
    destruct (read_trailer_spec BODY_READ BODY_EOF (S (length b1 + stream_size st1)) b1 st1 rest) as (st2 & ->); [lia|lia|done|done|].
    exists st2. by rewrite app_nil_r.
  - destruct (read_crlf_line_spec BODY_READ BODY_EOF (S (stream_size st)) buf st line (c ++ CRLF ++ text ++ rest)) as (b1 & st1 & E & Hb1 & Ho1);
      [lia|lia|done|rewrite Hb; by apply split_once_crlf|].
    apply read_crlf_line_size in E as Hsz. rewrite E, bool_decide_false, Hu, Hp by done.
    pose proof (length_nonempty _ Hc) as Hpos. destruct (Z.eqb_spec (len c) 0) as [H0|_]; [unfold len in H0; lia|].
    pose proof (len_nonneg c). pose proof (len_nonneg body). pose proof (len_nonneg out). rewrite len_app in Hmax.
    unfold checked_add_u64. unfold MAX_REQUEST_BODY_BYTES, u64_max in *.
    destruct (Z.leb_spec (len out + len c) (2 ^ 64 - 1)); [|lia].
    destruct (Z.ltb_spec (32 * 1024 * 1024) (len out + len c)); [lia|].
    destruct (Z.leb_spec (len c + 2) (2 ^ 64 - 1)); [|lia].
    destruct (fill_spec BODY_READ false BODY_EOF (S (stream_size st1)) (len c + 2) b1 st1) as (b2 & st2 & E2 & Hb2 & Hl2 & Ho2); [lia|lia|done| |].
    { rewrite Hb1. unfold len. rewrite !length_app. cbn [length CRLF]. lia. }
    apply fill_size in E2 as Hsz2. rewrite E2. rewrite Hb1 in Hb2.
    destruct (request_chunk_spec c (text ++ rest) b2 st2 Hb2 Hl2 Hsmall) as (b3 & E3 & Hb3). rewrite E3.
    rewrite app_assoc. eapply IH; [|done|exact Hb3|rewrite len_app; lia].
    assert (length b3 + 2 <= length b2)%nat; [|lia].
    unfold cut_request_chunk in E3. destruct (_ <? _); [done|]. destruct (negb _); [done|]. injection E3 as _ <-.
    rewrite length_drop. unfold len in *. lia.
Qed.

(** The request says nothing of the header; or says this first (case does not count). *)
Definition absent (hs : headers_t) (name : string) : Prop := Forall (fun kv => eq_ignore_ascii_case (fst kv) (lit name) = false) hs.
Definition says (hs : headers_t) (name : string) (v : str) : Prop :=
  exists l1 k l2, hs = l1 ++ (k, v) :: l2 /\ absent l1 name /\ eq_ignore_ascii_case k (lit name) = true.
(** A value that lists the coding [chunked]. *)
Definition lists_chunked (v : str) : Prop := exists part, part ∈ split_on 44 v /\ eq_ignore_ascii_case (trim part) (lit "chunked") = true.

(** [text] carries [body] framed as the headers say, followed by anything. *)
Inductive request_framed (hs : headers_t) : bytes -> bytes -> Prop :=
| framed_none text : absent hs "transfer-encoding" -> absent hs "content-length" -> request_framed hs [] text
| framed_length v body more : absent hs "transfer-encoding" -> says hs "content-length" v -> parse_u64 v = Some (len body) ->
    request_framed hs body (body ++ more)
| framed_chunks v body enc more : says hs "transfer-encoding" v -> lists_chunked v -> absent hs "content-length" ->
    chunked body enc -> request_framed hs body (enc ++ more).

(** Headers from which the end of the body cannot be told, or can be in two ways. *)
Inductive unclear (hs : headers_t) : Prop :=
| unclear_both v w : says hs "transfer-encoding" v -> says hs "content-length" w -> unclear hs
| unclear_coding v : says hs "transfer-encoding" v -> ~ lists_chunked v -> unclear hs
| unclear_length v : says hs "content-length" v -> parse_u64 v = None -> unclear hs.

Lemma absent_find hs name : absent hs name -> find_header hs (lit name) = None.
Proof. induction 1 as [|[k v] hs Hk _ IH]; [done|]. cbn in *. by rewrite Hk. Qed.

Lemma says_find hs name v : says hs name v -> find_header hs (lit name) = Some v.
Proof.
  intros (l1 & k & l2 & -> & Ha & Hk). induction Ha as [|[k' v'] l1 Hk' _ IH]; cbn in *; [by rewrite Hk|by rewrite Hk'].
Qed.

Lemma lists_chunked_token v : has_token v (lit "chunked") = true <-> lists_chunked v.
Proof.
  unfold has_token, lists_chunked. rewrite existsb_exists. split; intros (part & Hp & He); exists part; split; try done; by apply list_elem_of_In.
Qed.

Lemma unclear_refused hs : unclear hs -> exists e, framing hs = Err e.
Proof.
  unfold framing, invalid_body. intros [v w Hv%says_find Hw%says_find|v Hv%says_find Hl|v Hv%says_find Hp].
  - rewrite Hv, Hw. destruct (parse_u64 w); cbn [res_bind]; [|by eauto]. destruct (has_token _ _); cbn [negb]; eauto.
  - rewrite Hv. destruct (has_token v _) eqn:Et; [by apply lists_chunked_token in Et|].
    destruct (find_header hs (lit "content-length")) as [w|]; [destruct (parse_u64 w)|]; cbn [res_bind negb]; eauto.
  - rewrite Hv, Hp. cbn [res_bind]. eauto.
Qed.

(** What framing the code finds, by the shape of the request. *)
Lemma framing_framed hs body text : request_framed hs body text ->
  (framing hs = Ok NoBody /\ body = [])
  \/ (framing hs = Ok (LengthBody (len body)) /\ exists more, text = body ++ more)
  \/ (framing hs = Ok ChunkedBody /\ exists enc more, chunked body enc /\ text = enc ++ more).
Proof.
  unfold framing. intros [? Ht%absent_find Hc%absent_find|v ? more Ht%absent_find Hc%says_find Hp|v ? enc more Ht%says_find Hl%lists_chunked_token Hc%absent_find He].
  - left. by rewrite Ht, Hc.
  - right; left. rewrite Ht, Hc, Hp. split; [done|by exists more].
  - right; right. rewrite Ht, Hc, Hl. split; [done|by exists enc, more].
Qed.

Lemma read_request_body_length leftover body more st1 :
  only_bytes st1 -> leftover ++ flat st1 = body ++ more -> 
  exists st2, read_length_body (S (stream_size st1)) (len body) (take (Z.to_nat (Z.min (len leftover) (len body))) leftover) st1 = Some (Ok (body, st2)).
Proof.
  intros Ho Hm. set (b0 := take _ leftover). destruct (Z.le_gt_cases (len leftover) (len body)) as [Hle|Hgt].
  - assert (b0 = leftover) as -> by (unfold b0; rewrite Z.min_l by done; unfold len; by rewrite Nat2Z.id, firstn_all).
    destruct (read_length_body_spec (S (stream_size st1)) (len body) leftover st1) as (st2 & H2); [lia|done| |].
    { rewrite Hm, len_app. pose proof (len_nonneg more). lia. }
    exists st2. rewrite H2. do 3 f_equal. rewrite Hm. unfold len. by rewrite Nat2Z.id, take_app_length.
  - exists st1. assert (b0 = body) as ->.
    { unfold b0. rewrite Z.min_r by lia. unfold len in *. rewrite Nat2Z.id.
      transitivity (take (length body) (leftover ++ flat st1)); [by rewrite take_app_le by lia|]. by rewrite Hm, take_app_length. }
    cbn [read_length_body]. by rewrite Z.leb_refl.
Qed.

(** Claim C33: however the bytes of a request are cut into reads, its head of at most 64 KiB
    is found, and a body of at most 32 MiB is read back exactly as its headers frame it: by
    the length of the first Content-Length, as chunks where the first Transfer-Encoding
    lists [chunked], empty without either.  With both headers, with another coding or with
    a length that is no number, the request is refused, and nothing is written to the
    client or read from it. *)
Theorem request_read (st : Stream) (head text : bytes) (hs : headers_t) :
  only_bytes st -> split_once CRLF2 (flat st) = Some (head, text) -> len head + 4 <= MAX_HEADER_BYTES ->
  exists leftover st1,
    read_http_head (S (stream_size st)) [] st = Some (Ok (HeadGot (head ++ CRLF2) leftover, st1))
    /\ (forall body, request_framed hs body text -> len body <= MAX_REQUEST_BODY_BYTES ->
        exists st2, snd (read_request_body leftover hs st1) = Some (Ok (body, st2)))
    /\ (unclear hs -> exists e, read_request_body leftover hs st1 = ([], Some (Err e))).
Proof.
  intros Ho Hs Hlen.
  destruct (read_http_head_spec (S (stream_size st)) [] st head text) as (leftover & st1 & Hr & Ht & Ho1); [lia|done|done|done|done|].
  exists leftover, st1. split; [done|]. unfold read_request_body. split.
  2:{ intros [e ->]%unclear_refused. by exists e. }
  intros body [[Hf ->]|[[Hf [more Hm]]|[Hf (enc & more & Hc & Hm)]]]%framing_framed Hmax; rewrite Hf; cbn [snd].
  - by exists st1.
  - destruct (Z.ltb_spec MAX_REQUEST_BODY_BYTES (len body)); [lia|]. apply (read_request_body_length leftover body more); [done|congruence].
  - destruct (read_chunked_request_spec body enc Hc (S (length leftover + stream_size st1)) [] leftover st1 more) as (st2 & H2);
      [lia|done|by rewrite <- Ht|rewrite len_nil; lia|]. by exists st2.
Qed.

Definition sample_request : Stream :=
  [RdBytes (lit "POST /a HTTP/1.1" ++ CRLF ++ lit "Content-Length: 3" ++ CRLF ++ [13]); RdBytes ([10] ++ lit "xy"); RdBytes (lit "z")].

Lemma request_read_witness : exists leftover st1,
  read_http_head (S (stream_size sample_request)) [] sample_request
  = Some (Ok (HeadGot (lit "POST /a HTTP/1.1" ++ CRLF ++ lit "Content-Length: 3" ++ CRLF2) leftover, st1))
  /\ exists st2, snd (read_request_body leftover [(lit "Content-Length", lit "3")] st1) = Some (Ok (lit "xyz", st2)).
Proof.
  destruct (request_read sample_request (lit "POST /a HTTP/1.1" ++ CRLF ++ lit "Content-Length: 3") (lit "xyz")
              [(lit "Content-Length", lit "3")]) as (l & s1 & H1 & H2 & _).
  - unfold only_bytes. repeat constructor; eexists; split; reflexivity || done.
  - vm_compute. reflexivity.
  - unfold MAX_HEADER_BYTES, len. vm_compute. discriminate.
  - exists l, s1. rewrite <- app_assoc in H1. split; [exact H1|]. apply H2.
    + apply (framed_length _ (lit "3") (lit "xyz") []).
      * repeat constructor.
      * exists [], (lit "Content-Length"), []. split; [reflexivity|]. split; [constructor|reflexivity].
      * reflexivity.
    + unfold MAX_REQUEST_BODY_BYTES, len. vm_compute. discriminate.
Defined.

(** What a client sends behind a request in the same read is discarded: after a
    request without a body the next read of a head sees only what arrives later, so a
    second request that was pipelined behind the first is never served. *)
Theorem pipelined_request_lost (head next : bytes) (hs : headers_t) (later : Stream) :
  split_once CRLF2 (head ++ CRLF2 ++ next) = Some (head, next) -> (length (head ++ CRLF2 ++ next) <= 4096)%nat ->
  framing hs = Ok NoBody ->
  exists st1, read_http_head 1 [] (RdBytes (head ++ CRLF2 ++ next) :: later) = Some (Ok (HeadGot (head ++ CRLF2) next, st1)) /\
    snd (read_request_body next hs st1) = Some (Ok ([], later)).
Proof.
  intros Hs Hl Hf. exists later. split.
  - cbn [read_http_head]. unfold read. destruct (Nat.leb_spec (length (head ++ CRLF2 ++ next)) (Z.to_nat 4096)); [|lia].
    destruct (head ++ CRLF2 ++ next) as [|x l] eqn:E; [by destruct head|]. rewrite <- E in *. unfold find_headers_end.
    cbn [app]. by rewrite Hs.
  - unfold read_request_body. by rewrite Hf.
Qed.

Lemma pipelined_request_lost_witness : exists st1,
  read_http_head 1 [] [RdBytes (lit "GET /1 HTTP/1.1" ++ CRLF2 ++ lit "GET /2 HTTP/1.1" ++ CRLF2)]
  = Some (Ok (HeadGot (lit "GET /1 HTTP/1.1" ++ CRLF2) (lit "GET /2 HTTP/1.1" ++ CRLF2), st1)) /\
  snd (read_request_body (lit "GET /2 HTTP/1.1" ++ CRLF2) [] st1) = Some (Ok ([], [])).
Proof.
  apply (pipelined_request_lost (lit "GET /1 HTTP/1.1") (lit "GET /2 HTTP/1.1" ++ CRLF2) [] []).
  - vm_compute. reflexivity.
  - apply Nat.leb_le. vm_compute. reflexivity.
  - reflexivity.
Defined.
