(* ===== verification/MitmRequest.v ===== *)
(** * src/proxy_server.rs: requests of the HTTP proxy and inside the MITM

    What is done with a request once it is read: the CORS preflight, the path filter
    between the SNI-rewrite forwarder and the relay, the CORS headers put on a reply, the
    plain-HTTP forms, and [handle_http_client], which reads the first request of a
    connection and hands a CONNECT to the dispatcher.

    An [Effect] is what goes out, in order; the answers of the forwarder and of the relay
    are parameters. *)

From stdpp Require Import prelude gmap.
From S2P Require Import Prelude RustStr HttpText HostMatch DirectMode Dispatch RequestRead.
#[local] Open Scope Z_scope.

Inductive Effect :=
| EWrite (b : bytes)                                                (* to the client *)
| EForward (ip sni : str) (port : Z) (request : bytes)              (* over a fresh SNI-rewrite connection *)
| ERelay (method url : str) (headers : headers_t) (body : bytes)    (* one relayed request *)
| ERelayRange (method url : str) (headers : headers_t) (cors : option str) (* a range-parallel download, written through *)
| EDial (via : option str) (host : str) (port : Z) (first : bytes) (st : Stream) (* raw TCP, spliced *)
| EDriveTunnel (host : str) (port : Z) (first : bytes) (st : Stream)      (* the Drive tunnel *)
| EDispatch (r : Route).                                            (* a CONNECT *)

(** ** CORS *)
Definition cors_lines (origin : str) : list str := [
  lit "Access-Control-Allow-Origin: " ++ origin;
  lit "Access-Control-Allow-Credentials: true";
  lit "Access-Control-Allow-Methods: GET, POST, PUT, DELETE, PATCH, OPTIONS, HEAD";
  lit "Access-Control-Allow-Headers: *";
  lit "Access-Control-Expose-Headers: *";
  lit "Vary: Origin"].

Definition is_cors_line (l : str) : bool := starts_with (to_ascii_lowercase l) (lit "access-control-").

Definition strip_suffix (p s : bytes) : option bytes := reverse <$> strip_prefix (reverse p) (reverse s).

Definition inject_cors_into_head (head_with_terminator : bytes) (origin : str) : option bytes :=
  let head := default head_with_terminator (strip_suffix CRLF2 head_with_terminator) in
  s ← from_utf8 head;
  let crlf l := l ++ CRLF in
  Some (as_bytes (
    match split_pat (length s) CRLF s with
    | [] => []
    | status :: lines => crlf status ++ (filter (fun l => is_cors_line l = false) lines ≫= crlf)
    end ++ (cors_lines origin ≫= crlf) ++ CRLF)).

Definition inject_cors_response_headers (response : bytes) (origin : str) : bytes :=
  match split_once CRLF2 response with
  | None => response
  | Some (head, body) =>
    match inject_cors_into_head (head ++ CRLF2) origin with None => response | Some buf => buf ++ body end
  end.

Definition preflight_response (headers : headers_t) : bytes :=
  let origin := default (lit "*") (find_header headers (lit "origin")) in
  let acrm := default (lit "GET, POST, PUT, DELETE, PATCH, OPTIONS, HEAD")
                (find_header headers (lit "access-control-request-method")) in
  let acrh := default (lit "*") (find_header headers (lit "access-control-request-headers")) in
  as_bytes (lit "HTTP/1.1 204 No Content" ++ CRLF
    ++ lit "Access-Control-Allow-Origin: " ++ origin ++ CRLF
    ++ lit "Access-Control-Allow-Methods: " ++ acrm ++ CRLF
    ++ lit "Access-Control-Allow-Headers: " ++ acrh ++ CRLF
    ++ lit "Access-Control-Allow-Credentials: true" ++ CRLF
    ++ lit "Access-Control-Max-Age: 86400" ++ CRLF
    ++ lit "Vary: Origin, Access-Control-Request-Method, Access-Control-Request-Headers" ++ CRLF
    ++ lit "Content-Length: 0" ++ CRLF ++ CRLF).

(** ** Requests sent on *)
Definition forward_skips (k : str) : bool :=
  existsb (fun n => eq_ignore_ascii_case k (lit n))
    ["host"; "connection"; "proxy-connection"; "keep-alive"; "transfer-encoding"; "content-length"; "te"; "trailer"; "upgrade"]%string.

Definition request_header (kv : str * str) : bytes := as_bytes (fst kv) ++ lit ": " ++ as_bytes (snd kv) ++ CRLF.

Definition build_sni_forward_request_bytes (method host : str) (port : Z) (path : str) (headers : headers_t) (body : bytes) : bytes :=
  let host_with_port := if (port =? 443) || (port =? 80) then host else host ++ [58] ++ dec_string port in
  let needs_length := negb (bool_decide (body = []))
    || existsb (fun m => eq_ignore_ascii_case method (lit m)) ["POST"; "PUT"; "PATCH"]%string in
  as_bytes method ++ [32] ++ as_bytes path ++ lit " HTTP/1.1" ++ CRLF
  ++ lit "Host: " ++ as_bytes host_with_port ++ CRLF ++ lit "Connection: close" ++ CRLF
  ++ (if needs_length then lit "Content-Length: " ++ dec_string (len body) ++ CRLF else [])
  ++ (filter (fun kv => forward_skips (fst kv) = false) headers ≫= request_header) ++ CRLF ++ body.

Definition plain_skips (k : str) : bool :=
  bool_decide (to_ascii_lowercase k ∈
    [lit "proxy-authorization"; lit "proxy-connection"; lit "connection"; lit "keep-alive"]).

Definition rewrite_plain_http_request_head (method version : str) (headers : headers_t) (path : str) : bytes :=
  as_bytes method ++ [32] ++ as_bytes path ++ [32] ++ as_bytes version ++ CRLF
  ++ (filter (fun kv => plain_skips (fst kv) = false) headers ≫= request_header)
  ++ lit "Connection: close" ++ CRLF2.

(** ** Targets *)
Definition parse_host_port (target : str) : str * Z :=
  match rsplit_once 58 target with
  | Some (h, p) => (h, default 443 (parse_u16 p))
  | None => (target, 443)
  end.

Definition split_authority (authority : str) (default_port : Z) : str * Z :=
  if (1 <? length (filter (fun c : Z => (c = 58)%Z) authority))%nat && negb (starts_with authority [91])
  then (authority, default_port)
  else match rsplit_once 58 authority with
       | Some (h, p) => match parse_u16 p with Some port => (h, port) | None => (authority, default_port) end
       | None => (authority, default_port)
       end.

Definition resolve_plain_http_target (target : str) (headers : headers_t) : option (str * Z * str) :=
  let absolute (rest : str) (default_port : Z) :=
    let '(authority, path) := split_path rest in
    if bool_decide (authority = []) then None
    else let '(host, port) := split_authority authority default_port in Some (host, port, path) in
  match strip_prefix (lit "http://") target with
  | Some r => absolute r 80
  | None =>
    match strip_prefix (lit "https://") target with
    | Some r => absolute r 443
    | None =>
      if starts_with target [47] then
        v ← find_header headers (lit "host");
        let '(host, port) := split_authority v 80 in Some (host, port, target)
      else None
    end
  end.

(** ** A request inside the MITM *)
Definition is_x_com (host : str) : bool :=
  let h := to_ascii_lowercase host in
  bool_decide (h = lit "x.com") || ends_with h (lit ".x.com")
  || bool_decide (h = lit "twitter.com") || ends_with h (lit ".twitter.com").

Definition fixed_path (host path : str) : str :=
  if is_x_com host && starts_with path (lit "/i/api/graphql/") && contains path (lit "?variables=")
  then match split_once [38] path with Some (short, _) => short | None => path end
  else path.

Definition request_url (scheme host : str) (port : Z) (path : str) : str :=
  if port =? (if bool_decide (scheme = lit "https") then 443 else 80)
  then scheme ++ lit "://" ++ host ++ path
  else scheme ++ lit "://" ++ host ++ [58] ++ dec_string port ++ path.

Definition safe_for_forwarder (method : str) : bool :=
  existsb (fun m => eq_ignore_ascii_case method (lit m)) ["GET"; "HEAD"; "OPTIONS"]%string.

Definition forwarder_eligible (c : RewriteCtx) (scheme host : str) (port : Z) (method url : str) : bool :=
  bool_decide (scheme = lit "https") && (port =? 443) && safe_for_forwarder method
  && negb (exit_node_full_mode_active c) && negb (bool_decide (relay_url_patterns c = []))
  && host_in_force_mitm_list host (force_mitm_hosts c)
  && negb (url_matches_relay_pattern url (relay_url_patterns c)).

Definition connection_close (headers : headers_t) : bool :=
  existsb (fun kv => eq_ignore_ascii_case (fst kv) (lit "connection") && eq_ignore_ascii_case (snd kv) (lit "close")) headers.

Definition reply_431 : bytes :=
  lit "HTTP/1.1 431 Request Header Fields Too Large" ++ CRLF ++ lit "Connection: close" ++ CRLF ++ lit "Content-Length: 0" ++ CRLF2.
Definition reply_413 : bytes :=
  lit "HTTP/1.1 413 Payload Too Large" ++ CRLF ++ lit "Connection: close" ++ CRLF ++ lit "Content-Length: 0" ++ CRLF2.
Definition reply_502 : bytes :=
  lit "HTTP/1.1 502 Bad Gateway" ++ CRLF ++ lit "Content-Length: 0" ++ CRLF ++ lit "Connection: close" ++ CRLF2.
Definition reply_200_connect : bytes := lit "HTTP/1.1 200 Connection Established" ++ CRLF2.

Section request.
(** [forward ip sni port request]: the forwarder's answer, [None] when it failed;
    [relay]: the answer of [DomainFronter::relay]. *)
Context (forward : str -> str -> Z -> bytes -> option bytes) (relay : str -> str -> headers_t -> bytes -> bytes).

(** The relay, the last resort of every request. *)
Definition relay_request (method url : str) (headers : headers_t) (body : bytes) : list Effect :=
  let cors := find_header headers (lit "origin") in
  if eq_ignore_ascii_case method (lit "GET") && bool_decide (body = [])
  then [ERelayRange method url headers cors]
  else
    let response := relay method url headers body in
    [ERelay method url headers body;
     EWrite (match cors with Some o => inject_cors_response_headers response o | None => response end)].

(** What is done with a request that has been read, and whether the connection is kept. *)
Definition serve_request (c : RewriteCtx) (scheme host : str) (port : Z) (method path : str) (headers : headers_t) (body : bytes)
    : list Effect * bool :=
  let path := fixed_path host path in
  let url := request_url scheme host port path in
  if eq_ignore_ascii_case method (lit "OPTIONS")
  then ([EWrite (preflight_response headers)], negb (connection_close headers))
  else
    let relayed := (relay_request method url headers body, negb (connection_close headers)) in
    if forwarder_eligible c scheme host port method url then
      let ip := default (google_ip c) (hosts_override (rc_hosts c) host) in
      let request := build_sni_forward_request_bytes method host port path headers body in
      match forward ip (front_domain c) port request with
      | Some response => ([EForward ip (front_domain c) port request; EWrite response], false)
      | None => (EForward ip (front_domain c) port request :: fst relayed, snd relayed)
      end
    else relayed.

(** [None]: the readers' fuel ran out, which it does not. *)
Definition handle_mitm_request (c : RewriteCtx) (scheme host : str) (port : Z) (st : Stream)
    : option (res (list Effect * bool * Stream) ReqErr) :=
  match read_http_head (S (stream_size st)) [] st with
  | None => None
  | Some Panic => Some Panic
  | Some (Err e) => Some (Err e)
  | Some (Ok (HeadClosed, st)) => Some (Ok ([], false, st))
  | Some (Ok (HeadOversized, st)) => Some (Ok ([EWrite reply_431], false, st))
  | Some (Ok (HeadGot head leftover, st)) =>
    match parse_request_head head with
    | None => Some (Ok ([], false, st))
    | Some (method, path, _, headers) =>
      let '(wrote, r) := read_request_body leftover headers st in
      let first := if bool_decide (wrote = []) then [] else [EWrite wrote] in
      match r with
      | None => None
      | Some Panic => Some Panic
      | Some (Err ReqTooLarge) => Some (Ok (first ++ [EWrite reply_413], false, st))
      | Some (Err e) => Some (Err e)
      | Some (Ok (body, st)) =>
        let '(effects, keep) := serve_request c scheme host port method path headers body in
        Some (Ok (first ++ effects, keep, st))
      end
    end
  end.

(** ** Plain HTTP on the proxy port *)
Definition do_plain_http (head leftover : bytes) (st : Stream) : option (res (list Effect) ReqErr) :=
  match parse_request_head head with
  | None => Some (Err (ReqHttp (HBad (lit "bad request"))))
  | Some (method, target, _, headers) =>
    let '(wrote, r) := read_request_body leftover headers st in
    let first := if bool_decide (wrote = []) then [] else [EWrite wrote] in
    match r with
    | None => None
    | Some Panic => Some Panic
    | Some (Err ReqTooLarge) => Some (Ok (first ++ [EWrite reply_413]))
    | Some (Err e) => Some (Err e)
    | Some (Ok (body, _)) =>
      let url := if starts_with target (lit "http://") || starts_with target (lit "https://") then target
                 else lit "http://" ++ default [] (find_header headers (lit "host")) ++ target in
      Some (Ok (first ++
        if eq_ignore_ascii_case method (lit "GET") && bool_decide (body = [])
        then [ERelayRange method url headers None]
        else [ERelay method url headers body; EWrite (relay method url headers body)]))
    end
  end.

Definition plain_http_passthrough (c : RewriteCtx) (method version : str) (headers : headers_t)
    (host : str) (port : Z) (path : str) (leftover : bytes) (st : Stream) : list Effect :=
  [EDial (upstream_socks5 c) (strip_brackets host) port
     (rewrite_plain_http_request_head method version headers path ++ leftover) st].

Definition do_plain_http_passthrough (c : RewriteCtx) (head leftover : bytes) (st : Stream) : list Effect :=
  match parse_request_head head with
  | None => []
  | Some (method, target, version, headers) =>
    match resolve_plain_http_target target headers with
    | None => []
    | Some (host, port, path) => plain_http_passthrough c method version headers host port path leftover st
    end
  end.

Definition do_plain_http_drive (c : RewriteCtx) (head leftover : bytes) (st : Stream) : list Effect :=
  match parse_request_head head with
  | None => []
  | Some (method, target, version, headers) =>
    match resolve_plain_http_target target headers with
    | None => []
    | Some (host, port, path) =>
      match classify_early_route host port (rc_mode c) (passthrough_hosts c) (bypass_doh_hosts c) (rc_block_doh c) (rc_bypass_doh c) with
      | BlockDoh => []
      | EDrive =>
        [EDriveTunnel (strip_brackets host) port
           (rewrite_plain_http_request_head method version headers path ++ leftover) st]
      | _ => plain_http_passthrough c method version headers host port path leftover st
      end
    end
  end.

(** [unreachable]: the multiplexer's negative cache, when there is a multiplexer. *)
Definition handle_http_client (w : World) (c : RewriteCtx) (t : Tables) (has_fronter has_drive : bool)
    (unreachable : option (str -> Z -> bool)) (st : Stream) : option (res (list Effect * (RewriteCtx * Tables)) ReqErr) :=
  match read_http_head (S (stream_size st)) [] st with
  | None => None
  | Some Panic => Some Panic
  | Some (Err e) => Some (Err e)
  | Some (Ok (HeadClosed, _)) => Some (Ok ([], (c, t)))
  | Some (Ok (HeadOversized, _)) => Some (Ok ([EWrite reply_431], (c, t)))
  | Some (Ok (HeadGot head leftover, st)) =>
    match parse_request_head head with
    | None => Some (Err (ReqHttp (HBad (lit "bad request"))))
    | Some (method, target, _, _) =>
      if eq_ignore_ascii_case method (lit "CONNECT") then
        let '(host, port) := parse_host_port target in
        if match unreachable with Some f => f host port | None => false end
        then Some (Ok ([EWrite reply_502], (c, t)))
        else match dispatch_tunnel w c t has_fronter (bool_decide (is_Some unreachable)) has_drive host port st with
             | Some (Ok (r, ct)) => Some (Ok ([EWrite reply_200_connect; EDispatch r], ct))
             | Some (Err _) => Some (Err (ReqHttp HIo))
             | Some Panic => Some Panic
             | None => None
             end
      else if bool_decide (rc_mode c = Drive) then
        Some (Ok ((if has_drive then do_plain_http_drive c head leftover st else []), (c, t)))
      else if has_fronter then
        match do_plain_http head leftover st with
        | Some (Ok l) => Some (Ok (l, (c, t)))
        | Some (Err e) => Some (Err e)
        | Some Panic => Some Panic
        | None => None
        end
      else Some (Ok (do_plain_http_passthrough c head leftover st, (c, t)))
    end
  end.
End request.
