(* ===== verification/MitmRules.v ===== *)
(** * The HTTP proxy's requests, proved

    What a parsed head consists of, that the heads sent on parse back to the request they
    stand for, what CORS injection keeps, where a request inside the MITM is sent, and what
    the plain-HTTP forms of the proxy do with the routing policies. *)

From stdpp Require Import prelude gmap.
From S2P Require Import Prelude RustStr HttpText HttpRead HttpRewrite HostMatch HostRules RoutingRules.
From S2P Require Import DirectMode DirectRules BypassRules Dispatch DispatchRules RequestRead MitmRequest.
#[local] Open Scope Z_scope.

(** ** Lines *)

(** No CRLF inside. *)
Fixpoint crlf_free (s : str) : Prop :=
  match s with
  | [] => True
  | c :: s' => (c = 13 -> head s' <> Some 10) /\ crlf_free s'
  end.

Ltac crlf_free_lit := vm_compute; split_and!; try done; congruence.

Lemma crlf_free_app a b : crlf_free (a ++ b) -> crlf_free a /\ crlf_free b.
Proof.
  induction a as [|c a IH]; [done|]. cbn. intros [Hc [Ha Hb]%IH]. split_and!; [|done|done]. by destruct a.
Qed.

Lemma crlf_free_join a c b : c <> 10 -> crlf_free a -> crlf_free (c :: b) -> crlf_free (a ++ c :: b).
Proof. intros Hc. induction a as [|x a IH]; [done|]. cbn [app crlf_free]. intros [Hx Ha] Hb. split; [|by apply IH]. destruct a; [cbn; congruence|done]. Qed.

Lemma crlf_split_none s : split_once CRLF s = None -> crlf_free s.
Proof.
  induction s as [|c s IH]; [done|]. cbn [split_once]. destruct (strip_prefix CRLF (c :: s)) eqn:E; [done|].
  destruct (split_once CRLF s) as [[? ?]|]; [done|]. intros _. split; [|by apply IH]. intros -> Hh.
  destruct s as [|d s]; [done|]. injection Hh as ->. done.
Qed.

Lemma crlf_split_some s a b : split_once CRLF s = Some (a, b) -> crlf_free a.
Proof.
  revert a. induction s as [|c s IH]; intros a; [done|]. cbn [split_once]. destruct (strip_prefix CRLF (c :: s)) eqn:E; [by intros [= <- <-]|].
  destruct (split_once CRLF s) as [[a' b']|] eqn:Es; [|done]. cbn. intros [= <- <-]. split; [|by apply IH].
  intros ->. destruct a' as [|d a']; [done|]. intros [= ->]. apply split_once_Some in Es. subst s. done.
Qed.

Lemma split_line l r : crlf_free l -> split_once CRLF (l ++ CRLF ++ r) = Some (l, r).
Proof.
  induction l as [|c l IH]; intros Hl.
  - destruct r; done.
  - destruct Hl as [Hc Hl]. cbn [app split_once].
    assert (strip_prefix CRLF (c :: l ++ CRLF ++ r) = None) as ->.
    { unfold CRLF at 1. cbn [strip_prefix]. destruct (Z.eqb_spec 13 c) as [<-|]; [|done]. specialize (Hc eq_refl).
      destruct l as [|d l]; [done|]. cbn [app head] in *. destruct (Z.eqb_spec 10 d) as [<-|]; done. }
    by rewrite IH.
Qed.

Abbreviation crlf := (fun l => l ++ CRLF).

Lemma split_pat_lines ls t fuel : Forall crlf_free ls -> (length ls <= fuel)%nat ->
  split_pat fuel CRLF ((ls ≫= crlf) ++ t) = ls ++ split_pat (fuel - length ls) CRLF t.
Proof.
  intros Hls. revert fuel. induction Hls as [|l ls Hl Hls IH]; intros fuel Hf; [cbn; by rewrite Nat.sub_0_r|].
  destruct fuel as [|fuel]; [cbn in Hf; lia|]. change ((l :: ls) ≫= crlf) with (crlf l ++ (ls ≫= crlf)).
  cbn [split_pat length]. rewrite <- !app_assoc, split_line by done. cbn [app]. f_equal. apply IH. cbn in Hf. lia.
Qed.

(** With a cut per character the split is complete. *)
Lemma split_all_free s : Forall crlf_free (split_pat (length s) CRLF s).
Proof.
  assert (forall n s, (length s <= n)%nat -> Forall crlf_free (split_pat n CRLF s)) as H; [|by apply H].
  induction n as [|n IH]; intros t Hn; cbn [split_pat].
  - destruct t; [|cbn in Hn; lia]. by repeat constructor.
  - destruct (split_once CRLF t) as [[a b]|] eqn:E; [|repeat constructor; by apply crlf_split_none].
    constructor; [by eapply crlf_split_some|]. apply IH. apply split_once_length in E. cbn in E. lia.
Qed.

(** ** A parsed head *)
Lemma crlf_free_trim s : crlf_free s -> crlf_free (trim s).
Proof. destruct (trim_infix s) as (a & b & E). rewrite E at 1. intros [_ [H _]%crlf_free_app]%crlf_free_app. done. Qed.

Lemma str_ok_trim s : str_ok s -> str_ok (trim s).
Proof. intros H. by apply trim_end_by_ok, trim_start_by_ok. Qed.

Definition header_ok (kv : str * str) : Prop :=
  str_ok (fst kv) /\ str_ok (snd kv) /\ 58 ∉ fst kv /\ trim (fst kv) = fst kv /\ trim (snd kv) = snd kv /\
  crlf_free (fst kv) /\ crlf_free (snd kv).

Lemma header_pair_ok l : str_ok l -> crlf_free l -> Forall header_ok (header_pair l).
Proof.
  intros Hs Hf. unfold header_pair. destruct (split_once [58] l) as [[k v]|] eqn:E; [|constructor].
  apply split_once_char in E as Hk. apply split_once_Some in E. subst l.
  apply Forall_app in Hs as [Hsk [_ Hsv]%Forall_app]. apply crlf_free_app in Hf as [Hfk [_ Hfv]%crlf_free_app].
  constructor; [|constructor]. split_and!; cbn [fst snd].
  - by apply str_ok_trim.
  - by apply str_ok_trim.
  - intros H. by apply Hk, trim_sub.
  - apply trim_trim.
  - apply trim_trim.
  - by apply crlf_free_trim.
  - by apply crlf_free_trim.
Qed.

Lemma request_headers_ok ls : Forall str_ok ls -> Forall crlf_free ls -> Forall header_ok (request_headers ls).
Proof.
  induction ls as [|l ls IH]; intros Hs Hf; [constructor|]. apply Forall_cons in Hs as [Hs Hss], Hf as [Hf Hff].
  cbn [request_headers]. case_bool_decide; [constructor|]. apply Forall_app. split; [by apply header_pair_ok|by apply IH].
Qed.

Lemma split_pat_ok fuel pat s : str_ok s -> Forall str_ok (split_pat fuel pat s).
Proof.
  revert s. induction fuel as [|fuel IH]; intros s Hs; cbn [split_pat]; [by constructor|].
  destruct (split_once pat s) as [[a b]|] eqn:E; [|by constructor]. apply split_once_Some in E. subst s.
  apply Forall_app in Hs as [Ha [_ Hb]%Forall_app]. constructor; [done|by apply IH].
Qed.

Record head_ok (m target version : str) (hs : headers_t) : Prop := {
  ho_method : is_valid_http_method m = true;
  ho_target : str_ok target /\ crlf_free target /\ 32 ∉ target;
  ho_version : str_ok version /\ crlf_free version;
  ho_headers : Forall header_ok hs
}.

Lemma parsed_head_ok head m target version hs : bytes_ok head ->
  parse_request_head head = Some (m, target, version, hs) -> head_ok m target version hs.
Proof.
  intros Hb. unfold parse_request_head. intros (s & Hs & H)%bind_Some.
  apply from_utf8_inv in Hs as [Hs _]; [|done].
  pose proof (split_all_free s) as Hf. pose proof (split_pat_ok (length s) CRLF s Hs) as Ho.
  destruct (split_pat (length s) CRLF s) as [|first lines]; [done|].
  apply Forall_cons in Hf as [Hf Hff], Ho as [Ho Hoo].
  apply bind_Some in H as ([[m' t'] v'] & Hl & H). destruct (is_valid_http_method m') eqn:Em; cbn [negb] in H; [|done].
  injection H as <- <- <- <-. unfold request_line in Hl. apply bind_Some in Hl as ([a r] & Ea & Hl).
  apply split_once_Some in Ea. subst first. apply Forall_app in Ho as [_ [_ Hor]%Forall_app]. apply crlf_free_app in Hf as [_ [_ Hfr]%crlf_free_app].
  destruct (split_once [32] r) as [[t v]|] eqn:Er; injection Hl as <- <- <-.
  - apply split_once_char in Er as Ht. apply split_once_Some in Er. subst r.
    apply Forall_app in Hor as [? [_ ?]%Forall_app]. apply crlf_free_app in Hfr as [? [_ ?]%crlf_free_app].
    constructor; [done|done|done|by apply request_headers_ok].
  - apply split_once_char_none in Er. constructor; [done|done| |by apply request_headers_ok].
    split; [repeat constructor; unfold char_ok; lia|]. crlf_free_lit.
Qed.

(** ** Heads that are sent on *)
Definition header_text (kv : str * str) : str := fst kv ++ lit ": " ++ snd kv.

Lemma trim_space v : trim v = v -> trim (32 :: v) = v.
Proof. done. Qed.

Lemma header_text_pair kv : header_ok kv -> header_pair (header_text kv) = [kv] /\ crlf_free (header_text kv) /\
  header_text kv <> [] /\ str_ok (header_text kv).
Proof.
  destruct kv as [k v]. intros (Hk & Hv & H58 & Htk & Htv & Hfk & Hfv). cbn [fst snd] in *. unfold header_text. cbn [fst snd].
  change (lit ": ") with [58; 32]. split_and!.
  - unfold header_pair. change ([58; 32] ++ v) with ([58] ++ 32 :: v). rewrite (split_once_first 58 []) by done.
    by rewrite Htk, trim_space.
  - apply crlf_free_join; [done|done|]. split; [done|]. by split.
  - by destruct k.
  - apply Forall_app. split; [done|]. repeat constructor; [unfold char_ok; lia..|done].
Qed.

Lemma request_headers_app hs rest : Forall header_ok hs ->
  request_headers ((header_text <$> hs) ++ rest) = hs ++ request_headers rest.
Proof.
  induction 1 as [|kv hs Hkv _ IH]; [done|]. destruct (header_text_pair kv Hkv) as (Hp & _ & Hne & _).
  cbn [fmap list_fmap app request_headers]. rewrite bool_decide_eq_false_2 by done. rewrite Hp, IH. done.
Qed.

(** A text built of a request line, header lines and a blank line parses to them. *)
Lemma parse_lines m target version hs rest :
  head_ok m target version hs -> str_ok rest ->
  parse_request_head (as_bytes (m ++ [32] ++ target ++ [32] ++ version ++ CRLF ++ ((header_text <$> hs) ≫= crlf) ++ CRLF ++ rest))
  = Some (m, target, version, hs).
Proof.
  intros [Hm (Hts & Htf & H32) (Hvs & Hvf) Hhs] Hrest.
  assert (str_ok m /\ crlf_free m /\ 32 ∉ m) as (Hms & Hmf & Hm32).
  { revert Hm. clear. unfold is_valid_http_method. rewrite existsb_elem. intros (x & Hx & ->%bool_decide_eq_true).
    repeat (apply elem_of_cons in Hx as [->|Hx]; [split_and!;
      [repeat constructor; unfold char_ok; lia|crlf_free_lit|vm_compute; set_solver by lia]|]). by apply elem_of_nil in Hx. }
  set (first := m ++ [32] ++ target ++ [32] ++ version). set (lines := first :: (header_text <$> hs) ++ [[]]).
  assert (Forall crlf_free lines) as Hlf.
  { constructor; [|apply Forall_app; split; [|by repeat constructor]].
    - subst first. apply crlf_free_join; [done|done|]. split; [done|]. apply crlf_free_join; [done|done|]. by split.
    - apply Forall_fmap. eapply Forall_impl; [exact Hhs|]. intros kv Hkv. by apply header_text_pair in Hkv as (_ & ? & _ & ?). }
  assert (Forall str_ok lines) as Hls.
  { constructor; [|apply Forall_app; split; [|repeat constructor]].
    - subst first. repeat (apply Forall_app; split); try done; repeat constructor; unfold char_ok; lia.
    - apply Forall_fmap. eapply Forall_impl; [exact Hhs|]. intros kv Hkv. by apply header_text_pair in Hkv as (_ & ? & _ & ?). }
  assert (m ++ [32] ++ target ++ [32] ++ version ++ CRLF ++ ((header_text <$> hs) ≫= crlf) ++ CRLF ++ rest = (lines ≫= crlf) ++ rest) as ->.
  { subst lines first. change ((?x :: ?xs) ≫= crlf) with (crlf x ++ (xs ≫= crlf)). rewrite bind_app.
    change ([[]] ≫= crlf) with (CRLF ++ []). by rewrite app_nil_r, <- !app_assoc. }
  set (s := (lines ≫= crlf) ++ rest). assert (str_ok s) as Hs.
  { subst s. apply Forall_app. split; [|done]. apply Forall_forall. intros c (l & Hc & Hl)%list_elem_of_bind.
    rewrite Forall_forall in Hls. specialize (Hls l Hl). apply elem_of_app in Hc as [Hc|Hc]; [by apply (proj1 (Forall_forall _ _) Hls)|].
    unfold CRLF in Hc. unfold char_ok. set_solver by lia. }
  unfold parse_request_head. rewrite from_utf8_as_bytes by done. cbn [mbind option_bind].
  assert (length lines <= length s)%nat as Hlen.
  { subst s. rewrite length_app. assert (length lines <= length (lines ≫= crlf))%nat; [|lia]. clear. induction lines as [|l ls IH]; [done|].
    change ((l :: ls) ≫= crlf) with (crlf l ++ (ls ≫= crlf)). rewrite !length_app. cbn. lia. }
  subst s. rewrite split_pat_lines by done. subst lines. cbn [app].
  assert (request_line first = Some (m, target, version)) as ->.
  { subst first. unfold request_line. rewrite (split_once_first 32 []) by done. cbn [mbind option_bind].
    by rewrite (split_once_first 32 []). }
  cbn [mbind option_bind]. rewrite Hm. cbn [negb]. do 2 f_equal.
  rewrite <- app_assoc, request_headers_app by done. cbn [app request_headers]. by rewrite bool_decide_eq_true_2, app_nil_r.
Qed.

(** The bytes of a head. *)
Definition sent_head (m target version : str) (hs : headers_t) : bytes :=
  as_bytes m ++ [32] ++ as_bytes target ++ [32] ++ as_bytes version ++ CRLF ++ (hs ≫= request_header) ++ CRLF.

Lemma request_header_text kv : request_header kv = as_bytes (header_text kv ++ CRLF).
Proof. unfold request_header, header_text. by rewrite !as_bytes_app, <- !app_assoc. Qed.

Lemma request_headers_text hs : hs ≫= request_header = as_bytes ((header_text <$> hs) ≫= crlf).
Proof.
  induction hs as [|kv hs IH]; [done|]. rewrite bind_cons, fmap_cons, bind_cons, as_bytes_app, <- IH.
  by rewrite request_header_text.
Qed.

Lemma parse_sent_head m target version hs : head_ok m target version hs ->
  parse_request_head (sent_head m target version hs) = Some (m, target, version, hs).
Proof.
  intros H. etrans; [|apply (parse_lines m target version hs []); [done|constructor]]. f_equal.
  unfold sent_head. by rewrite request_headers_text, !as_bytes_app.
Qed.

Lemma clean_str_free s : clean_str s -> crlf_free s.
Proof.
  intros [_ H _]. induction s as [|c s IH]; [done|]. split; [|apply IH; set_solver].
  intros _ Hh. destruct s; [done|]. cbn in Hh. set_solver.
Qed.

Lemma clean_header_ok kv : clean_header kv -> header_ok kv.
Proof.
  intros (Hk & Hc & Hv). pose proof (clean_str_free _ Hk). pose proof (clean_str_free _ Hv).
  destruct Hk, Hv. by split_and!.
Qed.

Lemma clean_lit s : forallb (fun c => (0 <=? c) && (c <? 128) && negb (c =? 10)) (lit s) = true -> trim (lit s) = lit s ->
  clean_str (lit s).
Proof.
  intros H Ht. rewrite forallb_forall in H. constructor; [|intros H10%list_elem_of_In%H; lia|done].
  apply Forall_forall. intros c Hc%list_elem_of_In%H. unfold char_ok. lia.
Qed.

Ltac clean_name := apply clean_lit; vm_compute; reflexivity.

Lemma close_ok : header_ok (lit "Connection", lit "close").
Proof. apply clean_header_ok. split_and!; cbn [fst snd]; [clean_name| |clean_name]. by apply lit_no. Qed.

Lemma length_ok n : 0 <= n -> header_ok (lit "Content-Length", dec_string n).
Proof.
  intros Hn. apply clean_header_ok. split_and!; cbn [fst snd]; [clean_name|by apply lit_no|by apply digits_clean, dec_string_digits].
Qed.

Lemma filter_ok (P : str * str -> Prop) `{forall x, Decision (P x)} (hs : list (str * str)) : Forall header_ok hs -> Forall header_ok (filter P hs).
Proof. rewrite !Forall_forall. intros Hh kv [_ Hin]%list_elem_of_filter. by apply Hh. Qed.

(** ** Plain HTTP sent to the origin *)

(** Skipping headers under other names does not change what a name finds. *)
Lemma find_header_filter (skip : str -> bool) (hs : list (str * str)) n :
  (forall k, eq_ignore_ascii_case k n = true -> skip k = false) ->
  find_header (filter (fun kv : str * str => skip (fst kv) = false) hs) n = find_header hs n.
Proof.
  intros Hn. induction hs as [|[k v] hs IH]; [done|]. rewrite filter_cons. cbn [fst].
  destruct (eq_ignore_ascii_case k n) eqn:E.
  - rewrite decide_True by auto. cbn. by rewrite E.
  - case_decide; cbn; by rewrite E.
Qed.

Lemma find_header_snoc hs k v n : eq_ignore_ascii_case k n = false -> find_header (hs ++ [(k, v)]) n = find_header hs n.
Proof. intros E. induction hs as [|[a b] hs IH]; cbn; [by rewrite E|]. by rewrite IH. Qed.

Lemma plain_keeps k n : eq_ignore_ascii_case k n = true ->
  bool_decide (to_ascii_lowercase n ∈ [lit "proxy-authorization"; lit "proxy-connection"; lit "connection"; lit "keep-alive"]) = false ->
  plain_skips k = false.
Proof. unfold eq_ignore_ascii_case, plain_skips. intros ->%bool_decide_eq_true. done. Qed.

Lemma framing_ext hs1 hs2 : find_header hs1 (lit "transfer-encoding") = find_header hs2 (lit "transfer-encoding") ->
  find_header hs1 (lit "content-length") = find_header hs2 (lit "content-length") -> framing hs1 = framing hs2.
Proof. unfold framing. by intros -> ->. Qed.

Definition plain_headers (hs : headers_t) : headers_t :=
  filter (fun kv : str * str => plain_skips (fst kv) = false) hs ++ [(lit "Connection", lit "close")].

Lemma plain_framing hs : framing (plain_headers hs) = framing hs.
Proof.
  apply framing_ext; unfold plain_headers; (rewrite find_header_snoc by reflexivity); apply find_header_filter;
    intros k E; by apply (plain_keeps _ _ E).
Qed.

Lemma split_path_target rest a p : split_path rest = (a, p) -> (exists q, rest = q ++ p) \/ p = [47].
Proof.
  unfold split_path. destruct (split_once [47] rest) as [[h r]|] eqn:E; intros [= <- <-]; [|by right].
  apply split_once_Some in E. left. by exists h.
Qed.

Definition target_ok (t : str) : Prop := str_ok t /\ crlf_free t /\ 32 ∉ t.

Lemma target_ok_tail q p : target_ok (q ++ p) -> target_ok p.
Proof. intros ([_ ?]%Forall_app & [_ ?]%crlf_free_app & H32). split_and!; [done..|set_solver]. Qed.

Lemma root_ok : target_ok [47].
Proof. split_and!; [by apply Forall_singleton; left|by split|set_solver by lia]. Qed.

Lemma resolved_path_ok target hs host port path : target_ok target ->
  resolve_plain_http_target target hs = Some (host, port, path) -> target_ok path.
Proof.
  intros Ht. unfold resolve_plain_http_target.
  assert (forall pre r d, target = pre ++ r -> (let '(authority, p) := split_path r in
    if bool_decide (authority = []) then None else let '(h, q) := split_authority authority d in Some (h, q, p)) = Some (host, port, path) ->
    target_ok path) as Habs.
  { intros pre r d ->. destruct (split_path r) as [a p] eqn:Ep. case_bool_decide; [done|]. destruct (split_authority a d). intros [= _ _ <-].
    destruct (split_path_target _ _ _ Ep) as [[q ->] | ->]; [|apply root_ok]. by do 2 apply target_ok_tail in Ht. }
  destruct (strip_prefix (lit "http://") target) as [r|] eqn:E; [apply strip_prefix_Some in E; by eapply Habs|].
  destruct (strip_prefix (lit "https://") target) as [r'|] eqn:E'; [apply strip_prefix_Some in E'; by eapply Habs|].
  destruct (starts_with target [47]); [|done]. intros (v & _ & H)%bind_Some. destruct (split_authority v 80). by injection H as _ _ <-.
Qed.

Lemma plain_head_sent m version hs path :
  rewrite_plain_http_request_head m version hs path = sent_head m path version (plain_headers hs).
Proof. unfold rewrite_plain_http_request_head, sent_head, plain_headers. rewrite bind_app, <- !app_assoc. do 7 f_equal. Qed.

Lemma plain_drops hs : Forall (fun kv : str * str => plain_skips (fst kv) = true -> kv = (lit "Connection", lit "close")) (plain_headers hs).
Proof.
  apply Forall_app. split; [|by repeat constructor]. apply Forall_forall. intros kv [E _]%list_elem_of_filter. by rewrite E.
Qed.

(** The request a plain-HTTP proxy client sends is sent on as the same request.
    Whatever head the client wrote, the head [rewrite_plain_http_request_head] builds for the
    target [resolve_plain_http_target] found parses back to the client's method and version,
    the target's path and the client's headers in their order, less the proxy and connection
    headers, with one [Connection: close]; no header value can smuggle in another line.  The
    body's framing is the client's, so the bytes spliced behind the head are read as the body
    they were. *)
Theorem plain_http_sent_on (head : bytes) (m target version : str) (hs : headers_t) (host : str) (port : Z) (path : str)
  (Hb : bytes_ok head) (Hp : parse_request_head head = Some (m, target, version, hs))
  (Hr : resolve_plain_http_target target hs = Some (host, port, path)) :
  let sent := rewrite_plain_http_request_head m version hs path in
  parse_request_head sent = Some (m, path, version, plain_headers hs) /\
  framing (plain_headers hs) = framing hs /\
  Forall (fun kv : str * str => plain_skips (fst kv) = true -> kv = (lit "Connection", lit "close")) (plain_headers hs).
Proof.
  cbn zeta. split_and!; [|apply plain_framing|apply plain_drops]. rewrite plain_head_sent. apply parse_sent_head.
  destruct (parsed_head_ok _ _ _ _ _ Hb Hp) as [Hm Ht Hv Hh]. constructor; [done|by apply (resolved_path_ok target hs host port)|done|].
  apply Forall_app. split; [by apply filter_ok|apply Forall_singleton, close_ok].
Qed.

(** A browser's absolute-form request. *)
Lemma plain_http_sent_on_witness : parse_request_head (rewrite_plain_http_request_head (lit "GET") (lit "HTTP/1.1")
    [(lit "Host", lit "h.io"); (lit "Proxy-Authorization", lit "x")] (lit "/a"))
  = Some (lit "GET", lit "/a", lit "HTTP/1.1", [(lit "Host", lit "h.io"); (lit "Connection", lit "close")]).
Proof.
  refine (proj1 (plain_http_sent_on (lit "GET http://h.io:8080/a HTTP/1.1" ++ CRLF ++ lit "Host: h.io" ++ CRLF ++ lit "Proxy-Authorization: x" ++ CRLF2)
    (lit "GET") (lit "http://h.io:8080/a") (lit "HTTP/1.1") [(lit "Host", lit "h.io"); (lit "Proxy-Authorization", lit "x")]
    (lit "h.io") 8080 (lit "/a") _ eq_refl eq_refl)).
  apply Forall_forall. intros c Hc. unfold is_u8. revert c Hc. apply Forall_forall. by apply (bool_decide_unpack _).
Defined.

(** ** Requests of the forwarder *)
Definition needs_length (m : str) (body : bytes) : bool :=
  negb (bool_decide (body = [])) || existsb (fun v => eq_ignore_ascii_case m (lit v)) ["POST"; "PUT"; "PATCH"]%string.

Definition forward_headers (m host : str) (hs : headers_t) (body : bytes) : headers_t :=
  [(lit "Host", host); (lit "Connection", lit "close")]
  ++ (if needs_length m body then [(lit "Content-Length", dec_string (len body))] else [])
  ++ filter (fun kv : str * str => forward_skips (fst kv) = false) hs.

Lemma forward_head_sent m host path hs body :
  build_sni_forward_request_bytes m host 443 path hs body
  = sent_head m path (lit "HTTP/1.1") (forward_headers m host hs body) ++ body.
Proof.
  assert (as_bytes (dec_string (len body)) = dec_string (len body)) as Ed by (by apply as_bytes_ascii, dec_string_ascii; unfold len; lia).
  unfold build_sni_forward_request_bytes, sent_head, forward_headers. cbn [Z.eqb Pos.eqb orb]. fold (needs_length m body).
  rewrite !bind_app, bind_cons, bind_cons. destruct (needs_length m body); [rewrite bind_cons|];
    unfold request_header; cbn [fst snd]; rewrite ?Ed, <- !app_assoc; reflexivity.
Qed.

Lemma forward_header_absent hs n : existsb (fun v => eq_ignore_ascii_case n (lit v))
    ["host"; "connection"; "proxy-connection"; "keep-alive"; "transfer-encoding"; "content-length"; "te"; "trailer"; "upgrade"]%string = true ->
  find_header (filter (fun kv : str * str => forward_skips (fst kv) = false) hs) n = None.
Proof.
  intros Hn. apply find_header_absent, Forall_forall. intros kv [Hs _]%list_elem_of_filter.
  destruct (eq_ignore_ascii_case (fst kv) n) eqn:E; [|done]. exfalso. unfold forward_skips in Hs.
  unfold eq_ignore_ascii_case in *. apply bool_decide_eq_true in E. rewrite E in Hs. congruence.
Qed.

Lemma forward_framing m host hs body : len body <= u64_max ->
  framing (forward_headers m host hs body) = Ok (if needs_length m body then LengthBody (len body) else NoBody).
Proof.
  intros Hl. unfold forward_headers, framing.
  assert (forall n, eq_ignore_ascii_case (lit "Host") n = false -> eq_ignore_ascii_case (lit "Connection") n = false ->
    forall l, find_header ([(lit "Host", host); (lit "Connection", lit "close")] ++ l) n = find_header l n) as Hskip.
  { intros n E1 E2 l. apply find_header_app. by repeat constructor. }
  rewrite !Hskip by reflexivity. destruct (needs_length m body).
  - rewrite (find_header_app [(lit "Content-Length", _)] _ (lit "transfer-encoding")) by (by repeat constructor). rewrite forward_header_absent by reflexivity.
    change (find_header ([(lit "Content-Length", dec_string (len body))] ++ ?l) (lit "content-length")) with (Some (dec_string (len body))).
    cbn iota. unfold parse_u64. rewrite parse_dec_string by (unfold len, u64_max in *; lia). done.
  - cbn [app]. by rewrite !forward_header_absent.
Qed.

Lemma fixed_path_prefix host path : exists q, path = fixed_path host path ++ q.
Proof.
  unfold fixed_path. destruct (_ && _ && _); [|exists []; by rewrite app_nil_r]. destruct (split_once [38] path) as [[a b]|] eqn:E; [|exists []; by rewrite app_nil_r].
  apply split_once_Some in E. by eexists.
Qed.

Lemma target_ok_front q p : target_ok (q ++ p) -> target_ok q.
Proof. intros ([? _]%Forall_app & [? _]%crlf_free_app & H32). split_and!; [done..|set_solver]. Qed.

(** A request handed to the SNI-rewrite forwarder is the client's request, framed
    unambiguously however the client had framed it.  The bytes are a head and the decoded
    body; the head parses to the client's method, the client's path (for x.com without the
    parameters the relay drops) and [HTTP/1.1], with the real host and [Connection: close]
    first and the client's other headers in their order; the framing the head announces is
    exactly the body that follows: no [Transfer-Encoding], one [Content-Length] of its
    length, or no body at all. *)
Theorem forwarded_request (head : bytes) (m path version : str) (hs : headers_t) (host : str) (body : bytes)
  (Hb : bytes_ok head) (Hp : parse_request_head head = Some (m, path, version, hs))
  (Hhost : clean_str host) (Hlen : len body <= MAX_REQUEST_BODY_BYTES) :
  exists sent, build_sni_forward_request_bytes m host 443 (fixed_path host path) hs body = sent ++ body /\
    parse_request_head sent = Some (m, fixed_path host path, lit "HTTP/1.1", forward_headers m host hs body) /\
    framing (forward_headers m host hs body) = Ok (if needs_length m body then LengthBody (len body) else NoBody) /\
    (needs_length m body = false -> body = []).
Proof.
  eexists. split; [apply forward_head_sent|]. split_and!.
  - destruct (parsed_head_ok _ _ _ _ _ Hb Hp) as [Hm Ht Hv Hh]. apply parse_sent_head.
    destruct (fixed_path_prefix host path) as [q Hq]. rewrite Hq in Ht. constructor; [done|by eapply target_ok_front| |].
    + split; [repeat constructor; unfold char_ok; lia|crlf_free_lit].
    + unfold forward_headers. apply Forall_app. split; [|apply Forall_app; split; [|by apply filter_ok]].
      * constructor; [|apply Forall_singleton, close_ok]. apply clean_header_ok. split_and!; cbn [fst snd]; [clean_name|by apply lit_no|done].
      * destruct (needs_length m body); [|constructor]. apply Forall_singleton, length_ok. unfold len. lia.
  - apply forward_framing. unfold MAX_REQUEST_BODY_BYTES, u64_max in *. lia.
  - unfold needs_length. rewrite orb_false_iff, negb_false_iff, bool_decide_eq_true. by intros [? _].
Qed.

(** A chunked GET is forwarded with a length. *)
Lemma forwarded_request_witness : exists sent,
  build_sni_forward_request_bytes (lit "GET") (lit "h.io") 443 (lit "/a") [(lit "Transfer-Encoding", lit "chunked")] (lit "xy") = sent ++ lit "xy" /\
  framing (forward_headers (lit "GET") (lit "h.io") [(lit "Transfer-Encoding", lit "chunked")] (lit "xy")) = Ok (LengthBody 2).
Proof.
  destruct (forwarded_request (lit "GET /a HTTP/1.1" ++ CRLF ++ lit "Transfer-Encoding: chunked" ++ CRLF2)
    (lit "GET") (lit "/a") (lit "HTTP/1.1") [(lit "Transfer-Encoding", lit "chunked")] (lit "h.io") (lit "xy")) as (sent & E & _ & F & _).
  - apply Forall_forall. intros c Hc. unfold is_u8. revert c Hc. apply Forall_forall. by apply (bool_decide_unpack _).
  - reflexivity.
  - clean_name.
  - by vm_compute.
  - exists sent. split; [exact E|exact F].
Defined.
