(* ===== verification/MitmRoutes.v ===== *)
(** * The HTTP proxy's requests: where they go

    One request inside the MITM, from the stream to what is sent upstream; what CORS
    injection keeps of a reply; and the routes of requests that the path filter and the
    plain-HTTP entry decide otherwise than their documentation says. *)

From stdpp Require Import prelude gmap.
From S2P Require Import Prelude RustStr HttpText HttpRead HttpRewrite HostMatch HostRules RoutingRules.
From S2P Require Import DirectMode Dispatch DispatchRules RequestRead MitmRequest MitmRules.
#[local] Open Scope Z_scope.

(** ** Upstream effects *)
Definition is_write (e : Effect) : bool := match e with EWrite _ => true | _ => false end.
Definition upstream (l : list Effect) : list Effect := filter (fun e => is_write e = false) l.

Lemma upstream_app a b : upstream (a ++ b) = upstream a ++ upstream b.
Proof. apply filter_app. Qed.

(** The relay's part of a request. *)
Definition relayed (m url : str) (hs : headers_t) (body : bytes) : Effect :=
  if eq_ignore_ascii_case m (lit "GET") && bool_decide (body = [])
  then ERelayRange m url hs (find_header hs (lit "origin")) else ERelay m url hs body.

(** The forwarder's part. *)
Definition forwarded (c : RewriteCtx) (m host path : str) (hs : headers_t) (body : bytes) : Effect :=
  EForward (default (google_ip c) (hosts_override (rc_hosts c) host)) (front_domain c) 443
    (build_sni_forward_request_bytes m host 443 path hs body).

Lemma upstream_relay relay m url hs body : upstream (relay_request relay m url hs body) = [relayed m url hs body].
Proof. unfold relay_request, relayed. by destruct (_ && _). Qed.

Lemma eligible_inv c scheme host port m url : forwarder_eligible c scheme host port m url = true ->
  scheme = lit "https" /\ port = 443 /\ safe_for_forwarder m = true /\ exit_node_full_mode_active c = false /\
  host_in_force_mitm_list host (force_mitm_hosts c) = true /\ url_matches_relay_pattern url (relay_url_patterns c) = false.
Proof.
  unfold forwarder_eligible. rewrite !andb_true_iff, !negb_true_iff, bool_decide_eq_true, Z.eqb_eq. tauto.
Qed.

(** A method of [parse_request_head] is upper case, so the case-insensitive comparisons are equalities. *)
Lemma method_cases m : is_valid_http_method m = true ->
  (eq_ignore_ascii_case m (lit "OPTIONS") = true <-> m = lit "OPTIONS") /\
  (safe_for_forwarder m = true <-> m = lit "GET" \/ m = lit "HEAD" \/ m = lit "OPTIONS").
Proof.
  unfold is_valid_http_method. rewrite existsb_elem. intros (x & Hx & ->%bool_decide_eq_true).
  repeat (apply elem_of_cons in Hx as [->|Hx]; [split; vm_compute; intuition congruence|]). by apply elem_of_nil in Hx.
Qed.

Lemma parsed_method head m target version hs : parse_request_head head = Some (m, target, version, hs) -> is_valid_http_method m = true.
Proof.
  unfold parse_request_head. intros (s & _ & H)%bind_Some. destruct (split_pat _ _ _); [done|]. apply bind_Some in H as ([[? ?] ?] & _ & H).
  case_match; [done|]. injection H as -> _ _ _. by apply negb_false_iff.
Qed.

Section routed.
Context (forward : str -> str -> Z -> bytes -> option bytes) (relay : str -> str -> headers_t -> bytes -> bytes).

(** The request has been read, and it is [upstream effs] that goes out for it. *)
Definition sends (c : RewriteCtx) (scheme host : str) (port : Z) (m path : str) (hs : headers_t) (body : bytes)
    (effs : list Effect) (keep : bool) : Prop :=
  let path := fixed_path host path in
  let url := request_url scheme host port path in
  let eligible := forwarder_eligible c scheme host port m url in
  let answered := bool_decide (is_Some (forward (default (google_ip c) (hosts_override (rc_hosts c) host)) (front_domain c) 443
                    (build_sni_forward_request_bytes m host 443 path hs body))) in
  upstream effs =
    (if bool_decide (m = lit "OPTIONS") then [] else
     if eligible then forwarded c m host path hs body :: (if answered then [] else [relayed m url hs body])
     else [relayed m url hs body]) /\
  (m ∉ [lit "GET"; lit "HEAD"; lit "OPTIONS"] -> upstream effs = [ERelay m url hs body]) /\
  (exit_node_full_mode_active c = true \/ url_matches_relay_pattern url (relay_url_patterns c) = true ->
   m <> lit "OPTIONS" -> upstream effs = [relayed m url hs body]) /\
  (keep = true -> connection_close hs = false).

Lemma serve_request_sends c scheme host port m path hs body first :
  is_valid_http_method m = true -> upstream first = [] ->
  let '(effs, keep) := serve_request forward relay c scheme host port m path hs body in
  sends c scheme host port m path hs body (first ++ effs) keep.
Proof.
  intros Hm Hf. destruct (method_cases m Hm) as [Ho Hs]. unfold serve_request, sends.
  set (p := fixed_path host path). set (url := request_url scheme host port p).
  assert (m ∉ [lit "GET"; lit "HEAD"; lit "OPTIONS"] -> relayed m url hs body = ERelay m url hs body) as Hrel.
  { intros Hn. unfold relayed. destruct (eq_ignore_ascii_case m (lit "GET")) eqn:E; [|done]. exfalso.
    apply Hn. assert (safe_for_forwarder m = true) as [-> | [-> | ->]]%Hs by (unfold safe_for_forwarder; cbn [existsb]; by rewrite E); set_solver. }
  destruct (eq_ignore_ascii_case m (lit "OPTIONS")) eqn:Eo.
  { pose proof (proj1 Ho eq_refl) as ->. rewrite upstream_app, Hf. rewrite bool_decide_eq_true_2 by done.
    split_and!; [done|set_solver|done|by destruct (connection_close hs)]. }
  assert (m <> lit "OPTIONS") as Hno by (intros E; apply Ho in E; congruence).
  rewrite (bool_decide_eq_false_2 (m = lit "OPTIONS")) by done.
  destruct (forwarder_eligible c scheme host port m url) eqn:El.
  - apply eligible_inv in El as (_ & -> & Hsafe & Hex & _ & Hpat). apply Hs in Hsafe.
    assert (m ∈ [lit "GET"; lit "HEAD"; lit "OPTIONS"]) as Hin by (destruct Hsafe as [-> | [-> | ->]]; set_solver).
    assert (exit_node_full_mode_active c = true \/ url_matches_relay_pattern url (relay_url_patterns c) = true -> False) as Hnot
      by (intros [|]; congruence).
    destruct (forward _ _ _ _) as [resp|] eqn:Ef; rewrite upstream_app, Hf.
    + split_and!; [done|done|by intros ?%Hnot|done].
    + rewrite bool_decide_eq_false_2 by (by intros [? ?]). cbn [fst snd app].
      change (?x :: relay_request ?a ?b ?d ?e ?f) with ([x] ++ relay_request a b d e f). rewrite upstream_app, upstream_relay.
      split_and!; [done|done|by intros ?%Hnot|by destruct (connection_close hs)].
  - rewrite upstream_app, Hf, upstream_relay. cbn [app]. split_and!; [done|by intros ->%Hrel|done|by destruct (connection_close hs)].
Qed.

(** Claim C20: a request inside the MITM is read whole, refused or routed, and is sent
    upstream as often as it may be.  The handler neither runs out nor panics.  When it
    returns, nothing was sent and the connection is closed, or one request was read
    from the stream and what goes out for it is: nothing for a CORS preflight; for a
    GET or HEAD to a host pulled out of SNI rewriting, on a path no pattern covers, one
    request over the forwarder, and after it one over the relay exactly when the
    forwarder failed; in every other case one request over the relay.  A method with
    side effects is relayed exactly once with the body read; with the exit node in
    full mode, or on a path a pattern covers, everything is relayed. *)
Theorem mitm_request_routed (c : RewriteCtx) (scheme host : str) (port : Z) (st : Stream) :
  exists r, handle_mitm_request forward relay c scheme host port st = Some r /\ r <> Panic /\
    forall effs keep st', r = Ok (effs, keep, st') ->
      (keep = false /\ upstream effs = []) \/
      exists head leftover st1 m path version hs body,
        read_http_head (S (stream_size st)) [] st = Some (Ok (HeadGot head leftover, st1)) /\
        parse_request_head head = Some (m, path, version, hs) /\
        snd (read_request_body leftover hs st1) = Some (Ok (body, st')) /\ len body <= MAX_REQUEST_BODY_BYTES /\
        sends c scheme host port m path hs body effs keep.
Proof.
  unfold handle_mitm_request. destruct (read_http_head_total (S (stream_size st)) [] st) as (r & Hr & Hn); [lia|]. rewrite Hr.
  destruct r as [[[head leftover| |] st1]|e|]; [|..|done].
  2-4: eexists; split_and!; [done|done|]; intros effs keep st' [= <- <- <-]; by left.
  destruct (parse_request_head head) as [[[[m path] version] hs]|] eqn:Ep;
    [|eexists; split_and!; [done|done|]; intros effs keep st' [= <- <- <-]; by left].
  destruct (request_body_ok leftover hs st1) as (r & Hb & Hnp & Hlen).
  destruct (read_request_body leftover hs st1) as [wrote r'] eqn:Erb. cbn [snd] in Hb. subst r'.
  assert (upstream (if bool_decide (wrote = []) then [] else [EWrite wrote]) = []) as Hup by (by case_bool_decide).
  destruct r as [[body st2]|e|]; [|..|done].
  - pose proof (serve_request_sends c scheme host port m path hs body _ (parsed_method _ _ _ _ _ Ep) Hup) as Hs.
    destruct (serve_request _ _ _ _ _ _ _ _ _ _) as [effs0 keep0]. eexists. split_and!; [done|done|].
    intros effs keep st' [= <- <- <-]. right. exists head, leftover, st1, m, path, version, hs, body.
    rewrite Erb. split_and!; try done. by apply (Hlen body st2).
  - destruct e; eexists; (split_and!; [done|done|]); intros effs keep st'; [done|]. intros [= <- <- <-]. left.
    by rewrite upstream_app, Hup.
Qed.
End routed.

(** ** CORS headers on a reply *)
Lemma strip_suffix_app (p s : bytes) : strip_suffix p (s ++ p) = Some s.
Proof. unfold strip_suffix. rewrite reverse_app, strip_prefix_app. cbn [fmap option_fmap option_map]. by rewrite reverse_involutive. Qed.

Lemma split_once_free s : crlf_free s -> split_once CRLF s = None.
Proof.
  induction s as [|c s IH]; [done|]. intros [Hc Hs]. cbn [split_once]. rewrite IH by done.
  destruct (strip_prefix CRLF (c :: s)) as [r|] eqn:E; [|done]. apply strip_prefix_Some in E. injection E as -> ->. by specialize (Hc eq_refl).
Qed.

Lemma split_pat_last n t : crlf_free t -> split_pat n CRLF t = [t].
Proof. intros H. destruct n; [done|]. cbn [split_pat]. by rewrite split_once_free. Qed.

(** Lines joined by CRLF are the lines of the text. *)
Lemma split_joined ls t fuel : Forall crlf_free ls -> crlf_free t -> (length ls <= fuel)%nat ->
  split_pat fuel CRLF ((ls ≫= (fun l => l ++ CRLF)) ++ t) = ls ++ [t].
Proof. intros Hl Ht Hf. rewrite split_pat_lines by done. by rewrite split_pat_last. Qed.

Lemma crlf_bind_length (ls : list str) : (length ls <= length (ls ≫= (fun l => l ++ CRLF)))%nat.
Proof. induction ls as [|l ls IH]; [done|]. rewrite bind_cons, !length_app. cbn [length CRLF]. lia. Qed.

Lemma str_ok_bind ls : Forall str_ok ls -> str_ok (ls ≫= (fun l => l ++ CRLF)).
Proof.
  induction 1 as [|l ls Hl _ IH]; [constructor|]. rewrite bind_cons. apply Forall_app. split; [|exact IH].
  apply Forall_app. split; [exact Hl|]. repeat constructor; unfold char_ok; lia.
Qed.

(** The lines of a reply's head after injection. *)
Definition cors_head (s origin : str) : list str :=
  match split_pat (length s) CRLF s with
  | [] => []
  | status :: lines => status :: filter (fun l => is_cors_line l = false) lines
  end ++ cors_lines origin.

Lemma cors_lines_ok origin : str_ok origin -> crlf_free origin -> Forall str_ok (cors_lines origin) /\ Forall crlf_free (cors_lines origin).
Proof.
  intros Hs Hf. split.
  - constructor; [apply Forall_app; split; [|done]|]; repeat constructor; unfold char_ok; lia.
  - constructor; [|repeat (constructor; [crlf_free_lit|]); constructor].
    change (lit "Access-Control-Allow-Origin: ") with (lit "Access-Control-Allow-Origin:" ++ [32]). rewrite <- app_assoc.
    apply crlf_free_join; [done|crlf_free_lit|by split].
Qed.

Lemma cors_head_ok s origin : str_ok s -> str_ok origin -> crlf_free origin ->
  Forall str_ok (cors_head s origin) /\ Forall crlf_free (cors_head s origin).
Proof.
  intros Hs Ho Hf. destruct (cors_lines_ok origin Ho Hf) as [H1 H2]. unfold cors_head.
  pose proof (split_pat_ok (length s) CRLF s Hs) as Ha. pose proof (split_all_free s) as Hb.
  destruct (split_pat (length s) CRLF s) as [|st ls]; [done|]. apply Forall_cons in Ha as [? Ha], Hb as [? Hb].
  assert (forall P, Forall P ls -> Forall P (filter (fun l => is_cors_line l = false) ls)) as Hfil.
  { intros P. rewrite !Forall_forall. intros HP l [_ Hl]%list_elem_of_filter. by apply HP. }
  split; (apply Forall_app; split; [constructor|]); auto.
Qed.

Definition vary_line : str := lit "Vary: Origin".

Lemma cors_head_last s origin : exists ls, cors_head s origin = ls ++ [vary_line].
Proof. unfold cors_head. eexists (_ ++ take 5 (cors_lines origin)). rewrite <- app_assoc. reflexivity. Qed.

Lemma inject_joined head origin s : from_utf8 head = Some s -> split_pat (length s) CRLF s <> [] ->
  inject_cors_into_head (head ++ CRLF2) origin
  = Some (as_bytes ((cors_head s origin ≫= (fun l => l ++ CRLF)) ++ CRLF)).
Proof.
  intros Hs Hne. unfold inject_cors_into_head. rewrite strip_suffix_app. cbn [from_option id]. rewrite Hs. cbn [mbind option_bind].
  do 2 f_equal. unfold cors_head. destruct (split_pat (length s) CRLF s); [done|]. by rewrite bind_app, bind_cons, <- !app_assoc.
Qed.

Lemma split_pat_ne fuel pat s : split_pat fuel pat s <> [].
Proof. destruct fuel; cbn [split_pat]; [done|]. by destruct (split_once pat s) as [[? ?]|]. Qed.

Lemma cors_only_ours s origin :
  filter (fun l => is_cors_line l = true) (tail (cors_head s origin)) = take 5 (cors_lines origin).
Proof.
  assert (filter (fun l => is_cors_line l = true) (cors_lines origin) = take 5 (cors_lines origin)) as Hours by reflexivity.
  unfold cors_head. pose proof (split_pat_ne (length s) CRLF s) as Hne. destruct (split_pat _ _ _) as [|st ls]; [done|].
  cbn [app tail]. rewrite filter_app, Hours.
  assert (filter (fun l => is_cors_line l = true) (filter (fun l => is_cors_line l = false) ls) = []) as ->; [|done].
  clear. induction ls as [|l ls IH]; [done|]. rewrite (filter_cons (fun l => is_cors_line l = false)).
  case_decide as E; [|exact IH]. rewrite filter_cons, decide_False by congruence. exact IH.
Qed.

(** CORS injection changes nothing of a reply but its access-control headers.  A
    reply without a head, or whose head is not UTF-8, is returned as it is.  Of any other the
    body is kept byte for byte, and the lines of the new head are the status line, the
    reply's other headers in their order, and then the headers for this origin, which are
    the only access-control headers left. *)
Theorem cors_injection (response head body : bytes) (origin : str) (Hb : bytes_ok response)
  (Hsplit : split_once CRLF2 response = Some (head, body)) (Ho : str_ok origin) (Hf : crlf_free origin) :
  match from_utf8 head with
  | None => inject_cors_response_headers response origin = response
  | Some s => exists head' s', inject_cors_response_headers response origin = head' ++ CRLF2 ++ body /\
      from_utf8 head' = Some s' /\ split_pat (length s') CRLF s' = cors_head s origin /\
      filter (fun l => is_cors_line l = true) (tail (cors_head s origin)) = take 5 (cors_lines origin)
  end.
Proof.
  pose proof (split_once_Some _ _ _ _ Hsplit) as E. unfold inject_cors_response_headers. rewrite Hsplit.
  destruct (from_utf8 head) as [s|] eqn:Es.
  - assert (str_ok s) as Hs by (subst response; apply Forall_app in Hb as [Hb _]; by apply from_utf8_inv in Es as [? _]).
    rewrite (inject_joined head origin s Es (split_pat_ne _ _ _)).
    destruct (cors_head_ok s origin Hs Ho Hf) as [H1 H2]. destruct (cors_head_last s origin) as [ls Els]. rewrite Els in *.
    apply Forall_app in H1 as [H1 H1'], H2 as [H2 H2']. apply Forall_cons in H1' as [H1' _], H2' as [H2' _].
    set (t := (ls ≫= (fun l => l ++ CRLF)) ++ vary_line). exists (as_bytes t), t. split_and!.
    + rewrite bind_app, bind_singleton. change CRLF2 with (CRLF ++ CRLF). unfold t.
      rewrite !as_bytes_app, <- !app_assoc. reflexivity.
    + apply from_utf8_as_bytes. apply Forall_app. split; [by apply str_ok_bind|done].
    + apply split_joined; [done|done|]. unfold t. rewrite length_app. pose proof (crlf_bind_length ls). lia.
    + rewrite <- Els. apply cors_only_ours.
  - unfold inject_cors_into_head. rewrite strip_suffix_app. cbn [from_option id]. by rewrite Es.
Qed.

(** A reply whose wildcard is replaced. *)
Lemma cors_injection_witness : exists head' s',
  inject_cors_response_headers (lit "HTTP/1.1 200 OK" ++ CRLF ++ lit "Access-Control-Allow-Origin: *" ++ CRLF ++ lit "X: 1" ++ CRLF2 ++ [200])
    (lit "https://a.b") = head' ++ CRLF2 ++ [200] /\
  from_utf8 head' = Some s' /\
  split_pat (length s') CRLF s' = [lit "HTTP/1.1 200 OK"; lit "X: 1"] ++ cors_lines (lit "https://a.b").
Proof.
  destruct (cors_injection (lit "HTTP/1.1 200 OK" ++ CRLF ++ lit "Access-Control-Allow-Origin: *" ++ CRLF ++ lit "X: 1" ++ CRLF2 ++ [200])
    (lit "HTTP/1.1 200 OK" ++ CRLF ++ lit "Access-Control-Allow-Origin: *" ++ CRLF ++ lit "X: 1") [200] (lit "https://a.b"))
    as (head' & s' & E & F & G & _).
  - apply Forall_forall. intros c Hc. unfold is_u8. revert c Hc. apply Forall_forall. by apply (bool_decide_unpack _).
  - reflexivity.
  - repeat constructor; unfold char_ok; lia.
  - crlf_free_lit.
  - exists head', s'. split_and!; [exact E|exact F|exact G].
Defined.

(** ** Plain HTTP and the routing policies *)

(** The effects of a client's connection, without the state left behind. *)
Definition client_effects (r : option (res (list Effect * (RewriteCtx * Tables)) ReqErr)) : option (res (list Effect) ReqErr) :=
  match r with
  | Some (Ok (l, _)) => Some (Ok l)
  | Some (Err e) => Some (Err e)
  | Some Panic => Some Panic
  | None => None
  end.

(** A plain-HTTP request through the proxy port is relayed by Apps Script whenever a
    relay client exists, whatever the routing configuration: outside Drive mode the effects
    are the same under every context, so [passthrough_hosts] (which wins over every other
    path for a CONNECT) and, in full mode, the tunnel multiplexer (which all traffic is said
    to go through) are not consulted. *)
Theorem plain_http_policy_blind relay (w : World) (c1 c2 : RewriteCtx) (t : Tables) (has_drive : bool)
    (unreachable : option (str -> Z -> bool)) (st st1 : Stream) (head leftover : bytes) (m target version : str) (hs : headers_t)
  (Hr : read_http_head (S (stream_size st)) [] st = Some (Ok (HeadGot head leftover, st1)))
  (Hp : parse_request_head head = Some (m, target, version, hs)) (Hm : m <> lit "CONNECT")
  (H1 : rc_mode c1 <> Drive) (H2 : rc_mode c2 <> Drive) :
  client_effects (handle_http_client relay w c1 t true has_drive unreachable st)
  = client_effects (handle_http_client relay w c2 t true has_drive unreachable st) /\
  client_effects (handle_http_client relay w c1 t true has_drive unreachable st) = do_plain_http relay head leftover st1.
Proof.
  assert (eq_ignore_ascii_case m (lit "CONNECT") = false) as Hc.
  { pose proof (parsed_method _ _ _ _ _ Hp) as Hv. revert Hv Hm. unfold is_valid_http_method. rewrite existsb_elem.
    intros (x & Hx & ->%bool_decide_eq_true). repeat (apply elem_of_cons in Hx as [->|Hx]; [by vm_compute|]). by apply elem_of_nil in Hx. }
  assert (forall c, rc_mode c <> Drive ->
    client_effects (handle_http_client relay w c t true has_drive unreachable st) = do_plain_http relay head leftover st1) as H.
  { intros c Hd. unfold handle_http_client. rewrite Hr, Hp, Hc. rewrite bool_decide_eq_false_2 by done.
    by destruct (do_plain_http relay head leftover st1) as [[l|e|]|]. }
  split; [by rewrite !H|by apply H].
Qed.

(** A GET for a pass-through host in full mode. *)
Lemma plain_http_policy_blind_witness :
  client_effects (handle_http_client (fun _ _ _ _ => []) example_world
    (mkRewrite [] [] ∅ None Full false [] [] false [lit "h.io"] false false [] [] None false true true false) (mkTables (mkBypassState ∅ None) ∅)
    true false (Some (fun _ _ => false)) [RdBytes (lit "GET http://h.io/ HTTP/1.1" ++ CRLF2)])
  = Some (Ok [ERelayRange (lit "GET") (lit "http://h.io/") [] None]).
Proof.
  destruct (plain_http_policy_blind (fun _ _ _ _ => []) example_world
    (mkRewrite [] [] ∅ None Full false [] [] false [lit "h.io"] false false [] [] None false true true false)
    (mkRewrite [] [] ∅ None Full false [] [] false [lit "h.io"] false false [] [] None false true true false) (mkTables (mkBypassState ∅ None) ∅)
    false (Some (fun _ _ => false)) [RdBytes (lit "GET http://h.io/ HTTP/1.1" ++ CRLF2)] []
    (lit "GET http://h.io/ HTTP/1.1" ++ CRLF2) [] (lit "GET") (lit "http://h.io/") (lit "HTTP/1.1") []) as [_ H].
  - vm_compute. reflexivity.
  - vm_compute. reflexivity.
  - discriminate.
  - discriminate.
  - discriminate.
  - rewrite H. vm_compute. reflexivity.
Defined.

(** ** Bytes behind a CONNECT *)

(** The bytes a client sends right behind its CONNECT, in the same read as the head,
    reach no tunnel: the dispatcher is given the socket only, so a first flight sent without
    waiting for the proxy's answer is lost, and the route is the one of an empty stream. *)
Theorem connect_payload_lost :
  let run first := client_effects (handle_http_client (fun _ _ _ _ => []) example_world
    (mkRewrite [] [] ∅ None Full false [] [] false [] false false [] [] None false true true false) (mkTables (mkBypassState ∅ None) ∅)
    true false (Some (fun _ _ => false)) first) in
  run [RdBytes (lit "CONNECT h.io:443 HTTP/1.1" ++ CRLF2 ++ [22; 3; 1]); RdBytes [7]]
  = Some (Ok [EWrite reply_200_connect; EDispatch (RFull [RdBytes [7]])]) /\
  run [RdBytes (lit "CONNECT h.io:443 HTTP/1.1" ++ CRLF2); RdBytes [22; 3; 1]; RdBytes [7]]
  = Some (Ok [EWrite reply_200_connect; EDispatch (RFull [RdBytes [22; 3; 1]; RdBytes [7]])]).
Proof. cbn zeta. split; vm_compute; reflexivity. Qed.
