(* ===== verification/ConfigCheck.v ===== *)
(** * src/config.rs: what a configuration is checked for

    The fields [Config::validate] reads, the deployment list, the language tag, the shapes
    of relay patterns and Direct Mode hostnames, and [validate] itself with its checks in
    their order; and [build_camouflage_connector] of src/camouflage.rs as far as it refuses
    a list of names.  A refusal is one constructor per message.

    rustls's [ServerName::try_from] is the parameter [valid_sni]. *)

From stdpp Require Import prelude gmap.
From S2P Require Import Prelude RustStr Frame IpAddr Crypto HttpText HostMatch DirectMode Dispatch.
#[local] Open Scope Z_scope.

Definition is_ascii_alphabetic (c : Z) : bool := between 65 c 90 || between 97 c 122.
Definition is_ascii_alphanumeric (c : Z) : bool := is_ascii_alphabetic c || is_digit c.

(** ** Deployments *)
Inductive ScriptIdEntryWire := Bare (id : str) | Object (id : str) (enabled : bool).
Record ScriptIdEntry := mkEntry { se_id : str; se_enabled : bool }.
#[export] Instance ScriptIdEntry_eq_dec : EqDecision ScriptIdEntry.
Proof. solve_decision. Defined.
Inductive ScriptId := One (s : str) | Many (v : list ScriptIdEntryWire).

Definition into_entry (w : ScriptIdEntryWire) : ScriptIdEntry :=
  match w with Bare id => mkEntry id true | Object id enabled => mkEntry id enabled end.

Definition into_entries (s : ScriptId) : list ScriptIdEntry :=
  match s with One s => [mkEntry s true] | Many v => into_entry <$> v end.

Definition enabled_ids (l : list ScriptIdEntry) : list str := se_id <$> filter (fun e => se_enabled e = true) l.

Definition into_vec (s : ScriptId) : list str := enabled_ids (into_entries s).

(** The closure [absorb]: the entries pushed and the ids seen. *)
Fixpoint absorb (l : list ScriptIdEntry) (out : list ScriptIdEntry) (seen : gset str) : list ScriptIdEntry * gset str :=
  match l with
  | [] => (out, seen)
  | e :: l => if bool_decide (se_id e ∈ seen) then absorb l out seen else absorb l (out ++ [e]) ({[se_id e]} ∪ seen)
  end.

Definition absorb_opt (s : option ScriptId) (os : list ScriptIdEntry * gset str) : list ScriptIdEntry * gset str :=
  match s with Some s => absorb (into_entries s) (fst os) (snd os) | None => os end.

(** ** The configuration *)
Record DriveConfig := mkDrive {
  oauth_client_id : str; oauth_client_secret : str; oauth_refresh_token : str; folder_id : str; relay_pubkey : str;
  poll_interval_ms : Z; max_concurrent_uploads : Z }.

Record Config := mkConfig {
  cf_mode : str; cf_auth_key : str; cf_script_id : option ScriptId; cf_script_ids : option ScriptId;
  cf_drive : DriveConfig; cf_google_ip : str; cf_scan_batch_size : Z;
  cf_listen_port : Z; cf_socks5_port : option Z;
  cf_fronting_groups : list FrontingGroup; cf_relay_url_patterns : list str;
  cf_youtube_via_relay : bool; cf_exit_node : bool * str * str * str;
  cf_direct_mode : DirectModeConfig; cf_apps_script_lang : str }.

Definition script_id_entries (c : Config) : list ScriptIdEntry :=
  fst (absorb_opt (cf_script_ids c) (absorb_opt (cf_script_id c) ([], ∅))).

Definition script_ids_resolved (c : Config) : list str := enabled_ids (script_id_entries c).

(** ** The language tag *)
Definition lang_part (p : Z -> bool) (s : str) : bool :=
  negb (bool_decide (s = [])) && (len (as_bytes s) <=? 8) && forallb p s.

Definition sanitize_apps_script_lang (raw : str) : option str :=
  let v := to_ascii_lowercase (trim raw) in
  if bool_decide (v = []) || (10 <? len (as_bytes v)) then None else
  match split_on 45 v with
  | [] => None
  | [h] => if lang_part is_ascii_alphabetic h then Some v else None
  | [h; region] => if lang_part is_ascii_alphabetic h && lang_part is_ascii_alphanumeric region then Some v else None
  | _ => None
  end.

Definition apps_script_lang_resolved (c : Config) : str := default (lit "en") (sanitize_apps_script_lang (cf_apps_script_lang c)).

(** ** Host names *)
Inductive NameError :=
| NEmpty | NSchemeOnly | NNoHost | NTooLong (n : Z) | NEmptyLabel | NLabelTooLong (label : str)
| NHyphen (label : str) | NBadChar (label : str)
| NWhitespace | NUrl | NPath | NColon | NOnlyDots.

Definition hyphen_ends (label : str) : bool :=
  bool_decide (head (as_bytes label) = Some 45) || bool_decide (last (as_bytes label) = Some 45).

Definition ldh_char (c : Z) : bool := is_ascii_alphanumeric c || (c =? 45).

Fixpoint pattern_labels (ls : list str) : res unit NameError :=
  match ls with
  | [] => Ok tt
  | l :: ls =>
    if bool_decide (l = []) then Err NEmptyLabel
    else if 63 <? len (as_bytes l) then Err (NLabelTooLong l)
    else if hyphen_ends l then Err (NHyphen l)
    else if negb (forallb ldh_char l) then Err (NBadChar l)
    else pattern_labels ls
  end.

Definition validate_relay_url_pattern (p : str) : res unit NameError :=
  let trimmed := trim p in
  if bool_decide (trimmed = []) then Err NEmpty else
  let no_scheme := strip_scheme (to_ascii_lowercase trimmed) in
  if bool_decide (no_scheme = []) then Err NSchemeOnly else
  let host := match split_once [47] no_scheme with Some (h, _) => h | None => no_scheme end in
  let host := trim_end_matches 46 host in
  if bool_decide (host = []) then Err NNoHost
  else if 253 <? len (as_bytes host) then Err (NTooLong (len (as_bytes host)))
  else pattern_labels (split_on 46 host).

Fixpoint hostname_labels (ls : list str) : res unit NameError :=
  match ls with
  | [] => Ok tt
  | l :: ls =>
    if bool_decide (l = []) then Err NEmptyLabel
    else if 63 <? len (as_bytes l) then Err (NLabelTooLong l)
    else if negb (forallb ldh_char l) then Err (NBadChar l)
    else if starts_with l [45] || ends_with l [45] then Err (NHyphen l)
    else hostname_labels ls
  end.

Definition validate_direct_mode_hostname (raw : str) : res unit NameError :=
  let trimmed := trim raw in
  if bool_decide (trimmed = []) then Err NEmpty
  else if existsb (fun c => (c =? 32) || (c =? 9) || (c =? 13) || (c =? 10)) raw then Err NWhitespace
  else if contains trimmed (lit "://") || starts_with trimmed (lit "//") then Err NUrl
  else if contains trimmed [47] then Err NPath
  else if contains trimmed [58] then Err NColon
  else
    let stripped := trim_end_matches 46 (trim_start_matches 46 trimmed) in
    if bool_decide (stripped = []) then Err NOnlyDots
    else if 253 <? len (as_bytes stripped) then Err (NTooLong (len (as_bytes stripped)))
    else hostname_labels (split_on 46 stripped).

(** ** [validate] *)
Inductive ConfigError :=
| CMode | CAuthKey | CNoScript | CBadScript (id : str)
| CDriveClientId | CDriveSecret | CDriveRefresh | CDriveFolder | CDrivePubkey | CDriveBadPubkey (e : PubkeyParseError)
| CDrivePoll | CDriveUploads | CDriveNoIp | CDriveBadIp (ip : str)
| CScanBatch | CSamePort (port : Z)
| CGroupName (i : nat) | CGroupIp (i : nat) | CGroupSni (i : nat) | CGroupBadSni (i : nat)
| CGroupNoDomains (i : nat) | CGroupDomain (i : nat) | CGroupVerify (i : nat) | CGroupBadVerify (i : nat)
| CPattern (i : nat) (e : NameError) | CHost (field : str) (i : nat) (e : NameError).

(** [for (i, x) in l.iter().enumerate() { check(i, x)? }] *)
Fixpoint each {A E} (check : nat -> A -> res unit E) (i : nat) (l : list A) : res unit E :=
  match l with [] => Ok tt | x :: l => let? _ := check i x in each check (S i) l end.

Definition blank (s : str) : bool := bool_decide (trim s = []).

(** [if cond { return Err(e) }] *)
Definition refuse {E} (cond : bool) (e : E) : res unit E := if cond then Err e else Ok tt.

Section validate.
Context {P : CryptoPrims} (valid_sni : str -> bool).

Definition validate_apps_script (c : Config) : res unit ConfigError :=
  let? _ := refuse (blank (cf_auth_key c) || bool_decide (cf_auth_key c = lit "CHANGE_ME_TO_A_STRONG_SECRET")) CAuthKey in
  let ids := script_ids_resolved c in
  let? _ := refuse (bool_decide (ids = [])) CNoScript in
  each (fun _ id => refuse (bool_decide (id = []) || bool_decide (id = lit "YOUR_APPS_SCRIPT_DEPLOYMENT_ID")) (CBadScript id)) 0 ids.

Definition validate_drive (c : Config) : res unit ConfigError :=
  let d := cf_drive c in
  let? _ := refuse (blank (oauth_client_id d)) CDriveClientId in
  let? _ := refuse (blank (oauth_client_secret d)) CDriveSecret in
  let? _ := refuse (blank (oauth_refresh_token d)) CDriveRefresh in
  let? _ := refuse (blank (folder_id d)) CDriveFolder in
  let? _ := refuse (blank (relay_pubkey d)) CDrivePubkey in
  let? _ := map_err CDriveBadPubkey (from_bech32m (relay_pubkey d)) in
  let? _ := refuse (poll_interval_ms d =? 0) CDrivePoll in
  let? _ := refuse (max_concurrent_uploads d =? 0) CDriveUploads in
  let gip := trim (cf_google_ip c) in
  let? _ := refuse (bool_decide (gip = [])) CDriveNoIp in
  refuse (negb (bool_decide (is_Some (parse_ip gip)))) (CDriveBadIp gip).

Definition validate_group (i : nat) (g : FrontingGroup) : res unit ConfigError :=
  let? _ := refuse (blank (cg_name g)) (CGroupName i) in
  let? _ := refuse (negb (cg_force_ip g) && blank (cg_ip g)) (CGroupIp i) in
  let? _ := refuse (blank (cg_sni g)) (CGroupSni i) in
  let? _ := refuse (negb (valid_sni (cg_sni g))) (CGroupBadSni i) in
  let? _ := refuse (bool_decide (cg_domains g = [])) (CGroupNoDomains i) in
  let? _ := each (fun _ d => refuse (blank d) (CGroupDomain i)) 0 (cg_domains g) in
  each (fun _ v =>
    let v := trim_end_matches 46 (trim v) in
    let? _ := refuse (bool_decide (v = [])) (CGroupVerify i) in
    refuse (negb (valid_sni v)) (CGroupBadVerify i)) 0 (cg_verify_names g).

Definition host_list (field : string) (l : list str) : res unit ConfigError :=
  each (fun i h => map_err (CHost (lit field) i) (validate_direct_mode_hostname h)) 0 l.

Definition validate (c : Config) : res unit ConfigError :=
  let? mode := ok_or (mode_of_str (cf_mode c)) CMode in
  let? _ := if uses_apps_script_relay mode then validate_apps_script c else Ok tt in
  let? _ := if uses_drive_relay mode then validate_drive c else Ok tt in
  let? _ := refuse (cf_scan_batch_size c =? 0) CScanBatch in
  let? _ := refuse (bool_decide (cf_socks5_port c = Some (cf_listen_port c))) (CSamePort (cf_listen_port c)) in
  let? _ := each validate_group 0 (cf_fronting_groups c) in
  let? _ := each (fun i p => map_err (CPattern i) (validate_relay_url_pattern p)) 0 (cf_relay_url_patterns c) in
  let? _ := host_list "direct_mode.fronts" (dc_fronts (cf_direct_mode c)) in
  let? _ := host_list "direct_mode.google_domains" (dc_google (cf_direct_mode c)) in
  host_list "direct_mode.sanctioned_domains" (dc_sanctioned (cf_direct_mode c)).

(** Whether a connector can be built: some name is one, and the platform verifier exists. *)
Definition build_camouflage_connector (verifier : bool) (verify_names : list str) : bool :=
  let expected := filter (fun n => n <> [] /\ valid_sni n = true) ((fun n => trim_end_matches 46 (trim n)) <$> verify_names) in
  negb (bool_decide (expected = [])) && verifier.
End validate.

(** The part of a configuration the routing is resolved from. *)
Definition routing_config (c : Config) : RoutingConfig :=
  let '(en, m, u, k) := cf_exit_node c in mkRoutingConfig en m u k (cf_youtube_via_relay c) (cf_relay_url_patterns c).
