(* ===== verification/ConfigRules.v ===== *)
(** * A checked configuration, proved

    What [Config::validate] buys the rest of the program: every relay pattern routes the
    URLs it names, every fronting group and every Direct Mode entry survives start-up, the
    deployments are merged without duplicates and the language tag can be put into a URL. *)

From stdpp Require Import prelude gmap.
From S2P Require Import Prelude RustStr Frame IpAddr Crypto HttpText HttpRewrite HostMatch HostRules RoutingRules.
From S2P Require Import DirectMode DirectRules Dispatch MitmRequest ConfigCheck.
#[local] Open Scope Z_scope.

(** ** The check's plumbing *)
Lemma res_bind_Ok {A B E} (m : res A E) (k : A -> res B E) b : res_bind m k = Ok b <-> exists a, m = Ok a /\ k a = Ok b.
Proof. destruct m; cbn; split; [by eexists|by intros (? & [= ->] & ?)|done|by intros (? & ? & ?)|done|by intros (? & ? & ?)]. Qed.

Lemma refuse_Ok {E} cond (e : E) u : refuse cond e = Ok u <-> cond = false.
Proof. destruct u, cond; cbn; split; congruence. Qed.

Lemma map_err_Ok {A E F} (f : E -> F) (m : res A E) a : map_err f m = Ok a <-> m = Ok a.
Proof. destruct m; cbn; split; congruence. Qed.

Lemma each_Ok {A E} (check : nat -> A -> res unit E) l i u : each check i l = Ok u ->
  forall x, x ∈ l -> exists j, check j x = Ok tt.
Proof.
  revert i. induction l as [|y l IH]; intros i H x Hx; [by apply elem_of_nil in Hx|]. cbn [each] in H.
  apply res_bind_Ok in H as ([] & Hy & H). apply elem_of_cons in Hx as [->|Hx]; [by exists i|by eapply IH].
Qed.

Lemma ok_tt {E} (r : res unit E) : (exists u, r = Ok u) <-> r = Ok tt.
Proof. split; [by intros [[] ?]|by eexists]. Qed.

(** ** Names *)
Definition name_char (c : Z) : Prop := ldh_char c = true \/ c = 46.

Lemma split_on_ne c s : split_on c s <> [].
Proof. destruct s as [|x s]; cbn [split_on]; [done|]. destruct (x =? c); [done|]. by destruct (split_on c s). Qed.

Lemma split_on_chars c s (P : Z -> Prop) : Forall (Forall P) (split_on c s) -> Forall (fun x => P x \/ x = c) s.
Proof.
  induction s as [|x s IH]; [done|]. cbn [split_on]. destruct (Z.eqb_spec x c) as [->|Hx].
  - intros [_ H]%Forall_cons. constructor; [by right|auto].
  - destruct (split_on c s) as [|g r] eqn:E; [by apply split_on_ne in E|].
    intros [[Px Hg]%Forall_cons Hr]%Forall_cons. constructor; [by left|]. apply IH. by constructor.
Qed.

Lemma split_on_head c s : head (split_on c (c :: s)) = Some [].
Proof. cbn [split_on]. by rewrite Z.eqb_refl. Qed.

Lemma pattern_labels_Ok ls : pattern_labels ls = Ok tt -> Forall (fun l => l <> [] /\ Forall (fun c => ldh_char c = true) l) ls.
Proof.
  induction ls as [|l ls IH]; cbn [pattern_labels]; [constructor|]. case_bool_decide; [done|].
  destruct (63 <? _); [done|]. destruct (hyphen_ends l); [done|]. destruct (forallb ldh_char l) eqn:E; [|done].
  intros Hls%IH. constructor; [|done]. split; [done|]. apply Forall_forall. intros c Hc.
  rewrite forallb_forall in E. by apply E, list_elem_of_In.
Qed.

Lemma hostname_labels_Ok ls : hostname_labels ls = Ok tt -> Forall (fun l => l <> [] /\ Forall (fun c => ldh_char c = true) l) ls.
Proof.
  induction ls as [|l ls IH]; cbn [hostname_labels]; [constructor|]. case_bool_decide; [done|].
  destruct (63 <? _); [done|]. destruct (forallb ldh_char l) eqn:E; [|done]. destruct (_ || _); [done|]. cbn [negb].
  intros Hls%IH. constructor; [|done]. split; [done|]. apply Forall_forall. intros c Hc.
  rewrite forallb_forall in E. by apply E, list_elem_of_In.
Qed.

Lemma labels_name s : Forall (fun l => l <> [] /\ Forall (fun c => ldh_char c = true) l) (split_on 46 s) ->
  Forall name_char s /\ head s <> Some 46.
Proof.
  intros H. split.
  - apply split_on_chars. eapply Forall_impl; [exact H|]. by intros l [_ ?].
  - destruct s as [|c s]; [done|]. intros [= ->]. pose proof (split_on_head 46 s) as Hh.
    destruct (split_on 46 (46 :: s)) as [|l ls]; [done|]. injection Hh as ->. by apply Forall_cons in H as [[? _] _].
Qed.

Lemma trim_start_id c s : head s <> Some c -> trim_start_matches c s = s.
Proof.
  destruct s as [|x s]; [done|]. intros H. unfold trim_start_matches, trim_start_by. cbn [drop_while].
  destruct (Z.eqb_spec c x) as [->|]; [done|done].
Qed.

(** ** Relay patterns *)
Record pattern_valid (p : str) : Prop := {
  pv_trim : trim p <> [];
  pv_host : host_part (normalize_pattern p) <> [];
  pv_key : pattern_host (normalize_pattern p) = host_part (normalize_pattern p);
  pv_chars : Forall name_char (host_part (normalize_pattern p))
}.

Lemma validated_pattern p : validate_relay_url_pattern p = Ok tt -> pattern_valid p.
Proof.
  unfold validate_relay_url_pattern. case_bool_decide as Ht; [done|]. case_bool_decide; [done|].
  fold (scheme_host (strip_scheme (to_ascii_lowercase (trim p)))). rewrite <- host_part_normalize.
  case_bool_decide as Hh; [done|]. destruct (253 <? _); [done|]. intros Hls%pattern_labels_Ok%labels_name. destruct Hls as [Hc Hd].
  constructor; [done|done| |done]. rewrite pattern_host_part. by apply trim_start_id.
Qed.

Lemma normalize_trim p : normalize_pattern (trim p) = normalize_pattern p.
Proof. unfold normalize_pattern. by rewrite trim_trim. Qed.

Lemma user_patterns_mem yt ps p : p ∈ ps -> trim p <> [] ->
  let '(kept, suppressed) := user_patterns yt ps in
  let n := normalize_pattern p in
  if yt && host_matches_youtube_relay (pattern_host n) then n ∈ suppressed else n ∈ kept.
Proof.
  intros Hin Ht. induction ps as [|q ps IH]; [by apply elem_of_nil in Hin|]. cbn [user_patterns].
  destruct (user_patterns yt ps) as [k s]. rewrite !normalize_trim. cbn zeta in *. apply elem_of_cons in Hin as [<-|Hin].
  - rewrite bool_decide_eq_false_2 by done. destruct (yt && _); left.
  - specialize (IH Hin). case_bool_decide; [done|].
    destruct (yt && host_matches_youtube_relay (pattern_host (normalize_pattern q))); destruct (yt && _); try done; by right.
Qed.

Lemma resolved_pattern config p : p ∈ c_relay_url_patterns config -> trim p <> [] ->
  let r := ResolvedRouting_from_config config AppsScript in
  let n := normalize_pattern p in
  if r_youtube_via_relay r && host_matches_youtube_relay (pattern_host n) then n ∈ r_suppressed r else n ∈ r_patterns r.
Proof.
  intros Hin Ht. unfold ResolvedRouting_from_config. rewrite (bool_decide_eq_true_2 (AppsScript = AppsScript)) by done.
  set (yt := c_youtube_via_relay config || _). pose proof (user_patterns_mem yt _ p Hin Ht) as Hm.
  destruct (user_patterns yt _) as [kept supp]. destruct (retain_new_spec ∅ ((if yt then [] else DEFAULT_RELAY_URL_PATTERNS) ++ kept)) as [_ He].
  set (ps := retain_new _ _) in *. destruct (sort_hosts ∅ ps) as [f s]. cbn [r_youtube_via_relay r_patterns r_suppressed].
  cbn zeta in *. destruct (yt && _); [done|]. apply He. split; [apply elem_of_app; by right|set_solver].
Qed.

(** ** A checked configuration *)
Record config_valid {P : CryptoPrims} (valid_sni : str -> bool) (c : Config) : Prop := {
  cv_groups : Forall (fun g => exists i, validate_group valid_sni i g = Ok tt) (cf_fronting_groups c);
  cv_patterns : Forall pattern_valid (cf_relay_url_patterns c);
  cv_hosts : Forall (fun h => validate_direct_mode_hostname h = Ok tt)
    (dc_fronts (cf_direct_mode c) ++ dc_google (cf_direct_mode c) ++ dc_sanctioned (cf_direct_mode c));
  cv_apps : forall mode, mode_of_str (cf_mode c) = Some mode -> uses_apps_script_relay mode = true -> validate_apps_script c = Ok tt;
  cv_drive : mode_of_str (cf_mode c) = Some Drive -> validate_drive c = Ok tt;
  cv_ports : cf_socks5_port c <> Some (cf_listen_port c)
}.

Lemma host_list_Ok field l u : host_list field l = Ok u -> Forall (fun h => validate_direct_mode_hostname h = Ok tt) l.
Proof. intros H. apply Forall_forall. intros h Hh. destruct (each_Ok _ _ _ _ H h Hh) as [j Hj]. by apply map_err_Ok in Hj. Qed.

Lemma validate_valid {P : CryptoPrims} valid_sni c : validate valid_sni c = Ok tt -> config_valid valid_sni c.
Proof.
  unfold validate. intros (mode & Hm & H)%res_bind_Ok. apply res_bind_Ok in H as (? & Happs & H). apply res_bind_Ok in H as (? & Hdrive & H).
  apply res_bind_Ok in H as (? & _ & H). apply res_bind_Ok in H as (? & Hport & H). apply res_bind_Ok in H as (? & Hg & H).
  apply res_bind_Ok in H as (? & Hp & H). apply res_bind_Ok in H as (? & Hf%host_list_Ok & H). apply res_bind_Ok in H as (? & Hd%host_list_Ok & Hs%host_list_Ok).
  assert (mode_of_str (cf_mode c) = Some mode) as Hmode by (unfold ok_or in Hm; destruct (mode_of_str _); congruence).
  constructor.
  - apply Forall_forall. intros g Hin. by apply (each_Ok _ _ _ _ Hg).
  - apply Forall_forall. intros p Hin. destruct (each_Ok _ _ _ _ Hp p Hin) as [j Hj]. by apply map_err_Ok, validated_pattern in Hj.
  - by repeat (apply Forall_app; split).
  - intros mode' E Hu. rewrite Hmode in E. injection E as <-. rewrite Hu in Happs. apply ok_tt. by eexists.
  - intros E. rewrite Hmode in E. injection E as ->. cbn in Hdrive. apply ok_tt. by eexists.
  - apply refuse_Ok in Hport. by apply bool_decide_eq_false in Hport.
Qed.

Section checked.
Context {P : CryptoPrims} (valid_sni : str -> bool).

(** In a configuration that passed [validate] every relay pattern routes the
    URLs it names.  Its host is not empty, is made of host-name characters and is the very
    host the start-up resolution forces into the MITM (the resolver strips leading dots,
    of which there are none).  Unless YouTube is relayed as a whole and the pattern is one of
    a YouTube host (then it is reported as suppressed), the pattern is one of those resolved,
    and a request for a URL under it, on the host or a subdomain and in any letter
    case, is never given to the forwarder. *)
Theorem validated_pattern_routes (c : Config) (p : str) (Hv : validate valid_sni c = Ok tt) (Hp : p ∈ cf_relay_url_patterns c) :
  let r := ResolvedRouting_from_config (routing_config c) AppsScript in
  let n := normalize_pattern p in
  host_part n <> [] /\ pattern_host n = host_part n /\ Forall name_char (host_part n) /\
  if r_youtube_via_relay r && host_matches_youtube_relay (host_part n) then n ∈ r_suppressed r
  else n ∈ r_patterns r /\ host_part n ∈ r_force_mitm_hosts r ++ r_skipped_hosts r /\
    forall ctx host path m, relay_url_patterns ctx = r_patterns r ->
      47 ∉ host -> 58 ∉ host -> head path = Some 47 ->
      in_domain (host_key host) (host_part n) -> (exists rest, to_ascii_lowercase path = snd (split_path n) ++ rest) ->
      forwarder_eligible ctx (lit "https") host 443 m (request_url (lit "https") host 443 path) = false.
Proof.
  pose proof (cv_patterns _ _ (validate_valid _ _ Hv)) as Hall. rewrite Forall_forall in Hall. destruct (Hall p Hp) as [Ht Hh Hk Hc].
  cbn zeta. split_and!; [done..|]. assert (p ∈ c_relay_url_patterns (routing_config c)) as Hin.
  { unfold routing_config. by destruct (cf_exit_node c) as [[[? ?] ?] ?]. }
  pose proof (resolved_pattern _ p Hin Ht) as Hr. cbn zeta in Hr. rewrite Hk in Hr.
  destruct (_ && _); [exact Hr|]. split_and!; [exact Hr| |].
  - apply (from_config_hosts (routing_config c) AppsScript). split; [done|]. by exists (normalize_pattern p).
  - intros ctx host path m Hctx H47 H58 Hd Hdom Hpath. unfold forwarder_eligible. rewrite andb_false_iff. right. apply negb_false_iff.
    apply (url_matches_spec (lit "https") host [] path); [left|done|done|by left|set_solver|done|].
    exists (normalize_pattern p). by rewrite Hctx.
Qed.
End checked.

Definition example_drive : DriveConfig := mkDrive [] [] [] [] [] 0 0.

Definition example_config (yt : bool) (patterns : list str) : Config :=
  mkConfig (lit "apps_script") (lit "secret") (Some (One (lit "AKfy"))) None example_drive (lit "216.239.38.120") 500 8085 (Some 8086)
    [] patterns yt (false, [], [], []) (mkDirectConfig true [] [] []) (lit "en").

(** A pattern of the user's, written with a scheme and in capitals. *)
Lemma validated_pattern_routes_witness :
  let n := normalize_pattern (lit "HTTPS://Docs.Google.com./Upload/") in
  let r := ResolvedRouting_from_config (routing_config (example_config false [lit "HTTPS://Docs.Google.com./Upload/"])) AppsScript in
  n = lit "docs.google.com/upload/" /\ n ∈ r_patterns r.
Proof.
  destruct (validated_pattern_routes (P := toy_crypto) (fun _ => true) (example_config false [lit "HTTPS://Docs.Google.com./Upload/"])
    (lit "HTTPS://Docs.Google.com./Upload/")) as (_ & _ & _ & H).
  - vm_compute. reflexivity.
  - left.
  - split; [vm_compute; reflexivity|]. exact (proj1 H).
Defined.

(** ** Start-up with a checked configuration *)
Lemma trim_start_keep c x s : x ∈ s -> x <> c -> x ∈ trim_start_matches c s.
Proof.
  unfold trim_start_matches, trim_start_by. induction s as [|y s IH]; [done|]. cbn [drop_while].
  destruct (Z.eqb_spec c y) as [<-|]; [|done]. intros [->|Hx]%elem_of_cons Hn; [done|by apply IH].
Qed.

Lemma trim_end_keep c x s : x ∈ s -> x <> c -> x ∈ trim_end_matches c s.
Proof.
  destruct (trim_end_app c s) as [k Hk]. rewrite Hk at 1. rewrite elem_of_app, elem_of_replicate. naive_solver.
Qed.

Lemma trim_start_sub c x s : x ∈ trim_start_matches c s -> x ∈ s.
Proof.
  destruct (drop_while_suffix (Z.eqb c) s) as [k Hk]. unfold trim_start_matches, trim_start_by. intros H. rewrite Hk. set_solver.
Qed.

Lemma trim_end_matches_sub c x s : x ∈ trim_end_matches c s -> x ∈ s.
Proof. destruct (trim_end_app c s) as [k Hk]. intros H. rewrite Hk. set_solver. Qed.

Lemma validated_hostname h : validate_direct_mode_hostname h = Ok tt ->
  normalize_front h <> [] /\ Forall name_char (normalize_front h) /\ normalize_domain_entry h <> [].
Proof.
  unfold validate_direct_mode_hostname. repeat (case_match; [done|]). fold (normalize_front h).
  match goal with H : bool_decide (trim_end_matches _ _ = []) = false |- _ => apply bool_decide_eq_false in H; fold (normalize_front h) in H; rename H into Hne end.
  intros Hls%hostname_labels_Ok%labels_name. destruct Hls as [Hc Hh]. split_and!; [done|done|].
  destruct (normalize_front h) as [|x s] eqn:E; [done|]. assert (x <> 46) as Hx by (by intros ->).
  assert (x ∈ trim h) as Hin. { apply (trim_start_sub 46), (trim_end_matches_sub 46). fold (normalize_front h). rewrite E. left. }
  assert (ascii_lower x <> 46) as Hlow by (unfold ascii_lower, between; destruct (andb _ _) eqn:?; lia).
  assert (ascii_lower x ∈ normalize_domain_entry h) as Hd; [|intros E0; rewrite E0 in Hd; by apply elem_of_nil in Hd].
  apply trim_start_keep, Hlow. apply trim_end_keep, Hlow. by apply list_elem_of_fmap_2.
Qed.

Lemma filter_all {A} (Q : A -> Prop) `{forall x, Decision (Q x)} l : Forall Q l -> filter Q l = l.
Proof. induction 1 as [|x l Hx _ IH]; [done|]. rewrite filter_cons_True by done. by rewrite IH. Qed.

(** The list the context keeps of a configured one, or of its default. *)
Lemma kept_entries (f : str -> str) l dflt : Forall (fun h => f h <> []) l -> bool_decide (Forall (fun h => f h <> []) dflt) = true ->
  filter (fun h => h <> []) (f <$> or_default l dflt) = f <$> or_default l dflt.
Proof.
  intros Hl Hd%bool_decide_eq_true. apply filter_all, Forall_fmap. unfold or_default. by case_bool_decide.
Qed.

(** What the checks rely on of rustls's names. *)
Class ServerNames (valid_sni : str -> bool) : Prop := {
  sn_lower s : valid_sni s = true -> valid_sni (to_ascii_lowercase s) = true;
  sn_trim s : valid_sni s = true -> trim s = s
}.

Lemma group_resolves {P : CryptoPrims} valid_sni `{!ServerNames valid_sni} i g : validate_group valid_sni i g = Ok tt ->
  FrontingGroupResolved_from_config valid_sni (build_camouflage_connector valid_sni true) g
  = Ok (mkGroup (cg_name g) (cg_ip g) (cg_sni g) (normalize_names (cg_domains g)) (cg_force_ip g)
         ((fun d => to_ascii_lowercase (trim_end_matches 46 (trim d))) <$> cg_verify_names g)).
Proof.
  unfold validate_group. intros (? & _ & H)%res_bind_Ok. apply res_bind_Ok in H as (? & Hip%refuse_Ok & H).
  apply res_bind_Ok in H as (? & _ & H). apply res_bind_Ok in H as (? & Hsni%refuse_Ok & H).
  apply res_bind_Ok in H as (? & _ & H). apply res_bind_Ok in H as (? & _ & Hv).
  set (f := fun d => to_ascii_lowercase (trim_end_matches 46 (trim d))).
  assert (forall v, v ∈ cg_verify_names g -> f v <> [] /\ valid_sni (f v) = true /\ trim_end_matches 46 (trim (f v)) = f v) as Hok.
  { intros v Hin. destruct (each_Ok _ _ _ _ Hv v Hin) as [j Hj]. apply res_bind_Ok in Hj as (? & Hne%refuse_Ok & Hval%refuse_Ok).
    apply bool_decide_eq_false in Hne. apply negb_false_iff in Hval. assert (valid_sni (f v) = true) as Hfv by by apply sn_lower.
    split_and!; [unfold f; by destruct (trim_end_matches 46 (trim v))|done|]. rewrite sn_trim by done. apply trim_end_id.
    unfold f, to_ascii_lowercase. rewrite fmap_last. intros (z & E & Hz)%fmap_Some.
    pose proof (trim_end_last 46 (trim v)) as Hl. rewrite E in Hl. apply Hl. f_equal. revert Hz. unfold ascii_lower, between. destruct (Z.leb_spec 65 z), (Z.leb_spec z 90); cbn [andb]; lia. }
  assert (normalize_names (cg_verify_names g) = f <$> cg_verify_names g) as Hnames.
  { unfold normalize_names. apply filter_all, Forall_fmap, Forall_forall. intros v Hin. by apply Hok. }
  unfold FrontingGroupResolved_from_config. fold (blank (cg_ip g)). rewrite Hsni, Hip, Hnames. cbn [negb].
  assert (f <$> cg_verify_names g = [] \/ build_camouflage_connector valid_sni true (f <$> cg_verify_names g) = true) as [-> | ->].
  { clear Hnames Hv. destruct (cg_verify_names g) as [|v vs]; [by left|right]. unfold build_camouflage_connector. rewrite andb_true_r, !fmap_cons.
    destruct (Hok v ltac:(left)) as (Hn & Hval & Hid). rewrite Hid, filter_cons_True by done. done. }
  - by rewrite bool_decide_eq_true_2, andb_false_r by done.
  - cbn [negb]. by rewrite andb_false_r.
Qed.

Section startup.
Context {P : CryptoPrims} (valid_sni : str -> bool) `{!ServerNames valid_sni}.

(** Claim C21: a configuration that passed [validate] starts.  Every fronting group
    resolves, with its names; Direct Mode's context is built exactly when it is enabled
    and keeps every configured front and domain in normal form, none empty and the fronts
    made of host-name characters; in the modes that use the relay there is at least one
    deployment and no placeholder; in Drive mode the relay key decodes and the pinned
    address is one. *)
Theorem validated_config_starts (c : Config) (cache : CandidateCache) (Hv : validate valid_sni c = Ok tt) :
  (forall g, g ∈ cf_fronting_groups c -> exists gr,
     FrontingGroupResolved_from_config valid_sni (build_camouflage_connector valid_sni true) g = Ok gr /\
     length (fg_verify_names gr) = length (cg_verify_names g)) /\
  match build_direct_mode_ctx (cf_direct_mode c) cache with
  | None => dc_enabled (cf_direct_mode c) = false
  | Some d => dc_enabled (cf_direct_mode c) = true /\
      d_fronts d = normalize_front <$> or_default (dc_fronts (cf_direct_mode c)) DEFAULT_FRONTS /\
      d_google d = normalize_domain_entry <$> or_default (dc_google (cf_direct_mode c)) DEFAULT_GOOGLE_DOMAINS /\
      d_sanctioned d = normalize_domain_entry <$> or_default (dc_sanctioned (cf_direct_mode c)) DEFAULT_SANCTIONED_DOMAINS /\
      Forall (fun f => f <> [] /\ Forall name_char f) (normalize_front <$> dc_fronts (cf_direct_mode c))
  end /\
  (forall mode, mode_of_str (cf_mode c) = Some mode ->
     (uses_apps_script_relay mode = true -> script_ids_resolved c <> [] /\
        Forall (fun id => id <> [] /\ id <> lit "YOUR_APPS_SCRIPT_DEPLOYMENT_ID") (script_ids_resolved c)) /\
     (mode = Drive -> (exists key, from_bech32m (relay_pubkey (cf_drive c)) = Ok key) /\ is_Some (parse_ip (trim (cf_google_ip c))))).
Proof.
  destruct (validate_valid _ _ Hv) as [Hg _ Hh Happs Hdrive _]. rewrite Forall_forall in Hg.
  apply Forall_app in Hh as [Hf [Hd Hs]%Forall_app]. split_and!.
  - intros g Hin. destruct (Hg g Hin) as [i Hi]. eexists. split; [by eapply group_resolves|]. cbn [fg_verify_names]. by rewrite length_fmap.
  - unfold build_direct_mode_ctx. destruct (dc_enabled (cf_direct_mode c)); [|done]. cbn [negb].
    rewrite bool_decide_eq_false_2 by (unfold or_default; case_bool_decide; done). unfold from_parts. cbn [d_fronts d_google d_sanctioned].
    split_and!; [done|apply kept_entries; [|by vm_compute]..|].
    + eapply Forall_impl; [exact Hf|]. intros h Hok. by apply validated_hostname in Hok as (? & _ & _).
    + eapply Forall_impl; [exact Hd|]. intros h Hok. by apply validated_hostname in Hok as (_ & _ & ?).
    + eapply Forall_impl; [exact Hs|]. intros h Hok. by apply validated_hostname in Hok as (_ & _ & ?).
    + apply Forall_fmap. eapply Forall_impl; [exact Hf|]. intros h Hok. by apply validated_hostname in Hok as (? & ? & _).
  - intros mode Hm. split.
    + intros Hu. specialize (Happs mode Hm Hu). unfold validate_apps_script in Happs.
      apply res_bind_Ok in Happs as (? & _ & H). apply res_bind_Ok in H as (? & Hne%refuse_Ok & H). apply bool_decide_eq_false in Hne.
      split; [done|]. apply Forall_forall. intros id Hin. destruct (each_Ok _ _ _ _ H id Hin) as [j Hj%refuse_Ok].
      apply orb_false_iff in Hj. by rewrite !bool_decide_eq_false in Hj.
    + intros ->. specialize (Hdrive Hm). unfold validate_drive in Hdrive. do 5 (apply res_bind_Ok in Hdrive as (? & _ & Hdrive)).
      apply res_bind_Ok in Hdrive as (key & Hk%map_err_Ok & Hdrive). do 3 (apply res_bind_Ok in Hdrive as (? & _ & Hdrive)).
      apply refuse_Ok in Hdrive. rewrite negb_false_iff, bool_decide_eq_true in Hdrive. split; [by exists key|done].
Qed.
End startup.

(** Names of letters, digits, hyphens and dots. *)
Definition ldh_sni (s : str) : bool := forallb (fun c => ldh_char c || (c =? 46)) s.

Lemma ldh_not_white c : ldh_char c || (c =? 46) = true -> is_whitespace c = false.
Proof. unfold ldh_char, is_ascii_alphanumeric, is_ascii_alphabetic, is_digit, is_whitespace, between. lia. Qed.

#[export] Instance ldh_names : ServerNames ldh_sni.
Proof.
  constructor; intros s Hs; unfold ldh_sni in Hs; rewrite forallb_forall in Hs.
  - apply forallb_forall. intros c Hc%list_elem_of_In. apply list_elem_of_fmap in Hc as (x & -> & Hx%list_elem_of_In%Hs).
    revert Hx. unfold ldh_char, is_ascii_alphanumeric, is_ascii_alphabetic, is_digit, ascii_lower, between.
    destruct (Z.leb_spec 65 x), (Z.leb_spec x 90); cbn [andb]; lia.
  - destruct (decide (s = [])) as [->|Hne]; [done|]. apply trim_id; [done| |]; intros c Hc; apply ldh_not_white, Hs, list_elem_of_In.
    + destruct s; [done|]. injection Hc as ->. left.
    + apply last_Some in Hc as [l ->]. set_solver.
Qed.

(** A camouflaging group, and a front written with dots around it. *)
Definition started_config : Config :=
  mkConfig (lit "apps_script") (lit "secret") (Some (One (lit "AKfy"))) None example_drive (lit "216.239.38.120") 500 8085 (Some 8086)
    [mkFrontingGroup (lit "meta") [] (lit "www.microsoft.com") [lit "instagram.com"] true [lit "WWW.Microsoft.com."]]
    [] false (false, [], [], []) (mkDirectConfig true [lit ".WWW.google.com."] [] []) (lit "en").

Lemma validated_config_starts_witness : exists d,
  build_direct_mode_ctx (cf_direct_mode started_config) (mkCache false None None) = Some d /\ d_fronts d = [lit "WWW.google.com"].
Proof.
  destruct (validated_config_starts (P := toy_crypto) ldh_sni started_config (mkCache false None None)) as (_ & H & _); [vm_compute; reflexivity|].
  destruct (build_direct_mode_ctx (cf_direct_mode started_config) (mkCache false None None)) as [d|] eqn:E; [|discriminate H].
  exists d. split; [reflexivity|]. destruct H as (_ & H & _). rewrite H. vm_compute. reflexivity.
Defined.

(** ** The language tag *)
Lemma lang_part_ok (p : Z -> bool) s : lang_part p s = true -> s <> [] /\ Forall (fun c => p c = true) s.
Proof.
  unfold lang_part. rewrite !andb_true_iff, negb_true_iff, bool_decide_eq_false. intros [[Hne _] H]. split; [done|].
  apply Forall_forall. intros c Hc. rewrite forallb_forall in H. by apply H, list_elem_of_In.
Qed.

Definition tag_char (c : Z) : Prop := 97 <= c <= 122 \/ 48 <= c <= 57 \/ c = 45.

Lemma tag_chars s : Forall (Forall (fun c => is_ascii_alphanumeric c = true)) (split_on 45 (to_ascii_lowercase s)) ->
  Forall tag_char (to_ascii_lowercase s).
Proof.
  intros H%split_on_chars. apply Forall_forall. intros c Hc. rewrite Forall_forall in H. destruct (H c Hc) as [Ha| ->]; [|by right; right].
  apply list_elem_of_fmap in Hc as (x & -> & _). revert Ha. unfold tag_char, is_ascii_alphanumeric, is_ascii_alphabetic, is_digit, ascii_lower, between.
  destruct (Z.leb_spec 65 x), (Z.leb_spec x 90); cbn [andb]; lia.
Qed.

Lemma alpha_alnum s : Forall (fun c => is_ascii_alphabetic c = true) s -> Forall (fun c => is_ascii_alphanumeric c = true) s.
Proof. intros H. eapply Forall_impl; [exact H|]. unfold is_ascii_alphanumeric. by intros c ->. Qed.

Lemma sanitized raw v : sanitize_apps_script_lang raw = Some v ->
  v = to_ascii_lowercase (trim raw) /\ v <> [] /\ len v <= 10 /\ Forall tag_char v.
Proof.
  unfold sanitize_apps_script_lang. set (s := to_ascii_lowercase (trim raw)). case_bool_decide as Hne; [done|]. cbn [orb].
  destruct (10 <? len (as_bytes s)) eqn:Hlen; [done|]. intros H.
  assert (v = s /\ Forall (Forall (fun c => is_ascii_alphanumeric c = true)) (split_on 45 s)) as [-> Hc].
  { destruct (split_on 45 s) as [|h [|r [|? ?]]]; [done| | |done].
    - destruct (lang_part is_ascii_alphabetic h) eqn:E; [|done]. injection H as <-. split; [done|].
      apply lang_part_ok in E as [_ E]. constructor; [by apply alpha_alnum|constructor].
    - destruct (lang_part is_ascii_alphabetic h && lang_part is_ascii_alphanumeric r) eqn:E; [|done]. injection H as <-. split; [done|].
      apply andb_true_iff in E as [[_ E1]%lang_part_ok [_ E2]%lang_part_ok]. by repeat constructor; [apply alpha_alnum|]. }
  apply tag_chars in Hc. split_and!; [done|done| |done].
  rewrite as_bytes_ascii in Hlen; [lia|]. eapply Forall_impl; [exact Hc|]. unfold tag_char, is_ascii. lia.
Qed.

Lemma tag_trim v : Forall tag_char v -> trim v = v.
Proof.
  intros H. destruct (decide (v = [])) as [->|Hne]; [done|]. rewrite Forall_forall in H.
  assert (forall c, c ∈ v -> is_whitespace c = false) as Hw by (intros c Hc%H; unfold tag_char in Hc; unfold is_whitespace, between; lia).
  apply trim_id; [done| |]; intros c Hc; apply Hw.
  - destruct v; [done|]. injection Hc as ->. left.
  - apply last_Some in Hc as [l ->]. set_solver.
Qed.

(** The language tag that goes into the relay's URL and headers is one to ten
    characters of [a-z], [0-9] and the hyphen whatever the configuration says, so it needs no
    escaping and cannot end a header line or start another query parameter; and the tag is
    stable: taken as the configured one it resolves to itself. *)
Theorem lang_tag_safe (c : Config) : let v := apps_script_lang_resolved c in
  v <> [] /\ len v <= 10 /\ Forall tag_char v /\ sanitize_apps_script_lang v = Some v.
Proof.
  cbn zeta. unfold apps_script_lang_resolved. destruct (sanitize_apps_script_lang (cf_apps_script_lang c)) as [v|] eqn:E; cbn [from_option id].
  - destruct (sanitized _ _ E) as (Hv & Hne & Hl & Hc). split_and!; [done..|]. rewrite <- E. unfold sanitize_apps_script_lang.
    assert (to_ascii_lowercase (trim v) = to_ascii_lowercase (trim (cf_apps_script_lang c))) as ->; [|done].
    rewrite tag_trim by done. rewrite Hv. apply lower_idem.
  - split_and!; [done|by vm_compute| |reflexivity]. change (lit "en") with [101; 110].
    repeat (apply Forall_cons; split; [unfold tag_char; lia|]). constructor.
Qed.

(** ** Deployments *)
Definition all_entries (c : Config) : list ScriptIdEntry :=
  match cf_script_id c with Some s => into_entries s | None => [] end ++ match cf_script_ids c with Some s => into_entries s | None => [] end.

(** The first entry of each id, in order. *)
Fixpoint firsts (seen : list str) (l : list ScriptIdEntry) : list ScriptIdEntry :=
  match l with
  | [] => []
  | e :: l => if bool_decide (se_id e ∈ seen) then firsts seen l else e :: firsts (se_id e :: seen) l
  end.

Lemma firsts_ext l s1 s2 : (forall x, x ∈ s1 <-> x ∈ s2) -> firsts s1 l = firsts s2 l.
Proof.
  revert s1 s2. induction l as [|e l IH]; intros s1 s2 Hs; [done|]. cbn [firsts].
  rewrite (bool_decide_ext (se_id e ∈ s1) (se_id e ∈ s2)) by auto. case_bool_decide; [by apply IH|]. f_equal. apply IH. set_solver.
Qed.

Lemma absorb_spec l out seen : absorb l out seen
  = (out ++ firsts (elements seen) l, list_to_set (se_id <$> l) ∪ seen).
Proof.
  revert out seen. induction l as [|e l IH]; intros out seen; cbn [absorb firsts]; [rewrite app_nil_r; f_equal; set_solver|].
  rewrite (bool_decide_ext (se_id e ∈ elements seen) (se_id e ∈ seen)) by (by rewrite elem_of_elements).
  case_bool_decide as E; rewrite IH.
  - f_equal. cbn. set_solver.
  - rewrite <- app_assoc. f_equal; [|cbn; set_solver]. f_equal. cbn [app]. f_equal. apply firsts_ext. set_solver.
Qed.

Lemma firsts_app s l1 l2 : firsts s (l1 ++ l2) = firsts s l1 ++ firsts ((se_id <$> l1) ++ s) l2.
Proof.
  revert s. induction l1 as [|e l1 IH]; intros s; [done|]. cbn [app firsts fmap list_fmap]. case_bool_decide as E.
  - rewrite IH. f_equal. apply firsts_ext. set_solver.
  - cbn [app]. f_equal. rewrite IH. f_equal. apply firsts_ext. set_solver.
Qed.

Lemma entries_firsts c : script_id_entries c = firsts [] (all_entries c).
Proof.
  unfold script_id_entries, all_entries, absorb_opt.
  destruct (cf_script_id c) as [s|], (cf_script_ids c) as [s'|]; rewrite ?absorb_spec; cbn [fst snd]; rewrite ?absorb_spec; cbn [fst snd app];
    rewrite ?app_nil_r, ?elements_empty; try done.
  rewrite firsts_app. f_equal. apply firsts_ext. set_solver.
Qed.

Lemma firsts_spec s l e : e ∈ firsts s l <-> se_id e ∉ s /\ exists pre post, l = pre ++ e :: post /\ se_id e ∉ (se_id <$> pre).
Proof.
  revert s. induction l as [|x l IH]; intros s; cbn [firsts].
  { rewrite elem_of_nil. split; [done|]. intros (_ & [|? ?] & ? & ? & _); done. }
  assert (forall s', e ∈ firsts s' l -> se_id e <> se_id x -> exists pre post, x :: l = pre ++ e :: post /\ se_id e ∉ (se_id <$> pre)) as Hcons.
  { intros s' (_ & pre & post & -> & Hn)%IH Hx. exists (x :: pre), post. split; [done|]. rewrite fmap_cons. set_solver. }
  assert (forall s', se_id e ∉ s' -> e <> x -> (exists pre post, x :: l = pre ++ e :: post /\ se_id e ∉ (se_id <$> pre)) ->
            se_id e <> se_id x /\ (se_id e ∉ s' -> e ∈ firsts s' l)) as Hback.
  { intros s' Hs Hx ([|y pre] & post & E & Hn); injection E as -> ->; [done|]. rewrite fmap_cons in Hn. split; [set_solver|].
    intros _. apply IH. split; [done|]. exists pre, post. split; [done|set_solver]. }
  case_bool_decide as E.
  - split.
    + intros H. pose proof H as [Hs _]%IH. split; [done|]. apply (Hcons s); [done|congruence].
    + intros [Hs H]. apply (Hback s Hs); [congruence|done|done].
  - rewrite elem_of_cons. split.
    + intros [-> | H]; [split; [done|]; exists [], l; split; [done|set_solver]|].
      pose proof H as [Hs _]%IH. split; [set_solver|]. apply (Hcons (se_id x :: s)); [done|set_solver].
    + intros [Hs H]. destruct (decide (e = x)) as [->|Hne]; [by left|]. right.
      destruct (Hback s Hs Hne H) as [Hx _]. destruct H as ([|y pre] & post & E' & Hn); injection E' as -> ->; [done|].
      apply IH. split; [set_solver|]. exists pre, post. split; [done|]. rewrite fmap_cons in Hn. set_solver.
Qed.

Lemma firsts_nodup s l : NoDup (se_id <$> firsts s l) /\ firsts s l `sublist_of` l.
Proof.
  revert s. induction l as [|x l IH]; intros s; cbn [firsts]; [by split; [constructor|]|]. case_bool_decide.
  - destruct (IH s). split; [done|by apply sublist_cons].
  - destruct (IH (se_id x :: s)) as [Hn Hs]. split; [|by apply sublist_skip]. rewrite fmap_cons. constructor; [|done].
    intros (e & E & [He _]%firsts_spec)%list_elem_of_fmap. rewrite <- E in He. set_solver.
Qed.

(** The deployments of a configuration are the entries of [script_id] and then of
    the legacy [script_ids], in their order, one per id, the first: the canonical list wins on
    a collision, with its flag, so an id it disables stays disabled whatever the legacy list
    says.  What the relay rotates through are exactly the enabled ones, without
    duplicates. *)
Theorem deployments_merged (c : Config) :
  NoDup (se_id <$> script_id_entries c) /\ script_id_entries c `sublist_of` all_entries c /\
  (forall e, e ∈ script_id_entries c <->
     exists pre post, all_entries c = pre ++ e :: post /\ se_id e ∉ (se_id <$> pre)) /\
  NoDup (script_ids_resolved c) /\
  (forall id, id ∈ script_ids_resolved c <-> mkEntry id true ∈ script_id_entries c).
Proof.
  rewrite entries_firsts. destruct (firsts_nodup [] (all_entries c)) as [Hn Hs].
  assert (forall id, id ∈ script_ids_resolved c <-> mkEntry id true ∈ firsts [] (all_entries c)) as Hid.
  { intros id. unfold script_ids_resolved, enabled_ids. rewrite entries_firsts, list_elem_of_fmap. split.
    - intros (e & -> & [He Hin]%list_elem_of_filter). destruct e as [i b]. cbn in He. by subst b.
    - intros Hin. exists (mkEntry id true). by rewrite list_elem_of_filter. }
  split_and!; [done|done| | |exact Hid].
  - intros e. rewrite firsts_spec. split; [by intros [_ ?]|]. intros H. split; [by apply not_elem_of_nil|done].
  - unfold script_ids_resolved, enabled_ids. rewrite entries_firsts. eapply sublist_NoDup; [exact Hn|]. apply fmap_sublist.
    apply sublist_filter.
Qed.

(** ** A pattern on a parent domain *)

(** With [youtube_via_relay] on, the documentation promises that every YouTube host
    is relayed as a whole, and the resolver suppresses patterns on YouTube's hosts because
    one would hand their other paths to the forwarder.  It looks only at patterns inside
    YouTube's hosts: a checked pattern on the parent [googleapis.com] is kept, forces
    [youtubei.googleapis.com] too, and a GET of YouTube's player there is eligible for the
    forwarder. *)
Theorem parent_pattern_forwards_youtube :
  let c := example_config true [lit "googleapis.com/drive/"] in
  let r := ResolvedRouting_from_config (routing_config c) AppsScript in
  let host := lit "youtubei.googleapis.com" in
  let ctx := mkRewrite (lit "216.239.38.120") (lit "www.google.com") ∅ None AppsScript (r_youtube_via_relay r) (r_patterns r)
               (r_force_mitm_hosts r) (r_exit_node_full r) [] false false [] [] None false true true false in
  validate (P := toy_crypto) ldh_sni c = Ok tt /\
  r_youtube_via_relay r = true /\ host_matches_youtube_relay host = true /\ r_suppressed r = [] /\
  forwarder_eligible ctx (lit "https") host 443 (lit "GET") (request_url (lit "https") host 443 (lit "/youtubei/v1/player")) = true.
Proof. cbn zeta. split_and!; vm_compute; reflexivity. Qed.
