(* ===== verification/ModeSwitch.v ===== *)
(** * src/proxy_server.rs: starting, switching and stopping the proxy

    [RuntimeState]: the bundle of the current mode, the background tasks of its fronter, and
    the three activities on it: [run], which binds, completes the bundle and serves;
    [switch_mode], which may be called at any time, and rebuilds the bundle from a new
    configuration; and the cleanup at the end of [run].

    A step is what happens under [switch_lock], or a read without it; everything that takes
    time, building the state of a mode and starting the Drive client, happens between steps.
    A fronter is the configuration it was built from with a number of its own; the six
    handles of [ModeTasks] are set together and taken together, and stand for one.  The
    outcome of starting the Drive client, of binding and of building the DoH resolver is the
    environment's. *)

From stdpp Require Import prelude gmap.
From S2P Require Import Prelude RustStr Frame IpAddr Crypto HttpText HttpRewrite HostMatch HostRules RoutingRules DirectMode DirectRules Dispatch MitmRequest ConfigCheck ConfigRules.
#[local] Open Scope Z_scope.

(** The fields of [Config] that the state of a mode is built from. *)
Record RunConfig := mkRun {
  rn_base : Config;
  rn_front_domain : str; rn_hosts : gmap str str; rn_upstream_socks5 : option str;
  rn_passthrough_hosts : list str; rn_tunnel_doh : bool; rn_block_doh : bool; rn_bypass_doh_hosts : list str;
  rn_coalesce_step_ms : Z; rn_coalesce_max_ms : Z;
  rn_verify_ssl : bool; rn_block_quic : bool; rn_block_stun : bool
}.

Inductive ProxyError := PInvalidMode | PNoScript | PGroup (name e : str) | PDriveMux | PDriveMissing | PBind | PShuttingDown.

(** [0] stands for the default. *)
Definition resolve_coalesce (c : RunConfig) : Z * Z :=
  (if 0 <? rn_coalesce_step_ms c then rn_coalesce_step_ms c else 10, if 0 <? rn_coalesce_max_ms c then rn_coalesce_max_ms c else 1000).

Definition as_ref {A E} (r : res A E) : option A := match r with Ok a => Some a | _ => None end.

(** [for g in &config.fronting_groups { ..? }] *)
Fixpoint resolve_groups (resolve : FrontingGroup -> res FrontingGroupResolved str) (gs : list FrontingGroup) : res (list FrontingGroupResolved) ProxyError :=
  match gs with
  | [] => Ok []
  | g :: gs => let? r := map_err (PGroup (cg_name g)) (resolve g) in let? rs := resolve_groups resolve gs in Ok (r :: rs)
  end.

Section ModeSwitch.
(** rustls's names and verifier, the candidate file of Direct Mode, and whether the DoH
    resolver can be built. *)
Context (valid_sni : str -> bool) (verifier : bool) (cache : CandidateCache) (doh_ok : bool).

(** Whether the mode has a fronter, and the context. *)
Definition build_mode_state (c : RunConfig) : res (bool * RewriteCtx * Mode) ProxyError :=
  let b := rn_base c in
  let? mode := ok_or (mode_of_str (cf_mode b)) PInvalidMode in
  let? fronter := if uses_apps_script_relay mode then if bool_decide (script_ids_resolved b = []) then Err PNoScript else Ok true else Ok false in
  let? groups := resolve_groups (FrontingGroupResolved_from_config valid_sni (build_camouflage_connector valid_sni verifier)) (cf_fronting_groups b) in
  let r := ResolvedRouting_from_config (routing_config b) mode in
  let doh := existsb fg_force_ip groups && doh_ok in
  Ok (fronter,
      mkRewrite (cf_google_ip b) (rn_front_domain c) (rn_hosts c) (rn_upstream_socks5 c) mode (r_youtube_via_relay r) (r_patterns r)
        (r_force_mitm_hosts r) (r_exit_node_full r) (rn_passthrough_hosts c) (negb (rn_tunnel_doh c)) (rn_block_doh c)
        (rn_bypass_doh_hosts c) groups (build_direct_mode_ctx (cf_direct_mode b) cache) doh
        (rn_verify_ssl c) (rn_block_quic c) (rn_block_stun c),
      mode).

Record DomainFronter := mkDF { df_id : nat; df_config : RunConfig }.
Record TunnelMux := mkMux { tm_fronter : DomainFronter; tm_step : Z; tm_max : Z }.
Record DriveMux := mkDM { dm_id : nat; dm_config : RunConfig }.

Record ModeBundle := mkBundle {
  rewrite_ctx : RewriteCtx; fronter : option DomainFronter; tunnel_mux : option TunnelMux; drive_mux : option DriveMux
}.

(** Where [run] stands; [Prepared] holds the Drive client it has started, or its failure. *)
Inductive RunPhase := NotStarted | Prepared (startup : option (res DriveMux unit)) | Serving | Ending | Finished.

(** What [switch_mode] has built before it takes the lock. *)
Record Built := mkBuilt { bl_config : RunConfig; bl_fronter : option DomainFronter; bl_ctx : RewriteCtx; bl_mode : Mode; bl_drive : option DriveMux }.

Record RuntimeState := mkRuntime {
  rs_port : Z; rs_socks5_port : Z;
  bundle : ModeBundle;
  mode_tasks : option (DomainFronter * RunConfig);
  coalesce_step : Z; coalesce_max : Z;
  stopped : bool;
  rs_config : RunConfig;
  run_phase : RunPhase;
  switching : option Built;            (** at most one, by [switch_serial_lock] *)
  next_id : nat
}.

Definition upd (b : ModeBundle) (t : option (DomainFronter * RunConfig)) (ph : RunPhase) (s : RuntimeState) : RuntimeState :=
  mkRuntime (rs_port s) (rs_socks5_port s) b t (coalesce_step s) (coalesce_max s) (stopped s) (rs_config s) ph (switching s) (next_id s).
Definition set_switching (x : option Built) (n : nat) (s : RuntimeState) : RuntimeState :=
  mkRuntime (rs_port s) (rs_socks5_port s) (bundle s) (mode_tasks s) (coalesce_step s) (coalesce_max s) (stopped s) (rs_config s) (run_phase s) x n.

(** A release build adds without a check: the port after 65535 is 0. *)
Definition RuntimeState_new (c : RunConfig) : res RuntimeState ProxyError :=
  let? (f, ctx, _) := build_mode_state c in
  let b := rn_base c in
  let '(step, max) := resolve_coalesce c in
  Ok (mkRuntime (cf_listen_port b) (match cf_socks5_port b with Some p => p | None => wrap 16 (cf_listen_port b + 1) end)
        (mkBundle ctx (if f : bool then Some (mkDF 0 c) else None) None None)
        None step max false c NotStarted None 1).

Definition current_mode (s : RuntimeState) : Mode := rc_mode (rewrite_ctx (bundle s)).

(** ** [run] *)

(** After binding: a Drive client is started when the bundle lacks one; [ok] says whether
    that succeeds. *)
Definition run_prepare (ok : bool) (s : RuntimeState) : RuntimeState :=
  if bool_decide (current_mode s = Drive) && bool_decide (drive_mux (bundle s) = None)
  then let s' := upd (bundle s) (mode_tasks s) (Prepared (Some (if ok then Ok (mkDM (next_id s) (rs_config s)) else Err tt))) s in
       set_switching (switching s') (S (next_id s')) s'
  else upd (bundle s) (mode_tasks s) (Prepared None) s.

(** The block under [switch_lock]. *)
Definition run_install (startup : option (res DriveMux unit)) (s : RuntimeState) : res unit ProxyError * RuntimeState :=
  let b := bundle s in
  let b :=
    match fronter b, tunnel_mux b with
    | Some f, None => if bool_decide (rc_mode (rewrite_ctx b) = Full)
                      then mkBundle (rewrite_ctx b) (fronter b) (Some (mkMux f (coalesce_step s) (coalesce_max s))) (drive_mux b) else b
    | _, _ => b
    end in
  let s := upd b (mode_tasks s) (run_phase s) s in
  let installed :=
    if bool_decide (rc_mode (rewrite_ctx b) = Drive) && bool_decide (drive_mux b = None) then
      match startup with
      | Some (Ok dm) => Ok (mkBundle (rewrite_ctx b) (fronter b) (tunnel_mux b) (Some dm))
      | Some _ => Err PDriveMux
      | None => Err PDriveMissing
      end
    else Ok b in
  match installed with
  | Err e => (Err e, upd (bundle s) (mode_tasks s) Ending s)
  | Panic => (Panic, s)
  | Ok b =>
    let t := match fronter b, mode_tasks s with Some f, None => Some (f, rs_config s) | _, t => t end in
    (Ok tt, upd b t Serving s)
  end.

(** The epilogue of [run]. *)
Definition run_cleanup (s : RuntimeState) : RuntimeState :=
  let b := bundle s in
  mkRuntime (rs_port s) (rs_socks5_port s) (mkBundle (rewrite_ctx b) (fronter b) None None) None (coalesce_step s) (coalesce_max s) true
    (rs_config s) Finished (switching s) (next_id s).

(** ** [switch_mode] *)

(** Up to the lock: nothing of the live state is touched. *)
Definition switch_build (c : RunConfig) (drive_ok : bool) (s : RuntimeState) : res unit ProxyError * RuntimeState :=
  if stopped s then (Err PShuttingDown, s) else
  match build_mode_state c with
  | Err e => (Err e, s)
  | Panic => (Panic, s)
  | Ok (f, ctx, mode) =>
    let fr := if f : bool then Some (mkDF (next_id s) c) else None in
    if bool_decide (mode = Drive) then
      if drive_ok then (Ok tt, set_switching (Some (mkBuilt c fr ctx mode (Some (mkDM (S (next_id s)) c)))) (S (S (next_id s))) s)
      else (Err PDriveMux, s)
    else (Ok tt, set_switching (Some (mkBuilt c fr ctx mode None)) (S (next_id s)) s)
  end.

Definition switch_commit (x : Built) (s : RuntimeState) : res unit ProxyError * RuntimeState :=
  let s := set_switching None (next_id s) s in
  if stopped s then (Err PShuttingDown, s) else
  let '(step, max) := resolve_coalesce (bl_config x) in
  let mux := if bool_decide (bl_mode x = Full) then (fun f => mkMux f step max) <$> bl_fronter x else None in
  (Ok tt,
   mkRuntime (rs_port s) (rs_socks5_port s) (mkBundle (bl_ctx x) (bl_fronter x) mux (bl_drive x))
     ((fun f => (f, bl_config x)) <$> bl_fronter x) step max (stopped s) (bl_config x) (run_phase s) (switching s) (next_id s)).

(** ** Steps *)
Inductive rstep : RuntimeState -> RuntimeState -> Prop :=
| r_bind_fails s : run_phase s = NotStarted -> rstep s (upd (bundle s) (mode_tasks s) Ending s)
| r_prepare s ok : run_phase s = NotStarted -> rstep s (run_prepare ok s)
| r_install s startup : run_phase s = Prepared startup -> rstep s (snd (run_install startup s))
| r_stop s : run_phase s = Serving -> rstep s (upd (bundle s) (mode_tasks s) Ending s)
| r_cleanup s : run_phase s = Ending -> rstep s (run_cleanup s)
| r_build s c ok : switching s = None -> rstep s (snd (switch_build c ok s))
| r_commit s x : switching s = Some x -> rstep s (snd (switch_commit x s)).

Inductive rreach (c0 : RunConfig) : RuntimeState -> Prop :=
| rr_new s : RuntimeState_new c0 = Ok s -> rreach c0 s
| rr_step s s' : rreach c0 s -> rstep s s' -> rreach c0 s'.

(** ** The invariant *)

(** A bundle is the one of configuration [c], and its parts belong together. *)
Record bundle_ok (c : RunConfig) (b : ModeBundle) : Prop := {
  bo_built : exists f, build_mode_state c = Ok (f, rewrite_ctx b, rc_mode (rewrite_ctx b));
  bo_fronter : is_Some (fronter b) <-> uses_apps_script_relay (rc_mode (rewrite_ctx b)) = true;
  bo_config : forall f, fronter b = Some f -> df_config f = c;
  bo_mux : forall m, tunnel_mux b = Some m -> rc_mode (rewrite_ctx b) = Full /\ fronter b = Some (tm_fronter m) /\ (tm_step m, tm_max m) = resolve_coalesce c;
  bo_drive : forall d, drive_mux b = Some d -> rc_mode (rewrite_ctx b) = Drive /\ dm_config d = c
}.

(** Everything the mode needs is running. *)
Definition complete (s : RuntimeState) : Prop :=
  (current_mode s = Full -> is_Some (tunnel_mux (bundle s))) /\ (current_mode s = Drive -> is_Some (drive_mux (bundle s)))
  /\ (is_Some (fronter (bundle s)) -> is_Some (mode_tasks s)).

Record runtime_ok (s : RuntimeState) : Prop := {
  ro_bundle : bundle_ok (rs_config s) (bundle s);
  ro_tasks : forall f c, mode_tasks s = Some (f, c) -> fronter (bundle s) = Some f /\ c = rs_config s;
  ro_coalesce : (coalesce_step s, coalesce_max s) = resolve_coalesce (rs_config s);
  ro_stopped : stopped s = true <-> run_phase s = Finished;
  ro_quiet : stopped s = true -> mode_tasks s = None /\ tunnel_mux (bundle s) = None /\ drive_mux (bundle s) = None;
  ro_serving : run_phase s = Serving -> complete s;
  ro_prepared : forall st, run_phase s = Prepared st -> current_mode s = Drive -> drive_mux (bundle s) = None ->
    exists r, st = Some r /\ forall d, r = Ok d -> dm_config d = rs_config s;
  ro_built : forall x, switching s = Some x ->
    (exists f, build_mode_state (bl_config x) = Ok (f, bl_ctx x, bl_mode x)) /\ rc_mode (bl_ctx x) = bl_mode x
    /\ (is_Some (bl_fronter x) <-> uses_apps_script_relay (bl_mode x) = true) /\ (forall f, bl_fronter x = Some f -> df_config f = bl_config x)
    /\ (is_Some (bl_drive x) <-> bl_mode x = Drive) /\ (forall d, bl_drive x = Some d -> dm_config d = bl_config x)
}.

Lemma build_mode_ctx c f ctx mode : build_mode_state c = Ok (f, ctx, mode) -> rc_mode ctx = mode /\ f = uses_apps_script_relay mode.
Proof.
  unfold build_mode_state. intros (m & Hm & H)%res_bind_Ok. apply res_bind_Ok in H as (f0 & Hf & H). apply res_bind_Ok in H as (gs & Hg & H).
  injection H as <- <- <-. split; [done|]. destruct (uses_apps_script_relay m); [|by injection Hf]. case_bool_decide; [done|by injection Hf].
Qed.

Lemma some_if (b : bool) {A} (a : A) : is_Some (if b then Some a else None) <-> b = true.
Proof. destruct b; split; intros H; [done|by eexists|by destruct H|done]. Qed.

Lemma new_ok c s : RuntimeState_new c = Ok s -> runtime_ok s.
Proof.
  unfold RuntimeState_new. intros ([[f ctx] mode] & Hb & H)%res_bind_Ok. pose proof (build_mode_ctx _ _ _ _ Hb) as [Hm Hf].
  destruct (resolve_coalesce c) as [st mx] eqn:Ec. injection H as <-. split; cbn; try done.
  split; cbn; try done; [exists f; by rewrite Hm| |].
  - rewrite Hm, <- Hf. apply some_if.
  - destruct f; [|done]. by intros f [= <-].
Qed.

Lemma prepare_ok ok s : run_phase s = NotStarted -> runtime_ok s -> runtime_ok (run_prepare ok s).
Proof.
  intros Hp [H1 H2 H3 H4 H5 H6 H7 H8]. unfold run_prepare. assert (stopped s <> true) as Hns by (rewrite H4; congruence).
  destruct (bool_decide (current_mode s = Drive)) eqn:Ed; cbn [andb]; [destruct (bool_decide (drive_mux (bundle s) = None)) eqn:En|].
  - split; cbn; try done. intros st [= <-] _ _. eexists. split; [reflexivity|]. destruct ok; [by intros d [= <-]|done].
  - apply bool_decide_eq_false in En. split; cbn; try done.
  - apply bool_decide_eq_false in Ed. split; cbn; try done.
Qed.

(** The bundle with the tunnel multiplexer it lacks. *)
Lemma add_mux_ok c b st mx : (st, mx) = resolve_coalesce c -> bundle_ok c b ->
  let b' := match fronter b, tunnel_mux b with
    | Some f, None => if bool_decide (rc_mode (rewrite_ctx b) = Full)
                      then mkBundle (rewrite_ctx b) (fronter b) (Some (mkMux f st mx)) (drive_mux b) else b
    | _, _ => b
    end in
  bundle_ok c b' /\ rewrite_ctx b' = rewrite_ctx b /\ fronter b' = fronter b /\ drive_mux b' = drive_mux b
  /\ (rc_mode (rewrite_ctx b) = Full -> is_Some (tunnel_mux b')).
Proof.
  intros Ec [H1 H2 H3 H4 H5]. cbv zeta. destruct (fronter b) as [f|] eqn:Ef.
  - destruct (tunnel_mux b) as [m|] eqn:Em.
    { split_and!; try done; try (intros _; by eexists). by split; rewrite ?Ef, ?Em. }
    case_bool_decide as Efull.
    + split_and!; try done; try (intros _; by eexists). split; cbn; rewrite ?Ef; try done. by intros m [= <-].
    + split_and!; try done. by split; rewrite ?Ef, ?Em.
  - split_and!; try done; [by split; rewrite ?Ef|]. intros E. rewrite E in H2. destruct (proj2 H2 eq_refl) as [? [=]].
Qed.

Lemma run_install_ok st s : run_phase s = Prepared st -> runtime_ok s ->
  runtime_ok (snd (run_install st s)) /\ fst (run_install st s) <> Err PDriveMissing /\ fst (run_install st s) <> Panic.
Proof.
  intros Hp [H1 H2 H3 H4 H5 H6 H7 H8]. assert (stopped s <> true) as Hns by (rewrite H4; congruence).
  destruct (add_mux_ok _ (bundle s) _ _ H3 H1) as (Hb & Ec & Ef & Ed & Hfull). unfold run_install.
  set (b := match fronter (bundle s), tunnel_mux (bundle s) with Some f, None => _ | _, _ => _ end) in *. cbv zeta in Hb. clearbody b.
  rewrite Ec, Ed. cbn [upd bundle mode_tasks].
  assert (forall dm (t : option DriveMux), (t = drive_mux b \/ (t = Some dm /\ rc_mode (rewrite_ctx b) = Drive /\ dm_config dm = rs_config s)) ->
    bundle_ok (rs_config s) (mkBundle (rewrite_ctx b) (fronter b) (tunnel_mux b) t)) as Hset.
  { intros dm t Ht. destruct Hb as [B1 B2 B3 B4 B5]. split; cbn; try done. intros d Hd. destruct Ht as [->|(-> & ? & ?)]; [by apply B5|by simplify_eq]. }
  assert (forall b1, rewrite_ctx b1 = rewrite_ctx b -> fronter b1 = fronter b -> tunnel_mux b1 = tunnel_mux b -> bundle_ok (rs_config s) b1 ->
    (current_mode s = Drive -> is_Some (drive_mux b1)) ->
    runtime_ok (upd b1 (match fronter b1, mode_tasks s with Some f, None => Some (f, rs_config s) | _, t => t end) Serving (upd b (mode_tasks s) (run_phase s) s))) as Hserve.
  { intros b1 E1 E2 E3 Hb1 Hdr. unfold current_mode in Hdr. split; cbn; try done; [|].
    - intros f c. rewrite E2, Ef. destruct (fronter (bundle s)) as [f0|] eqn:E0; [|intros Ht; apply H2 in Ht as [[=] _]].
      destruct (mode_tasks s) as [[f1 c1]|]; intros [= <- <-]; [by apply H2|done].
    - intros _. unfold complete, current_mode. cbn. rewrite E1, E2, E3, Ec, Ef. split_and!; [done|done|].
      intros [f0 Hf0]. rewrite Hf0. destruct (mode_tasks s); by eexists. }
  destruct (bool_decide (rc_mode (rewrite_ctx (bundle s)) = Drive)) eqn:E1; cbn [andb].
  - apply bool_decide_eq_true in E1. destruct (bool_decide (drive_mux (bundle s) = None)) eqn:E2.
    + apply bool_decide_eq_true in E2. destruct (H7 st Hp E1 E2) as (r & -> & Hr). destruct r as [d|e|]; cbn [fst snd].
      * split; [|done]. apply Hserve; cbn; [done..| |intros _; by eexists]. rewrite <- Ec. apply (Hset d). right. split_and!; [done|congruence|by apply Hr].
      * split; [|done]. split; cbn; try done. intros f c Ht. rewrite Ef. by apply H2.
      * split; [|done]. split; cbn; try done. intros f c Ht. rewrite Ef. by apply H2.
    + apply bool_decide_eq_false in E2. split; [|done]. apply Hserve; [done..|]. intros _. rewrite Ed. by destruct (drive_mux (bundle s)); [eexists|].
  - apply bool_decide_eq_false in E1. split; [|done]. apply Hserve; [done..|]. intros Hd. by destruct E1.
Qed.

Lemma cleanup_ok s : run_phase s = Ending -> runtime_ok s -> runtime_ok (run_cleanup s).
Proof.
  intros Hp [[B1 B2 B3 B4 B5] H2 H3 H4 H5 H6 H7 H8]. split; cbn; try done.
Qed.

Lemma switch_build_ok c ok s : runtime_ok s -> runtime_ok (snd (switch_build c ok s)).
Proof.
  intros H. unfold switch_build. destruct (stopped s) eqn:Es; [done|]. destruct (build_mode_state c) as [[[f ctx] mode]|e|] eqn:Eb; [|done..].
  pose proof (build_mode_ctx _ _ _ _ Eb) as [Hm Hf].
  assert (forall dr n, (is_Some dr <-> mode = Drive) -> (forall d, dr = Some d -> dm_config d = c) ->
    runtime_ok (set_switching (Some (mkBuilt c (if f then Some (mkDF (next_id s) c) else None) ctx mode dr)) n s)) as Hset.
  { intros dr n Hd Hc. destruct H as [H1 H2 H3 H4 H5 H6 H7 H8]. split; try done. cbn. intros x [= <-]. cbn. split_and!; try done; [by exists f| |].
    - rewrite <- Hf. apply some_if.
    - destruct f; [by intros g [= <-]|done]. }
  case_bool_decide as Ed; [destruct ok; [|done]|].
  - apply Hset; [split; [done|by eexists]|by intros d [= <-]].
  - apply Hset; [split; [by intros [? [=]]|done]|done].
Qed.

Lemma switch_commit_ok x s : switching s = Some x -> runtime_ok s -> runtime_ok (snd (switch_commit x s)).
Proof.
  intros Hx H. destruct (ro_built _ H x Hx) as ([f Hb] & Hm & Hf & Hfc & Hd & Hdc). unfold switch_commit. cbn [stopped set_switching].
  destruct (stopped s) eqn:Es; [destruct H; by split|]. destruct (resolve_coalesce (bl_config x)) as [st mx] eqn:Ec.
  destruct H as [_ _ _ H4 H5 H6 H7 H8]. split; cbn; try done.
  - split; cbn; try done; [exists f; by rewrite Hm|by rewrite Hm| |].
    + intros m. case_bool_decide as Efull; [|done]. intros (g & Hg & ->)%fmap_Some. rewrite Hm, Hg. by split_and!.
    + intros d Hdd. rewrite Hm. split; [|by apply Hdc]. apply Hd. by eexists.
  - intros g c (g' & Hg & [= -> ->])%fmap_Some. done.
  - by rewrite Es in H4.
  - intros _. unfold complete, current_mode. cbn. rewrite Hm. split_and!.
    + intros Efull. rewrite bool_decide_true by done. apply fmap_is_Some, Hf. by rewrite Efull.
    + intros Edr. by apply Hd.
    + by rewrite fmap_is_Some.
  - intros st0 _. unfold current_mode. cbn. rewrite Hm. intros [d Hdd]%Hd Hn. congruence.
Qed.

Lemma rstep_ok s s' : runtime_ok s -> rstep s s' -> runtime_ok s'.
Proof.
  intros H Hs. destruct Hs as [s Hp|s ok Hp|s st Hp|s Hp|s Hp|s c ok Hw|s x Hw].
  - destruct H as [H1 H2 H3 H4 H5 H6 H7 H8]. assert (stopped s <> true) by (rewrite H4; congruence). by split.
  - by apply prepare_ok.
  - by apply run_install_ok.
  - destruct H as [H1 H2 H3 H4 H5 H6 H7 H8]. assert (stopped s <> true) by (rewrite H4; congruence). by split.
  - by apply cleanup_ok.
  - by apply switch_build_ok.
  - by apply switch_commit_ok.
Qed.

Lemma rreach_ok c0 s : rreach c0 s -> runtime_ok s.
Proof. induction 1; [by eapply new_ok|by eapply rstep_ok]. Qed.

(** Claim C31: the proxy is always in one mode as a whole.  Under every interleaving of
    starting, switching and stopping: the bundle that connections are served with is the one
    of a single configuration, with the fronter, the multiplexer or the Drive client that its
    mode has and no others, all of that configuration; the background tasks, when there are
    any, are those of that fronter and that configuration; while the proxy serves, everything
    the mode needs is running; once it has stopped, no task runs, no multiplexer is kept and
    no later switch brings one back; and the Drive client is never found missing after a race
    at start-up. *)
Theorem one_mode_at_a_time (c0 : RunConfig) (s : RuntimeState) (Hreach : rreach c0 s) :
  bundle_ok (rs_config s) (bundle s)
  /\ (forall f c, mode_tasks s = Some (f, c) -> fronter (bundle s) = Some f /\ c = rs_config s)
  /\ (run_phase s = Serving -> complete s)
  /\ (stopped s = true -> mode_tasks s = None /\ tunnel_mux (bundle s) = None /\ drive_mux (bundle s) = None
       /\ (forall c ok, switch_build c ok s = (Err PShuttingDown, s))
       /\ forall x, fst (switch_commit x s) = Err PShuttingDown /\ bundle (snd (switch_commit x s)) = bundle s /\ mode_tasks (snd (switch_commit x s)) = None)
  /\ (forall st, run_phase s = Prepared st -> fst (run_install st s) <> Err PDriveMissing).
Proof.
  pose proof (rreach_ok _ _ Hreach) as H. split_and!; [apply H|apply H|apply H| |].
  - intros Hs. destruct (ro_quiet _ H Hs) as (Ht & Hm & Hd). split_and!; [done..| |].
    + intros c ok. unfold switch_build. by rewrite Hs.
    + intros x. unfold switch_commit. cbn [stopped set_switching]. by rewrite Hs.
  - intros st Hp. by apply (run_install_ok st s Hp H).
Qed.

(** ** Switching and starting *)

(** What a started proxy serves with: the context; and the configurations that the fronter,
    the multiplexer (with its timing) and its fronter, the Drive client, the background
    tasks and their fronter were built from. *)
Record Served := mkServed {
  sv_ctx : RewriteCtx; sv_fronter : option RunConfig; sv_mux : option (RunConfig * Z * Z); sv_drive : option RunConfig;
  sv_tasks : option (RunConfig * RunConfig); sv_step : Z; sv_max : Z
}.

Definition served (s : RuntimeState) : Served :=
  mkServed (rewrite_ctx (bundle s)) (df_config <$> fronter (bundle s))
    ((fun m => (df_config (tm_fronter m), tm_step m, tm_max m)) <$> tunnel_mux (bundle s))
    (dm_config <$> drive_mux (bundle s)) ((fun '(f, c) => (df_config f, c)) <$> mode_tasks s) (coalesce_step s) (coalesce_max s).

Lemma served_ok s c step max : runtime_ok s -> complete s -> rs_config s = c -> resolve_coalesce c = (step, max) ->
  let relay := uses_apps_script_relay (current_mode s) in
  served s = mkServed (rewrite_ctx (bundle s)) (if relay then Some c else None)
    (if bool_decide (current_mode s = Full) then Some (c, step, max) else None)
    (if bool_decide (current_mode s = Drive) then Some c else None) (if relay then Some (c, c) else None) step max.
Proof.
  intros [[B1 B2 B3 B4 B5] H2 H3 _ _ _ _ _] (Hfull & Hdrive & Htasks) <- Ec.
  rewrite Ec in *. injection H3 as Es Em. cbv zeta. unfold served. fold (current_mode s) in *.
  assert (df_config <$> fronter (bundle s) = if uses_apps_script_relay (current_mode s) then Some (rs_config s) else None) as Ef.
  { destruct (fronter (bundle s)) as [f|] eqn:E.
    - rewrite (proj1 B2) by (by eexists). cbn. by rewrite (B3 f eq_refl).
    - destruct (uses_apps_script_relay (current_mode s)); [|done]. destruct (proj2 B2 eq_refl) as [? [=]]. }
  rewrite Ef, Es, Em. f_equal.
  - destruct (tunnel_mux (bundle s)) as [m|] eqn:Emx.
    + destruct (B4 m eq_refl) as (Hf & Hfr & Ht). injection Ht as T1 T2. rewrite bool_decide_true by done. cbn. by rewrite (B3 _ Hfr), T1, T2.
    + case_bool_decide as Hf; [|done]. destruct (Hfull Hf) as [? [=]].
  - destruct (drive_mux (bundle s)) as [d|] eqn:Ed.
    + destruct (B5 d eq_refl) as [Hd Hc]. rewrite bool_decide_true by done. cbn. by rewrite Hc.
    + case_bool_decide as Hd; [|done]. destruct (Hdrive Hd) as [? [=]].
  - destruct (mode_tasks s) as [[f c]|] eqn:Et.
    + destruct (H2 f c eq_refl) as [Hf ->]. cbn. rewrite (B3 f Hf). by rewrite (proj1 B2) by (by eexists).
    + destruct (uses_apps_script_relay (current_mode s)) eqn:E; [|done]. destruct (Htasks (proj2 B2 eq_refl)) as [? [=]].
Qed.

(** Claim C32: switching to a configuration is starting with it, the listening ports
    apart.  When a switch to [c] succeeds on a proxy that serves, and the proxy started
    afresh with [c] serves, both serve with the same context, and with a fronter, a
    multiplexer, a Drive client and background tasks built from the same configuration and
    with the same timing, or the same absence of each; the ports stay those the proxy was
    started with. *)
Theorem switch_equals_start (c0 c : RunConfig) (s s1 fresh t : RuntimeState) (x : Built) (ok : bool)
    (Hs : rreach c0 s) (Hserving : run_phase s = Serving)
    (Hx : switching s = Some x) (Hc : bl_config x = c) (Hcommit : switch_commit x s = (Ok tt, s1))
    (Hfresh : RuntimeState_new c = Ok fresh) (st : option (res DriveMux unit))
    (Hprep : run_phase (run_prepare ok fresh) = Prepared st) (Hinst : run_install st (run_prepare ok fresh) = (Ok tt, t)) :
  served s1 = served t /\ rs_port s1 = rs_port s /\ rs_socks5_port s1 = rs_socks5_port s.
Proof.
  pose proof (rreach_ok _ _ Hs) as H. pose proof (switch_commit_ok x s Hx H) as H1. rewrite Hcommit in H1. cbn [snd] in H1.
  pose proof (new_ok _ _ Hfresh) as Hf. assert (run_phase fresh = NotStarted /\ rs_config fresh = c) as [Hp0 Hc0].
  { unfold RuntimeState_new in Hfresh. apply res_bind_Ok in Hfresh as ([[f ctx] mode] & _ & E). destruct (resolve_coalesce c). by injection E as <-. }
  pose proof (prepare_ok ok fresh Hp0 Hf) as H2. destruct (run_install_ok st _ Hprep H2) as (H3 & _). rewrite Hinst in H3. cbn [snd] in H3.
  assert (rs_config s1 = c /\ run_phase s1 = Serving /\ rs_port s1 = rs_port s /\ rs_socks5_port s1 = rs_socks5_port s) as (E1 & P1 & Hports).
  { unfold switch_commit in Hcommit. destruct (stopped (set_switching None (next_id s) s)); [done|]. destruct (resolve_coalesce (bl_config x)). by injection Hcommit as <-. }
  assert (rs_config t = c /\ run_phase t = Serving) as [E2 P2].
  { assert (rs_config (run_prepare ok fresh) = c) as Ep by (unfold run_prepare; by destruct (_ && _)).
    revert Hinst. unfold run_install. intros Hinst. repeat case_match; try done; by injection Hinst as <-. }
  split; [|done]. destruct (resolve_coalesce c) as [step mx] eqn:Ec.
  rewrite (served_ok s1 c step mx H1 (ro_serving _ H1 P1) E1 Ec), (served_ok t c step mx H3 (ro_serving _ H3 P2) E2 Ec).
  destruct (bo_built _ _ (ro_bundle _ H1)) as [f1 B1]. destruct (bo_built _ _ (ro_bundle _ H3)) as [f2 B2]. rewrite E1 in B1. rewrite E2 in B2.
  rewrite B1 in B2. injection B2 as _ Ectx _. unfold current_mode. by rewrite Ectx.
Qed.
End ModeSwitch.

(** ** A configuration that was checked *)
Lemma resolve_groups_ok {P : CryptoPrims} valid_sni `{!ServerNames valid_sni} gs : Forall (fun g => exists i, validate_group valid_sni i g = Ok tt) gs ->
  exists rs, resolve_groups (FrontingGroupResolved_from_config valid_sni (build_camouflage_connector valid_sni true)) gs = Ok rs /\ length rs = length gs.
Proof.
  induction 1 as [|g gs [i Hi] _ (rs & IH & Hl)]; [by exists []|]. cbn [resolve_groups]. rewrite (group_resolves valid_sni i g Hi). cbn [map_err res_bind].
  rewrite IH. cbn [res_bind]. eexists. split; [done|]. cbn. by rewrite Hl.
Qed.

(** A configuration that passed [validate] starts the proxy in its mode, with a fronter
    exactly in the modes that use one, every fronting group resolved, and two different ports.  When
    the port of SOCKS5 is left out it is the next one, in 16 bits: after 65535 it is 0. *)
Theorem validated_runtime {P : CryptoPrims} (valid_sni : str -> bool) `{!ServerNames valid_sni} (cache : CandidateCache) (doh_ok : bool) (c : RunConfig)
    (Hv : validate valid_sni (rn_base c) = Ok tt) (Hport : 0 <= cf_listen_port (rn_base c) < 2 ^ 16) :
  exists s mode, RuntimeState_new valid_sni true cache doh_ok c = Ok s /\ mode_of_str (cf_mode (rn_base c)) = Some mode /\ current_mode s = mode
  /\ (is_Some (fronter (bundle s)) <-> uses_apps_script_relay mode = true)
  /\ length (fronting_groups (rewrite_ctx (bundle s))) = length (cf_fronting_groups (rn_base c))
  /\ (rs_socks5_port s = rs_port s -> False)
  /\ (cf_socks5_port (rn_base c) = None -> rs_socks5_port s = if rs_port s =? 65535 then 0 else rs_port s + 1).
Proof.
  destruct (validate_valid _ _ Hv) as [Hg _ _ Happs _ Hports].
  assert (exists mode, mode_of_str (cf_mode (rn_base c)) = Some mode) as [mode Hm].
  { unfold validate in Hv. apply res_bind_Ok in Hv as (m & Hm & _). unfold ok_or in Hm. destruct (mode_of_str (cf_mode (rn_base c))); [by eexists|done]. }
  destruct (resolve_groups_ok valid_sni (cf_fronting_groups (rn_base c)) Hg) as (rs & Hrs & Hl).
  assert ((if uses_apps_script_relay mode then if bool_decide (script_ids_resolved (rn_base c) = []) then Err PNoScript else Ok true else Ok false)
    = @Ok _ ProxyError (uses_apps_script_relay mode)) as Hf.
  { destruct (uses_apps_script_relay mode) eqn:Eu; [|done]. specialize (Happs mode Hm Eu). unfold validate_apps_script in Happs.
    apply res_bind_Ok in Happs as (? & _ & H). apply res_bind_Ok in H as (? & Hne%refuse_Ok & _). by rewrite Hne. }
  unfold RuntimeState_new, build_mode_state. rewrite Hm. cbn [ok_or res_bind]. rewrite Hf. cbn [res_bind]. rewrite Hrs. cbn [res_bind].
  destruct (resolve_coalesce c) as [st mx]. eexists _, mode. split; [reflexivity|]. cbn [bundle rewrite_ctx fronter current_mode rc_mode fronting_groups rs_socks5_port rs_port].
  assert (cf_socks5_port (rn_base c) = None -> wrap 16 (cf_listen_port (rn_base c) + 1) = if cf_listen_port (rn_base c) =? 65535 then 0 else cf_listen_port (rn_base c) + 1) as Hw.
  { intros _. destruct (Z.eqb_spec (cf_listen_port (rn_base c)) 65535) as [->|]; [done|]. apply wrap_small. lia. }
  split_and!; [done|done|apply some_if|done| |].
  - destruct (cf_socks5_port (rn_base c)) as [p|] eqn:Ep; [congruence|]. rewrite Hw by done. destruct (Z.eqb_spec (cf_listen_port (rn_base c)) 65535); lia.
  - intros Ep. rewrite Ep. by apply Hw.
Qed.

(** ** Examples *)
Definition run_config (mode : string) : RunConfig :=
  let b := started_config in
  mkRun (mkConfig (lit mode) (cf_auth_key b) (cf_script_id b) (cf_script_ids b) (cf_drive b) (cf_google_ip b) (cf_scan_batch_size b) 65535 None
           (cf_fronting_groups b) (cf_relay_url_patterns b) (cf_youtube_via_relay b) (cf_exit_node b) (cf_direct_mode b) (cf_apps_script_lang b))
    (lit "www.google.com") ∅ None [] true false [] 0 0 true true false.

Definition no_cache : CandidateCache := mkCache false None None.

Lemma validated_runtime_witness :
  exists s mode, RuntimeState_new ldh_sni true no_cache true (run_config "full") = Ok s /\ mode_of_str (lit "full") = Some mode /\ rs_socks5_port s = 0.
Proof.
  destruct (validated_runtime (P := toy_crypto) ldh_sni no_cache true (run_config "full")) as (s & mode & H1 & H2 & _ & _ & _ & _ & H3);
    [vm_compute; reflexivity|split; vm_compute; congruence|].
  exists s, mode. split; [exact H1|]. split; [exact H2|]. rewrite H3 by reflexivity. unfold RuntimeState_new in H1.
  apply res_bind_Ok in H1 as ([[f ctx] m] & _ & E). injection E as <-. reflexivity.
Defined.

(** A proxy in apps_script mode that serves, with a switch to [mode] built. *)
Definition serving_state (mode : string) : res RuntimeState ProxyError :=
  let? s := RuntimeState_new ldh_sni true no_cache true (run_config "apps_script") in
  let s := run_prepare true s in
  let s := snd (run_install None s) in
  Ok (snd (switch_build ldh_sni true no_cache true (run_config mode) true s)).

Lemma serving_state_reach mode s : serving_state mode = Ok s -> rreach ldh_sni true no_cache true (run_config "apps_script") s.
Proof.
  unfold serving_state. intros (s0 & H0 & E)%res_bind_Ok. injection E as <-.
  assert (run_phase s0 = NotStarted /\ switching s0 = None /\ current_mode s0 = AppsScript) as (Hp & Hw & Hm).
  { revert H0. vm_compute (RuntimeState_new _ _ _ _ _). intros [= <-]. done. }
  assert (run_prepare true s0 = upd (bundle s0) (mode_tasks s0) (Prepared None) s0) as Ep by (unfold run_prepare; by rewrite Hm).
  eapply rr_step; [eapply rr_step; [eapply rr_step; [by apply rr_new|]|]|].
  - by apply (r_prepare _ _ _ _ s0 true).
  - rewrite Ep. by apply (r_install _ _ _ _ _ None).
  - rewrite Ep. apply r_build. unfold run_install. repeat case_match; cbn; try done; simplify_eq; done.
Qed.

(** The state of an outcome that succeeded. *)
Lemma started (r : res RuntimeState ProxyError) : bool_decide (is_Some (as_ref r)) = true -> exists s, r = Ok s.
Proof. intros [s Hs]%bool_decide_eq_true. destruct r as [a| |]; [by exists a|done|done]. Qed.

Lemma one_mode_at_a_time_witness : exists s, serving_state "full" = Ok s /\ complete s /\ fst <$> mode_tasks s = fronter (bundle s).
Proof.
  destruct (started (serving_state "full")) as [s Hs]; [vm_compute; reflexivity|].
  destruct (one_mode_at_a_time ldh_sni true no_cache true (run_config "apps_script") s (serving_state_reach _ _ Hs)) as (_ & Ht & Hc & _).
  assert (run_phase s = Serving /\ is_Some (mode_tasks s)) as [Hp [[f c] Hf]].
  { revert Hs. vm_compute (serving_state _). intros [= <-]. cbn. split; [reflexivity|eexists; reflexivity]. }
  exists s. split; [exact Hs|]. split; [exact (Hc Hp)|]. rewrite Hf. cbn. symmetry. exact (proj1 (Ht f c Hf)).
Defined.

Lemma switch_equals_start_witness : exists s x s1 fresh t, serving_state "full" = Ok s /\ switch_commit x s = (Ok tt, s1)
  /\ RuntimeState_new ldh_sni true no_cache true (run_config "full") = Ok fresh /\ run_install None (run_prepare true fresh) = (Ok tt, t)
  /\ current_mode s = AppsScript /\ current_mode s1 = Full
  /\ served s1 = served t /\ rs_port s1 = rs_port s /\ rs_socks5_port s1 = rs_socks5_port s.
Proof.
  destruct (started (serving_state "full")) as [s Hs]; [vm_compute; reflexivity|].
  destruct (started (RuntimeState_new ldh_sni true no_cache true (run_config "full"))) as [fresh Hfresh]; [vm_compute; reflexivity|].
  assert (exists x, run_phase s = Serving /\ switching s = Some x /\ bl_config x = run_config "full" /\ current_mode s = AppsScript
    /\ exists s1, switch_commit x s = (Ok tt, s1) /\ current_mode s1 = Full) as (x & H1 & H2 & H3 & H4 & s1 & H5 & H6).
  { revert Hs. vm_compute (serving_state _). intros [= <-]. eexists. repeat split. eexists. repeat split. }
  assert (exists t, run_phase (run_prepare true fresh) = Prepared None /\ run_install None (run_prepare true fresh) = (Ok tt, t)) as (t & H7 & H8).
  { revert Hfresh. vm_compute (RuntimeState_new _ _ _ _ _). intros [= <-]. eexists. repeat split. }
  exists s, x, s1, fresh, t. repeat (split; [assumption|]).
  exact (switch_equals_start ldh_sni true no_cache true (run_config "apps_script") (run_config "full") s s1 fresh t x true
    (serving_state_reach _ _ Hs) H1 H2 H3 H5 Hfresh None H7 H8).
Defined.
