(* ===== verification/Desktop.v ===== *)
(** * desktop/src-tauri/src/commands.rs: the commands that edit the configuration

    Every command reads the file as a JSON value, changes the keys it controls and writes the
    value back, so that the keys it does not know stay.  Modelled: the Tunnel form, the
    fronting groups, the SNI pool, the completion of a sign-in, the clearing of a revoked
    token, and what the listener of the sign-in does with one request.

    An object is serde_json's map: keys sorted, each once.  Whether the file can be written is
    the outcome of the environment; the write is atomic. *)

From stdpp Require Import prelude.
From S2P Require Import Prelude RustStr Frame Crypto HttpText HostMatch DirectMode RelayJson ExitNode Token OAuthFlow Dispatch ConfigCheck ConfigRules CertTrust.
#[local] Open Scope Z_scope.

(** ** The file *)

Inductive Disk := NoFile | Unreadable | File (v : Value).

Definition default_config_base : Value :=
  VObject (map_of
    [(lit "mode", VString (lit "apps_script")); (lit "google_ip", VString (lit "216.239.38.120")); (lit "front_domain", VString (lit "www.google.com"));
     (lit "auth_key", VString []); (lit "listen_host", VString (lit "127.0.0.1")); (lit "listen_port", VNumber (lit "8085"));
     (lit "socks5_port", VNumber (lit "8086")); (lit "log_level", VString (lit "info,hyper=warn"))]).

Definition read_or_default_config_json (d : Disk) : res Value str :=
  match d with NoFile => Ok default_config_base | Unreadable => Err (lit "read or parse") | File v => Ok v end.

Definition write_config_json (ok : bool) (v : Value) (d : Disk) : res unit str * Disk :=
  if ok then (Ok tt, File v) else (Err (lit "write"), d).

Definition map_remove (k : str) (m : list (str * Value)) : list (str * Value) := filter (fun kv => kv.1 <> k) m.

(** A command on the object of the file: its change, or its refusal. *)
Definition edit_config {A} (ok : bool) (change : list (str * Value) -> res (list (str * Value) * A) str) (d : Disk) : res A str * Disk :=
  match (let? v := read_or_default_config_json d in
         let? m := ok_or (as_object v) (lit "config.json is not a JSON object") in change m) with
  | Ok (m, a) => let '(r, d) := write_config_json ok (VObject m) d in (let? _ := r in Ok a, d)
  | Err e => (Err e, d)
  | Panic => (Panic, d)
  end.

(** [obj.entry("drive").or_insert_with(..)], which must be an object. *)
Definition drive_entry (m : list (str * Value)) : res (list (str * Value)) str :=
  match get_key (lit "drive") m with
  | None => Ok []
  | Some v => ok_or (as_object v) (lit "config.json::drive is not an object")
  end.

(** ** The Tunnel form *)

Record ConfigUpdate := mkUpdate {
  cu_mode : str; cu_listen_host : str; cu_listen_port : Z; cu_socks5_port : option Z; cu_script_ids : list ScriptIdEntry; cu_auth_key : str;
  cu_front_domain : str; cu_google_ip : str; cu_log_level : str;
  cu_drive_folder_id : str; cu_drive_relay_pubkey : str; cu_drive_poll_interval_ms : Z; cu_drive_max_concurrent_uploads : Z;
  cu_drive_oauth_client_id : str; cu_drive_oauth_client_secret : str
}.

Definition script_id_wire (cleaned : list ScriptIdEntry) : option Value :=
  match cleaned with
  | [] => None
  | e :: rest =>
    Some (if forallb se_enabled cleaned then match rest with [] => VString (se_id e) | _ => VArray ((fun e => VString (se_id e)) <$> cleaned) end
          else VArray ((fun e => VObject (map_of [(lit "id", VString (se_id e)); (lit "enabled", VBool (se_enabled e))])) <$> cleaned))
  end.

Definition check_relay_creds (needs_relay_creds : bool) (cleaned : list ScriptIdEntry) (auth_key : str) : res unit str :=
  if negb needs_relay_creds then Ok tt
  else if bool_decide (cleaned = []) then Err (lit "At least one deployment ID is required")
  else if negb (existsb se_enabled cleaned) then Err (lit "At least one enabled deployment ID is required")
  else if bool_decide (trim auth_key = []) then Err (lit "Auth key is required")
  else Ok tt.

Definition check_drive_form (mode : Mode) (u : ConfigUpdate) : res unit str :=
  if negb (bool_decide (mode = Drive)) then Ok tt
  else if cu_drive_poll_interval_ms u =? 0 then Err (lit "Drive poll interval must be greater than 0")
  else if cu_drive_max_concurrent_uploads u =? 0 then Err (lit "Drive max concurrent uploads must be greater than 0")
  else if bool_decide (trim (cu_drive_relay_pubkey u) = []) then Ok tt
  else let? _ := map_err (fun _ => lit "Invalid Drive relay public key") (from_bech32m (trim (cu_drive_relay_pubkey u))) in Ok tt.

(** [obj.get(key).and_then(as_str).unwrap_or("").trim()] *)
Definition text_of (key : string) (m : list (str * Value)) : str := trim (default [] (get_key (lit key) m ≫= as_str)).

Definition has_refresh_token (drive : list (str * Value)) : bool := negb (bool_decide (text_of "oauth_refresh_token" drive = [])).

Definition should_clear_drive_refresh_token (drive : list (str * Value)) (id secret : str) : bool :=
  if negb (has_refresh_token drive) then false
  else negb (bool_decide (text_of "oauth_client_id" drive = id)) || negb (bool_decide (text_of "oauth_client_secret" drive = secret)).

Definition num_value (n : Z) : Value := VNumber (dec_string n).
Definition insert_all (kvs : list (str * Value)) (m : list (str * Value)) : list (str * Value) := foldl (fun m kv => map_insert kv.1 kv.2 m) m kvs.

Definition clean_ids (l : list ScriptIdEntry) : list ScriptIdEntry :=
  filter (fun e => se_id e <> []) ((fun e => mkEntry (trim (se_id e)) (se_enabled e)) <$> l).

(** The object under [drive]. *)
Definition save_drive (u : ConfigUpdate) (drive : list (str * Value)) : list (str * Value) :=
  let id := trim (cu_drive_oauth_client_id u) in
  let secret := trim (cu_drive_oauth_client_secret u) in
  let drive := insert_all [(lit "folder_id", VString (trim (cu_drive_folder_id u))); (lit "relay_pubkey", VString (trim (cu_drive_relay_pubkey u)));
    (lit "poll_interval_ms", num_value (cu_drive_poll_interval_ms u)); (lit "max_concurrent_uploads", num_value (cu_drive_max_concurrent_uploads u))] drive in
  let drive := if should_clear_drive_refresh_token drive id secret then map_remove (lit "oauth_refresh_token") drive else drive in
  insert_all [(lit "oauth_client_id", VString id); (lit "oauth_client_secret", VString secret)] drive.

Definition save_object (u : ConfigUpdate) (m : list (str * Value)) : res (list (str * Value) * bool) str :=
  let m := insert_all [(lit "mode", VString (cu_mode u)); (lit "listen_host", VString (cu_listen_host u)); (lit "listen_port", num_value (cu_listen_port u))] m in
  let m := match cu_socks5_port u with Some s => map_insert (lit "socks5_port") (num_value s) m | None => map_remove (lit "socks5_port") m end in
  let m := insert_all [(lit "auth_key", VString (cu_auth_key u)); (lit "front_domain", VString (cu_front_domain u));
    (lit "google_ip", VString (cu_google_ip u)); (lit "log_level", VString (cu_log_level u))] m in
  let m := map_remove (lit "script_ids") m in
  let m := match script_id_wire (clean_ids (cu_script_ids u)) with Some v => map_insert (lit "script_id") v m | None => map_remove (lit "script_id") m end in
  let? drive := drive_entry m in
  let drive := save_drive u drive in
  Ok (map_insert (lit "drive") (VObject drive) m, has_refresh_token drive).

(** The answer: whether the user is signed in; the rest of it repeats the form. *)
Definition save_config (ok : bool) (u : ConfigUpdate) (d : Disk) : res bool str * Disk :=
  match (let? mode := ok_or (mode_of_str (cu_mode u)) (lit "unknown mode") in
         let? _ := check_relay_creds (uses_apps_script_relay mode) (clean_ids (cu_script_ids u)) (cu_auth_key u) in
         let? _ := check_drive_form mode u in
         if bool_decide (cu_socks5_port u = Some (cu_listen_port u)) then Err (lit "HTTP and SOCKS5 ports must differ") else Ok tt) with
  | Ok _ => edit_config ok (save_object u) d
  | Err e => (Err e, d)
  | Panic => (Panic, d)
  end.

(** ** Fronting groups and the SNI pool *)

Definition clean_group (g : FrontingGroup) : FrontingGroup :=
  mkFrontingGroup (trim (cg_name g)) (trim (cg_ip g)) (trim (cg_sni g)) (filter (fun d => d <> []) (trim <$> cg_domains g)) (cg_force_ip g) (cg_verify_names g).

Fixpoint validate_fronting_group_fields (gs : list FrontingGroup) : res unit str :=
  match gs with
  | [] => Ok tt
  | g :: gs =>
    if bool_decide (cg_name g = []) then Err (lit "name is required")
    else if negb (cg_force_ip g) && bool_decide (cg_ip g = []) then Err (lit "IP is required")
    else if bool_decide (cg_sni g = []) then Err (lit "SNI is required")
    else if bool_decide (cg_domains g = []) then Err (lit "at least one domain is required")
    else validate_fronting_group_fields gs
  end.

(** With serde's rendering of a list of groups. *)
Definition save_fronting_groups (to_value : list FrontingGroup -> Value) (ok : bool) (groups : list FrontingGroup) (d : Disk) : res (list FrontingGroup) str * Disk :=
  let cleaned := filter (fun g => cg_name g <> [] \/ cg_ip g <> [] \/ cg_sni g <> [] \/ cg_domains g <> []) (clean_group <$> groups) in
  match validate_fronting_group_fields cleaned with
  | Ok _ => edit_config ok (fun m => Ok (map_insert (lit "fronting_groups") (to_value cleaned) m, cleaned)) d
  | Err e => (Err e, d)
  | Panic => (Panic, d)
  end.

Record SniHost := mkSni { sni_host : str; sni_enabled : bool }.

Definition DEFAULT_GOOGLE_SNI_POOL : list str :=
  [lit "www.google.com"; lit "mail.google.com"; lit "drive.google.com"; lit "docs.google.com"; lit "calendar.google.com"; lit "accounts.google.com";
   lit "scholar.google.com"; lit "maps.google.com"; lit "chat.google.com"; lit "translate.google.com"; lit "play.google.com"; lit "lens.google.com";
   lit "chromewebstore.google.com"].

Definition save_sni_pool (ok : bool) (entries : list SniHost) (d : Disk) : res unit str * Disk :=
  let enabled := filter (fun h => h <> []) ((fun e => trim (sni_host e)) <$> filter (fun e => sni_enabled e = true) entries) in
  if bool_decide (enabled = []) then (Err (lit "At least one SNI host must remain enabled"), d) else
  edit_config ok (fun m => Ok (map_insert (lit "sni_hosts") (VArray (VString <$> enabled)) m, tt)) d.

Definition get_sni_pool (d : Disk) : res (list SniHost) str :=
  let? configured :=
    match d with
    | NoFile => Ok []
    | Unreadable => Err (lit "read or parse")
    | File v =>
      match get (lit "sni_hosts") v with
      | None => Ok []
      | Some (VArray l) => ok_or (mapM as_str l) (lit "malformed sni_hosts")
      | Some _ => Err (lit "malformed sni_hosts")
      end
    end in
  Ok (((fun h => mkSni h true) <$> configured)
      ++ (if bool_decide (configured = []) then (fun h => mkSni h true) <$> DEFAULT_GOOGLE_SNI_POOL
          else (fun h => mkSni h false) <$> filter (fun h => existsb (fun c => eq_ignore_ascii_case c h) configured = false) DEFAULT_GOOGLE_SNI_POOL)).

(** ** Signing in *)

Record OAuthCompletion := mkCompletion { oc_refresh_token : str; oc_client_id : str; oc_client_secret : str }.

Definition drive_oauth_complete (ok : bool) (c : OAuthCompletion) (d : Disk) : res unit str * Disk :=
  edit_config ok (fun m =>
    let? drive := drive_entry m in
    Ok (map_insert (lit "drive") (VObject (insert_all
          [(lit "oauth_client_id", VString (oc_client_id c)); (lit "oauth_client_secret", VString (oc_client_secret c));
           (lit "oauth_refresh_token", VString (oc_refresh_token c))] drive)) m, tt)) d.

Definition clear_drive_refresh_token_on_disk (ok : bool) (d : Disk) : res unit str * Disk :=
  match d with
  | NoFile => (Ok tt, d)
  | Unreadable => (Err (lit "read or parse"), d)
  | File v =>
    match as_object v with
    | Some m =>
      match get_key (lit "drive") m ≫= as_object with
      | Some drive => write_config_json ok (VObject (map_insert (lit "drive") (VObject (map_insert (lit "oauth_refresh_token") (VString []) drive)) m)) d
      | None => (Ok tt, d)
      end
    | None => (Ok tt, d)
    end
  end.

(** What the listener does with the head of one request: it answers and waits for the next, it
    gives up, or it has the code. *)
Inductive CallbackStep := CbNext (status : Z) | CbFailed (error : str) | CbCode (code : str).

Definition callback_request (expected_state : str) (request : str) : CallbackStep :=
  match head (lines request) with
  | None => CbNext 400
  | Some line =>
    match filter (fun w => w <> []) (split_by is_whitespace line) with
    | _ :: path_and_query :: _ =>
      let '(path, query) := default (path_and_query, []) (split_once [63] path_and_query) in
      if negb (starts_with path (lit "/cb")) then CbNext 404 else
      let p := fold_left take_param (split_on 38 query) (mkParams None None None) in
      match p_error p with
      | Some e => CbFailed e
      | None =>
        match p_code p, p_state p with
        | Some code, Some state => if bool_decide (state = expected_state) then CbCode code else CbNext 200
        | _, _ => CbNext 200
        end
      end
    | _ => CbNext 400
    end
  end.

(** The loop over the requests that come in before the deadline. *)
Fixpoint run_oauth_callback_listener (expected_state : str) (requests : list str) : option (res str str) :=
  match requests with
  | [] => None
  | r :: requests =>
    match callback_request expected_state r with
    | CbNext _ => run_oauth_callback_listener expected_state requests
    | CbFailed e => Some (Err (lit "OAuth flow returned error from Google: " ++ e))
    | CbCode code => Some (Ok code)
    end
  end.

(** ** Objects *)

Lemma get_key_remove k k' m : get_key k' (map_remove k m) = if decide (k' = k) then None else get_key k' m.
Proof.
  unfold map_remove. induction m as [|[k0 v] m IH]; [cbn; by case_decide|]. rewrite filter_cons. cbn [fst].
  destruct (decide (k0 <> k)) as [Hk|Hk]; cbn [get_key].
  - destruct (decide (k0 = k')) as [->|]; [by rewrite decide_False|done].
  - rewrite IH. destruct (decide (k' = k)) as [->|]; [done|]. destruct (decide (k0 = k')) as [->|]; [by destruct Hk|done].
Qed.

Lemma get_key_insert_all k kvs m : get_key k (insert_all kvs m) = match get_key k (reverse kvs) with Some v => Some v | None => get_key k m end.
Proof.
  unfold insert_all. revert m. induction kvs as [|[k0 v] kvs IH]; intros m; cbn [foldl fst snd]; [done|]. rewrite IH, get_key_insert, reverse_cons, get_key_app.
  destruct (get_key k (reverse kvs)); [done|]. cbn [get_key]. by destruct (decide (k0 = k)).
Qed.

(** Looking a concrete key up through the edits. *)
Ltac look := repeat first [rewrite get_key_insert_all|rewrite get_key_insert|rewrite get_key_remove]; cbn [reverse rev_append app get_key];
  repeat match goal with |- context [decide (?a = ?b)] => first [rewrite (decide_False (P := a = b)) by (vm_compute; congruence)|rewrite (decide_True (P := a = b)) by reflexivity] end.

(** The keys that the form controls. *)
Definition form_keys : list str :=
  [lit "mode"; lit "listen_host"; lit "listen_port"; lit "socks5_port"; lit "auth_key"; lit "front_domain"; lit "google_ip"; lit "log_level";
   lit "script_ids"; lit "script_id"; lit "drive"].
Definition drive_keys : list str :=
  [lit "folder_id"; lit "relay_pubkey"; lit "poll_interval_ms"; lit "max_concurrent_uploads"; lit "oauth_client_id"; lit "oauth_client_secret"; lit "oauth_refresh_token"].

Lemma get_key_none {A} k (kvs : list (str * A)) : k ∉ kvs.*1 -> get_key k kvs = None.
Proof.
  induction kvs as [|[k0 v] kvs IH]; [done|]. intros [Hk Hn]%not_elem_of_cons. cbn [get_key]. cbn in Hk. rewrite decide_False by congruence. by apply IH.
Qed.

Lemma get_key_insert_other k kvs m : k ∉ kvs.*1 -> get_key k (insert_all kvs m) = get_key k m.
Proof. intros Hk. rewrite get_key_insert_all, get_key_none; [done|]. by rewrite fmap_reverse, elem_of_reverse. Qed.

Lemma should_clear_same drive drive' id secret : (forall k, k ∈ [lit "oauth_refresh_token"; lit "oauth_client_id"; lit "oauth_client_secret"] -> get_key k drive' = get_key k drive) ->
  should_clear_drive_refresh_token drive' id secret = should_clear_drive_refresh_token drive id secret.
Proof.
  intros H. unfold should_clear_drive_refresh_token, has_refresh_token, text_of. by rewrite !H by (rewrite !elem_of_cons; auto).
Qed.

(** Membership in a list of literals. *)
Ltac elem := apply (bool_decide_unpack _); vm_compute; exact I.

(** A key outside a list is outside each of its parts. *)
Lemma not_in_part (part big : list str) k : forallb (fun x => bool_decide (x ∈ big)) part = true -> k ∉ big -> k ∉ part.
Proof. rewrite forallb_forall. intros H Hk Hp%list_elem_of_In%H. by apply bool_decide_eq_true in Hp. Qed.

Lemma save_drive_spec u drive (id := trim (cu_drive_oauth_client_id u)) (secret := trim (cu_drive_oauth_client_secret u)) :
  (forall k, k ∉ drive_keys -> get_key k (save_drive u drive) = get_key k drive)
  /\ get_key (lit "oauth_client_id") (save_drive u drive) = Some (VString id) /\ get_key (lit "oauth_client_secret") (save_drive u drive) = Some (VString secret)
  /\ get_key (lit "oauth_refresh_token") (save_drive u drive) =
       (if should_clear_drive_refresh_token drive id secret then None else get_key (lit "oauth_refresh_token") drive).
Proof.
  unfold save_drive. fold id secret. set (four := insert_all _ drive).
  assert (forall k, k ∉ drive_keys \/ k ∈ [lit "oauth_refresh_token"; lit "oauth_client_id"; lit "oauth_client_secret"] -> get_key k four = get_key k drive) as H4.
  { intros k [Hk|Hk]; apply get_key_insert_other; [by eapply (not_in_part _ drive_keys); [vm_compute; reflexivity|]|].
    intros H. rewrite !elem_of_cons in Hk. destruct Hk as [->|[->|[->|Hk]]]; [..|by apply elem_of_nil in Hk]; apply (bool_decide_pack _) in H; vm_compute in H; exact H. }
  rewrite (should_clear_same drive four) by (intros k Hk; apply H4; auto). split_and!.
  - intros k Hk. rewrite get_key_insert_other by (eapply (not_in_part _ drive_keys); [vm_compute; reflexivity|done]).
    rewrite <- H4 by auto. destruct (should_clear_drive_refresh_token drive id secret); [|done]. rewrite get_key_remove, decide_False; [done|]. intros ->. apply Hk. elem.
  - by look.
  - by look.
  - rewrite get_key_insert_other by (cbn -[lit]; elem). destruct (should_clear_drive_refresh_token drive id secret).
    + rewrite get_key_remove. by rewrite decide_True.
    + apply H4. right. elem.
Qed.

(** How [Config] reads the value of [script_id]. *)
Definition read_entry (v : Value) : option ScriptIdEntryWire :=
  match v with
  | VString s => Some (Bare s)
  | VObject m =>
    id ← get_key (lit "id") m ≫= as_str;
    match get_key (lit "enabled") m with None => Some (Object id true) | Some (VBool b) => Some (Object id b) | Some _ => None end
  | _ => None
  end.
Definition read_script_id (v : Value) : option ScriptId :=
  match v with VString s => Some (One s) | VArray l => Many <$> mapM read_entry l | _ => None end.

Lemma script_ids_read_back l v : script_id_wire l = Some v -> exists s, read_script_id v = Some s /\ into_entries s = l.
Proof.
  intros H. destruct l as [|e rest]; [done|]. unfold script_id_wire in H. destruct (forallb se_enabled (e :: rest)) eqn:E; apply (inj Some) in H as <-.
  - assert (forall l, forallb se_enabled l = true -> mapM read_entry ((fun e => VString (se_id e)) <$> l) = Some (Bare <$> (se_id <$> l))
      /\ (fun id => mkEntry id true) <$> (se_id <$> l) = l) as Hl.
    { clear. induction l as [|[id b] l IH]; [done|]. cbn. intros [-> H]%andb_prop. destruct (IH H) as [-> E]. split; [done|]. cbn in E |- *. by rewrite E. }
    destruct (Hl _ E) as [H1 H2]. destruct rest as [|e' rest].
    + exists (One (se_id e)). split; [done|]. cbn in H2 |- *. exact H2.
    + exists (Many (Bare <$> (se_id <$> e :: e' :: rest))). cbn [read_script_id]. rewrite H1. split; [done|]. cbn [into_entries].
      rewrite <- list_fmap_compose. exact H2.
  - exists (Many ((fun e => Object (se_id e) (se_enabled e)) <$> e :: rest)). clear E. cbn [read_script_id into_entries]. generalize (e :: rest). clear. intros l.
    assert (mapM read_entry ((fun e => VObject (map_of [(lit "id", VString (se_id e)); (lit "enabled", VBool (se_enabled e))])) <$> l)
      = Some ((fun e => Object (se_id e) (se_enabled e)) <$> l)) as ->.
    { induction l as [|e l IH]; [done|]. rewrite !fmap_cons. cbn [mapM]. rewrite IH.
      assert (read_entry (VObject (map_of [(lit "id", VString (se_id e)); (lit "enabled", VBool (se_enabled e))])) = Some (Object (se_id e) (se_enabled e))) as -> by (vm_compute; done). done. }
    split; [done|]. rewrite <- list_fmap_compose. induction l as [|[] l IH]; [done|]. cbn. cbn in IH. by rewrite IH.
Qed.

Lemma edit_ok {A} ok change d (a : A) d' : edit_config ok change d = (Ok a, d') ->
  exists v m m', read_or_default_config_json d = Ok v /\ as_object v = Some m /\ change m = Ok (m', a) /\ d' = File (VObject m').
Proof.
  unfold edit_config. destruct (read_or_default_config_json d) as [v| |]; cbn [res_bind]; [|done..]. unfold ok_or. destruct (as_object v) as [m|] eqn:Em; cbn [res_bind]; [|done].
  destruct (change m) as [[m' a']| |] eqn:Ec; [|done..]. unfold write_config_json. destruct ok; [|done]. intros [= -> <-]. by exists v, m, m'.
Qed.

Lemma edit_fails {A} ok (change : _ -> res (_ * A) str) d r d' : edit_config ok change d = (r, d') -> (forall a, r <> Ok a) -> d' = d.
Proof.
  unfold edit_config. destruct (let? _ := _ in _) as [[m a]| |]; [|by intros [= <- <-]..]. unfold write_config_json. destruct ok; [|by intros [= <- <-]].
  intros [= <- <-] H. by destruct (H a).
Qed.

Lemma save_object_spec u m m' signed : save_object u m = Ok (m', signed) ->
  exists drive, drive_entry m = Ok drive /\ get_key (lit "drive") m' = Some (VObject (save_drive u drive)) /\ signed = has_refresh_token (save_drive u drive)
  /\ (forall k, k ∉ form_keys -> get_key k m' = get_key k m) /\ get_key (lit "script_ids") m' = None
  /\ get_key (lit "script_id") m' = script_id_wire (clean_ids (cu_script_ids u))
  /\ get_key (lit "mode") m' = Some (VString (cu_mode u)) /\ get_key (lit "auth_key") m' = Some (VString (cu_auth_key u))
  /\ get_key (lit "socks5_port") m' = num_value <$> cu_socks5_port u /\ get_key (lit "listen_port") m' = Some (num_value (cu_listen_port u)).
Proof.
  unfold save_object. set (m5 := match script_id_wire _ with Some v => _ | None => _ end). intros (drive & Hd & H)%res_bind_Ok. injection H as <- <-. exists drive.
  assert (forall k, k ∉ form_keys \/ k = lit "drive" -> get_key k m5 = get_key k m) as Hk.
  { intros k Hk. assert (forall x, x ∈ form_keys -> x <> lit "drive" -> k <> x) as Hne by (intros x Hx Hxd ->; destruct Hk; [done|congruence]).
    assert (forall kvs : list (str * Value), forallb (fun x => bool_decide (x ∈ form_keys) && negb (bool_decide (x = lit "drive"))) kvs.*1 = true -> forall m, get_key k (insert_all kvs m) = get_key k m) as Hi.
    { intros kvs Hf m0. apply get_key_insert_other. intros Hin. rewrite forallb_forall in Hf. specialize (Hf k (proj1 (list_elem_of_In _ _) Hin)).
      apply andb_prop in Hf as [Hf%bool_decide_eq_true Hd']. apply (Hne k Hf); [|done]. intros ->. by rewrite bool_decide_true in Hd'. }
    unfold m5. assert (forall m0, get_key k (match script_id_wire (clean_ids (cu_script_ids u)) with Some v => map_insert (lit "script_id") v m0 | None => map_remove (lit "script_id") m0 end) = get_key k m0) as ->.
    { intros m0. assert (k <> lit "script_id") by (apply Hne; [elem|vm_compute; congruence]).
      destruct (script_id_wire _); [rewrite get_key_insert|rewrite get_key_remove]; by rewrite decide_False. }
    rewrite get_key_remove, decide_False by (apply Hne; [elem|vm_compute; congruence]). rewrite Hi by (vm_compute; reflexivity).
    assert (k <> lit "socks5_port") by (apply Hne; [elem|vm_compute; congruence]).
    destruct (cu_socks5_port u); [rewrite get_key_insert|rewrite get_key_remove]; rewrite decide_False by done; apply Hi; vm_compute; reflexivity. }
  split_and!.
  - unfold drive_entry in *. by rewrite Hk in Hd by auto.
  - by look.
  - done.
  - intros k Hn. rewrite get_key_insert, decide_False; [by apply Hk; left|]. intros <-. apply Hn. elem.
  - look. unfold m5. destruct (script_id_wire _); by look.
  - look. unfold m5. destruct (script_id_wire _); by look.
  - look. unfold m5. destruct (script_id_wire _), (cu_socks5_port u); by look.
  - look. unfold m5. destruct (script_id_wire _), (cu_socks5_port u); by look.
  - look. unfold m5. destruct (script_id_wire _), (cu_socks5_port u); by look.
  - look. unfold m5. destruct (script_id_wire _), (cu_socks5_port u); by look.
Qed.

(** Saving the form changes what the form shows and nothing else.  Of a file with an
    object, every key that the form does not control stays, and so does every key of its drive
    section; the deployments read back are those of the form, trimmed, with their switches; the
    refresh token stays exactly when there is none or the client it was granted to stays; and
    when saving is refused, the file is as it was. *)
Theorem form_saves_its_own (ok : bool) (u : ConfigUpdate) (m : list (str * Value)) (r : res bool str) (d' : Disk)
    (Hsave : save_config ok u (File (VObject m)) = (r, d')) :
  match r with
  | Ok signed => exists m' drive drive', d' = File (VObject m') /\ drive_entry m = Ok drive /\ get_key (lit "drive") m' = Some (VObject drive')
      /\ (forall k, k ∉ form_keys -> get_key k m' = get_key k m) /\ (forall k, k ∉ drive_keys -> get_key k drive' = get_key k drive)
      /\ match get_key (lit "script_id") m' with
         | Some v => exists s, read_script_id v = Some s /\ into_entries s = clean_ids (cu_script_ids u)
         | None => clean_ids (cu_script_ids u) = []
         end
      /\ get_key (lit "oauth_refresh_token") drive' =
           (if should_clear_drive_refresh_token drive (trim (cu_drive_oauth_client_id u)) (trim (cu_drive_oauth_client_secret u)) then None else get_key (lit "oauth_refresh_token") drive)
      /\ signed = has_refresh_token drive'
  | _ => d' = File (VObject m)
  end.
Proof.
  unfold save_config in Hsave. destruct (let? _ := _ in _) as [[]| |]; [|by injection Hsave as <- <-..]. destruct r as [signed|e|].
  - apply edit_ok in Hsave as (v & m0 & m' & H1 & H2 & H3 & ->). injection H1 as <-. injection H2 as <-.
    destruct (save_object_spec _ _ _ _ H3) as (drive & Hd & Hd' & Hs & Hk & _ & Hid & _). destruct (save_drive_spec u drive) as (S1 & _ & _ & S4).
    exists m', drive, (save_drive u drive). split_and!; try done. rewrite Hid. destruct (script_id_wire (clean_ids (cu_script_ids u))) as [v|] eqn:Ew; [by apply script_ids_read_back|].
    by destruct (clean_ids (cu_script_ids u)).
  - by eapply edit_fails.
  - by eapply edit_fails.
Qed.

(** ** The token and its client *)

Inductive Command := CSave (ok : bool) (u : ConfigUpdate) | CGroups (ok : bool) (gs : list FrontingGroup) | CSni (ok : bool) (es : list SniHost)
  | CComplete (ok : bool) (c : OAuthCompletion) | CClear (ok : bool).

Definition run_command (to_value : list FrontingGroup -> Value) (c : Command) (d : Disk) : Disk :=
  match c with
  | CSave ok u => snd (save_config ok u d)
  | CGroups ok gs => snd (save_fronting_groups to_value ok gs d)
  | CSni ok es => snd (save_sni_pool ok es d)
  | CComplete ok c => snd (drive_oauth_complete ok c d)
  | CClear ok => snd (clear_drive_refresh_token_on_disk ok d)
  end.

(** The sign-ins among the commands. *)
Definition completions (cs : list Command) : list OAuthCompletion := omap (fun c => match c with CComplete _ c => Some c | _ => None end) cs.

(** A token on disk was granted to the client on disk. *)
Definition token_bound (minted : list OAuthCompletion) (d : Disk) : Prop :=
  forall v m drive, (d = NoFile -> False) -> read_or_default_config_json d = Ok v -> as_object v = Some m -> drive_entry m = Ok drive -> has_refresh_token drive = true ->
  exists c, c ∈ minted /\ text_of "oauth_client_id" drive = oc_client_id c /\ text_of "oauth_client_secret" drive = oc_client_secret c
    /\ get_key (lit "oauth_refresh_token") drive = Some (VString (oc_refresh_token c)).

Lemma bound_edit {A} ok (change : _ -> res (_ * A) str) d minted minted' : token_bound minted d -> minted ⊆ minted' ->
  (forall v m m' a, read_or_default_config_json d = Ok v -> as_object v = Some m -> change m = Ok (m', a) -> token_bound minted' (File (VObject m'))) ->
  token_bound minted' (snd (edit_config ok change d)).
Proof.
  intros Hb Hsub Hc. destruct (edit_config ok change d) as [r d'] eqn:E. cbn [snd]. destruct r as [a| |].
  - apply edit_ok in E as (v & m & m' & H1 & H2 & H3 & ->). by eapply Hc.
  - rewrite (edit_fails _ _ _ _ _ E) by done. intros v m drive H0 H1 H2 H3 H4. destruct (Hb v m drive H0 H1 H2 H3 H4) as (c & Hin & ?). exists c. split; [set_solver|done].
  - rewrite (edit_fails _ _ _ _ _ E) by done. intros v m drive H0 H1 H2 H3 H4. destruct (Hb v m drive H0 H1 H2 H3 H4) as (c & Hin & ?). exists c. split; [set_solver|done].
Qed.

(** The drive section that a command starts from is bound too. *)
Lemma bound_start minted d v m drive : token_bound minted d -> read_or_default_config_json d = Ok v -> as_object v = Some m -> drive_entry m = Ok drive -> has_refresh_token drive = true ->
  exists c, c ∈ minted /\ text_of "oauth_client_id" drive = oc_client_id c /\ text_of "oauth_client_secret" drive = oc_client_secret c
    /\ get_key (lit "oauth_refresh_token") drive = Some (VString (oc_refresh_token c)).
Proof.
  intros Hb H1 H2 H3 H4. destruct d as [| |v0]; [|done|by eapply Hb]. injection H1 as <-. injection H2 as <-. vm_compute in H3. injection H3 as <-. vm_compute in H4. done.
Qed.

(** A change of another key leaves the drive section. *)
Lemma bound_other minted d v m k x : token_bound minted d -> read_or_default_config_json d = Ok v -> as_object v = Some m -> k <> lit "drive" ->
  token_bound minted (File (VObject (map_insert k x m))).
Proof.
  intros Hb H1 H2 Hk v' m' drive _ [= <-] [= <-] H3 H4. eapply (bound_start minted d v m drive); [done..| |done].
  unfold drive_entry in *. by rewrite get_key_insert, decide_False in H3.
Qed.

Lemma text_of_insert key v m : text_of key (map_insert (lit key) (VString v) m) = trim v.
Proof. unfold text_of. rewrite get_key_insert, decide_True by done. done. Qed.

Lemma bound_save minted d ok u : token_bound minted d -> token_bound minted (snd (save_config ok u d)).
Proof.
  intros Hb. unfold save_config. destruct (let? _ := _ in _) as [[]| |]; [|done..]. eapply bound_edit; [done|done|].
  intros v m m' signed H1 H2 H3 v' m0 drive' _ [= <-] [= <-] H4 H5. destruct (save_object_spec _ _ _ _ H3) as (drive & Hd & Hd' & _).
  unfold drive_entry in H4. rewrite Hd' in H4. injection H4 as <-. destruct (save_drive_spec u drive) as (_ & S2 & S3 & S4).
  assert (has_refresh_token (save_drive u drive) = true -> should_clear_drive_refresh_token drive (trim (cu_drive_oauth_client_id u)) (trim (cu_drive_oauth_client_secret u)) = false
    /\ has_refresh_token drive = true) as Hkeep.
  { unfold has_refresh_token at 1 2, text_of. rewrite S4. destruct (should_clear_drive_refresh_token drive _ _); [by vm_compute|done]. }
  destruct (Hkeep H5) as [Hc Ht]. rewrite Hc in S4. destruct (bound_start minted d v m drive Hb H1 H2 Hd Ht) as (c & Hin & E1 & E2 & E3).
  unfold should_clear_drive_refresh_token in Hc. rewrite Ht in Hc. cbn [negb] in Hc. apply orb_false_iff in Hc as [C1%negb_false_iff%bool_decide_eq_true C2%negb_false_iff%bool_decide_eq_true].
  exists c. split; [done|]. unfold text_of at 1 2. rewrite S2, S3, S4. cbn [mbind option_bind as_str default]. unfold id. rewrite !trim_trim. split_and!; congruence.
Qed.

Lemma bound_complete minted d ok c : trim (oc_client_id c) = oc_client_id c -> trim (oc_client_secret c) = oc_client_secret c ->
  token_bound minted d -> token_bound (c :: minted) (snd (drive_oauth_complete ok c d)).
Proof.
  intros Hi Hs Hb. unfold drive_oauth_complete. eapply bound_edit; [done|set_solver|]. intros v m m' a H1 H2 (drive & Hd & H3)%res_bind_Ok v' m0 drive' _ [= <-] [= <-] H4 H5.
  injection H3 as <- <-. unfold drive_entry in H4. rewrite get_key_insert, decide_True in H4 by done. injection H4 as <-.
  exists c. split; [left|]. unfold text_of. by look.
Qed.

Lemma bound_clear minted d ok : token_bound minted d -> token_bound minted (snd (clear_drive_refresh_token_on_disk ok d)).
Proof.
  intros Hb. unfold clear_drive_refresh_token_on_disk. destruct d as [| |v]; [done..|]. destruct (as_object v) as [m|] eqn:Em; [|done].
  destruct (get_key (lit "drive") m ≫= as_object) as [drive|] eqn:Ed; [|done]. unfold write_config_json. destruct ok; [|done]. cbn [snd].
  intros v' m0 drive' _ [= <-] [= <-] H4 H5. unfold drive_entry in H4. rewrite get_key_insert, decide_True in H4 by done. injection H4 as <-.
  unfold has_refresh_token in H5. by rewrite text_of_insert in H5.
Qed.

(** A refresh token is never kept for a client it was not granted to.  After any
    sequence of saves, sign-ins and clearings, whichever of the writes fail, from a
    configuration without a token: a token on disk is the one of a sign-in, and the client
    on disk is the client of that sign-in. *)
Theorem token_belongs_to_client (to_value : list FrontingGroup -> Value) (cs : list Command) (d : Disk) (Hd : token_bound [] d)
    (Htrim : Forall (fun c => trim (oc_client_id c) = oc_client_id c /\ trim (oc_client_secret c) = oc_client_secret c) (completions cs)) :
  token_bound (completions cs) (fold_left (fun d c => run_command to_value c d) cs d).
Proof.
  assert (forall minted minted' d, minted ⊆ minted' -> token_bound minted d -> token_bound minted' d) as Hmono.
  { intros a b d0 Hsub Hb v m drive H0 H1 H2 H3 H4. destruct (Hb v m drive H0 H1 H2 H3 H4) as (c & Hin & ?). exists c. split; [set_solver|done]. }
  revert Htrim. induction cs as [|c cs IH] using rev_ind; intros Htrim; [exact Hd|]. unfold completions in *. rewrite omap_app in *. apply Forall_app in Htrim as [Htrim Hc].
  specialize (IH Htrim). set (minted := omap _ cs) in *. rewrite fold_left_app. cbn [fold_left]. set (d1 := fold_left _ cs d) in *.
  destruct c as [ok u|ok gs|ok es|ok c|ok]; cbn [run_command omap list_omap] in *; rewrite ?app_nil_r.
  - by apply bound_save.
  - unfold save_fronting_groups. destruct (validate_fronting_group_fields _); [|done..]. eapply bound_edit; [done|done|]. intros v m m' x H1 H2 [= <- _].
    eapply bound_other; [done..|vm_compute; congruence].
  - unfold save_sni_pool. destruct (bool_decide _); [done|]. eapply bound_edit; [done|done|]. intros v m m' x H1 H2 [= <- _].
    eapply bound_other; [done..|vm_compute; congruence].
  - apply Forall_cons in Hc as [[H1 H2] _]. eapply (Hmono (c :: minted)); [set_solver|]. by apply bound_complete.
  - by apply bound_clear.
Qed.

(** ** The callback *)

(** [request] is one for the callback path, with this state and code and without an error. *)
Definition callback_with (state code request : str) : Prop :=
  exists line path q w rest, head (lines request) = Some line
  /\ filter (fun w => w <> []) (split_by is_whitespace line) = w :: (path ++ 63 :: q) :: rest /\ starts_with path (lit "/cb") = true
  /\ let p := fold_left take_param (split_on 38 q) (mkParams None None None) in
     p_error p = None /\ p_code p = Some code /\ p_state p = Some state.

Lemma callback_request_code state request code : callback_request state request = CbCode code -> callback_with state code request.
Proof.
  unfold callback_request. intros E. destruct (head (lines request)) as [line|] eqn:El; [|done].
  destruct (filter _ (split_by is_whitespace line)) as [|w [|pq rest]] eqn:Ew; [done|done|].
  destruct (split_once [63] pq) as [[path q]|] eqn:Es; unfold default, from_option, id in E; cbv beta iota zeta in E.
  - apply split_once_Some in Es as ->. destruct (starts_with path (lit "/cb")) eqn:Ep; [|done]. cbn [negb] in E. set (p := fold_left _ _ _) in E.
    destruct (p_error p) eqn:E1; [done|]. destruct (p_code p) eqn:E2; [|done]. destruct (p_state p) eqn:E3; [|done]. case_bool_decide; [|done]. injection E as ->. subst.
    by exists line, path, q, w, rest.
  - destruct (starts_with pq (lit "/cb")) eqn:Ep; [|done]. cbn in E. done.
Qed.

Lemma listener_code state requests code : run_oauth_callback_listener state requests = Some (Ok code) ->
  exists before request after, requests = before ++ request :: after /\ Forall (fun r => exists s, callback_request state r = CbNext s) before
  /\ callback_with state code request.
Proof.
  induction requests as [|r requests IH]; [done|]. cbn [run_oauth_callback_listener]. destruct (callback_request state r) as [s|e|c] eqn:E; [|done|].
  - intros (before & request & after & -> & Hb & H)%IH. exists (r :: before), request, after. split_and!; [done|constructor; [by eexists|done]|done].
  - intros [= ->]. exists [], r, requests. split_and!; [done|constructor|by apply callback_request_code].
Qed.

(** A code is taken only from the flow that was started.  The code that the listener
    returns came in a request for the callback path that has the state of this flow and no
    error; every request before it was answered and passed over. *)
Theorem callback_checks_state (expected_state : str) (requests : list str) (code : str)
    (Hrun : run_oauth_callback_listener expected_state requests = Some (Ok code)) :
  exists before request after, requests = before ++ request :: after /\ Forall (fun r => exists s, callback_request expected_state r = CbNext s) before
  /\ callback_with expected_state code request.
Proof. by apply listener_code. Qed.

(** Anyone who can reach the listener can end the sign-in: a request for the
    callback path with an error is believed whatever state it has, or none. *)
Theorem forged_error_ends_sign_in (expected_state : str) (requests : list str) :
  run_oauth_callback_listener expected_state ((lit "GET /cb?error=x HTTP/1.1" ++ CRLF2) :: requests) = Some (Err (lit "OAuth flow returned error from Google: x")).
Proof. reflexivity. Qed.

(** ** Examples *)
Definition some_update (id : string) : ConfigUpdate :=
  mkUpdate (lit "direct") (lit "127.0.0.1") 8085 (Some 8086) [mkEntry (lit " A ") true; mkEntry (lit "B") false] [] [] [] [] [] [] 300 8 (lit id) (lit "s").

Definition some_object : list (str * Value) :=
  map_of [(lit "fronting_groups", VArray []); (lit "drive", VObject (map_of [(lit "oauth_client_id", VString (lit "c")); (lit "oauth_client_secret", VString (lit "s"));
    (lit "oauth_refresh_token", VString (lit "t"))]))].

Lemma form_saves_its_own_witness : exists m', snd (save_config true (some_update " c ") (File (VObject some_object))) = File (VObject m')
  /\ get_key (lit "fronting_groups") m' = Some (VArray []) /\ fst (save_config true (some_update " c ") (File (VObject some_object))) = Ok true.
Proof.
  pose proof (form_saves_its_own true (some_update " c ") some_object (Ok true) (snd (save_config true (some_update " c ") (File (VObject some_object)))) ltac:(vm_compute; reflexivity)) as H.
  cbv beta iota in H. destruct H as (m' & drive & drive' & H1 & _ & _ & H4 & _). exists m'. split; [exact H1|]. split; [|vm_compute; reflexivity].
  rewrite H4 by (apply (bool_decide_unpack _); vm_compute; exact I). vm_compute. reflexivity.
Defined.

Lemma token_belongs_to_client_witness :
  token_bound [mkCompletion (lit "t") (lit "c") (lit "s")]
    (fold_left (fun d c => run_command (fun _ => VNull) c d) [CComplete true (mkCompletion (lit "t") (lit "c") (lit "s")); CSave true (some_update "other")] NoFile).
Proof.
  apply (token_belongs_to_client (fun _ => VNull) [CComplete true (mkCompletion (lit "t") (lit "c") (lit "s")); CSave true (some_update "other")] NoFile).
  - intros v m drive H _ _ _ _. destruct (H eq_refl).
  - apply (bool_decide_unpack _). vm_compute. exact I.
Defined.

Lemma callback_checks_state_witness : exists before request after,
  [lit "GET /cb?code=1&state=b HTTP/1.1" ++ CRLF2; lit "GET /cb?code=2&state=a HTTP/1.1" ++ CRLF2] = before ++ request :: after
  /\ Forall (fun r => exists s, callback_request (lit "a") r = CbNext s) before.
Proof.
  destruct (callback_checks_state (lit "a") [lit "GET /cb?code=1&state=b HTTP/1.1" ++ CRLF2; lit "GET /cb?code=2&state=a HTTP/1.1" ++ CRLF2] (lit "2") ltac:(vm_compute; reflexivity))
    as (before & request & after & H1 & H2 & _).
  exists before, request, after. split; [exact H1|exact H2].
Defined.
