(* ===== verification/Lifecycle.v ===== *)
(** * desktop/src-tauri: the life of the proxy and of the sign-ins

    [start_proxy], [stop_proxy], the task that runs the proxy and [get_status] (commands.rs,
    state.rs) share one record under a mutex.  A command is cut where it holds the mutex; the
    task of a proxy may end at any time; a panic aborts the process (Cargo.toml) and is no
    step.  The shutdown channel of a proxy is its number: the sender is held by the call that
    starts it, then by the record; a proxy is told to stop when its sender sends or is
    dropped, since its receiver then resolves either way.

    The second part is [drive_oauth_start] and [drive_oauth_complete] with the listener
    between them, over the configuration file of [Desktop]. *)

From stdpp Require Import prelude gmap.
From S2P Require Import Prelude RustStr Frame HttpText RelayJson ExitNode Token OAuthFlow ConfigCheck ConfigRules CertTrust Desktop.
#[local] Open Scope Z_scope.

(** ** The proxy *)

Record Inner := mkInner {
  running : bool; shutdown_tx : option nat; started_at : option Z; last_error : option str; running_state : option nat
}.
Definition inner_new : Inner := mkInner false None None None None.

Record StatusEvent := mkEvent { ev_running : bool; ev_last_error : option str }.
Record StatusDto := mkStatus { st_running : bool; st_uptime_secs : option Z; st_last_error : option str }.

Definition SECOND : Z := 1000000000.
Definition get_status (now : Z) (i : Inner) : StatusDto :=
  mkStatus (running i) ((fun t => (now - t) / SECOND) <$> started_at i) (last_error i).

(** The first block of [start_proxy]. *)
Definition start_check (i : Inner) : res unit str := if running i then Err (lit "Proxy is already running") else Ok tt.

(** What is built before the proxy is spawned: the configuration, the certificates, the server. *)
Definition start_build (path : str) (config mitm proxy : res unit str) : res unit str :=
  let? _ := map_err (fun e => lit "load " ++ path ++ lit ": " ++ e) config in
  let? _ := map_err (fun e => lit "mitm init: " ++ e) mitm in
  map_err (fun e => lit "build proxy: " ++ e) proxy.

(** The block that records the proxy [p]. *)
Definition start_store (p : nat) (now : Z) (i : Inner) : Inner := mkInner true (Some p) (Some now) None (Some p).

(** The block at the end of a proxy's task. *)
Definition task_reset (i : Inner) : Inner := mkInner false None None (last_error i) None.

(** [stop_proxy] under the mutex: the sender it sends on, if any. *)
Definition stop_locked (i : Inner) : option nat * Inner :=
  if negb (running i) then (None, i) else (shutdown_tx i, mkInner false None None (last_error i) None).

(** A call of [start_proxy]: past the check; with a proxy spawned; with the proxy recorded. *)
Inductive Starting := StChecked | StSpawned (p : nat) | StStored.
(** The task of a proxy: running; past [run]; past its block. *)
Inductive TaskPhase := TkServing | TkEnded (err : option str) | TkReset (err : option str).

Record App := mkApp {
  inner : Inner;
  starts : gmap nat Starting;
  tasks : gmap nat TaskPhase;
  signalled : gset nat;             (** proxies whose sender has sent or is gone *)
  stops : nat;                      (** calls of [stop_proxy] that have yet to emit *)
  next_proxy : nat;
  events : list StatusEvent
}.
Definition app_new : App := mkApp inner_new ∅ ∅ ∅ 0 0 [].

(** The sender in the record is dropped when it is overwritten. *)
Definition drop_tx (i : Inner) (s : gset nat) : gset nat := match shutdown_tx i with Some p => {[p]} ∪ s | None => s end.

Definition set_start (c : nat) (x : option Starting) (a : App) : App :=
  mkApp (inner a) (partial_alter (fun _ => x) c (starts a)) (tasks a) (signalled a) (stops a) (next_proxy a) (events a).
Definition set_task (p : nat) (x : option TaskPhase) (a : App) : App :=
  mkApp (inner a) (starts a) (partial_alter (fun _ => x) p (tasks a)) (signalled a) (stops a) (next_proxy a) (events a).
Definition emit (e : StatusEvent) (a : App) : App :=
  mkApp (inner a) (starts a) (tasks a) (signalled a) (stops a) (next_proxy a) (events a ++ [e]).

Definition do_check (c : nat) (a : App) : res unit str * App :=
  match start_check (inner a) with Ok _ => (Ok tt, set_start c (Some StChecked) a) | Err e => (Err e, a) | Panic => (Panic, a) end.
Definition do_spawn (c : nat) (a : App) : App :=
  let p := next_proxy a in
  mkApp (inner a) (<[c := StSpawned p]> (starts a)) (<[p := TkServing]> (tasks a)) (signalled a) (stops a) (S p) (events a).
Definition do_store (c p : nat) (now : Z) (a : App) : App :=
  mkApp (start_store p now (inner a)) (<[c := StStored]> (starts a)) (tasks a) (drop_tx (inner a) (signalled a)) (stops a) (next_proxy a) (events a).
Definition do_stop (a : App) : App :=
  let '(tx, i) := stop_locked (inner a) in
  mkApp i (starts a) (tasks a) (match tx with Some p => {[p]} ∪ signalled a | None => signalled a end)
    (if running (inner a) then S (stops a) else stops a) (next_proxy a) (events a).
Definition do_reset (p : nat) (err : option str) (a : App) : App :=
  mkApp (task_reset (inner a)) (starts a) (<[p := TkReset err]> (tasks a)) (drop_tx (inner a) (signalled a)) (stops a) (next_proxy a) (events a).
Definition do_stop_emit (a : App) : App :=
  mkApp (inner a) (starts a) (tasks a) (signalled a) (pred (stops a)) (next_proxy a) (events a ++ [mkEvent false None]).

Inductive astep : App -> App -> Prop :=
| as_check a c : starts a !! c = None -> fst (do_check c a) = Ok tt -> astep a (snd (do_check c a))
| as_refused a c path config mitm proxy e : starts a !! c = Some StChecked -> start_build path config mitm proxy = Err e -> astep a (set_start c None a)
| as_spawn a c path config mitm proxy : starts a !! c = Some StChecked -> start_build path config mitm proxy = Ok tt -> astep a (do_spawn c a)
| as_store a c p now : starts a !! c = Some (StSpawned p) -> astep a (do_store c p now a)
| as_started a c : starts a !! c = Some StStored -> astep a (emit (mkEvent true None) (set_start c None a))
| as_end a p err : tasks a !! p = Some TkServing -> astep a (set_task p (Some (TkEnded err)) a)
| as_reset a p err : tasks a !! p = Some (TkEnded err) -> astep a (do_reset p err a)
| as_ended a p err : tasks a !! p = Some (TkReset err) -> astep a (emit (mkEvent false err) (set_task p None a))
| as_stop a : astep a (do_stop a)
| as_stopped a : (0 < stops a)%nat -> astep a (do_stop_emit a).

Definition areach : App -> Prop := rtc astep app_new.

(** *** The invariant *)

(** Something holds the sender of [p]. *)
Definition held (a : App) (p : nat) : Prop := shutdown_tx (inner a) = Some p \/ exists c, starts a !! c = Some (StSpawned p).

Definition status_ok (i : Inner) : Prop :=
  last_error i = None /\
  match shutdown_tx i with
  | Some p => running i = true /\ running_state i = Some p /\ is_Some (started_at i)
  | None => running i = false /\ running_state i = None /\ started_at i = None
  end.

Record app_ok (a : App) : Prop := {
  ao_status : status_ok (inner a);
  ao_place : forall p, (p < next_proxy a)%nat -> held a p \/ p ∈ signalled a;
  ao_fresh : forall p, held a p \/ p ∈ signalled a \/ is_Some (tasks a !! p) -> (p < next_proxy a)%nat;
  ao_once : forall p, held a p -> p ∉ signalled a;
  ao_sep : forall c p, starts a !! c = Some (StSpawned p) ->
    shutdown_tx (inner a) <> Some p /\ forall c', starts a !! c' = Some (StSpawned p) -> c' = c
}.

Lemma app_new_ok : app_ok app_new.
Proof.
  constructor.
  - done.
  - intros p Hp. cbn in Hp. lia.
  - intros p [[H|[c H]]|[H|[x H]]]; cbn [starts tasks signalled app_new] in H; [done|by rewrite lookup_empty in H|set_solver|by rewrite lookup_empty in H].
  - intros p _. apply not_elem_of_empty.
  - intros c p H. cbn [starts app_new] in H. by rewrite lookup_empty in H.
Qed.

(** A change of a call that holds no sender before or after. *)
Lemma held_set_start c x a p : (forall q, starts a !! c <> Some (StSpawned q)) -> (forall q, x <> Some (StSpawned q)) -> held (set_start c x a) p <-> held a p.
Proof.
  intros H1 H2. unfold held, set_start. cbn. split; (intros [H|[c' H]]; [by left|right; exists c']); destruct (decide (c' = c)) as [->|].
  - rewrite lookup_partial_alter_eq in H. by destruct (H2 p).
  - by rewrite lookup_partial_alter_ne in H.
  - by destruct (H1 p).
  - by rewrite lookup_partial_alter_ne.
Qed.

Lemma set_start_ok c x a : (forall q, starts a !! c <> Some (StSpawned q)) -> (forall q, x <> Some (StSpawned q)) -> app_ok a -> app_ok (set_start c x a).
Proof.
  intros H1 H2 [S P F O E]. constructor; [done|intros p; rewrite held_set_start by done; apply P|intros p; rewrite held_set_start by done; apply F
    |intros p; rewrite held_set_start by done; apply O|].
  intros c' p H. unfold set_start in *. cbn in *. destruct (decide (c' = c)) as [->|Hc]; [rewrite lookup_partial_alter_eq in H; by destruct (H2 p)|].
  rewrite lookup_partial_alter_ne in H by done. destruct (E c' p H) as [E1 E2]. split; [done|]. intros c2 H'.
  destruct (decide (c2 = c)) as [->|Hc2]; [rewrite lookup_partial_alter_eq in H'; by destruct (H2 p)|]. rewrite lookup_partial_alter_ne in H' by done. by apply E2.
Qed.

Lemma set_task_ok p x a : is_Some (tasks a !! p) -> app_ok a -> app_ok (set_task p x a).
Proof.
  intros Hp [S P F O E]. constructor; [done..| |done|done].
  intros q [H|[H|H]]; [by apply F; left|by apply F; right; left|]. apply F. right; right. unfold set_task in H. cbn in H.
  destruct (decide (q = p)) as [->|]; [done|]. by rewrite lookup_partial_alter_ne in H.
Qed.

Lemma emit_ok e a : app_ok a -> app_ok (emit e a).
Proof. intros [S P F O E]. by constructor. Qed.

(** When the record's sender goes away, it is a signal. *)
Lemma forget_ok a i t : status_ok i -> shutdown_tx i = None -> (forall p, is_Some (t !! p) -> is_Some (tasks a !! p)) -> app_ok a ->
  forall n ev, app_ok (mkApp i (starts a) t (drop_tx (inner a) (signalled a)) n (next_proxy a) ev).
Proof.
  intros Hi Htx Ht [S P F O E] n ev. constructor; cbn [inner starts tasks signalled next_proxy].
  - done.
  - intros p Hp. destruct (P p Hp) as [[H|H]|H]; [right; unfold drop_tx; rewrite H; set_solver|by left; right|right; unfold drop_tx; destruct (shutdown_tx (inner a)); set_solver].
  - intros p [[H|H]|[H|H]]; cbn in H; [congruence|by apply F; left; right| |by apply F; right; right; apply Ht].
    unfold drop_tx in H. destruct (shutdown_tx (inner a)) as [q|] eqn:Eq; [|by apply F; right; left].
    apply elem_of_union in H as [->%elem_of_singleton|H]; [by apply F; left; left|by apply F; right; left].
  - intros p [H|[c H]]; cbn in H; [congruence|]. destruct (E c p H) as [E1 _]. assert (p ∉ signalled a) by (apply O; right; by exists c).
    unfold drop_tx. destruct (shutdown_tx (inner a)) as [q|]; [|done]. intros [->%elem_of_singleton|]%elem_of_union; congruence.
  - intros c p H. cbn. rewrite Htx. split; [done|]. by apply (E c p H).
Qed.

Lemma spawn_ok c a : (forall q, starts a !! c <> Some (StSpawned q)) -> app_ok a -> app_ok (do_spawn c a).
Proof.
  intros Hc [S P F O E]. assert (forall q, held (do_spawn c a) q <-> held a q \/ q = next_proxy a) as Hh.
  { intros q. unfold held, do_spawn. cbn. split.
    - intros [H|[c' H]]; [by left; left|]. destruct (decide (c' = c)) as [->|Hn]; [rewrite lookup_insert_eq in H; right; congruence|].
      rewrite lookup_insert_ne in H by done. left. right. by exists c'.
    - intros [[H|[c' H]]| ->]; [by left|right; exists c'|right; exists c; by rewrite lookup_insert_eq].
      rewrite lookup_insert_ne; [done|]. intros ->. by destruct (Hc q). }
  constructor; cbn [inner signalled next_proxy tasks do_spawn].
  - done.
  - intros p Hp. rewrite Hh. destruct (decide (p = next_proxy a)) as [->|]; [by left; right|]. destruct (P p) as [H|H]; [cbn in Hp; lia|by left; left|by right].
  - intros p [[H| ->]%Hh|[H|H]]; cbn; [assert (p < next_proxy a)%nat by (apply F; by left); lia|lia|assert (p < next_proxy a)%nat by (apply F; right; by left); lia|].
    destruct (decide (p = next_proxy a)) as [->|Hn]; [lia|]. rewrite lookup_insert_ne in H by done. assert (p < next_proxy a)%nat by (apply F; right; by right). lia.
  - intros p [H| ->]%Hh; [by apply O|]. intros H. assert (next_proxy a < next_proxy a)%nat by (apply F; right; by left). lia.
  - intros c' p H. cbn in *. destruct (decide (c' = c)) as [->|Hn].
    + rewrite lookup_insert_eq in H. injection H as <-. split.
      * intros H. assert (next_proxy a < next_proxy a)%nat by (apply F; left; by left). lia.
      * intros c2 H'. destruct (decide (c2 = c)) as [->|]; [done|]. rewrite lookup_insert_ne in H' by done.
        assert (next_proxy a < next_proxy a)%nat by (apply F; left; right; by exists c2). lia.
    + rewrite lookup_insert_ne in H by done. destruct (E c' p H) as [E1 E2]. split; [done|]. intros c2 H'. destruct (decide (c2 = c)) as [->|].
      * rewrite lookup_insert_eq in H'. injection H' as <-. assert (next_proxy a < next_proxy a)%nat by (apply F; left; right; by exists c'). lia.
      * rewrite lookup_insert_ne in H' by done. by apply E2.
Qed.

Lemma store_ok c p now a : starts a !! c = Some (StSpawned p) -> app_ok a -> app_ok (do_store c p now a).
Proof.
  intros Hc [S P F O E]. destruct (E c p Hc) as [E1 E2]. assert (p ∉ signalled a) as Hp by (apply O; right; by exists c).
  assert (forall c' q, <[c := StStored]> (starts a) !! c' = Some (StSpawned q) <-> starts a !! c' = Some (StSpawned q) /\ q <> p) as Hs.
  { intros c' q. destruct (decide (c' = c)) as [->|Hn].
    - rewrite lookup_insert_eq. split; [done|]. rewrite Hc. intros [[= ->] ?]. done.
    - rewrite lookup_insert_ne by done. split; [|naive_solver]. intros H. split; [done|]. intros ->. by destruct Hn; apply E2. }
  constructor; cbn [inner starts signalled next_proxy tasks do_store shutdown_tx start_store].
  - split; [done|]. cbn. split_and!; [done|done|by exists now].
  - intros q Hq. destruct (decide (q = p)) as [->|Hn]; [by left; left|]. destruct (P q Hq) as [[H|[c' H]]|H].
    + right. unfold drop_tx. rewrite H. set_solver.
    + left. right. exists c'. apply Hs. done.
    + right. unfold drop_tx. destruct (shutdown_tx (inner a)); set_solver.
  - intros q [[H|[c' H]]|[H|H]]; cbn in H.
    + injection H as <-. apply F. left. right. by exists c.
    + apply Hs in H as [H _]. apply F. left. right. by exists c'.
    + unfold drop_tx in H. destruct (shutdown_tx (inner a)) as [q'|] eqn:Eq; [|by apply F; right; left].
      apply elem_of_union in H as [->%elem_of_singleton|H]; [by apply F; left; left|by apply F; right; left].
    + apply F. by right; right.
  - intros q Hq. assert (q ∉ signalled a /\ shutdown_tx (inner a) <> Some q) as [Q1 Q2].
    { destruct Hq as [[= <-]|[c' H]]; [done|]. apply Hs in H as [H _]. split; [apply O; right; by exists c'|by apply (E c' q)]. }
    unfold drop_tx. destruct (shutdown_tx (inner a)) as [q'|]; [|done]. intros [->%elem_of_singleton|]%elem_of_union; congruence.
  - intros c' q [H Hn]%Hs. cbn. split; [congruence|]. intros c2 [H' _]%Hs. by apply (E c' q).
Qed.

Lemma astep_ok a a' : astep a a' -> app_ok a -> app_ok a'.
Proof.
  intros [x c Hc Hok|x c path config mitm proxy e Hc _|x c path config mitm proxy Hc _|x c p now Hc|x c Hc|x p err Hp|x p err Hp|x p err Hp|x|x Hn] H.
  - unfold do_check in *. destruct (start_check (inner x)); try done. cbn [snd]. apply set_start_ok; [|done|done]. rewrite Hc. done.
  - apply set_start_ok; [rewrite Hc; done|done|done].
  - apply spawn_ok; [rewrite Hc; done|done].
  - by apply store_ok.
  - apply emit_ok, set_start_ok; [rewrite Hc; done|done|done].
  - apply set_task_ok; [by rewrite Hp|done].
  - apply (forget_ok x (task_reset (inner x))); [split; [apply (ao_status x H)|done]|done| |done].
    intros q Hq. destruct (decide (q = p)) as [->|]; [by rewrite Hp|]. by rewrite lookup_insert_ne in Hq.
  - apply emit_ok, set_task_ok; [by rewrite Hp|done].
  - unfold do_stop, stop_locked. destruct (ao_status x H) as [He Hs]. destruct (running (inner x)) eqn:Er; cbn [negb].
    + apply (forget_ok x (mkInner false None None (last_error (inner x)) None)); done.
    + destruct H as [S P F O E]. by constructor.
  - destruct H as [S P F O E]. by constructor.
Qed.

Lemma areach_ok a : areach a -> app_ok a.
Proof.
  unfold areach. enough (forall x, rtc astep x a -> app_ok x -> app_ok a) as H by (intros Ha; by apply (H _ Ha), app_new_ok).
  intros x Hr. induction Hr as [|x y z Hs _ IH]; [done|]. intros Hx. by eapply IH, astep_ok.
Qed.

(** Claim C39: no proxy runs on without a handle.  Under every interleaving of starts, stops and
    proxies that end by themselves: what [get_status] reads is consistent, running with a start
    time and a handle on one proxy, or none of these; a proxy that serves and has not been told
    to stop is the one whose handle is kept or one whose start has not returned yet, and the
    one whose handle is kept has not been told to stop; after [stop_proxy] the application is
    stopped, and every proxy that serves has been told to stop unless its start is still under
    way; and a start while the application runs is refused and changes nothing. *)
Theorem no_orphan_proxy (a : App) (Hreach : areach a) :
  status_ok (inner a)
  /\ (forall p, tasks a !! p = Some TkServing -> p ∉ signalled a -> held a p)
  /\ (forall p, shutdown_tx (inner a) = Some p -> p ∉ signalled a)
  /\ (forall now, get_status now (inner (do_stop a)) = mkStatus false None None
        /\ forall p, tasks (do_stop a) !! p = Some TkServing -> p ∈ signalled (do_stop a) \/ exists c, starts a !! c = Some (StSpawned p))
  /\ (running (inner a) = true -> forall c, do_check c a = (Err (lit "Proxy is already running"), a)).
Proof.
  pose proof (areach_ok a Hreach) as H. assert (app_ok (do_stop a)) as Hd by (apply (astep_ok a); [constructor|done]). split_and!.
  - apply H.
  - intros p Ht Hs. destruct (ao_place a H p) as [?|?]; [apply (ao_fresh a H); right; right; by rewrite Ht|done|done].
  - intros p Hp. apply (ao_once a H). by left.
  - assert (shutdown_tx (inner (do_stop a)) = None /\ starts (do_stop a) = starts a) as [Htx Hst].
    { unfold do_stop, stop_locked. destruct (ao_status a H) as [_ Hs]. destruct (running (inner a)) eqn:Er; cbn; [done|]. split; [|done].
      destruct (shutdown_tx (inner a)); [by destruct Hs|done]. }
    destruct (ao_status _ Hd) as [He Hs]. rewrite Htx in Hs. destruct Hs as (S1 & S2 & S3). intros now. split; [unfold get_status; by rewrite S1, S3, He|].
    intros p Hp. destruct (ao_place _ Hd p) as [[Hh|[c Hh]]|Hh]; [apply (ao_fresh _ Hd); right; right; by rewrite Hp|congruence|right; exists c; by rewrite <- Hst|by left].
  - intros Hr c. unfold do_check, start_check. by rewrite Hr.
Qed.

(** *** What the interleavings can do *)

Definition bind_error : str := lit "Address already in use".

(** Start, stop, start, and only then does the first proxy's task reach its last block. *)
Definition restarted : App :=
  let a := do_store 0 0 0 (do_spawn 0 (snd (do_check 0 app_new))) in
  let a := do_stop (emit (mkEvent true None) (set_start 0 None a)) in
  let a := do_store 1 1 5 (do_spawn 1 (snd (do_check 1 (do_stop_emit a)))) in
  let a := emit (mkEvent true None) (set_start 1 None a) in
  do_reset 0 None (set_task 0 (Some (TkEnded None)) a).

(** A start whose proxy fails to bind before it is recorded. *)
Definition failed_to_bind : App :=
  let a := do_spawn 0 (snd (do_check 0 app_new)) in
  let a := do_reset 0 (Some bind_error) (set_task 0 (Some (TkEnded (Some bind_error))) a) in
  let a := do_store 0 0 0 (emit (mkEvent false (Some bind_error)) (set_task 0 None a)) in
  emit (mkEvent true None) (set_start 0 None a).

Lemma built_ok path : start_build path (Ok tt) (Ok tt) (Ok tt) = Ok tt.
Proof. done. Qed.

Lemma restarted_reach : areach restarted.
Proof.
  unfold areach, restarted.
  do 2 (eapply rtc_r; [|first [apply as_reset; vm_compute; reflexivity|apply as_end; vm_compute; reflexivity]]).
  eapply rtc_r; [|apply as_started; vm_compute; reflexivity]. eapply rtc_r; [|apply as_store; vm_compute; reflexivity].
  eapply rtc_r; [|eapply (as_spawn _ _ []); [vm_compute; reflexivity|apply built_ok]]. eapply rtc_r; [|apply as_check; vm_compute; reflexivity].
  eapply rtc_r; [|apply as_stopped; vm_compute; lia]. eapply rtc_r; [|apply as_stop].
  eapply rtc_r; [|apply as_started; vm_compute; reflexivity]. eapply rtc_r; [|apply as_store; vm_compute; reflexivity].
  eapply rtc_r; [|eapply (as_spawn _ _ []); [vm_compute; reflexivity|apply built_ok]]. eapply rtc_r; [|apply as_check; vm_compute; reflexivity]. done.
Qed.

Lemma failed_to_bind_reach : areach failed_to_bind.
Proof.
  unfold areach, failed_to_bind. eapply rtc_r; [|apply as_started; vm_compute; reflexivity]. eapply rtc_r; [|apply as_store; vm_compute; reflexivity].
  eapply rtc_r; [|apply as_ended; vm_compute; reflexivity]. eapply rtc_r; [|apply as_reset; vm_compute; reflexivity]. eapply rtc_r; [|apply as_end; vm_compute; reflexivity].
  eapply rtc_r; [|eapply (as_spawn _ _ []); [vm_compute; reflexivity|apply built_ok]]. eapply rtc_r; [|apply as_check; vm_compute; reflexivity]. done.
Qed.

(** The end of one proxy is taken for the end of another, and a start that failed for a
    running proxy.  When the task of a stopped proxy reaches its last block after a new start,
    it drops the sender of the new proxy: that one is told to stop and the application shows
    stopped, although nobody stopped it.  When a proxy fails to bind before [start_proxy] has
    recorded it, the application shows a proxy that does not exist as running, without the
    error, its last event says running, and a new start is refused. *)
Theorem restart_faults :
  areach restarted
  /\ tasks restarted !! 1%nat = Some TkServing /\ 1%nat ∈ signalled restarted /\ running (inner restarted) = false /\ stops restarted = 0%nat
  /\ areach failed_to_bind
  /\ tasks failed_to_bind = ∅ /\ get_status SECOND (inner failed_to_bind) = mkStatus true (Some 1) None
  /\ last (events failed_to_bind) = Some (mkEvent true None) /\ fst (do_check 1 failed_to_bind) = Err (lit "Proxy is already running").
Proof.
  split; [exact restarted_reach|]. split_and!; try (vm_compute; reflexivity). exact failed_to_bind_reach.
Qed.

Lemma no_orphan_proxy_witness : areach restarted /\ status_ok (inner restarted).
Proof. split; [exact restarted_reach|]. apply (no_orphan_proxy restarted restarted_reach). Defined.

(** ** Signing in *)

(** Sixteen random bytes in hexadecimal. *)
Definition hex_lower (d : Z) : Z := if d <? 10 then 48 + d else 87 + d.
Definition state_token (entropy : bytes) : str := entropy ≫= (fun b => [hex_lower (b / 16); hex_lower (b mod 16)]).

(** The form that is posted to the token endpoint. *)
Record TokenRequest := mkToken { tr_code : str; tr_redirect_uri : str; tr_code_verifier : str; tr_client_id : str; tr_client_secret : str }.

(** A flow: what its listener was given, the heads of the requests that it received, what it
    posted and was answered, and what it has sent. *)
Record Flow := mkFlow {
  fl_client_id : str; fl_client_secret : str; fl_state : str; fl_redirect_uri : str; fl_code_verifier : str;
  fl_requests : list str;
  fl_exchange : option (TokenRequest * res (option str) str);
  fl_result : option (res OAuthCompletion str)
}.
Record DriveOauthStartDto := mkStartDto { sd_state_token : str; sd_auth_url : str }.

(** The task of the listener, with the requests that come in before the deadline.  [exchange]:
    the refresh token of the answer, if any, or the error shown to the user (of the HTTP
    client that could not be built too). *)
Definition timed_out : str := lit "OAuth callback timed out after 5 minutes (browser flow not completed)".
Definition no_refresh_token : str := lit "OAuth response did not include a refresh_token (this is unexpected " ++ [8212] ++ lit " try again)".
Definition listener_result (f : Flow) (requests : list str) (exchange : TokenRequest -> res (option str) str) :
    option (TokenRequest * res (option str) str) * res OAuthCompletion str :=
  match run_oauth_callback_listener (fl_state f) requests with
  | None => (None, Err timed_out)
  | Some (Err e) => (None, Err e)
  | Some Panic => (None, Panic)
  | Some (Ok code) =>
    let q := mkToken code (fl_redirect_uri f) (fl_code_verifier f) (fl_client_id f) (fl_client_secret f) in
    (Some (q, exchange q),
     let? tokens := exchange q in
     match tokens with Some t => Ok (mkCompletion t (fl_client_id f) (fl_client_secret f)) | None => Err no_refresh_token end)
  end.

Record SignIns := mkSignIns {
  disk : Disk;
  oauth_pending : gmap str nat;       (** by state token, the number of the flow *)
  flows : list Flow;
  waiting : gmap nat (str * nat);     (** calls of [drive_oauth_complete] with the receiver they took *)
  saved : list (nat * OAuthCompletion)   (** what was written, with its flow *)
}.

Definition set_disk (d : Disk) (s : SignIns) : SignIns := mkSignIns d (oauth_pending s) (flows s) (waiting s) (saved s).

Section start.
Context {FE : FormEncode}.

(** [port]: what binding the loopback listener gave. *)
Definition drive_oauth_start (pkce : PkceCodes) (token : str) (port : res Z str) (client_id client_secret : str) (s : SignIns) : res DriveOauthStartDto str * SignIns :=
  let client_id := trim client_id in
  let client_secret := trim client_secret in
  if bool_decide (client_id = []) then
    (Err (lit "OAuth client_id is empty " ++ [8212] ++ lit " paste your Google Cloud Console Desktop-app client_id into the Drive setup section first. See docs/drive_oauth_setup.md for the walkthrough."), s)
  else if bool_decide (client_secret = []) then
    (Err (lit "OAuth client_secret is empty " ++ [8212] ++ lit " paste the matching client_secret next to the client_id. See docs/drive_oauth_setup.md for the walkthrough."), s)
  else match port with
       | Err e => (Err (lit "bind 127.0.0.1:0: " ++ e), s)
       | Panic => (Panic, s)
       | Ok port =>
         let redirect_uri := lit "http://127.0.0.1:" ++ dec_string port ++ lit "/cb" in
         let flow := mkFlow client_id client_secret token redirect_uri (code_verifier pkce) [] None None in
         (Ok (mkStartDto token (build_auth_url client_id redirect_uri pkce token)),
          mkSignIns (disk s) (<[token := length (flows s)]> (oauth_pending s)) (flows s ++ [flow]) (waiting s) (saved s))
       end.

(** The listener of flow [n], if it had not sent its result. *)
Definition listen (requests : list str) (exchange : TokenRequest -> res (option str) str) (f : Flow) : Flow :=
  match fl_result f with
  | Some _ => f
  | None =>
    let '(posted, r) := listener_result f requests exchange in
    mkFlow (fl_client_id f) (fl_client_secret f) (fl_state f) (fl_redirect_uri f) (fl_code_verifier f) requests posted (Some r)
  end.
Definition listener_sends (n : nat) (requests : list str) (exchange : TokenRequest -> res (option str) str) (s : SignIns) : SignIns :=
  mkSignIns (disk s) (oauth_pending s) (alter (listen requests exchange) n (flows s)) (waiting s) (saved s).

(** [drive_oauth_complete]: the receiver is taken out of the table... *)
Definition complete_begin (call : nat) (token : str) (s : SignIns) : res unit str * SignIns :=
  match oauth_pending s !! token with
  | None => (Err (lit "no pending OAuth flow with that state token (already completed, or expired)"), s)
  | Some n => (Ok tt, mkSignIns (disk s) (delete token (oauth_pending s)) (flows s) (<[call := (token, n)]> (waiting s)) (saved s))
  end.

(** ... and put back after 120 s; *)
Definition complete_timeout (call : nat) (s : SignIns) : SignIns :=
  match waiting s !! call with
  | None => s
  | Some (token, n) => mkSignIns (disk s) (<[token := n]> (oauth_pending s)) (flows s) (delete call (waiting s)) (saved s)
  end.

(** or it delivers, and the client and its token are written together.  (No lock covers the
    reading and the writing of the file; they are one step here.) *)
Definition complete_end (call : nat) (ok : bool) (s : SignIns) : res unit str * SignIns :=
  match waiting s !! call with
  | None => (Ok tt, s)
  | Some (_, n) =>
    let w := delete call (waiting s) in
    match flows s !! n ≫= fl_result with
    | Some (Ok c) =>
      let '(r, d) := Desktop.drive_oauth_complete ok c (disk s) in
      (r, mkSignIns d (oauth_pending s) (flows s) w (match r with Ok _ => saved s ++ [(n, c)] | _ => saved s end))
    | Some (Err e) => (Err e, mkSignIns (disk s) (oauth_pending s) (flows s) w (saved s))
    | _ => (Err (lit "OAuth flow listener task died before completing"), mkSignIns (disk s) (oauth_pending s) (flows s) w (saved s))
    end
  end.

Inductive sstep : SignIns -> SignIns -> Prop :=
| ss_start s pkce entropy port id secret : sstep s (snd (drive_oauth_start pkce (state_token entropy) port id secret s))
| ss_listener s n requests exchange : sstep s (listener_sends n requests exchange s)
| ss_begin s call token : waiting s !! call = None -> sstep s (snd (complete_begin call token s))
| ss_timeout s call : sstep s (complete_timeout call s)
| ss_end s call ok : sstep s (snd (complete_end call ok s))
| ss_save s ok u : sstep s (set_disk (snd (save_config ok u (disk s))) s)
| ss_clear s ok : sstep s (set_disk (snd (clear_drive_refresh_token_on_disk ok (disk s))) s).

Definition sreach (d : Disk) : SignIns -> Prop := rtc sstep (mkSignIns d ∅ [] ∅ []).

(** *** The invariant *)

(** What a flow's success comes from: one of the requests that its listener received was for
    the callback path with the flow's state and a code, and this code, with the flow's
    redirect address, verifier and client, was exchanged for the token. *)
Definition completed_by (f : Flow) (c : OAuthCompletion) : Prop :=
  oc_client_id c = fl_client_id f /\ oc_client_secret c = fl_client_secret f
  /\ exists request code, request ∈ fl_requests f /\ callback_with (fl_state f) code request
     /\ fl_exchange f = Some (mkToken code (fl_redirect_uri f) (fl_code_verifier f) (fl_client_id f) (fl_client_secret f), Ok (Some (oc_refresh_token c))).

(** A flow's client is trimmed, and what its listener sent as success is its own. *)
Record flow_ok (f : Flow) : Prop := {
  fo_id : trim (fl_client_id f) = fl_client_id f;
  fo_secret : trim (fl_client_secret f) = fl_client_secret f;
  fo_result : forall c, fl_result f = Some (Ok c) -> completed_by f c
}.

(** A receiver is in one place: in the table, with one call, or used up. *)
Record signins_ok (s : SignIns) : Prop := {
  so_disk : token_bound (snd <$> saved s) (disk s);
  so_flows : Forall flow_ok (flows s);
  so_saved : forall n c, (n, c) ∈ saved s -> exists f, flows s !! n = Some f /\ fl_result f = Some (Ok c);
  so_nodup : NoDup (fst <$> saved s);
  so_pending : forall t n, oauth_pending s !! t = Some n -> (n < length (flows s))%nat /\ n ∉ fst <$> saved s
    /\ (forall t', oauth_pending s !! t' = Some n -> t' = t) /\ (forall call t', waiting s !! call = Some (t', n) -> False);
  so_waiting : forall call t n, waiting s !! call = Some (t, n) -> (n < length (flows s))%nat /\ n ∉ fst <$> saved s
    /\ forall call' t', waiting s !! call' = Some (t', n) -> call' = call
}.

Lemma listener_flow_ok f requests exchange : flow_ok f -> flow_ok (listen requests exchange f).
Proof.
  intros H. unfold listen. destruct (fl_result f); [done|]. destruct H as [H1 H2 _]. unfold listener_result.
  destruct (run_oauth_callback_listener (fl_state f) requests) as [[code|e|]|] eqn:Er; (constructor; [done|done|]); cbn [fl_result]; [|done..].
  set (q := mkToken _ _ _ _ _). intros c [= Hc]. apply res_bind_Ok in Hc as ([t|] & Ht & Hc); [|done]. injection Hc as <-. cbn.
  destruct (listener_code _ _ _ Er) as (before & request & after & -> & _ & Hr). split_and!; [done|done|].
  exists request, code. split_and!; [apply elem_of_app; right; by left|done|]. cbn. fold q. by rewrite Ht.
Qed.

Lemma start_signins_ok pkce token port id secret s : signins_ok s -> signins_ok (snd (drive_oauth_start pkce token port id secret s)).
Proof.
  intros H. unfold drive_oauth_start. case_bool_decide; [done|]. case_bool_decide; [done|]. destruct port as [port| |]; [|done..]. cbn [snd].
  destruct H as [D F V N P Wt]. constructor; cbn [disk oauth_pending flows waiting saved].
  - done.
  - apply Forall_app. split; [done|]. apply Forall_singleton. constructor; cbn; [apply trim_trim..|done].
  - intros n c Hn. destruct (V n c Hn) as (f & Hf & ?). exists f. split; [by apply lookup_app_l_Some|done].
  - done.
  - assert (forall n, n ∈ fst <$> saved s -> (n < length (flows s))%nat) as Hsv.
    { intros n (x & -> & Hx)%list_elem_of_fmap. destruct x as [n c]. destruct (V n c Hx) as (f & Hf & _). by apply lookup_lt_Some in Hf. }
    intros t n Hn. destruct (decide (t = token)) as [->|Ht].
    + rewrite lookup_insert_eq in Hn. injection Hn as <-. rewrite length_app. cbn. split; [lia|]. split; [intros Hin; apply Hsv in Hin; lia|]. split.
      * intros t' Ht'. destruct (decide (t' = token)) as [->|]; [done|]. rewrite lookup_insert_ne in Ht' by done. destruct (P _ _ Ht') as [? _]. lia.
      * intros call t' Hw. destruct (Wt _ _ _ Hw) as [? _]. lia.
    + rewrite lookup_insert_ne in Hn by done. destruct (P t n Hn) as (P1 & P2 & P3 & P4). rewrite length_app. cbn. split; [lia|]. split; [done|]. split; [|done].
      intros t' Ht'. destruct (decide (t' = token)) as [->|]; [rewrite lookup_insert_eq in Ht'; injection Ht' as Ht'; lia|]. rewrite lookup_insert_ne in Ht' by done. by apply P3.
  - intros call t n Hw. destruct (Wt call t n Hw) as (W1 & W2 & W3). rewrite length_app. split_and!; [lia|done|done].
Qed.

Lemma listener_signins_ok n requests exchange s : signins_ok s -> signins_ok (listener_sends n requests exchange s).
Proof.
  intros [D F V N P Wt]. unfold listener_sends. constructor; cbn [disk oauth_pending flows waiting saved]; rewrite ?length_alter; try done.
  - apply Forall_alter; [done|]. intros f Hf Hok. by apply listener_flow_ok.
  - intros k c Hk. destruct (V k c Hk) as (f & Hf & Hr). destruct (decide (k = n)) as [->|Hn].
    + exists f. rewrite list_lookup_alter_eq, Hf. cbn. unfold listen. by rewrite Hr.
    + exists f. by rewrite list_lookup_alter_ne.
Qed.

Lemma begin_signins_ok call token s : waiting s !! call = None -> signins_ok s -> signins_ok (snd (complete_begin call token s)).
Proof.
  intros Hc H. unfold complete_begin. destruct (oauth_pending s !! token) as [n|] eqn:Ep; [|done]. cbn [snd]. destruct H as [D F V N P Wt].
  destruct (P token n Ep) as (P1 & P2 & P3 & P4). constructor; cbn [disk oauth_pending flows waiting saved]; [done..| |].
  - intros t k [Ht Hk]%lookup_delete_Some. destruct (P t k Hk) as (Q1 & Q2 & Q3 & Q4). split_and!; [done|done|by intros t' [_ ?]%lookup_delete_Some; apply Q3|].
    intros call' t' Hw. destruct (decide (call' = call)) as [->|]; [|rewrite lookup_insert_ne in Hw by done; by eapply Q4].
    rewrite lookup_insert_eq in Hw. injection Hw as <- <-. by apply Ht, eq_sym, P3.
  - intros call' t k Hw. destruct (decide (call' = call)) as [->|Hn].
    + rewrite lookup_insert_eq in Hw. injection Hw as <- <-. split_and!; [done|done|]. intros c2 t' Hw. destruct (decide (c2 = call)) as [->|]; [done|].
      rewrite lookup_insert_ne in Hw by done. by destruct (P4 c2 t').
    + rewrite lookup_insert_ne in Hw by done. destruct (Wt _ _ _ Hw) as (W1 & W2 & W3). split_and!; [done|done|]. intros c2 t' Hw'.
      destruct (decide (c2 = call)) as [->|]; [rewrite lookup_insert_eq in Hw'; injection Hw' as <- <-; by destruct (P4 call' t)|].
      rewrite lookup_insert_ne in Hw' by done. by eapply W3.
Qed.

Lemma timeout_signins_ok call s : signins_ok s -> signins_ok (complete_timeout call s).
Proof.
  intros H. unfold complete_timeout. destruct (waiting s !! call) as [[token n]|] eqn:Ew; [|done]. destruct H as [D F V N P Wt].
  destruct (Wt _ _ _ Ew) as (W1 & W2 & W3). constructor; cbn [disk oauth_pending flows waiting saved]; [done..| |].
  - intros t k Hk. destruct (decide (t = token)) as [->|Ht].
    + rewrite lookup_insert_eq in Hk. injection Hk as <-. split_and!; [done|done| |by intros c2 t' [Hc Hw]%lookup_delete_Some; apply Hc, eq_sym, (W3 c2 t')].
      intros t' Ht'. destruct (decide (t' = token)) as [->|]; [done|]. rewrite lookup_insert_ne in Ht' by done. destruct (P _ _ Ht') as (_ & _ & _ & P4). by destruct (P4 call token).
    + rewrite lookup_insert_ne in Hk by done. destruct (P t k Hk) as (P1 & P2 & P3 & P4). split_and!; [done|done| |by intros c2 t' [_ Hw]%lookup_delete_Some; eapply P4].
      intros t' Ht'. destruct (decide (t' = token)) as [->|]; [rewrite lookup_insert_eq in Ht'; injection Ht' as ->; by destruct (P4 call token)|].
      rewrite lookup_insert_ne in Ht' by done. by apply P3.
  - intros c2 t k [Hc Hw]%lookup_delete_Some. destruct (Wt _ _ _ Hw) as (X1 & X2 & X3). split_and!; [done|done|]. intros c3 t' [_ Hw']%lookup_delete_Some. by eapply X3.
Qed.

(** A call that gives up leaves the rest as it was. *)
Lemma leave_signins_ok call s : signins_ok s -> signins_ok (mkSignIns (disk s) (oauth_pending s) (flows s) (delete call (waiting s)) (saved s)).
Proof.
  intros [D F V N P Wt]. constructor; cbn [disk oauth_pending flows waiting saved]; [done..| |].
  - intros t n Hn. destruct (P t n Hn) as (P1 & P2 & P3 & P4). split_and!; [done..|]. intros c t' [_ Hw]%lookup_delete_Some. by eapply P4.
  - intros c t n [Hc Hw]%lookup_delete_Some. destruct (Wt _ _ _ Hw) as (W1 & W2 & W3). split_and!; [done|done|]. intros c' t' [_ Hw']%lookup_delete_Some. by eapply W3.
Qed.

Lemma saved_signins_ok call t n c f d s : waiting s !! call = Some (t, n) -> flows s !! n = Some f -> fl_result f = Some (Ok c) ->
  token_bound (c :: (snd <$> saved s)) d -> signins_ok s ->
  signins_ok (mkSignIns d (oauth_pending s) (flows s) (delete call (waiting s)) (saved s ++ [(n, c)])).
Proof.
  intros Hw Hf Hr Hd [D F V N P Wt]. destruct (Wt _ _ _ Hw) as (W1 & W2 & W3). constructor; cbn [disk oauth_pending flows waiting saved].
  - intros v m drive H0 H1 H2 H3 H4. destruct (Hd v m drive H0 H1 H2 H3 H4) as (c' & Hin & ?). exists c'. split; [|done]. rewrite fmap_app. set_solver.
  - done.
  - intros k c' [Hk|Hk%list_elem_of_singleton]%elem_of_app; [by apply V|]. injection Hk as -> ->. by exists f.
  - rewrite fmap_app. apply NoDup_app. split_and!; [done| |apply NoDup_singleton]. intros x Hx ->%list_elem_of_singleton. done.
  - intros t' k Hk. destruct (P t' k Hk) as (P1 & P2 & P3 & P4). rewrite fmap_app. split_and!; [done| |done|by intros c2 t2 [_ ?]%lookup_delete_Some; eapply P4].
    intros [?| ->%list_elem_of_singleton]%elem_of_app; [done|by eapply P4].
  - intros c2 t2 k [Hc Hw2]%lookup_delete_Some. destruct (Wt _ _ _ Hw2) as (X1 & X2 & X3). rewrite fmap_app. split_and!; [done| |by intros c3 t3 [_ ?]%lookup_delete_Some; eapply X3].
    intros [?| ->%list_elem_of_singleton]%elem_of_app; [done|]. apply Hc. symmetry. by eapply W3.
Qed.

Lemma end_signins_ok call ok s : signins_ok s -> signins_ok (snd (complete_end call ok s)).
Proof.
  intros H. unfold complete_end. destruct (waiting s !! call) as [[t n]|] eqn:Ew; [|done]. destruct (flows s !! n) as [f|] eqn:Ef; cbn [mbind option_bind]; [|by apply leave_signins_ok].
  destruct (fl_result f) as [[c|e|]|] eqn:Er; [|by apply leave_signins_ok..].
  assert (flow_ok f) as [F1 F2 F3] by (eapply Forall_lookup_1; [apply (so_flows s H)|done]). destruct (F3 c Er) as (C1 & C2 & _).
  assert (token_bound (c :: (snd <$> saved s)) (snd (Desktop.drive_oauth_complete ok c (disk s)))) as Hb by (apply bound_complete; [congruence..|apply (so_disk s H)]).
  destruct (Desktop.drive_oauth_complete ok c (disk s)) as [r d] eqn:Ed. cbn [snd] in *. destruct r as [[]| |]; cbn [snd].
  - by eapply saved_signins_ok.
  - apply edit_fails in Ed as ->; [|done]. by apply leave_signins_ok.
  - apply edit_fails in Ed as ->; [|done]. by apply leave_signins_ok.
Qed.

Lemma disk_signins_ok d s : token_bound (snd <$> saved s) d -> signins_ok s -> signins_ok (set_disk d s).
Proof. intros Hd [D F V N P Wt]. by constructor. Qed.

Lemma sreach_ok d s : token_bound [] d -> sreach d s -> signins_ok s.
Proof.
  intros Hd. unfold sreach. set (s0 := mkSignIns d ∅ [] ∅ []). assert (signins_ok s0) as H0.
  { constructor; cbn [s0 disk oauth_pending flows waiting saved]; [done|constructor|set_solver|constructor| |]; intros *; by rewrite lookup_empty. }
  intros Hr. revert H0. induction Hr as [|x y z Hs _ IH]; [done|]. intros Hx. apply IH. clear IH. destruct Hs.
  - by apply start_signins_ok.
  - by apply listener_signins_ok.
  - by apply begin_signins_ok.
  - by apply timeout_signins_ok.
  - by apply end_signins_ok.
  - apply disk_signins_ok; [|done]. apply bound_save, Hx.
  - apply disk_signins_ok; [|done]. apply bound_clear, Hx.
Qed.

(** Claim C38: a sign-in is saved once, for its own client, after its own callback.  From a
    configuration without a refresh token, or none at all, under every interleaving of
    sign-ins, listeners, waiting calls and their timeouts with saves of the form and clearings
    of the token, whichever writes fail: every credential written is the result of a flow, for
    the client that flow was started for; among the requests that the flow's listener received
    was one for the callback path with the flow's own state and without an error, and the
    token is what its code was exchanged for, with the flow's redirect address, verifier and
    client; no flow is written twice, and no two calls wait for one flow; and a token on disk
    is one of those written, beside its client. *)
Theorem sign_in_saved_once (d : Disk) (s : SignIns) (Hd : token_bound [] d) (Hreach : sreach d s) :
  token_bound (snd <$> saved s) (disk s)
  /\ NoDup (fst <$> saved s)
  /\ (forall n c, (n, c) ∈ saved s -> exists f, flows s !! n = Some f /\ oc_client_id c = fl_client_id f /\ oc_client_secret c = fl_client_secret f
        /\ exists request code, request ∈ fl_requests f /\ callback_with (fl_state f) code request
           /\ fl_exchange f = Some (mkToken code (fl_redirect_uri f) (fl_code_verifier f) (fl_client_id f) (fl_client_secret f), Ok (Some (oc_refresh_token c))))
  /\ (forall call call' t t' n, waiting s !! call = Some (t, n) -> waiting s !! call' = Some (t', n) -> call' = call).
Proof.
  pose proof (sreach_ok d s Hd Hreach) as H. split_and!; [apply H|apply H| |].
  - intros n c Hn. destruct (so_saved s H n c Hn) as (f & Hf & Hr). exists f. split; [done|].
    assert (flow_ok f) as [_ _ F3] by (eapply Forall_lookup_1; [apply (so_flows s H)|done]). by apply F3.
  - intros call call' t t' n H1 H2. destruct (so_waiting s H _ _ _ H1) as (_ & _ & W3). by eapply W3.
Qed.

End start.

(** A sign-in that ends well. *)
Definition plain_forms : FormEncode := {| form_encode := fun s => s |}.
Definition some_state : str := state_token [1; 35].
Definition signed_in : SignIns :=
  let s := snd (drive_oauth_start (FE := plain_forms) (mkPkce (lit "v") (lit "c")) some_state (Ok 4711) (lit " id ") (lit "secret") (mkSignIns NoFile ∅ [] ∅ [])) in
  let s := complete_timeout 0 (snd (complete_begin 0 some_state s)) in
  let s := listener_sends 0 [lit "GET /favicon.ico HTTP/1.1"; lit "GET /cb?code=c&state=0123 HTTP/1.1"] (fun q => Ok (Some (lit "t-" ++ tr_code q))) s in
  snd (complete_end 1 true (snd (complete_begin 1 some_state s))).

Lemma signed_in_reach : sreach (FE := plain_forms) NoFile signed_in.
Proof.
  unfold sreach, signed_in. eapply rtc_r; [|apply ss_end]. eapply rtc_r; [|apply ss_begin; vm_compute; reflexivity]. eapply rtc_r; [|apply ss_listener].
  eapply rtc_r; [|apply ss_timeout]. eapply rtc_r; [|apply ss_begin; vm_compute; reflexivity]. eapply rtc_r; [|apply ss_start]. done.
Qed.

Lemma sign_in_saved_once_witness : saved signed_in = [(0%nat, mkCompletion (lit "t-c") (lit "id") (lit "secret"))] /\ token_bound (snd <$> saved signed_in) (disk signed_in).
Proof. split; [vm_compute; reflexivity|]. apply (sign_in_saved_once (FE := plain_forms) NoFile signed_in); [intros v m drive H; by destruct H|exact signed_in_reach]. Defined.
