(* ===== verification/Socks5.v ===== *)
(** * src/proxy_server.rs: SOCKS5

    The server side of the handshake ([handle_socks5_client] up to the dispatcher), the
    client side towards an upstream proxy ([socks5_connect_via]) with the raw pass-through
    that uses it, the replies, and the UDP datagram format.  The stream is the one of
    [HttpText]; what is written is the list of writes in order. *)

From stdpp Require Import prelude gmap.
From S2P Require Import Prelude RustStr Bits IpAddr HttpText HttpRead HostMatch DirectMode Dispatch.
#[local] Open Scope Z_scope.

(** ** The standard library *)

(** [read_exact]: an end of the stream before [n] bytes is an error. *)
Fixpoint read_exact (n : nat) (st : Stream) : res (bytes * Stream) unit :=
  match n, st with
  | O, _ => Ok ([], st)
  | _, RdBytes b :: st' =>
    if bool_decide (b = []) then Err tt
    else if (length b <=? n)%nat then let? r := read_exact (n - length b) st' in Ok (b ++ fst r, snd r)
    else Ok (take n b, RdBytes (drop n b) :: st')
  | _, _ => Err tt
  end.

Abbreviation be16 := (be_bytes 2).

(** [Ipv4Addr::to_string] *)
Definition ipv4_string (o : bytes) : str :=
  match o with
  | [a; b; c; d] => dotted_quad a b c d
  | _ => []
  end.

Definition hex_lower (d : Z) : Z := if d <? 10 then 48 + d else 87 + d.

(** [{:x}] of a 16-bit number *)
Definition hex16 (n : Z) : str :=
  let ds := [n / 4096; n / 256 mod 16; n / 16 mod 16; n mod 16] in
  hex_lower <$> match drop_while (Z.eqb 0) ds with [] => [0] | l => l end.

Fixpoint v6_segments (o : bytes) : list Z :=
  match o with h :: l :: o => h * 256 + l :: v6_segments o | _ => [] end.

(** The longest run of zeroes, the first of them: start and length. *)
Fixpoint zero_run (i : nat) (gs : list Z) (cur longest : nat * nat) : nat * nat :=
  match gs with
  | [] => longest
  | g :: gs =>
    if g =? 0 then
      let cur := (if (snd cur =? 0)%nat then (i, 1%nat) else (fst cur, S (snd cur))) in
      zero_run (S i) gs cur (if (snd longest <? snd cur)%nat then cur else longest)
    else zero_run (S i) gs (0%nat, 0%nat) longest
  end.

Fixpoint join_colons (ss : list str) : str :=
  match ss with [] => [] | [s] => s | s :: ss => s ++ 58 :: join_colons ss end.

(** [Ipv6Addr::to_string] *)
Definition ipv6_string (o : bytes) : str :=
  let gs := v6_segments o in
  match to_ipv4_mapped gs with
  | Some (a, b, c, d) => lit "::ffff:" ++ dotted_quad a b c d
  | None =>
    let '(start, n) := zero_run 0 gs (0%nat, 0%nat) (0%nat, 0%nat) in
    if (1 <? n)%nat
    then join_colons (hex16 <$> take start gs) ++ lit "::" ++ join_colons (hex16 <$> drop (start + n) gs)
    else join_colons (hex16 <$> gs)
  end.

(** ** The server's handshake *)
Inductive SocksEnd :=
| SoIo                                           (* a read failed; the connection is dropped *)
| SoDone                                         (* refused or not SOCKS5 *)
| SoUdp                                          (* UDP ASSOCIATE *)
| SoConnect (host : str) (port : Z) (st : Stream).

(** [let x = sock.read_exact(..).await?;] *)
Definition reading {A} (n : nat) (st : Stream) (k : bytes -> Stream -> list bytes * A) (io : A) : list bytes * A :=
  match read_exact n st with Ok (b, st) => k b st | _ => ([], io) end.

Definition writing {A} (b : bytes) (r : list bytes * A) : list bytes * A := (b :: fst r, snd r).

Definition socks5_fail (rep : Z) : bytes := [5; rep; 0; 1; 0; 0; 0; 0; 0; 0].

Definition byte_at (i : nat) (b : bytes) : Z := default 0 (b !! i).

(** The address of a request and the port behind it; [None] for an unknown type. *)
Definition socks5_address (atyp : Z) (st : Stream) (k : str -> Z -> Stream -> list bytes * SocksEnd) : list bytes * SocksEnd :=
  let port (host : str) (st : Stream) := reading 2 st (fun b st => k host (be_val b) st) SoIo in
  if atyp =? 1 then reading 4 st (fun ip st => port (ipv4_string ip) st) SoIo
  else if atyp =? 3 then
    reading 1 st (fun l st => reading (Z.to_nat (byte_at 0 l)) st (fun name st => port (from_utf8_lossy name) st) SoIo) SoIo
  else if atyp =? 4 then reading 16 st (fun ip st => port (ipv6_string ip) st) SoIo
  else writing (socks5_fail 8) ([], SoDone).

Definition socks5_handshake (st : Stream) : list bytes * SocksEnd :=
  reading 2 st (fun hdr st =>
    if negb (byte_at 0 hdr =? 5) then ([], SoDone) else
    reading (Z.to_nat (byte_at 1 hdr)) st (fun methods st =>
      if negb (existsb (Z.eqb 0) methods) then writing [5; 255] ([], SoDone) else
      writing [5; 0] (reading 4 st (fun req st =>
        if negb (byte_at 0 req =? 5) then ([], SoDone) else
        let cmd := byte_at 1 req in
        if negb (cmd =? 1) && negb (cmd =? 3) then writing (socks5_fail 7) ([], SoDone) else
        socks5_address (byte_at 3 req) st (fun host port st =>
          if cmd =? 3 then ([], SoUdp) else ([], SoConnect host port st))) SoIo)) SoIo) SoIo.

(** What the connection ends in. *)
Inductive SocksRoute := SrNone | SrUdpAssociate | SrDispatch (r : option (res (Route * (RewriteCtx * Tables)) unit)).

Definition handle_socks5_client (w : World) (c : RewriteCtx) (t : Tables) (has_fronter has_drive : bool)
    (unreachable : option (str -> Z -> bool)) (st : Stream) : list bytes * SocksRoute :=
  match socks5_handshake st with
  | (out, SoIo) | (out, SoDone) => (out, SrNone)
  | (out, SoUdp) => (out, SrUdpAssociate)
  | (out, SoConnect host port st) =>
    if match unreachable with Some f => f host port | None => false end
    then (out ++ [socks5_fail 4], SrNone)
    else (out ++ [socks5_fail 0],
          SrDispatch (dispatch_tunnel w c t has_fronter (bool_decide (is_Some unreachable)) has_drive host port st))
  end.

(** ** The client of an upstream proxy *)
Definition parse_v4 (s : str) : option bytes :=
  match read_ipv4_addr s with Some (a, b, c, d, []) => Some [a; b; c; d] | _ => None end.

Definition octets (gs : list Z) : bytes := gs ≫= be16.

Definition parse_v6 (s : str) : option bytes :=
  match read_ipv6_addr s with Some (gs, []) => Some (octets gs) | _ => None end.

Definition connect_greeting : bytes := [5; 1; 0].

(** The CONNECT request; [None] for a host name over 255 bytes. *)
Definition connect_request (host : str) (port : Z) : option bytes :=
  addr ← match parse_v4 host with
         | Some o => Some (1 :: o)
         | None =>
           match parse_v6 host with
           | Some o => Some (4 :: o)
           | None => let hb := as_bytes host in if 255 <? len hb then None else Some (3 :: len hb :: hb)
           end
         end;
  Some ([5; 1; 0] ++ addr ++ be16 port).

(** The bytes written, and the stream behind the proxy's reply when the tunnel stands. *)
Definition socks5_connect_via (host : str) (port : Z) (st : Stream) : list bytes * option Stream :=
  let skip (n : nat) (st : Stream) : list bytes * option Stream := reading n st (fun _ st => ([], Some st)) None in
  writing connect_greeting (reading 2 st (fun reply st =>
    if negb (byte_at 0 reply =? 5) || negb (byte_at 1 reply =? 0) then ([], None) else
    match connect_request host port with
    | None => ([], None)
    | Some req =>
      writing req (reading 4 st (fun head st =>
        if negb (byte_at 0 head =? 5) || negb (byte_at 1 head =? 0) then ([], None)
        else if byte_at 3 head =? 1 then skip 6%nat st
        else if byte_at 3 head =? 4 then skip 18%nat st
        else if byte_at 3 head =? 3 then reading 1 st (fun l st => skip (Z.to_nat (byte_at 0 l) + 2)%nat st) None
        else ([], None)) None)
    end) None).

(** ** Raw pass-through: the connections tried, in order; the first that stands is spliced. *)
Inductive Dial := DialSocks (proxy host : str) (port : Z) | DialDirect (host : str) (port : Z) (timeout_secs : Z).

Definition looks_like_ip (s : str) : bool := bool_decide (is_Some (parse_ip s)).

Definition passthrough_dials (host : str) (port : Z) (upstream : option str) : list Dial :=
  let target := strip_brackets host in
  let direct := DialDirect target port (if looks_like_ip target then 4 else 10) in
  match upstream with Some proxy => [DialSocks proxy target port; direct] | None => [direct] end.

(** [ok]: which dials succeed. *)
Definition plain_tcp_passthrough (ok : Dial -> bool) (host : str) (port : Z) (upstream : option str) : option Dial :=
  List.find ok (passthrough_dials host port upstream).

(** ** Replies and datagrams *)
Definition write_socks5_reply (rep : Z) (addr : option (IpAddr * Z)) : bytes :=
  [5; rep; 0] ++ match addr with
  | Some (V4 a b c d, port) => 1 :: [a; b; c; d] ++ be16 port
  | Some (V6 gs, port) => 4 :: octets gs ++ be16 port
  | None => [1; 0; 0; 0; 0; 0; 0]
  end.

Record SocksUdpTarget := mkTarget { u_host : str; u_port : Z; u_atyp : Z; u_addr : bytes }.
#[export] Instance SocksUdpTarget_eq_dec : EqDecision SocksUdpTarget.
Proof. solve_decision. Defined.

(** [&buf[a..a + n]] and [buf[i]]: out of range is a panic. *)
Definition buf_slice (buf : bytes) (a n : nat) : res bytes unit :=
  if (a + n <=? length buf)%nat then Ok (take n (drop a buf)) else Panic.
Definition byte_index (buf : bytes) (i : nat) : res Z unit := match buf !! i with Some b => Ok b | None => Panic end.

(** [Err tt] is [None]. *)
Definition parse_socks5_udp_packet_offsets (buf : bytes) : res (SocksUdpTarget * nat) unit :=
  if (length buf <? 4)%nat then Err tt else
  let? b0 := byte_index buf 0 in let? b1 := byte_index buf 1 in let? b2 := byte_index buf 2 in
  if negb (b0 =? 0) || negb (b1 =? 0) || negb (b2 =? 0) then Err tt else
  let? atyp := byte_index buf 3 in
  let? r :=
    if atyp =? 1 then
      if (length buf <? 4 + 4 + 2)%nat then Err tt else
      let? addr := buf_slice buf 4 4 in Ok (ipv4_string addr, addr, 8%nat)
    else if atyp =? 3 then
      if (length buf <? 4 + 1)%nat then Err tt else
      let? l := byte_index buf 4 in
      let n := Z.to_nat l in
      if (n =? 0)%nat || (length buf <? 5 + n + 2)%nat then Err tt else
      let? addr := buf_slice buf 5 n in
      match from_utf8 addr with Some host => Ok (host, addr, (5 + n)%nat) | None => Err tt end
    else if atyp =? 4 then
      if (length buf <? 4 + 16 + 2)%nat then Err tt else
      let? addr := buf_slice buf 4 16 in Ok (ipv6_string addr, addr, 20%nat)
    else Err tt in
  let '(host, addr, pos) := r in
  let? h := byte_index buf pos in let? l := byte_index buf (S pos) in
  Ok (mkTarget host (be_val [h; l]) atyp addr, (pos + 2)%nat).

Definition parse_socks5_udp_packet (buf : bytes) : res (SocksUdpTarget * bytes) unit :=
  let? r := parse_socks5_udp_packet_offsets buf in
  let '(target, off) := r in
  let? payload := buf_slice buf off (length buf - off) in Ok (target, payload).

Definition build_socks5_udp_packet (target : SocksUdpTarget) (payload : bytes) : bytes :=
  [0; 0; 0; u_atyp target]
  ++ (if u_atyp target =? 3 then wrap 8 (len (u_addr target)) :: u_addr target else u_addr target)
  ++ be16 (u_port target) ++ payload.

(** * The SOCKS5 service, proved

    The two sides of the handshake agree on the destination whatever the sizes of the reads,
    and the UDP datagram format is a bijection between well-formed targets with a payload and
    the datagrams that are accepted. *)

(** ** Exact reads *)
Lemma read_exact_spec n st a rest : only_bytes st -> flat st = a ++ rest -> length a = n ->
  exists st', read_exact n st = Ok (a, st') /\ flat st' = rest /\ only_bytes st'.
Proof.
  revert n a. induction st as [|ev st IH]; intros n a Ho Hf Hn.
  - destruct a as [|x a]; [|done]. subst n. cbn [read_exact]. by exists [].
  - apply Forall_cons in Ho as [(b & -> & Hb) Ho]. change (flat (RdBytes b :: st)) with (b ++ flat st) in Hf.
    destruct n as [|n]; cbn [read_exact].
    { destruct a; [|done]. exists (RdBytes b :: st). split_and!; [done|done|]. constructor; [by exists b|done]. }
    rewrite bool_decide_eq_false_2 by done. destruct (Nat.leb_spec (length b) (S n)) as [Hle|Hgt].
    + assert (a = b ++ drop (length b) a) as Ha.
      { apply (f_equal (take (length b))) in Hf. rewrite take_app_length, take_app_le in Hf by lia. by rewrite Hf at 1; rewrite take_drop. }
      rewrite Ha, <- app_assoc in Hf. apply app_inv_head in Hf.
      destruct (IH (S n - length b)%nat (drop (length b) a) Ho Hf) as (st' & -> & Hr & Ho'); [rewrite length_drop; lia|].
      cbn [res_bind fst snd]. exists st'. by rewrite <- Ha.
    + assert (take (S n) b = a /\ drop (S n) b ++ flat st = rest) as [Ht Hd].
      { rewrite <- (take_drop (S n) b), <- app_assoc in Hf. apply app_inj_1 in Hf as [? ?]; [done|]. rewrite length_take. lia. }
      exists (RdBytes (drop (S n) b) :: st). rewrite Ht. split_and!; [done|done|]. constructor; [|done]. eexists. split; [done|].
      intros E. apply (f_equal length) in E. rewrite length_drop in E. cbn in E. lia.
Qed.

Lemma reading_eq {A} n st b st' (k : bytes -> Stream -> list bytes * A) io :
  read_exact n st = Ok (b, st') -> reading n st k io = k b st'.
Proof. unfold reading. by intros ->. Qed.

(** ** Parsed addresses *)
Lemma to_digit_nonneg r c d : to_digit r c = Some d -> 0 <= d.
Proof. unfold to_digit, between. intros H. repeat case_match; simplify_eq; lia. Qed.

Lemma read_digits_nonneg radix m k acc s v n r : 0 <= radix -> 0 <= acc -> read_digits radix m k acc s = Some (v, n, r) -> 0 <= v.
Proof.
  revert k acc. induction s as [|c s IH]; intros k acc Hr Ha; cbn [read_digits]; [by intros [= <- _ _]|].
  destruct (to_digit radix c) as [d|] eqn:Ed; [|by intros [= <- _ _]]. destruct (m <? S k)%nat; [done|].
  apply to_digit_nonneg in Ed. apply IH; [done|]. nia.
Qed.

Lemma read_number_bound radix m z mx s v r : 0 <= radix -> read_number radix m z mx s = Some (v, r) -> 0 <= v <= mx.
Proof.
  intros Hr. unfold read_number. intros ([[v' k] r'] & Hd & H)%bind_Some.
  apply read_digits_nonneg in Hd; [|done|lia]. repeat (case_match; try done); simplify_eq; lia.
Qed.

Lemma read_ipv4_ok s a b c d r : read_ipv4_addr s = Some (a, b, c, d, r) -> is_u8 a /\ is_u8 b /\ is_u8 c /\ is_u8 d.
Proof.
  unfold read_ipv4_addr. intros ([a' r1] & Ha & H)%bind_Some. apply bind_Some in H as (s1 & _ & H). apply bind_Some in H as ([b' r2] & Hb & H).
  apply bind_Some in H as (s2 & _ & H). apply bind_Some in H as ([c' r3] & Hc & H). apply bind_Some in H as (s3 & _ & H).
  apply bind_Some in H as ([d' r4] & Hd & H). injection H as <- <- <- <- _. unfold read_octet in *. unfold is_u8.
  apply read_number_bound in Ha, Hb, Hc, Hd; lia.
Qed.

Lemma read_groups_ok left i s gs v4 r : read_groups left i s = (gs, v4, r) -> (length gs <= left)%nat /\ Forall is_u16 gs.
Proof.
  revert i s gs v4 r. induction left as [|left IH]; intros i s gs v4 r; cbn [read_groups]; [by intros [= <- <- <-]|].
  destruct (if (1 <? S left)%nat then read_separator i read_ipv4_addr s else None) as [[[[[a b] c] d] r']|] eqn:E4.
  - destruct (Nat.ltb_spec 1 (S left)); [|done]. intros [= <- <- <-]. split; [cbn; lia|].
    assert (exists s', read_ipv4_addr s' = Some (a, b, c, d, r')) as (s' & Hs).
    { destruct i; cbn [read_separator] in E4; [by exists s|]. apply bind_Some in E4 as (s' & _ & E4). by exists s'. }
    apply read_ipv4_ok in Hs as (? & ? & ? & ?). unfold is_u8, is_u16 in *. repeat constructor; lia.
  - destruct (read_separator i read_group s) as [[g r']|] eqn:Eg; [|intros [= <- <- <-]; by split; [cbn; lia|constructor]].
    destruct (read_groups left (S i) r') as [[gs' v4'] r''] eqn:Er. intros [= <- <- <-]. destruct (IH _ _ _ _ _ Er) as [Hl Hg].
    split; [cbn; lia|]. constructor; [|done].
    assert (exists s', read_group s' = Some (g, r')) as (s' & Hs).
    { destruct i; cbn [read_separator] in Eg; [by exists s|]. apply bind_Some in Eg as (s' & _ & Eg). by exists s'. }
    unfold read_group in Hs. apply read_number_bound in Hs; unfold is_u16; lia.
Qed.

Lemma read_ipv6_ok s gs r : read_ipv6_addr s = Some (gs, r) -> length gs = 8%nat /\ Forall is_u16 gs.
Proof.
  unfold read_ipv6_addr. destruct (read_groups 8 0 s) as [[h v4] s'] eqn:Eh. destruct (read_groups_ok _ _ _ _ _ _ Eh) as [Hl Hh].
  destruct (Nat.eqb_spec (length h) 8); [by intros [= <- <-]|]. destruct v4; [done|].
  intros (s1 & _ & H)%bind_Some. apply bind_Some in H as (s2 & _ & H).
  destruct (read_groups _ 0 s2) as [[t v4'] s3] eqn:Et. destruct (read_groups_ok _ _ _ _ _ _ Et) as [Hlt Ht]. injection H as <- <-.
  split; [rewrite !length_app, length_replicate; lia|]. apply Forall_app. split; [done|]. apply Forall_app. split; [|done].
  apply Forall_replicate. unfold is_u16. lia.
Qed.

Lemma parse_v4_ok host o : parse_v4 host = Some o -> length o = 4%nat /\ bytes_ok o.
Proof.
  unfold parse_v4. destruct (read_ipv4_addr host) as [[[[[a b] c] d] r]|] eqn:E; [|done]. destruct r; [|done]. intros [= <-].
  apply read_ipv4_ok in E as (? & ? & ? & ?). split; [done|]. repeat (apply Forall_cons; split; [done|]). constructor.
Qed.

Lemma octets_ok gs : length (octets gs) = (2 * length gs)%nat /\ bytes_ok (octets gs).
Proof.
  induction gs as [|g gs [IHl IHo]]; [by split; [|constructor]|]. unfold octets. rewrite bind_cons. fold (octets gs). split.
  - rewrite length_app, length_be_bytes, IHl. cbn. lia.
  - apply Forall_app. split; [apply be_bytes_ok|done].
Qed.

Lemma parse_v6_ok host o : parse_v6 host = Some o -> length o = 16%nat /\ bytes_ok o.
Proof.
  unfold parse_v6. destruct (read_ipv6_addr host) as [[gs r]|] eqn:E; [|done]. destruct r; [|done]. intros [= <-].
  apply read_ipv6_ok in E as [Hl _]. destruct (octets_ok gs) as [-> ?]. split; [lia|done].
Qed.

(** ** An address printed is the address read *)
Lemma read_digits_suffix radix m k acc s v n r : read_digits radix m k acc s = Some (v, n, r) -> exists p, s = p ++ r.
Proof.
  revert k acc. induction s as [|c s IH]; intros k acc; cbn [read_digits]; [intros [= _ _ <-]; by exists []|].
  destruct (to_digit radix c); [|intros [= _ _ <-]; by exists []]. destruct (m <? S k)%nat; [done|]. intros [p ->]%IH. by exists (c :: p).
Qed.

Lemma no_dot_no_ipv4 s : 46 ∉ s -> read_ipv4_addr s = None.
Proof.
  intros Hs. unfold read_ipv4_addr. destruct (read_octet s) as [[a r]|] eqn:E; [|done]. cbn [mbind option_bind].
  assert (read_given_char DOT r = None) as ->; [|done]. unfold read_octet, read_number in E.
  apply bind_Some in E as ([[v k] r'] & Hd & E). assert (r' = r) as ->. { repeat (case_match; try done); by simplify_eq. }
  apply read_digits_suffix in Hd as [p ->]. destruct r as [|x r]; [done|]. cbn. destruct (Z.eqb_spec x DOT) as [->|]; [|done].
  exfalso. apply Hs. unfold DOT. set_solver.
Qed.

Lemma to_digit_hex d : 0 <= d < 16 -> to_digit 16 (hex_lower d) = Some d.
Proof.
  intros Hd. assert (d = 0 \/ d = 1 \/ d = 2 \/ d = 3 \/ d = 4 \/ d = 5 \/ d = 6 \/ d = 7 \/ d = 8 \/ d = 9 \/ d = 10 \/ d = 11 \/
    d = 12 \/ d = 13 \/ d = 14 \/ d = 15) as H by lia. by destruct_or! H; subst.
Qed.

Definition hex_stop (r : str) : Prop := match r with [] => True | c :: _ => to_digit 16 c = None end.

Lemma read_digits_hex ds k acc r : Forall (fun d => 0 <= d < 16) ds -> (k + length ds <= 4)%nat -> hex_stop r ->
  read_digits 16 4 k acc ((hex_lower <$> ds) ++ r) = Some (foldl (fun a d => a * 16 + d) acc ds, (k + length ds)%nat, r).
Proof.
  intros Hds. revert k acc. induction Hds as [|d ds Hd _ IH]; intros k acc Hk Hr.
  - cbn [fmap list_fmap app foldl length]. rewrite Nat.add_0_r. destruct r as [|c r]; cbn [read_digits]; [done|]. cbn in Hr. by rewrite Hr.
  - cbn [fmap list_fmap app read_digits foldl length] in *. rewrite to_digit_hex by done. destruct (Nat.ltb_spec 4 (S k)); [lia|].
    rewrite IH by (done || lia). do 2 f_equal. f_equal. lia.
Qed.

Lemma read_group_hex g r : is_u16 g -> hex_stop r -> read_group (hex16 g ++ r) = Some (g, r).
Proof.
  intros Hg Hr. unfold is_u16 in Hg. change (2 ^ 16) with 65536 in Hg. unfold hex16.
  set (ds := [g / 4096; g / 256 mod 16; g / 16 mod 16; g mod 16]).
  assert (Forall (fun d => 0 <= d < 16) ds) as Hds.
  { repeat (apply Forall_cons; split; [try (apply Z.mod_pos_bound; lia)|]); [|constructor].
    split; [apply Z.div_pos; lia|apply Z.div_lt_upper_bound; lia]. }
  assert (foldl (fun a d => a * 16 + d) 0 ds = g) as Hv by (cbn [foldl ds]; lia).
  set (ds' := match drop_while (Z.eqb 0) ds with [] => [0] | l => l end).
  assert (Forall (fun d => 0 <= d < 16) ds' /\ (1 <= length ds' <= 4)%nat /\ foldl (fun a d => a * 16 + d) 0 ds' = g) as (Hd' & Hl' & Hv').
  { assert (forall l, Forall (fun d => 0 <= d < 16) l -> (length l <= 4)%nat ->
      let l' := match drop_while (Z.eqb 0) l with [] => [0] | l => l end in
      Forall (fun d => 0 <= d < 16) l' /\ (1 <= length l' <= 4)%nat /\ foldl (fun a d => a * 16 + d) 0 l' = foldl (fun a d => a * 16 + d) 0 l) as H.
    { intros l Hl. induction Hl as [|d l Hd Hl IH]; intros Hlen; cbn zeta.
      { split_and!; [apply Forall_singleton; lia|cbn; lia|cbn; lia|done]. }
      cbn [drop_while].
      destruct (Z.eqb_spec 0 d) as [<-|]; [apply IH; cbn in Hlen; lia|]. split_and!; [by constructor|cbn; lia|cbn in Hlen; done|done]. }
    destruct (H ds Hds) as (H1 & H2 & E); [cbn; lia|]. fold ds' in H1, H2, E. split_and!; [exact H1|lia|lia|by rewrite E]. }
  clearbody ds'. unfold read_group, read_number. rewrite read_digits_hex by (done || lia). cbn [mbind option_bind].
  rewrite Hv'. destruct (Nat.eqb_spec (0 + length ds') 0); [lia|]. cbn [negb andb]. destruct (Z.leb_spec g 65535); [done|lia].
Qed.

(** The groups from position [i] on, with their separators. *)
Fixpoint groups_text (i : nat) (gs : list Z) : str :=
  match gs with [] => [] | g :: gs => (match i with O => [] | S _ => [58] end) ++ hex16 g ++ groups_text (S i) gs end.

Lemma groups_text_S i gs : groups_text (S i) gs = groups_text 1 gs.
Proof. revert i. induction gs as [|g gs IH]; intros i; [done|]. cbn [groups_text]. by rewrite (IH (S i)), (IH 1%nat). Qed.

Lemma join_groups gs : join_colons (hex16 <$> gs) = groups_text 0 gs.
Proof.
  destruct gs as [|g gs]; [done|]. cbn [fmap list_fmap groups_text app]. revert g. induction gs as [|h gs IH]; intros g; [cbn; by rewrite app_nil_r|].
  specialize (IH h). cbn [fmap list_fmap join_colons groups_text app] in *. rewrite (groups_text_S 1), <- IH. done.
Qed.

Lemma read_digits_all m n acc s v k : read_digits 16 m n acc s = Some (v, k, []) -> forall c, to_digit 16 c = None -> c ∉ s.
Proof.
  revert n acc. induction s as [|x s IH]; intros n acc Hd c Hn; [set_solver|]. cbn [read_digits] in Hd.
  destruct (to_digit 16 x) eqn:Ex; [|done]. destruct (m <? S n)%nat; [done|].
  intros [->|Hin]%elem_of_cons; [congruence|]. by apply (IH _ _ Hd c).
Qed.

Lemma hex16_no c g : is_u16 g -> c = 46 \/ c = 58 -> c ∉ hex16 g.
Proof.
  intros Hg Hc Hin. assert (to_digit 16 c = None) as Hn by (destruct Hc; by subst).
  pose proof (read_group_hex g [] Hg I) as H. rewrite app_nil_r in H. unfold read_group, read_number in H.
  apply bind_Some in H as ([[v k] r] & Hd & H). assert (r = []) as -> by (repeat (case_match; try done); by simplify_eq).
  by apply (read_digits_all _ _ _ _ _ _ Hd c).
Qed.

Lemma groups_text_no gs i : Forall is_u16 gs -> 46 ∉ groups_text i gs.
Proof.
  intros Hg. revert i. induction Hg as [|g gs H _ IH]; intros i; [set_solver|]. cbn [groups_text].
  assert (46 ∉ hex16 g) by (by apply hex16_no; [|left]). specialize (IH (S i)). destruct i; set_solver by lia.
Qed.

Lemma read_separator_no_dot i s : 46 ∉ s -> read_separator i read_ipv4_addr s = None.
Proof.
  intros Hs. destruct i; cbn [read_separator]; [by apply no_dot_no_ipv4|]. destruct s as [|x s]; [done|]. cbn [read_given_char].
  destruct (x =? COLON); [|done]. cbn [mbind option_bind]. apply no_dot_no_ipv4. set_solver.
Qed.

Lemma read_groups_text gs left i r : (length gs <= left)%nat -> Forall is_u16 gs -> 46 ∉ r -> hex_stop r ->
  (length gs = left \/ read_separator (i + length gs) read_group r = None) ->
  read_groups left i (groups_text i gs ++ r) = (gs, false, r).
Proof.
  intros Hl Hg Hr Hs. revert left i Hl. induction Hg as [|g gs Hg Hgs IH]; intros left i Hl Hstop.
  - cbn [groups_text app]. destruct left as [|left]; [done|]. cbn [read_groups]. rewrite read_separator_no_dot by done.
    destruct Hstop as [|Hstop]; [done|]. rewrite Nat.add_0_r in Hstop. rewrite Hstop. by destruct (1 <? S left)%nat.
  - destruct left as [|left]; [cbn in Hl; lia|]. cbn [read_groups].
    rewrite read_separator_no_dot by (rewrite elem_of_app; intros [H|H]; [by apply (groups_text_no (g :: gs) i) in H; [|constructor]|done]).
    assert (read_separator i read_group (groups_text i (g :: gs) ++ r) = Some (g, groups_text (S i) gs ++ r)) as ->.
    { cbn [groups_text]. assert (hex_stop (groups_text (S i) gs ++ r)) as Hst by (destruct gs; done).
      destruct i; cbn [read_separator app]; [|cbn [read_given_char]; rewrite Z.eqb_refl; cbn [mbind option_bind]];
        rewrite <- app_assoc; by apply read_group_hex. }
    rewrite IH; [by destruct (1 <? S left)%nat|cbn in Hl; lia|].
    destruct Hstop as [Hstop|Hstop]; [left; cbn in Hstop; lia|right]. cbn [length] in Hstop. by rewrite Nat.add_succ_r in Hstop.
Qed.

(** The run of zeroes lies in the groups. *)
Lemma zero_run_spec all pre gs cur longest :
  all = pre ++ gs ->
  (snd cur = 0%nat \/ exists p, pre = p ++ replicate (snd cur) 0 /\ length p = fst cur) ->
  (exists p t, all = p ++ replicate (snd longest) 0 ++ t /\ (length p = fst longest \/ snd longest = 0%nat)) ->
  let '(start, n) := zero_run (length pre) gs cur longest in
  exists p t, all = p ++ replicate n 0 ++ t /\ (length p = start \/ n = 0%nat).
Proof.
  revert pre cur longest. induction gs as [|g gs IH]; intros pre cur longest Hall Hcur Hlong; cbn [zero_run].
  - by destruct longest.
  - destruct (Z.eqb_spec g 0) as [->|Hg].
    + set (cur' := if (snd cur =? 0)%nat then _ else _).
      assert (exists p, pre ++ [0] = p ++ replicate (snd cur') 0 /\ length p = fst cur') as Hc'.
      { subst cur'. destruct (Nat.eqb_spec (snd cur) 0) as [E|E]; cbn [fst snd]; [by exists pre|].
        destruct Hcur as [|(p & -> & Hp)]; [done|]. exists p. split; [|done]. rewrite <- app_assoc. f_equal. by rewrite <- replicate_S_end. }
      replace (S (length pre)) with (length (pre ++ [0])) by (rewrite length_app; cbn; lia).
      apply IH; [by rewrite <- app_assoc|by right|]. destruct (snd longest <? snd cur')%nat; [|done].
      destruct Hc' as (p & E & Hp). exists p, gs. split; [|by left]. rewrite Hall, app_assoc, <- E, <- app_assoc. done.
    + replace (S (length pre)) with (length (pre ++ [g])) by (rewrite length_app; cbn; lia).
      apply IH; [by rewrite <- app_assoc|by left|done].
Qed.

Lemma segments_octets o n : length o = (2 * n)%nat -> bytes_ok o ->
  length (v6_segments o) = n /\ Forall is_u16 (v6_segments o) /\ octets (v6_segments o) = o.
Proof.
  revert o. induction n as [|n IH]; intros o Hl Ho; [by destruct o|]. destruct o as [|h [|l o]]; [done|cbn in Hl; lia|].
  apply Forall_cons in Ho as [Hh [Hlo Ho]%Forall_cons]. destruct (IH o) as (H1 & H2 & H3); [cbn in Hl; lia|done|].
  cbn [v6_segments]. assert (is_u16 (h * 256 + l)) as Hu by (unfold is_u8, is_u16 in *; lia).
  split_and!; [cbn; lia|by constructor|]. unfold octets. rewrite bind_cons. fold (octets (v6_segments o)). rewrite H3.
  assert (be_bytes 2 (h * 256 + l) = [h; l]) as ->; [|done]. rewrite <- (be_bytes_be_val [h; l]) by (by repeat (apply Forall_cons; split)).
  cbn [length]. f_equal. cbn [be_val length]. lia.
Qed.

Lemma read_ipv4_quad a b c d r : is_u8 a -> is_u8 b -> is_u8 c -> is_u8 d -> stops r ->
  read_ipv4_addr (dotted_quad a b c d ++ r) = Some (a, b, c, d, r).
Proof.
  intros Ha Hb Hc Hd Hr. unfold read_ipv4_addr, dotted_quad. rewrite <- !app_assoc.
  do 3 (cbn [app]; rewrite <- ?app_assoc; rewrite read_octet_dec by done; cbn [mbind option_bind app read_given_char];
    rewrite Z.eqb_refl; cbn [mbind option_bind]).
  rewrite read_octet_dec by done. done.
Qed.

Lemma read_ipv6_mapped a b c d : is_u8 a -> is_u8 b -> is_u8 c -> is_u8 d ->
  read_ipv6_addr (lit "::ffff:" ++ dotted_quad a b c d) = Some ([0; 0; 0; 0; 0; 65535; a * 256 + b; c * 256 + d], []).
Proof.
  intros Ha Hb Hc Hd. change (lit "::ffff:") with ([58; 58] ++ (hex16 65535 ++ [58])). rewrite <- !app_assoc.
  unfold read_ipv6_addr. change (read_groups 8 0 ([58; 58] ++ ?t)) with (@nil Z, false, [58; 58] ++ t). cbn [length Nat.eqb app].
  do 2 (cbn [read_given_char]; change (58 =? COLON) with true; cbn [mbind option_bind]). change (8 - (0 + 1))%nat with 7%nat.
  assert (read_groups 7 0 (hex16 65535 ++ 58 :: dotted_quad a b c d) = ([65535; a * 256 + b; c * 256 + d], false || true, [])) as ->; [|done].
  cbn [read_groups]. change (1 <? 7)%nat with true. cbn [read_separator].
  change (read_ipv4_addr (hex16 65535 ++ 58 :: dotted_quad a b c d)) with (@None (Z * Z * Z * Z * str)). cbn iota.
  rewrite read_group_hex by (unfold is_u16; done || lia). change (1 <? 6)%nat with true. cbn [read_separator read_given_char].
  change (58 =? COLON) with true. cbn [mbind option_bind].
  pose proof (read_ipv4_quad a b c d [] Ha Hb Hc Hd I) as E. rewrite app_nil_r in E. rewrite E. done.
Qed.

Lemma mapped_inv gs a b c d : Forall is_u16 gs -> to_ipv4_mapped gs = Some (a, b, c, d) ->
  gs = [0; 0; 0; 0; 0; 65535; a * 256 + b; c * 256 + d] /\ is_u8 a /\ is_u8 b /\ is_u8 c /\ is_u8 d.
Proof.
  unfold to_ipv4_mapped. intros Hg. do 8 (destruct gs as [|? gs]; [done|]). destruct gs; [|done].
  destruct (_ && _) eqn:E; [|done]. intros [= <- <- <- <-]. rewrite !andb_true_iff, !Z.eqb_eq in E. destruct E as [[[[[-> ->] ->] ->] ->] ->].
  do 6 (apply Forall_cons in Hg as [_ Hg]). apply Forall_cons in Hg as [H1 [H2 _]%Forall_cons]. unfold is_u16, is_u8 in *.
  assert (forall g, g / 256 * 256 + g mod 256 = g) as R by (intros; lia).
  split_and!; [by rewrite !R|lia..].
Qed.

Lemma groups_stop i t : read_separator i read_group (lit "::" ++ t) = None.
Proof. by destruct i. Qed.

Lemma read_ipv6_run p n t : length (p ++ replicate n 0 ++ t) = 8%nat -> Forall is_u16 p -> Forall is_u16 t -> (1 < n)%nat ->
  read_ipv6_addr (groups_text 0 p ++ lit "::" ++ groups_text 0 t) = Some (p ++ replicate n 0 ++ t, []).
Proof.
  rewrite !length_app, length_replicate. intros Hl Hp Ht Hn. unfold read_ipv6_addr.
  rewrite (read_groups_text p); [|lia|done| |done|right; apply groups_stop].
  2: { rewrite elem_of_app. intros [H|H]; [by vm_compute in H; set_solver by lia|by apply groups_text_no in H]. }
  destruct (Nat.eqb_spec (length p) 8); [lia|]. change (lit "::" ++ ?x) with (58 :: 58 :: x).
  do 2 (cbn [read_given_char]; change (58 =? COLON) with true; cbn [mbind option_bind]).
  pose proof (read_groups_text t (8 - (length p + 1)) 0 []) as E. rewrite app_nil_r in E. rewrite E; [|lia|done|set_solver|done|].
  - do 2 f_equal. do 3 f_equal. lia.
  - right. by destruct (0 + length t)%nat.
Qed.

Lemma parse_v6_string o : length o = 16%nat -> bytes_ok o -> parse_v6 (ipv6_string o) = Some o.
Proof.
  intros Hl Ho. destruct (segments_octets o 8 Hl Ho) as (H8 & Hu & Hoct). unfold parse_v6, ipv6_string.
  destruct (to_ipv4_mapped (v6_segments o)) as [[[[a b] c] d]|] eqn:Em.
  { apply mapped_inv in Em as (E & ? & ? & ? & ?); [|done]. rewrite read_ipv6_mapped by done. rewrite <- E. by rewrite Hoct. }
  pose proof (zero_run_spec (v6_segments o) [] (v6_segments o) (0%nat, 0%nat) (0%nat, 0%nat) eq_refl) as Hz. cbn [length] in Hz.
  destruct (zero_run 0 (v6_segments o) (0%nat, 0%nat) (0%nat, 0%nat)) as [start n]. destruct Hz as (p & t & E & Hp);
    [by left|exists [], (v6_segments o); by split; [|left]|].
  rewrite !join_groups. destruct (Nat.ltb_spec 1 n) as [Hn|Hn].
  - destruct Hp as [Hp|]; [|lia]. rewrite E in *. apply Forall_app in Hu as [Hup [_ Hut]%Forall_app].
    assert (drop (length p + n) (p ++ replicate n 0 ++ t) = t) as Hd
      by (rewrite app_assoc; apply drop_app_length'; by rewrite length_app, length_replicate).
    rewrite <- Hp, take_app_length, Hd.
    rewrite (read_ipv6_run p n t) by done. by rewrite Hoct.
  - unfold read_ipv6_addr. pose proof (read_groups_text (v6_segments o) 8 0 []) as R. rewrite app_nil_r in R.
    rewrite R; [|lia|done|set_solver|done|by left]. rewrite H8. cbn [Nat.eqb]. by rewrite Hoct.
Qed.

(** ** The handshake *)
Definition same_destination (a b : str) : Prop :=
  match parse_v4 a, parse_v6 a with
  | Some o, _ => parse_v4 b = Some o
  | None, Some o => parse_v6 b = Some o
  | None, None => b = a
  end.

Lemma parse_v4_string o : length o = 4%nat -> bytes_ok o -> parse_v4 (ipv4_string o) = Some o.
Proof.
  intros Hl Ho. destruct o as [|a [|b [|c [|d [|? ?]]]]]; try done. cbn [ipv4_string]. do 4 (apply Forall_cons in Ho as [? Ho]).
  unfold parse_v4. rewrite <- (app_nil_r (dotted_quad a b c d)), read_ipv4_quad by done. done.
Qed.

(** The address part of a request, as the server takes it. *)
Lemma socks5_address_spec atyp addr host port st rest k :
  only_bytes st -> flat st = addr ++ be_bytes 2 port ++ rest -> is_u16 port ->
  (atyp = 1 /\ length addr = 4%nat /\ host = ipv4_string addr \/
   atyp = 4 /\ length addr = 16%nat /\ host = ipv6_string addr \/
   atyp = 3 /\ exists name, addr = len name :: name /\ host = from_utf8_lossy name) ->
  exists st', socks5_address atyp st k = k host port st' /\ flat st' = rest /\ only_bytes st'.
Proof.
  intros Ho Hf Hp Ha.
  assert (forall st, only_bytes st -> flat st = be_bytes 2 port ++ rest ->
    exists st', reading 2 st (fun b st => k host (be_val b) st) SoIo = k host port st' /\ flat st' = rest /\ only_bytes st') as Hport.
  { intros st1 Ho1 Hf1. destruct (read_exact_spec 2 st1 _ _ Ho1 Hf1) as (st' & E & ?); [by rewrite length_be_bytes|].
    exists st'. rewrite (reading_eq _ _ _ _ _ _ E), be_val_be_bytes_id; [done|]. unfold is_u16 in Hp. by rewrite pow256_2. }
  unfold socks5_address. destruct Ha as [(-> & Hl & ->)|[(-> & Hl & ->)|(-> & name & -> & ->)]]; cbn [Z.eqb Pos.eqb].
  - destruct (read_exact_spec 4 st addr _ Ho Hf Hl) as (st1 & E & Hf1 & Ho1). rewrite (reading_eq _ _ _ _ _ _ E). by apply Hport.
  - destruct (read_exact_spec 16 st addr _ Ho Hf Hl) as (st1 & E & Hf1 & Ho1). rewrite (reading_eq _ _ _ _ _ _ E). by apply Hport.
  - destruct (read_exact_spec 1 st [len name] _ Ho Hf eq_refl) as (st1 & E & Hf1 & Ho1). rewrite (reading_eq _ _ _ _ _ _ E).
    change (byte_at 0 [len name]) with (len name). unfold len at 1. rewrite Nat2Z.id.
    destruct (read_exact_spec _ st1 name _ Ho1 Hf1 eq_refl) as (st2 & E2 & Hf2 & Ho2). rewrite (reading_eq _ _ _ _ _ _ E2). by apply Hport.
Qed.

Lemma connect_request_inv host port req : str_ok host -> connect_request host port = Some req ->
  exists atyp addr host', req = [5; 1; 0; atyp] ++ addr ++ be_bytes 2 port /\ same_destination host host' /\
    (atyp = 1 /\ length addr = 4%nat /\ host' = ipv4_string addr \/
     atyp = 4 /\ length addr = 16%nat /\ host' = ipv6_string addr \/
     atyp = 3 /\ exists name, addr = len name :: name /\ host' = from_utf8_lossy name).
Proof.
  intros Hs. unfold connect_request, same_destination. destruct (parse_v4 host) as [o|] eqn:E4.
  { intros [= <-]. destruct (parse_v4_ok _ _ E4) as [Hl Ho]. exists 1, o, (ipv4_string o). split_and!; [done|by apply parse_v4_string|left; by split_and!]. }
  destruct (parse_v6 host) as [o|] eqn:E6.
  { intros [= <-]. destruct (parse_v6_ok _ _ E6) as [Hl Ho]. exists 4, o, (ipv6_string o).
    split_and!; [done|by apply parse_v6_string|right; left; by split_and!]. }
  destruct (255 <? len (as_bytes host)); [done|]. intros [= <-]. exists 3, (len (as_bytes host) :: as_bytes host), host.
  split_and!; [done|done|]. right. right. split; [done|]. exists (as_bytes host). split; [done|]. by rewrite from_utf8_lossy_as_bytes.
Qed.

(** Claim C25: the SOCKS5 client and the SOCKS5 server of the program understand each other.
    Whatever the sizes of the reads, the server answers the greeting with no-authentication,
    takes from the client's request exactly the destination the client asked for (the same
    IPv4 or IPv6 address, however it was written, or the same host name) and its port, and
    leaves the bytes that follow for the tunnel; and the client accepts the server's two
    answers and leaves what follows them. *)
Theorem socks5_client_server (host : str) (port : Z) (req rest : bytes) (up down : Stream)
  (Hs : str_ok host) (Hp : is_u16 port) (Hreq : connect_request host port = Some req)
  (Hup : only_bytes up) (Hupf : flat up = connect_greeting ++ req ++ rest)
  (Hdown : only_bytes down) (Hdownf : flat down = [5; 0] ++ socks5_fail 0 ++ rest) :
  (exists host' up', socks5_handshake up = ([[5; 0]], SoConnect host' port up') /\ flat up' = rest /\ same_destination host host') /\
  (exists down', socks5_connect_via host port down = ([connect_greeting; req], Some down') /\ flat down' = rest).
Proof.
  split.
  - destruct (connect_request_inv host port req Hs Hreq) as (atyp & addr & host' & -> & Hsame & Ha).
    change (connect_greeting ++ ?x) with ([5; 1] ++ [0] ++ x) in Hupf. unfold socks5_handshake.
    destruct (read_exact_spec 2 up _ _ Hup Hupf eq_refl) as (st1 & E1 & Hf1 & Ho1). rewrite (reading_eq _ _ _ _ _ _ E1).
    change (negb (byte_at 0 [5; 1] =? 5)) with false. change (Z.to_nat (byte_at 1 [5; 1])) with 1%nat. cbn iota.
    destruct (read_exact_spec 1 st1 _ _ Ho1 Hf1 eq_refl) as (st2 & E2 & Hf2 & Ho2). rewrite (reading_eq _ _ _ _ _ _ E2). cbn [existsb Z.eqb orb negb].
    rewrite <- !app_assoc in Hf2. destruct (read_exact_spec 4 st2 [5; 1; 0; atyp] _ Ho2 Hf2 eq_refl) as (st3 & E3 & Hf3 & Ho3).
    rewrite (reading_eq _ _ _ _ _ _ E3). change (negb (byte_at 0 [5; 1; 0; atyp] =? 5)) with false. change (byte_at 1 [5; 1; 0; atyp]) with 1.
    change (byte_at 3 [5; 1; 0; atyp]) with atyp. cbn [Z.eqb Pos.eqb negb andb].
    destruct (socks5_address_spec atyp addr host' port st3 rest (fun host port st => ([], SoConnect host port st)) Ho3 Hf3 Hp Ha) as (st4 & -> & Hf4 & Ho4).
    exists host', st4. by split_and!.
  - unfold socks5_connect_via. destruct (read_exact_spec 2 down _ _ Hdown Hdownf eq_refl) as (st1 & E1 & Hf1 & Ho1). rewrite (reading_eq _ _ _ _ _ _ E1).
    change (negb (byte_at 0 [5; 0] =? 5) || negb (byte_at 1 [5; 0] =? 0)) with false. cbn iota. rewrite Hreq.
    change (socks5_fail 0 ++ rest) with ([5; 0; 0; 1] ++ [0; 0; 0; 0; 0; 0] ++ rest) in Hf1.
    destruct (read_exact_spec 4 st1 _ _ Ho1 Hf1 eq_refl) as (st2 & E2 & Hf2 & Ho2). rewrite (reading_eq _ _ _ _ _ _ E2).
    change (negb (byte_at 0 [5; 0; 0; 1] =? 5) || negb (byte_at 1 [5; 0; 0; 1] =? 0)) with false. change (byte_at 3 [5; 0; 0; 1] =? 1) with true. cbn iota.
    destruct (read_exact_spec 6 st2 _ _ Ho2 Hf2 eq_refl) as (st3 & E3 & Hf3 & Ho3). rewrite (reading_eq _ _ _ _ _ _ E3).
    by exists st3.
Qed.

(** An IPv6 destination in a long spelling, read byte by byte and in one piece. *)
Lemma socks5_client_server_witness :
  exists host' up', socks5_handshake ((fun b => RdBytes [b]) <$> connect_greeting ++ [5; 1; 0; 4; 0x20; 1; 0xd; 0xb8; 0; 0; 0; 0; 0; 0; 0; 0; 0; 0; 0; 1] ++ [1; 187] ++ [7])
    = ([[5; 0]], SoConnect host' 443 up') /\ flat up' = [7] /\ same_destination (lit "2001:0db8:0:0:0:0:0:1") host'.
Proof.
  refine (proj1 (socks5_client_server (lit "2001:0db8:0:0:0:0:0:1") 443
    ([5; 1; 0; 4; 0x20; 1; 0xd; 0xb8; 0; 0; 0; 0; 0; 0; 0; 0; 0; 0; 0; 1] ++ [1; 187]) [7]
    ((fun b => RdBytes [b]) <$> connect_greeting ++ [5; 1; 0; 4; 0x20; 1; 0xd; 0xb8; 0; 0; 0; 0; 0; 0; 0; 0; 0; 0; 0; 1] ++ [1; 187] ++ [7])
    [RdBytes ([5; 0] ++ socks5_fail 0 ++ [7])] _ _ _ _ _ _ _)).
  - repeat constructor; unfold char_ok; lia.
  - unfold is_u16. lia.
  - vm_compute. reflexivity.
  - repeat constructor; eexists; split; [reflexivity|done|..]; reflexivity || done.
  - reflexivity.
  - repeat constructor. eexists. by split.
  - reflexivity.
Defined.

(** ** UDP datagrams *)
Definition udp_target_ok (t : SocksUdpTarget) : Prop :=
  is_u16 (u_port t) /\ bytes_ok (u_addr t) /\
  (u_atyp t = 1 /\ length (u_addr t) = 4%nat /\ u_host t = ipv4_string (u_addr t) \/
   u_atyp t = 4 /\ length (u_addr t) = 16%nat /\ u_host t = ipv6_string (u_addr t) \/
   u_atyp t = 3 /\ (1 <= length (u_addr t) <= 255)%nat /\ from_utf8 (u_addr t) = Some (u_host t)).

Lemma slice_at (a b c : bytes) n m : length a = n -> length b = m -> buf_slice (a ++ b ++ c) n m = Ok b.
Proof.
  intros <- <-. unfold buf_slice. rewrite !length_app. destruct (Nat.leb_spec (length a + length b) (length a + (length b + length c))); [|lia].
  by rewrite drop_app_length, take_app_length.
Qed.

Lemma byte_index_at (a b : bytes) x n : length a = n -> byte_index (a ++ x :: b) n = Ok x.
Proof. intros <-. unfold byte_index. by rewrite list_lookup_middle. Qed.

(** The header of a datagram, whatever its address. *)
Definition udp_header (t : SocksUdpTarget) : bytes :=
  [0; 0; 0; u_atyp t] ++ (if u_atyp t =? 3 then wrap 8 (len (u_addr t)) :: u_addr t else u_addr t) ++ be_bytes 2 (u_port t).

Lemma build_header t p : build_socks5_udp_packet t p = udp_header t ++ p.
Proof. unfold build_socks5_udp_packet, udp_header. by rewrite <- !app_assoc. Qed.

Lemma be2 n : is_u16 n -> exists h l, be_bytes 2 n = [h; l] /\ be_val [h; l] = n.
Proof.
  intros Hn. eexists _, _. split; [reflexivity|]. change [?x; ?y] with (be_bytes 2 n) at 1. apply be_val_be_bytes_id.
  unfold is_u16 in Hn. by rewrite pow256_2.
Qed.

Lemma parse_offsets_build t p : udp_target_ok t ->
  parse_socks5_udp_packet_offsets (udp_header t ++ p) = Ok (t, length (udp_header t)).
Proof.
  destruct t as [host port atyp addr]. unfold udp_target_ok, udp_header. cbn [u_host u_port u_atyp u_addr].
  intros (Hp & Ho & Hcase). destruct (be2 port Hp) as (h & l & Eb & Ev). rewrite Eb.
  destruct Hcase as [(-> & Hl & ->)|[(-> & Hl & ->)|(-> & Hl & Hu)]]; cbn [Z.eqb Pos.eqb].
  - destruct addr as [|a [|b [|c [|d [|? ?]]]]]; try done. cbn -[ipv4_string be_val]. by rewrite Ev.
  - do 16 (destruct addr as [|? addr]; [done|]). destruct addr; [|done]. cbn -[ipv6_string be_val]. by rewrite Ev.
  - assert (wrap 8 (len addr) = len addr) as -> by (apply wrap_small; unfold len; lia).
    rewrite <- !app_assoc. change ((len addr :: addr) ++ ?x) with ([len addr] ++ addr ++ x). set (buf := [0; 0; 0; 3] ++ _).
    assert (length buf = (4 + (1 + (length addr + (2 + length p))))%nat) as Hlen by (subst buf; by rewrite !length_app).
    unfold parse_socks5_udp_packet_offsets. rewrite Hlen. destruct (Nat.ltb_spec (4 + (1 + (length addr + (2 + length p)))) 4); [lia|].
    change (byte_index buf 0) with (@Ok Z unit 0). change (byte_index buf 1) with (@Ok Z unit 0). change (byte_index buf 2) with (@Ok Z unit 0).
    change (byte_index buf 3) with (@Ok Z unit 3). cbn [res_bind Z.eqb Pos.eqb negb orb].
    destruct (Nat.ltb_spec (4 + (1 + (length addr + (2 + length p)))) (4 + 1)); [lia|].
    change (byte_index buf 4) with (@Ok Z unit (len addr)). cbn [res_bind]. assert (Z.to_nat (len addr) = length addr) as -> by (unfold len; lia).
    destruct (Nat.eqb_spec (length addr) 0); [lia|]. cbn [orb].
    destruct (Nat.ltb_spec (4 + (1 + (length addr + (2 + length p)))) (5 + length addr + 2)); [lia|].
    assert (buf = ([0; 0; 0; 3] ++ [len addr]) ++ addr ++ h :: l :: p) as Ebuf by (subst buf; by rewrite <- app_assoc).
    rewrite Ebuf, (slice_at _ addr) by done. cbn [res_bind]. rewrite Hu. cbn [res_bind].
    rewrite app_assoc. rewrite (byte_index_at (_ ++ addr)) by (rewrite !length_app; cbn; lia). cbn [res_bind].
    change (h :: l :: p) with ([h] ++ l :: p). rewrite app_assoc, (byte_index_at (_ ++ [h])) by (rewrite !length_app; cbn; lia). cbn [res_bind].
    rewrite Ev. do 2 f_equal. rewrite !length_app. cbn [length]. lia.
Qed.

Lemma be2_inv h l : is_u8 h -> is_u8 l -> be_bytes 2 (be_val [h; l]) = [h; l] /\ is_u16 (be_val [h; l]).
Proof.
  intros Hh Hl. assert (bytes_ok [h; l]) as Ho by (by repeat (apply Forall_cons; split)). split; [by apply (be_bytes_be_val [h; l])|].
  unfold is_u16. rewrite <- pow256_2. by apply be_val_bound.
Qed.

(** [buf] is a header and what follows it. *)
Definition header_of (buf : bytes) (r : res (SocksUdpTarget * nat) unit) : Prop :=
  match r with
  | Panic => False
  | Err _ => True
  | Ok (t, off) => udp_target_ok t /\ exists p, buf = udp_header t ++ p /\ off = length (udp_header t)
  end.

Lemma split_at_length {A} n (l : list A) : (n <= length l)%nat -> exists a b, l = a ++ b /\ length a = n.
Proof. intros H. exists (take n l), (drop n l). rewrite take_drop, length_take. split; [done|lia]. Qed.

(** The end of the parser: the port behind an address at [pos], the header's bytes being
    [[0; 0; 0; atyp] ++ pre ++ addr]. *)
Lemma header_end host atyp pre addr h l p : bytes_ok (addr ++ h :: l :: p) ->
  udp_target_ok (mkTarget host (be_val [h; l]) atyp addr) ->
  (if atyp =? 3 then wrap 8 (len addr) :: addr else addr) = pre ++ addr ->
  let buf := [0; 0; 0; atyp] ++ pre ++ addr ++ h :: l :: p in
  let pos := (4 + length pre + length addr)%nat in
  header_of buf (let? h := byte_index buf pos in let? l := byte_index buf (S pos) in
    Ok (mkTarget host (be_val [h; l]) atyp addr, (pos + 2)%nat)).
Proof.
  intros Ho Hok Hpre buf pos. apply Forall_app in Ho as [Hoa [Hh [Hl _]%Forall_cons]%Forall_cons]. destruct (be2_inv h l Hh Hl) as [Eb Hu].
  assert (buf = ([0; 0; 0; atyp] ++ pre ++ addr) ++ h :: l :: p) as E1 by (subst buf; by rewrite <- !app_assoc).
  assert (buf = (([0; 0; 0; atyp] ++ pre ++ addr) ++ [h]) ++ l :: p) as E2 by (rewrite <- (app_assoc _ [h]); exact E1).
  assert (byte_index buf pos = Ok h) as -> by (rewrite E1; apply byte_index_at; rewrite !length_app; cbn [length]; lia).
  assert (byte_index buf (S pos) = Ok l) as -> by (rewrite E2; apply byte_index_at; rewrite !length_app; cbn [length]; lia).
  cbn [res_bind header_of]. split; [exact Hok|]. exists p. unfold udp_header. cbn [u_atyp u_addr u_port].
  rewrite Hpre, Eb. split; [by rewrite E1, <- !app_assoc|]. rewrite !length_app. cbn [length]. subst pos. lia.
Qed.

Lemma header_ip (host : bytes -> str) atyp n buf : bytes_ok buf -> (atyp =? 3) = false -> (n + 2 <= length buf)%nat ->
  (forall addr h l, length addr = n -> bytes_ok addr -> is_u8 h -> is_u8 l -> udp_target_ok (mkTarget (host addr) (be_val [h; l]) atyp addr)) ->
  header_of (0 :: 0 :: 0 :: atyp :: buf)
    (let? r := (let? addr := buf_slice (0 :: 0 :: 0 :: atyp :: buf) 4 n in Ok (host addr, addr, (4 + n)%nat)) in
     let '(host, addr, pos) := r in
     let? h := byte_index (0 :: 0 :: 0 :: atyp :: buf) pos in let? l := byte_index (0 :: 0 :: 0 :: atyp :: buf) (S pos) in
     Ok (mkTarget host (be_val [h; l]) atyp addr, (pos + 2)%nat)).
Proof.
  intros Ho H3 Hn Hok. destruct (split_at_length n buf) as (addr & rest & -> & Hl); [lia|]. rewrite length_app in Hn.
  destruct rest as [|h [|l p]]; [cbn in Hn; lia|cbn in Hn; lia|].
  change (buf_slice (0 :: 0 :: 0 :: atyp :: addr ++ h :: l :: p) 4 n) with (buf_slice ([0; 0; 0; atyp] ++ addr ++ h :: l :: p) 4 n).
  rewrite slice_at by done. cbn [res_bind]. rewrite <- Hl.
  change (0 :: 0 :: 0 :: atyp :: addr ++ h :: l :: p) with ([0; 0; 0; atyp] ++ [] ++ addr ++ h :: l :: p).
  apply (header_end (host addr) atyp [] addr h l p Ho); [|by rewrite H3].
  apply Forall_app in Ho as [Hoa [Hh [Hlo _]%Forall_cons]%Forall_cons]. by apply Hok.
Qed.

Lemma header_name buf : bytes_ok buf ->
  header_of (0 :: 0 :: 0 :: 3 :: buf)
    (let? r := (if (length (0 :: 0 :: 0 :: 3 :: buf)%Z <? 4 + 1)%nat then Err tt else
       let? l := byte_index (0 :: 0 :: 0 :: 3 :: buf) 4 in let n := Z.to_nat l in
       if (n =? 0)%nat || (length (0 :: 0 :: 0 :: 3 :: buf)%Z <? 5 + n + 2)%nat then Err tt else
       let? addr := buf_slice (0 :: 0 :: 0 :: 3 :: buf) 5 n in
       match from_utf8 addr with Some host => Ok (host, addr, (5 + n)%nat) | None => Err tt end) in
     let '(host, addr, pos) := r in
     let? h := byte_index (0 :: 0 :: 0 :: 3 :: buf) pos in let? l := byte_index (0 :: 0 :: 0 :: 3 :: buf) (S pos) in
     Ok (mkTarget host (be_val [h; l]) 3 addr, (pos + 2)%nat)).
Proof.
  intros Ho. destruct (Nat.ltb_spec (length (0 :: 0 :: 0 :: 3 :: buf)%Z) (4 + 1)); [done|]. destruct buf as [|n buf]; [cbn in *; lia|].
  apply Forall_cons in Ho as [Hn Ho]. change (byte_index (0 :: 0 :: 0 :: 3 :: n :: buf) 4) with (@Ok Z unit n). cbn [res_bind].
  destruct (Nat.eqb_spec (Z.to_nat n) 0); [done|]. cbn [orb].
  destruct (Nat.ltb_spec (length (0 :: 0 :: 0 :: 3 :: n :: buf)%Z) (5 + Z.to_nat n + 2)); [done|]. cbn [length] in *.
  destruct (split_at_length (Z.to_nat n) buf) as (addr & rest & -> & Hl); [lia|]. rewrite length_app in *.
  destruct rest as [|h [|l p]]; [cbn in *; lia|cbn in *; lia|]. unfold is_u8 in Hn.
  change (buf_slice (0 :: 0 :: 0 :: 3 :: n :: addr ++ h :: l :: p) 5 ?k) with (buf_slice ([0; 0; 0; 3; n] ++ addr ++ h :: l :: p) 5 k).
  rewrite slice_at by done. cbn [res_bind].
  destruct (from_utf8 addr) as [host|] eqn:Eu; [|done]. cbn [res_bind]. rewrite <- Hl.
  change (0 :: 0 :: 0 :: 3 :: n :: addr ++ h :: l :: p) with ([0; 0; 0; 3] ++ [n] ++ addr ++ h :: l :: p).
  apply (header_end host 3 [n] addr h l p Ho).
  - apply Forall_app in Ho as [Hoa [Hh [Hlo _]%Forall_cons]%Forall_cons]. destruct (be2_inv h l Hh Hlo) as [_ Hu].
    unfold udp_target_ok. cbn [u_host u_port u_atyp u_addr]. split_and!; [done|done|]. right. right. split_and!; [done|lia|lia|done].
  - cbn [Z.eqb Pos.eqb app]. f_equal. unfold len. rewrite Hl, wrap_small; lia.
Qed.

Lemma parse_offsets_inv buf : bytes_ok buf -> header_of buf (parse_socks5_udp_packet_offsets buf).
Proof.
  intros Ho. unfold parse_socks5_udp_packet_offsets. destruct (Nat.ltb_spec (length buf) 4); [done|].
  destruct buf as [|b0 [|b1 [|b2 [|atyp buf]]]]; try (cbn in *; lia). do 4 (apply Forall_cons in Ho as [? Ho]).
  change (byte_index (b0 :: b1 :: b2 :: atyp :: buf) 0) with (@Ok Z unit b0). change (byte_index (b0 :: b1 :: b2 :: atyp :: buf) 1) with (@Ok Z unit b1).
  change (byte_index (b0 :: b1 :: b2 :: atyp :: buf) 2) with (@Ok Z unit b2). change (byte_index (b0 :: b1 :: b2 :: atyp :: buf) 3) with (@Ok Z unit atyp).
  cbn [res_bind]. destruct (Z.eqb_spec b0 0) as [->|], (Z.eqb_spec b1 0) as [->|], (Z.eqb_spec b2 0) as [->|]; try done. cbn [negb orb].
  destruct (Z.eqb_spec atyp 1) as [->|].
  { destruct (Nat.ltb_spec (length (0 :: 0 :: 0 :: 1 :: buf)%Z) (4 + 4 + 2)); [done|].
    apply (header_ip ipv4_string 1 4); [done|done|cbn [length] in *; lia|]. intros addr h l Hl Hoa Hh Hlo.
    destruct (be2_inv h l Hh Hlo) as [_ Hu]. unfold udp_target_ok. cbn. split_and!; [done|done|]. by left. }
  destruct (Z.eqb_spec atyp 3) as [->|]; [by apply header_name|]. destruct (Z.eqb_spec atyp 4) as [->|]; [|done].
  destruct (Nat.ltb_spec (length (0 :: 0 :: 0 :: 4 :: buf)%Z) (4 + 16 + 2)); [done|].
  apply (header_ip ipv6_string 4 16); [done|done|cbn [length] in *; lia|]. intros addr h l Hl Hoa Hh Hlo.
  destruct (be2_inv h l Hh Hlo) as [_ Hu]. unfold udp_target_ok. cbn. split_and!; [done|done|]. right. by left.
Qed.

Lemma header_slice t p : buf_slice (udp_header t ++ p) (length (udp_header t)) (length (udp_header t ++ p) - length (udp_header t)) = Ok p.
Proof.
  pose proof (slice_at (udp_header t) p [] _ (length (udp_header t ++ p) - length (udp_header t)) eq_refl) as E.
  rewrite app_nil_r in E. apply E. rewrite length_app. lia.
Qed.

(** The UDP datagram format of SOCKS5 is parsed and built without loss.  No
    datagram makes the parser index out of range; what a client sends for a well-formed
    target is parsed to the target and the payload; and a datagram that is accepted is the
    one built for a well-formed target and payload, so a reply built for the target of a
    request carries the very address bytes the client had used. *)
Theorem udp_packet_roundtrip (buf : bytes) (Hb : bytes_ok buf) :
  parse_socks5_udp_packet buf <> Panic /\
  (forall t p, udp_target_ok t -> parse_socks5_udp_packet (build_socks5_udp_packet t p) = Ok (t, p)) /\
  (forall t p, parse_socks5_udp_packet buf = Ok (t, p) -> udp_target_ok t /\ build_socks5_udp_packet t p = buf).
Proof.
  pose proof (parse_offsets_inv buf Hb) as Hh. unfold parse_socks5_udp_packet. split_and!.
  - destruct (parse_socks5_udp_packet_offsets buf) as [[t off]|e|]; [|done|done]. destruct Hh as (_ & p & -> & ->). cbn [res_bind]. by rewrite header_slice.
  - intros t p Ht. rewrite build_header, parse_offsets_build by done. cbn [res_bind]. by rewrite header_slice.
  - intros t p. destruct (parse_socks5_udp_packet_offsets buf) as [[t' off]|e|]; [|done|done]. destruct Hh as (Hok & q & -> & ->). cbn [res_bind].
    rewrite header_slice. cbn [res_bind]. intros [= <- <-]. split; [done|]. apply build_header.
Qed.

(** A DNS query to a resolver by name. *)
Lemma udp_packet_roundtrip_witness : exists t,
  parse_socks5_udp_packet [0; 0; 0; 3; 2; 97; 98; 0; 53; 9] = Ok (t, [9]) /\ build_socks5_udp_packet t [9] = [0; 0; 0; 3; 2; 97; 98; 0; 53; 9].
Proof.
  exists (mkTarget (lit "ab") 53 3 [97; 98]). split; [vm_compute; reflexivity|].
  destruct (udp_packet_roundtrip [0; 0; 0; 3; 2; 97; 98; 0; 53; 9]) as (_ & _ & H).
  - repeat (apply Forall_cons; split; [unfold is_u8; lia|]). constructor.
  - apply H. vm_compute. reflexivity.
Defined.
