(* ===== verification/Socks5Udp.v ===== *)
(** * src/proxy_server.rs: SOCKS5 UDP ASSOCIATE

    [UdpRelayState] and its operations, the dispatch loop of
    [handle_socks5_udp_associate] and the tasks of its sessions ([udp_session_task]), as a
    machine of events.  The loop handles one datagram up to its [udp_open], which it awaits,
    and the rest when the answer is there; a task takes an uplink datagram or polls, and goes
    on when the answer is there.  A task's channel is open while the table holds its sender;
    the table is behind a mutex held for one operation at a time.  Times are milliseconds. *)

From stdpp Require Import prelude gmap.
From S2P Require Import Prelude RustStr IpAddr NodeProto TunnelLoop HttpText HostMatch Socks5.
#[local] Open Scope Z_scope.

#[export] Instance SocksUdpTarget_countable : Countable SocksUdpTarget.
Proof.
  refine (inj_countable' (fun t => (u_host t, u_port t, u_atyp t, u_addr t)) (fun '(h, p, a, b) => mkTarget h p a b) _). by intros [].
Defined.

Definition UDP_UPLINK_QUEUE : nat := 64.
Definition UDP_INITIAL_POLL_DELAY : Z := 500.
Definition UDP_MAX_POLL_DELAY : Z := 30 * 1000.
Definition UDP_SESSION_IDLE_TTL : Z := 120 * 1000.
Definition MAX_UDP_SESSIONS_PER_ASSOCIATE : nat := 256.
Definition MAX_UDP_PAYLOAD_BYTES : Z := 9 * 1024.

(** ** The table *)

(** [us_uplink] names the channel whose sender the entry holds. *)
Record UdpRelaySession := mkUdpSession { us_sid : str; us_uplink : nat }.
Record UdpRelayState := mkUdpState { ut_sessions : gmap SocksUdpTarget UdpRelaySession; ut_order : list SocksUdpTarget }.

Definition UdpRelayState_new : UdpRelayState := mkUdpState ∅ [].

Definition get_uplink (st : UdpRelayState) (t : SocksUdpTarget) : option nat := us_uplink <$> ut_sessions st !! t.

Definition UdpRelayState_insert (t : SocksUdpTarget) (s : UdpRelaySession) (st : UdpRelayState) : UdpRelayState :=
  mkUdpState (<[t := s]> (ut_sessions st)) (ut_order st ++ [t]).

(** [if let Some(pos) = order.iter().position(..) { order.remove(pos) }] *)
Fixpoint order_remove (t : SocksUdpTarget) (l : list SocksUdpTarget) : list SocksUdpTarget :=
  match l with [] => [] | x :: l => if bool_decide (x = t) then l else x :: order_remove t l end.

Definition UdpRelayState_remove (t : SocksUdpTarget) (st : UdpRelayState) : UdpRelayState :=
  mkUdpState (delete t (ut_sessions st)) (order_remove t (ut_order st)).

(** The loop pops one entry of the order per round. *)
Fixpoint udp_evict_loop (cap : nat) (sessions : gmap SocksUdpTarget UdpRelaySession) (order evicted : list SocksUdpTarget)
    : UdpRelayState * list SocksUdpTarget :=
  if (size sessions <? cap)%nat then (mkUdpState sessions order, evicted) else
  match order with
  | [] => (mkUdpState sessions [], evicted)
  | victim :: order =>
    if bool_decide (is_Some (sessions !! victim)) then udp_evict_loop cap (delete victim sessions) order (evicted ++ [victim])
    else udp_evict_loop cap sessions order evicted
  end.

Definition evict_until_under (cap : nat) (st : UdpRelayState) : UdpRelayState * list SocksUdpTarget :=
  udp_evict_loop cap (ut_sessions st) (ut_order st) [].

Definition live_sids (st : UdpRelayState) : list str := us_sid <$> (map_to_list (ut_sessions st)).*2.

(** ** A session's task *)
Definition Peer : Type := IpAddr * Z.

(** Waiting in its [select!] until the poll's deadline, or for the answer of a call. *)
Inductive TaskPhase := TkWaiting (deadline : Z) | TkFlying.
Record UdpTask := mkUdpTask {
  k_id : nat; k_target : SocksUdpTarget; k_sid : str; k_peer : Peer;
  k_queue : list bytes; k_backoff : Z; k_last : Z; k_phase : TaskPhase }.

Definition udp_session_idle_remaining (last_activity now : Z) : option Z :=
  let elapsed := saturating_sub now last_activity in
  if UDP_SESSION_IDLE_TTL <=? elapsed then None else Some (UDP_SESSION_IDLE_TTL - elapsed).

Inductive UdpEffect :=
| UOpen (id : nat) (t : SocksUdpTarget) (payload : bytes)   (* [mux.udp_open] *)
| UPush (id : nat) (payload : bytes)                         (* into a channel *)
| UUplink (id : nat) (sid : str) (payload : bytes)           (* [mux.udp_data] of a datagram *)
| UPoll (sid : str)                                          (* [mux.udp_data] of nothing *)
| UClose (sid : str)                                         (* [mux.close_session] *)
| USend (peer : Peer) (datagram : bytes).                    (* to the client *)

(** The head of the loop: the next wait, [None] when the session has been idle for too long. *)
Definition task_wait (now : Z) (t : UdpTask) : option UdpTask :=
  rem ← udp_session_idle_remaining (k_last t) now;
  Some (mkUdpTask (k_id t) (k_target t) (k_sid t) (k_peer t) (k_queue t) (k_backoff t) (k_last t)
          (TkWaiting (now + Z.min (k_backoff t) rem))).

Section machine.
Context {B : Base64} (client_ip : IpAddr) (block_quic block_stun : bool).

Definition send_udp_response_packets (peer : Peer) (target : SocksUdpTarget) (resp : TunnelResponse) : list UdpEffect :=
  match decode_udp_packets resp with
  | Ok packets => (fun p => USend peer (build_socks5_udp_packet target p)) <$> packets
  | _ => []
  end.

Inductive TaskEvent :=
| TkUplink (now : Z)                                  (* a datagram is in the channel *)
| TkClosed                                            (* the channel is closed and empty *)
| TkPoll (now : Z)                                    (* the deadline has passed *)
| TkReply (now : Z) (r : option TunnelResponse).      (* the answer, [None] for an error *)

(** One step of a task, given whether its channel's sender is alive: what it does, and
    the task, [None] when its loop ends; outer [None] when the event cannot happen. *)
Definition task_step (alive : bool) (ev : TaskEvent) (t : UdpTask) : option (list UdpEffect * option UdpTask) :=
  match ev, k_phase t with
  | TkUplink now, TkWaiting _ =>
    match k_queue t with
    | [] => None
    | p :: q => Some ([UUplink (k_id t) (k_sid t) p],
                      Some (mkUdpTask (k_id t) (k_target t) (k_sid t) (k_peer t) q UDP_INITIAL_POLL_DELAY now TkFlying))
    end
  | TkClosed, TkWaiting _ => if bool_decide (k_queue t = []) && negb alive then Some ([], None) else None
  | TkPoll now, TkWaiting d =>
    if bool_decide (k_queue t = []) && alive && (d <=? now)
    then Some ([UPoll (k_sid t)],
               Some (mkUdpTask (k_id t) (k_target t) (k_sid t) (k_peer t) [] (k_backoff t) (k_last t) TkFlying))
    else None
  | TkReply now r, TkFlying =>
    match r with
    | None => Some ([], None)
    | Some resp =>
      if bool_decide (is_Some (r_e resp)) || default false (r_eof resp) then Some ([], None) else
      if match r_pkts resp with Some (_ :: _) => true | _ => false end then
        Some (send_udp_response_packets (k_peer t) (k_target t) resp,
              task_wait now (mkUdpTask (k_id t) (k_target t) (k_sid t) (k_peer t) (k_queue t) UDP_INITIAL_POLL_DELAY now TkFlying))
      else
        Some ([], task_wait now (mkUdpTask (k_id t) (k_target t) (k_sid t) (k_peer t) (k_queue t)
                                   (Z.min (k_backoff t * 2) UDP_MAX_POLL_DELAY) (k_last t) TkFlying))
    end
  | _, _ => None
  end.

(** ** The dispatch loop *)
Record Assoc := mkAssoc {
  as_table : UdpRelayState;
  as_client : option Peer;
  as_pending : option (SocksUdpTarget * Peer);   (* the [udp_open] awaited *)
  as_tasks : list UdpTask;
  as_next : nat }.

Definition Assoc_new : Assoc := mkAssoc UdpRelayState_new None None [] 0.

Definition set_tasks (ts : list UdpTask) (a : Assoc) : Assoc :=
  mkAssoc (as_table a) (as_client a) (as_pending a) ts (as_next a).

(** [uplink.try_send(payload)]: full or without a receiver, the datagram is dropped. *)
Definition push_queue (id : nat) (payload : bytes) (t : UdpTask) : UdpTask :=
  if (k_id t =? id)%nat && (length (k_queue t) <? UDP_UPLINK_QUEUE)%nat
  then mkUdpTask (k_id t) (k_target t) (k_sid t) (k_peer t) (k_queue t ++ [payload]) (k_backoff t) (k_last t) (k_phase t)
  else t.

Definition try_send (id : nat) (payload : bytes) (a : Assoc) : list UdpEffect * Assoc :=
  (if existsb (fun t => (k_id t =? id)%nat && (length (k_queue t) <? UDP_UPLINK_QUEUE)%nat) (as_tasks a) then [UPush id payload] else [],
   set_tasks (push_queue id payload <$> as_tasks a) a).

(** The [recv_from] arm, up to the answer of [udp_open]. *)
Definition on_datagram (peer : Peer) (buf : bytes) (a : Assoc) : res (list UdpEffect * Assoc) unit :=
  if negb (bool_decide (fst peer = client_ip)) then Ok ([], a) else
  match parse_socks5_udp_packet_offsets buf with
  | Panic => Panic
  | Err _ => Ok ([], a)
  | Ok (target, off) =>
    let? payload := buf_slice buf off (length buf - off) in
    if block_quic && (u_port target =? 443) then Ok ([], a)
    else if block_stun && is_stun_turn_port (u_port target) then Ok ([], a)
    else if match as_client a with Some existing => negb (bool_decide (existing = peer)) | None => false end then Ok ([], a)
    else
      let a := mkAssoc (as_table a) (Some peer) (as_pending a) (as_tasks a) (as_next a) in
      if MAX_UDP_PAYLOAD_BYTES <? len payload then Ok ([], a) else
      match get_uplink (as_table a) target with
      | Some id => Ok (try_send id payload a)
      | None =>
        let '(table, _) := evict_until_under MAX_UDP_SESSIONS_PER_ASSOCIATE (as_table a) in
        Ok ([UOpen (as_next a) target payload], mkAssoc table (as_client a) (Some (target, peer)) (as_tasks a) (as_next a))
      end
  end.

(** ... and what is done with the answer, [None] for an error. *)
Definition on_open_reply (now : Z) (r : option TunnelResponse) (a : Assoc) : option (list UdpEffect * Assoc) :=
  '(target, peer) ← as_pending a;
  let a := mkAssoc (as_table a) (as_client a) None (as_tasks a) (as_next a) in
  match r with
  | None => Some ([], a)
  | Some resp =>
    if bool_decide (is_Some (r_e resp)) then Some ([], a) else
    match r_sid resp with
    | None => Some ([], a)
    | Some sid =>
      let sent := send_udp_response_packets peer target resp in
      if default false (r_eof resp) then Some (sent, a) else
      let id := as_next a in
      let task := mkUdpTask id target sid peer [] UDP_INITIAL_POLL_DELAY now
                    (TkWaiting (now + Z.min UDP_INITIAL_POLL_DELAY UDP_SESSION_IDLE_TTL)) in
      Some (sent, mkAssoc (UdpRelayState_insert target (mkUdpSession sid id) (as_table a)) (as_client a) None (as_tasks a ++ [task]) (S id))
    end
  end.

Definition sender_alive (a : Assoc) (t : UdpTask) : bool :=
  match ut_sessions (as_table a) !! k_target t with Some s => (us_uplink s =? k_id t)%nat | None => false end.

(** A step of the [i]th task; one that ends closes its session and removes the entry of its
    target. *)
Definition on_task (i : nat) (ev : TaskEvent) (a : Assoc) : option (list UdpEffect * Assoc) :=
  t ← as_tasks a !! i;
  '(effs, t') ← task_step (sender_alive a t) ev t;
  match t' with
  | Some t' => Some (effs, set_tasks (<[i := t']> (as_tasks a)) a)
  | None =>
    Some (effs ++ [UClose (k_sid t)],
          mkAssoc (UdpRelayState_remove (k_target t) (as_table a)) (as_client a) (as_pending a) (delete i (as_tasks a)) (as_next a))
  end.

Inductive AssocEvent := EvRecv (peer : Peer) (buf : bytes) | EvOpened (now : Z) (r : option TunnelResponse) | EvTask (i : nat) (ev : TaskEvent).

(** [None] when the event cannot happen: the loop does not receive while it awaits. *)
Definition assoc_step (ev : AssocEvent) (a : Assoc) : option (res (list UdpEffect * Assoc) unit) :=
  match ev with
  | EvRecv peer buf => if bool_decide (as_pending a = None) then Some (on_datagram peer buf a) else None
  | EvOpened now r => Ok <$> on_open_reply now r a
  | EvTask i ev => Ok <$> on_task i ev a
  end.

Fixpoint assoc_run (evs : list AssocEvent) (a : Assoc) : option (res (list UdpEffect * Assoc) unit) :=
  match evs with
  | [] => Some (Ok ([], a))
  | ev :: evs =>
    match assoc_step ev a with
    | Some (Ok (l, a)) =>
      match assoc_run evs a with
      | Some (Ok (l', a)) => Some (Ok (l ++ l', a))
      | r => r
      end
    | r => r
    end
  end.

(** The end of the control connection: the sessions of the table are closed, the tasks
    aborted wherever they wait. *)
Definition teardown (a : Assoc) : list UdpEffect := UClose <$> live_sids (as_table a).
End machine.

(** The answer to UDP ASSOCIATE: refused outside full mode and without a multiplexer. *)
Definition udp_associate_reply (full has_mux : bool) (bound : IpAddr * Z) : bytes * bool :=
  if negb full then (write_socks5_reply 7 None, false)
  else if negb has_mux then (write_socks5_reply 1 None, false)
  else (write_socks5_reply 0 (Some bound), true).
