(* ===== verification/Socks5UdpRules.v ===== *)
(** * SOCKS5 UDP ASSOCIATE, proved

    The invariant of the relay's table, tasks and client lock under every interleaving of
    datagrams, answers and tasks; the order of a session's datagrams; and two runs in which
    sessions are lost: one dropped by the end of its evicted predecessor, one never closed. *)

From stdpp Require Import prelude gmap.
From S2P Require Import Prelude RustStr IpAddr NodeProto TunnelLoop HttpText HostMatch Socks5 Socks5Udp.
#[local] Open Scope Z_scope.

(** ** The table *)
Record table_ok (st : UdpRelayState) : Prop := {
  to_nodup : NoDup (ut_order st);
  to_order t : t ∈ ut_order st <-> is_Some (ut_sessions st !! t)
}.

Lemma order_remove_spec t l : NoDup l -> NoDup (order_remove t l) /\ forall x, x ∈ order_remove t l <-> x ∈ l /\ x <> t.
Proof.
  induction 1 as [|y l Hy Hl [IHn IHe]]; cbn [order_remove]; [split; [constructor|set_solver]|]. case_bool_decide as E.
  - subst y. split; [done|]. intros x. destruct (decide (x = t)); set_solver.
  - split; [constructor; [rewrite IHe; set_solver|done]|]. intros x. rewrite !elem_of_cons, IHe. destruct (decide (x = y)); set_solver.
Qed.

Lemma table_remove t st : table_ok st -> table_ok (UdpRelayState_remove t st).
Proof.
  intros [Hn Ho]. destruct (order_remove_spec t (ut_order st) Hn) as [Hn' He]. constructor; [exact Hn'|]. intros x. cbn [ut_order ut_sessions UdpRelayState_remove].
  rewrite He, Ho. destruct (decide (x = t)) as [->|].
  - rewrite lookup_delete_eq. split; [by intros [_ ?]|by intros [? ?]].
  - rewrite lookup_delete_ne by done. naive_solver.
Qed.

Lemma table_insert t s st : table_ok st -> ut_sessions st !! t = None -> table_ok (UdpRelayState_insert t s st).
Proof.
  intros [Hn Ho] Ht. constructor; cbn [ut_order ut_sessions UdpRelayState_insert].
  - apply NoDup_app. split_and!; [done| |by apply NoDup_singleton]. intros x Hx%Ho Hin%list_elem_of_singleton. subst x. rewrite Ht in Hx. by destruct Hx.
  - intros x. rewrite elem_of_app, list_elem_of_singleton, Ho. destruct (decide (x = t)) as [->|].
    + rewrite lookup_insert_eq. naive_solver.
    + rewrite lookup_insert_ne by done. naive_solver.
Qed.

Lemma evict_loop_spec cap ss order ev : (0 < cap)%nat -> table_ok (mkUdpState ss order) ->
  let '(st, _) := udp_evict_loop cap ss order ev in
  table_ok st /\ (size (ut_sessions st) < cap)%nat /\ ut_sessions st ⊆ ss.
Proof.
  intros Hc. revert ss ev. induction order as [|v order IH]; intros ss ev Hok; cbn [udp_evict_loop].
  - destruct (Nat.ltb_spec (size ss) cap); [done|]. destruct Hok as [_ Ho]. cbn in Ho.
    assert (ss = ∅) as ->. { apply map_empty. intros t. apply eq_None_not_Some. intros Ht%Ho. by apply elem_of_nil in Ht. }
    rewrite map_size_empty in *. lia.
  - destruct (Nat.ltb_spec (size ss) cap); [done|]. destruct Hok as [Hn Ho]. cbn in Hn, Ho. apply NoDup_cons in Hn as [Hv Hn].
    assert (is_Some (ss !! v)) as Hs by (apply Ho; left). rewrite bool_decide_eq_true_2 by done.
    specialize (IH (delete v ss) (ev ++ [v])). destruct (udp_evict_loop cap (delete v ss) order (ev ++ [v])) as [st evd]. destruct IH as (H1 & H2 & H3).
    + constructor; cbn; [done|]. intros t. destruct (decide (t = v)) as [->|].
      * rewrite lookup_delete_eq. split; [done|by intros [? ?]].
      * rewrite lookup_delete_ne by done. rewrite <- Ho. set_solver.
    + split_and!; [done|done|]. etrans; [exact H3|apply delete_subseteq].
Qed.

(** ** The machine *)
Section machine.
Context {B : Base64} (client_ip : IpAddr) (block_quic block_stun : bool).

Record task_ok (client : option Peer) (k : UdpTask) : Prop := {
  tk_peer : client = Some (k_peer k);
  tk_queue : (length (k_queue k) <= UDP_UPLINK_QUEUE)%nat;
  tk_sizes : Forall (fun p => len p <= MAX_UDP_PAYLOAD_BYTES) (k_queue k);
  tk_backoff : UDP_INITIAL_POLL_DELAY <= k_backoff k <= UDP_MAX_POLL_DELAY
}.

Record assoc_ok (a : Assoc) : Prop := {
  ao_table : table_ok (as_table a);
  ao_size : (size (ut_sessions (as_table a)) <= MAX_UDP_SESSIONS_PER_ASSOCIATE)%nat;
  ao_pending t p : as_pending a = Some (t, p) -> ut_sessions (as_table a) !! t = None /\
    (size (ut_sessions (as_table a)) < MAX_UDP_SESSIONS_PER_ASSOCIATE)%nat /\ as_client a = Some p;
  ao_live t s : ut_sessions (as_table a) !! t = Some s ->
    exists k, k ∈ as_tasks a /\ k_id k = us_uplink s /\ k_target k = t /\ k_sid k = us_sid s;
  ao_ids : NoDup (k_id <$> as_tasks a) /\ Forall (fun k => (k_id k < as_next a)%nat) (as_tasks a);
  ao_tasks : Forall (task_ok (as_client a)) (as_tasks a);
  ao_client p : as_client a = Some p -> fst p = client_ip
}.

(** The datagrams put into a channel, and those sent from it. *)
Definition pushes (id : nat) (l : list UdpEffect) : list bytes :=
  l ≫= (fun e => match e with UPush i p => if (i =? id)%nat then [p] else [] | _ => [] end).
Definition uplinks (id : nat) (l : list UdpEffect) : list bytes :=
  l ≫= (fun e => match e with UUplink i _ p => if (i =? id)%nat then [p] else [] | _ => [] end).

Record chan_ok (l : list UdpEffect) (a : Assoc) : Prop := {
  co_queue k : k ∈ as_tasks a -> pushes (k_id k) l = uplinks (k_id k) l ++ k_queue k;
  co_prefix id : uplinks id l `prefix_of` pushes id l;
  co_fresh id : (as_next a <= id)%nat -> pushes id l = [] /\ uplinks id l = []
}.

(** What goes out is small enough and goes to the locked client only. *)
Definition effect_ok (a : Assoc) (e : UdpEffect) : Prop :=
  match e with
  | UOpen _ _ p | UUplink _ _ p | UPush _ p => len p <= MAX_UDP_PAYLOAD_BYTES
  | USend peer _ => as_client a = Some peer
  | UPoll _ | UClose _ => True
  end.

Lemma send_packets_ok a peer t r : as_client a = Some peer -> Forall (effect_ok a) (send_udp_response_packets peer t r).
Proof. intros H. unfold send_udp_response_packets. destruct (decode_udp_packets r); [|constructor..]. by apply Forall_fmap, Forall_true. Qed.

Lemma no_channel id l : Forall (fun e => match e with UPush _ _ | UUplink _ _ _ => False | _ => True end) l -> pushes id l = [] /\ uplinks id l = [].
Proof. induction 1 as [|e l He _ [IH1 IH2]]; [done|]. unfold pushes, uplinks in *. rewrite !bind_cons, IH1, IH2. by destruct e. Qed.

Lemma send_packets_quiet id peer t r : pushes id (send_udp_response_packets peer t r) = [] /\ uplinks id (send_udp_response_packets peer t r) = [].
Proof. apply no_channel. unfold send_udp_response_packets. destruct (decode_udp_packets r); [|constructor..]. by apply Forall_fmap, Forall_true. Qed.

(** A step's promise. *)
Definition step_ok (l : list UdpEffect) (l' : list UdpEffect) (a' : Assoc) : Prop :=
  assoc_ok a' /\ chan_ok (l ++ l') a' /\ Forall (effect_ok a') l'.

Lemma channel_app id l l' : pushes id (l ++ l') = pushes id l ++ pushes id l' /\ uplinks id (l ++ l') = uplinks id l ++ uplinks id l'.
Proof. unfold pushes, uplinks. by rewrite !bind_app. Qed.

(** Effects that do not touch a channel, tasks with the same queues. *)
Lemma chan_quiet l l' a a' : chan_ok l a -> (forall id, pushes id l' = [] /\ uplinks id l' = []) ->
  (forall k, k ∈ as_tasks a' -> exists k0, k0 ∈ as_tasks a /\ k_id k0 = k_id k /\ k_queue k0 = k_queue k) ->
  as_next a' = as_next a -> chan_ok (l ++ l') a'.
Proof.
  intros [Hq Hp Hf] Hl Ht Hn. assert (forall id, pushes id (l ++ l') = pushes id l /\ uplinks id (l ++ l') = uplinks id l) as Heq.
  { intros id. destruct (channel_app id l l') as [-> ->], (Hl id) as [-> ->]. by rewrite !app_nil_r. }
  constructor.
  - intros k (k0 & Hk0 & Hid & Hqu)%Ht. destruct (Heq (k_id k)) as [-> ->]. rewrite <- Hid, <- Hqu. by apply Hq.
  - intros id. destruct (Heq id) as [-> ->]. apply Hp.
  - intros id. rewrite Hn. destruct (Heq id) as [-> ->]. apply Hf.
Qed.

Lemma quiet_nil (id : nat) : pushes id [] = [] /\ uplinks id [] = [].
Proof. done. Qed.

Lemma lock_ok peer a : assoc_ok a -> fst peer = client_ip -> as_client a = None \/ as_client a = Some peer ->
  assoc_ok (mkAssoc (as_table a) (Some peer) (as_pending a) (as_tasks a) (as_next a)).
Proof.
  intros [Ht Hs Hp Hl Hi Hk Hc] Hip Hor. constructor; cbn [as_table as_client as_pending as_tasks as_next]; try done.
  - intros t p E. destruct (Hp t p E) as (? & ? & Hcl). split_and!; [done|done|]. destruct Hor as [Hor|Hor]; congruence.
  - eapply Forall_impl; [exact Hk|]. intros k [H1 H2 H3 H4]. constructor; [|done..]. destruct Hor; congruence.
  - by intros p [= <-].
Qed.

Lemma push_queue_id id p k : k_id (push_queue id p k) = k_id k /\ k_target (push_queue id p k) = k_target k /\ k_sid (push_queue id p k) = k_sid k.
Proof. unfold push_queue. by destruct (_ && _). Qed.

Lemma try_send_assoc id p a : assoc_ok a -> len p <= MAX_UDP_PAYLOAD_BYTES -> assoc_ok (snd (try_send id p a)).
Proof.
  intros [Ht Hs Hp Hl [Hi1 Hi2] Hk Hc] Hlen. unfold try_send, set_tasks. cbn [snd].
  constructor; cbn [as_table as_client as_pending as_tasks as_next]; try done.
  - intros t s (k & Hin & E1 & E2 & E3)%Hl. exists (push_queue id p k). destruct (push_queue_id id p k) as (-> & -> & ->).
    split_and!; [by apply list_elem_of_fmap_2|done..].
  - split; [|apply Forall_fmap; eapply Forall_impl; [exact Hi2|]; intros k Hk0; cbn; by destruct (push_queue_id id p k) as (-> & _)].
    assert (k_id <$> (push_queue id p <$> as_tasks a) = k_id <$> as_tasks a) as ->; [|done].
    rewrite <- list_fmap_compose. apply list_fmap_ext. intros i k _. cbn. apply push_queue_id.
  - apply Forall_fmap. eapply Forall_impl; [exact Hk|]. intros k [H1 H2 H3 H4]. cbn. unfold push_queue.
    destruct ((k_id k =? id)%nat && (length (k_queue k) <? UDP_UPLINK_QUEUE)%nat) eqn:E; [|by constructor].
    apply andb_true_iff in E as [_ E%Nat.ltb_lt]. constructor; cbn [k_peer k_queue k_backoff]; [done|rewrite length_app; cbn; lia| |done].
    apply Forall_app. split; [done|by apply Forall_singleton].
Qed.

Lemma task_unique ts k1 k2 : NoDup (k_id <$> ts) -> k1 ∈ ts -> k2 ∈ ts -> k_id k1 = k_id k2 -> k1 = k2.
Proof.
  intros Hn [i1 H1]%list_elem_of_lookup [i2 H2]%list_elem_of_lookup E. assert (i1 = i2) as ->; [|congruence].
  eapply (NoDup_lookup (k_id <$> ts)); [done|by rewrite list_lookup_fmap, H1|]. rewrite list_lookup_fmap, H2. cbn. congruence.
Qed.

Lemma existsb_unique (f : UdpTask -> bool) ts k : (forall k2, f k2 = true -> k_id k2 = k_id k) -> NoDup (k_id <$> ts) -> k ∈ ts ->
  existsb f ts = f k.
Proof.
  intros Hf Hn Hin. destruct (f k) eqn:Ef; [apply existsb_exists; exists k; by rewrite <- list_elem_of_In|].
  apply not_true_iff_false. intros (k2 & Hk2%list_elem_of_In & Ef2)%existsb_exists.
  assert (k2 = k) as -> by (by eapply task_unique; [done..|apply Hf]). congruence.
Qed.

Lemma try_send_chan id p l a : NoDup (k_id <$> as_tasks a) -> chan_ok l a -> (id < as_next a)%nat ->
  let '(l', a') := try_send id p a in chan_ok (l ++ l') a'.
Proof.
  intros Hi1 [Hq Hpre Hf] Hid. unfold try_send. set (fits := fun t : UdpTask => ((k_id t =? id)%nat && (length (k_queue t) <? UDP_UPLINK_QUEUE)%nat)).
  set (l' := if existsb fits (as_tasks a) then _ else _).
  assert (forall i, uplinks i (l ++ l') = uplinks i l) as Hup.
  { intros i. destruct (channel_app i l l') as [_ ->]. subst l'. destruct (existsb _ _); apply app_nil_r. }
  assert (forall i, pushes i (l ++ l') = pushes i l ++ (if (id =? i)%nat && existsb fits (as_tasks a) then [p] else [])) as Hpu.
  { intros i. destruct (channel_app i l l') as [-> _]. subst l'. destruct (existsb fits (as_tasks a)); [|by rewrite andb_false_r].
    rewrite andb_true_r. unfold pushes at 2. cbn. by rewrite app_nil_r. }
  constructor; unfold set_tasks; cbn [as_tasks as_next].
  - intros k' (k & -> & Hin)%list_elem_of_fmap. destruct (push_queue_id id p k) as (-> & _). rewrite Hup, Hpu, (Hq k Hin), <- app_assoc. f_equal.
    unfold push_queue. fold (fits k). destruct (Nat.eqb_spec id (k_id k)) as [E|E]; cbn [andb].
    + rewrite (existsb_unique fits _ k); [destruct (fits k); by rewrite ?app_nil_r| |done|done].
      intros k2 [E2%Nat.eqb_eq _]%andb_true_iff. congruence.
    + assert (fits k = false) as -> by (unfold fits; destruct (Nat.eqb_spec (k_id k) id); [congruence|done]). by rewrite app_nil_r.
  - intros i. rewrite Hup, Hpu. etrans; [apply Hpre|by apply prefix_app_r].
  - intros i Hi. rewrite Hup, Hpu. destruct (Nat.eqb_spec id i); [lia|]. cbn [andb]. rewrite app_nil_r. by apply Hf.
Qed.

Lemma try_send_ok id p l a : assoc_ok a -> chan_ok l a -> len p <= MAX_UDP_PAYLOAD_BYTES -> (id < as_next a)%nat ->
  let '(l', a') := try_send id p a in step_ok l l' a'.
Proof.
  intros Ha Hch Hlen Hid. pose proof (try_send_assoc id p a Ha Hlen) as H1. pose proof (try_send_chan id p l a (proj1 (ao_ids _ Ha)) Hch Hid) as H2.
  unfold try_send in *. split_and!; [done|done|]. destruct (existsb _ (as_tasks a)); [by apply Forall_singleton|constructor].
Qed.

Lemma same_ok l a : assoc_ok a -> chan_ok l a -> step_ok l [] a.
Proof. intros Ha Hc. split_and!; [done|by rewrite app_nil_r|constructor]. Qed.

Lemma open_ok peer t p l a : assoc_ok a -> chan_ok l a -> as_client a = Some peer -> ut_sessions (as_table a) !! t = None ->
  len p <= MAX_UDP_PAYLOAD_BYTES ->
  let '(table, _) := evict_until_under MAX_UDP_SESSIONS_PER_ASSOCIATE (as_table a) in
  step_ok l [UOpen (as_next a) t p] (mkAssoc table (as_client a) (Some (t, peer)) (as_tasks a) (as_next a)).
Proof.
  intros [Ht Hs Hp Hl Hi Hk Hc] Hch Hcl Hnone Hlen. unfold evict_until_under.
  pose proof (evict_loop_spec MAX_UDP_SESSIONS_PER_ASSOCIATE (ut_sessions (as_table a)) (ut_order (as_table a)) []) as He.
  destruct (udp_evict_loop _ _ _ _) as [table evicted]. destruct He as (H1 & H2 & H3); [unfold MAX_UDP_SESSIONS_PER_ASSOCIATE; lia|by destruct (as_table a)|].
  assert (forall x s, ut_sessions table !! x = Some s -> ut_sessions (as_table a) !! x = Some s) as Hsub by (intros x s E; by eapply lookup_weaken).
  split_and!.
  - constructor; cbn [as_table as_client as_pending as_tasks as_next]; try done; [lia| |].
    + intros x q [= <- <-]. split_and!; [|lia|done]. destruct (ut_sessions table !! t) eqn:E; [|done]. apply Hsub in E. congruence.
    + intros x s E%Hsub. by apply Hl.
  - apply (chan_quiet l _ a); [done|done| |done]. intros k Hin. by exists k.
  - by apply Forall_singleton.
Qed.

Lemma on_datagram_ok peer buf l a : assoc_ok a -> chan_ok l a -> as_pending a = None -> bytes_ok buf ->
  exists l' a', on_datagram client_ip block_quic block_stun peer buf a = Ok (l', a') /\ step_ok l l' a'.
Proof.
  intros Ha Hch Hpend Hb. unfold on_datagram. assert (exists l' a', Ok ([], a) = @Ok (list UdpEffect * Assoc) unit (l', a') /\ step_ok l l' a') as Hnop.
  { exists [], a. split; [done|by apply same_ok]. }
  case_bool_decide as Hip; cbn [negb]; [|done]. pose proof (parse_offsets_inv buf Hb) as Hh.
  destruct (parse_socks5_udp_packet_offsets buf) as [[t off]|e|]; [|done|done]. destruct Hh as (Hok & p & -> & ->).
  rewrite header_slice. cbn [res_bind]. destruct (block_quic && _); [done|]. destruct (block_stun && _); [done|].
  destruct (match as_client a with Some existing => negb (bool_decide (existing = peer)) | None => false end) eqn:Elock; [done|].
  assert (as_client a = None \/ as_client a = Some peer) as Hor.
  { destruct (as_client a) as [q|]; [|by left]. right. f_equal. by apply negb_false_iff, bool_decide_eq_true in Elock. }
  pose proof (lock_ok peer a Ha Hip Hor) as Ha'. set (a1 := mkAssoc _ (Some peer) _ _ _) in *.
  assert (chan_ok l a1) as Hch1. { rewrite <- (app_nil_r l). apply (chan_quiet l [] a); [done|done| |done]. intros k Hin. by exists k. }
  destruct (Z.ltb_spec MAX_UDP_PAYLOAD_BYTES (len p)); [exists [], a1; split; [done|by apply same_ok]|].
  unfold get_uplink. change (as_table a1) with (as_table a). destruct (ut_sessions (as_table a) !! t) as [s|] eqn:Es; cbn [fmap option_fmap option_map].
  - destruct (try_send (us_uplink s) p a1) as [l' a'] eqn:E. exists l', a'. split; [done|].
    pose proof (try_send_ok (us_uplink s) p l a1 Ha' Hch1 ltac:(lia)) as H1. rewrite E in H1. apply H1.
    destruct (ao_live _ Ha' t s Es) as (k & Hin & <- & _). destruct (ao_ids _ Ha') as [_ Hlt]. rewrite Forall_forall in Hlt. by apply Hlt.
  - pose proof (open_ok peer t p l a1 Ha' Hch1 eq_refl Es ltac:(lia)) as H1. change (as_table a1) with (as_table a) in H1.
    destruct (evict_until_under _ _) as [table evd]. eexists _, _. split; [reflexivity|exact H1].
Qed.

(** The session the answer opens: its entry in the table, its task, an empty channel. *)
Definition opened (now : Z) (t : SocksUdpTarget) (peer : Peer) (sid : str) (a : Assoc) : Assoc :=
  mkAssoc (UdpRelayState_insert t (mkUdpSession sid (as_next a)) (as_table a)) (as_client a) None
    (as_tasks a ++ [mkUdpTask (as_next a) t sid peer [] UDP_INITIAL_POLL_DELAY now (TkWaiting (now + Z.min UDP_INITIAL_POLL_DELAY UDP_SESSION_IDLE_TTL))])
    (S (as_next a)).

Lemma opened_assoc now t peer sid a : assoc_ok a -> as_pending a = Some (t, peer) -> assoc_ok (opened now t peer sid a).
Proof.
  intros [Ht Hs Hp Hl [Hi1 Hi2] Hk Hc] Ep. destruct (Hp t peer Ep) as (Hnone & Hsz & Hcl).
  constructor; unfold opened; cbn [as_table as_client as_pending as_tasks as_next]; try done.
  - by apply table_insert.
  - cbn [UdpRelayState_insert ut_sessions]. rewrite map_size_insert_None by done. lia.
  - intros x s. cbn [UdpRelayState_insert ut_sessions]. destruct (decide (x = t)) as [->|].
    + rewrite lookup_insert_eq. intros [= <-]. eexists. split_and!; [apply elem_of_app; right; by apply list_elem_of_singleton|done..].
    + rewrite lookup_insert_ne by done. intros (k & Hin & ?)%Hl. exists k. split; [by apply elem_of_app; left|done].
  - rewrite fmap_app. split.
    + apply NoDup_app. split_and!; [done| |by apply NoDup_singleton]. intros i (k & -> & Hin)%list_elem_of_fmap Hin2%list_elem_of_singleton.
      rewrite Forall_forall in Hi2. specialize (Hi2 k Hin). cbn in Hin2. lia.
    + apply Forall_app. split; [eapply Forall_impl; [exact Hi2|]; cbn; lia|]. apply Forall_singleton. cbn. lia.
  - apply Forall_app. split; [done|]. apply Forall_singleton. constructor; cbn; [done|lia|constructor|unfold UDP_INITIAL_POLL_DELAY, UDP_MAX_POLL_DELAY; lia].
Qed.

Lemma opened_chan now t peer sid l l' a : chan_ok l a -> (forall id, pushes id l' = [] /\ uplinks id l' = []) -> chan_ok (l ++ l') (opened now t peer sid a).
Proof.
  intros Hch Hquiet. assert (chan_ok (l ++ l') a) as [Hq Hpre Hf] by (apply (chan_quiet l _ a); [done|done| |done]; intros k Hin; by exists k).
  constructor; unfold opened; cbn [as_tasks as_next].
  - intros k [Hin|Hin%list_elem_of_singleton]%elem_of_app; [by apply Hq|]. subst k. cbn [k_id k_queue].
    destruct (Hf (as_next a)) as [-> ->]; [lia|done].
  - apply Hpre.
  - intros id Hid. apply Hf. lia.
Qed.

Lemma on_open_reply_ok now r l l' a a' : assoc_ok a -> chan_ok l a -> on_open_reply now r a = Some (l', a') -> step_ok l l' a'.
Proof.
  intros Ha Hch. unfold on_open_reply. destruct (as_pending a) as [[t peer]|] eqn:Ep; [|done]. cbn [mbind option_bind].
  destruct (ao_pending _ Ha t peer Ep) as (_ & _ & Hcl).
  set (a1 := mkAssoc (as_table a) (as_client a) None (as_tasks a) (as_next a)).
  assert (assoc_ok a1) as Ha1 by (destruct Ha; by constructor).
  assert (chan_ok l a1) as Hch1. { rewrite <- (app_nil_r l). apply (chan_quiet l [] a); [done|done| |done]. intros k Hin. by exists k. }
  destruct r as [resp|]; [|intros [= <- <-]; by apply same_ok]. case_bool_decide; [intros [= <- <-]; by apply same_ok|].
  destruct (r_sid resp) as [sid|]; [|intros [= <- <-]; by apply same_ok].
  pose proof (fun id => send_packets_quiet id peer t resp) as Hquiet.
  destruct (default false (r_eof resp)); intros [= <- <-].
  - split_and!; [done| |by apply send_packets_ok]. apply (chan_quiet l _ a1); [done|done| |done]. intros k Hin. by exists k.
  - split_and!; [by apply opened_assoc|by apply opened_chan|by apply send_packets_ok].
Qed.

(** A task that goes on: it keeps its name, and what it sends is the head of its queue. *)
Lemma task_step_on alive ev k l k' client : task_ok client k -> task_step alive ev k = Some (l, Some k') ->
  task_ok client k' /\ k_id k' = k_id k /\ k_target k' = k_target k /\ k_sid k' = k_sid k /\
  (forall id, pushes id l = []) /\ uplinks (k_id k) l ++ k_queue k' = k_queue k /\ (forall id, id <> k_id k -> uplinks id l = []) /\
  (forall a, as_client a = client -> Forall (effect_ok a) l).
Proof.
  intros [H1 H2 H3 H4]. unfold task_step, task_wait. destruct ev as [now| |now|now r], (k_phase k) as [d|]; try done.
  - destruct (k_queue k) as [|p q] eqn:Eq; [done|]. intros [= <- <-]. apply Forall_cons in H3 as [H3 H3']. cbn in H2. split_and!; try done.
    + constructor; cbn; [done|lia|done|unfold UDP_INITIAL_POLL_DELAY, UDP_MAX_POLL_DELAY; lia].
    + unfold uplinks. cbn. by rewrite Nat.eqb_refl.
    + intros id Hid. unfold uplinks. cbn. destruct (Nat.eqb_spec (k_id k) id); [congruence|done].
    + intros a _. by apply Forall_singleton.
  - by destruct (_ && _).
  - case_bool_decide as Eq; [|done]. cbn [andb]. destruct (alive && (d <=? now)); [|done]. intros [= <- <-]. split_and!; try done.
    + constructor; cbn; [done|lia|constructor|done].
    + intros a _. by apply Forall_singleton.
  - destruct r as [resp|]; [|done]. destruct (_ || _); [done|].
    destruct (match r_pkts resp with Some (_ :: _) => true | _ => false end); cbn [k_last];
      destruct (udp_session_idle_remaining _ now); cbn [mbind option_bind]; [|done| |done]; intros [= <- <-]; split_and!; try done.
    + intros id. exact (proj1 (send_packets_quiet id _ _ _)).
    + destruct (send_packets_quiet (k_id k) (k_peer k) (k_target k) resp) as [_ ->]. done.
    + intros id _. exact (proj2 (send_packets_quiet id _ _ _)).
    + intros a Ha. apply send_packets_ok. congruence.
    + constructor; cbn; [done..|]. unfold UDP_INITIAL_POLL_DELAY, UDP_MAX_POLL_DELAY in *. lia.
Qed.

(** A task that ends has nothing to send but what it was given with its last answer. *)
Lemma task_step_off alive ev k l client : task_ok client k -> task_step alive ev k = Some (l, None) ->
  (forall id, pushes id l = [] /\ uplinks id l = []) /\ (forall a, as_client a = client -> Forall (effect_ok a) l).
Proof.
  intros [H1 H2 H3 H4]. unfold task_step, task_wait. destruct ev as [now| |now|now r], (k_phase k) as [d|]; try done.
  - by destruct (k_queue k).
  - destruct (_ && _); [|done]. intros [= <-]. split; [done|]. intros; constructor.
  - destruct (_ && _ && _); done.
  - destruct r as [resp|]; [|intros [= <-]; split; [done|]; intros; constructor]. destruct (_ || _); [intros [= <-]; split; [done|]; intros; constructor|].
    destruct (match r_pkts resp with Some (_ :: _) => true | _ => false end); cbn [k_last];
      destruct (udp_session_idle_remaining _ now); cbn [mbind option_bind]; [done| |done|]; intros [= <-].
    + split; [intros id; apply send_packets_quiet|]. intros a Ha. apply send_packets_ok. congruence.
    + split; [done|]. intros; constructor.
Qed.

Lemma task_goes_on i k k' l l' a : assoc_ok a -> chan_ok l a -> as_tasks a !! i = Some k ->
  task_ok (as_client a) k' -> k_id k' = k_id k -> k_target k' = k_target k -> k_sid k' = k_sid k ->
  (forall id, pushes id l' = []) -> uplinks (k_id k) l' ++ k_queue k' = k_queue k -> (forall id, id <> k_id k -> uplinks id l' = []) ->
  assoc_ok (set_tasks (<[i := k']> (as_tasks a)) a) /\ chan_ok (l ++ l') (set_tasks (<[i := k']> (as_tasks a)) a).
Proof.
  intros [Ht Hs Hp Hl [Hi1 Hi2] Hk Hc] [Hq Hpre Hf] Hi Hk' Eid Et Es Hpu Hup Hoth. unfold set_tasks.
  assert (k ∈ as_tasks a) as Hin by (by eapply list_elem_of_lookup_2).
  assert (k_id <$> <[i := k']> (as_tasks a) = k_id <$> as_tasks a) as Eids.
  { rewrite list_fmap_insert, Eid. apply list_insert_id. by rewrite list_lookup_fmap, Hi. }
  assert (forall id, pushes id (l ++ l') = pushes id l) as Hpu' by (intros id; destruct (channel_app id l l') as [-> _]; by rewrite Hpu, app_nil_r).
  assert (pushes (k_id k) l = uplinks (k_id k) (l ++ l') ++ k_queue k') as Hnew.
  { destruct (channel_app (k_id k) l l') as [_ ->]. rewrite (Hq k Hin), <- Hup. by rewrite app_assoc. }
  assert (forall id, id <> k_id k -> uplinks id (l ++ l') = uplinks id l) as Hold.
  { intros id Hne. destruct (channel_app id l l') as [_ ->]. by rewrite (Hoth id Hne), app_nil_r. }
  split; constructor; cbn [as_table as_client as_pending as_tasks as_next]; try done.
  - intros t s (k0 & Hin0 & E1 & E2 & E3)%Hl. destruct (decide (k_id k0 = k_id k)) as [E|E].
    + assert (k0 = k) as -> by (by apply (task_unique (as_tasks a))). exists k'. split_and!; [|congruence..].
      apply list_elem_of_lookup. exists i. apply list_lookup_insert_eq. by eapply lookup_lt_Some.
    + exists k0. split_and!; [|done..]. apply list_elem_of_lookup in Hin0 as [j Hj]. apply list_elem_of_lookup. exists j.
      rewrite list_lookup_insert_ne; [done|]. intros ->. congruence.
  - rewrite Eids. split; [done|]. apply Forall_insert; [done|]. rewrite Forall_forall in Hi2. rewrite Eid. by apply Hi2.
  - by apply Forall_insert.
  - intros k0 Hin0. rewrite Hpu'. apply list_elem_of_lookup in Hin0 as [j Hj]. destruct (decide (i = j)) as [<-|Hne].
    + rewrite list_lookup_insert_eq in Hj by (by eapply lookup_lt_Some). injection Hj as <-. by rewrite Eid.
    + rewrite list_lookup_insert_ne in Hj by done. rewrite Hold; [apply Hq; by eapply list_elem_of_lookup_2|]. intros E.
      apply Hne. eapply (NoDup_lookup (k_id <$> as_tasks a)); [done|by rewrite list_lookup_fmap, Hi|]. rewrite list_lookup_fmap, Hj. cbn. congruence.
  - intros id. rewrite Hpu'. destruct (decide (id = k_id k)) as [->|Hne]; [rewrite Hnew; by apply prefix_app_r|rewrite Hold by done; apply Hpre].
  - intros id Hid. rewrite Forall_forall in Hi2. pose proof (Hi2 k Hin). rewrite Hpu', Hold by lia. by apply Hf.
Qed.

(** A task that ends takes the entry of its target with it, whosever it is. *)
Lemma task_ends i k a : assoc_ok a -> as_tasks a !! i = Some k ->
  assoc_ok (mkAssoc (UdpRelayState_remove (k_target k) (as_table a)) (as_client a) (as_pending a) (delete i (as_tasks a)) (as_next a)).
Proof.
  intros [Ht Hs Hp Hl [Hi1 Hi2] Hk Hc] Hi.
  assert (size (delete (k_target k) (ut_sessions (as_table a))) <= size (ut_sessions (as_table a)))%nat as Hsz.
  { apply map_subseteq_size, delete_subseteq. }
  assert (delete i (as_tasks a) ⊆ as_tasks a) as Hsub by apply list_subseteq_delete.
  constructor; cbn [as_table as_client as_pending as_tasks as_next UdpRelayState_remove ut_sessions].
  - by apply table_remove.
  - lia.
  - intros t p E. destruct (Hp t p E) as (Hn & Hlt & Hcl). split_and!; [|lia|done]. by apply lookup_delete_None; right.
  - intros t s (Hne & E)%lookup_delete_Some. destruct (Hl t s E) as (k0 & Hin & E1 & E2 & E3). exists k0. split_and!; [|done..].
    rewrite (delete_Permutation _ i k Hi) in Hin. apply elem_of_cons in Hin as [->|Hin]; [congruence|done].
  - split; [|apply Forall_forall; intros x Hx%Hsub; rewrite Forall_forall in Hi2; by apply Hi2].
    rewrite list_fmap_delete. eapply sublist_NoDup; [done|apply sublist_delete].
  - apply Forall_forall. intros x Hx%Hsub. rewrite Forall_forall in Hk. by apply Hk.
  - done.
Qed.

Lemma on_task_ok i ev l l' a a' : assoc_ok a -> chan_ok l a -> on_task i ev a = Some (l', a') -> step_ok l l' a'.
Proof.
  intros Ha Hch. unfold on_task. destruct (as_tasks a !! i) as [k|] eqn:Hi; [|done]. cbn [mbind option_bind].
  assert (task_ok (as_client a) k) as Hk by (pose proof (ao_tasks _ Ha) as Hf; by eapply Forall_lookup_1).
  destruct (task_step _ ev k) as [[effs [k'|]]|] eqn:E; cbn [mbind option_bind]; [| |done]; intros [= <- <-].
  - destruct (task_step_on _ _ _ _ _ _ Hk E) as (H1 & H2 & H3 & H4 & H5 & H6 & H7 & H8).
    destruct (task_goes_on i k k' l effs a Ha Hch Hi H1 H2 H3 H4 H5 H6 H7) as [Hx Hy]. split_and!; [done|done|by apply H8].
  - destruct (task_step_off _ _ _ _ _ Hk E) as [H1 H2]. split_and!; [by apply task_ends| |].
    + apply (chan_quiet l _ a); [done| | |done].
      * intros id. destruct (channel_app id effs [UClose (k_sid k)]) as [-> ->]. destruct (H1 id) as [-> ->]. done.
      * intros k0 Hin%list_subseteq_delete. by exists k0.
    + apply Forall_app. split; [by apply H2|by apply Forall_singleton].
Qed.

(** ** Runs *)
Definition ev_ok (ev : AssocEvent) : Prop := match ev with EvRecv _ buf => bytes_ok buf | _ => True end.

Lemma assoc_step_ok ev l a r : ev_ok ev -> assoc_ok a -> chan_ok l a -> assoc_step client_ip block_quic block_stun ev a = Some r ->
  exists l' a', r = Ok (l', a') /\ step_ok l l' a'.
Proof.
  intros He Ha Hch. destruct ev as [peer buf|now o|i ev]; cbn [assoc_step].
  - case_bool_decide as Hp; [|done]. intros [= <-]. by apply on_datagram_ok.
  - destruct (on_open_reply now o a) as [[l' a']|] eqn:E; cbn [fmap option_fmap option_map]; [|done]. intros [= <-]. exists l', a'. split; [done|].
    by eapply on_open_reply_ok.
  - destruct (on_task i ev a) as [[l' a']|] eqn:E; cbn [fmap option_fmap option_map]; [|done]. intros [= <-]. exists l', a'. split; [done|].
    by eapply on_task_ok.
Qed.

Lemma client_kept ev a l a' p : assoc_step client_ip block_quic block_stun ev a = Some (Ok (l, a')) -> as_client a = Some p -> as_client a' = Some p.
Proof.
  intros H Hc. destruct ev as [peer buf|now o|i ev]; cbn [assoc_step] in H.
  - case_bool_decide; [|done]. injection H as H. unfold on_datagram in H. rewrite Hc in H. repeat case_match; simplify_eq/=; try done.
    all: unfold res_bind in *; repeat case_match; simplify_eq/=; try done; unfold try_send, set_tasks in *; simplify_eq/=; try done.
    all: match goal with E : negb (bool_decide _) = false |- _ => apply negb_false_iff, bool_decide_eq_true in E end; congruence.
  - unfold on_open_reply in H. destruct (as_pending a) as [[? ?]|]; cbn [mbind option_bind fmap option_fmap option_map] in H; repeat case_match; by simplify_eq/=.
  - unfold on_task in H. destruct (as_tasks a !! i); cbn [mbind option_bind fmap option_fmap option_map] in H; [|done].
    destruct (task_step _ _ _) as [[? []]|]; cbn in H; by simplify_eq/=.
Qed.

Lemma effect_kept a a' e : (forall p, as_client a = Some p -> as_client a' = Some p) -> effect_ok a e -> effect_ok a' e.
Proof. destruct e; cbn; auto. Qed.

Lemma assoc_run_ok evs l a r : Forall ev_ok evs -> assoc_ok a -> chan_ok l a -> assoc_run client_ip block_quic block_stun evs a = Some r ->
  exists l' a', r = Ok (l', a') /\ step_ok l l' a' /\ (forall p, as_client a = Some p -> as_client a' = Some p).
Proof.
  revert l a r. induction evs as [|ev evs IH]; intros l a r He Ha Hch; cbn [assoc_run].
  - intros [= <-]. exists [], a. split_and!; [done|by apply same_ok|done].
  - apply Forall_cons in He as [He1 He]. destruct (assoc_step _ _ _ ev a) as [r1|] eqn:E1; [|done].
    destruct (assoc_step_ok ev l a r1 He1 Ha Hch E1) as (l1 & a1 & -> & H1 & H2 & H3). pose proof (fun p => client_kept ev a l1 a1 p E1) as Hk.
    destruct (assoc_run _ _ _ evs a1) as [r2|] eqn:E2; [|done]. destruct (IH (l ++ l1) a1 r2 He H1 H2 E2) as (l2 & a2 & -> & (G1 & G2 & G3) & Hk2).
    intros [= <-]. exists (l1 ++ l2), a2. split_and!; [done| |auto]. split_and!; [done|by rewrite app_assoc|].
    apply Forall_app. split; [|done]. eapply Forall_impl; [exact H3|]. intros e. by apply effect_kept.
Qed.

Lemma assoc_new_ok : assoc_ok Assoc_new /\ chan_ok [] Assoc_new.
Proof.
  split; constructor; cbn; try done; try (by constructor).
  - constructor; cbn; [constructor|]. intros t. rewrite lookup_empty. split; [by intros ?%elem_of_nil|by intros [? ?]].
  - rewrite map_size_empty. lia.
  - split; constructor.
  - intros k Hk%elem_of_nil. done.
Qed.

(** Claim C23: a UDP association, in every interleaving of its datagrams, the answers of its opens and the
    steps of its tasks: no datagram makes it panic; at most 256 sessions are in the table, whose
    order log lists each of them once; each has a running task with its session id, whose
    queue is at most 64 datagrams long; what is sent back goes to the one client address
    locked first, which has the address of the control connection; no payload over 9216 bytes
    is forwarded; and each channel forwards the datagrams put into it, in that order, each at most once. *)
Theorem udp_associate_invariant evs r : Forall ev_ok evs -> assoc_run client_ip block_quic block_stun evs Assoc_new = Some r ->
  exists l a, r = Ok (l, a) /\
    (size (ut_sessions (as_table a)) <= MAX_UDP_SESSIONS_PER_ASSOCIATE)%nat /\
    NoDup (ut_order (as_table a)) /\ (forall t, t ∈ ut_order (as_table a) <-> is_Some (ut_sessions (as_table a) !! t)) /\
    (forall t s, ut_sessions (as_table a) !! t = Some s ->
       exists k, k ∈ as_tasks a /\ k_id k = us_uplink s /\ k_target k = t /\ k_sid k = us_sid s) /\
    (forall k, k ∈ as_tasks a -> (length (k_queue k) <= UDP_UPLINK_QUEUE)%nat /\ UDP_INITIAL_POLL_DELAY <= k_backoff k <= UDP_MAX_POLL_DELAY) /\
    (forall p d, USend p d ∈ l -> as_client a = Some p /\ fst p = client_ip) /\
    (forall id t p, UOpen id t p ∈ l -> len p <= MAX_UDP_PAYLOAD_BYTES) /\
    (forall id sid p, UUplink id sid p ∈ l -> len p <= MAX_UDP_PAYLOAD_BYTES) /\
    (forall id, uplinks id l `prefix_of` pushes id l).
Proof.
  intros He Hr. destruct assoc_new_ok as [H1 H2]. destruct (assoc_run_ok evs [] Assoc_new r He H1 H2 Hr) as (l & a & -> & (Ha & Hc & Hl) & _).
  cbn [app] in Hc. rewrite Forall_forall in Hl. destruct Ha as [[Hn Ho] Hs Hp Hli Hi Hk Hcl]. rewrite Forall_forall in Hk. exists l, a. split_and!; try done.
  - intros k Hin. by destruct (Hk k Hin).
  - intros p d Hin. specialize (Hl _ Hin). cbn in Hl. auto.
  - intros id t p Hin. by specialize (Hl _ Hin).
  - intros id sid p Hin. by specialize (Hl _ Hin).
  - apply Hc.
Qed.
End machine.

(** A query that opens a session, a second one that its task forwards. *)
Definition two_queries : list AssocEvent :=
  let q := [0; 0; 0; 1; 10; 0; 0; 1; 0; 53; 9] in
  [EvRecv (V4 127 0 0 1, 4000) q; EvOpened 0 (Some (mkResp (Some (lit "u1")) None None None None None None));
   EvRecv (V4 127 0 0 1, 4000) q; EvTask 0 (TkUplink 10)].

Lemma udp_associate_invariant_witness : exists l a,
  assoc_run (B := toy_base64) (V4 127 0 0 1) true true two_queries Assoc_new = Some (Ok (l, a)) /\
  uplinks 0 l = [[9]] /\ (forall id, uplinks id l `prefix_of` pushes id l).
Proof.
  destruct (udp_associate_invariant (B := toy_base64) (V4 127 0 0 1) true true two_queries
    (default Panic (assoc_run (B := toy_base64) (V4 127 0 0 1) true true two_queries Assoc_new))) as (l & a & E & H).
  - repeat (apply Forall_cons; split); try done; repeat (apply Forall_cons; split; [unfold is_u8; lia|]); constructor.
  - vm_compute. reflexivity.
  - exists l, a. assert (uplinks 0 (match default Panic (assoc_run (B := toy_base64) (V4 127 0 0 1) true true two_queries Assoc_new) with Ok (l, _) => l | _ => [] end) = [[9]]) as Hu
      by (vm_compute; reflexivity).
    rewrite E in Hu. split; [|split; [exact Hu|apply H]].
    transitivity (Some (default Panic (assoc_run (B := toy_base64) (V4 127 0 0 1) true true two_queries Assoc_new))); [vm_compute; reflexivity|by rewrite E].
Defined.

(** * Runs over the cap, and the table of associations

    What becomes of a session that is evicted while its task waits for an answer: it is not
    closed when the association ends, and its own end takes a fresh session of the same target
    with it.  The runs open more than 256 sessions, so they are followed by lemmas, not
    evaluated. *)

(** A client on 127.0.0.1 that sends one DNS query to each of several resolvers, 10.0.x.y. *)
Definition a_client : Peer := (V4 127 0 0 1, 4000).
Definition resolver (i : nat) : SocksUdpTarget :=
  let x := Z.of_nat i / 256 in let y := Z.of_nat i mod 256 in mkTarget (ipv4_string [10; 0; x; y]) 53 1 [10; 0; x; y].
Definition query (i : nat) : AssocEvent := EvRecv a_client (build_socks5_udp_packet (resolver i) [9]).
Definition answered (sid : str) : AssocEvent := EvOpened 0 (Some (mkResp (Some sid) None None None None None None)).
Definition sid_of (i : nat) : str := lit "u" ++ [Z.of_nat i].
Definition session_open (i : nat) : list AssocEvent := [query i; answered (sid_of i)].

(** The first session polls; [n] others are opened while its answer is under way, as many as
    there is room for, and one more. *)
Definition over_cap (n : nat) : list AssocEvent := (session_open 0 ++ [EvTask 0 (TkPoll 500)]) ++ (seq 1 (S n) ≫= session_open).
(** The evicted target is opened anew, and only then the first session's task ends. *)
Definition reopened : list AssocEvent := [query 0; answered (lit "fresh"); EvTask 0 (TkReply 600 None)].

Definition closes (l : list UdpEffect) : list str := l ≫= (fun e => match e with UClose s => [s] | _ => [] end).

Section runs.
Context {B : Base64}.

Definition run_from (evs : list AssocEvent) (a : Assoc) : option (res (list UdpEffect * Assoc) unit) :=
  assoc_run (fst a_client) false false evs a.

Lemma run_app evs1 evs2 a l a' l' a'' : run_from evs1 a = Some (Ok (l, a')) -> run_from evs2 a' = Some (Ok (l', a'')) ->
  run_from (evs1 ++ evs2) a = Some (Ok (l ++ l', a'')).
Proof.
  unfold run_from. intros H1 H2. revert a l H1. induction evs1 as [|ev evs1 IH]; intros a l; cbn [app assoc_run]; [intros [= <- <-]; by rewrite H2|].
  destruct (assoc_step _ _ _ ev a) as [[[l1 a1]| |]|]; [|done..]. destruct (assoc_run _ _ _ evs1 a1) as [[[l2 a2]| |]|] eqn:E; [|done..].
  intros [= <- ->]. by rewrite (IH _ _ E), app_assoc.
Qed.

Lemma closes_app l l' : closes (l ++ l') = closes l ++ closes l'.
Proof. apply bind_app. Qed.

Lemma resolver_ok i : (i < 1000)%nat -> udp_target_ok (resolver i).
Proof.
  intros Hi. unfold udp_target_ok, resolver, is_u16. cbn [u_port u_addr u_atyp u_host]. split; [lia|]. split; [|by left].
  repeat (apply Forall_cons; split; [unfold is_u8; first [lia|Z.div_mod_to_equations; lia]|]). constructor.
Qed.

#[global] Instance resolver_inj : Inj (=) (=) resolver.
Proof. intros i j [= H1 H2]. pose proof (Z.div_mod (Z.of_nat i) 256 ltac:(lia)). pose proof (Z.div_mod (Z.of_nat j) 256 ltac:(lia)). lia. Qed.

(** A session is opened: what the table is after its eviction, and the new entry and task. *)
Lemma open_run i sid a table ev : (i < 1000)%nat -> as_client a = None \/ as_client a = Some a_client -> as_pending a = None ->
  ut_sessions (as_table a) !! resolver i = None -> evict_until_under MAX_UDP_SESSIONS_PER_ASSOCIATE (as_table a) = (table, ev) ->
  run_from [query i; answered sid] a = Some (Ok ([UOpen (as_next a) (resolver i) [9]],
    opened 0 (resolver i) a_client sid (mkAssoc table (Some a_client) None (as_tasks a) (as_next a)))).
Proof.
  intros Hi Hc Hp Hn He. unfold run_from, query, answered. cbn [assoc_run assoc_step]. rewrite bool_decide_eq_true_2 by done.
  unfold on_datagram. rewrite bool_decide_eq_true_2 by done. cbn [negb]. rewrite build_header, parse_offsets_build by (by apply resolver_ok).
  rewrite header_slice. cbn [res_bind andb]. unfold get_uplink.
  destruct Hc as [-> | ->]; [|rewrite bool_decide_eq_true_2 by done; cbn [negb]]; cbn [as_table as_client as_pending as_tasks as_next];
    change (MAX_UDP_PAYLOAD_BYTES <? len [9]) with false; cbn [andb]; rewrite Hn; cbn [fmap option_fmap option_map]; rewrite He; done.
Qed.

Lemma evict_done cap ss o ev : (size ss < cap)%nat -> udp_evict_loop cap ss o ev = (mkUdpState ss o, ev).
Proof. intros H. destruct o; cbn [udp_evict_loop]; destruct (Nat.ltb_spec (size ss) cap); (done || lia). Qed.

Lemma evict_one ss v o : size ss = MAX_UDP_SESSIONS_PER_ASSOCIATE -> is_Some (ss !! v) ->
  evict_until_under MAX_UDP_SESSIONS_PER_ASSOCIATE (mkUdpState ss (v :: o)) = (mkUdpState (delete v ss) o, [v]).
Proof.
  intros Hs [s Hv]. unfold evict_until_under. cbn [udp_evict_loop ut_sessions ut_order]. rewrite Hs, Nat.ltb_irrefl, bool_decide_eq_true_2 by done.
  apply evict_done. rewrite map_size_delete_Some, Hs by done. unfold MAX_UDP_SESSIONS_PER_ASSOCIATE. cbn. lia.
Qed.

(** ** The run up to the cap *)
Definition entry (i : nat) : UdpRelaySession := mkUdpSession (sid_of i) i.
Fixpoint entries (n : nat) : gmap SocksUdpTarget UdpRelaySession :=
  match n with O => ∅ | S n => <[resolver n := entry n]> (entries n) end.
Definition waiting_task (sid : str) (i id : nat) : UdpTask :=
  mkUdpTask id (resolver i) sid a_client [] UDP_INITIAL_POLL_DELAY 0 (TkWaiting (0 + Z.min UDP_INITIAL_POLL_DELAY UDP_SESSION_IDLE_TTL)).
Definition first_task : UdpTask := mkUdpTask 0 (resolver 0) (sid_of 0) a_client [] UDP_INITIAL_POLL_DELAY 0 TkFlying.
Definition filled (n : nat) : Assoc :=
  mkAssoc (mkUdpState (entries (S n)) (resolver <$> seq 0 (S n))) (Some a_client) None
    (first_task :: ((fun i => waiting_task (sid_of i) i i) <$> seq 1 n)) (S n).

Lemma entries_lookup n t s : entries n !! t = Some s <-> exists i, (i < n)%nat /\ t = resolver i /\ s = entry i.
Proof.
  induction n as [|n IH]; cbn [entries]; [rewrite lookup_empty; split; [done|intros (i & ? & _); lia]|].
  rewrite lookup_insert_Some, IH. split.
  - intros [[<- <-]|(Hne & i & Hi & -> & ->)]; [exists n; auto with lia|exists i; auto with lia].
  - intros (i & Hi & -> & ->). destruct (decide (i = n)) as [->|]; [by left|]. right. split; [intros E%(inj resolver); lia|]. exists i. auto with lia.
Qed.

Lemma entries_size n : size (entries n) = n.
Proof.
  induction n as [|n IH]; cbn [entries]; [apply map_size_empty|]. rewrite map_size_insert_None, IH; [done|].
  apply eq_None_not_Some. intros [s (i & Hi & E%(inj resolver) & _)%entries_lookup]. lia.
Qed.

Lemma entries_fresh n i : (n <= i)%nat -> entries n !! resolver i = None.
Proof. intros H. apply eq_None_not_Some. intros [s (j & Hj & E%(inj resolver) & _)%entries_lookup]. lia. Qed.

Lemma first_run : run_from (session_open 0 ++ [EvTask 0 (TkPoll 500)]) Assoc_new = Some (Ok ([UOpen 0 (resolver 0) [9]; UPoll (sid_of 0)], filled 0)).
Proof. vm_compute. reflexivity. Qed.

Lemma fill_run n : (n < MAX_UDP_SESSIONS_PER_ASSOCIATE)%nat ->
  exists l, run_from (seq 1 n ≫= session_open) (filled 0) = Some (Ok (l, filled n)) /\ closes l = [].
Proof.
  intros Hn. induction n as [|n IH]; [by exists []|]. destruct IH as (l & Hl & Hc); [lia|].
  exists (l ++ [UOpen (S n) (resolver (S n)) [9]]). split; [|by rewrite closes_app, Hc].
  rewrite seq_S, bind_app. eapply run_app; [exact Hl|]. cbn [mbind list_bind app].
  unfold MAX_UDP_SESSIONS_PER_ASSOCIATE in *. etrans; [apply (open_run (S n) (sid_of (S n)) (filled n) (as_table (filled n)) [])|].
  - lia.
  - by right.
  - done.
  - apply entries_fresh. lia.
  - apply evict_done. cbn [filled as_table ut_sessions]. rewrite entries_size. unfold MAX_UDP_SESSIONS_PER_ASSOCIATE. lia.
  - unfold opened, filled. cbn [as_table as_client as_tasks as_next UdpRelayState_insert ut_sessions ut_order]. 
    rewrite (seq_S (S n) 0), (seq_S n 1), !fmap_app. done.
Qed.

(** The next session takes the first one's place. *)
Definition capped (n : nat) : Assoc :=
  opened 0 (resolver (S n)) a_client (sid_of (S n))
    (mkAssoc (mkUdpState (delete (resolver 0) (entries (S n))) (resolver <$> seq 1 n)) (Some a_client) None (as_tasks (filled n)) (S n)).

Section cap.
Context (n : nat) (Hn : S n = MAX_UDP_SESSIONS_PER_ASSOCIATE).

Lemma cap_small : (n < 256)%nat.
Proof. unfold MAX_UDP_SESSIONS_PER_ASSOCIATE in Hn. lia. Qed.

Lemma over_cap_run : exists l, run_from (over_cap n) Assoc_new = Some (Ok (l, capped n)) /\ closes l = [].
Proof.
  pose proof cap_small. destruct (fill_run n) as (l & Hl & Hc); [lia|]. eexists. split.
  - unfold over_cap. eapply run_app; [exact first_run|]. rewrite (seq_S n), bind_app. eapply run_app; [exact Hl|].
    cbn [mbind list_bind app Nat.add]. apply (open_run (S n) (sid_of (S n)) (filled n) _ [resolver 0]); [lia|by right|done|by apply entries_fresh|].
    change (as_table (filled n)) with (mkUdpState (entries (S n)) (resolver 0 :: (resolver <$> seq 1 n))). apply evict_one; [by rewrite entries_size|].
    exists (entry 0). apply entries_lookup. exists 0%nat. auto with lia.
  - rewrite !closes_app, Hc. done.
Qed.

Lemma capped_lookup t s : ut_sessions (as_table (capped n)) !! t = Some s -> exists i, (1 <= i <= S n)%nat /\ t = resolver i /\ s = entry i.
Proof.
  unfold capped, opened. cbn [as_table UdpRelayState_insert ut_sessions as_next]. rewrite lookup_insert_Some. intros [[<- <-]|(_ & H)].
  - exists (S n). auto with lia.
  - apply lookup_delete_Some in H as (Hne & (i & Hi & -> & ->)%entries_lookup). exists i. split_and!; [|lia|done..]. destruct i; [done|lia].
Qed.

Lemma capped_left_open : sid_of 0 ∉ closes (teardown (capped n)).
Proof.
  unfold closes, teardown, live_sids. intros (e & He & Hin)%list_elem_of_bind.
  apply list_elem_of_fmap in Hin as (sid & -> & Hin). apply list_elem_of_singleton in He as <-.
  apply list_elem_of_fmap in Hin as (s & Es & ([t s'] & -> & Hin%elem_of_map_to_list)%list_elem_of_fmap).
  apply capped_lookup in Hin as (i & Hi & _ & ->). cbn in Es. injection Es as Es. lia.
Qed.

Lemma capped_table : as_table (capped n) = mkUdpState (ut_sessions (as_table (capped n))) (resolver 1 :: (resolver <$> seq 2 n)) /\
  size (ut_sessions (as_table (capped n))) = MAX_UDP_SESSIONS_PER_ASSOCIATE /\ is_Some (ut_sessions (as_table (capped n)) !! resolver 1).
Proof.
  unfold capped, opened. cbn [as_table UdpRelayState_insert ut_sessions ut_order as_next]. split_and!.
  - f_equal. change (resolver 1 :: (resolver <$> seq 2 n)) with (resolver <$> seq 1 (S n)). by rewrite seq_S, fmap_app.
  - rewrite map_size_insert_None, map_size_delete_Some, entries_size; [done|by eexists; apply entries_lookup; exists 0%nat; auto with lia|].
    apply lookup_delete_None. right. by apply entries_fresh.
  - destruct (decide (n = 0%nat)) as [->|]; [by rewrite lookup_insert_eq|]. rewrite lookup_insert_ne, lookup_delete_ne.
    + exists (entry 1). apply entries_lookup. exists 1%nat. auto with lia.
    + by intros E%(inj resolver).
    + intros E%(inj resolver). lia.
Qed.

(** The first target again: the second session is evicted, the fresh one is in the table. *)
Definition renewed : Assoc :=
  opened 0 (resolver 0) a_client (lit "fresh")
    (mkAssoc (mkUdpState (delete (resolver 1) (ut_sessions (as_table (capped n)))) (resolver <$> seq 2 n)) (Some a_client) None
       (as_tasks (capped n)) (S (S n))).
(** ... and gone with the end of the first task. *)
Definition dropped : Assoc :=
  mkAssoc (UdpRelayState_remove (resolver 0) (as_table renewed)) (Some a_client) None (tail (as_tasks renewed)) (as_next renewed).

(** The fresh session's task is the last, and its channel is closed. *)
Lemma dropped_fresh : exists i k, as_tasks dropped !! i = Some k /\ k_sid k = lit "fresh" /\
  (size (ut_sessions (as_table dropped)) < MAX_UDP_SESSIONS_PER_ASSOCIATE)%nat /\ exists a', on_task i TkClosed dropped = Some ([UClose (k_sid k)], a').
Proof.
  set (ts := ((fun i => waiting_task (sid_of i) i i) <$> seq 1 n) ++ [waiting_task (sid_of (S n)) (S n) (S n)]).
  assert (as_tasks dropped = ts ++ [waiting_task (lit "fresh") 0 (S (S n))]) as Et by done.
  exists (length ts), (waiting_task (lit "fresh") 0 (S (S n))). assert (as_tasks dropped !! length ts = Some (waiting_task (lit "fresh") 0 (S (S n)))) as Hk.
  { by rewrite Et, lookup_app_r, Nat.sub_diag. }
  split_and!; [done|done| |].
  - destruct capped_table as (_ & Hs & [s H1]). unfold dropped, renewed, opened. cbn [as_table UdpRelayState_remove UdpRelayState_insert ut_sessions as_next].
    rewrite delete_insert_eq. eapply Nat.le_lt_trans; [apply map_subseteq_size, delete_subseteq|]. rewrite map_size_delete_Some, Hs by done.
    unfold MAX_UDP_SESSIONS_PER_ASSOCIATE. cbn. lia.
  - unfold on_task. rewrite Hk. cbn [mbind option_bind].
    assert (sender_alive dropped (waiting_task (lit "fresh") 0 (S (S n))) = false) as ->.
    { unfold sender_alive, dropped. cbn [as_table UdpRelayState_remove ut_sessions k_target waiting_task]. by rewrite lookup_delete_eq. }
    eexists. reflexivity.
Qed.

Lemma reopened_run : run_from reopened (capped n) = Some (Ok ([UOpen (S (S n)) (resolver 0) [9]; UClose (sid_of 0)], dropped)).
Proof.
  pose proof cap_small. change reopened with ([query 0; answered (lit "fresh")] ++ [EvTask 0 (TkReply 600 None)]).
  eapply (run_app _ _ _ [_] renewed [_]); [|done].
  apply (open_run 0 (lit "fresh") (capped n) _ [resolver 1]); [lia|by right|done| |].
  - apply eq_None_not_Some. intros [s (i & Hi & E%(inj resolver) & _)%capped_lookup]. lia.
  - destruct capped_table as (-> & Hs & H1). by apply evict_one.
Qed.
End cap.

(** An evicted session whose task is waiting for an answer when the control
    connection ends is never closed: the sessions closed at the end are those of the table,
    and the task that would close it is aborted. *)
Theorem evicted_session_left_open : exists evs l a k, run_from evs Assoc_new = Some (Ok (l, a)) /\
  k ∈ as_tasks a /\ k_phase k = TkFlying /\ k_sid k ∉ closes (l ++ teardown a).
Proof.
  destruct (over_cap_run 255 eq_refl) as (l & Hl & Hc). exists (over_cap 255), l, (capped 255), first_task.
  split; [exact Hl|]. split; [left|]. split; [done|]. rewrite closes_app, Hc. apply (capped_left_open 255 eq_refl).
Qed.

(** The end of an evicted session's task removes the entry of its target, also when that is by
    now the entry of a fresh session: the fresh session's channel is closed and its task ends
    at once, though it was not evicted and the table is under its cap. *)
Theorem stale_task_drops_session : exists evs l a i k, run_from evs Assoc_new = Some (Ok (l, a)) /\
  as_tasks a !! i = Some k /\ k_sid k ∉ closes l /\ (size (ut_sessions (as_table a)) < MAX_UDP_SESSIONS_PER_ASSOCIATE)%nat /\
  exists a', on_task i TkClosed a = Some ([UClose (k_sid k)], a').
Proof.
  destruct (over_cap_run 255 eq_refl) as (l & Hl & Hc). destruct (dropped_fresh 255 eq_refl) as (i & k & Hk & Es & Hsz & Ht).
  eexists (over_cap 255 ++ reopened), _, (dropped 255), i, k. split; [eapply run_app; [exact Hl|apply (reopened_run 255 eq_refl)]|].
  split; [exact Hk|]. split; [|by split]. rewrite closes_app, Hc, Es. by intros E%list_elem_of_singleton.
Qed.
End runs.

(** * The table of associations

    [UdpRelayState] keeps a hash map and a log of its keys.  Its specification is one queue of
    sessions in the order of their insertion: a lookup finds the target's session, an eviction
    drops sessions from the front until there is room, a removal takes one out.  Every use of
    the table that inserts only absent targets, as the dispatch loop does, behaves as the
    queue. *)

Notation Queue := (list (SocksUdpTarget * UdpRelaySession)).

Inductive TableOp := OpInsert (t : SocksUdpTarget) (s : UdpRelaySession) | OpRemove (t : SocksUdpTarget) | OpEvict (cap : nat).

(** The specification. *)
Fixpoint q_find (t : SocksUdpTarget) (q : Queue) : option UdpRelaySession :=
  match q with [] => None | (t', s) :: q => if decide (t' = t) then Some s else q_find t q end.
Definition other (t : SocksUdpTarget) (e : SocksUdpTarget * UdpRelaySession) : Prop := e.1 <> t.
#[global] Instance other_dec t e : Decision (other t e).
Proof. unfold other. apply _. Defined.
Definition q_surplus (cap : nat) (q : Queue) : nat := S (length q) - cap.
Definition q_step (op : TableOp) (q : Queue) : Queue :=
  match op with
  | OpInsert t s => q ++ [(t, s)]
  | OpRemove t => filter (other t) q
  | OpEvict cap => drop (q_surplus cap q) q
  end.

Definition table_step (op : TableOp) (st : UdpRelayState) : UdpRelayState :=
  match op with
  | OpInsert t s => UdpRelayState_insert t s st
  | OpRemove t => UdpRelayState_remove t st
  | OpEvict cap => fst (evict_until_under cap st)
  end.

(** How the table is used: only an absent target is inserted, and the cap is not zero. *)
Fixpoint well_used (ops : list TableOp) (q : Queue) : Prop :=
  match ops with
  | [] => True
  | op :: ops =>
    match op with OpInsert t _ => t ∉ q.*1 | OpRemove _ => True | OpEvict cap => (0 < cap)%nat end /\ well_used ops (q_step op q)
  end.

(** The abstraction relation. *)
Record table_is (st : UdpRelayState) (q : Queue) : Prop := {
  ti_order : ut_order st = q.*1;
  ti_nodup : NoDup q.*1;
  ti_sessions : ut_sessions st = list_to_map q
}.

Lemma q_find_lookup q t : (list_to_map q : gmap SocksUdpTarget UdpRelaySession) !! t = q_find t q.
Proof. induction q as [|[t' s] q IH]; [done|]. cbn [list_to_map foldr q_find]. destruct (decide (t' = t)) as [->|]; [by rewrite lookup_insert_eq|by rewrite lookup_insert_ne]. Qed.

Lemma order_remove_filter t (q : Queue) : NoDup q.*1 -> order_remove t q.*1 = (filter (other t) q).*1.
Proof.
  induction q as [|[t' s] q IH]; [done|]. rewrite filter_cons. cbn [fmap list_fmap order_remove fst]. intros [Hin Hn]%NoDup_cons. case_bool_decide as E.
  - subst t'. rewrite decide_False by (intros H; by apply H). assert (filter (other t) q = q) as ->; [|done].
    clear IH Hn. induction q as [|[t' s'] q IH]; [done|]. cbn in Hin. apply not_elem_of_cons in Hin as [Hne Hin]. by rewrite filter_cons_True, IH.
  - rewrite decide_True by done. cbn. by rewrite IH.
Qed.

Lemma evict_queue cap (q : Queue) ev : (0 < cap)%nat -> NoDup q.*1 ->
  udp_evict_loop cap (list_to_map q) q.*1 ev =
    (mkUdpState (list_to_map (drop (q_surplus cap q) q)) (drop (q_surplus cap q) q).*1, ev ++ (take (q_surplus cap q) q).*1).
Proof.
  intros Hc. unfold q_surplus. revert ev. induction q as [|[t s] q IH]; intros ev Hn; cbn [fmap list_fmap udp_evict_loop fst length];
    rewrite ?map_size_list_to_map by done; cbn [length].
  - destruct (Nat.ltb_spec 0 cap); [|lia]. rewrite drop_nil, take_nil, app_nil_r. done.
  - destruct (Nat.ltb_spec (S (length q)) cap).
    + replace (S (S (length q)) - cap)%nat with 0%nat by lia. cbn [drop take fmap list_fmap]. by rewrite app_nil_r.
    + replace (S (S (length q)) - cap)%nat with (S (S (length q) - cap)) by lia. cbn [drop take fmap list_fmap fst].
      cbn [fmap list_fmap fst] in Hn. apply NoDup_cons in Hn as [Ht Hn]. cbn [list_to_map foldr].
      rewrite bool_decide_eq_true_2 by (rewrite lookup_insert_eq; by eexists). rewrite delete_insert_id by (by apply not_elem_of_list_to_map_1).
      rewrite IH by done. by rewrite <- app_assoc.
Qed.

Lemma filter_list_to_map t (q : Queue) : (delete t (list_to_map q) : gmap SocksUdpTarget UdpRelaySession) = list_to_map (filter (other t) q).
Proof.
  induction q as [|[t' s] q IH]; [apply delete_empty|]. rewrite filter_cons. cbn [list_to_map foldr]. unfold other at 1. case_decide as E; cbn [fst] in E.
  - cbn [list_to_map foldr]. by rewrite delete_insert_ne, IH.
  - subst t'. rewrite <- IH. apply delete_insert_eq.
Qed.

Lemma table_step_is op st q : table_is st q -> match op with OpInsert t _ => t ∉ q.*1 | OpRemove _ => True | OpEvict cap => (0 < cap)%nat end ->
  table_is (table_step op st) (q_step op q).
Proof.
  intros [Ho Hn Hs] Hop. destruct op as [t s|t|cap]; cbn [table_step q_step].
  - constructor; cbn [UdpRelayState_insert ut_order ut_sessions]; [by rewrite Ho, fmap_app| |by rewrite list_to_map_snoc, Hs].
    rewrite fmap_app. apply NoDup_app. split_and!; [done| |apply NoDup_singleton]. by intros x Hx ->%list_elem_of_singleton.
  - constructor; cbn [UdpRelayState_remove ut_order ut_sessions]; [by rewrite Ho, order_remove_filter| |by rewrite Hs, filter_list_to_map].
    eapply sublist_NoDup; [exact Hn|]. apply fmap_sublist, sublist_filter.
  - unfold evict_until_under. rewrite Ho, Hs, evict_queue by done. constructor; cbn; [done| |done].
    eapply sublist_NoDup; [exact Hn|]. apply fmap_sublist, sublist_drop.
Qed.

Lemma table_run_is ops st q : table_is st q -> well_used ops q -> table_is (foldl (flip table_step) st ops) (foldl (flip q_step) q ops).
Proof. revert st q. induction ops as [|op ops IH]; intros st q H; [done|]. intros [H1 H2]. apply IH; [by apply table_step_is|done]. Qed.

(** Claim C24: the table of an association refines a queue of sessions in the order of their
    insertion.  After any use that inserts absent targets only, a lookup, the number of
    sessions, the sessions closed at the end and the victims of an eviction, in their order,
    are those of the queue: the oldest ones, just enough to be below the cap. *)
Theorem udp_table_refines_queue (ops : list TableOp) (Hu : well_used ops []) :
  let st := foldl (flip table_step) UdpRelayState_new ops in
  let q := foldl (flip q_step) [] ops in
  (forall t, get_uplink st t = us_uplink <$> q_find t q) /\
  size (ut_sessions st) = length q /\ length (ut_order st) = length q /\
  live_sids st ≡ₚ us_sid <$> q.*2 /\
  (forall cap, (0 < cap)%nat -> snd (evict_until_under cap st) = (take (S (length q) - cap) q).*1).
Proof.
  intros st q. assert (table_is st q) as [Ho Hn Hs] by (apply table_run_is; [by constructor; [|constructor|]|done]). unfold get_uplink, live_sids.
  rewrite Ho, Hs. split_and!.
  - intros t. by rewrite q_find_lookup.
  - by apply map_size_list_to_map.
  - by rewrite length_fmap.
  - by rewrite (map_to_list_to_map q Hn).
  - intros cap Hc. unfold evict_until_under. by rewrite Ho, Hs, evict_queue.
Qed.

(** Three sessions, the first removed, a cap of two: the second is the victim. *)
Lemma udp_table_refines_queue_witness : exists ops cap,
  snd (evict_until_under cap (foldl (flip table_step) UdpRelayState_new ops)) = [mkTarget [] 2 1 []].
Proof.
  exists [OpInsert (mkTarget [] 1 1 []) (mkUdpSession [1%Z] 1); OpInsert (mkTarget [] 2 1 []) (mkUdpSession [2%Z] 2);
     OpInsert (mkTarget [] 3 1 []) (mkUdpSession [3%Z] 3); OpRemove (mkTarget [] 1 1 [])], 2%nat.
  edestruct (udp_table_refines_queue [OpInsert (mkTarget [] 1 1 []) (mkUdpSession [1%Z] 1); OpInsert (mkTarget [] 2 1 []) (mkUdpSession [2%Z] 2);
     OpInsert (mkTarget [] 3 1 []) (mkUdpSession [3%Z] 3); OpRemove (mkTarget [] 1 1 [])]) as (_ & _ & _ & _ & H).
  - cbn. rewrite !elem_of_cons, !elem_of_nil. naive_solver.
  - rewrite H by lia. reflexivity.
Defined.
