(* ===== verification/Profiles.v ===== *)
(** * src/profiles.rs: named configurations

    The store of profiles, its operations, [load_from] and [save_to], and [apply_profile],
    which makes a profile's snapshot the live configuration.  The disk is the two files and
    their temporary companions; what the file system does with a write is an argument.  JSON
    is third-party code: the class [SnapshotJson] has a snapshot's type and the functions of
    serde_json the code calls, [SnapshotLaws] what it relies on. *)

From stdpp Require Import prelude gmap.
From S2P Require Import Prelude RustStr Crypto HttpText HttpRewrite HostMatch DirectMode Dispatch ConfigCheck ConfigRules.
#[local] Open Scope Z_scope.

Record Profile (V : Type) := mkProfile { p_name : str; p_config : V }.
Record ProfilesFile (V : Type) := mkProfiles { pf_active : str; pf_profiles : list (Profile V) }.
Arguments mkProfile {V}.
Arguments p_name {V}.
Arguments p_config {V}.
Arguments mkProfiles {V}.
Arguments pf_active {V}.
Arguments pf_profiles {V}.

Class SnapshotJson := {
  Snap : Type;
  is_object : Snap -> bool;
  snap_pretty : Snap -> option str;               (* [to_string_pretty] of a value *)
  snap_config : Snap -> option Config;            (* [from_value] *)
  config_parse : str -> option Config;            (* [from_str] *)
  store_pretty : ProfilesFile Snap -> option str; (* [to_string_pretty] of a store *)
  store_parse : str -> option (ProfilesFile Snap)
}.

(** Printing can be undone: serde_json reads back what it has printed, and reads a
    configuration from the text of a value as from the value. *)
Class SnapshotLaws (J : SnapshotJson) : Prop := {
  store_parse_pretty pf s : store_pretty pf = Some s -> store_parse s = Some pf /\ blank s = false;
  config_parse_pretty v s : snap_pretty v = Some s -> config_parse s = snap_config v
}.

(** Why a file or a snapshot is refused. *)
Inductive Corrupt :=
| CoJson | CoName (i : nat) | CoObject (i : nat) (name : str) | CoTwice (i : nat) (name : str)
| CoSnapshot (name : str) | CoNotConfig | CoInvalid (e : ConfigError).
Inductive ProfileError := PeRead | PeWrite | PeParse | PeNotFound (name : str) | PeDuplicate (name : str) | PeEmptyName | PeCorrupt (why : Corrupt).

(** A file: absent, there but not readable as text (a directory), or a text. *)
Inductive File := Missing | Unreadable | Text (s : str).

(** What the file system does: whether the directory is there or created; the temporary file
    that a failed write leaves; whether the rename succeeds, and the removal after it. *)
Record WriteEnv := mkWriteEnv { we_dir : bool; we_broken : option File; we_rename : bool; we_remove : bool }.

Section profiles.
Context {J : SnapshotJson} {P : CryptoPrims} (valid_sni : str -> bool).
Notation Store := (ProfilesFile Snap).

Definition default_store : Store := mkProfiles [] [].

Definition validate_snapshot_loadable (v : Snap) : res unit Corrupt :=
  match snap_config v with
  | None => Err CoNotConfig
  | Some cfg => map_err CoInvalid (validate valid_sni cfg)
  end.

Definition validate_profile (idx : nat) (p : Profile Snap) : res unit Corrupt :=
  if blank (p_name p) then Err (CoName idx)
  else if negb (is_object (p_config p)) then Err (CoObject idx (p_name p))
  else Ok tt.

(** ** Loading and saving *)
Fixpoint validate_all (i : nat) (ps : list (Profile Snap)) : res unit Corrupt :=
  match ps with [] => Ok tt | p :: ps => let? _ := validate_profile i p in validate_all (S i) ps end.

Fixpoint unique_names (i : nat) (seen : gset str) (ps : list (Profile Snap)) : res unit Corrupt :=
  match ps with
  | [] => Ok tt
  | p :: ps => if bool_decide (p_name p ∈ seen) then Err (CoTwice i (p_name p)) else unique_names (S i) ({[p_name p]} ∪ seen) ps
  end.

Definition load_from (f : File) : res Store ProfileError :=
  match f with
  | Missing => Ok default_store
  | Unreadable => Err PeRead
  | Text data =>
    if blank data then Ok default_store else
    match store_parse data with
    | None => Err (PeCorrupt CoJson)
    | Some pf =>
      let? _ := map_err PeCorrupt (validate_all 0 (pf_profiles pf)) in
      let? _ := map_err PeCorrupt (unique_names 0 ∅ (pf_profiles pf)) in
      Ok pf
    end
  end.

(** The outcome, the temporary file and the file. *)
Definition save_to (e : WriteEnv) (st : Store) (tmp file : File) : res unit ProfileError * File * File :=
  if negb (we_dir e) then (Err PeWrite, tmp, file) else
  match store_pretty st with
  | None => (Err PeParse, tmp, file)
  | Some json =>
    match we_broken e with
    | Some f => (Err PeWrite, f, file)
    | None => if we_rename e then (Ok tt, Missing, Text json) else (Err PeWrite, Text json, file)
    end
  end.

Definition write_config_json_to (e : WriteEnv) (snapshot : Snap) (tmp file : File) : res unit ProfileError * File * File :=
  match snap_pretty snapshot with
  | None => (Err PeParse, tmp, file)
  | Some json =>
    if negb (we_dir e) then (Err PeWrite, tmp, file) else
    match we_broken e with
    | Some f => (Err PeWrite, f, file)
    | None =>
      if we_rename e then (Ok tt, Missing, Text json)
      else (Err PeWrite, if we_remove e then Missing else Text json, file)
    end
  end.

(** ** The operations *)
Definition names (st : Store) : list str := p_name <$> pf_profiles st.

Definition find (st : Store) (name : str) : option (Profile Snap) := List.find (fun p => bool_decide (p_name p = name)) (pf_profiles st).

(** The first profile of the name, changed through [find_mut]. *)
Fixpoint change_first (name : str) (f : Profile Snap -> Profile Snap) (ps : list (Profile Snap)) : list (Profile Snap) :=
  match ps with [] => [] | p :: ps => if bool_decide (p_name p = name) then f p :: ps else p :: change_first name f ps end.

Definition upsert (name : str) (config : Snap) (st : Store) : res Store ProfileError :=
  let name := trim name in
  if bool_decide (name = []) then Err PeEmptyName
  else if negb (is_object config) then Err (PeCorrupt (CoSnapshot name))
  else match find st name with
       | Some _ => Ok (mkProfiles name (change_first name (fun p => mkProfile (p_name p) config) (pf_profiles st)))
       | None => Ok (mkProfiles name (pf_profiles st ++ [mkProfile name config]))
       end.

Definition insert_new (name : str) (config : Snap) (st : Store) : res Store ProfileError :=
  let name := trim name in
  if bool_decide (name = []) then Err PeEmptyName
  else if negb (is_object config) then Err (PeCorrupt (CoSnapshot name))
  else if bool_decide (is_Some (find st name)) then Err (PeDuplicate name)
  else Ok (mkProfiles name (pf_profiles st ++ [mkProfile name config])).

Definition rename (from to : str) (st : Store) : res Store ProfileError :=
  let to := trim to in
  if bool_decide (to = []) then Err PeEmptyName
  else if bool_decide (from <> to) && bool_decide (is_Some (find st to)) then Err (PeDuplicate to)
  else match find st from with
       | None => Err (PeNotFound from)
       | Some _ => Ok (mkProfiles (if bool_decide (pf_active st = from) then to else pf_active st)
                         (change_first from (fun p => mkProfile to (p_config p)) (pf_profiles st)))
       end.

Fixpoint remove_named (name : str) (ps : list (Profile Snap)) : option (list (Profile Snap)) :=
  match ps with [] => None | p :: ps => if bool_decide (p_name p = name) then Some ps else cons p <$> remove_named name ps end.

Definition delete_profile (name : str) (st : Store) : res Store ProfileError :=
  match remove_named name (pf_profiles st) with
  | None => Err (PeNotFound name)
  | Some ps => Ok (mkProfiles (if bool_decide (pf_active st = name) then [] else pf_active st) ps)
  end.

Definition duplicate (from to : str) (st : Store) : res Store ProfileError :=
  let to := trim to in
  if bool_decide (to = []) then Err PeEmptyName
  else if bool_decide (is_Some (find st to)) then Err (PeDuplicate to)
  else match find st from with
       | None => Err (PeNotFound from)
       | Some src => Ok (mkProfiles (pf_active st) (pf_profiles st ++ [mkProfile to (p_config src)]))
       end.

(** ** Applying a profile *)
Record Disk := mkDisk { d_profiles_tmp : File; d_profiles : File; d_config_tmp : File; d_config : File }.
Inductive ApplyOutcome := AoOk | AoPartialConfigOnly (e : ProfileError).

Definition apply_profile_with_paths (ec ep : WriteEnv) (name : str) (d : Disk) : res ApplyOutcome ProfileError * Disk :=
  match load_from (d_profiles d) with
  | Panic => (Panic, d)
  | Err e => (Err e, d)
  | Ok pf =>
    match find pf name with
    | None => (Err (PeNotFound name), d)
    | Some p =>
      match (let? _ := validate_profile 0 p in validate_snapshot_loadable (p_config p)) with
      | Panic => (Panic, d)
      | Err why => (Err (PeCorrupt why), d)
      | Ok _ =>
        match write_config_json_to ec (p_config p) (d_config_tmp d) (d_config d) with
        | (Panic, _, _) => (Panic, d)
        | (Err e, tmp, file) => (Err e, mkDisk (d_profiles_tmp d) (d_profiles d) tmp file)
        | (Ok _, ctmp, cfile) =>
          match save_to ep (mkProfiles name (pf_profiles pf)) (d_profiles_tmp d) (d_profiles d) with
          | (Ok _, tmp, file) => (Ok AoOk, mkDisk tmp file ctmp cfile)
          | (Err e, tmp, file) => (Ok (AoPartialConfigOnly e), mkDisk tmp file ctmp cfile)
          | (Panic, tmp, file) => (Panic, mkDisk tmp file ctmp cfile)
          end
        end
      end
    end
  end.

(** [Config::load] of src/config.rs, on the live configuration's file. *)
Definition config_load (f : File) : option Config :=
  match f with
  | Text s => match config_parse s with Some c => match validate valid_sni c with Ok _ => Some c | _ => None end | None => None end
  | _ => None
  end.
End profiles.

(** * The store of profiles, proved

    The store refines a map from names to snapshots with the active name beside it; what is
    saved is loaded again; applying a profile either changes nothing or makes a configuration
    the runtime accepts the live one. *)

Section profiles.
Context {J : SnapshotJson}.
Notation Store := (ProfilesFile Snap).

(** What [load_from] checks. *)
Record store_ok (st : Store) : Prop := {
  so_names : NoDup (names st);
  so_profiles : Forall (fun p => blank (p_name p) = false /\ is_object (p_config p) = true) (pf_profiles st)
}.

(** ** The specification: a map, and the active name *)
Notation Abstract := (str * gmap str Snap)%type.

Definition profile_map (ps : list (Profile Snap)) : gmap str Snap := list_to_map ((fun p => (p_name p, p_config p)) <$> ps).
Definition abs (st : Store) : Abstract := (pf_active st, profile_map (pf_profiles st)).

Inductive StoreOp :=
| OpUpsert (name : str) (v : Snap) | OpInsertNew (name : str) (v : Snap) | OpRename (from to : str) | OpDelete (name : str) | OpDuplicate (from to : str).

Definition op_run (op : StoreOp) : Store -> res Store ProfileError :=
  match op with
  | OpUpsert n v => upsert n v | OpInsertNew n v => insert_new n v | OpRename f t => rename f t
  | OpDelete n => delete_profile n | OpDuplicate f t => duplicate f t
  end.

Definition new_name (name : str) : res str ProfileError := if bool_decide (trim name = []) then Err PeEmptyName else Ok (trim name).
Definition new_snapshot (name : str) (v : Snap) : res unit ProfileError := if is_object v then Ok tt else Err (PeCorrupt (CoSnapshot name)).
Definition unused (name : str) (m : gmap str Snap) : res unit ProfileError :=
  if bool_decide (is_Some (m !! name)) then Err (PeDuplicate name) else Ok tt.
Definition used (name : str) (m : gmap str Snap) : res Snap ProfileError :=
  match m !! name with Some v => Ok v | None => Err (PeNotFound name) end.

Definition spec (op : StoreOp) (a : Abstract) : res Abstract ProfileError :=
  let '(active, m) := a in
  match op with
  | OpUpsert n v => let? n := new_name n in let? _ := new_snapshot n v in Ok (n, <[n := v]> m)
  | OpInsertNew n v => let? n := new_name n in let? _ := new_snapshot n v in let? _ := unused n m in Ok (n, <[n := v]> m)
  | OpRename f t =>
    let? t := new_name t in let? _ := if bool_decide (f = t) then Ok tt else unused t m in let? v := used f m in
    Ok (if bool_decide (active = f) then t else active, <[t := v]> (delete f m))
  | OpDelete n => let? _ := used n m in Ok (if bool_decide (active = n) then [] else active, delete n m)
  | OpDuplicate f t => let? t := new_name t in let? _ := unused t m in let? v := used f m in Ok (active, <[t := v]> m)
  end.

(** ** Lists of profiles as maps *)
Lemma profile_map_cons p ps : profile_map (p :: ps) = <[p_name p := p_config p]> (profile_map ps).
Proof. done. Qed.

Lemma find_map st name : p_config <$> find st name = profile_map (pf_profiles st) !! name.
Proof.
  unfold find. induction (pf_profiles st) as [|p ps IH]; [done|]. cbn [List.find]. rewrite profile_map_cons. case_bool_decide as E.
  - by rewrite E, lookup_insert_eq.
  - by rewrite lookup_insert_ne.
Qed.

Lemma find_some st name : is_Some (find st name) <-> is_Some (profile_map (pf_profiles st) !! name).
Proof. by rewrite <- find_map, fmap_is_Some. Qed.

Lemma in_map ps name : is_Some (profile_map ps !! name) <-> name ∈ p_name <$> ps.
Proof.
  induction ps as [|p ps IH]; [rewrite elem_of_nil; split; [by intros [? ?]|done]|]. rewrite profile_map_cons, fmap_cons, elem_of_cons, <- IH.
  destruct (decide (p_name p = name)) as [->|]; [rewrite lookup_insert_eq; naive_solver|rewrite lookup_insert_ne by done; naive_solver].
Qed.

Lemma not_in_map ps name : profile_map ps !! name = None <-> name ∉ p_name <$> ps.
Proof. rewrite <- in_map, eq_None_not_Some. done. Qed.

Lemma profile_map_snoc ps p : p_name p ∉ p_name <$> ps -> profile_map (ps ++ [p]) = <[p_name p := p_config p]> (profile_map ps).
Proof.
  intros H. unfold profile_map. rewrite fmap_app. apply list_to_map_snoc. by rewrite <- list_fmap_compose.
Qed.

(** A profile changed in place, under its own name or a new one. *)
Lemma change_first_spec from to v ps : NoDup (p_name <$> ps) -> from ∈ p_name <$> ps -> to = from \/ to ∉ p_name <$> ps ->
  let ps' := change_first from (fun p => mkProfile to (v p)) ps in
  NoDup (p_name <$> ps') /\ (forall x, x ∈ p_name <$> ps' <-> x = to \/ x ∈ p_name <$> ps /\ x <> from) /\
  exists p, p ∈ ps /\ p_name p = from /\ profile_map ps' = <[to := v p]> (delete from (profile_map ps)) /\
    (forall q, q ∈ ps' -> q = mkProfile to (v p) \/ q ∈ ps).
Proof.
  cbn zeta. induction ps as [|p ps IH]; intros Hn Hf Ht; [by apply elem_of_nil in Hf|]. cbn [change_first].
  rewrite fmap_cons in Hn, Hf, Ht |- *. apply NoDup_cons in Hn as [Hp Hn]. case_bool_decide as E.
  - subst from. rewrite !fmap_cons. cbn [p_name]. assert (to ∉ p_name <$> ps) as Hto by (destruct Ht as [->|Ht]; [done|by apply not_elem_of_cons in Ht as [_ ?]]).
    split_and!.
    + by apply NoDup_cons.
    + intros x. rewrite !elem_of_cons. split; [intros [->|Hx]; [by left|right; split; [by right|by intros ->]]|naive_solver].
    + exists p. split_and!; [by left|done| |].
      * rewrite !profile_map_cons. cbn [p_name p_config]. by rewrite delete_insert_id by (by apply not_in_map).
      * intros q [->|Hq]%elem_of_cons; [by left|right; by right].
  - apply elem_of_cons in Hf as [Hf|Hf]; [congruence|]. assert (to = from \/ to ∉ p_name <$> ps) as Ht' by (destruct Ht as [->|Ht]; [by left|right; set_solver]).
    destruct (IH Hn Hf Ht') as (H1 & H2 & p0 & Hp0 & E0 & Em & Hq). assert (to <> p_name p) as Hne by (destruct Ht as [->|Ht]; [congruence|set_solver]).
    rewrite fmap_cons. split_and!.
    + apply NoDup_cons. split; [|done]. rewrite H2. naive_solver.
    + intros x. rewrite !elem_of_cons, H2. destruct (decide (x = p_name p)); naive_solver.
    + exists p0. split_and!; [by right|done| |].
      * rewrite !profile_map_cons, Em. rewrite delete_insert_ne by done. by apply insert_insert_ne.
      * intros q [->|Hin]%elem_of_cons; [right; by left|]. destruct (Hq q Hin); [by left|right; by right].
Qed.

Lemma remove_named_spec name ps : NoDup (p_name <$> ps) ->
  match remove_named name ps with
  | None => name ∉ p_name <$> ps
  | Some ps' => name ∈ p_name <$> ps /\ NoDup (p_name <$> ps') /\ ps' ⊆ ps /\ profile_map ps' = delete name (profile_map ps)
  end.
Proof.
  induction ps as [|p ps IH]; intros Hn; [apply not_elem_of_nil|]. cbn [remove_named]. rewrite fmap_cons in *. apply NoDup_cons in Hn as [Hp Hn].
  case_bool_decide as E.
  - subst name. split_and!; [by left|done|set_solver|]. rewrite profile_map_cons. rewrite delete_insert_id; [done|by apply not_in_map].
  - specialize (IH Hn). destruct (remove_named name ps) as [ps'|]; cbn [fmap option_fmap option_map]; [|set_solver].
    destruct IH as (H1 & H2 & H3 & H4). split_and!; [by right| |set_solver|by rewrite !profile_map_cons, H4, delete_insert_ne].
    rewrite fmap_cons. apply NoDup_cons. split; [|done]. intros (q & Eq & Hq%H3)%list_elem_of_fmap. apply Hp. rewrite Eq. by apply list_elem_of_fmap_2.
Qed.

(** ** One operation *)
Definition active_ok (a : Abstract) : Prop := a.1 = [] \/ is_Some (a.2 !! a.1).

Definition op_ok (op : StoreOp) (st : Store) : Prop :=
  match op_run op st with
  | Ok st' => spec op (abs st) = Ok (abs st') /\ store_ok st'
  | Err e => spec op (abs st) = Err e
  | Panic => False
  end.

Lemma name_ok name : trim name <> [] -> blank (trim name) = false.
Proof. intros H. unfold blank. rewrite trim_trim. by apply bool_decide_eq_false. Qed.

Lemma store_snoc active st name v : store_ok st -> profile_map (pf_profiles st) !! name = None -> blank name = false -> is_object v = true ->
  abs (mkProfiles active (pf_profiles st ++ [mkProfile name v])) = (active, <[name := v]> (profile_map (pf_profiles st))) /\
  store_ok (mkProfiles active (pf_profiles st ++ [mkProfile name v])).
Proof.
  intros [Hn Hp] Hnone%not_in_map Hb Hv. split; [unfold abs; cbn [pf_active pf_profiles]; by rewrite profile_map_snoc|].
  constructor; unfold names in *; cbn [pf_profiles].
  - rewrite fmap_app. apply NoDup_app. split_and!; [done| |apply NoDup_singleton]. by intros x Hx ->%list_elem_of_singleton.
  - apply Forall_app. split; [done|by apply Forall_singleton].
Qed.

Lemma store_change active st from to v : store_ok st -> is_Some (profile_map (pf_profiles st) !! from) ->
  to = from \/ profile_map (pf_profiles st) !! to = None -> blank to = false -> (forall p, p ∈ pf_profiles st -> is_object (v p) = true) ->
  let ps := change_first from (fun p => mkProfile to (v p)) (pf_profiles st) in
  store_ok (mkProfiles active ps) /\
  exists p, p ∈ pf_profiles st /\ p_name p = from /\ abs (mkProfiles active ps) = (active, <[to := v p]> (delete from (profile_map (pf_profiles st)))).
Proof.
  intros [Hn Hp] Hf%in_map Ht Hb Hv. rewrite not_in_map in Ht. destruct (change_first_spec from to v (pf_profiles st) Hn Hf Ht) as (H1 & H2 & p & Hin & E & Em & Hq).
  split; [|exists p; split_and!; [done|done|]; unfold abs; cbn [pf_active pf_profiles]; by rewrite Em]. constructor; [done|]. cbn [pf_profiles].
  rewrite Forall_forall in *. intros q [->|Hin']%Hq; [cbn [p_name p_config]; auto|by apply Hp].
Qed.

Lemma find_of_map st name p : NoDup (names st) -> p ∈ pf_profiles st -> p_name p = name -> profile_map (pf_profiles st) !! name = Some (p_config p).
Proof.
  intros Hn Hin <-. apply elem_of_list_to_map_1; [by rewrite <- list_fmap_compose|]. apply list_elem_of_fmap. by exists p.
Qed.

Lemma find_none st name : find st name = None <-> profile_map (pf_profiles st) !! name = None.
Proof. rewrite <- find_map. by destruct (find st name). Qed.

Lemma change_first_named name (v : Snap) ps : change_first name (fun p => mkProfile (p_name p) v) ps = change_first name (fun _ => mkProfile name v) ps.
Proof. induction ps as [|q ps IH]; [done|]. cbn [change_first]. case_bool_decide as E; [by rewrite E|by rewrite IH]. Qed.

Lemma upsert_ok name v st : store_ok st -> op_ok (OpUpsert name v) st.
Proof.
  intros Hok. unfold op_ok, spec, new_name, new_snapshot. cbn [op_run abs]. unfold upsert. case_bool_decide as E; [done|]. cbn [res_bind].
  destruct (is_object v) eqn:Ev; cbn [negb res_bind]; [|done]. pose proof (name_ok name E) as Hb. destruct (find st (trim name)) as [p|] eqn:Ef.
  - assert (is_Some (profile_map (pf_profiles st) !! trim name)) as Hs by (apply find_some; by rewrite Ef).
    rewrite change_first_named.
    destruct (store_change (trim name) st (trim name) (trim name) (fun _ => v) Hok Hs) as (H1 & _ & _ & _ & ->); [by left|done|done|].
    split; [|done]. by rewrite insert_delete_eq.
  - destruct (store_snoc (trim name) st (trim name) v Hok) as (-> & H2); [by apply find_none|done..|]. done.
Qed.

Lemma unused_find name st : unused name (profile_map (pf_profiles st)) = if bool_decide (is_Some (find st name)) then Err (PeDuplicate name) else Ok tt.
Proof. unfold unused. by rewrite (bool_decide_ext _ _ (find_some st name)). Qed.

Lemma insert_new_ok name v st : store_ok st -> op_ok (OpInsertNew name v) st.
Proof.
  intros Hok. unfold op_ok, spec, new_name, new_snapshot. cbn [op_run abs]. unfold insert_new. case_bool_decide as E; [done|]. cbn [res_bind].
  destruct (is_object v) eqn:Ev; cbn [negb res_bind]; [|done]. rewrite unused_find. case_bool_decide as Ef; [done|]. cbn [res_bind].
  destruct (store_snoc (trim name) st (trim name) v Hok) as (-> & H2); [|by apply name_ok|done|done].
  rewrite find_some in Ef. by apply eq_None_not_Some.
Qed.

Lemma duplicate_ok from to st : store_ok st -> op_ok (OpDuplicate from to) st.
Proof.
  intros Hok. unfold op_ok, spec, new_name, used. cbn [op_run abs]. unfold duplicate. case_bool_decide as E; [done|]. cbn [res_bind].
  rewrite unused_find. case_bool_decide as Ef; [done|]. cbn [res_bind]. rewrite <- (find_map st from).
  destruct (find st from) as [src|] eqn:Es; cbn [fmap option_fmap option_map res_bind]; [|done].
  apply List.find_some in Es as [Hin%list_elem_of_In _]. destruct Hok as [Hn Hp]. pose proof Hp as Hp'. rewrite Forall_forall in Hp'. destruct (Hp' src Hin) as [_ Ho].
  destruct (store_snoc (pf_active st) st (trim to) (p_config src)) as (-> & H2); [done| |by apply name_ok|done|done].
  rewrite find_some in Ef. by apply eq_None_not_Some.
Qed.

Lemma rename_ok from to st : store_ok st -> op_ok (OpRename from to) st.
Proof.
  intros Hok. unfold op_ok, spec, new_name, used. cbn [op_run abs]. unfold rename. case_bool_decide as E; [done|]. cbn [res_bind].
  assert ((if bool_decide (from = trim to) then Ok tt else unused (trim to) (profile_map (pf_profiles st))) =
    if bool_decide (from <> trim to) && bool_decide (is_Some (find st (trim to))) then Err (PeDuplicate (trim to)) else Ok tt) as ->.
  { rewrite unused_find. do 3 case_bool_decide; done. }
  destruct (bool_decide (from <> trim to) && _) eqn:Ed; [done|]. cbn [res_bind]. rewrite <- (find_map st from).
  destruct (find st from) as [p0|] eqn:Es; cbn [fmap option_fmap option_map res_bind]; [|done].
  assert (is_Some (profile_map (pf_profiles st) !! from)) as Hs by (apply find_some; by rewrite Es).
  set (act := if bool_decide (pf_active st = from) then trim to else pf_active st).
  destruct (store_change act st from (trim to) p_config Hok Hs) as (H1 & p & Hin & Ep & ->).
  - apply andb_false_iff in Ed as [Ed|Ed]; apply bool_decide_eq_false in Ed; [left; symmetry; by apply dec_stable|right; rewrite find_some in Ed; by apply eq_None_not_Some].
  - by apply name_ok.
  - intros p Hin. destruct Hok as [_ Hp]. rewrite Forall_forall in Hp. by apply Hp.
  - split; [|done]. pose proof (find_of_map st from p (so_names _ Hok) Hin Ep) as E1. rewrite <- find_map, Es in E1. cbn in E1. by injection E1 as ->.
Qed.

Lemma delete_ok name st : store_ok st -> op_ok (OpDelete name) st.
Proof.
  intros [Hn Hp]. unfold op_ok, spec, used. cbn [op_run abs]. unfold delete_profile. pose proof (remove_named_spec name (pf_profiles st) Hn) as H.
  destruct (remove_named name (pf_profiles st)) as [ps'|].
  - destruct H as ([v Hv]%in_map & H2 & H3 & H4). rewrite Hv. cbn [res_bind]. unfold abs. cbn [pf_active pf_profiles]. rewrite H4. split; [done|].
    constructor; [done|]. cbn [pf_profiles]. rewrite Forall_forall in *. intros q Hq%H3. by apply Hp.
  - apply not_in_map in H. by rewrite H.
Qed.

(** ** Sequences of operations, a failed one leaving the store as it is *)
Fixpoint run (ops : list StoreOp) (st : Store) : list (option ProfileError) * Store :=
  match ops with
  | [] => ([], st)
  | op :: ops =>
    match op_run op st with
    | Ok st' => let '(l, st') := run ops st' in (None :: l, st')
    | Err e => let '(l, st') := run ops st in (Some e :: l, st')
    | Panic => ([], st)
    end
  end.

Fixpoint spec_run (ops : list StoreOp) (a : Abstract) : list (option ProfileError) * Abstract :=
  match ops with
  | [] => ([], a)
  | op :: ops =>
    match spec op a with
    | Ok a' => let '(l, a') := spec_run ops a' in (None :: l, a')
    | Err e => let '(l, a') := spec_run ops a in (Some e :: l, a')
    | Panic => ([], a)
    end
  end.

Lemma all_ops_ok op st : store_ok st -> op_ok op st.
Proof. destruct op; [apply upsert_ok|apply insert_new_ok|apply rename_ok|apply delete_ok|apply duplicate_ok]. Qed.

Lemma active_insert a n v m : active_ok (a, m) -> active_ok (a, <[n := v]> m).
Proof. intros [H|H]; [by left|right]. cbn in *. apply lookup_insert_is_Some. destruct (decide (n = a)); auto. Qed.

Lemma active_new n v m : active_ok (n, <[n := v]> m).
Proof. right. cbn. by rewrite lookup_insert_eq. Qed.

Lemma active_delete a n m : active_ok (a, m) -> a <> n -> active_ok (a, delete n m).
Proof. intros [H|H] Hne; [by left|right]. cbn in *. by rewrite lookup_delete_ne. Qed.

Lemma spec_active op a a' : active_ok a -> spec op a = Ok a' -> active_ok a'.
Proof.
  destruct a as [active m]. intros Ha. destruct op as [n v|n v|f t|n|f t]; cbn [spec]; intros (x & _ & H)%res_bind_Ok.
  - apply res_bind_Ok in H as (_ & _ & [= <-]). apply active_new.
  - apply res_bind_Ok in H as (_ & _ & (_ & _ & [= <-])%res_bind_Ok). apply active_new.
  - apply res_bind_Ok in H as (_ & _ & (v & _ & [= <-])%res_bind_Ok). case_bool_decide; [apply active_new|by apply active_insert, active_delete].
  - injection H as <-. case_bool_decide; [by left|by apply active_delete].
  - apply res_bind_Ok in H as (_ & _ & (v & _ & [= <-])%res_bind_Ok). by apply active_insert.
Qed.

(** The store of profiles refines a map from names to snapshots with the active name
    beside it.  After any operations, failed ones included, each operation has succeeded or
    been refused exactly as the map says (an empty or used name, a snapshot that is no object,
    a name that is not there), the profiles are those of the map, under names that are unique
    and not blank, each with an object; and the active name is empty or names a profile if it
    did before. *)
Theorem profiles_refine_map (ops : list StoreOp) (st : Store) (Hst : store_ok st) :
  let '(l, st') := run ops st in
  spec_run ops (abs st) = (l, abs st') /\ length l = length ops /\ store_ok st' /\ (active_ok (abs st) -> active_ok (abs st')).
Proof.
  revert st Hst. induction ops as [|op ops IH]; intros st Hst; cbn [run spec_run]; [done|].
  pose proof (all_ops_ok op st Hst) as Hop. unfold op_ok in Hop. destruct (op_run op st) as [st1|e|]; [|rewrite Hop|done].
  - destruct Hop as [E Hst1]. rewrite E. specialize (IH st1 Hst1). destruct (run ops st1) as [l st']. destruct IH as (-> & Hl & Hst' & Ha).
    split_and!; [done|cbn; lia|done|]. intros H. apply Ha. by eapply spec_active.
  - specialize (IH st Hst). destruct (run ops st) as [l st']. destruct IH as (-> & Hl & Hst' & Ha). split_and!; [done|cbn; lia|done|done].
Qed.

(** ** Loading *)
Lemma validate_all_spec i ps : match validate_all i ps with
  | Ok _ => Forall (fun p => blank (p_name p) = false /\ is_object (p_config p) = true) ps
  | Err _ => ~ Forall (fun p => blank (p_name p) = false /\ is_object (p_config p) = true) ps
  | Panic => False
  end.
Proof.
  revert i. induction ps as [|p ps IH]; intros i; cbn [validate_all]; [constructor|]. unfold validate_profile.
  destruct (blank (p_name p)) eqn:Eb; cbn [res_bind]; [intros [[? ?] _]%Forall_cons; congruence|].
  destruct (is_object (p_config p)) eqn:Eo; cbn [negb res_bind]; [|intros [[? ?] _]%Forall_cons; congruence].
  specialize (IH (S i)). destruct (validate_all (S i) ps); [by constructor| |done]. by intros [_ ?]%Forall_cons.
Qed.

Lemma unique_names_spec i seen ps : match unique_names i seen ps with
  | Ok _ => NoDup (p_name <$> ps) /\ (forall n, n ∈ seen -> n ∉ p_name <$> ps)
  | Err _ => ~ (NoDup (p_name <$> ps) /\ (forall n, n ∈ seen -> n ∉ p_name <$> ps))
  | Panic => False
  end.
Proof.
  revert i seen. induction ps as [|p ps IH]; intros i seen; cbn [unique_names]; [split; [constructor|intros; apply not_elem_of_nil]|].
  rewrite !fmap_cons. case_bool_decide as E; [intros [_ H]; apply (H _ E); left|]. specialize (IH (S i) ({[p_name p]} ∪ seen)).
  destruct (unique_names (S i) _ ps).
  - destruct IH as [H1 H2]. split; [apply NoDup_cons; split; [apply H2; set_solver|done]|]. intros n Hn. apply not_elem_of_cons. split; [by intros ->|apply H2; set_solver].
  - intros [[H1 H2]%NoDup_cons H3]. apply IH. split; [done|]. intros n [->%elem_of_singleton|Hn]%elem_of_union; [done|]. by apply H3, not_elem_of_cons in Hn as [_ ?].
  - done.
Qed.

Lemma load_store data pf : blank data = false -> store_parse data = Some pf -> store_ok pf -> load_from (Text data) = Ok pf.
Proof.
  intros Hb Hp [Hn Ho]. unfold load_from. rewrite Hb, Hp. pose proof (validate_all_spec 0 (pf_profiles pf)) as H1. pose proof (unique_names_spec 0 ∅ (pf_profiles pf)) as H2.
  destruct (validate_all 0 _); [|done..]. destruct (unique_names 0 ∅ _); [done| |done]. exfalso. apply H2. split; [done|set_solver].
Qed.

Lemma load_ok f pf : load_from f = Ok pf -> store_ok pf.
Proof.
  destruct f as [| |data]; cbn [load_from]; [intros [= <-]; by repeat constructor|done|]. destruct (blank data); [intros [= <-]; by repeat constructor|].
  destruct (store_parse data) as [pf0|]; [|done]. pose proof (validate_all_spec 0 (pf_profiles pf0)) as H1. pose proof (unique_names_spec 0 ∅ (pf_profiles pf0)) as H2.
  destruct (validate_all 0 _); cbn [map_err res_bind]; [|done..]. destruct (unique_names 0 ∅ _); cbn [map_err res_bind]; [|done..]. intros [= <-].
  constructor; [apply H2|done].
Qed.

Lemma load_no_panic f : load_from f <> Panic.
Proof.
  destruct f as [| |data]; cbn [load_from]; [done..|]. destruct (blank data); [done|]. destruct (store_parse data) as [pf|]; [|done].
  pose proof (validate_all_spec 0 (pf_profiles pf)) as H1. pose proof (unique_names_spec 0 ∅ (pf_profiles pf)) as H2.
  destruct (validate_all 0 _); cbn [map_err res_bind]; [|done..]. by destruct (unique_names 0 ∅ _).
Qed.

End profiles.

Section apply.
Context {J : SnapshotJson} {P : CryptoPrims} (valid_sni : str -> bool).

(** ** The checks of a configuration return *)
Lemma bind_no_panic {A B E} (m : res A E) (k : A -> res B E) : m <> Panic -> (forall a, k a <> Panic) -> res_bind m k <> Panic.
Proof. destruct m; cbn; auto. Qed.

Lemma each_no_panic {A E} (check : nat -> A -> res unit E) i l : (forall i x, check i x <> Panic) -> each check i l <> Panic.
Proof. intros H. revert i. induction l as [|x l IH]; intros i; cbn [each]; [done|]. apply bind_no_panic; auto. Qed.

Lemma refuse_no_panic {E} cond (e : E) : refuse cond e <> Panic.
Proof. by destruct cond. Qed.

Lemma map_err_no_panic {A E F} (f : E -> F) (m : res A E) : m <> Panic -> map_err f m <> Panic.
Proof. by destruct m. Qed.

Lemma pattern_no_panic p : validate_relay_url_pattern p <> Panic.
Proof.
  assert (forall ls, pattern_labels ls <> Panic) as H by (intros ls; induction ls as [|l ls IH]; cbn [pattern_labels]; repeat case_match; done).
  unfold validate_relay_url_pattern. repeat case_match; done.
Qed.

Lemma hostname_no_panic h : validate_direct_mode_hostname h <> Panic.
Proof.
  assert (forall ls, hostname_labels ls <> Panic) as H by (intros ls; induction ls as [|l ls IH]; cbn [hostname_labels]; repeat case_match; done).
  unfold validate_direct_mode_hostname. repeat case_match; done.
Qed.

Lemma bech32m_no_panic s : from_bech32m s <> Panic.
Proof. unfold from_bech32m. repeat case_match; done. Qed.

#[local] Hint Resolve bind_no_panic each_no_panic refuse_no_panic map_err_no_panic pattern_no_panic hostname_no_panic bech32m_no_panic : core.

Lemma validate_no_panic c : validate valid_sni c <> Panic.
Proof.
  unfold validate, validate_apps_script, validate_drive, host_list. apply bind_no_panic; [by destruct (mode_of_str _)|]. intros mode.
  apply bind_no_panic; [destruct (uses_apps_script_relay mode); [eauto 8|done]|]. intros _.
  apply bind_no_panic; [destruct (uses_drive_relay mode); [|done]; repeat (apply bind_no_panic; [auto|intros _]); auto|]. intros _.
  repeat (apply bind_no_panic; [auto|intros _]); auto. apply each_no_panic. intros i g. unfold validate_group.
  repeat (apply bind_no_panic; [auto|intros _]); auto.
Qed.

(** ** Saving and applying *)
Context {L : SnapshotLaws J}.

Lemma save_outcome e st tmp file : store_ok st ->
  let '(r, _, file') := save_to e st tmp file in
  match r with Ok _ => load_from file' = Ok st | Err _ => file' = file | Panic => False end.
Proof.
  intros Hst. unfold save_to. destruct (we_dir e); cbn [negb]; [|done]. destruct (store_pretty st) as [json|] eqn:E; [|done].
  destruct (we_broken e); [done|]. destruct (we_rename e); [|done]. destruct (store_parse_pretty st json E) as [H1 H2]. by apply load_store.
Qed.

Lemma write_outcome e v tmp file : let '(r, _, file') := write_config_json_to e v tmp file in
  match r with Ok _ => exists json, snap_pretty v = Some json /\ file' = Text json | Err _ => file' = file | Panic => False end.
Proof.
  unfold write_config_json_to. destruct (snap_pretty v) as [json|] eqn:E; [|done]. destruct (we_dir e); cbn [negb]; [|done].
  destruct (we_broken e); [done|]. destruct (we_rename e); [by exists json|done].
Qed.

Lemma loadable_spec v : match validate_snapshot_loadable valid_sni v with
  | Ok _ => exists cfg, snap_config v = Some cfg /\ validate valid_sni cfg = Ok tt
  | Err _ => True
  | Panic => False
  end.
Proof.
  unfold validate_snapshot_loadable. destruct (snap_config v) as [cfg|]; [|done]. pose proof (validate_no_panic cfg). 
  destruct (validate valid_sni cfg) as [[]| |] eqn:E; cbn; [by exists cfg|done|done].
Qed.

(** Claim C26: applying a profile, whatever is on the disk and however its writes fail.  With
    an error neither file is changed.  Otherwise the profile was in the store and the live
    configuration's file is the print of its snapshot, which loads and passes the checks of
    the runtime; and the store loads again, the same but for the active name, which is the
    profile applied, or, when its own write failed, it is as it was. *)
Theorem profile_applied (ec ep : WriteEnv) (name : str) (d : Disk) :
  let '(r, d') := apply_profile_with_paths valid_sni ec ep name d in
  match r with
  | Panic => False
  | Err _ => d_config d' = d_config d /\ d_profiles d' = d_profiles d
  | Ok outcome =>
    exists pf p json cfg, load_from (d_profiles d) = Ok pf /\ find pf name = Some p /\
      snap_pretty (p_config p) = Some json /\ d_config d' = Text json /\
      snap_config (p_config p) = Some cfg /\ config_load valid_sni (d_config d') = Some cfg /\
      match outcome with
      | AoOk => load_from (d_profiles d') = Ok (mkProfiles name (pf_profiles pf))
      | AoPartialConfigOnly _ => d_profiles d' = d_profiles d
      end
  end.
Proof.
  unfold apply_profile_with_paths. pose proof (load_no_panic (d_profiles d)) as Hnp. destruct (load_from (d_profiles d)) as [pf|e|] eqn:El; [|done|done].
  destruct (find pf name) as [p|] eqn:Ef; [|done]. pose proof (loadable_spec (p_config p)) as Hl. unfold validate_profile.
  destruct (blank (p_name p)); [done|]. destruct (is_object (p_config p)); [|done]. cbn [negb res_bind].
  destruct (validate_snapshot_loadable valid_sni (p_config p)) as [[]|why|]; [|done|done]. destruct Hl as (cfg & Hc & Hv).
  pose proof (write_outcome ec (p_config p) (d_config_tmp d) (d_config d)) as Hw. destruct (write_config_json_to _ _ _ _) as [[[[]|e|] ctmp] cfile]; [|done|done].
  destruct Hw as (json & Hj & ->). assert (store_ok (mkProfiles name (pf_profiles pf))) as Hst by (destruct (load_ok _ _ El); by constructor).
  pose proof (save_outcome ep (mkProfiles name (pf_profiles pf)) (d_profiles_tmp d) (d_profiles d) Hst) as Hs.
  assert (config_load valid_sni (Text json) = Some cfg) as Hcl by (unfold config_load; by rewrite (config_parse_pretty _ _ Hj), Hc, Hv).
  destruct (save_to _ _ _ _) as [[[[]|e|] tmp] file]; [| |done]; cbn [d_config d_profiles]; exists pf, p, json, cfg; by split_and!.
Qed.
End apply.

(** ** A small instance: two snapshots, a configuration and null, and a store of one profile *)
#[export] Instance Profile_eq_dec {V} `{EqDecision V} : EqDecision (Profile V).
Proof. solve_decision. Defined.
#[export] Instance ProfilesFile_eq_dec {V} `{EqDecision V} : EqDecision (ProfilesFile V).
Proof. solve_decision. Defined.

Definition home (active : str) : ProfilesFile bool := mkProfiles active [mkProfile (lit "home") true].

Definition toy_snapshots : SnapshotJson := {|
  Snap := bool; is_object := id;
  snap_pretty v := Some (if v then lit "{..}" else lit "null");
  snap_config v := if v then Some started_config else None;
  config_parse s := if bool_decide (s = lit "{..}") then Some started_config else None;
  store_pretty pf := if bool_decide (pf = home []) then Some (lit "{-}") else if bool_decide (pf = home (lit "home")) then Some (lit "{+}") else None;
  store_parse s := if bool_decide (s = lit "{-}") then Some (home []) else if bool_decide (s = lit "{+}") then Some (home (lit "home")) else None
|}.

Lemma toy_snapshots_laws : SnapshotLaws toy_snapshots.
Proof.
  constructor.
  - intros pf s. cbn [store_pretty store_parse toy_snapshots]. do 2 (case_bool_decide; [intros [= <-]; subst pf; split; vm_compute; reflexivity|]). done.
  - intros v s. cbn. by destruct v; intros [= <-].
Qed.

(** The profile is renamed; a second of the same name and a deletion of the old name are refused. *)
Lemma profiles_refine_map_witness :
  fst (run (J := toy_snapshots) [OpRename (J := toy_snapshots) (lit "home") (lit " work "); OpInsertNew (J := toy_snapshots) (lit "work") true; OpDelete (J := toy_snapshots) (lit "home")] (home (lit "home")))
    = [None; Some (PeDuplicate (lit "work")); Some (PeNotFound (lit "home"))] /\
  store_ok (J := toy_snapshots) (snd (run (J := toy_snapshots) [OpRename (J := toy_snapshots) (lit "home") (lit " work ")] (home (lit "home")))).
Proof.
  split; [vm_compute; reflexivity|].
  pose proof (profiles_refine_map (J := toy_snapshots) [OpRename (J := toy_snapshots) (lit "home") (lit " work ")] (home (lit "home"))) as H.
  destruct (run (J := toy_snapshots) _ _) as [l st']. apply H. constructor; cbn.
  - apply NoDup_singleton.
  - apply Forall_singleton. split; vm_compute; reflexivity.
Defined.

Lemma profile_applied_witness : exists d' pf, apply_profile_with_paths (J := toy_snapshots) (P := toy_crypto) ldh_sni
    (mkWriteEnv true None true true) (mkWriteEnv true None true true) (lit "home") (mkDisk Missing (Text (lit "{-}")) Missing Missing) = (Ok AoOk, d') /\
  d_config d' = Text (lit "{..}") /\ load_from (J := toy_snapshots) (d_profiles d') = Ok pf /\ pf_active pf = lit "home".
Proof.
  pose proof (profile_applied (J := toy_snapshots) (P := toy_crypto) (L := toy_snapshots_laws) ldh_sni
    (mkWriteEnv true None true true) (mkWriteEnv true None true true) (lit "home") (mkDisk Missing (Text (lit "{-}")) Missing Missing)) as H.
  destruct (apply_profile_with_paths _ _ _ _ _) as [r d'] eqn:E. vm_compute in E. injection E as <- <-.
  destruct H as (pf & p & json & cfg & H1 & H2 & H3 & H4 & H5 & H6 & H7). eexists _, _. split; [reflexivity|]. split; [reflexivity|]. split; [exact H7|reflexivity].
Defined.
