(* ===== verification/Doh.v ===== *)
(** * src/doh.rs: names resolved over HTTPS

    The request and the reading of its answer, one endpoint's lookup, the race of the
    endpoints, and the resolver with its cache.  The network is an argument: what each
    endpoint's two connections bring (or that they fail) and in which order the lookups end
    within the time limit.  A lookup gives the cache back while it waits, so [resolve] is two
    steps, [resolve_begin] and [resolve_end], that other lookups may come between.  The JSON
    parser is the parameter [from_slice].  Times are seconds. *)

From stdpp Require Import prelude gmap sorting.
From S2P Require Import Prelude RustStr ListSort IpAddr HttpText HttpRead HttpRewrite RelayJson HostMatch HostRules DirectRules RequestRead MitmRequest MitmRules ConfigCheck.
#[local] Open Scope Z_scope.

Definition MIN_TTL : Z := 60.
Definition MAX_TTL : Z := 3600.
Definition DEFAULT_TTL : Z := 300.
Definition FALLBACK_TTL : Z := 30.
Definition NEG_TTL : Z := 30.
Definition MAX_DOH_RESP : nat := Z.to_nat (64 * 1024).

(** ** The answer's text *)

(** [find_subslice]: where the needle is first, here as the bytes before and behind it. *)
Definition find_subslice (haystack needle : bytes) : option (bytes * bytes) :=
  if bool_decide (needle = []) then None else split_once needle haystack.

Definition has_subslice (haystack needle : bytes) : bool := bool_decide (is_Some (find_subslice haystack needle)).

Definition header_is_chunked (header_block : bytes) : bool :=
  let lower := to_ascii_lowercase header_block in
  has_subslice lower (lit "transfer-encoding:") && has_subslice lower (lit "chunked").

(** A round of the loop takes at least two bytes off [body]. *)
Fixpoint decode_chunks (fuel : nat) (body out : bytes) : option bytes :=
  match fuel with
  | O => None
  | S fuel =>
    '(line, rest) ← find_subslice body CRLF;
    text ← from_utf8 line;
    size ← parse_hex (trim (default [] (head (split_on 59 (trim text)))));
    if size =? 0 then Some out
    else if len rest <? size then None
    else
      let out := out ++ take (Z.to_nat size) rest in
      let rest := drop (Z.to_nat size) rest in
      if (length rest <? 2)%nat then Some out else decode_chunks fuel (drop 2 rest) out
  end.

Definition decode_chunked (body : bytes) : option bytes := decode_chunks (S (length body)) body [].

Definition http_response_body (resp : bytes) : option bytes :=
  '(header_block, body) ← find_subslice resp CRLF2;
  if header_is_chunked header_block then decode_chunked body else Some body.

Definition response_status_ok (resp : bytes) : bool :=
  let line := match find_subslice resp CRLF with Some (l, _) => l | None => resp end in
  match split_on 32 line with
  | _ :: code :: _ => match code with [c; _; _] => c =? 50 | _ => false end
  | _ => false
  end.

Definition stable_dedup (ips : list IpAddr) : list IpAddr :=
  let fix go (seen l : list IpAddr) :=
    match l with [] => [] | ip :: l => if bool_decide (ip ∈ seen) then go seen l else ip :: go (ip :: seen) l end in
  go [] ips.

Definition min_ttl (a b : option Z) : option Z :=
  match a, b with Some x, Some y => Some (Z.min x y) | Some x, None => Some x | None, y => y end.

(** ** JSON *)
Definition get (k : string) (v : Value) : option Value := match v with VObject m => get_key (lit k) m | _ => None end.
Definition as_u64 (v : Value) : option Z := match v with VNumber n => parse_u64 n | _ => None end.
Definition as_array (v : Value) : option (list Value) := match v with VArray l => Some l | _ => None end.

(** One entry of the answer: the address, and the TTL that goes with it. *)
Definition answer_entry (ans : Value) : option (IpAddr * option Z) :=
  typ ← get "type" ans ≫= as_u64;
  if negb ((typ =? 1) || (typ =? 28)) then None else
  data ← get "data" ans ≫= as_str;
  ip ← parse_ip (trim data);
  Some (ip, get "TTL" ans ≫= as_u64).

Section doh.
Context (from_slice : bytes -> option Value).

Definition parse_dns_json (body : bytes) : option (list IpAddr * option Z) :=
  v ← from_slice body;
  let entries := match get "Answer" v ≫= as_array with Some answers => omap answer_entry answers | None => [] end in
  Some (entries.*1, foldl min_ttl None entries.*2).

(** ** One endpoint *)
Record DohEndpoint := mkEndpoint { de_sni : str; de_ip : str; de_host : str; de_path : str }.

Definition default_endpoints : list DohEndpoint :=
  [mkEndpoint (lit "www.microsoft.com") (lit "1.1.1.1") (lit "cloudflare-dns.com") (lit "/dns-query");
   mkEndpoint (lit "www.microsoft.com") (lit "1.0.0.1") (lit "cloudflare-dns.com") (lit "/dns-query");
   mkEndpoint (lit "dns.google") (lit "8.8.8.8") (lit "dns.google") (lit "/resolve")].

Definition doh_request (e : DohEndpoint) (host qtype : str) : bytes :=
  as_bytes (lit "GET " ++ de_path e ++ lit "?name=" ++ host ++ lit "&type=" ++ qtype ++ lit " HTTP/1.1" ++ CRLF
    ++ lit "Host: " ++ de_host e ++ CRLF
    ++ lit "accept: application/dns-json" ++ CRLF
    ++ lit "user-agent: rahgozar-doh" ++ CRLF
    ++ lit "connection: close" ++ CRLF ++ CRLF).

(** What the connection brings up to its end, [None] when it, its handshake or its reading fails. *)
Definition query_one (wire : option bytes) : option (list IpAddr * option Z) :=
  bytes ← wire;
  let buf := take MAX_DOH_RESP bytes in
  if negb (response_status_ok buf) then None else
  body ← http_response_body buf;
  parse_dns_json body.

(** The A and the AAAA connection. *)
Definition query (wires : option bytes * option bytes) : option (list IpAddr * Z) :=
  '(a_ips, a_ttl) ← query_one (fst wires);
  let '(aaaa_ips, aaaa_ttl) := default ([], None) (query_one (snd wires)) in
  let ips := stable_dedup (a_ips ++ aaaa_ips) in
  if bool_decide (ips = []) then None else Some (ips, default DEFAULT_TTL (min_ttl a_ttl aaaa_ttl)).

(** [select_ok] within its time limit: the lookups in the order they end, the first that
    found something wins. *)
Fixpoint select_ok (ends : list (option (list IpAddr * Z))) : option (list IpAddr * Z) :=
  match ends with [] => None | Some r :: _ => Some r | None :: ends => select_ok ends end.

(** ** The resolver *)
Record CacheEntry := mkEntry { ce_ips : list IpAddr; ce_expires : Z }.
Notation Cache := (gmap str CacheEntry).

(** The order of [IpAddr]: every IPv4 address before every IPv6 one, then by octets. *)
Definition ip_key (ip : IpAddr) : list Z := match ip with V4 a b c d => [0; a; b; c; d] | V6 gs => 1 :: gs end.
Definition ip_le (x y : IpAddr) : Prop := lex_le (ip_key x) (ip_key y) = true.
#[export] Instance ip_le_dec : RelDecision ip_le.
Proof. intros x y. unfold ip_le. apply _. Defined.

(** [Vec::dedup] *)
Fixpoint dedup_adjacent (l : list IpAddr) : list IpAddr :=
  match l with
  | [] => []
  | x :: l => match l with y :: _ => if bool_decide (x = y) then dedup_adjacent l else x :: dedup_adjacent l | [] => [x] end
  end.

(** [None] when the system resolver fails or has nothing. *)
Definition system_resolve (found : option (list IpAddr)) : option (list IpAddr) :=
  ips ← found;
  let ips := dedup_adjacent (merge_sort ip_le ips) in
  if bool_decide (ips = []) then None else Some ips.

Definition is_plain_dns_name (name : str) : bool :=
  let b := as_bytes name in
  negb (bool_decide (b = [])) && (len b <=? 253) && forallb (fun c => is_ascii_alphanumeric c || (c =? 46) || (c =? 45) || (c =? 95)) b.

Definition resolve_key (host : str) : str := to_ascii_lowercase (trim_end_matches 46 (trim host)).

Inductive DohError := DeEmptyHost | DeNotPlain | DeNegative | DeMiss.

(** Up to the race: an answer, or the name that is looked up. *)
Definition resolve_begin (now : Z) (host : str) (c : Cache) : res (list IpAddr) DohError + str :=
  let key := resolve_key host in
  if bool_decide (key = []) then inl (Err DeEmptyHost) else
  match parse_ip key with
  | Some ip => inl (Ok [ip])
  | None =>
    if negb (is_plain_dns_name key) then inl (Err DeNotPlain) else
    match c !! key with
    | Some e =>
      if now <? ce_expires e then inl (if bool_decide (ce_ips e = []) then Err DeNegative else Ok (ce_ips e))
      else inr key
    | None => inr key
    end
  end.

Definition cache_insert (now : Z) (key : str) (ips : list IpAddr) (ttl : Z) (c : Cache) : Cache :=
  <[key := mkEntry ips (now + ttl)]> c.

(** [ttl.clamp(MIN_TTL, MAX_TTL)] *)
Definition clamp_ttl (ttl : Z) : Z := Z.max MIN_TTL (Z.min ttl MAX_TTL).

(** From the race on: [ends], the wires of the lookups that end in time, in that order. *)
Definition resolve_end (fallback_system_dns : bool) (now : Z) (key : str) (ends : list (option bytes * option bytes))
    (system : option (list IpAddr)) (c : Cache) : res (list IpAddr) DohError * Cache :=
  match select_ok (query <$> ends) with
  | Some (ips, ttl) => (Ok ips, cache_insert now key ips (clamp_ttl ttl) c)
  | None =>
    match (if fallback_system_dns then system_resolve system else None) with
    | Some ips => (Ok ips, cache_insert now key ips FALLBACK_TTL c)
    | None => (Err DeMiss, cache_insert now key [] NEG_TTL c)
    end
  end.
End doh.

(** * Names resolved over HTTPS, proved

    A body in chunks is decoded whatever its chunks; a request names nothing but the host
    asked for; and under every interleaving of lookups the resolver answers from what the
    endpoints sent for the same name, within the limits of its cache. *)

(** ** Chunks *)
Lemma hex_digits_chars acc s n : hex_digits acc s = Some n -> Forall (fun c => is_whitespace c = false) s.
Proof.
  revert acc. induction s as [|c s IH]; intros acc; cbn [hex_digits]; [constructor|]. intros (d & Hd & H)%bind_Some.
  destruct (_ <=? _); [|done]. constructor; [|by eapply IH]. revert Hd. unfold hex_digit, is_whitespace, between. repeat case_match; lia || done.
Qed.

Lemma no_white_trim s : Forall (fun c => is_whitespace c = false) s -> trim s = s.
Proof.
  intros H. destruct (decide (s = [])) as [->|Hne]; [done|]. rewrite Forall_forall in H. apply trim_id; [done| |]; intros c Hc; apply H.
  - destruct s; [done|]. injection Hc as ->. left.
  - by apply last_Some_elem_of.
Qed.

Lemma parse_hex_trim s n : parse_hex s = Some n -> trim s = s.
Proof.
  intros H. apply no_white_trim. destruct s as [|c s]; [done|]. cbn [parse_hex] in H. destruct (Z.eqb_spec c 43) as [->|].
  - constructor; [done|]. destruct s; [done|]. by eapply hex_digits_chars.
  - by eapply hex_digits_chars.
Qed.

Lemma decode_chunks_spec body text : chunked body text -> forall fuel out, (length text < fuel)%nat -> decode_chunks fuel text out = Some (out ++ body).
Proof.
  induction 1 as [line [Hcr (l & Hl & _ & Hn)]|line c body text [Hcr (l & Hl & _ & Hn)] Hne Hlen Hch IH]; intros fuel out Hf; (destruct fuel as [|fuel]; [lia|]);
    cbn [decode_chunks]; unfold find_subslice; (rewrite bool_decide_eq_false_2 by done); rewrite split_once_crlf by done; cbn [mbind option_bind]; rewrite Hl; cbn [mbind option_bind];
    rewrite (parse_hex_trim _ _ Hn), Hn; cbn [mbind option_bind].
  - by rewrite Z.eqb_refl, app_nil_r.
  - assert (0 < len c) as Hpos by (unfold len; destruct c; [done|cbn; lia]). destruct (Z.eqb_spec (len c) 0); [lia|]. unfold len in *.
    destruct (Z.ltb_spec (Z.of_nat (length (c ++ CRLF ++ text))) (Z.of_nat (length c))) as [Hlt|_]; [rewrite length_app in Hlt; lia|].
    rewrite Nat2Z.id, take_app_length, drop_app_length. destruct (Nat.ltb_spec (length (CRLF ++ text)) 2) as [Hlt|_]; [rewrite length_app in Hlt; cbn in Hlt; lia|].
    change (drop 2 (CRLF ++ text)) with text. rewrite IH; [by rewrite <- app_assoc|]. rewrite !length_app in Hf. cbn in Hf. lia.
Qed.

(** ** The request *)
Definition plain_char (c : Z) : bool := is_ascii_alphanumeric c || (c =? 46) || (c =? 45) || (c =? 95).

Lemma plain_char_ascii c : plain_char c = true -> is_ascii c /\ c <> 10 /\ c <> 32.
Proof. unfold plain_char, is_ascii_alphanumeric, is_ascii_alphabetic, is_digit, is_ascii, between. lia. Qed.

Lemma plain_name_chars name : str_ok name -> is_plain_dns_name name = true -> Forall (fun c => plain_char c = true) name.
Proof.
  intros Hs. unfold is_plain_dns_name. rewrite !andb_true_iff. intros [_ Hc]. rewrite forallb_forall in Hc.
  assert (Forall (fun c => plain_char c = true) (as_bytes name)) as Hp by (apply Forall_forall; intros c Hin; by apply Hc, list_elem_of_In).
  assert (Forall is_ascii (as_bytes name)) as Ha by (eapply Forall_impl; [exact Hp|]; intros c H; by apply plain_char_ascii in H as (? & _)).
  assert (as_bytes name = name) as <-; [|done]. symmetry. apply as_bytes_inj; [done| |by rewrite (as_bytes_ascii _ Ha)].
  eapply Forall_impl; [exact Ha|]. unfold is_ascii, char_ok. lia.
Qed.

Lemma no_lf_crlf_free s : 10 ∉ s -> crlf_free s.
Proof.
  induction s as [|c s IH]; intros H; [done|]. split; [|apply IH; set_solver]. intros _ Hh. destruct s; [done|]. cbn in Hh. set_solver.
Qed.

Ltac header_lit := unfold header_ok; cbn [fst snd]; split_and!;
  [repeat constructor; unfold char_ok; lia|repeat constructor; unfold char_ok; lia|vm_compute; set_solver by lia|reflexivity|reflexivity|crlf_free_lit|crlf_free_lit].

Ltac line_lit := repeat (apply Forall_cons; split; [cbn; unfold is_ascii; lia|]); constructor.

Definition doh_target (e : DohEndpoint) (host qtype : str) : str := de_path e ++ lit "?name=" ++ host ++ lit "&type=" ++ qtype.
Definition doh_headers (e : DohEndpoint) : headers_t :=
  [(lit "Host", de_host e); (lit "accept", lit "application/dns-json"); (lit "user-agent", lit "rahgozar-doh"); (lit "connection", lit "close")].

Lemma doh_header_lines e : (header_text <$> doh_headers e) ≫= crlf = lit "Host: " ++ de_host e ++ CRLF ++ lit "accept: application/dns-json" ++ CRLF
    ++ lit "user-agent: rahgozar-doh" ++ CRLF ++ lit "connection: close" ++ CRLF.
Proof. unfold doh_headers, header_text. cbn [fmap list_fmap mbind list_bind fst snd]. rewrite <- !app_assoc. reflexivity. Qed.

Lemma endpoint_ok e : e ∈ default_endpoints -> Forall header_ok (doh_headers e) /\ Forall (fun c => is_ascii c /\ c <> 10 /\ c <> 32) (de_path e).
Proof.
  unfold default_endpoints. rewrite !elem_of_cons, elem_of_nil. intros [->|[->|[->|[]]]];
    (split; [repeat (apply Forall_cons; split; [header_lit|]); constructor|repeat (apply Forall_cons; split; [cbn; unfold is_ascii; lia|]); constructor]).
Qed.

(** A request to a resolver names the host that is looked up and nothing else.  For
    every host [resolve] lets through, an HTTP server that splits the request into lines
    reads a GET of the resolver's path with the two query parameters, and the four headers,
    so no host a client asks for can add a line, a header or a parameter. *)
Theorem doh_request_exact (e : DohEndpoint) (now : Z) (host qtype key : str) (c : gmap str CacheEntry)
  (He : e ∈ default_endpoints) (Hq : qtype = lit "A" \/ qtype = lit "AAAA") (Hs : str_ok host) (Hk : resolve_begin now host c = inr key) :
  parse_request_head (doh_request e key qtype) = Some (lit "GET", doh_target e key qtype, lit "HTTP/1.1", doh_headers e) /\
  Forall (fun c => plain_char c = true) key.
Proof.
  assert (str_ok key /\ is_plain_dns_name key = true) as [Hks Hkp].
  { unfold resolve_begin in Hk. assert (str_ok (resolve_key host)) as Hrk by (by apply lower_ok, trim_end_by_ok, str_ok_trim). destruct (bool_decide _); [done|]. destruct (parse_ip _); [done|].
    destruct (is_plain_dns_name (resolve_key host)) eqn:E; [|done]. cbn [negb] in Hk. destruct (c !! resolve_key host) as [en|]; [destruct (now <? _); [done|]|]; injection Hk as <-; done. }
  pose proof (plain_name_chars key Hks Hkp) as Hc. split; [|done]. destruct (endpoint_ok e He) as [Hh Hp].
  assert (Forall (fun c => is_ascii c /\ c <> 10 /\ c <> 32) (doh_target e key qtype)) as Ht.
  { unfold doh_target. repeat (apply Forall_app; split); [done|line_lit| |line_lit|].
    - eapply Forall_impl; [exact Hc|]. intros x Hx. by apply plain_char_ascii.
    - destruct Hq as [->| ->]; line_lit. }
  etrans; [|apply (parse_lines (lit "GET") (doh_target e key qtype) (lit "HTTP/1.1") (doh_headers e) [])].
  - f_equal. unfold doh_request, doh_target. rewrite doh_header_lines. f_equal. rewrite <- !app_assoc. reflexivity.
  - rewrite Forall_forall in Ht. constructor; [reflexivity| | |done].
    + split_and!; [apply Forall_forall; intros x Hx; apply Ht in Hx; unfold is_ascii in Hx; unfold char_ok; lia|apply no_lf_crlf_free; intros H; by destruct (Ht _ H) as (_ & ? & _)|intros H; by destruct (Ht _ H) as (_ & _ & ?)].
    + split; [repeat constructor; unfold char_ok; lia|crlf_free_lit].
  - constructor.
Qed.

(** A name written in capitals, with a trailing dot. *)
Lemma doh_request_exact_witness : exists e, resolve_begin 0 (lit "WWW.Instagram.com.") ∅ = inr (lit "www.instagram.com") /\
  parse_request_head (doh_request e (lit "www.instagram.com") (lit "A")) =
    Some (lit "GET", lit "/dns-query?name=www.instagram.com&type=A", lit "HTTP/1.1", doh_headers e).
Proof.
  exists (mkEndpoint (lit "www.microsoft.com") (lit "1.1.1.1") (lit "cloudflare-dns.com") (lit "/dns-query")). split; [vm_compute; reflexivity|].
  apply (doh_request_exact (mkEndpoint (lit "www.microsoft.com") (lit "1.1.1.1") (lit "cloudflare-dns.com") (lit "/dns-query"))
    0 (lit "WWW.Instagram.com.") (lit "A") (lit "www.instagram.com") ∅); [left|by left| |vm_compute; reflexivity].
  repeat (apply Forall_cons; split; [cbn; unfold char_ok; lia|]). constructor.
Defined.

(** ** Addresses *)
Lemma stable_dedup_spec l : NoDup (stable_dedup l) /\ forall ip, ip ∈ stable_dedup l <-> ip ∈ l.
Proof.
  unfold stable_dedup. set (go := fix go (seen l : list IpAddr) := match l with [] => [] | ip :: l => if bool_decide (ip ∈ seen) then go seen l else ip :: go (ip :: seen) l end).
  assert (forall l seen, NoDup (go seen l) /\ forall ip, ip ∈ go seen l <-> ip ∈ l /\ ip ∉ seen) as H.
  { clear l. induction l as [|x l IH]; intros seen; cbn [go]; [split; [constructor|set_solver]|]. case_bool_decide as E.
    - destruct (IH seen) as [H1 H2]. split; [done|]. intros ip. rewrite H2, elem_of_cons. naive_solver.
    - destruct (IH (x :: seen)) as [H1 H2]. split; [apply NoDup_cons; split; [rewrite H2; set_solver|done]|].
      intros ip. rewrite !elem_of_cons, H2. destruct (decide (ip = x)); set_solver. }
  destruct (H l []) as [H1 H2]. split; [done|]. intros ip. rewrite H2. set_solver.
Qed.

#[export] Instance ip_key_inj : Inj (=) (=) ip_key.
Proof. intros [] []; cbn; congruence. Qed.

#[export] Instance ip_le_trans : Transitive ip_le.
Proof. intros x y z. apply lex_le_trans. Qed.
#[export] Instance ip_le_total : Total ip_le.
Proof. intros x y. apply lex_le_total. Qed.

Lemma dedup_adjacent_elem l ip : ip ∈ dedup_adjacent l <-> ip ∈ l.
Proof.
  induction l as [|x l IH]; [done|]. cbn [dedup_adjacent]. destruct l as [|y l]; [done|]. case_bool_decide as E.
  - subst y. rewrite IH. set_solver.
  - by rewrite (elem_of_cons (dedup_adjacent _)), (elem_of_cons (y :: l)), IH.
Qed.

Lemma dedup_adjacent_nodup l : StronglySorted ip_le l -> NoDup (dedup_adjacent l).
Proof.
  induction 1 as [|x l Hl IH Hx]; [constructor|]. cbn [dedup_adjacent]. destruct l as [|y l]; [apply NoDup_singleton|]. case_bool_decide as E; [done|].
  apply NoDup_cons. split; [|done]. rewrite dedup_adjacent_elem. rewrite Forall_forall in Hx. intros Hin. apply E, (inj ip_key).
  apply lex_le_antisym; [apply Hx; left|]. apply elem_of_cons in Hin as [->|Hin]; [apply lex_le_total || destruct (lex_le_total (ip_key y) (ip_key y)); done|].
  apply StronglySorted_inv in Hl as [_ Hy]. rewrite Forall_forall in Hy. by apply Hy.
Qed.

Lemma system_resolve_spec found ips : system_resolve found = Some ips -> ips <> [] /\ NoDup ips /\ exists l, found = Some l /\ forall ip, ip ∈ ips <-> ip ∈ l.
Proof.
  unfold system_resolve. intros (l & -> & H)%bind_Some. case_bool_decide as E; [done|]. injection H as <-. split_and!; [done| |].
  - apply dedup_adjacent_nodup. apply (StronglySorted_merge_sort ip_le l).
  - exists l. split; [done|]. intros ip. rewrite dedup_adjacent_elem. by rewrite (merge_sort_Permutation ip_le l).
Qed.

(** ** The resolver *)
Section resolver.
Context (from_slice : bytes -> option Value) (fallback_system_dns : bool).
Notation query_one := (query_one from_slice).
Notation query := (query from_slice).
Notation resolve_end := (resolve_end from_slice fallback_system_dns).

(** An address in the answer to one of an endpoint's two requests. *)
Definition sent_by (wires : option bytes * option bytes) (ip : IpAddr) : Prop :=
  exists a, (query_one (fst wires) = Some a \/ query_one (snd wires) = Some a) /\ ip ∈ fst a.

Lemma query_spec wires ips ttl : query wires = Some (ips, ttl) -> ips <> [] /\ NoDup ips /\ forall ip, ip ∈ ips -> sent_by wires ip.
Proof.
  unfold Doh.query. intros ([a_ips a_ttl] & Ha & H)%bind_Some. destruct (default ([], None) (query_one (snd wires))) as [b_ips b_ttl] eqn:Eb.
  case_bool_decide as E; [done|]. injection H as <- <-. destruct (stable_dedup_spec (a_ips ++ b_ips)) as [H1 H2]. split_and!; [done|done|].
  intros ip [Hin|Hin]%H2%elem_of_app; [by exists (a_ips, a_ttl); auto|]. destruct (query_one (snd wires)) as [b|] eqn:Eq; cbn in Eb.
  - subst b. exists (b_ips, b_ttl). auto.
  - injection Eb as <- <-. by apply elem_of_nil in Hin.
Qed.

Lemma select_ok_spec ends r : select_ok (query <$> ends) = Some r -> exists wires, wires ∈ ends /\ query wires = Some r.
Proof.
  induction ends as [|w ends IH]; cbn [fmap list_fmap select_ok]; [done|]. destruct (query w) as [q|] eqn:E.
  - intros [= <-]. exists w. split; [left|done].
  - intros (w' & Hw & Eq)%IH. exists w'. split; [by right|done].
Qed.

Inductive DohEvent := EvBegin (now : Z) (host : str) | EvEnd (now : Z) (key : str) (ends : list (option bytes * option bytes)) (system : option (list IpAddr)).

(** The cache and the names whose lookup has begun. *)
Notation State := (gmap str CacheEntry * list str)%type.

Definition doh_step (ev : DohEvent) (s : State) : option State :=
  let '(c, begun) := s in
  match ev with
  | EvBegin now host => match resolve_begin now host c with inl _ => Some s | inr key => Some (c, key :: begun) end
  | EvEnd now key ends system => if bool_decide (key ∈ begun) then Some (snd (resolve_end now key ends system c), begun) else None
  end.

Fixpoint doh_run (evs : list DohEvent) (s : State) : option State := match evs with [] => Some s | ev :: evs => s' ← doh_step ev s; doh_run evs s' end.

(** The lookup that found the addresses (or none), and until when they are kept. *)
Definition found (ends : list (option bytes * option bytes)) (system : option (list IpAddr)) (t : Z) (e : CacheEntry) : Prop :=
  NoDup (ce_ips e) /\
  ((exists wires ttl, wires ∈ ends /\ query wires = Some (ce_ips e, ttl) /\ t + MIN_TTL <= ce_expires e <= t + MAX_TTL) \/
   select_ok (query <$> ends) = None /\ ce_expires e = t + 30 /\
     (ce_ips e = [] \/ fallback_system_dns = true /\ exists l, system = Some l /\ forall ip, ip ∈ ce_ips e <-> ip ∈ l)).

Lemma resolve_end_spec now key ends system c : exists e, snd (resolve_end now key ends system c) = <[key := e]> c /\ found ends system now e /\
  fst (resolve_end now key ends system c) = if bool_decide (ce_ips e = []) then Err DeMiss else Ok (ce_ips e).
Proof.
  unfold Doh.resolve_end, cache_insert, found. destruct (select_ok (query <$> ends)) as [[ips ttl]|] eqn:E.
  - destruct (select_ok_spec ends _ E) as (w & Hw & Hq). destruct (query_spec _ _ _ Hq) as (Hne & Hn & _). exists (mkEntry ips (now + clamp_ttl ttl)). cbn [ce_ips ce_expires].
    rewrite bool_decide_eq_false_2 by done. split_and!; [done|done| |done]. left. exists w, ttl. split_and!; [done|done| |]; unfold clamp_ttl, MIN_TTL, MAX_TTL; lia.
  - destruct (if fallback_system_dns then system_resolve system else None) as [ips|] eqn:Es.
    + destruct fallback_system_dns; [|done]. destruct (system_resolve_spec _ _ Es) as (Hne & Hn & l & Hl & Hips). exists (mkEntry ips (now + FALLBACK_TTL)). cbn [ce_ips ce_expires].
      rewrite bool_decide_eq_false_2 by done. split_and!; [done|done| |done]. right. split_and!; [done|done|]. right. split; [done|]. by exists l.
    + exists (mkEntry [] (now + NEG_TTL)). cbn [ce_ips ce_expires]. rewrite bool_decide_eq_true_2 by done. split_and!; [done|constructor| |done]. right. split_and!; [done|done|by left].
Qed.

(** What is in the cache was found by an earlier lookup of the same name; what is looked up is a plain name. *)
Definition doh_ok (evs : list DohEvent) (s : State) : Prop :=
  (forall key e, fst s !! key = Some e -> exists t ends system, EvEnd t key ends system ∈ evs /\ found ends system t e) /\
  (forall key, key ∈ snd s -> is_plain_dns_name key = true /\ parse_ip key = None).

Lemma begin_lookup now host c key : resolve_begin now host c = inr key -> is_plain_dns_name key = true /\ parse_ip key = None.
Proof.
  unfold resolve_begin. destruct (bool_decide _); [done|]. destruct (parse_ip (resolve_key host)) eqn:Ep; [done|].
  destruct (is_plain_dns_name (resolve_key host)) eqn:E; [|done]. cbn [negb].
  destruct (c !! resolve_key host) as [en|]; [destruct (now <? _); [done|]|]; intros [= <-]; done.
Qed.

Lemma doh_run_ok evs0 evs s s' : doh_ok evs0 s -> doh_run evs s = Some s' -> doh_ok (evs0 ++ evs) s'.
Proof.
  revert evs0 s. induction evs as [|ev evs IH]; intros evs0 s Hok; cbn [doh_run]; [intros [= <-]; by rewrite app_nil_r|].
  intros (s1 & H1 & H)%bind_Some. change (ev :: evs) with ([ev] ++ evs). rewrite app_assoc. eapply IH; [|done]. clear H IH.
  destruct s as [c begun], Hok as [Hc Hb]. cbn [fst snd] in *. destruct ev as [now host|now key ends system]; cbn [doh_step] in H1.
  - destruct (resolve_begin now host c) as [r|key] eqn:E; injection H1 as <-; (split; cbn [fst snd]; [intros k e (t & en & sy & Hin & Hf)%Hc; exists t, en, sy; split; [by apply elem_of_app; left|done]|]); [done|].
    intros k [->|Hk]%elem_of_cons; [by eapply begin_lookup|by apply Hb].
  - case_bool_decide as E; [|done]. injection H1 as <-. split; cbn [fst snd]; [|done]. destruct (resolve_end_spec now key ends system c) as (e & -> & Hf & _).
    intros k e'. destruct (decide (k = key)) as [->|Hne].
    + rewrite lookup_insert_eq. intros [= <-]. exists now, ends, system. split; [apply elem_of_app; right; by apply list_elem_of_singleton|done].
    + rewrite lookup_insert_ne by done. intros (t & en & sy & Hin & Hf')%Hc. exists t, en, sy. split; [by apply elem_of_app; left|done].
Qed.

(** Claim C27: the resolver under every interleaving of lookups.  An answer given at once is the
    address that was asked for as a literal, or what an earlier lookup of the same name found
    less than an hour before: a list without duplicates, never empty, that one endpoint sent,
    or, with the fallback on and every endpoint failed, what the system resolver said less
    than 30 seconds before.  A name is refused at once only when it is no name or when every
    endpoint failed for it less than 30 seconds before; and only plain names are looked up. *)
Theorem doh_answers (evs : list DohEvent) (c : gmap str CacheEntry) (begun : list str) (now : Z) (host : str)
  (Hr : doh_run evs (∅, []) = Some (c, begun)) :
  match resolve_begin now host c with
  | inr key => is_plain_dns_name key = true /\ parse_ip key = None /\ key = resolve_key host
  | inl (Ok ips) =>
    (exists ip, parse_ip (resolve_key host) = Some ip /\ ips = [ip]) \/
    exists t ends system, EvEnd t (resolve_key host) ends system ∈ evs /\ ips <> [] /\ NoDup ips /\ now < t + MAX_TTL /\
      ((exists wires, wires ∈ ends /\ forall ip, ip ∈ ips -> sent_by wires ip) \/
       select_ok (query <$> ends) = None /\ fallback_system_dns = true /\ now < t + FALLBACK_TTL /\
         exists l, system = Some l /\ forall ip, ip ∈ ips <-> ip ∈ l)
  | inl (Err DeNegative) => exists t ends system, EvEnd t (resolve_key host) ends system ∈ evs /\ select_ok (query <$> ends) = None /\ now < t + NEG_TTL
  | inl (Err DeEmptyHost) => resolve_key host = []
  | inl (Err DeNotPlain) => is_plain_dns_name (resolve_key host) = false
  | inl _ => False
  end.
Proof.
  assert (doh_ok evs (c, begun)) as [Hc _] by (apply (doh_run_ok [] evs (∅, []) (c, begun)); [split; [by intros k e|by intros k Hk%elem_of_nil]|done]). cbn [fst] in Hc.
  pose proof (begin_lookup now host c) as Hb. unfold resolve_begin in *. case_bool_decide as E; [done|]. destruct (parse_ip (resolve_key host)) as [ip|] eqn:Ep; [left; by exists ip|].
  destruct (is_plain_dns_name (resolve_key host)) eqn:En; cbn [negb] in *; [|done]. destruct (c !! resolve_key host) as [e|] eqn:El; [|done].
  destruct (Z.ltb_spec now (ce_expires e)); [|done]. destruct (Hc _ _ El) as (t & ends & system & Hin & Hn & Hf). unfold MIN_TTL, MAX_TTL, FALLBACK_TTL, NEG_TTL in *.
  case_bool_decide as Ei.
  - exists t, ends, system. destruct Hf as [(w & ttl & Hw & Hq & _)|(Hs & He & _)]; [by apply query_spec in Hq as (? & _)|]. split_and!; [done|done|lia].
  - right. exists t, ends, system. destruct Hf as [(w & ttl & Hw & Hq & He)|(Hs & He & [?|(Hfb & l & Hl & Hips)])]; [| done |]; (split_and!; [done|done|done|lia|]).
    + left. exists w. split; [done|]. by apply query_spec in Hq as (_ & _ & ?).
    + right. split_and!; [done|done|lia|]. by exists l.
Qed.
End resolver.

(** A body in chunks is given back whole. *)
Lemma chunked_response_body resp head body text : split_once CRLF2 resp = Some (head, text) -> header_is_chunked head = true -> chunked body text ->
  http_response_body resp = Some body.
Proof.
  intros H Hh Hc. unfold http_response_body, find_subslice. rewrite bool_decide_eq_false_2 by done. rewrite H. cbn [mbind option_bind]. rewrite Hh.
  unfold decode_chunked. rewrite (decode_chunks_spec body text Hc) by lia. done.
Qed.

(** One lookup, answered by the only endpoint that ends in time; then the same name again. *)
Definition one_answer (_ : bytes) : option Value :=
  Some (VObject [(lit "Answer", VArray [VObject [(lit "type", VNumber (lit "1")); (lit "TTL", VNumber (lit "20")); (lit "data", VString (lit "10.1.2.3"))]])]).
Definition one_lookup : list DohEvent :=
  [EvBegin 0 (lit "Example.org"); EvEnd 1 (lit "example.org") [(Some (lit "HTTP/1.1 200 OK" ++ CRLF2 ++ lit "{}"), None)] None].

Lemma doh_answers_witness : exists c begun, doh_run one_answer false one_lookup (∅, []) = Some (c, begun) /\
  resolve_begin 60 (lit "example.org.") c = inl (Ok [V4 10 1 2 3]) /\
  exists t ends system, EvEnd t (lit "example.org") ends system ∈ one_lookup /\ 60 < t + MAX_TTL.
Proof.
  destruct (doh_run one_answer false one_lookup (∅, [])) as [[c begun]|] eqn:E; [|exfalso; vm_compute in E; discriminate E].
  exists c, begun. split; [reflexivity|]. pose proof (doh_answers one_answer false one_lookup c begun 60 (lit "example.org.") E) as H.
  assert (resolve_begin 60 (lit "example.org.") c = inl (Ok [V4 10 1 2 3])) as Hb by (vm_compute in E; injection E as <- <-; vm_compute; reflexivity).
  split; [exact Hb|]. rewrite Hb in H. destruct H as [(ip & Hp & _)|(t & ends & system & Hin & _ & _ & Ht & _)]; [vm_compute in Hp; discriminate Hp|].
  exists t, ends, system. split; [exact Hin|exact Ht].
Defined.
