(* ===== verification/Discovery.v ===== *)
(** * Discovery of addresses: src/cdn_discover.rs, src/scan_ips.rs, src/curated_groups.rs

    Which resolved addresses of a host are probed and in which order they are reported
    ([discover_front]); membership in and enumeration of the published address blocks
    ([ip_in_cidr], [cidr_to_ips]) and the pool of candidates drawn from them; and the merge of
    the curated groups into a configuration.  Resolution, probes, the fetched blocks and the
    shuffles are arguments. *)

From stdpp Require Import prelude gmap sorting.
From S2P Require Import Prelude RustStr Bits ListSort IpAddr RelayState HttpText HttpRewrite HostMatch.
#[local] Open Scope Z_scope.

(** ** Public addresses *)
Definition v4_is_multicast (a : Z) : bool := between 224 a 239.
Definition v4_is_documentation (a b c : Z) : bool :=
  ((a =? 192) && (b =? 0) && (c =? 2)) || ((a =? 198) && (b =? 51) && (c =? 100)) || ((a =? 203) && (b =? 0) && (c =? 113)).

Definition is_public_v4 (a b c d : Z) : bool :=
  if v4_is_unspecified a b c d || v4_is_loopback a || v4_is_private a b || v4_is_link_local a b || v4_is_multicast a
     || v4_is_broadcast a b c d || v4_is_documentation a b c then false
  else if a =? 0 then false
  else if (a =? 100) && (Z.land b 0xC0 =? 64) then false
  else if (a =? 192) && (b =? 0) && (c =? 0) then false
  else if (a =? 198) && (Z.land b 0xFE =? 18) then false
  else if Z.land a 0xF0 =? 0xF0 then false
  else true.

Definition is_public_v6 (segs : list Z) : bool :=
  let s0 := default 0 (segs !! 0%nat) in
  let s1 := default 0 (segs !! 1%nat) in
  if negb (Z.land s0 0xE000 =? 0x2000) then false
  else if (s0 =? 0x2001) && (s1 =? 0) then false
  else if (s0 =? 0x2001) && (Z.land s1 0xFFF0 =? 0x20) then false
  else if (s0 =? 0x2001) && (s1 =? 0xDB8) then false
  else negb (s0 =? 0x2002).

Definition is_public_routable_ip (ip : IpAddr) : bool :=
  match ip with
  | V4 a b c d => is_public_v4 a b c d
  | V6 segs => match to_ipv4_mapped segs with Some (a, b, c, d) => is_public_v4 a b c d | None => is_public_v6 segs end
  end.

(** ** [discover_front] *)
Definition MAX_IPS_PROBED : nat := 24.

(** The filter's closure: a public address not seen before is kept. *)
Fixpoint keep_public (seen : list IpAddr) (ips : list IpAddr) : list IpAddr :=
  match ips with
  | [] => []
  | ip :: ips =>
    if negb (is_public_routable_ip ip) then keep_public seen ips
    else if bool_decide (ip ∈ seen) then keep_public seen ips
    else ip :: keep_public (ip :: seen) ips
  end.

Record DiscoveredIp := mkDiscovered { di_ip : IpAddr; di_latency : option Z }.
Definition DiscoveredIp_is_ok (r : DiscoveredIp) : bool := bool_decide (is_Some (di_latency r)).

Inductive DiscoverError := DsEmpty | DsLiteral | DsDns | DsNonPublic (n : nat) | DsNoAddress.

(** [(0, ms)] before [(1, u32::MAX)]: latencies are below 2^32. *)
Definition latency_key (r : DiscoveredIp) : Z := match di_latency r with Some ms => ms | None => 2 ^ 32 + (2 ^ 32 - 1) end.

(** [resolved]: the lookup's answer, [None] when it fails; [probe]: a probe's latency, and
    outer [None] when its task is lost. *)
Definition discover_front (hostname : str) (resolved : option (list IpAddr)) (probe : IpAddr -> option (option Z))
    : res (str * list DiscoveredIp) DiscoverError :=
  let hostname := to_ascii_lowercase (trim_end_matches 46 (trim hostname)) in
  if bool_decide (hostname = []) then Err DsEmpty
  else if bool_decide (is_Some (parse_ip hostname)) then Err DsLiteral
  else match resolved with
       | None => Err DsDns
       | Some resolved =>
         match take MAX_IPS_PROBED (keep_public [] resolved) with
         | [] => let filtered := length (filter (fun ip => is_public_routable_ip ip = false) resolved) in
                 if (0 <? filtered)%nat then Err (DsNonPublic filtered) else Err DsNoAddress
         | ips => Ok (hostname, sort_by_key latency_key (omap (fun ip => mkDiscovered ip <$> probe ip) ips))
         end
       end.

Definition best_ip (results : list DiscoveredIp) : option IpAddr := di_ip <$> List.find DiscoveredIp_is_ok results.

(** ** Address blocks *)
Definition parse_u8 : str -> option Z := parse_uint 255.

Definition pack (o : list Z) : option Z :=
  match o with [a; b; c; d] => Some (Z.lor (Z.lor (Z.lor (Z.shiftl a 24) (Z.shiftl b 16)) (Z.shiftl c 8)) d) | _ => None end.

Definition ip_to_u32 (ip : str) : option Z :=
  let octets := split_on 46 ip in
  if (length octets =? 4)%nat then pack (omap parse_u8 octets) else None.

Definition prefix_mask (prefix_len : Z) : Z :=
  if prefix_len =? 0 then 0 else if 32 <=? prefix_len then 2 ^ 32 - 1 else (2 ^ 32 - 1) - (Z.shiftl 1 (32 - prefix_len) - 1).

Definition ip_in_cidr (ip cidr : str) : bool :=
  match split_on 47 cidr with
  | [base_ip; len_text] =>
    match parse_u8 len_text, ip_to_u32 ip, ip_to_u32 base_ip with
    | Some prefix_len, Some ip_num, Some base_num => Z.land ip_num (prefix_mask prefix_len) =? Z.land base_num (prefix_mask prefix_len)
    | _, _, _ => false
    end
  | _ => false
  end.

Definition u32_string (ip : Z) : str :=
  dotted_quad (Z.land (Z.shiftr ip 24) 0xFF) (Z.land (Z.shiftr ip 16) 0xFF) (Z.land (Z.shiftr ip 8) 0xFF) (Z.land ip 0xFF).

Definition cidr_to_ips (cidr : str) : list str :=
  match split_on 47 cidr with
  | [base_ip; len_text] =>
    match parse_u8 len_text with
    | None => []
    | Some prefix_len =>
      let octets := split_on 46 base_ip in
      if negb (length octets =? 4)%nat then [] else
      match mapM parse_u8 octets ≫= pack with
      | None => []
      | Some base =>
        if 32 <? prefix_len then [] else
        let host_bits := 32 - prefix_len in
        let num_hosts := if 32 <=? host_bits then 2 ^ 32 - 1 else Z.shiftl 1 host_bits in
        let limit := Z.min num_hosts 256 in
        if limit <? 2 then [] else
        (fun i => u32_string (wrap 32 (base + Z.of_nat i))) <$> seq 1 (Z.to_nat (limit - 1) - 1)
      end
    end
  | _ => []
  end.

Definition find_matching_cidrs (ips cidrs : list str) : list str :=
  List.filter (fun cidr => existsb (fun ip => ip_in_cidr ip cidr) ips) cidrs.

(** [shuffle1], [shuffle2]: the two shuffles. *)
Definition build_candidate_ip_pool (max_ips : nat) (famous_ips cidrs : list str) (shuffle1 shuffle2 : list str -> list str) : option (list str) :=
  let priority_cidrs := find_matching_cidrs famous_ips cidrs in
  let priority_ips := shuffle1 (priority_cidrs ≫= cidr_to_ips) in
  let other_ips := shuffle2 (List.filter (fun c => negb (bool_decide (c ∈ priority_cidrs))) cidrs ≫= cidr_to_ips) in
  let candidates := take max_ips priority_ips in
  let candidates := if (length candidates <? max_ips)%nat then candidates ++ take (max_ips - length candidates) other_ips else candidates in
  if bool_decide (candidates = []) then None else Some candidates.

(** ** Curated groups *)
Record MergeReport := mkReport { added : nat; skipped : nat }.

Definition same_name (e g : FrontingGroup) : bool := eq_ignore_ascii_case (trim (cg_name e)) (trim (cg_name g)).

Fixpoint merge_groups (curated existing : list FrontingGroup) (report : MergeReport) : list FrontingGroup * MergeReport :=
  match curated with
  | [] => (existing, report)
  | g :: curated =>
    if existsb (fun e => same_name e g) existing then merge_groups curated existing (mkReport (added report) (S (skipped report)))
    else merge_groups curated (existing ++ [g]) (mkReport (S (added report)) (skipped report))
  end.

Definition merge_into (curated existing : list FrontingGroup) : list FrontingGroup * MergeReport := merge_groups curated existing (mkReport 0 0).

(** * Discovery of addresses, proved

    The filter of public addresses against the list of reserved blocks; what is probed and
    how it is reported; the enumeration of an address block against membership in it; the
    merge of curated groups. *)

(** ** The reserved blocks *)
Definition v4_num (a b c d : Z) : Z := ((a * 256 + b) * 256 + c) * 256 + d.
Definition in_block (n : Z) (blk : Z * Z * Z * Z * Z) : bool := let '(a, b, c, d, p) := blk in n / 2 ^ (32 - p) =? v4_num a b c d / 2 ^ (32 - p).

(** As the documentation of [is_public_routable_ip] lists them. *)
Definition reserved_v4 : list (Z * Z * Z * Z * Z) :=
  [(0, 0, 0, 0, 8); (10, 0, 0, 0, 8); (100, 64, 0, 0, 10); (127, 0, 0, 0, 8); (169, 254, 0, 0, 16); (172, 16, 0, 0, 12); (192, 0, 0, 0, 24);
   (192, 0, 2, 0, 24); (192, 168, 0, 0, 16); (198, 18, 0, 0, 15); (198, 51, 100, 0, 24); (203, 0, 113, 0, 24); (224, 0, 0, 0, 4); (240, 0, 0, 0, 4)].

Lemma land_fe b : is_u8 b -> Z.land b 0xFE = 18 <-> 18 <= b <= 19.
Proof.
  intros Hb. pose proof (u8_exhaustive (fun b => Bool.eqb (Z.land b 0xFE =? 18) ((18 <=? b) && (b <=? 19))) eq_refl b Hb) as H.
  apply Bool.eqb_prop in H. lia.
Qed.

Lemma land_f0 a : is_u8 a -> Z.land a 0xF0 = 0xF0 <-> 240 <= a.
Proof.
  intros Ha. pose proof (u8_exhaustive (fun a => Bool.eqb (Z.land a 0xF0 =? 0xF0) (240 <=? a)) eq_refl a Ha) as H.
  apply Bool.eqb_prop in H. lia.
Qed.

(** The leading bits of an address. *)
Lemma v4_num_div a b c d k : 0 <= b < 256 -> 0 <= c < 256 -> 0 <= d < 256 ->
  v4_num a b c d / 2 ^ (24 + Z.of_nat k) = a / 2 ^ Z.of_nat k /\
  v4_num a b c d / 2 ^ (16 + Z.of_nat k) = (a * 256 + b) / 2 ^ Z.of_nat k /\
  v4_num a b c d / 2 ^ 8 = (a * 256 + b) * 256 + c.
Proof.
  intros Hb Hc Hd. unfold v4_num. split_and!.
  - rewrite Z.pow_add_r, <- Z.div_div by (try apply Z.pow_pos_nonneg; lia). f_equal. change (2 ^ 24) with 16777216. Z.div_mod_to_equations. lia.
  - rewrite Z.pow_add_r, <- Z.div_div by (try apply Z.pow_pos_nonneg; lia). f_equal. change (2 ^ 16) with 65536. Z.div_mod_to_equations. lia.
  - change (2 ^ 8) with 256. Z.div_mod_to_equations. lia.
Qed.

Lemma if_false_iff (x y : bool) : (if x then false else y) = true <-> x = false /\ y = true.
Proof. destruct x; naive_solver. Qed.

Lemma public_v4_blocks a b c d : is_u8 a -> is_u8 b -> is_u8 c -> is_u8 d -> is_public_v4 a b c d = negb (existsb (in_block (v4_num a b c d)) reserved_v4).
Proof.
  intros Ha Hb Hc Hd. pose proof (land_c0 b Hb) as E1. pose proof (land_fe b Hb) as E2. pose proof (land_f0 a Ha) as E3. unfold is_u8 in *.
  unfold is_public_v4, v4_is_unspecified, v4_is_loopback, v4_is_private, v4_is_link_local, v4_is_multicast, v4_is_broadcast, v4_is_documentation, between.
  assert (forall k, v4_num a b c d / 2 ^ (24 + Z.of_nat k) = a / 2 ^ Z.of_nat k) as D1 by (intros k; by apply v4_num_div).
  assert (forall k, v4_num a b c d / 2 ^ (16 + Z.of_nat k) = (a * 256 + b) / 2 ^ Z.of_nat k) as D2 by (intros k; by apply v4_num_div).
  assert (v4_num a b c d / 2 ^ 8 = (a * 256 + b) * 256 + c) as D3 by (by apply (v4_num_div _ _ _ _ 0)).
  pose proof (D1 0%nat) as D8. pose proof (D1 4%nat) as D4. pose proof (D2 0%nat) as D16. pose proof (D2 1%nat) as D15.
  pose proof (D2 4%nat) as D12. pose proof (D2 6%nat) as D10. clear D1 D2.
  unfold reserved_v4, existsb, in_block. change (32 - 8) with (24 + Z.of_nat 0). change (32 - 4) with (24 + Z.of_nat 4). change (32 - 16) with (16 + Z.of_nat 0).
  change (32 - 15) with (16 + Z.of_nat 1). change (32 - 12) with (16 + Z.of_nat 4). change (32 - 10) with (16 + Z.of_nat 6). change (32 - 24) with 8.
  rewrite D8, D4, D16, D15, D12, D10, D3. clear D8 D4 D16 D15 D12 D10 D3.
  unfold v4_num. repeat match goal with |- context [(((?p * 256 + ?q) * 256 + ?r) * 256 + 0) / ?m] =>
    let t := constr:((((p * 256 + q) * 256 + r) * 256 + 0) / m) in let v := eval vm_compute in t in change t with v end.
  change (2 ^ Z.of_nat 0) with 1. change (2 ^ Z.of_nat 1) with 2. change (2 ^ Z.of_nat 4) with 16. change (2 ^ Z.of_nat 6) with 64. rewrite !Z.div_1_r.
  assert ((Z.land b 192 =? 64) = (64 <=? b) && (b <=? 127)) as -> by lia. assert ((Z.land b 254 =? 18) = (18 <=? b) && (b <=? 19)) as -> by lia.
  assert ((Z.land a 240 =? 240) = (240 <=? a)) as -> by lia. clear E1 E2 E3.
  apply eq_true_iff_eq. rewrite !if_false_iff, negb_true_iff, !orb_false_iff, !andb_false_iff, ?Z.eqb_neq, ?Z.leb_gt.
  assert ((a * 256 + b) / 64 <> 401 <-> a <> 100 \/ b < 64 \/ 127 < b) as -> by (Z.div_mod_to_equations; lia).
  assert ((a * 256 + b) / 16 <> 2753 <-> a <> 172 \/ b < 16 \/ 31 < b) as -> by (Z.div_mod_to_equations; lia).
  assert ((a * 256 + b) / 2 <> 25353 <-> a <> 198 \/ b < 18 \/ 19 < b) as -> by (Z.div_mod_to_equations; lia).
  assert (a / 16 <> 14 <-> a < 224 \/ 239 < a) as -> by (Z.div_mod_to_equations; lia).
  assert (a / 16 <> 15 <-> a < 240) as -> by (Z.div_mod_to_equations; lia).
  assert (a * 256 + b <> 43518 <-> a <> 169 \/ b <> 254) as -> by lia.
  assert (a * 256 + b <> 49320 <-> a <> 192 \/ b <> 168) as -> by lia.
  assert ((a * 256 + b) * 256 + c <> 12582912 <-> (a <> 192 \/ b <> 0) \/ c <> 0) as -> by lia.
  assert ((a * 256 + b) * 256 + c <> 12582914 <-> (a <> 192 \/ b <> 0) \/ c <> 2) as -> by lia.
  assert ((a * 256 + b) * 256 + c <> 12989284 <-> (a <> 198 \/ b <> 51) \/ c <> 100) as -> by lia.
  assert ((a * 256 + b) * 256 + c <> 13303921 <-> (a <> 203 \/ b <> 0) \/ c <> 113) as -> by lia.
  assert (a < 240 -> a <> 255) as H255 by lia. clear Ha Hb Hc Hd. split; intros; destruct_and?; split_and!; first [assumption|reflexivity|left; left; left; auto].
Qed.

(** ** Masks *)
Lemma land_high w k s : 0 <= k <= w -> 0 <= s < 2 ^ w -> Z.land s (2 ^ w - 2 ^ k) = s / 2 ^ k * 2 ^ k.
Proof.
  intros Hk Hs. assert (2 ^ w - 2 ^ k = Z.land (Z.ones w) (Z.lnot (Z.ones k))) as ->.
  { rewrite <- Z.ldiff_land, Z.ldiff_ones_r, Z.shiftl_mul_pow2, Z.shiftr_div_pow2, Z.ones_equiv by lia.
    replace (2 ^ w) with (2 ^ (w - k) * 2 ^ k) by (rewrite <- Z.pow_add_r by lia; f_equal; lia).
    assert (0 < 2 ^ k) by (apply Z.pow_pos_nonneg; lia). replace (Z.pred (2 ^ (w - k) * 2 ^ k)) with ((2 ^ k - 1) + (2 ^ (w - k) - 1) * 2 ^ k) by lia.
    rewrite Z.div_add, Z.div_small by lia. lia. }
  rewrite Z.land_assoc, Z.land_ones, Z.mod_small by lia. rewrite <- Z.ldiff_land, Z.ldiff_ones_r, Z.shiftl_mul_pow2, Z.shiftr_div_pow2 by lia. done.
Qed.

(** ** IPv6 *)
Definition in_block6 (n : Z) (blk : Z * Z * Z) : bool := let '(s0, s1, p) := blk in n / 2 ^ (32 - p) =? (s0 * 65536 + s1) / 2 ^ (32 - p).
Definition reserved_v6 : list (Z * Z * Z) := [(0x2001, 0, 32); (0x2001, 0x20, 28); (0x2001, 0xDB8, 32); (0x2002, 0, 16)].

(** An address by its documentation: an IPv4 one, also when mapped, outside the reserved
    blocks; an IPv6 one inside 2000::/3 and outside its reserved blocks. *)
Definition public_v4 (a b c d : Z) : bool := negb (existsb (in_block (v4_num a b c d)) reserved_v4).
Definition documented_public (ip : IpAddr) : bool :=
  match ip with
  | V4 a b c d => public_v4 a b c d
  | V6 segs =>
    match to_ipv4_mapped segs, segs with
    | Some (a, b, c, d), _ => public_v4 a b c d
    | None, s0 :: s1 :: _ => let n := s0 * 65536 + s1 in in_block6 n (0x2000, 0, 3) && negb (existsb (in_block6 n) reserved_v6)
    | None, _ => false
    end
  end.

Definition ip_ok (ip : IpAddr) : Prop :=
  match ip with V4 a b c d => is_u8 a /\ is_u8 b /\ is_u8 c /\ is_u8 d | V6 segs => length segs = 8%nat /\ Forall is_u16 segs end.

Lemma public_v6_blocks s0 s1 segs : is_u16 s0 -> is_u16 s1 ->
  is_public_v6 (s0 :: s1 :: segs) = in_block6 (s0 * 65536 + s1) (0x2000, 0, 3) && negb (existsb (in_block6 (s0 * 65536 + s1)) reserved_v6).
Proof.
  intros H0 H1. unfold is_u16 in *. change (2 ^ 16) with 65536 in *. unfold is_public_v6.
  change (default 0 ((s0 :: s1 :: segs) !! 0%nat)) with s0. change (default 0 ((s0 :: s1 :: segs) !! 1%nat)) with s1.
  pose proof (land_high 16 13 s0 ltac:(lia) H0) as E0. pose proof (land_high 16 4 s1 ltac:(lia) H1) as E1.
  change (2 ^ 16 - 2 ^ 13) with 0xE000 in E0. change (2 ^ 16 - 2 ^ 4) with 0xFFF0 in E1. rewrite E0, E1. clear E0 E1.
  unfold in_block6, reserved_v6, existsb. change (2 ^ (32 - 3)) with 536870912. change (2 ^ (32 - 32)) with 1. change (2 ^ (32 - 28)) with 16. change (2 ^ (32 - 16)) with 65536.
  rewrite !Z.div_1_r. change (2 ^ 13) with 8192. change (2 ^ 4) with 16.
  assert ((s0 / 8192 * 8192 =? 0x2000) = ((s0 * 65536 + s1) / 536870912 =? (0x2000 * 65536 + 0) / 536870912)) as ->.
  { change ((0x2000 * 65536 + 0) / 536870912) with 1. Z.div_mod_to_equations. lia. }
  assert ((s0 =? 0x2001) && (s1 =? 0) = (s0 * 65536 + s1 =? 0x2001 * 65536 + 0)) as -> by lia.
  assert ((s0 =? 0x2001) && (s1 =? 0xDB8) = (s0 * 65536 + s1 =? 0x2001 * 65536 + 0xDB8)) as -> by lia.
  assert ((s0 =? 0x2002) = ((s0 * 65536 + s1) / 65536 =? (0x2002 * 65536 + 0) / 65536)) as ->.
  { change ((0x2002 * 65536 + 0) / 65536) with 0x2002. Z.div_mod_to_equations. lia. }
  assert ((s0 =? 0x2001) && (s1 / 16 * 16 =? 0x20) = ((s0 * 65536 + s1) / 16 =? (0x2001 * 65536 + 0x20) / 16)) as ->.
  { change ((0x2001 * 65536 + 0x20) / 16) with 33558530. Z.div_mod_to_equations. lia. }
  do 5 destruct (_ =? _); reflexivity.
Qed.

Lemma public_documented ip : ip_ok ip -> is_public_routable_ip ip = documented_public ip.
Proof.
  destruct ip as [a b c d|segs]; cbn [ip_ok is_public_routable_ip documented_public].
  - intros (Ha & Hb & Hc & Hd). by apply public_v4_blocks.
  - intros [Hl Hs]. destruct (to_ipv4_mapped segs) as [[[[a b] c] d]|] eqn:E.
    + do 8 (destruct segs as [|? segs]; [done|]). destruct segs; [|done]. cbn in E. destruct (_ && _ && _ && _ && _ && _); [|done]. injection E as <- <- <- <-.
      do 6 (apply Forall_cons in Hs as [_ Hs]). apply Forall_cons in Hs as [Hg Hs]. apply Forall_cons in Hs as [Hh _].
      unfold is_u16 in *. change (2 ^ 16) with 65536 in *. apply public_v4_blocks; unfold is_u8; Z.div_mod_to_equations; lia.
    + destruct segs as [|s0 [|s1 segs]]; [done|done|]. apply Forall_cons in Hs as [H0 [H1 _]%Forall_cons]. by apply public_v6_blocks.
Qed.

(** ** Probes *)
Lemma keep_public_spec seen ips : NoDup (keep_public seen ips) /\
  forall ip, ip ∈ keep_public seen ips <-> ip ∈ ips /\ ip ∉ seen /\ is_public_routable_ip ip = true.
Proof.
  revert seen. induction ips as [|x ips IH]; intros seen; cbn [keep_public]; [split; [constructor|set_solver]|].
  destruct (is_public_routable_ip x) eqn:Ex; cbn [negb].
  - case_bool_decide as Es.
    + destruct (IH seen) as [H1 H2]. split; [done|]. intros ip. rewrite H2, elem_of_cons. naive_solver.
    + destruct (IH (x :: seen)) as [H1 H2]. split; [apply NoDup_cons; split; [rewrite H2; set_solver|done]|].
      intros ip. rewrite !elem_of_cons, H2, elem_of_cons. destruct (decide (ip = x)); naive_solver.
  - destruct (IH seen) as [H1 H2]. split; [done|]. intros ip. rewrite H2, elem_of_cons. split; [naive_solver|]. intros ([->|?] & ? & ?); [congruence|done].
Qed.

Lemma probed_nodup (probe : IpAddr -> option (option Z)) ips : NoDup ips -> NoDup (di_ip <$> omap (fun ip => mkDiscovered ip <$> probe ip) ips).
Proof.
  induction 1 as [|ip ips Hip Hn IH]; [constructor|]. cbn [omap list_omap]. destruct (probe ip) as [l|]; cbn [fmap option_fmap option_map]; [|done].
  rewrite fmap_cons. apply NoDup_cons. split; [|done]. intros (r & Er & (x & Hx & E)%list_elem_of_omap)%list_elem_of_fmap.
  destruct (probe x); [|done]. injection E as <-. cbn in Er. congruence.
Qed.

(** A discovery probes public addresses only.  Whatever a name resolves to, the
    addresses reported are among the answers, each once, at most 24 of them, and by the
    documented list of blocks each is public: outside the fourteen reserved IPv4 blocks, also
    when it is an IPv4 address mapped into IPv6, or inside 2000::/3 and outside the four
    reserved blocks there.  They are reported by ascending latency with the failures behind,
    so the first that answered is a fastest one. *)
Theorem discovery_public (hostname name : str) (resolved : list IpAddr) (probe : IpAddr -> option (option Z)) (results : list DiscoveredIp)
  (Hr : Forall ip_ok resolved) (Hd : discover_front hostname (Some resolved) probe = Ok (name, results)) :
  NoDup (di_ip <$> results) /\ (length results <= MAX_IPS_PROBED)%nat /\
  (forall r, r ∈ results -> di_ip r ∈ resolved /\ documented_public (di_ip r) = true /\ probe (di_ip r) = Some (di_latency r)) /\
  StronglySorted (fun r s => latency_key r <= latency_key s) results.
Proof.
  unfold discover_front in Hd. case_bool_decide; [done|]. case_bool_decide; [done|].
  destruct (keep_public_spec [] resolved) as [Hn Hk]. set (ips := take MAX_IPS_PROBED (keep_public [] resolved)) in *.
  assert (NoDup ips) as Hni by (eapply sublist_NoDup; [exact Hn|apply sublist_take]). assert (length ips <= MAX_IPS_PROBED)%nat as Hl by apply firstn_le_length.
  assert (results = sort_by_key latency_key (omap (fun ip => mkDiscovered ip <$> probe ip) ips)) as ->.
  { destruct ips; [destruct (0 <? _)%nat; done|]. by injection Hd. }
  split_and!.
  - unfold sort_by_key. rewrite (sort_by_perm (by_key latency_key)). by apply probed_nodup.
  - unfold sort_by_key. rewrite (Permutation_length (sort_by_perm _ _)). etrans; [|exact Hl]. clear. induction ips as [|ip ips IH]; [done|]. cbn [omap list_omap]. destruct (probe ip); cbn; lia.
  - intros r Hin%elem_of_sort_by. apply list_elem_of_omap in Hin as (ip & Hip & E). destruct (probe ip) as [l|] eqn:El; [|done]. injection E as <-. cbn.
    assert (ip ∈ keep_public [] resolved) as (H1 & _ & H3)%Hk by (eapply elem_of_sublist; [exact Hip|apply sublist_take]).
    split_and!; [done| |done]. rewrite <- public_documented; [done|]. rewrite Forall_forall in Hr. by apply Hr.
  - apply sort_by_key_sorted.
Qed.

(** A name that resolves to a public address, twice, and to a private one. *)
Lemma discovery_public_witness : exists results,
  discover_front (lit "Example.org.") (Some [V4 93 184 215 14; V4 10 0 0 1; V4 93 184 215 14]) (fun _ => Some (Some 20)) = Ok (lit "example.org", results) /\
  (length results <= MAX_IPS_PROBED)%nat /\ di_ip <$> results = [V4 93 184 215 14].
Proof.
  exists [mkDiscovered (V4 93 184 215 14) (Some 20)].
  assert (discover_front (lit "Example.org.") (Some [V4 93 184 215 14; V4 10 0 0 1; V4 93 184 215 14]) (fun _ => Some (Some 20))
    = Ok (lit "example.org", [mkDiscovered (V4 93 184 215 14) (Some 20)])) as E by (vm_compute; reflexivity).
  split; [exact E|]. split; [|reflexivity]. eapply (discovery_public _ _ [V4 93 184 215 14; V4 10 0 0 1; V4 93 184 215 14]); [|exact E].
  repeat (apply Forall_cons; split; [cbn; unfold is_u8; lia|]). constructor.
Defined.

(** ** Address blocks *)
Lemma pack_num a b c d : is_u8 a -> is_u8 b -> is_u8 c -> is_u8 d -> pack [a; b; c; d] = Some (v4_num a b c d).
Proof.
  intros Ha Hb Hc Hd. unfold is_u8 in *. cbn [pack]. f_equal. rewrite !Z.shiftl_mul_pow2 by lia. unfold v4_num.
  change (2 ^ 24) with (2 ^ Z.of_nat 24). rewrite lor_disjoint by (change (2 ^ Z.of_nat 24) with 16777216; change (2 ^ 16) with 65536; lia).
  replace (a * 2 ^ Z.of_nat 24 + b * 2 ^ 16) with ((a * 256 + b) * 2 ^ Z.of_nat 16) by (change (2 ^ Z.of_nat 24) with 16777216; change (2 ^ 16) with 65536; change (2 ^ Z.of_nat 16) with 65536; lia).
  rewrite lor_disjoint by (change (2 ^ Z.of_nat 16) with 65536; change (2 ^ 8) with 256; lia).
  replace ((a * 256 + b) * 2 ^ Z.of_nat 16 + c * 2 ^ 8) with (((a * 256 + b) * 256 + c) * 2 ^ Z.of_nat 8) by (change (2 ^ Z.of_nat 16) with 65536; change (2 ^ 8) with 256; change (2 ^ Z.of_nat 8) with 256; lia).
  rewrite lor_disjoint by (change (2 ^ Z.of_nat 8) with 256; lia). done.
Qed.

Lemma quad_split a b c d : is_u8 a -> is_u8 b -> is_u8 c -> is_u8 d ->
  split_on 46 (dotted_quad a b c d) = [dec_string a; dec_string b; dec_string c; dec_string d] /\ 47 ∉ dotted_quad a b c d.
Proof.
  intros Ha Hb Hc Hd. unfold is_u8 in *. unfold dotted_quad, octet_string, DOT.
  assert (forall n x, is_digit x = false -> 0 <= n < 256 -> x ∉ dec_string n) as H by (intros n x Hx Hn; apply dec_string_not_elem; [done|lia]).
  split; [rewrite !split_on_first, split_on_none by (by apply H); done|].
  repeat (apply not_elem_of_app; split; [by apply H|]; apply not_elem_of_cons; split; [lia|]). by apply H.
Qed.

Lemma parse_octet n : is_u8 n -> parse_u8 (dec_string n) = Some n.
Proof. unfold is_u8. intros H. apply parse_dec_string; lia. Qed.

Lemma quad_num a b c d : is_u8 a -> is_u8 b -> is_u8 c -> is_u8 d -> ip_to_u32 (dotted_quad a b c d) = Some (v4_num a b c d).
Proof.
  intros Ha Hb Hc Hd. unfold ip_to_u32. destruct (quad_split a b c d Ha Hb Hc Hd) as [-> _]. cbn [length Nat.eqb omap list_omap].
  rewrite !parse_octet by done. by apply pack_num.
Qed.

(** A 32-bit number as its octets. *)
Lemma u32_octets n : 0 <= n < 2 ^ 32 ->
  exists a b c d, is_u8 a /\ is_u8 b /\ is_u8 c /\ is_u8 d /\ n = v4_num a b c d /\ u32_string n = dotted_quad a b c d.
Proof.
  intros Hn. change (2 ^ 32) with 4294967296 in Hn. exists (n / 2 ^ 24 mod 256), (n / 2 ^ 16 mod 256), (n / 2 ^ 8 mod 256), (n mod 256).
  assert (forall x, Z.land x 0xFF = x mod 256) as Hland by (intros x; apply (Z.land_ones x 8); lia).
  unfold is_u8, v4_num, u32_string. rewrite !Hland, !Z.shiftr_div_pow2 by lia. change (2 ^ 24) with 16777216. change (2 ^ 16) with 65536. change (2 ^ 8) with 256.
  split_and!; try (apply Z.mod_pos_bound; lia); [|done]. Z.div_mod_to_equations. lia.
Qed.

Lemma u32_round n : 0 <= n < 2 ^ 32 -> ip_to_u32 (u32_string n) = Some n.
Proof. intros Hn. destruct (u32_octets n Hn) as (a & b & c & d & Ha & Hb & Hc & Hd & -> & ->). by apply quad_num. Qed.

(** The text of a block. *)
Definition block_text (base prefix_len : Z) : str := u32_string base ++ 47 :: dec_string prefix_len.

Lemma block_split base p : 0 <= base < 2 ^ 32 -> 0 <= p < 256 -> split_on 47 (block_text base p) = [u32_string base; dec_string p] /\ parse_u8 (dec_string p) = Some p.
Proof.
  intros Hb Hp. destruct (u32_octets base Hb) as (a & b & c & d & Ha & Hbb & Hc & Hd & _ & E). unfold block_text. rewrite E.
  destruct (quad_split a b c d Ha Hbb Hc Hd) as [_ H47]. rewrite split_on_first by done. rewrite split_on_none; [split; [done|by apply parse_octet]|].
  apply dec_string_not_elem; [done|lia].
Qed.

Lemma mask_div p n : 0 <= p <= 32 -> 0 <= n < 2 ^ 32 -> Z.land n (prefix_mask p) = n / 2 ^ (32 - p) * 2 ^ (32 - p).
Proof.
  intros Hp Hn. unfold prefix_mask. destruct (Z.eqb_spec p 0) as [->|].
  - rewrite Z.land_0_r. change (2 ^ (32 - 0)) with (2 ^ 32). by rewrite Z.div_small.
  - destruct (Z.leb_spec 32 p).
    + replace p with 32 by lia. change (2 ^ (32 - 32)) with 1. rewrite Z.div_1_r, Z.mul_1_r. change (2 ^ 32 - 1) with (Z.ones 32). rewrite Z.land_ones by lia. by apply Z.mod_small.
    + rewrite Z.shiftl_1_l. replace (2 ^ 32 - 1 - (2 ^ (32 - p) - 1)) with (2 ^ 32 - 2 ^ (32 - p)) by lia. apply land_high; [lia|done].
Qed.

(** [ip_in_cidr] is agreement of the leading bits. *)
Lemma in_cidr_spec n base p : 0 <= n < 2 ^ 32 -> 0 <= base < 2 ^ 32 -> 0 <= p <= 32 ->
  ip_in_cidr (u32_string n) (block_text base p) = (n / 2 ^ (32 - p) =? base / 2 ^ (32 - p)).
Proof.
  intros Hn Hb Hp. destruct (block_split base p Hb ltac:(lia)) as [E1 E2]. unfold ip_in_cidr. rewrite E1, E2, !u32_round by done.
  rewrite !mask_div by done. assert (0 < 2 ^ (32 - p)) by (apply Z.pow_pos_nonneg; lia). apply eq_true_iff_eq. rewrite !Z.eqb_eq. nia.
Qed.

Lemma u32_string_inj m n : 0 <= m < 2 ^ 32 -> 0 <= n < 2 ^ 32 -> u32_string m = u32_string n -> m = n.
Proof. intros Hm Hn E. pose proof (u32_round m Hm) as H1. rewrite E, u32_round in H1 by done. by injection H1. Qed.

Definition block_hosts (p : Z) : nat := Z.to_nat (Z.min (2 ^ (32 - p)) 256 - 2).

Lemma cidr_enum base p : 0 <= base < 2 ^ 32 -> 0 <= p <= 32 ->
  cidr_to_ips (block_text base p) = (fun i => u32_string (wrap 32 (base + Z.of_nat i))) <$> seq 1 (block_hosts p).
Proof.
  intros Hb Hp. destruct (block_split base p Hb ltac:(lia)) as [E1 E2]. unfold cidr_to_ips, block_hosts. rewrite E1, E2.
  destruct (u32_octets base Hb) as (a & b & c & d & Ha & Hbb & Hc & Hd & En & Es). rewrite Es. destruct (quad_split a b c d Ha Hbb Hc Hd) as [-> _].
  cbn [length Nat.eqb negb mapM]. rewrite !parse_octet by done. cbn [mbind option_bind mret option_ret]. rewrite pack_num, <- En by done.
  destruct (Z.ltb_spec 32 p); [lia|]. destruct (Z.leb_spec 32 (32 - p)).
  - replace p with 0 by lia. reflexivity.
  - rewrite Z.shiftl_1_l. destruct (Z.ltb_spec (Z.min (2 ^ (32 - p)) 256) 2); [by replace (Z.to_nat (Z.min (2 ^ (32 - p)) 256 - 2)) with 0%nat by lia|].
    do 2 f_equal. lia.
Qed.

(** Claim C28: the addresses drawn from a published block lie in it.  For a block in its
    canonical form (no host bits set) they are its 2nd to last but one address, at most 254 of
    them, each once and never the network's own; no addition wraps; and the membership test
    by masks agrees. *)
Theorem cidr_candidates (base p : Z) (Hb : 0 <= base < 2 ^ 32) (Hp : 0 <= p <= 32) (Ha : base mod 2 ^ (32 - p) = 0) :
  let ips := cidr_to_ips (block_text base p) in
  ips = (fun i => u32_string (base + Z.of_nat i)) <$> seq 1 (block_hosts p) /\ (length ips <= 254)%nat /\ NoDup ips /\
  forall ip, ip ∈ ips -> ip_in_cidr ip (block_text base p) = true /\ ip <> u32_string base.
Proof.
  assert (0 < 2 ^ (32 - p)) as Hpow by (apply Z.pow_pos_nonneg; lia).
  assert (forall i, i ∈ seq 1 (block_hosts p) -> 0 < Z.of_nat i < 2 ^ (32 - p) /\ 0 <= base + Z.of_nat i < 2 ^ 32) as Hi.
  { intros i Hin%elem_of_seq. unfold block_hosts in Hin. assert (0 < Z.of_nat i < 2 ^ (32 - p)) as H by lia. split; [done|].
    assert (2 ^ 32 = 2 ^ p * 2 ^ (32 - p)) as E by (rewrite <- Z.pow_add_r by lia; f_equal; lia).
    pose proof (Z.div_mod base (2 ^ (32 - p)) ltac:(lia)) as Hd. rewrite Ha in Hd. rewrite E in Hb |- *.
    set (M := 2 ^ (32 - p)) in *. set (q := base / M) in *. assert (q < 2 ^ p) by nia. nia. }
  assert (cidr_to_ips (block_text base p) = (fun i => u32_string (base + Z.of_nat i)) <$> seq 1 (block_hosts p)) as E.
  { rewrite cidr_enum by done. apply list_fmap_ext. intros k i Hk%list_elem_of_lookup_2. apply Hi in Hk as [_ H]. by rewrite wrap_small. }
  cbn zeta. rewrite E. split_and!; [done|rewrite length_fmap, length_seq; unfold block_hosts; lia| |].
  - apply NoDup_fmap_2_strong; [|apply NoDup_seq]. intros i j [_ H1]%Hi [_ H2]%Hi Eq. apply u32_string_inj in Eq; [lia|done|done].
  - intros ip (i & -> & [H1 H2]%Hi)%list_elem_of_fmap. split.
    + rewrite in_cidr_spec by done. apply Z.eqb_eq. pose proof (Z.div_mod base (2 ^ (32 - p)) ltac:(lia)) as Hd. rewrite Ha in Hd.
      replace (base + Z.of_nat i) with (Z.of_nat i + base / 2 ^ (32 - p) * 2 ^ (32 - p)) by lia. rewrite Z.div_add, Z.div_small by lia. lia.
    + intros Eq. apply u32_string_inj in Eq; [lia|done|done].
Qed.

Lemma cidr_candidates_witness : cidr_to_ips (lit "216.58.192.0/30") = [lit "216.58.192.1"; lit "216.58.192.2"] /\
  ip_in_cidr (lit "216.58.192.2") (lit "216.58.192.0/30") = true.
Proof.
  destruct (cidr_candidates (v4_num 216 58 192 0) 30) as (_ & _ & _ & H); [split; [vm_compute; discriminate|reflexivity]|split; discriminate|reflexivity|].
  split; [vm_compute; reflexivity|]. apply (H (lit "216.58.192.2")). vm_compute. right. left.
Defined.

(** The pool of candidates: the addresses of the blocks that hold a well-known one first. *)
Lemma candidate_pool max famous cidrs sh1 sh2 pool : build_candidate_ip_pool max famous cidrs sh1 sh2 = Some pool ->
  let priority := find_matching_cidrs famous cidrs in
  pool <> [] /\ pool = take max (sh1 (priority ≫= cidr_to_ips) ++ sh2 (List.filter (fun c => negb (bool_decide (c ∈ priority))) cidrs ≫= cidr_to_ips)).
Proof.
  unfold build_candidate_ip_pool. cbn zeta. set (a := sh1 _). set (b := sh2 _). case_bool_decide as E; [done|]. intros [= <-]. split; [done|].
  rewrite length_take. destruct (Nat.ltb_spec (min max (length a)) max).
  - rewrite take_app. f_equal. f_equal. lia.
  - rewrite take_app_le by lia. done.
Qed.

(** ** Curated groups *)
Lemma merge_groups_spec curated existing r :
  let '(gs, r') := merge_groups curated existing r in
  existing `prefix_of` gs /\ (length gs = length existing + (added r' - added r))%nat /\ (added r <= added r')%nat /\
  (added r' + skipped r' = added r + skipped r + length curated)%nat /\
  (forall g, g ∈ gs -> g ∈ existing \/ g ∈ curated) /\ (forall g, g ∈ curated -> existsb (fun e => same_name e g) gs = true).
Proof.
  revert existing r. induction curated as [|g curated IH]; intros existing r; cbn [merge_groups length]; [split_and!; [done|lia|lia|lia|auto|set_solver]|].
  destruct (existsb (fun e => same_name e g) existing) eqn:E.
  - specialize (IH existing (mkReport (added r) (S (skipped r)))). destruct (merge_groups curated existing _) as [gs r']. cbn [added skipped] in IH.
    destruct IH as (H1 & H2 & H3 & H4 & H5 & H6). split_and!; [done|lia|lia|lia|set_solver|]. intros x [->|Hx]%elem_of_cons; [|by apply H6].
    destruct H1 as [k ->]. by rewrite existsb_app, E.
  - specialize (IH (existing ++ [g]) (mkReport (S (added r)) (skipped r))). destruct (merge_groups curated (existing ++ [g]) _) as [gs r']. cbn [added skipped] in IH.
    destruct IH as (H1 & H2 & H3 & H4 & H5 & H6). rewrite length_app in H2. cbn [length] in H2.
    split_and!; [etrans; [by apply prefix_app_r|exact H1]|lia|lia|lia|set_solver|]. intros x [->|Hx]%elem_of_cons; [|by apply H6].
    destruct H1 as [k ->]. rewrite !existsb_app. cbn [existsb]. assert (same_name g g = true) as -> by (unfold same_name, eq_ignore_ascii_case; by apply bool_decide_eq_true). by rewrite orb_true_r.
Qed.

Lemma merge_nothing curated existing r : (forall g, g ∈ curated -> existsb (fun e => same_name e g) existing = true) ->
  merge_groups curated existing r = (existing, mkReport (added r) (skipped r + length curated)).
Proof.
  revert r. induction curated as [|g curated IH]; intros r H; cbn [merge_groups length]; [destruct r; cbn; by rewrite Nat.add_0_r|].
  rewrite (H g) by left. rewrite IH by (intros x Hx; apply H; by right). cbn. by rewrite Nat.add_succ_r.
Qed.

(** Merging the curated groups keeps every group of the user where it is, adds each curated
    group whose name is not taken, counts all of them, and is idempotent. *)
Theorem curated_merge (curated existing : list FrontingGroup) :
  let '(gs, r) := merge_into curated existing in
  existing `prefix_of` gs /\ (length gs = length existing + added r)%nat /\ (added r + skipped r = length curated)%nat /\
  (forall g, g ∈ curated -> existsb (fun e => same_name e g) gs = true) /\
  merge_into curated gs = (gs, mkReport 0 (length curated)).
Proof.
  unfold merge_into. pose proof (merge_groups_spec curated existing (mkReport 0 0)) as H. destruct (merge_groups curated existing (mkReport 0 0)) as [gs r].
  cbn [added skipped] in H. destruct H as (H1 & H2 & _ & H4 & _ & H6). split_and!; [done|lia|lia|done|]. by rewrite merge_nothing.
Qed.
