(* ===== verification/Scan.v ===== *)
(** * Scanning and self-diagnosis: src/scan_ips.rs, scan_sni.rs, bot_block.rs, lan_utils.rs

    The candidate front addresses and the rescan that picks one ([rescan_and_pick]), with the
    turn of the heartbeat that asks for it (domain_fronter.rs); the probe of the SNI names and
    the reader of the PTR answers; the hint about a bot block; the bind address shown to the
    user.  What a connection does, the resolver, the JSON parser, the test of a server name
    and [str::to_lowercase] are arguments. *)

From stdpp Require Import prelude gmap sorting.
From S2P Require Import Prelude RustStr ListSort IpAddr HttpText HttpRead RelayJson Doh CertTrust ConnPool Discovery.
#[local] Open Scope Z_scope.

(** ** Candidates *)

Definition CANDIDATE_IPS : list str := (fun s => lit s) <$> [
  "216.239.32.120"; "216.239.34.120"; "216.239.36.120"; "216.239.38.120"; "216.58.212.142"; "142.250.80.142"; "142.250.80.138"; "142.250.179.110";
   "142.250.185.110"; "142.250.184.206"; "142.250.190.238"; "142.250.191.78"; "172.217.1.206"; "172.217.14.206"; "172.217.16.142"; "172.217.22.174";
   "172.217.164.110"; "172.217.168.206"; "172.217.169.206"; "34.107.221.82"; "142.251.32.110"; "142.251.33.110"; "142.251.46.206"; "142.251.46.238";
   "142.250.80.170"; "142.250.72.206"; "142.250.64.206"; "142.250.72.110"]%string.

Definition FAMOUS_GOOGLE_DOMAINS : list str := (fun s => lit s) <$> [
  "google.com"; "www.google.com"; "youtube.com"; "www.youtube.com"; "gmail.com"; "www.gmail.com"; "drive.google.com"; "docs.google.com";
   "sheets.google.com"; "slides.google.com"; "maps.google.com"; "www.maps.google.com"; "search.google.com"; "images.google.com";
   "www.images.google.com"; "news.google.com"; "www.news.google.com"; "scholar.google.com"; "www.scholar.google.com"; "books.google.com";
   "translate.google.com"; "www.translate.google.com"; "mail.google.com"; "chat.google.com"; "meet.google.com"; "hangouts.google.com";
   "voice.google.com"; "allo.google.com"; "play.google.com"; "music.google.com"; "movies.google.com"; "video.google.com"; "videos.google.com";
   "photos.google.com"; "picasa.google.com"; "picasaweb.google.com"; "calendar.google.com"; "keep.google.com"; "contacts.google.com";
   "tasks.google.com"; "forms.google.com"; "sites.google.com"; "www.sites.google.com"; "accounts.google.com"; "myaccount.google.com";
   "myactivity.google.com"; "passwords.google.com"; "adssettings.google.com"; "ads.google.com"; "adwords.google.com"; "www.adwords.google.com";
   "adsense.google.com"; "analytics.google.com"; "business.google.com"; "mybusiness.google.com"; "merchants.google.com"; "console.cloud.google.com";
   "cloud.google.com"; "firebase.google.com"; "console.firebase.google.com"; "developers.google.com"; "console.developers.google.com";
   "apis.google.com"; "fonts.google.com"; "android.google.com"; "chrome.google.com"; "chromebook.google.com"; "classroom.google.com";
   "edu.google.com"; "shopping.google.com"; "pay.google.com"; "payments.google.com"; "wallet.google.com"; "store.google.com"; "flights.google.com";
   "hotels.google.com"; "travel.google.com"; "blogger.google.com"; "domains.google.com"; "trends.google.com"; "alerts.google.com";
   "podcasts.google.com"; "fit.google.com"; "home.google.com"; "assistant.google.com"; "gemini.google.com"; "support.google.com";
   "policies.google.com"; "privacy.google.com"; "about.google.com"; "blog.google.com"; "plus.google.com"; "www.plus.google.com"; "orkut.google.com";
   "reader.google.com"; "wave.google.com"]%string.

(** The fields of the configuration that a scan reads. *)
Record ScanConfig := mkScan {
  fetch_ips_from_api : bool; max_ips_to_scan : nat; scan_batch_size : nat;
  google_ip_validation : bool; verify_ssl : bool; front_domain : str
}.

(** [Vec::dedup] after a sort. *)
Fixpoint dedup (l : list str) : list str :=
  match l with
  | [] => []
  | x :: l => match l with y :: _ => if bool_decide (x = y) then dedup l else x :: dedup l | [] => [x] end
  end.
Definition str_le (x y : str) : Prop := lex_le x y = true.
#[export] Instance str_le_dec : RelDecision str_le.
Proof. intros x y. unfold str_le. apply _. Defined.
Definition sort_dedup (l : list str) : list str := dedup (merge_sort str_le l).

Definition v4_text (ip : IpAddr) : option str := match ip with V4 a b c d => Some (dotted_quad a b c d) | V6 _ => None end.
Definition resolve_famous_domains (lookup_host : str -> option (list IpAddr)) : list str :=
  sort_dedup (FAMOUS_GOOGLE_DOMAINS ≫= (fun d => omap v4_text (default [] (lookup_host d)))).

(** [response]: what was read up to the end of the stream, [None] when the connection or the
    time limit failed. *)
Definition fetch_google_cidrs (from_str : str -> option Value) (response : option bytes) : option (list str) :=
  response ← response;
  let text := from_utf8_lossy response in
  body ← split_pat (length text) CRLF2 text !! 1%nat;
  json ← from_str body;
  prefixes ← option_bind _ _ Doh.as_array (Doh.get "prefixes" json);
  Some (omap (M := list) (fun p => option_bind _ _ as_str (Doh.get "ipv4Prefix" p)) prefixes).

Definition discover_google_ip_candidates (max_ips : nat) (famous : list str) (cidrs : option (list str)) (sh1 sh2 : list str -> list str) : option (list str) :=
  cidrs ← cidrs; build_candidate_ip_pool max_ips famous cidrs sh1 sh2.

(** [discovered]: what [discover_google_ip_candidates] gave. *)
Definition fetch_google_ip_candidates (cfg : ScanConfig) (discovered : option (list str)) : list str :=
  if negb (fetch_ips_from_api cfg) then CANDIDATE_IPS
  else match discovered with
       | Some ips => if bool_decide (ips = []) then CANDIDATE_IPS else ips
       | None => CANDIDATE_IPS
       end.

(** ** Probing *)

(** [format!("{}:443", ip).parse::<SocketAddr>()]: an IPv4 address, or an IPv6 one in brackets
    with an optional scope. *)
Definition addr_ok (ip : str) : bool :=
  match ip with
  | 91 :: r =>
    match rsplit_once 93 r with
    | Some (a, []) =>
      match read_ipv6_addr a with
      | Some (_, []) => true
      | Some (_, 37 :: scope) => negb (bool_decide (scope = [])) && bool_decide (is_Some (parse_digits (2 ^ 32 - 1) 0 scope))
      | _ => false
      end
    | _ => false
    end
  | _ => match read_ipv4_addr ip with Some (_, _, _, _, []) => true | _ => false end
  end.

(** What a connection does: TCP in time; the handshake in time, with or without verification
    of the certificate; the write; and the first read, [None] for an error or a timeout. *)
Record Exchange := mkExchange { ex_tcp : bool; ex_tls : bool -> bool; ex_write : bool; ex_read : option bytes }.

Section scan.
Context (to_lowercase : str -> str) (server_name : str -> bool).

Definition google_reply (google_ip_validation : bool) (bytes : bytes) : bool :=
  let buf := take 1024 bytes in
  if bool_decide (buf = []) then false else
  let response := from_utf8_lossy buf in
  if negb (starts_with response (lit "HTTP/")) then false
  else if google_ip_validation then
    let lower := to_lowercase response in
    contains lower (lit "server: gws") || contains lower (lit "x-google-") || contains lower (lit "alt-svc: h3=")
  else true.

Definition quick_probe (verify : bool) (ip sni : str) (google_ip_validation : bool) (x : Exchange) : bool :=
  if negb (addr_ok ip) then false
  else if negb (ex_tcp x) then false
  else if negb (server_name sni) then false
  else if negb (ex_tls x verify) then false
  else if negb (ex_write x) then false
  else match ex_read x with Some b => google_reply google_ip_validation b | None => false end.

Definition heartbeat_probe (ip sni : str) (google_ip_validation verify_ssl : bool) (x : Exchange) : bool :=
  quick_probe verify_ssl ip sni google_ip_validation x.

(** The addresses of one batch that answer, in their order; never with verification. *)
Definition validate_ips (net : nat -> Exchange) (ips : list str) (sni : str) (google_ip_validation : bool) : list str :=
  omap id (imap (fun k ip => if quick_probe false ip sni google_ip_validation (net k) then Some ip else None) ips).

(** [slice::chunks], for a size above 0. *)
Fixpoint chunks (fuel n : nat) (l : list str) : list (list str) :=
  match fuel with
  | O => []
  | S fuel => if bool_decide (l = []) then [] else take n l :: chunks fuel n (drop n l)
  end.

Fixpoint rescan_snis (net : nat -> nat -> Exchange) (j : nat) (chunk : list str) (probe_snis : list str) (validation : bool) : option str :=
  match probe_snis with
  | [] => None
  | sni :: snis =>
    match head (validate_ips (net j) chunk sni validation) with
    | Some ip => Some ip
    | None => rescan_snis net (S j) chunk snis validation
    end
  end.

Fixpoint rescan_chunks (net : nat -> nat -> nat -> Exchange) (i : nat) (cs : list (list str)) (probe_snis : list str) (validation : bool) : option str :=
  match cs with
  | [] => None
  | chunk :: cs =>
    match rescan_snis (net i) 0 chunk probe_snis validation with
    | Some ip => Some ip
    | None => rescan_chunks net (S i) cs probe_snis validation
    end
  end.

(** [net i j k]: what the connection to address [k] of batch [i] does under name [j]. *)
Definition rescan_and_pick (cfg : ScanConfig) (probe_snis : list str) (discovered : option (list str)) (net : nat -> nat -> nat -> Exchange) : option str :=
  if bool_decide (probe_snis = []) then None else
  let ips := fetch_google_ip_candidates cfg discovered in
  let batch_size := Nat.max (scan_batch_size cfg) 1 in
  rescan_chunks net 0 (chunks (length ips) batch_size ips) probe_snis (google_ip_validation cfg).

(** The scan that validates against one name; [div_ceil] and [chunks] panic for a batch of 0. *)
Definition fetch_and_validate_google_ips (sni : str) (batch_size : nat) (validation : bool) (discovered : option (list str)) (net : nat -> nat -> Exchange) : res (list str) unit :=
  match discovered with
  | None => Err tt
  | Some ips =>
    if (batch_size =? 0)%nat then Panic
    else Ok (concat (imap (fun i chunk => validate_ips (net i) chunk sni validation) (chunks (length ips) batch_size ips)))
  end.

Definition fetch_google_ips (cfg : ScanConfig) (discovered : option (list str)) (net : nat -> nat -> Exchange) : res (list str) unit :=
  if negb (fetch_ips_from_api cfg) then Ok CANDIDATE_IPS
  else match fetch_and_validate_google_ips (front_domain cfg) (scan_batch_size cfg) (google_ip_validation cfg) discovered net with
       | Ok ips => Ok (if bool_decide (ips = []) then CANDIDATE_IPS else ips)
       | Err _ => Ok CANDIDATE_IPS
       | Panic => Panic
       end.

(** One turn of [run_ip_health]: the failures counted and the address after it. *)
Definition heartbeat_turn (cfg : ScanConfig) (threshold failures : Z) (current sni : str) (x : Exchange)
    (sni_hosts : list str) (discovered : option (list str)) (net : nat -> nat -> nat -> Exchange) : Z * str :=
  let ok := heartbeat_probe current sni (google_ip_validation cfg) (verify_ssl cfg) x in
  let next := rescan_and_pick cfg sni_hosts discovered net in
  let picked := match next with Some n => if bool_decide (n = current) then PickSame else PickNext | None => PickNone end in
  let '(failures, swap) := ip_health_turn threshold failures ok picked in
  (failures, if swap then default current next else current).

(** *** The rescan, as the first success among its attempts *)

(** An attempt: batch, name and position, with the address and the name. *)
Notation Attempt := (nat * nat * nat * str * str)%type.
Definition batch_attempts (i j : nat) (chunk snis : list str) : list Attempt :=
  concat (imap (fun j' sni => imap (fun k ip => (i, (j + j')%nat, k, ip, sni)) chunk) snis).
Definition attempts (i : nat) (cs : list (list str)) (snis : list str) : list Attempt :=
  concat (imap (fun i' chunk => batch_attempts (i + i') 0 chunk snis) cs).
Definition attempt_result (validation : bool) (net : nat -> nat -> nat -> Exchange) (a : Attempt) : option str :=
  let '(i, j, k, ip, sni) := a in if quick_probe false ip sni validation (net i j k) then Some ip else None.

Lemma head_omap_app {A B} (f : A -> option B) l1 l2 : head (omap f (l1 ++ l2)) = match head (omap f l1) with Some x => Some x | None => head (omap f l2) end.
Proof. rewrite omap_app. by destruct (omap f l1). Qed.

Lemma omap_imap_id {A B C} (f : nat -> A -> option C) (g : nat -> A -> B) (h : B -> option C) l :
  (forall k x, h (g k x) = f k x) -> omap id (imap f l) = omap h (imap g l).
Proof.
  revert f g. induction l as [|x l IH]; intros f g H; [done|]. rewrite !imap_cons. cbn. rewrite H. rewrite (IH (f ∘ S) (g ∘ S)) by (intros; apply H). done.
Qed.

Lemma validate_attempts i j net chunk sni v :
  validate_ips (net i j) chunk sni v = omap (attempt_result v net) (imap (fun k ip => (i, j, k, ip, sni)) chunk).
Proof. apply omap_imap_id. done. Qed.

Lemma imap_ext_all {A B} (f g : nat -> A -> B) l : (forall k x, f k x = g k x) -> imap f l = imap g l.
Proof. intros H. apply imap_ext. intros. apply H. Qed.

Lemma rescan_snis_first i j net chunk snis v : rescan_snis (net i) j chunk snis v = head (omap (attempt_result v net) (batch_attempts i j chunk snis)).
Proof.
  revert j. induction snis as [|sni snis IH]; intros j; [done|]. unfold batch_attempts. rewrite imap_cons. cbn [concat rescan_snis]. rewrite head_omap_app, validate_attempts.
  replace (j + 0)%nat with j by lia. destruct (head _); [done|]. rewrite IH. unfold batch_attempts. do 3 f_equal. apply imap_ext_all. intros j' s.
  cbn. apply imap_ext_all. intros. do 4 f_equal. lia.
Qed.

Lemma rescan_chunks_first i net cs snis v : rescan_chunks net i cs snis v = head (omap (attempt_result v net) (attempts i cs snis)).
Proof.
  revert i. induction cs as [|c cs IH]; intros i; [done|]. unfold attempts. rewrite imap_cons. cbn [concat rescan_chunks]. rewrite head_omap_app, rescan_snis_first.
  replace (i + 0)%nat with i by lia. destruct (head _); [done|]. rewrite IH. unfold attempts. do 3 f_equal. apply imap_ext_all. intros i' x. cbn. f_equal. lia.
Qed.

Lemma batches_concat fuel n l : (0 < n)%nat -> (length l <= fuel)%nat -> concat (chunks fuel n l) = l.
Proof.
  intros Hn. revert l. induction fuel as [|fuel IH]; intros l Hl; [by destruct l; [|cbn in Hl; lia]|]. cbn. case_bool_decide as E; [done|].
  cbn. rewrite IH; [apply take_drop|]. rewrite length_drop. destruct l; [done|]. cbn in *. lia.
Qed.

Lemma elem_of_concat_imap {A B} (f : nat -> A -> list B) l (y : B) : y ∈ concat (imap f l) <-> exists k x, l !! k = Some x /\ y ∈ f k x.
Proof.
  rewrite list_elem_of_In, in_concat. setoid_rewrite <- list_elem_of_In. split.
  - intros (ys & (k & x & -> & Hx)%elem_of_lookup_imap & Hy). by exists k, x.
  - intros (k & x & Hx & Hy). exists (f k x). split; [apply elem_of_lookup_imap; by exists k, x|done].
Qed.

(** Every candidate is tried with every name, and nothing else. *)
Lemma elem_of_attempts ip sni cs snis : (exists i j k, (i, j, k, ip, sni) ∈ attempts 0 cs snis) <-> ip ∈ concat cs /\ sni ∈ snis.
Proof.
  unfold attempts, batch_attempts. setoid_rewrite elem_of_concat_imap. setoid_rewrite elem_of_concat_imap. setoid_rewrite elem_of_lookup_imap. split.
  - intros (i & j & k & i' & chunk & Hi & j' & s' & Hj & k' & ip' & Heq & Hk). injection Heq as -> -> -> -> ->. split; [|by eapply list_elem_of_lookup_2].
    rewrite list_elem_of_In, in_concat. exists chunk. rewrite <- !list_elem_of_In. split; by eapply list_elem_of_lookup_2.
  - rewrite list_elem_of_In, in_concat. setoid_rewrite <- list_elem_of_In.
    intros [(chunk & [i Hi]%list_elem_of_lookup_1 & [k Hk]%list_elem_of_lookup_1) [j Hj]%list_elem_of_lookup_1].
    exists (0 + i)%nat, (0 + j)%nat, k, i, chunk. split; [done|]. exists j, sni. split; [done|]. by exists k, ip.
Qed.

Lemma head_omap_Some {A B} (f : A -> option B) l y : head (omap f l) = Some y ->
  exists before x after, l = before ++ x :: after /\ f x = Some y /\ Forall (fun x => f x = None) before.
Proof.
  induction l as [|x l IH]; [done|]. cbn. destruct (f x) as [z|] eqn:E; cbn.
  - intros [= ->]. by exists [], x, l.
  - intros (before & x' & after & -> & ? & ?)%IH. exists (x :: before), x', after. by repeat constructor.
Qed.

Lemma head_omap_None {A B} (f : A -> option B) l : head (omap f l) = None <-> Forall (fun x => f x = None) l.
Proof. induction l as [|x l IH]; [done|]. cbn. rewrite Forall_cons. destruct (f x); cbn; [naive_solver|]. rewrite IH. naive_solver. Qed.

Lemma rescan_first cfg snis discovered net :
  rescan_and_pick cfg snis discovered net = head (omap (attempt_result (google_ip_validation cfg) net)
    (attempts 0 (chunks (length (fetch_google_ip_candidates cfg discovered)) (Nat.max (scan_batch_size cfg) 1) (fetch_google_ip_candidates cfg discovered)) snis)).
Proof.
  unfold rescan_and_pick. rewrite rescan_chunks_first. case_bool_decide as E; [subst|done]. symmetry. apply head_omap_None, Forall_forall.
  intros [[[[i j] k] ip] sni] H. assert (exists i j k, (i, j, k, ip, sni) ∈ attempts 0 (chunks (length (fetch_google_ip_candidates cfg discovered)) (Nat.max (scan_batch_size cfg) 1) (fetch_google_ip_candidates cfg discovered)) []) as Hx by (by exists i, j, k).
  apply elem_of_attempts in Hx as [_ Hx]. by apply not_elem_of_nil in Hx.
Qed.

(** The candidates: never none, and each is built in or drawn from a published block. *)
Lemma candidates_origin cfg famous cidrs sh1 sh2 : (forall l, sh1 l ≡ₚ l) -> (forall l, sh2 l ≡ₚ l) ->
  let ips := fetch_google_ip_candidates cfg (discover_google_ip_candidates (max_ips_to_scan cfg) famous cidrs sh1 sh2) in
  ips <> [] /\ forall ip, ip ∈ ips -> ip ∈ CANDIDATE_IPS \/ exists cs c, cidrs = Some cs /\ c ∈ cs /\ ip ∈ cidr_to_ips c.
Proof.
  intros H1 H2. unfold fetch_google_ip_candidates. assert (CANDIDATE_IPS <> []) as Hc by done.
  destruct (fetch_ips_from_api cfg); cbn [negb]; [|split; [done|auto]].
  destruct (discover_google_ip_candidates _ _ _ _ _) as [ips|] eqn:E; [|split; [done|auto]]. case_bool_decide as En; [split; [done|auto]|]. split; [done|].
  unfold discover_google_ip_candidates in E. destruct cidrs as [cs|]; [|done]. cbn in E. apply candidate_pool in E as [_ ->].
  intros ip Hip. right. exists cs. apply elem_of_take in Hip as (k & Hk & _). apply list_elem_of_lookup_2 in Hk.
  assert (forall c, c ∈ find_matching_cidrs famous cs -> c ∈ cs) as Hf.
  { intros c. unfold find_matching_cidrs. rewrite !list_elem_of_In, filter_In. naive_solver. }
  apply elem_of_app in Hk as [Hk|Hk]; [rewrite H1 in Hk|rewrite H2 in Hk]; apply list_elem_of_bind in Hk as (c & Hip & Hc'); exists c; split; [done|auto|done|].
  rewrite list_elem_of_In, filter_In, <- list_elem_of_In in Hc'. naive_solver.
Qed.

Notation tries cfg ips snis := (attempts 0 (chunks (length ips) (Nat.max (scan_batch_size cfg) 1) ips) snis) (only parsing).

Lemma rescan_spec cfg snis discovered net : let ips := fetch_google_ip_candidates cfg discovered in
  (forall ip sni, (exists i j k, (i, j, k, ip, sni) ∈ tries cfg ips snis) <-> ip ∈ ips /\ sni ∈ snis)
  /\ match rescan_and_pick cfg snis discovered net with
     | Some ip => exists before i j k sni after, tries cfg ips snis = before ++ (i, j, k, ip, sni) :: after /\ ip ∈ ips /\ sni ∈ snis
         /\ quick_probe false ip sni (google_ip_validation cfg) (net i j k) = true
         /\ Forall (fun a => attempt_result (google_ip_validation cfg) net a = None) before
     | None => Forall (fun a => attempt_result (google_ip_validation cfg) net a = None) (tries cfg ips snis)
     end.
Proof.
  intros ips. assert (forall ip sni, (exists i j k, (i, j, k, ip, sni) ∈ tries cfg ips snis) <-> ip ∈ ips /\ sni ∈ snis) as Hall.
  { intros ip sni. rewrite elem_of_attempts, batches_concat; [done|lia|done]. }
  split; [done|]. rewrite rescan_first. fold ips. destruct (head _) as [ip|] eqn:E; [|by apply head_omap_None].
  apply head_omap_Some in E as (before & [[[[i j] k] ip'] sni] & after & Heq & Hr & Hb). unfold attempt_result in Hr.
  destruct (quick_probe _ _ _ _ _) eqn:Eq; [|done]. injection Hr as ->. exists before, i, j, k, sni, after.
  destruct (Hall ip sni) as [[? ?] _]; [exists i, j, k; rewrite Heq; set_solver|]. done.
Qed.

(** The front address is only ever replaced by one that answers.  A turn of the
    heartbeat that changes the address does so after the probe of the old address failed and
    the threshold was reached; the new address is built in or drawn from a published block,
    and is the first one, in the order of the batches and of the names, whose probe succeeded
    under a name of the rotation; the rescan tries every candidate with every name before it
    gives up, and there is always a candidate. *)
Theorem heartbeat_swap_reachable (cfg : ScanConfig) (threshold failures failures' : Z) (current next sni : str) (x : Exchange)
    (snis famous : list str) (cidrs : option (list str)) (sh1 sh2 : list str -> list str) (net : nat -> nat -> nat -> Exchange)
    (Hsh1 : forall l, sh1 l ≡ₚ l) (Hsh2 : forall l, sh2 l ≡ₚ l) (Hchange : next <> current) :
  let discovered := discover_google_ip_candidates (max_ips_to_scan cfg) famous cidrs sh1 sh2 in
  let ips := fetch_google_ip_candidates cfg discovered in
  heartbeat_turn cfg threshold failures current sni x snis discovered net = (failures', next) ->
  heartbeat_probe current sni (google_ip_validation cfg) (verify_ssl cfg) x = false /\ threshold <= failures + 1 /\ failures' = 0
  /\ (next ∈ CANDIDATE_IPS \/ exists cs c, cidrs = Some cs /\ c ∈ cs /\ next ∈ cidr_to_ips c)
  /\ ips <> [] /\ (forall ip name, (exists i j k, (i, j, k, ip, name) ∈ tries cfg ips snis) <-> ip ∈ ips /\ name ∈ snis)
  /\ exists before i j k name after, tries cfg ips snis = before ++ (i, j, k, next, name) :: after /\ name ∈ snis
     /\ quick_probe false next name (google_ip_validation cfg) (net i j k) = true
     /\ Forall (fun a => attempt_result (google_ip_validation cfg) net a = None) before.
Proof.
  intros discovered ips. destruct (candidates_origin cfg famous cidrs sh1 sh2 Hsh1 Hsh2) as [Hne Horigin]. fold discovered ips in Hne, Horigin.
  destruct (rescan_spec cfg snis discovered net) as [Hall Hpick]. fold ips in Hall, Hpick. unfold heartbeat_turn, ip_health_turn.
  destruct (heartbeat_probe _ _ _ _ _); [intros [= _ <-]; done|].
  destruct (Z.ltb_spec (failures + 1) (if threshold =? 0 then 1 else threshold)) as [|Ht]; [intros [= _ <-]; done|].
  destruct (rescan_and_pick _ _ _ _) as [ip|]; [|intros [= _ <-]; done]. case_bool_decide as E; cbn; [intros [= _ <-]; done|]. intros [= <- <-].
  destruct Hpick as (before & i & j & k & name & after & ? & ? & ? & ? & ?).
  split_and!; [done|destruct (Z.eqb_spec threshold 0); lia|done|by apply Horigin|done|done|]. by exists before, i, j, k, name, after.
Qed.

End scan.

(** *** A front that fails verification *)

Definition answers : option bytes := Some (lit "HTTP/1.1 200 OK").
Definition forged : Exchange := mkExchange true negb true answers.
Definition genuine : Exchange := mkExchange true (fun _ => true) true answers.
Definition first_forged (i j k : nat) : Exchange := if (i + j + k =? 0)%nat then forged else genuine.
Definition verifying : ScanConfig := mkScan false 100 1 false true (lit "www.google.com").
Definition first_ip : str := lit "216.239.32.120".
Definition second_ip : str := lit "216.239.34.120".
Definition name : str := lit "www.google.com".

(** The rescan does not verify certificates although the heartbeat and the relay do.
    When the first candidate answers with a forged certificate, a rescan swaps to it; every
    later heartbeat fails there, and however many rescans follow they all pick it again,
    although the next candidate has a genuine certificate. *)
Theorem unverified_front_sticks (to_lowercase : str -> str) (threshold failures : Z) :
  let turn := heartbeat_turn to_lowercase (fun _ => true) verifying in
  turn 1 0 (lit "1.2.3.4") name (mkExchange false (fun _ => false) false None) [name] None first_forged = (0, first_ip)
  /\ heartbeat_probe to_lowercase (fun _ => true) first_ip name false true forged = false
  /\ snd (turn threshold failures first_ip name forged [name] None first_forged) = first_ip
  /\ heartbeat_probe to_lowercase (fun _ => true) second_ip name false true genuine = true.
Proof.
  intros turn. split_and!; [vm_compute; reflexivity|vm_compute; reflexivity| |vm_compute; reflexivity]. unfold turn, heartbeat_turn, ip_health_turn.
  replace (rescan_and_pick to_lowercase (fun _ => true) verifying [name] None first_forged) with (Some first_ip) by (vm_compute; reflexivity).
  rewrite bool_decide_true by done. destruct (heartbeat_probe _ _ _ _ _ _ _); [done|]. by destruct (_ <? _).
Qed.

Lemma heartbeat_swap_reachable_witness :
  heartbeat_turn id (fun _ => true) verifying 1 0 (lit "1.2.3.4") name (mkExchange false (fun _ => false) false None) [name] None first_forged = (0, first_ip)
  /\ (first_ip ∈ CANDIDATE_IPS \/ exists cs c, @None (list str) = Some cs /\ c ∈ cs /\ first_ip ∈ cidr_to_ips c).
Proof.
  split; [vm_compute; reflexivity|]. apply (heartbeat_swap_reachable id (fun _ => true) verifying 1 0 0 (lit "1.2.3.4") first_ip name
    (mkExchange false (fun _ => false) false None) [name] [] None id id first_forged); [done|done|done|vm_compute; reflexivity].
Defined.

(** ** SNI names *)

Record ProbeResult := mkProbe { latency_ms : option Z; probe_error : option str }.
Definition ProbeResult_is_ok (r : ProbeResult) : bool := bool_decide (is_Some (latency_ms r)).

Definition is_control (c : Z) : bool := (c <? 32) || between 127 c 159.

(** [len] counts bytes, [take] characters. *)
Definition truncate_reason (s : str) (max : nat) : str :=
  if str_len s <=? Z.of_nat max then s else List.filter (fun c => negb (is_control c)) (take max s).

(** What the steps of a probe come to; [None] is a timeout, an error is its text. *)
Record SniNet := mkSniNet {
  sn_resolve : option (res nat str);        (** how many addresses *)
  sn_addr : option str;                     (** the error, if the address is no socket address *)
  sn_connect : option (res unit str);
  sn_server_name : option str;              (** the error, if the name is no server name *)
  sn_handshake : option (res unit str);
  sn_write : bool;
  sn_read : option (res bytes str);
  sn_elapsed_ms : Z
}.

Definition failed (msg : str) : ProbeResult := mkProbe None (Some msg).

Definition probe_with (n : SniNet) : ProbeResult :=
  match sn_resolve n with
  | Some (Err e) => failed (lit "dns: " ++ truncate_reason e 32)
  | Some Panic | None => failed (lit "dns timeout")
  | Some (Ok O) => failed (lit "dns: no addresses")
  | Some (Ok (S _)) =>
    match sn_addr n with
    | Some e => failed (lit "bad ip: " ++ e)
    | None =>
      match sn_connect n with
      | Some (Err e) => failed (lit "connect: " ++ e)
      | Some Panic | None => failed (lit "connect timeout")
      | Some (Ok _) =>
        match sn_server_name n with
        | Some e => failed (lit "bad sni: " ++ e)
        | None =>
          match sn_handshake n with
          | Some (Err emsg) => failed (if contains emsg (lit "reset") || contains emsg (lit "peer") then lit "handshake RST (SNI may be blocked)" else lit "tls: " ++ emsg)
          | Some Panic | None => failed (lit "tls handshake timeout")
          | Some (Ok _) =>
            if negb (sn_write n) then failed (lit "write failed") else
            match sn_read n with
            | Some (Ok b) =>
              let buf := take 64 b in
              if (5 <=? length buf)%nat && starts_with buf (lit "HTTP/") then mkProbe (Some (Z.min (sn_elapsed_ms n) (2 ^ 32 - 1))) None
              else failed (lit "non-HTTP reply")
            | Some (Err e) => failed (lit "read: " ++ e)
            | Some Panic | None => failed (lit "read timeout")
            end
          end
        end
      end
    end
  end.

(** [position] and [remove] in one. *)
Fixpoint take_named (sni : str) (out : list (str * ProbeResult)) : option ((str * ProbeResult) * list (str * ProbeResult)) :=
  match out with
  | [] => None
  | x :: out => if bool_decide (fst x = sni) then Some (x, out) else '(y, out') ← take_named sni out; Some (y, x :: out')
  end.
Fixpoint reindex (snis : list str) (out : list (str * ProbeResult)) : list (str * ProbeResult) :=
  match snis with
  | [] => []
  | sni :: snis => match take_named sni out with Some (x, out) => x :: reindex snis out | None => reindex snis out end
  end.

(** [nets k]: the network as the task of name [k] meets it. *)
Definition probe_all (nets : nat -> SniNet) (snis : list str) : list (str * ProbeResult) :=
  reindex snis (imap (fun k sni => (sni, probe_with (nets k))) snis).

(** The table of [test-sni]: by latency, the failures last. *)
Definition probe_key (x : str * ProbeResult) : Z := default (2 ^ 32 - 1) (latency_ms (snd x)).
Definition probe_le (x y : str * ProbeResult) : Prop := probe_key x <= probe_key y.
#[export] Instance probe_le_dec : RelDecision probe_le.
Proof. intros x y. unfold probe_le. apply _. Defined.
Definition test_sni (nets : nat -> SniNet) (pool : list str) : list (str * ProbeResult) * bool :=
  let results := merge_sort probe_le (probe_all nets pool) in (results, existsb (fun x => ProbeResult_is_ok (snd x)) results).

(** A probe fails with a reason, or succeeds and fits its type: then every step succeeded. *)
Lemma probe_with_spec n : (exists m, probe_with n = failed m) \/
  exists b, probe_with n = mkProbe (Some (Z.min (sn_elapsed_ms n) (2 ^ 32 - 1))) None /\ sn_handshake n = Some (Ok tt) /\ sn_read n = Some (Ok b) /\ starts_with b (lit "HTTP/") = true.
Proof.
  unfold probe_with. destruct (sn_resolve n) as [[[|k]|e|]|]; [left; eauto| |left; eauto..]. destruct (sn_addr n); [left; eauto|].
  destruct (sn_connect n) as [[]|]; [|left; eauto..]. destruct (sn_server_name n); [left; eauto|]. destruct (sn_handshake n) as [[[]|e|]|]; [|left; eauto..].
  destruct (sn_write n); [|left; eauto]. cbn [negb]. destruct (sn_read n) as [[b|e'|]|]; [|left; eauto..]. destruct (5 <=? _)%nat eqn:E1; cbn [andb]; [|left; eauto].
  unfold starts_with. destruct (strip_prefix (lit "HTTP/") (take 64 b)) as [r|] eqn:E; [|left; eauto]. right. exists b. split_and!; [done..|].
  apply strip_prefix_Some in E. by rewrite <- (take_drop 64 b), E, <- app_assoc, strip_prefix_app.
Qed.

Lemma reindex_same (f : nat -> str -> ProbeResult) snis : reindex snis (imap (fun k sni => (sni, f k sni)) snis) = imap (fun k sni => (sni, f k sni)) snis.
Proof. revert f. induction snis as [|s snis IH]; intros f; [done|]. rewrite imap_cons. cbn. rewrite bool_decide_true by done. f_equal. apply (IH (fun k => f (S k))). Qed.

(** The results come back in the order of the names, one for each, and the table has the ones
    that work first, by latency. *)
Theorem sni_probes (nets : nat -> SniNet) (snis : list str) :
  probe_all nets snis = imap (fun k sni => (sni, probe_with (nets k))) snis
  /\ fst (test_sni nets snis) ≡ₚ probe_all nets snis /\ Sorted probe_le (fst (test_sni nets snis))
  /\ (snd (test_sni nets snis) = true <-> exists k, (k < length snis)%nat /\ is_Some (latency_ms (probe_with (nets k)))).
Proof.
  assert (probe_all nets snis = imap (fun k sni => (sni, probe_with (nets k))) snis) as Hall by apply (reindex_same (fun k _ => probe_with (nets k))).
  split; [done|]. unfold test_sni. cbn [fst snd]. split; [apply merge_sort_Permutation|]. split; [apply Sorted_merge_sort; intros x y; unfold probe_le; lia|].
  rewrite existsb_exists. setoid_rewrite <- list_elem_of_In. setoid_rewrite merge_sort_Permutation. rewrite Hall. split.
  - intros (x & (k & s & -> & Hk)%elem_of_lookup_imap & Hok). exists k. split; [by eapply lookup_lt_Some|]. by apply bool_decide_eq_true in Hok.
  - intros (k & [s Hs]%lookup_lt_is_Some_2 & Hok). exists (s, probe_with (nets k)). split; [apply elem_of_lookup_imap; by exists k, s|]. by apply bool_decide_eq_true.
Qed.

(** ** PTR answers *)

(** The transfer encoding and the length, as the last header of each name gives them. *)
Definition body_header (acc : option str * option Z) (line : str) : option str * option Z :=
  match split_once [58] line with
  | None => acc
  | Some (k, v) =>
    if eq_ignore_ascii_case k (lit "transfer-encoding") then (Some (trim v), snd acc)
    else if eq_ignore_ascii_case k (lit "content-length") then (fst acc, parse_u64 (trim v))
    else acc
  end.

(** The trailer, up to its empty line. *)
Fixpoint skip_trailer (fuel : nat) (body : bytes) : bool :=
  match fuel with
  | O => false
  | S fuel =>
    match split_once CRLF body with
    | None => false
    | Some (line, rest) => if bool_decide (line = []) then true else skip_trailer fuel rest
    end
  end.

(** [size + 2] wraps, and a range whose start is past its end panics. *)
Fixpoint decode_chunked_http_body (fuel : nat) (body out : bytes) : res bytes str :=
  match fuel with
  | O => Err (lit "truncated chunk size line")
  | S fuel =>
    match split_once CRLF body with
    | None => Err (lit "truncated chunk size line")
    | Some (line, body) =>
      match from_utf8 line with
      | None => Err (lit "bad chunk size line")
      | Some size_line =>
        match parse_hex (default [] (head (split_on 59 (trim size_line)))) with
        | None => Err (lit "bad chunk size")
        | Some size =>
          if size =? 0 then if skip_trailer (S (length body)) body then Ok out else Err (lit "truncated chunk trailer")
          else
            let limit := wrap 64 (size + 2) in
            if len body <? limit then Err (lit "truncated chunk body")
            else if limit <? size then Panic
            else if negb (bool_decide (take 2 (drop (Z.to_nat size) body) = CRLF)) then Err (lit "chunk missing trailing CRLF")
            else decode_chunked_http_body fuel (drop (Z.to_nat limit) body) (out ++ take (Z.to_nat size) body)
        end
      end
    end
  end.

Definition announces_chunked (transfer_encoding : option str) : bool :=
  match transfer_encoding with Some v => existsb (fun part => eq_ignore_ascii_case (trim part) (lit "chunked")) (split_on 44 v) | None => false end.

Definition parse_http_response_body (raw : bytes) : res bytes str :=
  match split_once CRLF2 raw with
  | None => Err (lit "No HTTP header/body separator found")
  | Some (head, body) =>
    match from_utf8 head with
    | None => Err (lit "Bad HTTP headers")
    | Some header_block =>
      let '(transfer_encoding, content_length) := fold_left body_header (drop 1 (lines header_block)) (None, None) in
      if announces_chunked transfer_encoding then decode_chunked_http_body (S (length body)) body []
      else match content_length with
           | Some n => if len body <? n then Err (lit "HTTP body shorter than Content-Length") else Ok (take (Z.to_nat n) body)
           | None => Ok body
           end
    end
  end.

Lemma decode_chunked_spec body text : chunked body text -> forall fuel out rest, (length (text ++ rest) < fuel)%nat ->
  decode_chunked_http_body fuel (text ++ rest) out = Ok (out ++ body).
Proof.
  induction 1 as [line [Hcr (l & Hu & Ht & Hp)]|line c body text [Hcr (l & Hu & Ht & Hp)] Hc Hsmall _ IH]; intros fuel out rest Hf; (destruct fuel as [|fuel]; [lia|]);
    cbn [decode_chunked_http_body]; rewrite <- !app_assoc, split_once_crlf, Hu, Hp by done.
  - cbn [Z.eqb]. replace (skip_trailer _ _) with true by done. by rewrite app_nil_r.
  - pose proof (length_nonempty _ Hc) as Hpos. destruct (Z.eqb_spec (len c) 0) as [H0|_]; [unfold len in H0; lia|].
    pose proof (len_nonneg c). rewrite wrap_small by lia. destruct (Z.ltb_spec (len (c ++ CRLF ++ text ++ rest)) (len c + 2)) as [Hl|_].
    { unfold len in Hl. rewrite !length_app in Hl. cbn in Hl. lia. }
    destruct (Z.ltb_spec (len c + 2) (len c)); [lia|]. unfold len. rewrite Nat2Z.id, drop_app_length. change (take 2 (CRLF ++ text ++ rest)) with CRLF.
    rewrite bool_decide_true by done. cbn [negb]. rewrite take_app_length, app_assoc, drop_app_length' by (rewrite length_app; cbn; lia).
    rewrite IH; [by rewrite app_assoc|]. rewrite !length_app in *. cbn in Hf. lia.
Qed.

(** The framing a response announces, and the bytes it has behind its head. *)
Inductive body_framed : option str * option Z -> bytes -> bytes -> Prop :=
| bf_chunked te cl body text rest : announces_chunked te = true -> chunked body text -> body_framed (te, cl) body (text ++ rest)
| bf_length te body rest : announces_chunked te = false -> body_framed (te, Some (len body)) body (body ++ rest)
| bf_close te body : announces_chunked te = false -> body_framed (te, None) body body.

(** The body of a PTR answer is read whole and nothing behind it, whether it is chunked, has a
    length or ends with the connection. *)
Theorem ptr_body_read (raw head text body : bytes) (header_block : str)
    (Hsplit : split_once CRLF2 raw = Some (head, text)) (Hutf : from_utf8 head = Some header_block)
    (Hframed : body_framed (fold_left body_header (drop 1 (lines header_block)) (None, None)) body text) :
  parse_http_response_body raw = Ok body.
Proof.
  unfold parse_http_response_body. rewrite Hsplit, Hutf. destruct Hframed as [te cl body text rest Hte Hch|te body rest Hte|te body Hte].
  - rewrite Hte. rewrite (decode_chunked_spec body text Hch); [done|lia].
  - assert ((len (body ++ rest) <? len body) = false) as -> by (apply Z.ltb_ge; unfold len; rewrite length_app; lia).
    unfold len. rewrite Nat2Z.id, take_app_length. by rewrite Hte.
  - by rewrite Hte.
Qed.

(** A chunk size next to the largest integer wraps around, and the slice that follows panics. *)
Theorem huge_chunk_panics :
  parse_http_response_body (lit "HTTP/1.1 200 OK" ++ CRLF ++ lit "Transfer-Encoding: chunked" ++ CRLF2 ++ lit "ffffffffffffffff" ++ CRLF ++ lit "x") = Panic.
Proof. vm_compute. reflexivity. Qed.

Lemma ptr_body_read_witness :
  parse_http_response_body (lit "HTTP/1.1 200 OK" ++ CRLF ++ lit "Transfer-Encoding: chunked" ++ CRLF2 ++ (lit "5" ++ CRLF ++ lit "hello" ++ CRLF ++ lit "0" ++ CRLF ++ CRLF) ++ []) = Ok (lit "hello" ++ []).
Proof.
  eapply (ptr_body_read _ (lit "HTTP/1.1 200 OK" ++ CRLF ++ lit "Transfer-Encoding: chunked") ((lit "5" ++ CRLF ++ lit "hello" ++ CRLF ++ lit "0" ++ CRLF ++ CRLF) ++ []));
    [vm_compute; reflexivity|vm_compute; reflexivity|].
  apply (bf_chunked (Some (lit "chunked")) None _ _ []); [vm_compute; reflexivity|exact sample_chunked].
Defined.

(** The names of a PTR answer that are kept. *)
Section ptr.
Context (to_lowercase : str -> str).

Definition ptr_name (ip : str) : option str :=
  match split_on 46 ip with
  | [a; b; c; d] => Some (d ++ 46 :: c ++ 46 :: b ++ 46 :: a ++ lit ".in-addr.arpa")
  | _ => None
  end.

(** [trim_start_matches] and [trim_end_matches] of a string, repeated. *)
Fixpoint trim_start_str (fuel : nat) (p s : str) : str :=
  match fuel with O => s | S fuel => match strip_prefix p s with Some r => trim_start_str fuel p r | None => s end end.
Definition trim_end_str (p s : str) : str := reverse (trim_start_str (length s) (reverse p) (reverse s)).

Definition looks_google (d : str) : bool :=
  contains d (lit "1e100.net") || contains d (lit "google") || contains d (lit "goog") || contains d (lit "youtube")
  || existsb (fun famous => contains d (trim_end_str (lit ".com") (trim_start_str (length famous) (lit "www.") famous))) FAMOUS_GOOGLE_DOMAINS.

Definition ptr_domains (answers : list str) : list str :=
  List.filter looks_google ((fun data => to_lowercase (trim_end_matches 46 data)) <$> answers).

Definition PUBLIC_SUFFIXES : list str :=
  [lit "google.com"; lit "youtube.com"; lit "googleapis.com"; lit "gstatic.com"; lit "ggpht.com"; lit "withgoogle.com"].
Definition strip_suffix (p s : str) : option str := reverse <$> strip_prefix (reverse p) (reverse s).
Definition is_public_google_sni_candidate (domain : str) : bool :=
  existsb (fun suffix => bool_decide (domain = suffix) || match strip_suffix suffix domain with Some prefix => ends_with prefix [46] | None => false end) PUBLIC_SUFFIXES.

(** [answers]: the names of the PTR answers, one list per address; the order in which the set
    gives them does not matter, they are sorted. *)
Definition discovered_snis (answers : list (list str)) : list str :=
  sort_dedup (List.filter is_public_google_sni_candidate (answers ≫= ptr_domains) ++ FAMOUS_GOOGLE_DOMAINS).

(** [validate k]: whether the handshake of candidate [k] with verification completes in time. *)
Definition discover_snis_from_google_ips (answers : list (list str)) (validate : nat -> bool) : list str :=
  merge_sort str_le (omap id (imap (fun k sni => if validate k then Some sni else None) (discovered_snis answers))).

(** *** What is tried *)

Lemma elem_of_dedup x l : x ∈ dedup l <-> x ∈ l.
Proof.
  induction l as [|y l IH]; [done|]. cbn [dedup]. destruct l as [|z l]; [done|]. case_bool_decide as E; [subst; rewrite IH|]; set_solver.
Qed.

Lemma dedup_str_sorted l : StronglySorted str_le l -> NoDup (dedup l) /\ StronglySorted str_le (dedup l).
Proof.
  induction 1 as [|x l Hl IH Hx]; [split; constructor|]. destruct IH as [IH1 IH2]. cbn [dedup]. destruct l as [|y l]; [split; repeat constructor; set_solver|].
  case_bool_decide as E; [done|]. split; constructor; [|done|done|].
  - rewrite elem_of_dedup. intros Hin. apply E. apply lex_le_antisym; [by inversion Hx|]. inversion Hl as [|? ? ? Hy]; subst.
    apply elem_of_cons in Hin as [->|Hin]; [apply lex_le_refl|]. rewrite Forall_forall in Hy. by apply Hy.
  - rewrite Forall_forall in *. intros z. rewrite elem_of_dedup. apply Hx.
Qed.

#[local] Instance str_le_trans : Transitive str_le.
Proof. intros x y z. apply lex_le_trans. Qed.
#[local] Instance str_le_total : Total str_le.
Proof. intros x y. apply lex_le_total. Qed.

Lemma sort_dedup_spec l : NoDup (sort_dedup l) /\ StronglySorted str_le (sort_dedup l) /\ forall x, x ∈ sort_dedup l <-> x ∈ l.
Proof.
  unfold sort_dedup. destruct (dedup_str_sorted (merge_sort str_le l)) as [H1 H2]; [apply (StronglySorted_merge_sort str_le l)|].
  split; [done|]. split; [done|]. intros x. by rewrite elem_of_dedup, (merge_sort_Permutation str_le l).
Qed.

(** The names tried against the filter: every well-known one, each once, in order; the others
    were in a PTR answer and end with a public suffix, so a name of the infrastructure
    ([1e100.net]) is never proposed; and the names reported are those that passed. *)
Theorem discovered_names (answers : list (list str)) (validate : nat -> bool) :
  NoDup (discovered_snis answers) /\ StronglySorted str_le (discovered_snis answers)
  /\ (forall d, d ∈ discovered_snis answers <-> d ∈ FAMOUS_GOOGLE_DOMAINS \/ (d ∈ answers ≫= ptr_domains /\ is_public_google_sni_candidate d = true))
  /\ (forall p, is_public_google_sni_candidate (p ++ lit ".1e100.net") = false)
  /\ (forall d, d ∈ discover_snis_from_google_ips answers validate <-> exists k, discovered_snis answers !! k = Some d /\ validate k = true).
Proof.
  destruct (sort_dedup_spec (List.filter is_public_google_sni_candidate (answers ≫= ptr_domains) ++ FAMOUS_GOOGLE_DOMAINS)) as (H1 & H2 & H3).
  split_and!; [exact H1|exact H2| | |].
  - intros d. unfold discovered_snis. rewrite H3, elem_of_app, !list_elem_of_In, filter_In. tauto.
  - intros p. unfold is_public_google_sni_candidate. apply not_true_is_false. rewrite existsb_exists. intros (suffix & Hs & H).
    apply orb_true_iff in H as [H%bool_decide_eq_true|H].
    + apply (f_equal reverse) in H. rewrite reverse_app in H. repeat (destruct Hs as [<-|Hs]; [done|]). done.
    + unfold strip_suffix in H. rewrite reverse_app in H. repeat (destruct Hs as [<-|Hs]; [done|]). done.
  - intros d. unfold discover_snis_from_google_ips. rewrite merge_sort_Permutation, list_elem_of_omap. setoid_rewrite elem_of_lookup_imap. split.
    + intros (x & (k & sni & -> & Hk) & Hx). cbn in Hx. destruct (validate k) eqn:E; [|done]. injection Hx as ->. by exists k.
    + intros (k & Hk & Hv). exists (Some d). split; [|done]. exists k, d. by rewrite Hv.
Qed.

End ptr.

(** ** The hint about a bot block *)

Definition windows (n : nat) (l : bytes) : list bytes := (fun i => take n (drop i l)) <$> seq 0 (length l - n + 1).
Definition contains_ascii_ci (haystack needle : bytes) : bool :=
  if bool_decide (needle = []) then true
  else if (length haystack <? length needle)%nat then false
  else existsb (fun w => eq_ignore_ascii_case w needle) (windows (length needle) haystack).

Fixpoint first_line (l : bytes) : option bytes :=
  match l with [] => None | b :: l => if (b =? 13) || (b =? 10) then Some [] else (cons b) <$> first_line l end.
Definition parse_status_code (response : bytes) : option Z :=
  line ← first_line response; word ← split_on 32 line !! 1%nat; text ← from_utf8 word; parse_u16 text.

Definition is_deny_status (code : Z) : bool := bool_decide (code ∈ [401; 403; 429; 451; 503]).

Inductive Cdn := Akamai | Cloudflare.
Definition BLOCK_PREFIX : nat := Z.to_nat (16 * 1024).
Definition CF_MARKS : list bytes := [lit "cf-mitigated:"; lit "Just a moment..."; lit "__cf_chl_"; lit "challenge-platform"].

Definition detect (response : bytes) : option Cdn :=
  let prefix := take BLOCK_PREFIX response in
  if contains_ascii_ci prefix (lit "errors.edgesuite.net") then Some Akamai
  else if contains_ascii_ci prefix (lit "AkamaiGHost") && default false (is_deny_status <$> parse_status_code prefix) then Some Akamai
  else if existsb (contains_ascii_ci prefix) CF_MARKS then Some Cloudflare
  else None.

Definition normalize_host (host : str) : str := to_ascii_lowercase (trim_end_matches 46 host).

(** The two sets of hosts and the hints that were logged, each with whether it is the one for
    the exit node. *)
Record Hints := mkHints { seen_set : gset str; seen_set_exit_node : gset str; logged : list (bool * str * Cdn) }.
Definition hints_new : Hints := mkHints ∅ ∅ [].

Definition mark_first_seen (set : gset str) (host : str) : bool * gset str := (bool_decide (host ∉ set), {[host]} ∪ set).

Definition note_if_blocked (host : str) (response : bytes) (s : Hints) : Hints :=
  match detect response with
  | None => s
  | Some cdn =>
    let host := normalize_host host in
    let '(first, set) := mark_first_seen (seen_set s) host in
    mkHints set (seen_set_exit_node s) (if first then logged s ++ [(false, host, cdn)] else logged s)
  end.
Definition note_if_blocked_via_exit_node (host : str) (response : bytes) (s : Hints) : Hints :=
  match detect response with
  | None => s
  | Some cdn =>
    let host := normalize_host host in
    let '(first, set) := mark_first_seen (seen_set_exit_node s) host in
    mkHints (seen_set s) set (if first then logged s ++ [(true, host, cdn)] else logged s)
  end.

(** The relay's calls: the path the response came by, its host and its bytes. *)
Definition note (s : Hints) (n : bool * str * bytes) : Hints :=
  let '(via_exit_node, host, response) := n in
  if via_exit_node : bool then note_if_blocked_via_exit_node host response s else note_if_blocked host response s.

Lemma elem_of_windows n w l : (n <= length l)%nat -> w ∈ windows n l <-> exists a b, l = a ++ w ++ b /\ length w = n.
Proof.
  intros Hn. unfold windows. rewrite list_elem_of_fmap. setoid_rewrite elem_of_seq. split.
  - intros (i & -> & Hi). exists (take i l), (drop n (drop i l)). rewrite take_drop, take_drop, length_take, length_drop. split; [done|lia].
  - intros (a & b & -> & Hw). exists (length a). rewrite drop_app_length, <- Hw, take_app_length. split; [done|]. rewrite !length_app. lia.
Qed.

(** The search decides whether the needle occurs up to the case of ASCII letters. *)
Lemma contains_ascii_ci_spec h n : contains_ascii_ci h n = true <-> exists a w b, h = a ++ w ++ b /\ eq_ignore_ascii_case w n = true.
Proof.
  unfold contains_ascii_ci. assert (forall w, eq_ignore_ascii_case w n = true -> length w = length n) as Hlen.
  { intros w H%bool_decide_eq_true. apply (f_equal length) in H. unfold to_ascii_lowercase in H. by rewrite !length_fmap in H. }
  case_bool_decide as E; [subst; split; [intros _; by exists [], [], h|done]|]. destruct (Nat.ltb_spec (length h) (length n)) as [Hs|Hs].
  - split; [done|]. intros (a & w & b & -> & Hw%Hlen). rewrite !length_app in Hs. lia.
  - rewrite existsb_exists. setoid_rewrite <- list_elem_of_In. setoid_rewrite elem_of_windows; [|done]. split.
    + intros (w & (a & b & -> & _) & Hw). by exists a, w, b.
    + intros (a & w & b & -> & Hw). exists w. split; [exists a, b; auto|done].
Qed.

(** What was logged agrees with the sets. *)
Record hints_ok (s : Hints) : Prop := {
  ho_nodup : NoDup (fst <$> logged s);
  ho_direct : forall h, h ∈ seen_set s <-> (false, h) ∈ fst <$> logged s;
  ho_exit : forall h, h ∈ seen_set_exit_node s <-> (true, h) ∈ fst <$> logged s
}.

Lemma logged_after s n x : x ∈ fst <$> logged (note s n) -> hints_ok s -> x ∈ fst <$> logged s \/ (exists cdn, detect (snd n) = Some cdn) /\ x = (fst (fst n), normalize_host (snd (fst n))).
Proof.
  destruct n as [[[] host] response]; cbn [note fst snd]; unfold note_if_blocked, note_if_blocked_via_exit_node; (destruct (detect response) as [cdn|]; [|auto]);
    cbn; case_bool_decide; cbn; auto; rewrite fmap_app; intros [?|Hx%list_elem_of_singleton]%elem_of_app _; eauto.
Qed.

Lemma note_ok s n : hints_ok s -> hints_ok (note s n).
Proof.
  intros [N D X]. destruct n as [[[] host] response]; cbn [note]; unfold note_if_blocked, note_if_blocked_via_exit_node; (destruct (detect response) as [cdn|]; [|done]);
    cbn; case_bool_decide as Hin; constructor; cbn; rewrite ?fmap_app.
  - apply NoDup_app. split_and!; [done| |apply NoDup_singleton]. intros x Hx ->%list_elem_of_singleton. by apply Hin, X.
  - intros h. rewrite D, elem_of_app. cbn. set_solver.
  - intros h. rewrite elem_of_union, elem_of_singleton, X, elem_of_app. cbn. set_solver.
  - done.
  - done.
  - intros h. rewrite elem_of_union, elem_of_singleton, X. split; [|auto]. intros [->|?]; [|done]. by rewrite <- X.
  - apply NoDup_app. split_and!; [done| |apply NoDup_singleton]. intros x Hx ->%list_elem_of_singleton. by apply Hin, D.
  - intros h. rewrite elem_of_union, elem_of_singleton, D, elem_of_app. cbn. set_solver.
  - intros h. rewrite X, elem_of_app. cbn. set_solver.
  - done.
  - intros h. rewrite elem_of_union, elem_of_singleton, D. split; [|auto]. intros [->|?]; [|done]. by rewrite <- D.
  - done.
Qed.

Lemma note_grows s n x : x ∈ fst <$> logged s -> x ∈ fst <$> logged (note s n).
Proof.
  destruct n as [[[] host] response]; cbn [note]; unfold note_if_blocked, note_if_blocked_via_exit_node; (destruct (detect response) as [cdn|]; [|done]);
    cbn; case_bool_decide; cbn; rewrite ?fmap_app; set_solver.
Qed.

Lemma note_logs s via host response cdn : hints_ok s -> detect response = Some cdn -> (via, normalize_host host) ∈ fst <$> logged (note s (via, host, response)).
Proof.
  intros H Hd. pose proof (note_ok s (via, host, response) H) as [_ D X].
  destruct via; [apply X|apply D]; cbn [note]; unfold note_if_blocked, note_if_blocked_via_exit_node; rewrite Hd; apply elem_of_union_l, elem_of_singleton_2; done.
Qed.

Lemma notes_ok notes s : hints_ok s -> hints_ok (fold_left note notes s).
Proof. revert s. induction notes as [|n notes IH]; intros s Hs; [done|]. by apply IH, note_ok. Qed.

(** The user is told once: over any sequence of responses, each host, up to case and trailing
    dots, gets at most one hint per path, and exactly the hosts with a blocked response on
    that path get one; the path through the exit node is not silenced by the direct one. *)
Theorem one_hint_per_host (notes : list (bool * str * bytes)) :
  let s := fold_left note notes hints_new in
  NoDup (fst <$> logged s)
  /\ forall via h, (via, h) ∈ fst <$> logged s <-> exists host response cdn, (via, host, response) ∈ notes /\ detect response = Some cdn /\ h = normalize_host host.
Proof.
  assert (hints_ok hints_new) as H0. { constructor; cbn; [constructor| |]; intros h; split; [by intros ?%not_elem_of_empty|by intros ?%not_elem_of_nil|by intros ?%not_elem_of_empty|by intros ?%not_elem_of_nil]. }
  split; [apply ho_nodup, notes_ok, H0|]. induction notes as [|n notes IH] using rev_ind; intros via h.
  - split; [by intros ?%not_elem_of_nil|]. by intros (? & ? & ? & ?%not_elem_of_nil & _).
  - rewrite fold_left_app. cbn [fold_left]. pose proof (notes_ok notes hints_new H0) as Hs. generalize dependent (fold_left note notes hints_new). intros s IH Hs. split.
    + intros [Hx|[[cdn Hd] Hx]]%logged_after; [| |done].
      * apply IH in Hx as (host & response & cdn & Hin & ? & ?). exists host, response, cdn. split; [by apply elem_of_app; left|done].
      * destruct n as [[via' host] response]. injection Hx as -> ->. exists host, response, cdn. split; [apply elem_of_app; right; by apply list_elem_of_singleton|done].
    + intros (host & response & cdn & [Hin|<-%list_elem_of_singleton]%elem_of_app & Hd & ->); [|by eapply note_logs].
      apply note_grows, IH. by exists host, response, cdn.
Qed.

(** A response is taken for a block exactly for a marker in its first 16 KiB, in any case: one
    of Cloudflare's, Akamai's error host, or Akamai's server name with a status that denies. *)
Theorem block_recognised (response : bytes) :
  let holds mark := exists a w b, take BLOCK_PREFIX response = a ++ w ++ b /\ eq_ignore_ascii_case w mark = true in
  is_Some (detect response) <->
    holds (lit "errors.edgesuite.net")
    \/ (holds (lit "AkamaiGHost") /\ exists code, parse_status_code (take BLOCK_PREFIX response) = Some code /\ code ∈ [401; 403; 429; 451; 503])
    \/ exists mark, mark ∈ CF_MARKS /\ holds mark.
Proof.
  intros holds. assert (forall m, contains_ascii_ci (take BLOCK_PREFIX response) m = true <-> holds m) as Hc by (intros m; apply contains_ascii_ci_spec).
  unfold detect. generalize dependent (take BLOCK_PREFIX response). intros prefix holds Hc.
  assert (default false (is_deny_status <$> parse_status_code prefix) = true <-> exists code, parse_status_code prefix = Some code /\ code ∈ [401; 403; 429; 451; 503]) as Hd.
  { destruct (parse_status_code prefix) as [code|]; cbn [fmap option_fmap option_map default]; [|split; [done|by intros (? & ? & _)]].
    unfold is_deny_status, from_option, id. rewrite bool_decide_eq_true. split; [by exists code|by intros (? & [= ->] & ?)]. }
  assert (existsb (contains_ascii_ci prefix) CF_MARKS = true <-> exists mark, mark ∈ CF_MARKS /\ holds mark) as Hm.
  { rewrite existsb_exists. setoid_rewrite <- list_elem_of_In. by setoid_rewrite Hc. }
  rewrite <- Hc, <- Hc, <- Hd, <- Hm, <- andb_true_iff. destruct (contains_ascii_ci _ _); [split; [auto|by eexists]|].
  destruct (_ && _); [split; [auto|by eexists]|]. destruct (existsb _ _); [split; [auto|by eexists]|]. split; [by intros [? ?]|naive_solver].
Qed.

(** ** The address shown to the user *)

Definition is_share_on_lan (listen_host : str) : bool := bool_decide (trim listen_host ∈ [lit "0.0.0.0"; lit "[::]"; lit "::"]).
Definition is_loopback_only (listen_host : str) : bool :=
  bool_decide (to_ascii_lowercase (trim listen_host) ∈ [lit "127.0.0.1"; lit "localhost"; lit "::1"; lit "[::1]"]).
Definition advertise_proxy_host (listen_host : str) : str :=
  let trimmed := trim listen_host in
  if bool_decide (trimmed = []) || is_share_on_lan trimmed then lit "127.0.0.1" else trimmed.

(** The address advertised can be connected to: never a wildcard, never empty or padded, the
    bind address itself when that is specific; and advertising it again changes nothing.  An
    empty bind address is advertised as loopback but does not count as shared. *)
Theorem advertised_host (listen_host : str) :
  let shown := advertise_proxy_host listen_host in
  shown <> [] /\ trim shown = shown /\ is_share_on_lan shown = false
  /\ (trim listen_host <> [] -> is_share_on_lan listen_host = false -> shown = trim listen_host)
  /\ (is_share_on_lan listen_host = true -> shown = lit "127.0.0.1" /\ is_loopback_only listen_host = false)
  /\ advertise_proxy_host shown = shown /\ is_share_on_lan [] = false.
Proof.
  intros shown. assert (is_share_on_lan (trim listen_host) = is_share_on_lan listen_host) as Ht by (unfold is_share_on_lan; by rewrite trim_trim).
  assert (shown = lit "127.0.0.1" \/ shown = trim listen_host /\ trim listen_host <> [] /\ is_share_on_lan listen_host = false) as Hs.
  { unfold shown, advertise_proxy_host. rewrite Ht. case_bool_decide; [by left|]. destruct (is_share_on_lan listen_host); [by left|by right]. }
  split_and!.
  - by destruct Hs as [->|(-> & ? & _)].
  - destruct Hs as [->|(-> & _)]; [done|apply trim_trim].
  - destruct Hs as [->|(-> & _ & ?)]; [done|congruence].
  - intros Hne Hn. unfold shown, advertise_proxy_host. rewrite Ht, Hn, bool_decide_false by done. done.
  - intros Hy. split; [unfold shown, advertise_proxy_host; rewrite Ht, Hy; by rewrite orb_true_r|]. unfold is_share_on_lan in Hy. apply bool_decide_eq_true in Hy.
    unfold is_loopback_only. apply bool_decide_eq_false. rewrite !elem_of_cons in Hy. by destruct Hy as [->|[->|[->|?%not_elem_of_nil]]]; [vm_compute; set_solver..|].
  - destruct Hs as [->|(-> & ? & ?)]; [done|]. unfold advertise_proxy_host. rewrite trim_trim, Ht. rewrite bool_decide_false by done. cbn [orb]. by destruct (is_share_on_lan listen_host).
  - done.
Qed.
